(* ===== verification/_CoqProject ===== *)
-Q . S2P
Prelude.v
Ring.v
Abi.v
Backend.v
MarkFun.v
Sring.v
SringRx.v
SringGsoTx.v
SringGsoRx.v
VringPacked.v
VringInv.v
VringGuest.v
VringHost.v
VringOoo.v
Proxy.v
ProxyInv.v
ProxySys.v
DnHeap.v
DnHt.v
Sched.v
SchedCfg.v
Sess.v
ProxyMain.v
Rr.v
Wf2q.v
Qfq.v
QfqBits.v
QfqInv.v
QfqEnq.v
Pspat.v
Thread.v
Netmap.v
Poll.v
VringView.v
DriverTx.v
DriverVring.v
DriverRx.v
DriverVringRx.v
DriverProgs.v
DriverCtl.v
DriverLife.v
Cqueue.v
