(* ===== verification/Prelude.v ===== *)
(** * A verification development for bpfhv

    bpfhv is a paravirtual network device.  The guest driver (driver/bpfhv.c)
    does not know the layout of the queues: it runs eBPF programs that the
    hypervisor side provides.  The hypervisor side is a process (proxy/) that
    maps the memory of the guests, runs one of three devices over it and
    passes the packets to a network backend or to a packet scheduler
    (sched16/, taken from dummynet).  A control protocol over a socket
    (include/bpfhv-proxy.h) sets a device up.

    ** The parts of the program and the files that model them

    The guest/hypervisor interface, include/bpfhv.h: [Abi].

    The devices.  Each has programs run by the guest (publish and collect
    buffers, ask for interrupts) and routines run by the hypervisor (drain a
    transmit queue, fill a receive queue).
    - sring, proxy/sring.c and sring_progs.c: [Sring] (transmit) and [SringRx]
      (receive), over the geometry and the polling of [Ring];
    - sring_gso, proxy/sring_gso.c and sring_gso_progs.c: [SringGsoTx] and
      [SringGsoRx], over [Ring];
    - vring_packed, proxy/vring_packed.c and vring_packed_progs.c: the data and
      the operations in [VringPacked], the invariant in [VringInv], the guest
      programs in [VringGuest], the hypervisor loops in [VringHost], and the
      out of order interface of the scheduler in [VringOoo].

    What the devices use: [Backend] is the memory map with [translate_addr],
    the statistics of the queues and the network backends of proxy/backend.c;
    [MarkFun] is the packet classifier of proxy/mark_fun.h.

    The control protocol and the process: [Proxy] has the messages and
    [process_guest_message] of proxy/backend.c, [ProxyInv] its properties, and
    [ProxySys] the server loop with any number of clients.

    The scheduler library: [DnHeap] is the heap of sched16/dn_heap.c; [Sched]
    the packet queues, the interface between a scheduling algorithm and its
    user ([sched_enq] and [sched_deq] of sched_main.c) and the FIFO scheduler;
    [Rr] the deficit round robin of dn_sched_rr.c; [Wf2q] the WF2Q+ of
    dn_sched_wf2q.c; [Qfq] the QFQ of dn_sched_qfq.c, [QfqBits] its bitmaps,
    [QfqInv] its invariant and [QfqEnq] its contract.
    [Pspat] is the scheduler as the packet thread of the process runs it,
    sched16/pspat.c: the cache of packet descriptors, enqueueing, the dequeue
    routines with the rate limiter, the idle step; [Thread] is the packet
    thread in scheduler mode, [process_packets_spin_many] of proxy/backend.c,
    over all the clients with a vring_packed device each; [Poll] is the thread
    of one client without a scheduler, [process_packets_poll] and
    [process_packets_spin], over the interface [BeOps] of the devices, which
    sring and vring_packed implement.  [Netmap] is the netmap backend,
    [netmap_recv] and [netmap_send].  [Cqueue] is the circular queue of
    sched16/cqueue.c.

    The data path of the guest driver, driver/bpfhv.c: [DriverTx] (transmit)
    and [DriverRx] (receive) are proved against what the driver relies on in
    the programs it loads, the interfaces [TxProgsOk] and [RxProgsOk];
    [VringView] is a view of a vring_packed queue as the driver sees it, and
    [DriverVring] and [DriverVringRx] show that the programs of vring_packed
    keep the interfaces.

    Its control path: [DriverProgs] is the set-up and the teardown of the
    programs, with the fixup of their helper calls, and of the contexts of the
    queues; [DriverCtl] the interrupts, the features, [bpfhv_probe] with its
    error exits and [bpfhv_remove]; [DriverLife] opening, closing and upgrading
    the interface, as a state monad with the faults that stop the kernel.

    [DnHt] is the hash table of sched16/dn_heap.c, its chains as links in
    memory, and [SchedCfg] the configuration of the scheduler, [getnum],
    [parse_flowsets] and [init] of sched16/sched_main.c.

    [ProxyMain] is the main program of the process: the options, the creation
    of the scheduler with its configuration, the network interfaces of
    [setup_backend], the server loop with its table of descriptors (an
    implementation of the server of [ProxySys]) and the handler of SIGINT.
    [Sess] has [split_arg], [safe_write] and [do_socket] of sched16/sess.c.

    In every file a [Module] holds the definitions that translate the code,
    under the names of the code, and the rest of the file the theorems.
    Records are the structures, with the fields of the code; a pointer is an
    address, 0 for [NULL], and memory reached through pointers is a finite map
    where the aliasing matters (the linked list of round robin, the positions
    that three heaps share).  Integers are [Z], with the conversions of this
    file where an operation of the code can leave its type; a signed operation
    that overflows, which C leaves undefined, wraps as on the machine.  Where
    a theorem needs that a count stays in its type it says so.

    ** What the theorems show

    - Devices: each hypervisor loop equals a reference that processes the list
      of the buffers that the guest has published, in order, up to the budget
      or to a refusal by the backend; the guest programs append to and take
      from the same lists, so that what comes out is what went in.  The
      invariant of the queue holds whatever the other side does between two
      steps.  No interrupt and no kick is lost: a side that goes to sleep has
      asked to be woken for the next event.  Buffers released out of order are
      each given back once.
    - Memory: [translate_addr] only returns addresses inside a mapping, but for
      an address whose end wraps around; the classifier reads only inside the
      packet; contexts are inside guest memory.
    - Control protocol: the invariant of the server holds under any sequence of
      connections and messages that stays within the 128 entries of the array
      of instances; the file descriptors that come with a message that is
      answered are each held or closed once (the error exits leak them, as a
      finding says); when the packet thread runs, both directions were set up.
    - Scheduler library: the heap is a heap, extracts the minimum and keeps
      track of positions; round robin is work conserving and fair, with a
      bound that does not depend on the length of the run; WF2Q+ serves the
      smallest finish time among the eligible queues, as long as its heaps can
      grow; QFQ always finds a packet with its bitmaps, in a group that is
      eligible, and drops a packet exactly when a queue is full; each algorithm
      keeps the contract [DnAlgOk], against which the code that drives a scheduler is
      verified.
    - Packet thread: every descriptor of the cache is free, in the scheduler
      or lost by a counted drop; a turn releases exactly the packets that it
      takes from the scheduler, and the link rate is respected, with no credit
      for the time the link was idle.  With a scheduler that has room for the
      packets, and marks that it accepts, each client gets back its own
      buffers, each of them once.
      The polling thread sleeps only when whatever may need its attention
      wakes it up, on any device that keeps the interface [PollDeviceOk].
    - Netmap: a packet is cut into slots and put together again, whatever the
      way the buffers on the two sides are cut.
    - Circular queues: under any interleaving of the single stores of the
      client and the single reads of the scheduler, if the stores are seen in
      order and the copy reads a length before the pointer, the packets come out
      in order, each once, and the client sees each mark; a copy that reads the
      pointer first can be torn.
    - Guest driver: each packet, page and DMA mapping is accounted for once,
      and released when the device is closed; a queue that is stopped, or a
      poll that ends, has asked for the interrupt that resumes it.  The
      theorems say where they need that DMA mappings and allocations succeed.
    - Control path of the guest driver: whatever set-ups run and however they
      end, each program and each context is released once; a probe that fails
      gives back, in the reverse order, all that it had acquired; no sequence
      of open, stop and upgrade meets a null program or context, or waits for
      ever, as long as the set-ups and the openings succeed; the queues of the
      device, the carrier and the transmit queues are on exactly when the
      interface runs and is not broken.
    - Hash table: it is a finite map from keys to objects, under insertion,
      lookup, removal, scan and deletion, for the flags that the code
      implements as they are documented.
    - Configuration: a printed list of flowsets, with a number of flows that
      fits an [int], is read back by the two passes as that list, and each flow
      is linked to its flowset.
    - Main program: the options are within their ranges when the server starts,
      the scheduler has the configuration of the arguments after the options,
      every mark that it accepts has a queue and a flowset, and the table of
      descriptors implements the abstract server.
    - A few theorems show what the code does where it is not what it means to
      do; these are the findings of the manifest.

    ** Concurrency

    The two sides of a queue run concurrently on shared memory.  A routine
    reads the fields of the other side at given points; between two such
    points it is one step, and at each point the other side may have done
    anything it is allowed to: a list of actions ([interfere] and [hv_step] in
    [Ring], the relations [sync] and [hv_rely] in [VringInv]).  Memory barriers
    are taken to do their work.  A guest that changes a descriptor or the bytes of a
    packet after it has published it, between two reads of the same field, is
    not modelled.  [Cqueue] is finer: each store of the client and each read of
    the scheduler's copy is a step of its own.

    ** Fuel

    Loops that are not structural take fuel, and run out with an explicit
    result or with a value that the theorems show is not reached.  [poll_fuel]
    and [push_fuel] of the sring loops and the budgets of the vring loops
    (more than the 128 of the code) bound the descriptors examined in a batch;
    [bubble_up] takes one turn for each ancestor, [move_hole] and [scan_loop]
    one for each element of the heap; [rr_fuel] is the number of turns after
    which some queue of round robin has the credit for its packet; the loops
    of WF2Q+ take one turn for each element of the heap they empty.  In each
    case the theorem is that the result is reached with that fuel.
    The dequeue loops of [Pspat] take the batch limit, or the number of
    packets in the scheduler; [acquire_fuel] of [Thread] and the loops of the
    driver that clean or refill a queue one turn more than the buffers of the
    queue.
    The copy loops of [Netmap] take one turn for each iovec and each slot.
    The walks of a chain in [DnHt] take two turns more than the links in
    memory, [tokens] of [SchedCfg] one more than the characters of the string.
    [pass] and [safe_write_loop] of [Sess] take one turn more than the
    characters, [stop_loop] of [ProxyMain] one for each instance in use.

    ** Parameters

    What the operating system returns (send and receive on a device, mmap,
    pthread_create, malloc) is a parameter of the definitions that call it,
    and the calls with an effect are recorded in a log where a theorem speaks
    of them.  Loops that only retry an interrupted call are left out.

    ** Not modelled

    The reads and writes of a TAP device, the headers of netmap (parameters of
    [Netmap]), the statistics and their printing, the pid and status files, the
    threads as such (the packet thread is a flag of the server, its work the
    routines above); RED; what is in floating point: the statistics of the
    scheduler, the numbers with a unit of sess.c, the conversions between times
    and clock cycles; the dump functions; the ethtool callbacks and the debug
    files of the guest driver.  sched16/main.c, the stand-alone test of the
    scheduler, uses fields that sched16.h does not have any more and is not
    part of the backend process; tsc.c and udprecv.c are tools for
    measurements.  Code that is not compiled is left out. *)

From stdpp Require Import base list numbers option.
From Stdlib Require Export ZArith Lia.
From stdpp Require Export base list numbers option.

#[global] Open Scope Z_scope.

(** ** Fixed-width integers

    The C sources compute on [uint8_t] .. [uint64_t] and on [int].  A value
    of such a type is a [Z]; every operation that may leave the range of its
    type is followed by the conversion below, which is the conversion the C
    standard prescribes for the unsigned types and the two's complement one
    that the supported compilers implement for the signed ones. *)

Definition wrap (w x : Z) : Z := x mod 2 ^ w.
Definition u8 (x : Z) : Z := wrap 8 x.
Definition u16 (x : Z) : Z := wrap 16 x.
Definition u32 (x : Z) : Z := wrap 32 x.
Definition u64 (x : Z) : Z := wrap 64 x.

Definition swrap (w x : Z) : Z :=
  let y := wrap w x in if y <? 2 ^ (w - 1) then y else y - 2 ^ w.
Definition s32 (x : Z) : Z := swrap 32 x.
Definition s64 (x : Z) : Z := swrap 64 x.

(** C's [!!x] and the conversion of a comparison to [int]. *)
Definition b2z (b : bool) : Z := if b then 1 else 0.
Definition z2b (x : Z) : bool := negb (x =? 0).

(** [x & (1 << bit)] used as a condition. *)
Definition has_flag (x mask : Z) : bool := z2b (Z.land x mask).

(** ** Arithmetic automation

    [warith] exposes the wrap-around of the fixed-width operations as
    Euclidean divisions by literals and calls [lia]. *)

Ltac wunfold :=
  unfold u8, u16, u32, u64, s32, s64, swrap, wrap in *;
  repeat match goal with
  | |- context [2 ^ (?a - 1)] => let r := eval vm_compute in (2 ^ (a - 1)) in change (2 ^ (a - 1)) with r
  | H : context [2 ^ (?a - 1)] |- _ => let r := eval vm_compute in (2 ^ (a - 1)) in change (2 ^ (a - 1)) with r in H
  | |- context [2 ^ 8] => change (2 ^ 8) with 256
  | |- context [2 ^ 15] => change (2 ^ 15) with 32768
  | |- context [2 ^ 16] => change (2 ^ 16) with 65536
  | |- context [2 ^ 31] => change (2 ^ 31) with 2147483648
  | |- context [2 ^ 32] => change (2 ^ 32) with 4294967296
  | |- context [2 ^ 63] => change (2 ^ 63) with 9223372036854775808
  | |- context [2 ^ 64] => change (2 ^ 64) with 18446744073709551616
  | H : context [2 ^ 8] |- _ => change (2 ^ 8) with 256 in H
  | H : context [2 ^ 15] |- _ => change (2 ^ 15) with 32768 in H
  | H : context [2 ^ 16] |- _ => change (2 ^ 16) with 65536 in H
  | H : context [2 ^ 31] |- _ => change (2 ^ 31) with 2147483648 in H
  | H : context [2 ^ 32] |- _ => change (2 ^ 32) with 4294967296 in H
  | H : context [2 ^ 63] |- _ => change (2 ^ 63) with 9223372036854775808 in H
  | H : context [2 ^ 64] |- _ => change (2 ^ 64) with 18446744073709551616 in H
  end.

Ltac warith := wunfold; Z.div_mod_to_equations; lia.

(** Turn boolean comparisons on [Z] into propositions. *)
Ltac zify_bool :=
  repeat match goal with
  | H : (_ && _)%bool = true |- _ => apply andb_true_iff in H; destruct H
  | H : (_ || _)%bool = false |- _ => apply orb_false_iff in H; destruct H
  | H : negb _ = true |- _ => apply negb_true_iff in H
  | H : negb _ = false |- _ => apply negb_false_iff in H
  | H : (_ =? _) = true |- _ => apply Z.eqb_eq in H
  | H : (_ =? _) = false |- _ => apply Z.eqb_neq in H
  | H : (_ <? _) = true |- _ => apply Z.ltb_lt in H
  | H : (_ <? _) = false |- _ => apply Z.ltb_ge in H
  | H : (_ <=? _) = true |- _ => apply Z.leb_le in H
  | H : (_ <=? _) = false |- _ => apply Z.leb_gt in H
  end.

(** Case analysis on the first boolean test of the goal. *)
Ltac case_if :=
  match goal with
  | |- context [if ?b then _ else _] =>
      lazymatch b with context [if _ then _ else _] => fail | _ => idtac end;
      destruct b eqn:?; zify_bool
  end.
Ltac case_if_in H :=
  match type of H with
  | context [if ?b then _ else _] =>
      lazymatch b with context [if _ then _ else _] => fail | _ => idtac end;
      destruct b eqn:?; zify_bool
  end.

Create HintDb bpfhv.

(** ** Facts on the fixed-width operations *)

Definition is_u8 (x : Z) : Prop := 0 <= x < 2 ^ 8.
Definition is_u16 (x : Z) : Prop := 0 <= x < 2 ^ 16.
Definition is_u32 (x : Z) : Prop := 0 <= x < 2 ^ 32.
Definition is_u64 (x : Z) : Prop := 0 <= x < 2 ^ 64.

Lemma wrap_range w x : 0 <= w -> 0 <= wrap w x < 2 ^ w.
Proof. intros. apply Z.mod_pos_bound, Z.pow_pos_nonneg; lia. Qed.

Lemma u8_range x : is_u8 (u8 x).
Proof. apply wrap_range; lia. Qed.
Lemma u16_range x : is_u16 (u16 x).
Proof. apply wrap_range; lia. Qed.
Lemma u32_range x : is_u32 (u32 x).
Proof. apply wrap_range; lia. Qed.
Lemma u64_range x : is_u64 (u64 x).
Proof. apply wrap_range; lia. Qed.

Lemma u16_id x : is_u16 x -> u16 x = x.
Proof. apply Z.mod_small. Qed.
Lemma u32_id x : is_u32 x -> u32 x = x.
Proof. apply Z.mod_small. Qed.
Lemma s32_id x : - 2 ^ 31 <= x < 2 ^ 31 -> s32 x = x.
Proof. unfold s32, swrap. intros. case_if; zify_bool; warith. Qed.

(** Wrapping once at the end is enough for sums and products. *)
Lemma s32_mod x : s32 x mod 2 ^ 32 = x mod 2 ^ 32.
Proof. unfold s32, swrap, wrap. case_if; Z.div_mod_to_equations; lia. Qed.

Lemma s32_cong x y : x mod 2 ^ 32 = y mod 2 ^ 32 -> s32 x = s32 y.
Proof. unfold s32, swrap, wrap. by intros ->. Qed.

Lemma s32_range x : - 2 ^ 31 <= s32 x < 2 ^ 31.
Proof. unfold s32, swrap, wrap. case_if; zify_bool; Z.div_mod_to_equations; lia. Qed.

Lemma s32_add_l a b : s32 (s32 a + b) = s32 (a + b).
Proof. apply s32_cong. by rewrite Zplus_mod, s32_mod, <- Zplus_mod. Qed.

Lemma s32_add_r a b : s32 (a + s32 b) = s32 (a + b).
Proof. rewrite (Z.add_comm a (s32 b)), s32_add_l. f_equal. lia. Qed.

Lemma s32_mul_l a b : s32 (s32 a * b) = s32 (a * b).
Proof. apply s32_cong. by rewrite Zmult_mod, s32_mod, <- Zmult_mod. Qed.

Lemma s32_s32 a : s32 (s32 a) = s32 a.
Proof. apply s32_id, s32_range. Qed.
Lemma u64_id x : is_u64 x -> u64 x = x.
Proof. apply Z.mod_small. Qed.

Lemma u32_add_l x y : u32 (u32 x + y) = u32 (x + y).
Proof. apply Z.add_mod_idemp_l; lia. Qed.
Lemma u32_add_r x y : u32 (x + u32 y) = u32 (x + y).
Proof. apply Z.add_mod_idemp_r; lia. Qed.
Lemma u32_idemp x : u32 (u32 x) = u32 x.
Proof. apply Z.mod_mod; lia. Qed.
Lemma u32_sub_l x y : u32 (u32 x - y) = u32 (x - y).
Proof. apply Zminus_mod_idemp_l. Qed.
Lemma u32_sub_r x y : u32 (x - u32 y) = u32 (x - y).
Proof. apply Zminus_mod_idemp_r. Qed.

#[export] Hint Resolve u8_range u16_range u32_range u64_range : bpfhv.
#[export] Hint Rewrite u32_add_l u32_add_r u32_idemp u32_sub_l u32_sub_r : bpfhv.

Lemma z2b_b2z b : z2b (b2z b) = b.
Proof. by destruct b. Qed.

(** The test [n & (n - 1)] for a power of two. *)
Lemma pow2_test n : 0 < n -> Z.land n (n - 1) = 0 <-> exists k, 0 <= k /\ n = 2 ^ k.
Proof.
  intros Hn. split.
  - intros E. exists (Z.log2 n). pose proof (Z.log2_nonneg n).
    pose proof (Z.log2_spec n Hn) as [Hlo Hhi]. split; [done|].
    destruct (decide (n = 2 ^ Z.log2 n)) as [|Hne]; [done|exfalso].
    assert (Hlog : Z.log2 (n - 1) = Z.log2 n) by (apply Z.log2_unique; lia).
    assert (Hb : Z.testbit (Z.land n (n - 1)) (Z.log2 n) = true).
    { rewrite Z.land_spec, Z.bit_log2, <- Hlog, Z.bit_log2 by lia. done. }
    rewrite E, Z.bits_0 in Hb. done.
  - intros (k & Hk & ->). replace (2 ^ k - 1) with (Z.ones k) by (rewrite Z.ones_equiv; lia).
    rewrite Z.land_ones, Z.mod_same by lia. done.
Qed.

(** ** The layout of C structures

    [struct_offsets fields] computes the offset of every field of a C
    structure, a field being given by its size and its alignment in bytes,
    and [struct_size] the value of [sizeof]. *)

Definition align_up (x a : Z) : Z := (x + a - 1) / a * a.

Fixpoint struct_offsets (ofs : Z) (fields : list (Z * Z)) : list Z :=
  match fields with
  | [] => []
  | (sz, al) :: fs =>
      let o := align_up ofs al in o :: struct_offsets (o + sz) fs
  end.

Fixpoint struct_end (ofs : Z) (fields : list (Z * Z)) : Z :=
  match fields with
  | [] => ofs
  | (sz, al) :: fs => struct_end (align_up ofs al + sz) fs
  end.

Definition struct_align (fields : list (Z * Z)) : Z :=
  foldr (fun f a => Z.max (snd f) a) 1 fields.

Definition struct_size (fields : list (Z * Z)) : Z :=
  align_up (struct_end 0 fields) (struct_align fields).

(** A field of a given element type, and an array of them. *)
Definition f8 : Z * Z := (1, 1).
Definition f16 : Z * Z := (2, 2).
Definition f32 : Z * Z := (4, 4).
Definition f64 : Z * Z := (8, 8).
Definition farray (f : Z * Z) (n : Z) : Z * Z := (fst f * n, snd f).
Definition falign (f : Z * Z) (a : Z) : Z * Z := (fst f, Z.max a (snd f)).

(** ** Lists updated by a [Z] index *)

Lemma lookup_total_insert_eq {A} `{!Inhabited A} (l : list A) (i : nat) (x : A) :
  (i < length l)%nat -> <[i := x]> l !!! i = x.
Proof. apply list_lookup_total_insert_eq. Qed.

Lemma lookup_total_insert_ne {A} `{!Inhabited A} (l : list A) (i j : nat) (x : A) :
  i <> j -> <[i := x]> l !!! j = l !!! j.
Proof. apply list_lookup_total_insert_ne. Qed.

Lemma lookup_total_repeat {A} `{!Inhabited A} (x : A) (n i : nat) :
  (i < n)%nat -> repeat x n !!! i = x.
Proof.
  revert i. induction n as [|n IH]; intros i Hi; [lia|]. destruct i as [|i]; [done|].
  simpl. apply IH. lia.
Qed.

(** ** Loops

    [for (;;)] loops are iterations of a step function on the variables of
    the loop; [run] bounds the number of iterations by its fuel and returns
    [None] when the fuel is exhausted.  [run_measure] gives, from an invariant
    and a decreasing measure, both the termination of the loop and what holds
    when it stops. *)

Inductive step (A : Type) : Type :=
| Continue (a : A) : step A
| Break (a : A) : step A.
Arguments Continue {A}.
Arguments Break {A}.

Fixpoint run {A} (iter : A -> step A) (fuel : nat) (a : A) : option A :=
  match fuel with
  | O => None
  | S fuel' =>
      match iter a with
      | Break a' => Some a'
      | Continue a' => run iter fuel' a'
      end
  end.

Lemma run_measure {A} (iter : A -> step A) (I Q : A -> Prop) (mu : A -> Z) :
  (forall a, I a -> 0 <= mu a /\
     match iter a with Continue a' => I a' /\ mu a' < mu a | Break a' => Q a' end) ->
  forall fuel a, I a -> mu a < Z.of_nat fuel -> exists a', run iter fuel a = Some a' /\ Q a'.
Proof.
  intros Hstep fuel. induction fuel as [|fuel IH]; intros a HI Hmu.
  { destruct (Hstep a HI). lia. }
  simpl. destruct (Hstep a HI) as [? Hs]. destruct (iter a) as [a'|a']; [|eauto].
  destruct Hs. apply IH; [done|lia].
Qed.

Lemma run_invariant {A} (iter : A -> step A) (I Q : A -> Prop) :
  (forall a, I a -> match iter a with Continue a' => I a' | Break a' => Q a' end) ->
  forall fuel a a', I a -> run iter fuel a = Some a' -> Q a'.
Proof.
  intros Hstep fuel. induction fuel as [|fuel IH]; intros a a' HI; simpl; [done|].
  pose proof (Hstep a HI) as Hs. destruct (iter a) as [b|b]; [eauto|].
  by intros [= <-].
Qed.

Lemma run_more {A} (iter : A -> step A) fuel fuel' a a' :
  run iter fuel a = Some a' -> (fuel <= fuel')%nat -> run iter fuel' a = Some a'.
Proof.
  revert fuel' a. induction fuel as [|fuel IH]; intros fuel' a; simpl; [done|].
  destruct fuel' as [|fuel']; simpl; [lia|]. destruct (iter a); [|done].
  intros. apply IH; [done|lia].
Qed.

(** Loops whose body may itself fail or diverge ([None]). *)
Fixpoint run_opt {A} (iter : A -> option (step A)) (fuel : nat) (a : A) : option A :=
  match fuel with
  | O => None
  | S fuel' =>
      match iter a with
      | None => None
      | Some (Break a') => Some a'
      | Some (Continue a') => run_opt iter fuel' a'
      end
  end.

Lemma run_opt_measure {A} (iter : A -> option (step A)) (I Q : A -> Prop) (mu : A -> Z) :
  (forall a, I a -> 0 <= mu a /\
     match iter a with
     | Some (Continue a') => I a' /\ mu a' < mu a
     | Some (Break a') => Q a'
     | None => False
     end) ->
  forall fuel a, I a -> mu a < Z.of_nat fuel -> exists a', run_opt iter fuel a = Some a' /\ Q a'.
Proof.
  intros Hstep fuel. induction fuel as [|fuel IH]; intros a HI Hmu.
  { destruct (Hstep a HI). lia. }
  simpl. destruct (Hstep a HI) as [? Hs]. destruct (iter a) as [[a'|a']|]; [|eauto|done].
  destruct Hs. apply IH; [done|lia].
Qed.
