(* ===== verification/Ring.v ===== *)
(** * Free-running ring indices

    The sring and sring_gso devices share one geometry: an array of a power
    of two of descriptors, [qmask = size - 1], and three free-running 32-bit
    counters [clear], [cons] and [prod], a counter [i] designating the entry
    [i & qmask].  This file holds the facts on that geometry that the models
    of proxy/sring.c, proxy/sring_progs.c, proxy/sring_gso.c and
    proxy/sring_gso_progs.c share, for descriptors of any type. *)

From S2P Require Import Prelude.

(** The distance from [a] to [b], i.e. the C expression
    [(uint32_t)(b - a)]. *)
Definition dist (a b : Z) : Z := u32 (b - a).

(** The index of the entry a counter designates: [i & qmask]. *)
Definition slot (qmask i : Z) : nat := Z.to_nat (Z.land i qmask).

(** ** Distances between counters *)

Lemma dist_range a b : 0 <= dist a b < 2 ^ 32.
Proof. apply u32_range. Qed.

Lemma dist_self a : dist a a = 0.
Proof. unfold dist. by rewrite Z.sub_diag. Qed.

Lemma dist_0 a b : is_u32 a -> is_u32 b -> dist a b = 0 <-> a = b.
Proof. unfold dist, is_u32. split; [warith|]. intros ->. warith. Qed.

Lemma dist_add a n : 0 <= n < 2 ^ 32 -> dist a (u32 (a + n)) = n.
Proof. unfold dist. warith. Qed.

Lemma dist_add_r a b n :
  0 <= n -> dist a b + n < 2 ^ 32 -> dist a (u32 (b + n)) = dist a b + n.
Proof. unfold dist. warith. Qed.

Lemma dist_add_l a b n :
  0 <= n <= dist a b -> dist (u32 (a + n)) b = dist a b - n.
Proof. unfold dist. warith. Qed.

Lemma dist_split a b c :
  dist a b + dist b c < 2 ^ 32 -> dist a c = dist a b + dist b c.
Proof. unfold dist. warith. Qed.

Lemma add_dist a b : is_u32 b -> u32 (a + dist a b) = b.
Proof. unfold dist, is_u32. warith. Qed.

#[export] Hint Resolve dist_range : bpfhv.

(** ** Slots *)

Lemma slot_mod k i : 0 <= k -> slot (2 ^ k - 1) i = Z.to_nat (i mod 2 ^ k).
Proof.
  intros. unfold slot.
  replace (2 ^ k - 1) with (Z.ones k) by (rewrite Z.ones_equiv; lia).
  by rewrite Z.land_ones.
Qed.

Lemma mod_u32_pow k i : 0 <= k <= 32 -> u32 i mod 2 ^ k = i mod 2 ^ k.
Proof.
  intros. unfold u32, wrap. apply Z.mod_mod_divide.
  exists (2 ^ (32 - k)). rewrite <- Z.pow_add_r by lia. f_equal. lia.
Qed.

Lemma slot_u32 k i : 0 <= k <= 31 -> slot (2 ^ k - 1) (u32 i) = slot (2 ^ k - 1) i.
Proof. intros. rewrite !slot_mod, mod_u32_pow by lia. done. Qed.

(** Two counters less than a ring apart designate different entries. *)
Lemma slot_ne k i j :
  0 <= k <= 31 -> 0 < dist i j < 2 ^ k -> slot (2 ^ k - 1) i <> slot (2 ^ k - 1) j.
Proof.
  intros Hk Hd Heq. rewrite !slot_mod in Heq by lia.
  assert (0 < 2 ^ k) by lia.
  pose proof (Z.mod_pos_bound i (2 ^ k)). pose proof (Z.mod_pos_bound j (2 ^ k)).
  apply Z2Nat.inj in Heq; [|lia..].
  assert ((j - i) mod 2 ^ k = 0) as E0.
  { rewrite Zminus_mod, Heq, Z.sub_diag. by apply Z.mod_0_l; lia. }
  unfold dist in Hd. rewrite <- (mod_u32_pow k) in E0 by lia.
  rewrite Z.mod_small in E0 by lia. lia.
Qed.

Section ring.
Context {D : Type} `{!Inhabited D}.
Implicit Types (desc : list D) (qmask i : Z) (n : nat).

Definition ring_get desc qmask i : D := desc !!! slot qmask i.
Definition ring_set desc qmask i (d : D) : list D := <[slot qmask i := d]> desc.

(** The [n] descriptors designated by the counters [i], [i+1], ... *)
Fixpoint seg desc qmask i n : list D :=
  match n with
  | O => []
  | S n' => ring_get desc qmask i :: seg desc qmask (u32 (i + 1)) n'
  end.

(** The descriptors between two counters. *)
Definition between desc qmask (a b : Z) : list D :=
  seg desc qmask a (Z.to_nat (dist a b)).

(** A ring of [qmask + 1] entries, a power of two. *)
Definition geometry desc qmask : Prop :=
  exists k, 0 <= k <= 31 /\ qmask = 2 ^ k - 1 /\ Z.of_nat (length desc) = 2 ^ k.


(** ** Reading and writing entries *)

Lemma slot_lt desc qmask i : geometry desc qmask -> (slot qmask i < length desc)%nat.
Proof.
  intros (k & Hk & -> & Hl). rewrite slot_mod by lia.
  pose proof (Z.mod_pos_bound i (2 ^ k)). lia.
Qed.

Lemma geometry_set desc qmask i d :
  geometry desc qmask -> geometry (ring_set desc qmask i d) qmask.
Proof. intros (k & ?). exists k. unfold ring_set. by rewrite length_insert. Qed.

Lemma geometry_size desc qmask : geometry desc qmask -> qmask + 1 = Z.of_nat (length desc).
Proof. intros (k & ? & -> & ->). lia. Qed.

Lemma ring_get_u32 desc qmask i :
  geometry desc qmask -> ring_get desc qmask (u32 i) = ring_get desc qmask i.
Proof. intros (k & ? & -> & _). unfold ring_get. by rewrite slot_u32. Qed.

Lemma ring_get_set_eq desc qmask i d :
  geometry desc qmask -> ring_get (ring_set desc qmask i d) qmask i = d.
Proof. intros. apply lookup_total_insert_eq. by apply slot_lt. Qed.

Lemma ring_get_set_ne desc qmask i j d :
  geometry desc qmask -> 0 < dist i j < qmask + 1 ->
  ring_get (ring_set desc qmask j d) qmask i = ring_get desc qmask i.
Proof.
  intros (k & ? & -> & _) ?. apply lookup_total_insert_ne.
  intros E. symmetry in E. revert E. apply slot_ne; lia.
Qed.

(** ** Segments *)

Lemma length_seg desc qmask i n : length (seg desc qmask i n) = n.
Proof. revert i. induction n as [|n IH]; intros; simpl; [done|]. by rewrite IH. Qed.

Lemma seg_app desc qmask i n m :
  seg desc qmask i (n + m) =
  seg desc qmask i n ++ seg desc qmask (match n with O => i | _ => u32 (i + Z.of_nat n) end) m.
Proof.
  revert i. induction n as [|n IH]; intros i; simpl; [done|]. f_equal. rewrite IH. f_equal.
  destruct n; [done|].
  rewrite u32_add_l. f_equal. f_equal. lia.
Qed.

Lemma seg_u32 desc qmask i n :
  geometry desc qmask -> seg desc qmask (u32 i) n = seg desc qmask i n.
Proof.
  intros G. destruct n; simpl; [done|]. by rewrite ring_get_u32, u32_add_l.
Qed.

Lemma seg_split desc qmask i n m :
  geometry desc qmask ->
  seg desc qmask i (n + m) = seg desc qmask i n ++ seg desc qmask (u32 (i + Z.of_nat n)) m.
Proof.
  intros G. rewrite seg_app. destruct n; [|done].
  by rewrite seg_u32, Z.add_0_r.
Qed.

Lemma seg_snoc desc qmask i n :
  geometry desc qmask ->
  seg desc qmask i (S n) = seg desc qmask i n ++ [ring_get desc qmask (u32 (i + Z.of_nat n))].
Proof. intros G. rewrite <- Nat.add_1_r. by rewrite seg_split. Qed.

(** Writing an entry that lies beyond a segment leaves the segment alone. *)
Lemma seg_set_outside desc qmask i j d n :
  geometry desc qmask -> Z.of_nat n <= dist i j < qmask + 1 ->
  seg (ring_set desc qmask j d) qmask i n = seg desc qmask i n.
Proof.
  intros G. revert i. induction n as [|n IH]; intros i Hd; simpl; [done|].
  f_equal.
  - apply ring_get_set_ne; [done|lia].
  - apply IH. rewrite dist_add_l by lia. lia.
Qed.

(** Writing the entry right after a segment appends to it. *)
Lemma seg_set_snoc desc qmask i j d n :
  geometry desc qmask -> is_u32 j -> dist i j = Z.of_nat n -> Z.of_nat n < qmask + 1 ->
  seg (ring_set desc qmask j d) qmask i (S n) = seg desc qmask i n ++ [d].
Proof.
  intros G Hj Hd Hn. rewrite seg_snoc by by apply geometry_set.
  rewrite seg_set_outside by (auto; lia). do 2 f_equal.
  rewrite <- Hd, add_dist by done. by apply ring_get_set_eq.
Qed.

(** Writing an entry inside a segment updates the list. *)
Lemma seg_set_inside desc qmask i d n p :
  geometry desc qmask -> (p < n)%nat -> Z.of_nat n <= qmask + 1 ->
  seg (ring_set desc qmask (u32 (i + Z.of_nat p)) d) qmask i n
  = <[p := d]> (seg desc qmask i n).
Proof.
  intros G Hp Hn. pose proof G as (k & Hk & E & _).
  assert (Hpow : 2 ^ k <= 2 ^ 31) by (apply Z.pow_le_mono_r; lia).
  change (2 ^ 31) with 2147483648 in Hpow.
  apply list_eq. intros q.
  destruct (decide (q < n)%nat) as [Hq|Hq]; last first.
  { rewrite !lookup_ge_None_2; [done|..]; rewrite ?length_insert, length_seg; lia. }
  assert (Hlk : forall desc', geometry desc' qmask ->
     seg desc' qmask i n !! q = Some (ring_get desc' qmask (u32 (i + Z.of_nat q)))).
  { intros desc' G'. replace n with (q + S (n - S q))%nat by lia.
    rewrite seg_split by done. rewrite lookup_app_r; rewrite length_seg; [|lia].
    by rewrite Nat.sub_diag. }
  rewrite Hlk by by apply geometry_set.
  destruct (decide (p = q)) as [->|Hne].
  - rewrite ring_get_set_eq by done. rewrite list_lookup_insert_eq; [done|].
    rewrite length_seg. lia.
  - rewrite list_lookup_insert_ne by done. rewrite Hlk by done. f_equal.
    subst qmask. unfold ring_get, ring_set. apply lookup_total_insert_ne.
    intros Heq. rewrite !slot_u32 in Heq by lia.
    destruct (decide (p < q)%nat).
    + revert Heq. apply slot_ne; [lia|]. unfold dist. warith.
    + symmetry in Heq. revert Heq. apply slot_ne; [lia|]. unfold dist. warith.
Qed.

Lemma between_self desc qmask a : between desc qmask a a = [].
Proof. unfold between. by rewrite dist_self. Qed.

Lemma length_between desc qmask a b :
  Z.of_nat (length (between desc qmask a b)) = dist a b.
Proof. unfold between. rewrite length_seg. pose proof (dist_range a b). lia. Qed.

Lemma between_split desc qmask a b c :
  geometry desc qmask -> is_u32 b -> dist a b + dist b c < 2 ^ 32 ->
  between desc qmask a c = between desc qmask a b ++ between desc qmask b c.
Proof.
  intros G Hb Hd. unfold between.
  pose proof (dist_range a b). pose proof (dist_range b c).
  rewrite (dist_split a b c Hd), Z2Nat.inj_add, seg_split, Z2Nat.id, add_dist by (done || lia).
  done.
Qed.

Lemma between_cons desc qmask a b :
  is_u32 a -> is_u32 b -> a <> b ->
  between desc qmask a b = ring_get desc qmask a :: between desc qmask (u32 (a + 1)) b.
Proof.
  intros Ha Hb Hne. unfold between. pose proof (dist_range a b).
  assert (dist a b <> 0) by (by rewrite dist_0).
  rewrite dist_add_l by lia.
  replace (Z.to_nat (dist a b)) with (S (Z.to_nat (dist a b - 1))) by lia. done.
Qed.

Lemma between_set_outside desc qmask a b j d :
  geometry desc qmask -> dist a b <= dist a j < qmask + 1 ->
  between (ring_set desc qmask j d) qmask a b = between desc qmask a b.
Proof.
  intros G Hd. unfold between. apply seg_set_outside; [done|].
  pose proof (dist_range a b). lia.
Qed.

(** Publishing: writing the entry at [b] and advancing [b]. *)
Lemma between_publish desc qmask a b d :
  geometry desc qmask -> is_u32 b -> dist a b < qmask + 1 ->
  between (ring_set desc qmask b d) qmask a (u32 (b + 1)) = between desc qmask a b ++ [d].
Proof.
  intros G Hb Hd. unfold between. pose proof (dist_range a b).
  pose proof G as (k & Hk & E & _).
  assert (Hpow : 2 ^ k <= 2 ^ 31) by (apply Z.pow_le_mono_r; lia).
  change (2 ^ 31) with 2147483648 in Hpow. change (2 ^ 32) with 4294967296 in *.
  rewrite dist_add_r by (change (2 ^ 32) with 4294967296; lia).
  replace (Z.to_nat (dist a b + 1)) with (S (Z.to_nat (dist a b))) by lia.
  apply seg_set_snoc; [done..|lia|lia].
Qed.

End ring.

(** ** The shared context of a ring device

    proxy/sring.h and proxy/sring_gso.h declare four contexts with the same
    members in the same order ([struct sring_tx_context],
    [struct sring_rx_context], [struct sring_gso_tx_context],
    [struct sring_gso_rx_context]), which differ in the type of the
    descriptors and in the name of the second member: [intr_at] on the
    transmit side, [intr_enabled] on the receive side.  [ring D] models them,
    [intr] being that member; the padding is not kept. *)
Record ring (D : Type) := mk_ring {
  prod : Z;
  intr : Z;
  cons : Z;
  kick_enabled : Z;
  qmask : Z;
  clear : Z;
  desc : list D;
}.
Arguments mk_ring {D}.
Arguments prod {D}.
Arguments intr {D}.
Arguments cons {D}.
Arguments kick_enabled {D}.
Arguments qmask {D}.
Arguments clear {D}.
Arguments desc {D}.

Section ring_ops.
Context {D : Type} `{!Inhabited D}.
Implicit Types r : ring D.

Definition set_prod x r := mk_ring x (intr r) (cons r) (kick_enabled r) (qmask r) (clear r) (desc r).
Definition set_intr x r := mk_ring (prod r) x (cons r) (kick_enabled r) (qmask r) (clear r) (desc r).
Definition set_cons x r := mk_ring (prod r) (intr r) x (kick_enabled r) (qmask r) (clear r) (desc r).
Definition set_kick_enabled x r := mk_ring (prod r) (intr r) (cons r) x (qmask r) (clear r) (desc r).
Definition set_clear x r := mk_ring (prod r) (intr r) (cons r) (kick_enabled r) (qmask r) x (desc r).
Definition set_desc (x : list D) r : ring D := mk_ring (prod r) (intr r) (cons r) (kick_enabled r) (qmask r) (clear r) x.

(** [priv->desc + (i & priv->qmask)], read and written. *)
Definition get_desc (i : Z) r : D := ring_get (desc r) (qmask r) i.
Definition put_desc (i : Z) (d : D) r : ring D := set_desc (ring_set (desc r) (qmask r) i d) r.

(** *** The abstract view

    A ring is a two-stage FIFO queue: the descriptors the guest has published
    and the hypervisor has not consumed yet ([pending]), and those the
    hypervisor has consumed and the guest has not collected yet
    ([completed]). *)
Definition pending r : list D := between (desc r) (qmask r) (cons r) (prod r).
Definition completed r : list D := between (desc r) (qmask r) (clear r) (cons r).

Record fifo := mk_fifo { f_pending : list D; f_completed : list D }.
Definition abs r : fifo := mk_fifo (pending r) (completed r).

(** Descriptors in flight. *)
Definition in_flight r : Z := dist (clear r) (cons r) + dist (cons r) (prod r).

Definition ring_ok r : Prop :=
  geometry (desc r) (qmask r) /\ is_u32 (prod r) /\ is_u32 (cons r) /\ is_u32 (clear r) /\
  in_flight r <= qmask r + 1.

(** A fresh ring of [n] entries, as the [*_ctx_init] functions build it. *)
Definition ring_init (d0 : D) (n intr0 : Z) : ring D :=
  mk_ring 0 intr0 0 1 (n - 1) 0 (repeat d0 (Z.to_nat n)).

Lemma ring_init_ok d0 k intr0 : 0 <= k <= 31 -> ring_ok (ring_init d0 (2 ^ k) intr0).
Proof.
  intros Hk. assert (0 < 2 ^ k) by lia. unfold ring_ok, is_u32, in_flight; simpl.
  rewrite dist_self. repeat split; try lia.
  exists k. repeat split; [lia..|]. rewrite repeat_length. lia.
Qed.

Lemma ring_init_abs d0 n intr0 : abs (ring_init d0 n intr0) = mk_fifo [] [].
Proof. unfold abs, pending, completed. simpl. by rewrite !between_self. Qed.

Lemma qmask_bound r : ring_ok r -> 0 <= qmask r /\ qmask r + 1 <= 2 ^ 31.
Proof.
  intros ((k & Hk & -> & _) & _).
  assert (2 ^ k <= 2 ^ 31) by (apply Z.pow_le_mono_r; lia).
  assert (0 < 2 ^ k) by lia. lia.
Qed.

Lemma length_pending r : Z.of_nat (length (pending r)) = dist (cons r) (prod r).
Proof. apply length_between. Qed.

Lemma length_completed r : Z.of_nat (length (completed r)) = dist (clear r) (cons r).
Proof. apply length_between. Qed.

(** The index computed for any counter designates an entry of the array. *)
Lemma get_desc_in_bounds r i : ring_ok r -> (slot (qmask r) i < length (desc r))%nat.
Proof. intros [G _]. by apply slot_lt. Qed.

(** *** Transitions of the abstract view *)

(** The guest writes the descriptor at [prod] and advances [prod]. *)
Definition publish (d : D) r : ring D := set_prod (u32 (prod r + 1)) (put_desc (prod r) d r).

Lemma publish_refines d r :
  ring_ok r -> in_flight r < qmask r + 1 ->
  ring_ok (publish d r) /\ in_flight (publish d r) = in_flight r + 1 /\
  abs (publish d r) = mk_fifo (pending r ++ [d]) (completed r).
Proof.
  intros Hok Hroom. pose proof (qmask_bound r Hok) as [? Hq].
  destruct Hok as (G & Hp & Hc & Hcl & Hfl). unfold in_flight in *.
  pose proof (dist_range (clear r) (cons r)). pose proof (dist_range (cons r) (prod r)).
  change (2 ^ 31) with 2147483648 in *.
  assert (Hd : dist (cons r) (u32 (prod r + 1)) = dist (cons r) (prod r) + 1)
    by (apply dist_add_r; lia).
  unfold ring_ok, in_flight, abs, pending, completed; simpl. rewrite Hd.
  repeat split; [by apply geometry_set|apply u32_range|apply u32_range|apply Hc|apply Hc|
                 apply Hcl|apply Hcl|lia|lia|].
  f_equal.
  - apply between_publish; [done..|lia].
  - apply between_set_outside; [done|].
    rewrite (dist_split (clear r) (cons r) (prod r)) by lia. lia.
Qed.

(** The guest collects the descriptor at [clear] and advances [clear]. *)
Definition collect r : ring D := set_clear (u32 (clear r + 1)) r.

Lemma collect_refines r :
  ring_ok r -> clear r <> cons r ->
  ring_ok (collect r) /\ in_flight (collect r) = in_flight r - 1 /\
  completed r = get_desc (clear r) r :: completed (collect r) /\
  pending (collect r) = pending r.
Proof.
  intros (G & Hp & Hc & Hcl & Hfl) Hne. unfold ring_ok, in_flight in *; simpl.
  pose proof (dist_range (clear r) (cons r)).
  assert (dist (clear r) (cons r) <> 0) by (by rewrite dist_0).
  assert (Hd : dist (u32 (clear r + 1)) (cons r) = dist (clear r) (cons r) - 1)
    by (apply dist_add_l; lia).
  rewrite Hd. repeat split; try done; try apply Hp; try apply Hc; try apply u32_range; try lia.
  by apply between_cons.
Qed.

(** The hypervisor moves [cons] forward over published descriptors. *)
Lemma consume_refines c r :
  ring_ok r -> is_u32 c -> dist (cons r) c <= dist (cons r) (prod r) ->
  ring_ok (set_cons c r) /\ in_flight (set_cons c r) = in_flight r /\
  pending r = between (desc r) (qmask r) (cons r) c ++ pending (set_cons c r) /\
  completed (set_cons c r) = completed r ++ between (desc r) (qmask r) (cons r) c.
Proof.
  intros Hok Hu Hd. pose proof (qmask_bound r Hok) as [? Hq].
  destruct Hok as (G & Hp & Hc & Hcl & Hfl). unfold in_flight in *.
  pose proof (dist_range (clear r) (cons r)). pose proof (dist_range (cons r) c).
  change (2 ^ 31) with 2147483648 in *.
  assert (E1 : dist c (prod r) = dist (cons r) (prod r) - dist (cons r) c).
  { rewrite <- (add_dist (cons r) c) at 1 by done. apply dist_add_l. lia. }
  assert (E2 : dist (clear r) c = dist (clear r) (cons r) + dist (cons r) c)
    by (apply dist_split; lia).
  unfold ring_ok, in_flight, pending, completed; simpl.
  rewrite E1, E2. repeat split; try done; try apply Hp; try apply Hu; try apply Hcl; try lia.
  - rewrite <- between_split; [done|done|done|lia].
  - rewrite <- between_split; [done|done|done|lia].
Qed.

(** Rewriting a published descriptor in place. *)
Lemma rewrite_refines d r n :
  ring_ok r -> 0 <= n < dist (cons r) (prod r) ->
  ring_ok (put_desc (u32 (cons r + n)) d r) /\
  pending (put_desc (u32 (cons r + n)) d r) = <[Z.to_nat n := d]> (pending r) /\
  completed (put_desc (u32 (cons r + n)) d r) = completed r.
Proof.
  intros Hok Hn. pose proof (qmask_bound r Hok) as [? Hq].
  destruct Hok as (G & Hp & Hc & Hcl & Hfl). unfold in_flight in *.
  pose proof (dist_range (clear r) (cons r)).
  change (2 ^ 31) with 2147483648 in *.
  unfold ring_ok, in_flight, pending, completed; simpl. repeat split.
  - by apply geometry_set.
  - apply Hp.
  - apply Hp.
  - apply Hc.
  - apply Hc.
  - apply Hcl.
  - apply Hcl.
  - done.
  - unfold between. rewrite <- (Z2Nat.id n) at 1 by lia.
    apply seg_set_inside; [done|lia|lia].
  - apply between_set_outside; [done|].
    assert (Hn' : dist (cons r) (u32 (cons r + n)) = n) by (apply dist_add; lia).
    rewrite (dist_split (clear r) (cons r) (u32 (cons r + n))) by lia. lia.
Qed.

(** *** What the guest may do while the hypervisor runs

    The guest owns [prod], [intr] and [clear] and the descriptors that are
    not pending: it publishes more descriptors, collects completed ones and
    asks for interrupts; it never touches [cons], [kick_enabled] or the
    pending descriptors. *)
Definition guest_step r r' : Prop :=
  ring_ok r' /\ cons r' = cons r /\ kick_enabled r' = kick_enabled r /\ qmask r' = qmask r /\
  (exists new, pending r' = pending r ++ new) /\ (exists gone, completed r = gone ++ completed r').

Definition guest_rely (g : ring D -> ring D) : Prop :=
  forall r, ring_ok r -> guest_step r (g r).

(** The guest actions that take place before the next reads of [prod]: each
    read consumes one of them, and none is left when the list is empty. *)
Definition interfere (gs : list (ring D -> ring D)) r : ring D * list (ring D -> ring D) :=
  match gs with
  | [] => (r, [])
  | g :: gs' => (g r, gs')
  end.

Lemma interfere_step gs r r' gs' :
  Forall guest_rely gs -> ring_ok r -> interfere gs r = (r', gs') ->
  guest_step r r' /\ Forall guest_rely gs' /\
  (prod r' <> prod r -> (length gs' < length gs)%nat) /\ (length gs' <= length gs)%nat.
Proof.
  intros HF Hok. destruct gs as [|g gs]; intros [= <- <-].
  - split; [|done]. split_and!; try done; exists []; [by rewrite app_nil_r|done].
  - inversion HF as [|? ? Hg HF']; subst. split; [by apply Hg|]. simpl. split; [done|lia].
Qed.

(** [r] has evolved from [r0] by guest actions and by changes of
    [kick_enabled]. *)
Definition evolved r0 r : Prop :=
  ring_ok r /\ cons r = cons r0 /\ qmask r = qmask r0 /\
  (exists new, pending r = pending r0 ++ new) /\ (exists gone, completed r0 = gone ++ completed r).

Lemma evolved_refl r : ring_ok r -> evolved r r.
Proof. intros. unfold evolved. split_and!; try done; exists []; [by rewrite app_nil_r|done]. Qed.

Lemma evolved_guest r0 r r' : evolved r0 r -> guest_step r r' -> evolved r0 r'.
Proof.
  intros (_ & Ec & Eq & (new & Ep) & (gone & Eg)) (Hok & Ec' & _ & Eq' & (new' & Ep') & (gone' & Eg')).
  unfold evolved. split_and!; [done|congruence..| |].
  - exists (new ++ new'). by rewrite Ep', Ep, app_assoc.
  - exists (gone ++ gone'). by rewrite Eg, Eg', app_assoc.
Qed.

Lemma evolved_kick r0 r k : evolved r0 r -> evolved r0 (set_kick_enabled k r).
Proof. done. Qed.

Lemma guest_step_pending_take r r' n :
  guest_step r r' -> (n <= length (pending r))%nat -> take n (pending r') = take n (pending r).
Proof. intros (_ & _ & _ & _ & (new & ->) & _) Hn. by rewrite take_app_le. Qed.

Lemma guest_step_dist r r' :
  guest_step r r' -> dist (cons r) (prod r) <= dist (cons r') (prod r').
Proof.
  intros (_ & _ & _ & _ & (new & E) & _). rewrite <- !length_pending, E, length_app. lia.
Qed.

(** The entry at distance [n] from [cons] is the [n]-th pending one. *)
Lemma pending_lookup r n :
  ring_ok r -> 0 <= n < dist (cons r) (prod r) ->
  pending r !! Z.to_nat n = Some (get_desc (u32 (cons r + n)) r).
Proof.
  intros (G & _) Hn. unfold pending, between, get_desc.
  replace (Z.to_nat (dist (cons r) (prod r)))
    with (Z.to_nat n + S (Z.to_nat (dist (cons r) (prod r) - n - 1)))%nat by lia.
  rewrite seg_split by done. rewrite lookup_app_r; rewrite length_seg; [|lia].
  rewrite Nat.sub_diag, Z2Nat.id by lia. done.
Qed.

Lemma guest_step_publish d r :
  ring_ok r -> in_flight r < qmask r + 1 -> guest_step r (publish d r).
Proof.
  intros Hok Hroom. destruct (publish_refines d r Hok Hroom) as (Hok' & _ & Habs).
  injection Habs as Ep Ec. unfold guest_step. split_and!; try done; [by exists [d]|].
  exists []. by rewrite Ec.
Qed.

Lemma set_prod_id r : set_prod (prod r) r = r.
Proof. by destruct r. Qed.

(** Publishing several descriptors. *)
Definition publish_all (ds : list D) r : ring D := foldl (fun r d => publish d r) r ds.

Lemma publish_all_refines ds r :
  ring_ok r -> in_flight r + Z.of_nat (length ds) <= qmask r + 1 ->
  ring_ok (publish_all ds r) /\ in_flight (publish_all ds r) = in_flight r + Z.of_nat (length ds) /\
  abs (publish_all ds r) = mk_fifo (pending r ++ ds) (completed r).
Proof.
  revert r. induction ds as [|d ds IH]; intros r Hok Hroom; simpl in *.
  - rewrite app_nil_r. split_and!; [done|lia|done].
  - destruct (publish_refines d r Hok ltac:(lia)) as (Hok' & Hf & Habs).
    injection Habs as Ep Ec.
    destruct (IH (publish d r) Hok') as (Hok2 & Hf2 & Habs2); [rewrite Hf; simpl; lia|].
    split_and!; [done|lia|]. rewrite Habs2, Ep, Ec, <- app_assoc. done.
Qed.

Lemma publish_all_kick ds r : kick_enabled (publish_all ds r) = kick_enabled r.
Proof. revert r. induction ds as [|d ds IH]; intros r; simpl; [done|]. by rewrite IH. Qed.

(** *** What the hypervisor may do while the guest runs a program

    It consumes pending descriptors and changes [kick_enabled]. *)
Definition hv_step r r' : Prop :=
  ring_ok r' /\ clear r' = clear r /\ intr r' = intr r /\ qmask r' = qmask r /\
  dist (clear r) (cons r) <= dist (clear r) (cons r').

Lemma hv_step_refl r : ring_ok r -> hv_step r r.
Proof. intros. unfold hv_step. split_and!; try done; lia. Qed.

(** The completions counted by two reads of [cons], as the interrupt programs
    do it. *)
Lemma hv_step_count r r' :
  ring_ok r -> hv_step r r' ->
  u32 (u32 (cons r - clear r) + u32 (cons r' - cons r)) = Z.of_nat (length (completed r')).
Proof.
  intros Hok (Hok' & Ecl & _ & _ & Hd). rewrite length_completed, Ecl.
  destruct Hok as (_ & _ & Hc & Hcl & _), Hok' as (_ & _ & Hc' & _).
  unfold dist, is_u32 in *. warith.
Qed.

(** A guest action that neither collects completions nor asks for interrupts,
    such as publishing. *)
Definition quiet (g : ring D -> ring D) : Prop :=
  forall r, clear (g r) = clear r /\ intr (g r) = intr r.

(** The hypervisor asks for an interrupt exactly when the counter [intr_at]
    is among those it has just consumed; the arithmetic is modulo 2^32. *)
Lemma notify_window old_cons new_cons intr_at :
  is_u32 old_cons -> is_u32 new_cons -> is_u32 intr_at ->
  (u32 (new_cons - intr_at - 1) <? u32 (new_cons - old_cons)) = true
  <-> dist old_cons intr_at < dist old_cons new_cons.
Proof. unfold is_u32, dist. rewrite Z.ltb_lt. warith. Qed.

(** With [intr_at] set to the [m]-th descriptor after [clear], fewer than [m]
    of them being complete, consuming up to [c] raises an interrupt exactly
    when it completes the [m]-th. *)
Lemma intr_at_reached r c m :
  ring_ok r -> is_u32 c -> dist (cons r) c <= dist (cons r) (prod r) ->
  0 < m <= qmask r + 1 -> intr r = u32 (clear r + m - 1) -> dist (clear r) (cons r) < m ->
  (u32 (c - intr r - 1) <? u32 (c - cons r)) = true <-> m <= dist (clear r) c.
Proof.
  intros Hok Hu Hd Hm Hi Hlt. pose proof (qmask_bound _ Hok) as [_ Hq].
  destruct Hok as (_ & _ & Hc & Hcl & Hf). unfold in_flight in Hf.
  rewrite notify_window by (done || rewrite Hi; apply u32_range). rewrite Hi.
  pose proof (dist_range (cons r) (prod r)). change (2 ^ 31) with 2147483648 in Hq.
  clear Hi. unfold dist, is_u32 in *. warith.
Qed.

Lemma evolved_trans r1 r2 r3 : evolved r1 r2 -> evolved r2 r3 -> evolved r1 r3.
Proof.
  intros (_ & Ec & Eq & (new & Ep) & (gone & Eg)) (Hok & Ec' & Eq' & (new' & Ep') & (gone' & Eg')).
  unfold evolved. split_and!; [done|congruence..| |].
  - exists (new ++ new'). by rewrite Ep', Ep, app_assoc.
  - exists (gone ++ gone'). by rewrite Eg, Eg', app_assoc.
Qed.

Lemma guest_step_evolved r r' : ring_ok r -> guest_step r r' -> evolved r r'.
Proof. intros Hok. apply evolved_guest. by apply evolved_refl. Qed.

(** *** Reclaiming descriptors

    All descriptors in flight, the completed ones first; the guest takes back
    the oldest [n] of them, [cons] being moved along when they include pending
    ones. *)
Definition flying r : list D := between (desc r) (qmask r) (clear r) (prod r).

Lemma flying_app r : ring_ok r -> flying r = completed r ++ pending r.
Proof.
  intros Hok. pose proof (qmask_bound _ Hok) as [_ Hq]. destruct Hok as (G & _ & Hc & _ & Hf).
  unfold in_flight in Hf. change (2 ^ 31) with 2147483648 in Hq.
  apply between_split; [done..|]. change (2 ^ 32) with 4294967296. lia.
Qed.

Lemma length_flying r : ring_ok r -> Z.of_nat (length (flying r)) = in_flight r.
Proof. intros Hok. by rewrite flying_app, length_app, Nat2Z.inj_add, length_completed, length_pending. Qed.

Definition reclaim (n : Z) r : ring D :=
  let c := u32 (clear r + n) in
  set_clear c (if dist (clear r) (cons r) <? n then set_cons c r else r).

Lemma reclaim_refines n r :
  ring_ok r -> 0 <= n <= in_flight r ->
  ring_ok (reclaim n r) /\ in_flight (reclaim n r) = in_flight r - n /\
  flying (reclaim n r) = drop (Z.to_nat n) (flying r) /\
  (n <= dist (clear r) (cons r) -> pending (reclaim n r) = pending r /\
     completed (reclaim n r) = drop (Z.to_nat n) (completed r)).
Proof.
  intros Hok Hn. pose proof (qmask_bound _ Hok) as [_ Hq]. pose proof Hok as (G & Hp & Hc & Hcl & Hf).
  unfold in_flight in Hf, Hn. change (2 ^ 31) with 2147483648 in Hq.
  pose proof (dist_range (clear r) (cons r)) as Hd1. pose proof (dist_range (cons r) (prod r)) as Hd2.
  change (2 ^ 32) with 4294967296 in *.
  assert (Hdp : dist (clear r) (prod r) = dist (clear r) (cons r) + dist (cons r) (prod r))
    by (apply dist_split; lia).
  assert (Hcn : dist (clear r) (u32 (clear r + n)) = n) by (apply dist_add; lia).
  assert (Hpn : dist (u32 (clear r + n)) (prod r) = dist (clear r) (prod r) - n) by (apply dist_add_l; lia).
  assert (Hdrop : forall x, n + dist (u32 (clear r + n)) x < 4294967296 ->
     drop (Z.to_nat n) (between (desc r) (qmask r) (clear r) x)
     = between (desc r) (qmask r) (u32 (clear r + n)) x).
  { intros x Hx. rewrite (between_split _ _ _ (u32 (clear r + n))) by (done || apply u32_range || lia).
    rewrite drop_app_length'; [done|]. pose proof (length_between (desc r) (qmask r) (clear r) (u32 (clear r + n))).
    lia. }
  unfold reclaim, ring_ok, in_flight, flying, pending, completed.
  destruct (dist (clear r) (cons r) <? n) eqn:E; zify_bool; simpl; rewrite ?dist_self, ?Hpn, <- ?Hdrop by lia.
  - split_and!; try done; try apply u32_range; lia.
  - assert (Hkn : dist (u32 (clear r + n)) (cons r) = dist (clear r) (cons r) - n) by (apply dist_add_l; lia).
    rewrite Hkn. split_and!; try done; try apply u32_range; try lia. intros _. split; [done|].
    symmetry. apply Hdrop. lia.
Qed.

(** Overwriting the descriptor just published. *)
Lemma publish_overwrite d d' r :
  is_u32 (prod r) -> put_desc (u32 (prod (publish d r) - 1)) d' (publish d r) = publish d' r.
Proof.
  intros Hp. simpl. replace (u32 (u32 (prod r + 1) - 1)) with (prod r)
    by (rewrite u32_sub_l; replace (prod r + 1 - 1) with (prod r) by lia; by rewrite u32_id).
  unfold publish, put_desc, set_desc, set_prod, ring_set; simpl. by rewrite list_insert_insert_eq.
Qed.

(** *** Polling for work

    The ring with the hypervisor's copy of [prod] and the guest actions still
    to come; [reread] is [prod = ACCESS_ONCE(priv->prod)].  [tx_poll] and
    [rx_poll] are the blocks under [if (unlikely(cons == prod))] of the drain
    and push routines: [true] when there is work, [busy] telling whether the
    caller passed a NULL [can_send] or [can_receive]. *)
Record view := mk_view { v_priv : ring D; v_prod : Z; v_env : list (ring D -> ring D) }.

Definition reread (v : view) : view :=
  let '(priv, env) := interfere (v_env v) (v_priv v) in mk_view priv (prod priv) env.

Definition kicks (enable : Z) (v : view) : view :=
  mk_view (set_kick_enabled (b2z (z2b enable)) (v_priv v)) (v_prod v) (v_env v).

Definition on_priv (f : ring D -> ring D) (v : view) : view := mk_view (f (v_priv v)) (v_prod v) (v_env v).

Definition rx_poll (busy : bool) (cons : Z) (v : view) : bool * view :=
  if negb (cons =? v_prod v) then (true, v)
  else if busy then (false, v)
  else
    let v := reread (kicks 1 v) in
    if cons =? v_prod v then (false, v) else (true, kicks 0 v).

Definition tx_poll (busy : bool) (cons : Z) (v : view) : bool * view :=
  if negb (cons =? v_prod v) then (true, v)
  else
    let v := reread v in
    if negb (cons =? v_prod v) then (true, v) else rx_poll busy cons v.

Definition view_ok (v : view) : Prop :=
  ring_ok (v_priv v) /\ Forall guest_rely (v_env v) /\ v_prod v = prod (v_priv v).

(** What a poll establishes: the ring has only evolved by guest actions; when
    there is work and none was visible before, a guest action was used up;
    when there is none, kicks are enabled unless the caller busy-waits. *)
Definition polled (busy : bool) (cons : Z) (v : view) (res : bool * view) : Prop :=
  view_ok (snd res) /\ evolved (v_priv v) (v_priv (snd res)) /\
  (length (v_env (snd res)) <= length (v_env v))%nat /\
  if fst res then
    cons <> v_prod (snd res) /\
    (snd res = v \/ (cons = v_prod v /\ (length (v_env (snd res)) < length (v_env v))%nat))
  else cons = v_prod (snd res) /\ (busy = false -> kick_enabled (v_priv (snd res)) = 1).

Lemma reread_spec v :
  view_ok v ->
  view_ok (reread v) /\ evolved (v_priv v) (v_priv (reread v)) /\
  kick_enabled (v_priv (reread v)) = kick_enabled (v_priv v) /\
  (length (v_env (reread v)) <= length (v_env v))%nat /\
  (v_prod (reread v) <> v_prod v -> (length (v_env (reread v)) < length (v_env v))%nat).
Proof.
  intros (Hok & HF & Hp). unfold reread. destruct (interfere _ _) as [r' env'] eqn:Hi.
  destruct (interfere_step _ _ _ _ HF Hok Hi) as (Hg & HF' & Hlt & Hle). simpl.
  pose proof Hg as (Hok' & _ & Hk & _). unfold view_ok; simpl.
  split_and!; try done; [by apply guest_step_evolved|]. by rewrite Hp.
Qed.

Lemma rx_poll_spec busy cons v : view_ok v -> polled busy cons v (rx_poll busy cons v).
Proof.
  intros Hv. pose proof Hv as (Hok & _). unfold polled, rx_poll.
  destruct (negb (cons =? v_prod v)) eqn:E; zify_bool; simpl.
  { split_and!; try done; [by apply evolved_refl|by left]. }
  destruct busy; simpl; [split_and!; try done; by apply evolved_refl|].
  destruct (reread_spec (kicks 1 v) Hv) as (Hv' & He & Hk & Hle & Hlt). simpl in He, Hk, Hle, Hlt.
  destruct (cons =? v_prod (reread (kicks 1 v))) eqn:E1; zify_bool; simpl; split_and!; try done.
  right. split; [done|]. apply Hlt. congruence.
Qed.

Lemma tx_poll_spec busy cons v : view_ok v -> polled busy cons v (tx_poll busy cons v).
Proof.
  intros Hv. pose proof Hv as (Hok & _). unfold tx_poll.
  destruct (negb (cons =? v_prod v)) eqn:E; zify_bool; simpl.
  { unfold polled; simpl. split_and!; try done; [by apply evolved_refl|by left]. }
  destruct (reread_spec v Hv) as (Hv' & He & Hk & Hle & Hlt).
  destruct (negb (cons =? v_prod (reread v))) eqn:E1; zify_bool; simpl.
  { unfold polled; simpl. split_and!; try done. right. split; [done|]. apply Hlt. congruence. }
  destruct (rx_poll_spec busy cons _ Hv') as (Hv2 & He2 & Hle2 & Hres).
  split_and!; [done|by eapply evolved_trans|lia|].
  destruct (fst _); [|done]. destruct Hres as [? [E2|[? ?]]]; split_and!; try done; [congruence|].
  right. split; [done|lia].
Qed.

(** A property of the ring that the guest actions to come preserve, and that
    does not depend on [kick_enabled], is preserved by polling. *)
Definition keeps (P : ring D -> Prop) (v : view) : Prop :=
  P (v_priv v) /\ Forall (fun g => forall r, P r -> P (g r)) (v_env v).

Lemma reread_keeps P v : keeps P v -> keeps P (reread v).
Proof.
  intros [HP HF]. unfold reread, interfere. destruct (v_env v) as [|g gs]; [done|].
  inversion HF as [|? ? Hg Hgs]; subst. split; [by apply Hg|done].
Qed.

Lemma rx_poll_keeps P busy c v :
  (forall k r, P r -> P (set_kick_enabled k r)) -> keeps P v -> keeps P (snd (rx_poll busy c v)).
Proof.
  intros Hk Hv. unfold rx_poll. case_if; [done|]. destruct busy; [done|].
  assert (keeps P (reread (kicks 1 v))) as [? ?].
  { destruct Hv as [? ?]. apply reread_keeps. split; [by apply Hk|done]. }
  case_if; [done|]. split; [by apply Hk|done].
Qed.

Lemma tx_poll_keeps P busy c v :
  (forall k r, P r -> P (set_kick_enabled k r)) -> keeps P v -> keeps P (snd (tx_poll busy c v)).
Proof.
  intros Hk Hv. unfold tx_poll. case_if; [done|]. pose proof (reread_keeps P v Hv).
  case_if; [done|]. by apply rx_poll_keeps.
Qed.

(** In particular quiet guests change neither [clear] nor [intr]. *)
Definition quiet_state (c i : Z) (r : ring D) : Prop := clear r = c /\ intr r = i.

Lemma quiet_keeps v :
  Forall quiet (v_env v) -> keeps (quiet_state (clear (v_priv v)) (intr (v_priv v))) v.
Proof.
  intros HF. split; [done|]. revert HF. apply Forall_impl. intros g Hg r [<- <-]. apply Hg.
Qed.

(** The measure of the loops: descriptors left plus a ring for each guest
    action still to come; it does not grow when polling for work. *)
Definition view_measure (cons : Z) (v : view) : Z :=
  dist cons (v_prod v) + (qmask (v_priv v) + 2) * Z.of_nat (length (v_env v)).

Lemma view_measure_nonneg c v : ring_ok (v_priv v) -> 0 <= view_measure c v.
Proof.
  intros Hok. unfold view_measure. pose proof (dist_range c (v_prod v)).
  pose proof (qmask_bound _ Hok). nia.
Qed.

(** The fuel that is always enough for a loop that polls: a whole ring for
    the descriptors that are pending and one for each guest action. *)
Definition poll_fuel (r : ring D) (env : list (ring D -> ring D)) : Z :=
  qmask r + 1 + (qmask r + 2) * Z.of_nat (length env).

Lemma view_measure_start r p env :
  ring_ok r -> p = prod r -> view_measure (cons r) (mk_view r p env) <= poll_fuel r env.
Proof.
  intros (_ & _ & _ & _ & Hf) ->. unfold view_measure, in_flight, poll_fuel in *; simpl.
  pose proof (dist_range (clear r) (cons r)). lia.
Qed.

Lemma polled_measure_any busy c f v v' :
  view_ok v -> polled busy c v (true, v') ->
  dist (cons (v_priv v')) f <= dist (cons (v_priv v')) (prod (v_priv v')) -> is_u32 f ->
  view_measure f v' <= view_measure f v.
Proof.
  intros (Hok & _) ((Hok' & _ & Hp) & (_ & Ec & Eq & _) & Hle & _ & Hor) Hd Hu. simpl in *.
  destruct Hor as [->|[E Hlt]]; [lia|]. unfold view_measure. rewrite Eq.
  pose proof (qmask_bound _ Hok) as [? ?]. pose proof (dist_range f (v_prod v)).
  enough (dist f (v_prod v') <= qmask (v_priv v) + 1) by nia.
  destruct Hok' as (_ & _ & _ & _ & Hf). unfold in_flight in Hf. rewrite Eq, <- Hp in Hf.
  pose proof (dist_range (clear (v_priv v')) (cons (v_priv v'))).
  rewrite <- (add_dist (cons (v_priv v')) f) by done.
  pose proof (dist_range (cons (v_priv v')) f). rewrite Hp in *. rewrite dist_add_l; lia.
Qed.

Lemma polled_measure busy c v v' :
  view_ok v -> polled busy c v (true, v') ->
  dist (cons (v_priv v')) c <= dist (cons (v_priv v')) (prod (v_priv v')) ->
  is_u32 c -> view_measure c v' <= view_measure c v.
Proof. apply polled_measure_any. Qed.

(** The descriptor at [c], when there is one: its position in the pending
    list, and what advancing over it does. *)
Lemma next_pending r c :
  ring_ok r -> is_u32 c -> dist (cons r) c <= dist (cons r) (prod r) -> c <> prod r ->
  pending r !! Z.to_nat (dist (cons r) c) = Some (get_desc c r) /\
  dist (cons r) c < dist (cons r) (prod r) /\
  dist (u32 (c + 1)) (prod r) < dist c (prod r) /\
  dist (cons r) (u32 (c + 1)) = dist (cons r) c + 1.
Proof.
  intros Hok Hu Hd Hne. pose proof Hok as (_ & Hpu & Hcu & _).
  assert (Hlt : dist (cons r) c < dist (cons r) (prod r)).
  { clear -Hd Hne Hu Hpu Hcu. unfold dist, is_u32 in *. warith. }
  pose proof (dist_range (cons r) c). pose proof (dist_range (cons r) (prod r)).
  split_and!; [|done| |apply dist_add_r; lia].
  - rewrite <- (add_dist (cons r) c) at 2 by done. apply pending_lookup; [done|lia].
  - rewrite dist_add_l; [lia|]. clear -Hne Hu Hlt. unfold dist, is_u32 in *. warith.
Qed.

(** The consumer publishes [c] as the new [cons]: the descriptors it went
    through move to the completed ones. *)
Lemma consume_take c r :
  ring_ok r -> is_u32 c -> dist (cons r) c <= dist (cons r) (prod r) ->
  let n := Z.to_nat (dist (cons r) c) in
  ring_ok (set_cons c r) /\
  abs (set_cons c r) = mk_fifo (drop n (pending r)) (completed r ++ take n (pending r)).
Proof.
  intros Hok Hu Hd n. destruct (consume_refines c r Hok Hu Hd) as (Hok2 & _ & Hp & Hcp).
  assert (Hlen : n = length (between (desc r) (qmask r) (cons r) c)).
  { unfold n. rewrite <- (length_between (desc r) (qmask r) (cons r) c). lia. }
  split; [done|]. unfold abs. rewrite Hcp, Hp, Hlen.
  by rewrite drop_app_length, take_app_length.
Qed.

End ring_ops.
Arguments fifo : clear implicits.
