(* ===== verification/Abi.v ===== *)
(** * The guest/hypervisor interface of include/bpfhv.h

    The structures shared by the guest driver, the eBPF programs and the
    hypervisor side of a device: buffers, transmit and receive contexts with
    their flags.  [opaque] is the private area that follows a context, whose
    type depends on the device (sring, sring_gso, vring_packed). *)

From S2P Require Import Prelude.
Open Scope Z_scope.

Record bpfhv_buf := mk_buf {
  buf_cookie : Z;
  buf_paddr : Z;
  buf_vaddr : Z;
  buf_len : Z;
}.

#[export] Instance bpfhv_buf_inhabited : Inhabited bpfhv_buf := populate (mk_buf 0 0 0 0).

Definition BPFHV_MAX_RX_BUFS : Z := 64.
Definition BPFHV_MAX_TX_BUFS : Z := 64.
Definition BPFHV_IFLAGS_INTR_NEEDED : Z := Z.shiftl 1 0.
Definition BPFHV_OFLAGS_KICK_NEEDED : Z := Z.shiftl 1 0.
Definition BPFHV_OFLAGS_RESCHED_NEEDED : Z := Z.shiftl 1 1.

(** [struct bpfhv_tx_context]; [struct bpfhv_rx_context] has the same fields
    with the same types and the same array size, and is modelled by the same
    record at the private type of the receive side. *)
Record bpfhv_context (P : Type) := mk_ctx {
  guest_priv : Z;
  packet : Z;
  num_bufs : Z;
  iflags : Z;
  oflags : Z;
  min_completed_bufs : Z;
  min_intr_nsecs : Z;
  bufs : list bpfhv_buf;
  opaque : P;
}.
Arguments mk_ctx {P}.
Arguments guest_priv {P}.
Arguments packet {P}.
Arguments num_bufs {P}.
Arguments iflags {P}.
Arguments oflags {P}.
Arguments min_completed_bufs {P}.
Arguments min_intr_nsecs {P}.
Arguments bufs {P}.
Arguments opaque {P}.

Definition bpfhv_tx_context (P : Type) : Type := bpfhv_context P.
Definition bpfhv_rx_context (P : Type) : Type := bpfhv_context P.

Section setters.
Context {P : Type}.
Implicit Types c : bpfhv_context P.

Definition set_packet x c := mk_ctx (guest_priv c) x (num_bufs c) (iflags c) (oflags c)
  (min_completed_bufs c) (min_intr_nsecs c) (bufs c) (opaque c).
Definition set_num_bufs x c := mk_ctx (guest_priv c) (packet c) x (iflags c) (oflags c)
  (min_completed_bufs c) (min_intr_nsecs c) (bufs c) (opaque c).
Definition set_oflags x c := mk_ctx (guest_priv c) (packet c) (num_bufs c) (iflags c) x
  (min_completed_bufs c) (min_intr_nsecs c) (bufs c) (opaque c).
Definition set_bufs x c := mk_ctx (guest_priv c) (packet c) (num_bufs c) (iflags c) (oflags c)
  (min_completed_bufs c) (min_intr_nsecs c) x (opaque c).
Definition set_opaque (x : P) c : bpfhv_context P := mk_ctx (guest_priv c) (packet c) (num_bufs c) (iflags c) (oflags c)
  (min_completed_bufs c) (min_intr_nsecs c) (bufs c) x.

(** [ctx->bufs + i], read and written. *)
Definition get_buf (i : Z) c : bpfhv_buf := bufs c !!! Z.to_nat i.
Definition put_buf (i : Z) (b : bpfhv_buf) c : bpfhv_context P :=
  set_bufs (<[Z.to_nat i := b]> (bufs c)) c.

End setters.

(** The fields of [struct bpfhv_buf] and of a context with their sizes, from
    which [sizeof] is computed. *)
Definition bpfhv_buf_layout : list (Z * Z) := [f64; f64; f64; f32; f32].

Definition bpfhv_context_layout : list (Z * Z) :=
  [f64; f64; f32; f32; f32; f32; f32; farray f32 3;
   farray (struct_size bpfhv_buf_layout, struct_align bpfhv_buf_layout) BPFHV_MAX_TX_BUFS;
   farray f8 0].

Definition sizeof_bpfhv_context : Z := struct_size bpfhv_context_layout.

(** ** Device registers and features *)

Definition BPFHV_STATUS_LINK : Z := Z.shiftl 1 0.
Definition BPFHV_STATUS_UPGRADE : Z := Z.shiftl 1 1.
Definition BPFHV_STATUS_RX_ENABLED : Z := Z.shiftl 1 2.
Definition BPFHV_STATUS_TX_ENABLED : Z := Z.shiftl 1 3.

Definition BPFHV_F_SG : Z := Z.shiftl 1 0.
Definition BPFHV_F_TX_CSUM : Z := Z.shiftl 1 1.
Definition BPFHV_F_RX_CSUM : Z := Z.shiftl 1 2.
Definition BPFHV_F_TSOv4 : Z := Z.shiftl 1 3.
Definition BPFHV_F_TCPv4_LRO : Z := Z.shiftl 1 4.
Definition BPFHV_F_TSOv6 : Z := Z.shiftl 1 5.
Definition BPFHV_F_TCPv6_LRO : Z := Z.shiftl 1 6.
Definition BPFHV_F_UFO : Z := Z.shiftl 1 7.
Definition BPFHV_F_UDP_LRO : Z := Z.shiftl 1 8.

(** ** Helper calls

    The eBPF programs call helper functions that the guest driver provides.
    [rx_pkt_alloc] allocates an OS packet for the buffers listed in the
    context and stores it in [packet]; [pkt_data] and [pkt_size] give the
    bytes of the packet to transmit.  They are parameters of the programs. *)
Record bpf_helpers (P : Type) := mk_helpers {
  rx_pkt_alloc : bpfhv_context P -> Z * bpfhv_context P;
  pkt_bytes : bpfhv_context P -> list Z;
}.
Arguments mk_helpers {P}.
Arguments rx_pkt_alloc {P}.
Arguments pkt_bytes {P}.

(** What the driver documents of [rx_pkt_alloc]: it only fills in the packet
    of the context, never the private area of the device. *)
Definition rx_pkt_alloc_frame {P} (h : bpf_helpers P) : Prop :=
  forall c, exists p, snd (rx_pkt_alloc h c) = set_packet p c.
