(* ===== verification/Backend.v ===== *)
(** * The backend data model of proxy/backend.h

    The guest memory map with [translate_addr], the per-queue state and the
    interface of the network backends ([be->send], [be->recv]), with the
    in-tree backends of proxy/backend.c. *)

From S2P Require Import Prelude Abi.
Open Scope Z_scope.

(** ** Memory regions *)

Record BpfhvBackendMemoryRegion := mk_region {
  gpa_start : Z;
  gpa_end : Z;
  region_size : Z;
  hv_vaddr : Z;
  mmap_offset : Z;
  mmap_addr : Z;
  va_start : Z;
}.

Definition region_zero : BpfhvBackendMemoryRegion := mk_region 0 0 0 0 0 0 0.
#[export] Instance region_inhabited : Inhabited BpfhvBackendMemoryRegion := populate region_zero.

Definition BPFHV_PROXY_MAX_REGIONS : Z := 8.
Definition BPFHV_MAX_QUEUES : Z := 16.
Definition BPFHV_BE_TX_BUDGET : Z := 128.
Definition BPFHV_BE_RX_BUDGET : Z := 128.
Definition NULL : Z := 0.

(** The guard of [translate_addr], on 64-bit unsigned arithmetic. *)
Definition region_match (re : BpfhvBackendMemoryRegion) (gpa len : Z) : bool :=
  (gpa_start re <=? gpa) && (u64 (gpa + len) <=? gpa_end re).

(** [for (i = 1; i < num_regions; i++)] up to the first match; [n] bounds the
    iterations left. *)
Fixpoint find_region (regions : list BpfhvBackendMemoryRegion) (gpa len : Z)
    (i n : nat) : option nat :=
  match n with
  | O => None
  | S n' =>
      if region_match (regions !!! i) gpa len then Some i
      else find_region regions gpa len (S i) n'
  end.

(** The memory map of a backend, [be->regions] and [be->num_regions]. *)
Record mem_map := mk_map {
  regions : list BpfhvBackendMemoryRegion;
  num_regions : Z;
}.

Definition region_va (re : BpfhvBackendMemoryRegion) (gpa : Z) : Z :=
  u64 (va_start re + u64 (gpa - gpa_start re)).

(** [translate_addr]: the address, [NULL] on failure, and the memory map, in
    which a match that is not in front is swapped with the first entry. *)
Definition translate_addr (m : mem_map) (gpa len : Z) : Z * mem_map :=
  let re0 := regions m !!! 0%nat in
  if region_match re0 gpa len then (region_va re0 gpa, m)
  else
    match find_region (regions m) gpa len 1 (Z.to_nat (num_regions m) - 1) with
    | None => (NULL, m)
    | Some i =>
        let re := regions m !!! i in
        let rs := <[0%nat := re]> (<[i := re0]> (regions m)) in
        (region_va re gpa, mk_map rs (num_regions m))
    end.

(** ** Queues *)

Record BpfhvBackendQueueStats := mk_stats {
  st_bufs : Z;
  st_pkts : Z;
  st_batches : Z;
  st_kicks : Z;
  st_irqs : Z;
}.
Definition stats_zero : BpfhvBackendQueueStats := mk_stats 0 0 0 0 0.

Definition stats_add_bufs n s := mk_stats (u64 (st_bufs s + n)) (st_pkts s) (st_batches s) (st_kicks s) (st_irqs s).
Definition stats_batch n s := mk_stats (st_bufs s) (u64 (st_pkts s + n)) (u64 (st_batches s + 1)) (st_kicks s) (st_irqs s).
Definition stats_kick s := mk_stats (st_bufs s) (st_pkts s) (st_batches s) (u64 (st_kicks s + 1)) (st_irqs s).
Definition stats_irq s := mk_stats (st_bufs s) (st_pkts s) (st_batches s) (st_kicks s) (u64 (st_irqs s + 1)).

(** The fields of a queue that its processing routines write. *)
Record queue_io := mk_qio {
  q_notify : Z;
  q_stats : BpfhvBackendQueueStats;
}.
Definition set_notify x q := mk_qio x (q_stats q).
Definition upd_stats f q := mk_qio (q_notify q) (f (q_stats q)).

(** ** Network backends *)

Record iovec := mk_iov { iov_base : Z; iov_len : Z }.
#[export] Instance iovec_inhabited : Inhabited iovec := populate (mk_iov 0 0).

Record virtio_net_hdr_v1 := mk_vhdr {
  vh_flags : Z;
  vh_gso_type : Z;
  vh_hdr_len : Z;
  vh_gso_size : Z;
  vh_csum_start : Z;
  vh_csum_offset : Z;
  vh_num_buffers : Z;
}.
Definition vhdr_zero : virtio_net_hdr_v1 := mk_vhdr 0 0 0 0 0 0 0.
Definition VIRTIO_NET_HDR_F_NEEDS_CSUM : Z := 1.
Definition sizeof_virtio_net_hdr_v1 : Z := struct_size [f8; f8; f16; f16; f16; f16; f16].

Definition EAGAIN : Z := 11.

(** [can_send == NULL], [can_receive == NULL]. *)
Definition is_null (p : option Z) : bool := match p with Some _ => false | None => true end.

(** [*can_send = 0] when the backend is blocked. *)
Definition after_send (ret errno : Z) (can_send : option Z) : option Z :=
  match can_send with
  | Some v => if (ret <? 0) && (errno =? EAGAIN) then Some 0 else Some v
  | None => None
  end.

Definition iov_total (iov : list iovec) : Z := foldr (fun v a => iov_len v + a) 0 iov.

Lemma iov_total_snoc iov v : iov_total (iov ++ [v]) = iov_total iov + iov_len v.
Proof. unfold iov_total. induction iov as [|x iov IH]; simpl; [lia|]. rewrite IH. lia. Qed.

(** What [be->send] and [be->recv] return: the [ssize_t] result and [errno].
    When a virtio-net header travels with the packet it is the first iovec in
    the code, in front of the buffers; here a send takes the value of the
    header apart from the iovecs of the buffers, and a receive, given
    [be->vnet_hdr_len], returns the header it stored.  [W] is the state of the
    outside world. *)
Record io_result := mk_io { io_ret : Z; io_errno : Z; io_hdr : virtio_net_hdr_v1 }.

Class NetBackend (W : Type) := {
  be_send : option virtio_net_hdr_v1 -> W -> list iovec -> io_result * W;
  be_recv : Z -> W -> list iovec -> io_result * W;
}.

(** The bytes of the header iovec, if there is one. *)
Definition hdr_bytes (vnet_hdr_len : Z) : Z := if z2b vnet_hdr_len then sizeof_virtio_net_hdr_v1 else 0.

(** What the backends promise of a receive, as readv(2) on a TAP device
    documents: the result is -1 on error, 0 or the number of bytes stored,
    which is at most what the header and the buffers can hold, and a frame is
    not empty after its header. *)
Class NetBackendOk (W : Type) `{NetBackend W} : Prop := {
  recv_bound : forall vh w iov, Forall (fun v => 0 <= iov_len v) iov ->
                 -1 <= io_ret (fst (be_recv vh w iov)) <= hdr_bytes vh + iov_total iov;
  recv_frame : forall vh w iov, 0 < io_ret (fst (be_recv vh w iov)) ->
                 hdr_bytes vh < io_ret (fst (be_recv vh w iov));
}.

(** *** The sink and source backends of proxy/backend.c *)

Fixpoint sink_bytes (bytes : Z) (iov : list iovec) : Z :=
  match iov with
  | [] => bytes
  | v :: iov' => sink_bytes (s64 (bytes + iov_len v)) iov'
  end.

Definition sink_send (iov : list iovec) : Z := sink_bytes 0 iov.

Definition null_recv (iov : list iovec) : Z := 0.

(** The sink backend: it accepts every packet and has none to receive.  Its
    state lists the buffers it was given; the header iovec, if any, counts
    with its length. *)
#[export] Instance sink_backend : NetBackend (list iovec) := {|
  be_send hdr w iov :=
    let hdr_iov := match hdr with Some _ => [mk_iov NULL sizeof_virtio_net_hdr_v1] | None => [] end in
    (mk_io (sink_send (hdr_iov ++ iov)) 0 vhdr_zero, w ++ iov);
  be_recv _ w iov := (mk_io (null_recv iov) 0 vhdr_zero, w);
|}.

(** The bytes of the UDP packet that [source_recv] delivers. *)
Definition udp_pkt : list Z :=
  [0xff; 0xff; 0xff; 0xff; 0xff; 0xff; 0x00; 0x00; 0x00; 0x00; 0x00; 0x00; 0x08; 0x00; 0x45; 0x10;
   0x00; 0x2e; 0x00; 0x00; 0x40; 0x00; 0x40; 0x11; 0x26; 0xad; 0x0a; 0x00; 0x00; 0x01; 0x0a; 0x01;
   0x00; 0x01; 0x04; 0xd2; 0x04; 0xd2; 0x00; 0x1a; 0x15; 0x80; 0x6e; 0x65; 0x74; 0x6d; 0x61; 0x70;
   0x20; 0x70; 0x6b; 0x74; 0x2d; 0x67; 0x65; 0x6e; 0x20; 0x44; 0x49; 0x52].

(** The copy loop of [source_recv]: the writes to guest memory and [ofs]. *)
Fixpoint source_copy (iov : list iovec) (ofs : Z) : list (Z * list Z) * Z :=
  match iov with
  | [] => ([], ofs)
  | v :: iov' =>
      if ofs <? Z.of_nat (length udp_pkt) then
        let left := Z.of_nat (length udp_pkt) - ofs in
        let copy := if iov_len v <? left then iov_len v else left in
        let data := take (Z.to_nat copy) (drop (Z.to_nat ofs) udp_pkt) in
        let '(ws, ofs') := source_copy iov' (ofs + copy) in
        ((iov_base v, data) :: ws, ofs')
      else ([], ofs)
  end.

(** [source_recv]; [None] is the failure of its assertion on the first
    iovec.  The first write, when there is a header, is the [memset]. *)
Definition source_recv (vnet_hdr_len : Z) (iov : list iovec) : option (list (Z * list Z) * Z) :=
  if z2b vnet_hdr_len then
    match iov with
    | [] => None
    | v :: iov' =>
        if iov_len v =? sizeof_virtio_net_hdr_v1 then
          let '(ws, ofs) := source_copy iov' 0 in
          Some ((iov_base v, repeat 0 (Z.to_nat (iov_len v))) :: ws, ofs)
        else None
    end
  else Some (source_copy iov 0).

(** ** Properties of the memory map *)

(** A region as SET_MEM_TABLE installs it when the region does not wrap
    around the 64-bit address space. *)
Definition region_ok (re : BpfhvBackendMemoryRegion) : Prop :=
  0 <= gpa_start re /\ 0 <= region_size re /\ 0 < va_start re /\
  gpa_end re = gpa_start re + region_size re /\
  gpa_end re < 2 ^ 64 /\ va_start re + region_size re < 2 ^ 64.

(** The entries of the table in use. *)
Definition live_regions (m : mem_map) : list BpfhvBackendMemoryRegion :=
  take (Z.to_nat (num_regions m)) (regions m).

Definition mem_ok (m : mem_map) : Prop :=
  Z.of_nat (length (regions m)) = BPFHV_PROXY_MAX_REGIONS /\
  1 <= num_regions m <= BPFHV_PROXY_MAX_REGIONS /\
  Forall region_ok (live_regions m).

(** Does the region hold the [len] bytes at guest physical address [gpa]? *)
Definition covers (re : BpfhvBackendMemoryRegion) (gpa len : Z) : Prop :=
  gpa_start re <= gpa /\ gpa + len <= gpa_end re.

Lemma find_region_Some rs gpa len i n j :
  find_region rs gpa len i n = Some j ->
  (i <= j < i + n)%nat /\ region_match (rs !!! j) gpa len = true.
Proof.
  revert i. induction n as [|n IH]; intros i; simpl; [done|].
  destruct (region_match (rs !!! i) gpa len) eqn:E.
  { intros H; simplify_eq/=. split; [lia|done]. }
  intros [? ?]%IH. split; [lia|done].
Qed.

Lemma find_region_None rs gpa len i n j :
  find_region rs gpa len i n = None -> (i <= j < i + n)%nat ->
  region_match (rs !!! j) gpa len = false.
Proof.
  revert i. induction n as [|n IH]; intros i; simpl; [lia|].
  destruct (region_match (rs !!! i) gpa len) eqn:E; [done|]. intros Hn Hj.
  destruct (decide (j = i)) as [->|]; [done|]. apply (IH (S i)); [done|lia].
Qed.

Lemma region_match_covers re gpa len :
  0 <= gpa -> 0 <= len -> gpa + len < 2 ^ 64 ->
  region_match re gpa len = true <-> covers re gpa len.
Proof.
  intros. unfold region_match, covers. rewrite u64_id by (unfold is_u64; lia).
  rewrite andb_true_iff, !Z.leb_le. done.
Qed.

Lemma live_lookup m i :
  mem_ok m -> (i < Z.to_nat (num_regions m))%nat ->
  live_regions m !! i = Some (regions m !!! i).
Proof.
  intros (Hl & Hn & _) Hi. unfold live_regions. rewrite lookup_take_lt by done.
  unfold BPFHV_PROXY_MAX_REGIONS in *.
  apply list_lookup_lookup_total_lt. lia.
Qed.

(** The entry a translation used is live, and the table is the same up to
    the move to the front. *)
Lemma translate_addr_cases m gpa len p m' :
  mem_ok m -> translate_addr m gpa len = (p, m') ->
  (exists i, (i < Z.to_nat (num_regions m))%nat /\
     region_match (regions m !!! i) gpa len = true /\
     p = region_va (regions m !!! i) gpa /\
     regions m' = <[0%nat := regions m !!! i]> (<[i := regions m !!! 0%nat]> (regions m)) /\
     num_regions m' = num_regions m)
  \/ (p = NULL /\ m' = m /\
      forall i, (i < Z.to_nat (num_regions m))%nat -> region_match (regions m !!! i) gpa len = false).
Proof.
  intros (Hl & Hn & _). unfold translate_addr, BPFHV_PROXY_MAX_REGIONS in *.
  destruct (region_match (regions m !!! 0%nat) gpa len) eqn:E0.
  { intros [= <- <-]. left. exists 0%nat. repeat split; [lia|done|].
    rewrite list_insert_insert_eq, list_insert_id; [done|].
    apply list_lookup_lookup_total_lt. lia. }
  destruct (find_region _ _ _ _ _) as [i|] eqn:Ef; intros [= <- <-].
  - apply find_region_Some in Ef as [Hi Hm]. left. exists i. repeat split; [lia|done].
  - right. repeat split. intros i Hi. destruct (decide (i = 0%nat)) as [->|]; [done|].
    eapply find_region_None; [done|lia].
Qed.

Lemma region_va_inside re gpa len :
  region_ok re -> covers re gpa len -> 0 <= len ->
  region_va re gpa = va_start re + (gpa - gpa_start re) /\
  va_start re <= region_va re gpa /\ region_va re gpa + len <= va_start re + region_size re.
Proof.
  unfold region_ok, covers, region_va. intros (?&?&?&?&?&?) [? ?] ?.
  assert (u64 (va_start re + u64 (gpa - gpa_start re)) = va_start re + (gpa - gpa_start re)) as ->
    by warith. lia.
Qed.

(** Swapping two entries permutes a list. *)
Lemma swap_permutation {A} `{!Inhabited A} (l : list A) (i : nat) :
  (i < length l)%nat -> <[0%nat := l !!! i]> (<[i := l !!! 0%nat]> l) ≡ₚ l.
Proof.
  destruct l as [|x l]; simpl; [lia|]. destruct i as [|i]; [done|]. intros Hi. simpl.
  transitivity (x :: take i l ++ (l !!! i) :: drop (S i) l).
  - change (l !!! i :: <[i := x]> l ≡ₚ x :: take i l ++ l !!! i :: drop (S i) l).
    rewrite insert_take_drop by lia. rewrite <- !Permutation_middle. constructor.
  - rewrite take_drop_middle; [done|]. apply list_lookup_lookup_total_lt. lia.
Qed.

Lemma translate_addr_live m gpa len p m' :
  mem_ok m -> translate_addr m gpa len = (p, m') ->
  num_regions m' = num_regions m /\ length (regions m') = length (regions m) /\
  live_regions m' ≡ₚ live_regions m.
Proof.
  intros Hok [(i & Hi & _ & _ & Hr & Hn)|(_ & -> & _)]%translate_addr_cases; [|done..].
  pose proof Hok as (Hl & Hb & _). unfold BPFHV_PROXY_MAX_REGIONS in *.
  repeat split; [done|by rewrite Hr, !length_insert|].
  unfold live_regions. rewrite Hr, Hn.
  destruct (decide (i = 0%nat)) as [->|Hi0].
  { rewrite list_insert_insert_eq, list_insert_id; [done|].
    apply list_lookup_lookup_total_lt. lia. }
  rewrite !take_insert_lt by lia.
  pose proof (swap_permutation (live_regions m) i) as HP. unfold live_regions in HP.
  rewrite length_take in HP.
  rewrite !lookup_total_take_lt in HP by lia.
  apply HP. lia.
Qed.

(** Translations keep the memory map well formed. *)
Lemma translate_addr_ok m gpa len p m' :
  mem_ok m -> translate_addr m gpa len = (p, m') -> mem_ok m'.
Proof.
  intros Hok Ht. pose proof (translate_addr_live _ _ _ _ _ Hok Ht) as (Hn & Hl & HP).
  destruct Hok as (? & ? & ?). unfold mem_ok. rewrite Hn, Hl. repeat split; [lia..|].
  by rewrite HP.
Qed.

#[export] Hint Resolve translate_addr_ok : bpfhv.

(** Where a successful translation points. *)
Lemma translate_in_region m gpa len p m' :
  mem_ok m -> 0 <= gpa -> 0 <= len -> gpa + len < 2 ^ 64 ->
  translate_addr m gpa len = (p, m') -> p <> NULL ->
  exists re, re ∈ live_regions m /\ covers re gpa len /\
    p = va_start re + (gpa - gpa_start re) /\
    va_start re <= p /\ p + len <= va_start re + region_size re.
Proof.
  intros Hok ? ? ? Ht Hp.
  destruct (translate_addr_cases _ _ _ _ _ Hok Ht) as [(i & Hi & Hm & -> & _)|(? & _)]; [|done].
  apply region_match_covers in Hm; [|done..].
  pose proof (live_lookup _ _ Hok Hi) as Hlk.
  exists (regions m !!! i). pose proof Hok as (_ & _ & HF).
  rewrite Forall_lookup in HF. pose proof (HF _ _ Hlk) as Hre.
  pose proof (region_va_inside _ _ _ Hre Hm ltac:(done)) as (-> & ?).
  repeat split; [by eapply list_elem_of_lookup_2|apply Hm..|lia|lia].
Qed.

(** C35: [translate_addr] is sound when the request does not wrap around the
    64-bit address space: a non-NULL result is the image of a live region
    that holds all the [len] bytes at [gpa], and the [len] bytes at the
    returned address lie inside the mapping of that region. *)
Theorem translate_addr_sound m gpa len p m' :
  mem_ok m -> 0 <= gpa -> 0 <= len -> gpa + len < 2 ^ 64 ->
  translate_addr m gpa len = (p, m') -> p <> NULL ->
  exists re, re ∈ live_regions m /\ covers re gpa len /\
    p = va_start re + (gpa - gpa_start re) /\
    va_start re <= p /\ p + len <= va_start re + region_size re.
Proof. apply translate_in_region. Qed.

Definition example_map : mem_map :=
  mk_map [mk_region 0 0x1000 0x1000 0 0 0x700000 0x700000;
          mk_region 0x1000 0x9000 0x8000 0 0 0x800000 0x800000;
          region_zero; region_zero; region_zero; region_zero; region_zero; region_zero] 2.

Lemma example_map_ok : mem_ok example_map.
Proof.
  split; [reflexivity|]. split; [vm_compute; split; congruence|].
  change (Forall region_ok [mk_region 0 0x1000 0x1000 0 0 0x700000 0x700000;
          mk_region 0x1000 0x9000 0x8000 0 0 0x800000 0x800000]).
  constructor; [|constructor; [|constructor]];
    unfold region_ok; simpl; lia.
Defined.

Lemma translate_addr_sound_witness :
  fst (translate_addr example_map 0x2000 64) = 0x801000 /\
  exists re, re ∈ live_regions example_map /\ covers re 0x2000 64 /\
    0x801000 = va_start re + (0x2000 - gpa_start re) /\
    va_start re <= 0x801000 /\ 0x801000 + 64 <= va_start re + region_size re.
Proof.
  split; [reflexivity|].
  apply (translate_addr_sound example_map 0x2000 64 0x801000
           (snd (translate_addr example_map 0x2000 64)));
    [apply example_map_ok|lia|lia|lia|vm_compute; reflexivity|vm_compute; congruence].
Defined.

(** [translate_addr] is complete: it succeeds when some live region holds
    the requested range, wherever the region is in the table, and after any
    earlier translations have reordered the table (which they only permute
    within its live entries). *)
Theorem translate_addr_complete m gpa len re p m' :
  mem_ok m -> 0 <= gpa -> 0 <= len -> gpa + len < 2 ^ 64 ->
  re ∈ live_regions m -> covers re gpa len ->
  translate_addr m gpa len = (p, m') ->
  p <> NULL /\ live_regions m' ≡ₚ live_regions m.
Proof.
  intros Hok ? ? ? [i Hi]%list_elem_of_lookup Hc Ht.
  split; [|by eapply translate_addr_live].
  assert (Hlt : (i < Z.to_nat (num_regions m))%nat).
  { apply lookup_lt_Some in Hi. unfold live_regions in Hi. rewrite length_take in Hi. lia. }
  pose proof (live_lookup _ _ Hok Hlt) as Hi'. rewrite Hi in Hi'. injection Hi' as Hre.
  destruct (translate_addr_cases _ _ _ _ _ Hok Ht) as [(j & Hj & Hm & -> & _)|(_ & _ & Hno)].
  - apply region_match_covers in Hm; [|done..]. pose proof (live_lookup _ _ Hok Hj) as Hlk.
    destruct Hok as (_ & _ & HF). rewrite Forall_lookup in HF. pose proof (HF _ _ Hlk) as Hok.
    pose proof (region_va_inside _ _ _ Hok Hm ltac:(done)) as (? & ? & ?).
    destruct Hok. unfold NULL. lia.
  - specialize (Hno i Hlt). rewrite <- Hre in Hno.
    apply region_match_covers in Hc; [|done..]. congruence.
Qed.

Lemma translate_addr_complete_witness :
  fst (translate_addr example_map 0x2000 64) <> NULL /\
  live_regions (snd (translate_addr example_map 0x2000 64)) ≡ₚ live_regions example_map.
Proof.
  apply (translate_addr_complete example_map 0x2000 64
           (mk_region 0x1000 0x9000 0x8000 0 0 0x800000 0x800000));
    [apply example_map_ok|lia|lia|lia| |split; vm_compute; congruence|vm_compute; reflexivity].
  vm_compute. right. left.
Defined.

(** Without that hypothesis [translate_addr] is not sound: the sum
    [gpa + len] is computed on 64 bits, so a descriptor with a guest physical
    address close to 2^64 passes the check of the region that starts at 0 and
    is given a host address that is outside the mapping of every region. *)
Theorem translate_addr_wraps :
  exists gpa len p,
    0 <= gpa < 2 ^ 64 /\ 0 <= len < 2 ^ 32 /\ mem_ok example_map /\
    fst (translate_addr example_map gpa len) = p /\ p <> NULL /\
    Forall (fun re => ~ (va_start re <= p < va_start re + region_size re))
      (live_regions example_map).
Proof.
  exists (2 ^ 64 - 16), 32, 0x6ffff0.
  split; [lia|]. split; [lia|]. split; [apply example_map_ok|].
  split; [vm_compute; reflexivity|]. split; [vm_compute; congruence|].
  change (live_regions example_map) with
    [mk_region 0 0x1000 0x1000 0 0 0x700000 0x700000;
     mk_region 0x1000 0x9000 0x8000 0 0 0x800000 0x800000].
  constructor; [|constructor; [|constructor]]; simpl; lia.
Qed.

(** *** The source backend *)

Lemma source_copy_ofs iov ofs :
  0 <= ofs <= 60 -> Forall (fun v => 0 <= iov_len v) iov ->
  snd (source_copy iov ofs) = Z.min 60 (ofs + iov_total iov).
Proof.
  revert ofs. induction iov as [|v iov IH]; intros ofs Ho HF; simpl.
  { change (iov_total []) with 0. lia. }
  inversion HF as [|? ? Hv HF']; subst. change (iov_total (v :: iov)) with (iov_len v + iov_total iov).
  assert (0 <= iov_total iov).
  { clear -HF'. induction HF'; simpl; lia. }
  change (Z.of_nat 60) with 60. destruct (ofs <? 60) eqn:E; zify_bool; [|cbn [snd]; lia].
  specialize (IH (ofs + (if iov_len v <? 60 - ofs then iov_len v else 60 - ofs))).
  destruct (source_copy iov _) as [ws o]. simpl in *. rewrite IH; [|case_if; lia|done].
  case_if; lia.
Qed.

(** [source_recv] returns the number of packet bytes it stored, at most
    the 60 bytes of the packet and at most the room in the buffers.  The
    virtio-net header it clears in the first buffer is not counted, although
    the caller [sring_gso_rxq_push] subtracts the length of that header from
    the result. *)
Theorem source_recv_len vnet_hdr_len hdr iov :
  vnet_hdr_len <> 0 -> iov_len hdr = sizeof_virtio_net_hdr_v1 ->
  Forall (fun v => 0 <= iov_len v) iov ->
  exists ws, source_recv vnet_hdr_len (hdr :: iov) = Some (ws, Z.min 60 (iov_total iov)).
Proof.
  intros Hv Hh HF. unfold source_recv, z2b.
  rewrite (proj2 (Z.eqb_neq _ _) Hv), Hh, Z.eqb_refl. simpl.
  pose proof (source_copy_ofs iov 0 ltac:(lia) HF) as Ho.
  destruct (source_copy iov 0) as [ws o]. simpl in *. subst o. by eexists.
Qed.

Lemma source_recv_len_witness :
  exists ws, source_recv 12 [mk_iov 4096 12; mk_iov 8192 2048] = Some (ws, 60).
Proof.
  apply (source_recv_len 12 (mk_iov 4096 12) [mk_iov 8192 2048]);
    [lia|reflexivity|repeat constructor; vm_compute; congruence].
Defined.
