(* ===== verification/MarkFun.v ===== *)
(** * Packet classification: proxy/mark_fun.h

    [mark_packet_fun] walks the Ethernet, IPv4 and UDP/TCP headers of a packet
    and returns the scheduling class of the packet.  It runs in the guest (in
    the eBPF transmit programs) or in the hypervisor on bytes the guest
    controls, so the model keeps every memory read explicit: a read outside
    the packet is the outcome [OOB].  Multi-byte loads are little endian, as
    on the supported hosts.  The packet is a value: a header field that the
    macros read again (such as [iph->ihl]) is read once here, which is the same
    as long as nobody writes to the packet during the call. *)

From S2P Require Import Prelude.
Open Scope Z_scope.

(** Early returns, reads outside the packet, and normal continuation. *)
Inductive outcome (A : Type) : Type :=
| OOB : outcome A
| Ret (mark : Z) : outcome A
| Go (a : A) : outcome A.
Arguments OOB {A}.
Arguments Ret {A}.
Arguments Go {A}.

Definition obind {A B} (o : outcome A) (k : A -> outcome B) : outcome B :=
  match o with OOB => OOB | Ret v => Ret v | Go a => k a end.

Declare Scope mark_scope.
Delimit Scope mark_scope with mark.
Notation "x <-- e ; k" := (obind e (fun x => k))
  (at level 100, e at level 99, k at level 200, right associativity) : mark_scope.
Open Scope mark_scope.

Definition STREAM_A1 : Z := 0.
Definition STREAM_A2 : Z := 1.
Definition STREAM_B1 : Z := 4.
Definition STREAM_ERR : Z := 12.
Definition DEFAULT_CLASS : Z := 13.
Definition STREAM_BY_CLASS (cl strm : Z) : Z := cl * 4 + strm.

Definition ETH_P_IP : Z := 0x0800.
Definition ETH_P_ARP : Z := 0x0806.
Definition IPPROTO_ICMP : Z := 1.
Definition IPPROTO_TCP : Z := 6.
Definition IPPROTO_UDP : Z := 17.

Definition sizeof_ethhdr : Z := 14.
Definition sizeof_iphdr : Z := 20.
Definition sizeof_udphdr : Z := 8.
Definition sizeof_tcphdr : Z := 20.

(** [IPADDR] computes on [int]; its uses convert the result to 32 unsigned
    bits. *)
Definition IPADDR (a1 a2 a3 a4 : Z) : Z :=
  u32 (Z.lor (Z.lor (Z.lor (Z.shiftl a1 24) (Z.shiftl a2 16)) (Z.shiftl a3 8)) a4).

Definition bswap16 (x : Z) : Z := Z.lor (Z.shiftl (Z.land x 0xff) 8) (Z.shiftr x 8).
Definition bswap32 (x : Z) : Z :=
  Z.lor (Z.lor (Z.shiftl (Z.land x 0xff) 24) (Z.shiftl (Z.land (Z.shiftr x 8) 0xff) 16))
        (Z.lor (Z.shiftl (Z.land (Z.shiftr x 16) 0xff) 8) (Z.shiftr x 24)).
Definition be16_to_cpu := bswap16.
Definition be32_to_cpu := bswap32.
Definition cpu_to_be32 := bswap32.

(** The bytes of [GET / HTTP/1.1]. *)
Definition http_prefix : list Z :=
  [71; 69; 84; 32; 47; 32; 72; 84; 84; 80; 47; 49; 46; 49].

Section mark.
(** The memory the packet occupies and the size the caller passes. *)
Context (mem : list Z) (pkt_sz : Z).

Definition rd8 (p : Z) : outcome Z :=
  if p <? 0 then OOB else
  match mem !! Z.to_nat p with Some b => Go b | None => OOB end.
Definition rd16 (p : Z) : outcome Z :=
  b0 <-- rd8 p; b1 <-- rd8 (p + 1); Go (b0 + Z.shiftl b1 8).
Definition rd32 (p : Z) : outcome Z :=
  lo <-- rd16 p; hi <-- rd16 (p + 2); Go (lo + Z.shiftl hi 16).

(** The macro advances the pointer [data] and the 16-bit [data_offset], or
    returns from [mark_packet_fun]. *)
Definition SAFE_PKTDATA_OFFSET_ADV (data data_offset x : Z) : outcome (Z * Z) :=
  if pkt_sz <? data_offset + x then Ret STREAM_ERR
  else Go (data + x, u16 (data_offset + x)).

Definition MARK_ASSERT (cond : bool) : outcome unit :=
  if cond then Go tt else Ret STREAM_ERR.

Fixpoint cmp_prefix (buf : Z) (prefix : list Z) : outcome bool :=
  match prefix with
  | [] => Go true
  | c :: cs => b <-- rd8 buf; if b =? c then cmp_prefix (buf + 1) cs else Go false
  end.

Definition find_prefix (buf buf_len : Z) (prefix : list Z) : outcome bool :=
  let prefix_len := Z.of_nat (length prefix) in
  if (prefix_len =? 0) || (buf_len <? prefix_len) then Go false
  else cmp_prefix buf prefix.

(** The L4 part: the pointers after the transport header, the destination
    port and the address of the TCP header. *)
Definition mark_l4 (protocol data data_offset : Z) : outcome (Z * Z * Z) :=
  let transport_header := data in
  if protocol =? IPPROTO_UDP then
    adv <-- SAFE_PKTDATA_OFFSET_ADV data data_offset sizeof_udphdr;
    let '(data, data_offset) := adv in
    dest <-- rd16 (transport_header + 2);
    Go (data, data_offset, be16_to_cpu dest)
  else if protocol =? IPPROTO_TCP then
    adv <-- SAFE_PKTDATA_OFFSET_ADV data data_offset sizeof_tcphdr;
    let '(data, data_offset) := adv in
    dest <-- rd16 (transport_header + 2);
    b12 <-- rd8 (transport_header + 12);
    let doff := Z.shiftr b12 4 in
    _ <-- MARK_ASSERT (sizeof_tcphdr <=? Z.shiftl doff 2);
    adv <-- SAFE_PKTDATA_OFFSET_ADV data data_offset (Z.shiftl doff 2 - sizeof_tcphdr);
    let '(data, data_offset) := adv in
    Go (data, data_offset, be16_to_cpu dest)
  else if protocol =? IPPROTO_ICMP then Go (data, data_offset, 0)
  else Ret DEFAULT_CLASS.

(** The classification rules, once the headers have been located. *)
Definition mark_l7 (protocol tos dest_ip dest_port tcp_header data data_offset : Z)
    : outcome Z :=
  let l7_payload := data in
  let payload_size := u32 (pkt_sz - data_offset) in
  if protocol =? IPPROTO_ICMP then Ret STREAM_A1 else
  if (protocol =? IPPROTO_UDP) && (dest_port =? 53) &&
     ((dest_ip =? cpu_to_be32 (IPADDR 8 8 8 8)) || (dest_ip =? IPADDR 8 8 4 4))
  then Ret STREAM_A1 else
  if (protocol =? IPPROTO_UDP) && (dest_port =? 53) then Ret STREAM_A2 else
  let net24 := Z.land (be32_to_cpu dest_ip) (IPADDR 255 255 255 0) in
  let ipclass :=
    if (tos =? 0x0c) || (tos =? 0xb8) || (net24 =? IPADDR 172 16 139 0) then 0
    else if net24 =? IPADDR 172 16 128 0 then 1 else 2 in
  if (protocol =? IPPROTO_UDP) && (dest_port =? 1853) then Ret (STREAM_BY_CLASS ipclass 0) else
  if (protocol =? IPPROTO_TCP) &&
     ((dest_port =? 22) || (dest_port =? 23) || (dest_port =? 3389))
  then Ret (STREAM_BY_CLASS ipclass 1) else
  small_syn_ack <--
    (if protocol =? IPPROTO_TCP then
       flags <-- rd8 (tcp_header + 13);
       Go ((Z.testbit flags 1 || Z.testbit flags 4) && (payload_size <? 200))
     else Go false);
  if (small_syn_ack : bool) then Ret (STREAM_BY_CLASS ipclass 1) else
  if ((protocol =? IPPROTO_TCP) || (protocol =? IPPROTO_UDP)) &&
     ((dest_port =? 111) || (dest_port =? 2049))
  then Ret (STREAM_BY_CLASS ipclass 2) else
  if (protocol =? IPPROTO_TCP) &&
     ((dest_port =? 20) || (dest_port =? 21) || (dest_port =? 69))
  then Ret (STREAM_BY_CLASS ipclass 2) else
  if (protocol =? IPPROTO_TCP) && ((dest_port =? 80) || (dest_port =? 443))
  then Ret (STREAM_BY_CLASS ipclass 3) else
  http <--
    (if protocol =? IPPROTO_TCP then find_prefix l7_payload (u16 payload_size) http_prefix
     else Go false);
  if (http : bool) then Ret STREAM_B1 else Ret DEFAULT_CLASS.

Definition mark_body : outcome Z :=
  let data := 0 in
  let data_offset := 0 in
  let mac := data in
  adv <-- SAFE_PKTDATA_OFFSET_ADV data data_offset sizeof_ethhdr;
  let '(data, data_offset) := adv in
  h_proto <-- rd16 (mac + 12);
  let ethertype := be16_to_cpu h_proto in
  if ethertype =? ETH_P_ARP then Ret STREAM_A1
  else if negb (ethertype =? ETH_P_IP) then Ret DEFAULT_CLASS
  else
  let iph := data in
  adv <-- SAFE_PKTDATA_OFFSET_ADV data data_offset sizeof_iphdr;
  let '(data, data_offset) := adv in
  b0 <-- rd8 iph;
  let version := Z.shiftr b0 4 in
  let ihl := Z.land b0 0xf in
  if negb (version =? 4) then Ret DEFAULT_CLASS else
  _ <-- MARK_ASSERT (sizeof_iphdr <=? Z.shiftl ihl 2);
  adv <-- SAFE_PKTDATA_OFFSET_ADV data data_offset (Z.shiftl ihl 2 - sizeof_iphdr);
  let '(data, data_offset) := adv in
  tos <-- rd8 (iph + 1);
  protocol <-- rd8 (iph + 9);
  dest_ip <-- rd32 (iph + 16);
  let transport_header := data in
  adv <-- mark_l4 protocol data data_offset;
  let '(l4, dest_port) := adv in
  mark_l7 protocol tos dest_ip dest_port transport_header (fst l4) (snd l4).

(** The mark, or [None] when the packet made the function read outside it. *)
Definition mark_packet_fun : option Z :=
  match mark_body with OOB => None | Ret v => Some v | Go v => Some v end.

End mark.

(** ** Memory safety and range of the marks *)

(** [safe Q o]: no read outside the packet; an early return carries a valid
    class; a normal result satisfies [Q]. *)
Definition safe {A} (Q : A -> Prop) (o : outcome A) : Prop :=
  match o with OOB => False | Ret v => 0 <= v <= DEFAULT_CLASS | Go a => Q a end.

Lemma safe_bind {A B} (P : A -> Prop) (Q : B -> Prop) o k :
  safe P o -> (forall a, P a -> safe Q (k a)) -> safe Q (obind o k).
Proof. destruct o; simpl; auto. Qed.

Lemma safe_if {A} (Q : A -> Prop) (b : bool) o1 o2 :
  (b = true -> safe Q o1) -> (b = false -> safe Q o2) -> safe Q (if b then o1 else o2).
Proof. destruct b; auto. Qed.

Lemma safe_ret {A} (Q : A -> Prop) v : 0 <= v <= DEFAULT_CLASS -> safe Q (Ret v).
Proof. done. Qed.

Lemma u8_shiftr4 b : is_u8 b -> 0 <= Z.shiftr b 4 < 16.
Proof. unfold is_u8. rewrite Z.shiftr_div_pow2 by lia. warith. Qed.

Lemma land_0xf b : 0 <= Z.land b 0xf < 16.
Proof. change 0xf with (Z.ones 4). rewrite Z.land_ones by lia. apply Z.mod_pos_bound. lia. Qed.

Section safety.
Context (mem : list Z) (pkt_sz : Z).
Hypothesis mem_bytes : Forall is_u8 mem.
Hypothesis mem_size : Z.of_nat (length mem) = pkt_sz.

Lemma rd8_safe p : 0 <= p < pkt_sz -> safe is_u8 (rd8 mem p).
Proof.
  intros Hp. unfold rd8. rewrite (proj2 (Z.ltb_ge p 0)) by lia.
  destruct (lookup_lt_is_Some_2 mem (Z.to_nat p)) as [b Hb]; [lia|].
  rewrite Hb. simpl. rewrite Forall_lookup in mem_bytes. by eapply mem_bytes.
Qed.

Lemma rd16_safe p : 0 <= p -> p + 1 < pkt_sz -> safe is_u16 (rd16 mem p).
Proof.
  intros. unfold rd16. eapply safe_bind; [apply rd8_safe; lia|intros b0 Hb0].
  eapply safe_bind; [apply rd8_safe; lia|intros b1 Hb1]. simpl.
  unfold is_u8, is_u16 in *. rewrite Z.shiftl_mul_pow2 by lia. lia.
Qed.

Lemma rd32_safe p : 0 <= p -> p + 3 < pkt_sz -> safe is_u32 (rd32 mem p).
Proof.
  intros. unfold rd32. eapply safe_bind; [apply rd16_safe; lia|intros lo Hlo].
  eapply safe_bind; [apply rd16_safe; lia|intros hi Hhi]. simpl.
  unfold is_u16, is_u32 in *. rewrite Z.shiftl_mul_pow2 by lia. lia.
Qed.

(** Pointer and offset advance together, inside the packet. *)
Lemma adv_safe p x :
  0 <= p -> 0 <= x -> p + x < 2 ^ 16 ->
  safe (fun a => a = (p + x, p + x) /\ p + x <= pkt_sz)
    (SAFE_PKTDATA_OFFSET_ADV pkt_sz p p x).
Proof.
  intros. unfold SAFE_PKTDATA_OFFSET_ADV. apply safe_if; intros E; zify_bool; simpl; [done|].
  rewrite u16_id by (unfold is_u16; lia). done.
Qed.

Lemma assert_safe c : safe (fun _ => c = true) (MARK_ASSERT c).
Proof. by destruct c. Qed.

Lemma cmp_prefix_safe prefix p :
  0 <= p -> p + Z.of_nat (length prefix) <= pkt_sz ->
  safe (fun _ => True) (cmp_prefix mem p prefix).
Proof.
  revert p. induction prefix as [|c cs IH]; intros p H0 Hp; simpl in *; [done|].
  eapply safe_bind; [apply rd8_safe; lia|intros b _].
  apply safe_if; intros _; [|done]. apply IH; lia.
Qed.

Lemma find_prefix_safe prefix p l :
  0 <= p -> p + l <= pkt_sz -> safe (fun _ => True) (find_prefix mem p l prefix).
Proof.
  intros. unfold find_prefix. apply safe_if; intros E; [done|]. zify_bool.
  apply cmp_prefix_safe; lia.
Qed.

Lemma mark_l4_safe protocol p :
  0 <= p <= 256 -> p <= pkt_sz ->
  safe (fun r => fst (fst r) = snd (fst r) /\ p <= snd (fst r) <= pkt_sz /\
          (protocol = IPPROTO_TCP -> p + 20 <= pkt_sz))
    (mark_l4 mem pkt_sz protocol p p).
Proof.
  intros. unfold mark_l4. apply safe_if; intros E1; zify_bool; [|apply safe_if; intros E2; zify_bool].
  - eapply safe_bind; [apply adv_safe; unfold sizeof_udphdr; lia|].
    intros ? [-> ?]. unfold sizeof_udphdr in *.
    eapply safe_bind; [apply rd16_safe; lia|]. intros. simpl. unfold IPPROTO_TCP, IPPROTO_UDP in *. lia.
  - eapply safe_bind; [apply adv_safe; unfold sizeof_tcphdr; lia|].
    intros ? [-> ?]. unfold sizeof_tcphdr in *.
    eapply safe_bind; [apply rd16_safe; lia|intros d _].
    eapply safe_bind; [apply rd8_safe; lia|intros b Hb]. cbv zeta.
    pose proof (u8_shiftr4 b Hb) as Hd. rewrite Z.shiftl_mul_pow2 by lia.
    eapply safe_bind; [apply assert_safe|intros [] E; zify_bool].
    eapply safe_bind; [apply adv_safe; lia|intros ? [-> ?]]. simpl. lia.
  - apply safe_if; intros E3; simpl; [|unfold DEFAULT_CLASS; lia].
    unfold IPPROTO_TCP in *. lia.
Qed.

Lemma mark_l7_safe protocol tos dest_ip dest_port tcp p :
  0 <= p <= pkt_sz -> pkt_sz < 2 ^ 32 ->
  (protocol = IPPROTO_TCP -> 0 <= tcp /\ tcp + 20 <= pkt_sz) ->
  safe (fun _ => True) (mark_l7 mem pkt_sz protocol tos dest_ip dest_port tcp p p).
Proof.
  intros Hp Hsz Htcp. unfold mark_l7. cbv zeta.
  match goal with |- context [STREAM_BY_CLASS ?c _] => set (ipclass := c) end.
  assert (0 <= ipclass <= 2) by (unfold ipclass; repeat case_if; lia).
  assert (Hret : forall s, 0 <= s <= 3 -> 0 <= STREAM_BY_CLASS ipclass s <= DEFAULT_CLASS)
    by (unfold STREAM_BY_CLASS, DEFAULT_CLASS; lia).
  do 5 (apply safe_if; intros _; [first [by apply safe_ret | apply safe_ret, Hret; lia]|]).
  apply (safe_bind (fun _ => True)).
  { apply safe_if; intros E; zify_bool; [|done]. destruct (Htcp E).
    eapply safe_bind; [apply rd8_safe; lia|done]. }
  intros syn _. do 4 (apply safe_if; intros _; [apply safe_ret, Hret; lia|]).
  apply (safe_bind (fun _ => True)).
  { apply safe_if; intros E; [|done]. apply find_prefix_safe; [lia|].
    rewrite u32_id by (unfold is_u32; lia).
    unfold u16, wrap. pose proof (Z.mod_le (pkt_sz - p) (2 ^ 16)). lia. }
  intros http _. by apply safe_if; intros _; apply safe_ret.
Qed.

Lemma mark_body_safe : pkt_sz < 2 ^ 32 -> safe (fun _ => True) (mark_body mem pkt_sz).
Proof.
  intros Hsz. unfold mark_body. cbv zeta.
  eapply safe_bind; [apply adv_safe; unfold sizeof_ethhdr; lia|intros ? [-> ?]].
  unfold sizeof_ethhdr in *. simpl Z.add in *.
  eapply safe_bind; [apply rd16_safe; lia|intros proto _].
  do 2 (apply safe_if; intros _; [by apply safe_ret|]).
  eapply safe_bind; [apply adv_safe; unfold sizeof_iphdr; lia|intros ? [-> ?]].
  unfold sizeof_iphdr in *. simpl Z.add in *.
  eapply safe_bind; [apply rd8_safe; lia|intros b0 Hb0].
  apply safe_if; intros _; [by apply safe_ret|].
  pose proof (land_0xf b0). rewrite !Z.shiftl_mul_pow2 by lia.
  eapply safe_bind; [apply assert_safe|intros [] E; zify_bool].
  eapply safe_bind; [apply adv_safe; lia|intros ? [-> ?]].
  eapply safe_bind; [apply rd8_safe; lia|intros tos _].
  eapply safe_bind; [apply rd8_safe; lia|intros protocol _].
  eapply safe_bind; [apply rd32_safe; lia|intros dest_ip _].
  eapply safe_bind; [apply mark_l4_safe; lia|].
  intros [[d o] port] (Hdo & Ho & Htcp). simpl in *. subst d.
  apply mark_l7_safe; [lia..|]. intros ET. specialize (Htcp ET). lia.
Qed.

End safety.

(** C36: Classifying a packet that nobody changes during the call reads only
    bytes of the packet, whatever its contents, and returns one of the classes
    0..13: the bounds checks before each header are enough even for forged
    header lengths. *)
Theorem mark_packet_fun_safe mem :
  Forall is_u8 mem -> Z.of_nat (length mem) < 2 ^ 32 ->
  exists v, mark_packet_fun mem (Z.of_nat (length mem)) = Some v /\ 0 <= v <= DEFAULT_CLASS.
Proof.
  intros HF Hl. unfold mark_packet_fun.
  pose proof (mark_body_safe mem _ HF eq_refl Hl) as Hs.
  destruct (mark_body _ _) eqn:E; simpl in Hs; [done|eauto|].
  exfalso. clear -E. unfold mark_body, mark_l7 in E. cbv zeta in E.
  repeat match type of E with
  | obind ?o _ = Go _ => destruct o as [| |?x] eqn:?; simpl in E; try discriminate
  | (if ?b then _ else _) = Go _ => destruct b; try discriminate
  | (let '(_, _) := ?p in _) = Go _ => destruct p
  end.
Qed.

(** A UDP packet to port 53 of the given address. *)
Definition dns_packet (a1 a2 a3 a4 : Z) : list Z :=
  repeat 0 12 ++ [0x08; 0x00] ++
  [0x45; 0; 0; 28; 0; 0; 0; 0; 64; 17; 0; 0; 10; 0; 0; 1; a1; a2; a3; a4] ++
  [0x30; 0x39; 0; 53; 0; 8; 0; 0].

Lemma mark_packet_fun_safe_witness :
  exists v, mark_packet_fun (dns_packet 8 8 8 8) 42 = Some v /\ 0 <= v <= DEFAULT_CLASS.
Proof.
  apply (mark_packet_fun_safe (dns_packet 8 8 8 8)); [|vm_compute; reflexivity].
  unfold is_u8. apply (bool_decide_unpack _). vm_compute. exact I.
Defined.

(** DNS requests to 8.8.8.8 go to the high-priority class A1, but those
    to 8.8.4.4, which the rule names as well, do not: the second address is
    compared without the byte swap, so the rule matches 4.4.8.8 instead. *)
Theorem google_dns_rule :
  mark_packet_fun (dns_packet 8 8 8 8) 42 = Some STREAM_A1 /\
  mark_packet_fun (dns_packet 8 8 4 4) 42 = Some STREAM_A2 /\
  mark_packet_fun (dns_packet 4 4 8 8) 42 = Some STREAM_A1.
Proof. repeat split; vm_compute; reflexivity. Qed.
