(* ===== verification/Sring.v ===== *)
(** * The sring device

    proxy/sring.h, proxy/sring.c (hypervisor side) and proxy/sring_progs.c
    (the eBPF programs the guest runs).  [Module SringTx] holds the
    transmit direction, the file SringRx the receive direction.

    The functions read shared memory that the other side may change while
    they run.  The hypervisor loops take the list of guest actions that happen
    before each re-read of [priv->prod] (see [interfere] in Ring); the
    interrupt programs [txi] and [rxi] take what the hypervisor does before
    their second read of [priv->cons].  Everything between two such reads is
    one step. *)

From S2P Require Import Prelude Ring Abi Backend MarkFun.
Open Scope Z_scope.

(** ** Layout of the contexts *)

(** [prod, intr, pad1[30]; cons, kick_enabled, pad2[30]; qmask, pad3[31];
    clear, pad4[31]; desc[0]]: the same for the two directions, and for
    sring_gso. *)
Definition sring_context_layout : list (Z * Z) :=
  [f32; f32; farray f32 30; f32; f32; farray f32 30; f32; farray f32 31; f32; farray f32 31;
   farray f64 0].

Definition sring_desc_layout : list (Z * Z) := [f64; f64; f32; f32].

Definition MY_CACHELINE_SIZE : Z := 64.

(** The assertions of [sring_rx_check_alignment] and
    [sring_tx_check_alignment] on the members [prod], [cons], [qmask],
    [clear] and [desc]. *)
Definition sring_check_alignment (layout : list (Z * Z)) : bool :=
  let ofs := struct_offsets 0 layout in
  forallb (fun i => (ofs !!! i) mod MY_CACHELINE_SIZE =? 0) [0; 3; 6; 8; 10]%nat.

Definition sring_ctx_size (num_bufs : Z) : Z :=
  u64 (sizeof_bpfhv_context + struct_size sring_context_layout +
       num_bufs * struct_size sring_desc_layout).

(** [memset] of the descriptors and initialization of the counters, behind
    the assertion that the number of buffers is a power of two. *)
Definition ctx_init {D} (d0 : D) (num_bufs intr0 : Z) : option (ring D) :=
  if Z.land num_bufs (u64 (num_bufs - 1)) =? 0 then
    Some (mk_ring 0 intr0 0 1 (u32 (num_bufs - 1)) 0 (repeat d0 (Z.to_nat num_bufs)))
  else None.

(** [__sring_rxq_notification], [__sring_txq_notification]:
    [priv->kick_enabled = !!enable]. *)
Definition sring_notification {D} (r : ring D) (enable : Z) : ring D :=
  set_kick_enabled (b2z (z2b enable)) r.

Definition clear_met_cons (old_clear cons new_clear : Z) : bool :=
  u32 (new_clear - cons - 1) <? u32 (new_clear - old_clear).

(** ** The interrupt programs

    [sring_txi] and [sring_gso_txi] have the same body, as have [sring_rxi] and
    [sring_gso_rxi].  [hv] is what the hypervisor does to the ring before the
    second read of [cons]. *)
Definition ring_txi {D} (hv : ring D -> ring D) (ctx : bpfhv_context (ring D))
    : Z * bpfhv_context (ring D) :=
  let priv := opaque ctx in
  if min_completed_bufs ctx =? 0 then (0, ctx)
  else
    let cons0 := cons priv in
    let ncompl := u32 (cons0 - clear priv) in
    if min_completed_bufs ctx <=? ncompl then (1, ctx)
    else
      let priv := set_intr (u32 (clear priv + min_completed_bufs ctx - 1)) priv in
      let priv := hv priv in
      let ncompl := u32 (ncompl + u32 (cons priv - cons0)) in
      (if min_completed_bufs ctx <=? ncompl then 1 else 0, set_opaque priv ctx).

Definition ring_rxi {D} (hv : ring D -> ring D) (ctx : bpfhv_context (ring D))
    : Z * bpfhv_context (ring D) :=
  let priv := opaque ctx in
  let cons0 := cons priv in
  let ncompl := u32 (cons0 - clear priv) in
  if min_completed_bufs ctx <=? ncompl then (1, set_opaque (set_intr 0 priv) ctx)
  else
    let priv := hv (set_intr 1 priv) in
    let ncompl := u32 (ncompl + u32 (cons priv - cons0)) in
    if min_completed_bufs ctx <=? ncompl then (1, set_opaque (set_intr 0 priv) ctx)
    else (0, set_opaque priv ctx).

(** The test [clear_met_cons old cons new] holds when [cons] lies strictly
    before [new], counting from [old]. *)
Lemma clear_met_cons_spec old_clear cons new_clear :
  is_u32 old_clear -> is_u32 cons -> is_u32 new_clear ->
  clear_met_cons old_clear cons new_clear = (dist old_clear cons <? dist old_clear new_clear).
Proof.
  unfold clear_met_cons, is_u32, dist. intros.
  apply eq_true_iff_eq. rewrite !Z.ltb_lt. warith.
Qed.

(** What [txi] leaves behind when it returns 0: [intr_at] is the
    [min_completed_bufs]-th descriptor after [clear], and it is not complete. *)
Lemma ring_txi_spec {D} `{!Inhabited D} (hv : ring D -> ring D) ctx ctx' :
  ring_ok (opaque ctx) -> (forall r, ring_ok r -> hv_step r (hv r)) ->
  0 < min_completed_bufs ctx -> ring_txi hv ctx = (0, ctx') ->
  ring_ok (opaque ctx') /\ qmask (opaque ctx') = qmask (opaque ctx) /\
  intr (opaque ctx') = u32 (clear (opaque ctx') + min_completed_bufs ctx - 1) /\
  dist (clear (opaque ctx')) (cons (opaque ctx')) < min_completed_bufs ctx.
Proof.
  intros Hok Hhv Hmin Htxi. unfold ring_txi in Htxi.
  rewrite (proj2 (Z.eqb_neq (min_completed_bufs ctx) 0)) in Htxi by lia.
  set (r1 := set_intr _ (opaque ctx)) in Htxi. pose proof (Hhv r1 Hok) as Hstep.
  pose proof (hv_step_count r1 (hv r1) Hok Hstep) as Hn.
  change (cons r1) with (cons (opaque ctx)) in Hn. change (clear r1) with (clear (opaque ctx)) in Hn.
  rewrite Hn in Htxi. destruct (_ <=? u32 _) eqn:E1; [done|].
  destruct (_ <=? Z.of_nat _) eqn:E2; [done|]. zify_bool. injection Htxi as <-. simpl in *.
  destruct Hstep as (Hok2 & Ecl & Ei & Eq & _). simpl in Ecl, Ei, Eq.
  rewrite length_completed in E2. by rewrite Ei, Ecl, <- Ecl.
Qed.

(** What [rxi] leaves behind: interrupts enabled and too few completed
    buffers when it returns 0, enough of them and interrupts disabled when it
    returns 1. *)
Lemma ring_rxi_spec {D} `{!Inhabited D} (hv : ring D -> ring D) ctx :
  ring_ok (opaque ctx) -> (forall r, ring_ok r -> hv_step r (hv r)) ->
  let '(ret, ctx') := ring_rxi hv ctx in
  if ret =? 0 then
    ring_ok (opaque ctx') /\ intr (opaque ctx') = 1 /\
    Z.of_nat (length (completed (opaque ctx'))) < min_completed_bufs ctx
  else ret = 1 /\ intr (opaque ctx') = 0 /\
       min_completed_bufs ctx <= Z.of_nat (length (completed (opaque ctx'))).
Proof.
  intros Hok Hhv. unfold ring_rxi.
  fold (dist (clear (opaque ctx)) (cons (opaque ctx))). rewrite <- length_completed.
  destruct (_ <=? Z.of_nat _) eqn:E1; zify_bool; [done|].
  pose proof (Hhv (set_intr 1 (opaque ctx)) Hok) as Hstep.
  pose proof (hv_step_count (set_intr 1 (opaque ctx)) _ Hok Hstep) as Hn.
  rewrite length_completed. unfold dist. simpl in Hn. rewrite Hn.
  destruct (_ <=? _) eqn:E2; zify_bool; simpl; [done|].
  by destruct Hstep as (? & _ & Hi & _).
Qed.

(** Context initialization succeeds exactly for a power of two of buffers
    (the assertion fails otherwise), and then gives a well formed, empty ring
    with that many entries and kicks enabled. *)
Theorem ctx_init_spec {D} `{!Inhabited D} (d0 : D) (n intr0 : Z) :
  0 < n <= 2 ^ 31 ->
  match ctx_init d0 n intr0 with
  | Some r => (exists k, n = 2 ^ k) /\ ring_ok r /\ qmask r + 1 = n /\ abs r = mk_fifo [] [] /\
              kick_enabled r = 1 /\ intr r = intr0
  | None => ~ exists k, n = 2 ^ k
  end.
Proof.
  intros Hn. pose proof (pow2_test n ltac:(lia)) as Hpow. unfold ctx_init.
  rewrite (u64_id (n - 1)) by (unfold is_u64; lia).
  destruct (_ =? 0) eqn:E; zify_bool.
  - apply Hpow in E as (k & Hk & ->). rewrite u32_id by (unfold is_u32; lia).
    assert (k <= 31) by (apply (Z.pow_le_mono_r_iff 2); lia).
    split_and!; [by exists k|by apply (ring_init_ok d0 k intr0)|simpl; lia|
                 apply (ring_init_abs d0 (2 ^ k) intr0)|done|done].
  - intros [k ->]. apply E, Hpow. exists k. split; [|done].
    destruct (decide (0 <= k)); [done|]. rewrite Z.pow_neg_r in Hn by lia. lia.
Qed.

Lemma ctx_init_spec_witness :
  exists r, ctx_init 0 256 1 = Some r /\ ring_ok r /\ qmask r = 255.
Proof.
  pose proof (ctx_init_spec 0 256 1 ltac:(lia)) as H. revert H.
  destruct (ctx_init 0 256 1) as [r|] eqn:E.
  - intros (_ & Hok & Hq & _). exists r. split_and!; [reflexivity|exact Hok|lia].
  - exfalso. vm_compute in E. congruence.
Defined.

(** The assertions of [sring_rx_check_alignment] and
    [sring_tx_check_alignment] hold for the layout of the contexts: the
    members written by different sides start on different cache lines, and
    the entries start on one. *)
Theorem sring_alignment_ok : sring_check_alignment sring_context_layout = true.
Proof. reflexivity. Qed.

Module SringTx.

Record sring_tx_desc := mk_desc { cookie : Z; paddr : Z; len : Z; mark : Z }.
Definition desc_zero : sring_tx_desc := mk_desc 0 0 0 0.
#[export] Instance sring_tx_desc_inhabited : Inhabited sring_tx_desc := populate desc_zero.

Abbreviation sring_tx_context := (ring sring_tx_desc).
Abbreviation tx_ctx := (bpfhv_context sring_tx_context).

Definition sring_tx_ctx_init (num_tx_bufs : Z) : option sring_tx_context :=
  ctx_init desc_zero num_tx_bufs 0.

(** *** Guest programs *)

(** The packet is given by its bytes; [mark_packet_fun] does not read outside
    them (see MarkFun), so the default is never used. *)
Definition sring_mark_packet (h : bpf_helpers sring_tx_context) (ctx : tx_ctx) : Z :=
  let data := pkt_bytes h ctx in
  default 0 (mark_packet_fun data (u32 (Z.of_nat (length data)))).

Definition sring_txp (h : bpf_helpers sring_tx_context) (ctx : tx_ctx) : Z * tx_ctx :=
  let priv := opaque ctx in
  let txb := get_buf 0 ctx in
  let prod := prod priv in
  if negb (num_bufs ctx =? 1) then (-1, ctx)
  else
    let txd := mk_desc (buf_cookie txb) (buf_paddr txb) (buf_len txb) (sring_mark_packet h ctx) in
    let priv := put_desc prod txd priv in
    let priv := set_prod (u32 (prod + 1)) priv in
    let ctx := set_opaque priv ctx in
    (0, set_oflags (if z2b (kick_enabled priv) then BPFHV_OFLAGS_KICK_NEEDED else 0) ctx).

Definition sring_tx_get_one (ctx : tx_ctx) : tx_ctx :=
  let priv := opaque ctx in
  let txd := get_desc (clear priv) priv in
  let txb := mk_buf (cookie txd) (paddr txd) (buf_vaddr (get_buf 0 ctx)) (len txd) in
  let ctx := set_num_bufs 1 (put_buf 0 txb ctx) in
  set_opaque (set_clear (u32 (clear priv + 1)) priv) ctx.

Definition sring_txc (ctx : tx_ctx) : Z * tx_ctx :=
  let priv := opaque ctx in
  let cons := cons priv in
  if clear priv =? cons then (0, ctx)
  else (1, set_oflags 0 (sring_tx_get_one ctx)).

Definition sring_txr (ctx : tx_ctx) : Z * tx_ctx :=
  let priv := opaque ctx in
  let cons := cons priv in
  let clear0 := clear priv in
  let prod := prod priv in
  let cons_met := clear0 =? cons in
  if clear0 =? prod then (0, ctx)
  else
    let ctx := sring_tx_get_one ctx in
    let ctx := if cons_met then
                 set_opaque (set_cons (clear (opaque ctx)) (opaque ctx)) ctx else ctx in
    (1, set_oflags 0 ctx).

Definition sring_txi : (sring_tx_context -> sring_tx_context) -> tx_ctx -> Z * tx_ctx := ring_txi.

(** *** Hypervisor *)

Definition sring_txq_notification (priv : sring_tx_context) (enable : Z) : sring_tx_context :=
  sring_notification priv enable.

Section drain.
Context {W : Type} `{!NetBackend W}.

(** The variables of the loop of [sring_txq_drain]. *)
Record drain_state := mk_drain {
  d_view : view (D:=sring_tx_desc);  (* [priv], [prod], and the guest actions to come *)
  d_cons : Z;
  d_count : Z;
  d_bufs : Z;                        (* increments of [txq->stats.bufs] *)
  d_can_send : option Z;             (* [None] is the NULL pointer *)
  d_map : mem_map;
  d_w : W;
}.

Definition d_priv (s : drain_state) : sring_tx_context := v_priv (d_view s).

Definition drain_iter (s : drain_state) : step drain_state :=
  let '(more, v) := tx_poll (is_null (d_can_send s)) (d_cons s) (d_view s) in
  let s := mk_drain v (d_cons s) (d_count s) (d_bufs s) (d_can_send s) (d_map s) (d_w s) in
  if negb more then Break s
  else if BPFHV_BE_TX_BUDGET <=? d_count s then Break s
  else
    let txd := get_desc (d_cons s) (d_priv s) in
    let '(base, map) := translate_addr (d_map s) (paddr txd) (len txd) in
    if base =? NULL then
      Continue (mk_drain v (u32 (d_cons s + 1)) (d_count s) (d_bufs s) (d_can_send s) map (d_w s))
    else
      let '(res, w) := be_send None (d_w s) [mk_iov base (len txd)] in
      let ret := s32 (io_ret res) in
      if ret <=? 0 then
        Break (mk_drain v (d_cons s) (d_count s) (d_bufs s)
                 (after_send ret (io_errno res) (d_can_send s)) map w)
      else
        Continue (mk_drain v (u32 (d_cons s + 1)) (d_count s + 1) (d_bufs s + 1) (d_can_send s) map w).

Record drain_result := mk_drain_result {
  r_count : Z;
  r_priv : sring_tx_context;
  r_txq : queue_io;
  r_can_send : option Z;
  r_map : mem_map;
  r_w : W;
}.

(** The code after the loop. *)
Definition drain_finish (txq : queue_io) (s : drain_state) : drain_result :=
  let txq := upd_stats (stats_add_bufs (d_bufs s)) txq in
  if 0 <? d_count s then
    let old_cons := cons (d_priv s) in
    let priv := set_cons (d_cons s) (d_priv s) in
    let intr_at := intr priv in
    let notify := b2z (u32 (d_cons s - intr_at - 1) <? u32 (d_cons s - old_cons)) in
    let txq := upd_stats (stats_batch (d_count s)) (set_notify notify txq) in
    mk_drain_result (d_count s) priv txq (d_can_send s) (d_map s) (d_w s)
  else mk_drain_result (d_count s) (d_priv s) txq (d_can_send s) (d_map s) (d_w s).

Definition drain_start (map : mem_map) (priv : sring_tx_context) (can_send : option Z) (w : W)
    (env : list (sring_tx_context -> sring_tx_context)) : drain_state :=
  let prod := prod priv in
  let cons := cons priv in
  let priv := match can_send with Some _ => sring_txq_notification priv 0 | None => priv end in
  mk_drain (mk_view priv prod env) cons 0 0 can_send map w.

Definition sring_txq_drain (fuel : nat) (map : mem_map) (txq : queue_io) (priv : sring_tx_context)
    (can_send : option Z) (w : W) (env : list (sring_tx_context -> sring_tx_context))
    : option drain_result :=
  s ← run drain_iter fuel (drain_start map priv can_send w env);
  Some (drain_finish (set_notify 0 txq) s).

(** *** The reference: processing a list of descriptors

    [tx_process] sends the packets of a list of descriptors in order, skipping
    the invalid ones, until the list ends, the budget is spent or the backend
    refuses a packet ([a_stop]). *)
Record tx_acc := mk_acc {
  a_n : Z;                     (* descriptors consumed *)
  a_count : Z;                 (* packets sent *)
  a_can_send : option Z;
  a_map : mem_map;
  a_w : W;
  a_stop : bool;
}.

Definition tx_one (a : tx_acc) (d : sring_tx_desc) : tx_acc :=
  if a_stop a then a
  else if BPFHV_BE_TX_BUDGET <=? a_count a then
    mk_acc (a_n a) (a_count a) (a_can_send a) (a_map a) (a_w a) true
  else
    let '(base, map) := translate_addr (a_map a) (paddr d) (len d) in
    if base =? NULL then mk_acc (a_n a + 1) (a_count a) (a_can_send a) map (a_w a) false
    else
      let '(res, w) := be_send None (a_w a) [mk_iov base (len d)] in
      if s32 (io_ret res) <=? 0 then
        mk_acc (a_n a) (a_count a) (after_send (s32 (io_ret res)) (io_errno res) (a_can_send a)) map w true
      else mk_acc (a_n a + 1) (a_count a + 1) (a_can_send a) map w false.

Definition tx_process (ds : list sring_tx_desc) (a : tx_acc) : tx_acc := foldl tx_one a ds.

Lemma tx_process_stopped ds a : a_stop a = true -> tx_process ds a = a.
Proof.
  intros E. induction ds as [|d ds IH]; simpl; [done|].
  assert (tx_one a d = a) as -> by (unfold tx_one; by rewrite E). done.
Qed.

Lemma tx_process_split ds n d a a' :
  ds !! n = Some d -> tx_process (take n ds) a = a' ->
  tx_process ds a = tx_process (drop (S n) ds) (tx_one a' d) /\
  tx_process (take (S n) ds) a = tx_one a' d.
Proof.
  intros Hd Ht. split.
  - rewrite <- (take_drop_middle ds n d Hd) at 1. unfold tx_process in *. by rewrite foldl_app, Ht.
  - rewrite (take_S_r _ _ _ Hd). unfold tx_process in *. by rewrite foldl_app, Ht.
Qed.

(** The reference never turns [can_send] into a NULL pointer or back. *)
Lemma tx_process_can_send ds a : is_null (a_can_send (tx_process ds a)) = is_null (a_can_send a).
Proof.
  revert a. induction ds as [|d ds IH]; intros a; simpl; [done|]. rewrite IH. unfold tx_one.
  case_if; [done|]. case_if; [done|]. destruct (translate_addr _ _ _). case_if; [done|].
  destruct (be_send _ _ _). case_if; [|done]. simpl. unfold after_send.
  destruct (a_can_send a); [|done]. by case_if.
Qed.

(** *** The loop computes the reference *)

Section loop.
Context (r0 : sring_tx_context) (a0 : tx_acc).

(** The state of the loop as an accumulator of the reference. *)
Definition acc_of (s : drain_state) (stop : bool) : tx_acc :=
  mk_acc (dist (cons r0) (d_cons s)) (d_count s) (d_can_send s) (d_map s) (d_w s) stop.

(** What holds of a state in and after the loop, the reference having gone
    through [ds]. *)
Definition drain_at (ds : list sring_tx_desc) (stop : bool) (s : drain_state) : Prop :=
  view_ok (d_view s) /\ evolved r0 (d_priv s) /\ is_u32 (d_cons s) /\
  dist (cons r0) (d_cons s) <= dist (cons r0) (prod (d_priv s)) /\
  d_bufs s = d_count s /\ 0 <= d_count s <= BPFHV_BE_TX_BUDGET /\
  tx_process ds a0 = acc_of s stop.

Definition drain_inv (s : drain_state) : Prop :=
  drain_at (take (Z.to_nat (dist (cons r0) (d_cons s))) (pending (d_priv s))) false s.

Definition drain_post (s : drain_state) : Prop :=
  exists stop, drain_at (pending (d_priv s)) stop s /\
    (stop = false -> d_cons s = prod (d_priv s) /\
       (is_null (d_can_send s) = false -> kick_enabled (d_priv s) = 1)).

(** The invariant is stable under the actions of the guest. *)
Lemma drain_inv_evolved s v :
  drain_inv s -> view_ok v -> evolved (d_priv s) (v_priv v) ->
  drain_inv (mk_drain v (d_cons s) (d_count s) (d_bufs s) (d_can_send s) (d_map s) (d_w s)).
Proof.
  intros (Hv & He & Hu & Hd & Hb & Hc & Ht) Hv' He'. unfold drain_inv, drain_at, d_priv in *; simpl.
  pose proof (evolved_trans _ _ _ He He') as (Hok & Ec & Eq & _).
  pose proof He as (_ & Ec0 & _). pose proof He' as (_ & _ & _ & (new & Ep) & _).
  pose proof (length_pending (v_priv (d_view s))) as Hl. rewrite Ec0 in Hl.
  pose proof (length_pending (v_priv v)) as Hl'. rewrite Ec, Ep, length_app in Hl'.
  pose proof (dist_range (cons r0) (d_cons s)).
  split_and!; try done; try lia; [by eapply evolved_trans|].
  rewrite Ep, take_app_le by lia. done.
Qed.

(** One iteration: either one more descriptor has been processed as the
    reference does, or the reference stops there as well. *)
Lemma drain_iter_spec s :
  drain_inv s ->
  0 <= view_measure (d_cons s) (d_view s) /\
  match drain_iter s with
  | Continue s' => drain_inv s' /\ view_measure (d_cons s') (d_view s') < view_measure (d_cons s) (d_view s)
  | Break s' => drain_post s'
  end.
Proof.
  intros Hs. pose proof Hs as (Hv & (Hok0 & _) & _).
  split; [by apply view_measure_nonneg|]. unfold drain_iter.
  pose proof (tx_poll_spec (is_null (d_can_send s)) (d_cons s) _ Hv) as Hpoll.
  destruct (tx_poll _ _ _) as [more v]. pose proof Hpoll as (Hv' & He & _ & Hres). simpl in Hv', He, Hres.
  pose proof (drain_inv_evolved s v Hs Hv' He) as Hinv. set (s1 := mk_drain v _ _ _ _ _ _) in *.
  pose proof Hinv as (_ & He1 & Hu & Hd & Hb & Hc & Ht).
  pose proof He1 as (Hok & Ec & _). unfold acc_of, d_priv in *; simpl in *. rewrite <- Ec in Hd, Ht.
  destruct more; simpl; last first.
  { destruct Hres as [E Hk]. exists false. pose proof Hv' as (_ & _ & Hp).
    split; [|intros _; unfold d_priv; simpl; by rewrite <- Hp].
    unfold drain_at, acc_of, d_priv; simpl. rewrite <- Ec.
    split_and!; try done; try lia. rewrite <- Ht. f_equal.
    rewrite E, Hp, <- length_pending, Nat2Z.id. by rewrite take_ge. }
  pose proof (polled_measure _ _ _ _ Hv Hpoll Hd Hu) as Hmu. destruct Hres as [Hne _].
  pose proof Hv' as (_ & _ & Hp). rewrite Hp in Hne.
  destruct (next_pending _ _ Hok Hu Hd Hne) as (Hlk & Hlt & Hm & Hadv).
  destruct (tx_process_split _ _ _ _ _ Hlk Ht) as [Hall Hnext].
  pose proof (dist_range (cons (v_priv v)) (d_cons s)).
  replace (S (Z.to_nat (dist (cons (v_priv v)) (d_cons s))))
    with (Z.to_nat (dist (cons (v_priv v)) (u32 (d_cons s + 1)))) in Hnext by lia.
  assert (Hdec : view_measure (u32 (d_cons s + 1)) v < view_measure (d_cons s) (d_view s)).
  { unfold view_measure in *. rewrite Hp in *. simpl in *. lia. }
  unfold tx_one in Hall, Hnext; simpl in Hall, Hnext.
  destruct (BPFHV_BE_TX_BUDGET <=? d_count s) eqn:Eb.
  { exists true. split; [|done]. unfold drain_at, acc_of, d_priv; simpl. rewrite <- Ec.
    split_and!; try done; try lia. by rewrite Hall, tx_process_stopped. }
  zify_bool.
  destruct (translate_addr _ _ _) as [base map]. destruct (base =? NULL) eqn:En.
  { split; [|done]. unfold drain_inv, drain_at, acc_of, d_priv; simpl. rewrite <- Ec.
    split_and!; try done; try apply u32_range; try lia. rewrite Hnext. by rewrite Hadv. }
  destruct (be_send _ _ _) as [res w]. destruct (s32 (io_ret res) <=? 0) eqn:Er.
  - exists true. split; [|done]. unfold drain_at, acc_of, d_priv; simpl. rewrite <- Ec.
    split_and!; try done; try lia. by rewrite Hall, tx_process_stopped.
  - split; [|done]. unfold drain_inv, drain_at, acc_of, d_priv; simpl. rewrite <- Ec.
    split_and!; try done; try apply u32_range; try lia. rewrite Hnext. by rewrite Hadv.
Qed.

End loop.

Definition acc0 (can_send : option Z) (map : mem_map) (w : W) : tx_acc :=
  mk_acc 0 0 can_send map w false.

Lemma drain_loop_result fuel map priv can_send w env :
  ring_ok priv -> Forall guest_rely env -> poll_fuel priv env < Z.of_nat fuel ->
  exists s, run drain_iter fuel (drain_start map priv can_send w env) = Some s /\
    drain_post priv (acc0 can_send map w) s.
Proof.
  intros Hok HF Hfuel.
  apply (run_measure drain_iter (drain_inv priv (acc0 can_send map w)) _
           (fun s => view_measure (d_cons s) (d_view s)) (drain_iter_spec priv (acc0 can_send map w))).
  - pose proof (evolved_refl _ Hok) as He. pose proof Hok as (G & Hp & Hc & ?).
    unfold drain_inv, drain_at, drain_start, acc_of, d_priv; simpl. rewrite dist_self.
    pose proof (dist_range (cons priv) (prod priv)).
    destruct can_send; unfold view_ok; simpl; split_and!; try done; try exact He; lia.
  - pose proof (view_measure_start priv (prod priv) env Hok eq_refl) as Hm.
    unfold drain_start; simpl. destruct can_send; unfold view_measure, poll_fuel in *; simpl in *; lia.
Qed.

(** C18: [sring_txq_drain] terminates and is equivalent to the reference
    processing of the descriptors that were published when it was called or
    while it ran: it sends exactly the packets the reference sends, in the
    order of publication, returns their number, and moves the descriptors it
    went through from the pending to the completed ones (none if no packet
    was sent), whatever the guest publishes or collects meanwhile. *)
Theorem sring_txq_drain_refines fuel map txq priv can_send w env :
  ring_ok priv -> Forall guest_rely env -> poll_fuel priv env < Z.of_nat fuel ->
  exists res new gone rest,
    let all := pending priv ++ new in
    let a := tx_process all (acc0 can_send map w) in
    let n := if 0 <? a_count a then Z.to_nat (a_n a) else O in
    sring_txq_drain fuel map txq priv can_send w env = Some res /\
    r_count res = a_count a /\ r_can_send res = a_can_send a /\
    r_map res = a_map a /\ r_w res = a_w a /\ ring_ok (r_priv res) /\
    completed priv = gone ++ rest /\
    abs (r_priv res) = mk_fifo (drop n all) (rest ++ take n all).
Proof.
  intros Hok HF Hfuel.
  destruct (drain_loop_result fuel map priv can_send w env Hok HF Hfuel)
    as (s & Hrun & stop & (_ & (Hok' & Ec & _ & (new & Ep) & (gone & Eg)) & Hu & Hd & _ & _ & Ht) & _).
  exists (drain_finish (set_notify 0 txq) s), new, gone, (completed (d_priv s)).
  cbv zeta. unfold sring_txq_drain. rewrite Hrun. simpl. rewrite <- Ep, Ht.
  unfold drain_finish, acc_of; simpl. rewrite <- Ec in Hd |- *.
  destruct (consume_take (d_cons s) (d_priv s) Hok' Hu Hd) as (Hok2 & Habs).
  destruct (0 <? d_count s) eqn:E0; simpl; split_and!; try done.
  unfold abs. by rewrite drop_0, take_0, app_nil_r.
Qed.

(** A hypervisor that stops draining because the ring is empty goes to
    sleep safely: when neither the budget nor the backend stops the drain in
    non busy-wait mode, every descriptor published so far has been processed
    and kicks are left enabled, so that the next [sring_txp] asks for a kick. *)
Theorem sring_txq_drain_sleep fuel map txq priv v w env :
  ring_ok priv -> Forall guest_rely env -> poll_fuel priv env < Z.of_nat fuel ->
  exists res new,
    let all := pending priv ++ new in
    let a := tx_process all (acc0 (Some v) map w) in
    sring_txq_drain fuel map txq priv (Some v) w env = Some res /\
    (a_stop a = false ->
       a_n a = Z.of_nat (length all) /\ kick_enabled (r_priv res) = 1 /\
       (0 < r_count res -> pending (r_priv res) = [])).
Proof.
  intros Hok HF Hfuel.
  destruct (drain_loop_result fuel map priv (Some v) w env Hok HF Hfuel)
    as (s & Hrun & stop & (_ & (Hok' & Ec & _ & (new & Ep) & _) & Hu & Hd & _ & _ & Ht) & Hstop).
  exists (drain_finish (set_notify 0 txq) s), new.
  cbv zeta. unfold sring_txq_drain. rewrite Hrun. simpl. rewrite <- Ep, Ht. split; [done|].
  intros Es. unfold acc_of in Es; simpl in Es. destruct (Hstop Es) as [E Hk].
  pose proof (tx_process_can_send (pending (d_priv s)) (acc0 (Some v) map w)) as Hnn.
  rewrite Ht in Hnn. specialize (Hk Hnn). unfold acc_of; simpl. split_and!.
  - rewrite length_pending, E, Ec. done.
  - unfold drain_finish. by case_if.
  - unfold drain_finish. case_if; simpl; [|lia]. intros _. unfold pending; simpl.
    rewrite E. apply between_self.
Qed.

End drain.

(** *** The guest programs *)

(** [sring_txp] refuses a packet that is not in exactly one buffer and
    leaves the context alone; otherwise, when the ring has room, it appends
    the descriptor of the buffer to the pending ones, completes nothing, and
    asks the driver for a kick exactly when the hypervisor enabled kicks. *)
Theorem sring_txp_refines h ctx :
  ring_ok (opaque ctx) -> in_flight (opaque ctx) < qmask (opaque ctx) + 1 ->
  let txb := get_buf 0 ctx in
  let d := mk_desc (buf_cookie txb) (buf_paddr txb) (buf_len txb) (sring_mark_packet h ctx) in
  let '(ret, ctx') := sring_txp h ctx in
  if num_bufs ctx =? 1 then
    ret = 0 /\ guest_step (opaque ctx) (opaque ctx') /\
    abs (opaque ctx') = mk_fifo (pending (opaque ctx) ++ [d]) (completed (opaque ctx)) /\
    (oflags ctx' = BPFHV_OFLAGS_KICK_NEEDED <-> kick_enabled (opaque ctx) <> 0) /\
    (oflags ctx' = 0 <-> kick_enabled (opaque ctx) = 0)
  else ret = -1 /\ ctx' = ctx.
Proof.
  intros Hok Hroom. cbv zeta. unfold sring_txp. destruct (num_bufs ctx =? 1); simpl; [|done].
  destruct (publish_refines (mk_desc (buf_cookie (get_buf 0 ctx)) (buf_paddr (get_buf 0 ctx))
    (buf_len (get_buf 0 ctx)) (sring_mark_packet h ctx)) _ Hok Hroom) as (Hok' & _ & Habs).
  split; [done|]. split; [by apply guest_step_publish|]. split; [done|].
  unfold z2b. destruct (kick_enabled (opaque ctx) =? 0) eqn:E; zify_bool; simpl;
    change BPFHV_OFLAGS_KICK_NEEDED with 1; lia.
Qed.

Lemma sring_tx_get_one_spec ctx :
  opaque (sring_tx_get_one ctx) = collect (opaque ctx).
Proof. done. Qed.

(** The buffer the program hands back for a descriptor. *)
Definition buf_of (d : sring_tx_desc) (old : bpfhv_buf) : bpfhv_buf :=
  mk_buf (cookie d) (paddr d) (buf_vaddr old) (len d).

(** [sring_txc] returns 0 and changes nothing when no transmission has
    completed; otherwise it returns 1 and the context describes the buffer of
    the oldest completed descriptor, which leaves the ring: completions are
    reported once each, in order. *)
Theorem sring_txc_refines ctx :
  ring_ok (opaque ctx) -> (0 < length (bufs ctx))%nat ->
  let '(ret, ctx') := sring_txc ctx in
  match completed (opaque ctx) with
  | [] => ret = 0 /\ ctx' = ctx
  | d :: ds => ret = 1 /\ ring_ok (opaque ctx') /\
      abs (opaque ctx') = mk_fifo (pending (opaque ctx)) ds /\
      num_bufs ctx' = 1 /\ get_buf 0 ctx' = buf_of d (get_buf 0 ctx) /\ oflags ctx' = 0
  end.
Proof.
  intros Hok Hb. unfold sring_txc. pose proof Hok as (G & _ & Hc & Hcl & _).
  destruct (_ =? _) eqn:E; zify_bool.
  - unfold completed. rewrite E, between_self. done.
  - destruct (collect_refines _ Hok E) as (Hok' & _ & Ecomp & Epend). rewrite Ecomp. simpl.
    split_and!; try done.
    unfold get_buf at 1. simpl. by rewrite lookup_total_insert_eq.
Qed.

(** [sring_txr] reclaims the oldest descriptor in flight, completed or
    still pending, and keeps the ring well formed: [cons] follows [clear]
    when the reclaimed descriptor had not been consumed. *)
Theorem sring_txr_refines ctx :
  ring_ok (opaque ctx) ->
  let '(ret, ctx') := sring_txr ctx in
  match completed (opaque ctx) ++ pending (opaque ctx) with
  | [] => ret = 0 /\ ctx' = ctx
  | d :: ds => ret = 1 /\ ring_ok (opaque ctx') /\
      completed (opaque ctx') ++ pending (opaque ctx') = ds /\
      in_flight (opaque ctx') = in_flight (opaque ctx) - 1
  end.
Proof.
  intros Hok. unfold sring_txr. pose proof Hok as (G & Hp & Hc & Hcl & Hf).
  pose proof (qmask_bound _ Hok) as [? ?]. unfold in_flight in Hf.
  pose proof (dist_range (clear (opaque ctx)) (cons (opaque ctx))).
  pose proof (dist_range (cons (opaque ctx)) (prod (opaque ctx))).
  destruct (clear (opaque ctx) =? prod (opaque ctx)) eqn:E; zify_bool.
  - pose proof (proj2 (dist_0 _ _ Hcl Hp) E) as E0.
    rewrite (dist_split _ (cons (opaque ctx))) in E0 by (change (2 ^ 32) with (2 * 2 ^ 31); lia).
    unfold completed, pending, between.
    replace (dist (clear (opaque ctx)) (cons (opaque ctx))) with 0 by lia.
    replace (dist (cons (opaque ctx)) (prod (opaque ctx))) with 0 by lia. done.
  - destruct (clear (opaque ctx) =? cons (opaque ctx)) eqn:E1; zify_bool.
    + unfold completed at 1. rewrite E1, between_self. simpl.
      rewrite E1 in E. unfold pending at 1. rewrite between_cons by done.
      pose proof (dist_add (cons (opaque ctx)) 1 ltac:(lia)) as Hd1.
      assert (dist (cons (opaque ctx)) (prod (opaque ctx)) <> 0) by (by rewrite dist_0).
      destruct (consume_refines (u32 (cons (opaque ctx) + 1)) (opaque ctx) Hok
                  ltac:(apply u32_range) ltac:(lia)) as (Hok' & Hf' & Ep & Ec).
      unfold ring_ok, in_flight, completed, pending in *; simpl in *. rewrite E1 in *.
      rewrite dist_self in *. rewrite between_self. simpl.
      destruct Hok' as (?&?&?&?&?). split_and!; try done; try apply u32_range; rewrite ?dist_self; lia.
    + destruct (collect_refines _ Hok E1) as (Hok' & Hf' & Ecomp & Epend).
      rewrite Ecomp. simpl. by split_and!.
Qed.

Lemma drain_quiet {W} `{!NetBackend W} fuel (s s' : drain_state (W:=W)) :
  Forall quiet (v_env (d_view s)) -> run drain_iter fuel s = Some s' ->
  clear (d_priv s') = clear (d_priv s) /\ intr (d_priv s') = intr (d_priv s).
Proof.
  intros HF Hrun. set (P := quiet_state (D:=sring_tx_desc) (clear (d_priv s)) (intr (d_priv s))).
  enough (keeps P (d_view s')) as [[? ?] _] by done.
  revert Hrun. apply (run_invariant drain_iter (fun t => keeps P (d_view t)) (fun t => keeps P (d_view t)));
    [|by apply quiet_keeps].
  intros t Ht. unfold drain_iter.
  pose proof (tx_poll_keeps P (is_null (d_can_send t)) (d_cons t) _ ltac:(done) Ht) as Hq.
  destruct (tx_poll _ _ _) as [more v]. simpl in Hq. do 2 (case_if; [done|]).
  destruct (translate_addr _ _ _). case_if; [done|]. destruct (be_send _ _ _). by case_if.
Qed.

(** No completion interrupt is lost on the transmit side.  When
    [sring_txi] returns 0 for a request of [min_completed_bufs] buffers, fewer
    buffers are complete, and a drain that runs next and completes the last of
    them asks for an interrupt, also if the guest publishes more packets in
    the meantime and whatever the hypervisor did between the two reads of
    [cons] in [sring_txi]. *)
Theorem sring_txi_no_lost_interrupt {W} `{!NetBackend W} hv ctx ctx' fuel map txq can_send (w : W) env res :
  ring_ok (opaque ctx) -> (forall r, ring_ok r -> hv_step r (hv r)) ->
  0 < min_completed_bufs ctx <= qmask (opaque ctx) + 1 ->
  sring_txi hv ctx = (0, ctx') ->
  Forall guest_rely env -> Forall quiet env -> poll_fuel (opaque ctx') env < Z.of_nat fuel ->
  sring_txq_drain fuel map txq (opaque ctx') can_send w env = Some res ->
  Z.of_nat (length (completed (opaque ctx'))) < min_completed_bufs ctx /\
  (min_completed_bufs ctx <= Z.of_nat (length (completed (r_priv res))) ->
   q_notify (r_txq res) = 1).
Proof.
  intros Hok Hhv Hmin Htxi HF HQ Hfuel Hdrain.
  destruct (ring_txi_spec hv ctx ctx' Hok Hhv ltac:(lia) Htxi) as (Hok2 & Eq & Ei & Hlt).
  set (r1 := opaque ctx') in *. rewrite !length_completed. split; [done|].
  destruct (drain_loop_result fuel map r1 can_send w env Hok2 HF Hfuel)
    as (s & Hrun & stop & (_ & (Hok' & Ec' & Eq' & _) & Hu & Hd & _) & _).
  pose proof (drain_quiet fuel (drain_start map r1 can_send w env) s HQ Hrun) as [Ecl' Ei'].
  assert (Hp : forall f : sring_tx_context -> Z, (forall r k, f (set_kick_enabled k r) = f r) ->
             f (d_priv (drain_start map r1 can_send w env)) = f r1)
    by (intros f Hf; unfold drain_start, d_priv; simpl; destruct can_send; [apply Hf|done]).
  rewrite (Hp clear) in Ecl' by done. rewrite (Hp intr) in Ei' by done.
  unfold sring_txq_drain in Hdrain. rewrite Hrun in Hdrain. simpl in Hdrain. injection Hdrain as <-.
  rewrite <- Ec' in Hd.
  unfold drain_finish. destruct (0 <? d_count s) eqn:E0; zify_bool; simpl; intros Hreach.
  - rewrite (proj2 (intr_at_reached (d_priv s) (d_cons s) (min_completed_bufs ctx) Hok' Hu Hd
                      ltac:(rewrite Eq', Eq; lia) ltac:(by rewrite Ei', Ei, Ecl')
                      ltac:(rewrite Ecl', Ec'; lia))); [done|].
    unfold dist in *. simpl in Hreach. lia.
  - rewrite Ecl', Ec' in Hreach. lia.
Qed.

(** *** Witnesses *)

(** A ring of 16 entries on which the counters have just wrapped around: one
    completed descriptor [d1] and one pending [d0]. *)
Definition ring16 (d0 d1 : sring_tx_desc) : sring_tx_context :=
  mk_ring 1 0 0 1 15 (2 ^ 32 - 1)
    (<[15%nat := d1]> (<[0%nat := d0]> (repeat desc_zero 16))).

Definition example_d0 : sring_tx_desc := mk_desc 7 0x2000 64 0.
Definition example_d1 : sring_tx_desc := mk_desc 8 0x2040 64 0.
Definition example_ring : sring_tx_context := ring16 example_d0 example_d1.

Lemma example_ring_ok : ring_ok example_ring.
Proof.
  split; [exists 4; vm_compute; split_and!; congruence|].
  unfold is_u32, in_flight. vm_compute. split_and!; congruence.
Defined.

Definition example_ctx : tx_ctx := mk_ctx 0 0 1 0 0 2 0 (repeat inhabitant 64) example_ring.
Definition example_helpers : bpf_helpers sring_tx_context := mk_helpers (fun c => (0, c)) (fun _ => []).

(** The guest publishes one more descriptor, if there is room. *)
Definition publish_more (r : sring_tx_context) : sring_tx_context :=
  if in_flight r <? qmask r + 1 then publish example_d1 r else r.

Lemma publish_more_rely : guest_rely publish_more /\ quiet publish_more.
Proof.
  split.
  - intros r Hok. unfold publish_more. case_if; [by apply guest_step_publish|].
    unfold guest_step. split_and!; try done; exists []; [by rewrite app_nil_r|done].
  - intros r. unfold publish_more. by case_if.
Qed.

Lemma sring_txq_drain_refines_witness :
  exists res,
    sring_txq_drain 100 example_map (mk_qio 0 stats_zero) example_ring (Some 1) [] [publish_more]
      = Some res /\ ring_ok (r_priv res) /\ r_count res = 2 /\
    r_w res = [mk_iov 0x801000 64; mk_iov 0x801040 64].
Proof.
  destruct (sring_txq_drain_refines 100 example_map (mk_qio 0 stats_zero) example_ring (Some 1) []
              [publish_more]) as (res & new & gone & rest & Hrun & _ & _ & _ & _ & Hok & _).
  - apply example_ring_ok.
  - constructor; [apply publish_more_rely|constructor].
  - vm_compute. reflexivity.
  - exists res. split; [exact Hrun|]. split; [exact Hok|].
    revert Hrun. vm_compute. intros [= <-]. split; reflexivity.
Defined.

Lemma sring_txq_drain_sleep_witness :
  exists res,
    sring_txq_drain 100 example_map (mk_qio 0 stats_zero) example_ring (Some 1) [] [publish_more]
      = Some res /\ kick_enabled (r_priv res) = 1.
Proof.
  destruct (sring_txq_drain_sleep 100 example_map (mk_qio 0 stats_zero) example_ring 1 []
              [publish_more]) as (res & new & Hrun & _).
  - apply example_ring_ok.
  - constructor; [apply publish_more_rely|constructor].
  - vm_compute. reflexivity.
  - exists res. split; [exact Hrun|]. revert Hrun. vm_compute. intros [= <-]. reflexivity.
Defined.

Lemma sring_txp_refines_witness :
  fst (sring_txp example_helpers example_ctx) = 0 /\
  oflags (snd (sring_txp example_helpers example_ctx)) = BPFHV_OFLAGS_KICK_NEEDED.
Proof.
  pose proof (sring_txp_refines example_helpers example_ctx example_ring_ok
                ltac:(vm_compute; reflexivity)) as H.
  simpl in H. destruct H as (H1 & _ & _ & H2 & _). split; [reflexivity|].
  apply H2. vm_compute. congruence.
Defined.

Lemma sring_txc_refines_witness :
  fst (sring_txc example_ctx) = 1 /\ get_buf 0 (snd (sring_txc example_ctx)) = mk_buf 8 0x2040 0 64.
Proof.
  pose proof (sring_txc_refines example_ctx example_ring_ok ltac:(simpl; lia)) as H.
  destruct (sring_txc example_ctx) as [ret ctx'] eqn:E. revert H.
  change (completed (opaque example_ctx)) with [example_d1].
  intros (-> & _ & _ & _ & Hb & _). split; [reflexivity|]. exact Hb.
Defined.

Lemma sring_txr_refines_witness :
  fst (sring_txr example_ctx) = 1 /\ ring_ok (opaque (snd (sring_txr example_ctx))).
Proof.
  pose proof (sring_txr_refines example_ctx example_ring_ok) as H.
  destruct (sring_txr example_ctx) as [ret ctx'] eqn:E. revert H.
  change (completed (opaque example_ctx) ++ pending (opaque example_ctx)) with [example_d1; example_d0].
  intros (-> & Hok & _). split; [reflexivity|exact Hok].
Defined.

Lemma sring_txi_no_lost_interrupt_witness :
  exists ctx' res,
    sring_txi id example_ctx = (0, ctx') /\
    sring_txq_drain 100 example_map (mk_qio 0 stats_zero) (opaque ctx') None [] [] = Some res /\
    q_notify (r_txq res) = 1.
Proof.
  exists (snd (sring_txi id example_ctx)).
  destruct (sring_txq_drain 100 example_map (mk_qio 0 stats_zero)
     (opaque (snd (sring_txi id example_ctx))) None [] []) as [res|] eqn:E;
    [|exfalso; revert E; vm_compute; congruence].
  exists res. split; [vm_compute; reflexivity|]. split; [reflexivity|].
  apply (sring_txi_no_lost_interrupt id example_ctx (snd (sring_txi id example_ctx)) 100 example_map
           (mk_qio 0 stats_zero) None [] [] res example_ring_ok).
  - intros r Hok. by apply hv_step_refl.
  - vm_compute. split; congruence.
  - vm_compute. reflexivity.
  - constructor.
  - constructor.
  - vm_compute. reflexivity.
  - exact E.
  - pose proof E as E'. vm_compute in E'. injection E' as <-. vm_compute. congruence.
Defined.

End SringTx.
