(* ===== verification/SringRx.v ===== *)
(** * The sring device, receive direction

    The receive side of proxy/sring.c (hypervisor) and proxy/sring_progs.c
    (guest programs); see Sring for the transmit side and for the way the
    concurrency of the two sides is modelled. *)

From S2P Require Import Prelude Ring Abi Backend Sring.
Open Scope Z_scope.

Record sring_rx_desc := mk_desc { cookie : Z; paddr : Z; len : Z }.
Definition desc_zero : sring_rx_desc := mk_desc 0 0 0.
#[export] Instance sring_rx_desc_inhabited : Inhabited sring_rx_desc := populate desc_zero.
Definition set_len (x : Z) (d : sring_rx_desc) : sring_rx_desc := mk_desc (cookie d) (paddr d) x.

Abbreviation sring_rx_context := (ring sring_rx_desc).
Abbreviation rx_ctx := (bpfhv_context sring_rx_context).

Definition sring_rx_ctx_init (num_rx_bufs : Z) : option sring_rx_context :=
  ctx_init desc_zero num_rx_bufs 1.

(** *** Guest programs *)

(** [for (i = 0; i < ctx->num_bufs; i++, prod++)]; [n] iterations left. *)
Fixpoint rxp_loop (ctx : rx_ctx) (n : nat) (i prod : Z) (priv : sring_rx_context)
    : Z * sring_rx_context :=
  match n with
  | O => (prod, priv)
  | S n' =>
      let rxb := get_buf i ctx in
      let rxd := mk_desc (buf_cookie rxb) (buf_paddr rxb) (buf_len rxb) in
      rxp_loop ctx n' (i + 1) (u32 (prod + 1)) (put_desc prod rxd priv)
  end.

Definition sring_rxp (ctx : rx_ctx) : Z * rx_ctx :=
  let priv := opaque ctx in
  if BPFHV_MAX_RX_BUFS <? num_bufs ctx then (-1, ctx)
  else
    let '(prod, priv) := rxp_loop ctx (Z.to_nat (num_bufs ctx)) 0 (prod priv) priv in
    let priv := set_prod prod priv in
    let ctx := set_opaque priv ctx in
    (0, set_oflags (if z2b (kick_enabled priv) then BPFHV_OFLAGS_KICK_NEEDED else 0) ctx).

Definition sring_rxc (h : bpf_helpers sring_rx_context) (ctx : rx_ctx) : Z * rx_ctx :=
  let priv := opaque ctx in
  let clear := clear priv in
  let cons := cons priv in
  if clear =? cons then (0, ctx)
  else
    let rxd := get_desc clear priv in
    let rxb := mk_buf (cookie rxd) (paddr rxd) (buf_vaddr (get_buf 0 ctx)) (len rxd) in
    let ctx := put_buf 0 rxb ctx in
    let ctx := set_opaque (set_clear (u32 (clear + 1)) priv) ctx in
    let ctx := set_num_bufs 1 ctx in
    let '(ret, ctx) := rx_pkt_alloc h ctx in
    if ret <? 0 then (ret, ctx) else (1, set_oflags 0 ctx).

(** [for (; clear != prod && i < BPFHV_MAX_RX_BUFS; i++)]; [n] bounds the
    iterations left. *)
Fixpoint rxr_loop (n : nat) (prod i clear : Z) (ctx : rx_ctx) : Z * Z * rx_ctx :=
  match n with
  | O => (i, clear, ctx)
  | S n' =>
      if negb (clear =? prod) && (i <? BPFHV_MAX_RX_BUFS) then
        let rxd := get_desc clear (opaque ctx) in
        let rxb := mk_buf (cookie rxd) (paddr rxd) (buf_vaddr (get_buf i ctx)) (len rxd) in
        rxr_loop n' prod (i + 1) (u32 (clear + 1)) (put_buf i rxb ctx)
      else (i, clear, ctx)
  end.

Definition sring_rxr (ctx : rx_ctx) : Z * rx_ctx :=
  let priv := opaque ctx in
  let cons := cons priv in
  let clear0 := clear priv in
  let prod := prod priv in
  if clear0 =? prod then (0, ctx)
  else
    let '(i, clear, ctx) := rxr_loop (Z.to_nat BPFHV_MAX_RX_BUFS + 1) prod 0 clear0 ctx in
    let priv := if clear_met_cons clear cons clear0 then set_cons clear priv else priv in
    let priv := set_clear clear priv in
    (1, set_oflags 0 (set_num_bufs i (set_opaque priv ctx))).

Definition sring_rxi : (sring_rx_context -> sring_rx_context) -> rx_ctx -> Z * rx_ctx := ring_rxi.

(** *** Hypervisor *)

Definition sring_rxq_notification (priv : sring_rx_context) (enable : Z) : sring_rx_context :=
  sring_notification priv enable.

Section push.
Context {W : Type} `{!NetBackend W}.

(** The variables of the loop of [sring_rxq_push]. *)
Record push_state := mk_push {
  p_view : view (D:=sring_rx_desc);  (* [priv], [prod], and the guest actions to come *)
  p_cons : Z;
  p_count : Z;
  p_bufs : Z;                        (* increments of [rxq->stats.bufs] *)
  p_can_receive : option Z;          (* [None] is the NULL pointer *)
  p_map : mem_map;
  p_w : W;
}.

Definition p_priv (s : push_state) : sring_rx_context := v_priv (p_view s).

Definition push_iter (s : push_state) : step push_state :=
  let '(more, v) := rx_poll (is_null (p_can_receive s)) (p_cons s) (p_view s) in
  if negb more then
    Break (mk_push v (p_cons s) (p_count s) (p_bufs s)
             (if is_null (p_can_receive s) then None else Some 0) (p_map s) (p_w s))
  else
    let s := mk_push v (p_cons s) (p_count s) (p_bufs s) (p_can_receive s) (p_map s) (p_w s) in
    if BPFHV_BE_RX_BUDGET <=? p_count s then Break s
    else
      let rxd := get_desc (p_cons s) (p_priv s) in
      let '(base, map) := translate_addr (p_map s) (paddr rxd) (len rxd) in
      if base =? NULL then
        Continue (mk_push (on_priv (put_desc (p_cons s) (set_len 0 rxd)) v) (u32 (p_cons s + 1))
                    (p_count s) (p_bufs s) (p_can_receive s) map (p_w s))
      else
        let '(res, w) := be_recv 0 (p_w s) [mk_iov base (len rxd)] in
        let pktsize := s32 (io_ret res) in
        if pktsize <=? 0 then
          Break (mk_push v (p_cons s) (p_count s) (p_bufs s) (p_can_receive s) map w)
        else
          Continue (mk_push (on_priv (put_desc (p_cons s) (set_len (u32 pktsize) rxd)) v)
                      (u32 (p_cons s + 1)) (p_count s + 1) (p_bufs s + 1) (p_can_receive s) map w).

Record push_result := mk_push_result {
  r_count : Z;
  r_priv : sring_rx_context;
  r_rxq : queue_io;
  r_can_receive : option Z;
  r_map : mem_map;
  r_w : W;
}.

(** The code after the loop. *)
Definition push_finish (rxq : queue_io) (s : push_state) : push_result :=
  let rxq := upd_stats (stats_add_bufs (p_bufs s)) rxq in
  if 0 <? p_count s then
    let priv := set_cons (p_cons s) (p_priv s) in
    let rxq := upd_stats (stats_batch (p_count s)) (set_notify (s32 (intr priv)) rxq) in
    mk_push_result (p_count s) priv rxq (p_can_receive s) (p_map s) (p_w s)
  else mk_push_result (p_count s) (p_priv s) rxq (p_can_receive s) (p_map s) (p_w s).

Definition push_start (map : mem_map) (priv : sring_rx_context) (can_receive : option Z) (w : W)
    (env : list (sring_rx_context -> sring_rx_context)) : push_state :=
  let prod := prod priv in
  let cons := cons priv in
  let priv := if z2b (kick_enabled priv) then sring_rxq_notification priv 0 else priv in
  mk_push (mk_view priv prod env) cons 0 0 can_receive map w.

Definition sring_rxq_push (fuel : nat) (map : mem_map) (rxq : queue_io) (priv : sring_rx_context)
    (can_receive : option Z) (w : W) (env : list (sring_rx_context -> sring_rx_context))
    : option push_result :=
  s ← run push_iter fuel (push_start map priv can_receive w env);
  Some (push_finish (set_notify 0 rxq) s).

(** *** The reference: filling a list of buffers

    [rx_process] receives packets into the buffers of a list in order, until
    the list ends, the budget is spent or there is nothing to receive.
    [a_out] collects the descriptors it went through as it hands them back:
    with the length of the packet, or 0 for a buffer outside guest memory. *)
Record rx_acc := mk_acc {
  a_out : list sring_rx_desc;
  a_count : Z;
  a_map : mem_map;
  a_w : W;
  a_stop : bool;
}.

Definition rx_one (a : rx_acc) (d : sring_rx_desc) : rx_acc :=
  if a_stop a then a
  else if BPFHV_BE_RX_BUDGET <=? a_count a then mk_acc (a_out a) (a_count a) (a_map a) (a_w a) true
  else
    let '(base, map) := translate_addr (a_map a) (paddr d) (len d) in
    if base =? NULL then mk_acc (a_out a ++ [set_len 0 d]) (a_count a) map (a_w a) false
    else
      let '(res, w) := be_recv 0 (a_w a) [mk_iov base (len d)] in
      let pktsize := s32 (io_ret res) in
      if pktsize <=? 0 then mk_acc (a_out a) (a_count a) map w true
      else mk_acc (a_out a ++ [set_len (u32 pktsize) d]) (a_count a + 1) map w false.

Definition rx_process (ds : list sring_rx_desc) (a : rx_acc) : rx_acc := foldl rx_one a ds.

Lemma rx_process_stopped ds a : a_stop a = true -> rx_process ds a = a.
Proof.
  intros E. induction ds as [|d ds IH]; simpl; [done|].
  assert (rx_one a d = a) as -> by (unfold rx_one; by rewrite E). done.
Qed.

Lemma rx_process_split ds n d a a' :
  ds !! n = Some d -> rx_process (take n ds) a = a' ->
  rx_process ds a = rx_process (drop (S n) ds) (rx_one a' d) /\
  rx_process (take (S n) ds) a = rx_one a' d.
Proof.
  intros Hd Ht. split.
  - rewrite <- (take_drop_middle ds n d Hd) at 1. unfold rx_process in *. by rewrite foldl_app, Ht.
  - rewrite (take_S_r _ _ _ Hd). unfold rx_process in *. by rewrite foldl_app, Ht.
Qed.

(** *** The loop computes the reference *)

Section loop.
Context (r0 : sring_rx_context) (a0 : rx_acc).

(** The ring [r], [n] descriptors of which have been gone through: those are
    what the reference hands back, the others are as the guest published
    them. *)
Definition filled (r : sring_rx_context) (n : nat) (a : rx_acc) : Prop :=
  ring_ok r /\ cons r = cons r0 /\ qmask r = qmask r0 /\
  (exists gone, completed r0 = gone ++ completed r) /\
  exists new, drop n (pending r) = drop n (pending r0 ++ new) /\
  length (pending r) = length (pending r0 ++ new) /\
  rx_process (take n (pending r0 ++ new)) a0 = a /\ a_out a = take n (pending r).

Definition acc_of (s : push_state) (n : nat) (stop : bool) : rx_acc :=
  mk_acc (take n (pending (p_priv s))) (p_count s) (p_map s) (p_w s) stop.

Definition passed (s : push_state) : nat := Z.to_nat (dist (cons r0) (p_cons s)).

Definition push_ok (s : push_state) : Prop :=
  view_ok (p_view s) /\ is_u32 (p_cons s) /\
  dist (cons r0) (p_cons s) <= dist (cons r0) (prod (p_priv s)) /\
  p_bufs s = p_count s /\ 0 <= p_count s <= BPFHV_BE_RX_BUDGET.

Definition push_inv (s : push_state) : Prop :=
  push_ok s /\ filled (p_priv s) (passed s) (acc_of s (passed s) false).

(** Guest actions preserve the view: they only append descriptors. *)
Lemma filled_evolved r r' n a :
  filled r n a -> (n <= length (pending r))%nat -> evolved r r' -> filled r' n a.
Proof.
  intros (_ & Ec & Eq & (gone & Eg) & new & Ed & El & Ep & Ea) Hn
    (Hok & Ec' & Eq' & (more & Em) & (gone' & Eg')).
  split_and!; [done|congruence|congruence|exists (gone ++ gone'); by rewrite Eg, Eg', app_assoc|].
  exists (new ++ more). rewrite app_assoc, Em.
  rewrite !drop_app_le, !take_app_le by (rewrite <- ?El; lia).
  split_and!; try done; [by rewrite Ed|by rewrite !length_app, El, length_app|by rewrite take_app_le].
Qed.

(** Handing back the next descriptor as [d'] does what the reference does. *)
Lemma filled_advance r n a d d' a' :
  filled r n a -> pending r !! n = Some d -> Z.of_nat n < dist (cons r0) (prod r) ->
  rx_one a d = a' -> a_out a' = a_out a ++ [d'] ->
  filled (put_desc (u32 (cons r0 + Z.of_nat n)) d' r) (S n) a'.
Proof.
  intros (Hok & Ec & Eq & Hg & new & Ed & El & Ep & Ea) Hd Hn Ha' Eo.
  destruct (rewrite_refines d' r (Z.of_nat n) Hok) as (Hok' & Epend & Ecomp); [rewrite Ec; lia|].
  rewrite Ec in Hok', Epend, Ecomp. rewrite Nat2Z.id in Epend.
  assert (Hall : (pending r0 ++ new) !! n = Some d).
  { rewrite <- (Nat.add_0_r n), <- lookup_drop, <- Ed, lookup_drop. by rewrite Nat.add_0_r. }
  split_and!; [done..|by rewrite Ecomp|]. exists new. rewrite Epend.
  pose proof (lookup_lt_Some _ _ _ Hd).
  split_and!.
  - rewrite drop_insert_lt by lia. rewrite <- (Nat.add_1_r n), <- !drop_drop, Ed. done.
  - by rewrite length_insert.
  - by destruct (rx_process_split _ _ _ _ _ Hall Ep) as [_ ->].
  - rewrite Eo, Ea. rewrite (take_S_r _ _ d') by (apply list_lookup_insert_eq; lia).
    by rewrite take_insert_ge by lia.
Qed.

Lemma push_inv_evolved s v :
  push_inv s -> view_ok v -> evolved (p_priv s) (v_priv v) ->
  push_inv (mk_push v (p_cons s) (p_count s) (p_bufs s) (p_can_receive s) (p_map s) (p_w s)).
Proof.
  intros ((Hv & Hu & Hd & Hb & Hc) & Hf) Hv' He. pose proof Hf as (_ & Ec & _).
  pose proof He as (Hok & Ec' & _ & (new & Ep) & _). rewrite Ec in Ec'.
  pose proof (length_pending (p_priv s)) as Hl. pose proof (length_pending (v_priv v)) as Hl'.
  rewrite Ec in Hl. rewrite Ec', Ep, length_app in Hl'.
  pose proof (dist_range (cons r0) (p_cons s)).
  assert (Hn : (passed s <= length (pending (p_priv s)))%nat) by (unfold passed; lia).
  split; [unfold push_ok, p_priv in *; simpl; split_and!; try done; lia|].
  pose proof (filled_evolved _ _ _ _ Hf Hn He) as Hf'.
  unfold passed, acc_of, p_priv in *; simpl. by rewrite Ep, take_app_le.
Qed.

(** What holds when the loop stops: the reference has gone through all the
    descriptors published so far and stopped where the loop did. *)
Definition finished (r : sring_rx_context) (n : nat) (a : rx_acc) : Prop :=
  ring_ok r /\ cons r = cons r0 /\
  exists gone new, completed r0 = gone ++ completed r /\
    drop n (pending r) = drop n (pending r0 ++ new) /\
    rx_process (pending r0 ++ new) a0 = a /\ a_out a = take n (pending r) /\
    length (pending r) = length (pending r0 ++ new).

Lemma filled_all r n a : filled r n a -> n = length (pending r) -> finished r n a.
Proof.
  intros (Hok & Ec & _ & (gone & Eg) & new & Ed & El & Ep & Ea) Hn.
  split_and!; [done..|]. exists gone, new. split_and!; try done.
  rewrite take_ge in Ep by lia. done.
Qed.

Lemma filled_stop r n a d :
  filled r n a -> pending r !! n = Some d -> a_stop (rx_one a d) = true ->
  a_out (rx_one a d) = a_out a -> finished r n (rx_one a d).
Proof.
  intros (Hok & Ec & _ & (gone & Eg) & new & Ed & El & Ep & Ea) Hd Hstop Eo.
  assert (Hall : (pending r0 ++ new) !! n = Some d).
  { rewrite <- (Nat.add_0_r n), <- lookup_drop, <- Ed, lookup_drop. by rewrite Nat.add_0_r. }
  split_and!; [done..|]. exists gone, new. split_and!; try done; [|by rewrite Eo].
  destruct (rx_process_split _ _ _ _ _ Hall Ep) as [-> _]. by apply rx_process_stopped.
Qed.

Definition push_post (v : option Z) (s : push_state) : Prop :=
  exists stop, push_ok s /\ finished (p_priv s) (passed s) (acc_of s (passed s) stop) /\
    if stop then p_can_receive s = v
    else p_cons s = prod (p_priv s) /\ p_can_receive s = (fun _ => 0) <$> v /\
         (v <> None -> kick_enabled (p_priv s) = 1).

(** Going on after handing back [d'], the descriptor at [cons]. *)
Lemma push_inv_advance s d' count w map v :
  push_inv s -> p_cons s <> prod (p_priv s) ->
  rx_one (acc_of s (passed s) false) (get_desc (p_cons s) (p_priv s))
    = mk_acc (take (passed s) (pending (p_priv s)) ++ [d']) count map w false ->
  0 <= count <= BPFHV_BE_RX_BUDGET ->
  let s' := mk_push (on_priv (put_desc (p_cons s) d') (p_view s)) (u32 (p_cons s + 1)) count
              count v map w in
  push_inv s' /\ view_measure (p_cons s') (p_view s') < view_measure (p_cons s) (p_view s).
Proof.
  intros ((Hv & Hu & Hd & Hb & Hc) & Hf) Hne Hone Hcount s'.
  pose proof Hf as (Hok & Ec & _). rewrite <- Ec in Hd.
  destruct (next_pending _ _ Hok Hu Hd Hne) as (Hlk & Hlt & Hm & Hadv). rewrite Ec in Hlk, Hlt, Hadv.
  pose proof (dist_range (cons r0) (p_cons s)). pose proof Hv as (_ & HF & Hp).
  split; [|unfold view_measure, s', p_priv in *; simpl; rewrite Hp; lia].
  pose proof (filled_advance _ _ _ _ d' _ Hf Hlk ltac:(unfold passed; lia) Hone eq_refl) as Hf'.
  unfold passed in Hf' at 1. rewrite Z2Nat.id, add_dist in Hf' by (done || lia).
  assert (Ep : passed s' = S (passed s)) by (unfold passed, s'; simpl; lia).
  pose proof Hf' as (Hok' & _ & _ & _ & new & _ & _ & _ & Eo). simpl in Eo.
  unfold push_inv, push_ok, view_ok. rewrite Ep. unfold acc_of, p_priv in *; simpl.
  split_and!; try done; try apply u32_range; try lia. by rewrite <- Eo.
Qed.

Lemma push_iter_spec v s :
  push_inv s /\ p_can_receive s = v ->
  0 <= view_measure (p_cons s) (p_view s) /\
  match push_iter s with
  | Continue s' => (push_inv s' /\ p_can_receive s' = v) /\
      view_measure (p_cons s') (p_view s') < view_measure (p_cons s) (p_view s)
  | Break s' => push_post v s'
  end.
Proof.
  intros [Hs Ev]. pose proof Hs as ((Hv & _) & (Hok0 & _)).
  split; [by apply view_measure_nonneg|]. unfold push_iter.
  pose proof (rx_poll_spec (is_null (p_can_receive s)) (p_cons s) _ Hv) as Hpoll.
  destruct (rx_poll _ _ _) as [more u]. pose proof Hpoll as (Hv' & He & _ & Hres). simpl in Hv', He, Hres.
  pose proof (push_inv_evolved s u Hs Hv' He) as Hinv. pose proof Hv' as (_ & _ & Hp).
  pose proof Hinv as (Hpk & Hf). pose proof Hf as (Hok & Ec & _).
  destruct more; simpl; last first.
  { destruct Hres as [E Hk]. exists false. split; [done|]. split.
    - apply filled_all; [done|]. unfold passed, p_priv in *; simpl in *.
      rewrite E, Hp, <- Ec, <- length_pending. by rewrite Nat2Z.id.
    - unfold p_priv in *; simpl. rewrite Ev in *. rewrite <- Hp.
      split_and!; [done|by destruct v|]. intros. apply Hk. by destruct v. }
  destruct Hres as [Hne _]. rewrite Hp in Hne. set (s1 := mk_push u _ _ _ _ _ _) in *.
  pose proof Hpk as (_ & Hu & Hd & Hb & Hc). rewrite <- Ec in Hd.
  pose proof (polled_measure _ _ _ _ Hv Hpoll Hd Hu) as Hmu.
  destruct (next_pending _ _ Hok Hu Hd Hne) as (Hlk & _). rewrite Ec in Hlk.
  pose proof (push_inv_advance s1) as Hadv. pose proof (filled_stop _ _ _ _ Hf Hlk) as Hst.
  unfold rx_one in Hadv, Hst; simpl in Hadv, Hst, Hb, Hc.
  destruct (BPFHV_BE_RX_BUDGET <=? p_count s) eqn:Eb.
  { exists true. split; [done|]. split; [|done]. by apply Hst. }
  zify_bool. destruct (translate_addr _ _ _) as [base map]. destruct (base =? NULL) eqn:En.
  { rewrite Hb. edestruct Hadv as [H1 H2]; [done..| | |split; [split; [exact H1|done]|]]; simpl in *; lia || done. }
  destruct (be_recv _ _ _) as [res w]. destruct (s32 (io_ret res) <=? 0) eqn:Er.
  - exists true. split; [done|]. split; [|done]. by apply Hst.
  - rewrite Hb. edestruct Hadv as [H1 H2]; [done..| | |split; [split; [exact H1|done]|]]; simpl in *; lia || done.
Qed.

End loop.
Definition acc0 (map : mem_map) (w : W) : rx_acc := mk_acc [] 0 map w false.

Lemma push_loop_result fuel map priv can_receive w env :
  ring_ok priv -> Forall guest_rely env -> poll_fuel priv env < Z.of_nat fuel ->
  exists s, run push_iter fuel (push_start map priv can_receive w env) = Some s /\
    push_post priv (acc0 map w) can_receive s.
Proof.
  intros Hok HF Hfuel.
  apply (run_measure push_iter
           (fun s => push_inv priv (acc0 map w) s /\ p_can_receive s = can_receive) _
           (fun s => view_measure (p_cons s) (p_view s)) (push_iter_spec priv (acc0 map w) can_receive)).
  - split; [|done]. pose proof Hok as (G & Hp & Hc & ?).
    assert (Hf : filled priv (acc0 map w) priv 0 (acc0 map w)).
    { split_and!; [done..|by exists []|]. exists []. by rewrite app_nil_r. }
    unfold push_inv, push_ok, view_ok, push_start, passed, acc_of, p_priv; simpl. rewrite dist_self.
    pose proof (dist_range (cons priv) (prod priv)).
    case_if; split_and!; try done; try exact Hf; simpl; lia.
  - pose proof (view_measure_start priv (prod priv) env Hok eq_refl) as Hm.
    unfold push_start; simpl. case_if; unfold view_measure, poll_fuel in *; simpl in *; lia.
Qed.

(** [sring_rxq_push] terminates and is equivalent to the reference that
    receives packets into the published buffers in order: it returns the
    number of packets received and hands back the descriptors it went through
    with the length of the packet each holds, 0 for a buffer outside guest
    memory, as completed ones if any packet was received.  When it runs out of
    buffers in non busy-wait mode it clears [can_receive] and leaves kicks
    enabled, so that the next [sring_rxp] asks for a kick. *)
Theorem sring_rxq_push_refines fuel map rxq priv can_receive w env :
  ring_ok priv -> Forall guest_rely env -> poll_fuel priv env < Z.of_nat fuel ->
  exists res new gone rest,
    let all := pending priv ++ new in
    let a := rx_process all (acc0 map w) in
    let left := drop (length (a_out a)) all in
    sring_rxq_push fuel map rxq priv can_receive w env = Some res /\
    r_count res = a_count a /\ r_map res = a_map a /\ r_w res = a_w a /\ ring_ok (r_priv res) /\
    completed priv = gone ++ rest /\
    abs (r_priv res) = (if 0 <? a_count a then mk_fifo left (rest ++ a_out a)
                        else mk_fifo (a_out a ++ left) rest) /\
    (if a_stop a then r_can_receive res = can_receive
     else left = [] /\ r_can_receive res = (fun _ => 0) <$> can_receive /\
          (can_receive <> None -> kick_enabled (r_priv res) = 1)).
Proof.
  intros Hok HF Hfuel.
  destruct (push_loop_result fuel map priv can_receive w env Hok HF Hfuel)
    as (s & Hrun & stop & (_ & Hu & Hd & _) & (Hok' & Ec & gone & new & Eg & Ed & Ep & Eo & El) & Hstop).
  exists (push_finish (set_notify 0 rxq) s), new, gone, (completed (p_priv s)).
  cbv zeta. unfold sring_rxq_push. rewrite Hrun, Ep. simpl. rewrite <- Ec in Hd.
  assert (Hpass : passed priv s = Z.to_nat (dist (cons (p_priv s)) (p_cons s))) by (unfold passed; by rewrite Ec).
  pose proof (length_pending (p_priv s)) as Hl. pose proof (dist_range (cons (p_priv s)) (p_cons s)).
  rewrite length_take, Nat.min_l, <- Ed by lia.
  destruct (consume_take (p_cons s) (p_priv s) Hok' Hu Hd) as (Hok2 & Habs). rewrite <- Hpass in Habs.
  assert (Hfin : if stop then p_can_receive s = can_receive
     else drop (passed priv s) (pending (p_priv s)) = [] /\ p_can_receive s = (fun _ => 0) <$> can_receive /\
          (can_receive <> None -> kick_enabled (p_priv s) = 1)).
  { destruct stop; [done|]. destruct Hstop as (E & ? & ?). split_and!; [|done..].
    apply drop_ge. rewrite Hpass, E, <- length_pending. lia. }
  unfold push_finish. destruct (0 <? p_count s) eqn:E0; simpl; split_and!; try done.
  unfold abs. by rewrite take_drop.
Qed.

Lemma push_quiet fuel (s s' : push_state) :
  Forall quiet (v_env (p_view s)) -> run push_iter fuel s = Some s' ->
  clear (p_priv s') = clear (p_priv s) /\ intr (p_priv s') = intr (p_priv s).
Proof.
  intros HF Hrun. set (P := quiet_state (D:=sring_rx_desc) (clear (p_priv s)) (intr (p_priv s))).
  enough (keeps P (p_view s')) as [[? ?] _] by done.
  revert Hrun. apply (run_invariant push_iter (fun t => keeps P (p_view t)) (fun t => keeps P (p_view t)));
    [|by apply quiet_keeps].
  intros t Ht. unfold push_iter.
  pose proof (rx_poll_keeps P (is_null (p_can_receive t)) (p_cons t) _ ltac:(done) Ht) as Hq.
  destruct (rx_poll _ _ _) as [more v]. simpl in Hq. do 2 (case_if; [done|]).
  destruct (translate_addr _ _ _). case_if; [done|]. destruct (be_recv _ _ _). by case_if.
Qed.

End push.

(** *** The guest programs *)

Definition desc_of (b : bpfhv_buf) : sring_rx_desc := mk_desc (buf_cookie b) (buf_paddr b) (buf_len b).
Definition buf_of (d : sring_rx_desc) (old : bpfhv_buf) : bpfhv_buf :=
  mk_buf (cookie d) (paddr d) (buf_vaddr old) (len d).

Lemma rxp_loop_publish ctx n i p priv :
  0 <= i -> i + Z.of_nat n <= Z.of_nat (length (bufs ctx)) ->
  let '(p', priv') := rxp_loop ctx n i p priv in
  set_prod p' priv' =
  publish_all (desc_of <$> take n (drop (Z.to_nat i) (bufs ctx))) (set_prod p priv).
Proof.
  revert i p priv. induction n as [|n IH]; intros i p priv Hi Hn; simpl; [done|].
  specialize (IH (i + 1) (u32 (p + 1)) (put_desc p (desc_of (get_buf i ctx)) priv)).
  unfold desc_of in IH at 1. destruct (rxp_loop _ _ _ _ _) as [p' priv'].
  rewrite IH by lia. unfold get_buf.
  assert (Hl : (Z.to_nat i < length (bufs ctx))%nat) by lia.
  destruct (lookup_lt_is_Some_2 _ _ Hl) as [b Hb].
  rewrite (drop_S _ _ _ Hb), (list_lookup_total_correct _ _ _ Hb).
  replace (Z.to_nat (i + 1)) with (S (Z.to_nat i)) by lia. done.
Qed.

(** [sring_rxp] refuses more buffers than the context holds and then
    leaves the context alone; otherwise, when the ring has room, it publishes
    the [num_bufs] buffers of the context in order and asks for a kick exactly
    when the hypervisor enabled kicks. *)
Theorem sring_rxp_refines ctx :
  ring_ok (opaque ctx) -> length (bufs ctx) = Z.to_nat BPFHV_MAX_RX_BUFS -> 0 <= num_bufs ctx ->
  in_flight (opaque ctx) + num_bufs ctx <= qmask (opaque ctx) + 1 ->
  let '(ret, ctx') := sring_rxp ctx in
  if num_bufs ctx <=? BPFHV_MAX_RX_BUFS then
    ret = 0 /\ ring_ok (opaque ctx') /\
    abs (opaque ctx') = mk_fifo (pending (opaque ctx) ++
        (desc_of <$> take (Z.to_nat (num_bufs ctx)) (bufs ctx))) (completed (opaque ctx)) /\
    in_flight (opaque ctx') = in_flight (opaque ctx) + num_bufs ctx /\
    (oflags ctx' = BPFHV_OFLAGS_KICK_NEEDED <-> kick_enabled (opaque ctx) <> 0) /\
    (oflags ctx' = 0 <-> kick_enabled (opaque ctx) = 0)
  else ret = -1 /\ ctx' = ctx.
Proof.
  intros Hok Hb Hn Hroom. unfold sring_rxp. rewrite Z.leb_antisym.
  destruct (BPFHV_MAX_RX_BUFS <? num_bufs ctx) eqn:E; zify_bool; simpl; [done|].
  pose proof (rxp_loop_publish ctx (Z.to_nat (num_bufs ctx)) 0 (prod (opaque ctx)) (opaque ctx)
                ltac:(lia) ltac:(lia)) as Hl.
  destruct (rxp_loop _ _ _ _ _) as [p r']. simpl. rewrite drop_0, set_prod_id in Hl.
  assert (Hlen : Z.of_nat (length (desc_of <$> take (Z.to_nat (num_bufs ctx)) (bufs ctx))) = num_bufs ctx)
    by (rewrite length_fmap, length_take; lia).
  destruct (publish_all_refines (desc_of <$> take (Z.to_nat (num_bufs ctx)) (bufs ctx)) (opaque ctx) Hok
              ltac:(rewrite Hlen; done)) as (Hok' & Hf & Habs).
  assert (Hk : kick_enabled r' = kick_enabled (opaque ctx)).
  { change (kick_enabled r') with (kick_enabled (set_prod p r')). by rewrite Hl, publish_all_kick. }
  rewrite Hl, Hk, Hf, Hlen. split_and!; [done..| |];
    unfold z2b; destruct (kick_enabled (opaque ctx) =? 0) eqn:E'; zify_bool; simpl;
    change BPFHV_OFLAGS_KICK_NEEDED with 1; lia.
Qed.

(** [sring_rxc] returns 0 and changes nothing when no packet has been
    received; otherwise the oldest completed descriptor leaves the ring, its
    buffer is passed to [rx_pkt_alloc], and the result is 1 or the error of
    [rx_pkt_alloc], also in which case the descriptor has left the ring. *)
Theorem sring_rxc_refines h ctx :
  ring_ok (opaque ctx) -> (0 < length (bufs ctx))%nat -> rx_pkt_alloc_frame h ->
  let '(ret, ctx') := sring_rxc h ctx in
  match completed (opaque ctx) with
  | [] => ret = 0 /\ ctx' = ctx
  | d :: ds => exists ctx1 p,
      num_bufs ctx1 = 1 /\ get_buf 0 ctx1 = buf_of d (get_buf 0 ctx) /\
      ring_ok (opaque ctx') /\ abs (opaque ctx') = mk_fifo (pending (opaque ctx)) ds /\
      snd (rx_pkt_alloc h ctx1) = set_packet p ctx1 /\ packet ctx' = p /\
      ret = (if fst (rx_pkt_alloc h ctx1) <? 0 then fst (rx_pkt_alloc h ctx1) else 1) /\
      (0 <= ret -> oflags ctx' = 0)
  end.
Proof.
  intros Hok Hb Hframe. unfold sring_rxc.
  destruct (_ =? _) eqn:E; zify_bool; [unfold completed; by rewrite E, between_self|].
  destruct (collect_refines _ Hok E) as (Hok' & _ & Ecomp & Epend). rewrite Ecomp.
  set (ctx1 := set_num_bufs 1 _). destruct (Hframe ctx1) as [p Hp].
  destruct (rx_pkt_alloc h ctx1) as [ret ctx2] eqn:Ea. simpl in Hp. subst ctx2.
  assert (Hbuf : get_buf 0 ctx1 = buf_of (get_desc (clear (opaque ctx)) (opaque ctx)) (get_buf 0 ctx)).
  { unfold get_buf at 1. simpl. by rewrite lookup_total_insert_eq. }
  destruct (ret <? 0) eqn:Er; zify_bool; exists ctx1, p; rewrite Ea; simpl;
    split_and!; try done; try (rewrite (proj2 (Z.ltb_lt ret 0)) by lia); try done;
    try (rewrite (proj2 (Z.ltb_ge ret 0)) by lia); try done; lia.
Qed.

(** No receive interrupt is lost.  When [sring_rxi] returns 0, fewer than
    [min_completed_bufs] packets wait to be collected and interrupts are
    enabled, whatever the hypervisor did between the two reads of [cons]; the
    next push that receives a packet asks for an interrupt.  When it returns
    1 interrupts are left disabled. *)
Theorem sring_rxi_no_lost_interrupt {W} `{!NetBackend W} hv ctx fuel map rxq can_receive (w : W) env res :
  ring_ok (opaque ctx) -> (forall r, ring_ok r -> hv_step r (hv r)) ->
  Forall guest_rely env -> Forall quiet env ->
  let '(ret, ctx') := sring_rxi hv ctx in
  if ret =? 0 then
    Z.of_nat (length (completed (opaque ctx'))) < min_completed_bufs ctx /\
    (sring_rxq_push fuel map rxq (opaque ctx') can_receive w env = Some res ->
     0 < r_count res -> q_notify (r_rxq res) = 1)
  else ret = 1 /\ intr (opaque ctx') = 0 /\
       min_completed_bufs ctx <= Z.of_nat (length (completed (opaque ctx'))).
Proof.
  intros Hok Hhv HF HQ. pose proof (ring_rxi_spec hv ctx Hok Hhv) as Hspec. unfold sring_rxi.
  destruct (ring_rxi hv ctx) as [ret ctx']. destruct (ret =? 0); [|done].
  destruct Hspec as (Hok' & Hi1' & Hlt).
  split; [done|]. unfold sring_rxq_push. intros Hpush Hcount.
  destruct (run push_iter _ _) as [s|] eqn:Hrun; simpl in Hpush; [|done]. injection Hpush as <-.
  apply push_quiet in Hrun as [_ Hi]; [|done].
  assert (Hi1 : intr (p_priv s) = 1).
  { rewrite Hi. unfold push_start; simpl. by case_if. }
  revert Hcount. unfold push_finish. destruct (0 <? p_count s) eqn:E0; simpl; [|zify_bool; lia].
  intros _. by rewrite Hi1.
Qed.

Lemma rxr_loop_spec n p i c ctx :
  is_u32 c -> is_u32 p -> 0 <= i <= BPFHV_MAX_RX_BUFS -> BPFHV_MAX_RX_BUFS - i < Z.of_nat n ->
  length (bufs ctx) = Z.to_nat BPFHV_MAX_RX_BUFS ->
  let m := Z.min (BPFHV_MAX_RX_BUFS - i) (dist c p) in
  exists ctx', rxr_loop n p i c ctx = (i + m, u32 (c + m), ctx') /\ opaque ctx' = opaque ctx /\
    forall j, 0 <= j -> get_buf j ctx' =
      (if (i <=? j) && (j <? i + m)
       then buf_of (get_desc (u32 (c + (j - i))) (opaque ctx)) (get_buf j ctx) else get_buf j ctx).
Proof.
  revert i c ctx. induction n as [|n IH]; intros i c ctx Hc Hp Hi Hn Hb m; [lia|].
  pose proof (dist_range c p) as Hd. simpl.
  destruct (negb (c =? p) && (i <? BPFHV_MAX_RX_BUFS)) eqn:E.
  - apply andb_true_iff in E as [Hne Hlt]. zify_bool.
    assert (dist c p <> 0) by (by rewrite dist_0).
    assert (Hd' : dist (u32 (c + 1)) p = dist c p - 1) by (apply dist_add_l; lia).
    set (b := mk_buf _ _ _ _).
    destruct (IH (i + 1) (u32 (c + 1)) (put_buf i b ctx)) as (ctx' & Hrun & Ho & Hbufs);
      [apply u32_range|done|lia|lia|by (simpl; rewrite length_insert)|].
    rewrite Hd' in Hrun, Hbufs.
    replace (Z.min (BPFHV_MAX_RX_BUFS - (i + 1)) (dist c p - 1)) with (m - 1) in Hrun, Hbufs by lia.
    exists ctx'. split; [|split; [done|]].
    + rewrite Hrun, u32_add_l. do 2 f_equal; [lia|f_equal; lia].
    + intros j Hj. rewrite Hbufs by done. rewrite u32_add_l.
      replace (c + 1 + (j - (i + 1))) with (c + (j - i)) by lia.
      change (opaque (put_buf i b ctx)) with (opaque ctx). unfold get_buf, put_buf; simpl.
      destruct (decide (j = i)) as [->|Hji].
      * rewrite lookup_total_insert_eq by (rewrite Hb; lia).
        replace ((i + 1 <=? i) && _) with false by (symmetry; apply andb_false_iff; left; lia).
        replace ((i <=? i) && (i <? i + m)) with true by (symmetry; apply andb_true_iff; lia).
        rewrite Z.sub_diag, Z.add_0_r. unfold b, get_desc. rewrite (u32_id c) by done. done.
      * rewrite lookup_total_insert_ne by lia.
        replace ((i + 1 <=? j) && (j <? i + 1 + (m - 1))) with ((i <=? j) && (j <? i + m)); [done|].
        apply eq_true_iff_eq. rewrite !andb_true_iff, !Z.leb_le, !Z.ltb_lt. lia.
  - assert (Hm : m = 0).
    { apply andb_false_iff in E as [E|E]; zify_bool; [|lia].
      unfold m. rewrite E, dist_self. lia. }
    exists ctx. rewrite Hm, Z.add_0_r, Z.add_0_r, u32_id by done. split_and!; [done..|].
    intros j Hj. case_if; [|done]. zify_bool. lia.
Qed.

(** [sring_rxr] hands back up to [BPFHV_MAX_RX_BUFS] buffers in flight,
    the oldest first, but it passes the old and the new [clear] to
    [clear_met_cons] in the wrong order, so that [cons] does not follow
    [clear] when it should: the ring is still well formed afterwards exactly
    when every buffer handed back had been completed by the hypervisor. *)
Theorem sring_rxr_keeps_ring_iff ctx :
  ring_ok (opaque ctx) -> length (bufs ctx) = Z.to_nat BPFHV_MAX_RX_BUFS ->
  0 < in_flight (opaque ctx) ->
  let n := Z.min BPFHV_MAX_RX_BUFS (in_flight (opaque ctx)) in
  let '(ret, ctx') := sring_rxr ctx in
  ret = 1 /\ num_bufs ctx' = n /\
  (forall j, 0 <= j < n -> get_buf j ctx'
     = buf_of (get_desc (u32 (clear (opaque ctx) + j)) (opaque ctx)) (get_buf j ctx)) /\
  (ring_ok (opaque ctx') <-> n <= Z.of_nat (length (completed (opaque ctx)))).
Proof.
  intros Hok Hb Hf n. pose proof (qmask_bound _ Hok) as [Hq0 Hq].
  pose proof Hok as (G & Hp & Hc & Hcl & Hfl). rewrite length_completed. unfold in_flight in *.
  pose proof (dist_range (clear (opaque ctx)) (cons (opaque ctx))) as Hd1.
  pose proof (dist_range (cons (opaque ctx)) (prod (opaque ctx))) as Hd2.
  change (2 ^ 31) with 2147483648 in Hq. change (2 ^ 32) with 4294967296 in *.
  assert (Hd : dist (clear (opaque ctx)) (prod (opaque ctx))
     = dist (clear (opaque ctx)) (cons (opaque ctx)) + dist (cons (opaque ctx)) (prod (opaque ctx)))
    by (apply dist_split; lia).
  unfold sring_rxr. destruct (_ =? _) eqn:E; zify_bool.
  { rewrite E, dist_self in Hd. rewrite E in Hf. lia. }
  destruct (rxr_loop_spec (Z.to_nat BPFHV_MAX_RX_BUFS + 1) (prod (opaque ctx)) 0 (clear (opaque ctx)) ctx)
    as (ctx' & -> & Ho & Hbufs); [done..|unfold BPFHV_MAX_RX_BUFS; lia|unfold BPFHV_MAX_RX_BUFS; lia|done|].
  rewrite Z.sub_0_r, Z.add_0_l, Hd in *. fold n in Hbufs |- *. simpl.
  split_and!; [done|done| |].
  - intros j Hj. specialize (Hbufs j ltac:(lia)).
    replace ((0 <=? j) && (j <? n)) with true in Hbufs by (symmetry; apply andb_true_iff; lia).
    rewrite Z.sub_0_r in Hbufs. done.
  - assert (Hn : 0 < n <= 64) by (unfold n, BPFHV_MAX_RX_BUFS; lia).
    assert (Hn' : n <= dist (clear (opaque ctx)) (cons (opaque ctx)) + dist (cons (opaque ctx)) (prod (opaque ctx)))
      by (unfold n; lia).
    set (c' := u32 (clear (opaque ctx) + n)).
    assert (Hc' : is_u32 c') by apply u32_range.
    assert (Hcc : dist (clear (opaque ctx)) c' = n) by (apply dist_add; lia).
    rewrite clear_met_cons_spec by done. unfold ring_ok, in_flight.
    destruct (dist c' (cons (opaque ctx)) <? dist c' (clear (opaque ctx))) eqn:Ecm; zify_bool; simpl;
      unfold dist, is_u32 in *; (split; [intros (_ & _ & _ & _ & Hfin)|intros; split_and!; try done]); warith.
Qed.

(** *** Witnesses *)

Definition example_rx (n : nat) : sring_rx_context :=
  mk_ring 2 0 1 1 15 0 (repeat (mk_desc 7 0x2000 128) n).
Definition example_rx_ctx : rx_ctx := mk_ctx 0 0 2 0 0 2 0 (repeat inhabitant 64) (example_rx 16).

Lemma example_rx_ok : ring_ok (opaque example_rx_ctx).
Proof.
  split; [exists 4; vm_compute; split_and!; congruence|].
  unfold is_u32, in_flight. vm_compute. split_and!; congruence.
Defined.

(** A backend that has one packet of 60 bytes and then nothing. *)
#[export] Instance one_packet : NetBackend bool := {|
  be_send (hdr : option virtio_net_hdr_v1) (w : bool) (iov : list iovec) := (mk_io 0 0 vhdr_zero, w);
  be_recv (vh : Z) (w : bool) (iov : list iovec) := (mk_io (if (w : bool) then 60 else 0) 0 vhdr_zero, false);
|}.

Lemma sring_rxq_push_refines_witness :
  exists res,
    sring_rxq_push 100 example_map (mk_qio 0 stats_zero) (opaque example_rx_ctx) (Some 1) true []
      = Some res /\ ring_ok (r_priv res) /\ r_count res = 1 /\
    completed (r_priv res) = [mk_desc 7 0x2000 128; mk_desc 7 0x2000 60].
Proof.
  destruct (sring_rxq_push_refines 100 example_map (mk_qio 0 stats_zero) (opaque example_rx_ctx) (Some 1)
              true []) as (res & new & gone & rest & Hrun & _ & _ & _ & Hok & _).
  - apply example_rx_ok.
  - constructor.
  - vm_compute. reflexivity.
  - exists res. split; [exact Hrun|]. split; [exact Hok|].
    pose proof Hrun as E. vm_compute in E. injection E as <-. split; reflexivity.
Defined.

Lemma sring_rxp_refines_witness :
  fst (sring_rxp example_rx_ctx) = 0 /\
  in_flight (opaque (snd (sring_rxp example_rx_ctx))) = 4.
Proof.
  pose proof (sring_rxp_refines example_rx_ctx example_rx_ok eq_refl
    ltac:(vm_compute; congruence) ltac:(vm_compute; congruence)) as H.
  destruct (sring_rxp example_rx_ctx) as [ret ctx'].
  change (num_bufs example_rx_ctx <=? BPFHV_MAX_RX_BUFS) with true in H. cbv iota in H.
  destruct H as (-> & _ & _ & Hf & _). split; [reflexivity|]. simpl. rewrite Hf. reflexivity.
Defined.

Lemma sring_rxc_refines_witness :
  fst (sring_rxc (mk_helpers (fun c => (0, set_packet 5 c)) (fun _ => [])) example_rx_ctx) = 1.
Proof.
  pose proof (sring_rxc_refines (mk_helpers (fun c => (0, set_packet 5 c)) (fun _ => [])) example_rx_ctx
                example_rx_ok ltac:(simpl; lia) ltac:(intros c; exists 5; reflexivity)) as H.
  destruct (sring_rxc _ example_rx_ctx) as [ret ctx']. revert H.
  change (completed (opaque example_rx_ctx)) with [mk_desc 7 0x2000 128].
  intros (ctx1 & p & _ & _ & _ & _ & _ & _ & -> & _). reflexivity.
Defined.

Lemma sring_rxi_no_lost_interrupt_witness :
  fst (sring_rxi id example_rx_ctx) = 0 /\
  exists res,
    sring_rxq_push 100 example_map (mk_qio 0 stats_zero)
      (opaque (snd (sring_rxi id example_rx_ctx))) None true [] = Some res /\
    q_notify (r_rxq res) = 1.
Proof.
  split; [reflexivity|].
  destruct (sring_rxq_push 100 example_map (mk_qio 0 stats_zero)
      (opaque (snd (sring_rxi id example_rx_ctx))) None true []) as [res|] eqn:E;
    [|exfalso; revert E; vm_compute; congruence].
  exists res. split; [reflexivity|].
  pose proof (sring_rxi_no_lost_interrupt id example_rx_ctx 100 example_map (mk_qio 0 stats_zero)
                None true [] res example_rx_ok (fun r Hr => hv_step_refl r Hr)
                ltac:(constructor) ltac:(constructor)) as H.
  destruct H as [_ H]. apply H; [exact E|].
  pose proof E as E'. vm_compute in E'. injection E' as <-. vm_compute. reflexivity.
Defined.

Lemma sring_rxr_keeps_ring_iff_witness :
  fst (sring_rxr example_rx_ctx) = 1 /\ ~ ring_ok (opaque (snd (sring_rxr example_rx_ctx))).
Proof.
  pose proof (sring_rxr_keeps_ring_iff example_rx_ctx example_rx_ok eq_refl
                ltac:(vm_compute; reflexivity)) as H.
  destruct (sring_rxr example_rx_ctx) as [ret ctx']. destruct H as (-> & _ & _ & Hiff).
  split; [reflexivity|]. simpl. rewrite Hiff. vm_compute. intros C. by apply C.
Defined.
