(* ===== verification/SringGsoTx.v ===== *)
(** * The sring_gso device, transmit direction

    proxy/sring_gso.h, the transmit side of proxy/sring_gso.c (hypervisor) and
    of proxy/sring_gso_progs.c (guest programs, built with WITH_GSO as the
    Makefile does).  It differs from sring in that a packet spans several
    descriptors, the last of which carries the flag EOP and the offload
    metadata. *)

From S2P Require Import Prelude Ring Abi Backend Sring.
Open Scope Z_scope.

Definition SRING_DESC_F_EOP : Z := Z.shiftl 1 0.
Definition SRING_DESC_F_NEEDS_CSUM : Z := Z.shiftl 1 1.

Record sring_gso_tx_desc := mk_desc {
  cookie : Z;
  paddr : Z;
  len : Z;
  flags : Z;
  csum_start : Z;
  csum_offset : Z;
  hdr_len : Z;
  gso_size : Z;
  gso_type : Z;
  reserved : Z;
}.
Definition desc_zero : sring_gso_tx_desc := mk_desc 0 0 0 0 0 0 0 0 0 0.
#[export] Instance sring_gso_tx_desc_inhabited : Inhabited sring_gso_tx_desc := populate desc_zero.

Abbreviation sring_gso_tx_context := (ring sring_gso_tx_desc).
Abbreviation gso_tx_ctx := (bpfhv_context sring_gso_tx_context).

(** [struct virtio_net_hdr] of the guest programs. *)
Record virtio_net_hdr := mk_hdr {
  h_flags : Z;
  h_gso_type : Z;
  h_hdr_len : Z;
  h_gso_size : Z;
  h_csum_start : Z;
  h_csum_offset : Z;
}.

Definition sring_gso_desc_layout : list (Z * Z) :=
  [f64; f64; f16; f16; f16; f16; f16; f16; f16; f16].

Definition sring_gso_tx_ctx_size (num_tx_bufs : Z) : Z :=
  u64 (sizeof_bpfhv_context + struct_size sring_context_layout +
       num_tx_bufs * struct_size sring_gso_desc_layout).

Definition sring_gso_tx_ctx_init (num_tx_bufs : Z) : option sring_gso_tx_context :=
  ctx_init desc_zero num_tx_bufs 0.

Definition sring_gso_txq_notification (priv : sring_gso_tx_context) (enable : Z) : sring_gso_tx_context :=
  sring_notification priv enable.

(** ** Guest programs *)

(** [for (i = 0; i < ctx->num_bufs; i++, prod++)]; [n] iterations left.  The
    offload fields of the entry keep their old values. *)
Fixpoint txp_loop (ctx : gso_tx_ctx) (n : nat) (i prod : Z) (priv : sring_gso_tx_context)
    : Z * sring_gso_tx_context :=
  match n with
  | O => (prod, priv)
  | S n' =>
      let txb := get_buf i ctx in
      let txd := get_desc prod priv in
      let txd := mk_desc (buf_cookie txb) (buf_paddr txb) (u16 (buf_len txb)) 0 (csum_start txd)
                   (csum_offset txd) (hdr_len txd) (gso_size txd) (gso_type txd) (reserved txd) in
      txp_loop ctx n' (i + 1) (u32 (prod + 1)) (put_desc prod txd priv)
  end.

(** The writes to the last descriptor of the packet. *)
Definition txp_last (hdr : virtio_net_hdr) (txd : sring_gso_tx_desc) : sring_gso_tx_desc :=
  let fl := SRING_DESC_F_EOP in
  let fl := if has_flag (h_flags hdr) VIRTIO_NET_HDR_F_NEEDS_CSUM
            then Z.lor fl SRING_DESC_F_NEEDS_CSUM else fl in
  mk_desc (cookie txd) (paddr txd) (len txd) fl (h_csum_start hdr) (h_csum_offset hdr)
    (h_hdr_len hdr) (h_gso_size hdr) (h_gso_type hdr) (reserved txd).

(** [md_get] is the helper [pkt_virtio_net_md_get].  [None]: with no buffers
    the code writes through the uninitialized pointer [txd]. *)
Definition sring_gso_txp (md_get : gso_tx_ctx -> virtio_net_hdr) (ctx : gso_tx_ctx)
    : option (Z * gso_tx_ctx) :=
  let priv := opaque ctx in
  if BPFHV_MAX_TX_BUFS <? num_bufs ctx then Some (-1, ctx)
  else if num_bufs ctx =? 0 then None
  else
    let '(prod, priv) := txp_loop ctx (Z.to_nat (num_bufs ctx)) 0 (prod priv) priv in
    let last := u32 (prod - 1) in
    let priv := put_desc last (txp_last (md_get ctx) (get_desc last priv)) priv in
    let priv := set_prod prod priv in
    let ctx := set_opaque priv ctx in
    Some (0, set_oflags (if z2b (kick_enabled priv) then BPFHV_OFLAGS_KICK_NEEDED else 0) ctx).

(** [for (i = 0; i < BPFHV_MAX_TX_BUFS; )]; [n] iterations left. *)
Fixpoint get_one_loop (n : nat) (i : Z) (ctx : gso_tx_ctx) : Z * gso_tx_ctx :=
  match n with
  | O => (i, ctx)
  | S n' =>
      let priv := opaque ctx in
      let txd := get_desc (clear priv) priv in
      let ctx := set_opaque (set_clear (u32 (clear priv + 1)) priv) ctx in
      let txb := mk_buf (cookie txd) (paddr txd) (buf_vaddr (get_buf i ctx)) (len txd) in
      let ctx := put_buf i txb ctx in
      if has_flag (flags txd) SRING_DESC_F_EOP then (i + 1, ctx) else get_one_loop n' (i + 1) ctx
  end.

Definition sring_gso_tx_get_one (ctx : gso_tx_ctx) : gso_tx_ctx :=
  let '(i, ctx) := get_one_loop (Z.to_nat BPFHV_MAX_TX_BUFS) 0 ctx in
  set_num_bufs i ctx.

Definition sring_gso_txc (ctx : gso_tx_ctx) : Z * gso_tx_ctx :=
  let priv := opaque ctx in
  let clear := clear priv in
  let cons := cons priv in
  if clear =? cons then (0, ctx)
  else (1, set_oflags 0 (sring_gso_tx_get_one ctx)).

Definition sring_gso_txr (ctx : gso_tx_ctx) : Z * gso_tx_ctx :=
  let priv := opaque ctx in
  let cons := cons priv in
  let clear0 := clear priv in
  let prod := prod priv in
  if clear0 =? prod then (0, ctx)
  else
    let ctx := sring_gso_tx_get_one ctx in
    let priv := opaque ctx in
    let ctx := if clear_met_cons clear0 cons (clear priv)
               then set_opaque (set_cons (clear priv) priv) ctx else ctx in
    (1, set_oflags 0 ctx).

Definition sring_gso_txi : (sring_gso_tx_context -> sring_gso_tx_context) -> gso_tx_ctx -> Z * gso_tx_ctx :=
  ring_txi.

(** ** Hypervisor *)

Section drain.
Context {W : Type} `{!NetBackend W} (vnet_hdr_len : Z).

(** The variables of the loop of [sring_gso_txq_drain].  [d_iov] holds the
    entries of the array [iov] for the buffers of the current packet, after
    the [iovcnt_start] entries of the header; [d_overrun] is set when the code
    writes past the end of the array. *)
Record drain_state := mk_drain {
  d_view : view (D:=sring_gso_tx_desc);
  d_cons : Z;
  d_cons_first : Z;
  d_iov : list iovec;
  d_count : Z;
  d_bufs : Z;
  d_can_send : option Z;
  d_map : mem_map;
  d_w : W;
  d_overrun : bool;
}.

Definition d_priv (s : drain_state) : sring_gso_tx_context := v_priv (d_view s).

Definition iovcnt_start : Z := if z2b vnet_hdr_len then 1 else 0.

(** The virtio-net header built from the last descriptor. *)
Definition hdr_of (txd : sring_gso_tx_desc) : option virtio_net_hdr_v1 :=
  if z2b vnet_hdr_len then
    Some (mk_vhdr (if has_flag (flags txd) SRING_DESC_F_NEEDS_CSUM then VIRTIO_NET_HDR_F_NEEDS_CSUM else 0)
            (u8 (gso_type txd)) (hdr_len txd) (gso_size txd) (csum_start txd) (csum_offset txd) 0)
  else None.

Definition drain_iter (s : drain_state) : step drain_state :=
  let '(more, v) := tx_poll (is_null (d_can_send s)) (d_cons s) (d_view s) in
  let s := mk_drain v (d_cons s) (d_cons_first s) (d_iov s) (d_count s) (d_bufs s) (d_can_send s)
             (d_map s) (d_w s) (d_overrun s) in
  if negb more then Break s
  else if BPFHV_BE_TX_BUDGET <=? d_count s then Break s
  else
    let txd := get_desc (d_cons s) (d_priv s) in
    let cons := u32 (d_cons s + 1) in
    if BPFHV_MAX_TX_BUFS + 1 <=? iovcnt_start + Z.of_nat (length (d_iov s)) then
      Break (mk_drain v cons (d_cons_first s) (d_iov s) (d_count s) (d_bufs s) (d_can_send s)
               (d_map s) (d_w s) true)
    else
      let '(base, map) := translate_addr (d_map s) (paddr txd) (len txd) in
      let iov := if base =? NULL then d_iov s else d_iov s ++ [mk_iov base (len txd)] in
      if has_flag (flags txd) SRING_DESC_F_EOP then
        let '(res, w) := be_send (hdr_of txd) (d_w s) iov in
        let ret := s32 (io_ret res) in
        if ret <=? 0 then
          Break (mk_drain v (d_cons_first s) (d_cons_first s) iov (d_count s) (d_bufs s)
                   (after_send ret (io_errno res) (d_can_send s)) map w (d_overrun s))
        else
          Continue (mk_drain v cons cons [] (d_count s + 1)
                      (d_bufs s + u32 (cons - d_cons_first s)) (d_can_send s) map w (d_overrun s))
      else
        Continue (mk_drain v cons (d_cons_first s) iov (d_count s) (d_bufs s) (d_can_send s)
                    map (d_w s) (d_overrun s)).

(** The result of a drain: [Overrun] when the array [iov] is overrun. *)
Record drain_result := mk_drain_result {
  r_count : Z;
  r_priv : sring_gso_tx_context;
  r_txq : queue_io;
  r_can_send : option Z;
  r_map : mem_map;
  r_w : W;
}.
Inductive drain_outcome :=
| Overrun
| Drained (res : drain_result).

(** The code after the loop. *)
Definition drain_finish (txq : queue_io) (s : drain_state) : drain_result :=
  let txq := upd_stats (stats_add_bufs (d_bufs s)) txq in
  if 0 <? d_count s then
    let old_cons := cons (d_priv s) in
    let priv := set_cons (d_cons s) (d_priv s) in
    let intr_at := intr priv in
    let notify := b2z (u32 (d_cons s - intr_at - 1) <? u32 (d_cons s - old_cons)) in
    let txq := upd_stats (stats_batch (d_count s)) (set_notify notify txq) in
    mk_drain_result (d_count s) priv txq (d_can_send s) (d_map s) (d_w s)
  else mk_drain_result (d_count s) (d_priv s) txq (d_can_send s) (d_map s) (d_w s).

Definition drain_start (map : mem_map) (priv : sring_gso_tx_context) (can_send : option Z) (w : W)
    (env : list (sring_gso_tx_context -> sring_gso_tx_context)) : drain_state :=
  let prod := prod priv in
  let cons := cons priv in
  let priv := match can_send with Some _ => sring_gso_txq_notification priv 0 | None => priv end in
  mk_drain (mk_view priv prod env) cons cons [] 0 0 can_send map w false.

Definition sring_gso_txq_drain (fuel : nat) (map : mem_map) (txq : queue_io)
    (priv : sring_gso_tx_context) (can_send : option Z) (w : W)
    (env : list (sring_gso_tx_context -> sring_gso_tx_context)) : option drain_outcome :=
  s ← run drain_iter fuel (drain_start map priv can_send w env);
  Some (if d_overrun s then Overrun else Drained (drain_finish (set_notify 0 txq) s)).

(** ** The reference: packets

    [packetize] cuts a list of descriptors at the EOP flags into packets and
    an incomplete rest.  [tx_packets] sends the packets in order, each with
    the buffers of it that lie in guest memory, until the budget is spent or
    the backend refuses a packet. *)
Definition eop (d : sring_gso_tx_desc) : bool := has_flag (flags d) SRING_DESC_F_EOP.

Fixpoint packetize (cur ds : list sring_gso_tx_desc) : list (list sring_gso_tx_desc) * list sring_gso_tx_desc :=
  match ds with
  | [] => ([], cur)
  | d :: ds' =>
      if eop d then let '(ps, t) := packetize [] ds' in ((cur ++ [d]) :: ps, t)
      else packetize (cur ++ [d]) ds'
  end.

Definition add_buffer (st : list iovec * mem_map) (d : sring_gso_tx_desc) : list iovec * mem_map :=
  let '(base, map) := translate_addr (snd st) (paddr d) (len d) in
  (if base =? NULL then fst st else fst st ++ [mk_iov base (len d)], map).

Definition buffers (map : mem_map) (pkt : list sring_gso_tx_desc) : list iovec * mem_map :=
  foldl add_buffer ([], map) pkt.

Record tx_acc := mk_acc {
  a_n : Z;                     (* descriptors consumed *)
  a_count : Z;                 (* packets sent *)
  a_can_send : option Z;
  a_map : mem_map;
  a_w : W;
  a_stop : bool;
}.

Definition tx_packet (a : tx_acc) (pkt : list sring_gso_tx_desc) : tx_acc :=
  if a_stop a then a
  else
    let '(iov, map) := buffers (a_map a) pkt in
    let '(res, w) := be_send (hdr_of (List.last pkt desc_zero)) (a_w a) iov in
    if s32 (io_ret res) <=? 0 then
      mk_acc (a_n a) (a_count a) (after_send (s32 (io_ret res)) (io_errno res) (a_can_send a)) map w true
    else
      mk_acc (a_n a + Z.of_nat (length pkt)) (a_count a + 1) (a_can_send a) map w
        (BPFHV_BE_TX_BUDGET <=? a_count a + 1).

Definition tx_packets (ps : list (list sring_gso_tx_desc)) (a : tx_acc) : tx_acc := foldl tx_packet a ps.

(** No packet, complete or not, of more than [BPFHV_MAX_TX_BUFS] buffers. *)
Definition small_packets (ds : list sring_gso_tx_desc) : Prop :=
  Forall (fun p => Z.of_nat (length p) <= BPFHV_MAX_TX_BUFS) (fst (packetize [] ds)) /\
  Z.of_nat (length (snd (packetize [] ds))) <= BPFHV_MAX_TX_BUFS.

Definition small_ok (r : sring_gso_tx_context) : Prop := ring_ok r /\ small_packets (pending r).

Lemma tx_packets_stopped ps a : a_stop a = true -> tx_packets ps a = a.
Proof.
  intros E. induction ps as [|p ps IH]; simpl; [done|].
  assert (tx_packet a p = a) as -> by (unfold tx_packet; by rewrite E). done.
Qed.

Lemma packetize_app cur ds1 ds2 :
  packetize cur (ds1 ++ ds2) =
  (fst (packetize cur ds1) ++ fst (packetize (snd (packetize cur ds1)) ds2),
   snd (packetize (snd (packetize cur ds1)) ds2)).
Proof.
  revert cur. induction ds1 as [|d ds1 IH]; intros cur; simpl; [by destruct (packetize cur ds2)|].
  destruct (eop d); [|apply IH]. rewrite IH.
  destruct (packetize [] ds1) as [ps t]. simpl. done.
Qed.

Lemma concat_packetize cur ds :
  concat (fst (packetize cur ds)) ++ snd (packetize cur ds) = cur ++ ds.
Proof.
  revert cur. induction ds as [|d ds IH]; intros cur; simpl; [by rewrite app_nil_r|].
  destruct (eop d).
  - specialize (IH []). destruct (packetize [] ds) as [ps t]. simpl in *.
    rewrite <- app_assoc, IH, <- app_assoc. done.
  - rewrite IH, <- app_assoc. done.
Qed.

Lemma buffers_snoc map pkt d : buffers map (pkt ++ [d]) = add_buffer (buffers map pkt) d.
Proof. unfold buffers. by rewrite foldl_app. Qed.

Lemma length_buffers map pkt : (length (fst (buffers map pkt)) <= length pkt)%nat.
Proof.
  induction pkt as [|d pkt IH] using rev_ind; simpl; [done|]. rewrite buffers_snoc, length_app; simpl.
  unfold add_buffer. destruct (translate_addr _ _ _). case_if; simpl; [lia|]. rewrite length_app; simpl. lia.
Qed.

(** ** The loop computes the reference *)

Section loop.
Context (r0 : sring_gso_tx_context) (a0 : tx_acc).

Definition drain_ok (s : drain_state) : Prop :=
  view_ok (d_view s) /\ evolved r0 (d_priv s) /\ keeps small_ok (d_view s) /\
  is_u32 (d_cons s) /\ dist (cons r0) (d_cons s) <= dist (cons r0) (prod (d_priv s)) /\
  d_overrun s = false /\ 0 <= d_count s <= BPFHV_BE_TX_BUDGET.

(** The reference has sent the packets [ps], and the buffers of the
    descriptors [t] of the next one have been collected. *)
Definition drain_at (ps : list (list sring_gso_tx_desc)) (t : list sring_gso_tx_desc) (s : drain_state) : Prop :=
  exists map,
    tx_packets ps a0 = mk_acc (dist (cons r0) (d_cons_first s)) (d_count s) (d_can_send s) map (d_w s)
                         (BPFHV_BE_TX_BUDGET <=? d_count s) /\
    buffers map t = (d_iov s, d_map s) /\ is_u32 (d_cons_first s) /\
    dist (cons r0) (d_cons s) = dist (cons r0) (d_cons_first s) + Z.of_nat (length t) /\
    (BPFHV_BE_TX_BUDGET <= d_count s -> t = []).

Definition drain_inv (s : drain_state) : Prop :=
  let ds := take (Z.to_nat (dist (cons r0) (d_cons s))) (pending (d_priv s)) in
  drain_ok s /\ drain_at (fst (packetize [] ds)) (snd (packetize [] ds)) s.

(** When the loop stops: if the reference stops, at the first descriptor of
    the packet it did not send, else at the end of the published ones. *)
Definition drain_post (s : drain_state) : Prop :=
  let '(ps, t) := packetize [] (pending (d_priv s)) in
  let a := tx_packets ps a0 in
  drain_ok s /\ d_count s = a_count a /\ d_can_send s = a_can_send a /\ d_w s = a_w a /\
  if a_stop a then dist (cons r0) (d_cons s) = a_n a
  else d_cons s = prod (d_priv s) /\ a_n a + Z.of_nat (length t) = dist (cons r0) (d_cons s) /\
       (is_null (d_can_send s) = false -> kick_enabled (d_priv s) = 1).

(** The invariant is stable under the actions of the guest. *)
Lemma gso_drain_inv_evolved s v :
  drain_inv s -> view_ok v -> evolved (d_priv s) (v_priv v) -> keeps small_ok v ->
  drain_inv (mk_drain v (d_cons s) (d_cons_first s) (d_iov s) (d_count s) (d_bufs s) (d_can_send s)
               (d_map s) (d_w s) (d_overrun s)).
Proof.
  intros ((Hv & He & Hsm & Hu & Hd & Hov & Hc) & Hat) Hv' He' Hsm'.
  unfold drain_inv, drain_ok, d_priv in *; simpl.
  pose proof (evolved_trans _ _ _ He He') as (Hok & Ec & Eq & _).
  pose proof He as (_ & Ec0 & _). pose proof He' as (_ & _ & _ & (new & Ep) & _).
  pose proof (length_pending (v_priv (d_view s))) as Hl. rewrite Ec0 in Hl.
  pose proof (length_pending (v_priv v)) as Hl'. rewrite Ec, Ep, length_app in Hl'.
  pose proof (dist_range (cons r0) (d_cons s)). rewrite Ep, take_app_le by lia.
  split_and!; try done; try lia. by eapply evolved_trans.
Qed.

(** The reference on a list that goes on after [ds]. *)
Lemma tx_packets_app ds1 ds2 :
  tx_packets (fst (packetize [] (ds1 ++ ds2))) a0 =
  tx_packets (fst (packetize (snd (packetize [] ds1)) ds2)) (tx_packets (fst (packetize [] ds1)) a0).
Proof. rewrite packetize_app. unfold tx_packets. simpl. by rewrite foldl_app. Qed.

Lemma packetize_snoc cur ds d :
  packetize cur (ds ++ [d]) =
  if eop d then (fst (packetize cur ds) ++ [snd (packetize cur ds) ++ [d]], [])
  else (fst (packetize cur ds), snd (packetize cur ds) ++ [d]).
Proof. rewrite packetize_app. simpl. destruct (eop d); simpl; by rewrite ?app_nil_r. Qed.

(** The part of a packet collected so far is small. *)
Lemma small_current cur ds (M : Z) :
  Forall (fun p => Z.of_nat (length p) <= M) (fst (packetize cur ds)) ->
  Z.of_nat (length (snd (packetize cur ds))) <= M -> Z.of_nat (length cur) <= M.
Proof.
  revert cur. induction ds as [|d ds IH]; intros cur; simpl; [done|]. destruct (eop d).
  - destruct (packetize [] ds). simpl. intros HF _. apply Forall_inv in HF.
    rewrite length_app in HF. simpl in HF. lia.
  - intros HF Ht. specialize (IH _ HF Ht). rewrite length_app in IH. simpl in IH. lia.
Qed.

Lemma small_next ds n d :
  small_packets ds -> ds !! n = Some d ->
  Z.of_nat (length (snd (packetize [] (take n ds)))) < BPFHV_MAX_TX_BUFS.
Proof.
  intros [HF Ht] Hd. rewrite <- (take_drop_middle ds n d Hd), cons_middle, app_assoc in HF, Ht.
  rewrite packetize_app in HF, Ht. simpl in HF, Ht. rewrite packetize_snoc in HF, Ht.
  destruct (eop d); simpl in HF, Ht.
  - rewrite Forall_app, Forall_app, Forall_singleton, length_app in HF. simpl in HF. lia.
  - apply Forall_app in HF as [_ HF]. pose proof (small_current _ _ _ HF Ht) as Hc.
    rewrite length_app in Hc. simpl in Hc. lia.
Qed.

(** The loop stops for lack of descriptors. *)
Lemma drain_post_empty s :
  drain_inv s -> d_cons s = prod (d_priv s) ->
  (is_null (d_can_send s) = false -> kick_enabled (d_priv s) = 1) -> drain_post s.
Proof.
  intros (Hok & map & Ha & Hb & Hf & Hdist & Hbud) E Hk. pose proof Hok as (_ & (_ & Ec & _) & _).
  assert (Ht : take (Z.to_nat (dist (cons r0) (d_cons s))) (pending (d_priv s)) = pending (d_priv s)).
  { apply take_ge. rewrite E, <- Ec, <- length_pending. lia. }
  rewrite Ht in Ha, Hb, Hdist, Hbud. unfold drain_post.
  destruct (packetize [] (pending (d_priv s))) as [ps t]. simpl in *. rewrite Ha. simpl.
  split_and!; try done. destruct (BPFHV_BE_TX_BUDGET <=? d_count s) eqn:Eb; zify_bool.
  - rewrite (Hbud Eb) in Hdist. simpl in Hdist. lia.
  - split_and!; [done|lia|done].
Qed.

(** The loop stops where the reference stops, after [n] descriptors. *)
Lemma drain_post_stop s n a :
  drain_ok s -> tx_packets (fst (packetize [] (take n (pending (d_priv s))))) a0 = a ->
  a_stop a = true -> d_count s = a_count a -> d_can_send s = a_can_send a -> d_w s = a_w a ->
  dist (cons r0) (d_cons s) = a_n a -> drain_post s.
Proof.
  intros Hok Ha Hstop. pose proof (tx_packets_app (take n (pending (d_priv s))) (drop n (pending (d_priv s)))) as Happ.
  rewrite take_drop, Ha, (tx_packets_stopped _ a) in Happ by done. unfold drain_post.
  destruct (packetize [] (pending (d_priv s))) as [ps t]. simpl in Happ. rewrite Happ, Hstop. intros. by split_and!.
Qed.

(** Collecting the buffer of the descriptor at [cons]. *)
Lemma drain_at_next s n d :
  drain_at (fst (packetize [] (take n (pending (d_priv s))))) (snd (packetize [] (take n (pending (d_priv s))))) s ->
  pending (d_priv s) !! n = Some d -> d_count s < BPFHV_BE_TX_BUDGET ->
  let '(base, map) := translate_addr (d_map s) (paddr d) (len d) in
  let iov := if base =? NULL then d_iov s else d_iov s ++ [mk_iov base (len d)] in
  let t := snd (packetize [] (take n (pending (d_priv s)))) ++ [d] in
  exists a,
    tx_packets (fst (packetize [] (take n (pending (d_priv s))))) a0 = a /\
    a = mk_acc (dist (cons r0) (d_cons_first s)) (d_count s) (d_can_send s) (a_map a) (d_w s) false /\
    buffers (a_map a) t = (iov, map).
Proof.
  intros (map0 & Ha & Hb & _) Hd Hc.
  destruct (translate_addr _ _ _) as [base map] eqn:Et. eexists. split; [exact Ha|]. simpl.
  rewrite (proj2 (Z.leb_gt _ _) Hc). split; [done|].
  rewrite buffers_snoc, Hb. unfold add_buffer. simpl. by rewrite Et.
Qed.

Lemma gso_drain_iter_spec s :
  drain_inv s ->
  0 <= view_measure (d_cons s) (d_view s) /\
  match drain_iter s with
  | Continue s' => drain_inv s' /\ view_measure (d_cons s') (d_view s') < view_measure (d_cons s) (d_view s)
  | Break s' => drain_post s'
  end.
Proof.
  intros Hs. pose proof Hs as ((Hv & (Hok0 & _) & Hsm & _) & _).
  split; [by apply view_measure_nonneg|]. unfold drain_iter.
  pose proof (tx_poll_spec (is_null (d_can_send s)) (d_cons s) _ Hv) as Hpoll.
  pose proof (tx_poll_keeps small_ok (is_null (d_can_send s)) (d_cons s) _ ltac:(done) Hsm) as Hsm'.
  destruct (tx_poll _ _ _) as [more v]. pose proof Hpoll as (Hv' & He & _ & Hres). simpl in Hv', He, Hres, Hsm'.
  pose proof (gso_drain_inv_evolved s v Hs Hv' He Hsm') as Hinv. pose proof Hv' as (_ & _ & Hp).
  destruct more; simpl; last first.
  { destruct Hres as [E Hk]. apply drain_post_empty; [done|unfold d_priv; simpl; congruence|done]. }
  set (s1 := mk_drain v _ _ _ _ _ _ _ _ _) in *. destruct Hres as [Hne _]. rewrite Hp in Hne.
  destruct Hinv as [Hdok Hat]. pose proof Hdok as (_ & (Hok & Ec & _) & ((_ & Hsmall) & _) & Hu & Hd & Hov & Hc).
  unfold d_priv in *; simpl in Hsmall, Hu, Hd, Hov, Hc, Hok, Ec, Hat.
  assert (Hd' : dist (cons (v_priv v)) (d_cons s) <= dist (cons (v_priv v)) (prod (v_priv v))) by (by rewrite Ec).
  pose proof (polled_measure _ _ _ _ Hv Hpoll Hd' Hu) as Hmu.
  destruct (next_pending _ _ Hok Hu Hd' Hne) as (Hlk & Hlt & Hm & Hadv). rewrite Ec in Hlk, Hlt, Hadv.
  pose proof (dist_range (cons r0) (d_cons s)) as Hrange.
  assert (Hdec : view_measure (u32 (d_cons s + 1)) v < view_measure (d_cons s) (d_view s)).
  { unfold view_measure in *. rewrite Hp in *. simpl in *. lia. }
  set (n := Z.to_nat (dist (cons r0) (d_cons s))) in *.
  destruct (BPFHV_BE_TX_BUDGET <=? d_count s) eqn:Eb.
  { destruct Hat as (map & Ha & _ & _ & Hdist & Hbud). zify_bool. rewrite (Hbud Eb) in Hdist.
    apply (drain_post_stop s1 n _ Hdok Ha); simpl in *; try done; [by apply Z.leb_le|lia]. }
  zify_bool. pose proof (small_next _ _ _ Hsmall Hlk) as Hsn.
  pose proof Hat as (map0 & _ & Hbuf & Hfu & Hdist & _).
  pose proof (length_buffers map0 (snd (packetize [] (take n (pending (v_priv v)))))) as Hlb.
  rewrite Hbuf in Hlb. simpl in Hlb, Hdist, Hfu.
  rewrite (proj2 (Z.leb_gt (BPFHV_MAX_TX_BUFS + 1) _)) by (unfold iovcnt_start; case_if; lia).
  pose proof (drain_at_next s1 n _ Hat Hlk ltac:(simpl; lia)) as Hnext. unfold s1, d_priv in Hnext; simpl in Hnext.
  pose proof (packetize_snoc [] (take n (pending (v_priv v))) (get_desc (d_cons s) (v_priv v))) as Hps.
  rewrite <- (take_S_r _ _ _ Hlk) in Hps.
  replace (S n) with (Z.to_nat (dist (cons r0) (u32 (d_cons s + 1)))) in Hps by (unfold n; lia).
  destruct (translate_addr _ _ _) as [base map]. destruct Hnext as (a & Ha & Ea & Hbufs).
  unfold eop in Hps. destruct (has_flag (flags _) SRING_DESC_F_EOP) eqn:Eeop.
  - set (pkt := snd _ ++ [_]) in Hps, Hbufs.
    assert (Hpk : tx_packets (fst (packetize [] (take n (pending (v_priv v)))) ++ [pkt]) a0 = tx_packet a pkt).
    { unfold tx_packets. rewrite foldl_app. simpl. f_equal. exact Ha. }
    unfold tx_packet in Hpk. rewrite Hbufs in Hpk. rewrite Ea in Hpk. simpl in Hpk.
    unfold pkt in Hpk at 2. rewrite last_last in Hpk.
    destruct (be_send _ _ _) as [res w]. destruct (s32 (io_ret res) <=? 0) eqn:Er.
    + eapply (drain_post_stop _ (Z.to_nat (dist (cons r0) (u32 (d_cons s + 1)))));
        [|unfold d_priv; simpl; rewrite Hps; simpl; exact Hpk|done..].
      unfold drain_ok, d_priv; simpl. destruct Hdok as (? & ? & ? & _). split_and!; try done; lia.
    + split; [|done]. unfold drain_inv, drain_ok, drain_at, d_priv; simpl. rewrite Hps. simpl.
      destruct Hdok as (? & ? & ? & _). split_and!; try done; try apply u32_range; try lia.
      exists map. rewrite Hpk. unfold pkt. rewrite length_app; simpl.
      split_and!; try done; try apply u32_range; try lia. f_equal. lia.
  - split; [|done]. unfold drain_inv, drain_ok, drain_at, d_priv; simpl. rewrite Hps. simpl.
    destruct Hdok as (? & ? & ? & _). split_and!; try done; try apply u32_range; try lia.
    exists (a_map a). rewrite Ha, Hbufs, length_app; simpl.
    split_and!; try done; try lia. rewrite Ea at 1. simpl. f_equal. symmetry. by apply Z.leb_gt.
Qed.

End loop.

Definition acc0 (can_send : option Z) (map : mem_map) (w : W) : tx_acc :=
  mk_acc 0 0 can_send map w false.

(** A guest action that publishes small packets only. *)
Definition small_rely (g : sring_gso_tx_context -> sring_gso_tx_context) : Prop :=
  forall r, ring_ok r -> small_packets (pending r) -> small_packets (pending (g r)).

Lemma gso_drain_loop_result fuel map priv can_send w env :
  ring_ok priv -> small_packets (pending priv) -> Forall guest_rely env -> Forall small_rely env ->
  poll_fuel priv env < Z.of_nat fuel ->
  exists s, run drain_iter fuel (drain_start map priv can_send w env) = Some s /\
    drain_post priv (acc0 can_send map w) s.
Proof.
  intros Hok Hsm HF HS Hfuel.
  apply (run_measure drain_iter (drain_inv priv (acc0 can_send map w)) _
           (fun s => view_measure (d_cons s) (d_view s)) (gso_drain_iter_spec priv (acc0 can_send map w))).
  - pose proof (evolved_refl _ Hok) as He. pose proof Hok as (G & Hp & Hc & ?).
    assert (Hk : Forall (fun g => forall r, small_ok r -> small_ok (g r)) env).
    { rewrite Forall_forall in *. intros g Hg r [Hr Hs]. split; [by apply HF|by apply HS]. }
    unfold drain_inv, drain_ok, drain_at, drain_start, d_priv, view_ok, keeps; simpl. rewrite dist_self.
    pose proof (dist_range (cons priv) (prod priv)).
    destruct can_send; (split_and!; try done; [simpl; lia|]); exists map; split_and!; try done; lia.
  - pose proof (view_measure_start priv (prod priv) env Hok eq_refl) as Hm.
    unfold drain_start; simpl. destruct can_send; unfold view_measure, poll_fuel in *; simpl in *; lia.
Qed.

(** C19: [sring_gso_txq_drain] terminates, stays within its array of buffers
    and is equivalent to the reference on packets, for guests that publish no
    packet of more than [BPFHV_MAX_TX_BUFS] buffers: it sends exactly the
    packets the reference sends, in order, each with its offload header and
    the buffers of it that lie in guest memory, and returns their number.  If
    no packet is sent it consumes no descriptor, so that a packet whose last
    descriptor is not there yet stays pending when it is alone.  If packets are
    sent, it consumes exactly their descriptors when a packet is refused or the
    budget is spent, and otherwise every descriptor published, those of an
    incomplete packet behind them too.  Unless a packet is refused or the budget
    is spent, kicks are enabled at the end, when it does not busy-wait. *)
Theorem sring_gso_txq_drain_refines fuel map txq priv can_send w env :
  ring_ok priv -> small_packets (pending priv) -> Forall guest_rely env -> Forall small_rely env ->
  poll_fuel priv env < Z.of_nat fuel ->
  exists res new gone rest,
    let all := pending priv ++ new in
    let a := tx_packets (fst (packetize [] all)) (acc0 can_send map w) in
    let n := if 0 <? a_count a then (if a_stop a then Z.to_nat (a_n a) else length all) else O in
    sring_gso_txq_drain fuel map txq priv can_send w env = Some (Drained res) /\
    r_count res = a_count a /\ r_can_send res = a_can_send a /\ r_w res = a_w a /\
    ring_ok (r_priv res) /\ completed priv = gone ++ rest /\
    abs (r_priv res) = mk_fifo (drop n all) (rest ++ take n all) /\
    (a_stop a = false -> is_null (r_can_send res) = false -> kick_enabled (r_priv res) = 1).
Proof.
  intros Hok Hsm HF HS Hfuel.
  destruct (gso_drain_loop_result fuel map priv can_send w env Hok Hsm HF HS Hfuel) as (s & Hrun & Hpost).
  unfold drain_post in Hpost. destruct (packetize [] (pending (d_priv s))) as [ps t] eqn:Epk.
  destruct Hpost as ((_ & (Hok' & Ec & _ & (new & Ep) & (gone & Eg)) & _ & Hu & Hd & Hov & _) & Hcnt & Hcs & Hw & Hfin).
  exists (drain_finish (set_notify 0 txq) s), new, gone, (completed (d_priv s)).
  cbv zeta. unfold sring_gso_txq_drain. rewrite Hrun. simpl. rewrite Hov, <- Ep, Epk. simpl.
  unfold drain_finish. rewrite <- Hcnt. rewrite <- Ec in Hd.
  destruct (consume_take (d_cons s) (d_priv s) Hok' Hu Hd) as (Hok2 & Habs). rewrite Ec in Habs.
  assert (Hn : Z.to_nat (dist (cons priv) (d_cons s)) =
     (if a_stop (tx_packets ps (acc0 can_send map w)) then Z.to_nat (a_n (tx_packets ps (acc0 can_send map w)))
      else length (pending (d_priv s)))).
  { destruct (a_stop _); [by rewrite Hfin|]. destruct Hfin as (E & _). rewrite E, <- Ec.
    pose proof (length_pending (d_priv s)). lia. }
  rewrite Hn in Habs.
  destruct (0 <? d_count s) eqn:E0; simpl; split_and!; try done;
    try (intros Hst; rewrite Hst in Hfin; by destruct Hfin as (_ & _ & ?)).
  unfold abs. by rewrite drop_0, take_0, app_nil_r.
Qed.

End drain.

(** The [i]-th of 128 entries published by a guest that never sets EOP. *)
Definition endless_desc : sring_gso_tx_desc := mk_desc 7 0x2000 64 0 0 0 0 0 0 0.
Definition endless_ring : sring_gso_tx_context := mk_ring 66 0 0 1 127 0 (repeat endless_desc 128).

(** The bound on the size of packets is needed: nothing in the code
    limits [iovcnt], and a guest that publishes 66 descriptors without EOP
    makes [sring_gso_txq_drain] write past the end of its array [iov] of
    [BPFHV_MAX_TX_BUFS + 1] entries on the stack of the backend process. *)
Theorem sring_gso_txq_drain_overrun :
  ring_ok endless_ring /\
  exists fuel, sring_gso_txq_drain 0 fuel example_map (mk_qio 0 stats_zero) endless_ring (Some 1)
    (@nil iovec) [] = Some Overrun.
Proof.
  split.
  - split; [exists 7; vm_compute; split_and!; congruence|].
    unfold is_u32, in_flight. vm_compute. split_and!; congruence.
  - exists 200%nat. vm_compute. reflexivity.
Qed.

(** ** The guest programs *)

(** A packet: EOP on the last descriptor and on no other. *)
Definition is_packet (pkt : list sring_gso_tx_desc) : Prop :=
  exists ds d, pkt = ds ++ [d] /\ Forall (fun x => eop x = false) ds /\ eop d = true.

Lemma packetize_packet cur ds d :
  Forall (fun x => eop x = false) ds -> eop d = true ->
  packetize cur (ds ++ [d]) = ([cur ++ ds ++ [d]], []).
Proof.
  intros HF Hd. revert cur. induction HF as [|x ds Hx HF IH]; intros cur; simpl.
  - by rewrite Hd.
  - rewrite Hx, IH, <- app_assoc. done.
Qed.

(** A descriptor that carries a buffer; lengths are 16 bits wide. *)
Definition carries (d : sring_gso_tx_desc) (b : bpfhv_buf) : Prop :=
  cookie d = buf_cookie b /\ paddr d = buf_paddr b /\ len d = u16 (buf_len b).

Lemma txp_loop_publish ctx n i p priv :
  0 <= i -> i + Z.of_nat n <= Z.of_nat (length (bufs ctx)) ->
  let '(p', priv') := txp_loop ctx n i p priv in
  exists ds, set_prod p' priv' = publish_all ds (set_prod p priv) /\
    Forall2 carries ds (take n (drop (Z.to_nat i) (bufs ctx))) /\ Forall (fun d => eop d = false) ds.
Proof.
  revert i p priv. induction n as [|n IH]; intros i p priv Hi Hn; simpl; [by exists []|].
  set (d := mk_desc _ _ _ _ _ _ _ _ _ _).
  specialize (IH (i + 1) (u32 (p + 1)) (put_desc p d priv)).
  destruct (txp_loop _ _ _ _ _) as [p' priv']. destruct IH as (ds & E & HC & HF); [lia..|].
  exists (d :: ds). split; [done|].
  assert (Hl : (Z.to_nat i < length (bufs ctx))%nat) by lia.
  destruct (lookup_lt_is_Some_2 _ _ Hl) as [b Hb].
  rewrite (drop_S _ _ _ Hb). simpl. replace (S (Z.to_nat i)) with (Z.to_nat (i + 1)) by lia.
  split; [|by constructor]. constructor; [|done].
  unfold d, carries, get_buf. by rewrite (list_lookup_total_correct _ _ _ Hb).
Qed.

(** [sring_gso_txp] refuses packets of more buffers than the context
    holds and leaves the context alone; otherwise, when the ring has room, it
    publishes exactly one packet, whose descriptors carry the buffers in order
    and whose last one carries the offload metadata of the packet in such a
    way that the hypervisor builds the same virtio-net header from it; and it
    asks for a kick exactly when kicks are enabled. *)
Theorem sring_gso_txp_refines md_get ctx :
  ring_ok (opaque ctx) -> length (bufs ctx) = Z.to_nat BPFHV_MAX_TX_BUFS -> 0 < num_bufs ctx ->
  in_flight (opaque ctx) + num_bufs ctx <= qmask (opaque ctx) + 1 ->
  exists ret ctx', sring_gso_txp md_get ctx = Some (ret, ctx') /\
  if num_bufs ctx <=? BPFHV_MAX_TX_BUFS then
    let h := md_get ctx in
    exists ds d, ret = 0 /\ ring_ok (opaque ctx') /\ is_packet (ds ++ [d]) /\
      abs (opaque ctx') = mk_fifo (pending (opaque ctx) ++ ds ++ [d]) (completed (opaque ctx)) /\
      Forall2 carries (ds ++ [d]) (take (Z.to_nat (num_bufs ctx)) (bufs ctx)) /\
      (forall v, v <> 0 -> hdr_of v d = Some (mk_vhdr
         (if has_flag (h_flags h) VIRTIO_NET_HDR_F_NEEDS_CSUM then VIRTIO_NET_HDR_F_NEEDS_CSUM else 0)
         (u8 (h_gso_type h)) (h_hdr_len h) (h_gso_size h) (h_csum_start h) (h_csum_offset h) 0)) /\
      oflags ctx' = (if kick_enabled (opaque ctx) =? 0 then 0 else BPFHV_OFLAGS_KICK_NEEDED)
  else ret = -1 /\ ctx' = ctx.
Proof.
  intros Hok Hb Hn Hroom. unfold sring_gso_txp. rewrite Z.leb_antisym.
  destruct (BPFHV_MAX_TX_BUFS <? num_bufs ctx) eqn:E; zify_bool; simpl; [by eexists _, _|].
  rewrite (proj2 (Z.eqb_neq (num_bufs ctx) 0)) by lia.
  pose proof (txp_loop_publish ctx (Z.to_nat (num_bufs ctx)) 0 (prod (opaque ctx)) (opaque ctx)
                ltac:(lia) ltac:(lia)) as Hl.
  destruct (txp_loop _ _ _ _ _) as [p r']. destruct Hl as (ds & Hpub & HC & HF).
  rewrite drop_0 in HC. rewrite set_prod_id in Hpub.
  pose proof (Forall2_length HC) as Hlen. rewrite length_take in Hlen.
  destruct (exists_last (l := ds)) as (ds0 & d & ->); [intros ->; simpl in Hlen; lia|].
  rewrite length_app in Hlen; simpl in Hlen.
  set (r1 := publish_all ds0 (opaque ctx)).
  destruct (publish_all_refines ds0 (opaque ctx) Hok ltac:(lia)) as (Hok1 & Hf1 & _).
  assert (E1 : set_prod p r' = publish d r1) by (rewrite Hpub; unfold publish_all, r1; by rewrite foldl_app).
  assert (Ep : p = prod (publish d r1)) by (rewrite <- E1; done).
  set (hd := txp_last (md_get ctx) (get_desc (u32 (p - 1)) r')).
  assert (E2 : set_prod p (put_desc (u32 (p - 1)) hd r') = publish hd r1).
  { change (set_prod p (put_desc (u32 (p - 1)) hd r')) with (put_desc (u32 (p - 1)) hd (set_prod p r')).
    rewrite E1, Ep. apply publish_overwrite, Hok1. }
  assert (Ed : get_desc (u32 (p - 1)) r' = d).
  { change (get_desc (u32 (p - 1)) r') with (get_desc (u32 (p - 1)) (set_prod p r')). rewrite E1, Ep.
    simpl. destruct Hok1 as (G1 & Hp1 & _). rewrite u32_sub_l. replace (prod r1 + 1 - 1) with (prod r1) by lia.
    rewrite u32_id by done. unfold get_desc; simpl. by apply ring_get_set_eq. }
  assert (E3 : publish hd r1 = publish_all (ds0 ++ [hd]) (opaque ctx)) by (unfold publish_all, r1; by rewrite foldl_app).
  destruct (publish_all_refines (ds0 ++ [hd]) (opaque ctx) Hok) as (Hok2 & _ & Habs);
    [rewrite length_app; simpl; lia|].
  eexists _, _. split; [done|]. exists ds0, hd. simpl. rewrite E2, E3.
  apply Forall_app in HF as [HF _]. apply Forall2_app_inv_l in HC as (b1 & b2 & HC1 & HC2 & Eb).
  assert (Heop : eop hd = true) by (unfold eop, hd, txp_last; simpl; by case_if).
  assert (Hcar : forall b, carries d b -> carries hd b)
    by (intros b; unfold hd, txp_last, carries; simpl; by rewrite Ed).
  split_and!; [done|done|by exists ds0, hd|done| | |].
  - rewrite Eb. apply Forall2_app; [done|]. inversion HC2 as [|? b ? ? Hc Hnil]; subst.
    constructor; [by apply Hcar|done].
  - intros v Hv. unfold hdr_of, hd, txp_last; simpl. unfold z2b at 1.
    rewrite (proj2 (Z.eqb_neq v 0) Hv). simpl. do 2 f_equal. by case_if.
  - change (kick_enabled r') with (kick_enabled (set_prod p r')).
    rewrite Hpub, publish_all_kick. unfold z2b. by destruct (_ =? 0).
Qed.

(** With no buffers at all, [sring_gso_txp] writes through an
    uninitialized pointer. *)
Theorem sring_gso_txp_no_buffers md_get ctx : num_bufs ctx = 0 -> sring_gso_txp md_get ctx = None.
Proof. intros E. unfold sring_gso_txp. by rewrite E. Qed.

(** A buffer handed back for a descriptor. *)
Definition handed (d : sring_gso_tx_desc) (b : bpfhv_buf) : Prop :=
  buf_cookie b = cookie d /\ buf_paddr b = paddr d /\ buf_len b = len d.

Definition handed_all (pkt : list sring_gso_tx_desc) (i : nat) (bs : list bpfhv_buf) : Prop :=
  forall k d, pkt !! k = Some d -> exists b, bs !! (i + k)%nat = Some b /\ handed d b.

(** The loop of [sring_gso_tx_get_one] walks over one packet. *)
Lemma get_one_loop_spec ds d n i ctx rest :
  let r := opaque ctx in
  Forall (fun x => eop x = false) ds -> eop d = true ->
  is_u32 (clear r) -> is_u32 (prod r) -> flying r = (ds ++ [d]) ++ rest ->
  (length ds < n)%nat -> 0 <= i -> i + Z.of_nat (length ds) < Z.of_nat (length (bufs ctx)) ->
  exists ctx', get_one_loop n i ctx = (i + Z.of_nat (length (ds ++ [d])), ctx') /\
    opaque ctx' = set_clear (u32 (clear r + Z.of_nat (length (ds ++ [d])))) r /\
    length (bufs ctx') = length (bufs ctx) /\
    (forall j, (j < Z.to_nat i)%nat -> bufs ctx' !! j = bufs ctx !! j) /\
    handed_all (ds ++ [d]) (Z.to_nat i) (bufs ctx').
Proof.
  intros r HF Hd. unfold r. clear r. revert n i ctx.
  induction HF as [|x ds Hx HF IH]; intros n i ctx Hc Hp Hfly Hn Hi Hlen.
  all: destruct n as [|n]; [simpl in Hn; lia|]; simpl in Hfly, Hn, Hlen.
  all: assert (Hne : clear (opaque ctx) <> prod (opaque ctx))
         by (intros E; unfold flying in Hfly; rewrite E, between_self in Hfly; done).
  all: unfold flying in Hfly; rewrite between_cons in Hfly by done.
  all: simpl in Hfly; injection Hfly as Ehead Hfly.
  all: simpl; unfold get_desc; rewrite Ehead.
  - unfold eop in Hd. rewrite Hd. eexists. split; [done|]. simpl. split; [done|].
    rewrite length_insert. split_and!; [done| |].
    + intros j Hj. rewrite list_lookup_insert_ne by lia. done.
    + intros [|k] x Hk; simpl in Hk; [|done]. injection Hk as <-. rewrite Nat.add_0_r. eexists.
      split; [apply list_lookup_insert_eq; lia|done].
  - unfold eop in Hx. rewrite Hx.
    set (ctx1 := put_buf _ _ _).
    destruct (IH n (i + 1) ctx1) as (ctx' & Hrun & Ho & Hl & Hbefore & Hafter);
      [apply u32_range|done|exact Hfly|lia|lia|unfold ctx1; simpl; rewrite length_insert; lia|].
    exists ctx'. unfold ctx1 in Hl, Hbefore, Ho; simpl in Hl, Hbefore, Ho. rewrite length_insert in Hl.
    split_and!.
    + rewrite Hrun. f_equal. lia.
    + rewrite Ho, u32_add_l. simpl length. rewrite Nat2Z.inj_succ. unfold Z.succ.
      by rewrite <- Z.add_assoc, (Z.add_comm 1).
    + done.
    + intros j Hj. rewrite Hbefore by lia. by rewrite list_lookup_insert_ne by lia.
    + intros [|k] y Hk; simpl in Hk.
      * injection Hk as <-. rewrite Nat.add_0_r, Hbefore by lia. eexists.
        split; [apply list_lookup_insert_eq; lia|done].
      * destruct (Hafter k y Hk) as (b & Hb & ?). exists b. split; [|done]. rewrite <- Hb. f_equal. lia.
Qed.

(** The whole packet at [clear] is handed back in [ctx->bufs]. *)
Lemma sring_gso_tx_get_one_spec ctx pkt rest :
  ring_ok (opaque ctx) -> length (bufs ctx) = Z.to_nat BPFHV_MAX_TX_BUFS ->
  is_packet pkt -> Z.of_nat (length pkt) <= BPFHV_MAX_TX_BUFS -> flying (opaque ctx) = pkt ++ rest ->
  let ctx' := sring_gso_tx_get_one ctx in
  opaque ctx' = set_clear (u32 (clear (opaque ctx) + Z.of_nat (length pkt))) (opaque ctx) /\
  num_bufs ctx' = Z.of_nat (length pkt) /\ handed_all pkt 0 (bufs ctx').
Proof.
  intros (G & Hp & _ & Hcl & _) Hb (ds & d & -> & HF & Hd) Hlen Hfly. unfold sring_gso_tx_get_one.
  rewrite length_app in Hlen; simpl in Hlen.
  destruct (get_one_loop_spec ds d (Z.to_nat BPFHV_MAX_TX_BUFS) 0 ctx rest HF Hd Hcl Hp Hfly)
    as (ctx' & -> & Ho & _ & _ & Hh); [lia..|]. simpl. rewrite Z.add_0_l. by split_and!.
Qed.

(** [sring_gso_txc] returns 0 when nothing has completed; otherwise it
    hands back all the buffers of the oldest completed packet, and only
    those, and removes its descriptors from the ring. *)
Theorem sring_gso_txc_refines ctx pkt rest :
  ring_ok (opaque ctx) -> length (bufs ctx) = Z.to_nat BPFHV_MAX_TX_BUFS ->
  (completed (opaque ctx) = [] -> sring_gso_txc ctx = (0, ctx)) /\
  (is_packet pkt -> Z.of_nat (length pkt) <= BPFHV_MAX_TX_BUFS ->
   completed (opaque ctx) = pkt ++ rest ->
   let '(ret, ctx') := sring_gso_txc ctx in
   ret = 1 /\ ring_ok (opaque ctx') /\ abs (opaque ctx') = mk_fifo (pending (opaque ctx)) rest /\
   num_bufs ctx' = Z.of_nat (length pkt) /\ handed_all pkt 0 (bufs ctx') /\ oflags ctx' = 0).
Proof.
  intros Hok Hb. pose proof Hok as (_ & _ & Hc & Hcl & _). unfold sring_gso_txc. split.
  - intros E. apply (f_equal length) in E. pose proof (length_completed (opaque ctx)) as Hl.
    rewrite E in Hl. simpl in Hl. symmetry in Hl. apply (proj1 (dist_0 _ _ Hcl Hc)) in Hl. by rewrite Hl, Z.eqb_refl.
  - intros Hpkt Hlen E. pose proof (length_completed (opaque ctx)) as Hl. rewrite E, length_app in Hl.
    assert (0 < length pkt)%nat by (destruct Hpkt as (ds & d & -> & _); rewrite length_app; simpl; lia).
    destruct (_ =? _) eqn:Ec; zify_bool; [rewrite Ec, dist_self in Hl; lia|].
    destruct (sring_gso_tx_get_one_spec ctx pkt (rest ++ pending (opaque ctx)) Hok Hb Hpkt Hlen)
      as (Ho & Hn & Hh); [by rewrite flying_app, E, <- app_assoc|].
    generalize dependent (sring_gso_tx_get_one ctx). intros ctx1 Ho Hn Hh.
    destruct (reclaim_refines (Z.of_nat (length pkt)) (opaque ctx) Hok) as (Hok' & _ & _ & Hcomp).
    { pose proof (dist_range (cons (opaque ctx)) (prod (opaque ctx))). unfold in_flight. lia. }
    unfold reclaim in Hok', Hcomp. rewrite (proj2 (Z.ltb_ge _ _)) in Hok', Hcomp by lia.
    specialize (Hcomp ltac:(lia)). destruct Hcomp as [Hpend Hcomp]. simpl. rewrite Ho.
    split_and!; try done. unfold abs. rewrite Hpend, Hcomp, E, Nat2Z.id. by rewrite drop_app_length.
Qed.

(** [sring_gso_txr] takes back the oldest packet in flight, completed or
    not: its buffers are handed back, its descriptors leave the ring, and
    [cons] follows [clear] when the packet had not been consumed (entirely),
    so that the ring stays well formed. *)
Theorem sring_gso_txr_refines ctx pkt rest :
  ring_ok (opaque ctx) -> length (bufs ctx) = Z.to_nat BPFHV_MAX_TX_BUFS ->
  is_packet pkt -> Z.of_nat (length pkt) <= BPFHV_MAX_TX_BUFS ->
  completed (opaque ctx) ++ pending (opaque ctx) = pkt ++ rest ->
  let '(ret, ctx') := sring_gso_txr ctx in
  ret = 1 /\ ring_ok (opaque ctx') /\ completed (opaque ctx') ++ pending (opaque ctx') = rest /\
  num_bufs ctx' = Z.of_nat (length pkt) /\ handed_all pkt 0 (bufs ctx').
Proof.
  intros Hok Hb Hpkt Hlen E. rewrite <- flying_app in E by done.
  pose proof Hok as (_ & Hp & Hc & Hcl & _). pose proof (length_flying _ Hok) as Hl.
  rewrite E, length_app in Hl.
  assert (0 < length pkt)%nat by (destruct Hpkt as (ds & d & -> & _); rewrite length_app; simpl; lia).
  destruct (sring_gso_tx_get_one_spec ctx pkt rest Hok Hb Hpkt Hlen E) as (Ho & Hn & Hh).
  destruct (reclaim_refines (Z.of_nat (length pkt)) (opaque ctx) Hok ltac:(lia)) as (Hok' & _ & Hfly & _).
  unfold sring_gso_txr. destruct (_ =? _) eqn:E0; zify_bool.
  { unfold flying in E. rewrite E0, between_self in E. destruct pkt; simpl in *; [lia|done]. }
  generalize dependent (sring_gso_tx_get_one ctx). intros ctx1 Ho Hn Hh.
  assert (Er : (if clear_met_cons (clear (opaque ctx)) (cons (opaque ctx)) (clear (opaque ctx1))
     then set_cons (clear (opaque ctx1)) (opaque ctx1) else opaque ctx1)
     = reclaim (Z.of_nat (length pkt)) (opaque ctx)).
  { rewrite Ho. simpl. rewrite clear_met_cons_spec by (done || apply u32_range).
    rewrite dist_add by (change (2 ^ 32) with 4294967296; unfold BPFHV_MAX_TX_BUFS in Hlen; lia).
    unfold reclaim. by case_if. }
  assert (Er' : opaque (if clear_met_cons (clear (opaque ctx)) (cons (opaque ctx)) (clear (opaque ctx1))
     then set_opaque (set_cons (clear (opaque ctx1)) (opaque ctx1)) ctx1 else ctx1)
     = reclaim (Z.of_nat (length pkt)) (opaque ctx)) by (rewrite <- Er; by case_if).
  simpl. rewrite Er'. split_and!; try done.
  - rewrite <- flying_app by done. rewrite Hfly, E, Nat2Z.id. by rewrite drop_app_length.
  - by case_if.
  - by case_if.
Qed.

Lemma gso_drain_quiet {W} `{!NetBackend W} vnet_hdr_len fuel (s s' : drain_state (W:=W)) :
  Forall quiet (v_env (d_view s)) -> run (drain_iter vnet_hdr_len) fuel s = Some s' ->
  clear (d_priv s') = clear (d_priv s) /\ intr (d_priv s') = intr (d_priv s).
Proof.
  intros HF Hrun. set (P := quiet_state (D:=sring_gso_tx_desc) (clear (d_priv s)) (intr (d_priv s))).
  enough (keeps P (d_view s')) as [[? ?] _] by done.
  revert Hrun. apply (run_invariant _ (fun t => keeps P (d_view t)) (fun t => keeps P (d_view t)));
    [|by apply quiet_keeps].
  intros t Ht. unfold drain_iter.
  pose proof (tx_poll_keeps P (is_null (d_can_send t)) (d_cons t) _ ltac:(done) Ht) as Hq.
  destruct (tx_poll _ _ _) as [more v]. simpl in Hq. do 3 (case_if; [done|]).
  destruct (translate_addr _ _ _). case_if; [|done]. destruct (be_send _ _ _). by case_if.
Qed.

(** No completion interrupt is lost on the transmit side of sring_gso:
    when [sring_gso_txi] returns 0 for a request of [min_completed_bufs]
    buffers, fewer are complete, and the drain that completes the last of them
    asks for an interrupt. *)
Theorem sring_gso_txi_no_lost_interrupt {W} `{!NetBackend W} vnet_hdr_len hv ctx ctx' fuel map txq
    can_send (w : W) env res :
  ring_ok (opaque ctx) -> (forall r, ring_ok r -> hv_step r (hv r)) ->
  0 < min_completed_bufs ctx <= qmask (opaque ctx) + 1 ->
  sring_gso_txi hv ctx = (0, ctx') -> small_packets (pending (opaque ctx')) ->
  Forall guest_rely env -> Forall small_rely env -> Forall quiet env ->
  poll_fuel (opaque ctx') env < Z.of_nat fuel ->
  sring_gso_txq_drain vnet_hdr_len fuel map txq (opaque ctx') can_send w env = Some (Drained res) ->
  Z.of_nat (length (completed (opaque ctx'))) < min_completed_bufs ctx /\
  (min_completed_bufs ctx <= Z.of_nat (length (completed (r_priv res))) ->
   q_notify (r_txq res) = 1).
Proof.
  intros Hok Hhv Hmin Htxi Hsm HF HS HQ Hfuel Hdrain.
  destruct (ring_txi_spec hv ctx ctx' Hok Hhv ltac:(lia) Htxi) as (Hok2 & Eq & Ei & Hlt).
  set (r1 := opaque ctx') in *. rewrite !length_completed. split; [done|].
  destruct (gso_drain_loop_result vnet_hdr_len fuel map r1 can_send w env Hok2 Hsm HF HS Hfuel)
    as (s & Hrun & Hpost).
  unfold drain_post in Hpost. destruct (packetize _ _) as [ps t].
  destruct Hpost as ((_ & (Hok' & Ec' & Eq' & _) & _ & Hu & Hd & Hov & _) & _).
  pose proof (gso_drain_quiet _ fuel (drain_start map r1 can_send w env) s HQ Hrun) as [Ecl' Ei'].
  assert (Hp : forall f : sring_gso_tx_context -> Z, (forall r k, f (set_kick_enabled k r) = f r) ->
             f (d_priv (drain_start map r1 can_send w env)) = f r1)
    by (intros f Hf; unfold drain_start, d_priv; simpl; destruct can_send; [apply Hf|done]).
  rewrite (Hp clear) in Ecl' by done. rewrite (Hp intr) in Ei' by done.
  unfold sring_gso_txq_drain in Hdrain. rewrite Hrun in Hdrain. simpl in Hdrain.
  rewrite Hov in Hdrain. injection Hdrain as <-. rewrite <- Ec' in Hd.
  unfold drain_finish. destruct (0 <? d_count s) eqn:E0; zify_bool; simpl; intros Hreach.
  - rewrite (proj2 (intr_at_reached (d_priv s) (d_cons s) (min_completed_bufs ctx) Hok' Hu Hd
                      ltac:(rewrite Eq', Eq; lia) ltac:(by rewrite Ei', Ei, Ecl')
                      ltac:(rewrite Ecl', Ec'; lia))); [done|].
    unfold dist in *. simpl in Hreach. lia.
  - rewrite Ecl', Ec' in Hreach. lia.
Qed.

(** ** Witnesses *)

(** A ring of 8 entries: a completed packet of two buffers, and a pending one
    of two. *)
Definition ex_mid : sring_gso_tx_desc := mk_desc 1 0x2000 64 0 0 0 0 0 0 0.
Definition ex_last : sring_gso_tx_desc := mk_desc 2 0x2040 32 SRING_DESC_F_EOP 0 0 0 0 0 0.
Definition ex_ring : sring_gso_tx_context :=
  mk_ring 4 0 2 1 7 0 ([ex_mid; ex_last; ex_mid; ex_last] ++ repeat desc_zero 4).
Definition ex_ctx : gso_tx_ctx := mk_ctx 0 0 2 0 0 3 0 (repeat inhabitant 64) ex_ring.

Lemma ex_ring_ok : ring_ok ex_ring.
Proof.
  split; [exists 3; vm_compute; split_and!; congruence|].
  unfold is_u32, in_flight. vm_compute. split_and!; congruence.
Defined.

Lemma ex_small : small_packets (pending ex_ring).
Proof.
  unfold small_packets. change (packetize [] (pending ex_ring)) with ([[ex_mid; ex_last]], @nil sring_gso_tx_desc).
  split; [constructor; [vm_compute; congruence|constructor]|vm_compute; congruence].
Defined.

Lemma sring_gso_txq_drain_refines_witness :
  exists res,
    sring_gso_txq_drain 12 100 example_map (mk_qio 0 stats_zero) ex_ring (Some 1) (@nil iovec) []
      = Some (Drained res) /\ ring_ok (r_priv res) /\ r_count res = 1 /\
    r_w res = [mk_iov 0x801000 64; mk_iov 0x801040 32].
Proof.
  destruct (sring_gso_txq_drain_refines 12 100 example_map (mk_qio 0 stats_zero) ex_ring (Some 1)
              (@nil iovec) []) as (res & new & gone & rest & Hrun & _ & _ & _ & Hok & _).
  - apply ex_ring_ok.
  - apply ex_small.
  - constructor.
  - constructor.
  - vm_compute. reflexivity.
  - exists res. split; [exact Hrun|]. split; [exact Hok|].
    pose proof Hrun as E. vm_compute in E. injection E as <-. split; reflexivity.
Defined.

Lemma sring_gso_txp_refines_witness :
  exists ctx', sring_gso_txp (fun _ => mk_hdr 1 0 0 0 34 16) ex_ctx = Some (0, ctx') /\
    ring_ok (opaque ctx').
Proof.
  destruct (sring_gso_txp_refines (fun _ => mk_hdr 1 0 0 0 34 16) ex_ctx ex_ring_ok eq_refl
    ltac:(vm_compute; reflexivity) ltac:(vm_compute; congruence)) as (ret & ctx' & Hrun & Hres).
  change (num_bufs ex_ctx <=? BPFHV_MAX_TX_BUFS) with true in Hres. cbv iota in Hres.
  destruct Hres as (ds & d & -> & Hok & _). exists ctx'. split; [exact Hrun|exact Hok].
Defined.

Lemma sring_gso_txp_no_buffers_witness :
  sring_gso_txp (fun _ => mk_hdr 1 0 0 0 34 16) (set_num_bufs 0 ex_ctx) = None.
Proof. apply sring_gso_txp_no_buffers. reflexivity. Defined.

Lemma ex_packet : is_packet [ex_mid; ex_last].
Proof. exists [ex_mid], ex_last. split_and!; [reflexivity|repeat constructor|reflexivity]. Defined.

Lemma sring_gso_txc_refines_witness :
  fst (sring_gso_txc ex_ctx) = 1 /\ num_bufs (snd (sring_gso_txc ex_ctx)) = 2.
Proof.
  destruct (sring_gso_txc_refines ex_ctx [ex_mid; ex_last] [] ex_ring_ok eq_refl) as [_ H].
  specialize (H ex_packet ltac:(vm_compute; congruence) eq_refl).
  destruct (sring_gso_txc ex_ctx) as [ret ctx']. destruct H as (-> & _ & _ & Hn & _).
  split; [reflexivity|exact Hn].
Defined.

Lemma sring_gso_txr_refines_witness :
  fst (sring_gso_txr ex_ctx) = 1 /\ ring_ok (opaque (snd (sring_gso_txr ex_ctx))).
Proof.
  pose proof (sring_gso_txr_refines ex_ctx [ex_mid; ex_last] [ex_mid; ex_last] ex_ring_ok eq_refl
                ex_packet ltac:(vm_compute; congruence) eq_refl) as H.
  destruct (sring_gso_txr ex_ctx) as [ret ctx']. destruct H as (-> & Hok & _).
  split; [reflexivity|exact Hok].
Defined.

Lemma sring_gso_txi_no_lost_interrupt_witness :
  exists ctx' res,
    sring_gso_txi id ex_ctx = (0, ctx') /\
    sring_gso_txq_drain 12 100 example_map (mk_qio 0 stats_zero) (opaque ctx') None (@nil iovec) []
      = Some (Drained res) /\ q_notify (r_txq res) = 1.
Proof.
  exists (snd (sring_gso_txi id ex_ctx)).
  destruct (sring_gso_txq_drain 12 100 example_map (mk_qio 0 stats_zero)
     (opaque (snd (sring_gso_txi id ex_ctx))) None (@nil iovec) []) as [[|res]|] eqn:E;
    [exfalso; vm_compute in E; congruence| |exfalso; vm_compute in E; congruence].
  exists res. split; [vm_compute; reflexivity|]. split; [reflexivity|].
  apply (sring_gso_txi_no_lost_interrupt 12 id ex_ctx (snd (sring_gso_txi id ex_ctx)) 100 example_map
           (mk_qio 0 stats_zero) None (@nil iovec) [] res ex_ring_ok (fun r Hr => hv_step_refl r Hr)).
  - vm_compute. split; congruence.
  - vm_compute. reflexivity.
  - exact ex_small.
  - constructor.
  - constructor.
  - constructor.
  - vm_compute. reflexivity.
  - exact E.
  - pose proof E as E'. vm_compute in E'. injection E' as <-. vm_compute. congruence.
Defined.
