(* ===== verification/SringGsoRx.v ===== *)
(** * The sring_gso device, receive direction

    proxy/sring_gso.h, the receive side of proxy/sring_gso.c (hypervisor) and
    of proxy/sring_gso_progs.c (guest programs, built with WITH_GSO).  A
    packet is received into as many buffers as it takes to hold one of the
    maximum size; those it does not fill stay published for the next one. *)

From S2P Require Import Prelude Ring Abi Backend Sring SringGsoTx.
Open Scope Z_scope.

Record sring_gso_rx_desc := mk_desc {
  cookie : Z;
  paddr : Z;
  len : Z;
  flags : Z;
  csum_start : Z;
  csum_offset : Z;
  gso_size : Z;
  hdr_len : Z;
  gso_type : Z;
  reserved : Z;
}.
Definition desc_zero : sring_gso_rx_desc := mk_desc 0 0 0 0 0 0 0 0 0 0.
#[export] Instance sring_gso_rx_desc_inhabited : Inhabited sring_gso_rx_desc := populate desc_zero.

(** Writing [len] and [flags] of a descriptor. *)
Definition set_len_flags (l f : Z) (d : sring_gso_rx_desc) : sring_gso_rx_desc :=
  mk_desc (cookie d) (paddr d) l f (csum_start d) (csum_offset d) (gso_size d) (hdr_len d) (gso_type d)
    (reserved d).

Abbreviation sring_gso_rx_context := (ring sring_gso_rx_desc).
Abbreviation gso_rx_ctx := (bpfhv_context sring_gso_rx_context).

Definition sring_gso_rx_ctx_size (num_rx_bufs : Z) : Z :=
  u64 (sizeof_bpfhv_context + struct_size sring_context_layout +
       num_rx_bufs * struct_size sring_gso_desc_layout).

Definition sring_gso_rx_ctx_init (num_rx_bufs : Z) : option sring_gso_rx_context :=
  ctx_init desc_zero num_rx_bufs 1.

Definition sring_gso_rxq_notification (priv : sring_gso_rx_context) (enable : Z) : sring_gso_rx_context :=
  sring_notification priv enable.

(** ** Guest programs *)

(** [for (i = 0; i < ctx->num_bufs; i++, prod++)]; [n] iterations left. *)
Fixpoint rxp_loop (ctx : gso_rx_ctx) (n : nat) (i prod : Z) (priv : sring_gso_rx_context)
    : Z * sring_gso_rx_context :=
  match n with
  | O => (prod, priv)
  | S n' =>
      let rxb := get_buf i ctx in
      let rxd := get_desc prod priv in
      let rxd := mk_desc (buf_cookie rxb) (buf_paddr rxb) (u16 (buf_len rxb)) 0 (csum_start rxd)
                   (csum_offset rxd) (gso_size rxd) (hdr_len rxd) (gso_type rxd) (reserved rxd) in
      rxp_loop ctx n' (i + 1) (u32 (prod + 1)) (put_desc prod rxd priv)
  end.

Definition sring_gso_rxp (ctx : gso_rx_ctx) : Z * gso_rx_ctx :=
  let priv := opaque ctx in
  if BPFHV_MAX_RX_BUFS <? num_bufs ctx then (-1, ctx)
  else
    let '(prod, priv) := rxp_loop ctx (Z.to_nat (num_bufs ctx)) 0 (prod priv) priv in
    let priv := set_prod prod priv in
    let ctx := set_opaque priv ctx in
    (0, set_oflags (if z2b (kick_enabled priv) then BPFHV_OFLAGS_KICK_NEEDED else 0) ctx).

(** [for (i = 0; clear != cons && i < BPFHV_MAX_RX_BUFS;)] with its break at
    EOP; [n] bounds the iterations left.  The last component is [rxd]. *)
Fixpoint rxc_loop (n : nat) (cons i clear : Z) (rxd : sring_gso_rx_desc) (ctx : gso_rx_ctx)
    : Z * Z * sring_gso_rx_desc * gso_rx_ctx :=
  match n with
  | O => (i, clear, rxd, ctx)
  | S n' =>
      if negb (clear =? cons) && (i <? BPFHV_MAX_RX_BUFS) then
        let rxd := get_desc clear (opaque ctx) in
        let rxb := mk_buf (cookie rxd) (paddr rxd) (buf_vaddr (get_buf i ctx)) (len rxd) in
        let ctx := put_buf i rxb ctx in
        if has_flag (flags rxd) SRING_DESC_F_EOP then (i + 1, u32 (clear + 1), rxd, ctx)
        else rxc_loop n' cons (i + 1) (u32 (clear + 1)) rxd ctx
      else (i, clear, rxd, ctx)
  end.

(** The header passed to the helper [pkt_virtio_net_md_set]. *)
Definition rxc_hdr (rxd : sring_gso_rx_desc) : virtio_net_hdr :=
  mk_hdr (if has_flag (flags rxd) SRING_DESC_F_NEEDS_CSUM then VIRTIO_NET_HDR_F_NEEDS_CSUM else 0)
    (u8 (gso_type rxd)) (hdr_len rxd) (gso_size rxd) (csum_start rxd) (csum_offset rxd).

Definition sring_gso_rxc (h : bpf_helpers sring_gso_rx_context)
    (md_set : virtio_net_hdr -> gso_rx_ctx -> gso_rx_ctx) (ctx : gso_rx_ctx) : Z * gso_rx_ctx :=
  let priv := opaque ctx in
  let clear := clear priv in
  let cons := cons priv in
  if clear =? cons then (0, ctx)
  else
    let '(i, clear, rxd, ctx) :=
      rxc_loop (Z.to_nat BPFHV_MAX_RX_BUFS + 1) cons 0 clear desc_zero ctx in
    let ctx := set_opaque (set_clear clear (opaque ctx)) ctx in
    let ctx := set_num_bufs i ctx in
    let '(ret, ctx) := rx_pkt_alloc h ctx in
    if ret <? 0 then (ret, ctx)
    else (1, set_oflags 0 (md_set (rxc_hdr rxd) ctx)).

(** [for (; clear != prod && i < BPFHV_MAX_RX_BUFS; i++)]; [n] bounds the
    iterations left. *)
Fixpoint rxr_loop (n : nat) (prod i clear : Z) (ctx : gso_rx_ctx) : Z * Z * gso_rx_ctx :=
  match n with
  | O => (i, clear, ctx)
  | S n' =>
      if negb (clear =? prod) && (i <? BPFHV_MAX_RX_BUFS) then
        let rxd := get_desc clear (opaque ctx) in
        let rxb := mk_buf (cookie rxd) (paddr rxd) (buf_vaddr (get_buf i ctx)) (len rxd) in
        rxr_loop n' prod (i + 1) (u32 (clear + 1)) (put_buf i rxb ctx)
      else (i, clear, ctx)
  end.

Definition sring_gso_rxr (ctx : gso_rx_ctx) : Z * gso_rx_ctx :=
  let priv := opaque ctx in
  let cons := cons priv in
  let clear0 := clear priv in
  let prod := prod priv in
  if clear0 =? prod then (0, ctx)
  else
    let '(i, clear, ctx) := rxr_loop (Z.to_nat BPFHV_MAX_RX_BUFS + 1) prod 0 clear0 ctx in
    let priv := if clear_met_cons clear cons clear0 then set_cons clear priv else priv in
    let priv := set_clear clear priv in
    (1, set_oflags 0 (set_num_bufs i (set_opaque priv ctx))).

Definition sring_gso_rxi : (sring_gso_rx_context -> sring_gso_rx_context) -> gso_rx_ctx -> Z * gso_rx_ctx :=
  ring_rxi.

(** ** Hypervisor *)

(** The loop that writes the lengths back,
    [for (cons = cons_first; pktsize > 0; cons++)]; [None] when [n] turns are
    not enough. *)
Fixpoint writeback (n : nat) (cons pktsize : Z) (priv : sring_gso_rx_context)
    : option (Z * sring_gso_rx_context) :=
  if pktsize <=? 0 then Some (cons, priv)
  else
    match n with
    | O => None
    | S n' =>
        let rxd := get_desc cons priv in
        if len rxd =? 0 then writeback n' (u32 (cons + 1)) pktsize priv
        else
          let l := if len rxd <=? pktsize then len rxd else u16 pktsize in
          writeback n' (u32 (cons + 1)) (pktsize - l) (put_desc cons (set_len_flags l 0 rxd) priv)
    end.

(** The writes to the last descriptor of the packet. *)
Definition complete_last (vnet_hdr_len : Z) (hdr : virtio_net_hdr_v1) (rxd : sring_gso_rx_desc)
    : sring_gso_rx_desc :=
  if z2b vnet_hdr_len then
    mk_desc (cookie rxd) (paddr rxd) (len rxd)
      (if has_flag (vh_flags hdr) VIRTIO_NET_HDR_F_NEEDS_CSUM
       then Z.lor SRING_DESC_F_EOP SRING_DESC_F_NEEDS_CSUM else SRING_DESC_F_EOP)
      (vh_csum_start hdr) (vh_csum_offset hdr) (vh_gso_size hdr) (vh_hdr_len hdr) (vh_gso_type hdr)
      (reserved rxd)
  else set_len_flags (len rxd) SRING_DESC_F_EOP rxd.

Section push.
Context {W : Type} `{!NetBackend W} (vnet_hdr_len max_pkt_size : Z).

(** The variables of the loops of [sring_gso_rxq_push]; [p_iov] holds the
    entries of the array [iov] after the one of the header. *)
Record push_state := mk_push {
  p_view : view (D:=sring_gso_rx_desc);
  p_cons : Z;
  p_cons_first : Z;
  p_iov : list iovec;
  p_iovsize : Z;
  p_count : Z;
  p_bufs : Z;
  p_can_receive : option Z;
  p_map : mem_map;
  p_w : W;
}.

Definition p_priv (s : push_state) : sring_gso_rx_context := v_priv (p_view s).

Definition iovcnt (iov : list iovec) : Z := (if z2b vnet_hdr_len then 1 else 0) + Z.of_nat (length iov).

(** One turn of the inner loop, [inl] when it has to go on and [inr] when
    enough buffers have been collected; [None] is [goto out]. *)
Definition collect_one (v : view) (s : push_state) : push_state + push_state :=
  let rxd := get_desc (p_cons s) (v_priv v) in
  let '(base, map) := translate_addr (p_map s) (paddr rxd) (len rxd) in
  let s :=
    if base =? NULL then
      mk_push (on_priv (put_desc (p_cons s) (set_len_flags 0 0 rxd)) v) (u32 (p_cons s + 1))
        (p_cons_first s) (p_iov s) (p_iovsize s) (p_count s) (p_bufs s) (p_can_receive s) map (p_w s)
    else
      mk_push v (u32 (p_cons s + 1)) (p_cons_first s) (p_iov s ++ [mk_iov base (len rxd)])
        (u64 (p_iovsize s + len rxd)) (p_count s) (p_bufs s) (p_can_receive s) map (p_w s) in
  if (p_iovsize s <? max_pkt_size) && (iovcnt (p_iov s) <? BPFHV_MAX_RX_BUFS) then inl s else inr s.

(** The rest of the outer loop, once enough buffers have been collected.
    [None]: the write-back goes around the whole ring. *)
Definition receive_one (s : push_state) : option (step push_state) :=
  if BPFHV_BE_RX_BUDGET <=? p_count s then Some (Break s)
  else
    let '(res, w) := be_recv vnet_hdr_len (p_w s) (p_iov s) in
    let pktsize := s32 (io_ret res) in
    if pktsize <=? 0 then
      Some (Break (mk_push (p_view s) (p_cons_first s) (p_cons_first s) (p_iov s) (p_iovsize s)
                     (p_count s) (p_bufs s) (p_can_receive s) (p_map s) w))
    else
      let pktsize := pktsize - vnet_hdr_len in
      match writeback (length (desc (p_priv s))) (p_cons_first s) pktsize (p_priv s) with
      | None => None
      | Some (cons, priv) =>
          let last := if 0 <? pktsize then u32 (cons - 1) else u32 (p_cons s - 1) in
          let priv := put_desc last (complete_last vnet_hdr_len (io_hdr res) (get_desc last priv)) priv in
          Some (Continue (mk_push (on_priv (fun _ => priv) (p_view s)) cons cons [] 0 (p_count s + 1)
                            (p_bufs s + u32 (cons - p_cons_first s)) (p_can_receive s) (p_map s) w))
      end.

(** A turn of the two loops: one buffer is collected and, when there are
    enough, a packet is received. *)
Definition push_iter (s : push_state) : option (step push_state) :=
  let '(more, v) := rx_poll (is_null (p_can_receive s)) (p_cons s) (p_view s) in
  if negb more then
    Some (Break (mk_push v (p_cons_first s) (p_cons_first s) (p_iov s) (p_iovsize s) (p_count s)
                   (p_bufs s) (if is_null (p_can_receive s) then None else Some 0) (p_map s) (p_w s)))
  else
    match collect_one v s with
    | inl s => Some (Continue s)
    | inr s => receive_one s
    end.

Record push_result := mk_push_result {
  r_count : Z;
  r_priv : sring_gso_rx_context;
  r_rxq : queue_io;
  r_can_receive : option Z;
  r_map : mem_map;
  r_w : W;
}.

(** The code after [out]. *)
Definition push_finish (rxq : queue_io) (s : push_state) : push_result :=
  let rxq := upd_stats (stats_add_bufs (p_bufs s)) rxq in
  if 0 <? p_count s then
    let priv := set_cons (p_cons s) (p_priv s) in
    let rxq := upd_stats (stats_batch (p_count s)) (set_notify (s32 (intr priv)) rxq) in
    mk_push_result (p_count s) priv rxq (p_can_receive s) (p_map s) (p_w s)
  else mk_push_result (p_count s) (p_priv s) rxq (p_can_receive s) (p_map s) (p_w s).

Definition push_start (map : mem_map) (priv : sring_gso_rx_context) (can_receive : option Z) (w : W)
    (env : list (sring_gso_rx_context -> sring_gso_rx_context)) : push_state :=
  let prod := prod priv in
  let cons := cons priv in
  let priv := if z2b (kick_enabled priv) then sring_gso_rxq_notification priv 0 else priv in
  mk_push (mk_view priv prod env) cons cons [] 0 0 0 can_receive map w.

Definition sring_gso_rxq_push (fuel : nat) (map : mem_map) (rxq : queue_io)
    (priv : sring_gso_rx_context) (can_receive : option Z) (w : W)
    (env : list (sring_gso_rx_context -> sring_gso_rx_context)) : option push_result :=
  s ← run_opt push_iter fuel (push_start map priv can_receive w env);
  Some (push_finish (set_notify 0 rxq) s).

End push.

(** ** The write-back of a packet *)

Definition eop (d : sring_gso_rx_desc) : bool := has_flag (flags d) SRING_DESC_F_EOP.

(** What identifies a buffer; the hypervisor never changes it. *)
Definition ids (d : sring_gso_rx_desc) : Z * Z := (cookie d, paddr d).

Definition total (ds : list sring_gso_rx_desc) : Z := foldr (fun d a => len d + a) 0 ds.

(** Lengths are 16 bits wide. *)
Definition typed (r : sring_gso_rx_context) : Prop := Forall (fun d => is_u16 (len d)) (desc r).

Lemma total_app l1 l2 : total (l1 ++ l2) = total l1 + total l2.
Proof. induction l1 as [|d l1 IH]; simpl; [done|]. rewrite IH. lia. Qed.

Lemma typed_get r i : ring_ok r -> typed r -> is_u16 (len (get_desc i r)).
Proof.
  intros Hok HT. unfold typed in HT. rewrite Forall_lookup in HT.
  apply (HT (slot (qmask r) i)). unfold get_desc, ring_get.
  apply list_lookup_lookup_total_lt. by apply get_desc_in_bounds.
Qed.

Lemma typed_put r i d : typed r -> is_u16 (len d) -> typed (put_desc i d r).
Proof. intros. by apply Forall_insert. Qed.

(** [r'] differs from [r] in the descriptors only. *)
Definition same_control (r r' : sring_gso_rx_context) : Prop :=
  prod r' = prod r /\ cons r' = cons r /\ clear r' = clear r /\ qmask r' = qmask r /\
  intr r' = intr r /\ kick_enabled r' = kick_enabled r.

(** What a write-back of [size] bytes over the [k] pending descriptors after
    the first [f] does. *)
Definition wrote (f k : nat) (size : Z) (r r' : sring_gso_rx_context) : Prop :=
  ring_ok r' /\ typed r' /\ same_control r r' /\ completed r' = completed r /\
  ids <$> pending r' = ids <$> pending r /\
  take f (pending r') = take f (pending r) /\ drop (f + k) (pending r') = drop (f + k) (pending r) /\
  total (take k (drop f (pending r'))) = size.

Lemma wrote_trans f k size l r r1 r2 d :
  wrote f 1 l r r1 -> pending r1 !! f = Some d -> wrote (S f) k size r1 r2 ->
  wrote f (S k) (l + size) r r2.
Proof.
  intros (_ & _ & (?&?&?&?&?&?) & Ec & Ei & Et & Ed & El) Hf
    (Hok & HT & (?&?&?&?&?&?) & Ec' & Ei' & Et' & Ed' & El').
  assert (Hf2 : pending r2 !! f = Some d).
  { rewrite <- (lookup_take_lt (pending r2) (S f)) by lia. rewrite Et'. by rewrite lookup_take_lt by lia. }
  split_and!; try done; try congruence; [split_and!; congruence|..].
  - assert (A : forall l : list sring_gso_rx_desc, take f l = take f (take (S f) l))
      by (intros ?; rewrite take_take; f_equal; lia).
    by rewrite (A (pending r2)), Et', <- A.
  - replace (f + S k)%nat with (S f + k)%nat by lia. rewrite Ed'.
    replace (S f + k)%nat with ((f + 1) + k)%nat by lia. by rewrite <- !(drop_drop _ k (f + 1)), Ed.
  - rewrite (drop_S _ _ _ Hf2). simpl. rewrite El'.
    rewrite (drop_S _ _ _ Hf) in El. simpl in El. lia.
Qed.

(** Rewriting one pending descriptor, or none. *)
Lemma wrote_one r f d d' :
  ring_ok r -> typed r -> pending r !! f = Some d -> is_u16 (len d') -> ids d' = ids d ->
  wrote f 1 (len d') r (put_desc (u32 (cons r + Z.of_nat f)) d' r) /\
  pending (put_desc (u32 (cons r + Z.of_nat f)) d' r) = <[f := d']> (pending r).
Proof.
  intros Hok HT Hd Hl Hids. pose proof (lookup_lt_Some _ _ _ Hd) as Hlt.
  pose proof (length_pending r) as Hlen.
  destruct (rewrite_refines d' r (Z.of_nat f) Hok ltac:(lia)) as (Hok' & Ep & Ec).
  rewrite Nat2Z.id in Ep.
  assert (Hlk : pending (put_desc (u32 (cons r + Z.of_nat f)) d' r) !! f = Some d')
    by (rewrite Ep; by apply list_lookup_insert_eq).
  split; [|done]. split_and!; try done.
  - by apply typed_put.
  - rewrite Ep, list_fmap_insert, Hids. apply list_insert_id. by rewrite list_lookup_fmap, Hd.
  - by rewrite Ep, take_insert_ge.
  - rewrite Ep, drop_insert_lt by lia. done.
  - rewrite (drop_S _ _ _ Hlk). simpl. lia.
Qed.

Lemma wrote_none r f d : ring_ok r -> typed r -> pending r !! f = Some d -> wrote f 1 (len d) r r.
Proof. intros Hok HT Hd. split_and!; try done. rewrite (drop_S _ _ _ Hd). simpl. lia. Qed.

(** Appending one descriptor to a range. *)
Lemma wrote_total r r' f n l :
  wrote n 1 l r r' -> (f <= n < length (pending r'))%nat ->
  take f (pending r') = take f (pending r) /\
  total (take (S n - f) (drop f (pending r'))) = total (take (n - f) (drop f (pending r))) + l.
Proof.
  intros (_ & _ & _ & _ & _ & Et & _ & El) Hn. split.
  - rewrite <- (Nat.min_l f n), <- !take_take, Et by lia. done.
  - destruct (lookup_lt_is_Some_2 (pending r') n ltac:(lia)) as [d Hd].
    rewrite (drop_S _ _ _ Hd) in El. simpl in El. rewrite !take_drop_commute.
    replace (f + (S n - f))%nat with (S n) by lia. replace (f + (n - f))%nat with n by lia.
    rewrite (take_S_r _ _ _ Hd), Et, drop_app_le, total_app by (rewrite <- ?Et, length_take; lia). simpl. lia.
Qed.

(** The loop writes the size of the packet over the first descriptors that
    can hold it, and advances over exactly those. *)
Lemma writeback_spec m fuel c size r f :
  ring_ok r -> typed r -> is_u32 c -> dist (cons r) c = Z.of_nat f ->
  Z.of_nat (f + m) <= dist (cons r) (prod r) -> (m <= fuel)%nat ->
  0 < size <= total (take m (drop f (pending r))) ->
  exists k r', writeback fuel c size r = Some (u32 (c + Z.of_nat k), r') /\ (1 <= k <= m)%nat /\
    wrote f k size r r'.
Proof.
  revert fuel c size r f. induction m as [|m IH]; intros fuel c size r f Hok HT Hu Hf Hm Hfuel Hs.
  { simpl in Hs. lia. }
  destruct fuel as [|fuel]; [lia|].
  pose proof (pending_lookup r (Z.of_nat f) Hok ltac:(lia)) as Hlk.
  rewrite Nat2Z.id, <- Hf, add_dist in Hlk by done.
  pose proof (typed_get r c Hok HT) as Hlen. set (d := get_desc c r) in *.
  rewrite (drop_S _ _ _ Hlk) in Hs. simpl in Hs.
  assert (Hadd : dist (cons r) (u32 (c + 1)) = Z.of_nat (S f)).
  { rewrite dist_add_r; [lia|lia|]. pose proof (dist_range (cons r) (prod r)). lia. }
  assert (Hc : u32 (cons r + Z.of_nat f) = c) by (rewrite <- Hf; by apply add_dist).
  simpl. rewrite (proj2 (Z.leb_gt size 0)) by lia. fold d.
  (* the descriptor after the first one *)
  assert (Hrec : forall r1 l, wrote f 1 l r r1 -> (exists d1, pending r1 !! f = Some d1) ->
     0 < size - l <= total (take m (drop (S f) (pending r1))) ->
     exists k r', writeback fuel (u32 (c + 1)) (size - l) r1 = Some (u32 (c + Z.of_nat k), r') /\
       (1 <= k <= S m)%nat /\ wrote f k size r r').
  { intros r1 l Hw [d1 Hd1] Hsz. pose proof Hw as (Hok1 & HT1 & (Ep & Ec & _) & _).
    destruct (IH fuel (u32 (c + 1)) (size - l) r1 (S f)) as (k & r' & Hrun & Hk & Hw');
      [done|done|apply u32_range|by rewrite Ec|rewrite Ec, Ep; lia|lia|done|].
    exists (S k), r'. split; [|split; [lia|]].
    - rewrite Hrun, u32_add_l. do 3 f_equal. lia.
    - replace size with (l + (size - l)) by lia. by eapply wrote_trans. }
  destruct (len d =? 0) eqn:El; zify_bool.
  - destruct (Hrec r 0) as (k & r' & Hrun & Hk & Hw); [|by exists d|lia|].
    { rewrite <- El. by apply wrote_none. }
    exists k, r'. by rewrite Z.sub_0_r in Hrun.
  - set (l := if len d <=? size then len d else u16 size).
    assert (Hl : is_u16 l /\ 0 < l /\ l = Z.min (len d) size).
    { unfold l, is_u16 in *. destruct (len d <=? size) eqn:E2; zify_bool; [lia|].
      rewrite u16_id by (unfold is_u16; lia). lia. }
    destruct (wrote_one r f d (set_len_flags l 0 d) Hok HT Hlk (proj1 Hl) eq_refl) as [Hw _].
    rewrite Hc in Hw. set (r1 := put_desc c _ r) in *. simpl in Hw.
    assert (Hd1 : exists d1, pending r1 !! f = Some d1).
    { apply lookup_lt_is_Some_2. destruct Hw as (_ & _ & _ & _ & Ei & _).
      apply (f_equal length) in Ei. rewrite !length_fmap in Ei. rewrite Ei. by eapply lookup_lt_Some. }
    destruct (decide (size - l <= 0)) as [Hdone|Hmore].
    + exists 1%nat, r1. split; [|split; [lia|]].
      * destruct fuel; simpl; by rewrite (proj2 (Z.leb_le _ _) Hdone).
      * by replace size with l by lia.
    + destruct (Hrec r1 l) as (k & r' & Hrun & Hk & Hw'); [done|done| |by exists k, r'].
      destruct Hw as (_ & _ & _ & _ & _ & _ & Ed & _). rewrite Nat.add_1_r in Ed. rewrite Ed. lia.
Qed.

(** ** The push routine *)

(** The descriptors handed back for a sequence of packets of the given sizes:
    each packet ends with EOP, and its lengths add up to its size. *)
Inductive delivered : list sring_gso_rx_desc -> list Z -> Prop :=
| delivered_nil : delivered [] []
| delivered_snoc out sizes ds d :
    delivered out sizes -> eop d = true -> 0 < total (ds ++ [d]) ->
    delivered (out ++ ds ++ [d]) (sizes ++ [total (ds ++ [d])]).

Section push_proof.
Context {W : Type} `{!NetBackend W, !NetBackendOk W} (vnet_hdr_len max_pkt_size : Z).
Hypothesis vnet_hdr_len_ok : hdr_bytes vnet_hdr_len = vnet_hdr_len.

Section loop.
Context (r0 : sring_gso_rx_context).

(** The ring has evolved from [r0] by guest actions and by writes of the
    hypervisor to the lengths, flags and metadata of pending descriptors. *)
Definition touched (r : sring_gso_rx_context) : Prop :=
  ring_ok r /\ cons r = cons r0 /\ qmask r = qmask r0 /\
  (exists gone, completed r0 = gone ++ completed r) /\
  (exists new, ids <$> pending r = (ids <$> pending r0) ++ new).

Definition pos (c : Z) : nat := Z.to_nat (dist (cons r0) c).

Definition push_ok (s : push_state (W:=W)) : Prop :=
  view_ok (p_view s) /\ keeps typed (p_view s) /\ touched (p_priv s) /\
  is_u32 (p_cons_first s) /\ is_u32 (p_cons s) /\
  dist (cons r0) (p_cons_first s) <= dist (cons r0) (p_cons s) <= dist (cons r0) (prod (p_priv s)) /\
  0 <= p_count s <= BPFHV_BE_RX_BUDGET /\
  exists sizes, delivered (take (pos (p_cons_first s)) (pending (p_priv s))) sizes /\
    Z.of_nat (length sizes) = p_count s.

(** The buffers collected so far for the next packet. *)
Definition collected (s : push_state (W:=W)) : Prop :=
  p_iovsize s = total (take (pos (p_cons s) - pos (p_cons_first s)) (drop (pos (p_cons_first s)) (pending (p_priv s)))) /\
  iov_total (p_iov s) = p_iovsize s /\ Forall (fun v => 0 <= iov_len v) (p_iov s) /\
  0 <= p_iovsize s <= 65535 * Z.of_nat (length (p_iov s)) /\
  iovcnt vnet_hdr_len (p_iov s) <= BPFHV_MAX_RX_BUFS.

Definition push_inv (s : push_state (W:=W)) : Prop :=
  push_ok s /\ collected s /\ iovcnt vnet_hdr_len (p_iov s) < BPFHV_MAX_RX_BUFS.

(** The packets received and the descriptors consumed when the loops end: the
    latter are those of the packets, unless the budget is spent. *)
Definition push_post (s : push_state (W:=W)) : Prop :=
  push_ok s /\ (p_count s < BPFHV_BE_RX_BUDGET -> p_cons s = p_cons_first s).

Definition push_measure (s : push_state (W:=W)) : Z :=
  (qmask r0 + 2) * view_measure (p_cons_first s) (p_view s) + view_measure (p_cons s) (p_view s).

Lemma touched_wrote r r' n k l : touched r -> wrote n k l r r' -> touched r'.
Proof.
  intros (_ & Ec & Eq & Hg & Hi) (Hok & _ & (_ & Ec' & _ & Eq' & _) & Ecomp & Ei & _).
  split_and!; [done|congruence|congruence|by rewrite Ecomp|by rewrite Ei].
Qed.

Lemma touched_evolved r r' : touched r -> evolved r r' -> touched r'.
Proof.
  intros (_ & Ec & Eq & (gone & Eg) & (new & Ei)) (Hok & Ec' & Eq' & (new' & Ep) & (gone' & Eg')).
  split_and!; [done|congruence|congruence| |].
  - exists (gone ++ gone'). by rewrite Eg, Eg', app_assoc.
  - rewrite Ep, fmap_app, Ei. exists (new ++ (ids <$> new')). by rewrite app_assoc.
Qed.

Lemma gso_push_inv_evolved s v :
  push_inv s -> view_ok v -> evolved (p_priv s) (v_priv v) -> keeps typed v ->
  push_inv (mk_push v (p_cons s) (p_cons_first s) (p_iov s) (p_iovsize s) (p_count s) (p_bufs s)
              (p_can_receive s) (p_map s) (p_w s)).
Proof.
  intros ((Hv & _ & Ht & Hfu & Hcu & Hd & Hc & sizes & Hdel & Hsz) & (Hio & Htot & Hnn & Hb & Hcnt) & Hlt) Hv' He HT.
  pose proof (touched_evolved _ _ Ht He) as Ht'. pose proof He as (_ & _ & _ & (new & Ep) & _).
  pose proof Ht as (_ & Ec & _). pose proof Ht' as (_ & Ec' & _).
  pose proof (length_pending (p_priv s)) as Hl. rewrite Ec in Hl.
  pose proof (length_pending (v_priv v)) as Hl'. rewrite Ec', Ep, length_app in Hl'.
  pose proof (dist_range (cons r0) (p_cons_first s)) as Hr.
  assert (Hpos : (pos (p_cons_first s) <= pos (p_cons s) <= length (pending (p_priv s)))%nat) by (unfold pos; lia).
  unfold push_inv, push_ok, collected, p_priv in *; simpl.
  rewrite Ep, take_app_le, drop_app_le, take_app_le by (rewrite ?length_drop; lia).
  split_and!; try done; try lia. by exists sizes.
Qed.

Lemma pos_lt s :
  push_ok s -> p_cons s <> prod (p_priv s) ->
  pending (p_priv s) !! pos (p_cons s) = Some (get_desc (p_cons s) (p_priv s)) /\
  (pos (p_cons_first s) <= pos (p_cons s) < length (pending (p_priv s)))%nat /\
  pos (u32 (p_cons s + 1)) = S (pos (p_cons s)) /\
  dist (cons r0) (u32 (p_cons s + 1)) = dist (cons r0) (p_cons s) + 1 /\
  dist (u32 (p_cons s + 1)) (prod (p_priv s)) < dist (p_cons s) (prod (p_priv s)) /\
  u32 (cons r0 + Z.of_nat (pos (p_cons s))) = p_cons s.
Proof.
  intros (Hv & _ & (Hok & Ec & _) & Hfu & Hcu & Hd & _) Hne.
  assert (Hd' : dist (cons (p_priv s)) (p_cons s) <= dist (cons (p_priv s)) (prod (p_priv s))) by (rewrite Ec; lia).
  destruct (next_pending _ _ Hok Hcu Hd' Hne) as (Hlk & Hlt & Hm & Hadv). rewrite Ec in Hlk, Hlt, Hadv.
  pose proof (length_pending (p_priv s)) as Hl. rewrite Ec in Hl.
  pose proof (dist_range (cons r0) (p_cons_first s)). pose proof (dist_range (cons r0) (p_cons s)).
  unfold pos. rewrite Hadv. split_and!; try done; try lia. rewrite Z2Nat.id by lia. by apply add_dist.
Qed.

(** Collecting a buffer. *)
Lemma collect_step s r' l iov map :
  let s' := mk_push (on_priv (fun _ => r') (p_view s)) (u32 (p_cons s + 1)) (p_cons_first s) iov
              (u64 (p_iovsize s + l)) (p_count s) (p_bufs s) (p_can_receive s) map (p_w s) in
  push_inv s -> p_cons s <> prod (p_priv s) -> wrote (pos (p_cons s)) 1 l (p_priv s) r' -> is_u16 l ->
  (iov = p_iov s /\ l = 0 \/ exists base, iov = p_iov s ++ [mk_iov base l]) ->
  push_ok s' /\ collected s' /\ p_cons s' <> p_cons_first s'.
Proof.
  intros s' (Hs & (Hio & Htot & Hnn & Hb & Hcnt) & Hlt) Hne Hw Hl Hiov.
  destruct (pos_lt s Hs Hne) as (Hlk & Hpos & Hnext & Hadv & _).
  destruct Hs as (Hv & [HTy HTg] & Ht & Hfu & Hcu & Hd & Hc & sizes & Hdel & Hsz).
  pose proof (touched_wrote _ _ _ _ _ Ht Hw) as Ht'. pose proof Hw as (Hok' & HT' & (Ep & _) & _ & Ei & _).
  apply (f_equal length) in Ei. rewrite !length_fmap in Ei.
  destruct (wrote_total _ _ (pos (p_cons_first s)) _ _ Hw ltac:(lia)) as [Etake Etot].
  destruct Hv as (_ & HF & Hp).
  assert (Hlen : (length (p_iov s) <= length iov <= length (p_iov s) + 1)%nat /\
     iov_total iov = p_iovsize s + l /\ p_iovsize s + l <= 65535 * Z.of_nat (length iov)).
  { destruct Hiov as [[-> ->]|[base ->]]; [lia|]. rewrite length_app, iov_total_snoc. unfold is_u16 in Hl. simpl. lia. }
  assert (Hnn' : Forall (fun v => 0 <= iov_len v) iov).
  { unfold is_u16 in Hl. destruct Hiov as [[-> ->]|[base ->]]; [done|].
    apply Forall_app. split; [done|]. constructor; [simpl; lia|constructor]. }
  assert (Hsmall : is_u64 (p_iovsize s + l)).
  { unfold is_u64, is_u16, iovcnt, BPFHV_MAX_RX_BUFS in *. destruct (z2b vnet_hdr_len); lia. }
  unfold push_ok, collected, view_ok, keeps, p_priv, s'; simpl. rewrite (u64_id _ Hsmall), Ep, Hnext.
  unfold is_u16 in Hl. pose proof (dist_range (cons r0) (prod (v_priv (p_view s)))).
  split; [|split].
  - split_and!; try done; try apply u32_range; try lia.
    + pose proof (length_pending (p_priv s)) as Hlp. destruct Ht as (_ & Ec & _). rewrite Ec in Hlp.
      unfold pos in Hpos. lia.
    + exists sizes. rewrite Etake. done.
  - unfold iovcnt in *. split_and!; try done; lia.
  - intros E. rewrite E in Hadv. lia.
Qed.

Lemma collect_one_spec s :
  push_inv s -> p_cons s <> prod (p_priv s) ->
  match collect_one vnet_hdr_len max_pkt_size (p_view s) s with
  | inl s' => push_inv s' /\ push_measure s' < push_measure s
  | inr s' => push_ok s' /\ collected s' /\ p_cons s' <> p_cons_first s' /\ push_measure s' < push_measure s
  end.
Proof.
  intros Hs Hne. pose proof Hs as (Hok & _). destruct (pos_lt s Hok Hne) as (Hlk & _ & _ & _ & Hm & Hpos).
  pose proof Hok as (Hv & [HTy _] & Ht & _). pose proof Ht as (Hrok & Ec & _). pose proof Hv as (_ & _ & Hp).
  pose proof (typed_get _ (p_cons s) Hrok HTy) as Hlen.
  unfold collect_one. fold (p_priv s). destruct (translate_addr _ _ _) as [base map].
  set (d := get_desc (p_cons s) (p_priv s)) in *.
  assert (Hmeas : forall r' iov sz, qmask r' = qmask (p_priv s) -> push_measure
     (mk_push (on_priv (fun _ => r') (p_view s)) (u32 (p_cons s + 1)) (p_cons_first s) iov sz (p_count s)
        (p_bufs s) (p_can_receive s) map (p_w s)) < push_measure s).
  { intros r' iov sz Eq. unfold push_measure, view_measure; simpl. rewrite Hp, Eq. unfold p_priv in *. lia. }
  assert (Hgo : forall s', push_ok s' /\ collected s' /\ p_cons s' <> p_cons_first s' ->
     push_measure s' < push_measure s ->
     match (if (p_iovsize s' <? max_pkt_size) && (iovcnt vnet_hdr_len (p_iov s') <? BPFHV_MAX_RX_BUFS)
            then inl s' else inr s') with
     | inl s'0 => push_inv s'0 /\ push_measure s'0 < push_measure s
     | inr s'0 => push_ok s'0 /\ collected s'0 /\ p_cons s'0 <> p_cons_first s'0 /\ push_measure s'0 < push_measure s
     end).
  { intros s' (H1 & H2 & H3) H4. destruct (_ && _) eqn:E; [|by split_and!].
    apply andb_true_iff in E as [_ E]. zify_bool. by split. }
  destruct (base =? NULL).
  - destruct (wrote_one (p_priv s) _ d (set_len_flags 0 0 d) Hrok HTy Hlk) as [Hw _]; [unfold is_u16; simpl; lia|done|].
    rewrite Ec, Hpos in Hw. simpl in Hw.
    pose proof (collect_step s _ 0 (p_iov s) map Hs Hne Hw ltac:(unfold is_u16; lia) ltac:(by left)) as Hc.
    simpl in Hc. rewrite Z.add_0_r in Hc.
    rewrite u64_id in Hc. 2: { destruct Hs as (_ & (_ & _ & _ & Hb & Hcnt) & _). clear -Hb Hcnt.
      unfold is_u64, iovcnt, BPFHV_MAX_RX_BUFS in *. destruct (z2b vnet_hdr_len); lia. }
    apply Hgo; [exact Hc|]. by apply Hmeas.
  - pose proof (collect_step s _ (len d) (p_iov s ++ [mk_iov base (len d)]) map Hs Hne
                  (wrote_none _ _ _ Hrok HTy Hlk) Hlen ltac:(right; by exists base)) as Hc.
    pose proof (Hmeas (p_priv s) (p_iov s ++ [mk_iov base (len d)]) (u64 (p_iovsize s + len d)) eq_refl) as Hm'.
    assert (Hview : on_priv (fun _ => p_priv s) (p_view s) = p_view s)
      by (unfold p_priv, on_priv; by destruct (p_view s)).
    rewrite Hview in Hc, Hm'. by apply Hgo.
Qed.

(** The write-back and the completion of the last descriptor deliver the
    packet. *)
Lemma deliver_packet r r1 f k size hdr sizes :
  delivered (take f (pending r)) sizes -> (1 <= k)%nat -> (f + k <= length (pending r))%nat -> 0 < size ->
  wrote f k size r r1 ->
  let last := u32 (cons r + Z.of_nat (f + k - 1)) in
  let r2 := put_desc last (complete_last vnet_hdr_len hdr (get_desc last r1)) r1 in
  wrote (f + k - 1) 1 (len (get_desc last r1)) r1 r2 /\
  delivered (take (f + k) (pending r2)) (sizes ++ [size]).
Proof.
  intros Hdel Hk Hle Hsz Hw last r2.
  pose proof Hw as (Hok1 & HT1 & (Ep & Ec & _) & _ & Ei & Et & Ed & El).
  apply (f_equal length) in Ei. rewrite !length_fmap in Ei.
  pose proof (length_pending r1) as Hl1.
  pose proof (pending_lookup r1 (Z.of_nat (f + k - 1)) Hok1 ltac:(lia)) as Hlk.
  rewrite Nat2Z.id, Ec in Hlk. fold last in Hlk. set (d := get_desc last r1) in *.
  set (d' := complete_last vnet_hdr_len hdr d) in *.
  assert (Hd' : is_u16 (len d') /\ ids d' = ids d /\ len d' = len d /\ eop d' = true).
  { pose proof (typed_get r1 last Hok1 HT1). unfold d', complete_last, eop. case_if; simpl; [|done].
    split_and!; try done. by case_if. }
  destruct Hd' as (Hu & Hids & Hlen & Heop).
  destruct (wrote_one r1 (f + k - 1) d d' Hok1 HT1 Hlk Hu Hids) as [Hw2 Ep2].
  rewrite Ec in Hw2, Ep2. fold last in Hw2, Ep2. fold r2 in Hw2, Ep2. rewrite Hlen in Hw2.
  split; [done|]. rewrite Ep2.
  assert (Htk : take (f + k) (<[(f + k - 1)%nat := d']> (pending r1))
     = take f (pending r) ++ take (k - 1) (drop f (pending r1)) ++ [d']).
  { rewrite <- Et. replace (f + k)%nat with (S (f + k - 1)) at 1 by lia.
    rewrite (take_S_r _ _ d') by (apply list_lookup_insert_eq; lia).
    rewrite take_insert_ge by lia. rewrite app_assoc. f_equal.
    rewrite take_drop_commute. replace (f + (k - 1))%nat with (f + k - 1)%nat by lia.
    rewrite <- (take_drop f (take (f + k - 1) (pending r1))) at 1. f_equal. rewrite take_take. f_equal. lia. }
  assert (Htot : total (take (k - 1) (drop f (pending r1)) ++ [d']) = size).
  { rewrite <- El, total_app. simpl. rewrite Hlen.
    replace k with (S (k - 1)) at 2 by lia. rewrite (take_S_r _ _ d), total_app; [simpl; lia|].
    rewrite lookup_drop. rewrite <- Hlk. f_equal. lia. }
  rewrite Htk, <- Htot. apply delivered_snoc; [done..|lia].
Qed.

Lemma receive_one_spec s :
  push_ok s -> collected s -> p_cons s <> p_cons_first s ->
  match receive_one vnet_hdr_len s with
  | None => False
  | Some (Break s') => push_post s'
  | Some (Continue s') => push_inv s' /\ push_measure s' < push_measure s
  end.
Proof.
  intros Hs (Hio & Htot & Hnn & Hb & Hcnt) Hne. unfold receive_one.
  pose proof Hs as (Hv & HT & Ht & Hfu & Hcu & Hd & Hc & sizes & Hdel & Hsz). pose proof HT as [HTy HTg].
  destruct (BPFHV_BE_RX_BUDGET <=? p_count s) eqn:Eb; zify_bool; [split; [done|lia]|].
  pose proof (recv_bound vnet_hdr_len (p_w s) (p_iov s) Hnn) as Hbound.
  pose proof (recv_frame vnet_hdr_len (p_w s) (p_iov s)) as Hframe.
  destruct (be_recv _ _ _) as [res w]. simpl in Hbound, Hframe. rewrite vnet_hdr_len_ok, Htot in *.
  assert (Hs32 : s32 (io_ret res) = io_ret res).
  { apply s32_id. assert (vnet_hdr_len <= 12)
      by (rewrite <- vnet_hdr_len_ok; unfold hdr_bytes; case_if; vm_compute; congruence).
    unfold iovcnt, BPFHV_MAX_RX_BUFS in Hcnt. destruct (z2b vnet_hdr_len); lia. }
  rewrite Hs32. destruct (io_ret res <=? 0) eqn:Er; zify_bool.
  { split; [|done]. unfold push_ok, p_priv in *; simpl in *. split_and!; try done; try lia. by exists sizes. }
  specialize (Hframe ltac:(lia)). pose proof Ht as (Hok & Ec & Eq & _). pose proof Hv as (_ & HF & Hp).
  pose proof (dist_range (cons r0) (p_cons_first s)) as Hr1. pose proof (length_pending (p_priv s)) as Hlp.
  rewrite Ec in Hlp. pose proof (qmask_bound _ Hok) as [Hq0 Hq].
  assert (Hfit : Z.of_nat (length (pending (p_priv s))) <= Z.of_nat (length (desc (p_priv s)))).
  { rewrite <- (geometry_size (desc (p_priv s)) (qmask (p_priv s))) by apply Hok.
    destruct Hok as (_ & _ & _ & _ & Hf). unfold in_flight in Hf. rewrite Ec in Hf.
    pose proof (dist_range (clear (p_priv s)) (cons r0)). lia. }
  set (f := pos (p_cons_first s)) in *. set (n := pos (p_cons s)) in *.
  assert (Hfn : (f < n <= length (pending (p_priv s)))%nat).
  { assert (dist (cons r0) (p_cons_first s) <> dist (cons r0) (p_cons s)).
    { intros E. apply Hne. rewrite <- (add_dist (cons r0) (p_cons s)), <- E by done. by apply add_dist. }
    unfold f, n, pos. lia. }
  destruct (writeback_spec (n - f) (length (desc (p_priv s))) (p_cons_first s) (io_ret res - vnet_hdr_len)
     (p_priv s) f) as (k & r1 & -> & Hk & Hw);
    [done|done|done|rewrite Ec; unfold f, pos; lia|rewrite Ec; lia|lia|lia|].
  rewrite (proj2 (Z.ltb_lt 0 _)) by lia.
  assert (Hlast : u32 (u32 (p_cons_first s + Z.of_nat k) - 1) = u32 (cons (p_priv s) + Z.of_nat (f + k - 1))).
  { rewrite Ec, u32_sub_l. rewrite <- (add_dist (cons r0) (p_cons_first s)) at 1 by done.
    replace (dist (cons r0) (p_cons_first s)) with (Z.of_nat f) by (unfold f, pos; lia).
    rewrite <- Z.add_sub_assoc, u32_add_l. f_equal. lia. }
  rewrite Hlast.
  destruct (deliver_packet (p_priv s) r1 f k (io_ret res - vnet_hdr_len) (io_hdr res) sizes Hdel ltac:(lia)
              ltac:(lia) ltac:(lia) Hw) as [Hw2 Hdel2].
  set (r2 := put_desc _ _ r1) in *. clearbody r2.
  pose proof (touched_wrote _ _ _ _ _ (touched_wrote _ _ _ _ _ Ht Hw) Hw2) as Ht2.
  pose proof Hw as (_ & _ & (Ep1 & _ & _ & Eq1 & _) & _). pose proof Hw2 as (_ & HT2 & (Ep2 & _ & _ & Eq2 & _) & _).
  assert (Hadv : dist (cons r0) (u32 (p_cons_first s + Z.of_nat k)) = Z.of_nat (f + k)).
  { rewrite dist_add_r; [unfold f, pos; lia|lia|]. pose proof (dist_range (cons r0) (prod (p_priv s))).
    unfold f, n, pos in *. lia. }
  split.
  - assert (E : prod r2 = prod (p_priv s)) by congruence.
    unfold push_inv, push_ok, collected, view_ok, keeps, p_priv in *; simpl. rewrite E, Hadv.
    unfold pos; rewrite Hadv, Nat2Z.id, Nat.sub_diag, take_0. unfold iovcnt, BPFHV_MAX_RX_BUFS; simpl.
    split_and!; try done; try apply u32_range; try lia; try apply Ht2; try (case_if; lia).
    exists (sizes ++ [io_ret res - vnet_hdr_len]). split; [done|]. rewrite length_app. simpl. lia.
  - unfold push_measure, view_measure; simpl. rewrite Hp, Eq2, Eq1. unfold p_priv in *. rewrite Eq.
    assert (Hm1 : dist (u32 (p_cons_first s + Z.of_nat k)) (prod (v_priv (p_view s)))
       = dist (p_cons_first s) (prod (v_priv (p_view s))) - Z.of_nat k /\
       dist (u32 (p_cons_first s + Z.of_nat k)) (prod (v_priv (p_view s)))
       <= dist (p_cons s) (prod (v_priv (p_view s))) + qmask r0 + 1).
    { assert (Hb1 : dist (p_cons_first s) (prod (v_priv (p_view s))) =
         dist (cons r0) (prod (v_priv (p_view s))) - dist (cons r0) (p_cons_first s)).
      { rewrite <- (add_dist (cons r0) (p_cons_first s)) at 1 by done. apply dist_add_l. lia. }
      rewrite dist_add_l by (unfold f, n, pos in *; lia). split; [done|].
      pose proof (dist_range (p_cons s) (prod (v_priv (p_view s)))).
      destruct Hok as (_ & _ & _ & _ & Hf). unfold in_flight in Hf. rewrite Ec, Eq in Hf.
      pose proof (dist_range (clear (v_priv (p_view s))) (cons r0)). lia. }
    rewrite Eq in Hq0. nia.
Qed.

Lemma gso_push_iter_spec s :
  push_inv s ->
  0 <= push_measure s /\
  match push_iter vnet_hdr_len max_pkt_size s with
  | None => False
  | Some (Break s') => push_post s'
  | Some (Continue s') => push_inv s' /\ push_measure s' < push_measure s
  end.
Proof.
  intros Hs. pose proof Hs as ((Hv & HT & (Hok & Ec & Eq & _) & Hfu & Hcu & Hd & _) & _).
  split.
  { unfold push_measure. pose proof (view_measure_nonneg (p_cons s) _ Hok).
    pose proof (view_measure_nonneg (p_cons_first s) _ Hok). pose proof (qmask_bound _ Hok). rewrite Eq in *. nia. }
  unfold push_iter. pose proof (rx_poll_spec (is_null (p_can_receive s)) (p_cons s) _ Hv) as Hpoll.
  pose proof (rx_poll_keeps typed (is_null (p_can_receive s)) (p_cons s) _ ltac:(done) HT) as HT'.
  destruct (rx_poll _ _ _) as [more v]. pose proof Hpoll as (Hv' & He & _ & Hres). simpl in Hv', He, Hres, HT'.
  pose proof (gso_push_inv_evolved s v Hs Hv' He HT') as Hinv. pose proof Hv' as (_ & _ & Hp).
  set (s1 := mk_push v _ _ _ _ _ _ _ _ _) in *.
  pose proof Hinv as ((_ & _ & (_ & Ec' & _) & _ & _ & Hd' & Hc' & Hsz) & _).
  destruct more; simpl; last first.
  { split; [|done]. unfold push_ok, p_priv in *; simpl in *. destruct Hinv as ((? & ? & ? & _) & _).
    split_and!; try done; lia. }
  destruct Hres as [Hne _]. rewrite Hp in Hne. unfold p_priv in Hd', Ec'; simpl in Hd', Ec'.
  assert (Hmu : push_measure s1 <= push_measure s).
  { pose proof (polled_measure_any _ _ (p_cons_first s) _ _ Hv Hpoll ltac:(rewrite Ec'; lia) Hfu).
    pose proof (polled_measure_any _ _ (p_cons s) _ _ Hv Hpoll ltac:(rewrite Ec'; lia) Hcu).
    unfold push_measure; simpl. pose proof (qmask_bound _ Hok) as [? _]. rewrite Eq in *. nia. }
  change (collect_one vnet_hdr_len max_pkt_size v s) with (collect_one vnet_hdr_len max_pkt_size (p_view s1) s1).
  pose proof (collect_one_spec s1 Hinv Hne) as Hcol. destruct (collect_one _ _ _ _) as [s2|s2].
  - destruct Hcol. split; [done|lia].
  - destruct Hcol as (Hok2 & Hcol & Hne2 & Hm2). pose proof (receive_one_spec s2 Hok2 Hcol Hne2) as Hrec.
    destruct (receive_one _ _) as [[s3|s3]|]; try done. destruct Hrec. split; [done|lia].
Qed.

End loop.

(** The fuel that is always enough: a ring of turns for each descriptor. *)
Definition push_fuel (priv : sring_gso_rx_context)
    (env : list (sring_gso_rx_context -> sring_gso_rx_context)) : Z :=
  (qmask priv + 3) * poll_fuel priv env.

Lemma gso_push_loop_result fuel map priv can_receive w env :
  ring_ok priv -> typed priv -> Forall guest_rely env ->
  Forall (fun g => forall r, typed r -> typed (g r)) env -> push_fuel priv env < Z.of_nat fuel ->
  exists s, run_opt (push_iter vnet_hdr_len max_pkt_size) fuel (push_start map priv can_receive w env) = Some s /\
    push_post priv s.
Proof.
  intros Hok HT HF HTg Hfuel.
  apply (run_opt_measure _ (push_inv priv) _ (push_measure priv) (gso_push_iter_spec priv)).
  - pose proof Hok as (_ & Hp & Hc & _). pose proof (dist_range (cons priv) (prod priv)).
    assert (Ht : touched priv priv).
    { split_and!; try done; [by exists []|exists []; by rewrite app_nil_r]. }
    unfold push_inv, push_ok, collected, view_ok, keeps, push_start, p_priv, pos, iovcnt, BPFHV_MAX_RX_BUFS; simpl.
    rewrite !dist_self. simpl. destruct (z2b (kick_enabled priv)); simpl;
      (split_and!; try done; try lia; try (case_if; lia)); exists []; (split; [constructor|done]).
  - pose proof (view_measure_start priv (prod priv) env Hok eq_refl) as Hm. unfold push_fuel in Hfuel.
    pose proof (qmask_bound _ Hok). pose proof (view_measure_nonneg (cons priv) (mk_view priv (prod priv) env) Hok).
    unfold push_measure, push_start; simpl.
    assert (E : forall r1, qmask r1 = qmask priv -> view_measure (cons priv) (mk_view r1 (prod priv) env)
              = view_measure (cons priv) (mk_view priv (prod priv) env))
      by (intros r1 E; unfold view_measure; simpl; by rewrite E).
    rewrite (E (if z2b (kick_enabled priv) then sring_gso_rxq_notification priv 0 else priv)) by by case_if.
    nia.
Qed.

(** [sring_gso_rxq_push] terminates, within its arrays, and delivers
    packets: the descriptors it completes hold, for each packet received in
    turn, lengths that add up to the size of the packet after its virtio-net
    header, the last descriptor of each packet being marked EOP; it returns
    the number of packets.  Whatever it does, the ring stays well formed and
    no buffer is lost, duplicated or reordered: the buffers in flight are
    those that were, followed by those the guest published meanwhile. *)
Theorem sring_gso_rxq_push_delivers fuel map rxq priv can_receive w env :
  ring_ok priv -> typed priv -> Forall guest_rely env ->
  Forall (fun g => forall r, typed r -> typed (g r)) env -> push_fuel priv env < Z.of_nat fuel ->
  exists res sizes out extra gone rest new,
    sring_gso_rxq_push vnet_hdr_len max_pkt_size fuel map rxq priv can_receive w env = Some res /\
    ring_ok (r_priv res) /\ r_count res = Z.of_nat (length sizes) /\ delivered out sizes /\
    completed priv = gone ++ rest /\
    completed (r_priv res) = rest ++ out ++ extra /\
    (r_count res < BPFHV_BE_RX_BUDGET -> extra = []) /\
    ids <$> (completed (r_priv res) ++ pending (r_priv res))
      = (ids <$> rest) ++ (ids <$> pending priv) ++ new.
Proof.
  intros Hok HT HF HTg Hfuel.
  destruct (gso_push_loop_result fuel map priv can_receive w env Hok HT HF HTg Hfuel)
    as (s & Hrun & (_ & _ & (Hok' & Ec & _ & (gone & Eg) & (new & Ei)) & Hfu & Hcu & Hd & Hc & sizes & Hdel & Hsz) & Hbud).
  unfold sring_gso_rxq_push. rewrite Hrun. simpl. unfold push_finish.
  assert (Hd' : dist (cons (p_priv s)) (p_cons s) <= dist (cons (p_priv s)) (prod (p_priv s))) by (rewrite Ec; lia).
  destruct (consume_take (p_cons s) (p_priv s) Hok' Hcu Hd') as (Hok2 & Habs). rewrite Ec in Habs.
  injection Habs as Epend Ecomp. fold (pos priv (p_cons s)) in Epend, Ecomp.
  destruct (0 <? p_count s) eqn:E0; zify_bool.
  - eexists _, sizes, (take (pos priv (p_cons_first s)) (pending (p_priv s))),
      (drop (pos priv (p_cons_first s)) (take (pos priv (p_cons s)) (pending (p_priv s)))), gone,
      (completed (p_priv s)), new.
    split; [done|]. simpl.
    assert (Hpos : (pos priv (p_cons_first s) <= pos priv (p_cons s))%nat)
      by (unfold pos; pose proof (dist_range (cons priv) (p_cons_first s)); lia).
    split_and!; try done.
    + rewrite Ecomp. f_equal. rewrite <- (take_drop (pos priv (p_cons_first s)) (take _ _)) at 1.
      f_equal. rewrite take_take. f_equal. lia.
    + intros Hlt. rewrite (Hbud Hlt). apply drop_ge. rewrite length_take. lia.
    + rewrite Epend, Ecomp, <- app_assoc, take_drop, fmap_app, Ei. done.
  - destruct sizes as [|z sizes]; [|simpl in Hsz; lia].
    eexists _, [], [], [], gone, (completed (p_priv s)), new. split; [done|]. simpl.
    split_and!; try done; try constructor; [by rewrite app_nil_r|by rewrite fmap_app, Ei].
Qed.

End push_proof.

(** A backend with a packet of 60 bytes whenever there is room for it. *)
#[export] Instance steady : NetBackend unit := {|
  be_send (hdr : option virtio_net_hdr_v1) (w : unit) (iov : list iovec) := (mk_io 0 0 vhdr_zero, w);
  be_recv (vh : Z) (w : unit) (iov : list iovec) :=
    (mk_io (if 60 <=? iov_total iov then hdr_bytes vh + 60 else 0) 0 vhdr_zero, w);
|}.

#[export] Instance steady_ok : NetBackendOk unit.
Proof.
  assert (Hh : forall vh, 0 <= hdr_bytes vh) by (intros vh; unfold hdr_bytes; case_if; vm_compute; congruence).
  constructor; intros vh w iov; simpl; specialize (Hh vh).
  - intros HF. assert (0 <= iov_total iov).
    { unfold iov_total. induction HF; simpl; lia. }
    case_if; zify_bool; lia.
  - case_if; zify_bool; lia.
Qed.

(** A ring of 256 entries with 200 buffers of 128 bytes published. *)
Definition rx256 : sring_gso_rx_context :=
  mk_ring 200 1 0 1 255 0 (repeat (mk_desc 7 0x2000 128 0 0 0 0 0 0 0) 256).

(** When the budget of packets is spent, [sring_gso_rxq_push] has already
    collected the buffers for the next packet and does not go back over them:
    here it receives 128 packets of one buffer each but completes 129
    descriptors, the last of which holds no packet, is not marked EOP and
    will be taken by the guest for the first part of the next packet. *)
Theorem sring_gso_rxq_push_budget_leak :
  ring_ok rx256 /\
  exists res,
    sring_gso_rxq_push 0 128 1000 example_map (mk_qio 0 stats_zero) rx256 None tt [] = Some res /\
    r_count res = 128 /\ length (completed (r_priv res)) = 129%nat /\
    (eop <$> completed (r_priv res)) = repeat true 128 ++ [false] /\
    List.last (completed (r_priv res)) desc_zero = mk_desc 7 0x2000 128 0 0 0 0 0 0 0.
Proof.
  split.
  - split; [exists 8; vm_compute; split_and!; congruence|].
    unfold is_u32, in_flight. vm_compute. split_and!; congruence.
  - destruct (sring_gso_rxq_push 0 128 1000 example_map (mk_qio 0 stats_zero) rx256 None tt [])
      as [res|] eqn:E; [|exfalso; vm_compute in E; congruence].
    exists res. split; [reflexivity|]. vm_compute in E. injection E as <-.
    split_and!; vm_compute; reflexivity.
Qed.

(** A ring of 8 entries with a completed packet of two buffers and two
    published buffers of 40 bytes. *)
Definition ex_rx : sring_gso_rx_context :=
  mk_ring 4 0 2 1 7 0
    ([mk_desc 1 0x2000 40 0 0 0 0 0 0 0; mk_desc 2 0x2000 20 SRING_DESC_F_EOP 0 0 0 0 0 0] ++
     repeat (mk_desc 7 0x2000 40 0 0 0 0 0 0 0) 6).
Definition ex_rx_ctx : gso_rx_ctx := mk_ctx 0 0 2 0 0 3 0 (repeat inhabitant 64) ex_rx.

Lemma ex_rx_ok : ring_ok (opaque ex_rx_ctx).
Proof.
  split; [exists 3; vm_compute; split_and!; congruence|].
  unfold is_u32, in_flight. vm_compute. split_and!; congruence.
Defined.

Lemma sring_gso_rxq_push_delivers_witness :
  exists res, sring_gso_rxq_push 12 80 100 example_map (mk_qio 0 stats_zero) ex_rx (Some 1) tt [] = Some res /\
    ring_ok (r_priv res) /\ r_count res = 1 /\ r_can_receive res = Some 0.
Proof.
  destruct (sring_gso_rxq_push_delivers 12 80 ltac:(reflexivity) 100 example_map (mk_qio 0 stats_zero)
              ex_rx (Some 1) tt []) as (res & sizes & out & extra & gone & rest & new & Hrun & Hok & _).
  - apply ex_rx_ok.
  - apply (bool_decide_unpack (Forall (fun d => 0 <= len d < 65536) (desc ex_rx))). vm_compute. exact I.
  - constructor.
  - constructor.
  - vm_compute. reflexivity.
  - exists res. split; [exact Hrun|]. split; [exact Hok|].
    pose proof Hrun as E. vm_compute in E. injection E as <-. split; reflexivity.
Defined.

(** ** The guest programs *)

(** A descriptor that carries a buffer to fill; lengths are 16 bits wide. *)
Definition carries (d : sring_gso_rx_desc) (b : bpfhv_buf) : Prop :=
  cookie d = buf_cookie b /\ paddr d = buf_paddr b /\ len d = u16 (buf_len b) /\ flags d = 0.

Lemma gso_rxp_loop_publish ctx n i p priv :
  0 <= i -> i + Z.of_nat n <= Z.of_nat (length (bufs ctx)) ->
  let '(p', priv') := rxp_loop ctx n i p priv in
  exists ds, set_prod p' priv' = publish_all ds (set_prod p priv) /\
    Forall2 carries ds (take n (drop (Z.to_nat i) (bufs ctx))).
Proof.
  revert i p priv. induction n as [|n IH]; intros i p priv Hi Hn; simpl; [by exists []|].
  set (d := mk_desc _ _ _ _ _ _ _ _ _ _).
  specialize (IH (i + 1) (u32 (p + 1)) (put_desc p d priv)).
  destruct (rxp_loop _ _ _ _ _) as [p' priv']. destruct IH as (ds & E & HC); [lia..|].
  exists (d :: ds). split; [done|].
  assert (Hl : (Z.to_nat i < length (bufs ctx))%nat) by lia.
  destruct (lookup_lt_is_Some_2 _ _ Hl) as [b Hb].
  rewrite (drop_S _ _ _ Hb). simpl. replace (S (Z.to_nat i)) with (Z.to_nat (i + 1)) by lia.
  constructor; [|done]. unfold d, carries, get_buf. by rewrite (list_lookup_total_correct _ _ _ Hb).
Qed.

(** [sring_gso_rxp] refuses more buffers than the context holds; otherwise,
    when the ring has room, it publishes the buffers of the context in order,
    with clear flags and their lengths cut to 16 bits, and asks for a kick
    exactly when kicks are enabled. *)
Theorem sring_gso_rxp_refines ctx :
  ring_ok (opaque ctx) -> length (bufs ctx) = Z.to_nat BPFHV_MAX_RX_BUFS -> 0 <= num_bufs ctx ->
  in_flight (opaque ctx) + num_bufs ctx <= qmask (opaque ctx) + 1 ->
  let '(ret, ctx') := sring_gso_rxp ctx in
  if num_bufs ctx <=? BPFHV_MAX_RX_BUFS then
    exists ds, ret = 0 /\ ring_ok (opaque ctx') /\
      abs (opaque ctx') = mk_fifo (pending (opaque ctx) ++ ds) (completed (opaque ctx)) /\
      Forall2 carries ds (take (Z.to_nat (num_bufs ctx)) (bufs ctx)) /\
      oflags ctx' = (if kick_enabled (opaque ctx) =? 0 then 0 else BPFHV_OFLAGS_KICK_NEEDED)
  else ret = -1 /\ ctx' = ctx.
Proof.
  intros Hok Hb Hn Hroom. unfold sring_gso_rxp. rewrite Z.leb_antisym.
  destruct (BPFHV_MAX_RX_BUFS <? num_bufs ctx) eqn:E; zify_bool; simpl; [done|].
  pose proof (gso_rxp_loop_publish ctx (Z.to_nat (num_bufs ctx)) 0 (prod (opaque ctx)) (opaque ctx)
                ltac:(lia) ltac:(lia)) as Hl.
  destruct (rxp_loop _ _ _ _ _) as [p r']. destruct Hl as (ds & Hpub & HC).
  rewrite drop_0 in HC. rewrite set_prod_id in Hpub.
  pose proof (Forall2_length HC) as Hlen. rewrite length_take in Hlen.
  destruct (publish_all_refines ds (opaque ctx) Hok ltac:(lia)) as (Hok' & _ & Habs).
  exists ds. simpl. rewrite Hpub. split_and!; try done.
  change (kick_enabled r') with (kick_enabled (set_prod p r')). rewrite Hpub, publish_all_kick.
  unfold z2b. by destruct (_ =? 0).
Qed.

Lemma sring_gso_rxp_refines_witness :
  fst (sring_gso_rxp ex_rx_ctx) = 0 /\ ring_ok (opaque (snd (sring_gso_rxp ex_rx_ctx))).
Proof.
  pose proof (sring_gso_rxp_refines ex_rx_ctx ex_rx_ok eq_refl
    ltac:(vm_compute; congruence) ltac:(vm_compute; congruence)) as H.
  destruct (sring_gso_rxp ex_rx_ctx) as [ret ctx'].
  change (num_bufs ex_rx_ctx <=? BPFHV_MAX_RX_BUFS) with true in H. cbv iota in H.
  destruct H as (ds & -> & Hok & _). split; [reflexivity|exact Hok].
Defined.

(** [sring_gso_rxr] has the same fault as [sring_rxr]: it passes the old
    and the new [clear] to [clear_met_cons] in the wrong order, and leaves
    [cons] behind [clear] when it takes back a buffer that was not complete,
    as here with two completed buffers and two pending ones. *)
Theorem sring_gso_rxr_breaks_ring :
  ring_ok (opaque ex_rx_ctx) /\
  let '(ret, ctx') := sring_gso_rxr ex_rx_ctx in
  ret = 1 /\ num_bufs ctx' = 4 /\ clear (opaque ctx') = prod (opaque ctx') /\
  cons (opaque ctx') = 2 /\ ~ ring_ok (opaque ctx').
Proof.
  split; [apply ex_rx_ok|]. vm_compute sring_gso_rxr. split_and!; try reflexivity.
  intros (_ & _ & _ & _ & Hf). revert Hf. vm_compute. intros C. by apply C.
Qed.

(** A packet in the ring: EOP on the last descriptor and on no other. *)
Definition is_packet (pkt : list sring_gso_rx_desc) (d : sring_gso_rx_desc) : Prop :=
  exists ds, pkt = ds ++ [d] /\ Forall (fun x => eop x = false) ds /\ eop d = true.

Definition handed (d : sring_gso_rx_desc) (b : bpfhv_buf) : Prop :=
  buf_cookie b = cookie d /\ buf_paddr b = paddr d /\ buf_len b = len d.

Definition handed_all (pkt : list sring_gso_rx_desc) (i : nat) (bs : list bpfhv_buf) : Prop :=
  forall k d, pkt !! k = Some d -> exists b, bs !! (i + k)%nat = Some b /\ handed d b.

(** The loop of [sring_gso_rxc] walks over one packet. *)
Lemma rxc_loop_spec ds d n i c k rxd ctx rest :
  let r := opaque ctx in
  Forall (fun x => eop x = false) ds -> eop d = true -> is_u32 c -> is_u32 k ->
  between (desc r) (qmask r) c k = (ds ++ [d]) ++ rest ->
  (length ds < n)%nat -> 0 <= i -> i + Z.of_nat (length ds) < BPFHV_MAX_RX_BUFS ->
  length (bufs ctx) = Z.to_nat BPFHV_MAX_RX_BUFS ->
  exists ctx', rxc_loop n k i c rxd ctx
      = (i + Z.of_nat (length (ds ++ [d])), u32 (c + Z.of_nat (length (ds ++ [d]))), d, ctx') /\
    opaque ctx' = opaque ctx /\ length (bufs ctx') = length (bufs ctx) /\
    (forall j, (j < Z.to_nat i)%nat -> bufs ctx' !! j = bufs ctx !! j) /\
    handed_all (ds ++ [d]) (Z.to_nat i) (bufs ctx').
Proof.
  intros r HF Hd. unfold r. clear r. revert n i c rxd ctx.
  induction HF as [|x ds Hx HF IH]; intros n i c rxd ctx Hc Hk Hfly Hn Hi Hlen Hb.
  all: destruct n as [|n]; [simpl in Hn; lia|]; simpl in Hfly, Hn, Hlen.
  all: assert (Hne : c <> k) by (intros E; rewrite E, between_self in Hfly; done).
  all: rewrite between_cons in Hfly by done; simpl in Hfly; injection Hfly as Ehead Hfly.
  all: simpl; rewrite (proj2 (Z.eqb_neq c k) Hne), (proj2 (Z.ltb_lt i _)) by lia; simpl.
  all: unfold get_desc; rewrite Ehead.
  - unfold eop in Hd. rewrite Hd. eexists. split; [done|]. simpl. rewrite length_insert.
    split_and!; [done|done| |].
    + intros j Hj. rewrite list_lookup_insert_ne by lia. done.
    + intros [|m] x Hm; simpl in Hm; [|done]. injection Hm as <-. rewrite Nat.add_0_r. eexists.
      split; [apply list_lookup_insert_eq; rewrite Hb; lia|done].
  - unfold eop in Hx. rewrite Hx. set (ctx1 := put_buf _ _ _).
    destruct (IH n (i + 1) (u32 (c + 1)) x ctx1) as (ctx' & Hrun & Ho & Hl & Hbefore & Hafter);
      [apply u32_range|done|exact Hfly|lia|lia|lia|unfold ctx1; simpl; rewrite length_insert; lia|].
    exists ctx'. unfold ctx1 in Hl, Hbefore, Ho; simpl in Hl, Hbefore, Ho. rewrite length_insert in Hl.
    split_and!.
    + rewrite Hrun, u32_add_l. do 3 f_equal; [lia|]. f_equal. lia.
    + done.
    + done.
    + intros j Hj. rewrite Hbefore by lia. by rewrite list_lookup_insert_ne by lia.
    + intros [|m] y Hm; simpl in Hm.
      * injection Hm as <-. rewrite Nat.add_0_r, Hbefore by lia. eexists.
        split; [apply list_lookup_insert_eq; rewrite Hb; lia|done].
      * destruct (Hafter m y Hm) as (b & Hb' & ?). exists b. split; [|done]. rewrite <- Hb'. f_equal. lia.
Qed.

(** [sring_gso_rxc] hands all the buffers of the oldest completed packet,
    and only those, to [rx_pkt_alloc], removes its descriptors from the ring
    whether the allocation succeeds or not, and on success passes the offload
    metadata of its last descriptor to [pkt_virtio_net_md_set]. *)
Theorem sring_gso_rxc_refines h md_set ctx pkt d rest :
  ring_ok (opaque ctx) -> length (bufs ctx) = Z.to_nat BPFHV_MAX_RX_BUFS ->
  is_packet pkt d -> Z.of_nat (length pkt) <= BPFHV_MAX_RX_BUFS ->
  completed (opaque ctx) = pkt ++ rest ->
  exists ctx1,
    num_bufs ctx1 = Z.of_nat (length pkt) /\ handed_all pkt 0 (bufs ctx1) /\
    ring_ok (opaque ctx1) /\ abs (opaque ctx1) = mk_fifo (pending (opaque ctx)) rest /\
    let '(ret, ctx2) := rx_pkt_alloc h ctx1 in
    sring_gso_rxc h md_set ctx =
      (if ret <? 0 then (ret, ctx2) else (1, set_oflags 0 (md_set (rxc_hdr d) ctx2))).
Proof.
  intros Hok Hb (ds & -> & HF & Hd) Hlen E. pose proof Hok as (G & Hp & Hc & Hcl & _).
  rewrite length_app in Hlen; simpl in Hlen.
  destruct (rxc_loop_spec ds d (Z.to_nat BPFHV_MAX_RX_BUFS + 1) 0 (clear (opaque ctx)) (cons (opaque ctx))
     desc_zero ctx rest HF Hd Hcl Hc E) as (ctx' & Hloop & Ho & _ & _ & Hh); [lia|lia|lia|done|].
  pose proof (length_completed (opaque ctx)) as Hl. rewrite E, length_app in Hl.
  destruct (reclaim_refines (Z.of_nat (length (ds ++ [d]))) (opaque ctx) Hok) as (Hok' & _ & _ & Hcomp).
  { pose proof (dist_range (cons (opaque ctx)) (prod (opaque ctx))). unfold in_flight. lia. }
  unfold reclaim in Hok', Hcomp. rewrite (proj2 (Z.ltb_ge _ _)) in Hok', Hcomp by lia.
  specialize (Hcomp ltac:(lia)). destruct Hcomp as [Hpend Hcomp].
  unfold sring_gso_rxc. destruct (_ =? _) eqn:Ec; zify_bool.
  { rewrite Ec, dist_self, length_app in Hl. simpl in Hl. lia. }
  rewrite Hloop, Ho.
  set (ctx1 := set_num_bufs _ _). exists ctx1. split; [unfold ctx1; simpl; lia|]. split; [done|].
  split; [done|]. split; [|by destruct (rx_pkt_alloc h ctx1)].
  unfold abs, ctx1; simpl. rewrite Hpend, Hcomp, E, Nat2Z.id. by rewrite drop_app_length.
Qed.

Lemma sring_gso_rxc_refines_witness :
  fst (sring_gso_rxc (mk_helpers (fun c => (0, set_packet 5 c)) (fun _ => [])) (fun _ c => c) ex_rx_ctx) = 1.
Proof.
  destruct (sring_gso_rxc_refines (mk_helpers (fun c => (0, set_packet 5 c)) (fun _ => [])) (fun _ c => c)
     ex_rx_ctx [mk_desc 1 0x2000 40 0 0 0 0 0 0 0; mk_desc 2 0x2000 20 SRING_DESC_F_EOP 0 0 0 0 0 0]
     (mk_desc 2 0x2000 20 SRING_DESC_F_EOP 0 0 0 0 0 0) [] ex_rx_ok eq_refl) as (ctx1 & _ & _ & _ & _ & H).
  - exists [mk_desc 1 0x2000 40 0 0 0 0 0 0 0]. split_and!; [reflexivity|repeat constructor|reflexivity].
  - vm_compute. congruence.
  - reflexivity.
  - rewrite H. reflexivity.
Defined.

Lemma gso_push_quiet {W} `{!NetBackend W} vh mps fuel (s s' : push_state (W:=W)) :
  Forall quiet (v_env (p_view s)) -> run_opt (push_iter vh mps) fuel s = Some s' ->
  intr (p_priv s') = intr (p_priv s).
Proof.
  set (P := fun r : sring_gso_rx_context => intr r = intr (p_priv s)).
  intros HF Hrun. enough (keeps P (p_view s')) as [? _] by done.
  assert (Hs : keeps P (p_view s)).
  { split; [done|]. revert HF. apply Forall_impl. intros g Hg r Hr. destruct (Hg r) as [_ E].
    unfold P. by rewrite E. }
  clear HF. revert s' Hrun. generalize dependent s. intros s. generalize (intr (p_priv s)). intros i P.
  revert s. induction fuel as [|fuel IH]; intros s Hs s'; simpl; [done|].
  assert (Hwb : forall n c sz r r' c', P r -> writeback n c sz r = Some (c', r') -> P r').
  { induction n as [|n IHn]; intros c sz r r' c' Hr; simpl; case_if; try done; [by intros [= <- <-]|by intros [= <- <-]|].
    case_if; [by apply IHn|]. by apply IHn. }
  assert (Hit : match push_iter vh mps s with
                | Some (Continue t) => keeps P (p_view t)
                | Some (Break t) => keeps P (p_view t) | None => True end).
  { unfold push_iter. pose proof (rx_poll_keeps P (is_null (p_can_receive s)) (p_cons s) _ ltac:(done) Hs) as Hq.
    destruct (rx_poll _ _ _) as [more v]. simpl in Hq. case_if; [done|].
    assert (Hcol : match collect_one vh mps v s with inl t => keeps P (p_view t) | inr t => keeps P (p_view t) end).
    { unfold collect_one. destruct (translate_addr _ _ _). case_if; case_if; done. }
    destruct (collect_one vh mps v s) as [t|t]; [done|]. unfold receive_one. case_if; [done|].
    destruct (be_recv _ _ _). case_if; [done|]. destruct (writeback _ _ _ _) as [[c r']|] eqn:Ew; [|done].
    destruct Hcol as [H1 H2]. pose proof (Hwb _ _ _ _ _ _ H1 Ew). done. }
  destruct (push_iter vh mps s) as [[t|t]|]; [by apply IH|by intros [= <-]|done].
Qed.

(** No receive interrupt is lost on sring_gso: when [sring_gso_rxi]
    returns 0 too few buffers are complete and interrupts are enabled, and
    the next push that receives a packet asks for one. *)
Theorem sring_gso_rxi_no_lost_interrupt {W} `{!NetBackend W} vh mps hv ctx fuel map rxq can_receive (w : W) env res :
  ring_ok (opaque ctx) -> (forall r, ring_ok r -> hv_step r (hv r)) -> Forall quiet env ->
  let '(ret, ctx') := sring_gso_rxi hv ctx in
  if ret =? 0 then
    Z.of_nat (length (completed (opaque ctx'))) < min_completed_bufs ctx /\
    (sring_gso_rxq_push vh mps fuel map rxq (opaque ctx') can_receive w env = Some res ->
     0 < r_count res -> q_notify (r_rxq res) = 1)
  else ret = 1 /\ intr (opaque ctx') = 0 /\
       min_completed_bufs ctx <= Z.of_nat (length (completed (opaque ctx'))).
Proof.
  intros Hok Hhv HQ. pose proof (ring_rxi_spec hv ctx Hok Hhv) as Hspec. unfold sring_gso_rxi.
  destruct (ring_rxi hv ctx) as [ret ctx']. destruct (ret =? 0); [|done].
  destruct Hspec as (Hok' & Hi1' & Hlt). split; [done|]. unfold sring_gso_rxq_push. intros Hpush Hcount.
  destruct (run_opt _ _ _) as [s|] eqn:Hrun; simpl in Hpush; [|done]. injection Hpush as <-.
  apply gso_push_quiet in Hrun; [|done].
  assert (Hi1 : intr (p_priv s) = 1) by (rewrite Hrun; unfold push_start, p_priv; simpl; by case_if).
  revert Hcount. unfold push_finish. destruct (0 <? p_count s) eqn:E0; simpl; [|zify_bool; lia].
  intros _. by rewrite Hi1.
Qed.

Lemma sring_gso_rxi_no_lost_interrupt_witness :
  fst (sring_gso_rxi id ex_rx_ctx) = 0 /\
  exists res,
    sring_gso_rxq_push 12 80 100 example_map (mk_qio 0 stats_zero)
      (opaque (snd (sring_gso_rxi id ex_rx_ctx))) None tt [] = Some res /\
    q_notify (r_rxq res) = 1.
Proof.
  split; [reflexivity|].
  destruct (sring_gso_rxq_push 12 80 100 example_map (mk_qio 0 stats_zero)
      (opaque (snd (sring_gso_rxi id ex_rx_ctx))) None tt []) as [res|] eqn:E;
    [|exfalso; vm_compute in E; congruence].
  exists res. split; [reflexivity|].
  pose proof (sring_gso_rxi_no_lost_interrupt 12 80 id ex_rx_ctx 100 example_map (mk_qio 0 stats_zero)
                None tt [] res ex_rx_ok (fun r Hr => hv_step_refl r Hr) ltac:(constructor)) as H.
  destruct H as [_ H]. apply H; [exact E|].
  pose proof E as E'. vm_compute in E'. injection E' as <-. vm_compute. reflexivity.
Defined.
