(* ===== verification/VringPacked.v ===== *)
(** * The vring_packed device: data and operations

    proxy/vring_packed.h, proxy/vring_packed.c (hypervisor side) and
    proxy/vring_packed_progs.c (guest programs): a packed virtqueue in the
    style of VIRTIO 1.1, with a table of descriptor states private to the
    guest, a map from buffer ids to slots private to the hypervisor, and event
    suppression by index in both directions.  The receive and the transmit
    queue have the same structure.

    The invariant of the queue and the correctness of the operations are in
    VringInv. *)

From S2P Require Import Prelude Abi Backend MarkFun.
Open Scope Z_scope.

Definition VRING_DESC_F_WRITE : Z := 2.
Definition VRING_PACKED_EVENT_FLAG_ENABLE : Z := 0.
Definition VRING_PACKED_EVENT_FLAG_DISABLE : Z := 1.
Definition VRING_PACKED_EVENT_FLAG_DESC : Z := 2.
Definition VRING_PACKED_EVENT_F_WRAP_CTR : Z := 15.
(** [1 << VRING_PACKED_DESC_F_AVAIL], [1 << VRING_PACKED_DESC_F_USED]. *)
Definition AVAIL : Z := Z.shiftl 1 7.
Definition USED : Z := Z.shiftl 1 15.

(** ** Data *)

Record vring_packed_desc := mk_desc { addr : Z; len : Z; id : Z; flags : Z; mark : Z }.
Definition desc_zero : vring_packed_desc := mk_desc 0 0 0 0 0.
#[export] Instance vring_packed_desc_inhabited : Inhabited vring_packed_desc := populate desc_zero.

Record vring_packed_desc_state := mk_state { cookie : Z; busy : Z; num : Z; next : Z; last : Z }.
Definition state_zero : vring_packed_desc_state := mk_state 0 0 0 0 0.
#[export] Instance vring_packed_desc_state_inhabited : Inhabited vring_packed_desc_state := populate state_zero.

(** [union vring_packed_desc_event], always read and written whole. *)
Record desc_event := mk_event { off_wrap : Z; ev_flags : Z }.

(** The part private to the guest, [vq->g]. *)
Record guest_part := mk_g {
  g_next_free_id : Z;
  g_next_avail_idx : Z;
  g_next_used_idx : Z;
  g_avail_wrap_counter : Z;
  g_used_wrap_counter : Z;
  g_avail_used_flags : Z;
  g_pending_inuse_counter : Z;
  g_avail_dropped : Z;
  g_pending_used_counter : Z;
}.

(** The part private to the host, [vq->h]. *)
Record host_part := mk_h {
  h_next_avail_idx : Z;
  h_next_used_idx : Z;
  h_avail_wrap_counter : Z;
  h_used_wrap_counter : Z;
  h_avail_used_flags : Z;
  h_device_event_flags : Z;
}.

(** [struct vring_packed_virtq] with the two tables that follow the
    descriptors in memory; [state_ofs] and [hv_map_ofs], which locate them, are
    not kept. *)
Record vring_packed_virtq := mk_vq {
  g : guest_part;
  h : host_part;
  num_desc : Z;
  mark_on_guest : Z;
  driver_event : desc_event;
  device_event : desc_event;
  desc : list vring_packed_desc;
  state : list vring_packed_desc_state;
  hv_map : list Z;
}.

Abbreviation vq_ctx := (bpfhv_context vring_packed_virtq).
Implicit Types vq : vring_packed_virtq.

Definition set_g x vq := mk_vq x (h vq) (num_desc vq) (mark_on_guest vq) (driver_event vq) (device_event vq) (desc vq) (state vq) (hv_map vq).
Definition set_h x vq := mk_vq (g vq) x (num_desc vq) (mark_on_guest vq) (driver_event vq) (device_event vq) (desc vq) (state vq) (hv_map vq).
Definition set_mark_on_guest x vq := mk_vq (g vq) (h vq) (num_desc vq) x (driver_event vq) (device_event vq) (desc vq) (state vq) (hv_map vq).
Definition set_driver_event x vq := mk_vq (g vq) (h vq) (num_desc vq) (mark_on_guest vq) x (device_event vq) (desc vq) (state vq) (hv_map vq).
Definition set_device_event x vq := mk_vq (g vq) (h vq) (num_desc vq) (mark_on_guest vq) (driver_event vq) x (desc vq) (state vq) (hv_map vq).
Definition set_desc x vq := mk_vq (g vq) (h vq) (num_desc vq) (mark_on_guest vq) (driver_event vq) (device_event vq) x (state vq) (hv_map vq).
Definition set_state x vq := mk_vq (g vq) (h vq) (num_desc vq) (mark_on_guest vq) (driver_event vq) (device_event vq) (desc vq) x (hv_map vq).
Definition set_hv_map x vq := mk_vq (g vq) (h vq) (num_desc vq) (mark_on_guest vq) (driver_event vq) (device_event vq) (desc vq) (state vq) x.

(** [vq->desc[i]], [state[i]] and [hv_map[i]], read and written.  The code does
    not check the positions: outside of the arrays a read gives the zero value
    and a write does nothing here, and the invariants of the theorems keep
    every position inside. *)
Definition get_desc (i : Z) vq : vring_packed_desc := desc vq !!! Z.to_nat i.
Definition put_desc (i : Z) (d : vring_packed_desc) vq := set_desc (<[Z.to_nat i := d]> (desc vq)) vq.
Definition get_state (i : Z) vq : vring_packed_desc_state := state vq !!! Z.to_nat i.
Definition put_state (i : Z) (s : vring_packed_desc_state) vq := set_state (<[Z.to_nat i := s]> (state vq)) vq.
Definition get_map (i : Z) vq : Z := hv_map vq !!! Z.to_nat i.
Definition put_map (i : Z) (x : Z) vq := set_hv_map (<[Z.to_nat i := x]> (hv_map vq)) vq.

Definition set_flags (f : Z) (d : vring_packed_desc) := mk_desc (addr d) (len d) (id d) f (mark d).
Definition set_len (l : Z) (d : vring_packed_desc) := mk_desc (addr d) l (id d) (flags d) (mark d).

(** ** Layout *)

Definition vring_packed_desc_layout : list (Z * Z) := [f64; f32; f16; f16; f32].
Definition vring_packed_desc_state_layout : list (Z * Z) := [f64; f16; f16; f16; f16].
Definition vring_packed_desc_hv_map_layout : list (Z * Z) := [f64].
Definition MY_CACHELINE_SIZE : Z := 64.

(** The members of [g] and of [h] as nested structures. *)
Definition vring_g_layout : list (Z * Z) := [f16; f16; f16; f8; f8; f16; f32; f32; f32].
Definition vring_h_layout : list (Z * Z) := [f16; f16; f8; f8; f16; f16].
Definition vring_packed_virtq_layout : list (Z * Z) :=
  let nested l := (struct_size l, struct_align l) in
  [nested vring_g_layout; falign (nested vring_h_layout) MY_CACHELINE_SIZE;
   falign f64 MY_CACHELINE_SIZE; f32; f64; f8;
   falign f32 MY_CACHELINE_SIZE; falign f32 MY_CACHELINE_SIZE;
   falign (farray (struct_size vring_packed_desc_layout, struct_align vring_packed_desc_layout) 0)
     MY_CACHELINE_SIZE].

(** The assertions on [g], [state_ofs], [driver_event], [device_event] and
    [desc]. *)
Definition vring_packed_check_alignment : bool :=
  let ofs := struct_offsets 0 vring_packed_virtq_layout in
  forallb (fun i => (ofs !!! i) mod MY_CACHELINE_SIZE =? 0) [0; 2; 6; 7; 8]%nat.

Definition ROUNDUP (x a : Z) : Z := (x + a - 1) / a * a.

Definition vring_packed_priv_size (num_bufs : Z) : Z :=
  let desc_size := ROUNDUP (struct_size vring_packed_desc_layout * num_bufs) MY_CACHELINE_SIZE in
  let state_size := ROUNDUP (struct_size vring_packed_desc_state_layout * num_bufs) MY_CACHELINE_SIZE in
  let hv_map_size := ROUNDUP (struct_size vring_packed_desc_hv_map_layout * num_bufs) MY_CACHELINE_SIZE in
  struct_size vring_packed_virtq_layout + desc_size + state_size + hv_map_size.

Definition vring_packed_ctx_size (num_bufs : Z) : Z :=
  sizeof_bpfhv_context + vring_packed_priv_size num_bufs.

(** ** Events *)

Definition vring_need_event (old_idx event_idx new_idx : Z) : bool :=
  u16 (new_idx - event_idx - 1) <? u16 (new_idx - old_idx).

(** The common part of [vring_packed_kick_needed] and
    [vring_packed_intr_needed]: [idx] and [wrap] are the index and the wrap
    counter that have just advanced by [n]. *)
Definition event_needed (ev : desc_event) (idx wrap n num_desc : Z) : bool :=
  if negb (ev_flags ev =? VRING_PACKED_EVENT_FLAG_DESC) then
    ev_flags ev =? VRING_PACKED_EVENT_FLAG_ENABLE
  else
    let old_idx := u16 (idx - n) in
    let event_idx := Z.land (off_wrap ev) (Z.lnot (Z.shiftl 1 VRING_PACKED_EVENT_F_WRAP_CTR)) in
    let wrap_counter := Z.shiftr (off_wrap ev) VRING_PACKED_EVENT_F_WRAP_CTR in
    let event_idx := if negb (wrap_counter =? wrap) then u16 (event_idx - num_desc) else event_idx in
    vring_need_event old_idx event_idx idx.

Definition vring_packed_kick_needed vq (num_published : Z) : bool :=
  event_needed (device_event vq) (g_next_avail_idx (g vq)) (g_avail_wrap_counter (g vq)) num_published
    (num_desc vq).

Definition vring_packed_intr_needed vq (num_consumed : Z) : bool :=
  event_needed (driver_event vq) (h_next_used_idx (h vq)) (h_used_wrap_counter (h vq)) num_consumed
    (num_desc vq).

(** ** Hypervisor *)

Definition set_device_event_flags x hp :=
  mk_h (h_next_avail_idx hp) (h_next_used_idx hp) (h_avail_wrap_counter hp) (h_used_wrap_counter hp)
    (h_avail_used_flags hp) x.

Definition vring_packed_notification vq (enable : Z) : vring_packed_virtq :=
  if enable =? 0 then
    let vq := set_h (set_device_event_flags VRING_PACKED_EVENT_FLAG_DISABLE (h vq)) vq in
    set_device_event (mk_event (off_wrap (device_event vq)) VRING_PACKED_EVENT_FLAG_DISABLE) vq
  else
    let off := u16 (Z.lor (h_next_avail_idx (h vq))
                      (Z.shiftl (h_avail_wrap_counter (h vq)) VRING_PACKED_EVENT_F_WRAP_CTR)) in
    let vq := set_device_event (mk_event off VRING_PACKED_EVENT_FLAG_DESC) vq in
    set_h (set_device_event_flags VRING_PACKED_EVENT_FLAG_DESC (h vq)) vq.

(** [state[i].next = i + 1] for [i < num - 1]; the last entry is left as
    [memset] did. *)
Definition init_states (num : Z) : list vring_packed_desc_state :=
  map (fun i => mk_state 0 0 0 (u16 (Z.of_nat i + 1)) 0) (seq 0 (Z.to_nat (num - 1))) ++
  [state_zero].

Definition vring_packed_init (num : Z) : vring_packed_virtq :=
  let gp := mk_g 0 0 0 1 1 AVAIL 0 0 0 in
  let hp := mk_h 0 0 1 1 (Z.lor AVAIL USED) 0 in
  let vq := mk_vq gp hp (u32 num) 0
              (mk_event (Z.shiftl 1 VRING_PACKED_EVENT_F_WRAP_CTR) VRING_PACKED_EVENT_FLAG_DESC)
              (mk_event 0 0) (repeat desc_zero (Z.to_nat num)) (init_states num)
              (repeat 0 (Z.to_nat num)) in
  vring_packed_notification vq 1.

(** [vring_packed_tx_ctx_init_mark]; [MARK_MODE_GUEST] is 2. *)
Definition MARK_MODE_NO_MARK : Z := 0.
Definition MARK_MODE_HV : Z := 1.
Definition MARK_MODE_GUEST : Z := 2.
Definition vring_packed_tx_ctx_init_mark vq (mark_mode : Z) : vring_packed_virtq :=
  set_mark_on_guest (b2z (mark_mode =? MARK_MODE_GUEST)) vq.

Definition avail_bit (d : vring_packed_desc) : Z := b2z (has_flag (flags d) AVAIL).
Definition used_bit (d : vring_packed_desc) : Z := b2z (has_flag (flags d) USED).

Definition vring_packed_more_avail vq : bool :=
  let d := get_desc (h_next_avail_idx (h vq)) vq in
  negb (avail_bit d =? used_bit d) && (avail_bit d =? h_avail_wrap_counter (h vq)).

Definition vring_packed_advance_avail vq : vring_packed_virtq :=
  let hp := h vq in
  let idx := u16 (h_next_avail_idx hp + 1) in
  if num_desc vq <=? idx then
    set_h (mk_h 0 (h_next_used_idx hp) (Z.lxor (h_avail_wrap_counter hp) 1) (h_used_wrap_counter hp)
             (h_avail_used_flags hp) (h_device_event_flags hp)) vq
  else
    set_h (mk_h idx (h_next_used_idx hp) (h_avail_wrap_counter hp) (h_used_wrap_counter hp)
             (h_avail_used_flags hp) (h_device_event_flags hp)) vq.

Definition vring_packed_advance_used vq : vring_packed_virtq :=
  let hp := h vq in
  let idx := u16 (h_next_used_idx hp + 1) in
  if num_desc vq <=? idx then
    set_h (mk_h (h_next_avail_idx hp) 0 (h_avail_wrap_counter hp) (Z.lxor (h_used_wrap_counter hp) 1)
             (Z.lxor (h_avail_used_flags hp) (Z.lor AVAIL USED)) (h_device_event_flags hp)) vq
  else
    set_h (mk_h (h_next_avail_idx hp) idx (h_avail_wrap_counter hp) (h_used_wrap_counter hp)
             (h_avail_used_flags hp) (h_device_event_flags hp)) vq.

(** ** Guest *)

Definition vring_packed_add vq (b : bpfhv_buf) (fl mk : Z) : vring_packed_virtq :=
  let gp := g vq in
  let head := g_next_avail_idx gp in
  let head_flags := Z.lor (g_avail_used_flags gp) fl in
  let bid := g_next_free_id gp in
  let vq := put_desc head (mk_desc (buf_paddr b) (buf_len b) bid (flags (get_desc head vq)) mk) vq in
  let st := get_state bid vq in
  let vq := put_state bid (mk_state (buf_cookie b) (busy st) (num st) (next st) (VringPacked.last st)) vq in
  let idx := u16 (head + 1) in
  let wraps := num_desc vq <=? idx in
  let avail_idx := if wraps then 0 else idx in
  let au := if wraps then Z.lxor (g_avail_used_flags gp) (Z.lor AVAIL USED) else g_avail_used_flags gp in
  let wc := if wraps then Z.lxor (g_avail_wrap_counter gp) 1 else g_avail_wrap_counter gp in
  let vq := set_g (mk_g (next (get_state bid vq)) avail_idx (g_next_used_idx gp) wc
                     (g_used_wrap_counter gp) au (g_pending_inuse_counter gp) (g_avail_dropped gp)
                     (g_pending_used_counter gp)) vq in
  let st := get_state bid vq in
  let vq := put_state bid (mk_state (cookie st) 1 (num st) (next st) (VringPacked.last st)) vq in
  put_desc head (set_flags head_flags (get_desc head vq)) vq.

Definition vring_packed_desc_is_used vq (used_idx used_wrap_counter : Z) : bool :=
  let d := get_desc used_idx vq in
  (avail_bit d =? used_bit d) && (used_bit d =? used_wrap_counter).

Definition vring_packed_more_used vq : bool :=
  vring_packed_desc_is_used vq (g_next_used_idx (g vq)) (g_used_wrap_counter (g vq)).

Definition vring_packed_more_pending vq : bool :=
  let d := get_desc (g_next_used_idx (g vq)) vq in
  negb (avail_bit d =? used_bit d) && negb (used_bit d =? g_used_wrap_counter (g vq)).

(** The result, the queue and the buffer [*b]. *)
Definition vring_packed_get vq (b : bpfhv_buf) : Z * vring_packed_virtq * bpfhv_buf :=
  let gp := g vq in
  let used_idx := g_next_used_idx gp in
  let d := get_desc used_idx vq in
  let bid := id d in
  if (num_desc vq <=? bid) || (busy (get_state bid vq) =? 0) then (-1, vq, b)
  else
    let st := get_state bid vq in
    let b := mk_buf (cookie st) (addr d) (buf_vaddr b) (len d) in
    let vq := put_state bid (mk_state (cookie st) 0 (num st) (g_next_free_id gp) (VringPacked.last st)) vq in
    let idx := u16 (used_idx + 1) in
    let wraps := num_desc vq <=? idx in
    let vq := set_g (mk_g bid (g_next_avail_idx gp) (if wraps then 0 else idx) (g_avail_wrap_counter gp)
                       (if wraps then Z.lxor (g_used_wrap_counter gp) 1 else g_used_wrap_counter gp)
                       (g_avail_used_flags gp) (g_pending_inuse_counter gp) (g_avail_dropped gp)
                       (g_pending_used_counter gp)) vq in
    (1, vq, b).

(** [vring_packed_intr]; [hv] is what the hypervisor does to the queue after
    the store to [driver_event] and before the last read of the flags. *)
Definition vring_packed_intr (hv : vring_packed_virtq -> vring_packed_virtq) vq
    (min_completed_bufs : Z) : Z * vring_packed_virtq :=
  let used_wrap_counter := g_used_wrap_counter (g vq) in
  let used_idx := g_next_used_idx (g vq) in
  if min_completed_bufs =? 0 then
    (0, set_driver_event (mk_event (off_wrap (driver_event vq)) VRING_PACKED_EVENT_FLAG_DISABLE) vq)
  else if num_desc vq <? min_completed_bufs then (-1, vq)
  else
    let used_idx := u16 (used_idx + (min_completed_bufs - 1)) in
    let '(used_idx, used_wrap_counter) :=
      if num_desc vq <=? used_idx then (u16 (used_idx - num_desc vq), Z.lxor used_wrap_counter 1)
      else (used_idx, used_wrap_counter) in
    let off := u16 (Z.lor used_idx (Z.shiftl used_wrap_counter VRING_PACKED_EVENT_F_WRAP_CTR)) in
    let vq := set_driver_event (mk_event off VRING_PACKED_EVENT_FLAG_DESC) vq in
    let vq := hv vq in
    (b2z (vring_packed_desc_is_used vq used_idx used_wrap_counter), vq).

(** *** Guest programs *)

Definition vring_mark_packet (hp : bpf_helpers vring_packed_virtq) (ctx : vq_ctx) : Z :=
  let data := pkt_bytes hp ctx in
  default 0 (mark_packet_fun data (u32 (Z.of_nat (length data)))).

Definition kick_oflags (needed : bool) : Z := if needed then BPFHV_OFLAGS_KICK_NEEDED else 0.

(** [hv] is what the hypervisor does before the program reads
    [device_event]. *)
Definition vring_packed_txp (hp : bpf_helpers vring_packed_virtq)
    (hv : vring_packed_virtq -> vring_packed_virtq) (ctx : vq_ctx) : Z * vq_ctx :=
  let vq := opaque ctx in
  let txb := get_buf 0 ctx in
  if negb (num_bufs ctx =? 1) then (-1, ctx)
  else
    let mark := if z2b (mark_on_guest vq) then vring_mark_packet hp ctx else 0 in
    let vq := hv (vring_packed_add vq txb 0 mark) in
    (0, set_oflags (kick_oflags (vring_packed_kick_needed vq 1)) (set_opaque vq ctx)).

Definition vring_packed_txc (ctx : vq_ctx) : Z * vq_ctx :=
  let vq := opaque ctx in
  if negb (vring_packed_more_used vq) then (0, ctx)
  else
    let '(ret, vq, txb) := vring_packed_get vq (get_buf 0 ctx) in
    let ctx := set_opaque vq (put_buf 0 txb ctx) in
    if ret =? 1 then (ret, set_oflags 0 (set_num_bufs 1 ctx)) else (ret, ctx).

Definition vring_packed_txr (ctx : vq_ctx) : Z * vq_ctx :=
  let vq := opaque ctx in
  if negb (vring_packed_more_pending vq) then (0, ctx)
  else
    let '(ret, vq, txb) := vring_packed_get vq (get_buf 0 ctx) in
    let ctx := set_opaque vq (put_buf 0 txb ctx) in
    if ret =? 1 then (ret, set_oflags 0 (set_num_bufs 1 ctx)) else (ret, ctx).

Definition vring_packed_txi (hv : vring_packed_virtq -> vring_packed_virtq) (ctx : vq_ctx) : Z * vq_ctx :=
  let '(ret, vq) := vring_packed_intr hv (opaque ctx) (u16 (min_completed_bufs ctx)) in
  (ret, set_opaque vq ctx).

(** [for (i = 0; i < ctx->num_bufs; i++)], [n] iterations being left. *)
Fixpoint rxp_loop (n : nat) (i : Z) (ctx : vq_ctx) : vq_ctx :=
  match n with
  | O => ctx
  | S n' =>
      let vq := vring_packed_add (opaque ctx) (get_buf i ctx) VRING_DESC_F_WRITE 0 in
      rxp_loop n' (i + 1) (set_opaque vq ctx)
  end.

Definition vring_packed_rxp (hv : vring_packed_virtq -> vring_packed_virtq) (ctx : vq_ctx) : Z * vq_ctx :=
  if BPFHV_MAX_RX_BUFS <? num_bufs ctx then (-1, ctx)
  else
    let ctx := rxp_loop (Z.to_nat (num_bufs ctx)) 0 ctx in
    let vq := hv (opaque ctx) in
    (0, set_oflags (kick_oflags (vring_packed_kick_needed vq (u16 (num_bufs ctx)))) (set_opaque vq ctx)).

Definition vring_packed_rxc (hp : bpf_helpers vring_packed_virtq) (ctx : vq_ctx) : Z * vq_ctx :=
  let vq := opaque ctx in
  if negb (vring_packed_more_used vq) then (0, ctx)
  else
    let '(ret, vq, rxb) := vring_packed_get vq (get_buf 0 ctx) in
    let ctx := set_opaque vq (put_buf 0 rxb ctx) in
    if negb (ret =? 1) then (ret, ctx)
    else
      let ctx := set_oflags 0 (set_num_bufs 1 ctx) in
      let '(ret, ctx) := rx_pkt_alloc hp ctx in
      if ret <? 0 then (ret, ctx) else (1, ctx).

(** The loop of [vring_packed_rxr]; [n] is [BPFHV_MAX_RX_BUFS - i].  The result
    is [i] and, when [vring_packed_get] failed, its return value. *)
Fixpoint rxr_loop (n : nat) (i : Z) (ctx : vq_ctx) : Z * option Z * vq_ctx :=
  match n with
  | O => (i, None, ctx)
  | S n' =>
      if vring_packed_more_pending (opaque ctx) then
        let '(ret, vq, rxb) := vring_packed_get (opaque ctx) (get_buf i ctx) in
        let ctx := set_opaque vq (put_buf i rxb ctx) in
        if ret <? 0 then (i, Some ret, ctx) else rxr_loop n' (i + 1) ctx
      else (i, None, ctx)
  end.

Definition vring_packed_rxr (ctx : vq_ctx) : Z * vq_ctx :=
  if negb (vring_packed_more_pending (opaque ctx)) then (0, ctx)
  else
    let '(i, err, ctx) := rxr_loop (Z.to_nat BPFHV_MAX_RX_BUFS) 0 ctx in
    match err with
    | Some ret => if i =? 0 then (ret, ctx) else (1, set_oflags 0 (set_num_bufs i ctx))
    | None => (1, set_oflags 0 (set_num_bufs i ctx))
    end.

Definition vring_packed_rxi (hv : vring_packed_virtq -> vring_packed_virtq) (ctx : vq_ctx) : Z * vq_ctx :=
  let '(ret, vq) := vring_packed_intr hv (opaque ctx) (u16 (min_completed_bufs ctx)) in
  (ret, set_opaque vq ctx).

(** ** Hypervisor loops

    The queue with the guest actions still to come: one of them happens before
    each look at the descriptor flags or at [driver_event]. *)
Record view := mk_view { v_vq : vring_packed_virtq; v_env : list (vring_packed_virtq -> vring_packed_virtq) }.

Definition sync (v : view) : view :=
  match v_env v with
  | [] => v
  | f :: env => mk_view (f (v_vq v)) env
  end.

Definition on_vq (f : vring_packed_virtq -> vring_packed_virtq) (v : view) : view :=
  mk_view (f (v_vq v)) (v_env v).

(** The block under [if (!vring_packed_more_avail(vq))], the same in the three
    loops: [true] when there is an available descriptor; [busy] tells whether
    [can_receive] or [can_send] is NULL. *)
Definition poll (busy : bool) (v : view) : bool * view :=
  let v := sync v in
  if vring_packed_more_avail (v_vq v) then (true, v)
  else if busy then (false, v)
  else
    let v := sync (on_vq (fun vq => vring_packed_notification vq 1) v) in
    if vring_packed_more_avail (v_vq v) then (true, on_vq (fun vq => vring_packed_notification vq 0) v)
    else (false, v).

(** The code after the loops of push and drain. *)
Definition finish_batch (txq : queue_io) (count bufs : Z) (v : view) : queue_io * view :=
  let txq := upd_stats (stats_add_bufs bufs) txq in
  if 0 <? count then
    let v := sync v in
    let notify := b2z (vring_packed_intr_needed (v_vq v) (u16 count)) in
    (upd_stats (stats_batch count) (set_notify notify txq), v)
  else (txq, v).

(** [vq->desc[used_idx].flags = vq->h.avail_used_flags] and the advance of the
    two indices. *)
Definition expose_used (used_idx : Z) vq : vring_packed_virtq :=
  let vq := put_desc used_idx (set_flags (h_avail_used_flags (h vq)) (get_desc used_idx vq)) vq in
  vring_packed_advance_used (vring_packed_advance_avail vq).

Section hypervisor.
Context {W : Type} `{!NetBackend W}.

Record push_state := mk_push {
  p_view : view;
  p_count : Z;
  p_bufs : Z;
  p_map : mem_map;
  p_w : W;
}.

Definition push_iter (busy : bool) (s : push_state) : step push_state :=
  let avail_idx := h_next_avail_idx (h (v_vq (p_view s))) in
  let used_idx := h_next_used_idx (h (v_vq (p_view s))) in
  let '(more, v) := poll busy (p_view s) in
  let s := mk_push v (p_count s) (p_bufs s) (p_map s) (p_w s) in
  if negb more then Break s
  else if BPFHV_BE_RX_BUDGET <=? p_count s then Break s
  else
    let d := get_desc avail_idx (v_vq v) in
    let '(base, map) := translate_addr (p_map s) (addr d) (len d) in
    let v := if negb (avail_idx =? used_idx) then on_vq (put_desc used_idx d) v else v in
    let finish pktsize w :=
      let v := on_vq (fun vq => put_desc used_idx (set_len (u32 pktsize) (get_desc used_idx vq)) vq) v in
      Continue (mk_push (on_vq (expose_used used_idx) v) (p_count s + 1) (p_bufs s + 1) map w) in
    if base =? NULL then finish 0 (p_w s)
    else
      let '(res, w) := be_recv 0 (p_w s) [mk_iov base (len d)] in
      if io_ret res <=? 0 then Break (mk_push v (p_count s) (p_bufs s) map w)
      else finish (io_ret res) w.

Record push_result := mk_push_result {
  pr_count : Z;
  pr_view : view;
  pr_rxq : queue_io;
  pr_map : mem_map;
  pr_w : W;
}.

(** [can_receive] is only compared with NULL. *)
Definition vring_packed_rxq_push (fuel : nat) (map : mem_map) (rxq : queue_io) (vq : vring_packed_virtq)
    (can_receive : option Z) (w : W) (env : list (vring_packed_virtq -> vring_packed_virtq))
    : option push_result :=
  let vq := if negb (h_device_event_flags (h vq) =? VRING_PACKED_EVENT_FLAG_DISABLE)
            then vring_packed_notification vq 0 else vq in
  s ← run (push_iter (is_null can_receive)) fuel (mk_push (mk_view vq env) 0 0 map w);
  let '(rxq, v) := finish_batch (set_notify 0 rxq) (p_count s) (p_bufs s) (p_view s) in
  Some (mk_push_result (p_count s) v rxq (p_map s) (p_w s)).

Record drain_state := mk_drain {
  d_view : view;
  d_count : Z;
  d_bufs : Z;
  d_can_send : option Z;
  d_map : mem_map;
  d_w : W;
}.

Definition drain_iter (s : drain_state) : step drain_state :=
  let avail_idx := h_next_avail_idx (h (v_vq (d_view s))) in
  let used_idx := h_next_used_idx (h (v_vq (d_view s))) in
  let '(more, v) := poll (is_null (d_can_send s)) (d_view s) in
  let s := mk_drain v (d_count s) (d_bufs s) (d_can_send s) (d_map s) (d_w s) in
  if negb more then Break s
  else if BPFHV_BE_TX_BUDGET <=? d_count s then Break s
  else
    let d := get_desc avail_idx (v_vq v) in
    let '(base, map) := translate_addr (d_map s) (addr d) (len d) in
    let finish w :=
      let v := if negb (avail_idx =? used_idx) then on_vq (put_desc used_idx d) v else v in
      Continue (mk_drain (on_vq (expose_used used_idx) v) (d_count s + 1) (d_bufs s + 1)
                  (d_can_send s) map w) in
    if base =? NULL then finish (d_w s)
    else
      let '(res, w) := be_send None (d_w s) [mk_iov base (len d)] in
      let ret := s32 (io_ret res) in
      if ret <=? 0 then
        Break (mk_drain v (d_count s) (d_bufs s) (after_send ret (io_errno res) (d_can_send s)) map w)
      else finish w.

Record drain_result := mk_drain_result {
  r_count : Z;
  r_view : view;
  r_txq : queue_io;
  r_can_send : option Z;
  r_map : mem_map;
  r_w : W;
}.

Definition vring_packed_txq_drain (fuel : nat) (map : mem_map) (txq : queue_io) (vq : vring_packed_virtq)
    (can_send : option Z) (w : W) (env : list (vring_packed_virtq -> vring_packed_virtq))
    : option drain_result :=
  let vq := if is_null can_send then vq else vring_packed_notification vq 0 in
  s ← run drain_iter fuel (mk_drain (mk_view vq env) 0 0 can_send map w);
  let '(txq, v) := finish_batch (set_notify 0 txq) (d_count s) (d_bufs s) (d_view s) in
  Some (mk_drain_result (d_count s) v txq (d_can_send s) (d_map s) (d_w s)).

End hypervisor.
Arguments push_state : clear implicits.
Arguments drain_state : clear implicits.

(** ** Out of order processing: acquire, release, notify *)

Definition upd_counters (inuse dropped used : Z) vq : vring_packed_virtq :=
  let gp := g vq in
  set_g (mk_g (g_next_free_id gp) (g_next_avail_idx gp) (g_next_used_idx gp) (g_avail_wrap_counter gp)
           (g_used_wrap_counter gp) (g_avail_used_flags gp) (u32 (g_pending_inuse_counter gp + inuse))
           (u32 (g_avail_dropped gp + dropped)) (u32 (g_pending_used_counter gp + used))) vq.

(** [None] is the failure of the assertion on the flags. *)
Definition vring_packed_desc_swap_acquired vq (idx1 idx2 : Z) : option vring_packed_virtq :=
  let d1 := get_desc idx1 vq in
  let d2 := get_desc idx2 vq in
  let vq := put_desc idx1 (mk_desc (addr d2) (len d2) (id d2) (flags d1) (mark d1)) vq in
  let vq := put_desc idx2 (mk_desc (addr d1) (len d1) (id d1) (flags (get_desc idx2 vq))
                             (mark (get_desc idx2 vq))) vq in
  let f1 := flags (get_desc idx1 vq) in
  let f2 := flags (get_desc idx2 vq) in
  if (idx1 =? idx2) || ((idx1 <? idx2) && (f1 =? f2)) ||
     ((idx2 <? idx1) && (Z.lxor f1 f2 =? Z.lor AVAIL USED))
  then Some vq else None.

Definition vring_packed_txq_release vq (opaque_id : Z) : option vring_packed_virtq :=
  let used_idx := h_next_used_idx (h vq) in
  let bid := u16 opaque_id in
  if g_pending_inuse_counter (g vq) =? 0 then Some vq
  else
    let idx := u16 (get_map bid vq) in
    vq ← (if negb (idx =? used_idx) then
            let vq := put_map (id (get_desc used_idx vq)) idx vq in
            vring_packed_desc_swap_acquired vq used_idx idx
          else Some vq);
    let vq := put_desc used_idx (set_flags (h_avail_used_flags (h vq)) (get_desc used_idx vq)) vq in
    let vq := upd_counters (-1) 0 0 vq in
    let vq := vring_packed_advance_used vq in
    Some (upd_counters 0 0 1 vq).

Definition vring_packed_txq_notify (txq : queue_io) vq : Z * queue_io * vring_packed_virtq :=
  let count := g_pending_used_counter (g vq) in
  if 0 <? count then
    let notify := b2z (vring_packed_intr_needed vq (u16 count)) in
    let txq := upd_stats (stats_batch count) (set_notify notify txq) in
    let gp := g vq in
    (count, txq,
     set_g (mk_g (g_next_free_id gp) (g_next_avail_idx gp) (g_next_used_idx gp) (g_avail_wrap_counter gp)
              (g_used_wrap_counter gp) (g_avail_used_flags gp) (g_pending_inuse_counter gp)
              (g_avail_dropped gp) 0) vq)
  else (count, txq, vq).

(** What [txq_acquire] uses of the backend process: the marking mode, the
    marking function on host memory, and the scheduler behind
    [bp->sched_enqueue], whose state is [S]; its result is positive when the
    packet was dropped. *)
Class Scheduler (S : Type) := {
  mark_mode : Z;
  hv_mark_pkt_fun : S -> Z -> Z -> Z;
  sched_enqueue : S -> iovec -> Z -> Z -> Z * S;
}.

Section acquire.
Context {S : Type} `{!Scheduler S}.

Record acquire_state := mk_acquire {
  q_view : view;
  q_count : Z;
  q__dropped : Z;
  q_dropped : Z;        (* [*dropped] *)
  q_bufs : Z;
  q_map : mem_map;
  q_sched : S;
}.

(** The [switch] on the marking mode; [None] is [assert(0)]. *)
Definition mark_of (s : S) (d : vring_packed_desc) (base : Z) : option Z :=
  if mark_mode =? MARK_MODE_GUEST then Some (mark d)
  else if mark_mode =? MARK_MODE_HV then Some (u32 (hv_mark_pkt_fun s base (u32 (len d))))
  else if mark_mode =? MARK_MODE_NO_MARK then Some 0
  else None.

Definition acquire_iter (busy : bool) (s : acquire_state) : option (step acquire_state) :=
  let avail_idx := h_next_avail_idx (h (v_vq (q_view s))) in
  let '(more, v) := poll busy (q_view s) in
  if negb more then
    Some (Break (mk_acquire v (q_count s) (q__dropped s) (q__dropped s) (q_bufs s) (q_map s) (q_sched s)))
  else if BPFHV_BE_TX_BUDGET <=? q_count s then
    Some (Break (mk_acquire v (q_count s) (q__dropped s) (q_dropped s) (q_bufs s) (q_map s) (q_sched s)))
  else
    let d := get_desc avail_idx (v_vq v) in
    let '(base, map) := translate_addr (q_map s) (addr d) (len d) in
    let finish vq dropped sched :=
      let vq := vring_packed_advance_avail (upd_counters 1 0 0 vq) in
      Some (Continue (mk_acquire (mk_view vq (v_env v)) (q_count s + 1) (q__dropped s + dropped)
                        (q_dropped s) (q_bufs s + 1) map sched)) in
    if base =? NULL then finish (v_vq v) 0 (q_sched s)
    else
      let vq := put_map (id d) avail_idx (v_vq v) in
      mark ← mark_of (q_sched s) d base;
      let '(ret, sched) := sched_enqueue (q_sched s) (mk_iov base (len d)) (id d) mark in
      if 0 <? s32 ret then
        vq ← vring_packed_txq_release vq (id (get_desc avail_idx vq));
        finish (upd_counters 0 1 0 vq) 1 sched
      else finish vq 0 sched.

Record acquire_result := mk_acquire_result {
  ar_count : Z;
  ar_dropped : Z;
  ar_view : view;
  ar_txq : queue_io;
  ar_map : mem_map;
  ar_sched : S;
}.

(** [dropped0] is the value of [*dropped] at the call. *)
Definition vring_packed_txq_acquire (fuel : nat) (map : mem_map) (txq : queue_io) (vq : vring_packed_virtq)
    (can_send : option Z) (dropped0 : Z) (sched : S)
    (env : list (vring_packed_virtq -> vring_packed_virtq)) : option acquire_result :=
  let vq := if is_null can_send then vq else vring_packed_notification vq 0 in
  s ← run_opt (acquire_iter (is_null can_send)) fuel (mk_acquire (mk_view vq env) 0 0 dropped0 0 map sched);
  Some (mk_acquire_result (q_count s) (q_dropped s) (q_view s)
          (upd_stats (stats_add_bufs (q_bufs s)) (set_notify 0 txq)) (q_map s) (q_sched s)).

End acquire.
Arguments acquire_state : clear implicits.
