(* ===== verification/VringInv.v ===== *)
(** * The packed virtqueue: invariant, guest programs and events

    Slots are named by ghost counters that never wrap.  The counter [p] stands
    for slot [p mod n] in lap [p / n] of the queue; four of them describe the
    state of a queue with [n] slots: up to [ug] the guest has collected, up to
    [uh] the host has marked as used, up to [ah] the host has taken, and up to
    [ag] the guest has made available, [ug <= uh <= ah <= ag <= ug + n]. *)

From S2P Require Import Prelude Abi Backend MarkFun VringPacked.
Open Scope Z_scope.

(** ** Slots and laps *)

Section laps.
Context (n : Z).

Definition idx (p : Z) : Z := p mod n.
Definition lap_bit (p : Z) : bool := Z.even (p / n).

Hypothesis Hn : 1 <= n <= 2 ^ 15.

Lemma idx_range p : 0 <= idx p < n.
Proof. apply Z.mod_pos_bound. lia. Qed.

Lemma idx_inj p q : Z.abs (p - q) < n -> idx p = idx q -> p = q.
Proof.
  unfold idx. intros Hd He. pose proof (Z.div_mod p n ltac:(lia)). pose proof (Z.div_mod q n ltac:(lia)).
  assert (p / n = q / n) by nia. nia.
Qed.

Lemma idx_nat_inj p q : Z.abs (p - q) < n -> p <> q -> Z.to_nat (idx p) <> Z.to_nat (idx q).
Proof.
  intros Hd Hne He. pose proof (idx_range p). pose proof (idx_range q).
  apply Hne, idx_inj; [done|lia].
Qed.

(** The step of an index and of its wrap counter. *)
Lemma idx_succ p :
  (n <=? u16 (idx p + 1)) = (idx p + 1 =? n) /\
  idx (p + 1) = (if idx p + 1 =? n then 0 else u16 (idx p + 1)) /\
  lap_bit (p + 1) = (if idx p + 1 =? n then negb (lap_bit p) else lap_bit p).
Proof.
  pose proof (idx_range p) as Hr. change (2 ^ 15) with 32768 in Hn.
  rewrite (u16_id (idx p + 1)) by (unfold is_u16; change (2 ^ 16) with 65536; lia).
  unfold lap_bit, idx in *. pose proof (Z.div_mod p n ltac:(lia)) as Hdm.
  destruct (_ =? n) eqn:E; zify_bool.
  - assert (Hq : (p + 1) / n = p / n + 1) by (symmetry; apply (Z.div_unique_pos _ _ _ 0); lia).
    rewrite Hq, Z.even_add. simpl. split_and!; [by apply Z.leb_le; lia| |by destruct (Z.even _)].
    symmetry. apply (Z.mod_unique_pos _ _ (p / n + 1)); lia.
  - assert (Hq : (p + 1) / n = p / n) by (symmetry; apply (Z.div_unique_pos _ _ _ (p mod n + 1)); lia).
    rewrite Hq. split_and!; [by apply Z.leb_gt; lia| |done].
    symmetry. apply (Z.mod_unique_pos _ _ (p / n)); lia.
Qed.

(** The step of several positions of [vring_packed_intr]. *)
Lemma idx_add p k :
  0 <= k < n ->
  (if n <=? u16 (idx p + k) then (u16 (u16 (idx p + k) - n), Z.lxor (b2z (lap_bit p)) 1)
   else (u16 (idx p + k), b2z (lap_bit p))) = (idx (p + k), b2z (lap_bit (p + k))).
Proof.
  intros Hk. pose proof (idx_range p) as Hr. change (2 ^ 15) with 32768 in Hn.
  rewrite (u16_id (idx p + k)) by (unfold is_u16; change (2 ^ 16) with 65536; lia).
  pose proof (Z.div_mod p n ltac:(lia)) as Hdm. unfold lap_bit, idx in *.
  destruct (_ <=? _) eqn:E; zify_bool.
  - rewrite u16_id by (unfold is_u16; change (2 ^ 16) with 65536; lia). f_equal.
    { apply (Z.mod_unique_pos _ _ (p / n + 1)); lia. }
    rewrite <- (Z.div_unique_pos (p + k) n (p / n + 1) (p mod n + k - n)) by lia.
    rewrite Z.even_add. simpl. by destruct (Z.even _).
  - f_equal; [apply (Z.mod_unique_pos _ _ (p / n)); lia|].
    by rewrite <- (Z.div_unique_pos (p + k) n (p / n) (p mod n + k)) by lia.
Qed.

Lemma idx_add_n p : idx (p + n) = idx p.
Proof. unfold idx. rewrite <- (Z.mul_1_l n) at 1. apply Z.mod_add. lia. Qed.

Lemma lap_bit_add_n p : lap_bit (p + n) = negb (lap_bit p).
Proof.
  unfold lap_bit. rewrite <- (Z.mul_1_l n) at 1. rewrite Z.div_add by lia. rewrite Z.even_add. simpl.
  by destruct (Z.even _).
Qed.

Lemma lxor_b2z b : Z.lxor (b2z b) 1 = b2z (negb b).
Proof. by destruct b. Qed.

(** ** Events

    [event_at e] is the event structure that asks for a notification when the
    counter passes [e]. *)
Definition event_at (e : Z) : desc_event :=
  mk_event (Z.lor (idx e) (Z.shiftl (b2z (lap_bit e)) VRING_PACKED_EVENT_F_WRAP_CTR))
    VRING_PACKED_EVENT_FLAG_DESC.

Lemma small_bits i k : 0 <= i < 2 ^ 15 -> 15 <= k -> Z.testbit i k = false.
Proof. intros Hi Hk. rewrite <- (Z.mod_small i (2 ^ 15)) by lia. apply Z.mod_pow2_bits_high. lia. Qed.

Lemma off_wrap_parts i b :
  0 <= i < 2 ^ 15 ->
  let off := Z.lor i (Z.shiftl (b2z b) VRING_PACKED_EVENT_F_WRAP_CTR) in
  is_u16 off /\
  Z.land off (Z.lnot (Z.shiftl 1 VRING_PACKED_EVENT_F_WRAP_CTR)) = i /\
  Z.shiftr off VRING_PACKED_EVENT_F_WRAP_CTR = b2z b.
Proof.
  intros Hi off. unfold VRING_PACKED_EVENT_F_WRAP_CTR in *.
  assert (Hs : Z.shiftr off 15 = b2z b).
  { unfold off. rewrite Z.shiftr_lor, Z.shiftr_shiftl_l by lia.
    rewrite Z.shiftr_div_pow2, Z.div_small by lia. apply Z.shiftl_0_r. }
  split_and!; [| |done].
  - rewrite Z.shiftr_div_pow2 in Hs by lia. unfold is_u16. change (2 ^ 15) with 32768 in Hs.
    destruct b; simpl in Hs; Z.div_mod_to_equations; lia.
  - apply Z.bits_inj'. intros k Hk. unfold off. rewrite Z.land_spec, Z.lnot_spec, Z.lor_spec by lia.
    rewrite !Z.shiftl_spec by lia. destruct (decide (k = 15)) as [->|Hne].
    { rewrite small_bits by lia. by rewrite Z.sub_diag, andb_false_r. }
    assert (Hone : forall a, (a = 0 \/ a = 1) -> Z.testbit a (k - 15) = false).
    { intros a [->| ->]; [apply Z.bits_0|]. destruct (decide (k < 15)); [apply Z.testbit_neg_r; lia|].
      change 1 with (2 ^ 0). rewrite Z.pow2_bits_false by lia. done. }
    rewrite !Hone by (destruct b; auto). by rewrite orb_false_r, andb_true_r.
Qed.

(** The event test is exact: after advancing from [old] to [new], a
    notification is due exactly when the requested counter was passed.  The
    hypotheses bound how far the request and the advance can be. *)
Lemma event_needed_exact e old new :
  old <= new <= old + n -> new - n <= e <= old + n ->
  event_needed (event_at e) (idx new) (b2z (lap_bit new)) (new - old) n = true <-> old <= e < new.
Proof.
  intros Hon He. pose proof (idx_range new) as Hi. pose proof (idx_range e) as Hj.
  destruct (off_wrap_parts (idx e) (lap_bit e) ltac:(lia)) as (_ & Hoff & Hw).
  unfold event_needed, event_at, vring_need_event; simpl ev_flags; simpl off_wrap.
  rewrite Hoff, Hw. clear Hoff Hw. simpl negb. cbv iota. rewrite Z.ltb_lt.
  change (2 ^ 15) with 32768 in Hn. unfold lap_bit, idx in *.
  pose proof (Z.div_mod e n ltac:(lia)) as Ee. pose proof (Z.div_mod new n ltac:(lia)) as En.
  set (i := new mod n) in *. set (j := e mod n) in *. clearbody i j.
  assert (Hl : e / n = new / n \/ e / n = new / n - 1 \/ e / n = new / n + 1) by nia.
  destruct Hl as [Hl|[Hl|Hl]]; rewrite Hl in *.
  - rewrite Z.eqb_refl. simpl. assert (e - new = j - i) by lia. clear Ee En Hl. warith.
  - replace (Z.even (new / n - 1)) with (negb (Z.even (new / n)))
      by (rewrite Z.even_sub; simpl; by destruct (Z.even _)).
    assert (e - new = j - n - i) by lia. clear Ee En Hl.
    destruct (Z.even (new / n)); simpl; warith.
  - replace (Z.even (new / n + 1)) with (negb (Z.even (new / n)))
      by (rewrite Z.even_add; simpl; by destruct (Z.even _)).
    assert (e - new = j + n - i) by lia. clear Ee En Hl.
    destruct (Z.even (new / n)); simpl; warith.
Qed.

End laps.
Arguments idx : simpl never.
Arguments lap_bit : simpl never.

(** ** The invariant *)

(** [seqZ] between two counters. *)
Definition range (lo hi : Z) : list Z := seqZ lo (hi - lo).

Lemma range_nil lo : range lo lo = [].
Proof. unfold range. by rewrite Z.sub_diag. Qed.
Lemma range_cons lo hi : lo < hi -> range lo hi = lo :: range (lo + 1) hi.
Proof. intros. unfold range. rewrite seqZ_cons by lia. do 2 f_equal; lia. Qed.
Lemma range_app lo mid hi : lo <= mid <= hi -> range lo hi = range lo mid ++ range mid hi.
Proof.
  intros. unfold range. replace (hi - lo) with ((mid - lo) + (hi - mid)) by lia.
  rewrite seqZ_app by lia. do 2 f_equal. lia.
Qed.
Lemma range_snoc lo hi : lo <= hi -> range lo (hi + 1) = range lo hi ++ [hi].
Proof. intros. rewrite (range_app lo hi) by lia. by rewrite (range_cons hi), range_nil by lia. Qed.
Lemma elem_of_range p lo hi : p ∈ range lo hi <-> lo <= p < hi.
Proof. unfold range. rewrite elem_of_seqZ. lia. Qed.
Lemma length_range lo hi : lo <= hi -> Z.of_nat (length (range lo hi)) = hi - lo.
Proof. intros. unfold range. rewrite length_seqZ. lia. Qed.
Lemma map_range_ext {A} (f f' : Z -> A) lo hi :
  (forall p, lo <= p < hi -> f p = f' p) -> map f (range lo hi) = map f' (range lo hi).
Proof. intros Hf. apply map_ext_in. intros p Hp%list_elem_of_In%elem_of_range. by apply Hf. Qed.

(** The counters, the ids of the free entries of the state table in the order
    of the free list, and the direction of the queue ([rw] is the flag that
    the guest adds to every descriptor). *)
Record ghost := mk_gh { ug : Z; uh : Z; ah : Z; ag : Z; fl : list Z; rw : Z }.

Definition slot vq (p : Z) : vring_packed_desc := get_desc (idx (num_desc vq) p) vq.
Definition lap vq (p : Z) : bool := lap_bit (num_desc vq) p.

Definition avail_flags (b : bool) : Z := if b then AVAIL else USED.
Definition used_flags (b : bool) : Z := if b then Z.lor AVAIL USED else 0.

(** The ids of the descriptors that the guest has made available and not yet
    collected. *)
Definition ids vq (gh : ghost) : list Z := map (fun p => id (slot vq p)) (range (ug gh) (ag gh)).

Fixpoint free_chain (st : list vring_packed_desc_state) (head : Z) (fl : list Z) : Prop :=
  match fl with
  | [] => True
  | i :: fl' => head = i /\ free_chain st (next (st !!! Z.to_nat i)) fl'
  end.

(** What the guest relies on: every id of the state table is either in flight
    and busy or on the free list. *)
Record guest_inv vq (gh : ghost) : Prop := {
  gi_n : 1 <= num_desc vq <= 2 ^ 15;
  gi_desc : length (desc vq) = Z.to_nat (num_desc vq);
  gi_state : length (state vq) = Z.to_nat (num_desc vq);
  gi_order : ug gh <= ag gh <= ug gh + num_desc vq;
  gi_avail : g_next_avail_idx (g vq) = idx (num_desc vq) (ag gh) /\
             g_avail_wrap_counter (g vq) = b2z (lap vq (ag gh)) /\
             g_avail_used_flags (g vq) = avail_flags (lap vq (ag gh));
  gi_used : g_next_used_idx (g vq) = idx (num_desc vq) (ug gh) /\
            g_used_wrap_counter (g vq) = b2z (lap vq (ug gh));
  gi_ids : ids vq gh ++ fl gh ≡ₚ range 0 (num_desc vq);
  gi_chain : free_chain (state vq) (g_next_free_id (g vq)) (fl gh);
  gi_busy : forall i, i ∈ ids vq gh -> busy (get_state i vq) <> 0;
}.

(** What the host keeps. *)
Record host_inv vq (gh : ghost) : Prop := {
  hi_order : ug gh <= uh gh <= ah gh /\ ah gh <= ag gh;
  hi_avail : h_next_avail_idx (h vq) = idx (num_desc vq) (ah gh) /\
             h_avail_wrap_counter (h vq) = b2z (lap vq (ah gh));
  hi_used : h_next_used_idx (h vq) = idx (num_desc vq) (uh gh) /\
            h_used_wrap_counter (h vq) = b2z (lap vq (uh gh)) /\
            h_avail_used_flags (h vq) = used_flags (lap vq (uh gh));
}.

(** The flags of the slots: used up to [uh], available up to [ag], and beyond
    as the previous lap left them. *)
Definition slot_flags vq (gh : ghost) (p : Z) : Z :=
  if p <? uh gh then used_flags (lap vq p)
  else if p <? ag gh then Z.lor (avail_flags (lap vq p)) (rw gh)
  else used_flags (negb (lap vq p)).

Definition flags_inv vq (gh : ghost) : Prop :=
  (rw gh = 0 \/ rw gh = VRING_DESC_F_WRITE) /\
  forall p, ug gh <= p < ug gh + num_desc vq -> flags (slot vq p) = slot_flags vq gh p.

Record vq_inv vq (gh : ghost) : Prop := {
  vi_guest : guest_inv vq gh;
  vi_host : host_inv vq gh;
  vi_flags : flags_inv vq gh;
}.

(** *** The abstract queue: the buffers used, taken and available *)

Record entry := mk_entry { e_cookie : Z; e_addr : Z; e_len : Z; e_mark : Z }.
#[export] Instance entry_inhabited : Inhabited entry := populate (mk_entry 0 0 0 0).

Definition entry_at vq (p : Z) : entry :=
  let d := slot vq p in mk_entry (cookie (get_state (id d) vq)) (addr d) (len d) (mark d).
Definition entries vq (lo hi : Z) : list entry := map (entry_at vq) (range lo hi).

Definition used_entries vq gh : list entry := entries vq (ug gh) (uh gh).
Definition taken_entries vq gh : list entry := entries vq (uh gh) (ah gh).
Definition avail_entries vq gh : list entry := entries vq (ah gh) (ag gh).

Arguments slot : simpl never.
Arguments entry_at : simpl never.

(** *** Reading and writing slots and states *)

Lemma slot_put vq q d p :
  1 <= num_desc vq <= 2 ^ 15 -> length (desc vq) = Z.to_nat (num_desc vq) ->
  Z.abs (p - q) < num_desc vq ->
  slot (put_desc (idx (num_desc vq) q) d vq) p = if decide (p = q) then d else slot vq p.
Proof.
  intros Hn Hl Hd. unfold slot, get_desc; simpl. pose proof (idx_range _ Hn q).
  case_decide as E; [subst; rewrite lookup_total_insert_eq by lia; done|].
  apply lookup_total_insert_ne. apply not_eq_sym. by apply idx_nat_inj.
Qed.

Lemma id_range vq gh p :
  guest_inv vq gh -> ug gh <= p < ag gh -> 0 <= id (slot vq p) < num_desc vq.
Proof.
  intros Hg Hp. apply elem_of_range. rewrite <- (gi_ids _ _ Hg). apply elem_of_app. left.
  apply list_elem_of_fmap. exists p. split; [done|]. by apply elem_of_range.
Qed.

Lemma ids_NoDup vq gh : guest_inv vq gh -> NoDup (ids vq gh ++ fl gh).
Proof. intros Hg. rewrite (gi_ids _ _ Hg). apply NoDup_seqZ. Qed.

Lemma id_inj vq gh p q :
  guest_inv vq gh -> ug gh <= p < ag gh -> ug gh <= q < ag gh ->
  id (slot vq p) = id (slot vq q) -> p = q.
Proof.
  intros Hg Hp Hq He. pose proof (ids_NoDup _ _ Hg) as [Hnd _]%list.NoDup_app.
  unfold ids in Hnd.
  assert (Hlk : forall r, ug gh <= r < ag gh ->
     map (fun p => id (slot vq p)) (range (ug gh) (ag gh)) !! Z.to_nat (r - ug gh) = Some (id (slot vq r))).
  { intros r Hr. apply list_lookup_fmap_Some. exists r. split; [done|]. apply lookup_seqZ. lia. }
  pose proof (Hlk p Hp) as Hp'. pose proof (Hlk q Hq) as Hq'. rewrite <- He in Hq'.
  pose proof (NoDup_lookup _ _ _ _ Hnd Hp' Hq'). lia.
Qed.

Lemma state_put_eq vq i s :
  0 <= i -> (Z.to_nat i < length (state vq))%nat -> get_state i (put_state i s vq) = s.
Proof. intros. by apply lookup_total_insert_eq. Qed.

Lemma state_put_ne vq i j s :
  0 <= i -> 0 <= j -> i <> j -> get_state j (put_state i s vq) = get_state j vq.
Proof. intros. apply lookup_total_insert_ne. lia. Qed.

Lemma free_chain_insert st i s head fl :
  0 <= i -> Forall (fun j => 0 <= j) fl -> i ∉ fl ->
  free_chain st head fl -> free_chain (<[Z.to_nat i := s]> st) head fl.
Proof.
  intros Hi HF. revert head. induction HF as [|j fl Hj HF IH]; intros head Hni; simpl; [done|].
  apply not_elem_of_cons in Hni as [Hne Hni]. intros [-> Hc]. split; [done|].
  rewrite lookup_total_insert_ne by lia. by apply IH.
Qed.

Lemma fl_range vq gh i : guest_inv vq gh -> i ∈ fl gh -> 0 <= i < num_desc vq.
Proof.
  intros Hg Hi. apply elem_of_range. rewrite <- (gi_ids _ _ Hg). apply elem_of_app. by right.
Qed.

Lemma fl_nonneg vq gh : guest_inv vq gh -> Forall (fun j => 0 <= j) (fl gh).
Proof. intros Hg. apply list.Forall_forall. intros i Hi%(fl_range _ _ _ Hg). lia. Qed.

Lemma fl_length vq gh : guest_inv vq gh -> Z.of_nat (length (fl gh)) = ug gh + num_desc vq - ag gh.
Proof.
  intros Hg. pose proof (gi_ids _ _ Hg) as HP. apply Permutation_length in HP.
  pose proof (gi_order _ _ Hg). pose proof (gi_n _ _ Hg).
  rewrite length_app in HP. unfold ids in HP. rewrite length_map in HP.
  pose proof (length_range (ug gh) (ag gh) ltac:(lia)).
  pose proof (length_range 0 (num_desc vq) ltac:(lia)). lia.
Qed.

(** *** Making a buffer available *)

(** The ghost state after [vring_packed_add] and [vring_packed_get]. *)
Definition gh_add (gh : ghost) : ghost :=
  mk_gh (ug gh) (uh gh) (ah gh) (ag gh + 1) (tail (fl gh)) (rw gh).
Definition gh_get (i : Z) (gh : ghost) : ghost :=
  mk_gh (ug gh + 1) (uh gh) (ah gh) (ag gh) (i :: fl gh) (rw gh).

(** What neither operation of the guest changes. *)
Definition host_same vq vq' : Prop :=
  num_desc vq' = num_desc vq /\ h vq' = h vq /\ device_event vq' = device_event vq /\
  hv_map vq' = hv_map vq /\ mark_on_guest vq' = mark_on_guest vq /\
  g_pending_inuse_counter (g vq') = g_pending_inuse_counter (g vq) /\
  g_avail_dropped (g vq') = g_avail_dropped (g vq) /\
  g_pending_used_counter (g vq') = g_pending_used_counter (g vq).

Lemma lxor_avail b : Z.lxor (avail_flags b) (Z.lor AVAIL USED) = avail_flags (negb b).
Proof. by destruct b. Qed.
Lemma lxor_used b : Z.lxor (used_flags b) (Z.lor AVAIL USED) = used_flags (negb b).
Proof. by destruct b. Qed.

(** What [vring_packed_add] does to the parts of the queue; [i] is the head of
    the free list. *)
Lemma add_parts vq gh b f mk i fl' :
  guest_inv vq gh -> fl gh = i :: fl' ->
  let vq' := vring_packed_add vq b f mk in
  host_same vq vq' /\ driver_event vq' = driver_event vq /\
  length (desc vq') = length (desc vq) /\
  state vq' = <[Z.to_nat i := mk_state (buf_cookie b) 1 (num (get_state i vq)) (next (get_state i vq))
                                (VringPacked.last (get_state i vq))]> (state vq) /\
  g_next_free_id (g vq') = next (get_state i vq) /\
  (g_next_avail_idx (g vq') = idx (num_desc vq) (ag gh + 1) /\
   g_avail_wrap_counter (g vq') = b2z (lap vq (ag gh + 1)) /\
   g_avail_used_flags (g vq') = avail_flags (lap vq (ag gh + 1))) /\
  (g_next_used_idx (g vq') = g_next_used_idx (g vq) /\
   g_used_wrap_counter (g vq') = g_used_wrap_counter (g vq)) /\
  (forall p, Z.abs (p - ag gh) < num_desc vq ->
     slot vq' p = if decide (p = ag gh)
                  then mk_desc (buf_paddr b) (buf_len b) i (Z.lor (avail_flags (lap vq (ag gh))) f) mk
                  else slot vq p).
Proof.
  intros Hg Hfl vq'.
  pose proof (gi_n _ _ Hg) as Hn. pose proof (gi_chain _ _ Hg) as Hch. rewrite Hfl in Hch. destruct Hch as [Hi _].
  destruct (gi_avail _ _ Hg) as (Ea & Ew & Ef).
  assert (Hir : 0 <= i < num_desc vq).
  { apply (fl_range _ _ _ Hg). rewrite Hfl. left. }
  pose proof (gi_state _ _ Hg) as Hls. pose proof (gi_desc _ _ Hg) as Hld.
  assert (Hst : (Z.to_nat i < length (state vq))%nat) by lia.
  destruct (idx_succ _ Hn (ag gh)) as (Hw & Hidx & Hlap). fold (lap vq (ag gh)) in Hlap.
  subst vq'. unfold vring_packed_add, host_same. rewrite Hi, Ea. simpl. rewrite Hw, Ew, Ef.
  split_and!; try done.
  - by rewrite !length_insert.
  - unfold get_state; simpl. rewrite list_insert_insert_eq. by rewrite !lookup_total_insert_eq by (rewrite ?length_insert; lia).
  - unfold get_state; simpl. by rewrite lookup_total_insert_eq.
  - unfold lap. rewrite Hlap. case_if; [by rewrite lxor_b2z|done].
  - unfold lap. rewrite Hlap. case_if; [by rewrite lxor_avail|done].
  - intros p Hp. unfold slot, get_desc; simpl. pose proof (idx_range _ Hn (ag gh)).
    rewrite list_insert_insert_eq, !lookup_total_insert_eq by lia.
    case_decide as E; [subst p; by rewrite lookup_total_insert_eq by lia|].
    apply lookup_total_insert_ne. apply not_eq_sym. by apply idx_nat_inj.
Qed.

Lemma host_same_slot_lap vq vq' p : host_same vq vq' -> lap vq' p = lap vq p.
Proof. intros (Hn & _). unfold lap. by rewrite Hn. Qed.

(** A descriptor in flight is not on the free list, nor the other way. *)
Lemma id_not_free vq gh p i :
  guest_inv vq gh -> ug gh <= p < ag gh -> i ∈ fl gh -> id (slot vq p) <> i.
Proof.
  intros Hg Hp Hi He. pose proof (ids_NoDup _ _ Hg) as (_ & Hd & _)%list.NoDup_app.
  apply (Hd (id (slot vq p))); [|by rewrite He]. apply list_elem_of_fmap.
  exists p. split; [done|]. by apply elem_of_range.
Qed.

(** [vring_packed_add], when the queue has room, makes the buffer available
    and keeps the rest. *)
Lemma add_spec vq gh b f mk :
  guest_inv vq gh -> ag gh < ug gh + num_desc vq ->
  let vq' := vring_packed_add vq b f mk in
  guest_inv vq' (gh_add gh) /\ host_same vq vq' /\ driver_event vq' = driver_event vq /\
  (forall p, Z.abs (p - ag gh) < num_desc vq -> p <> ag gh -> slot vq' p = slot vq p) /\
  flags (slot vq' (ag gh)) = Z.lor (avail_flags (lap vq (ag gh))) f /\
  (forall p, ug gh <= p < ag gh -> entry_at vq' p = entry_at vq p) /\
  entry_at vq' (ag gh) = mk_entry (buf_cookie b) (buf_paddr b) (buf_len b) mk.
Proof.
  intros Hg Hroom vq'. pose proof (fl_length _ _ Hg) as Hlen. pose proof (gi_n _ _ Hg) as Hn.
  destruct (fl gh) as [|i fl'] eqn:Hfl; [simpl in Hlen; lia|].
  destruct (add_parts vq gh b f mk i fl' Hg Hfl) as (Hs & Hd & Hl & Hst & Hf & Ha & Hu & Hslot).
  fold vq' in Hs, Hd, Hl, Hst, Hf, Ha, Hu, Hslot. clearbody vq'. pose proof Hs as (En & _).
  pose proof (gi_order _ _ Hg) as Ho. pose proof (gi_state _ _ Hg) as Hls.
  assert (Hi : i ∈ fl gh) by (rewrite Hfl; left).
  pose proof (fl_range _ _ _ Hg Hi) as Hir.
  assert (Hold : forall p, Z.abs (p - ag gh) < num_desc vq -> p <> ag gh -> slot vq' p = slot vq p).
  { intros p Hp Hne. rewrite Hslot by done. by rewrite decide_False. }
  pose proof (Hslot (ag gh) ltac:(lia)) as Hnew. rewrite decide_True in Hnew by done.
  assert (Hids : ids vq' (gh_add gh) = ids vq gh ++ [i]).
  { unfold ids; simpl. rewrite range_snoc, map_app by lia. simpl. rewrite Hnew. simpl. f_equal.
    apply map_range_ext. intros p Hp. by rewrite Hold by lia. }
  assert (Hgs : forall j, 0 <= j -> j <> i -> get_state j vq' = get_state j vq).
  { intros j Hj Hne. unfold get_state. rewrite Hst. apply lookup_total_insert_ne. lia. }
  assert (Hgi : get_state i vq' = mk_state (buf_cookie b) 1 (num (get_state i vq)) (next (get_state i vq))
                                    (VringPacked.last (get_state i vq))).
  { unfold get_state at 1. rewrite Hst. apply lookup_total_insert_eq. lia. }
  assert (Hni : i ∉ fl').
  { pose proof (ids_NoDup _ _ Hg) as (_ & _ & Hnd)%list.NoDup_app. rewrite Hfl in Hnd. by inversion Hnd. }
  split_and!; try done.
  - constructor; rewrite ?En; simpl; try done; try lia.
    + by rewrite Hl, (gi_desc _ _ Hg).
    + by rewrite Hst, length_insert.
    + unfold lap. rewrite En. exact Ha.
    + destruct Hu as [-> ->]. unfold lap. rewrite En. apply (gi_used _ _ Hg).
    + rewrite Hids, Hfl, <- app_assoc. simpl. rewrite <- Hfl. apply (gi_ids _ _ Hg).
    + pose proof (gi_chain _ _ Hg) as Hc. rewrite Hfl in Hc |- *. destruct Hc as [_ Hc]. simpl.
      rewrite Hst, Hf. apply free_chain_insert; try done; [lia|].
      pose proof (fl_nonneg _ _ Hg) as HF. rewrite Hfl in HF. by inversion HF.
    + intros j. rewrite Hids. intros [Hj| ->%list_elem_of_singleton]%elem_of_app; [|by rewrite Hgi].
      assert (Hjr : 0 <= j).
      { apply list_elem_of_fmap in Hj as (p & -> & Hp%elem_of_range).
        by apply (id_range _ _ _ Hg). }
      destruct (decide (j = i)) as [->|]; [by rewrite Hgi|]. rewrite Hgs by done.
      by apply (gi_busy _ _ Hg).
  - by rewrite Hnew.
  - intros p Hp. unfold entry_at. rewrite Hold by lia.
    rewrite Hgs; [done| |by apply (id_not_free _ _ _ _ Hg)]. by apply (id_range _ _ _ Hg).
  - unfold entry_at. rewrite Hnew; simpl. by rewrite Hgi.
Qed.

(** *** Collecting a buffer *)

(** [vring_packed_get] takes the oldest descriptor in flight and gives its
    buffer back with the cookie it was added with. *)
Lemma get_spec vq gh b0 :
  guest_inv vq gh -> ug gh < ag gh ->
  let e := entry_at vq (ug gh) in
  exists vq', vring_packed_get vq b0 = (1, vq', mk_buf (e_cookie e) (e_addr e) (buf_vaddr b0) (e_len e)) /\
    guest_inv vq' (gh_get (id (slot vq (ug gh))) gh) /\ host_same vq vq' /\
    driver_event vq' = driver_event vq /\ desc vq' = desc vq /\
    (forall p, ug gh < p < ag gh -> entry_at vq' p = entry_at vq p).
Proof.
  intros Hg Hlt e. pose proof (gi_n _ _ Hg) as Hn. pose proof (gi_order _ _ Hg) as Ho.
  destruct (gi_used _ _ Hg) as [Eu Ew]. pose proof (gi_state _ _ Hg) as Hls.
  set (i := id (slot vq (ug gh))) in *.
  assert (Hi : 0 <= i < num_desc vq) by (apply (id_range _ _ _ Hg); lia).
  assert (Hin : i ∈ ids vq gh).
  { apply list_elem_of_fmap. exists (ug gh). split; [done|]. apply elem_of_range. lia. }
  pose proof (gi_busy _ _ Hg _ Hin) as Hb.
  unfold vring_packed_get. rewrite Eu. fold (slot vq (ug gh)). fold i.
  rewrite (proj2 (Z.leb_gt _ _)), (proj2 (Z.eqb_neq _ _) Hb) by lia. simpl.
  eexists. split; [reflexivity|]. set (vq' := set_g _ _).
  destruct (idx_succ _ Hn (ug gh)) as (Hw & Hidx & Hlap).
  assert (Hslot : forall p, slot vq' p = slot vq p) by done.
  assert (Hst : state vq' = <[Z.to_nat i := mk_state (cookie (get_state i vq)) 0 (num (get_state i vq))
     (g_next_free_id (g vq)) (VringPacked.last (get_state i vq))]> (state vq)) by done.
  assert (Hgs : forall j, 0 <= j -> j <> i -> get_state j vq' = get_state j vq).
  { intros j Hj Hne. unfold get_state. rewrite Hst. apply lookup_total_insert_ne. lia. }
  assert (Hids : ids vq gh = i :: ids vq' (gh_get i gh)).
  { unfold ids. rewrite range_cons by lia. done. }
  pose proof (ids_NoDup _ _ Hg) as Hnd. rewrite Hids in Hnd. apply list.NoDup_app in Hnd as (Hnd & Hdis & _).
  apply list.NoDup_cons in Hnd as [Hnotin _].
  assert (Hnf : i ∉ fl gh) by (apply Hdis; left).
  split_and!; try done.
  - constructor; simpl; try done; try lia.
    + apply (gi_desc _ _ Hg).
    + by rewrite length_insert.
    + apply (gi_avail _ _ Hg).
    + rewrite Hw, Ew. unfold lap. simpl. rewrite Hidx, Hlap. split; [done|].
      case_if; [by rewrite lxor_b2z|done].
    + rewrite <- (gi_ids _ _ Hg), Hids. simpl. by rewrite Permutation_middle.
    + split; [done|]. rewrite lookup_total_insert_eq by lia. simpl.
      apply free_chain_insert; [lia|by apply (fl_nonneg vq)|done|apply (gi_chain _ _ Hg)].
    + intros j Hj. assert (Hj' : j ∈ ids vq gh) by (rewrite Hids; by right).
      assert (j <> i) by congruence. rewrite Hgs; [by apply (gi_busy _ _ Hg)| |done].
      apply list_elem_of_fmap in Hj' as (p & -> & Hp%elem_of_range). by apply (id_range _ _ _ Hg).
  - intros p Hp. unfold entry_at. rewrite Hslot. rewrite Hgs; [done|apply (id_range _ _ _ Hg); lia|].
    intros E. apply (id_inj _ _ _ _ Hg) in E; lia.
Qed.

(** *** The full invariant *)

Lemma flags_avail d b f :
  f = 0 \/ f = VRING_DESC_F_WRITE -> flags d = Z.lor (avail_flags b) f ->
  avail_bit d = b2z b /\ used_bit d = b2z (negb b).
Proof. unfold avail_bit, used_bit. intros [-> | ->] ->; by destruct b. Qed.

Lemma flags_used d b : flags d = used_flags b -> avail_bit d = b2z b /\ used_bit d = b2z b.
Proof. unfold avail_bit, used_bit. intros ->. by destruct b. Qed.

(** The state of the slot at [p], which may be one lap ahead of the window. *)
Lemma slot_bits vq gh p :
  vq_inv vq gh -> ug gh <= p < ug gh + num_desc vq \/ p = ag gh ->
  let d := slot vq p in
  if p <? uh gh then avail_bit d = b2z (lap vq p) /\ used_bit d = b2z (lap vq p)
  else if p <? ag gh then avail_bit d = b2z (lap vq p) /\ used_bit d = b2z (negb (lap vq p))
  else avail_bit d = b2z (negb (lap vq p)).
Proof.
  intros [Hg Hh [Hrw Hf]] Hp d. subst d. pose proof (gi_n _ _ Hg) as Hn. pose proof (gi_order _ _ Hg) as Ho.
  destruct (hi_order _ _ Hh) as [Ho1 Ho2].
  destruct (decide (p = ug gh + num_desc vq)) as [->|Hne].
  - rewrite (proj2 (Z.ltb_ge _ _)), (proj2 (Z.ltb_ge _ _)) by lia. unfold lap.
    rewrite lap_bit_add_n by done. rewrite negb_involutive.
    assert (slot vq (ug gh + num_desc vq) = slot vq (ug gh)) as -> by (unfold slot; by rewrite idx_add_n).
    specialize (Hf (ug gh) ltac:(lia)). unfold slot_flags in Hf. fold (lap vq (ug gh)).
    case_if_in Hf; [by apply flags_used in Hf as [? _]|].
    case_if_in Hf; [by apply flags_avail in Hf as [? _]|]. lia.
  - specialize (Hf p ltac:(lia)). unfold slot_flags in Hf.
    destruct (p <? uh gh); [by apply flags_used|]. destruct (p <? ag gh); [by apply (flags_avail _ _ (rw gh))|].
    by apply flags_used in Hf as [? _].
Qed.

Lemma b2z_eqb b c : (b2z b =? b2z c) = Bool.eqb b c.
Proof. by destruct b, c. Qed.

(** The tests on the flags tell exactly where the counters are. *)
Lemma more_avail_spec vq gh : vq_inv vq gh -> vring_packed_more_avail vq = (ah gh <? ag gh).
Proof.
  intros Hinv. pose proof Hinv as [Hg Hh _]. pose proof (gi_order _ _ Hg) as Ho.
  destruct (hi_order _ _ Hh) as [Ho1 Ho2]. destruct (hi_avail _ _ Hh) as [Ea Ew].
  pose proof (slot_bits vq gh (ah gh) Hinv ltac:(lia)) as Hb. cbv zeta in Hb.
  unfold vring_packed_more_avail. rewrite Ea, Ew. fold (slot vq (ah gh)).
  rewrite (proj2 (Z.ltb_ge _ _)) in Hb by lia. destruct (ah gh <? ag gh).
  - destruct Hb as [-> ->]. by destruct (lap _ _).
  - rewrite Hb. unfold used_bit. destruct (lap _ _), (has_flag _ _); done.
Qed.

Lemma desc_is_used_spec vq gh p :
  vq_inv vq gh -> ug gh <= p < ug gh + num_desc vq ->
  vring_packed_desc_is_used vq (idx (num_desc vq) p) (b2z (lap vq p)) = (p <? uh gh).
Proof.
  intros Hinv Hp. pose proof (slot_bits vq gh p Hinv ltac:(lia)) as Hb. cbv zeta in Hb.
  unfold vring_packed_desc_is_used. fold (slot vq p). destruct (p <? uh gh).
  - destruct Hb as [-> ->]. by destruct (lap _ _).
  - destruct (p <? ag gh); [destruct Hb as [-> ->]; by destruct (lap _ _)|].
    rewrite Hb. unfold used_bit. destruct (lap _ _), (has_flag _ _); done.
Qed.

Lemma more_used_spec vq gh : vq_inv vq gh -> vring_packed_more_used vq = (ug gh <? uh gh).
Proof.
  intros Hinv. pose proof Hinv as [Hg _ _]. destruct (gi_used _ _ Hg) as [Eu Ew].
  pose proof (gi_n _ _ Hg). unfold vring_packed_more_used. rewrite Eu, Ew.
  apply desc_is_used_spec; [done|lia].
Qed.

(** [vring_packed_add] and [vring_packed_get] keep the full invariant. *)
Lemma host_inv_same vq vq' gh gh' :
  host_inv vq gh -> host_same vq vq' -> uh gh' = uh gh -> ah gh' = ah gh ->
  ug gh' <= uh gh -> ah gh <= ag gh' -> host_inv vq' gh'.
Proof.
  intros [[Ho1 Ho2] Ha Hu] (En & Eh & _) E1 E2 H1 H2. constructor; rewrite ?Eh, ?En, ?E1, ?E2.
  - lia.
  - unfold lap in *. by rewrite En.
  - unfold lap in *. by rewrite En.
Qed.

Lemma add_inv vq gh b mk :
  vq_inv vq gh -> ag gh < ug gh + num_desc vq ->
  vq_inv (vring_packed_add vq b (rw gh) mk) (gh_add gh).
Proof.
  intros [Hg Hh [Hrw Hf]] Hroom. pose proof (gi_n _ _ Hg) as Hn. pose proof (gi_order _ _ Hg).
  destruct (hi_order _ _ Hh).
  destruct (add_spec vq gh b (rw gh) mk Hg Hroom) as (Hg' & Hs & _ & Hold & Hnew & _).
  pose proof Hs as (En & _). constructor; [done|apply (host_inv_same vq _ gh); simpl; done || lia|].
  split; [done|]. rewrite En. simpl. intros p Hp. unfold slot_flags; simpl.
  rewrite (host_same_slot_lap _ _ _ Hs). destruct (decide (p = ag gh)) as [->|Hne].
  - rewrite Hnew. rewrite (proj2 (Z.ltb_ge _ _)), (proj2 (Z.ltb_lt _ _)) by lia. done.
  - rewrite Hold, Hf by lia. unfold slot_flags. repeat case_if; done || lia.
Qed.

Lemma get_inv vq gh vq' b0 b :
  vq_inv vq gh -> ug gh < uh gh -> vring_packed_get vq b0 = (1, vq', b) ->
  vq_inv vq' (gh_get (id (slot vq (ug gh))) gh).
Proof.
  intros [Hg Hh [Hrw Hf]] Hlt Hget. pose proof (gi_n _ _ Hg) as Hn. destruct (hi_order _ _ Hh).
  destruct (get_spec vq gh b0 Hg ltac:(lia)) as (vq1 & Hget' & Hg' & Hs & _ & Hd & _).
  rewrite Hget in Hget'. simplify_eq. pose proof Hs as (En & _).
  constructor; [done|apply (host_inv_same vq _ gh); simpl; done || lia|].
  split; [done|]. rewrite En. simpl. intros p Hp. unfold slot_flags; simpl.
  rewrite (host_same_slot_lap _ _ _ Hs).
  assert (slot vq1 p = slot vq p) as -> by (unfold slot, get_desc; by rewrite En, Hd).
  destruct (decide (p = ug gh + num_desc vq)) as [->|Hne].
  - assert (slot vq (ug gh + num_desc vq) = slot vq (ug gh)) as -> by (unfold slot; by rewrite idx_add_n).
    rewrite Hf by lia. unfold slot_flags. rewrite (proj2 (Z.ltb_lt _ _)) by lia.
    pose proof (gi_order _ _ Hg). rewrite !(proj2 (Z.ltb_ge _ _)) by lia. unfold lap.
    by rewrite lap_bit_add_n, negb_involutive.
  - rewrite Hf by lia. unfold slot_flags. done.
Qed.

(** *** Initialization *)

Lemma init_state_next n i :
  1 <= n <= 2 ^ 15 -> 0 <= i < n - 1 -> next (init_states n !!! Z.to_nat i) = i + 1.
Proof.
  intros Hn Hi. unfold init_states.
  rewrite lookup_total_app_l by (rewrite length_map, length_seq; lia).
  assert (Hlk : seq 0 (Z.to_nat (n - 1)) !! Z.to_nat i = Some (Z.to_nat i)) by (apply lookup_seq; lia).
  rewrite (list_lookup_total_correct _ _ (mk_state 0 0 0 (u16 (Z.of_nat (Z.to_nat i) + 1)) 0))
    by (by rewrite list_lookup_fmap, Hlk). simpl. rewrite Z2Nat.id by lia. apply u16_id.
  unfold is_u16. lia.
Qed.

Lemma init_chain n i :
  1 <= n <= 2 ^ 15 -> 0 <= i <= n -> free_chain (init_states n) i (range i n).
Proof.
  intros Hn Hi. remember (Z.to_nat (n - i)) as k eqn:Hk. revert i Hi Hk.
  induction k as [|k IH]; intros i Hi Hk.
  { replace i with n by lia. by rewrite range_nil. }
  rewrite range_cons by lia. split; [done|]. destruct (decide (i = n - 1)) as [->|].
  - replace (n - 1 + 1) with n by lia. by rewrite range_nil.
  - rewrite init_state_next by lia. apply IH; lia.
Qed.

Lemma init_inv n f :
  1 <= n <= 2 ^ 15 -> f = 0 \/ f = VRING_DESC_F_WRITE ->
  vq_inv (vring_packed_init n) (mk_gh 0 0 0 0 (range 0 n) f).
Proof.
  intros Hn Hf. assert (Hn32 : u32 n = n) by (apply u32_id; unfold is_u32; lia).
  assert (Hi0 : idx n 0 = 0) by (apply Z.mod_0_l; lia).
  assert (Hl0 : lap_bit n 0 = true) by (unfold lap_bit; by rewrite Z.div_0_l by lia).
  constructor; [constructor|constructor|split; [done|]]; simpl; unfold lap; simpl; rewrite ?Hn32, ?Hi0, ?Hl0;
    try done; try lia.
  - by rewrite repeat_length.
  - unfold init_states. rewrite length_app, length_map, length_seq. simpl. lia.
  - apply init_chain; lia.
  - by intros i Hi%list.not_elem_of_nil.
  - intros p Hp. unfold slot_flags; simpl. rewrite !(proj2 (Z.ltb_ge _ _)) by lia.
    unfold lap, slot, get_desc; simpl. rewrite Hn32.
    unfold idx. rewrite Z.mod_small by lia. unfold lap_bit. rewrite Z.div_small by lia. simpl.
    by rewrite lookup_total_repeat by lia.
Qed.

(** ** Interference

    What the guest may do while the hypervisor runs: collect used buffers, make
    new ones available and change [driver_event].  The buffers the host has
    not given back are left alone. *)
Definition kept vq vq' : Prop :=
  num_desc vq' = num_desc vq /\ hv_map vq' = hv_map vq /\ mark_on_guest vq' = mark_on_guest vq /\
  g_pending_inuse_counter (g vq') = g_pending_inuse_counter (g vq) /\
  g_avail_dropped (g vq') = g_avail_dropped (g vq) /\
  g_pending_used_counter (g vq') = g_pending_used_counter (g vq).

Record evolved vq (gh : ghost) vq' (gh' : ghost) : Prop := {
  ev_inv : vq_inv vq' gh';
  ev_uh : uh gh' = uh gh;
  ev_ah : ah gh' = ah gh;
  ev_rw : rw gh' = rw gh;
  ev_ug : ug gh <= ug gh';
  ev_ag : ag gh <= ag gh';
  ev_same : kept vq vq';
  ev_slot : forall p, ug gh' <= p < ag gh -> slot vq' p = slot vq p;
  ev_entry : forall p, ug gh' <= p < ag gh -> entry_at vq' p = entry_at vq p;
}.

Definition guest_step vq (gh : ghost) vq' (gh' : ghost) : Prop :=
  evolved vq gh vq' gh' /\ host_same vq vq'.

(** A guest action; a quiet one does not collect nor change its event
    request. *)
Definition quiet_step (q : bool) vq (gh : ghost) vq' (gh' : ghost) : Prop :=
  q = true -> ug gh' = ug gh /\ driver_event vq' = driver_event vq.

Definition rely (q : bool) (f : vring_packed_virtq -> vring_packed_virtq) : Prop :=
  forall vq gh, vq_inv vq gh -> exists gh', guest_step vq gh (f vq) gh' /\ quiet_step q vq gh (f vq) gh'.

(** What the host may do while a guest program runs: take available
    descriptors and give them back as used, in any order. *)
Record hv_evolved vq (gh : ghost) vq' (gh' : ghost) : Prop := {
  hv_inv : vq_inv vq' gh';
  hv_ug : ug gh' = ug gh;
  hv_ag : ag gh' = ag gh;
  hv_uh : uh gh <= uh gh';
  hv_fl : fl gh' = fl gh;
  hv_rw : rw gh' = rw gh;
  hv_num : num_desc vq' = num_desc vq;
  hv_event : driver_event vq' = driver_event vq;
  hv_state : state vq' = state vq;
  hv_used : forall p, ug gh <= p < uh gh -> slot vq' p = slot vq p;
}.

Definition hv_rely (f : vring_packed_virtq -> vring_packed_virtq) : Prop :=
  forall vq gh, vq_inv vq gh -> exists gh', hv_evolved vq gh (f vq) gh'.

Lemma host_same_kept vq vq' : host_same vq vq' -> kept vq vq'.
Proof. unfold host_same, kept. intuition congruence. Qed.
#[local] Hint Resolve host_same_kept : core.

Lemma vq_evolved_refl vq gh : vq_inv vq gh -> evolved vq gh vq gh.
Proof. intros. by constructor; try done; try lia. Qed.

Lemma kept_trans vq1 vq2 vq3 : kept vq1 vq2 -> kept vq2 vq3 -> kept vq1 vq3.
Proof. unfold kept. intuition congruence. Qed.

Lemma host_same_trans vq1 vq2 vq3 : host_same vq1 vq2 -> host_same vq2 vq3 -> host_same vq1 vq3.
Proof. unfold host_same. intuition congruence. Qed.

Lemma vq_evolved_trans vq1 gh1 vq2 gh2 vq3 gh3 :
  evolved vq1 gh1 vq2 gh2 -> evolved vq2 gh2 vq3 gh3 -> evolved vq1 gh1 vq3 gh3.
Proof.
  intros [] []. constructor; try done; try congruence; try lia; [by eapply kept_trans|..];
    intros p Hp; rewrite ?ev_slot1, ?ev_entry1 by lia; [apply ev_slot0|apply ev_entry0]; lia.
Qed.

Lemma guest_step_refl vq gh : vq_inv vq gh -> guest_step vq gh vq gh.
Proof. intros. split; [by apply vq_evolved_refl|done]. Qed.

Lemma guest_step_trans vq1 gh1 vq2 gh2 vq3 gh3 :
  guest_step vq1 gh1 vq2 gh2 -> guest_step vq2 gh2 vq3 gh3 -> guest_step vq1 gh1 vq3 gh3.
Proof. intros [] []. split; [by eapply vq_evolved_trans|by eapply host_same_trans]. Qed.

(** What evolution means for the abstract queue. *)
Lemma evolved_lists vq gh vq' gh' :
  vq_inv vq gh -> evolved vq gh vq' gh' ->
  (exists new, avail_entries vq' gh' = avail_entries vq gh ++ new) /\
  taken_entries vq' gh' = taken_entries vq gh /\
  exists gone, used_entries vq gh = gone ++ used_entries vq' gh'.
Proof.
  intros Hinv [Hinv' Eu Ea _ Hug Hag _ _ He].
  destruct (hi_order _ _ (vi_host _ _ Hinv)), (hi_order _ _ (vi_host _ _ Hinv')).
  unfold avail_entries, taken_entries, used_entries, entries. rewrite Eu, Ea in *. split_and!.
  - exists (map (entry_at vq') (range (ag gh) (ag gh'))).
    rewrite (range_app (ah gh) (ag gh)), map_app by lia. f_equal.
    apply map_range_ext. intros p Hp. apply He. lia.
  - apply map_range_ext. intros p Hp. apply He. lia.
  - exists (map (entry_at vq) (range (ug gh) (ug gh'))).
    rewrite (range_app (ug gh) (ug gh')), map_app by lia. f_equal.
    symmetry. apply map_range_ext. intros p Hp. apply He. lia.
Qed.

Lemma hv_rely_id : hv_rely (fun vq => vq).
Proof. intros vq gh Hi. exists gh. by constructor; try done; try lia. Qed.

(** The actions of the guest. *)
Lemma add_evolved vq gh b mk :
  vq_inv vq gh -> ag gh < ug gh + num_desc vq ->
  guest_step vq gh (vring_packed_add vq b (rw gh) mk) (gh_add gh) /\
  avail_entries (vring_packed_add vq b (rw gh) mk) (gh_add gh)
    = avail_entries vq gh ++ [mk_entry (buf_cookie b) (buf_paddr b) (buf_len b) mk] /\
  driver_event (vring_packed_add vq b (rw gh) mk) = driver_event vq /\
  used_entries (vring_packed_add vq b (rw gh) mk) (gh_add gh) = used_entries vq gh.
Proof.
  intros Hinv Hroom. pose proof (add_inv _ _ b mk Hinv Hroom) as Hinv'. destruct Hinv as [Hg Hh _].
  destruct (add_spec vq gh b (rw gh) mk Hg Hroom) as (_ & Hs & Hd & Hold & _ & He & Hnew).
  pose proof (gi_order _ _ Hg). destruct (hi_order _ _ Hh). split_and!; [|..|done|].
  - split; [|done]. constructor; simpl; auto using He; try lia; intros p Hp; apply Hold; lia.
  - unfold avail_entries, entries; simpl. rewrite range_snoc, map_app by lia. simpl. rewrite Hnew. f_equal.
    apply map_range_ext. intros p Hp. apply He. lia.
  - apply map_range_ext. simpl. intros p Hp. apply He. lia.
Qed.

Lemma get_evolved vq gh b0 :
  vq_inv vq gh -> ug gh < uh gh ->
  let e := entry_at vq (ug gh) in
  exists vq' gh', vring_packed_get vq b0 = (1, vq', mk_buf (e_cookie e) (e_addr e) (buf_vaddr b0) (e_len e)) /\
    guest_step vq gh vq' gh' /\ ug gh' = ug gh + 1 /\ ag gh' = ag gh /\
    used_entries vq gh = e :: used_entries vq' gh'.
Proof.
  intros Hinv Hlt e. pose proof Hinv as [Hg Hh _]. destruct (hi_order _ _ Hh).
  destruct (get_spec vq gh b0 Hg ltac:(lia)) as (vq' & Hget & _ & Hs & Hd & Hdesc & He).
  pose proof (get_inv _ _ _ _ _ Hinv Hlt Hget) as Hinv'. pose proof Hs as (En & _).
  exists vq', (gh_get (id (slot vq (ug gh))) gh). split_and!; try done.
  - split; [|done]. constructor; simpl; auto; try lia; intros p Hp; [|apply He; lia].
    unfold slot, get_desc. by rewrite En, Hdesc.
  - unfold used_entries, entries; simpl. rewrite range_cons by lia. simpl. f_equal.
    symmetry. apply map_range_ext. intros p Hp. apply He. lia.
Qed.

Lemma driver_event_evolved vq gh e :
  vq_inv vq gh -> guest_step vq gh (set_driver_event e vq) gh.
Proof.
  intros [[] [] []]. split; [|done]. constructor; try done; try lia.
Qed.
