(* ===== verification/VringGuest.v ===== *)
(** * The packed virtqueue: the guest programs

    Correctness of the programs of proxy/vring_packed_progs.c against the
    invariant of VringInv, with the hypervisor running concurrently. *)

From S2P Require Import Prelude Abi Backend MarkFun VringPacked VringInv.
Open Scope Z_scope.

(** [vring_packed_init] gives a queue in which no buffer is in flight, all
    the ids are free, and the hypervisor asks to be notified of the first
    buffer; the invariant holds for every size up to the 2^15 that the event
    structure can express. *)
Theorem vring_packed_init_ok n f :
  1 <= n <= 2 ^ 15 -> f = 0 \/ f = VRING_DESC_F_WRITE ->
  let vq := vring_packed_init n in
  let gh := mk_gh 0 0 0 0 (range 0 n) f in
  vq_inv vq gh /\ num_desc vq = n /\
  used_entries vq gh = [] /\ taken_entries vq gh = [] /\ avail_entries vq gh = [] /\
  device_event vq = event_at n 0 /\ vring_packed_more_avail vq = false /\
  vring_packed_more_used vq = false.
Proof.
  intros Hn Hf vq gh. pose proof (init_inv n f Hn Hf) as Hinv. fold vq gh in Hinv.
  split_and!; try done.
  - apply u32_id. unfold is_u32. lia.
  - by rewrite (more_avail_spec _ _ Hinv).
  - by rewrite (more_used_spec _ _ Hinv).
Qed.

Lemma vring_packed_init_ok_witness :
  vq_inv (vring_packed_init 256) (mk_gh 0 0 0 0 (range 0 256) 0) /\ num_desc (vring_packed_init 256) = 256.
Proof.
  destruct (vring_packed_init_ok 256 0 ltac:(lia) ltac:(auto)) as (H & Hn & _).
  split; [exact H|exact Hn].
Defined.

(** The kick test after publishing [k] buffers, by the contents of
    [device_event]. *)
Lemma kick_spec vq gh k e :
  guest_inv vq gh -> 0 <= k <= num_desc vq -> ag gh - num_desc vq <= e <= ag gh - k + num_desc vq ->
  device_event vq = event_at (num_desc vq) e ->
  vring_packed_kick_needed vq k = true <-> ag gh - k <= e < ag gh.
Proof.
  intros Hg Hk He Hev. destruct (gi_avail _ _ Hg) as (Ea & Ew & _). pose proof (gi_n _ _ Hg) as Hn.
  unfold vring_packed_kick_needed. rewrite Ea, Ew, Hev. unfold lap.
  replace k with (ag gh - (ag gh - k)) at 1 by lia. apply event_needed_exact; lia.
Qed.

Lemma kick_disabled vq k :
  ev_flags (device_event vq) = VRING_PACKED_EVENT_FLAG_DISABLE -> vring_packed_kick_needed vq k = false.
Proof. intros E. unfold vring_packed_kick_needed, event_needed. by rewrite E. Qed.

(** The state after a program has added buffers and the hypervisor has run. *)
Lemma hv_after hv vq gh :
  hv_rely hv -> vq_inv vq gh ->
  exists gh', hv_evolved vq gh (hv vq) gh' /\ vq_inv (hv vq) gh'.
Proof. intros Hhv Hinv. destruct (Hhv _ _ Hinv) as [gh' He]. exists gh'. by destruct He. Qed.

(** A host that waits for the next buffer is kicked by [vring_packed_txp]. *)
Lemma txp_kick hp ctx gh :
  vq_inv (opaque ctx) gh -> rw gh = 0 -> ag gh < ug gh + num_desc (opaque ctx) -> num_bufs ctx = 1 ->
  device_event (opaque ctx) = event_at (num_desc (opaque ctx)) (ag gh) ->
  oflags (snd (vring_packed_txp hp (fun vq => vq) ctx)) = BPFHV_OFLAGS_KICK_NEEDED.
Proof.
  intros Hinv Hrw Hroom Hnb Hev. unfold vring_packed_txp. rewrite Hnb. simpl.
  set (mk := if z2b _ then _ else _).
  destruct (add_evolved _ _ (get_buf 0 ctx) mk Hinv Hroom) as ([He (En & _ & Ed & _)] & _).
  rewrite Hrw in He, En, Ed. set (vq1 := vring_packed_add _ _ _ _) in *. clearbody vq1.
  pose proof (vi_guest _ _ (ev_inv _ _ _ _ He)) as Hg.
  pose proof (gi_n _ _ (vi_guest _ _ Hinv)).
  assert (vring_packed_kick_needed vq1 1 = true) as ->; [|done].
  apply (kick_spec _ (gh_add gh) 1 (ag gh) Hg); simpl; [lia..| |lia]. by rewrite Ed, En.
Qed.

(** [vring_packed_txp] refuses a packet that is not in exactly one buffer;
    otherwise, when there is a free slot, it appends the buffer with its cookie
    and mark to the available ones and keeps everything in flight.  It asks for
    a kick exactly when the event that the hypervisor requested, as the
    program reads it after publishing, is the slot just filled, and never when
    kicks are disabled. *)
Theorem vring_packed_txp_refines hp hv ctx gh :
  vq_inv (opaque ctx) gh -> rw gh = 0 -> ag gh < ug gh + num_desc (opaque ctx) -> hv_rely hv ->
  let txb := get_buf 0 ctx in
  let mk := if z2b (mark_on_guest (opaque ctx)) then vring_mark_packet hp ctx else 0 in
  let '(ret, ctx') := vring_packed_txp hp hv ctx in
  if num_bufs ctx =? 1 then
    exists vq1 gh1 gh2,
      ret = 0 /\ guest_step (opaque ctx) gh vq1 gh1 /\ used_entries vq1 gh1 = used_entries (opaque ctx) gh /\
      avail_entries vq1 gh1 =
        avail_entries (opaque ctx) gh ++ [mk_entry (buf_cookie txb) (buf_paddr txb) (buf_len txb) mk] /\
      opaque ctx' = hv vq1 /\ hv_evolved vq1 gh1 (opaque ctx') gh2 /\
      (forall e, device_event (opaque ctx') = event_at (num_desc vq1) e ->
         ag gh + 1 - num_desc vq1 <= e <= ag gh + num_desc vq1 ->
         oflags ctx' = if e =? ag gh then BPFHV_OFLAGS_KICK_NEEDED else 0) /\
      (ev_flags (device_event (opaque ctx')) = VRING_PACKED_EVENT_FLAG_DISABLE -> oflags ctx' = 0)
  else ret = -1 /\ ctx' = ctx.
Proof.
  intros Hinv Hrw Hroom Hhv txb mk. unfold vring_packed_txp. destruct (num_bufs ctx =? 1); simpl; [|done].
  fold txb mk. rewrite <- Hrw.
  destruct (add_evolved _ _ txb mk Hinv Hroom) as (Hev & Hav & _ & Hus).
  set (vq1 := vring_packed_add (opaque ctx) txb (rw gh) mk) in *. clearbody vq1.
  destruct (hv_after hv vq1 _ Hhv (ev_inv _ _ _ _ (proj1 Hev))) as (gh2 & Hh & Hinv2).
  exists vq1, (gh_add gh), gh2. split_and!; try done.
  - intros e He Hr. pose proof Hh as [_ _ Hag _ _ _ Hnum _ _ _]. simpl in Hag. destruct Hinv2 as [Hg2 _ _].
    pose proof (gi_n _ _ Hg2) as Hn. rewrite <- Hnum in He, Hr.
    pose proof (kick_spec _ _ 1 e Hg2 ltac:(lia) ltac:(lia) He) as Hk. rewrite Hag in Hk.
    unfold kick_oflags. destruct (vring_packed_kick_needed _ _) eqn:E;
      [rewrite (proj2 (Z.eqb_eq _ _))|rewrite (proj2 (Z.eqb_neq _ _))]; try done; [|intros ->];
      intuition (congruence || lia).
  - intros E. by rewrite kick_disabled.
Qed.

Definition example_helpers : bpf_helpers vring_packed_virtq :=
  mk_helpers (fun c => (0, set_packet 1 c)) (fun _ => []).
Definition example_ctx (nbufs : Z) : vq_ctx :=
  mk_ctx 0 0 nbufs 0 0 1 0 (repeat (mk_buf 7 0x2000 0 64) 64) (vring_packed_init 4).

Lemma vring_packed_txp_refines_witness :
  fst (vring_packed_txp example_helpers (fun vq => vq) (example_ctx 1)) = 0 /\
  exists vq1 gh1, avail_entries vq1 gh1 = [mk_entry 7 0x2000 64 0].
Proof.
  pose proof (vring_packed_txp_refines example_helpers (fun vq => vq) (example_ctx 1)
    (mk_gh 0 0 0 0 (range 0 4) 0) (init_inv 4 0 ltac:(lia) ltac:(auto)) eq_refl eq_refl hv_rely_id) as H.
  cbv zeta in H. destruct (vring_packed_txp _ _ _) as [ret ctx'].
  destruct H as (vq1 & gh1 & gh2 & Hr & _ & _ & Ha & _).
  split; [exact Hr|]. exists vq1, gh1. exact Ha.
Defined.

(** *** Publishing receive buffers *)

Definition rx_entry (b : bpfhv_buf) : entry := mk_entry (buf_cookie b) (buf_paddr b) (buf_len b) 0.

Lemma rxp_loop_spec k i ctx gh :
  vq_inv (opaque ctx) gh -> rw gh = VRING_DESC_F_WRITE ->
  ag gh + Z.of_nat k <= ug gh + num_desc (opaque ctx) ->
  exists vq' gh', rxp_loop k i ctx = set_opaque vq' ctx /\ guest_step (opaque ctx) gh vq' gh' /\
    ag gh' = ag gh + Z.of_nat k /\
    used_entries vq' gh' = used_entries (opaque ctx) gh /\
    avail_entries vq' gh' = avail_entries (opaque ctx) gh ++
                              map (fun j => rx_entry (get_buf j ctx)) (seqZ i (Z.of_nat k)).
Proof.
  revert i ctx gh. induction k as [|k IH]; intros i ctx gh Hinv Hrw Hroom.
  { exists (opaque ctx), gh. simpl. rewrite app_nil_r. destruct ctx.
    split_and!; try done; try lia; by apply guest_step_refl. }
  destruct (add_evolved _ _ (get_buf i ctx) 0 Hinv ltac:(lia)) as (Hev & Hav & _ & Hus). rewrite Hrw in *.
  pose proof (proj2 Hev) as (En & _). simpl.
  set (vq1 := vring_packed_add _ _ _ _) in *. clearbody vq1.
  destruct (IH (i + 1) (set_opaque vq1 ctx) (gh_add gh) (ev_inv _ _ _ _ (proj1 Hev))) as
    (vq' & gh' & -> & Hev' & Hag & Hus' & Hav'); [done|simpl; rewrite En; lia|]. simpl in *.
  exists vq', gh'. split_and!; [done|by eapply guest_step_trans|lia|congruence|].
  rewrite Hav', Hav, <- app_assoc. f_equal. rewrite (seqZ_cons i) by lia. cbn [map app]. do 2 f_equal. f_equal; lia.
Qed.

(** [vring_packed_rxp] refuses more buffers than a context holds and
    otherwise makes the listed buffers available in order.  It asks for a kick
    exactly when one of the slots it filled is the one the hypervisor is
    waiting for. *)
Theorem vring_packed_rxp_refines hv ctx gh :
  vq_inv (opaque ctx) gh -> rw gh = VRING_DESC_F_WRITE -> 0 <= num_bufs ctx ->
  ag gh + num_bufs ctx <= ug gh + num_desc (opaque ctx) -> hv_rely hv ->
  let '(ret, ctx') := vring_packed_rxp hv ctx in
  if num_bufs ctx <=? BPFHV_MAX_RX_BUFS then
    exists vq1 gh1 gh2,
      ret = 0 /\ guest_step (opaque ctx) gh vq1 gh1 /\ used_entries vq1 gh1 = used_entries (opaque ctx) gh /\
      avail_entries vq1 gh1 = avail_entries (opaque ctx) gh ++
        map (fun j => rx_entry (get_buf j ctx)) (seqZ 0 (num_bufs ctx)) /\
      opaque ctx' = hv vq1 /\ hv_evolved vq1 gh1 (opaque ctx') gh2 /\
      (forall e, device_event (opaque ctx') = event_at (num_desc vq1) e ->
         ag gh1 - num_desc vq1 <= e <= ag gh + num_desc vq1 ->
         oflags ctx' = BPFHV_OFLAGS_KICK_NEEDED <-> ag gh <= e < ag gh1)
  else ret = -1 /\ ctx' = ctx.
Proof.
  intros Hinv Hrw Hnb Hroom Hhv. unfold vring_packed_rxp. rewrite Z.ltb_antisym.
  destruct (num_bufs ctx <=? BPFHV_MAX_RX_BUFS) eqn:Eb; simpl; [|done]. zify_bool.
  change BPFHV_MAX_RX_BUFS with 64 in Eb.
  destruct (rxp_loop_spec (Z.to_nat (num_bufs ctx)) 0 ctx gh Hinv Hrw ltac:(lia))
    as (vq1 & gh1 & -> & Hev & Hag & Hus & Hav). simpl. rewrite Z2Nat.id in Hag, Hav by lia.
  destruct (hv_after hv vq1 _ Hhv (ev_inv _ _ _ _ (proj1 Hev))) as (gh2 & Hh & [Hg2 _ _]).
  exists vq1, gh1, gh2. split_and!; try done. intros e He Hr.
  pose proof Hh as [_ _ Hag2 _ _ _ Hnum _ _ _]. rewrite <- Hnum in He, Hr.
  pose proof (proj2 Hev) as (En & _). pose proof (gi_n _ _ Hg2) as Hn.
  pose proof (gi_order _ _ (vi_guest _ _ Hinv)).
  rewrite u16_id by (unfold is_u16; lia).
  pose proof (kick_spec _ _ (num_bufs ctx) e Hg2 ltac:(rewrite Hnum, En; lia) ltac:(lia) He) as Hk.
  rewrite Hag2 in Hk. unfold kick_oflags.
  replace (ag gh1 - num_bufs ctx) with (ag gh) in Hk by lia. rewrite <- Hk.
  by destruct (vring_packed_kick_needed _ _).
Qed.

Lemma vring_packed_rxp_refines_witness :
  fst (vring_packed_rxp (fun vq => vq) (example_ctx 2)) = 0 /\
  exists vq1 gh1, avail_entries vq1 gh1 = [mk_entry 7 0x2000 64 0; mk_entry 7 0x2000 64 0].
Proof.
  pose proof (vring_packed_rxp_refines (fun vq => vq) (example_ctx 2)
    (mk_gh 0 0 0 0 (range 0 4) VRING_DESC_F_WRITE) (init_inv 4 VRING_DESC_F_WRITE ltac:(lia) ltac:(auto))
    eq_refl ltac:(vm_compute; congruence) ltac:(vm_compute; congruence) hv_rely_id) as H.
  destruct (vring_packed_rxp _ _) as [ret ctx'].
  destruct H as (vq1 & gh1 & gh2 & Hr & _ & _ & Ha & _).
  split; [exact Hr|]. exists vq1, gh1. exact Ha.
Defined.

(** *** Collecting buffers *)

(** The buffer a program hands back for an entry. *)
Definition buf_of (e : entry) (old : bpfhv_buf) : bpfhv_buf :=
  mk_buf (e_cookie e) (e_addr e) (buf_vaddr old) (e_len e).

Lemma used_entries_cases vq gh :
  vq_inv vq gh ->
  (vring_packed_more_used vq = false /\ used_entries vq gh = []) \/
  (vring_packed_more_used vq = true /\ ug gh < uh gh).
Proof.
  intros Hinv. rewrite (more_used_spec _ _ Hinv). destruct (_ <? _) eqn:E; zify_bool; [by right|left].
  destruct (hi_order _ _ (vi_host _ _ Hinv)). split; [done|]. unfold used_entries, entries.
  replace (uh gh) with (ug gh) by lia. by rewrite range_nil.
Qed.

Lemma get_put_buf0 {P} (ctx : bpfhv_context P) b :
  (0 < length (bufs ctx))%nat -> get_buf 0 (put_buf 0 b ctx) = b.
Proof. intros. by apply lookup_total_insert_eq. Qed.

(** [vring_packed_txc] returns 0 and changes nothing when no buffer is
    used; otherwise it returns 1 and the oldest used buffer, with the cookie
    given to [vring_packed_txp], and that buffer leaves the queue. *)
Theorem vring_packed_txc_refines ctx gh :
  vq_inv (opaque ctx) gh -> (0 < length (bufs ctx))%nat ->
  let '(ret, ctx') := vring_packed_txc ctx in
  match used_entries (opaque ctx) gh with
  | [] => ret = 0 /\ ctx' = ctx
  | e :: es => exists gh', ret = 1 /\ guest_step (opaque ctx) gh (opaque ctx') gh' /\
      used_entries (opaque ctx') gh' = es /\ num_bufs ctx' = 1 /\ oflags ctx' = 0 /\
      get_buf 0 ctx' = buf_of e (get_buf 0 ctx)
  end.
Proof.
  intros Hinv Hb. unfold vring_packed_txc.
  destruct (used_entries_cases _ _ Hinv) as [[-> ->]|[-> Hlt]]; simpl; [done|].
  destruct (get_evolved _ _ (get_buf 0 ctx) Hinv Hlt) as (vq' & gh' & -> & Hev & _ & _ & Hus).
  rewrite Hus. exists gh'. split_and!; try done. by apply (get_put_buf0 ctx).
Qed.

(** A queue of two slots with one buffer used and not collected. *)
Definition example_used_vq : vring_packed_virtq :=
  expose_used 0 (vring_packed_add (vring_packed_init 2) (mk_buf 7 0x2000 0 64) 0 0).
Definition example_used_gh : ghost := mk_gh 0 1 1 1 [1] 0.

Lemma example_used_inv : vq_inv example_used_vq example_used_gh.
Proof.
  assert (HP : forall (P : Z -> Prop), P 0 -> P 1 -> forall p, 0 <= p < 0 + 2 -> P p).
  { intros P H0 H1 p Hp. assert (p = 0 \/ p = 1) as [->| ->] by lia; assumption. }
  constructor; [constructor|constructor|split].
  1-9: try (vm_compute; repeat split; congruence).
  - change (ids example_used_vq example_used_gh ++ fl example_used_gh) with [0; 1].
    change (range 0 (num_desc example_used_vq)) with [0; 1]. reflexivity.
  - change (ids example_used_vq example_used_gh) with [0]. intros i ->%list_elem_of_singleton.
    vm_compute. congruence.
  - vm_compute; repeat split; congruence.
  - vm_compute; repeat split; congruence.
  - vm_compute; repeat split; congruence.
  - left. reflexivity.
  - apply HP; reflexivity.
Defined.

Definition example_used_ctx : vq_ctx :=
  mk_ctx 0 0 1 0 0 1 0 (repeat (mk_buf 0 0 0 0) 64) example_used_vq.

Lemma vring_packed_txc_refines_witness :
  fst (vring_packed_txc example_used_ctx) = 1 /\
  get_buf 0 (snd (vring_packed_txc example_used_ctx)) = mk_buf 7 0x2000 0 64.
Proof.
  pose proof (vring_packed_txc_refines example_used_ctx example_used_gh example_used_inv
    ltac:(vm_compute; lia)) as H.
  destruct (vring_packed_txc _) as [ret ctx'].
  change (used_entries (opaque example_used_ctx) example_used_gh) with [mk_entry 7 0x2000 64 0] in H.
  destruct H as (gh' & Hr & _ & _ & _ & _ & Hg). split; [exact Hr|exact Hg].
Defined.

(** [vring_packed_rxc] returns 0 and changes nothing when no buffer is
    used; otherwise the oldest used buffer leaves the queue and is passed to
    [rx_pkt_alloc], whose error is the result, also in which case the buffer
    has left the queue. *)
Theorem vring_packed_rxc_refines hp ctx gh :
  vq_inv (opaque ctx) gh -> (0 < length (bufs ctx))%nat -> rx_pkt_alloc_frame hp ->
  let '(ret, ctx') := vring_packed_rxc hp ctx in
  match used_entries (opaque ctx) gh with
  | [] => ret = 0 /\ ctx' = ctx
  | e :: es => exists gh' ctx1 p, guest_step (opaque ctx) gh (opaque ctx') gh' /\
      used_entries (opaque ctx') gh' = es /\ num_bufs ctx1 = 1 /\ oflags ctx1 = 0 /\
      get_buf 0 ctx1 = buf_of e (get_buf 0 ctx) /\
      snd (rx_pkt_alloc hp ctx1) = set_packet p ctx1 /\ ctx' = set_packet p ctx1 /\
      ret = (if fst (rx_pkt_alloc hp ctx1) <? 0 then fst (rx_pkt_alloc hp ctx1) else 1)
  end.
Proof.
  intros Hinv Hb Hframe. unfold vring_packed_rxc.
  destruct (used_entries_cases _ _ Hinv) as [[-> ->]|[-> Hlt]]; simpl; [done|].
  destruct (get_evolved _ _ (get_buf 0 ctx) Hinv Hlt) as (vq' & gh' & -> & Hev & _ & _ & Hus).
  rewrite Hus. simpl. set (ctx1 := set_oflags 0 _). destruct (Hframe ctx1) as [p Hp].
  destruct (rx_pkt_alloc hp ctx1) as [ret ctx2] eqn:Ea. simpl in Hp. subst ctx2.
  assert (Hbuf : get_buf 0 ctx1 = buf_of (entry_at (opaque ctx) (ug gh)) (get_buf 0 ctx))
    by by apply (get_put_buf0 ctx).
  destruct (ret <? 0) eqn:Er; exists gh', ctx1, p; rewrite Ea; simpl; rewrite Er; by split_and!.
Qed.

Lemma vring_packed_rxc_refines_witness :
  fst (vring_packed_rxc example_helpers example_used_ctx) = 1.
Proof.
  pose proof (vring_packed_rxc_refines example_helpers example_used_ctx example_used_gh example_used_inv
    ltac:(vm_compute; lia) ltac:(intros c; exists 1; reflexivity)) as H.
  destruct (vring_packed_rxc _ _) as [ret ctx'].
  change (used_entries (opaque example_used_ctx) example_used_gh) with [mk_entry 7 0x2000 64 0] in H.
  destruct H as (gh' & ctx1 & p & _ & _ & _ & _ & _ & _ & _ & Hr). exact Hr.
Defined.

(** *** Reclaiming the buffers the host did not use

    Once the host has stopped and the used buffers are collected, the guest
    takes back the available ones.  [vq0] and [gh0] are the queue when it
    starts, [u] counts the buffers taken back. *)
Definition gh_at (gh : ghost) (u : Z) (f : list Z) : ghost :=
  mk_gh u (uh gh) (ah gh) (ag gh) f (rw gh).

Record reclaiming (vq0 : vring_packed_virtq) (gh0 : ghost) (u : Z) (vq : vring_packed_virtq) : Prop := {
  rc_inv : vq_inv vq0 gh0;
  rc_range : uh gh0 <= u <= ag gh0;
  rc_desc : desc vq = desc vq0 /\ num_desc vq = num_desc vq0;
  rc_guest : exists f, guest_inv vq (gh_at gh0 u f);
  rc_entries : forall p, u <= p < ag gh0 -> entry_at vq p = entry_at vq0 p;
}.

Lemma reclaiming_start vq gh : vq_inv vq gh -> ug gh = uh gh -> reclaiming vq gh (ug gh) vq.
Proof.
  intros Hinv E. pose proof Hinv as [Hg Hh _]. destruct (hi_order _ _ Hh).
  constructor; try done; [lia|]. exists (fl gh). by destruct gh.
Qed.

Lemma reclaiming_pending vq0 gh0 u vq :
  reclaiming vq0 gh0 u vq -> vring_packed_more_pending vq = (u <? ag gh0).
Proof.
  intros [Hinv Hr [Hd Hn] [f Hg] _]. destruct (gi_used _ _ Hg) as [Eu Ew]. simpl in Eu, Ew.
  destruct (hi_order _ _ (vi_host _ _ Hinv)). pose proof (gi_order _ _ (vi_guest _ _ Hinv)) as Ho.
  pose proof (slot_bits vq0 gh0 u Hinv ltac:(lia)) as Hb. cbv zeta in Hb.
  rewrite (proj2 (Z.ltb_ge _ _)) in Hb by lia.
  unfold vring_packed_more_pending. rewrite Eu, Ew. unfold lap. rewrite Hn.
  change (get_desc (idx (num_desc vq0) u) vq) with (desc vq !!! Z.to_nat (idx (num_desc vq0) u)).
  rewrite Hd. change (desc vq0 !!! Z.to_nat (idx (num_desc vq0) u)) with (slot vq0 u).
  fold (lap vq0 u). destruct (u <? ag gh0).
  - destruct Hb as [-> ->]. by destruct (lap vq0 u).
  - rewrite Hb. unfold used_bit. destruct (lap vq0 u), (has_flag _ _); done.
Qed.

Lemma reclaiming_get vq0 gh0 u vq b0 :
  reclaiming vq0 gh0 u vq -> u < ag gh0 ->
  exists vq', vring_packed_get vq b0 = (1, vq', buf_of (entry_at vq0 u) b0) /\ reclaiming vq0 gh0 (u + 1) vq'.
Proof.
  intros [Hinv Hr [Hd Hn] [f Hg] He] Hlt.
  destruct (get_spec vq _ b0 Hg Hlt) as (vq' & -> & Hg' & (En & _) & _ & Hdesc & He'). simpl in *.
  exists vq'. split; [unfold buf_of; by rewrite <- He by lia|]. constructor; [done|lia|split; congruence|by eexists|].
  intros p Hp. rewrite He' by lia. apply He. lia.
Qed.

Lemma vq_rxr_loop_spec k i ctx vq0 gh0 u :
  reclaiming vq0 gh0 u (opaque ctx) -> 0 <= i -> i + Z.of_nat k <= Z.of_nat (length (bufs ctx)) ->
  let m := Z.min (Z.of_nat k) (ag gh0 - u) in
  exists ctx', rxr_loop k i ctx = (i + m, None, ctx') /\ reclaiming vq0 gh0 (u + m) (opaque ctx') /\
    forall j, 0 <= j -> get_buf j ctx' =
      if decide (i <= j < i + m) then buf_of (entry_at vq0 (u + (j - i))) (get_buf j ctx) else get_buf j ctx.
Proof.
  revert i ctx u. induction k as [|k IH]; intros i ctx u Hrc Hi Hlen m; pose proof (rc_range _ _ _ _ Hrc) as Hr.
  { exists ctx. simpl. replace m with 0 by lia. rewrite !Z.add_0_r. split_and!; try done.
    intros j Hj. by rewrite decide_False by lia. }
  simpl. rewrite (reclaiming_pending _ _ _ _ Hrc). destruct (u <? ag gh0) eqn:E; zify_bool; last first.
  { exists ctx. replace m with 0 by lia. rewrite !Z.add_0_r. split_and!; try done.
    intros j Hj. by rewrite decide_False by lia. }
  destruct (reclaiming_get _ _ _ _ (get_buf i ctx) Hrc E) as (vq' & -> & Hrc').
  set (ctx1 := set_opaque vq' _). simpl.
  destruct (IH (i + 1) ctx1 (u + 1) Hrc' ltac:(lia)) as (ctx' & -> & Hrc2 & Hb).
  { unfold ctx1; simpl. rewrite length_insert. lia. }
  replace (i + 1 + Z.min (Z.of_nat k) (ag gh0 - (u + 1))) with (i + m) in * by lia.
  replace (u + 1 + Z.min (Z.of_nat k) (ag gh0 - (u + 1))) with (u + m) in * by lia.
  exists ctx'. split_and!; try done. intros j Hj. rewrite Hb by done.
  assert (Hc1 : get_buf j ctx1 = if decide (j = i) then buf_of (entry_at vq0 u) (get_buf i ctx) else get_buf j ctx).
  { unfold ctx1, get_buf; simpl. case_decide; [subst; by rewrite lookup_total_insert_eq by lia|].
    by rewrite lookup_total_insert_ne by lia. }
  rewrite Hc1. destruct (decide (j = i)) as [->|].
  - rewrite decide_False by lia. rewrite decide_True by lia. do 2 f_equal. lia.
  - replace (u + 1 + (j - (i + 1))) with (u + (j - i)) by lia. repeat case_decide; done || lia.
Qed.

(** When the host has stopped and the used buffers have been collected,
    [vring_packed_rxr] gives back the buffers still available, oldest first, up
    to the size of a context at a time, each with its cookie; it returns 0
    exactly when all have been given back. *)
Theorem vring_packed_rxr_reclaims ctx vq0 gh0 u :
  reclaiming vq0 gh0 u (opaque ctx) -> length (bufs ctx) = Z.to_nat BPFHV_MAX_RX_BUFS ->
  let m := Z.min BPFHV_MAX_RX_BUFS (ag gh0 - u) in
  let '(ret, ctx') := vring_packed_rxr ctx in
  if u =? ag gh0 then ret = 0 /\ ctx' = ctx
  else ret = 1 /\ num_bufs ctx' = m /\ oflags ctx' = 0 /\ reclaiming vq0 gh0 (u + m) (opaque ctx') /\
       forall j, 0 <= j < m -> get_buf j ctx' = buf_of (entry_at vq0 (u + j)) (get_buf j ctx).
Proof.
  intros Hrc Hlen m. pose proof (rc_range _ _ _ _ Hrc) as Hr. unfold vring_packed_rxr.
  rewrite (reclaiming_pending _ _ _ _ Hrc).
  destruct (u <? ag gh0) eqn:E; zify_bool; cbn [negb]; last by rewrite (proj2 (Z.eqb_eq _ _)) by lia.
  rewrite (proj2 (Z.eqb_neq _ _)) by lia. change BPFHV_MAX_RX_BUFS with 64 in *.
  destruct (vq_rxr_loop_spec (Z.to_nat 64) 0 ctx vq0 gh0 u Hrc ltac:(lia) ltac:(lia)) as (ctx' & -> & Hrc' & Hb).
  rewrite Z2Nat.id in * by lia. fold m in Hrc', Hb |- *. rewrite Z.add_0_l in *.
  cbn [num_bufs set_oflags set_num_bufs oflags opaque]. split_and!; try done.
  intros j Hj. change (get_buf j (set_oflags 0 (set_num_bufs m ctx'))) with (get_buf j ctx').
  rewrite Hb by lia. rewrite decide_True by lia. by rewrite Z.sub_0_r.
Qed.

(** A receive queue with one buffer available. *)
Definition example_avail_ctx (f : Z) : vq_ctx :=
  mk_ctx 0 0 1 0 0 1 0 (repeat (mk_buf 0 0 0 0) 64)
    (vring_packed_add (vring_packed_init 2) (mk_buf 7 0x2000 0 64) f 0).
Definition example_avail_gh (f : Z) : ghost := mk_gh 0 0 0 1 [1] f.

Lemma example_avail_inv f :
  f = 0 \/ f = VRING_DESC_F_WRITE -> vq_inv (opaque (example_avail_ctx f)) (example_avail_gh f).
Proof.
  intros Hf. exact (add_inv (vring_packed_init 2) (mk_gh 0 0 0 0 [0; 1] f) (mk_buf 7 0x2000 0 64) 0
    (init_inv 2 f ltac:(lia) Hf) ltac:(vm_compute; reflexivity)).
Defined.

Lemma vring_packed_rxr_reclaims_witness :
  fst (vring_packed_rxr (example_avail_ctx 2)) = 1 /\
  num_bufs (snd (vring_packed_rxr (example_avail_ctx 2))) = 1.
Proof.
  pose proof (vring_packed_rxr_reclaims (example_avail_ctx 2) _ _ _
    (reclaiming_start _ _ (example_avail_inv 2 ltac:(auto)) eq_refl) eq_refl) as H.
  cbv zeta in H. destruct (vring_packed_rxr _) as [ret ctx'].
  change (ug (example_avail_gh 2) =? ag (example_avail_gh 2)) with false in H.
  destruct H as (Hr & Hn & _). split; [exact Hr|exact Hn].
Defined.

(** [vring_packed_txr] does the same one buffer at a time. *)
Theorem vring_packed_txr_reclaims ctx vq0 gh0 u :
  reclaiming vq0 gh0 u (opaque ctx) -> (0 < length (bufs ctx))%nat ->
  let '(ret, ctx') := vring_packed_txr ctx in
  if u =? ag gh0 then ret = 0 /\ ctx' = ctx
  else ret = 1 /\ num_bufs ctx' = 1 /\ oflags ctx' = 0 /\ reclaiming vq0 gh0 (u + 1) (opaque ctx') /\
       get_buf 0 ctx' = buf_of (entry_at vq0 u) (get_buf 0 ctx).
Proof.
  intros Hrc Hlen. pose proof (rc_range _ _ _ _ Hrc) as Hr. unfold vring_packed_txr.
  rewrite (reclaiming_pending _ _ _ _ Hrc).
  destruct (u <? ag gh0) eqn:E; zify_bool; cbn [negb]; last by rewrite (proj2 (Z.eqb_eq _ _)) by lia.
  rewrite (proj2 (Z.eqb_neq _ _)) by lia.
  destruct (reclaiming_get _ _ _ _ (get_buf 0 ctx) Hrc E) as (vq' & -> & Hrc').
  simpl. split_and!; try done. by apply (get_put_buf0 ctx).
Qed.

Lemma vring_packed_txr_reclaims_witness :
  fst (vring_packed_txr (example_avail_ctx 0)) = 1 /\
  get_buf 0 (snd (vring_packed_txr (example_avail_ctx 0))) = mk_buf 7 0x2000 0 64.
Proof.
  pose proof (vring_packed_txr_reclaims (example_avail_ctx 0) _ _ _
    (reclaiming_start _ _ (example_avail_inv 0 ltac:(auto)) eq_refl) ltac:(vm_compute; lia)) as H.
  destruct (vring_packed_txr _) as [ret ctx'].
  change (ug (example_avail_gh 0) =? ag (example_avail_gh 0)) with false in H.
  destruct H as (Hr & _ & _ & _ & Hg). split; [exact Hr|exact Hg].
Defined.

(** *** Interrupt requests *)

Lemma vring_packed_intr_spec hv vq gh m :
  vq_inv vq gh -> hv_rely hv -> 0 < m <= num_desc vq ->
  exists vq1 gh', vq1 = set_driver_event (event_at (num_desc vq) (ug gh + m - 1)) vq /\
    hv_evolved vq1 gh (hv vq1) gh' /\
    vring_packed_intr hv vq m = (b2z (m <=? uh gh' - ug gh), hv vq1).
Proof.
  intros Hinv Hhv Hm. pose proof Hinv as [Hg _ _]. pose proof (gi_n _ _ Hg) as Hn.
  destruct (gi_used _ _ Hg) as [Eu Ew].
  exists (set_driver_event (event_at (num_desc vq) (ug gh + m - 1)) vq).
  pose proof (driver_event_evolved vq gh (event_at (num_desc vq) (ug gh + m - 1)) Hinv) as Hev.
  set (vq1 := set_driver_event _ _) in *.
  destruct (Hhv _ _ (ev_inv _ _ _ _ (proj1 Hev))) as (gh' & Hh). exists gh'. split_and!; [done|done|].
  unfold vring_packed_intr. rewrite (proj2 (Z.eqb_neq _ _)), (proj2 (Z.ltb_ge _ _)) by lia.
  rewrite Eu, Ew. unfold lap. rewrite idx_add by lia.
  replace (ug gh + (m - 1)) with (ug gh + m - 1) by lia.
  pose proof (idx_range _ Hn (ug gh + m - 1)).
  destruct (off_wrap_parts (idx (num_desc vq) (ug gh + m - 1)) (lap_bit (num_desc vq) (ug gh + m - 1))
              ltac:(lia)) as (Hu & _).
  rewrite (u16_id _ Hu). fold (event_at (num_desc vq) (ug gh + m - 1)). fold vq1.
  pose proof Hh as [Hinv2 Eug _ _ _ _ En _ _ _]. change (num_desc vq1) with (num_desc vq) in En.
  pose proof (desc_is_used_spec (hv vq1) gh' (ug gh + m - 1) Hinv2 ltac:(lia)) as Hd.
  unfold lap in Hd. rewrite En in Hd. rewrite Hd. do 2 f_equal.
  apply eq_true_iff_eq. rewrite Z.ltb_lt, Z.leb_le. lia.
Qed.

(** [vring_packed_txi] (and [vring_packed_rxi], which has the same body)
    with a request for [m] buffers: 0 disables the interrupts, a request larger
    than the queue is an error, and otherwise the driver event names the
    [m]-th buffer from the oldest uncollected one, and the result tells
    exactly whether that many buffers are used, whatever the hypervisor did in
    between. *)
Theorem vring_packed_txi_spec hv ctx gh :
  vq_inv (opaque ctx) gh -> hv_rely hv -> 0 <= min_completed_bufs ctx < 2 ^ 16 ->
  let m := min_completed_bufs ctx in
  let '(ret, ctx') := vring_packed_txi hv ctx in
  vring_packed_rxi hv ctx = (ret, ctx') /\
  if m =? 0 then
    ret = 0 /\ ev_flags (driver_event (opaque ctx')) = VRING_PACKED_EVENT_FLAG_DISABLE /\
    guest_step (opaque ctx) gh (opaque ctx') gh
  else if num_desc (opaque ctx) <? m then ret = -1 /\ opaque ctx' = opaque ctx
  else
    driver_event (opaque ctx') = event_at (num_desc (opaque ctx)) (ug gh + m - 1) /\
    exists gh', vq_inv (opaque ctx') gh' /\ ug gh' = ug gh /\ ag gh' = ag gh /\
      ret = b2z (m <=? Z.of_nat (length (used_entries (opaque ctx') gh'))).
Proof.
  intros Hinv Hhv Hm m. unfold vring_packed_rxi, vring_packed_txi.
  rewrite (u16_id (min_completed_bufs ctx)) by (unfold is_u16; lia). fold m.
  destruct (m =? 0) eqn:E0; zify_bool.
  { rewrite E0. simpl. split_and!; try done. by apply driver_event_evolved. }
  destruct (num_desc (opaque ctx) <? m) eqn:E1; zify_bool.
  { unfold vring_packed_intr. by rewrite (proj2 (Z.eqb_neq m 0)), (proj2 (Z.ltb_lt _ _)) by done. }
  destruct (vring_packed_intr_spec hv (opaque ctx) gh m Hinv Hhv ltac:(lia)) as (vq1 & gh' & -> & Hh & ->).
  simpl. pose proof Hh as [Hinv2 Eug Eag _ _ _ _ Eev _ _]. split; [done|]. split; [done|].
  exists gh'. split_and!; try done. destruct (hi_order _ _ (vi_host _ _ Hinv2)).
  unfold used_entries, entries. rewrite length_map, length_range by lia. by rewrite Eug.
Qed.

Lemma example_num_desc f : num_desc (opaque (example_avail_ctx f)) = 2.
Proof. reflexivity. Qed.

Lemma vring_packed_txi_spec_witness :
  exists ret ctx' gh', vring_packed_txi (fun vq => vq) (example_avail_ctx 0) = (ret, ctx') /\
    ret = b2z (1 <=? Z.of_nat (length (used_entries (opaque ctx') gh'))) /\
    driver_event (opaque ctx') = event_at 2 0.
Proof.
  assert (Hm : 0 <= min_completed_bufs (example_avail_ctx 0) < 2 ^ 16) by (simpl; lia).
  pose proof (vring_packed_txi_spec (fun vq => vq) (example_avail_ctx 0) (example_avail_gh 0)
    (example_avail_inv 0 (or_introl eq_refl)) hv_rely_id Hm) as H.
  destruct (vring_packed_txi _ _) as [ret ctx']. rewrite example_num_desc in H.
  change (min_completed_bufs (example_avail_ctx 0)) with 1 in H.
  change (1 =? 0) with false in H. change (2 <? 1) with false in H. cbv zeta iota in H.
  destruct H as [_ [Hd (gh' & _ & _ & _ & Hr)]].
  exists ret, ctx', gh'. split; [reflexivity|]. split; [exact Hr|exact Hd].
Defined.
