(* ===== verification/VringHost.v ===== *)
(** * The packed virtqueue: the hypervisor loops

    [vring_packed_txq_drain] and [vring_packed_rxq_push] against references that
    process a list of buffers, the guest running concurrently. *)

From S2P Require Import Prelude Abi Backend MarkFun VringPacked VringInv VringGuest.
Open Scope Z_scope.

(** ** Polling *)

Definition view_ok (q : bool) (v : view) (gh : ghost) : Prop :=
  vq_inv (v_vq v) gh /\ Forall (rely q) (v_env v).

(** The part of the host event flags is not covered by the invariant. *)
Lemma notification_evolved vq gh x :
  vq_inv vq gh -> evolved vq gh (vring_packed_notification vq x) gh.
Proof.
  intros [[] [] []]. unfold vring_packed_notification.
  destruct (x =? 0); constructor; try done; try lia; constructor; done.
Qed.

Lemma notification_driver vq x : driver_event (vring_packed_notification vq x) = driver_event vq.
Proof. unfold vring_packed_notification. by destruct (x =? 0). Qed.

Lemma notification_event vq gh :
  vq_inv vq gh -> device_event (vring_packed_notification vq 1) = event_at (num_desc vq) (ah gh).
Proof.
  intros [Hg Hh _]. destruct (hi_avail _ _ Hh) as [Ea Ew]. pose proof (gi_n _ _ Hg) as Hn.
  pose proof (idx_range _ Hn (ah gh)). simpl. rewrite Ea, Ew. unfold event_at. f_equal. apply u16_id.
  by destruct (off_wrap_parts (idx (num_desc vq) (ah gh)) (lap vq (ah gh)) ltac:(lia)).
Qed.

Lemma sync_spec q v gh :
  view_ok q v gh ->
  exists gh', view_ok q (sync v) gh' /\ guest_step (v_vq v) gh (v_vq (sync v)) gh' /\
    quiet_step q (v_vq v) gh (v_vq (sync v)) gh'.
Proof.
  intros [Hinv HF]. unfold sync. destruct (v_env v) as [|f env] eqn:E.
  { exists gh. unfold view_ok. rewrite E. split_and!; done || by apply guest_step_refl. }
  inversion HF as [|? ? Hf Henv]; subst. destruct (Hf _ _ Hinv) as (gh' & Hs & Hq).
  exists gh'. split_and!; try done. split; [|done]. apply Hs.
Qed.

Lemma quiet_step_trans q vq1 gh1 vq2 gh2 vq3 gh3 :
  quiet_step q vq1 gh1 vq2 gh2 -> quiet_step q vq2 gh2 vq3 gh3 -> quiet_step q vq1 gh1 vq3 gh3.
Proof. intros H1 H2 Hq. destruct (H1 Hq), (H2 Hq). split; congruence. Qed.

(** A poll lets the guest run, and tells whether a buffer is available; when
    none is, and the caller does not busy-wait, the host has asked for the next
    one to be notified. *)
Lemma poll_spec q busy v gh :
  view_ok q v gh ->
  let '(more, v') := poll busy v in
  exists gh', view_ok q v' gh' /\ evolved (v_vq v) gh (v_vq v') gh' /\
    quiet_step q (v_vq v) gh (v_vq v') gh' /\
    if more then ah gh' < ag gh'
    else ah gh' = ag gh' /\ (busy = false -> device_event (v_vq v') = event_at (num_desc (v_vq v)) (ah gh')).
Proof.
  intros Hv. unfold poll. destruct (sync_spec q v gh Hv) as (gh1 & [Hinv1 HF1] & [He1 _] & Hq1).
  rewrite (more_avail_spec _ _ Hinv1). destruct (ah gh1 <? ag gh1) eqn:E; zify_bool; [by exists gh1|].
  destruct (hi_order _ _ (vi_host _ _ Hinv1)) as [_ Ho1].
  destruct busy; [exists gh1; split_and!; done || lia|].
  pose proof (notification_evolved _ _ 1 Hinv1) as He2. set (v1 := on_vq _ (sync v)).
  assert (Hq2 : quiet_step q (v_vq (sync v)) gh1 (v_vq v1) gh1)
    by (intros _; split; [done|apply notification_driver]).
  destruct (sync_spec q v1 gh1) as (gh3 & [Hinv3 HF3] & [He3 Hs3] & Hq3); [split; [apply He2|done]|].
  rewrite (more_avail_spec _ _ Hinv3). destruct (hi_order _ _ (vi_host _ _ Hinv3)) as [_ Ho3].
  assert (He : evolved (v_vq v) gh (v_vq (sync v1)) gh3)
    by (eapply vq_evolved_trans; [exact He1|]; eapply vq_evolved_trans; [exact He2|exact He3]).
  assert (Hq : quiet_step q (v_vq v) gh (v_vq (sync v1)) gh3)
    by (eapply quiet_step_trans; [exact Hq1|]; eapply quiet_step_trans; [exact Hq2|exact Hq3]).
  destruct (ah gh3 <? ag gh3) eqn:E3; zify_bool; exists gh3.
  - pose proof (notification_evolved _ _ 0 Hinv3) as He4. split_and!; [split; [apply He4|done]| | |done].
    + eapply vq_evolved_trans; [exact He|exact He4].
    + eapply quiet_step_trans; [exact Hq|]. intros _. split; [done|apply notification_driver].
  - split_and!; try done; [lia|]. intros _. destruct Hs3 as (_ & _ & -> & _).
    unfold v1; simpl v_vq. rewrite (notification_event _ _ Hinv1).
    pose proof (ev_same _ _ _ _ He1) as (-> & _). by rewrite (ev_ah _ _ _ _ He3).
Qed.

(** ** Giving buffers back *)

Definition g_same vq vq' : Prop :=
  g_next_free_id (g vq') = g_next_free_id (g vq) /\
  g_next_avail_idx (g vq') = g_next_avail_idx (g vq) /\
  g_next_used_idx (g vq') = g_next_used_idx (g vq) /\
  g_avail_wrap_counter (g vq') = g_avail_wrap_counter (g vq) /\
  g_used_wrap_counter (g vq') = g_used_wrap_counter (g vq) /\
  g_avail_used_flags (g vq') = g_avail_used_flags (g vq).

(** The guest's part of the invariant survives what the host does to the
    descriptors, as long as the ids in flight are the same. *)
Lemma guest_inv_update vq gh vq' gh' :
  guest_inv vq gh -> num_desc vq' = num_desc vq -> state vq' = state vq -> g_same vq vq' ->
  length (desc vq') = length (desc vq) -> ug gh' = ug gh -> ag gh' = ag gh -> fl gh' = fl gh ->
  ids vq' gh' ≡ₚ ids vq gh -> guest_inv vq' gh'.
Proof.
  intros [? ? ? ? ? ? Hids ? Hbusy] En Es (E1 & E2 & E3 & E4 & E5 & E6) El Eu Ea Ef HP.
  constructor; unfold lap, get_state in *; rewrite ?En, ?Es, ?E1, ?E2, ?E3, ?E4, ?E5, ?E6, ?El, ?Eu, ?Ea, ?Ef;
    try done.
  - by rewrite HP.
  - intros i Hi. apply Hbusy. by rewrite <- HP.
Qed.

Lemma advance_avail_h vq p :
  1 <= num_desc vq <= 2 ^ 15 -> h_next_avail_idx (h vq) = idx (num_desc vq) p ->
  h_avail_wrap_counter (h vq) = b2z (lap vq p) ->
  vring_packed_advance_avail vq =
    set_h (mk_h (idx (num_desc vq) (p + 1)) (h_next_used_idx (h vq)) (b2z (lap vq (p + 1)))
             (h_used_wrap_counter (h vq)) (h_avail_used_flags (h vq)) (h_device_event_flags (h vq))) vq.
Proof.
  intros Hn Ei Ew. unfold vring_packed_advance_avail, lap in *. rewrite Ei, Ew.
  destruct (idx_succ _ Hn p) as (-> & -> & ->). case_if; [by rewrite lxor_b2z|done].
Qed.

Lemma advance_used_h vq p :
  1 <= num_desc vq <= 2 ^ 15 -> h_next_used_idx (h vq) = idx (num_desc vq) p ->
  h_used_wrap_counter (h vq) = b2z (lap vq p) -> h_avail_used_flags (h vq) = used_flags (lap vq p) ->
  vring_packed_advance_used vq =
    set_h (mk_h (h_next_avail_idx (h vq)) (idx (num_desc vq) (p + 1)) (h_avail_wrap_counter (h vq))
             (b2z (lap vq (p + 1))) (used_flags (lap vq (p + 1))) (h_device_event_flags (h vq))) vq.
Proof.
  intros Hn Ei Ew Ef. unfold vring_packed_advance_used, lap in *. rewrite Ei, Ew, Ef.
  destruct (idx_succ _ Hn p) as (-> & -> & ->). case_if; [by rewrite lxor_b2z, lxor_used|done].
Qed.

Definition gh_complete (gh : ghost) : ghost :=
  mk_gh (ug gh) (uh gh + 1) (ah gh + 1) (ag gh) (fl gh) (rw gh).

(** Rewriting the length of the descriptor about to be given back. *)
Lemma put_len_inv vq gh l :
  vq_inv vq gh -> uh gh < ag gh ->
  let vq' := put_desc (idx (num_desc vq) (uh gh)) (set_len l (slot vq (uh gh))) vq in
  vq_inv vq' gh /\
  forall p, ug gh <= p < ug gh + num_desc vq ->
    slot vq' p = if decide (p = uh gh) then set_len l (slot vq p) else slot vq p.
Proof.
  intros [Hg Hh [Hrw Hf]] Hlt vq'. pose proof (gi_n _ _ Hg) as Hn. pose proof (gi_order _ _ Hg).
  destruct (hi_order _ _ Hh).
  assert (Hslot : forall p, ug gh <= p < ug gh + num_desc vq ->
    slot vq' p = if decide (p = uh gh) then set_len l (slot vq p) else slot vq p).
  { intros p Hp. unfold vq'. rewrite slot_put by (apply (gi_desc _ _ Hg) || lia). by case_decide; subst. }
  split; [|done]. constructor; [|by destruct Hh|].
  - apply (guest_inv_update vq gh); try done; [by simpl; rewrite length_insert|].
    unfold ids. erewrite map_range_ext; [done|]. intros p Hp. simpl.
    rewrite Hslot by lia. by case_decide.
  - split; [done|]. intros p Hp. rewrite Hslot by done. change (slot_flags vq' gh p) with (slot_flags vq gh p).
    rewrite <- Hf by done. by case_decide.
Qed.

(** Marking the descriptor at [uh] as used and advancing both indices. *)
Lemma expose_used_inv vq gh :
  vq_inv vq gh -> uh gh = ah gh -> uh gh < ag gh ->
  let vq' := expose_used (idx (num_desc vq) (uh gh)) vq in
  vq_inv vq' (gh_complete gh) /\ kept vq vq' /\ driver_event vq' = driver_event vq /\
  forall p, ug gh <= p < ug gh + num_desc vq -> entry_at vq' p = entry_at vq p.
Proof.
  intros [Hg Hh [Hrw Hf]] Eq Hlt vq'. pose proof (gi_n _ _ Hg) as Hn. pose proof (gi_order _ _ Hg).
  destruct (hi_order _ _ Hh), (hi_avail _ _ Hh) as [Ea Ew], (hi_used _ _ Hh) as (Eu & Euw & Euf).
  set (d' := set_flags (used_flags (lap vq (uh gh))) (slot vq (uh gh))).
  assert (Hvq' : vq' = set_h (mk_h (idx (num_desc vq) (ah gh + 1)) (idx (num_desc vq) (uh gh + 1))
     (b2z (lap vq (ah gh + 1))) (b2z (lap vq (uh gh + 1))) (used_flags (lap vq (uh gh + 1)))
     (h_device_event_flags (h vq))) (put_desc (idx (num_desc vq) (uh gh)) d' vq)).
  { unfold vq', expose_used. rewrite Euf. fold d'.
    rewrite (advance_avail_h _ (ah gh)) by done. rewrite (advance_used_h _ (uh gh)) by done. done. }
  assert (Hslot : forall p, ug gh <= p < ug gh + num_desc vq ->
    slot vq' p = if decide (p = uh gh) then d' else slot vq p).
  { intros p Hp. rewrite Hvq'. unfold slot at 1. simpl. fold (slot (put_desc (idx (num_desc vq) (uh gh)) d' vq) p).
    apply slot_put; [done|apply (gi_desc _ _ Hg)|lia]. }
  clearbody vq'. split_and!; [|by rewrite Hvq'..|].
  - constructor; [|constructor|].
    + apply (guest_inv_update vq gh); try done; try by rewrite Hvq'.
      { rewrite Hvq'. simpl. by rewrite length_insert. }
      unfold ids; simpl. erewrite map_range_ext; [done|]. intros p Hp. simpl.
      rewrite Hslot by lia. case_decide; by subst.
    + simpl. lia.
    + by rewrite Hvq'.
    + by rewrite Hvq'.
    + split; [done|]. assert (num_desc vq' = num_desc vq) as -> by by rewrite Hvq'.
      simpl. intros p Hp. rewrite Hslot by done.
      assert (lap vq' p = lap vq p) as Hlap by (by rewrite Hvq'). unfold slot_flags; simpl. rewrite Hlap.
      case_decide as Ep; [subst p; by rewrite (proj2 (Z.ltb_lt _ _)) by lia|].
      rewrite Hf by done. unfold slot_flags. repeat case_if; done || lia.
  - intros p Hp. unfold entry_at. rewrite Hslot by done. case_decide as Ep; [subst p|]; by rewrite Hvq'.
Qed.

(** ** What holds in the loops

    [hist] are the buffers processed so far and [out] what was given back for
    them; [vq0] and [gh0] are the queue at the call. *)
Section loop.
Context (q : bool) (vq0 : vring_packed_virtq) (gh0 : ghost).

Record loop_at (hist out : list entry) (v : view) (gh : ghost) : Prop := {
  la_view : view_ok q v gh;
  la_eq : uh gh = ah gh;
  la_rw : rw gh = rw gh0;
  la_num : num_desc (v_vq v) = num_desc vq0;
  la_count : uh gh = uh gh0 + Z.of_nat (length hist);
  la_quiet : quiet_step q vq0 gh0 (v_vq v) gh;
  la_avail : exists new, avail_entries vq0 gh0 ++ new = hist ++ avail_entries (v_vq v) gh;
  la_used : exists gone, used_entries vq0 gh0 ++ out = gone ++ used_entries (v_vq v) gh;
}.

Lemma loop_evolved hist out v gh v' gh' :
  loop_at hist out v gh -> view_ok q v' gh' -> evolved (v_vq v) gh (v_vq v') gh' ->
  quiet_step q (v_vq v) gh (v_vq v') gh' -> loop_at hist out v' gh'.
Proof.
  intros [Hv Heq Hrw Hnum Hc Hq [new Ha] [gone Hu]] Hv' He Hq'.
  destruct (evolved_lists _ _ _ _ (proj1 Hv) He) as ([new' Ea] & _ & [gone' Eg]).
  pose proof (ev_same _ _ _ _ He) as (En & _).
  pose proof (ev_uh _ _ _ _ He). pose proof (ev_ah _ _ _ _ He). pose proof (ev_rw _ _ _ _ He).
  constructor; [done|congruence..|by eapply quiet_step_trans| |].
  - exists (new ++ new'). by rewrite Ea, !app_assoc, Ha.
  - exists (gone ++ gone'). by rewrite Hu, Eg, app_assoc.
Qed.

(** The head of the available buffers. *)
Lemma avail_head vq gh :
  ah gh < ag gh -> avail_entries vq gh = entry_at vq (ah gh) :: entries vq (ah gh + 1) (ag gh).
Proof. intros. unfold avail_entries, entries. by rewrite range_cons. Qed.

(** Giving back the buffer at the head; [vq1] is the queue with its
    descriptor possibly rewritten. *)
Lemma loop_complete hist out v gh vq1 :
  loop_at hist out v gh -> ah gh < ag gh ->
  vq_inv vq1 gh -> num_desc vq1 = num_desc (v_vq v) -> driver_event vq1 = driver_event (v_vq v) ->
  (forall p, ug gh <= p < ug gh + num_desc (v_vq v) -> p <> uh gh -> entry_at vq1 p = entry_at (v_vq v) p) ->
  loop_at (hist ++ [entry_at (v_vq v) (ah gh)]) (out ++ [entry_at vq1 (ah gh)])
    (mk_view (expose_used (idx (num_desc vq1) (uh gh)) vq1) (v_env v)) (gh_complete gh).
Proof.
  intros [[Hinv HF] Heq Hrw Hnum Hc Hq [new Ha] [gone Hu]] Hlt Hinv1 En Ed He.
  destruct (expose_used_inv vq1 gh Hinv1 Heq ltac:(lia)) as (Hinv2 & (En2 & _) & Ed2 & He2).
  destruct (hi_order _ _ (vi_host _ _ Hinv)). pose proof (gi_order _ _ (vi_guest _ _ Hinv)).
  constructor; simpl.
  - by split.
  - by rewrite Heq.
  - done.
  - congruence.
  - rewrite Hc, length_app. simpl. lia.
  - intros Eq. destruct (Hq Eq). split; simpl; congruence.
  - exists new. rewrite Ha, (avail_head _ _ Hlt), <- app_assoc. f_equal. simpl. f_equal.
    symmetry. apply map_range_ext. simpl. intros p Hp. rewrite He2 by (rewrite ?En; lia). apply He; lia.
  - exists gone. rewrite app_assoc, Hu, <- app_assoc. f_equal. unfold used_entries, entries; simpl.
    rewrite range_snoc, map_app by lia. simpl. rewrite He2 by (rewrite ?En; lia). rewrite <- Heq. f_equal.
    apply map_range_ext. intros p Hp. rewrite He2 by (rewrite ?En; lia). symmetry. apply He; lia.
Qed.

End loop.

Lemma loop_start q vq gh x env :
  vq_inv vq gh -> uh gh = ah gh -> Forall (rely q) env ->
  forall vq1, vq1 = vq \/ vq1 = vring_packed_notification vq x ->
  loop_at q vq gh [] [] (mk_view vq1 env) gh.
Proof.
  intros Hinv Heq HF.
  assert (H0 : loop_at q vq gh [] [] (mk_view vq env) gh).
  { constructor; simpl; try done; [lia|exists []; by rewrite app_nil_r..]. }
  intros vq1 [-> | ->]; [done|]. pose proof (notification_evolved _ _ x Hinv) as He.
  apply (loop_evolved _ _ _ _ _ _ _ _ _ H0); [split; [apply He|done]|done|].
  intros _. split; [done|apply notification_driver].
Qed.

(** *** After the loops *)

Lemma finish_spec q txq count bufs v gh :
  view_ok q v gh ->
  let '(txq', v') := finish_batch txq count bufs v in
  exists gh', view_ok q v' gh' /\ guest_step (v_vq v) gh (v_vq v') gh' /\
    quiet_step q (v_vq v) gh (v_vq v') gh' /\
    q_notify txq' = if 0 <? count then b2z (vring_packed_intr_needed (v_vq v') (u16 count)) else q_notify txq.
Proof.
  intros Hv. unfold finish_batch. destruct (sync_spec q v gh Hv) as (gh' & Hv' & Hs & Hq).
  destruct (0 <? count); [by exists gh'|]. exists gh. split_and!; try done. by apply guest_step_refl, Hv.
Qed.

(** The interrupt test after a batch, the guest having asked for the [m]-th
    buffer from its oldest one, is exact. *)
Lemma intr_needed_exact vq gh count m :
  vq_inv vq gh -> 0 <= count -> 0 < m <= num_desc vq ->
  driver_event vq = event_at (num_desc vq) (ug gh + m - 1) ->
  ug gh <= uh gh - count -> uh gh - count - ug gh < m ->
  vring_packed_intr_needed vq (u16 count) = (m <=? Z.of_nat (length (used_entries vq gh))).
Proof.
  intros [Hg Hh _] Hc Hm Hev Hold Hlt. pose proof (gi_n _ _ Hg) as Hn. pose proof (gi_order _ _ Hg).
  destruct (hi_order _ _ Hh), (hi_used _ _ Hh) as (Eu & Ew & _).
  unfold used_entries, entries. rewrite length_map, length_range by lia.
  rewrite u16_id by (unfold is_u16; lia). unfold vring_packed_intr_needed. rewrite Eu, Ew, Hev. unfold lap.
  pose proof (event_needed_exact _ Hn (ug gh + m - 1) (uh gh - count) (uh gh) ltac:(lia) ltac:(lia)) as Hex.
  replace (uh gh - (uh gh - count)) with count in Hex by lia.
  apply eq_true_iff_eq. rewrite Hex, Z.leb_le. lia.
Qed.

(** What a loop that gave back [count] buffers leaves, the guest being quiet. *)
Lemma batch_interrupt vq0 gh0 count m hist out v gh notify :
  vq_inv vq0 gh0 -> loop_at true vq0 gh0 hist out v gh -> count = Z.of_nat (length hist) ->
  0 < m <= num_desc vq0 -> driver_event vq0 = event_at (num_desc vq0) (ug gh0 + m - 1) ->
  Z.of_nat (length (used_entries vq0 gh0)) < m ->
  notify = (if 0 <? count then b2z (vring_packed_intr_needed (v_vq v) (u16 count)) else 0) ->
  ug gh = ug gh0 /\ notify = b2z (m <=? Z.of_nat (length (used_entries (v_vq v) gh))).
Proof.
  intros Hinv0 Hla -> Hm Hev Hlt ->. destruct (la_quiet _ _ _ _ _ _ _ Hla eq_refl) as [Eug Eev].
  split; [done|]. pose proof (la_count _ _ _ _ _ _ _ Hla) as Hc. pose proof (la_num _ _ _ _ _ _ _ Hla) as En.
  destruct (la_view _ _ _ _ _ _ _ Hla) as [Hinv _].
  destruct (hi_order _ _ (vi_host _ _ Hinv0)), (hi_order _ _ (vi_host _ _ Hinv)).
  unfold used_entries, entries in Hlt. rewrite length_map, length_range in Hlt by lia.
  destruct (0 <? _) eqn:E0; zify_bool.
  - f_equal. apply intr_needed_exact; try done; try lia; rewrite ?En, ?Eug; try done; try lia. congruence.
  - unfold used_entries, entries. rewrite length_map, length_range by lia.
    by rewrite (proj2 (Z.leb_gt _ _)) by lia.
Qed.

(** ** Transmission *)

Section drain.
Context {W : Type} `{!NetBackend W}.

(** The reference: send the packets of a list of buffers in order, skipping
    those outside guest memory, until the budget is spent or the backend
    refuses one ([a_stop]). *)
Record tx_acc := mk_acc {
  a_count : Z;
  a_can_send : option Z;
  a_map : mem_map;
  a_w : W;
  a_stop : bool;
}.

Definition tx_one (a : tx_acc) (e : entry) : tx_acc :=
  if a_stop a then a
  else if BPFHV_BE_TX_BUDGET <=? a_count a then
    mk_acc (a_count a) (a_can_send a) (a_map a) (a_w a) true
  else
    let '(base, map) := translate_addr (a_map a) (e_addr e) (e_len e) in
    if base =? NULL then mk_acc (a_count a + 1) (a_can_send a) map (a_w a) false
    else
      let '(res, w) := be_send None (a_w a) [mk_iov base (e_len e)] in
      if s32 (io_ret res) <=? 0 then
        mk_acc (a_count a) (after_send (s32 (io_ret res)) (io_errno res) (a_can_send a)) map w true
      else mk_acc (a_count a + 1) (a_can_send a) map w false.

Definition tx_process (es : list entry) (a : tx_acc) : tx_acc := foldl tx_one a es.

Lemma vq_tx_process_stopped es a : a_stop a = true -> tx_process es a = a.
Proof.
  intros E. induction es as [|e es IH]; simpl; [done|].
  assert (tx_one a e = a) as -> by (unfold tx_one; by rewrite E). done.
Qed.

Definition tx_acc0 (can_send : option Z) (map : mem_map) (w : W) : tx_acc := mk_acc 0 can_send map w false.

Definition tx_acc_of (s : drain_state W) (stop : bool) : tx_acc :=
  mk_acc (d_count s) (d_can_send s) (d_map s) (d_w s) stop.

Section drain_loop.
Context (q : bool) (vq0 : vring_packed_virtq) (gh0 : ghost) (a0 : tx_acc).

Definition drain_inv (s : drain_state W) : Prop :=
  exists hist gh, loop_at q vq0 gh0 hist hist (d_view s) gh /\
    d_count s = Z.of_nat (length hist) /\ d_count s <= BPFHV_BE_TX_BUDGET /\
    d_bufs s = d_count s /\ tx_process hist a0 = tx_acc_of s false.

(** When the loop ends: the reference on all the buffers seen stops at the
    same point. *)
Definition drain_post (s : drain_state W) : Prop :=
  exists hist gh stop, loop_at q vq0 gh0 hist hist (d_view s) gh /\
    d_count s = Z.of_nat (length hist) /\ d_count s <= BPFHV_BE_TX_BUDGET /\ d_bufs s = d_count s /\
    tx_process (hist ++ avail_entries (v_vq (d_view s)) gh) a0 = tx_acc_of s stop /\
    (stop = false -> ah gh = ag gh /\
       (is_null (d_can_send s) = false -> device_event (v_vq (d_view s)) = event_at (num_desc vq0) (ah gh))).

Lemma vq_drain_iter_spec s :
  drain_inv s ->
  0 <= BPFHV_BE_TX_BUDGET - d_count s /\
  match drain_iter s with
  | Continue s' => drain_inv s' /\ BPFHV_BE_TX_BUDGET - d_count s' < BPFHV_BE_TX_BUDGET - d_count s
  | Break s' => drain_post s'
  end.
Proof.
  intros (hist & gh & Hla & Hc & Hb & Hbufs & Ht). split; [lia|]. unfold drain_iter.
  pose proof (la_view _ _ _ _ _ _ _ Hla) as Hv. pose proof (vi_host _ _ (proj1 Hv)) as Hh.
  destruct (hi_avail _ _ Hh) as [-> _], (hi_used _ _ Hh) as [-> _].
  rewrite <- (la_eq _ _ _ _ _ _ _ Hla), Z.eqb_refl. simpl negb. cbv iota.
  pose proof (poll_spec q (is_null (d_can_send s)) _ _ Hv) as Hp.
  destruct (poll _ _) as [more v]. destruct Hp as (gh' & Hv' & He & Hq & Hres).
  pose proof (loop_evolved _ _ _ _ _ _ _ _ _ Hla Hv' He Hq) as Hla'.
  rewrite <- (ev_uh _ _ _ _ He).
  pose proof (ev_same _ _ _ _ He) as (En & _). rewrite <- En.
  pose proof (la_eq _ _ _ _ _ _ _ Hla') as Heq. fold (slot (v_vq v) (uh gh')).
  destruct more; simpl.
  2:{ destruct Hres as [Hag Hev]. exists hist, gh', false. split_and!; try done.
      - unfold avail_entries, entries. by rewrite Hag, range_nil, app_nil_r.
      - intros _. split; [done|]. simpl. intros Hn. rewrite Hev by done.
        by rewrite <- En, (la_num _ _ _ _ _ _ _ Hla'). }
  pose proof (avail_head (v_vq v) _ Hres) as Hhd.
  assert (Hall : tx_process (hist ++ avail_entries (v_vq v) gh') a0 =
    tx_process (entries (v_vq v) (ah gh' + 1) (ag gh')) (tx_one (tx_acc_of s false) (entry_at (v_vq v) (uh gh')))).
  { unfold tx_process in *. by rewrite foldl_app, Ht, Hhd, Heq. }
  assert (Hnext : tx_process (hist ++ [entry_at (v_vq v) (ah gh')]) a0
    = tx_one (tx_acc_of s false) (entry_at (v_vq v) (uh gh')))
    by (unfold tx_process in *; by rewrite foldl_app, Ht, Heq).
  unfold tx_one in Hall, Hnext; simpl in Hall, Hnext.
  destruct (BPFHV_BE_TX_BUDGET <=? d_count s) eqn:Eb.
  { exists hist, gh', true. split_and!; try done. etransitivity; [exact Hall|]. by rewrite vq_tx_process_stopped. }
  zify_bool. pose proof (loop_complete _ _ _ _ _ _ _ (v_vq v) Hla' Hres (proj1 Hv') eq_refl eq_refl
    ltac:(done)) as Hnla. 
  destruct (translate_addr _ _ _) as [base map]. destruct (base =? NULL) eqn:Enull.
  { split; [|simpl; lia]. exists (hist ++ [entry_at (v_vq v) (ah gh')]), (gh_complete gh').
    split_and!; try done; simpl; try lia. rewrite length_app. simpl. lia. }
  destruct (be_send _ _ _) as [res w]. destruct (s32 (io_ret res) <=? 0) eqn:Er.
  - exists hist, gh', true. split_and!; try done. etransitivity; [exact Hall|]. by rewrite vq_tx_process_stopped.
  - split; [|simpl; lia]. exists (hist ++ [entry_at (v_vq v) (ah gh')]), (gh_complete gh').
    split_and!; try done; simpl; try lia. rewrite length_app. simpl. lia.
Qed.

End drain_loop.

Lemma vq_drain_loop_result q fuel map vq gh can_send w env :
  vq_inv vq gh -> uh gh = ah gh -> Forall (rely q) env -> BPFHV_BE_TX_BUDGET < Z.of_nat fuel ->
  exists s, run drain_iter fuel
      (mk_drain (mk_view (if is_null can_send then vq else vring_packed_notification vq 0) env) 0 0 can_send map w)
      = Some s /\ drain_post q vq gh (tx_acc0 can_send map w) s.
Proof.
  intros Hinv Heq HF Hfuel.
  apply (run_measure drain_iter (drain_inv q vq gh (tx_acc0 can_send map w)) _
           (fun s => BPFHV_BE_TX_BUDGET - d_count s) (vq_drain_iter_spec q vq gh _)); [|simpl; lia].
  exists [], gh. simpl. split_and!; try done.
  apply (loop_start q vq gh 0); try done. destruct (is_null can_send); auto.
Qed.

(** C1: [vring_packed_txq_drain] terminates and is equivalent to the reference
    processing of the buffers that were available when it was called or became
    so while it ran ([new]): it sends the same packets in the same order, gives
    the buffers it went through back to the guest in order, with their
    cookies, and leaves the others available, whatever the guest does
    meanwhile ([late] are the buffers added after the last look at the
    queue, [gone] those the guest has collected). *)
Theorem vring_packed_txq_drain_refines fuel map txq vq gh can_send w env :
  vq_inv vq gh -> uh gh = ah gh -> Forall (rely false) env -> BPFHV_BE_TX_BUDGET < Z.of_nat fuel ->
  exists res gh' new late gone,
    let all := avail_entries vq gh ++ new in
    let a := tx_process all (tx_acc0 can_send map w) in
    let n := Z.to_nat (a_count a) in
    let vq' := v_vq (r_view res) in
    vring_packed_txq_drain fuel map txq vq can_send w env = Some res /\
    r_count res = a_count a /\ r_can_send res = a_can_send a /\ r_map res = a_map a /\ r_w res = a_w a /\
    vq_inv vq' gh' /\ uh gh' = ah gh' /\
    avail_entries vq' gh' = drop n all ++ late /\
    used_entries vq gh ++ take n all = gone ++ used_entries vq' gh'.
Proof.
  intros Hinv Heq HF Hfuel.
  destruct (vq_drain_loop_result false fuel map vq gh can_send w env Hinv Heq HF Hfuel)
    as (s & Hrun & hist & gh1 & stop & Hla & Hc & _ & _ & Ht & _).
  unfold vring_packed_txq_drain. rewrite Hrun. simpl.
  pose proof (finish_spec false (set_notify 0 txq) (d_count s) (d_bufs s) _ _ (la_view _ _ _ _ _ _ _ Hla)) as Hfin.
  destruct (finish_batch _ _ _ _) as [txq' v']. destruct Hfin as (gh' & Hv' & [He _] & Hq & _).
  pose proof (loop_evolved _ _ _ _ _ _ _ _ _ Hla Hv' He Hq) as Hla'.
  destruct (la_avail _ _ _ _ _ _ _ Hla) as [new Ha], (la_used _ _ _ _ _ _ _ Hla') as [gone Hu].
  destruct (evolved_lists _ _ _ _ (proj1 (la_view _ _ _ _ _ _ _ Hla)) He) as ([late Hl] & _).
  exists (mk_drain_result (d_count s) v' txq' (d_can_send s) (d_map s) (d_w s)), gh', new, late, gone.
  cbv zeta. rewrite Ha, Ht. simpl. rewrite Hc, Nat2Z.id, drop_app_length, take_app_length.
  split_and!; try done; [apply Hv'|apply Hla'].
Qed.

(** C34: No completion interrupt is lost, and none is spurious.  After the guest
    has asked with [vring_packed_txi] for an interrupt on the [m]-th buffer
    from its oldest one, fewer being used, a drain raises the interrupt
    exactly when it brings the used buffers to at least [m], also while the
    guest publishes more packets. *)
Theorem vring_packed_txq_drain_interrupt fuel map txq vq gh can_send w env m :
  vq_inv vq gh -> uh gh = ah gh -> Forall (rely true) env -> BPFHV_BE_TX_BUDGET < Z.of_nat fuel ->
  0 < m <= num_desc vq -> driver_event vq = event_at (num_desc vq) (ug gh + m - 1) ->
  Z.of_nat (length (used_entries vq gh)) < m ->
  exists res gh',
    vring_packed_txq_drain fuel map txq vq can_send w env = Some res /\
    vq_inv (v_vq (r_view res)) gh' /\ ug gh' = ug gh /\
    q_notify (r_txq res) = b2z (m <=? Z.of_nat (length (used_entries (v_vq (r_view res)) gh'))).
Proof.
  intros Hinv Heq HF Hfuel Hm Hev Hlt.
  destruct (vq_drain_loop_result true fuel map vq gh can_send w env Hinv Heq HF Hfuel)
    as (s & Hrun & hist & gh1 & stop & Hla & Hc & _ & _ & _).
  unfold vring_packed_txq_drain. rewrite Hrun. simpl.
  pose proof (finish_spec true (set_notify 0 txq) (d_count s) (d_bufs s) _ _ (la_view _ _ _ _ _ _ _ Hla)) as Hfin.
  destruct (finish_batch _ _ _ _) as [txq' v']. destruct Hfin as (gh' & Hv' & [He _] & Hq & Hn).
  pose proof (loop_evolved _ _ _ _ _ _ _ _ _ Hla Hv' He Hq) as Hla'.
  eexists _, gh'. split; [done|]. simpl. split; [apply Hv'|].
  by apply (batch_interrupt vq gh (d_count s) m hist hist).
Qed.

Lemma vq_tx_process_can_send es a : is_null (a_can_send (tx_process es a)) = is_null (a_can_send a).
Proof.
  revert a. induction es as [|e es IH]; intros a; simpl; [done|]. rewrite IH. unfold tx_one.
  case_if; [done|]. case_if; [done|]. destruct (translate_addr _ _ _). case_if; [done|].
  destruct (be_send _ _ _). case_if; [|done]. simpl. unfold after_send.
  destruct (a_can_send a); [|done]. by case_if.
Qed.

(** No kick is lost.  A hypervisor that stops draining, not in busy-wait
    mode, because it found no available buffer has processed every buffer it
    could see and has asked to be notified of the next one; if none was added
    since, the next [vring_packed_txp] returns with a kick request. *)
Theorem vring_packed_txq_drain_sleep fuel map txq vq gh v w env :
  vq_inv vq gh -> uh gh = ah gh -> rw gh = 0 -> Forall (rely false) env -> BPFHV_BE_TX_BUDGET < Z.of_nat fuel ->
  exists res gh' new late,
    let a := tx_process (avail_entries vq gh ++ new) (tx_acc0 (Some v) map w) in
    let vq' := v_vq (r_view res) in
    vring_packed_txq_drain fuel map txq vq (Some v) w env = Some res /\ vq_inv vq' gh' /\
    (a_stop a = false ->
       a_count a = Z.of_nat (length (avail_entries vq gh ++ new)) /\ avail_entries vq' gh' = late /\
       device_event vq' = event_at (num_desc vq) (ag gh' - Z.of_nat (length late)) /\
       (late = [] -> forall hp ctx, opaque ctx = vq' -> num_bufs ctx = 1 -> ag gh' < ug gh' + num_desc vq' ->
          oflags (snd (vring_packed_txp hp (fun vq => vq) ctx)) = BPFHV_OFLAGS_KICK_NEEDED)).
Proof.
  intros Hinv Heq Hrw HF Hfuel.
  destruct (vq_drain_loop_result false fuel map vq gh (Some v) w env Hinv Heq HF Hfuel)
    as (s & Hrun & hist & gh1 & stop & Hla & Hc & _ & _ & Ht & Hstop).
  unfold vring_packed_txq_drain. rewrite Hrun. simpl.
  pose proof (finish_spec false (set_notify 0 txq) (d_count s) (d_bufs s) _ _ (la_view _ _ _ _ _ _ _ Hla)) as Hfin.
  destruct (finish_batch _ _ _ _) as [txq' v']. destruct Hfin as (gh' & Hv' & [He Hs] & Hq & _).
  pose proof (loop_evolved _ _ _ _ _ _ _ _ _ Hla Hv' He Hq) as Hla'.
  destruct (la_avail _ _ _ _ _ _ _ Hla) as [new Ha].
  exists (mk_drain_result (d_count s) v' txq' (d_can_send s) (d_map s) (d_w s)), gh', new,
    (avail_entries (v_vq v') gh').
  cbv zeta. rewrite Ha, Ht. simpl. split_and!; [done|apply Hv'|]. intros Es. destruct (Hstop Es) as [Hag Hev].
  pose proof (vq_tx_process_can_send (hist ++ avail_entries (v_vq (d_view s)) gh1) (tx_acc0 (Some v) map w)) as Hnn.
  rewrite Ht in Hnn. specialize (Hev Hnn).
  assert (Hnil : avail_entries (v_vq (d_view s)) gh1 = [])
    by (unfold avail_entries, entries; by rewrite Hag, range_nil).
  destruct (hi_order _ _ (vi_host _ _ (proj1 Hv'))) as [_ Hord].
  assert (Hlen : Z.of_nat (length (avail_entries (v_vq v') gh')) = ag gh' - ah gh')
    by (unfold avail_entries, entries; by rewrite length_map, length_range).
  assert (Hdev : device_event (v_vq v') = event_at (num_desc vq) (ah gh')).
  { destruct Hs as (_ & _ & -> & _). by rewrite (ev_ah _ _ _ _ He). }
  split_and!; [by rewrite Hnil, app_nil_r|done|rewrite Hdev; f_equal; lia|].
  intros Hn hp ctx Ectx Hnb Hroom. rewrite Hn in Hlen. simpl in Hlen.
  apply (txp_kick hp ctx gh'); rewrite ?Ectx; try done; [apply Hv'| |].
  - by rewrite (ev_rw _ _ _ _ He), (la_rw _ _ _ _ _ _ _ Hla).
  - rewrite Hdev, (la_num _ _ _ _ _ _ _ Hla'). f_equal. lia.
Qed.

End drain.

(** ** Reception *)

Section push.
Context {W : Type} `{!NetBackend W}.

Definition with_len (l : Z) (e : entry) : entry := mk_entry (e_cookie e) (e_addr e) l (e_mark e).

(** The reference: receive into a list of buffers in order, an unusable buffer
    being given back empty, until the budget is spent or there is no packet;
    [x_out] are the buffers given back, with the lengths received. *)
Record rx_acc := mk_rx { x_out : list entry; x_map : mem_map; x_w : W; x_stop : bool }.

Definition rx_one (a : rx_acc) (e : entry) : rx_acc :=
  if x_stop a then a
  else if BPFHV_BE_RX_BUDGET <=? Z.of_nat (length (x_out a)) then
    mk_rx (x_out a) (x_map a) (x_w a) true
  else
    let '(base, map) := translate_addr (x_map a) (e_addr e) (e_len e) in
    if base =? NULL then mk_rx (x_out a ++ [with_len 0 e]) map (x_w a) false
    else
      let '(res, w) := be_recv 0 (x_w a) [mk_iov base (e_len e)] in
      if io_ret res <=? 0 then mk_rx (x_out a) map w true
      else mk_rx (x_out a ++ [with_len (u32 (io_ret res)) e]) map w false.

Definition rx_process (es : list entry) (a : rx_acc) : rx_acc := foldl rx_one a es.

Lemma vq_rx_process_stopped es a : x_stop a = true -> rx_process es a = a.
Proof.
  intros E. induction es as [|e es IH]; simpl; [done|].
  assert (rx_one a e = a) as -> by (unfold rx_one; by rewrite E). done.
Qed.

Definition rx_acc0 (map : mem_map) (w : W) : rx_acc := mk_rx [] map w false.

(** Giving back the head with a new length. *)
Lemma loop_receive q vq0 gh0 hist out v gh l :
  loop_at q vq0 gh0 hist out v gh -> ah gh < ag gh ->
  let i := idx (num_desc (v_vq v)) (uh gh) in
  loop_at q vq0 gh0 (hist ++ [entry_at (v_vq v) (ah gh)]) (out ++ [with_len l (entry_at (v_vq v) (ah gh))])
    (on_vq (expose_used i) (on_vq (fun vq => put_desc i (set_len l (get_desc i vq)) vq) v)) (gh_complete gh).
Proof.
  intros Hla Hlt i. pose proof (proj1 (la_view _ _ _ _ _ _ _ Hla)) as Hinv.
  pose proof (la_eq _ _ _ _ _ _ _ Hla) as Heq.
  destruct (put_len_inv _ _ l Hinv ltac:(lia)) as [Hinv1 Hslot].
  set (vq1 := put_desc _ _ _) in *.
  pose proof (gi_order _ _ (vi_guest _ _ Hinv)). destruct (hi_order _ _ (vi_host _ _ Hinv)).
  pose proof (loop_complete _ _ _ _ _ _ _ vq1 Hla Hlt Hinv1 eq_refl eq_refl) as Hl.
  assert (He : entry_at vq1 (ah gh) = with_len l (entry_at (v_vq v) (ah gh))).
  { unfold entry_at. rewrite Hslot by lia. by rewrite decide_True by lia. }
  rewrite He in Hl. apply Hl. intros p Hp Hne. unfold entry_at. rewrite Hslot by lia.
  by rewrite decide_False by done.
Qed.

Section push_loop.
Context (q : bool) (vq0 : vring_packed_virtq) (gh0 : ghost) (busy : bool) (a0 : rx_acc).

Definition rx_acc_of (s : push_state W) (out : list entry) (stop : bool) : rx_acc :=
  mk_rx out (p_map s) (p_w s) stop.

Definition push_at (hist out : list entry) (gh : ghost) (s : push_state W) : Prop :=
  loop_at q vq0 gh0 hist out (p_view s) gh /\ length out = length hist /\
  p_count s = Z.of_nat (length hist) /\ p_count s <= BPFHV_BE_RX_BUDGET /\ p_bufs s = p_count s.

Definition push_inv (s : push_state W) : Prop :=
  exists hist out gh, push_at hist out gh s /\ rx_process hist a0 = rx_acc_of s out false.

Definition push_post (s : push_state W) : Prop :=
  exists hist out gh stop, push_at hist out gh s /\
    rx_process (hist ++ avail_entries (v_vq (p_view s)) gh) a0 = rx_acc_of s out stop /\
    (stop = false -> ah gh = ag gh /\
       (busy = false -> device_event (v_vq (p_view s)) = event_at (num_desc vq0) (ah gh))).

Lemma vq_push_iter_spec s :
  push_inv s ->
  0 <= BPFHV_BE_RX_BUDGET - p_count s /\
  match push_iter busy s with
  | Continue s' => push_inv s' /\ BPFHV_BE_RX_BUDGET - p_count s' < BPFHV_BE_RX_BUDGET - p_count s
  | Break s' => push_post s'
  end.
Proof.
  intros (hist & out & gh & (Hla & Hlen & Hc & Hb & Hbufs) & Ht). split; [lia|]. unfold push_iter.
  pose proof (la_view _ _ _ _ _ _ _ Hla) as Hv. pose proof (vi_host _ _ (proj1 Hv)) as Hh.
  destruct (hi_avail _ _ Hh) as [-> _], (hi_used _ _ Hh) as [-> _].
  rewrite <- (la_eq _ _ _ _ _ _ _ Hla), Z.eqb_refl. simpl negb. cbv iota.
  pose proof (poll_spec q busy _ _ Hv) as Hp.
  destruct (poll _ _) as [more v]. destruct Hp as (gh' & Hv' & He & Hq & Hres).
  pose proof (loop_evolved _ _ _ _ _ _ _ _ _ Hla Hv' He Hq) as Hla'.
  rewrite <- (ev_uh _ _ _ _ He).
  pose proof (ev_same _ _ _ _ He) as (En & _). rewrite <- En.
  pose proof (la_eq _ _ _ _ _ _ _ Hla') as Heq. fold (slot (v_vq v) (uh gh')).
  destruct more; simpl.
  2:{ destruct Hres as [Hag Hev]. exists hist, out, gh', false. split_and!; try done.
      - unfold avail_entries, entries. by rewrite Hag, range_nil, app_nil_r.
      - intros _. split; [done|]. simpl. intros Hn. rewrite Hev by done.
        by rewrite <- En, (la_num _ _ _ _ _ _ _ Hla'). }
  pose proof (avail_head (v_vq v) _ Hres) as Hhd.
  assert (Hall : rx_process (hist ++ avail_entries (v_vq v) gh') a0 =
    rx_process (entries (v_vq v) (ah gh' + 1) (ag gh')) (rx_one (rx_acc_of s out false) (entry_at (v_vq v) (ah gh')))).
  { unfold rx_process in *. by rewrite foldl_app, Ht, Hhd. }
  assert (Hnext : rx_process (hist ++ [entry_at (v_vq v) (ah gh')]) a0
    = rx_one (rx_acc_of s out false) (entry_at (v_vq v) (ah gh')))
    by (unfold rx_process in *; by rewrite foldl_app, Ht).
  unfold rx_one in Hall, Hnext; simpl in Hall, Hnext. rewrite Hlen, <- Hc in Hall, Hnext.
  destruct (BPFHV_BE_RX_BUDGET <=? p_count s) eqn:Eb.
  { exists hist, out, gh', true. split_and!; try done. etransitivity; [exact Hall|]. by rewrite vq_rx_process_stopped. }
  zify_bool. pose proof (fun l => loop_receive _ _ _ _ _ _ _ l Hla' Hres) as Hnla.
  rewrite <- Heq in Hall, Hnext, Hnla.
  destruct (translate_addr _ _ _) as [base map]. destruct (base =? NULL) eqn:Enull.
  { split; [|simpl; lia]. eexists _, _, (gh_complete gh'). split; [|exact Hnext].
    unfold push_at; simpl. rewrite !length_app; simpl. split_and!; try lia. exact (Hnla 0). }
  destruct (be_recv _ _ _) as [res w]. destruct (io_ret res <=? 0) eqn:Er.
  - exists hist, out, gh', true. split_and!; try done. etransitivity; [exact Hall|]. by rewrite vq_rx_process_stopped.
  - split; [|simpl; lia]. eexists _, _, (gh_complete gh'). split; [|exact Hnext].
    unfold push_at; simpl. rewrite !length_app; simpl. split_and!; try lia. exact (Hnla (u32 (io_ret res))).
Qed.

End push_loop.

Lemma vq_push_loop_result q fuel map vq gh busy w env :
  vq_inv vq gh -> uh gh = ah gh -> Forall (rely q) env -> BPFHV_BE_RX_BUDGET < Z.of_nat fuel ->
  exists s, run (push_iter busy) fuel
      (mk_push (mk_view (if negb (h_device_event_flags (h vq) =? VRING_PACKED_EVENT_FLAG_DISABLE)
                         then vring_packed_notification vq 0 else vq) env) 0 0 map w)
      = Some s /\ push_post q vq gh busy (rx_acc0 map w) s.
Proof.
  intros Hinv Heq HF Hfuel.
  apply (run_measure (push_iter busy) (push_inv q vq gh (rx_acc0 map w)) _
           (fun s => BPFHV_BE_RX_BUDGET - p_count s) (vq_push_iter_spec q vq gh busy _)); [|simpl; lia].
  exists [], [], gh. split; [|done]. split_and!; try done.
  apply (loop_start q vq gh 0); try done. destruct (negb _); auto.
Qed.

(** C20: [vring_packed_rxq_push] terminates and is equivalent to the reference
    reception into the buffers that were available when it was called or
    became so while it ran: the packets are received in order into the same
    buffers, each buffer is given back with its cookie and the length
    received (0 for a buffer outside guest memory), and the rest stay
    available. *)
Theorem vring_packed_rxq_push_refines fuel map rxq vq gh can_receive w env :
  vq_inv vq gh -> uh gh = ah gh -> Forall (rely false) env -> BPFHV_BE_RX_BUDGET < Z.of_nat fuel ->
  exists res gh' new late gone,
    let all := avail_entries vq gh ++ new in
    let a := rx_process all (rx_acc0 map w) in
    let vq' := v_vq (pr_view res) in
    vring_packed_rxq_push fuel map rxq vq can_receive w env = Some res /\
    pr_count res = Z.of_nat (length (x_out a)) /\ pr_map res = x_map a /\ pr_w res = x_w a /\
    vq_inv vq' gh' /\ uh gh' = ah gh' /\
    avail_entries vq' gh' = drop (length (x_out a)) all ++ late /\
    used_entries vq gh ++ x_out a = gone ++ used_entries vq' gh' /\
    (x_stop a = false -> is_null can_receive = false ->
       device_event vq' = event_at (num_desc vq) (ag gh' - Z.of_nat (length late))).
Proof.
  intros Hinv Heq HF Hfuel.
  destruct (vq_push_loop_result false fuel map vq gh (is_null can_receive) w env Hinv Heq HF Hfuel)
    as (s & Hrun & hist & out & gh1 & stop & (Hla & Hlen & Hc & _ & _) & Ht & Hstop).
  unfold vring_packed_rxq_push. rewrite Hrun. simpl.
  pose proof (finish_spec false (set_notify 0 rxq) (p_count s) (p_bufs s) _ _ (la_view _ _ _ _ _ _ _ Hla)) as Hfin.
  destruct (finish_batch _ _ _ _) as [rxq' v']. destruct Hfin as (gh' & Hv' & [He Hs] & Hq & _).
  pose proof (loop_evolved _ _ _ _ _ _ _ _ _ Hla Hv' He Hq) as Hla'.
  destruct (la_avail _ _ _ _ _ _ _ Hla) as [new Ha], (la_used _ _ _ _ _ _ _ Hla') as [gone Hu].
  destruct (evolved_lists _ _ _ _ (proj1 (la_view _ _ _ _ _ _ _ Hla)) He) as ([late Hl] & _).
  exists (mk_push_result (p_count s) v' rxq' (p_map s) (p_w s)), gh', new, late, gone.
  cbv zeta. rewrite Ha, Ht. simpl. rewrite Hlen, drop_app_length.
  split_and!; try done; [apply Hv'|apply Hla'|]. intros Es Hnn. destruct (Hstop Es) as [Hag Hev].
  specialize (Hev Hnn). destruct Hs as (_ & _ & -> & _). rewrite Hev. f_equal.
  assert (Hnil : avail_entries (v_vq (p_view s)) gh1 = [])
    by (unfold avail_entries, entries; by rewrite Hag, range_nil).
  rewrite Hnil in Hl. simpl in Hl. rewrite <- Hl.
  destruct (hi_order _ _ (vi_host _ _ (proj1 Hv'))) as [_ Hord]. pose proof (ev_ah _ _ _ _ He).
  unfold avail_entries, entries. rewrite length_map, length_range by lia. lia.
Qed.

(** No receive interrupt is lost, and none is spurious: after a request of
    [vring_packed_rxi] for the [m]-th buffer, a push raises the interrupt
    exactly when it brings the used buffers to at least [m]. *)
Theorem vring_packed_rxq_push_interrupt fuel map rxq vq gh can_receive w env m :
  vq_inv vq gh -> uh gh = ah gh -> Forall (rely true) env -> BPFHV_BE_RX_BUDGET < Z.of_nat fuel ->
  0 < m <= num_desc vq -> driver_event vq = event_at (num_desc vq) (ug gh + m - 1) ->
  Z.of_nat (length (used_entries vq gh)) < m ->
  exists res gh',
    vring_packed_rxq_push fuel map rxq vq can_receive w env = Some res /\
    vq_inv (v_vq (pr_view res)) gh' /\ ug gh' = ug gh /\
    q_notify (pr_rxq res) = b2z (m <=? Z.of_nat (length (used_entries (v_vq (pr_view res)) gh'))).
Proof.
  intros Hinv Heq HF Hfuel Hm Hev Hlt.
  destruct (vq_push_loop_result true fuel map vq gh (is_null can_receive) w env Hinv Heq HF Hfuel)
    as (s & Hrun & hist & out & gh1 & stop & (Hla & Hlen & Hc & _ & _) & _ & _).
  unfold vring_packed_rxq_push. rewrite Hrun. simpl.
  pose proof (finish_spec true (set_notify 0 rxq) (p_count s) (p_bufs s) _ _ (la_view _ _ _ _ _ _ _ Hla)) as Hfin.
  destruct (finish_batch _ _ _ _) as [rxq' v']. destruct Hfin as (gh' & Hv' & [He _] & Hq & Hn).
  pose proof (loop_evolved _ _ _ _ _ _ _ _ _ Hla Hv' He Hq) as Hla'.
  eexists _, gh'. split; [done|]. simpl. split; [apply Hv'|].
  by apply (batch_interrupt vq gh (p_count s) m hist out).
Qed.

End push.

(** ** Witnesses

    A queue of two slots with one buffer available, and the sink backend. *)

Definition example_vq (f : Z) : vring_packed_virtq := opaque (example_avail_ctx f).

Lemma example_avail f : avail_entries (example_vq f) (example_avail_gh f) = [mk_entry 7 0x2000 64 0].
Proof. reflexivity. Qed.

Lemma vring_packed_txq_drain_refines_witness :
  exists res new, vring_packed_txq_drain 200 example_map (mk_qio 0 stats_zero) (example_vq 0) (Some 1) [] [] = Some res /\
    r_count res = a_count (tx_process ([mk_entry 7 0x2000 64 0] ++ new) (tx_acc0 (Some 1) example_map [])).
Proof.
  destruct (vring_packed_txq_drain_refines 200 example_map (mk_qio 0 stats_zero) (example_vq 0)
    (example_avail_gh 0) (Some 1) [] [] (example_avail_inv 0 (or_introl eq_refl)) eq_refl (Forall_nil _)
    ltac:(vm_compute; reflexivity)) as (res & gh' & new & late & gone & Hr & Hc & _).
  exists res, new. split; [exact Hr|exact Hc].
Defined.

Lemma vring_packed_txq_drain_sleep_witness :
  exists res gh', vring_packed_txq_drain 200 example_map (mk_qio 0 stats_zero) (example_vq 0) (Some 1) [] [] = Some res /\
    vq_inv (v_vq (r_view res)) gh'.
Proof.
  destruct (vring_packed_txq_drain_sleep 200 example_map (mk_qio 0 stats_zero) (example_vq 0)
    (example_avail_gh 0) 1 [] [] (example_avail_inv 0 (or_introl eq_refl)) eq_refl eq_refl (Forall_nil _)
    ltac:(vm_compute; reflexivity)) as (res & gh' & new & late & Hr & Hc & _).
  exists res, gh'. split; [exact Hr|exact Hc].
Defined.

Lemma example_event f : driver_event (example_vq f) = event_at 2 0.
Proof. reflexivity. Qed.

Lemma vring_packed_txq_drain_interrupt_witness :
  exists res gh', vring_packed_txq_drain 200 example_map (mk_qio 0 stats_zero) (example_vq 0) (Some 1) [] [] = Some res /\
    q_notify (r_txq res) = b2z (1 <=? Z.of_nat (length (used_entries (v_vq (r_view res)) gh'))).
Proof.
  destruct (vring_packed_txq_drain_interrupt 200 example_map (mk_qio 0 stats_zero) (example_vq 0)
    (example_avail_gh 0) (Some 1) [] [] 1 (example_avail_inv 0 (or_introl eq_refl)) eq_refl (Forall_nil _)
    ltac:(vm_compute; reflexivity) ltac:(vm_compute; split; congruence) (example_event 0)
    ltac:(vm_compute; reflexivity)) as (res & gh' & Hr & _ & _ & Hn).
  exists res, gh'. split; [exact Hr|exact Hn].
Defined.

Lemma vring_packed_rxq_push_refines_witness :
  exists res new, vring_packed_rxq_push 200 example_map (mk_qio 0 stats_zero) (example_vq 2) (Some 1) [] [] = Some res /\
    pr_count res = Z.of_nat (length (x_out (rx_process ([mk_entry 7 0x2000 64 0] ++ new) (rx_acc0 example_map [])))).
Proof.
  destruct (vring_packed_rxq_push_refines 200 example_map (mk_qio 0 stats_zero) (example_vq 2)
    (example_avail_gh 2) (Some 1) [] [] (example_avail_inv 2 (or_intror eq_refl)) eq_refl (Forall_nil _)
    ltac:(vm_compute; reflexivity)) as (res & gh' & new & late & gone & Hr & Hc & _).
  exists res, new. split; [exact Hr|exact Hc].
Defined.

Lemma vring_packed_rxq_push_interrupt_witness :
  exists res gh', vring_packed_rxq_push 200 example_map (mk_qio 0 stats_zero) (example_vq 2) (Some 1) [] [] = Some res /\
    q_notify (pr_rxq res) = b2z (1 <=? Z.of_nat (length (used_entries (v_vq (pr_view res)) gh'))).
Proof.
  destruct (vring_packed_rxq_push_interrupt 200 example_map (mk_qio 0 stats_zero) (example_vq 2)
    (example_avail_gh 2) (Some 1) [] [] 1 (example_avail_inv 2 (or_intror eq_refl)) eq_refl (Forall_nil _)
    ltac:(vm_compute; reflexivity) ltac:(vm_compute; split; congruence) (example_event 2)
    ltac:(vm_compute; reflexivity)) as (res & gh' & Hr & _ & _ & Hn).
  exists res, gh'. split; [exact Hr|exact Hn].
Defined.
