(* ===== verification/VringOoo.v ===== *)
(** * The packed virtqueue: out of order processing

    [vring_packed_txq_acquire], [vring_packed_txq_release] and
    [vring_packed_txq_notify], with which the scheduler takes the available
    buffers in order and gives them back in any order.  Giving back a buffer
    other than the oldest one swaps two descriptors of the queue. *)

From S2P Require Import Prelude Abi Backend MarkFun VringPacked VringInv VringGuest VringHost.
Open Scope Z_scope.

(** ** Swapping two slots *)

Definition swap (a b p : Z) : Z := if p =? a then b else if p =? b then a else p.

Lemma swap_invol a b p : swap a b (swap a b p) = p.
Proof. unfold swap. repeat case_if; congruence. Qed.

Lemma swap_range a b lo hi p :
  lo <= a < hi -> lo <= b < hi -> lo <= p < hi <-> lo <= swap a b p < hi.
Proof. unfold swap. intros. repeat case_if; lia. Qed.

Lemma range_swap a b lo hi :
  lo <= a < hi -> lo <= b < hi -> map (swap a b) (range lo hi) ≡ₚ range lo hi.
Proof.
  intros Ha Hb. apply NoDup_Permutation.
  - apply NoDup_fmap_2; [|apply NoDup_seqZ]. intros x y E. rewrite <- (swap_invol a b x), E. apply swap_invol.
  - apply NoDup_seqZ.
  - intros p. rewrite list_elem_of_fmap, elem_of_range. split.
    + intros (r & -> & Hr%elem_of_range). by apply swap_range.
    + intros Hp. exists (swap a b p). rewrite swap_invol, elem_of_range. split; [done|].
      by apply swap_range.
Qed.

Lemma map_range_swap {A} (f f' : Z -> A) a b lo hi :
  lo <= a < hi -> lo <= b < hi -> (forall p, lo <= p < hi -> f' p = f (swap a b p)) ->
  map f' (range lo hi) ≡ₚ map f (range lo hi).
Proof.
  intros Ha Hb Hf. rewrite (map_range_ext f' (fun p => f (swap a b p)) lo hi Hf).
  rewrite <- (map_map (swap a b) f). by apply Permutation_map, range_swap.
Qed.

(** Within a lap the slots are in order, and the next lap comes before. *)
Lemma lap_order n p r :
  1 <= n <= 2 ^ 15 -> p < r < p + n ->
  (idx n p < idx n r /\ lap_bit n r = lap_bit n p) \/ (idx n r < idx n p /\ lap_bit n r = negb (lap_bit n p)).
Proof.
  intros Hn Hr. unfold idx, lap_bit.
  pose proof (Z.div_mod p n ltac:(lia)). pose proof (Z.div_mod r n ltac:(lia)).
  pose proof (Z.mod_pos_bound p n ltac:(lia)). pose proof (Z.mod_pos_bound r n ltac:(lia)).
  assert (Hq : r / n = p / n \/ r / n = p / n + 1) by nia.
  destruct Hq as [Hq|Hq]; rewrite Hq in *; [left|right].
  - split; [nia|done].
  - split; [nia|]. rewrite Z.even_add. simpl. by destruct (Z.even _).
Qed.

(** ** The invariant of a queue with buffers taken out of order *)

(** The map from ids to slots is right for the buffer at [p]. *)
Definition mapped vq (p : Z) : Prop := get_map (id (slot vq p)) vq = idx (num_desc vq) p.

(** Of the taken buffers, those with an id in [bad] were passed over: they are
    not in the map and never released. *)
Record acq_bad (bad : list Z) vq (gh : ghost) : Prop := {
  ai_inv : vq_inv vq gh;
  ai_rw : rw gh = 0;
  ai_len : length (hv_map vq) = Z.to_nat (num_desc vq);
  ai_inuse : g_pending_inuse_counter (g vq) = ah gh - uh gh;
  ai_map : forall p, uh gh <= p < ah gh -> id (slot vq p) ∉ bad -> mapped vq p;
}.
Abbreviation acq_inv := (acq_bad []).

(** Buffers without the mark, which a swap does not move. *)
Definition unmark (e : entry) : entry := mk_entry (e_cookie e) (e_addr e) (e_len e) 0.
Definition buf_at vq (p : Z) : entry := unmark (entry_at vq p).
Definition bufs_between vq (lo hi : Z) : list entry := map (buf_at vq) (range lo hi).

Lemma map_put vq i x j :
  0 <= i -> 0 <= j -> (Z.to_nat i < length (hv_map vq))%nat ->
  get_map j (put_map i x vq) = if decide (j = i) then x else get_map j vq.
Proof.
  intros. unfold get_map, put_map; simpl. case_decide as E; [subst; by rewrite lookup_total_insert_eq|].
  apply lookup_total_insert_ne. lia.
Qed.

(** The swap of the descriptors at [uh] and [p], the map being updated first. *)
Definition swap_step vq (gh : ghost) (p : Z) : option vring_packed_virtq :=
  vring_packed_desc_swap_acquired
    (put_map (id (slot vq (uh gh))) (idx (num_desc vq) p) vq)
    (idx (num_desc vq) (uh gh)) (idx (num_desc vq) p).

Definition same_buf (d d' : vring_packed_desc) : Prop :=
  addr d = addr d' /\ len d = len d' /\ id d = id d'.

(** The assertion holds and the contents of the two slots are exchanged, the
    flags staying in place. *)
Lemma swap_step_spec vq gh p :
  vq_inv vq gh -> rw gh = 0 -> uh gh < p < ag gh ->
  exists vq1, swap_step vq gh p = Some vq1 /\
    (forall r, ug gh <= r < ug gh + num_desc vq ->
       same_buf (slot vq1 r) (slot vq (swap (uh gh) p r)) /\ flags (slot vq1 r) = flags (slot vq r)) /\
    g vq1 = g vq /\ h vq1 = h vq /\ num_desc vq1 = num_desc vq /\ state vq1 = state vq /\
    driver_event vq1 = driver_event vq /\ length (desc vq1) = length (desc vq) /\
    hv_map vq1 = hv_map (put_map (id (slot vq (uh gh))) (idx (num_desc vq) p) vq).
Proof.
  intros [Hg Hh [_ Hf]] Hrw Hp. pose proof (gi_n _ _ Hg) as Hn. pose proof (gi_order _ _ Hg).
  pose proof (gi_desc _ _ Hg) as Hl. destruct (hi_order _ _ Hh).
  unfold swap_step, vring_packed_desc_swap_acquired.
  set (vq0 := put_map _ _ vq). set (d1 := slot vq (uh gh)). set (d2 := slot vq p).
  change (get_desc (idx (num_desc vq) (uh gh)) vq0) with d1. change (get_desc (idx (num_desc vq) p) vq0) with d2.
  set (vq1 := put_desc (idx (num_desc vq) (uh gh)) _ vq0).
  assert (Hs1 : forall r, ug gh <= r < ug gh + num_desc vq ->
     slot vq1 r = if decide (r = uh gh) then mk_desc (addr d2) (len d2) (id d2) (flags d1) (mark d1) else slot vq r).
  { intros r Hr. unfold vq1. apply (slot_put vq0); [done|done|simpl; lia]. }
  change (get_desc (idx (num_desc vq) p) vq1) with (slot vq1 p).
  set (vq2 := put_desc (idx (num_desc vq) p) _ vq1).
  assert (Hs2 : forall r, ug gh <= r < ug gh + num_desc vq ->
     slot vq2 r = if decide (r = p) then mk_desc (addr d1) (len d1) (id d1) (flags d2) (mark d2) else slot vq1 r).
  { intros r Hr. unfold vq2. rewrite (slot_put vq1); [|done|unfold vq1; simpl; by rewrite length_insert|simpl; lia].
    rewrite Hs1 by lia. by rewrite (decide_False (P:=p = uh gh)) by lia. }
  change (get_desc (idx (num_desc vq) (uh gh)) vq2) with (slot vq2 (uh gh)).
  change (get_desc (idx (num_desc vq) p) vq2) with (slot vq2 p).
  assert (Hfl : forall r, ug gh <= r < ug gh + num_desc vq -> flags (slot vq2 r) = flags (slot vq r)).
  { intros r Hr. rewrite Hs2 by done. case_decide as E; [by subst r|]. rewrite Hs1 by done. by case_decide; subst. }
  rewrite !Hfl by lia. rewrite !Hf by lia. unfold slot_flags.
  rewrite !(proj2 (Z.ltb_ge _ (uh gh))), !(proj2 (Z.ltb_lt _ (ag gh))) by lia. rewrite Hrw, !Z.lor_0_r.
  assert (Hassert : (idx (num_desc vq) (uh gh) =? idx (num_desc vq) p)
    || (idx (num_desc vq) (uh gh) <? idx (num_desc vq) p) && (avail_flags (lap vq (uh gh)) =? avail_flags (lap vq p))
    || (idx (num_desc vq) p <? idx (num_desc vq) (uh gh)) &&
       (Z.lxor (avail_flags (lap vq (uh gh))) (avail_flags (lap vq p)) =? Z.lor AVAIL USED) = true).
  { unfold lap. destruct (lap_order _ (uh gh) p Hn ltac:(lia)) as [[Hi ->]|[Hi ->]].
    - rewrite (proj2 (Z.ltb_lt (idx _ (uh gh)) _)), Z.eqb_refl by done. by rewrite orb_true_r.
    - rewrite (proj2 (Z.ltb_lt (idx _ p) _)) by done. destruct (lap_bit _ _); by rewrite orb_true_r. }
  rewrite Hassert. exists vq2. split_and!; try done.
  - intros r Hr. split; [|by apply Hfl]. rewrite Hs2 by done. unfold swap.
    case_decide as E; [subst r; rewrite (proj2 (Z.eqb_neq p (uh gh))), Z.eqb_refl by lia; by split_and!|].
    rewrite Hs1 by done. rewrite (proj2 (Z.eqb_neq r p)) by done.
    case_decide as E'; [subst r; rewrite Z.eqb_refl|rewrite (proj2 (Z.eqb_neq r (uh gh))) by done]; by split_and!.
  - unfold vq2, vq1. simpl. by rewrite !length_insert.
Qed.

Lemma buf_at_same vq vq' p r :
  state vq' = state vq -> same_buf (slot vq' p) (slot vq r) -> buf_at vq' p = buf_at vq r.
Proof.
  intros Es (Ea & El & Ei). unfold buf_at, unmark, entry_at, get_state; simpl. by rewrite Es, Ea, El, Ei.
Qed.

Lemma swap_step_inv vq gh p :
  vq_inv vq gh -> rw gh = 0 -> uh gh < p < ag gh ->
  exists vq1, swap_step vq gh p = Some vq1 /\ vq_inv vq1 gh /\
    (forall r, ug gh <= r < ag gh -> buf_at vq1 r = buf_at vq (swap (uh gh) p r)) /\
    (forall r, ug gh <= r < ag gh -> id (slot vq1 r) = id (slot vq (swap (uh gh) p r))) /\
    g vq1 = g vq /\ h vq1 = h vq /\ num_desc vq1 = num_desc vq /\ driver_event vq1 = driver_event vq /\
    hv_map vq1 = hv_map (put_map (id (slot vq (uh gh))) (idx (num_desc vq) p) vq).
Proof.
  intros Hinv Hrw Hp. destruct (swap_step_spec vq gh p Hinv Hrw Hp)
    as (vq1 & Hstep & Hslot & Eg & Eh & En & Es & Ed & El & Em).
  destruct Hinv as [Hg Hh [Hr Hf]]. pose proof (gi_order _ _ Hg). destruct (hi_order _ _ Hh).
  assert (Hids : forall r, ug gh <= r < ag gh -> id (slot vq1 r) = id (slot vq (swap (uh gh) p r))).
  { intros r Hr0. apply (Hslot r). lia. }
  exists vq1. split_and!; try done.
  - constructor.
    + apply (guest_inv_update vq gh); try done; [unfold g_same; by rewrite Eg|].
      apply (map_range_swap (fun r => id (slot vq r)) _ (uh gh) p); [lia|lia|done].
    + destruct Hh. constructor; unfold lap in *; by rewrite ?Eh, ?En.
    + split; [done|]. rewrite En. intros r Hr0. destruct (Hslot r Hr0) as [_ ->]. rewrite Hf by done.
      unfold slot_flags, lap. by rewrite En.
  - intros r Hr0. apply buf_at_same; [done|]. apply (Hslot r). lia.
Qed.

(** *** Giving back the buffer at [uh] *)

Definition release_fin vq : vring_packed_virtq :=
  let used_idx := h_next_used_idx (h vq) in
  let vq := put_desc used_idx (set_flags (h_avail_used_flags (h vq)) (get_desc used_idx vq)) vq in
  upd_counters 0 0 1 (vring_packed_advance_used (upd_counters (-1) 0 0 vq)).

Definition gh_release (gh : ghost) : ghost :=
  mk_gh (ug gh) (uh gh + 1) (ah gh) (ag gh) (fl gh) (rw gh).

Lemma release_fin_spec vq gh :
  vq_inv vq gh -> uh gh < ah gh -> 0 < g_pending_inuse_counter (g vq) < 2 ^ 32 ->
  let vq' := release_fin vq in
  vq_inv vq' (gh_release gh) /\ num_desc vq' = num_desc vq /\ hv_map vq' = hv_map vq /\
  driver_event vq' = driver_event vq /\
  g_pending_inuse_counter (g vq') = g_pending_inuse_counter (g vq) - 1 /\
  g_pending_used_counter (g vq') = u32 (u32 (g_pending_used_counter (g vq)) + 1) /\
  (forall r, ug gh <= r < ug gh + num_desc vq -> same_buf (slot vq' r) (slot vq r) /\ buf_at vq' r = buf_at vq r).
Proof.
  intros [Hg Hh [Hrw Hf]] Hlt Hpend vq'. pose proof (gi_n _ _ Hg) as Hn. pose proof (gi_order _ _ Hg).
  destruct (hi_order _ _ Hh), (hi_used _ _ Hh) as (Eu & Euw & Euf).
  set (d' := set_flags (used_flags (lap vq (uh gh))) (slot vq (uh gh))).
  assert (Hvq' : vq' = upd_counters 0 0 1 (set_h (mk_h (h_next_avail_idx (h vq)) (idx (num_desc vq) (uh gh + 1))
     (h_avail_wrap_counter (h vq)) (b2z (lap vq (uh gh + 1))) (used_flags (lap vq (uh gh + 1)))
     (h_device_event_flags (h vq))) (upd_counters (-1) 0 0 (put_desc (idx (num_desc vq) (uh gh)) d' vq)))).
  { unfold vq', release_fin. rewrite Eu, Euf. fold (slot vq (uh gh)). fold d'.
    rewrite (advance_used_h _ (uh gh)) by done. done. }
  assert (Hslot : forall p, ug gh <= p < ug gh + num_desc vq ->
    slot vq' p = if decide (p = uh gh) then d' else slot vq p).
  { intros p Hp. rewrite Hvq'. change (slot (upd_counters 0 0 1 _) p) with
      (slot (put_desc (idx (num_desc vq) (uh gh)) d' vq) p).
    apply slot_put; [done|apply (gi_desc _ _ Hg)|lia]. }
  assert (Hbuf : forall r, ug gh <= r < ug gh + num_desc vq -> same_buf (slot vq' r) (slot vq r)).
  { intros r Hr. rewrite Hslot by done. by case_decide; subst. }
  clearbody vq'. split_and!; try by rewrite Hvq'.
  - constructor; [|constructor|].
    + apply (guest_inv_update vq gh); try done; try by rewrite Hvq'.
      { rewrite Hvq'. simpl. by rewrite length_insert. }
      unfold ids; simpl. erewrite map_range_ext; [done|]. intros p Hp. simpl. apply Hbuf. lia.
    + simpl. lia.
    + rewrite Hvq'. apply (hi_avail _ _ Hh).
    + by rewrite Hvq'.
    + split; [done|]. assert (num_desc vq' = num_desc vq) as -> by by rewrite Hvq'.
      simpl. intros p Hp. rewrite Hslot by done.
      assert (lap vq' p = lap vq p) as Hlap by (by rewrite Hvq'). unfold slot_flags; simpl. rewrite Hlap.
      case_decide as Ep; [subst p; by rewrite (proj2 (Z.ltb_lt _ _)) by lia|].
      rewrite Hf by done. unfold slot_flags. repeat case_if; done || lia.
  - rewrite Hvq'. simpl. rewrite Z.add_0_r, u32_idemp. rewrite u32_id by (unfold is_u32; lia). lia.
  - rewrite Hvq'. simpl. by rewrite Z.add_0_r.
  - intros r Hr. split; [by apply Hbuf|]. apply buf_at_same; [by rewrite Hvq'|by apply Hbuf].
Qed.

(** *** Releasing any taken buffer *)

(** The buffer at [p] is moved to [uh] unless it is there. *)
Definition moved vq (gh : ghost) (p : Z) : option vring_packed_virtq :=
  if negb (idx (num_desc vq) p =? idx (num_desc vq) (uh gh)) then swap_step vq gh p else Some vq.

Lemma moved_spec bad vq gh p :
  acq_bad bad vq gh -> uh gh < ah gh -> uh gh <= p < ag gh -> mapped vq p ->
  exists vq1, moved vq gh p = Some vq1 /\ vq_inv vq1 gh /\ g vq1 = g vq /\ h vq1 = h vq /\
    num_desc vq1 = num_desc vq /\ driver_event vq1 = driver_event vq /\
    length (hv_map vq1) = length (hv_map vq) /\
    (forall r, ug gh <= r < ag gh -> buf_at vq1 r = buf_at vq (swap (uh gh) p r)) /\
    (forall r, ug gh <= r < ag gh -> id (slot vq1 r) = id (slot vq (swap (uh gh) p r))) /\
    (forall r, (uh gh < r < ah gh /\ id (slot vq1 r) ∉ bad) \/ (uh gh < r /\ r = p) -> mapped vq1 r).
Proof.
  intros [Hinv Hrw Hlen Huse Hmap] Hlt Hp Hmp. pose proof Hinv as [Hg Hh _].
  pose proof (gi_n _ _ Hg) as Hn. pose proof (gi_order _ _ Hg) as Ho. destruct (hi_order _ _ Hh).
  pose proof (id_range _ _ (uh gh) Hg ltac:(lia)) as Hidu. unfold moved, mapped in *.
  destruct (decide (p = uh gh)) as [->|Hne].
  - rewrite Z.eqb_refl. exists vq. unfold swap. split_and!; try done.
    + intros r Hr. case_if; by subst.
    + intros r Hr. case_if; by subst.
    + intros r [[Hr Hb]|Hr]; [by apply Hmap; [lia|]|lia].
  - rewrite (proj2 (Z.eqb_neq _ _)) by (intros E; apply Hne, (idx_inj _ Hn); [lia|done]). simpl.
    destruct (swap_step_inv vq gh p Hinv Hrw ltac:(lia)) as (vq1 & -> & Hi & Hb & Hids & Eg & Eh & En & Ed & Em).
    exists vq1. split_and!; try done; [rewrite Em; simpl; by rewrite length_insert|].
    intros r Hr. assert (Hbad : r <> p -> id (slot vq (swap (uh gh) p r)) ∉ bad) by (intros; rewrite <- Hids by lia; destruct Hr; [tauto|lia]).
    rewrite Hids, En by lia. unfold get_map at 1. rewrite Em.
    fold (get_map (id (slot vq (swap (uh gh) p r))) (put_map (id (slot vq (uh gh))) (idx (num_desc vq) p) vq)).
    pose proof (swap_range (uh gh) p (ug gh) (ag gh) r ltac:(lia) ltac:(lia)) as [Hsr _].
    pose proof (id_range _ _ (swap (uh gh) p r) Hg ltac:(apply Hsr; lia)).
    rewrite map_put by lia. revert Hbad. unfold swap. rewrite (proj2 (Z.eqb_neq r (uh gh))) by lia. intros Hbad.
    destruct (r =? p) eqn:Er; zify_bool; [subst r; by rewrite decide_True|].
    rewrite decide_False by (intros E; apply (id_inj _ _ _ _ Hg) in E; lia). apply Hmap; [lia|auto].
Qed.

Lemma release_eq bad vq gh p vq1 :
  acq_bad bad vq gh -> uh gh < ah gh -> uh gh <= p < ag gh -> mapped vq p ->
  moved vq gh p = Some vq1 -> h vq1 = h vq ->
  vring_packed_txq_release vq (id (slot vq p)) = Some (release_fin vq1).
Proof.
  intros [[Hg Hh _] _ _ Huse _] Hlt Hp Hmp Hsw Eh.
  pose proof (gi_n _ _ Hg) as Hn. destruct (hi_order _ _ Hh), (hi_used _ _ Hh) as (Eu & _).
  pose proof (id_range _ _ p Hg ltac:(lia)). pose proof (idx_range _ Hn p).
  unfold vring_packed_txq_release. cbv zeta. rewrite (proj2 (Z.eqb_neq _ _)) by lia.
  rewrite (u16_id (id _)) by (unfold is_u16; lia).
  unfold mapped in Hmp. rewrite Hmp, (u16_id (idx _ _)) by (unfold is_u16; lia). rewrite Eu.
  change (get_desc (idx (num_desc vq) (uh gh)) vq) with (slot vq (uh gh)).
  unfold moved, swap_step in Hsw. rewrite Hsw. simpl. unfold release_fin. by rewrite Eh, Eu.
Qed.

Lemma release_spec bad vq gh p :
  acq_bad bad vq gh -> uh gh < ah gh -> uh gh <= p < ag gh -> mapped vq p ->
  exists vq', vring_packed_txq_release vq (id (slot vq p)) = Some vq' /\
    acq_bad bad vq' (gh_release gh) /\ (uh gh < p -> mapped vq' p) /\
    num_desc vq' = num_desc vq /\ driver_event vq' = driver_event vq /\
    g_pending_used_counter (g vq') = u32 (u32 (g_pending_used_counter (g vq)) + 1) /\
    (forall r, ug gh <= r < ag gh -> buf_at vq' r = buf_at vq (swap (uh gh) p r)) /\
    (forall r, ug gh <= r < ag gh -> id (slot vq' r) = id (slot vq (swap (uh gh) p r))).
Proof.
  intros Hacq Hlt Hp Hmp.
  destruct (moved_spec bad vq gh p Hacq Hlt Hp Hmp) as (vq1 & Hsw & Hinv1 & Eg1 & Eh1 & En1 & Ed1 & El1 & Hb1 & Hi1 & Hm1).
  pose proof (release_eq bad vq gh p vq1 Hacq Hlt Hp Hmp Hsw Eh1) as Hrel.
  destruct Hacq as [Hinv Hrw Hlen Huse Hmap]. pose proof (gi_n _ _ (vi_guest _ _ Hinv)) as Hn.
  pose proof (gi_order _ _ (vi_guest _ _ Hinv)) as Ho. destruct (hi_order _ _ (vi_host _ _ Hinv)).
  destruct (release_fin_spec vq1 gh Hinv1 Hlt ltac:(rewrite Eg1; lia))
    as (Hinv2 & En2 & Em2 & Ed2 & Ec2 & Ep2 & Hb2).
  rewrite Eg1 in Ec2, Ep2. rewrite En1 in En2, Hb2.
  assert (Hmapped : forall r, ug gh <= r < ag gh -> mapped vq1 r -> mapped (release_fin vq1) r).
  { intros r Hr Hm. unfold mapped, get_map in *. destruct (Hb2 r ltac:(lia)) as [(_ & _ & ->) _].
    by rewrite Em2, En2, <- En1. }
  set (vq2 := release_fin vq1) in *. clearbody vq2. exists vq2. split_and!; try congruence.
  - constructor; simpl; try done; [rewrite Em2, En2; congruence|lia|]. intros r Hr Hbad. apply Hmapped; [lia|].
    apply Hm1. left. split; [lia|]. destruct (Hb2 r ltac:(lia)) as [(_ & _ & <-) _]. done.
  - intros Hup. apply Hmapped; [lia|]. apply Hm1. lia.
  - intros r Hr. destruct (Hb2 r ltac:(lia)) as [_ ->]. by apply Hb1.
  - intros r Hr. destruct (Hb2 r ltac:(lia)) as [(_ & _ & ->) _]. by apply Hi1.
Qed.

(** What a release does to the lists of buffers. *)
Lemma release_lists vq gh vq' p :
  vq_inv vq gh -> uh gh <= p < ag gh -> uh gh < ah gh ->
  (forall r, ug gh <= r < ag gh -> buf_at vq' r = buf_at vq (swap (uh gh) p r)) ->
  bufs_between vq' (ug gh) (uh gh + 1) = bufs_between vq (ug gh) (uh gh) ++ [buf_at vq p] /\
  (p < ah gh -> buf_at vq p :: bufs_between vq' (uh gh + 1) (ah gh) ≡ₚ bufs_between vq (uh gh) (ah gh) /\
                bufs_between vq' (ah gh) (ag gh) = bufs_between vq (ah gh) (ag gh)).
Proof.
  intros Hinv Hp Hlt Hb. destruct (hi_order _ _ (vi_host _ _ Hinv)).
  assert (Huh : buf_at vq' (uh gh) = buf_at vq p) by (rewrite Hb by lia; unfold swap; by rewrite Z.eqb_refl).
  split; [|intros Hpa; split].
  - unfold bufs_between. rewrite range_snoc, map_app by lia. simpl. rewrite Huh. f_equal.
    apply map_range_ext. intros r Hr. rewrite Hb by lia. unfold swap. by rewrite !(proj2 (Z.eqb_neq r _)) by lia.
  - unfold bufs_between. rewrite <- Huh. rewrite <- (map_cons (buf_at vq') (uh gh)). rewrite <- range_cons by lia.
    apply (map_range_swap (buf_at vq) _ (uh gh) p); [lia..|]. intros r Hr. apply Hb. lia.
  - apply map_range_ext. intros r Hr. rewrite Hb by lia. unfold swap. by rewrite !(proj2 (Z.eqb_neq r _)) by lia.
Qed.

(** Releasing a list of ids in order. *)
Fixpoint releases (l : list Z) vq : option vring_packed_virtq :=
  match l with
  | [] => Some vq
  | i :: l' => vq' ← vring_packed_txq_release vq i; releases l' vq'
  end.

Definition ids_between vq (lo hi : Z) : list Z := map (fun p => id (slot vq p)) (range lo hi).

(** Some of the taken buffers are released; [r] are the ids of the others. *)
Lemma releases_some B l : forall vq gh r,
  acq_inv vq gh -> 0 <= g_pending_used_counter (g vq) -> g_pending_used_counter (g vq) + ah gh - uh gh < 2 ^ 32 ->
  (forall p, uh gh <= p < ah gh -> B (id (slot vq p)) = buf_at vq p) ->
  l ++ r ≡ₚ ids_between vq (uh gh) (ah gh) ->
  exists vq' gh', releases l vq = Some vq' /\ acq_inv vq' gh' /\
    ug gh' = ug gh /\ uh gh' = uh gh + Z.of_nat (length l) /\ ah gh' = ah gh /\ ag gh' = ag gh /\
    bufs_between vq' (ug gh) (uh gh') = bufs_between vq (ug gh) (uh gh) ++ map B l /\
    bufs_between vq' (ah gh) (ag gh) = bufs_between vq (ah gh) (ag gh) /\
    driver_event vq' = driver_event vq /\
    g_pending_used_counter (g vq') = g_pending_used_counter (g vq) + Z.of_nat (length l) /\
    num_desc vq' = num_desc vq /\ ids_between vq' (uh gh') (ah gh) ≡ₚ r /\
    (forall p, uh gh' <= p < ah gh -> B (id (slot vq' p)) = buf_at vq' p).
Proof.
  induction l as [|i l IH]; intros vq gh r Hacq Hp0 Hpu HB HP.
  { exists vq, gh. simpl. rewrite app_nil_r, Z.add_0_r. split_and!; try done; lia. }
  assert (Hin : i ∈ ids_between vq (uh gh) (ah gh)) by (rewrite <- HP; left).
  apply list_elem_of_fmap in Hin as (p & -> & Hp%elem_of_range).
  pose proof Hacq as [Hinv _ _ _ Hmap]. destruct (hi_order _ _ (vi_host _ _ Hinv)).
  destruct (release_spec [] vq gh p Hacq ltac:(lia) ltac:(lia) (Hmap p Hp ltac:(apply list.not_elem_of_nil)))
    as (vq1 & Hrel & Hacq1 & _ & En & Ed & Epu & Hb & Hids).
  destruct (release_lists vq gh vq1 p Hinv ltac:(lia) ltac:(lia) Hb) as [Hused Htaken].
  destruct (Htaken ltac:(lia)) as [_ Havail].
  assert (Hpu1 : g_pending_used_counter (g vq1) = g_pending_used_counter (g vq) + 1)
    by (rewrite Epu; rewrite (u32_id (g_pending_used_counter _)) by (unfold is_u32; lia);
        apply u32_id; unfold is_u32; lia).
  destruct (IH vq1 (gh_release gh) r) as (vq' & gh' & Hr & Hacq' & E1 & E2 & E3 & E4 & Hu & Ha & Hd & Hc & Hn & Hrest & HB');
    simpl; try done; try lia.
  - intros q Hq. rewrite Hids, Hb by lia. apply HB. apply swap_range; lia.
  - apply (Permutation_cons_inv (a:=id (slot vq p))). change (id (slot vq p) :: l ++ r) with ((id (slot vq p) :: l) ++ r). rewrite HP.
    unfold ids_between.
    assert (id (slot vq1 (uh gh)) = id (slot vq p)) as <- by (rewrite Hids by lia; unfold swap; by rewrite Z.eqb_refl).
    rewrite <- (map_cons (fun p => id (slot vq1 p)) (uh gh)), <- range_cons by lia. symmetry.
    apply (map_range_swap (fun p => id (slot vq p)) _ (uh gh) p); [lia..|]. intros q Hq. apply Hids. lia.
  - simpl in *. exists vq', gh'. rewrite Hrel. simpl. split_and!; try done; try congruence; try lia.
    rewrite Hu, Hused, HB, <- app_assoc by lia. done.
Qed.

(** C2: The taken buffers can be released in any order.  Whatever the order
    [l] in which the ids of the taken buffers are passed to
    [vring_packed_txq_release], no assertion fails, every buffer is given back
    exactly once, and the guest finds them, with their cookies, addresses and
    lengths, in the order of release; the buffers still available are not
    disturbed and the releases are counted for the notification. *)
Theorem vring_packed_releases_any_order vq gh l B :
  acq_inv vq gh -> 0 <= g_pending_used_counter (g vq) -> g_pending_used_counter (g vq) + ah gh - uh gh < 2 ^ 32 ->
  (forall p, uh gh <= p < ah gh -> B (id (slot vq p)) = buf_at vq p) ->
  l ≡ₚ ids_between vq (uh gh) (ah gh) ->
  exists vq' gh', releases l vq = Some vq' /\ acq_inv vq' gh' /\
    ug gh' = ug gh /\ uh gh' = ah gh /\ ah gh' = ah gh /\ ag gh' = ag gh /\
    bufs_between vq' (ug gh) (uh gh') = bufs_between vq (ug gh) (uh gh) ++ map B l /\
    bufs_between vq' (ah gh) (ag gh) = bufs_between vq (ah gh) (ag gh) /\
    driver_event vq' = driver_event vq /\
    g_pending_used_counter (g vq') = g_pending_used_counter (g vq) + Z.of_nat (length l).
Proof.
  intros Hacq Hp0 Hpu HB HP. destruct (hi_order _ _ (vi_host _ _ (ai_inv _ _ _ Hacq))) as [Ho _].
  destruct (releases_some B l vq gh [] Hacq Hp0 Hpu HB) as (vq' & gh' & H1 & H2 & H3 & H4 & H5 & H6 & H7 & H8 & H9 & H10 & _);
    [by rewrite app_nil_r|]. exists vq', gh'. split_and!; try done. rewrite H4, (Permutation_length HP). unfold ids_between.
  rewrite length_map, length_range by lia. lia.
Qed.

(** After releases, [vring_packed_txq_notify] returns how many buffers were
    released since the last notification and resets the count; it raises the
    interrupt exactly when they brought the used buffers to at least the [m]
    that the guest asked for. *)
Theorem vring_packed_txq_notify_exact txq vq gh m :
  vq_inv vq gh -> 0 < g_pending_used_counter (g vq) -> 0 < m <= num_desc vq ->
  driver_event vq = event_at (num_desc vq) (ug gh + m - 1) ->
  ug gh <= uh gh - g_pending_used_counter (g vq) -> uh gh - g_pending_used_counter (g vq) - ug gh < m ->
  exists txq' vq', vring_packed_txq_notify txq vq = (g_pending_used_counter (g vq), txq', vq') /\
    vq_inv vq' gh /\ g_pending_used_counter (g vq') = 0 /\
    q_notify txq' = b2z (m <=? Z.of_nat (length (used_entries vq gh))).
Proof.
  intros Hinv Hc Hm Hev Ho Hlt. unfold vring_packed_txq_notify.
  rewrite (proj2 (Z.ltb_lt _ _)) by done. eexists _, _. split; [done|]. split_and!; try done.
  - destruct Hinv as [Hg Hh Hf]. constructor; [|by destruct Hh|by destruct Hf]. by apply (guest_inv_update vq gh).
  - simpl. f_equal. apply intr_needed_exact; done || lia.
Qed.

(** ** Taking buffers *)

Definition gh_take (gh : ghost) : ghost :=
  mk_gh (ug gh) (uh gh) (ah gh + 1) (ag gh) (fl gh) (rw gh).

Definition take_step vq : vring_packed_virtq := vring_packed_advance_avail (upd_counters 1 0 0 vq).

(** Counting and advancing over the buffer at [ah]. *)
Lemma take_step_spec vq gh :
  vq_inv vq gh -> ah gh < ag gh -> 0 <= g_pending_inuse_counter (g vq) < 2 ^ 31 ->
  vq_inv (take_step vq) (gh_take gh) /\ num_desc (take_step vq) = num_desc vq /\
  desc (take_step vq) = desc vq /\ state (take_step vq) = state vq /\ hv_map (take_step vq) = hv_map vq /\
  driver_event (take_step vq) = driver_event vq /\
  g_pending_inuse_counter (g (take_step vq)) = g_pending_inuse_counter (g vq) + 1 /\
  g_pending_used_counter (g (take_step vq)) = u32 (g_pending_used_counter (g vq)).
Proof.
  intros [Hg Hh [Hrw Hf]] Hlt Hc. pose proof (gi_n _ _ Hg) as Hn.
  destruct (hi_order _ _ Hh), (hi_avail _ _ Hh) as [Ea Ew].
  unfold take_step. rewrite (advance_avail_h _ (ah gh)) by done. split_and!; try done.
  - constructor; [by apply (guest_inv_update vq gh)|constructor; simpl; try done; [lia|apply (hi_used _ _ Hh)]|].
    split; done.
  - simpl. apply u32_id. unfold is_u32. lia.
  - simpl. by rewrite Z.add_0_r.
Qed.

Section acquire.
Context {S : Type} `{!Scheduler S}.

(** The reference: hand the packets of a list of descriptors to the scheduler
    in order, with the id by which they are to be released and their mark; a
    descriptor outside guest memory is passed over, and its id joins [k_bad]. *)
Record q_acc := mk_q { k_count : Z; k_map : mem_map; k_sched : S; k_bad : list Z; k_stop : bool }.

Definition mark_mode_ok : Prop :=
  mark_mode = MARK_MODE_NO_MARK \/ mark_mode = MARK_MODE_HV \/ mark_mode = MARK_MODE_GUEST.

Definition acquire_one (a : q_acc) (d : vring_packed_desc) : q_acc :=
  if k_stop a then a
  else if BPFHV_BE_TX_BUDGET <=? k_count a then mk_q (k_count a) (k_map a) (k_sched a) (k_bad a) true
  else
    let '(base, map) := translate_addr (k_map a) (addr d) (len d) in
    if base =? NULL then mk_q (k_count a + 1) map (k_sched a) (k_bad a ++ [id d]) false
    else
      let s := snd (sched_enqueue (k_sched a) (mk_iov base (len d)) (id d) (default 0 (mark_of (k_sched a) d base))) in
      mk_q (k_count a + 1) map s (k_bad a) false.

Definition acquire_process (ds : list vring_packed_desc) (a : q_acc) : q_acc := foldl acquire_one a ds.

Lemma acquire_process_stopped ds a : k_stop a = true -> acquire_process ds a = a.
Proof.
  intros E. induction ds as [|d ds IH]; simpl; [done|].
  assert (acquire_one a d = a) as -> by (unfold acquire_one; by rewrite E). done.
Qed.

Definition descs vq (lo hi : Z) : list vring_packed_desc := map (slot vq) (range lo hi).

(** The memory map with its regions in another order, and a descriptor that
    does not lie in any of them. *)
Definition same_regions (m m' : mem_map) : Prop := mem_ok m -> mem_ok m' /\ live_regions m' ≡ₚ live_regions m.
Definition outside (m : mem_map) (d : vring_packed_desc) : Prop :=
  exists m', same_regions m m' /\ fst (translate_addr m' (addr d) (len d)) = NULL.

Lemma same_regions_trans m1 m2 m3 : same_regions m1 m2 -> same_regions m2 m3 -> same_regions m1 m3.
Proof. intros H1 H2 Hm. destruct (H1 Hm) as [Hm2 E2]. destruct (H2 Hm2) as [Hm3 E3]. split; [done|]. by rewrite E3, E2. Qed.

Lemma translate_same m gpa l p m' : translate_addr m gpa l = (p, m') -> same_regions m m'.
Proof.
  intros Ht Hm. split; [by eapply translate_addr_ok|]. by destruct (translate_addr_live _ _ _ _ _ Hm Ht) as (_ & _ & HP).
Qed.

Section acquire_loop.
Context (vq0 : vring_packed_virtq) (gh0 : ghost) (a0 : q_acc) (busy : bool).

(** What is known of the scheduler after it was handed the packets of a list
    of descriptors. *)
Context (I : list vring_packed_desc -> S -> Prop).

(** The queue after taking [hist]. *)
Record take_at (hist : list vring_packed_desc) (v : view) (gh : ghost) (bad : list Z) : Prop := {
  ta_view : view_ok false v gh;
  ta_uh : uh gh = uh gh0;
  ta_ah : ah gh = ah gh0 + Z.of_nat (length hist);
  ta_num : num_desc (v_vq v) = num_desc vq0;
  ta_avail : exists new, descs vq0 (ah gh0) (ag gh0) ++ new = hist ++ descs (v_vq v) (ah gh) (ag gh);
  ta_acq : rw gh = 0 /\ length (hv_map (v_vq v)) = Z.to_nat (num_desc (v_vq v)) /\
           g_pending_inuse_counter (g (v_vq v)) = ah gh - uh gh;
  ta_map : forall p, uh gh <= p < ah gh -> id (slot (v_vq v) p) ∉ bad -> mapped (v_vq v) p;
  ta_taken : descs (v_vq v) (uh gh) (ah gh) = descs vq0 (uh gh0) (ah gh0) ++ hist;
}.

Lemma take_evolved hist v gh bad v' gh' :
  take_at hist v gh bad -> view_ok false v' gh' -> evolved (v_vq v) gh (v_vq v') gh' ->
  take_at hist v' gh' bad.
Proof.
  intros [Hv Eu Ea En [new Hd] (Hrw & Hlen & Hc) Hm Htk] Hv' He.
  pose proof He as [_ Euh Eah Erw Hug Hag (En' & Em & _ & Ec & _) Hs _].
  destruct (hi_order _ _ (vi_host _ _ (proj1 Hv))), (hi_order _ _ (vi_host _ _ (proj1 Hv'))).
  constructor; try congruence.
  - exists (new ++ descs (v_vq v') (ag gh) (ag gh')). rewrite app_assoc, Hd, <- app_assoc. f_equal.
    unfold descs. rewrite Eah, (range_app (ah gh) (ag gh) (ag gh')), map_app by lia. f_equal.
    symmetry. apply map_range_ext. intros p Hp. apply Hs. lia.
  - rewrite Em, En', Ec, Eah, Euh. by rewrite Erw.
  - intros p Hp. unfold mapped, get_map in *. rewrite Hs, Em, En' by lia. apply Hm. lia.
  - rewrite Euh, Eah, <- Htk. apply map_range_ext. intros p Hp. apply Hs. lia.
Qed.

Lemma take_next hist v gh bad vq1 (ok : bool) :
  take_at hist v gh bad -> ah gh < ag gh ->
  vq1 = (if ok then put_map (id (slot (v_vq v) (ah gh))) (idx (num_desc (v_vq v)) (ah gh)) (v_vq v) else v_vq v) ->
  take_at (hist ++ [slot (v_vq v) (ah gh)]) (mk_view (take_step vq1) (v_env v)) (gh_take gh)
    (if ok then bad else bad ++ [id (slot (v_vq v) (ah gh))]).
Proof.
  intros [[Hinv HF] Eu Ea En [new Hd] (Hrw & Hlen & Hc) Hm Htk] Hlt Hvq1.
  pose proof (gi_n _ _ (vi_guest _ _ Hinv)). pose proof (gi_order _ _ (vi_guest _ _ Hinv)).
  destruct (hi_order _ _ (vi_host _ _ Hinv)).
  assert (Hinv1 : vq_inv vq1 gh) by (subst vq1; destruct ok; [by destruct Hinv as [[] [] []]|done]).
  assert (Hsame : num_desc vq1 = num_desc (v_vq v) /\ desc vq1 = desc (v_vq v) /\ g vq1 = g (v_vq v) /\
    length (hv_map vq1) = length (hv_map (v_vq v)))
    by (subst vq1; destruct ok; simpl; rewrite ?length_insert; done).
  destruct Hsame as (En1 & Ed1 & Eg1 & El1).
  destruct (take_step_spec vq1 gh Hinv1 Hlt ltac:(rewrite Eg1; lia))
    as (Hinv2 & En2 & Ed2 & _ & Em2 & _ & Ec2 & _). set (vq2 := take_step vq1) in *. clearbody vq2.
  assert (Hslot : forall p, slot vq2 p = slot (v_vq v) p) by (intros p; unfold slot, get_desc; congruence).
  constructor; simpl; try done; try congruence.
  - rewrite length_app. simpl. lia.
  - exists new. rewrite Hd, <- app_assoc. f_equal. unfold descs. rewrite range_cons by lia. simpl. f_equal.
    apply map_range_ext. intros p Hp. by rewrite Hslot.
  - rewrite Em2, Ec2, Eg1, El1, En2, En1. split_and!; done || lia.
  - intros p Hp. rewrite Hslot. intros Hbad. unfold mapped, get_map. rewrite Hslot, Em2, En2, En1. subst vq1.
    destruct ok; [|rewrite elem_of_app, list_elem_of_singleton in Hbad].
    2:{ assert (p <> ah gh) by (intros ->; tauto). apply Hm; [lia|tauto]. }
    change (get_map (id (slot (v_vq v) p)) (put_map (id (slot (v_vq v) (ah gh))) (idx (num_desc (v_vq v)) (ah gh)) (v_vq v))
            = idx (num_desc (v_vq v)) p).
    pose proof (id_range _ _ p (vi_guest _ _ Hinv) ltac:(lia)). pose proof (id_range _ _ (ah gh) (vi_guest _ _ Hinv) ltac:(lia)).
    rewrite map_put by lia. case_decide as E; [apply (id_inj _ _ _ _ (vi_guest _ _ Hinv)) in E; [congruence|lia..]|].
    assert (p <> ah gh) by (intros ->; congruence). apply Hm; [lia|done].
  - rewrite app_assoc, <- Htk. unfold descs. rewrite range_snoc, map_app by lia. simpl. rewrite Hslot. f_equal.
    apply map_range_ext. intros p Hp. by rewrite Hslot.
Qed.

(** The scheduler takes a packet as long as fewer than [cap] were handed to
    it. *)
Definition has_room (cap : Z) : Prop := forall enq s d base m,
  I enq s -> Z.of_nat (length enq) < cap -> mark_of s d base = Some m ->
  let r := sched_enqueue s (mk_iov base (len d)) (id d) m in s32 (fst r) <= 0 /\ I (enq ++ [d]) (snd r).

(** The packets handed over are those taken, but for the ones passed over,
    which do not lie in guest memory. *)
Definition handed (hist : list vring_packed_desc) (bad : list Z) (m : mem_map) (s : S) : Prop :=
  exists enq new, I enq s /\ bad = k_bad a0 ++ map id new /\ hist ≡ₚ enq ++ new /\
    same_regions (k_map a0) m /\ Forall (outside (k_map a0)) new.

Definition never_drops : Prop := forall (s : S) iov i m, s32 (fst (sched_enqueue s iov i m)) <= 0.

Definition acq_of (s : acquire_state S) (bad : list Z) (stop : bool) : q_acc :=
  mk_q (q_count s) (q_map s) (q_sched s) bad stop.

Definition acquire_inv (d0 : Z) (s : acquire_state S) : Prop :=
  exists hist gh bad, take_at hist (q_view s) gh bad /\ q_count s = Z.of_nat (length hist) /\
    q_count s <= BPFHV_BE_TX_BUDGET /\ q__dropped s = 0 /\ q_dropped s = d0 /\
    acquire_process hist a0 = acq_of s bad false /\ handed hist bad (q_map s) (q_sched s).

Definition acquire_post (d0 : Z) (s : acquire_state S) : Prop :=
  exists hist gh bad (stop : bool), take_at hist (q_view s) gh bad /\ q_count s = Z.of_nat (length hist) /\
    q_dropped s = (if stop then d0 else 0) /\
    acquire_process (hist ++ descs (v_vq (q_view s)) (ah gh) (ag gh)) a0 = acq_of s bad stop /\
    handed hist bad (q_map s) (q_sched s).

Lemma mark_of_some s d base : mark_mode_ok -> exists m, mark_of s d base = Some m.
Proof. unfold mark_of. intros [-> | [-> | ->]]; simpl; eauto. Qed.

Lemma acquire_iter_spec d0 s :
  mark_mode_ok -> has_room (num_desc vq0 - (ah gh0 - uh gh0)) -> acquire_inv d0 s ->
  0 <= BPFHV_BE_TX_BUDGET - q_count s /\
  match acquire_iter busy s with
  | Some (Continue s') => acquire_inv d0 s' /\ BPFHV_BE_TX_BUDGET - q_count s' < BPFHV_BE_TX_BUDGET - q_count s
  | Some (Break s') => acquire_post d0 s'
  | None => False
  end.
Proof.
  intros Hmm Hnd (hist & gh & bad & Hta & Hc & Hb & Hdr & Hd0 & Ht & Hha). split; [lia|]. unfold acquire_iter.
  pose proof (ta_view _ _ _ _ Hta) as Hv. destruct (hi_avail _ _ (vi_host _ _ (proj1 Hv))) as [-> _].
  pose proof (poll_spec false busy _ _ Hv) as Hp. destruct (poll _ _) as [more v].
  destruct Hp as (gh' & Hv' & He & _ & Hres).
  pose proof (take_evolved _ _ _ _ _ _ Hta Hv' He) as Hta'.
  rewrite <- (ev_ah _ _ _ _ He). pose proof (ev_same _ _ _ _ He) as (En & _). rewrite <- En.
  fold (slot (v_vq v) (ah gh')). destruct more; simpl.
  2:{ destruct Hres as [Hag _]. exists hist, gh', bad, false. split_and!; try done.
      unfold descs. by rewrite Hag, range_nil, app_nil_r. }
  assert (Hhd : descs (v_vq v) (ah gh') (ag gh') = slot (v_vq v) (ah gh') :: descs (v_vq v) (ah gh' + 1) (ag gh'))
    by (unfold descs; by rewrite range_cons).
  assert (Hall : acquire_process (hist ++ descs (v_vq v) (ah gh') (ag gh')) a0 =
    acquire_process (descs (v_vq v) (ah gh' + 1) (ag gh')) (acquire_one (acq_of s bad false) (slot (v_vq v) (ah gh')))).
  { unfold acquire_process in *. by rewrite foldl_app, Ht, Hhd. }
  assert (Hnext : acquire_process (hist ++ [slot (v_vq v) (ah gh')]) a0
    = acquire_one (acq_of s bad false) (slot (v_vq v) (ah gh')))
    by (unfold acquire_process in *; by rewrite foldl_app, Ht).
  unfold acquire_one in Hall, Hnext; simpl in Hall, Hnext.
  destruct (BPFHV_BE_TX_BUDGET <=? q_count s) eqn:Eb.
  { exists hist, gh', bad, true. split_and!; try done. etransitivity; [exact Hall|]. by rewrite acquire_process_stopped. }
  zify_bool. pose proof (fun vq1 ok E => take_next _ _ _ _ vq1 ok Hta' Hres E) as Hnx.
  destruct (translate_addr _ _ _) as [base map] eqn:Etr. destruct (base =? NULL) eqn:Enull.
  { split; [|simpl; lia]. eexists _, _, _. split; [exact (Hnx _ false eq_refl)|]. simpl. rewrite length_app. simpl.
    split_and!; try done; try lia. destruct Hha as (enq & nb & HI & -> & HP & Hsm & Hout). exists enq, (nb ++ [slot (v_vq v) (ah gh')]).
    apply translate_same in Etr as Htr. split_and!; [done|by rewrite map_app, app_assoc|by rewrite HP, app_assoc|by eapply same_regions_trans|].
    apply list.Forall_app. split; [done|]. constructor; [|done]. eexists. split; [exact Hsm|]. rewrite Etr. simpl. lia. }
  clear Hall. destruct (mark_of_some (q_sched s) (slot (v_vq v) (ah gh')) base Hmm) as [m Hm]. rewrite Hm in Hnext |- *.
  cbn [mbind option_bind from_option] in *. change (Datatypes.id m) with m in Hnext.
  destruct Hha as (enq & nb & HI & Enb & HP & Hsm & Hout). assert (Hle : (length enq <= length hist)%nat)
    by (rewrite HP, length_app; lia).
  assert (Hcap : Z.of_nat (length enq) < num_desc vq0 - (ah gh0 - uh gh0)).
  { pose proof (gi_order _ _ (vi_guest _ _ (proj1 Hv'))). destruct (hi_order _ _ (vi_host _ _ (proj1 Hv'))).
    rewrite <- (ta_num _ _ _ _ Hta'). pose proof (ta_ah _ _ _ _ Hta'). pose proof (ta_uh _ _ _ _ Hta'). lia. }
  destruct (Hnd enq (q_sched s) (slot (v_vq v) (ah gh')) base m HI Hcap Hm) as [Hret HI'].
  destruct (sched_enqueue _ _ _ _) as [ret sched]. cbn [fst snd] in Hret, HI', Hnext.
  rewrite (proj2 (Z.ltb_ge _ _)) by done. split; [|simpl; lia].
  eexists _, _, _. split; [exact (Hnx _ true eq_refl)|]. simpl. rewrite length_app. simpl.
  split_and!; try done; try lia. eexists _, nb. split; [exact HI'|].
  apply translate_same in Etr. split_and!; try done; [|by eapply same_regions_trans].
  rewrite HP, <- !app_assoc, (Permutation_app_comm nb). done.
Qed.

End acquire_loop.

(** A scheduler that has room for every buffer that the guest may publish. *)
Lemma acquire_room I fuel map txq vq gh can_send dropped0 sched env bad :
  acq_bad bad vq gh -> Forall (rely false) env -> mark_mode_ok -> has_room I (num_desc vq - (ah gh - uh gh)) -> I [] sched ->
  BPFHV_BE_TX_BUDGET < Z.of_nat fuel ->
  exists res gh' new hist,
    let all := descs vq (ah gh) (ag gh) ++ new in
    let a0 := mk_q 0 map sched bad false in
    let a := acquire_process all a0 in
    vring_packed_txq_acquire fuel map txq vq can_send dropped0 sched env = Some res /\
    ar_count res = k_count a /\ ar_map res = k_map a /\ ar_sched res = k_sched a /\
    ar_dropped res = (if k_stop a then dropped0 else 0) /\
    acq_bad (k_bad a) (v_vq (ar_view res)) gh' /\ uh gh' = uh gh /\ ah gh' = ah gh + k_count a /\
    Forall (rely false) (v_env (ar_view res)) /\
    num_desc (v_vq (ar_view res)) = num_desc vq /\ handed a0 I hist (k_bad a) (ar_map res) (ar_sched res) /\
    Z.of_nat (length hist) = k_count a /\
    descs (v_vq (ar_view res)) (uh gh') (ah gh') = descs vq (uh gh) (ah gh) ++ hist.
Proof.
  intros [Hinv Hrw Hlen Hc Hm] HF Hmm Hnd HI Hfuel. set (a0 := mk_q 0 map sched bad false).
  set (vq1 := if is_null can_send then vq else vring_packed_notification vq 0).
  assert (Hta0 : take_at vq gh [] (mk_view vq env) gh bad).
  { constructor; simpl; try done; [lia| |by rewrite app_nil_r]. exists []. by rewrite app_nil_r. }
  assert (Hta : take_at vq gh [] (mk_view vq1 env) gh bad).
  { unfold vq1. destruct (is_null can_send); [done|]. pose proof (notification_evolved _ _ 0 Hinv) as He.
    apply (take_evolved _ _ _ _ _ _ _ _ Hta0); [split; [apply He|done]|done]. }
  destruct (run_opt_measure (acquire_iter (is_null can_send)) (acquire_inv vq gh a0 I dropped0)
    (acquire_post vq gh a0 I dropped0) (fun s => BPFHV_BE_TX_BUDGET - q_count s)
    (fun s Hs => acquire_iter_spec vq gh a0 (is_null can_send) I dropped0 s Hmm Hnd Hs) fuel
    (mk_acquire (mk_view vq1 env) 0 0 dropped0 0 map sched)) as (s & Hrun & hist & gh' & bad' & stop & Hta' & Hcnt & Hdr & Ht & Hha).
  - exists [], gh, bad. simpl. split_and!; try done. exists [], []. by rewrite app_nil_r.
  - simpl. lia.
  - destruct (ta_avail _ _ _ _ _ _ Hta') as [new Ha].
    exists (mk_acquire_result (q_count s) (q_dropped s) (q_view s)
          (upd_stats (stats_add_bufs (q_bufs s)) (set_notify 0 txq)) (q_map s) (q_sched s)), gh', new, hist.
    cbv zeta. rewrite Ha, Ht. unfold vring_packed_txq_acquire. fold vq1. rewrite Hrun. simpl.
    destruct Hta' as [[Hinv' HF'] Eu Ea En _ (Hrw' & Hlen' & Hc') Hm' Htk].
    split_and!; try done. lia.
Qed.

(** C21: [vring_packed_txq_acquire] with a scheduler that drops no packet
    terminates without failing an assertion, and is equivalent to handing the
    descriptors available at the call, and those that become available while
    it runs, to the scheduler in order: it returns their number, all the
    buffers handed over become releasable, those outside guest memory are
    taken without being handed over, and the counter of the buffers in use
    stays exact.  [*dropped] is set to 0 when the queue was found empty, but
    left as it was when the budget ran out. *)
Theorem vring_packed_txq_acquire_refines fuel map txq vq gh can_send dropped0 sched env bad :
  acq_bad bad vq gh -> Forall (rely false) env -> mark_mode_ok -> never_drops -> BPFHV_BE_TX_BUDGET < Z.of_nat fuel ->
  exists res gh' new,
    let all := descs vq (ah gh) (ag gh) ++ new in
    let a := acquire_process all (mk_q 0 map sched bad false) in
    vring_packed_txq_acquire fuel map txq vq can_send dropped0 sched env = Some res /\
    ar_count res = k_count a /\ ar_map res = k_map a /\ ar_sched res = k_sched a /\
    ar_dropped res = (if k_stop a then dropped0 else 0) /\
    acq_bad (k_bad a) (v_vq (ar_view res)) gh' /\ uh gh' = uh gh /\ ah gh' = ah gh + k_count a.
Proof.
  intros Hacq HF Hmm Hnd Hfuel.
  destruct (acquire_room (fun _ _ => True) fuel map txq vq gh can_send dropped0 sched env bad Hacq HF Hmm) as (res & gh' & new & hist & H);
    [intros enq s d base m _ _ _; split; [apply Hnd|done]|done|done|]. exists res, gh', new. cbv zeta in *. tauto.
Qed.

(** *** Dropped packets *)

Lemma put_map_acq vq gh :
  acq_inv vq gh -> ah gh < ag gh ->
  let vq1 := put_map (id (slot vq (ah gh))) (idx (num_desc vq) (ah gh)) vq in
  acq_inv vq1 gh /\ mapped vq1 (ah gh).
Proof.
  intros [Hinv Hrw Hlen Hc Hm] Hlt vq1. pose proof Hinv as [Hg Hh _]. destruct (hi_order _ _ Hh).
  pose proof (id_range _ _ (ah gh) Hg ltac:(lia)) as Hi.
  split; [constructor; try done|].
  - by destruct Hinv as [[] [] []].
  - simpl. by rewrite length_insert.
  - intros p Hp. pose proof (id_range _ _ p Hg ltac:(lia)). unfold mapped, vq1.
    change (slot (put_map _ _ vq) p) with (slot vq p). rewrite map_put by lia.
    rewrite decide_False by (intros E; apply (id_inj _ _ _ _ Hg) in E; lia). by apply Hm.
  - unfold mapped, vq1. change (slot (put_map _ _ vq) (ah gh)) with (slot vq (ah gh)).
    rewrite map_put by lia. by rewrite decide_True.
Qed.

Lemma upd_counters_inv vq gh a b c : vq_inv vq gh -> vq_inv (upd_counters a b c vq) gh.
Proof. intros [Hg Hh Hf]. constructor; [by apply (guest_inv_update vq gh)|by destruct Hh|by destruct Hf]. Qed.

(** When the scheduler drops a packet, [vring_packed_txq_acquire] gives the
    buffer back at once only if other buffers are in use: with none in use,
    [vring_packed_txq_release] returns early, because the counter of the
    buffers in use is incremented only afterwards, and the buffer of the
    dropped packet stays taken although the scheduler does not have it. *)
Theorem vring_packed_drop_released_iff vq gh map sched d0 base map' m ret sched' :
  acq_inv vq gh -> ah gh < ag gh ->
  translate_addr map (addr (slot vq (ah gh))) (len (slot vq (ah gh))) = (base, map') -> base <> NULL ->
  mark_of sched (slot vq (ah gh)) base = Some m ->
  sched_enqueue sched (mk_iov base (len (slot vq (ah gh)))) (id (slot vq (ah gh))) m = (ret, sched') -> 0 < s32 ret ->
  exists vq' gh',
    acquire_iter true (mk_acquire (mk_view vq []) 0 0 d0 0 map sched) =
      Some (Continue (mk_acquire (mk_view vq' []) 1 1 d0 1 map' sched')) /\
    vq_inv vq' gh' /\ ug gh' = ug gh /\ ah gh' = ah gh + 1 /\
    bufs_between vq' (ug gh) (uh gh') =
      bufs_between vq (ug gh) (uh gh) ++ (if uh gh =? ah gh then [] else [buf_at vq (ah gh)]) /\
    (uh gh = ah gh -> bufs_between vq' (uh gh') (ah gh') = [buf_at vq (ah gh)]).
Proof.
  intros Hacq Hlt Htr Hbase Hmark Henq Hret. pose proof Hacq as [Hinv _ _ Hc _].
  pose proof (gi_n _ _ (vi_guest _ _ Hinv)) as Hn. pose proof (gi_order _ _ (vi_guest _ _ Hinv)).
  destruct (hi_order _ _ (vi_host _ _ Hinv)), (hi_avail _ _ (vi_host _ _ Hinv)) as [Ea _].
  destruct (put_map_acq vq gh Hacq Hlt) as [Hacq1 Hm1]. set (vq1 := put_map _ _ vq) in *.
  assert (Hrel : exists vq2 gh2, vring_packed_txq_release vq1 (id (slot vq1 (ah gh))) = Some vq2 /\ vq_inv vq2 gh2 /\
    ug gh2 = ug gh /\ ah gh2 = ah gh /\ ag gh2 = ag gh /\ 0 <= g_pending_inuse_counter (g vq2) < 2 ^ 31 /\
    bufs_between vq2 (ug gh) (uh gh2) =
      bufs_between vq (ug gh) (uh gh) ++ (if uh gh =? ah gh then [] else [buf_at vq (ah gh)]) /\
    (uh gh = ah gh -> uh gh2 = uh gh /\ vq2 = vq1)).
  { destruct (uh gh =? ah gh) eqn:E; zify_bool.
    - exists vq1, gh. unfold vring_packed_txq_release. change (g vq1) with (g vq).
      rewrite (proj2 (Z.eqb_eq (g_pending_inuse_counter (g vq)) 0)) by lia. rewrite app_nil_r.
      split_and!; try done; [apply Hacq1|lia..].
    - destruct (release_spec [] vq1 gh (ah gh) Hacq1 ltac:(lia) ltac:(lia) Hm1)
        as (vq2 & Hr & [Hinv2 _ _ Hc2 _] & _ & _ & _ & _ & Hb & _).
      destruct (release_lists vq1 gh vq2 (ah gh) (ai_inv _ _ _ Hacq1) ltac:(lia) ltac:(lia) Hb) as [Hu _].
      exists vq2, (gh_release gh). simpl in *. split_and!; try done; lia. }
  destruct Hrel as (vq2 & gh2 & Hr & Hinv2 & E1 & E2 & E3 & Hp2 & Hu & Heq).
  pose proof (upd_counters_inv vq2 gh2 0 1 0 Hinv2) as Hinv3.
  destruct (take_step_spec (upd_counters 0 1 0 vq2) gh2 Hinv3 ltac:(lia))
    as (Hinv4 & En4 & Ed4 & Es4 & _). { simpl. rewrite Z.add_0_r, u32_id by (unfold is_u32; lia). lia. }
  assert (Hbuf : forall lo hi, bufs_between (take_step (upd_counters 0 1 0 vq2)) lo hi = bufs_between vq2 lo hi).
  { intros lo hi. apply map_range_ext. intros p _. apply buf_at_same; [by rewrite Es4|].
    unfold slot, get_desc. by rewrite En4, Ed4. }
  exists (take_step (upd_counters 0 1 0 vq2)), (gh_take gh2). split_and!; try done.
  - unfold acquire_iter, poll; simpl. rewrite Ea. rewrite (more_avail_spec _ _ Hinv), (proj2 (Z.ltb_lt _ _)) by done.
    simpl. change (get_desc (idx (num_desc vq) (ah gh)) vq) with (slot vq (ah gh)). rewrite Htr.
    rewrite (proj2 (Z.eqb_neq base NULL)), Hmark by done. simpl. rewrite Henq.
    destruct (0 <? s32 ret) eqn:Er; zify_bool; [|lia].
    fold vq1. change (get_desc (idx (num_desc vq) (ah gh)) vq1) with (slot vq1 (ah gh)). by rewrite Hr.
  - simpl. lia.
  - simpl. by rewrite Hbuf.
  - intros E. destruct (Heq E) as [E4 ->]. simpl. rewrite Hbuf, E2, E4, E. unfold bufs_between.
    by rewrite range_cons, range_nil by lia.
Qed.

End acquire.

(** ** Witnesses *)

(** A scheduler that takes every packet, and one that drops every packet. *)
Definition taking_sched : Scheduler (list (iovec * Z * Z)) :=
  {| mark_mode := MARK_MODE_GUEST;
     hv_mark_pkt_fun _ _ _ := 0;
     sched_enqueue s v i m := (0, s ++ [(v, i, m)]) |}.
Definition dropping_sched : Scheduler (list (iovec * Z * Z)) :=
  {| mark_mode := MARK_MODE_GUEST;
     hv_mark_pkt_fun _ _ _ := 0;
     sched_enqueue s v i m := (1, s) |}.

Lemma example_acq : acq_inv (example_vq 0) (example_avail_gh 0).
Proof.
  constructor; [exact (example_avail_inv 0 (or_introl eq_refl))|reflexivity..|].
  intros p Hp. change (0 <= p < 0) in Hp. lia.
Defined.

Lemma vring_packed_txq_acquire_refines_witness :
  exists res new, vring_packed_txq_acquire (Scheduler0 := taking_sched) 200 example_map (mk_qio 0 stats_zero) (example_vq 0)
      None 99 [] [] = Some res /\
    ar_count res = k_count (acquire_process (Scheduler0 := taking_sched) (descs (example_vq 0) 0 1 ++ new)
                              (mk_q 0 example_map [] [] false)).
Proof.
  destruct (vring_packed_txq_acquire_refines (Scheduler0 := taking_sched) 200 example_map (mk_qio 0 stats_zero)
    (example_vq 0) (example_avail_gh 0) None 99 [] [] [] example_acq (Forall_nil _) ltac:(right; right; reflexivity)
    ltac:(intros s v i m; vm_compute; congruence) ltac:(vm_compute; reflexivity)) as (res & gh' & new & Hr & Hc & _).
  exists res, new. split; [exact Hr|exact Hc].
Defined.

Lemma vring_packed_drop_released_iff_witness :
  exists vq' gh', vq_inv vq' gh' /\ bufs_between vq' (ug (example_avail_gh 0)) (uh gh') = [] /\
    bufs_between vq' (uh gh') (ah gh') = [mk_entry 7 0x2000 64 0].
Proof.
  destruct (vring_packed_drop_released_iff (Scheduler0 := dropping_sched) (example_vq 0) (example_avail_gh 0)
    example_map [] 0 0x801000 (snd (translate_addr example_map 0x2000 64)) 0 1 []
    example_acq ltac:(reflexivity) ltac:(reflexivity) ltac:(vm_compute; congruence) ltac:(reflexivity)
    ltac:(reflexivity) ltac:(reflexivity)) as (vq' & gh' & _ & Hi & _ & _ & Hu & Ht).
  exists vq', gh'. split; [exact Hi|]. split; [exact Hu|exact (Ht eq_refl)].
Defined.

(** A queue of two slots, both taken. *)
Definition example_taken_vq : vring_packed_virtq :=
  let vq := vring_packed_add (vring_packed_init 2) (mk_buf 7 0x2000 0 64) 0 0 in
  let vq := vring_packed_add vq (mk_buf 8 0x3000 0 128) 0 0 in
  take_step (put_map 1 1 (take_step (put_map 0 0 vq))).
Definition example_taken_gh : ghost := mk_gh 0 0 2 2 [] 0.

Lemma example_taken_inv : acq_inv example_taken_vq example_taken_gh.
Proof.
  assert (HP : forall (P : Z -> Prop), P 0 -> P 1 -> forall p, 0 <= p < 2 -> P p).
  { intros P H0 H1 p Hp. assert (p = 0 \/ p = 1) as [->| ->] by lia; assumption. }
  constructor; [|reflexivity..|].
  2:{ intros p Hp _. revert p Hp. apply (HP (fun p => mapped example_taken_vq p)); reflexivity. }
  constructor; [constructor|constructor|split].
  1-9: try (vm_compute; repeat split; congruence).
  - change (ids example_taken_vq example_taken_gh ++ fl example_taken_gh) with [0; 1].
    change (range 0 (num_desc example_taken_vq)) with [0; 1]. reflexivity.
  - change (ids example_taken_vq example_taken_gh) with [0; 1].
    intros i [->| ->%list_elem_of_singleton]%elem_of_cons; vm_compute; congruence.
  - vm_compute; repeat split; congruence.
  - vm_compute; repeat split; congruence.
  - vm_compute; repeat split; congruence.
  - left. reflexivity.
  - apply HP; reflexivity.
Defined.

Definition example_bufs (i : Z) : entry := if i =? 0 then mk_entry 7 0x2000 64 0 else mk_entry 8 0x3000 128 0.

(** The second buffer is released first. *)
Lemma vring_packed_releases_any_order_witness :
  exists vq' gh', releases [1; 0] example_taken_vq = Some vq' /\ uh gh' = 2 /\
    bufs_between vq' 0 (uh gh') = [mk_entry 8 0x3000 128 0; mk_entry 7 0x2000 64 0].
Proof.
  assert (HP : forall (P : Z -> Prop), P 0 -> P 1 -> forall p, 0 <= p < 2 -> P p).
  { intros P H0 H1 p Hp. assert (p = 0 \/ p = 1) as [->| ->] by lia; assumption. }
  destruct (vring_packed_releases_any_order example_taken_vq example_taken_gh [1; 0] example_bufs example_taken_inv
    ltac:(vm_compute; congruence) ltac:(vm_compute; reflexivity)
    (HP (fun p => example_bufs (id (slot example_taken_vq p)) = buf_at example_taken_vq p) eq_refl eq_refl)
    (Permutation_swap 0 1 [])) as (vq' & gh' & Hr & _ & _ & Hu & _ & _ & Hb & _).
  exists vq', gh'. split; [exact Hr|]. split; [exact Hu|exact Hb].
Defined.

Lemma vring_packed_txq_notify_exact_witness :
  exists vq txq' vq', releases [1] example_taken_vq = Some vq /\
    vring_packed_txq_notify (mk_qio 0 stats_zero) vq = (1, txq', vq') /\ q_notify txq' = 1.
Proof.
  destruct (release_spec [] example_taken_vq example_taken_gh 1 example_taken_inv ltac:(reflexivity)
    ltac:(vm_compute; split; congruence) ltac:(reflexivity)) as (vq & Hr & [Hinv _ _ _ _] & _ & En & Ed & Ep & _).
  assert (Hp : g_pending_used_counter (g vq) = 1) by exact Ep.
  destruct (vring_packed_txq_notify_exact (mk_qio 0 stats_zero) vq (gh_release example_taken_gh) 1 Hinv
    ltac:(rewrite Hp; lia) ltac:(rewrite En; vm_compute; split; congruence) ltac:(rewrite En; exact Ed)
    ltac:(rewrite Hp; vm_compute; congruence) ltac:(rewrite Hp; reflexivity)) as (txq' & vq' & Hn & _ & _ & Hq).
  exists vq, txq', vq'. split; [cbn [releases]; change (vring_packed_txq_release example_taken_vq 1 = Some vq) in Hr;
    rewrite Hr; reflexivity|]. rewrite Hp in Hn. split; [exact Hn|]. rewrite Hq. reflexivity.
Defined.
