(* ===== verification/Proxy.v ===== *)
(** * The control protocol of the backend process

    The messages of include/bpfhv-proxy.h and their processing in
    proxy/backend.c ([process_guest_message] and the functions it calls): the
    state of one backend, of the batch it belongs to, and the calls made to
    the operating system, which are recorded in a log.  What the calls return
    is a parameter.

    [ProxyMsg] holds the data and the handlers; [ProxyOps] the tables of the
    three devices. *)

From S2P Require Import Prelude Abi Backend Sring SringGsoTx SringGsoRx VringPacked.
Open Scope Z_scope.

Module ProxyOps.

(** The part of [BeOps] that the control protocol uses; the packet routines
    are in the files of the devices. *)
Record BeOps := mk_ops {
  rx_ctx_size : Z -> Z;
  tx_ctx_size : Z -> Z;
  has_ctx_init_mark : bool;       (* [tx_ctx_init_mark != NULL] *)
  ops_features_avail : Z;
}.

Definition gso_features : Z :=
  foldr Z.lor 0 [BPFHV_F_SG; BPFHV_F_TX_CSUM; BPFHV_F_RX_CSUM; BPFHV_F_TSOv4; BPFHV_F_TCPv4_LRO;
                 BPFHV_F_TSOv6; BPFHV_F_TCPv6_LRO; BPFHV_F_UFO; BPFHV_F_UDP_LRO].

Definition sring_ops : BeOps := mk_ops sring_ctx_size sring_ctx_size false 0.
Definition sring_gso_ops : BeOps := mk_ops sring_gso_rx_ctx_size sring_gso_tx_ctx_size false gso_features.
Definition vring_packed_ops : BeOps := mk_ops vring_packed_ctx_size vring_packed_ctx_size true 0.

(** The device names that [setup_backend] compares with. *)
Inductive device := SRING | SRING_GSO | VRING_PACKED.

Definition OPT_TXCSUM : Z := Z.shiftl 1 0.
Definition OPT_RXCSUM : Z := Z.shiftl 1 1.
Definition OPT_TSO : Z := Z.shiftl 1 2.
Definition OPT_LRO : Z := Z.shiftl 1 3.

Definition clear_bits (x mask : Z) : Z := Z.land x (u64 (Z.lnot mask)).

(** The choice of the device and of its offloads: the device, [opt_offload]
    and [be->features_avail]. *)
Definition select_device (dev : device) (opt_offload : Z) : device * Z * BeOps * Z :=
  let dev := match dev with SRING => if z2b opt_offload then SRING_GSO else SRING | d => d end in
  let opt := match dev with VRING_PACKED => if z2b opt_offload then 0 else opt_offload | _ => opt_offload end in
  let ops := match dev with SRING => sring_ops | SRING_GSO => sring_gso_ops | VRING_PACKED => vring_packed_ops end in
  let f := ops_features_avail ops in
  let f := if has_flag opt OPT_TXCSUM then f else clear_bits f BPFHV_F_TX_CSUM in
  let f := if has_flag opt OPT_RXCSUM then f else clear_bits f BPFHV_F_RX_CSUM in
  let f := if has_flag opt (Z.lor OPT_TXCSUM OPT_RXCSUM) then f else clear_bits f BPFHV_F_SG in
  let f := if has_flag opt OPT_TSO then f
           else clear_bits f (Z.lor (Z.lor BPFHV_F_TSOv4 BPFHV_F_TSOv6) BPFHV_F_UFO) in
  let f := if has_flag opt OPT_LRO then f
           else clear_bits f (Z.lor (Z.lor BPFHV_F_TCPv4_LRO BPFHV_F_TCPv6_LRO) BPFHV_F_UDP_LRO) in
  (dev, opt, ops, f).

End ProxyOps.
Import ProxyOps.

Module ProxyMsg.

(** ** Messages *)

Record BpfhvProxyMemoryRegion := mk_pregion {
  guest_physical_addr : Z;
  pr_size : Z;
  hypervisor_virtual_addr : Z;
  pr_mmap_offset : Z;
}.
#[export] Instance pregion_inhabited : Inhabited BpfhvProxyMemoryRegion := populate (mk_pregion 0 0 0 0).

Record BpfhvProxyParameters := mk_params {
  p_num_rx_queues : Z;
  p_num_tx_queues : Z;
  p_num_rx_bufs : Z;
  p_num_tx_bufs : Z;
}.

Inductive BpfhvProxyReqType :=
| REQ_NONE | REQ_GET_FEATURES | REQ_SET_FEATURES | REQ_SET_PARAMETERS | REQ_GET_PROGRAMS
| REQ_SET_MEM_TABLE | REQ_SET_QUEUE_CTX | REQ_SET_QUEUE_KICK | REQ_SET_QUEUE_IRQ | REQ_SET_UPGRADE
| REQ_RX_ENABLE | REQ_TX_ENABLE | REQ_RX_DISABLE | REQ_TX_DISABLE.

#[export] Instance reqtype_eq_dec : EqDecision BpfhvProxyReqType.
Proof. solve_decision. Defined.

(** The payload as it reads at each of the types of the union. *)
Record BpfhvProxyMsgPayload := mk_payload {
  pl_u64 : Z;
  pl_params : BpfhvProxyParameters;
  pl_num_regions : Z;
  pl_regions : list BpfhvProxyMemoryRegion;
  pl_queue_idx : Z;              (* of [queue_ctx] and of [notify], both at offset 0 *)
  pl_ctx_gpa : Z;
}.

Record BpfhvProxyMsgHeader := mk_hdr { reqtype : option BpfhvProxyReqType; hdr_flags : Z; hdr_size : Z }.

Definition BPFHV_PROXY_VERSION : Z := 1.
Definition BPFHV_PROXY_F_VERSION_MASK : Z := 0x7.
Definition BPFHV_PROXY_F_ERROR : Z := 0x8.

Definition sizeof_hdr : Z := struct_size [f32; f32; f32].
Definition sizeof_params : Z := struct_size [f32; f32; f32; f32].
Definition memory_region_layout : list (Z * Z) := [f64; f64; f64; f64].
Definition sizeof_memory_map : Z :=
  struct_size [f32; f32; farray (struct_size memory_region_layout, 8) BPFHV_PROXY_MAX_REGIONS].
Definition sizeof_queue_ctx : Z := struct_size [f32; f32; f64].
Definition sizeof_notify : Z := struct_size [f32].

(** The payload size that each request must have. *)
Definition payload_size (t : BpfhvProxyReqType) : option Z :=
  match t with
  | REQ_GET_FEATURES | REQ_GET_PROGRAMS | REQ_RX_ENABLE | REQ_TX_ENABLE | REQ_RX_DISABLE | REQ_TX_DISABLE => Some 0
  | REQ_SET_FEATURES => Some 8
  | REQ_SET_PARAMETERS => Some sizeof_params
  | REQ_SET_MEM_TABLE => Some sizeof_memory_map
  | REQ_SET_QUEUE_CTX => Some sizeof_queue_ctx
  | REQ_SET_QUEUE_KICK | REQ_SET_QUEUE_IRQ | REQ_SET_UPGRADE => Some sizeof_notify
  | REQ_NONE => None
  end.

(** What the two reads of the socket give: the result of [recvmsg], the header,
    the descriptors passed along, the result of [read] and the payload.  The
    loops around interrupted calls are not modelled.  [reqtype] is [None] for
    a number that is no request. *)
Record incoming := mk_incoming {
  in_n : Z;
  in_hdr : BpfhvProxyMsgHeader;
  in_fds : list Z;
  in_read : Z;
  in_payload : BpfhvProxyMsgPayload;
}.

Inductive resp_payload := PNone | PU64 (x : Z) | PCtxSizes (rx tx : Z).
Record response := mk_resp { r_reqtype : BpfhvProxyReqType; r_flags : Z; r_size : Z; r_payload : resp_payload; r_outfds : list Z }.

(** ** State *)

Record be_queue := mk_queue { q_ctx : Z; kickfd : Z; irqfd : Z }.
Definition queue_zero : be_queue := mk_queue NULL (-1) (-1).
#[export] Instance be_queue_inhabited : Inhabited be_queue := populate queue_zero.

Record BpfhvBackend := mk_be {
  be_ops : BeOps;
  features_avail : Z;
  features_sel : Z;
  max_rx_pkt_size : Z;
  be_map : mem_map;
  num_queue_pairs : Z;
  num_queues : Z;
  num_rx_bufs : Z;
  num_tx_bufs : Z;
  status : Z;
  running : Z;
  upgrade_fd : Z;
  stopflag : Z;
  be_q : list be_queue;
}.

Record BpfhvBackendBatch := mk_batch {
  th_running : Z;
  bc_stopflag : Z;
  allocated_instances : Z;
  used_instances : Z;
}.

(** The calls to the operating system and to the device. *)
Inductive effect :=
| Close (fd : Z)
| Munmap (addr size : Z)
| RxCtxInit (ctx n : Z)
| TxCtxInit (ctx n : Z)
| TxCtxInitMark (ctx mode : Z)
| ThreadCreate
| ThreadJoin
| UpdateStatusFile.

Record process := mk_process {
  p_be : BpfhvBackend;
  p_bc : BpfhvBackendBatch;
  p_log : list effect;
}.

(** What the calls return: [mmap] by size and file descriptor ([None] is
    [MAP_FAILED]), [pthread_create], [pthread_join] and [open]; and the
    configuration of the process. *)
Record os := mk_os {
  os_mmap : Z -> Z -> option Z;
  os_create : Z;
  os_join : Z;
  os_open : Z;
  client_threshold_activation : Z;
  bp_mark_mode : Z;
}.

Definition emit (e : effect) (p : process) : process := mk_process (p_be p) (p_bc p) (p_log p ++ [e]).
Definition with_be (b : BpfhvBackend) (p : process) : process := mk_process b (p_bc p) (p_log p).
Definition with_bc (b : BpfhvBackendBatch) (p : process) : process := mk_process (p_be p) b (p_log p).

Section setters.
Implicit Types b : BpfhvBackend.
Definition set_features sel max b := mk_be (be_ops b) (features_avail b) sel max (be_map b) (num_queue_pairs b) (num_queues b) (num_rx_bufs b) (num_tx_bufs b) (status b) (running b) (upgrade_fd b) (stopflag b) (be_q b).
Definition set_map m b := mk_be (be_ops b) (features_avail b) (features_sel b) (max_rx_pkt_size b) m (num_queue_pairs b) (num_queues b) (num_rx_bufs b) (num_tx_bufs b) (status b) (running b) (upgrade_fd b) (stopflag b) (be_q b).
Definition set_params pairs queues rx tx b := mk_be (be_ops b) (features_avail b) (features_sel b) (max_rx_pkt_size b) (be_map b) pairs queues rx tx (status b) (running b) (upgrade_fd b) (stopflag b) (be_q b).
Definition set_status x b := mk_be (be_ops b) (features_avail b) (features_sel b) (max_rx_pkt_size b) (be_map b) (num_queue_pairs b) (num_queues b) (num_rx_bufs b) (num_tx_bufs b) x (running b) (upgrade_fd b) (stopflag b) (be_q b).
Definition set_running x b := mk_be (be_ops b) (features_avail b) (features_sel b) (max_rx_pkt_size b) (be_map b) (num_queue_pairs b) (num_queues b) (num_rx_bufs b) (num_tx_bufs b) (status b) x (upgrade_fd b) (stopflag b) (be_q b).
Definition set_upgrade_fd x b := mk_be (be_ops b) (features_avail b) (features_sel b) (max_rx_pkt_size b) (be_map b) (num_queue_pairs b) (num_queues b) (num_rx_bufs b) (num_tx_bufs b) (status b) (running b) x (stopflag b) (be_q b).
Definition set_stopflag x b := mk_be (be_ops b) (features_avail b) (features_sel b) (max_rx_pkt_size b) (be_map b) (num_queue_pairs b) (num_queues b) (num_rx_bufs b) (num_tx_bufs b) (status b) (running b) (upgrade_fd b) x (be_q b).
Definition set_q x b := mk_be (be_ops b) (features_avail b) (features_sel b) (max_rx_pkt_size b) (be_map b) (num_queue_pairs b) (num_queues b) (num_rx_bufs b) (num_tx_bufs b) (status b) (running b) (upgrade_fd b) (stopflag b) x.
End setters.

Definition get_q (i : Z) (b : BpfhvBackend) : be_queue := be_q b !!! Z.to_nat i.
Definition put_q (i : Z) (q : be_queue) (b : BpfhvBackend) : BpfhvBackend := set_q (<[Z.to_nat i := q]> (be_q b)) b.

(** ** Helpers *)

Definition num_bufs_valid (num_bufs : Z) : bool :=
  negb ((num_bufs <? 16) || (8192 <? num_bufs) || z2b (Z.land num_bufs (u64 (num_bufs - 1)))).

(** The loop over the first [n] queues. *)
Definition queue_ready (q : be_queue) : bool :=
  negb (q_ctx q =? NULL) && negb (kickfd q <? 0) && negb (irqfd q <? 0).

Definition backend_ready (b : BpfhvBackend) : bool :=
  forallb (fun i => queue_ready (be_q b !!! i)) (seq 0 (Z.to_nat (num_queues b))) &&
  (0 <? num_queue_pairs b) && num_bufs_valid (num_rx_bufs b) && num_bufs_valid (num_tx_bufs b) &&
  (0 <? num_regions (be_map b)).

(** [backend_drain], the routine of the device being a parameter: the number
    of packets it sent and its new state; [fuel] bounds the iterations. *)
Fixpoint drain_queue {A} (txq_drain : A -> Z * A) (fuel : nat) (num_tx_bufs drained : Z) (a : A) : option (Z * A) :=
  match fuel with
  | O => None
  | S fuel' =>
      let '(count, a) := txq_drain a in
      let drained := drained + count in
      if (num_tx_bufs <=? drained) || (count =? 0) then Some (drained, a)
      else drain_queue txq_drain fuel' num_tx_bufs drained a
  end.

(** *** Starting and stopping the packet thread *)

Definition activate_backend (o : os) (p : process) : Z * process :=
  if running (p_be p) =? 1 then (-1, p)
  else if client_threshold_activation o <=? used_instances (p_bc p) then (-1, p)
  else
    let bc := p_bc p in
    let bc := mk_batch (th_running bc) (bc_stopflag bc) (allocated_instances bc) (u16 (used_instances bc + 1)) in
    let p := with_bc bc p in
    if used_instances bc =? client_threshold_activation o then
      let p := emit ThreadCreate p in
      if z2b (os_create o) then (os_create o, p)
      else
        let bc := mk_batch 1 (bc_stopflag bc) (allocated_instances bc) (used_instances bc) in
        (0, emit UpdateStatusFile (with_bc bc p))
    else (0, emit UpdateStatusFile p).

Definition BPFHV_STOPFD_HALT : Z := 1.

(** The thread of the batch is stopped first, if it runs. *)
Definition backend_stop (o : os) (p : process) : Z * process :=
  let bc := p_bc p in
  let '(ret, p) :=
    if z2b (th_running bc) then
      let bc := mk_batch (th_running bc) BPFHV_STOPFD_HALT (allocated_instances bc) (used_instances bc) in
      let p := emit ThreadJoin (with_bc bc p) in
      if z2b (os_join o) then (os_join o, p)
      else (0, with_bc (mk_batch 0 (bc_stopflag bc) (allocated_instances bc) (used_instances bc)) p)
    else (0, p) in
  if z2b ret then (ret, p)
  else if running (p_be p) =? 0 then (-1, p)
  else
    let bc := p_bc p in
    let p := with_be (set_running 0 (p_be p)) p in
    let p := with_bc (mk_batch (th_running bc) (bc_stopflag bc) (allocated_instances bc)
                        (u16 (used_instances bc - 1))) p in
    (-1, emit UpdateStatusFile p).

(** [assign_backend]: the index of the instance, if there is a free one. *)
Definition assign_backend (o : os) (bc : BpfhvBackendBatch) : option Z * BpfhvBackendBatch :=
  if allocated_instances bc <? client_threshold_activation o then
    (Some (allocated_instances bc),
     mk_batch (th_running bc) (bc_stopflag bc) (u16 (allocated_instances bc + 1)) (used_instances bc))
  else (None, bc).

(** ** Handlers

    A handler ends with the response being sent ([Reply]: is it an error, its
    size and payload, the descriptors to send, the array [fds] after some were
    taken out of it), or makes [process_guest_message] return -1 at once. *)
Record reply := mk_reply { rp_error : bool; rp_size : Z; rp_payload : resp_payload; rp_outfds : list Z; rp_fds : list Z }.

Inductive outcome :=
| Reply (r : reply) (p : process)
| Return_minus1 (p : process).

Definition ok_reply (fds : list Z) (p : process) : outcome := Reply (mk_reply false 0 PNone [] fds) p.
Definition error_reply (fds : list Z) (p : process) : outcome := Reply (mk_reply true 0 PNone [] fds) p.

Definition LRO_FEATURES : Z := Z.lor (Z.lor BPFHV_F_TCPv4_LRO BPFHV_F_TCPv6_LRO) BPFHV_F_UDP_LRO.

Definition handle_set_features (fds : list Z) (pl : BpfhvProxyMsgPayload) (p : process) : outcome :=
  let b := p_be p in
  let sel := Z.land (features_avail b) (pl_u64 pl) in
  let max := if has_flag sel LRO_FEATURES then 65536 else 1518 in
  ok_reply fds (with_be (set_features sel max b) p).

Definition handle_get_features (fds : list Z) (p : process) : outcome :=
  Reply (mk_reply false 8 (PU64 (features_avail (p_be p))) [] fds) p.

(** The names given to the queues are only printed and not kept. *)
Definition handle_set_parameters (fds : list Z) (pl : BpfhvProxyMsgPayload) (p : process) : outcome :=
  let params := pl_params pl in
  if negb (p_num_rx_queues params =? 1) || negb (p_num_tx_queues params =? 1) then error_reply fds p
  else if negb (num_bufs_valid (p_num_rx_bufs params)) || negb (num_bufs_valid (p_num_tx_bufs params)) then
    error_reply fds p
  else
    let pairs := p_num_rx_queues params in
    let b := set_params pairs (u32 (2 * pairs)) (p_num_rx_bufs params) (p_num_tx_bufs params) (p_be p) in
    Reply (mk_reply false 8 (PCtxSizes (u32 (rx_ctx_size (be_ops b) (num_rx_bufs b)))
                                       (u32 (tx_ctx_size (be_ops b) (num_tx_bufs b)))) [] fds) (with_be b p).

(** [munmap] of the regions of the previous table. *)
Definition unmap_all (m : mem_map) : list effect :=
  map (fun re => Munmap (mmap_addr re) (u64 (mmap_offset re + region_size re)))
    (take (Z.to_nat (num_regions m)) (regions m)).

(** The loop that sets up the new table, for the regions from [i] on; the
    table, and whether every [mmap] succeeded. *)
Fixpoint setup_regions (o : os) (i : nat) (prs : list BpfhvProxyMemoryRegion) (fds : list Z)
    (table : list BpfhvBackendMemoryRegion) : bool * list BpfhvBackendMemoryRegion :=
  match prs, fds with
  | pr :: prs', fd :: fds' =>
      let start := guest_physical_addr pr in
      let re := mk_region start (u64 (start + pr_size pr)) (pr_size pr) (hypervisor_virtual_addr pr)
                  (pr_mmap_offset pr) NULL NULL in
      match os_mmap o (u64 (pr_mmap_offset pr + pr_size pr)) fd with
      | None => (false, <[i := re]> table)
      | Some a =>
          let re := mk_region start (u64 (start + pr_size pr)) (pr_size pr) (hypervisor_virtual_addr pr)
                      (pr_mmap_offset pr) a (u64 (a + pr_mmap_offset pr)) in
          setup_regions o (S i) prs' fds' (<[i := re]> table)
      end
  | _, _ => (true, table)
  end.

Definition handle_set_mem_table (o : os) (fds : list Z) (pl : BpfhvProxyMsgPayload) (p : process) : outcome :=
  if BPFHV_PROXY_MAX_REGIONS <? pl_num_regions pl then Return_minus1 p
  else if negb (Z.of_nat (length fds) =? pl_num_regions pl) then Return_minus1 p
  else
    let p := mk_process (p_be p) (p_bc p) (p_log p ++ unmap_all (be_map (p_be p))) in
    let table := repeat region_zero (Z.to_nat BPFHV_PROXY_MAX_REGIONS) in
    let '(ok, table) := setup_regions o 0 (take (Z.to_nat (pl_num_regions pl)) (pl_regions pl)) fds table in
    if ok then ok_reply fds (with_be (set_map (mk_map table (pl_num_regions pl)) (p_be p)) p)
    else Return_minus1 (with_be (set_map (mk_map table 0) (p_be p)) p).

Definition handle_get_programs (o : os) (fds : list Z) (p : process) : outcome :=
  if os_open o <? 0 then error_reply fds p
  else Reply (mk_reply false 0 PNone [os_open o] fds) p.

Definition set_ctx (ctx : Z) (q : be_queue) : be_queue := mk_queue ctx (kickfd q) (irqfd q).

Definition handle_set_queue_ctx (o : os) (fds : list Z) (pl : BpfhvProxyMsgPayload) (p : process) : outcome :=
  let b := p_be p in
  let gpa := pl_ctx_gpa pl in
  let i := pl_queue_idx pl in
  let is_rx := i <? num_queue_pairs b in
  if num_queues b <=? i then error_reply fds p
  else if (num_rx_bufs b =? 0) || (num_tx_bufs b =? 0) then error_reply fds p
  else
    let ctx_size := if is_rx then rx_ctx_size (be_ops b) (num_rx_bufs b)
                    else tx_ctx_size (be_ops b) (num_tx_bufs b) in
    let '(ctx, m) := if negb (gpa =? 0) then translate_addr (be_map b) gpa ctx_size else (NULL, be_map b) in
    let p := with_be (set_map m b) p in
    if negb (gpa =? 0) && (ctx =? NULL) then error_reply fds p
    else
      let p := with_be (put_q i (set_ctx ctx (get_q i (p_be p))) (p_be p)) p in
      let p :=
        if ctx =? NULL then p
        else if is_rx then emit (RxCtxInit ctx (num_rx_bufs b)) p
        else
          let p := emit (TxCtxInit ctx (num_tx_bufs b)) p in
          if has_ctx_init_mark (be_ops b) then emit (TxCtxInitMark ctx (bp_mark_mode o)) p else p in
      ok_reply fds p.

(** [fds[0] = -1]: the descriptor is not closed with the others. *)
Definition steal_first (fds : list Z) : list Z := <[0%nat := -1]> fds.

Definition handle_set_queue_fd (is_kick : bool) (fds : list Z) (pl : BpfhvProxyMsgPayload) (p : process) : outcome :=
  let b := p_be p in
  let i := pl_queue_idx pl in
  if num_queues b <=? i then error_reply fds p
  else if 1 <? Z.of_nat (length fds) then error_reply fds p
  else
    let q := get_q i b in
    let old := if is_kick then kickfd q else irqfd q in
    let p := if 0 <=? old then emit (Close old) p else p in
    let fd := match fds with [fd] => fd | _ => -1 end in
    let q := if is_kick then mk_queue (q_ctx q) fd (irqfd q) else mk_queue (q_ctx q) (kickfd q) fd in
    ok_reply (steal_first fds) (with_be (put_q i q b) p).

Definition handle_set_upgrade (fds : list Z) (p : process) : outcome :=
  match fds with
  | [fd] =>
      let old := upgrade_fd (p_be p) in
      let p := if 0 <=? old then emit (Close old) p else p in
      ok_reply (steal_first fds) (with_be (set_upgrade_fd fd (p_be p)) p)
  | _ => error_reply fds p
  end.

Definition handle_enable (o : os) (is_rx : bool) (fds : list Z) (p : process) : outcome :=
  if negb (backend_ready (p_be p)) then error_reply fds p
  else
    let flag := if is_rx then BPFHV_STATUS_RX_ENABLED else BPFHV_STATUS_TX_ENABLED in
    let p := with_be (set_status (Z.lor (status (p_be p)) flag) (p_be p)) p in
    if z2b (running (p_be p)) then ok_reply fds p
    else
      let p := with_be (set_stopflag 0 (p_be p)) p in
      let '(ret, p) := activate_backend o p in
      if z2b ret then ok_reply fds p
      else ok_reply fds (with_be (set_running 1 (p_be p)) p).

(** [backend_stop] never returns 0, so that [backend_drain] is never
    called (see [backend_stop_nonzero]); the call is kept as a parameter. *)
Definition handle_disable (o : os) (drain : process -> process) (is_rx : bool) (fds : list Z) (p : process) : outcome :=
  let flag := if is_rx then BPFHV_STATUS_RX_ENABLED else BPFHV_STATUS_TX_ENABLED in
  let p := with_be (set_status (Z.land (status (p_be p)) (u32 (Z.lnot flag))) (p_be p)) p in
  if negb (z2b (running (p_be p))) ||
     has_flag (status (p_be p)) (Z.lor BPFHV_STATUS_RX_ENABLED BPFHV_STATUS_TX_ENABLED) then ok_reply fds p
  else
    let '(ret, p) := backend_stop o p in
    if z2b ret then ok_reply fds p else ok_reply fds (drain p).

Definition handle (o : os) (drain : process -> process) (t : BpfhvProxyReqType) (fds : list Z)
    (pl : BpfhvProxyMsgPayload) (p : process) : outcome :=
  match t with
  | REQ_SET_FEATURES => handle_set_features fds pl p
  | REQ_GET_FEATURES => handle_get_features fds p
  | REQ_SET_PARAMETERS => handle_set_parameters fds pl p
  | REQ_SET_MEM_TABLE => handle_set_mem_table o fds pl p
  | REQ_GET_PROGRAMS => handle_get_programs o fds p
  | REQ_SET_QUEUE_CTX => handle_set_queue_ctx o fds pl p
  | REQ_SET_QUEUE_KICK => handle_set_queue_fd true fds pl p
  | REQ_SET_QUEUE_IRQ => handle_set_queue_fd false fds pl p
  | REQ_SET_UPGRADE => handle_set_upgrade fds p
  | REQ_RX_ENABLE => handle_enable o true fds p
  | REQ_TX_ENABLE => handle_enable o false fds p
  | REQ_RX_DISABLE => handle_disable o drain true fds p
  | REQ_TX_DISABLE => handle_disable o drain false fds p
  | REQ_NONE => Return_minus1 p                 (* not reached *)
  end.

(** The checks on a message before it is processed: the return value on
    failure. *)
Definition check_message (i : incoming) : Z + BpfhvProxyReqType :=
  if in_n i <? 0 then inl (-1)
  else if in_n i =? 0 then inl (-2)
  else if BPFHV_PROXY_MAX_REGIONS <? Z.of_nat (length (in_fds i)) then inl (-1)
  else if in_n i <? sizeof_hdr then inl (-1)
  else if negb (Z.land (hdr_flags (in_hdr i)) BPFHV_PROXY_F_VERSION_MASK =? BPFHV_PROXY_VERSION) then inl (-1)
  else
    match reqtype (in_hdr i) ≫= (fun t => (fun n => (t, n)) <$> payload_size t) with
    | None => inl (-1)
    | Some (t, n) =>
        if negb (n =? hdr_size (in_hdr i)) then inl (-1)
        else if in_read i <? 0 then inl (-1)
        else if negb (in_read i =? n) then inl (-1)
        else inr t
    end.

Definition refused_while_running (t : BpfhvProxyReqType) : bool :=
  match t with
  | REQ_SET_FEATURES | REQ_SET_PARAMETERS | REQ_SET_QUEUE_CTX | REQ_SET_QUEUE_KICK => true
  | _ => false
  end.

Definition close_all (fds : list Z) : list effect := map Close (filter (fun fd => 0 <= fd) fds).

(** [process_guest_message]: the return value, the response and the process.
    [sent] is the result of [sendmsg]. *)
Definition process_guest_message (o : os) (drain : process -> process) (i : incoming) (sent : Z) (p : process)
    : Z * option response * process :=
  match check_message i with
  | inl ret => (ret, None, p)
  | inr t =>
      let out := if refused_while_running t && z2b (running (p_be p)) then error_reply (in_fds i) p
                 else handle o drain t (in_fds i) (in_payload i) p in
      match out with
      | Return_minus1 p => (-1, None, p)
      | Reply r p =>
          let flags := if rp_error r then Z.lor BPFHV_PROXY_VERSION BPFHV_PROXY_F_ERROR else BPFHV_PROXY_VERSION in
          let resp := mk_resp t flags (rp_size r) (rp_payload r) (rp_outfds r) in
          if negb (sent =? sizeof_hdr + rp_size r) then (-1, Some resp, p)
          else (0, Some resp, mk_process (p_be p) (p_bc p)
                                (p_log p ++ close_all (rp_fds r) ++ close_all (rp_outfds r)))
      end
  end.

End ProxyMsg.
