(* ===== verification/ProxyInv.v ===== *)
(** * The control protocol: properties

    The invariant of the state of a backend under any sequence of messages, the
    life cycle of the packet thread, what SET_MEM_TABLE and SET_QUEUE_CTX
    establish for the packet routines, and what happens to the file
    descriptors that come with a message. *)

From S2P Require Import Prelude Abi Backend Sring SringGsoTx SringGsoRx VringPacked Proxy.
Import ProxyOps ProxyMsg.
Open Scope Z_scope.

(** ** The invariant *)

Definition ENABLED : Z := Z.lor BPFHV_STATUS_RX_ENABLED BPFHV_STATUS_TX_ENABLED.

(** Queue parameters are either not negotiated or those SET_PARAMETERS
    accepts. *)
Definition params_ok (b : BpfhvBackend) : Prop :=
  (num_queue_pairs b = 0 /\ num_queues b = 0 /\ num_rx_bufs b = 0 /\ num_tx_bufs b = 0) \/
  (num_queue_pairs b = 1 /\ num_queues b = 2 /\
   num_bufs_valid (num_rx_bufs b) = true /\ num_bufs_valid (num_tx_bufs b) = true).

Record be_ok (b : BpfhvBackend) : Prop := {
  bo_sel : Z.land (features_avail b) (features_sel b) = features_sel b;
  bo_q : length (be_q b) = Z.to_nat BPFHV_MAX_QUEUES;
  bo_params : params_ok b;
  bo_map : length (regions (be_map b)) = Z.to_nat BPFHV_PROXY_MAX_REGIONS /\
           0 <= num_regions (be_map b) <= BPFHV_PROXY_MAX_REGIONS;
  bo_running : running b = 0 \/ running b = 1;
  bo_status : running b = 1 -> has_flag (status b) ENABLED = true;
}.

(** A running backend is counted among the instances in use. *)
Definition proc_ok (p : process) : Prop :=
  be_ok (p_be p) /\ running (p_be p) <= used_instances (p_bc p) < 2 ^ 16.

Lemma num_bufs_valid_spec n :
  num_bufs_valid n = true <-> 16 <= n <= 8192 /\ exists k, n = 2 ^ k.
Proof.
  unfold num_bufs_valid. rewrite negb_true_iff, !orb_false_iff, !Z.ltb_ge. unfold z2b.
  rewrite negb_false_iff, Z.eqb_eq. split.
  - intros [[H1 H2] H3]. split; [lia|]. rewrite u64_id in H3 by (unfold is_u64; lia).
    apply pow2_test in H3 as (k & _ & ->); [by exists k|lia].
  - intros [H [k ->]]. split; [lia|]. rewrite u64_id by (unfold is_u64; lia). apply pow2_test; [lia|].
    exists k. split; [|done]. destruct (decide (0 <= k)); [done|]. rewrite Z.pow_neg_r in H by lia. lia.
Qed.

(** *** Status bits *)

Lemma has_flag_lor_self x f : f <> 0 -> 0 <= f -> has_flag (Z.lor x f) f = true.
Proof.
  intros Hf H0. unfold has_flag, z2b. apply negb_true_iff, Z.eqb_neq.
  assert (Z.land (Z.lor x f) f = f) as ->; [|done].
  rewrite Z.land_lor_distr_l, Z.land_diag. apply Z.bits_inj'. intros k Hk.
  rewrite Z.lor_spec, Z.land_spec. destruct (Z.testbit x k), (Z.testbit f k); done.
Qed.

Lemma has_flag_sub x f g : has_flag x f = true -> Z.land f g = f -> has_flag x g = true.
Proof.
  unfold has_flag, z2b. rewrite !negb_true_iff, !Z.eqb_neq. intros Hx Hfg E. apply Hx.
  rewrite <- Hfg, Z.land_assoc, (Z.land_comm x f), <- Z.land_assoc, E. apply Z.land_0_r.
Qed.

Lemma enable_flag x (is_rx : bool) :
  has_flag (Z.lor x (if is_rx then BPFHV_STATUS_RX_ENABLED else BPFHV_STATUS_TX_ENABLED)) ENABLED = true.
Proof.
  apply (has_flag_sub _ (if is_rx then BPFHV_STATUS_RX_ENABLED else BPFHV_STATUS_TX_ENABLED)); [|by destruct is_rx].
  apply has_flag_lor_self; by destruct is_rx.
Qed.

(** *** Starting and stopping *)

Lemma activate_spec o p ret p' :
  activate_backend o p = (ret, p') -> client_threshold_activation o < 2 ^ 16 ->
  0 <= used_instances (p_bc p) ->
  p_be p' = p_be p /\ (running (p_be p) = 1 -> ret <> 0 /\ p' = p) /\
  used_instances (p_bc p) <= used_instances (p_bc p') /\
  (used_instances (p_bc p) < 2 ^ 16 -> used_instances (p_bc p') < 2 ^ 16) /\
  (ret = 0 -> used_instances (p_bc p') = used_instances (p_bc p) + 1).
Proof.
  unfold activate_backend. intros Hact Ht Hu. case_if_in Hact; [by simplify_eq|].
  case_if_in Hact; [by simplify_eq|].
  assert (Hs : u16 (used_instances (p_bc p) + 1) = used_instances (p_bc p) + 1)
    by (apply u16_id; unfold is_u16; lia).
  simpl in Hact. rewrite Hs in Hact. unfold z2b in Hact.
  repeat case_if_in Hact; simplify_eq/=; rewrite ?Hs; split_and!; try done; try lia.
Qed.

(** [backend_stop] never returns 0: the drain after it is never done. *)
Lemma backend_stop_nonzero o p : fst (backend_stop o p) <> 0.
Proof.
  unfold backend_stop, z2b. destruct (negb (th_running (p_bc p) =? 0)).
  - destruct (os_join o =? 0) eqn:E; simpl; [by case_if|]. rewrite E. simpl. by apply Z.eqb_neq.
  - simpl. by case_if.
Qed.

Lemma set_running_id b : running b = 0 -> set_running 0 b = b.
Proof. destruct b; simpl. by intros ->. Qed.

Lemma stop_spec o p ret p' :
  backend_stop o p = (ret, p') -> os_join o = 0 ->
  running (p_be p) = 0 \/ running (p_be p) = 1 -> running (p_be p) <= used_instances (p_bc p) < 2 ^ 16 ->
  p_be p' = set_running 0 (p_be p) /\ th_running (p_bc p') = 0 /\
  used_instances (p_bc p') = used_instances (p_bc p) - running (p_be p).
Proof.
  unfold backend_stop. intros Hs Hj Hr Hu. rewrite Hj in Hs. unfold z2b in Hs. simpl in Hs.
  destruct (th_running (p_bc p) =? 0) eqn:Et; simpl in Hs;
    destruct (running (p_be p) =? 0) eqn:Er; zify_bool; simplify_eq/=.
  - rewrite set_running_id, Er by done. split_and!; done || lia.
  - destruct Hr; [done|]. rewrite u16_id by (unfold is_u16; lia). split_and!; done || lia.
  - rewrite set_running_id, Er by done. split_and!; done || lia.
  - destruct Hr; [done|]. rewrite u16_id by (unfold is_u16; lia). split_and!; done || lia.
Qed.

(** *** Every handler keeps the invariant *)

Definition after (out : outcome) : process := match out with Reply _ p => p | Return_minus1 p => p end.

Lemma setup_regions_length o i prs fds table ok table' :
  setup_regions o i prs fds table = (ok, table') -> length table' = length table.
Proof.
  revert i fds table. induction prs as [|pr prs IH]; intros i fds table; simpl; [by intros [= _ <-]|].
  destruct fds as [|fd fds]; [by intros [= _ <-]|].
  destruct (os_mmap _ _ _); [|intros [= _ <-]; by rewrite length_insert].
  intros H%IH. by rewrite H, length_insert.
Qed.

Lemma translate_shape m gpa len p m' :
  translate_addr m gpa len = (p, m') ->
  length (regions m') = length (regions m) /\ num_regions m' = num_regions m.
Proof.
  unfold translate_addr. case_if; [by intros [= _ <-]|].
  destruct (find_region _ _ _ _ _); intros [= _ <-]; simpl; by rewrite ?length_insert.
Qed.

Lemma land_idem_sel a x : Z.land a (Z.land a x) = Z.land a x.
Proof. by rewrite Z.land_assoc, Z.land_diag. Qed.

(** The memory map can be replaced by one of the same shape. *)
Lemma be_ok_map b m :
  be_ok b -> length (regions m) = Z.to_nat BPFHV_PROXY_MAX_REGIONS ->
  0 <= num_regions m <= BPFHV_PROXY_MAX_REGIONS -> be_ok (set_map m b).
Proof. intros [] ? ?. by constructor. Qed.

Lemma be_ok_put_q b i q : be_ok b -> be_ok (put_q i q b).
Proof. intros []. constructor; simpl; try done. by rewrite length_insert. Qed.

Lemma set_mem_table_ok o fds pl p :
  proc_ok p -> 0 <= pl_num_regions pl -> proc_ok (after (handle_set_mem_table o fds pl p)).
Proof.
  intros [Hb Hu] Hn. unfold handle_set_mem_table. case_if; [done|]. case_if; [done|].
  destruct (setup_regions _ _ _ _ _) as [ok table] eqn:E. apply setup_regions_length in E.
  rewrite repeat_length in E.
  destruct ok; (split; [|done]); apply be_ok_map; simpl; done || lia.
Qed.

Lemma set_queue_ctx_ok o fds pl p : proc_ok p -> proc_ok (after (handle_set_queue_ctx o fds pl p)).
Proof.
  intros [Hb Hu]. unfold handle_set_queue_ctx. case_if; [done|]. case_if; [done|].
  destruct (if negb (pl_ctx_gpa pl =? 0) then _ else _) as [ctx m] eqn:E.
  assert (Hm : be_ok (set_map m (p_be p))).
  { destruct (bo_map _ Hb) as [? ?]. case_if_in E; [apply translate_shape in E as [El En]|injection E as _ <-];
      apply be_ok_map; rewrite ?El, ?En; done. }
  case_if; [by split|]. split; [|by repeat case_if].
  repeat case_if; simpl; by apply be_ok_put_q.
Qed.

Lemma set_queue_fd_ok k fds pl p : proc_ok p -> proc_ok (after (handle_set_queue_fd k fds pl p)).
Proof.
  intros [Hb Hu]. unfold handle_set_queue_fd. case_if; [done|]. case_if; [done|].
  split; [|simpl; repeat case_if; done]. simpl. by apply be_ok_put_q.
Qed.

Lemma set_upgrade_ok fds p : proc_ok p -> proc_ok (after (handle_set_upgrade fds p)).
Proof.
  intros [[] Hu]. unfold handle_set_upgrade. destruct fds as [|fd [|]]; try by split.
  destruct (0 <=? upgrade_fd (p_be p)); by split.
Qed.

Lemma enable_ok o is_rx fds p :
  client_threshold_activation o < 2 ^ 16 -> proc_ok p -> proc_ok (after (handle_enable o is_rx fds p)).
Proof.
  intros Ht [Hb Hu]. unfold handle_enable. case_if; [done|].
  set (p1 := with_be (set_status _ _) p).
  assert (Hb1 : be_ok (p_be p1)).
  { destruct Hb. constructor; simpl; try done. intros _. apply enable_flag. }
  case_if; [by split|]. set (p2 := with_be (set_stopflag 0 _) p1).
  destruct (activate_backend o p2) as [ret p3] eqn:Ea.
  assert (Hr : 0 <= running (p_be p)) by (destruct (bo_running _ Hb); lia).
  destruct (activate_spec _ _ _ _ Ea Ht) as (Ebe & _ & Hle & Hlt & Hone); [simpl; lia|].
  change (used_instances (p_bc p2)) with (used_instances (p_bc p)) in *.
  assert (Hb2 : be_ok (p_be p2)) by (by destruct Hb1).
  unfold z2b in *. change (running (p_be p1)) with (running (p_be p)) in *.
  destruct (ret =? 0) eqn:Er; zify_bool; simpl.
  - split; simpl; [|specialize (Hone Er); specialize (Hlt ltac:(lia)); lia].
    rewrite Ebe. destruct Hb2. constructor; simpl; try done; [by right|]. intros _. apply enable_flag.
  - rewrite <- Ebe in Hb2. split; [done|]. specialize (Hlt ltac:(lia)). rewrite Ebe. simpl. lia.
Qed.

Lemma disable_ok o drain is_rx fds p :
  os_join o = 0 -> proc_ok p -> proc_ok (after (handle_disable o drain is_rx fds p)).
Proof.
  intros Hj [Hb Hu]. unfold handle_disable. set (p1 := with_be (set_status _ _) p).
  destruct (negb _ || _) eqn:E.
  - split; [|done]. destruct Hb as [? ? ? ? Hr Hs]. constructor; simpl; try done.
    intros E1. change (running (p_be p1)) with (running (p_be p)) in E. rewrite E1 in E. simpl in E. exact E.
  - destruct (backend_stop o p1) as [ret p2] eqn:Es.
    pose proof (backend_stop_nonzero o p1) as Hnz. rewrite Es in Hnz. simpl in Hnz.
    destruct (stop_spec _ _ _ _ Es Hj) as (Ebe & _ & Eu); [apply (bo_running _ Hb)|done|].
    unfold z2b. rewrite (proj2 (Z.eqb_neq ret 0)) by done. simpl.
    assert (Hr01 : 0 <= running (p_be p)) by (destruct (bo_running _ Hb); lia).
    split; [|rewrite Ebe, Eu; simpl; lia]. rewrite Ebe. destruct Hb. constructor; simpl; try done; by left.
Qed.

Lemma handle_ok o drain t fds pl p :
  client_threshold_activation o < 2 ^ 16 -> os_join o = 0 -> 0 <= pl_num_regions pl ->
  proc_ok p -> proc_ok (after (handle o drain t fds pl p)).
Proof.
  intros Ht Hj Hn Hp. destruct t; simpl;
    auto using set_mem_table_ok, set_queue_ctx_ok, set_queue_fd_ok, set_upgrade_ok, enable_ok, disable_ok.
  - destruct Hp as [[] ?]. split; [constructor; simpl; try done; apply land_idem_sel|done].
  - unfold handle_set_parameters. destruct (_ || _) eqn:E; [done|]. destruct (_ || _) eqn:E' in |- *; [done|].
    destruct Hp as [Hb Hu]. apply orb_false_iff in E as [E1%negb_false_iff _].
    apply orb_false_iff in E' as [E3%negb_false_iff E4%negb_false_iff].
    apply Z.eqb_eq in E1. split; [|done]. simpl. rewrite E1. destruct Hb. constructor; simpl; try done. right.
    split_and!; done.
  - unfold handle_get_programs. by case_if.
Qed.

Lemma message_keeps_ok o drain i sent p :
  client_threshold_activation o < 2 ^ 16 -> os_join o = 0 -> 0 <= pl_num_regions (in_payload i) ->
  proc_ok p -> proc_ok (snd (process_guest_message o drain i sent p)).
Proof.
  intros Ht Hj Hn Hp. unfold process_guest_message. destruct (check_message i) as [ret|t]; [done|].
  assert (Ha : proc_ok (after (if refused_while_running t && z2b (running (p_be p)) then error_reply (in_fds i) p
                               else handle o drain t (in_fds i) (in_payload i) p)))
    by (case_if; [done|by apply handle_ok]).
  destruct (if refused_while_running t && _ then _ else _) as [r p'|p']; simpl in Ha |- *; [|done].
  by case_if.
Qed.

Definition example_os : os := mk_os (fun size _ => if size <? 2 ^ 32 then Some 0x700000 else None) 0 0 5 1 0.
Definition example_be : BpfhvBackend :=
  mk_be vring_packed_ops 0 0 0 (mk_map (repeat region_zero 8) 0) 0 0 0 0 0 0 (-1) 0 (repeat queue_zero 16).
Definition example_proc : process := mk_process example_be (mk_batch 0 0 1 0) [].
Definition example_msg (t : BpfhvProxyReqType) (size : Z) (fds : list Z) (pl : BpfhvProxyMsgPayload) : incoming :=
  mk_incoming 12 (mk_hdr (Some t) 1 size) fds size pl.
Definition example_payload : BpfhvProxyMsgPayload :=
  mk_payload 0 (mk_params 1 1 256 512) 1 (repeat (mk_pregion 0x1000 0x100000 0 0) 8) 0 0x1000.

Lemma example_proc_ok : proc_ok example_proc.
Proof.
  split; [|vm_compute; split; congruence].
  constructor; try reflexivity; [left; repeat split| |left; reflexivity|vm_compute; congruence].
  split; [reflexivity|vm_compute; split; congruence].
Defined.

(** ** The life cycle of the packet thread *)

(** A request to enable a direction is accepted exactly when the backend is
    ready, and then the direction is enabled in the status; the backend runs
    afterwards exactly when it ran before or could be activated.  A failed
    activation is not reported: the response carries no error although no
    packet will be processed. *)
Theorem enable_lifecycle o (is_rx : bool) fds p :
  proc_ok p ->
  let flag := if is_rx then BPFHV_STATUS_RX_ENABLED else BPFHV_STATUS_TX_ENABLED in
  exists r p', handle_enable o is_rx fds p = Reply r p' /\ rp_error r = negb (backend_ready (p_be p)) /\
    (rp_error r = true -> p' = p) /\
    (rp_error r = false ->
       status (p_be p') = Z.lor (status (p_be p)) flag /\
       (running (p_be p') = 1 <->
          running (p_be p) = 1 \/
          fst (activate_backend o (with_be (set_stopflag 0 (set_status (Z.lor (status (p_be p)) flag) (p_be p))) p)) = 0)).
Proof.
  intros [Hb _] flag. unfold handle_enable. destruct (backend_ready (p_be p)); simpl; [|by eexists _, _].
  fold flag. destruct (bo_running _ Hb) as [Hr|Hr]; rewrite Hr; simpl.
  2:{ eexists _, _. split_and!; try done. intros _. simpl. rewrite Hr. split; [done|]. split; auto. }
  set (p2 := with_be (set_stopflag 0 (set_status (Z.lor (status (p_be p)) flag) (p_be p))) p).
  change (with_be (set_stopflag 0 _) (with_be _ p)) with p2.
  destruct (activate_backend o p2) as [ret p3] eqn:Ea.
  assert (Ebe : p_be p3 = p_be p2).
  { unfold activate_backend in Ea. repeat case_if_in Ea; simplify_eq/=; done. }
  unfold z2b. destruct (ret =? 0) eqn:Er; zify_bool; simpl; eexists _, _; split_and!; try done.
  - intros _. simpl. rewrite Ebe. split; [done|]. split; auto.
  - intros _. simpl. rewrite Ebe. split; [done|]. simpl. rewrite Hr. split; [done|intros [?|?]; lia].
Qed.

Lemma enable_lifecycle_witness :
  exists r p', handle_enable example_os true [] example_proc = Reply r p' /\ rp_error r = true /\ p' = example_proc.
Proof.
  destruct (enable_lifecycle example_os true [] example_proc example_proc_ok) as (r & p' & H1 & H2 & H3 & _).
  exists r, p'. split; [exact H1|]. split; [exact H2|exact (H3 H2)].
Defined.

(** When the last enabled direction is disabled, the backend stops running,
    the thread is joined and the instance is no longer counted; the pending
    transmissions are not drained, since [backend_stop] reports an error in
    every case. *)
Theorem disable_stops o drain (is_rx : bool) fds p :
  proc_ok p -> os_join o = 0 -> running (p_be p) = 1 ->
  let flag := if is_rx then BPFHV_STATUS_RX_ENABLED else BPFHV_STATUS_TX_ENABLED in
  has_flag (Z.land (status (p_be p)) (u32 (Z.lnot flag))) ENABLED = false ->
  exists r p', handle_disable o drain is_rx fds p = Reply r p' /\ rp_error r = false /\
    running (p_be p') = 0 /\ th_running (p_bc p') = 0 /\
    used_instances (p_bc p') = used_instances (p_bc p) - 1 /\
    forall drain', handle_disable o drain' is_rx fds p = handle_disable o drain is_rx fds p.
Proof.
  intros [Hb Hu] Hj Hr flag Hf. unfold handle_disable. fold flag. simpl. rewrite Hr. unfold ENABLED in Hf. rewrite Hf. simpl.
  set (p1 := with_be (set_status _ _) p). destruct (backend_stop o p1) as [ret p2] eqn:Es.
  pose proof (backend_stop_nonzero o p1) as Hnz. rewrite Es in Hnz. simpl in Hnz.
  destruct (stop_spec _ _ _ _ Es Hj) as (Ebe & Eth & Eu); [by right|done|].
  unfold z2b. rewrite (proj2 (Z.eqb_neq ret 0)) by done. simpl. eexists _, _. split; [done|].
  split_and!; try done; [by rewrite Ebe|rewrite Eu; simpl; lia].
Qed.

Definition example_running : process :=
  mk_process (set_running 1 (set_status BPFHV_STATUS_RX_ENABLED example_be)) (mk_batch 1 0 1 1) [].

Lemma disable_stops_witness :
  exists r p', handle_disable example_os (fun p => p) true [] example_running = Reply r p' /\ running (p_be p') = 0.
Proof.
  assert (Hok : proc_ok example_running).
  { split; [|vm_compute; split; congruence].
    constructor; try reflexivity; [left; repeat split| |right; reflexivity].
    split; [reflexivity|vm_compute; split; congruence]. }
  destruct (disable_stops example_os (fun p => p) true [] example_running Hok eq_refl eq_refl eq_refl)
    as (r & p' & H1 & _ & H2 & _).
  exists r, p'. split; [exact H1|exact H2].
Defined.

(** ** The memory table *)

(** What mmap(2) documents: a mapping is not at the null page and lies in the
    address space. *)
Definition mmap_ok (o : os) : Prop :=
  forall size fd a, 0 <= size -> os_mmap o size fd = Some a -> 0 < a /\ a + size < 2 ^ 64.

(** A region of a message that does not wrap around. *)
Definition pregion_ok (pr : BpfhvProxyMemoryRegion) : Prop :=
  0 <= guest_physical_addr pr /\ 0 <= pr_size pr /\ 0 <= pr_mmap_offset pr /\
  guest_physical_addr pr + pr_size pr < 2 ^ 64 /\ pr_mmap_offset pr + pr_size pr < 2 ^ 64.

Definition installed (pr : BpfhvProxyMemoryRegion) (re : BpfhvBackendMemoryRegion) : Prop :=
  region_ok re /\ gpa_start re = guest_physical_addr pr /\ region_size re = pr_size pr /\
  mmap_addr re + pr_mmap_offset pr = va_start re.

Lemma setup_region_installed o pr fd a :
  mmap_ok o -> pregion_ok pr -> os_mmap o (u64 (pr_mmap_offset pr + pr_size pr)) fd = Some a ->
  installed pr (mk_region (guest_physical_addr pr) (u64 (guest_physical_addr pr + pr_size pr)) (pr_size pr)
                  (hypervisor_virtual_addr pr) (pr_mmap_offset pr) a (u64 (a + pr_mmap_offset pr))).
Proof.
  intros Hm (? & ? & ? & ? & ?) Ha. rewrite u64_id in Ha by (unfold is_u64; lia).
  apply Hm in Ha as [Ha1 Ha2]; [|lia]. unfold installed, region_ok. simpl.
  rewrite !u64_id by (unfold is_u64; lia). lia.
Qed.

Lemma setup_regions_installed o prs : forall i fds table table',
  mmap_ok o -> Forall pregion_ok prs -> length fds = length prs -> (i + length prs <= length table)%nat ->
  setup_regions o i prs fds table = (true, table') ->
  take i table' = take i table /\ Forall2 installed prs (take (length prs) (drop i table')).
Proof.
  induction prs as [|pr prs IH]; intros i fds table table' Hm HF Hl Hi H; simpl in *.
  - destruct fds; injection H as <-; by repeat constructor.
  - destruct fds as [|fd fds]; [done|]. apply list.Forall_cons in HF as [Hpr HF].
    destruct (os_mmap _ _ fd) as [a|] eqn:Ea; [|done].
    pose proof (setup_region_installed _ _ _ _ Hm Hpr Ea) as Hins.
    set (re := mk_region _ _ _ _ _ _ _) in *.
    pose proof (setup_regions_length _ _ _ _ _ _ _ H) as Hlen. rewrite length_insert in Hlen.
    apply IH in H as [Ht H2]; [|done|done|simpl in Hl; lia|rewrite length_insert; lia].
    assert (Hre : table' !! i = Some re).
    { rewrite <- (lookup_take_lt table' (S i) i), Ht, lookup_take_lt by lia.
      apply list_lookup_insert_eq. lia. }
    split.
    + pose proof (f_equal (take i) Ht) as E. rewrite !take_take, !Nat.min_l in E by lia.
      by rewrite E, take_insert_ge.
    + rewrite (drop_S _ _ _ Hre). simpl. by constructor.
Qed.

(** When SET_MEM_TABLE is answered, the table in use holds exactly the
    regions of the message, each mapped where its pages are, and satisfies what
    [translate_addr] relies on; the previous regions were unmapped.  The
    regions are supposed not to wrap around, which the code does not check. *)
Theorem set_mem_table_installs o fds pl p r p' :
  mmap_ok o -> Forall pregion_ok (pl_regions pl) -> length (pl_regions pl) = Z.to_nat BPFHV_PROXY_MAX_REGIONS ->
  1 <= pl_num_regions pl -> handle_set_mem_table o fds pl p = Reply r p' ->
  rp_error r = false /\ mem_ok (be_map (p_be p')) /\
  Forall2 installed (take (Z.to_nat (pl_num_regions pl)) (pl_regions pl)) (live_regions (be_map (p_be p'))) /\
  p_log p' = p_log p ++ unmap_all (be_map (p_be p)).
Proof.
  intros Hm HF Hl Hn. unfold handle_set_mem_table, BPFHV_PROXY_MAX_REGIONS in *.
  case_if; [done|]. case_if; [done|]. zify_bool.
  set (n := Z.to_nat (pl_num_regions pl)) in *. set (prs := take n (pl_regions pl)).
  assert (Hprs : length prs = n) by (unfold prs; rewrite length_take; lia).
  destruct (setup_regions _ _ _ _ _) as [ok table] eqn:E. destruct ok; [|done]. intros [= <- <-]. simpl.
  pose proof (setup_regions_length _ _ _ _ _ _ _ E) as Hlen. rewrite repeat_length in Hlen.
  apply setup_regions_installed in E as [_ E]; [|done|by apply Forall_take|lia|rewrite repeat_length; lia].
  rewrite Hprs in E. simpl in E. rewrite drop_0 in E. split_and!; try done.
  split; [simpl; by rewrite Hlen|]. split; [unfold BPFHV_PROXY_MAX_REGIONS; simpl; lia|].
  unfold live_regions. simpl. apply Forall_lookup. intros k re Hk.
  destruct (Forall2_lookup_r _ _ _ _ _ E Hk) as (pr & _ & Hi). apply Hi.
Qed.

Lemma example_mmap_ok : mmap_ok example_os.
Proof.
  intros size fd a Hs. unfold example_os. simpl.
  destruct (Z.ltb_spec size (2 ^ 32)); [|discriminate]. intros [= <-]. lia.
Defined.

Lemma example_regions_ok : Forall pregion_ok (pl_regions example_payload).
Proof. simpl. repeat (constructor; [unfold pregion_ok; simpl; lia|]). constructor. Defined.

Lemma set_mem_table_installs_witness :
  exists r p', handle_set_mem_table example_os [7] example_payload example_proc = Reply r p' /\
    mem_ok (be_map (p_be p')).
Proof.
  destruct (handle_set_mem_table example_os [7] example_payload example_proc) as [r p'|p'] eqn:E;
    [|vm_compute in E; discriminate].
  exists r, p'. split; [reflexivity|].
  apply (set_mem_table_installs example_os [7] example_payload example_proc r p' example_mmap_ok example_regions_ok
           eq_refl ltac:(vm_compute; discriminate) E).
Defined.

(** The memory table can be replaced while the backend runs: the request
    is accepted, the regions the queue contexts point into are unmapped, and
    the contexts are kept as they are for the packet thread to use. *)
Theorem mem_table_while_running o drain i sent p p' resp :
  check_message i = inr REQ_SET_MEM_TABLE -> running (p_be p) = 1 ->
  process_guest_message o drain i sent p = (0, Some resp, p') ->
  running (p_be p') = 1 /\ be_q (p_be p') = be_q (p_be p) /\ r_flags resp = BPFHV_PROXY_VERSION /\
  forall re, re ∈ live_regions (be_map (p_be p)) ->
    Munmap (mmap_addr re) (u64 (mmap_offset re + region_size re)) ∈ p_log p'.
Proof.
  intros Hc Hr. unfold process_guest_message. rewrite Hc. simpl. unfold handle_set_mem_table.
  case_if; [done|]. case_if; [done|]. destruct (setup_regions _ _ _ _ _) as [ok table]. destruct ok; [|done].
  simpl. case_if; [done|]. intros [= <- <-]. simpl. split_and!; try done.
  intros re Hre. apply elem_of_app. left. apply elem_of_app. right. unfold unmap_all.
  apply list_elem_of_fmap. by exists re.
Qed.

Lemma mem_table_while_running_witness :
  exists resp p', process_guest_message example_os (fun p => p)
      (example_msg REQ_SET_MEM_TABLE sizeof_memory_map [7] example_payload) 12 example_running = (0, Some resp, p') /\
    running (p_be p') = 1.
Proof.
  destruct (process_guest_message example_os (fun p => p)
      (example_msg REQ_SET_MEM_TABLE sizeof_memory_map [7] example_payload) 12 example_running)
    as [[ret resp] p'] eqn:E.
  destruct resp as [resp|]; [|vm_compute in E; discriminate].
  assert (ret = 0) as -> by (vm_compute in E; congruence).
  exists resp, p'. split; [reflexivity|].
  refine (proj1 (mem_table_while_running _ _ _ _ _ _ _ _ _ E)); reflexivity.
Defined.

(** ** Queue contexts *)

(** Whether the [len] bytes at [va] are in a region of the table. *)
Definition mapped (m : mem_map) (va len : Z) : Prop :=
  exists re, re ∈ live_regions m /\ va_start re <= va /\ va + len <= va_start re + region_size re.

Definition ctx_size_of (b : BpfhvBackend) (i : Z) : Z :=
  if i <? num_queue_pairs b then rx_ctx_size (be_ops b) (num_rx_bufs b) else tx_ctx_size (be_ops b) (num_tx_bufs b).

Lemma get_put_q b i q : 0 <= i < Z.of_nat (length (be_q b)) -> get_q i (put_q i q b) = q.
Proof. intros Hi. unfold get_q, put_q. simpl. apply list_lookup_total_insert_eq. lia. Qed.

Definition is_ctx_init (b : BpfhvBackend) (i ctx : Z) (e : effect) : Prop :=
  if i <? num_queue_pairs b then e = RxCtxInit ctx (num_rx_bufs b) else e = TxCtxInit ctx (num_tx_bufs b).

(** SET_QUEUE_CTX either answers with an error and leaves the queues as
    they were, or sets the context of the queue: to NULL for the address 0, and
    otherwise to an address whose whole context, for the negotiated number of
    buffers, is in a region of the table, and that has been initialised. *)
Theorem set_queue_ctx_mapped o fds pl p r p' :
  be_ok (p_be p) -> mem_ok (be_map (p_be p)) ->
  0 <= pl_queue_idx pl -> 0 <= pl_ctx_gpa pl -> 0 <= ctx_size_of (p_be p) (pl_queue_idx pl) ->
  pl_ctx_gpa pl + ctx_size_of (p_be p) (pl_queue_idx pl) < 2 ^ 64 ->
  handle_set_queue_ctx o fds pl p = Reply r p' ->
  mem_ok (be_map (p_be p')) /\
  (rp_error r = true -> be_q (p_be p') = be_q (p_be p)) /\
  (rp_error r = false ->
     let ctx := q_ctx (get_q (pl_queue_idx pl) (p_be p')) in
     if pl_ctx_gpa pl =? 0 then ctx = NULL
     else ctx <> NULL /\ mapped (be_map (p_be p')) ctx (ctx_size_of (p_be p) (pl_queue_idx pl)) /\
          exists e, is_ctx_init (p_be p) (pl_queue_idx pl) ctx e /\ e ∈ p_log p').
Proof.
  intros Hb Hm Hi Hg Hs Hov. unfold handle_set_queue_ctx.
  destruct (num_queues (p_be p) <=? pl_queue_idx pl) eqn:Eq; [by intros [= <- <-]|].
  destruct (_ || _); [by intros [= <- <-]|]. fold (ctx_size_of (p_be p) (pl_queue_idx pl)). zify_bool.
  assert (Hlen : pl_queue_idx pl < Z.of_nat (length (be_q (p_be p)))).
  { rewrite (bo_q _ Hb). destruct (bo_params _ Hb) as [(? & ? & _)|(? & ? & _)]; unfold BPFHV_MAX_QUEUES; lia. }
  destruct (pl_ctx_gpa pl =? 0) eqn:E0; cbn [negb].
  - intros [= <- <-]. simpl. split; [done|]. split; [done|]. intros _. rewrite get_put_q; [done|simpl; lia].
  - destruct (translate_addr _ _ _) as [ctx m] eqn:Et.
    pose proof (translate_addr_ok _ _ _ _ _ Hm Et) as Hm'.
    destruct (ctx =? NULL) eqn:Ec; simpl; [by intros [= <- <-]|]. zify_bool.
    destruct (translate_in_region _ _ _ _ _ Hm Hg Hs Hov Et Ec) as (re & Hre & _ & _ & Hr1 & Hr2).
    destruct (translate_addr_live _ _ _ _ _ Hm Et) as (_ & _ & HP).
    assert (Hmap : mapped m ctx (ctx_size_of (p_be p) (pl_queue_idx pl))).
    { exists re. split; [by rewrite HP|done]. }
    unfold is_ctx_init.
    destruct (pl_queue_idx pl <? num_queue_pairs (p_be p)); [|destruct (has_ctx_init_mark _)];
      intros [= <- <-]; simpl; (split; [done|]); (split; [done|]); intros _;
      rewrite get_put_q by (simpl; lia); simpl; (split; [done|]); (split; [done|]);
      eexists; (split; [reflexivity|]); rewrite ?elem_of_app, ?list_elem_of_singleton; auto.
Qed.

Definition example_tabled : process := after (handle_set_mem_table example_os [7] example_payload
  (after (handle_set_parameters [] example_payload example_proc))).

Lemma example_tabled_ok : be_ok (p_be example_tabled).
Proof.
  apply set_mem_table_ok; [|vm_compute; discriminate]. apply (handle_ok example_os (fun p => p) REQ_SET_PARAMETERS);
    [reflexivity|reflexivity|vm_compute; discriminate|apply example_proc_ok].
Qed.

Lemma set_queue_ctx_mapped_witness :
  exists r p', handle_set_queue_ctx example_os [] example_payload example_tabled = Reply r p' /\
    q_ctx (get_q 0 (p_be p')) = 0x700000 /\ mapped (be_map (p_be p')) 0x700000 (vring_packed_ctx_size 256).
Proof.
  destruct (handle_set_queue_ctx example_os [] example_payload example_tabled) as [r p'|p'] eqn:E;
    [|vm_compute in E; discriminate].
  exists r, p'. split; [reflexivity|].
  assert (Hq : q_ctx (get_q 0 (p_be p')) = 0x700000 /\ rp_error r = false)
    by (vm_compute in E; injection E as <- <-; split; reflexivity).
  destruct Hq as [Hq Hr]. split; [exact Hq|]. rewrite <- Hq.
  refine (proj1 (proj2 (proj2 (proj2 (set_queue_ctx_mapped example_os [] example_payload example_tabled r p' _ _ _ _ _ _ E)) Hr))).
  - apply example_tabled_ok.
  - split; [reflexivity|]. split; [vm_compute; split; discriminate|].
    unfold live_regions. simpl. constructor; [|constructor]. unfold region_ok. vm_compute. repeat split; congruence.
  - vm_compute. discriminate.
  - vm_compute. discriminate.
  - vm_compute. discriminate.
  - vm_compute. reflexivity.
Defined.

(** ** File descriptors

    Every descriptor is owned by exactly one place: the backend holds it, or it
    came with the message, or it was opened for the response. *)

Definition valid_fds (fds : list Z) : list Z := filter (fun fd => 0 <= fd) fds.
Definition held_q (q : be_queue) : list Z := valid_fds [kickfd q; irqfd q].
Definition held (b : BpfhvBackend) : list Z := concat (map held_q (be_q b)) ++ valid_fds [upgrade_fd b].

Definition closed_fd (e : effect) : list Z := match e with Close fd => [fd] | _ => [] end.
Definition closed (log : list effect) : list Z := concat (map closed_fd log).

Definition outcome_out (out : outcome) : list Z := match out with Reply r _ => valid_fds (rp_outfds r) | _ => [] end.

Lemma valid_fds_cons fd fds : valid_fds (fd :: fds) = valid_fds [fd] ++ valid_fds fds.
Proof. unfold valid_fds. rewrite !filter_cons, filter_nil. by case_decide. Qed.

Lemma closed_app l1 l2 : closed (l1 ++ l2) = closed l1 ++ closed l2.
Proof. unfold closed. by rewrite map_app, concat_app. Qed.

Lemma closed_close_all fds : closed (close_all fds) = valid_fds fds.
Proof. unfold closed, close_all, valid_fds. induction (filter _ fds); simpl; congruence. Qed.

Lemma closed_unmap_all m : closed (unmap_all m) = [].
Proof. unfold closed, unmap_all. by induction (take _ _). Qed.

Lemma closed_if fd : closed (if 0 <=? fd then [Close fd] else []) = valid_fds [fd].
Proof. unfold valid_fds. rewrite filter_cons. case_decide; destruct (Z.leb_spec 0 fd); simpl; try done; lia. Qed.

Lemma concat_insert {A B} (f : A -> list B) l i x y :
  l !! i = Some x -> f y ++ concat (map f l) ≡ₚ f x ++ concat (map f (<[i := y]> l)).
Proof.
  revert i. induction l as [|z l IH]; intros [|i]; simpl; try done.
  - intros [= ->]. rewrite !app_assoc. f_equiv. apply Permutation_app_comm.
  - intros Hi. rewrite (Permutation_app_comm (f z)), app_assoc, (IH _ Hi), <- app_assoc.
    by rewrite (Permutation_app_comm _ (f z)).
Qed.

(** What a step of a handler does with the descriptors: the ones held before
    and the ones it takes out of the message are held afterwards or closed. *)
Definition balanced (p : process) (fds : list Z) (p' : process) (fds' : list Z) : Prop :=
  exists log, p_log p' = p_log p ++ log /\
    held (p_be p) ++ valid_fds fds ≡ₚ held (p_be p') ++ valid_fds fds' ++ closed log.

(** A step that closes nothing and leaves the descriptors where they are. *)
Definition fd_neutral (p p' : process) : Prop :=
  held (p_be p') = held (p_be p) /\ exists log, p_log p' = p_log p ++ log /\ closed log = [].

Lemma fd_neutral_balanced p p' fds : fd_neutral p p' -> balanced p fds p' fds.
Proof. intros (Hh & log & Hl & Hc). exists log. by rewrite Hh, Hc, app_nil_r. Qed.

Ltac neutral log := split; [reflexivity|exists log; simpl; rewrite ?app_nil_r, <- ?app_assoc; done].

Lemma balanced_refl p fds : balanced p fds p fds.
Proof. apply fd_neutral_balanced. neutral (@nil effect). Qed.

Lemma held_put_q b i q q' :
  be_q b !! Z.to_nat i = Some q -> held_q q' ++ held b ≡ₚ held_q q ++ held (put_q i q' b).
Proof. intros Hq. unfold held. simpl. by rewrite !app_assoc, (concat_insert held_q _ _ _ q' Hq). Qed.

Lemma set_queue_fd_balanced k fds pl p r p' :
  be_ok (p_be p) -> 0 <= pl_queue_idx pl ->
  handle_set_queue_fd k fds pl p = Reply r p' -> balanced p fds p' (rp_fds r).
Proof.
  intros Hb Hi. unfold handle_set_queue_fd.
  case_if; [by intros [= <- <-]; apply balanced_refl|].
  destruct (1 <? _) eqn:El; [by intros [= <- <-]; apply balanced_refl|]. zify_bool.
  assert (Hlen : (Z.to_nat (pl_queue_idx pl) < length (be_q (p_be p)))%nat).
  { rewrite (bo_q _ Hb). destruct (bo_params _ Hb) as [(? & ? & _)|(? & ? & _)]; unfold BPFHV_MAX_QUEUES; lia. }
  pose proof (list_lookup_lookup_total_lt _ _ Hlen) as Hq.
  fold (get_q (pl_queue_idx pl) (p_be p)) in Hq. set (q := get_q _ _) in *.
  intros [= <- <-]. simpl.
  set (old := if k then kickfd q else irqfd q). set (fd := match fds with [fd] => fd | _ => -1 end).
  set (q' := if k then _ else _).
  exists (if 0 <=? old then [Close old] else []). split; [by destruct (0 <=? old); simpl; rewrite ?app_nil_r|].
  assert (Hfd : valid_fds (steal_first fds) = [] /\ valid_fds fds = valid_fds [fd]).
  { unfold fd. destruct fds as [|? [|]]; simpl in *; [done|done|lia]. }
  destruct Hfd as [-> ->]. simpl.
  pose proof (held_put_q _ _ _ q' Hq) as HP.
  rewrite closed_if. apply (Permutation_app_inv_l (held_q q')). rewrite app_assoc, HP.
  rewrite (Permutation_app_comm (held _) (valid_fds [old])), !app_assoc, (Permutation_app_comm (held_q q' ++ _)).
  rewrite (Permutation_app_comm _ (held _)), <- !app_assoc. f_equiv.
  unfold held_q, q', old. destruct k; simpl; rewrite !(valid_fds_cons _ [_]).
  - rewrite (Permutation_app_comm _ (valid_fds [fd])), (Permutation_app_comm (valid_fds [kickfd q])). by rewrite app_assoc.
  - rewrite <- !app_assoc. f_equiv. apply Permutation_app_comm.
Qed.

Lemma set_upgrade_balanced fds p r p' :
  handle_set_upgrade fds p = Reply r p' -> balanced p fds p' (rp_fds r).
Proof.
  unfold handle_set_upgrade. destruct fds as [|fd [|]]; [by intros [= <- <-]; apply balanced_refl| |
    by intros [= <- <-]; apply balanced_refl].
  set (old := upgrade_fd (p_be p)). intros [= <- <-]. simpl.
  exists (if 0 <=? old then [Close old] else []). split; [by destruct (0 <=? old); simpl; rewrite ?app_nil_r|].
  rewrite closed_if. destruct (0 <=? old); unfold held; simpl; rewrite <- !app_assoc; f_equiv; apply Permutation_app_comm.
Qed.

Lemma activate_neutral o p : fd_neutral p (snd (activate_backend o p)).
Proof.
  unfold activate_backend. case_if; [neutral (@nil effect)|]. case_if; [neutral (@nil effect)|].
  simpl. case_if; [|neutral [UpdateStatusFile]].
  case_if; [neutral [ThreadCreate]|neutral [ThreadCreate; UpdateStatusFile]].
Qed.

Lemma stop_neutral o p : fd_neutral p (snd (backend_stop o p)).
Proof.
  unfold backend_stop. destruct (z2b (th_running (p_bc p))).
  - destruct (z2b (os_join o)) eqn:E; simpl; [rewrite E; neutral [ThreadJoin]|].
    case_if; [neutral [ThreadJoin]|neutral [ThreadJoin; UpdateStatusFile]].
  - simpl. case_if; [neutral (@nil effect)|neutral [UpdateStatusFile]].
Qed.

Lemma enable_neutral o k fds p : fd_neutral p (after (handle_enable o k fds p)).
Proof.
  unfold handle_enable. case_if; [neutral (@nil effect)|]. set (flag := if k then _ else _).
  case_if; [neutral (@nil effect)|]. set (p2 := with_be (set_stopflag 0 _) _). pose proof (activate_neutral o p2) as Hn.
  destruct (activate_backend o p2) as [ret p3]. by case_if.
Qed.

Lemma disable_neutral o drain k fds p : fd_neutral p (after (handle_disable o drain k fds p)).
Proof.
  unfold handle_disable. set (flag := if k then _ else _). case_if; [neutral (@nil effect)|].
  set (p1 := with_be _ p). pose proof (stop_neutral o p1) as Hn. pose proof (backend_stop_nonzero o p1) as Hz.
  destruct (backend_stop o p1) as [ret p3]. simpl in Hz. unfold z2b.
  rewrite (proj2 (Z.eqb_neq ret 0)) by done. exact Hn.
Qed.

Lemma held_set_ctx b i ctx : held (put_q i (set_ctx ctx (get_q i b)) b) = held b.
Proof.
  unfold held. simpl. do 2 f_equal. unfold get_q.
  destruct (decide (Z.to_nat i < length (be_q b))%nat) as [Hi|Hi].
  - pose proof (list_fmap_insert held_q (be_q b) (Z.to_nat i) (set_ctx ctx (be_q b !!! Z.to_nat i))) as E.
    etrans; [exact E|]. apply list_insert_id. apply list_lookup_lookup_total_lt in Hi.
    by rewrite list_lookup_fmap, Hi.
  - by rewrite list_insert_ge by lia.
Qed.

Lemma set_queue_ctx_neutral o fds pl p : fd_neutral p (after (handle_set_queue_ctx o fds pl p)).
Proof.
  unfold handle_set_queue_ctx. case_if; [neutral (@nil effect)|]. case_if; [neutral (@nil effect)|].
  destruct (if negb (pl_ctx_gpa pl =? 0) then _ else _) as [ctx m].
  case_if; [neutral (@nil effect)|]. split.
  - change (held (p_be p)) with (held (set_map m (p_be p))).
    rewrite <- (held_set_ctx (set_map m (p_be p)) (pl_queue_idx pl) ctx). by repeat case_if.
  - simpl. case_if; [exists []; by rewrite app_nil_r|]. case_if; [by eexists [_]|].
    case_if; simpl; [rewrite <- app_assoc; by eexists [_; _]|by eexists [_]].
Qed.

Lemma parameters_neutral fds pl p : fd_neutral p (after (handle_set_parameters fds pl p)).
Proof. unfold handle_set_parameters. repeat case_if; neutral (@nil effect). Qed.

Lemma mem_table_neutral o fds pl p : fd_neutral p (after (handle_set_mem_table o fds pl p)).
Proof.
  unfold handle_set_mem_table. do 2 (case_if; [neutral (@nil effect)|]).
  destruct (setup_regions _ _ _ _ _) as [ok table].
  destruct ok; (split; [reflexivity|]); exists (unmap_all (be_map (p_be p))); auto using closed_unmap_all.
Qed.

(** No other handler changes the array of descriptors. *)
Definition keeps_fds (fds : list Z) (out : outcome) : Prop :=
  match out with Reply r _ => rp_fds r = fds | Return_minus1 _ => True end.

Ltac keeps := repeat first [done | case_match | progress simpl].

Lemma neutral_reply p fds out r p' :
  fd_neutral p (after out) -> keeps_fds fds out -> out = Reply r p' -> balanced p fds p' (rp_fds r).
Proof. intros Hn Hk ->. simpl in *. rewrite Hk. by apply fd_neutral_balanced. Qed.

Lemma handle_balanced o drain t fds pl p r p' :
  be_ok (p_be p) -> 0 <= pl_queue_idx pl ->
  handle o drain t fds pl p = Reply r p' -> balanced p fds p' (rp_fds r).
Proof.
  intros Hb Hi. destruct t; simpl; eauto using set_queue_fd_balanced, set_upgrade_balanced; [done|..];
    apply neutral_reply;
    auto using parameters_neutral, mem_table_neutral, set_queue_ctx_neutral, enable_neutral, disable_neutral.
  all: try (neutral (@nil effect)).
  all: try (unfold handle_set_parameters, handle_get_programs, handle_set_mem_table, handle_set_queue_ctx, handle_enable, handle_disable; keeps).
  all: neutral (@nil effect).
Qed.

(** C31: No descriptor is lost: when a message has been answered, the
    descriptors that the backend held, those that came with the message and
    those opened for the response are, each exactly once, held by the backend
    or closed. *)
Theorem fds_accounted o drain i sent p resp p' :
  be_ok (p_be p) -> 0 <= pl_queue_idx (in_payload i) ->
  process_guest_message o drain i sent p = (0, Some resp, p') ->
  exists log, p_log p' = p_log p ++ log /\
    held (p_be p) ++ valid_fds (in_fds i) ++ valid_fds (r_outfds resp) ≡ₚ held (p_be p') ++ closed log.
Proof.
  intros Hb Hi. unfold process_guest_message. destruct (check_message i) as [?|t]; [done|].
  destruct (if refused_while_running t && _ then _ else _) as [r p1|p1] eqn:E; [|done]. case_if; [done|].
  intros [= <- <-]. simpl.
  assert (Hbal : balanced p (in_fds i) p1 (rp_fds r)).
  { case_if_in E; [injection E as <- <-; apply balanced_refl|by eapply handle_balanced]. }
  destruct Hbal as (log & -> & HP). exists (log ++ close_all (rp_fds r) ++ close_all (rp_outfds r)).
  split; [by rewrite <- app_assoc|]. rewrite !closed_app, !closed_close_all, app_assoc, HP.
  rewrite <- !app_assoc. f_equiv. rewrite !app_assoc. f_equiv. apply Permutation_app_comm.
Qed.

Lemma fds_accounted_witness :
  exists resp p' log,
    process_guest_message example_os (fun p => p) (example_msg REQ_SET_QUEUE_KICK 4 [9] example_payload) 12
      example_tabled = (0, Some resp, p') /\
    p_log p' = p_log example_tabled ++ log /\
    held (p_be example_tabled) ++ [9] ++ [] ≡ₚ held (p_be p') ++ closed log.
Proof.
  destruct (process_guest_message example_os (fun p => p) (example_msg REQ_SET_QUEUE_KICK 4 [9] example_payload) 12
      example_tabled) as [[ret resp] p'] eqn:E.
  destruct resp as [resp|]; [|vm_compute in E; discriminate].
  assert (ret = 0) as -> by (vm_compute in E; congruence).
  assert (valid_fds (r_outfds resp) = []) as Hr by (vm_compute in E; injection E as <- _; reflexivity).
  assert (Hi : 0 <= pl_queue_idx (in_payload (example_msg REQ_SET_QUEUE_KICK 4 [9] example_payload)))
    by (vm_compute; discriminate).
  destruct (fds_accounted _ _ _ _ _ _ _ example_tabled_ok Hi E) as (log & Hl & HP).
  exists resp, p', log. rewrite Hr in HP. split; [reflexivity|]. split; [exact Hl|exact HP].
Defined.

(** ** Draining a transmit queue *)

Lemma drain_queue_ends {A} (txq_drain : A -> Z * A) n :
  (forall a, 0 <= fst (txq_drain a)) ->
  forall fuel d a, n - d < Z.of_nat fuel -> 0 < Z.of_nat fuel ->
  exists d' a', drain_queue txq_drain fuel n d a = Some (d', a') /\ d <= d' /\
    (n <= d' \/ exists a0, txq_drain a0 = (0, a')).
Proof.
  intros Hpos. induction fuel as [|fuel IH]; intros d a Hf H0; [lia|]. simpl.
  pose proof (Hpos a) as Hc. destruct (txq_drain a) as [count a1] eqn:E. simpl in Hc.
  destruct ((n <=? d + count) || (count =? 0)) eqn:Et.
  - exists (d + count), a1. split; [done|]. split; [lia|]. apply orb_true_iff in Et as [Et|Et]; zify_bool; [by left|].
    right. exists a. by rewrite E, Et.
  - apply orb_false_iff in Et as [Et1 Et2]. zify_bool.
    destruct (IH (d + count) a1) as (d' & a' & H1 & H2 & H3); [lia|lia|]. exists d', a'. split_and!; done || lia.
Qed.

(** [backend_drain] ends for every device, after at most as many calls of
    [txq_drain] as the queue has buffers: either it has sent that many packets
    or the last call found the queue empty. *)
Theorem backend_drain_terminates {A} (txq_drain : A -> Z * A) num_tx_bufs a :
  (forall a, 0 <= fst (txq_drain a)) -> 0 < num_tx_bufs ->
  exists drained a', drain_queue txq_drain (S (Z.to_nat num_tx_bufs)) num_tx_bufs 0 a = Some (drained, a') /\
    (num_tx_bufs <= drained \/ exists a0, txq_drain a0 = (0, a')).
Proof.
  intros Hpos Hn. destruct (drain_queue_ends txq_drain num_tx_bufs Hpos (S (Z.to_nat num_tx_bufs)) 0 a)
    as (d & a' & H1 & _ & H2); [lia|lia|]. eauto.
Qed.

Definition example_drain (n : Z) : Z * Z := (Z.max 0 (Z.min n 128), n - Z.max 0 (Z.min n 128)).

Lemma backend_drain_terminates_witness :
  exists drained a', drain_queue example_drain (S (Z.to_nat 256)) 256 0 200 = Some (drained, a') /\
    (256 <= drained \/ exists a0, example_drain a0 = (0, a')).
Proof. apply backend_drain_terminates; [intros a; simpl; lia|lia]. Defined.
