(* ===== verification/ProxySys.v ===== *)
(** * The backend process and its clients

    The server loop of proxy/backend.c ([main_server_select]) over the state of
    all the clients: a connection gets the next instance of the batch
    ([assign_backend]) and its state is set up ([setup_backend]); a message is
    processed on the instance of its sender; an error or the end of the
    connection disconnects the client.  The packet thread is shared by the
    batch. *)

From stdpp Require Import relations.
From S2P Require Import Prelude Abi Backend Sring SringGsoTx SringGsoRx VringPacked Proxy ProxyInv.
Import ProxyOps ProxyMsg.
Open Scope Z_scope.

Module ProxySys.

(** The assignments of [setup_backend], for a backend without a network
    interface of its own; [eventfd] and [fcntl] succeed. *)
Definition setup_backend (dev : device) (opt_offload : Z) (b : BpfhvBackend) : BpfhvBackend :=
  let '(_, _, ops, avail) := select_device dev opt_offload in
  mk_be ops avail 0 (max_rx_pkt_size b) (be_map b) 0 0 0 0 0 0 (-1) 0
    (repeat queue_zero (Z.to_nat BPFHV_MAX_QUEUES)).

(** An entry of [bc->instance] before its use: the structure is in static
    storage. *)
Definition instance_zero : BpfhvBackend :=
  mk_be sring_ops 0 0 0 (mk_map (repeat region_zero (Z.to_nat BPFHV_PROXY_MAX_REGIONS)) 0)
    0 0 0 0 0 0 0 0 (repeat (mk_queue NULL 0 0) (Z.to_nat BPFHV_MAX_QUEUES)).

(** The instances given out so far, which of them still have a connection, and
    the batch. *)
Record system := mk_system {
  s_be : list BpfhvBackend;
  s_conn : list bool;
  s_bc : BpfhvBackendBatch;
  s_log : list effect;
}.

Definition BPFHV_STOPFD_NOEVENT : Z := 0.

Definition initial : system := mk_system [] [] (mk_batch 0 BPFHV_STOPFD_NOEVENT 0 0) [].

(** The size of the array [bc->instance]. *)
Definition BPFHV_MAX_THREAD_INSTANCES : Z := 128 / 1.

(** The entry [i] of the instances given out, the next one if [i] is their
    number. *)
Definition set_instance {A} (i : nat) (x : A) (l : list A) : list A := take i l ++ x :: drop (S i) l.

(** A new connection: in scheduler mode the device is vring_packed.  [None] is a
    write past the array of the instances. *)
Definition accept_client (o : os) (scheduler_mode : bool) (s : system) : option system :=
  match assign_backend o (s_bc s) with
  | (None, _) => Some s
  | (Some i, bc) =>
      if BPFHV_MAX_THREAD_INSTANCES <=? i then None
      else
        let b := setup_backend (if scheduler_mode then VRING_PACKED else SRING) 0 instance_zero in
        Some (mk_system (set_instance (Z.to_nat i) b (s_be s)) (set_instance (Z.to_nat i) true (s_conn s)) bc (s_log s))
  end.

(** A message from client [j]. *)
Definition client_message (o : os) (drain : process -> process) (j : nat) (b : BpfhvBackend) (i : incoming)
    (sent : Z) (s : system) : Z * option response * system :=
  let '(ret, resp, p) := process_guest_message o drain i sent (mk_process b (s_bc s) (s_log s)) in
  (ret, resp, mk_system (<[j := p_be p]> (s_be s)) (if ret <? 0 then <[j := false]> (s_conn s) else s_conn s)
                (p_bc p) (p_log p)).

(** The condition of the loop of the packet thread. *)
Definition spin_many_continues (bc : BpfhvBackendBatch) : bool := bc_stopflag bc =? BPFHV_STOPFD_NOEVENT.

(** The fields of a message that are unsigned. *)
Definition incoming_ok (i : incoming) : Prop :=
  0 <= pl_num_regions (in_payload i) /\ 0 <= pl_queue_idx (in_payload i).

Inductive server_step (o : os) (mode : bool) (drain : process -> process) : system -> system -> Prop :=
| step_accept s s' : accept_client o mode s = Some s' -> server_step o mode drain s s'
| step_message s j b i sent :
    s_conn s !! j = Some true -> s_be s !! j = Some b -> incoming_ok i ->
    server_step o mode drain s (snd (client_message o drain j b i sent s)).

Definition reaches o mode drain : system -> system -> Prop := rtc (server_step o mode drain).

End ProxySys.
Import ProxySys.

(** ** What a message does to the batch *)

(** [r], [bc]: whether the backend of the sender runs, and the batch. *)
Inductive batch_change (o : os) : Z -> BpfhvBackendBatch -> Z -> BpfhvBackendBatch -> Prop :=
| bc_same r bc : batch_change o r bc r bc
| bc_start bc :
    used_instances bc < client_threshold_activation o ->
    batch_change o 0 bc 1
      (mk_batch (if used_instances bc + 1 =? client_threshold_activation o then 1 else th_running bc)
         (bc_stopflag bc) (allocated_instances bc) (used_instances bc + 1))
| bc_stop bc :
    batch_change o 1 bc 0
      (mk_batch 0 (if z2b (th_running bc) then BPFHV_STOPFD_HALT else bc_stopflag bc)
         (allocated_instances bc) (used_instances bc - 1)).

Section calls_succeed.
Context (o : os) (drain : process -> process).
Hypothesis Hcreate : os_create o = 0.
Hypothesis Hjoin : os_join o = 0.
Hypothesis Hthr : client_threshold_activation o < 2 ^ 16.

Definition changes (p p' : process) : Prop :=
  batch_change o (running (p_be p)) (p_bc p) (running (p_be p')) (p_bc p').

Lemma changes_refl p p' : running (p_be p') = running (p_be p) -> p_bc p' = p_bc p -> changes p p'.
Proof. unfold changes. intros -> ->. constructor. Qed.

Lemma enable_changes k fds p : proc_ok p -> changes p (after (handle_enable o k fds p)).
Proof.
  intros [Hb Hu]. unfold handle_enable. case_if; [by apply changes_refl|]. set (flag := if k then _ else _).
  destruct (bo_running _ Hb) as [Hr|Hr]; simpl; rewrite Hr; simpl; [|by apply changes_refl].
  unfold activate_backend. simpl. rewrite Hr, Hcreate. simpl.
  destruct (client_threshold_activation o <=? used_instances (p_bc p)) eqn:E; simpl; [by apply changes_refl|].
  zify_bool. rewrite u16_id by (unfold is_u16; lia).
  pose proof (bc_start o (p_bc p) E) as H. unfold changes.
  destruct (used_instances (p_bc p) + 1 =? client_threshold_activation o); simpl; rewrite Hr; done.
Qed.

Lemma disable_changes k fds p : proc_ok p -> changes p (after (handle_disable o drain k fds p)).
Proof.
  intros [Hb Hu]. unfold handle_disable. set (flag := if k then _ else _).
  destruct (_ || _) eqn:E; [by apply changes_refl|]. apply orb_false_iff in E as [E _]. simpl in *.
  destruct (bo_running _ Hb) as [Hr|Hr]; rewrite Hr in E; [done|]. unfold changes.
  pose proof (bc_stop o (p_bc p)) as H. rewrite Hr in *.
  unfold backend_stop. simpl. rewrite Hjoin. destruct (z2b (th_running (p_bc p))) eqn:Et; simpl;
    rewrite Hr; simpl; rewrite u16_id by (unfold is_u16; lia); [done|].
  unfold z2b in Et. apply negb_false_iff, Z.eqb_eq in Et. by rewrite Et.
Qed.

Lemma handle_changes t fds pl p : proc_ok p -> changes p (after (handle o drain t fds pl p)).
Proof.
  intros Hp. destruct t; simpl; auto using enable_changes, disable_changes; try by apply changes_refl.
  - unfold handle_set_parameters. repeat case_if; by apply changes_refl.
  - unfold handle_get_programs. case_if; by apply changes_refl.
  - unfold handle_set_mem_table. do 2 (case_if; [by apply changes_refl|]).
    destruct (setup_regions _ _ _ _ _) as [[] ?]; by apply changes_refl.
  - unfold handle_set_queue_ctx. do 2 (case_if; [by apply changes_refl|]).
    destruct (if negb (pl_ctx_gpa pl =? 0) then _ else _) as [ctx m].
    repeat case_if; by apply changes_refl.
  - unfold handle_set_queue_fd. do 2 (case_if; [by apply changes_refl|]). simpl. repeat case_if; by apply changes_refl.
  - unfold handle_set_queue_fd. do 2 (case_if; [by apply changes_refl|]). simpl. repeat case_if; by apply changes_refl.
  - unfold handle_set_upgrade. destruct fds as [|fd [|]]; try by apply changes_refl.
    simpl. case_if; by apply changes_refl.
Qed.

Lemma message_changes i sent p :
  proc_ok p -> changes p (snd (process_guest_message o drain i sent p)).
Proof.
  intros Hp. unfold process_guest_message. destruct (check_message i) as [?|t]; [by apply changes_refl|].
  assert (Ha : changes p (after (if refused_while_running t && z2b (running (p_be p)) then error_reply (in_fds i) p
                                 else handle o drain t (in_fds i) (in_payload i) p)))
    by (case_if; [by apply changes_refl|by apply handle_changes]).
  destruct (if refused_while_running t && _ then _ else _) as [r p'|p']; simpl in Ha |- *; [|done].
  by case_if.
Qed.

End calls_succeed.

(** A message allocates no instance. *)
Definition alloc_kept (p p' : process) : Prop := allocated_instances (p_bc p') = allocated_instances (p_bc p).

Lemma activate_alloc o p : alloc_kept p (snd (activate_backend o p)).
Proof. unfold activate_backend. repeat (case_if; try done). Qed.

Lemma stop_alloc o p : alloc_kept p (snd (backend_stop o p)).
Proof. unfold backend_stop. destruct (z2b (th_running (p_bc p))), (z2b (os_join o)) eqn:E; simpl; rewrite ?E; simpl; try case_if; done. Qed.

Lemma enable_alloc o k fds p : alloc_kept p (after (handle_enable o k fds p)).
Proof.
  unfold handle_enable. case_if; [done|]. set (flag := if k then _ else _). cbv zeta. case_if; [done|].
  set (p1 := with_be _ (with_be _ p)). pose proof (activate_alloc o p1) as Ha. destruct (activate_backend o p1) as [ret p2]. by case_if.
Qed.

Lemma disable_alloc o drain k fds p : alloc_kept p (after (handle_disable o drain k fds p)).
Proof.
  unfold handle_disable. set (flag := if k then _ else _). cbv zeta. case_if; [done|]. set (p1 := with_be _ p).
  pose proof (stop_alloc o p1) as Ha. pose proof (backend_stop_nonzero o p1) as Hnz. destruct (backend_stop o p1) as [ret p2].
  unfold z2b. simpl in Hnz. by rewrite (proj2 (Z.eqb_neq ret 0)) by done.
Qed.

Lemma handle_alloc o drain t fds pl p : alloc_kept p (after (handle o drain t fds pl p)).
Proof.
  destruct t; simpl; auto using enable_alloc, disable_alloc; try done.
  - unfold handle_set_parameters. by repeat case_if.
  - unfold handle_get_programs. by case_if.
  - unfold handle_set_mem_table. do 2 (case_if; [done|]). by destruct (setup_regions _ _ _ _ _) as [[] ?].
  - unfold handle_set_queue_ctx. do 2 (case_if; [done|]). destruct (if negb (pl_ctx_gpa pl =? 0) then _ else _) as [ctx m]. by repeat case_if.
  - unfold handle_set_queue_fd. do 2 (case_if; [done|]). simpl. by repeat case_if.
  - unfold handle_set_queue_fd. do 2 (case_if; [done|]). simpl. by repeat case_if.
  - unfold handle_set_upgrade. destruct fds as [|fd [|]]; try done. simpl. by case_if.
Qed.

Lemma message_alloc o drain i sent p : alloc_kept p (snd (process_guest_message o drain i sent p)).
Proof.
  unfold process_guest_message. destruct (check_message i) as [?|t]; [done|].
  assert (Ha : alloc_kept p (after (if refused_while_running t && z2b (running (p_be p)) then error_reply (in_fds i) p
                                 else handle o drain t (in_fds i) (in_payload i) p))) by (case_if; [done|apply handle_alloc]).
  destruct (if refused_while_running t && _ then _ else _) as [r p'|p']; simpl in Ha |- *; [|done]. by case_if.
Qed.

(** ** The invariant of the process *)

Definition running_count (bs : list BpfhvBackend) : Z := foldr (fun b a => running b + a) 0 bs.

Lemma running_count_app bs bs' : running_count (bs ++ bs') = running_count bs + running_count bs'.
Proof. unfold running_count. induction bs as [|b bs IH]; simpl; [done|]. rewrite IH. lia. Qed.

Lemma running_count_insert bs j b b' :
  bs !! j = Some b -> running_count (<[j := b']> bs) = running_count bs - running b + running b'.
Proof.
  revert j. induction bs as [|x bs IH]; intros [|j]; simpl; try done.
  - intros [= ->]. lia.
  - intros H. rewrite (IH _ H). lia.
Qed.

Lemma running_count_ge bs j b : Forall be_ok bs -> bs !! j = Some b -> running b <= running_count bs.
Proof.
  intros HF Hj. assert (Hnn : forall l, Forall be_ok l -> 0 <= running_count l).
  { intros l. induction 1 as [|x l Hx Hl IH]; simpl; [lia|]. destruct (bo_running _ Hx); lia. }
  rewrite <- (take_drop_middle _ _ _ Hj), running_count_app. simpl.
  pose proof (Hnn _ (Forall_take _ _ _ HF) : 0 <= running_count (take j bs)).
  pose proof (Hnn _ (Forall_drop _ _ _ HF) : 0 <= running_count (drop (S j) bs)). lia.
Qed.

Record sys_ok (o : os) (s : system) : Prop := {
  so_len : length (s_conn s) = length (s_be s);
  so_alloc : allocated_instances (s_bc s) = Z.of_nat (length (s_be s)) /\
             Z.of_nat (length (s_be s)) <= client_threshold_activation o;
  so_be : Forall be_ok (s_be s);
  so_used : used_instances (s_bc s) = running_count (s_be s) /\
            running_count (s_be s) <= client_threshold_activation o;
  so_th : th_running (s_bc s) = b2z (used_instances (s_bc s) =? client_threshold_activation o);
}.

Lemma setup_backend_ok dev opt b :
  length (regions (be_map b)) = Z.to_nat BPFHV_PROXY_MAX_REGIONS ->
  0 <= num_regions (be_map b) <= BPFHV_PROXY_MAX_REGIONS -> be_ok (setup_backend dev opt b).
Proof.
  intros Hl Hn. unfold setup_backend. destruct (select_device dev opt) as [[[? ?] ops] avail].
  constructor; simpl; try done; [apply Z.land_0_r|by left; repeat split|by left].
Qed.

Lemma setup_backend_running dev opt b : running (setup_backend dev opt b) = 0.
Proof. unfold setup_backend. by destruct (select_device dev opt) as [[[? ?] ?] ?]. Qed.

Lemma set_instance_end {A} (x : A) l : set_instance (length l) x l = l ++ [x].
Proof. unfold set_instance. rewrite take_ge, drop_ge by lia. done. Qed.

(** What a connection does when the instances are given out in order. *)
Lemma accept_inv o mode s s' :
  allocated_instances (s_bc s) = Z.of_nat (length (s_be s)) -> length (s_conn s) = length (s_be s) -> accept_client o mode s = Some s' ->
  (s' = s /\ client_threshold_activation o <= allocated_instances (s_bc s)) \/
  (allocated_instances (s_bc s) < client_threshold_activation o /\ allocated_instances (s_bc s) < BPFHV_MAX_THREAD_INSTANCES /\
   s' = mk_system (s_be s ++ [setup_backend (if mode then VRING_PACKED else SRING) 0 instance_zero]) (s_conn s ++ [true])
          (mk_batch (th_running (s_bc s)) (bc_stopflag (s_bc s)) (u16 (allocated_instances (s_bc s) + 1)) (used_instances (s_bc s))) (s_log s)).
Proof.
  intros Ha Hl. unfold accept_client, assign_backend. destruct (Z.ltb_spec (allocated_instances (s_bc s)) (client_threshold_activation o)) as [Hlt|Hge];
    [|intros [= <-]; left; by split].
  destruct (Z.leb_spec BPFHV_MAX_THREAD_INSTANCES (allocated_instances (s_bc s))); [done|]. intros [= <-]. right. split; [done|]. split; [done|].
  rewrite Ha, Nat2Z.id, set_instance_end, <- Hl, set_instance_end. done.
Qed.

Lemma accept_defined o mode s :
  client_threshold_activation o <= BPFHV_MAX_THREAD_INSTANCES -> is_Some (accept_client o mode s).
Proof.
  intros Ht. unfold accept_client, assign_backend. case_if; [|by eexists]. zify_bool. rewrite (proj2 (Z.leb_gt _ _)) by lia. by eexists.
Qed.

(** assign_backend does not look at the size of the array: with a threshold
    above it, the connection that follows the last entry is written past the
    end. *)
Theorem accept_overruns o mode s :
  allocated_instances (s_bc s) = BPFHV_MAX_THREAD_INSTANCES -> BPFHV_MAX_THREAD_INSTANCES < client_threshold_activation o ->
  accept_client o mode s = None.
Proof.
  intros Ha Ht. unfold accept_client, assign_backend. rewrite Ha, (proj2 (Z.ltb_lt _ _)) by done. by rewrite Z.leb_refl.
Qed.

Section system.
Context (o : os) (mode : bool) (drain : process -> process).
Hypothesis Hcreate : os_create o = 0.
Hypothesis Hjoin : os_join o = 0.
Hypothesis Hthr : 0 < client_threshold_activation o < 2 ^ 16.

Lemma initial_ok : sys_ok o initial.
Proof.
  constructor; [done|split; [done|simpl; lia]|constructor|split; [done|simpl; lia]|].
  change (0 = b2z (0 =? client_threshold_activation o)). by rewrite (proj2 (Z.eqb_neq 0 _)) by lia.
Qed.

Lemma accept_ok s s' : sys_ok o s -> accept_client o mode s = Some s' -> sys_ok o s'.
Proof.
  intros [Hl Ha Hb Hu Ht] E. destruct (accept_inv o mode s s' (proj1 Ha) Hl E) as [[-> _]|(Hlt & _ & ->)]; [by constructor|].
  assert (Hnew : be_ok (setup_backend (if mode then VRING_PACKED else SRING) 0 instance_zero))
    by (apply setup_backend_ok; [reflexivity|by vm_compute]).
  pose proof (setup_backend_running (if mode then VRING_PACKED else SRING) 0 instance_zero) as Hrun.
  set (b := setup_backend _ _ _) in *. clearbody b.
  constructor; simpl; rewrite ?length_app, ?running_count_app; simpl; [lia| | | |done].
  - rewrite u16_id by (unfold is_u16; lia). lia.
  - apply Forall_app. split; [done|]. constructor; [done|constructor].
  - lia.
Qed.

Lemma sender_ok s j b : sys_ok o s -> s_be s !! j = Some b -> proc_ok (mk_process b (s_bc s) (s_log s)).
Proof.
  intros [Hl Ha Hb Hu Ht] Hj. split; simpl; [by eapply Forall_lookup_1|].
  pose proof (running_count_ge _ _ _ Hb Hj). lia.
Qed.

Lemma change_ok s j b b' conn bc log :
  sys_ok o s -> s_be s !! j = Some b -> be_ok b' -> length conn = length (s_conn s) ->
  batch_change o (running b) (s_bc s) (running b') bc ->
  sys_ok o (mk_system (<[j := b']> (s_be s)) conn bc log).
Proof.
  intros [Hl Ha Hb Hu Ht] Hj Hb' Hc Hch.
  assert (Halloc : allocated_instances bc = allocated_instances (s_bc s)) by (by inversion Hch).
  constructor; simpl; rewrite ?length_insert, ?(running_count_insert _ _ _ _ Hj); [congruence|by rewrite Halloc| | |].
  - by apply Forall_insert.
  - inversion Hch; subst; simpl in *; lia.
  - inversion Hch as [r bc'|bc' Hlt|bc']; subst; simpl; [done| |].
    + rewrite Ht, (proj2 (Z.eqb_neq (used_instances _) _)) by lia. by case_if.
    + by rewrite (proj2 (Z.eqb_neq _ _)) by lia.
Qed.

Lemma message_ok s j b i sent :
  sys_ok o s -> s_be s !! j = Some b -> incoming_ok i ->
  sys_ok o (snd (client_message o drain j b i sent s)).
Proof.
  intros Hs Hj [Hi1 Hi2]. pose proof (sender_ok _ _ _ Hs Hj) as Hp. unfold client_message.
  pose proof (message_changes o drain Hcreate Hjoin ltac:(lia) i sent _ Hp) as Hch.
  pose proof (message_keeps_ok o drain i sent _ ltac:(lia) Hjoin Hi1 Hp) as [Hb _].
  destruct (process_guest_message _ _ _ _ _) as [[ret resp] p]. simpl in *.
  eapply change_ok; try done. case_if; by rewrite ?length_insert.
Qed.

Lemma step_ok s s' : sys_ok o s -> server_step o mode drain s s' -> sys_ok o s'.
Proof. intros Hs. destruct 1; eauto using accept_ok, message_ok. Qed.

Lemma reaches_ok s s' : sys_ok o s -> reaches o mode drain s s' -> sys_ok o s'.
Proof. intros Hs. induction 1; eauto using step_ok. Qed.

End system.

(** C29: For a threshold on the number of clients (option -w) of 1 to 128, the
    size of the array of instances (main accepts any positive number, and the
    129th connection is then written past the array, [accept_overruns]), and
    when [pthread_create] and [pthread_join] do not fail.  Whatever messages the
    clients send, well formed or not, in any order and with any connections and
    disconnections: a new connection is refused or gets an entry of the array,
    the features selected by every client are among those available, its queue
    parameters are unset or powers of two within bounds, its tables keep their
    size, and it runs only with a direction enabled; the instances counted as
    used are exactly the clients that run, never more than the threshold; and
    the packet thread exists exactly when the threshold is reached. *)
Theorem server_invariant o mode drain s :
  os_create o = 0 -> os_join o = 0 -> 0 < client_threshold_activation o <= BPFHV_MAX_THREAD_INSTANCES ->
  reaches o mode drain initial s ->
  is_Some (accept_client o mode s) /\ Z.of_nat (length (s_be s)) <= BPFHV_MAX_THREAD_INSTANCES /\
  Forall be_ok (s_be s) /\ used_instances (s_bc s) = running_count (s_be s) /\
  running_count (s_be s) <= client_threshold_activation o /\
  (th_running (s_bc s) = 1 <-> running_count (s_be s) = client_threshold_activation o).
Proof.
  intros Hc Hj Ht Hs. change BPFHV_MAX_THREAD_INSTANCES with 128 in *. assert (Ht' : 0 < client_threshold_activation o < 2 ^ 16) by lia.
  destruct (reaches_ok o mode drain Hc Hj Ht' _ _ (initial_ok o Ht') Hs) as [_ [_ Hl] Hb [Hu Hle] Hth].
  rewrite Hu in Hth. split; [apply accept_defined; apply Ht|]. split; [lia|]. split_and!; try done. rewrite Hth.
  destruct (Z.eqb_spec (running_count (s_be s)) (client_threshold_activation o)); simpl; split; done || lia.
Qed.

(** The messages of [msgs] from client 0, each with its queue. *)
Definition play (msgs : list (BpfhvProxyReqType * Z * list Z * Z * Z)) (s : system) : system :=
  foldl (fun s '(t, size, fds, q, sent) =>
           let pl := mk_payload 0 (mk_params 1 1 256 512) 1 (repeat (mk_pregion 0x1000 0x100000 0 0) 8) q 0x1000 in
           match s_conn s !! 0%nat, s_be s !! 0%nat with
           | Some true, Some b => snd (client_message example_os (fun p => p) 0 b (example_msg t size fds pl) sent s)
           | _, _ => s
           end) s msgs.

Definition handshake : list (BpfhvProxyReqType * Z * list Z * Z * Z) :=
  [(REQ_SET_PARAMETERS, 16, [], 0, 20); (REQ_SET_MEM_TABLE, sizeof_memory_map, [7], 0, 12);
   (REQ_SET_QUEUE_CTX, 16, [], 0, 12); (REQ_SET_QUEUE_CTX, 16, [], 1, 12);
   (REQ_SET_QUEUE_KICK, 4, [9], 0, 12); (REQ_SET_QUEUE_KICK, 4, [10], 1, 12);
   (REQ_SET_QUEUE_IRQ, 4, [11], 0, 12); (REQ_SET_QUEUE_IRQ, 4, [12], 1, 12); (REQ_TX_ENABLE, 0, [], 0, 12)].

Definition connected : system := default initial (accept_client example_os true initial).
Definition started : system := play handshake connected.
Definition stopped : system := play [(REQ_TX_DISABLE, 0, [], 0, 12)] started.

Lemma play_reaches msgs s :
  Forall (fun m => 0 <= snd (fst m)) msgs -> reaches example_os true (fun p => p) s (play msgs s).
Proof.
  intros HF. revert s. induction HF as [|[[[[t size] fds] q] sent] msgs Hq HF IH]; intros s; [apply rtc_refl|].
  simpl. destruct (s_conn s !! 0%nat) as [[]|] eqn:Ec; [|apply IH|apply IH].
  destruct (s_be s !! 0%nat) as [b|] eqn:Eb; [|apply IH].
  eapply rtc_l; [|apply IH]. apply step_message; [exact Ec|exact Eb|]. split; simpl; [lia|exact Hq].
Defined.

#[export] Instance backend_inhabited : Inhabited BpfhvBackend := populate instance_zero.

Lemma first_client s : length (s_be s) = 1%nat -> s_be s !! 0%nat = Some (s_be s !!! 0%nat).
Proof. intros H. apply list_lookup_lookup_total_lt. rewrite H. apply Nat.lt_0_1. Defined.

Lemma play_one t size fds q sent s b :
  s_conn s !! 0%nat = Some true -> s_be s !! 0%nat = Some b -> 0 <= q ->
  server_step example_os true (fun p => p) s (play [(t, size, fds, q, sent)] s).
Proof.
  intros Hc Hb Hq. unfold play. cbn [foldl]. rewrite Hc, Hb.
  apply step_message; [exact Hc|exact Hb|]. split; simpl; [lia|exact Hq].
Defined.

Lemma started_reached : reaches example_os true (fun p => p) initial started.
Proof.
  eapply rtc_l; [apply (step_accept _ _ _ initial connected); vm_compute; reflexivity|]. apply play_reaches.
  repeat (constructor; [vm_compute; discriminate|]). constructor.
Defined.

Lemma server_invariant_witness :
  th_running (s_bc started) = 1 /\ running_count (s_be started) = client_threshold_activation example_os.
Proof.
  assert (H : th_running (s_bc started) = 1) by (vm_compute; reflexivity). split; [exact H|].
  assert (Ht : 0 < client_threshold_activation example_os <= BPFHV_MAX_THREAD_INSTANCES) by (split; [reflexivity|discriminate]).
  exact (proj1 (proj2 (proj2 (proj2 (proj2 (proj2 (server_invariant example_os true (fun p => p) started eq_refl eq_refl
           Ht started_reached)))))) H).
Defined.

(** ** Stopping the packet thread *)

Lemma change_stopflag o r bc r' bc' :
  batch_change o r bc r' bc' ->
  (bc_stopflag bc = BPFHV_STOPFD_HALT -> bc_stopflag bc' = BPFHV_STOPFD_HALT) /\
  (th_running bc = 1 -> th_running bc' = 0 -> bc_stopflag bc' = BPFHV_STOPFD_HALT).
Proof.
  intros [|? Hlt|]; simpl; split; intros E; try done; try congruence.
  - rewrite E. by case_if.
  - by case_if.
  - by rewrite E.
Qed.

Lemma step_stopflag o mode drain s s' :
  os_create o = 0 -> os_join o = 0 -> 0 < client_threshold_activation o < 2 ^ 16 -> sys_ok o s ->
  server_step o mode drain s s' ->
  (bc_stopflag (s_bc s) = BPFHV_STOPFD_HALT -> bc_stopflag (s_bc s') = BPFHV_STOPFD_HALT) /\
  (th_running (s_bc s) = 1 -> th_running (s_bc s') = 0 -> bc_stopflag (s_bc s') = BPFHV_STOPFD_HALT).
Proof.
  intros Hc Hj Ht Hs Hst. destruct Hst as [s s' E|s j b i sent Hconn Hb Hi].
  - destruct (accept_inv _ _ _ _ (proj1 (so_alloc _ _ Hs)) (so_len _ _ Hs) E) as [[-> _]|(_ & _ & ->)]; simpl; split; congruence.
  - pose proof (message_changes o drain Hc Hj ltac:(lia) i sent _ (sender_ok o Ht _ _ _ Hs Hb)) as Hch.
    unfold client_message. destruct (process_guest_message _ _ _ _ _) as [[ret resp] p]. simpl in *.
    by apply change_stopflag in Hch.
Qed.

(** The packet thread can be stopped but never started again: a stop
    leaves the stop flag of the batch set, no message resets it (enabling a
    backend resets the flag of the backend, which the thread does not read), so
    that the loop of any thread created later ends before its first turn. *)
Theorem stopped_for_good o mode drain s s1 s2 :
  os_create o = 0 -> os_join o = 0 -> 0 < client_threshold_activation o < 2 ^ 16 ->
  reaches o mode drain initial s -> th_running (s_bc s) = 1 ->
  server_step o mode drain s s1 -> th_running (s_bc s1) = 0 -> reaches o mode drain s1 s2 ->
  spin_many_continues (s_bc s2) = false.
Proof.
  intros Hc Hj Ht Hs Hrun Hstep Hstop Hs2.
  pose proof (reaches_ok o mode drain Hc Hj Ht _ _ (initial_ok o Ht) Hs) as Hok.
  pose proof (proj2 (step_stopflag _ _ _ _ _ Hc Hj Ht Hok Hstep) Hrun Hstop) as Hhalt.
  assert (Hok1 : sys_ok o s1) by eauto using step_ok.
  enough (bc_stopflag (s_bc s2) = BPFHV_STOPFD_HALT) as H by (unfold spin_many_continues; by rewrite H).
  clear - Hc Hj Ht Hs2 Hhalt Hok1. induction Hs2 as [|x y z Hxy Hyz IH]; [done|].
  apply IH; [exact (proj1 (step_stopflag _ _ _ _ _ Hc Hj Ht Hok1 Hxy) Hhalt)|eauto using step_ok].
Qed.

Definition restarted : system := play [(REQ_TX_ENABLE, 0, [], 0, 12)] stopped.

Lemma stopped_for_good_witness :
  th_running (s_bc restarted) = 1 /\ map running (s_be restarted) = [1] /\ spin_many_continues (s_bc restarted) = false.
Proof.
  split; [vm_compute; reflexivity|]. split; [vm_compute; reflexivity|].
  assert (Hstep : server_step example_os true (fun p => p) started stopped).
  { apply (play_one _ _ _ _ _ _ (s_be started !!! 0%nat)); [vm_compute; reflexivity|apply first_client|vm_compute; discriminate].
    vm_compute. reflexivity. }
  assert (Hre : reaches example_os true (fun p => p) stopped restarted).
  { apply play_reaches. constructor; [vm_compute; discriminate|constructor]. }
  refine (stopped_for_good example_os true (fun p => p) started stopped restarted
            eq_refl eq_refl (conj eq_refl eq_refl) started_reached _ Hstep _ Hre); vm_compute; reflexivity.
Defined.

(** ** Clients that go away *)

Lemma step_disconnected o mode drain s s' j :
  sys_ok o s -> server_step o mode drain s s' -> s_conn s !! j = Some false ->
  s_conn s' !! j = Some false /\ s_be s' !! j = s_be s !! j.
Proof.
  intros Hs Hst Hj. pose proof (so_len _ _ Hs) as Hl. destruct Hst as [s s' E|s k b i sent Hk Hb Hi].
  - destruct (accept_inv _ _ _ _ (proj1 (so_alloc _ _ Hs)) Hl E) as [[-> _]|(_ & _ & ->)]; simpl; [done|].
    pose proof (lookup_lt_Some _ _ _ Hj). rewrite !lookup_app_l by lia. done.
  - unfold client_message. destruct (process_guest_message _ _ _ _ _) as [[ret resp] p]. simpl.
    assert (Hne : k <> j) by (intros ->; congruence).
    rewrite list_lookup_insert_ne by done. case_if; rewrite ?list_lookup_insert_ne by done; done.
Qed.

(** A client that disconnects, whatever its state, is never cleaned up:
    its backend keeps its state for ever; one that was running stays in the
    count of the instances in use, and the packet thread keeps processing the
    queues in its memory. *)
Theorem disconnected_keeps_running o mode drain s s' j b :
  os_create o = 0 -> os_join o = 0 -> 0 < client_threshold_activation o < 2 ^ 16 ->
  reaches o mode drain initial s -> s_conn s !! j = Some false -> s_be s !! j = Some b ->
  reaches o mode drain s s' ->
  s_be s' !! j = Some b /\ running b <= used_instances (s_bc s').
Proof.
  intros Hc Hj Ht Hs Hd Hb Hs'.
  pose proof (reaches_ok o mode drain Hc Hj Ht _ _ (initial_ok o Ht) Hs) as Hok.
  pose proof (reaches_ok o mode drain Hc Hj Ht _ _ Hok Hs') as [_ _ HF [Hu _] _].
  enough (s_be s' !! j = Some b) as Hb'.
  { split; [done|]. rewrite Hu. by eapply running_count_ge. }
  clear - Hc Hj Ht Hok Hd Hb Hs'. revert Hok Hd Hb.
  induction Hs' as [|x y z Hxy Hyz IH]; intros Hok Hd Hb; [done|].
  destruct (step_disconnected _ _ _ _ _ _ Hok Hxy Hd) as (Hd' & Hb'). apply IH; [eauto using step_ok|congruence..].
Qed.

Definition gone : system :=
  snd (client_message example_os (fun p => p) 0 (s_be started !!! 0%nat)
         (mk_incoming 0 (mk_hdr None 0 0) [] 0 example_payload) 0 started).

Lemma disconnected_keeps_running_witness :
  running (s_be gone !!! 0%nat) = 1 /\ running (s_be gone !!! 0%nat) <= used_instances (s_bc gone).
Proof.
  assert (Hgone : reaches example_os true (fun p => p) initial gone).
  { eapply rtc_r; [apply started_reached|].
    apply step_message; [vm_compute; reflexivity|apply first_client; vm_compute; reflexivity|].
    split; vm_compute; discriminate. }
  assert (Hconn : s_conn gone !! 0%nat = Some false) by (vm_compute; reflexivity).
  assert (Hbe : s_be gone !! 0%nat = Some (s_be gone !!! 0%nat)) by (apply first_client; vm_compute; reflexivity).
  split; [vm_compute; reflexivity|].
  exact (proj2 (disconnected_keeps_running example_os true (fun p => p) gone gone 0 _
            eq_refl eq_refl (conj eq_refl eq_refl) Hgone Hconn Hbe (rtc_refl _ _))).
Defined.

(** With a threshold of 200, the connection after the 128th. *)
Lemma accept_overruns_witness :
  accept_client (mk_os (fun _ _ => None) 0 0 5 200 0) true (mk_system [] [] (mk_batch 0 BPFHV_STOPFD_NOEVENT 128 0) []) = None.
Proof. apply accept_overruns; reflexivity. Defined.
