(* ===== verification/DnHeap.v ===== *)
(** * The binary heap of dummynet

    sched16/dn_heap.c and dn_heap.h: an array heap of key/object pairs that can
    also store the position of an object in the object itself, so that the
    object can be extracted from the middle.  Keys are compared by the sign of
    their 64-bit difference, which orders them as long as they all lie in a
    window of half the range. *)

From stdpp Require Import gmap.
From S2P Require Import Prelude.
Open Scope Z_scope.

Module DnHeap.

(** ** Keys *)

Definition DN_KEY_LT (a b : Z) : bool := s64 (u64 (a - b)) <? 0.
Definition DN_KEY_LEQ (a b : Z) : bool := s64 (u64 (a - b)) <=? 0.

(** ** The heap *)

Record dn_heap_entry := mk_entry { key : Z; object : Z }.
Definition entry_zero : dn_heap_entry := mk_entry 0 0.
#[export] Instance entry_inhabited : Inhabited dn_heap_entry := populate entry_zero.

Record dn_heap := mk_heap {
  h_size : Z;
  elements : Z;
  h_ofs : Z;
  h_p : list dn_heap_entry;
}.

Definition heap_zero : dn_heap := mk_heap 0 0 0 [].

(** The position fields of the objects, by object. *)
Abbreviation positions := (gmap Z Z).

Definition set_elements n h := mk_heap (h_size h) n (h_ofs h) (h_p h).
Definition set_p p h := mk_heap (h_size h) (elements h) (h_ofs h) p.

Definition get (p : list dn_heap_entry) (i : Z) : dn_heap_entry := p !!! Z.to_nat i.
Definition put (p : list dn_heap_entry) (i : Z) (e : dn_heap_entry) : list dn_heap_entry := <[Z.to_nat i := e]> p.

Definition HEAP_FATHER (x : Z) : Z := (x - 1) / 2.
Definition HEAP_LEFT (x : Z) : Z := x + x + 1.
Definition HEAP_SWAP (p : list dn_heap_entry) (a b : Z) : list dn_heap_entry :=
  put (put p a (get p b)) b (get p a).

Definition SET_OFFSET (ofs : Z) (p : list dn_heap_entry) (i : Z) (pos : positions) : positions :=
  if 0 <? ofs then <[object (get p i) := i]> pos else pos.
Definition RESET_OFFSET (ofs : Z) (p : list dn_heap_entry) (i : Z) (pos : positions) : positions :=
  if 0 <? ofs then <[object (get p i) := -16]> pos else pos.

Definition HEAP_TOP (h : dn_heap) : dn_heap_entry := get (h_p h) 0.

(** [new_size |= new_size >> 1; ...] *)
Definition round_up (x : Z) : Z :=
  fold_left (fun n s => u32 (Z.lor n (Z.shiftr n s))) [1; 2; 4; 8; 16] x.

(** [heap_resize]; [malloc] tells whether the allocation of so many entries
    succeeds.  The entries added hold whatever [malloc] returned. *)
Definition heap_resize (malloc : Z -> bool) (h : dn_heap) (new_size : Z) : Z * dn_heap :=
  if new_size <=? h_size h then (0, h)
  else
    let new_size := round_up new_size in
    if negb (malloc new_size) then (1, h)
    else
      let old := if 0 <? h_size h then take (Z.to_nat (h_size h)) (h_p h) else [] in
      let p := old ++ repeat entry_zero (Z.to_nat new_size - length old) in
      (0, mk_heap new_size (elements h) (h_ofs h) p).

Definition heap_init (malloc : Z -> bool) (h : dn_heap) (size ofs : Z) : Z * dn_heap :=
  let '(ret, h) := heap_resize malloc h size in
  if z2b ret then (1, h) else (0, mk_heap (h_size h) 0 ofs (h_p h)).

(** The loop of [heap_insert], which moves the entry at [son] up.  The father
    is below the son, so that [S son] turns are enough. *)
Fixpoint bubble_up (fuel : nat) (ofs : Z) (p : list dn_heap_entry) (pos : positions) (son : Z)
    : list dn_heap_entry * positions :=
  match fuel with
  | O => (p, pos)
  | S fuel' =>
      if 0 <? son then
        let father := HEAP_FATHER son in
        if DN_KEY_LT (key (get p father)) (key (get p son)) then (p, SET_OFFSET ofs p son pos)
        else
          let p := HEAP_SWAP p son father in
          bubble_up fuel' ofs p (SET_OFFSET ofs p son pos) father
      else (p, SET_OFFSET ofs p son pos)
  end.

Definition bubble (h : dn_heap) (son : Z) (pos : positions) : dn_heap * positions :=
  let '(p, pos) := bubble_up (S (Z.to_nat son)) (h_ofs h) (h_p h) pos son in (set_p p h, pos).

(** [heap_insert(h, key1, p)] for [p != NULL]. *)
Definition heap_insert (malloc : Z -> bool) (h : dn_heap) (key1 obj : Z) (pos : positions)
    : Z * dn_heap * positions :=
  let son := elements h in
  let '(ret, h) := if son =? h_size h then heap_resize malloc h (elements h + 16) else (0, h) in
  if z2b ret then (1, h, pos)
  else
    let h := set_elements (elements h + 1) (set_p (put (h_p h) son (mk_entry key1 obj)) h) in
    let '(h, pos) := bubble h son pos in (0, h, pos).

(** [heap_insert(h, son, NULL)]: the data is already there. *)
Definition heap_insert_at (h : dn_heap) (son : Z) (pos : positions) : dn_heap * positions := bubble h son pos.

(** The loop of [heap_extract]: the hole at [father] goes down to a leaf. *)
Fixpoint move_hole (fuel : nat) (ofs max : Z) (p : list dn_heap_entry) (pos : positions) (father : Z)
    : list dn_heap_entry * positions * Z :=
  match fuel with
  | O => (p, pos, father)
  | S fuel' =>
      let child := HEAP_LEFT father in
      if child <=? max then
        let child := if negb (child =? max) && DN_KEY_LT (key (get p (child + 1))) (key (get p child))
                     then child + 1 else child in
        let p := put p father (get p child) in
        move_hole fuel' ofs max p (SET_OFFSET ofs p father pos) child
      else (p, pos, father)
  end.

(** [heap_extract]; the object is 0 for [NULL].  [None] is [panic]. *)
Definition heap_extract (h : dn_heap) (obj : Z) (pos : positions) : option (dn_heap * positions) :=
  let max := elements h - 1 in
  if max <? 0 then Some (h, pos)
  else
    let father :=
      if obj =? 0 then Some 0
      else if h_ofs h <=? 0 then None
      else let f := default 0 (pos !! obj) in if (f <? 0) || (elements h <=? f) then None else Some f in
    match father with
    | None => None
    | Some father =>
        let pos := RESET_OFFSET (h_ofs h) (h_p h) father pos in
        let '(p, pos, father) := move_hole (Z.to_nat (elements h)) (h_ofs h) max (h_p h) pos father in
        let h := set_elements (elements h - 1) (set_p p h) in
        if father =? max then Some (h, pos)
        else Some (heap_insert_at (set_p (put p father (get p max)) h) father pos)
    end.

(** [heapify]: [for (i = 0; i < elements; i++)]. *)
Definition heapify (h : dn_heap) (pos : positions) : dn_heap * positions :=
  foldl (fun '(h, pos) i => heap_insert_at h (Z.of_nat i) pos) (h, pos) (seq 0 (Z.to_nat (elements h))).

Definition HEAP_SCAN_DEL : Z := 1.
Definition HEAP_SCAN_END : Z := 2.

(** The loop of [heap_scan] from entry [i] on; a turn either goes to the next
    entry or removes one. *)
Fixpoint scan_loop (fuel : nat) (fn : Z -> Z) (h : dn_heap) (i found : Z) : dn_heap * Z :=
  match fuel with
  | O => (h, found)
  | S fuel' =>
      if i <? elements h then
        let ret := fn (object (get (h_p h) i)) in
        let '(h, i, found) :=
          if has_flag ret HEAP_SCAN_DEL then
            let n := elements h - 1 in
            (set_p (put (h_p h) i (get (h_p h) n)) (set_elements n h), i, found + 1)
          else (h, i + 1, found) in
        if has_flag ret HEAP_SCAN_END then (h, found) else scan_loop fuel' fn h i found
      else (h, found)
  end.

Definition heap_scan (fn : Z -> Z) (h : dn_heap) (pos : positions) : Z * dn_heap * positions :=
  let '(h, found) := scan_loop (S (Z.to_nat (elements h))) fn h 0 0 in
  let '(h, pos) := if z2b found then heapify h pos else (h, pos) in
  (found, h, pos).

Definition heap_free (h : dn_heap) : dn_heap := heap_zero.

End DnHeap.
Import DnHeap.

(** ** Keys within a window *)

(** The distance of a key from the start of the window. *)
Definition rank (base k : Z) : Z := u64 (k - base).
Definition in_window (base k : Z) : Prop := rank base k < 2 ^ 63.

Lemma key_diff base a b :
  in_window base a -> in_window base b -> s64 (u64 (a - b)) = rank base a - rank base b.
Proof.
  unfold in_window, rank, s64, u64, swrap, wrap. change (64 - 1) with 63.
  intros Ha Hb. case_if; warith.
Qed.

Lemma key_lt_rank base a b :
  in_window base a -> in_window base b -> DN_KEY_LT a b = (rank base a <? rank base b).
Proof. intros Ha Hb. unfold DN_KEY_LT. rewrite (key_diff _ _ _ Ha Hb). apply eq_true_iff_eq. lia. Qed.

Lemma key_leq_rank base a b :
  in_window base a -> in_window base b -> DN_KEY_LEQ a b = (rank base a <=? rank base b).
Proof. intros Ha Hb. unfold DN_KEY_LEQ. rewrite (key_diff _ _ _ Ha Hb). apply eq_true_iff_eq. lia. Qed.

(** ** Arrays *)

Lemma get_put_eq p i e : 0 <= i < Z.of_nat (length p) -> get (put p i e) i = e.
Proof. intros Hi. apply list_lookup_total_insert_eq. lia. Qed.

Lemma get_put_ne p i j e : 0 <= i -> 0 <= j -> i <> j -> get (put p i e) j = get p j.
Proof. intros Hi Hj Hne. apply list_lookup_total_insert_ne. lia. Qed.

Lemma length_put p i e : length (put p i e) = length p.
Proof. apply length_insert. Qed.

Lemma put_id p i : 0 <= i < Z.of_nat (length p) -> put p i (get p i) = p.
Proof. intros Hi. apply list_insert_id, list_lookup_lookup_total_lt. lia. Qed.

Lemma put_put p i e e' : put (put p i e) i e' = put p i e'.
Proof. apply list_insert_insert_eq. Qed.

Lemma get_lookup p i : 0 <= i < Z.of_nat (length p) -> p !! Z.to_nat i = Some (get p i).
Proof. intros Hi. apply list_lookup_lookup_total_lt. lia. Qed.

Lemma HEAP_SWAP_perm p a b n :
  0 <= a < n -> 0 <= b < n -> n <= Z.of_nat (length p) ->
  take (Z.to_nat n) (HEAP_SWAP p a b) ≡ₚ take (Z.to_nat n) p.
Proof.
  intros Ha Hb Hn. unfold HEAP_SWAP, put.
  rewrite !take_insert_lt by lia.
  set (l := take (Z.to_nat n) p).
  assert (Hla : l !! Z.to_nat a = Some (get p a)) by (unfold l; rewrite lookup_take_lt by lia; apply get_lookup; lia).
  assert (Hlb : l !! Z.to_nat b = Some (get p b)) by (unfold l; rewrite lookup_take_lt by lia; apply get_lookup; lia).
  destruct (decide (a = b)) as [->|Hne].
  { rewrite list_insert_insert_eq, list_insert_id; done. }
  by apply Permutation_insert_swap.
Qed.

Lemma get_swap p a b i :
  0 <= a < Z.of_nat (length p) -> 0 <= b < Z.of_nat (length p) -> 0 <= i ->
  get (HEAP_SWAP p a b) i = if i =? b then get p a else if i =? a then get p b else get p i.
Proof.
  intros Ha Hb Hi. unfold HEAP_SWAP. destruct (Z.eqb_spec i b) as [->|Hib].
  - by rewrite get_put_eq by (rewrite length_put; lia).
  - rewrite get_put_ne by lia. destruct (Z.eqb_spec i a) as [->|Hia]; [by rewrite get_put_eq|].
    by rewrite get_put_ne by lia.
Qed.

Lemma length_swap p a b : length (HEAP_SWAP p a b) = length p.
Proof. unfold HEAP_SWAP. by rewrite !length_put. Qed.

(** ** Order *)

Section order.
Context (base : Z).

Definition ord (p : list dn_heap_entry) (i j : Z) : Prop := rank base (key (get p i)) <= rank base (key (get p j)).

Definition windowed (l : list dn_heap_entry) : Prop := Forall (fun e => in_window base (key e)) l.

Definition heap_ordered (p : list dn_heap_entry) (n : Z) : Prop :=
  forall i, 0 < i < n -> ord p (HEAP_FATHER i) i.

(** Ordered but for the entry [son], which may be smaller than its father. *)
Definition up_pre (p : list dn_heap_entry) (n son : Z) : Prop :=
  (forall i, 0 < i < n -> i <> son -> ord p (HEAP_FATHER i) i) /\
  (forall c, 0 < c < n -> HEAP_FATHER c = son -> 0 < son -> ord p (HEAP_FATHER son) c).

(** Ordered but for the entry [f], which is not looked at. *)
Definition hole_pre (p : list dn_heap_entry) (n f : Z) : Prop :=
  (forall i, 0 < i < n -> i <> f -> HEAP_FATHER i <> f -> ord p (HEAP_FATHER i) i) /\
  (forall c, 0 < c < n -> HEAP_FATHER c = f -> 0 < f -> ord p (HEAP_FATHER f) c).

Lemma father_lt x : 0 < x -> 0 <= HEAP_FATHER x < x.
Proof. unfold HEAP_FATHER. intros. Z.div_mod_to_equations. lia. Qed.

Lemma father_child x f : 0 < x -> 0 <= f -> HEAP_FATHER x = f <-> x = HEAP_LEFT f \/ x = HEAP_LEFT f + 1.
Proof. unfold HEAP_FATHER, HEAP_LEFT. intros. Z.div_mod_to_equations. lia. Qed.

Lemma windowed_get p n i :
  windowed (take (Z.to_nat n) p) -> 0 <= i < n -> n <= Z.of_nat (length p) -> in_window base (key (get p i)).
Proof.
  intros Hw Hi Hn. apply (Forall_lookup_1 _ _ (Z.to_nat i) _ Hw).
  rewrite lookup_take_lt by lia. apply get_lookup. lia.
Qed.

Lemma up_pre_swap p n son :
  0 < son < n -> n <= Z.of_nat (length p) -> up_pre p n son -> ord p son (HEAP_FATHER son) ->
  up_pre (HEAP_SWAP p son (HEAP_FATHER son)) n (HEAP_FATHER son).
Proof.
  intros Hs Hn [H1 H2] Hle. pose proof (father_lt son ltac:(lia)) as Hf. set (f := HEAP_FATHER son) in *.
  unfold up_pre, ord in *. split.
  - intros i Hi Hne. pose proof (father_lt i ltac:(lia)) as Hfi.
    rewrite !get_swap by lia. rewrite (proj2 (Z.eqb_neq i f)) by done.
    destruct (Z.eqb_spec i son) as [->|His].
    + fold f. by rewrite Z.eqb_refl.
    + pose proof (H1 i Hi His) as Hi1. destruct (Z.eqb_spec (HEAP_FATHER i) f) as [Ef|Ef]; [rewrite Ef in Hi1; lia|].
      destruct (Z.eqb_spec (HEAP_FATHER i) son) as [Es|Es]; [|done]. apply (H2 i Hi Es). lia.
  - intros c Hc Hfc Hf0. pose proof (father_lt f Hf0) as Hff. rewrite !get_swap by lia.
    rewrite (proj2 (Z.eqb_neq c f)) by (pose proof (father_lt c); lia).
    rewrite (proj2 (Z.eqb_neq (HEAP_FATHER f) f)), (proj2 (Z.eqb_neq (HEAP_FATHER f) son)) by lia.
    pose proof (H1 f ltac:(lia) ltac:(lia)) as Hf1.
    destruct (Z.eqb_spec c son) as [->|Hcs]; [done|]. pose proof (H1 c Hc Hcs) as Hc1. rewrite Hfc in Hc1. lia.
Qed.

Lemma bubble_up_ordered ofs n : forall fuel p pos son,
  0 <= son < n -> n <= Z.of_nat (length p) -> son < Z.of_nat fuel -> windowed (take (Z.to_nat n) p) ->
  up_pre p n son -> heap_ordered (fst (bubble_up fuel ofs p pos son)) n.
Proof.
  induction fuel as [|fuel IH]; intros p pos son Hs Hn Hf Hw Hpre; [lia|]. simpl.
  destruct (Z.ltb_spec 0 son) as [H0|H0].
  - pose proof (father_lt son H0) as Hfa.
    rewrite (key_lt_rank base) by (apply (windowed_get p n); (done || lia)).
    destruct (Z.ltb_spec (rank base (key (get p (HEAP_FATHER son)))) (rank base (key (get p son)))) as [Hlt|Hge].
    + simpl. intros i Hi. destruct (decide (i = son)) as [->|Hne]; [unfold ord; lia|by apply Hpre].
    + apply IH; try (rewrite ?length_swap; lia).
      * unfold windowed. rewrite HEAP_SWAP_perm; [done|lia..].
      * by apply up_pre_swap; [lia| | |].
  - simpl. intros i Hi. apply Hpre; [done|lia].
Qed.

End order.

(** The entries are the same but for their order, and the positions beyond
    [n] are left alone. *)
Lemma bubble_up_perm ofs n : forall fuel p pos son p' pos',
  0 <= son < n -> n <= Z.of_nat (length p) -> bubble_up fuel ofs p pos son = (p', pos') ->
  take (Z.to_nat n) p' ≡ₚ take (Z.to_nat n) p /\ length p' = length p.
Proof.
  induction fuel as [|fuel IH]; intros p pos son p' pos' Hs Hn; simpl; [by intros [= <- <-]|].
  destruct (Z.ltb_spec 0 son) as [H0|H0]; [|by intros [= <- <-]].
  destruct (DN_KEY_LT _ _); [by intros [= <- <-]|].
  pose proof (father_lt son H0) as Hfa. intros H. apply IH in H as [H1 H2]; [|lia|rewrite length_swap; lia].
  rewrite length_swap in H2. split; [|done]. rewrite H1. apply HEAP_SWAP_perm; lia.
Qed.

(** ** Positions *)

(** The objects of the first [n] entries are distinct. *)
Definition distinct (p : list dn_heap_entry) (n : Z) : Prop :=
  forall i j, 0 <= i < n -> 0 <= j < n -> object (get p i) = object (get p j) -> i = j.

(** The position of every object is right, but for the entry [s]. *)
Definition pos_except (ofs : Z) (p : list dn_heap_entry) (n : Z) (pos : positions) (s : Z) : Prop :=
  0 < ofs -> forall i, 0 <= i < n -> i <> s -> pos !! object (get p i) = Some i.

(** The positions of the objects outside of [l] are not touched. *)
Definition frame (l : list dn_heap_entry) (pos pos' : positions) : Prop :=
  forall x, x ∉ map object l -> pos' !! x = pos !! x.

Lemma frame_refl l pos : frame l pos pos.
Proof. done. Qed.

Lemma frame_trans l pos1 pos2 pos3 : frame l pos1 pos2 -> frame l pos2 pos3 -> frame l pos1 pos3.
Proof. intros H1 H2 x Hx. rewrite H2, H1; done. Qed.

Lemma frame_perm l l' pos pos' : l ≡ₚ l' -> frame l pos pos' -> frame l' pos pos'.
Proof. intros HP Hf x Hx. apply Hf. by rewrite (Permutation_map object HP). Qed.

Lemma entry_elem p n i :
  0 <= i < n -> n <= Z.of_nat (length p) -> get p i ∈ take (Z.to_nat n) p.
Proof. intros Hi Hn. apply (list_elem_of_lookup_2 _ (Z.to_nat i)). rewrite lookup_take_lt by lia. apply get_lookup. lia. Qed.

Lemma entry_pos p n e :
  n <= Z.of_nat (length p) -> e ∈ take (Z.to_nat n) p -> exists i, 0 <= i < n /\ get p i = e.
Proof.
  intros Hn [i Hi]%list_elem_of_lookup. exists (Z.of_nat i). pose proof (lookup_lt_Some _ _ _ Hi) as Hlt.
  rewrite length_take in Hlt. split; [lia|]. unfold get. rewrite Nat2Z.id.
  rewrite lookup_take_lt in Hi by lia. by apply list_lookup_total_correct.
Qed.

Lemma distinct_NoDup p n :
  0 <= n <= Z.of_nat (length p) -> distinct p n <-> NoDup (map object (take (Z.to_nat n) p)).
Proof.
  intros Hn. split.
  - intros Hd. apply NoDup_alt. intros i j x Hi Hj.
    apply list_lookup_fmap_Some in Hi as (e & -> & Hi), Hj as (e' & Heq & Hj).
    pose proof (lookup_lt_Some _ _ _ Hi) as Hli. pose proof (lookup_lt_Some _ _ _ Hj) as Hlj.
    rewrite length_take in Hli, Hlj. rewrite lookup_take_lt in Hi, Hj by lia.
    apply list_lookup_total_correct in Hi, Hj.
    enough (Z.of_nat i = Z.of_nat j) by lia. apply Hd; [lia|lia|]. unfold get. rewrite !Nat2Z.id. congruence.
  - intros HN i j Hi Hj Heq. enough (Z.to_nat i = Z.to_nat j) by lia.
    apply (NoDup_lookup _ _ _ (object (get p i)) HN); apply list_lookup_fmap_Some;
      [exists (get p i)|exists (get p j)]; (split; [done|]); rewrite lookup_take_lt by lia; apply get_lookup; lia.
Qed.

Lemma set_offset_frame ofs p n i pos :
  0 <= i < n -> n <= Z.of_nat (length p) -> frame (take (Z.to_nat n) p) pos (SET_OFFSET ofs p i pos).
Proof.
  intros Hi Hn x Hx. unfold SET_OFFSET. case_if; [|done]. apply lookup_insert_ne. intros <-. apply Hx.
  apply list_elem_of_fmap. exists (get p i). split; [done|]. by apply entry_elem.
Qed.

Lemma set_offset_all ofs p n pos s :
  distinct p n -> 0 <= s < n -> pos_except ofs p n pos s -> pos_except ofs p n (SET_OFFSET ofs p s pos) (-1).
Proof.
  intros Hd Hs Hp Ho i Hi _. unfold SET_OFFSET. rewrite (proj2 (Z.ltb_lt 0 ofs) Ho).
  destruct (decide (i = s)) as [->|Hne]; [by rewrite lookup_insert_eq|].
  rewrite lookup_insert_ne; [by apply Hp|]. intros E. apply Hne. symmetry. by apply Hd.
Qed.

Lemma swap_distinct p n a b :
  0 <= a < n -> 0 <= b < n -> n <= Z.of_nat (length p) -> distinct p n -> distinct (HEAP_SWAP p a b) n.
Proof.
  intros Ha Hb Hn. rewrite !distinct_NoDup by (rewrite ?length_swap; lia).
  by rewrite (Permutation_map object (HEAP_SWAP_perm p a b n Ha Hb Hn)).
Qed.

Lemma swap_pos ofs p n pos a b :
  0 <= a < n -> 0 <= b < n -> n <= Z.of_nat (length p) -> distinct p n -> pos_except ofs p n pos a ->
  pos_except ofs (HEAP_SWAP p a b) n (SET_OFFSET ofs (HEAP_SWAP p a b) a pos) b.
Proof.
  intros Ha Hb Hn Hd Hp Ho i Hi Hib. unfold SET_OFFSET. rewrite (proj2 (Z.ltb_lt 0 ofs) Ho).
  destruct (decide (i = a)) as [->|Hia]; [by rewrite lookup_insert_eq|].
  rewrite lookup_insert_ne.
  - rewrite get_swap by lia. rewrite (proj2 (Z.eqb_neq i b)), (proj2 (Z.eqb_neq i a)) by done. by apply Hp.
  - intros E. apply Hia. symmetry. by apply (swap_distinct p n a b).
Qed.

Lemma bubble_up_pos ofs n : forall fuel p pos son p' pos',
  0 <= son < n -> n <= Z.of_nat (length p) -> son < Z.of_nat fuel -> distinct p n -> pos_except ofs p n pos son ->
  bubble_up fuel ofs p pos son = (p', pos') ->
  pos_except ofs p' n pos' (-1) /\ frame (take (Z.to_nat n) p) pos pos'.
Proof.
  induction fuel as [|fuel IH]; intros p pos son p' pos' Hs Hn Hf Hd Hp; [lia|]. simpl.
  assert (Hstop : pos_except ofs p n (SET_OFFSET ofs p son pos) (-1) /\
                  frame (take (Z.to_nat n) p) pos (SET_OFFSET ofs p son pos))
    by (split; [by apply set_offset_all|by apply set_offset_frame]).
  destruct (Z.ltb_spec 0 son) as [H0|H0]; [|by intros [= <- <-]].
  destruct (DN_KEY_LT _ _); [by intros [= <- <-]|].
  pose proof (father_lt son H0) as Hfa.
  assert (HP : take (Z.to_nat n) (HEAP_SWAP p son (HEAP_FATHER son)) ≡ₚ take (Z.to_nat n) p)
    by (apply HEAP_SWAP_perm; lia).
  intros H. apply IH in H as [H1 H2]; try (rewrite ?length_swap; lia);
    [|apply swap_distinct; (done || lia)|apply swap_pos; (done || lia)].
  split; [done|]. apply (frame_trans _ _ (SET_OFFSET ofs (HEAP_SWAP p son (HEAP_FATHER son)) son pos)).
  - apply (frame_perm _ _ _ _ HP). apply set_offset_frame; rewrite ?length_swap; lia.
  - by apply (frame_perm _ _ _ _ HP).
Qed.

(** ** The hole of [heap_extract] *)

(** Moving an entry into the hole is a swap with the removed entry [x]. *)
Lemma move_is_swap p f c x :
  0 <= f < Z.of_nat (length p) -> 0 <= c < Z.of_nat (length p) -> f <> c ->
  HEAP_SWAP (put p f x) f c = put (put p f (get p c)) c x.
Proof.
  intros Hf Hc Hne. unfold HEAP_SWAP. rewrite get_put_eq, get_put_ne by lia. by rewrite put_put.
Qed.

(** The child that the loop chooses. *)
Definition hole_child (max : Z) (p : list dn_heap_entry) (f : Z) : Z :=
  let child := HEAP_LEFT f in
  if negb (child =? max) && DN_KEY_LT (key (get p (child + 1))) (key (get p child)) then child + 1 else child.

Lemma hole_child_range max p f :
  HEAP_LEFT f <= max -> 0 <= f ->
  (hole_child max p f = HEAP_LEFT f \/ hole_child max p f = HEAP_LEFT f + 1) /\ f < hole_child max p f <= max.
Proof. unfold hole_child, HEAP_LEFT. intros. destruct (_ && _) eqn:E; zify_bool; lia. Qed.

Lemma hole_child_min base n p f :
  windowed base (take (Z.to_nat n) p) -> n <= Z.of_nat (length p) -> 0 <= f -> HEAP_LEFT f <= n - 1 ->
  forall c, 0 < c < n -> HEAP_FATHER c = f -> ord base p (hole_child (n - 1) p f) c.
Proof.
  intros Hw Hn Hf Hl c Hc Hfc. apply father_child in Hfc; [|lia..]. unfold hole_child, ord.
  assert (Hl0 : 0 <= HEAP_LEFT f) by (unfold HEAP_LEFT; lia).
  destruct (Z.eqb_spec (HEAP_LEFT f) (n - 1)) as [E|E]; simpl.
  { replace c with (HEAP_LEFT f) by lia. lia. }
  rewrite (key_lt_rank base) by (apply (windowed_get base p n); (done || lia)).
  destruct (Z.ltb_spec (rank base (key (get p (HEAP_LEFT f + 1)))) (rank base (key (get p (HEAP_LEFT f)))));
    destruct Hfc as [->| ->]; lia.
Qed.

Lemma hole_pre_move base n p f :
  windowed base (take (Z.to_nat n) p) -> n <= Z.of_nat (length p) -> 0 <= f -> HEAP_LEFT f <= n - 1 ->
  hole_pre base p n f ->
  hole_pre base (put p f (get p (hole_child (n - 1) p f))) n (hole_child (n - 1) p f).
Proof.
  intros Hw Hn Hf Hl [H1 H2]. pose proof (hole_child_min base n p f Hw Hn Hf Hl) as Hmin.
  pose proof (hole_child_range (n - 1) p f Hl Hf) as [Hlr Hr]. set (c := hole_child (n - 1) p f) in *.
  assert (Hfc : HEAP_FATHER c = f) by (apply father_child; lia).
  unfold hole_pre, ord in *. split.
  - intros i Hi Hic Hfi. pose proof (father_lt i ltac:(lia)) as Hfl.
    destruct (decide (i = f)) as [->|Hif].
    + rewrite get_put_eq, get_put_ne by lia. apply H2; lia.
    + rewrite (get_put_ne _ f i) by lia. destruct (decide (HEAP_FATHER i = f)) as [Ef|Ef].
      * rewrite Ef, get_put_eq by lia. by apply Hmin.
      * rewrite get_put_ne by lia. apply H1; lia.
  - intros d Hd Hfd Hc0. pose proof (father_lt d ltac:(lia)) as Hdl.
    rewrite Hfc, get_put_eq, get_put_ne by lia. specialize (H1 d Hd). rewrite Hfd in H1. apply H1; lia.
Qed.

Lemma move_hole_ordered base ofs n : forall fuel p pos f,
  windowed base (take (Z.to_nat n) p) -> n <= Z.of_nat (length p) -> 0 <= f < n -> n - f <= Z.of_nat fuel ->
  hole_pre base p n f ->
  let '(p', _, f') := move_hole fuel ofs (n - 1) p pos f in
  hole_pre base p' n f' /\ 0 <= f' < n /\ n - 1 < HEAP_LEFT f' /\
  windowed base (take (Z.to_nat n) p') /\ length p' = length p.
Proof.
  induction fuel as [|fuel IH]; intros p pos f Hw Hn Hf Hfu Hp; [lia|]. simpl. fold (hole_child (n - 1) p f).
  destruct (Z.leb_spec (HEAP_LEFT f) (n - 1)) as [Hl|Hl]; [|split_and!; (done || lia)].
  pose proof (hole_child_range (n - 1) p f Hl ltac:(lia)) as [_ Hr].
  assert (Hw' : windowed base (take (Z.to_nat n) (put p f (get p (hole_child (n - 1) p f))))).
  { unfold put. rewrite take_insert_lt by lia. apply Forall_insert; [done|]. apply (windowed_get base p n); (done || lia). }
  pose proof (IH (put p f (get p (hole_child (n - 1) p f)))
                (SET_OFFSET ofs (put p f (get p (hole_child (n - 1) p f))) f pos) (hole_child (n - 1) p f)) as H.
  rewrite length_put in H. destruct (move_hole _ _ _ _ _ _) as [[p' pos'] f'].
  apply H; try (done || lia). by apply hole_pre_move; [| | lia| |].
Qed.

(** Seen with the removed entry [x] in the hole, the loop only reorders. *)
Lemma move_hole_perm ofs n x : forall fuel p pos f,
  n <= Z.of_nat (length p) -> 0 <= f < n ->
  distinct (put p f x) n -> pos_except ofs (put p f x) n pos f ->
  let '(p', pos', f') := move_hole fuel ofs (n - 1) p pos f in
  take (Z.to_nat n) (put p' f' x) ≡ₚ take (Z.to_nat n) (put p f x) /\
  pos_except ofs (put p' f' x) n pos' f' /\ frame (take (Z.to_nat n) (put p f x)) pos pos' /\
  pos' !! object x = pos !! object x.
Proof.
  induction fuel as [|fuel IH]; intros p pos f Hn Hf Hd Hp; [done|]. simpl. fold (hole_child (n - 1) p f).
  destruct (Z.leb_spec (HEAP_LEFT f) (n - 1)) as [Hl|Hl]; [|done].
  pose proof (hole_child_range (n - 1) p f Hl ltac:(lia)) as [_ Hr]. set (c := hole_child (n - 1) p f) in *.
  set (q := put p f x) in *. set (p1 := put p f (get p c)).
  assert (Hq1 : put p1 c x = HEAP_SWAP q f c) by (unfold p1, q; rewrite move_is_swap by lia; done).
  assert (Hlq : Z.of_nat (length q) = Z.of_nat (length p)) by (unfold q; by rewrite length_put).
  assert (Hoff : SET_OFFSET ofs p1 f pos = SET_OFFSET ofs (HEAP_SWAP q f c) f pos).
  { unfold SET_OFFSET. rewrite <- Hq1. rewrite get_put_ne by lia. done. }
  pose proof (IH p1 (SET_OFFSET ofs p1 f pos) c) as H. rewrite Hq1 in H. rewrite Hoff in *.
  unfold p1 in H at 1. rewrite length_put in H.
  specialize (H Hn ltac:(lia) (swap_distinct q n f c ltac:(lia) ltac:(lia) ltac:(lia) Hd)
                (swap_pos ofs q n pos f c ltac:(lia) ltac:(lia) ltac:(lia) Hd Hp)).
  destruct (move_hole _ _ _ _ _ _) as [[p' pos'] f']. destruct H as (H1 & H2 & H3 & H4).
  pose proof (HEAP_SWAP_perm q f c n ltac:(lia) ltac:(lia) ltac:(lia)) as HP.
  split_and!; [by rewrite H1|done| |].
  - apply (frame_trans _ _ (SET_OFFSET ofs (HEAP_SWAP q f c) f pos)); [|by apply (frame_perm _ _ _ _ HP)].
    apply (frame_perm _ _ _ _ HP), set_offset_frame; rewrite ?length_swap; lia.
  - rewrite H4. unfold SET_OFFSET. case_if; [|done]. apply lookup_insert_ne. intros E.
    assert (Hfx : get (HEAP_SWAP q f c) c = x) by (rewrite <- Hq1; apply get_put_eq; unfold p1; rewrite length_put; lia).
    enough (f = c) by lia. apply (swap_distinct q n f c); try (done || lia). by rewrite Hfx.
Qed.

(** ** The invariant of a heap *)

Definition entries (h : dn_heap) : list dn_heap_entry := take (Z.to_nat (elements h)) (h_p h).

Record heap_ok (base : Z) (h : dn_heap) (pos : positions) : Prop := {
  ho_size : Z.of_nat (length (h_p h)) = h_size h /\ 0 <= elements h <= h_size h;
  ho_win : windowed base (entries h);
  ho_ord : heap_ordered base (h_p h) (elements h);
  ho_distinct : distinct (h_p h) (elements h);
  ho_pos : pos_except (h_ofs h) (h_p h) (elements h) pos (-1);
}.

Lemma heap_ok_bounds base h pos : heap_ok base h pos -> 0 <= elements h <= Z.of_nat (length (h_p h)).
Proof. intros []. lia. Qed.

Lemma heap_ok_NoDup base h pos : heap_ok base h pos -> NoDup (map object (entries h)).
Proof. intros Hok. apply distinct_NoDup; [by eapply heap_ok_bounds|apply Hok]. Qed.

(** A heap does not depend on the positions of the objects it does not
    hold. *)
Lemma heap_ok_frame base h pos pos' :
  heap_ok base h pos -> (forall x, x ∈ map object (entries h) -> pos' !! x = pos !! x) -> heap_ok base h pos'.
Proof.
  intros Hok Hf. pose proof (heap_ok_bounds _ _ _ Hok) as Hb. destruct Hok as [? ? ? ? Hp]. constructor; try done.
  intros Ho i Hi Hne. rewrite Hf; [by apply Hp|]. apply list_elem_of_fmap. exists (get (h_p h) i).
  split; [done|]. apply entry_elem; lia.
Qed.

Lemma bubble_spec base h son pos h' pos' :
  Z.of_nat (length (h_p h)) = h_size h -> 0 <= elements h <= h_size h -> 0 <= son < elements h ->
  windowed base (entries h) -> up_pre base (h_p h) (elements h) son -> distinct (h_p h) (elements h) ->
  pos_except (h_ofs h) (h_p h) (elements h) pos son -> bubble h son pos = (h', pos') ->
  heap_ok base h' pos' /\ entries h' ≡ₚ entries h /\ frame (entries h) pos pos' /\
  h_size h' = h_size h /\ h_ofs h' = h_ofs h /\ elements h' = elements h.
Proof.
  intros Hl He Hs Hw Hup Hd Hp. unfold bubble.
  destruct (bubble_up _ _ _ _ _) as [p1 pos1] eqn:E. intros [= <- <-]. unfold entries. simpl.
  pose proof (bubble_up_ordered base (h_ofs h) (elements h) (S (Z.to_nat son)) (h_p h) pos son
                ltac:(lia) ltac:(lia) ltac:(lia) Hw Hup) as Ho. rewrite E in Ho.
  assert (Hn : elements h <= Z.of_nat (length (h_p h))) by lia.
  assert (Hf : son < Z.of_nat (S (Z.to_nat son))) by lia.
  pose proof (bubble_up_perm _ _ _ _ _ _ _ _ Hs Hn E) as [HP Hlen].
  pose proof (bubble_up_pos _ _ _ _ _ _ _ _ Hs Hn Hf Hd Hp E) as [Hp' Hfr].
  split_and!; try done. constructor; simpl; [lia| |done| |done].
  - unfold entries. simpl. unfold windowed. by rewrite HP.
  - apply distinct_NoDup; [lia|]. rewrite (Permutation_map object HP). apply distinct_NoDup; [lia|done].
Qed.

(** *** The top is the smallest *)

Lemma ordered_top base p n : heap_ordered base p n -> forall i, 0 <= i < n -> ord base p 0 i.
Proof.
  intros Ho i Hi. assert (Hall : forall k, forall i, 0 <= i < n -> i < Z.of_nat k -> ord base p 0 i).
  { induction k as [|k IH]; intros j Hj Hk; [lia|]. destruct (decide (j = 0)) as [->|Hne]; [unfold ord; lia|].
    pose proof (father_lt j ltac:(lia)). pose proof (Ho j ltac:(lia)) as Hjo.
    pose proof (IH (HEAP_FATHER j) ltac:(lia) ltac:(lia)) as Hf. unfold ord in *. lia. }
  by apply (Hall (S (Z.to_nat i))); [|lia].
Qed.

Lemma heap_top_min base h pos e :
  heap_ok base h pos -> e ∈ entries h -> rank base (key (HEAP_TOP h)) <= rank base (key e).
Proof.
  intros Hok He. pose proof (heap_ok_bounds _ _ _ Hok) as Hb.
  destruct (entry_pos (h_p h) (elements h) e ltac:(lia) He) as (i & Hi & <-).
  apply (ordered_top _ _ _ (ho_ord _ _ _ Hok) i Hi).
Qed.

Lemma heap_top_elem base h pos : heap_ok base h pos -> 0 < elements h -> HEAP_TOP h ∈ entries h.
Proof. intros Hok He. pose proof (heap_ok_bounds _ _ _ Hok). apply entry_elem; lia. Qed.

(** ** Growing *)

(** Bit [k] of [n] tells whether [x] has one of the [m] bits from [k] on. *)
Definition smeared (x m n : Z) : Prop :=
  forall k, 0 <= k -> Z.testbit n k = true <-> exists j, 0 <= j < m /\ Z.testbit x (k + j) = true.

Lemma high_bits x k : 0 <= x < 2 ^ 32 -> 32 <= k -> Z.testbit x k = false.
Proof.
  intros Hx Hk. destruct (decide (x = 0)) as [->|Hne]; [apply Z.bits_0|].
  apply Z.bits_above_log2; [lia|]. apply Z.log2_lt_pow2; [lia|].
  pose proof (Z.pow_le_mono_r 2 32 k). lia.
Qed.

Lemma smear_step x m n :
  0 <= x < 2 ^ 32 -> 0 <= m -> smeared x m n -> smeared x (m + m) (u32 (Z.lor n (Z.shiftr n m))).
Proof.
  intros Hx Hm Hn k Hk. unfold u32, wrap. destruct (decide (k < 32)) as [Hlt|Hge].
  - rewrite Z.mod_pow2_bits_low by lia. rewrite Z.lor_spec, orb_true_iff, Z.shiftr_spec, (Hn k), (Hn (k + m)) by lia.
    split.
    + intros [(j & Hj & Hb)|(j & Hj & Hb)]; [exists j|exists (m + j)]; (split; [lia|]); [done|].
      by replace (k + (m + j)) with (k + m + j) by lia.
    + intros (j & Hj & Hb). destruct (decide (j < m)); [left; exists j; split; [lia|done]|].
      right. exists (j - m). split; [lia|]. by replace (k + m + (j - m)) with (k + j) by lia.
  - rewrite Z.mod_pow2_bits_high by lia. split; [done|]. intros (j & Hj & Hb).
    rewrite high_bits in Hb by lia. done.
Qed.

(** The array sizes are one less than a power of two. *)
Lemma round_up_spec x : 0 < x < 2 ^ 32 -> round_up x = 2 ^ (Z.log2 x + 1) - 1 /\ x <= round_up x < 2 ^ 32.
Proof.
  intros Hx. assert (Hs : smeared x 32 (round_up x)).
  { assert (H0 : smeared x 1 x).
    { intros k Hk. split; [intros H; exists 0; rewrite Z.add_0_r; split; [lia|done]|].
      intros (j & Hj & Hb). by replace (k + j) with k in Hb by lia. }
    do 5 (apply smear_step in H0; [|lia..]). exact H0. }
  pose proof (Z.log2_spec x ltac:(lia)) as [Hlo Hhi]. pose proof (Z.log2_nonneg x) as HL.
  assert (HL32 : Z.log2 x < 32) by (apply Z.log2_lt_pow2; lia).
  assert (E : round_up x = Z.ones (Z.log2 x + 1)).
  { apply Z.bits_inj'. intros k Hk. destruct (decide (k < Z.log2 x + 1)) as [Hlt|Hge].
    - rewrite Z.ones_spec_low by lia. apply Hs; [done|]. exists (Z.log2 x - k). split; [lia|].
      replace (k + (Z.log2 x - k)) with (Z.log2 x) by lia. apply Z.bit_log2. lia.
    - rewrite Z.ones_spec_high by lia. destruct (Z.testbit (round_up x) k) eqn:Eb; [|done].
      apply Hs in Eb as (j & Hj & Hb); [|done]. rewrite Z.bits_above_log2 in Hb by lia. done. }
  rewrite Z.ones_equiv in E. unfold Z.succ in Hhi. rewrite E. split; [lia|].
  pose proof (Z.pow_le_mono_r 2 (Z.log2 x + 1) 32). lia.
Qed.

Lemma heap_resize_spec malloc h n ret h' :
  0 < n < 2 ^ 32 -> Z.of_nat (length (h_p h)) = h_size h -> heap_resize malloc h n = (ret, h') ->
  (ret = 0 /\ n <= h_size h' /\ Z.of_nat (length (h_p h')) = h_size h' /\ elements h' = elements h /\ h_ofs h' = h_ofs h /\
   forall i, 0 <= i < h_size h -> get (h_p h') i = get (h_p h) i) \/
  (ret = 1 /\ h' = h /\ malloc (round_up n) = false).
Proof.
  intros Hn Hl. unfold heap_resize. destruct (Z.leb_spec n (h_size h)) as [Hle|Hlt].
  { intros [= <- <-]. left. split_and!; done. }
  destruct (malloc (round_up n)); simpl; [|intros [= <- <-]; by right].
  destruct (round_up_spec n Hn) as [_ Hr]. intros [= <- <-]. left. simpl.
  set (old := if 0 <? h_size h then _ else _).
  assert (Hold : old = h_p h).
  { unfold old. destruct (Z.ltb_spec 0 (h_size h)); [apply take_ge; lia|]. symmetry. apply nil_length_inv. lia. }
  rewrite Hold, length_app, repeat_length. split_and!; try done; [lia|lia|].
  intros i Hi. unfold get. rewrite lookup_total_app_l by lia. done.
Qed.

(** ** Insertion *)

Lemma take_get_ext p p' n :
  n <= Z.of_nat (length p) -> n <= Z.of_nat (length p') -> (forall i, 0 <= i < n -> get p' i = get p i) ->
  take (Z.to_nat n) p' = take (Z.to_nat n) p.
Proof.
  intros Hn Hn' Hg. apply list_eq. intros i. destruct (decide (i < Z.to_nat n)%nat) as [Hi|Hi].
  - rewrite !lookup_take_lt by lia. specialize (Hg (Z.of_nat i) ltac:(lia)). unfold get in Hg. rewrite Nat2Z.id in Hg.
    rewrite !list_lookup_lookup_total_lt by lia. by rewrite Hg.
  - by rewrite !lookup_take_ge by lia.
Qed.

Lemma take_put_snoc p n e :
  0 <= n < Z.of_nat (length p) -> take (Z.to_nat (n + 1)) (put p n e) = take (Z.to_nat n) p ++ [e].
Proof.
  intros Hn. replace (Z.to_nat (n + 1)) with (S (Z.to_nat n)) by lia. unfold put.
  rewrite (take_S_r _ _ e) by (apply list_lookup_insert_eq; lia). by rewrite take_insert_ge by lia.
Qed.

Lemma insert_grow malloc h ret h1 :
  Z.of_nat (length (h_p h)) = h_size h -> 0 <= elements h <= h_size h -> elements h < 2 ^ 32 - 16 ->
  (if elements h =? h_size h then heap_resize malloc h (elements h + 16) else (0, h)) = (ret, h1) ->
  (ret = 0 /\ elements h < h_size h1 /\ Z.of_nat (length (h_p h1)) = h_size h1 /\ elements h1 = elements h /\
   h_ofs h1 = h_ofs h /\ forall i, 0 <= i < elements h -> get (h_p h1) i = get (h_p h) i) \/
  (ret = 1 /\ h1 = h /\ elements h = h_size h /\ malloc (round_up (elements h + 16)) = false).
Proof.
  intros Hl He Hlim. destruct (Z.eqb_spec (elements h) (h_size h)) as [E|E].
  - intros H. assert (Hr : 0 < elements h + 16 < 2 ^ 32) by lia.
    destruct (heap_resize_spec _ _ _ _ _ Hr Hl H) as [(-> & ? & ? & ? & ? & Hg)|(-> & -> & ?)].
    + left. split_and!; try done; [lia|]. intros i Hi. apply Hg. lia.
    + by right.
  - intros [= <- <-]. left. split_and!; (done || lia).
Qed.

Lemma heap_insert_ok base malloc h k obj pos ret h' pos' :
  heap_ok base h pos -> in_window base k -> obj ∉ map object (entries h) -> elements h < 2 ^ 32 - 16 ->
  heap_insert malloc h k obj pos = (ret, h', pos') ->
  (ret = 0 /\ heap_ok base h' pos' /\ entries h' ≡ₚ mk_entry k obj :: entries h /\
   frame (mk_entry k obj :: entries h) pos pos' /\ h_ofs h' = h_ofs h /\ elements h' = elements h + 1) \/
  (ret = 1 /\ h' = h /\ pos' = pos /\ elements h = h_size h /\ malloc (round_up (elements h + 16)) = false).
Proof.
  intros Hok Hk Hnew Hlim. pose proof Hok as [[Hl He] Hw Ho Hd Hp]. unfold heap_insert.
  destruct (if elements h =? h_size h then _ else _) as [r h1] eqn:E.
  apply insert_grow in E as [(-> & Hlt & Hl1 & He1 & Ho1 & Hg)|(-> & -> & Hfull & Hmal)]; try done;
    [|simpl; intros [= <- <- <-]; by right].
  simpl. set (n := elements h) in *. set (e := mk_entry k obj) in *. set (p2 := put (h_p h1) n e). rewrite He1.
  set (h2 := set_elements (n + 1) (set_p p2 h1)).
  assert (Hg2 : forall i, 0 <= i < n -> get p2 i = get (h_p h) i).
  { intros i Hi. unfold p2. rewrite get_put_ne by lia. by apply Hg. }
  assert (Hge : get p2 n = e) by (apply get_put_eq; lia).
  assert (Hl2 : Z.of_nat (length p2) = h_size h1) by (unfold p2; by rewrite length_put).
  assert (Hent : entries h2 = entries h ++ [e]).
  { unfold entries, h2, p2. simpl. rewrite take_put_snoc by lia. f_equal. apply take_get_ext; [lia|lia|exact Hg]. }
  destruct (bubble h2 n pos) as [h3 pos3] eqn:Eb. intros [= <- <- <-]. left.
  assert (HNd : NoDup (map object (entries h2))).
  { rewrite Hent, map_app. apply list.NoDup_app. split_and!; [by eapply heap_ok_NoDup| |by apply NoDup_singleton].
    intros x Hx Hx'. apply list_elem_of_singleton in Hx' as ->. done. }
  apply (bubble_spec base) in Eb as (Hok3 & HP & Hfr & Hs3 & Hof3 & He3); simpl.
  - split_and!; try done; [by rewrite HP, Hent, Permutation_app_comm| |by rewrite Hof3].
    apply (frame_perm (entries h2)); [by rewrite Hent, Permutation_app_comm|done].
  - done.
  - lia.
  - lia.
  - rewrite Hent. apply Forall_app. split; [done|]. by constructor.
  - split.
    + intros i Hi Hne. unfold ord. pose proof (father_lt i ltac:(lia)). rewrite !Hg2 by lia. apply Ho. lia.
    + intros c Hc Hfc. pose proof (father_lt c ltac:(lia)). lia.
  - apply distinct_NoDup; [lia|done].
  - rewrite Ho1. intros Hof i Hi Hne. rewrite Hg2 by lia. apply Hp; lia.
Qed.

(** [heap_insert] adds the pair to the heap: the array stays a heap of
    distinct objects, each knowing its position, and holds the old pairs and
    the new one; the positions of objects in other heaps are not touched.  It
    fails only when the array is full and cannot grow, and then changes
    nothing. *)
Theorem heap_insert_correct base malloc h k obj pos ret h' pos' :
  heap_ok base h pos -> in_window base k -> obj ∉ map object (entries h) -> elements h < 2 ^ 32 - 16 ->
  heap_insert malloc h k obj pos = (ret, h', pos') ->
  (ret = 0 /\ heap_ok base h' pos' /\ entries h' ≡ₚ mk_entry k obj :: entries h /\
   frame (mk_entry k obj :: entries h) pos pos') \/
  (ret = 1 /\ h' = h /\ pos' = pos /\ elements h = h_size h).
Proof.
  intros Hok Hk Hn Hlim H.
  destruct (heap_insert_ok _ _ _ _ _ _ _ _ _ Hok Hk Hn Hlim H) as [(? & ? & ? & ? & _)|(? & ? & ? & ? & _)]; [left|right]; done.
Qed.

(** ** Extraction *)

Lemma reset_frame ofs p n i pos :
  0 <= i < n -> n <= Z.of_nat (length p) -> frame (take (Z.to_nat n) p) pos (RESET_OFFSET ofs p i pos).
Proof.
  intros Hi Hn x Hx. unfold RESET_OFFSET. case_if; [|done]. apply lookup_insert_ne. intros <-. apply Hx.
  apply list_elem_of_fmap. exists (get p i). split; [done|]. by apply entry_elem.
Qed.

Lemma reset_pos ofs p n i pos :
  distinct p n -> 0 <= i < n -> pos_except ofs p n pos (-1) -> pos_except ofs p n (RESET_OFFSET ofs p i pos) i.
Proof.
  intros Hd Hi Hp Ho j Hj Hne. unfold RESET_OFFSET. rewrite (proj2 (Z.ltb_lt 0 ofs) Ho).
  rewrite lookup_insert_ne; [apply Hp; [done|done|lia]|]. intros E. apply Hne. symmetry. by apply Hd.
Qed.

(** The second half of [heap_extract], from the position of the entry to
    remove on. *)
Definition extract_at (h : dn_heap) (f : Z) (pos : positions) : dn_heap * positions :=
  let max := elements h - 1 in
  let '(p, pos, father) := move_hole (Z.to_nat (elements h)) (h_ofs h) max (h_p h)
                             (RESET_OFFSET (h_ofs h) (h_p h) f pos) f in
  let h := set_elements (elements h - 1) (set_p p h) in
  if father =? max then (h, pos) else heap_insert_at (set_p (put p father (get p max)) h) father pos.

Lemma heap_extract_unfold h obj pos :
  heap_extract h obj pos =
  if elements h - 1 <? 0 then Some (h, pos)
  else
    match (if obj =? 0 then Some 0
           else if h_ofs h <=? 0 then None
           else let f := default 0 (pos !! obj) in if (f <? 0) || (elements h <=? f) then None else Some f) with
    | None => None
    | Some f => Some (extract_at h f pos)
    end.
Proof.
  unfold heap_extract, extract_at. case_if; [done|]. destruct (if obj =? 0 then _ else _) as [f|]; [|done].
  destruct (move_hole _ _ _ _ _ _) as [[p pos'] father]. by case_if.
Qed.

Lemma hole_pre_start base p n f : heap_ordered base p n -> 0 <= f < n -> hole_pre base p n f.
Proof.
  intros Ho Hf. split; [intros; by apply Ho|]. intros c Hc Hfc H0.
  pose proof (Ho c Hc) as H1. rewrite Hfc in H1. pose proof (Ho f ltac:(lia)) as H2. unfold ord in *. lia.
Qed.

(** The last entry, moved to the hole, can only be too small. *)
Lemma fill_hole base p n f :
  hole_pre base p n f -> 0 <= f < n -> n - 1 < HEAP_LEFT f -> n <= Z.of_nat (length p) ->
  up_pre base (put p f (get p (n - 1))) (n - 1) f.
Proof.
  intros [H1 _] Hf Hleaf Hn. split.
  - intros i Hi Hne. pose proof (father_lt i ltac:(lia)).
    assert (HEAP_FATHER i <> f) by (intros E; apply father_child in E; lia).
    unfold ord. rewrite !get_put_ne by lia. apply H1; lia.
  - intros c Hc Hfc. apply father_child in Hfc; lia.
Qed.

Lemma take_put_last p n x :
  0 < n <= Z.of_nat (length p) -> take (Z.to_nat n) (put p (n - 1) x) = take (Z.to_nat (n - 1)) p ++ [x].
Proof. intros Hn. rewrite <- (take_put_snoc p (n - 1) x) by lia. do 2 f_equal. lia. Qed.

(** The loop, and the last entry put into the hole where it ends: with the
    removed entry at the end, the array is a permutation of the heap. *)
Lemma move_hole_filled base ofs n p pos f :
  windowed base (take (Z.to_nat n) p) -> n <= Z.of_nat (length p) -> 0 <= f < n ->
  heap_ordered base p n -> distinct p n -> pos_except ofs p n pos f ->
  let '(p1, pos1, f1) := move_hole (Z.to_nat n) ofs (n - 1) p pos f in
  let p2 := put p1 f1 (get p1 (n - 1)) in
  0 <= f1 < n /\ length p2 = length p /\ length p1 = length p /\ up_pre base p2 (n - 1) f1 /\
  take (Z.to_nat n) p ≡ₚ take (Z.to_nat (n - 1)) p2 ++ [get p f] /\
  pos_except ofs p2 (n - 1) pos1 f1 /\ frame (take (Z.to_nat n) p) pos pos1 /\
  pos1 !! object (get p f) = pos !! object (get p f).
Proof.
  intros Hw Hn Hf Ho Hd Hp. set (x := get p f).
  assert (Hx : put p f x = p) by (apply put_id; lia).
  pose proof (move_hole_ordered base ofs n (Z.to_nat n) p pos f Hw Hn Hf ltac:(lia) (hole_pre_start _ _ _ _ Ho Hf)) as H1.
  pose proof (move_hole_perm ofs n x (Z.to_nat n) p pos f Hn Hf) as H2. rewrite Hx in H2. specialize (H2 Hd Hp).
  destruct (move_hole _ _ _ _ _ _) as [[p1 pos1] f1]. destruct H1 as (Hh1 & Hf1 & Hleaf & Hw1 & Hl1).
  destruct H2 as (HP1 & Hp1 & Hfr1 & Hx1). simpl.
  split; [done|]. split_and!; try done; [by rewrite length_put|apply fill_hole; (done || lia)| |].
  - rewrite <- HP1, <- take_put_last by (rewrite length_put; lia).
    destruct (decide (f1 = n - 1)) as [E|E]; [rewrite E; by rewrite put_put|].
    rewrite <- move_is_swap by lia. symmetry. apply HEAP_SWAP_perm; rewrite ?length_put; lia.
  - intros Hof i Hi Hne. rewrite <- (Hp1 Hof i ltac:(lia) Hne). by rewrite !get_put_ne by lia.
Qed.

Lemma distinct_prefix p n l x :
  0 < n <= Z.of_nat (length p) -> NoDup (map object l) -> l ≡ₚ take (Z.to_nat (n - 1)) p ++ [x] ->
  distinct p (n - 1) /\ object x ∉ map object (take (Z.to_nat (n - 1)) p).
Proof.
  intros Hn HN HP. rewrite (Permutation_map object HP), map_app in HN. apply list.NoDup_app in HN as (HN & Hx & _).
  split; [by apply distinct_NoDup; [lia|]|]. intros Hin. by apply (Hx _ Hin), list_elem_of_singleton.
Qed.

Lemma frame_sub l l' pos pos' : (forall e, e ∈ l' -> e ∈ l) -> frame l' pos pos' -> frame l pos pos'.
Proof.
  intros Hsub Hf x Hx. apply Hf. intros (e & -> & He)%list_elem_of_fmap. apply Hx, list_elem_of_fmap. eauto.
Qed.

Lemma extract_at_ok base h f pos h' pos' :
  heap_ok base h pos -> 0 <= f < elements h -> extract_at h f pos = (h', pos') ->
  heap_ok base h' pos' /\ entries h ≡ₚ get (h_p h) f :: entries h' /\ frame (entries h) pos pos' /\
  (0 < h_ofs h -> pos' !! object (get (h_p h) f) = Some (-16)) /\
  h_ofs h' = h_ofs h /\ elements h' = elements h - 1.
Proof.
  intros Hok Hf. pose proof Hok as [[Hl He] Hw Ho Hd Hp]. pose proof (heap_ok_NoDup _ _ _ Hok) as HN.
  unfold extract_at. set (n := elements h) in *. set (x := get (h_p h) f).
  set (pos0 := RESET_OFFSET (h_ofs h) (h_p h) f pos).
  assert (Hx0 : 0 < h_ofs h -> pos0 !! object x = Some (-16)).
  { intros Hof. unfold pos0, RESET_OFFSET. rewrite (proj2 (Z.ltb_lt 0 _) Hof). by rewrite lookup_insert_eq. }
  pose proof (move_hole_filled base (h_ofs h) n (h_p h) pos0 f Hw ltac:(lia) Hf Ho Hd (reset_pos _ _ _ _ _ Hd Hf Hp)) as H.
  destruct (move_hole _ _ _ _ _ _) as [[p1 pos1] f1]. destruct H as (Hf1 & Hl2 & Hl1 & Hup & HP & Hp2 & Hfr & Hx1).
  set (p2 := put p1 f1 (get p1 (n - 1))) in *. change (take (Z.to_nat n) (h_p h)) with (entries h) in HP, Hfr. fold x in HP, Hx1.
  destruct (distinct_prefix p2 n (entries h) x ltac:(lia) HN HP) as [Hd2 Hxout].
  assert (Hw2 : windowed base (take (Z.to_nat (n - 1)) p2)).
  { unfold windowed in Hw. rewrite HP in Hw. apply Forall_app in Hw as [Hw _]. exact Hw. }
  assert (Hfr1 : frame (entries h) pos pos1).
  { apply (frame_trans _ _ pos0); [apply reset_frame; (done || lia)|exact Hfr]. }
  set (h2 := mk_heap (h_size h) (n - 1) (h_ofs h) p2).
  assert (HP2 : entries h ≡ₚ x :: entries h2) by (rewrite HP; apply Permutation_app_comm).
  destruct (Z.eqb_spec f1 (n - 1)) as [E|E].
  - assert (p2 = p1) as Ep by (unfold p2; rewrite E; apply put_id; lia).
    intros [= <- <-]. rewrite <- Ep. change (set_elements (n - 1) (set_p p2 h)) with h2.
    split_and!; try done; [|intros Hof; rewrite Hx1; by apply Hx0].
    constructor; simpl; try done; [lia| |].
    + intros i Hi. apply Hup; lia.
    + intros Hof i Hi _. apply Hp2; (done || lia).
  - unfold heap_insert_at. change (set_p p2 (set_elements (n - 1) (set_p p1 h))) with h2.
    intros Hb. apply (bubble_spec base) in Hb as (Hok3 & HP3 & Hfr3 & Hs3 & Hof3 & He3); simpl; try (done || lia).
    split_and!; try done.
    + by rewrite HP3.
    + apply (frame_trans _ _ pos1); [done|]. apply (frame_sub _ (entries h2)); [|done].
      intros e Hin. rewrite HP2. by right.
    + intros Hof. rewrite (Hfr3 _ Hxout), Hx1. by apply Hx0.
Qed.

Lemma heap_extract_top base h pos :
  heap_ok base h pos -> 0 < elements h ->
  exists h' pos', heap_extract h 0 pos = Some (h', pos') /\
    heap_ok base h' pos' /\ entries h ≡ₚ HEAP_TOP h :: entries h' /\ frame (entries h) pos pos' /\
    h_ofs h' = h_ofs h /\ elements h' = elements h - 1.
Proof.
  intros Hok He. rewrite heap_extract_unfold. rewrite (proj2 (Z.ltb_ge _ _)) by lia. simpl.
  destruct (extract_at h 0 pos) as [h' pos'] eqn:E. exists h', pos'. split; [done|].
  apply (extract_at_ok base) in E as (? & ? & ? & _ & ? & ?); [split_and!; done|done|lia].
Qed.

Lemma heap_extract_obj base h pos e :
  heap_ok base h pos -> e ∈ entries h -> object e <> 0 -> 0 < h_ofs h ->
  exists h' pos', heap_extract h (object e) pos = Some (h', pos') /\
    heap_ok base h' pos' /\ entries h ≡ₚ e :: entries h' /\ frame (entries h) pos pos' /\
    h_ofs h' = h_ofs h /\ elements h' = elements h - 1.
Proof.
  intros Hok Hin Hne Hof. pose proof (heap_ok_bounds _ _ _ Hok) as Hb.
  destruct (entry_pos (h_p h) (elements h) e ltac:(lia) Hin) as (i & Hi & <-).
  rewrite heap_extract_unfold, (proj2 (Z.ltb_ge _ _)), (proj2 (Z.eqb_neq _ _) Hne), (proj2 (Z.leb_gt _ _) Hof) by lia.
  rewrite (ho_pos _ _ _ Hok Hof i Hi) by lia. simpl.
  rewrite (proj2 (Z.ltb_ge i 0)), (proj2 (Z.leb_gt (elements h) i)) by lia. simpl.
  destruct (extract_at h i pos) as [h' pos'] eqn:E. exists h', pos'. split; [done|].
  apply (extract_at_ok base) in E as (? & ? & ? & _ & ? & ?); [split_and!; done|done|lia].
Qed.

(** C32: [heap_extract] takes out the pair with the smallest key, and what is
    left is again a heap that holds the other pairs, each object knowing its
    position. *)
Theorem heap_extract_min base h pos :
  heap_ok base h pos -> 0 < elements h ->
  exists h' pos', heap_extract h 0 pos = Some (h', pos') /\ heap_ok base h' pos' /\
    entries h ≡ₚ HEAP_TOP h :: entries h' /\
    (forall e, e ∈ entries h -> rank base (key (HEAP_TOP h)) <= rank base (key e)) /\
    frame (entries h) pos pos'.
Proof.
  intros Hok He. destruct (heap_extract_top base h pos Hok He) as (h' & pos' & ? & ? & ? & ? & _).
  exists h', pos'. split_and!; try done. intros e. by apply heap_top_min with pos.
Qed.

(** [heap_extract] with an object of the heap takes out that object,
    wherever it is, and what is left is again a heap. *)
Theorem heap_extract_middle base h pos e :
  heap_ok base h pos -> e ∈ entries h -> object e <> 0 -> 0 < h_ofs h ->
  exists h' pos', heap_extract h (object e) pos = Some (h', pos') /\ heap_ok base h' pos' /\
    entries h ≡ₚ e :: entries h' /\ frame (entries h) pos pos'.
Proof.
  intros Hok Hin Hne Hof. destruct (heap_extract_obj base h pos e Hok Hin Hne Hof) as (h' & pos' & ? & ? & ? & ? & _).
  exists h', pos'. split_and!; done.
Qed.

(** ** Scanning *)

Section scan.
Context (fn : Z -> Z).
Hypothesis no_end : forall o, has_flag (fn o) HEAP_SCAN_END = false.

Definition kept (e : dn_heap_entry) : Prop := has_flag (fn (object e)) HEAP_SCAN_DEL = false.
#[global] Instance kept_dec e : Decision (kept e).
Proof. unfold kept. apply _. Defined.

(** Replacing entry [i] by the last one. *)
Lemma delete_entry p n i :
  0 <= i < n -> n <= Z.of_nat (length p) ->
  take (Z.to_nat i) (take (Z.to_nat (n - 1)) (put p i (get p (n - 1)))) = take (Z.to_nat i) (take (Z.to_nat n) p) /\
  drop (Z.to_nat i) (take (Z.to_nat (n - 1)) (put p i (get p (n - 1)))) ≡ₚ drop (S (Z.to_nat i)) (take (Z.to_nat n) p).
Proof.
  intros Hi Hn. set (z := get p (n - 1)). set (l := take (Z.to_nat (n - 1)) p).
  assert (Hl : take (Z.to_nat n) p = l ++ [z]).
  { unfold l, z. replace (Z.to_nat n) with (S (Z.to_nat (n - 1))) by lia. apply take_S_r, get_lookup. lia. }
  assert (Hlen : length l = Z.to_nat (n - 1)) by (unfold l; rewrite length_take; lia).
  assert (Hput : take (Z.to_nat (n - 1)) (put p i z) = <[Z.to_nat i := z]> l).
  { unfold put, l. destruct (decide (i = n - 1)) as [->|]; [|by rewrite take_insert_lt by lia].
    rewrite take_insert_ge by lia. symmetry. apply list_insert_ge. rewrite length_take. lia. }
  rewrite Hput, Hl. split.
  - rewrite take_insert_ge by lia. by rewrite take_app_le by lia.
  - destruct (decide (i = n - 1)) as [->|Hne].
    + rewrite list_insert_ge by lia. rewrite !drop_ge by (rewrite ?length_app; simpl; lia). done.
    + rewrite drop_insert_ge, Nat.sub_diag by lia. rewrite drop_app_le by lia.
      destruct (drop (Z.to_nat i) l) as [|y t] eqn:Ed.
      { apply (f_equal length) in Ed. rewrite length_drop in Ed. simpl in Ed. lia. }
      assert (drop (S (Z.to_nat i)) l = t) as ->.
      { replace (S (Z.to_nat i)) with (Z.to_nat i + 1)%nat by lia. by rewrite <- drop_drop, Ed. }
      simpl. apply Permutation_cons_append.
Qed.

Lemma entries_lookup h i :
  0 <= i < elements h -> elements h <= Z.of_nat (length (h_p h)) -> entries h !! Z.to_nat i = Some (get (h_p h) i).
Proof. intros Hi Hn. unfold entries. rewrite lookup_take_lt by lia. apply get_lookup. lia. Qed.

Definition scanned (h : dn_heap) (i : Z) : list dn_heap_entry :=
  take (Z.to_nat i) (entries h) ++ filter kept (drop (Z.to_nat i) (entries h)).

Lemma scanned_end h i : elements h <= i -> scanned h i = entries h.
Proof.
  intros Hi. unfold scanned, entries. rewrite take_take, Nat.min_r, drop_ge by (rewrite ?length_take; lia).
  by rewrite filter_nil, app_nil_r.
Qed.

Definition delete_at (h : dn_heap) (i : Z) : dn_heap :=
  set_p (put (h_p h) i (get (h_p h) (elements h - 1))) (set_elements (elements h - 1) h).

Lemma scanned_delete h i :
  0 <= i < elements h -> elements h <= Z.of_nat (length (h_p h)) -> ~ kept (get (h_p h) i) ->
  scanned (delete_at h i) i ≡ₚ scanned h i.
Proof.
  intros Hi Hn Hk. unfold scanned. rewrite (drop_S _ _ _ (entries_lookup h i Hi Hn)), filter_cons_False by done.
  destruct (delete_entry (h_p h) (elements h) i Hi Hn) as [Ht Hd].
  unfold entries, delete_at. simpl. by rewrite Ht, Hd.
Qed.

Lemma scanned_keep h i :
  0 <= i < elements h -> elements h <= Z.of_nat (length (h_p h)) -> kept (get (h_p h) i) ->
  scanned h (i + 1) = scanned h i.
Proof.
  intros Hi Hn Hk. unfold scanned. rewrite (drop_S _ _ _ (entries_lookup h i Hi Hn)), filter_cons_True by done.
  replace (Z.to_nat (i + 1)) with (S (Z.to_nat i)) by lia.
  rewrite (take_S_r _ _ _ (entries_lookup h i Hi Hn)). by rewrite <- app_assoc.
Qed.

(** What the loop keeps of the heap. *)
Definition same_array (h h' : dn_heap) : Prop :=
  h_size h' = h_size h /\ h_ofs h' = h_ofs h /\ length (h_p h') = length (h_p h).

Lemma scan_loop_spec : forall fuel h i found h' found',
  0 <= i -> elements h - i < Z.of_nat fuel -> 0 <= elements h <= Z.of_nat (length (h_p h)) ->
  scan_loop fuel fn h i found = (h', found') ->
  entries h' ≡ₚ scanned h i /\ found' - found = elements h - elements h' /\ found <= found' /\
  (found' = found -> h' = h) /\ same_array h h' /\ 0 <= elements h'.
Proof.
  induction fuel as [|fuel IH]; intros h i found h' found' Hi Hf Hn.
  { simpl. intros [= <- <-]. rewrite scanned_end by lia. split_and!; (done || lia). }
  simpl. destruct (Z.ltb_spec i (elements h)) as [Hlt|Hge].
  - rewrite no_end. destruct (has_flag (fn (object (get (h_p h) i))) HEAP_SCAN_DEL) eqn:Edel.
    + fold (delete_at h i). intros H. apply IH in H as (H1 & H2 & H3 & H4 & (H5 & H6 & H7) & H8);
        simpl in *; rewrite ?length_put in *; try lia.
      rewrite scanned_delete in H1; [|lia|lia|unfold kept; by rewrite Edel].
      split_and!; try done; lia.
    + intros H. apply IH in H as (H1 & H2); try lia. rewrite scanned_keep in H1; [done|lia|lia|done].
  - intros [= <- <-]. rewrite scanned_end by lia. split_and!; (done || lia).
Qed.
End scan.

(** [heapify] after [k] insertions. *)
Definition heapified (base : Z) (h : dn_heap) (pos : positions) (k : Z) (h' : dn_heap) (pos' : positions) : Prop :=
  same_array h h' /\ elements h' = elements h /\ entries h' ≡ₚ entries h /\ frame (entries h) pos pos' /\
  heap_ordered base (h_p h') k /\ pos_except (h_ofs h) (h_p h') k pos' (-1).

Lemma heapify_step base h pos k h' pos' :
  0 <= elements h <= Z.of_nat (length (h_p h)) -> windowed base (entries h) -> NoDup (map object (entries h)) ->
  0 <= k < elements h -> heapified base h pos k h' pos' ->
  let '(h2, pos2) := heap_insert_at h' k pos' in heapified base h pos (k + 1) h2 pos2.
Proof.
  intros Hn Hw HN Hk ((Hs & Ho & Hl) & He & HP & Hfr & Hord & Hpos). unfold heap_insert_at, bubble. rewrite Ho.
  destruct (bubble_up _ _ _ _ _) as [p2 pos2] eqn:E.
  assert (Hf : k < Z.of_nat (S (Z.to_nat k))) by lia.
  assert (Hd : distinct (h_p h') (elements h)).
  { apply distinct_NoDup; [lia|]. rewrite <- He. fold (entries h'). by rewrite (Permutation_map object HP). }
  assert (Hwk : windowed base (take (Z.to_nat (k + 1)) (h_p h'))).
  { unfold windowed in *. rewrite <- HP in Hw. unfold entries in Hw. rewrite He in Hw.
    replace (take (Z.to_nat (k + 1)) (h_p h')) with (take (Z.to_nat (k + 1)) (take (Z.to_nat (elements h)) (h_p h'))).
    - by apply Forall_take.
    - rewrite take_take, Nat.min_l by lia. done. }
  pose proof (bubble_up_ordered base (h_ofs h) (k + 1) (S (Z.to_nat k)) (h_p h') pos' k ltac:(lia) ltac:(lia) Hf Hwk) as H1.
  rewrite E in H1. simpl in H1.
  assert (Hk1 : 0 <= k < k + 1) by lia. assert (Hle : k + 1 <= Z.of_nat (length (h_p h'))) by lia.
  assert (Hk2 : 0 <= k < elements h) by lia. assert (Hle2 : elements h <= Z.of_nat (length (h_p h'))) by lia.
  assert (Hd1 : distinct (h_p h') (k + 1)) by (intros i j Hi Hj; apply Hd; lia).
  assert (Hp1 : pos_except (h_ofs h) (h_p h') (k + 1) pos' k) by (intros Hof i Hi Hne; apply Hpos; (done || lia)).
  destruct (bubble_up_pos _ _ _ _ _ _ _ _ Hk1 Hle Hf Hd1 Hp1 E) as [H2 H3].
  destruct (bubble_up_perm _ _ _ _ _ _ _ _ Hk2 Hle2 E) as [H4 H5].
  assert (HE : entries (set_p p2 h') ≡ₚ entries h).
  { rewrite <- HP. unfold entries. simpl. by rewrite He, H4. }
  split; [unfold same_array; simpl; split_and!; congruence|]. do 2 (split; [done|]). split; [|split; [|done]].
  - apply (frame_trans _ _ pos'); [done|]. apply (frame_sub _ (take (Z.to_nat (k + 1)) (h_p h'))); [|done].
    intros e Hin. rewrite <- HP. unfold entries. rewrite He.
    destruct (entry_pos _ _ _ Hle Hin) as (i & Hi & <-). apply entry_elem; lia.
  - apply H1. split; [intros i Hi Hne; apply Hord; lia|]. intros c Hc Hfc. pose proof (father_lt c). lia.
Qed.

Lemma heapify_ok base h pos h' pos' :
  Z.of_nat (length (h_p h)) = h_size h -> 0 <= elements h <= h_size h -> windowed base (entries h) ->
  NoDup (map object (entries h)) -> heapify h pos = (h', pos') ->
  heap_ok base h' pos' /\ entries h' ≡ₚ entries h /\ frame (entries h) pos pos' /\ elements h' = elements h.
Proof.
  intros Hl Hn Hw HN. unfold heapify.
  assert (Hgen : forall k, (k <= Z.to_nat (elements h))%nat ->
    let '(h2, pos2) := foldl (fun '(h, pos) i => heap_insert_at h (Z.of_nat i) pos) (h, pos) (seq 0 k) in
    heapified base h pos (Z.of_nat k) h2 pos2).
  { induction k as [|k IH]; intros Hk; simpl.
    - split_and!; try done; intros i Hi; lia.
    - change (foldl _ _ _) with (foldl (fun '(h, pos) i => heap_insert_at h (Z.of_nat i) pos) (h, pos) (seq 0 (S k))).
      rewrite seq_S, foldl_app. simpl. specialize (IH ltac:(lia)).
      destruct (foldl _ _ _) as [h2 pos2]. pose proof (heapify_step base h pos (Z.of_nat k) h2 pos2) as Hs.
      destruct (heap_insert_at h2 (Z.of_nat k) pos2) as [h3 pos3].
      replace (Z.of_nat (S k)) with (Z.of_nat k + 1) by lia. apply Hs; (done || lia). }
  specialize (Hgen (Z.to_nat (elements h)) ltac:(lia)). intros E. rewrite E in Hgen.
  destruct Hgen as ((Hs & Ho & Hl') & He & HP & Hfr & Hord & Hpos). rewrite Z2Nat.id in Hord, Hpos by lia.
  split_and!; try done. constructor; rewrite ?He; try done; [lia| | |by rewrite Ho].
  - unfold windowed. by rewrite HP.
  - apply distinct_NoDup; [lia|]. rewrite <- He. fold (entries h'). by rewrite (Permutation_map object HP).
Qed.

(** [heap_scan] with a callback that does not end the scan removes exactly
    the objects the callback wants removed, tells how many they are, and
    leaves a heap in which every object knows its position again. *)
Theorem heap_scan_correct base fn h pos found h' pos' :
  (forall o, has_flag (fn o) HEAP_SCAN_END = false) -> heap_ok base h pos ->
  heap_scan fn h pos = (found, h', pos') ->
  heap_ok base h' pos' /\ entries h' ≡ₚ filter (kept fn) (entries h) /\
  found = elements h - elements h' /\ frame (entries h) pos pos'.
Proof.
  intros Hfn Hok. pose proof Hok as [[Hl Hn] Hw Ho Hd Hp]. unfold heap_scan.
  destruct (scan_loop _ _ _ _ _) as [h1 found1] eqn:E.
  apply (scan_loop_spec fn Hfn) in E as (HP & Hc & Hge & Hsame & (Hs1 & Ho1 & Hl1) & Hpos1); [|lia..].
  unfold scanned in HP. simpl in HP. rewrite drop_0 in HP.
  assert (Hsub : forall e, e ∈ entries h1 -> e ∈ entries h) by (intros e; rewrite HP; by intros [_ ?]%list_elem_of_filter).
  destruct (z2b found1) eqn:Ef; unfold z2b in Ef.
  - destruct (heapify h1 pos) as [h2 pos2] eqn:Eh. intros [= <- <- <-].
    apply (heapify_ok base) in Eh as (Hok2 & HP2 & Hfr2 & He2); [|lia|lia| |].
    + split_and!; try done; [by rewrite HP2|lia|by apply (frame_sub _ (entries h1))].
    + apply list.Forall_forall. intros e He. by apply (proj1 (list.Forall_forall _ _) Hw), Hsub.
    + rewrite (Permutation_map object HP).
      apply (sublist_NoDup _ _ (heap_ok_NoDup _ _ _ Hok)), fmap_sublist, sublist_filter.
  - apply negb_false_iff, Z.eqb_eq in Ef. intros [= <- <- <-]. rewrite (Hsame Ef) in *.
    split_and!; (done || lia).
Qed.

(** ** Initialisation *)

Lemma heap_init_ok base malloc h size ofs pos ret h' :
  0 < size < 2 ^ 32 -> Z.of_nat (length (h_p h)) = h_size h -> heap_init malloc h size ofs = (ret, h') ->
  (ret = 0 /\ heap_ok base h' pos /\ entries h' = [] /\ h_ofs h' = ofs /\ size <= h_size h') \/ ret = 1.
Proof.
  intros Hs Hl. unfold heap_init. destruct (heap_resize malloc h size) as [r h1] eqn:E.
  apply heap_resize_spec in E as [(-> & Hge & Hl1 & _)|(-> & -> & _)]; try done; simpl; intros [= <- <-]; [left|by right].
  split_and!; try done. constructor; simpl; [lia|constructor| | |]; intros ?; intros; lia.
Qed.

(** ** An example *)

Definition example_malloc (n : Z) : bool := n <? 1000.

Definition example_insert (hp : dn_heap * positions) (e : dn_heap_entry) : dn_heap * positions :=
  let '(_, h, pos) := heap_insert example_malloc (fst hp) (key e) (object e) (snd hp) in (h, pos).

(** Keys around the end of the 64-bit range. *)
Definition example_base : Z := 2 ^ 64 - 20.
Definition example_heap : dn_heap * positions :=
  foldl example_insert (snd (heap_init example_malloc heap_zero 3 8), ∅)
    [mk_entry 5 101; mk_entry (2 ^ 64 - 3) 102; mk_entry 1 103; mk_entry (2 ^ 64 - 10) 104; mk_entry 1 105].

Lemma example_insert_ok base hp e :
  heap_ok base (fst hp) (snd hp) -> in_window base (key e) -> object e ∉ map object (entries (fst hp)) ->
  elements (fst hp) < 2 ^ 32 - 16 ->
  heap_ok base (fst (example_insert hp e)) (snd (example_insert hp e)).
Proof.
  intros Hok Hk Hnew Hlim. unfold example_insert. destruct (heap_insert _ _ _ _ _) as [[ret h'] pos'] eqn:E. simpl.
  destruct (heap_insert_ok base _ _ _ _ _ _ _ _ Hok Hk Hnew Hlim E) as [(_ & H & _)|(_ & -> & -> & _)]; [exact H|exact Hok].
Qed.

Lemma example_heap_ok : heap_ok example_base (fst example_heap) (snd example_heap).
Proof.
  unfold example_heap. cbn [foldl]. repeat apply example_insert_ok;
    try (vm_compute; reflexivity); try (apply (bool_decide_eq_true_1 _); vm_compute; reflexivity).
  destruct (heap_init example_malloc heap_zero 3 8) as [r h] eqn:E.
  assert (r = 0) as -> by (vm_compute in E; congruence).
  destruct (heap_init_ok example_base example_malloc heap_zero 3 8 ∅ 0 h) as [(_ & H & _)|H];
    [split; reflexivity|reflexivity|exact E|exact H|discriminate].
Qed.

Lemma heap_insert_correct_witness :
  exists ret h' pos', heap_insert example_malloc (fst example_heap) 3 106 (snd example_heap) = (ret, h', pos') /\
    ret = 0 /\ heap_ok example_base h' pos' /\ entries h' ≡ₚ mk_entry 3 106 :: entries (fst example_heap).
Proof.
  destruct (heap_insert example_malloc (fst example_heap) 3 106 (snd example_heap)) as [[ret h'] pos'] eqn:E.
  exists ret, h', pos'. split; [reflexivity|].
  assert (Hr : ret = 0) by (vm_compute in E; congruence).
  assert (Hnew : 106 ∉ map object (entries (fst example_heap))) by (apply (bool_decide_eq_true_1 _); vm_compute; reflexivity).
  destruct (heap_insert_correct example_base example_malloc (fst example_heap) 3 106 (snd example_heap) ret h' pos'
              example_heap_ok eq_refl Hnew eq_refl E) as [(H1 & H2 & H3 & _)|(H1 & _)]; [auto|lia].
Defined.

Lemma heap_extract_min_witness :
  exists h' pos', heap_extract (fst example_heap) 0 (snd example_heap) = Some (h', pos') /\
    heap_ok example_base h' pos' /\ entries (fst example_heap) ≡ₚ mk_entry (2 ^ 64 - 10) 104 :: entries h'.
Proof.
  destruct (heap_extract_min example_base (fst example_heap) (snd example_heap) example_heap_ok eq_refl)
    as (h' & pos' & H1 & H2 & H3 & _). exists h', pos'. split; [exact H1|]. split; [exact H2|exact H3].
Defined.

Lemma heap_extract_middle_witness :
  exists h' pos', heap_extract (fst example_heap) 102 (snd example_heap) = Some (h', pos') /\
    heap_ok example_base h' pos' /\ entries (fst example_heap) ≡ₚ mk_entry (2 ^ 64 - 3) 102 :: entries h'.
Proof.
  assert (Hin : mk_entry (2 ^ 64 - 3) 102 ∈ entries (fst example_heap)) by (vm_compute; right; left).
  assert (Hne : object (mk_entry (2 ^ 64 - 3) 102) <> 0) by discriminate.
  destruct (heap_extract_middle example_base (fst example_heap) (snd example_heap) _ example_heap_ok Hin Hne eq_refl)
    as (h' & pos' & H1 & H2 & H3 & _). exists h', pos'. split; [exact H1|]. split; [exact H2|exact H3].
Defined.

Definition example_fn (o : Z) : Z := if o <? 103 then HEAP_SCAN_DEL else 0.

Lemma heap_scan_correct_witness :
  exists h' pos', heap_scan example_fn (fst example_heap) (snd example_heap) = (2, h', pos') /\
    heap_ok example_base h' pos' /\ entries h' ≡ₚ filter (kept example_fn) (entries (fst example_heap)).
Proof.
  destruct (heap_scan example_fn (fst example_heap) (snd example_heap)) as [[found h'] pos'] eqn:E.
  exists h', pos'. split; [vm_compute in E; congruence|].
  assert (Hfn : forall o, has_flag (example_fn o) HEAP_SCAN_END = false)
    by (intros o; unfold example_fn; destruct (o <? 103); reflexivity).
  destruct (heap_scan_correct example_base example_fn _ _ _ _ _ Hfn example_heap_ok E) as (H1 & H2 & _).
  split; [exact H1|exact H2].
Defined.
