(* ===== verification/DnHt.v ===== *)
(** * The hash table of dummynet

    sched16/dn_heap.c, second part: [dn_ht_init], [dn_ht_find] (which also
    inserts and removes), [dn_ht_scan], [dn_ht_scan_bucket], [dn_ht_free] and
    [dn_ht_entries].  The elements are linked through a field of their own, so
    the model has the memory of those fields and the heads of the buckets; the
    theorems relate it to lists and to a finite map from keys to elements. *)

From stdpp Require Import gmap.
From S2P Require Import Prelude.
Open Scope Z_scope.

Module DnHt.

Definition DNHT_SCAN_DEL : Z := 0x0001.
Definition DNHT_SCAN_END : Z := 0x0002.
Definition DNHT_KEY_IS_OBJ : Z := 0x0004.
Definition DNHT_MATCH_PTR : Z := 0x0008.
Definition DNHT_INSERT : Z := 0x0010.
Definition DNHT_UNIQUE : Z := 0x0020.
Definition DNHT_REMOVE : Z := 0x0040.

Definition flag (flags bit : Z) : bool := negb (Z.land flags bit =? 0).

(** [buckets] is the number of buckets minus one; [ht] has the bucket heads.
    The link field of each object ([(char * )p + ofs]) is in a map, the memory
    of the operations; 0 is the null pointer. *)
Record dn_ht := mk_ht { buckets : Z; entries : Z; ht : list Z }.

(** ** Initialization *)

Definition next_power (b : Z) : Z :=
  let b := Z.lor b (Z.shiftr b 1) in
  let b := Z.lor b (Z.shiftr b 2) in
  let b := Z.lor b (Z.shiftr b 4) in
  let b := Z.lor b (Z.shiftr b 8) in
  Z.lor b (Z.shiftr b 16).

(** The number of buckets, minus one. *)
Definition ht_size (b_ori : Z) : Z :=
  let b_max := next_power b_ori in
  let b_min := Z.shiftr b_max 1 in
  if b_min * 4000 / 3000 <? b_ori then b_max else b_min.

(** [old] is the table to recycle, [fns] is whether the hash and match
    functions are given, [malloc] whether there is memory. *)
Definition dn_ht_init (old : option dn_ht) (n : Z) (fns malloc : bool) : option dn_ht :=
  if negb fns then None
  else if (n <? 1) || (65536 <? n) then None
  else
    let b := ht_size n in
    match old with
    | Some t => if b <=? buckets t then Some (mk_ht b (entries t) (ht t))
                else if malloc then Some (mk_ht b 0 (replicate (Z.to_nat (b + 1)) 0)) else None
    | None => if malloc then Some (mk_ht b 0 (replicate (Z.to_nat (b + 1)) 0)) else None
    end.

Definition dn_ht_entries (t : option dn_ht) : Z := match t with Some t => entries t | None => 0 end.

(** ** Lookup *)

(** Where a pointer to an element is stored: [pp] and [curp]. *)
Inductive loc := Head (i : nat) | Link (p : Z).

Definition load (t : dn_ht) (m : gmap Z Z) (l : loc) : option Z :=
  match l with Head i => ht t !! i | Link p => m !! p end.

Definition store (l : loc) (v : Z) (t : dn_ht) (m : gmap Z Z) : dn_ht * gmap Z Z :=
  match l with
  | Head i => (mk_ht (buckets t) (entries t) (<[i := v]> (ht t)), m)
  | Link p => (t, <[p := v]> m)
  end.

(** [entries] is an [int]. *)
Definition add_entries (d : Z) (t : dn_ht) : dn_ht := mk_ht (buckets t) (s32 (entries t + d)) (ht t).

(** The bucket of a hash value. *)
Definition bucket_of (t : dn_ht) (h : Z) : nat :=
  if buckets t =? 1 then 0%nat else Z.to_nat (Z.land h (buckets t)).

(** The loop of [dn_ht_find]: the last [pp] and [p]; [None] is an access to an
    object that does not exist. *)
Fixpoint find_loop (fuel : nat) (test : Z -> bool) (t : dn_ht) (m : gmap Z Z) (pp : loc) : option (loc * Z) :=
  match fuel with
  | O => None
  | S fuel =>
      match load t m pp with
      | None => None
      | Some p => if p =? 0 then Some (pp, 0) else if test p then Some (pp, p) else find_loop fuel test t m (Link p)
      end
  end.

Section find.
(** The callbacks of the table: [hash(key, flags, arg)], [match(obj, key, flags,
    arg)] and, if it is given, [newh(key, flags, arg)].  They do not change the
    table or the link fields of the objects in it. *)
Context {Arg : Type} (hash : Z -> Z -> Arg -> Z) (matches : Z -> Z -> Z -> Arg -> bool) (newh : option (Z -> Z -> Arg -> Z)).

(** The object that an insertion adds. *)
Definition new_object (key flags : Z) (arg : Arg) : Z := match newh with Some newh => newh key flags arg | None => key end.

(** [dn_ht_find]: the element found (0 if there is none), the table and the
    link fields. *)
Definition dn_ht_find (t : option dn_ht) (m : gmap Z Z) (key flags : Z) (arg : Arg) : option (Z * option dn_ht * gmap Z Z) :=
  match t with
  | None => Some (0, t, m)
  | Some t =>
      let i := bucket_of t (hash key flags arg) in
      let test p := if flag flags DNHT_MATCH_PTR then key =? p else matches p key flags arg in
      match find_loop (S (S (size m))) test t m (Head i) with
      | None => None
      | Some (pp, p) =>
          if negb (p =? 0) then
            if flag flags DNHT_REMOVE then
              match m !! p with
              | None => None
              | Some next =>
                  let '(t, m) := store pp next t m in
                  Some (p, Some (add_entries (-1) t), <[p := 0]> m)
              end
            else Some (p, Some t, m)
          else if flag flags DNHT_INSERT then
            let p := new_object key flags arg in
            if p =? 0 then Some (p, Some t, m)
            else
              match ht t !! i with
              | None => None
              | Some h => let '(t, m) := store (Head i) p (add_entries 1 t) (<[p := h]> m) in Some (p, Some t, m)
              end
          else Some (0, Some t, m)
      end
  end.

End find.

(** ** Scan *)

Section scan.
Context {A : Type} (fn : Z -> A -> Z * A).

(** The inner loop: whether the scan ends here, [found], the state of the
    callback, the table and the link fields. *)
Fixpoint scan_loop (fuel : nat) (curp : loc) (found : Z) (a : A) (t : dn_ht) (m : gmap Z Z) : option (bool * Z * A * dn_ht * gmap Z Z) :=
  match fuel with
  | O => None
  | S fuel =>
      match load t m curp with
      | None => None
      | Some cur =>
          if cur =? 0 then Some (false, found, a, t, m)
          else
            match m !! cur with
            | None => None
            | Some next =>
                let '(ret, a) := fn cur a in
                let '(curp, found, t, m) :=
                  if flag ret DNHT_SCAN_DEL then
                    let '(t, m) := store curp next (add_entries (-1) t) m in (curp, s32 (found + 1), t, m)
                  else (Link cur, found, t, m) in
                if flag ret DNHT_SCAN_END then Some (true, found, a, t, m) else scan_loop fuel curp found a t m
            end
      end
  end.

(** The outer loop, on the buckets from [i] on. *)
Fixpoint scan_buckets (n i : nat) (found : Z) (a : A) (t : dn_ht) (m : gmap Z Z) : option (Z * A * dn_ht * gmap Z Z) :=
  match n with
  | O => Some (found, a, t, m)
  | S n =>
      match scan_loop (S (S (size m))) (Head i) found a t m with
      | None => None
      | Some (ended, found, a, t, m) => if ended then Some (found, a, t, m) else scan_buckets n (S i) found a t m
      end
  end.

Definition dn_ht_scan (t : dn_ht) (m : gmap Z Z) (a : A) : option (Z * A * dn_ht * gmap Z Z) :=
  scan_buckets (Z.to_nat (buckets t + 1)) 0 0 a t m.

(** [dn_ht_scan_bucket]: also the bucket number that the caller gets back. *)
Definition dn_ht_scan_bucket (t : dn_ht) (m : gmap Z Z) (bucket : Z) (a : A) : option (Z * Z * A * dn_ht * gmap Z Z) :=
  let bucket := if buckets t <? bucket then 0 else bucket in
  if bucket <? 0 then None
  else
  match scan_loop (S (S (size m))) (Head (Z.to_nat bucket)) 0 a t m with
  | None => None
  | Some (_, found, a, t, m) => Some (bucket, found, a, t, m)
  end.
End scan.

(** [dn_ht_free] with [DNHT_REMOVE]: the elements are unlinked; otherwise the
    table is released. *)
Definition dn_ht_free (t : option dn_ht) (m : gmap Z Z) (flags : Z) : option (option dn_ht * gmap Z Z) :=
  match t with
  | None => Some (None, m)
  | Some t =>
      if flag flags DNHT_REMOVE then
        match dn_ht_scan (fun _ (_ : unit) => (DNHT_SCAN_DEL, tt)) t m tt with
        | None => None
        | Some (_, _, t, m) => Some (Some t, m)
        end
      else Some (None, m)
  end.

End DnHt.
Import DnHt.

(** ** Chains *)

(** From the pointer [p] the links lead through the elements [l] to null. *)
Fixpoint chain (m : gmap Z Z) (p : Z) (l : list Z) : Prop :=
  match l with
  | [] => p = 0
  | q :: l => p = q /\ q <> 0 /\ exists n, m !! q = Some n /\ chain m n l
  end.

Lemma chain_frame m m' l : forall p, (forall q, q ∈ l -> m' !! q = m !! q) -> chain m p l -> chain m' p l.
Proof.
  induction l as [|q l IH]; intros p Hf; [done|]. intros (-> & Hq & n & Hn & Hc). split_and!; [done..|].
  exists n. split; [by rewrite Hf by (by left)|]. apply IH; [|done]. intros x Hx. apply Hf. by right.
Qed.

Lemma chain_dom m l : forall p, chain m p l -> forall q, q ∈ l -> is_Some (m !! q).
Proof.
  induction l as [|x l IH]; intros p Hc q Hq; [by apply elem_of_nil in Hq|]. destruct Hc as (-> & _ & n & Hn & Hc).
  apply elem_of_cons in Hq as [->|Hq]; [by rewrite Hn|by eapply IH].
Qed.

Lemma chain_nonnull m l : forall p, chain m p l -> 0 ∉ l.
Proof.
  induction l as [|x l IH]; intros p Hc; [by intros ?%elem_of_nil|]. destruct Hc as (-> & Hx & n & _ & Hc).
  apply not_elem_of_cons. split; [done|by eapply IH].
Qed.

(** The elements of a chain are in memory, so there are at most as many as
    link fields. *)
Lemma dom_length (m : gmap Z Z) l : NoDup l -> (forall q, q ∈ l -> is_Some (m !! q)) -> (length l <= size m)%nat.
Proof.
  intros Hnd Hd. rewrite <- (size_dom m), <- (size_list_to_set (C := gset Z) l Hnd). apply subseteq_size.
  intros q Hq%elem_of_list_to_set. apply elem_of_dom. by apply Hd.
Qed.

(** The location that holds the pointer to the element after [l1], for a chain
    that starts at [start]. *)
Fixpoint loc_after (start : loc) (l1 : list Z) : loc :=
  match l1 with [] => start | x :: l1 => loc_after (Link x) l1 end.

Lemma load_after t m start l1 l2 p : load t m start = Some p -> chain m p (l1 ++ l2) ->
  exists n, load t m (loc_after start l1) = Some n /\ chain m n l2.
Proof.
  revert start p. induction l1 as [|x l1 IH]; intros start p Hl Hc; [by exists p|].
  destruct Hc as (-> & _ & n & Hn & Hc). by apply (IH (Link x) n).
Qed.

(** ** The table as lists *)

Record repr (t : dn_ht) (m : gmap Z Z) (bs : list (list Z)) : Prop := {
  rp_len : length (ht t) = length bs;
  rp_chain : forall i l, bs !! i = Some l -> exists h, ht t !! i = Some h /\ chain m h l;
  rp_nodup : NoDup (concat bs);
  rp_entries : entries t = s32 (Z.of_nat (length (concat bs)));
  rp_mask : 0 <= buckets t < Z.of_nat (length bs);
}.

Lemma concat_split (bs : list (list Z)) i l : bs !! i = Some l ->
  exists b1 b2, bs = b1 ++ l :: b2 /\ length b1 = i /\ forall l', <[i := l']> bs = b1 ++ l' :: b2.
Proof.
  intros Hl. apply list_elem_of_split_length in Hl as (b1 & b2 & -> & ->). exists b1, b2. split; [done|]. split; [done|].
  intros l'. by rewrite insert_app_r_alt, Nat.sub_diag by done.
Qed.

Lemma bucket_insert_perm (bs : list (list Z)) i l l' : bs !! i = Some l ->
  exists rest, concat bs ≡ₚ l ++ rest /\ concat (<[i := l']> bs) ≡ₚ l' ++ rest.
Proof.
  intros Hl. destruct (concat_split bs i l Hl) as (b1 & b2 & -> & _ & Hi). exists (concat b1 ++ concat b2).
  rewrite Hi, !concat_app, !concat_cons. split; by rewrite Permutation_app_swap_app.
Qed.

Lemma elem_concat (bs : list (list Z)) q : q ∈ concat bs <-> exists i l, bs !! i = Some l /\ q ∈ l.
Proof.
  rewrite list_elem_of_In, in_concat. split.
  - intros (l & Hl & Hq). apply list_elem_of_In, list_elem_of_lookup in Hl as [i Hi]. exists i, l. by rewrite list_elem_of_In.
  - intros (i & l & Hi & Hq). exists l. split; [|by apply list_elem_of_In]. apply list_elem_of_In. by eapply list_elem_of_lookup_2.
Qed.

Lemma repr_dom t m bs q : repr t m bs -> q ∈ concat bs -> is_Some (m !! q).
Proof.
  intros Hr (i & l & Hi & Hq)%elem_concat. destruct (rp_chain _ _ _ Hr i l Hi) as (h & _ & Hc). by eapply chain_dom.
Qed.

Lemma repr_nonnull t m bs : repr t m bs -> 0 ∉ concat bs.
Proof.
  intros Hr (i & l & Hi & Hq)%elem_concat. destruct (rp_chain _ _ _ Hr i l Hi) as (h & _ & Hc). by eapply chain_nonnull.
Qed.

Lemma bucket_nodup t m bs i l : repr t m bs -> bs !! i = Some l -> NoDup l.
Proof.
  intros Hr Hl. destruct (bucket_insert_perm bs i l [] Hl) as (rest & Hp & _). pose proof (rp_nodup _ _ _ Hr) as Hn.
  rewrite Hp in Hn. by apply list.NoDup_app in Hn as [? _].
Qed.

Lemma bucket_length t m bs i l : repr t m bs -> bs !! i = Some l -> (length l <= size m)%nat.
Proof.
  intros Hr Hl. apply dom_length; [by eapply bucket_nodup|]. intros q Hq. eapply repr_dom; [done|]. apply elem_concat. by exists i, l.
Qed.

(** Distinct buckets have no element in common. *)
Lemma bucket_disjoint t m bs i j li lj q : repr t m bs -> bs !! i = Some li -> bs !! j = Some lj -> i <> j -> q ∈ li -> q ∉ lj.
Proof.
  intros Hr Hi Hj Hne Hq Hq'. pose proof (rp_nodup _ _ _ Hr) as Hn.
  destruct (bucket_insert_perm bs i li [] Hi) as (rest & Hp & Hp'). simpl in Hp'.
  rewrite Hp in Hn. apply list.NoDup_app in Hn as (_ & Hd & _). apply (Hd q Hq). rewrite <- Hp'.
  apply elem_concat. exists j, lj. by rewrite list_lookup_insert_ne.
Qed.

(** ** Updates *)

Lemma store_frame l v t m : let '(t1, m1) := store l v t m in
  (forall x, l <> Link x -> m1 !! x = m !! x) /\ (forall i, l <> Head i -> ht t1 !! i = ht t !! i) /\
  length (ht t1) = length (ht t) /\ buckets t1 = buckets t /\ entries t1 = entries t.
Proof.
  destruct l as [i|x]; simpl; (split; [|split]).
  - done.
  - intros j Hj. rewrite list_lookup_insert_ne by congruence. done.
  - by rewrite length_insert.
  - intros y Hy. by rewrite lookup_insert_ne by congruence.
  - done.
  - done.
Qed.

Lemma store_load l v t m w : load t m l = Some w -> let '(t1, m1) := store l v t m in load t1 m1 l = Some v.
Proof.
  destruct l as [i|x]; simpl; intros Hl; [|by rewrite lookup_insert_eq].
  rewrite list_lookup_insert_eq; [done|by apply lookup_lt_Some in Hl].
Qed.

Lemma loc_after_in start l : loc_after start l = start \/ exists x, x ∈ l /\ loc_after start l = Link x.
Proof.
  revert start. induction l as [|x l IH]; intros start; [by left|]. right. cbn [loc_after].
  destruct (IH (Link x)) as [->|(y & Hy & ->)]; [exists x; split; [by left|done]|exists y; split; [by right|done]].
Qed.

(** [*pp = next], for the element [q] of a chain that starts at [start]. *)
Lemma unlink_chain start l1 q l2 next t m p : load t m start = Some p -> chain m p (l1 ++ q :: l2) -> NoDup (l1 ++ q :: l2) ->
  (forall x, start = Link x -> x ∉ l1 ++ q :: l2) -> m !! q = Some next ->
  let '(t1, m1) := store (loc_after start l1) next t m in exists p', load t1 m1 start = Some p' /\ chain m1 p' (l1 ++ l2).
Proof.
  revert start p. induction l1 as [|y l1 IH]; intros start p Hl Hc Hnd Hst Hq; simpl.
  - destruct Hc as (-> & _ & n & Hn & Hc). rewrite Hq in Hn. injection Hn as <-.
    pose proof (store_load start next t m q Hl) as Hload. pose proof (store_frame start next t m) as Hf.
    destruct (store start next t m) as [t1 m1]. destruct Hf as (Hf & _). exists next. split; [done|].
    eapply chain_frame; [|done]. intros x Hx. apply Hf. intros ->. apply (Hst x eq_refl). right. done.
  - destruct Hc as (-> & Hy & n & Hn & Hc). apply list.NoDup_cons in Hnd as [Hyn Hnd].
    specialize (IH (Link y) n Hn Hc Hnd ltac:(by intros x [= <-]) Hq).
    pose proof (store_frame (loc_after (Link y) l1) next t m) as Hf.
    destruct (store (loc_after (Link y) l1) next t m) as [t1 m1]. destruct IH as (p' & Hp' & Hc'). destruct Hf as (Hf1 & Hf2 & _).
    exists y. split; [|split; [done|split; [done|by exists p']]]. rewrite <- Hl.
    destruct (loc_after_in (Link y) l1) as [E|(x & Hx & E)]; rewrite E in Hf1, Hf2; (destruct start as [i|z]; [by apply Hf2|]).
    + apply Hf1. intros [= ->]. apply (Hst z eq_refl). by left.
    + apply Hf1. intros [= ->]. apply (Hst z eq_refl). right. apply elem_of_app. by left.
Qed.

Lemma repr_insert_bucket t t' m m' bs i l l' h' : repr t m bs -> bs !! i = Some l ->
  length (ht t') = length (ht t) -> buckets t' = buckets t -> entries t' = s32 (entries t + (Z.of_nat (length l') - Z.of_nat (length l))) ->
  (forall j, j <> i -> ht t' !! j = ht t !! j) -> ht t' !! i = Some h' -> chain m' h' l' ->
  (forall q, q ∈ concat bs -> q ∉ l -> m' !! q = m !! q) -> NoDup (concat (<[i := l']> bs)) -> repr t' m' (<[i := l']> bs).
Proof.
  intros Hr Hi Hlen Hb He Hh Hhi Hc Hm Hnd. destruct (bucket_insert_perm bs i l l' Hi) as (rest & P1 & P2). split.
  - by rewrite length_insert, Hlen, (rp_len _ _ _ Hr).
  - intros j lj Hj. destruct (decide (j = i)) as [->|Hne].
    + rewrite list_lookup_insert_eq in Hj by (by eapply lookup_lt_Some). injection Hj as <-. by exists h'.
    + rewrite list_lookup_insert_ne in Hj by done. destruct (rp_chain _ _ _ Hr j lj Hj) as (h & Hh1 & Hc1). exists h.
      split; [by rewrite Hh|]. eapply chain_frame; [|done]. intros q Hq. apply Hm; [apply elem_concat; by exists j, lj|].
      by eapply bucket_disjoint.
  - done.
  - rewrite P2, length_app. rewrite He, (rp_entries _ _ _ Hr), P1, length_app, s32_add_l. f_equal. lia.
  - rewrite length_insert, Hb. apply Hr.
Qed.

(** An element leaves its bucket. *)
Lemma repr_unlink t m bs i l1 q l2 next : repr t m bs -> bs !! i = Some (l1 ++ q :: l2) -> m !! q = Some next ->
  let '(t1, m1) := store (loc_after (Head i) l1) next t m in
  repr (add_entries (-1) t1) m1 (<[i := l1 ++ l2]> bs) /\ concat bs ≡ₚ q :: concat (<[i := l1 ++ l2]> bs) /\ dom m1 = dom m.
Proof.
  intros Hr Hi Hq. destruct (rp_chain _ _ _ Hr _ _ Hi) as (h & Hh & Hc). pose proof (bucket_nodup _ _ _ _ _ Hr Hi) as Hnd.
  pose proof (unlink_chain (Head i) l1 q l2 next t m h Hh Hc Hnd ltac:(done) Hq) as Hu.
  assert (Hd : dom (snd (store (loc_after (Head i) l1) next t m)) = dom m).
  { destruct (loc_after_in (Head i) l1) as [->|(x & Hx & ->)]; simpl; [done|]. apply dom_insert_lookup_L.
    eapply chain_dom; [done|]. apply elem_of_app. by left. }
  pose proof (store_frame (loc_after (Head i) l1) next t m) as Hf.
  destruct (store (loc_after (Head i) l1) next t m) as [t1 m1]. destruct Hu as (p' & Hp' & Hc'). destruct Hf as (F1 & F2 & F3 & F4 & F5).
  destruct (bucket_insert_perm bs i _ (l1 ++ l2) Hi) as (rest & P1 & P2).
  assert (Hperm : concat bs ≡ₚ q :: concat (<[i := l1 ++ l2]> bs)) by (rewrite P1, P2, <- Permutation_middle; done).
  split; [|done]. eapply (repr_insert_bucket t _ m m1 bs i _ (l1 ++ l2) p'); [done|done|done|done| | |done|done| |].
  - simpl. rewrite F5, !length_app. simpl. f_equal. lia.
  - intros j Hj. apply F2. destruct (loc_after_in (Head i) l1) as [->|(x & _ & ->)]; congruence.
  - intros x _ Hx. apply F1. destruct (loc_after_in (Head i) l1) as [->|(y & Hy & ->)]; [done|]. intros [= ->].
    apply Hx. apply elem_of_app. by left.
  - pose proof (rp_nodup _ _ _ Hr) as Hn. rewrite Hperm in Hn. by apply list.NoDup_cons in Hn as [_ ?].
Qed.

(** The link field of an object that is not in the table. *)
Lemma repr_outside t m bs q v : repr t m bs -> q ∉ concat bs -> repr t (<[q := v]> m) bs.
Proof.
  intros Hr Hq. split; [apply Hr| |apply Hr..]. intros i l Hi. destruct (rp_chain _ _ _ Hr i l Hi) as (h & Hh & Hc). exists h.
  split; [done|]. eapply chain_frame; [|done]. intros x Hx. rewrite lookup_insert_ne; [done|]. intros ->. apply Hq, elem_concat. by exists i, l.
Qed.

(** An object enters at the head of a bucket. *)
Lemma repr_link t m bs i l p h : repr t m bs -> bs !! i = Some l -> p <> 0 -> p ∉ concat bs -> ht t !! i = Some h ->
  repr (mk_ht (buckets t) (s32 (entries t + 1)) (<[i := p]> (ht t))) (<[p := h]> m) (<[i := p :: l]> bs) /\
  concat (<[i := p :: l]> bs) ≡ₚ p :: concat bs.
Proof.
  intros Hr Hi Hp Hn Hh. destruct (rp_chain _ _ _ Hr _ _ Hi) as (h0 & Hh0 & Hc). rewrite Hh in Hh0. injection Hh0 as <-.
  destruct (bucket_insert_perm bs i _ (p :: l) Hi) as (rest & P1 & P2).
  assert (Hperm : concat (<[i := p :: l]> bs) ≡ₚ p :: concat bs) by (by rewrite P1, P2). split; [|done].
  assert (Hlt : (i < length (ht t))%nat) by (by eapply lookup_lt_Some).
  eapply (repr_insert_bucket t _ m _ bs i l (p :: l) p); [done|done| |done| | | | | |].
  - simpl. by rewrite length_insert.
  - simpl. f_equal. lia.
  - intros j Hj. simpl. by rewrite list_lookup_insert_ne.
  - simpl. by rewrite list_lookup_insert_eq.
  - split; [done|]. split; [done|]. exists h. rewrite lookup_insert_eq. split; [done|].
    eapply chain_frame; [|done]. intros x Hx. rewrite lookup_insert_ne; [done|]. intros ->. apply Hn, elem_concat. by exists i, l.
  - intros q Hq _. rewrite lookup_insert_ne; [done|by intros ->].
  - rewrite Hperm. apply list.NoDup_cons. split; [done|apply Hr].
Qed.

(** ** Lookup on lists *)

Lemma find_loop_spec test l : forall fuel t m start p, load t m start = Some p -> chain m p l -> (length l < fuel)%nat ->
  (Forall (fun x => test x = false) l /\ find_loop fuel test t m start = Some (loc_after start l, 0)) \/
  (exists l1 q l2, l = l1 ++ q :: l2 /\ Forall (fun x => test x = false) l1 /\ test q = true /\
     find_loop fuel test t m start = Some (loc_after start l1, q)).
Proof.
  induction l as [|x l IH]; intros fuel t m start p Hl Hc Hf; (destruct fuel as [|fuel]; [simpl in Hf; lia|]); cbn [find_loop]; rewrite Hl.
  - simpl in Hc. subst p. by left.
  - destruct Hc as (-> & Hx & n & Hn & Hc). rewrite (proj2 (Z.eqb_neq x 0) Hx). destruct (test x) eqn:Et.
    + right. exists [], x, l. by split_and!.
    + destruct (IH fuel t m (Link x) n Hn Hc ltac:(simpl in Hf; lia)) as [[H1 H2]|(l1 & q & l2 & -> & H1 & H2 & H3)].
      * left. split; [by constructor|done].
      * right. exists (x :: l1), q, l2. split_and!; [done|by constructor|done|done].
Qed.

Lemma land_range a b : 0 <= b -> 0 <= Z.land a b <= b.
Proof.
  intros Hb. split; [apply Z.land_nonneg; by right|].
  assert (H : b - Z.land a b = Z.ldiff b (Z.land a b)).
  { apply Z.sub_nocarry_ldiff. apply Z.bits_inj_0. intros n. rewrite Z.ldiff_spec, Z.land_spec.
    by destruct (Z.testbit a n), (Z.testbit b n). }
  assert (0 <= Z.ldiff b (Z.land a b)) by (apply Z.ldiff_nonneg; by left). lia.
Qed.

Lemma bucket_range t m bs h : repr t m bs -> exists l, bs !! bucket_of t h = Some l.
Proof.
  intros Hr. apply lookup_lt_is_Some. pose proof (rp_mask _ _ _ Hr) as Hm. unfold bucket_of. case_if; [lia|].
  pose proof (land_range h (buckets t)). lia.
Qed.

(** ** Scan on lists *)

Lemma loc_after_snoc start l x : loc_after start (l ++ [x]) = Link x.
Proof. revert start. induction l as [|y l IH]; intros start; [done|]. apply IH. Qed.

Lemma insert_insert_bucket (bs : list (list Z)) i l l' : <[i := l']> (<[i := l]> bs) = <[i := l']> bs.
Proof. apply list_insert_insert_eq. Qed.

Section scan_lists.
Context {A : Type} (fn : Z -> A -> Z * A).

(** What the scan of a bucket does: whether it ends, the elements that stay,
    how many are removed, and the state of the callback. *)
Fixpoint scan_list (l : list Z) (a : A) : bool * list Z * Z * A :=
  match l with
  | [] => (false, [], 0, a)
  | p :: l =>
      let '(ret, a) := fn p a in
      let del := flag ret DNHT_SCAN_DEL in
      if flag ret DNHT_SCAN_END then (true, if del then l else p :: l, if del then 1 else 0, a)
      else let '(ended, k, f, a) := scan_list l a in (ended, if del then k else p :: k, if del then 1 + f else f, a)
  end.

Lemma ht_scan_loop_spec l2 : forall fuel i l1 found a t m bs, repr t m bs -> s32 found = found -> bs !! i = Some (l1 ++ l2) -> (length l2 < fuel)%nat ->
  let '(ended, k, f, a') := scan_list l2 a in
  exists t' m', scan_loop fn fuel (loc_after (Head i) l1) found a t m = Some (ended, s32 (found + f), a', t', m') /\
  repr t' m' (<[i := l1 ++ k]> bs) /\ dom m' = dom m /\ buckets t' = buckets t.
Proof.
  induction l2 as [|x l2 IH]; intros fuel i l1 found a t m bs Hr Hfo Hi Hf; (destruct fuel as [|fuel]; [simpl in Hf; lia|]); cbn [scan_list scan_loop].
  - destruct (rp_chain _ _ _ Hr _ _ Hi) as (h & Hh & Hc).
    destruct (load_after t m (Head i) l1 [] h Hh Hc) as (n & Hn & Hc'). simpl in Hc'. subst n. rewrite Hn. simpl.
    exists t, m. rewrite Z.add_0_r, Hfo. split; [done|]. split; [|done]. by rewrite list_insert_id.
  - destruct (rp_chain _ _ _ Hr _ _ Hi) as (h & Hh & Hc).
    destruct (load_after t m (Head i) l1 (x :: l2) h Hh Hc) as (n & Hn & Hc'). destruct Hc' as (-> & Hx & next & Hnext & Hc').
    rewrite Hn, (proj2 (Z.eqb_neq x 0) Hx), Hnext. destruct (fn x a) as [ret a1]. destruct (flag ret DNHT_SCAN_DEL) eqn:Ed.
    + pose proof (repr_unlink t m bs i l1 x l2 next Hr Hi Hnext) as Hu.
      pose proof (store_frame (loc_after (Head i) l1) next t m) as Hsf.
      assert (Hst : store (loc_after (Head i) l1) next (add_entries (-1) t) m =
        let '(t1, m1) := store (loc_after (Head i) l1) next t m in (add_entries (-1) t1, m1)) by (by destruct (loc_after (Head i) l1)).
      rewrite Hst. destruct (store (loc_after (Head i) l1) next t m) as [t1 m1]. destruct Hu as (Hr1 & _ & Hd1). destruct Hsf as (_ & _ & _ & Hb1 & _).
      destruct (flag ret DNHT_SCAN_END).
      * by exists (add_entries (-1) t1), m1.
      * specialize (IH fuel i l1 (s32 (found + 1)) a1 _ _ _ Hr1 (s32_s32 _)). rewrite list_lookup_insert_eq in IH by (by eapply lookup_lt_Some).
        specialize (IH eq_refl ltac:(simpl in Hf; lia)). destruct (scan_list l2 a1) as [[[ended k] f] a'].
        destruct IH as (t' & m' & H1 & H2 & H3 & H4). exists t', m'. rewrite insert_insert_bucket in H2.
        split; [by rewrite s32_add_l, <- Z.add_assoc in H1|]. split; [done|]. cbn [buckets add_entries] in H4. split; congruence.
    + destruct (flag ret DNHT_SCAN_END).
      * exists t, m. rewrite Z.add_0_r, Hfo. split; [done|]. split; [|done]. by rewrite list_insert_id.
      * specialize (IH fuel i (l1 ++ [x]) found a1 t m bs Hr Hfo). rewrite <- (assoc_L (++)), loc_after_snoc in IH.
        specialize (IH Hi ltac:(simpl in Hf; lia)). destruct (scan_list l2 a1) as [[[ended k] f] a'].
        destruct IH as (t' & m' & H1 & H2 & H3). exists t', m'. split; [done|]. split; [|done]. by rewrite <- (assoc_L (++)) in H2.
Qed.

End scan_lists.

Definition stays (del : Z -> bool) (p : Z) : Prop := del p = false.
#[export] Instance stays_dec del p : Decision (stays del p).
Proof. unfold stays. apply _. Defined.

(** A callback that asks for the removal of the elements of [del] and never
    ends the scan. *)
Section filter_scan.
Context {A : Type} (fn : Z -> A -> Z * A) (del : Z -> bool).
Hypothesis Hfn : forall p a, flag (fst (fn p a)) DNHT_SCAN_DEL = del p /\ flag (fst (fn p a)) DNHT_SCAN_END = false.

Lemma scan_list_filter l : forall a, exists a', scan_list fn l a = (false, filter (stays del) l, Z.of_nat (length l) - Z.of_nat (length (filter (stays del) l)), a').
Proof.
  induction l as [|p l IH]; intros a; cbn [scan_list]; [by exists a|].
  destruct (Hfn p a) as [H1 H2]. destruct (fn p a) as [ret a1]. cbn [fst] in H1, H2. rewrite H1, H2.
  destruct (IH a1) as (a' & ->). exists a'. rewrite filter_cons. destruct (decide (stays del p)) as [E|E]; unfold stays in E.
  - rewrite E. do 2 f_equal. cbn [length]. lia.
  - apply not_false_is_true in E. rewrite E. do 2 f_equal. cbn [length]. lia.
Qed.

Lemma filter_concat (bs : list (list Z)) : concat (filter (stays del) <$> bs) = filter (stays del) (concat bs).
Proof. induction bs as [|l bs IH]; [done|]. rewrite fmap_cons, !concat_cons. by rewrite list.filter_app, IH. Qed.

(** After the buckets below [i] have been scanned. *)
Definition scanned (i : nat) (bs : list (list Z)) : list (list Z) := (filter (stays del) <$> take i bs) ++ drop i bs.

Lemma scanned_step i bs l : bs !! i = Some l ->
  scanned i bs !! i = Some l /\ <[i := filter (stays del) l]> (scanned i bs) = scanned (S i) bs /\
  Z.of_nat (length (concat (scanned i bs))) = Z.of_nat (length (concat (scanned (S i) bs))) + Z.of_nat (length l) - Z.of_nat (length (filter (stays del) l)).
Proof.
  intros Hl. assert (Hlen : length (filter (stays del) <$> take i bs) = i).
  { rewrite length_fmap, length_take_le; [done|]. apply lookup_lt_Some in Hl. lia. }
  unfold scanned. rewrite (take_S_r _ _ _ Hl), (drop_S _ _ _ Hl), fmap_app. split; [|split].
  - by rewrite list_lookup_middle.
  - rewrite insert_app_r_alt by lia. rewrite Hlen, Nat.sub_diag. by rewrite <- (assoc_L (++)).
  - rewrite !concat_app, !length_app. simpl. rewrite !length_app. simpl. lia.
Qed.

Lemma scan_buckets_spec bs n : forall i found a t m, repr t m (scanned i bs) -> s32 found = found -> (i + n <= length bs)%nat ->
  exists a' t' m', scan_buckets fn n i found a t m =
    Some (s32 (found + Z.of_nat (length (concat (scanned i bs))) - Z.of_nat (length (concat (scanned (i + n) bs)))), a', t', m') /\
  repr t' m' (scanned (i + n) bs) /\ dom m' = dom m /\ buckets t' = buckets t.
Proof.
  induction n as [|n IH]; intros i found a t m Hr Hfo Hn; cbn [scan_buckets].
  - exists a, t, m. rewrite Nat.add_0_r. split; [|done]. do 4 f_equal. rewrite <- Hfo at 1. f_equal. lia.
  - destruct (lookup_lt_is_Some_2 bs i) as [l Hl]; [lia|]. destruct (scanned_step i bs l Hl) as (S1 & S2 & S3).
    pose proof (ht_scan_loop_spec fn l (S (S (size m))) i [] found a t m _ Hr Hfo S1) as Hs.
    destruct (scan_list_filter l a) as (a1 & Hsl). rewrite Hsl in Hs.
    destruct Hs as (t1 & m1 & H1 & H2 & H3 & H4); [pose proof (bucket_length _ _ _ _ _ Hr S1); lia|].
    simpl loc_after in H1. rewrite H1. simpl app in H2. rewrite S2 in H2.
    destruct (IH (S i) (s32 (found + (Z.of_nat (length l) - Z.of_nat (length (filter (stays del) l))))) a1 t1 m1 H2 (s32_s32 _) ltac:(lia)) as (a' & t' & m' & I1 & I2 & I3 & I4).
    exists a', t', m'. rewrite Nat.add_succ_r. simpl in I1, I2. rewrite I1. split; [|split; [done|split; congruence]].
    do 4 f_equal. unfold Z.sub at 1. rewrite <- Z.add_assoc, s32_add_l. f_equal. lia.
Qed.

End filter_scan.

(** ** The table as a finite map *)

Section table.
Context (hash : Z -> Z) (okey : Z -> Z).

(** The objects are in the bucket of their key, one object for each key. *)
Definition ht_map (t : dn_ht) (m : gmap Z Z) (M : gmap Z Z) : Prop :=
  exists bs, repr t m bs /\ NoDup (okey <$> concat bs) /\
  (forall i l p, bs !! i = Some l -> p ∈ l -> bucket_of t (hash (okey p)) = i) /\
  M = list_to_map ((fun p => (okey p, p)) <$> concat bs).

Lemma pairs_keys l : ((fun p => (okey p, p)) <$> l).*1 = okey <$> l.
Proof. by rewrite <- list_fmap_compose. Qed.

Lemma pairs_lookup l k p : NoDup (okey <$> l) ->
  (list_to_map ((fun p => (okey p, p)) <$> l) : gmap Z Z) !! k = Some p <-> p ∈ l /\ okey p = k.
Proof.
  intros Hnd. rewrite <- elem_of_list_to_map by (by rewrite pairs_keys). rewrite list_elem_of_fmap. split.
  - intros (q & [= -> ->] & Hq). done.
  - intros [Hp <-]. by exists p.
Qed.

Lemma pairs_size l : NoDup (okey <$> l) -> size (list_to_map ((fun p => (okey p, p)) <$> l) : gmap Z Z) = length l.
Proof.
  intros Hnd. rewrite <- (length_fmap (fun p => (okey p, p)) l).
  by rewrite <- length_map_to_list, map_to_list_to_map by (by rewrite pairs_keys).
Qed.

Lemma ht_map_entries t m M : ht_map t m M -> entries t = s32 (Z.of_nat (size M)).
Proof.
  intros (bs & Hr & Hnd & _ & ->). by rewrite (rp_entries _ _ _ Hr), pairs_size.
Qed.

(** One object more, or one less. *)
Lemma ht_map_perm l l' p : NoDup (okey <$> l') -> l' ≡ₚ p :: l ->
  (list_to_map ((fun p => (okey p, p)) <$> l') : gmap Z Z) = <[okey p := p]> (list_to_map ((fun p => (okey p, p)) <$> l)) /\
  (okey p ∉ (okey <$> l)) /\ NoDup (okey <$> l).
Proof.
  intros Hnd Hp. split.
  - rewrite (list_to_map_proper _ ((fun p => (okey p, p)) <$> (p :: l))); [done|by rewrite pairs_keys|by rewrite Hp].
  - rewrite Hp in Hnd. by apply list.NoDup_cons in Hnd.
Qed.

Lemma ht_map_none l k : k ∉ (okey <$> l) -> (list_to_map ((fun p => (okey p, p)) <$> l) : gmap Z Z) !! k = None.
Proof. intros Hk. apply not_elem_of_list_to_map_1. by rewrite pairs_keys. Qed.

(** What the callbacks promise for the flags and the argument of a call: the
    hash value is that of the key, an object matches its own key and no other,
    and the object that is made for a key has that key. *)
Context {Arg : Type} (hashf : Z -> Z -> Arg -> Z) (matches : Z -> Z -> Z -> Arg -> bool) (newh : option (Z -> Z -> Arg -> Z)).

Record callbacks_ok (flags : Z) (arg : Arg) : Prop := {
  cb_hash : forall k, hashf k flags arg = hash k;
  cb_match : forall p k, matches p k flags arg = bool_decide (okey p = k);
  cb_new : forall k, new_object newh k flags arg <> 0 -> okey (new_object newh k flags arg) = k;
}.

Lemma find_map t m M key flags arg : callbacks_ok flags arg -> ht_map t m M -> flag flags DNHT_MATCH_PTR = false ->
  exists r t' m', dn_ht_find hashf matches newh (Some t) m key flags arg = Some (r, Some t', m') /\
  match M !! key with
  | Some p => r = p /\ ht_map t' m' (if flag flags DNHT_REMOVE then delete key M else M)
  | None => if flag flags DNHT_INSERT then r = new_object newh key flags arg /\ ht_map t' m' (if decide (r = 0) then M else <[key := r]> M)
            else r = 0 /\ ht_map t' m' M
  end.
Proof.
  intros [Hhash Hmatch Hnew] (bs & Hr & Hnd & Hpl & ->) Hfl. unfold dn_ht_find. rewrite Hfl, Hhash.
  destruct (bucket_range t m bs (hash key) Hr) as [l Hl]. set (i := bucket_of t (hash key)) in *.
  destruct (rp_chain _ _ _ Hr _ _ Hl) as (h & Hh & Hc).
  assert (Hin : forall p, p ∈ concat bs -> okey p = key -> p ∈ l).
  { intros p (j & lj & Hj & Hp)%elem_concat Hk. pose proof (Hpl j lj p Hj Hp) as Hij. rewrite Hk in Hij. fold i in Hij. subst j.
    rewrite Hl in Hj. by injection Hj as <-. }
  destruct (find_loop_spec (fun p => matches p key flags arg) l (S (S (size m))) t m (Head i) h Hh Hc) as [[HF Hfind]|(l1 & q & l2 & -> & HF & Hq & Hfind)];
    [pose proof (bucket_length _ _ _ _ _ Hr Hl); lia| |]; rewrite Hfind.
  - assert (Hn : key ∉ (okey <$> concat bs)).
    { intros (p & Hk & Hp)%list_elem_of_fmap. symmetry in Hk. apply (Hin p Hp) in Hk as Hpl'.
      apply list.Forall_forall with (x := p) in HF; [|done]. by rewrite Hmatch, bool_decide_true in HF. }
    rewrite (ht_map_none _ _ Hn). simpl negb. cbv iota. destruct (flag flags DNHT_INSERT).
    2: { exists 0, t, m. split; [done|]. split; [done|]. by exists bs. }
    destruct (Z.eqb_spec (new_object newh key flags arg) 0) as [E|E].
    { exists (new_object newh key flags arg), t, m. split; [done|]. split; [done|]. rewrite decide_True by done. by exists bs. }
    assert (Hp : new_object newh key flags arg ∉ concat bs).
    { intros Hp. apply Hn. apply list_elem_of_fmap. exists (new_object newh key flags arg). split; [by rewrite Hnew|done]. }
    destruct (repr_link t m bs i l (new_object newh key flags arg) h Hr Hl E Hp Hh) as [Hr' Hperm].
    rewrite Hh. cbn [store add_entries buckets entries ht]. do 3 eexists. split; [done|]. split; [done|]. rewrite decide_False by done.
    assert (Hnd' : NoDup (okey <$> concat (<[i := new_object newh key flags arg :: l]> bs))).
    { rewrite Hperm, fmap_cons. apply list.NoDup_cons. by rewrite Hnew. }
    exists (<[i := new_object newh key flags arg :: l]> bs). split; [done|]. split; [done|]. split.
    + intros j lj p Hj Hpj. change (bucket_of _ (hash (okey p))) with (bucket_of t (hash (okey p))).
      apply list_lookup_insert_Some in Hj as [(<- & <- & _)|[_ Hj]]; [|by eapply Hpl].
      apply elem_of_cons in Hpj as [->|Hpj]; [by rewrite Hnew|by eapply Hpl].
    + destruct (ht_map_perm _ _ _ Hnd' Hperm) as [-> _]. by rewrite Hnew.
  - rewrite Hmatch in Hq. apply bool_decide_eq_true in Hq.
    assert (Hqc : q ∈ concat bs) by (apply elem_concat; exists i, (l1 ++ q :: l2); split; [done|]; apply elem_of_app; right; by left).
    assert (HM : (list_to_map ((fun p => (okey p, p)) <$> concat bs) : gmap Z Z) !! key = Some q) by (by apply pairs_lookup).
    rewrite HM. assert (Hq0 : q <> 0) by (intros ->; by apply (repr_nonnull _ _ _ Hr)).
    rewrite (proj2 (Z.eqb_neq q 0) Hq0). simpl negb. cbv iota. destruct (flag flags DNHT_REMOVE).
    2: { exists q, t, m. split; [done|]. split; [done|]. by exists bs. }
    destruct (repr_dom _ _ _ _ Hr Hqc) as [next Hnext]. rewrite Hnext.
    pose proof (repr_unlink t m bs i l1 q l2 next Hr Hl Hnext) as Hu. pose proof (store_frame (loc_after (Head i) l1) next t m) as Hsf.
    destruct (store (loc_after (Head i) l1) next t m) as [t1 m1]. destruct Hu as (Hr1 & Hperm & _). destruct Hsf as (_ & _ & _ & Hb & _).
    do 3 eexists. split; [done|]. split; [done|]. exists (<[i := l1 ++ l2]> bs).
    destruct (ht_map_perm _ _ _ Hnd Hperm) as (HM' & Hn' & Hnd'). split; [apply repr_outside; [done|]|split; [done|split]].
    + intros Hx. apply Hn'. apply list_elem_of_fmap. by exists q.
    + intros j lj p Hj Hpj. assert (Hbo : bucket_of (add_entries (-1) t1) (hash (okey p)) = bucket_of t (hash (okey p)))
        by (unfold bucket_of; cbn [buckets add_entries]; by rewrite Hb).
      rewrite Hbo. apply list_lookup_insert_Some in Hj as [(<- & <- & _)|[_ Hj]]; [|by eapply Hpl].
      eapply Hpl; [exact Hl|]. rewrite elem_of_app in Hpj |- *. destruct Hpj; [by left|right; by right].
    + rewrite HM', Hq, delete_insert_id; [done|]. rewrite <- Hq. by apply ht_map_none.
Qed.

End table.

(** C33: without the flags [DNHT_KEY_IS_OBJ], [DNHT_UNIQUE] and
    [DNHT_MATCH_PTR], and with callbacks that for the flags and the argument of
    the call hash the key, match an object with its own key only and make
    objects that have the key, [dn_ht_find] implements a finite map from keys
    to objects (one object for each key): it finds the object of the key,
    removes it with [DNHT_REMOVE], and with [DNHT_INSERT] makes and adds one
    when there is none; it always ends, and [dn_ht_entries] is the number of
    keys, as an [int]. *)
Theorem dn_ht_find_refines {Arg} hash okey (hashf : Z -> Z -> Arg -> Z) matches newh t m M key flags arg :
  callbacks_ok hash okey hashf matches newh flags arg -> ht_map hash okey t m M ->
  flag flags DNHT_KEY_IS_OBJ = false -> flag flags DNHT_UNIQUE = false -> flag flags DNHT_MATCH_PTR = false ->
  exists r t' m' M', dn_ht_find hashf matches newh (Some t) m key flags arg = Some (r, Some t', m') /\
  ht_map hash okey t' m' M' /\ dn_ht_entries (Some t') = s32 (Z.of_nat (size M')) /\
  match M !! key with
  | Some p => r = p /\ M' = if flag flags DNHT_REMOVE then delete key M else M
  | None => if flag flags DNHT_INSERT then r = new_object newh key flags arg /\ M' = (if decide (r = 0) then M else <[key := r]> M)
            else r = 0 /\ M' = M
  end.
Proof.
  intros Hcb HM _ _ Hf. destruct (find_map hash okey hashf matches newh t m M key flags arg Hcb HM Hf) as (r & t' & m' & H1 & H2).
  exists r, t', m'. destruct (M !! key) as [p|].
  - destruct H2 as [-> H2]. eexists. split; [done|]. split; [exact H2|]. split; [by apply (ht_map_entries hash okey _ m')|done].
  - destruct (flag flags DNHT_INSERT); destruct H2 as [-> H2]; (eexists; split; [done|]; split; [exact H2|];
      split; [by apply (ht_map_entries hash okey _ m')|done]).
Qed.

(** ** Scan and initialization of the map *)

Section scan_map.
Context (hash okey : Z -> Z).

Lemma ht_map_filter (del : Z -> bool) l : NoDup (okey <$> l) ->
  (list_to_map ((fun p => (okey p, p)) <$> filter (stays del) l) : gmap Z Z) =
  filter (fun kp => stays del (snd kp)) (list_to_map ((fun p => (okey p, p)) <$> l)).
Proof.
  intros Hnd. assert (Hnd' : NoDup (okey <$> filter (stays del) l)).
  { eapply sublist_NoDup; [exact Hnd|]. apply fmap_sublist, sublist_filter. }
  apply map_eq. intros k. apply option_eq. intros p. rewrite map_lookup_filter_Some, !pairs_lookup, list_elem_of_filter by done. tauto.
Qed.

Lemma bucket_of_range t h : 0 <= buckets t -> Z.of_nat (bucket_of t h) <= buckets t.
Proof. intros Hb. unfold bucket_of. case_if; [lia|]. pose proof (land_range h (buckets t) Hb). lia. Qed.

(** The scan covers every bucket that has elements. *)
Lemma scanned_all (del : Z -> bool) t m bs : repr t m bs ->
  (forall i l p, bs !! i = Some l -> p ∈ l -> bucket_of t (hash (okey p)) = i) ->
  scanned del (Z.to_nat (buckets t + 1)) bs = filter (stays del) <$> bs.
Proof.
  intros Hr Hpl. unfold scanned. rewrite <- (take_drop (Z.to_nat (buckets t + 1)) bs) at 3. rewrite fmap_app. f_equal.
  apply list_eq. intros j. rewrite list_lookup_fmap. destruct (drop _ bs !! j) as [l|] eqn:E; [|done]. simpl. f_equal.
  rewrite lookup_drop in E. destruct l as [|p l]; [done|]. exfalso.
  pose proof (Hpl _ _ p E ltac:(by left)) as Hp. pose proof (bucket_of_range t (hash (okey p))). pose proof (rp_mask _ _ _ Hr). lia.
Qed.

Lemma scan_map {A} (fn : Z -> A -> Z * A) (del : Z -> bool) t m M a :
  (forall p a, flag (fst (fn p a)) DNHT_SCAN_DEL = del p /\ flag (fst (fn p a)) DNHT_SCAN_END = false) -> ht_map hash okey t m M ->
  let M' := filter (fun kp => stays del (snd kp)) M in
  exists a' t' m', dn_ht_scan fn t m a = Some (s32 (Z.of_nat (size M) - Z.of_nat (size M')), a', t', m') /\ ht_map hash okey t' m' M'.
Proof.
  intros Hfn HM M'. destruct HM as (bs & Hr & Hnd & Hpl & HMeq).
  pose proof (rp_mask _ _ _ Hr) as Hmask.
  destruct (scan_buckets_spec fn del Hfn bs (Z.to_nat (buckets t + 1)) 0 0 a t m) as (a' & t' & m' & H1 & H2 & H3 & H4); [done|done|lia|].
  simpl plus in H1, H2. rewrite (scanned_all del t m bs Hr Hpl) in H1, H2. unfold dn_ht_scan. rewrite H1.
  assert (HM' : ht_map hash okey t' m' M').
  { exists (filter (stays del) <$> bs). split; [done|]. rewrite filter_concat. split; [|split].
    - eapply sublist_NoDup; [exact Hnd|]. apply fmap_sublist, sublist_filter.
    - intros i l p Hi Hp. rewrite list_lookup_fmap in Hi. destruct (bs !! i) as [l0|] eqn:E; [|done]. simpl in Hi. injection Hi as <-.
      apply list_elem_of_filter in Hp as [_ Hp]. assert (Hb : bucket_of t' (hash (okey p)) = bucket_of t (hash (okey p))) by (unfold bucket_of; by rewrite H4).
      rewrite Hb. by eapply Hpl.
    - unfold M'. rewrite HMeq. symmetry. by apply ht_map_filter. }
  exists a', t', m'. split; [|done]. unfold M'. rewrite HMeq, <- ht_map_filter, !pairs_size by
    (done || (eapply sublist_NoDup; [exact Hnd|]; apply fmap_sublist, sublist_filter)).
  rewrite filter_concat. done.
Qed.

End scan_map.

(** The number of buckets that is chosen for [n]. *)
Definition size_ok (n : Z) : bool :=
  let s := ht_size n + 1 in (2 ^ Z.log2 s =? s) && (s <=? 2 * n) && (3 * n <=? 4 * s) && (1 <=? s).

Fixpoint sizes_ok (n : nat) (k : Z) : bool := match n with O => true | S n => size_ok k && sizes_ok n (k + 1) end.

Lemma sizes_ok_spec n : forall k, sizes_ok n k = true -> forall x, k <= x < k + Z.of_nat n -> size_ok x = true.
Proof.
  induction n as [|n IH]; intros k Hk x Hx; [lia|]. apply andb_true_iff in Hk as [H1 H2].
  destruct (decide (x = k)) as [->|Hne]; [done|]. apply (IH (k + 1)); [done|lia].
Qed.

Lemma size_ok_spec n : 1 <= n <= 65536 -> size_ok n = true.
Proof.
  intros Hn. apply (sizes_ok_spec (Z.to_nat 65536) 1); [vm_compute; reflexivity|]. rewrite Z2Nat.id by lia. lia.
Qed.

Lemma init_map hash okey n t : dn_ht_init None n true true = Some t -> ht_map hash okey t ∅ ∅.
Proof.
  unfold dn_ht_init. cbn [negb]. destruct ((n <? 1) || (65536 <? n)) eqn:E; [done|]. intros [= <-]. apply orb_false_iff in E as [E1 E2].
  zify_bool. pose proof (size_ok_spec n ltac:(lia)) as Hs. unfold size_ok in Hs. zify_bool.
  assert (Hc : concat (replicate (Z.to_nat (ht_size n + 1)) ([] : list Z)) = []).
  { induction (Z.to_nat (ht_size n + 1)) as [|k IH]; [done|exact IH]. }
  exists (replicate (Z.to_nat (ht_size n + 1)) []). rewrite Hc. split; [split|].
  - simpl. by rewrite !length_replicate.
  - intros i l Hl. apply lookup_replicate in Hl as [-> Hl]. exists 0. split; [|done]. simpl. by apply lookup_replicate_2.
  - rewrite Hc. constructor.
  - by rewrite Hc.
  - rewrite length_replicate. simpl. lia.
  - split; [constructor|]. split; [|done]. intros i l p Hl Hp. apply lookup_replicate in Hl as [-> _]. by apply elem_of_nil in Hp.
Qed.

(** a new table is empty, and the number of its buckets is a power of two
    that is close to the number asked for: at most twice, and at least three
    quarters of it. *)
Theorem dn_ht_init_spec hash okey n : 1 <= n <= 65536 ->
  exists t k, dn_ht_init None n true true = Some t /\ ht_map hash okey t ∅ ∅ /\ dn_ht_entries (Some t) = 0 /\
  Z.of_nat (length (ht t)) = buckets t + 1 /\ buckets t + 1 = 2 ^ k /\ buckets t + 1 <= 2 * n /\ 3 * n <= 4 * (buckets t + 1).
Proof.
  intros Hn. pose proof (size_ok_spec n Hn) as Hs. unfold size_ok in Hs. zify_bool.
  assert (E : dn_ht_init None n true true = Some (mk_ht (ht_size n) 0 (replicate (Z.to_nat (ht_size n + 1)) 0))).
  { unfold dn_ht_init. cbn [negb]. by rewrite (proj2 (Z.ltb_ge n 1)), (proj2 (Z.ltb_ge 65536 n)) by lia. }
  eexists _, (Z.log2 (ht_size n + 1)). split; [exact E|]. split; [by eapply init_map|].
  simpl. rewrite length_replicate. split_and!; [done|lia..].
Qed.

(** a scan that never asks to end visits the whole table: the objects for
    which the callback asks the removal leave it, the others stay, the result
    is the number of those removed, as an [int], and the scan always ends. *)
Theorem dn_ht_scan_filters {A} (fn : Z -> A -> Z * A) (del : Z -> bool) hash okey t m M a :
  (forall p a, flag (fst (fn p a)) DNHT_SCAN_DEL = del p /\ flag (fst (fn p a)) DNHT_SCAN_END = false) -> ht_map hash okey t m M ->
  let M' := filter (fun kp => stays del (snd kp)) M in
  exists a' t' m', dn_ht_scan fn t m a = Some (s32 (Z.of_nat (size M) - Z.of_nat (size M')), a', t', m') /\
  ht_map hash okey t' m' M' /\ dn_ht_entries (Some t') = s32 (Z.of_nat (size M')).
Proof.
  intros Hfn HM M'. destruct (scan_map hash okey fn del t m M a Hfn HM) as (a' & t' & m' & H1 & H2).
  exists a', t', m'. split; [done|]. split; [done|]. by apply (ht_map_entries hash okey _ m').
Qed.

(** [dn_ht_free] with [DNHT_REMOVE] leaves the table empty. *)
Theorem dn_ht_free_empties hash okey t m M flags : ht_map hash okey t m M -> flag flags DNHT_REMOVE = true ->
  exists t' m', dn_ht_free (Some t) m flags = Some (Some t', m') /\ ht_map hash okey t' m' ∅ /\ dn_ht_entries (Some t') = 0.
Proof.
  intros HM Hf. unfold dn_ht_free. rewrite Hf.
  destruct (scan_map hash okey (fun _ (_ : unit) => (DNHT_SCAN_DEL, tt)) (fun _ => true) t m M tt ltac:(done) HM) as (a' & t' & m' & H1 & H2).
  rewrite H1. assert (HE : filter (fun kp : Z * Z => stays (fun _ => true) (snd kp)) M = ∅) by (apply map_empty_filter; by intros k p _ ?).
  rewrite HE in H2. exists t', m'. split; [done|]. split; [done|]. by rewrite (ht_map_entries hash okey _ _ _ H2 : dn_ht_entries (Some t') = _).
Qed.

(** a table that is recycled with fewer buckets is neither emptied nor
    rehashed: the object stays counted, and is not found any more. *)
Theorem dn_ht_recycle_loses : exists t m t1 m1 t2,
  dn_ht_init None 8 true true = Some t /\ m = ∅ /\
  dn_ht_find (fun k _ (_ : unit) => k) (fun p k _ _ => p =? k + 100) (Some (fun k _ _ => k + 100)) (Some t) m 7 DNHT_INSERT tt = Some (107, Some t1, m1) /\
  dn_ht_init (Some t1) 4 true true = Some t2 /\ dn_ht_entries (Some t2) = 1 /\
  dn_ht_find (fun k _ (_ : unit) => k) (fun p k _ _ => p =? k + 100) (Some (fun k _ _ => k + 100)) (Some t2) m1 7 0 tt = Some (0, Some t2, m1).
Proof.
  do 5 eexists. split; [vm_compute; reflexivity|]. split; [reflexivity|]. split; [vm_compute; reflexivity|].
  split; [vm_compute; reflexivity|]. split; vm_compute; reflexivity.
Qed.

(** ** A concrete table *)

Definition ex_okey (p : Z) : Z := p - 100.
(** Callbacks that, with [DNHT_KEY_IS_OBJ], take the key from the object. *)
Definition ex_key (k flags : Z) : Z := if flag flags DNHT_KEY_IS_OBJ then ex_okey k else k.
Definition ex_hash (k flags : Z) (arg : unit) : Z := ex_key k flags.
Definition ex_matches (p k flags : Z) (arg : unit) : bool := bool_decide (ex_okey p = ex_key k flags).
Definition ex_new : option (Z -> Z -> unit -> Z) := Some (fun k _ _ => k + 100).

Lemma ex_callbacks flags : flag flags DNHT_KEY_IS_OBJ = false -> callbacks_ok id ex_okey ex_hash ex_matches ex_new flags tt.
Proof.
  intros Hf. split; intros; unfold ex_hash, ex_matches, ex_key; rewrite ?Hf; try done. unfold ex_okey. simpl. lia.
Qed.

(** A table of 4 buckets with the objects of the keys 3 and 7 in one bucket. *)
Definition ex_table : dn_ht := mk_ht 3 2 [0; 0; 0; 107].
Definition ex_links : gmap Z Z := {[107 := 103; 103 := 0]}.
Definition ex_map : gmap Z Z := {[3 := 103; 7 := 107]}.

Lemma ex_table_map : ht_map id ex_okey ex_table ex_links ex_map.
Proof.
  exists [[]; []; []; [107; 103]]. split; [split|split; [|split]].
  - reflexivity.
  - intros i l Hl. destruct i as [|[|[|[|i]]]]; simplify_eq/=; (eexists; split; [reflexivity|]); try reflexivity.
    split; [done|]. split; [done|]. exists 103. split; [reflexivity|]. split; [done|]. split; [done|]. by exists 0.
  - by apply (bool_decide_unpack _); vm_compute.
  - reflexivity.
  - simpl. lia.
  - by apply (bool_decide_unpack _); vm_compute.
  - intros i l p Hl Hp. destruct i as [|[|[|[|i]]]]; simplify_eq/=; try by apply elem_of_nil in Hp.
    apply elem_of_cons in Hp as [->|Hp]; [reflexivity|]. apply elem_of_cons in Hp as [->|Hp]; [reflexivity|]. by apply elem_of_nil in Hp.
  - vm_compute. reflexivity.
Qed.

Lemma dn_ht_find_refines_witness : exists t' m',
  dn_ht_find ex_hash ex_matches ex_new (Some ex_table) ex_links 3 DNHT_REMOVE tt = Some (103, Some t', m') /\
  ht_map id ex_okey t' m' (delete 3 ex_map) /\ dn_ht_entries (Some t') = 1.
Proof.
  destruct (dn_ht_find_refines id ex_okey ex_hash ex_matches ex_new ex_table ex_links ex_map 3 DNHT_REMOVE tt) as (r & t' & m' & M' & H1 & H2 & H4 & H3).
  - apply ex_callbacks. reflexivity.
  - apply ex_table_map.
  - reflexivity.
  - reflexivity.
  - reflexivity.
  - assert (E : ex_map !! 3 = Some 103) by (vm_compute; reflexivity). rewrite E in H3. destruct H3 as [-> ->]. exists t', m'.
    split; [exact H1|]. split; [exact H2|]. rewrite H4. reflexivity.
Defined.

Lemma dn_ht_scan_filters_witness : exists a' t' m',
  dn_ht_scan (fun p (n : Z) => (if p =? 107 then DNHT_SCAN_DEL else 0, n + 1)) ex_table ex_links 0 = Some (1, a', t', m') /\
  ht_map id ex_okey t' m' {[3 := 103]}.
Proof.
  destruct (dn_ht_scan_filters (fun p (n : Z) => (if p =? 107 then DNHT_SCAN_DEL else 0, n + 1)) (fun p => p =? 107) id ex_okey
    ex_table ex_links ex_map 0) as (a' & t' & m' & H1 & H2 & _).
  - intros p a. simpl. by destruct (p =? 107).
  - apply ex_table_map.
  - exists a', t', m'. split; [exact H1|]. exact H2.
Defined.

Lemma dn_ht_free_empties_witness : exists t' m', dn_ht_free (Some ex_table) ex_links DNHT_REMOVE = Some (Some t', m') /\
  dn_ht_entries (Some t') = 0.
Proof.
  destruct (dn_ht_free_empties id ex_okey ex_table ex_links ex_map DNHT_REMOVE ex_table_map eq_refl) as (t' & m' & H1 & _ & H2).
  exists t', m'. by split.
Defined.

Lemma dn_ht_init_spec_witness : exists t k, dn_ht_init None 100 true true = Some t /\ buckets t + 1 = 2 ^ k /\ buckets t = 127.
Proof.
  destruct (dn_ht_init_spec id id 100) as (t & k & H1 & _ & _ & _ & H2 & _); [lia|]. exists t, k. split; [exact H1|]. split; [exact H2|].
  vm_compute in H1. injection H1 as <-. reflexivity.
Defined.
