(* ===== verification/Sched.v ===== *)
(** * Packet queues and the interface of the schedulers

    The packet queues of dummynet (sched16/dn_test.h, dn_sched.h and the
    functions of test_dn_sched.c that the schedulers use), the interface
    between a scheduling algorithm and the code that drives it
    ([struct dn_alg], [sched_enq] and [sched_deq] of sched_main.c), and the
    FIFO scheduler (dn_sched_fifo.c).

    [Mq] is the linked list of packets as the code has it, with the theorems
    that it represents a list; the queues above it hold that list. *)

From stdpp Require Import gmap.
From S2P Require Import Prelude.
Open Scope Z_scope.

(** ** Linked lists of packets *)

Module Mq.

(** [struct mq] and the [m_nextpkt] fields of the packets, by address; 0 is
    [NULL]. *)
Record mq := mk_mq { head : Z; tail : Z; count : Z }.

Definition mq_append (q : mq) (next : gmap Z Z) (m : Z) : mq * gmap Z Z :=
  let '(h, next) := if head q =? 0 then (m, next) else (head q, <[tail q := m]> next) in
  (mk_mq h m (count q), <[m := 0]> next).

Definition mq_peek (q : mq) : Z := head q.

Definition mq_dequeue (q : mq) (next : gmap Z Z) : Z * mq :=
  let m := mq_peek q in
  if m =? 0 then (0, q) else (m, mk_mq (default 0 (next !! m)) (tail q) (s32 (count q - 1))).

(** [dn_free_pkts]: the packets given to [m_freem], in order; the list has at
    most as many packets as [fuel]. *)
Fixpoint dn_free_pkts (fuel : nat) (next : gmap Z Z) (m : Z) : list Z :=
  match fuel with
  | O => []
  | S fuel' => if m =? 0 then [] else m :: dn_free_pkts fuel' next (default 0 (next !! m))
  end.

End Mq.

(** ** Queues *)

Module DnQueue.

(** The fields of a packet that the schedulers use; packets are compared by
    address. *)
Record mbuf := mk_mbuf { m_addr : Z; m_len : Z; m_flow : Z }.
#[export] Instance mbuf_inhabited : Inhabited mbuf := populate (mk_mbuf 0 0 0).
#[export] Instance mbuf_eq_dec : EqDecision mbuf.
Proof. solve_decision. Defined.

(** [struct dn_queue]: the packets and the counters of [ni]. *)
Record dn_queue := mk_dnq {
  q_pkts : list mbuf;
  ni_length : Z;
  ni_len_bytes : Z;
  ni_tot_bytes : Z;
  ni_tot_pkts : Z;
  ni_drops : Z;
}.
Definition dnq_zero : dn_queue := mk_dnq [] 0 0 0 0 0.
#[export] Instance dn_queue_inhabited : Inhabited dn_queue := populate dnq_zero.

(** [m == q->mq.head] *)
Definition is_head (q : dn_queue) (m : mbuf) : bool :=
  match q_pkts q with [] => false | h :: _ => m_addr h =? m_addr m end.

(** [dn_enqueue(q, m, 0)]: 1 when the packet is dropped. *)
Definition dn_enqueue (q : dn_queue) (m : mbuf) : Z * dn_queue :=
  if 20000 <=? ni_length q then
    (1, mk_dnq (q_pkts q) (ni_length q) (ni_len_bytes q) (ni_tot_bytes q) (ni_tot_pkts q) (u32 (ni_drops q + 1)))
  else
    (0, mk_dnq (q_pkts q ++ [m]) (u32 (ni_length q + 1)) (ni_len_bytes q) (u64 (ni_tot_bytes q + m_len m))
          (u64 (ni_tot_pkts q + 1)) (ni_drops q)).

(** [dn_dequeue].  The counters of the scheduler instance, decremented as
    well, are not kept. *)
Definition dn_dequeue (q : dn_queue) : option mbuf * dn_queue :=
  match q_pkts q with
  | [] => (None, q)
  | m :: rest =>
      (Some m, mk_dnq rest (u32 (ni_length q - 1)) (u32 (ni_len_bytes q - m_len m)) (ni_tot_bytes q)
                 (ni_tot_pkts q) (ni_drops q))
  end.

Definition ipdn_bound_var (v dflt lo hi : Z) : Z := if v <? lo then dflt else if hi <? v then hi else v.

(** [fls]: the position of the highest bit set. *)
Fixpoint fls_loop (fuel : nat) (mask bit : Z) : Z :=
  match fuel with
  | O => bit
  | S fuel' => if mask =? 1 then bit else fls_loop fuel' (Z.shiftr (u32 mask) 1) (bit + 1)
  end.
Definition fls (mask : Z) : Z := if mask =? 0 then 0 else fls_loop 32 (u32 mask) 1.

End DnQueue.
Import DnQueue.

(** ** Schedulers

    [struct dn_alg]: what [sched_enq] and [sched_deq] call.  [S] is the state
    of the scheduler with its queues. *)
Class DnAlg (S : Type) := {
  alg_enqueue : S -> mbuf -> Z * S;
  alg_dequeue : S -> option mbuf * S;
}.

(** What an algorithm promises: it keeps the packets it accepts, hands out
    each of them once, and has a packet to hand out as long as it has any. *)
Class DnAlgOk (S : Type) `{DnAlg S} := {
  alg_ok : S -> Prop;
  alg_pkts : S -> list mbuf;
  (** the packets that may be enqueued, e.g. with a flow that has a queue *)
  alg_accepts : S -> mbuf -> Prop;
  (** conditions on the state for the next dequeue, e.g. no counter wraps *)
  alg_ready : S -> Prop;
  enqueue_law : forall s m ret s',
    alg_ok s -> alg_accepts s m -> alg_enqueue s m = (ret, s') ->
    alg_ok s' /\ ((ret = 0 /\ alg_pkts s' ≡ₚ m :: alg_pkts s) \/ (ret <> 0 /\ alg_pkts s' ≡ₚ alg_pkts s));
  dequeue_law : forall s o s',
    alg_ok s -> alg_ready s -> alg_dequeue s = (o, s') ->
    alg_ok s' /\ match o with
                 | Some m => alg_pkts s ≡ₚ m :: alg_pkts s'
                 | None => alg_pkts s = [] /\ alg_pkts s' = []
                 end;
}.

Module SchedMain.

(** The counters of [struct cfg_s]. *)
Record cfg_s (S : Type) := mk_cfg { c_enqueue : Z; c_drop : Z; c_pending : Z; c_dequeue : Z; c_si : S }.
Arguments mk_cfg {S}.
Arguments c_enqueue {S}.
Arguments c_drop {S}.
Arguments c_pending {S}.
Arguments c_dequeue {S}.
Arguments c_si {S}.

(** [FI2Q(c, i)]: the address of the queue of flow [i] in the array of queues;
    all that matters is that it is not null and that two flows have different
    ones. *)
Definition FI2Q (flow : Z) : Z := flow + 1.

(** [sched_enq]; the statistics of [gnet_stats_enq] are not kept. *)
Definition sched_enq {S} `{DnAlg S} (c : cfg_s S) (m : mbuf) : Z * cfg_s S :=
  let '(ret, si) := alg_enqueue (c_si c) m in
  if z2b ret then (ret, mk_cfg (s32 (c_enqueue c + 1)) (s32 (c_drop c + 1)) (c_pending c) (c_dequeue c) si)
  else (0, mk_cfg (s32 (c_enqueue c + 1)) (c_drop c) (s32 (c_pending c + 1)) (c_dequeue c) si).

(** [sched_deq]; [None] in the first component is the failure of the
    assertion on [pending]. *)
Definition sched_deq {S} `{DnAlg S} (c : cfg_s S) : option (option mbuf * cfg_s S) :=
  if c_pending c <? 0 then None
  else if z2b (c_pending c) then
    let '(m, si) := alg_dequeue (c_si c) in
    match m with
    | Some m => Some (Some m, mk_cfg (c_enqueue c) (c_drop c) (s32 (c_pending c - 1)) (s32 (c_dequeue c + 1)) si)
    | None => Some (None, mk_cfg (c_enqueue c) (c_drop c) (c_pending c) (s32 (c_dequeue c + 1)) si)
    end
  else Some (None, c).

End SchedMain.
Import SchedMain.

(** ** The FIFO scheduler *)

Module Fifo.

(** The scheduler instance holds one queue. *)
Definition fifo_enqueue (si : dn_queue) (m : mbuf) : Z * dn_queue := dn_enqueue si m.
Definition fifo_dequeue (si : dn_queue) : option mbuf * dn_queue := dn_dequeue si.

#[export] Instance fifo_desc : DnAlg dn_queue := {| alg_enqueue := fifo_enqueue; alg_dequeue := fifo_dequeue |}.

End Fifo.
Import Fifo.

(** ** Linked lists represent lists *)

Section mq.
Import Mq.

(** [l] linked from [m] on. *)
Fixpoint linked (next : gmap Z Z) (m : Z) (l : list Z) : Prop :=
  match l with
  | [] => m = 0
  | x :: l' => m = x /\ x <> 0 /\ linked next (default 0 (next !! x)) l'
  end.

Definition mq_repr (q : mq) (next : gmap Z Z) (l : list Z) : Prop :=
  linked next (head q) l /\ NoDup l /\ match list.last l with Some x => tail q = x | None => True end.

Lemma linked_ext next next' m l :
  (forall x, x ∈ l -> next' !! x = next !! x) -> linked next m l -> linked next' m l.
Proof.
  revert m. induction l as [|x l IH]; intros m Hn; simpl; [done|]. intros (-> & Hx & Hl).
  rewrite (Hn x) by (by left). split_and!; try done. apply IH; [|done]. intros y Hy. apply Hn. by right.
Qed.

Lemma linked_snoc next m l x y :
  linked next m (l ++ [x]) -> NoDup (l ++ [x; y]) -> y <> 0 ->
  linked (<[y := 0]> (<[x := y]> next)) m (l ++ [x; y]).
Proof.
  revert m. induction l as [|z l IH]; intros m; simpl.
  - intros (-> & Hx & _) [Hxy _]%list.NoDup_cons Hy.
    assert (x <> y) by (intros ->; apply Hxy; by left).
    rewrite lookup_insert_ne, lookup_insert_eq, lookup_insert_eq by done. done.
  - intros (-> & Hz & Hl) [Hzn HN]%list.NoDup_cons Hy.
    assert (z <> x /\ z <> y) as [? ?] by (split; intros ->; apply Hzn, elem_of_app; right; [left|right; left]).
    rewrite !lookup_insert_ne by done. auto.
Qed.

(** Appending a packet to the linked list appends it to the list that it
    represents. *)
Theorem mq_append_refines q next l m :
  mq_repr q next l -> m <> 0 -> m ∉ l ->
  let '(q', next') := mq_append q next m in mq_repr q' next' (l ++ [m]).
Proof.
  intros (Hl & HN & Ht) Hm Hnew. unfold mq_append.
  assert (HN' : NoDup (l ++ [m])).
  { apply list.NoDup_app. split_and!; [done| |apply NoDup_singleton]. intros x Hx ->%list_elem_of_singleton. done. }
  destruct l as [|x l] using rev_ind.
  - simpl in Hl. rewrite Hl. simpl. split_and!; try done. simpl. by rewrite lookup_insert_eq.
  - clear IHl. rewrite last_snoc in Ht.
    assert (head q <> 0) as Hh by (destruct l; simpl in Hl; destruct Hl as (-> & ? & _); done).
    rewrite (proj2 (Z.eqb_neq _ _) Hh). rewrite <- app_assoc in *. simpl in *.
    split_and!; [|done|by rewrite last_app]. rewrite Ht. by apply linked_snoc.
Qed.

Lemma mq_append_refines_witness :
  let '(q', next') := mq_append (mk_mq 7 9 0) {[7 := 9; 9 := 0]} 4 in mq_repr q' next' [7; 9; 4].
Proof.
  apply (mq_append_refines (mk_mq 7 9 0) {[7 := 9; 9 := 0]} [7; 9] 4); [|discriminate|].
  - split; [vm_compute; repeat split; discriminate|]. split; [|reflexivity].
    apply (bool_decide_eq_true_1 _). vm_compute. reflexivity.
  - apply (bool_decide_eq_true_1 _). vm_compute. reflexivity.
Defined.

(** Taking the first packet off the linked list takes it off the list. *)
Theorem mq_dequeue_refines q next l :
  mq_repr q next l ->
  let '(m, q') := mq_dequeue q next in
  match l with [] => m = 0 /\ q' = q | x :: l' => m = x /\ mq_repr q' next l' end.
Proof.
  intros (Hl & HN & Ht). unfold mq_dequeue, mq_peek. destruct l as [|x l]; simpl in Hl.
  - by rewrite Hl.
  - destruct Hl as (-> & Hx & Hl). rewrite (proj2 (Z.eqb_neq _ _) Hx). split; [done|].
    apply list.NoDup_cons in HN as [_ HN]. split_and!; [done|done|]. destruct l as [|y l]; [done|].
    simpl. by destruct l.
Qed.

Lemma dn_free_pkts_all next l : forall m fuel,
  linked next m l -> (length l <= fuel)%nat -> dn_free_pkts fuel next m = l.
Proof.
  induction l as [|x l IH]; intros m fuel; simpl.
  - intros -> _. destruct fuel; done.
  - intros (-> & Hx & Hl) Hf. destruct fuel as [|fuel]; [lia|]. simpl. rewrite (proj2 (Z.eqb_neq _ _) Hx).
    f_equal. apply IH; [done|lia].
Qed.

End mq.

(** ** Driving a scheduler *)

Section drive.
Context {S : Type} `{DnAlgOk S}.

(** [pending] counts the packets in the scheduler. *)
Definition cfg_ok (c : cfg_s S) : Prop :=
  alg_ok (c_si c) /\ c_pending c = Z.of_nat (length (alg_pkts (c_si c))) /\ c_pending c < 2 ^ 31 - 1.

Lemma sched_enq_ok c m ret c' :
  cfg_ok c -> alg_accepts (c_si c) m -> c_pending c < 2 ^ 31 - 2 -> sched_enq c m = (ret, c') ->
  cfg_ok c' /\ ((ret = 0 /\ alg_pkts (c_si c') ≡ₚ m :: alg_pkts (c_si c)) \/
                (ret <> 0 /\ alg_pkts (c_si c') ≡ₚ alg_pkts (c_si c))).
Proof.
  intros (Hok & Hp & Hlim) Hacc Hl. unfold sched_enq. destruct (alg_enqueue (c_si c) m) as [r si] eqn:E.
  apply enqueue_law in E as [Hok' Hlaw]; [|done..]. unfold z2b.
  destruct Hlaw as [[-> HP]|[Hr HP]].
  - simpl. intros [= <- <-]. simpl. split; [|by left]. split; [done|]. simpl. rewrite HP. simpl.
    rewrite s32_id by lia. lia.
  - rewrite (proj2 (Z.eqb_neq r 0) Hr). simpl. intros [= <- <-]. simpl. split; [|by right].
    split; [done|]. simpl. by rewrite HP.
Qed.

Lemma sched_deq_ok c :
  cfg_ok c -> alg_ready (c_si c) ->
  exists o c', sched_deq c = Some (o, c') /\ cfg_ok c' /\
    match o with
    | Some m => alg_pkts (c_si c) ≡ₚ m :: alg_pkts (c_si c')
    | None => alg_pkts (c_si c) = [] /\ c' = c
    end.
Proof.
  intros (Hok & Hp & Hlim) Hr. unfold sched_deq. rewrite (proj2 (Z.ltb_ge _ 0)) by lia. unfold z2b.
  destruct (Z.eqb_spec (c_pending c) 0) as [E0|E0]; simpl.
  { exists None, c. split_and!; try done. apply nil_length_inv. lia. }
  destruct (alg_dequeue (c_si c)) as [o si] eqn:E. apply dequeue_law in E as [Hok' Hlaw]; [|done..].
  destruct o as [m|].
  - eexists _, _. split; [done|]. simpl. split; [|done]. split; [done|]. simpl. rewrite Hlaw in Hp. simpl in Hp.
    rewrite s32_id by lia. lia.
  - destruct Hlaw as [Hn _]. rewrite Hn in Hp. simpl in Hp. lia.
Qed.

End drive.

(** ** The FIFO scheduler keeps the interface *)

(** The counter of a queue is the number of its packets. *)
Definition dnq_ok (q : dn_queue) : Prop := ni_length q = Z.of_nat (length (q_pkts q)) /\ ni_length q <= 20000.

Lemma dn_enqueue_spec q m :
  dnq_ok q ->
  (ni_length q < 20000 /\ fst (dn_enqueue q m) = 0 /\ q_pkts (snd (dn_enqueue q m)) = q_pkts q ++ [m] /\
   dnq_ok (snd (dn_enqueue q m))) \/
  (ni_length q = 20000 /\ fst (dn_enqueue q m) = 1 /\ q_pkts (snd (dn_enqueue q m)) = q_pkts q /\
   dnq_ok (snd (dn_enqueue q m))).
Proof.
  intros [Hl Hb]. unfold dn_enqueue. destruct (Z.leb_spec 20000 (ni_length q)); simpl; [right|left].
  - split_and!; (done || lia).
  - split_and!; try (done || lia). split; simpl; rewrite u32_id by (unfold is_u32; lia); rewrite ?length_app; simpl; lia.
Qed.

Lemma dn_dequeue_spec q :
  dnq_ok q ->
  match q_pkts q with
  | [] => dn_dequeue q = (None, q)
  | m :: l => exists q', dn_dequeue q = (Some m, q') /\ q_pkts q' = l /\ dnq_ok q'
  end.
Proof.
  intros [Hl Hb]. unfold dn_dequeue. destruct (q_pkts q) as [|m l] eqn:E; [done|]. eexists. split; [done|].
  split; [done|]. simpl in Hl. split; simpl; rewrite u32_id by (unfold is_u32; lia); lia.
Qed.

#[export] Program Instance fifo_ok : DnAlgOk dn_queue := {|
  alg_ok := dnq_ok;
  alg_pkts := q_pkts;
  alg_accepts _ _ := True;
  alg_ready _ := True;
|}.
Next Obligation.
  intros q m ret q' Hok _ E. simpl in E. unfold fifo_enqueue in E.
  destruct (dn_enqueue_spec q m Hok) as [(_ & H1 & H2 & H3)|(_ & H1 & H2 & H3)]; rewrite E in H1, H2, H3; simpl in *;
    (split; [done|]); rewrite H2, H1; [left|right]; split; try done. by rewrite Permutation_app_comm.
Qed.
Next Obligation.
  intros q o q' Hok _ E. simpl in E. unfold fifo_dequeue in E. pose proof (dn_dequeue_spec q Hok) as H.
  destruct (q_pkts q) as [|m l] eqn:Eq.
  - rewrite H in E. injection E as <- <-. rewrite Eq. done.
  - destruct H as (q1 & H1 & H2 & H3). rewrite H1 in E. injection E as <- <-. by rewrite H2.
Qed.

(** ** The packets of all the queues *)

Section gather.
Context {A : Type} (pk : A -> list mbuf).

Definition gather (m : gmap Z A) : list mbuf := concat (snd <$> map_to_list (pk <$> m)).

Lemma gather_same m m' : (forall a, pk <$> m' !! a = pk <$> m !! a) -> gather m' = gather m.
Proof. intros H. unfold gather. do 3 f_equal. apply map_eq. intros a. by rewrite !lookup_fmap. Qed.

(** Only the queue [q] changes. *)
Lemma gather_change m m' q x x' :
  m !! q = Some x -> m' !! q = Some x' -> (forall a, a <> q -> pk <$> m' !! a = pk <$> m !! a) ->
  exists rest, gather m ≡ₚ pk x ++ rest /\ gather m' ≡ₚ pk x' ++ rest.
Proof.
  intros Hx Hx' Hne. set (M := delete q (pk <$> m)). exists (concat (snd <$> map_to_list M)).
  assert (Hgen : forall m1 x1, m1 !! q = Some x1 -> delete q (pk <$> m1) = M -> gather m1 ≡ₚ pk x1 ++ concat (snd <$> map_to_list M)).
  { intros m1 x1 H1 Hd. unfold gather. rewrite <- (insert_delete_id (pk <$> m1) q (pk x1)) by (by rewrite lookup_fmap, H1).
    rewrite Hd, map_to_list_insert; [done|]. unfold M. apply lookup_delete_eq. }
  split; [by apply Hgen|apply Hgen; [done|]]. unfold M. apply map_eq. intros a.
  destruct (decide (a = q)) as [->|Ha]; [by rewrite !lookup_delete_eq|]. rewrite !lookup_delete_ne, !lookup_fmap by done. by apply Hne.
Qed.

Lemma gather_nil m : (forall a x, m !! a = Some x -> pk x = []) -> gather m = [].
Proof.
  intros H. unfold gather. apply concat_nil_Forall, list.Forall_forall.
  intros l ([a l0] & -> & Hin)%list_elem_of_fmap. apply elem_of_map_to_list in Hin. rewrite lookup_fmap in Hin.
  destruct (m !! a) as [x|] eqn:E; simplify_eq/=. by apply (H a).
Qed.

End gather.

(** ** Helpers *)

Lemma ipdn_bound_var_spec v dflt lo hi :
  lo <= dflt <= hi -> lo <= ipdn_bound_var v dflt lo hi <= hi /\ (lo <= v <= hi -> ipdn_bound_var v dflt lo hi = v).
Proof. unfold ipdn_bound_var. intros. repeat case_if; lia. Qed.

Lemma fls_spec mask : 0 < mask < 2 ^ 32 -> fls mask = Z.log2 mask + 1.
Proof.
  intros Hm. unfold fls. rewrite (proj2 (Z.eqb_neq _ _)), u32_id by (unfold is_u32; lia).
  assert (Hgen : forall fuel m bit, 0 < m < 2 ^ 32 -> Z.log2 m < Z.of_nat fuel -> fls_loop fuel m bit = bit + Z.log2 m).
  { induction fuel as [|fuel IH]; intros m bit Hm' Hf; [pose proof (Z.log2_nonneg m); lia|]. simpl.
    destruct (Z.eqb_spec m 1) as [->|Hne]; [simpl; lia|].
    rewrite u32_id by (unfold is_u32; lia). rewrite Z.shiftr_div_pow2 by lia. change (2 ^ 1) with 2.
    assert (Hl : Z.log2 m = Z.log2 (m / 2) + 1).
    { change (Z.log2 (m / 2) + 1) with (Z.succ (Z.log2 (m / 2))).
      rewrite <- (Z.log2_double (m / 2)) by (Z.div_mod_to_equations; lia).
      pose proof (Z.div_mod m 2 ltac:(lia)) as Hdm. pose proof (Z.mod_pos_bound m 2 ltac:(lia)) as Hr.
      destruct (decide (m mod 2 = 0)) as [E|E]; [f_equal; lia|].
      replace m with (2 * (m / 2) + 1) at 1 by lia. rewrite Z.log2_succ_double, Z.log2_double; Z.div_mod_to_equations; lia. }
    rewrite IH; [lia| |lia]. Z.div_mod_to_equations; lia. }
  rewrite Hgen; [lia|done|]. pose proof (proj1 (Z.log2_lt_pow2 mask 32 ltac:(lia)) ltac:(lia)). lia.
Qed.
