(* ===== verification/SchedCfg.v ===== *)
(** * The configuration of the scheduler

    sched16/sched_main.c: the numbers and the list of flowsets on the command
    line ([getnum], [parse_flowsets], in its two passes) and the options and
    allocations of [init].  Strings are lists of character codes; [strtol] and
    [strsep] are written out.  The hooks of the algorithm are in the files of
    the schedulers: here [init] ends with the parameters of each flow, which
    the hooks take.  Sums, differences and products of [int]s and [long]s are
    reduced to their width: one that does not fit is undefined in C and wraps
    on the machine. *)

From Stdlib Require Import String Ascii.
From stdpp Require Import list.
From S2P Require Import Prelude.
Open Scope Z_scope.

Module SchedCfg.

(** ** Strings *)

(** A string as the codes of its characters, without the terminator. *)
Definition codes (s : string) : list Z := (fun c => Z.of_nat (nat_of_ascii c)) <$> list_ascii_of_string s.

Definition is_space (c : Z) : bool := (c =? 32) || ((9 <=? c) && (c <=? 13)).

Definition digit (base c : Z) : option Z :=
  let d := if (48 <=? c) && (c <=? 57) then c - 48
           else if (97 <=? c) && (c <=? 122) then c - 87
           else if (65 <=? c) && (c <=? 90) then c - 55 else 36 in
  if d <? base then Some d else None.

Fixpoint skip_spaces (s : list Z) : list Z :=
  match s with c :: s' => if is_space c then skip_spaces s' else s | [] => [] end.

(** The digits at the start of [s], after those whose value is [acc]. *)
Fixpoint read_digits (base acc : Z) (s : list Z) : Z * list Z :=
  match s with
  | [] => (acc, [])
  | c :: s' => match digit base c with Some d => read_digits base (acc * base + d) s' | None => (acc, s) end
  end.

Definition LONG_MAX : Z := 2 ^ 63 - 1.
Definition LONG_MIN : Z := - 2 ^ 63.

(** [strtol(s, &end, 0)]: the value and [end]. *)
Definition strtol (s : list Z) : Z * list Z :=
  let s1 := skip_spaces s in
  let '(neg, s2) := match s1 with 45 :: s' => (true, s') | 43 :: s' => (false, s') | _ => (false, s1) end in
  let signed v := if (neg : bool) then Z.max LONG_MIN (- v) else Z.min LONG_MAX v in
  match s2 with
  | 48 :: x :: c :: s3 =>
      if ((x =? 120) || (x =? 88)) && bool_decide (is_Some (digit 16 c)) then
        let '(v, end_) := read_digits 16 0 (c :: s3) in (signed v, end_)
      else let '(v, end_) := read_digits 8 0 s2 in (signed v, end_)
  | 48 :: _ => let '(v, end_) := read_digits 8 0 s2 in (signed v, end_)
  | c :: _ =>
      if bool_decide (is_Some (digit 10 c)) then let '(v, end_) := read_digits 10 0 s2 in (signed v, end_) else (0, s)
  | [] => (0, s)
  end.

(** [strsep(&cur, delim)]: the token and [cur]. *)
Fixpoint split_at (delim : Z) (s : list Z) : list Z * option (list Z) :=
  match s with
  | [] => ([], None)
  | c :: s => if c =? delim then ([], Some s) else let '(t, r) := split_at delim s in (c :: t, r)
  end.
Definition strsep (delim : Z) (cur : option (list Z)) : option (list Z) * option (list Z) :=
  match cur with None => (None, None) | Some s => let '(t, r) := split_at delim s in (Some t, r) end.

(** ** Numbers *)

(** [getnum]: the value and, when the caller asks for it, [next]. *)
Definition getnum (s : option (list Z)) : Z * option (list Z) :=
  let '(l, end_) := match s with Some ((_ :: _) as s) => let '(l, e) := strtol s in (l, Some e) | _ => (-1, None) end in
  if l <? 0 then (0, None)
  else
    match end_ with
    | None | Some [] => (l, None)
    | Some ((c :: rest) as all) =>
        let '(l, end_) :=
          if c =? 110 then (- l, rest)
          else if c =? 75 then (s64 (l * 1000), rest)
          else if c =? 77 then (s64 (l * 1000000), rest)
          else if c =? 107 then (s64 (l * 1024), rest)
          else if c =? 109 then (s64 (s64 (l * 1024) * 1024), rest)
          else if c =? 119 then (l, rest)
          else (l, all) in
        (l, match end_ with [] => None | _ => Some end_ end)
    end.

(** An [int] that receives the value. *)
Definition getint (s : option (list Z)) : Z * option (list Z) := let '(l, next) := getnum s in (s32 l, next).

(** [getnum(p + 1, &p, ...)] when [p] is not null, [dflt] otherwise. *)
Definition more_num (p : option (list Z)) (dflt : Z) : Z * option (list Z) :=
  match p with Some (_ :: s) => getint (Some s) | Some [] => getint None | None => (dflt, None) end.

(** ** Flowsets *)

(** What one element of the list says. *)
Record fs_param := mk_param { w : Z; w_h : Z; w_steps : Z; len : Z; len_h : Z; l_steps : Z; flows : Z }.

Definition parse_param (cur : list Z) : fs_param :=
  let '(t, cur) := strsep 58 (Some cur) in
  let '(w, p) := getint t in
  let w := if w <=? 0 then 1 else w in
  let '(w_h, p) := more_num p w in
  let '(w_steps, _) := more_num p (if w_h =? w then 1 else 2) in
  let '(t, cur) := strsep 58 cur in
  let '(len, p) := getint t in
  let len := if len <=? 0 then 1000 else len in
  let '(len_h, p) := more_num p len in
  let '(l_steps, _) := more_num p (if len_h =? len then 1 else 2) in
  let '(t, _) := strsep 58 cur in
  let '(flows, _) := getint t in
  let flows := if flows =? 0 then 1 else flows in
  mk_param w w_h w_steps len len_h l_steps flows.

Definition wrong (p : fs_param) : bool :=
  (w p =? 0) || (w_h p <? w p) || (len p =? 0) || (len_h p <? len p) || (flows p =? 0).

(** Step [i] of [steps] from [lo] to [hi]. *)
Definition step_value (lo hi steps i : Z) : Z :=
  s32 (lo + Z.quot (s32 (s32 (hi - lo) * i)) (if steps =? 1 then 1 else s32 (steps - 1))).

(** The weight and the length of each flowset of an element, in order. *)
Definition param_values (p : fs_param) : list (Z * Z) :=
  i ← seqZ 0 (w_steps p); j ← seqZ 0 (l_steps p);
  [(step_value (w p) (w_h p) (w_steps p) i, step_value (len p) (len_h p) (l_steps p) j)].

Record dn_fs := mk_fs {
  par0 : Z; par1 : Z; index : Z; n_flows : Z; cur : Z; first_flow : Z; next_flow : Z; fs_y : Z; base_y : Z; next_y : Z;
}.
Definition fs_zero : dn_fs := mk_fs 0 0 0 0 0 0 0 0 0 0.

(** The part of [struct cfg_s] that is set up here; [c_q] has, for each queue,
    the flowset it is linked to. *)
Record cfg := mk_cfg {
  c_flows : Z;
  c_flowsets : Z;
  c_wsum : Z;
  c_fs_config : option (list Z);
  c_fs : option (list dn_fs);
  c_q : option (list (option Z));
}.

(** The variables of the loop of [parse_flowsets] and the array of flowsets. *)
Record pstate := mk_p { p_flows : Z; p_fs : Z; p_wsum : Z; p_prev : option dn_fs; p_arr : option (list dn_fs) }.

(** A flowset in the second pass. *)
Definition fill_fs (wi li flows n_fs : Z) (prev : option dn_fs) : dn_fs :=
  let x := Z.quot (s32 (wi * 2048)) li in
  let first := from_option next_flow 0 prev in
  let base := from_option next_y 0 prev in
  let y := s32 (x * flows) in
  mk_fs wi li n_fs flows first first (s32 (first + flows)) y base (s32 (base + y)).

(** The two inner loops on the values of an element: [false] is the early
    return for an error in the number of flowsets. *)
Fixpoint put_values (pass : bool) (flowsets flows : Z) (vs : list (Z * Z)) (st : pstate) : bool * pstate :=
  match vs with
  | [] => (true, st)
  | (wi, li) :: vs =>
      if negb pass then put_values pass flowsets flows vs (mk_p (p_flows st) (s32 (p_fs st + 1)) (p_wsum st) (p_prev st) (p_arr st))
      else
        match p_arr st with
        | None => (false, st)
        | Some arr =>
            if flowsets <=? p_fs st then (false, st)
            else
              let fs := fill_fs wi li flows (p_fs st) (p_prev st) in
              put_values pass flowsets flows vs
                (mk_p (p_flows st) (s32 (p_fs st + 1)) (s32 (p_wsum st + s32 (wi * flows))) (Some fs) (Some (<[Z.to_nat (p_fs st) := fs]> arr)))
        end
  end.

(** The tokens of the list. *)
Fixpoint tokens (fuel : nat) (next : option (list Z)) : list (list Z) :=
  match fuel with
  | O => []
  | S fuel => match strsep 44 next with (Some t, next) => t :: tokens fuel next | (None, _) => [] end
  end.

(** The outer loop: [false] is one of the early returns. *)
Fixpoint parse_loop (pass : bool) (flowsets : Z) (ts : list (list Z)) (st : pstate) : bool * pstate :=
  match ts with
  | [] => (true, st)
  | t :: ts =>
      let p := parse_param t in
      if wrong p then (false, st)
      else
        let st := mk_p (s32 (p_flows st + s32 (s32 (flows p * w_steps p) * l_steps p))) (p_fs st) (p_wsum st) (p_prev st) (p_arr st) in
        let '(ok, st) := put_values pass flowsets (flows p) (param_values p) st in
        if ok then parse_loop pass flowsets ts st else (false, st)
  end.

(** Link the flows [js] to flowset [i]: [None] is a queue that does not exist. *)
Fixpoint link_flows (i : Z) (js : list Z) (q : list (option Z)) : option (list (option Z)) :=
  match js with
  | [] => Some q
  | j :: js => if (0 <=? j) && (j <? Z.of_nat (length q)) then link_flows i js (<[Z.to_nat j := Some i]> q) else None
  end.

Fixpoint link_all (i : Z) (fss : list dn_fs) (q : list (option Z)) : option (list (option Z)) :=
  match fss with
  | [] => Some q
  | fs :: fss =>
      match link_flows i (seqZ (first_flow fs) (next_flow fs - first_flow fs)) q with
      | None => None
      | Some q => link_all (i + 1) fss q
      end
  end.

(** [parse_flowsets(c, fs)]; the second pass has [fs] null. *)
Definition parse_flowsets (c : cfg) (fs : option (list Z)) : option cfg :=
  let pass := negb (bool_decide (is_Some fs)) in
  let config := match fs with Some s => Some s | None => c_fs_config c end in
  let c := mk_cfg (c_flows c) (c_flowsets c) (c_wsum c) config (c_fs c) (c_q c) in
  match config with
  | None => Some c
  | Some s =>
      let '(ok, st) := parse_loop pass (c_flowsets c) (tokens (S (length s)) (Some s)) (mk_p 0 0 0 None (c_fs c)) in
      let c := mk_cfg (c_flows c) (c_flowsets c) (c_wsum c) config (p_arr st) (c_q c) in
      if negb ok then Some c
      else
        let c := mk_cfg (p_flows st) (p_fs st) (p_wsum st) config (p_arr st) (c_q c) in
        if negb pass then Some c
        else
          match c_fs c, c_q c with
          | Some arr, Some q =>
              match link_all 0 (take (Z.to_nat (c_flowsets c)) arr) q with
              | None => None
              | Some q => Some (mk_cfg (c_flows c) (c_flowsets c) (c_wsum c) config (Some arr) (Some q))
              end
          | _, _ => Some c
          end
  end.

(** ** The options *)

Inductive algorithm := AlgRr | AlgWf2qp | AlgFifo | AlgQfq.

(** The other fields that the options set. *)
Record opts := mk_opts { o_cfg : cfg; o_loops : Z; o_alg : option algorithm; o_lmin : Z; o_lmax : Z; o_th_min : Z; o_th_max : Z }.

Definition set_cfg c o := mk_opts c (o_loops o) (o_alg o) (o_lmin o) (o_lmax o) (o_th_min o) (o_th_max o).

Definition parse_alg (v : string) : option algorithm :=
  if String.eqb v "rr" then Some AlgRr
  else if String.eqb v "wf2qp" then Some AlgWf2qp
  else if String.eqb v "fifo" then Some AlgFifo
  else if String.eqb v "qfq" then Some AlgQfq else None.

(** One option with its argument; those that only change the output are
    ignored, as the options that are not recognised. *)
Definition do_option (o : opts) (name v : string) : option opts :=
  let num := fst (getint (Some (codes v))) in
  let c := o_cfg o in
  if String.eqb name "-n" then Some (mk_opts c num (o_alg o) (o_lmin o) (o_lmax o) (o_th_min o) (o_th_max o))
  else if String.eqb name "-alg" then Some (mk_opts c (o_loops o) (parse_alg v) (o_lmin o) (o_lmax o) (o_th_min o) (o_th_max o))
  else if String.eqb name "-len" then Some (mk_opts c (o_loops o) (o_alg o) num num (o_th_min o) (o_th_max o))
  else if String.eqb name "-qmax" then Some (mk_opts c (o_loops o) (o_alg o) (o_lmin o) (o_lmax o) (o_th_min o) num)
  else if String.eqb name "-qmin" then Some (mk_opts c (o_loops o) (o_alg o) (o_lmin o) (o_lmax o) num (o_th_max o))
  else if String.eqb name "-flows" then Some (set_cfg (mk_cfg num (c_flowsets c) (c_wsum c) (c_fs_config c) (c_fs c) (c_q c)) o)
  else if String.eqb name "-flowsets" then c' ← parse_flowsets c (Some (codes v)); Some (set_cfg c' o)
  else Some o.

(** The loop on the arguments. *)
Fixpoint do_options (o : opts) (av : list string) : option opts :=
  match av with
  | name :: v :: av => o' ← do_option o name v; do_options o' av
  | _ => Some o
  end.

Definition at_least_one (x : Z) : Z := if x <=? 0 then 1 else x.

(** After the options: defaults, and the thresholds times the flows. *)
Definition fix_opts (o : opts) : opts :=
  let c := o_cfg o in
  let c := mk_cfg (at_least_one (c_flows c)) (at_least_one (c_flowsets c)) (c_wsum c) (c_fs_config c) (c_fs c) (c_q c) in
  let th_min := if o_th_min o <? 0 then s32 (c_flows c * - o_th_min o) else o_th_min o in
  let th_max := if o_th_max o <? 0 then s32 (c_flows c * - o_th_max o) else o_th_max o in
  let th_max := if th_max <=? th_min then s32 (th_min + 1) else th_max in
  mk_opts c (at_least_one (o_loops o)) (o_alg o) (at_least_one (o_lmin o)) (at_least_one (o_lmax o)) th_min th_max.

Definition cfg_zero : cfg := mk_cfg 0 0 0 None None None.

(** The default length of a flowset. *)
Definition default_len (fs : dn_fs) : dn_fs :=
  if par1 fs =? 0 then mk_fs (par0 fs) 1000 (index fs) (n_flows fs) (cur fs) (first_flow fs) (next_flow fs) (fs_y fs) (base_y fs) (next_y fs)
  else fs.

(** The flowset of the first [n] queues, when they have none. *)
Definition default_fs (n : nat) (q : list (option Z)) : list (option Z) :=
  ((fun fs => Some (default 0 fs)) <$> take n q) ++ drop n q.

(** [init], up to the calls of the hooks [new_fsk] and [new_queue]: the
    options, and the configuration with the flowset of each queue; [None] is
    an access outside of an array.  The arguments are those after the name of
    the program. *)
Definition init (av : list string) : option opts :=
  let o := mk_opts (mk_cfg 1 1 0 None None None) 0 None 1280 1280 (-1) (-20) in
  o ← do_options o av;
  let o := fix_opts o in
  let c := o_cfg o in
  let c := mk_cfg (c_flows c) (c_flowsets c) (c_wsum c) (c_fs_config c)
             (Some (replicate (Z.to_nat (c_flowsets c)) fs_zero)) (Some (replicate (Z.to_nat (c_flows c)) None)) in
  c ← parse_flowsets c None;
  let fss := default_len <$> default [] (c_fs c) in
  let q := default [] (c_q c) in
  if Z.of_nat (length q) <? c_flows c then None
  else
    Some (set_cfg (mk_cfg (c_flows c) (c_flowsets c) (c_wsum c) (c_fs_config c) (Some fss)
                     (Some (default_fs (Z.to_nat (c_flows c)) q))) o).

(** What the hooks get: for each flow the parameters of its flowset. *)
Definition flow_params (o : opts) : list (Z * Z) :=
  let fss := default [] (c_fs (o_cfg o)) in
  (fun fs => match fss !! Z.to_nat (default 0 fs) with Some f => (par0 f, par1 f) | None => (0, 0) end)
  <$> default [] (c_q (o_cfg o)).

End SchedCfg.
Import SchedCfg.

(** ** What a list of flowsets means *)

Definition flowset : Type := (Z * Z * Z)%type.

(** The flowsets of an element: weight, length and number of flows of each. *)
Definition param_flowsets (p : fs_param) : list flowset := (fun v => (v, flows p)) <$> param_values p.
Definition config_flowsets (s : list Z) : list flowset := tokens (S (length s)) (Some s) ≫= fun t => param_flowsets (parse_param t).

Definition total_flows (l : list flowset) : Z := foldr (fun f n => snd f + n) 0 l.
Definition total_weight (l : list flowset) : Z := foldr (fun f n => fst (fst f) * snd f + n) 0 l.

(** An element that is not refused and has a number of flows. *)
Definition good_param (p : fs_param) : Prop :=
  wrong p = false /\ 0 < flows p /\ 0 <= w_steps p /\ 0 <= l_steps p /\
  (w_h p - w p) * w_steps p < 2 ^ 31 /\ (len_h p - len p) * l_steps p < 2 ^ 31.
(** A list of such elements, whose flows are not more than an [int] counts. *)
Definition good_config (s : list Z) : Prop :=
  Forall (fun t => good_param (parse_param t)) (tokens (S (length s)) (Some s)) /\ total_flows (config_flowsets s) < 2 ^ 31.

Lemma total_flows_app l l' : total_flows (l ++ l') = total_flows l + total_flows l'.
Proof. induction l as [|f l IH]; simpl; [done|]. rewrite IH. lia. Qed.

Lemma total_weight_app l l' : total_weight (l ++ l') = total_weight l + total_weight l'.
Proof. induction l as [|f l IH]; simpl; [done|]. rewrite IH. lia. Qed.

Lemma length_bind_const {A B} (f : A -> list B) n l : (forall x, length (f x) = n) -> length (l ≫= f) = (length l * n)%nat.
Proof. intros Hf. induction l as [|x l IH]; [done|]. by rewrite bind_cons, length_app, Hf, IH. Qed.

Lemma length_param_values p : 0 <= w_steps p -> 0 <= l_steps p ->
  Z.of_nat (length (param_values p)) = w_steps p * l_steps p.
Proof.
  intros Hw Hl. unfold param_values. rewrite (length_bind_const _ (Z.to_nat (l_steps p))).
  - rewrite length_seqZ. lia.
  - intros i. rewrite (length_bind_const _ 1) by done. rewrite length_seqZ. lia.
Qed.

Lemma total_same vs (n : Z) : total_flows ((fun v : Z * Z => (v, n)) <$> vs) = n * Z.of_nat (length vs).
Proof. induction vs as [|v vs IH]; [simpl; lia|]. cbn [fmap list_fmap total_flows foldr snd length]. unfold total_flows in IH. rewrite IH. lia. Qed.

Lemma param_totals p : good_param p -> Z.of_nat (length (param_flowsets p)) = w_steps p * l_steps p /\
  total_flows (param_flowsets p) = flows p * w_steps p * l_steps p.
Proof.
  intros (_ & _ & Hs1 & Hs2 & _). pose proof (length_param_values p Hs1 Hs2) as Hl. unfold param_flowsets.
  rewrite total_same, length_fmap, Hl. lia.
Qed.

(** ** The first pass *)

Lemma put_values_first flowsets n vs : forall st, s32 (p_fs st) = p_fs st ->
  put_values false flowsets n vs st = (true, mk_p (p_flows st) (s32 (p_fs st + Z.of_nat (length vs))) (p_wsum st) (p_prev st) (p_arr st)).
Proof.
  induction vs as [|[wi li] vs IH]; intros st Hs; cbn [put_values negb].
  - rewrite Z.add_0_r, Hs. by destruct st.
  - rewrite IH by apply s32_s32. cbn [p_flows p_fs p_wsum p_prev p_arr]. rewrite s32_add_l. do 3 f_equal. cbn [length]. lia.
Qed.

Lemma parse_loop_first flowsets ts : Forall (fun t => good_param (parse_param t)) ts -> forall st,
  s32 (p_fs st) = p_fs st -> s32 (p_flows st) = p_flows st ->
  let fss := ts ≫= fun t => param_flowsets (parse_param t) in
  parse_loop false flowsets ts st =
  (true, mk_p (s32 (p_flows st + total_flows fss)) (s32 (p_fs st + Z.of_nat (length fss))) (p_wsum st) (p_prev st) (p_arr st)).
Proof.
  intros HF. induction HF as [|t ts Hg _ IH]; intros st Hs1 Hs2; cbn [parse_loop].
  - simpl. rewrite !Z.add_0_r, Hs1, Hs2. by destruct st.
  - destruct (param_totals _ Hg) as [L1 L2]. rewrite (proj1 Hg), put_values_first by done. rewrite IH by apply s32_s32. cbv zeta.
    rewrite bind_cons, total_flows_app, length_app. cbn [p_flows p_fs p_wsum p_prev p_arr]. f_equal.
    rewrite s32_mul_l, s32_add_r, !s32_add_l, L2.
    unfold param_flowsets in L1 at 1. rewrite length_fmap in L1. f_equal; [f_equal; lia|].
    f_equal. unfold param_flowsets at 2. rewrite length_fmap. lia.
Qed.

(** ** The second pass *)

(** The flowsets as they are stored, after [k] others, the last of them [prev]. *)
Fixpoint fill_all (k : Z) (prev : option dn_fs) (l : list flowset) : list dn_fs :=
  match l with
  | [] => []
  | ((wi, li), n) :: l => let fs := fill_fs wi li n k prev in fs :: fill_all (k + 1) (Some fs) l
  end.

Lemma length_fill_all l : forall k prev, length (fill_all k prev l) = length l.
Proof. induction l as [|[[wi li] n] l IH]; intros k prev; simpl; [done|]. by rewrite IH. Qed.

(** The last of them. *)
Fixpoint fill_prev (k : Z) (prev : option dn_fs) (l : list flowset) : option dn_fs :=
  match l with
  | [] => prev
  | ((wi, li), n) :: l => fill_prev (k + 1) (Some (fill_fs wi li n k prev)) l
  end.

Lemma fill_all_app l l' : forall k prev, fill_all k prev (l ++ l') =
  fill_all k prev l ++ fill_all (k + Z.of_nat (length l)) (fill_prev k prev l) l'.
Proof.
  induction l as [|[[wi li] n] l IH]; intros k prev; cbn [app fill_all fill_prev].
  - simpl. by rewrite Z.add_0_r.
  - rewrite IH. do 3 f_equal. cbn [length]. lia.
Qed.

Lemma fill_prev_app l l' : forall k prev, fill_prev k prev (l ++ l') = fill_prev (k + Z.of_nat (length l)) (fill_prev k prev l) l'.
Proof.
  induction l as [|[[wi li] n] l IH]; intros k prev; cbn [app fill_prev].
  - simpl. by rewrite Z.add_0_r.
  - rewrite IH. f_equal. cbn [length]. lia.
Qed.

(** The array with the flowsets [l] stored from position [k] on. *)
Definition stored (k : Z) (prev : option dn_fs) (l : list flowset) (arr : list dn_fs) : list dn_fs :=
  take (Z.to_nat k) arr ++ fill_all k prev l ++ drop (Z.to_nat k + length l) arr.

Lemma stored_nil k prev arr : stored k prev [] arr = arr.
Proof. unfold stored. simpl. by rewrite Nat.add_0_r, take_drop. Qed.

Lemma stored_cons k prev wi li n l arr : 0 <= k < Z.of_nat (length arr) ->
  stored (k + 1) (Some (fill_fs wi li n k prev)) l (<[Z.to_nat k := fill_fs wi li n k prev]> arr) = stored k prev (((wi, li), n) :: l) arr.
Proof.
  intros Hk. unfold stored. cbn [fill_all length]. set (fs := fill_fs wi li n k prev).
  replace (Z.to_nat (k + 1)) with (S (Z.to_nat k)) by lia.
  rewrite (take_S_r _ _ fs) by (rewrite list_lookup_insert_eq; [done|lia]).
  rewrite take_insert_ge, drop_insert_lt by lia. rewrite <- (assoc_L (++)). simpl. do 3 f_equal. f_equal. lia.
Qed.

Lemma stored_app k prev l l' arr : 0 <= k -> k + Z.of_nat (length l) <= Z.of_nat (length arr) ->
  stored (k + Z.of_nat (length l)) (fill_prev k prev l) l' (stored k prev l arr) = stored k prev (l ++ l') arr.
Proof.
  intros Hk Hl. unfold stored. rewrite fill_all_app, length_app.
  assert (Ht : length (take (Z.to_nat k) arr) = Z.to_nat k) by (rewrite length_take_le; lia).
  rewrite (assoc_L (++) (take (Z.to_nat k) arr)).
  assert (Hp : length (take (Z.to_nat k) arr ++ fill_all k prev l) = Z.to_nat (k + Z.of_nat (length l))).
  { rewrite length_app, Ht, length_fill_all. lia. }
  rewrite take_app_length' by done. rewrite drop_app_ge by lia. rewrite drop_drop, Hp.
  rewrite <- !(assoc_L (++)). do 4 f_equal. lia.
Qed.

Lemma length_stored k prev l arr : 0 <= k -> k + Z.of_nat (length l) <= Z.of_nat (length arr) -> length (stored k prev l arr) = length arr.
Proof. intros Hk Hl. unfold stored. rewrite !length_app, length_fill_all, length_take_le, length_drop by lia. lia. Qed.

Lemma put_values_second flowsets n vs : forall st arr, p_arr st = Some arr -> 0 <= p_fs st -> s32 (p_wsum st) = p_wsum st ->
  p_fs st + Z.of_nat (length vs) <= flowsets -> flowsets <= Z.of_nat (length arr) -> flowsets < 2 ^ 31 ->
  let l := (fun v : Z * Z => (v, n)) <$> vs in
  put_values true flowsets n vs st =
  (true, mk_p (p_flows st) (p_fs st + Z.of_nat (length vs)) (s32 (p_wsum st + total_weight l)) (fill_prev (p_fs st) (p_prev st) l)
           (Some (stored (p_fs st) (p_prev st) l arr))).
Proof.
  induction vs as [|[wi li] vs IH]; intros st arr Ha Hk Hw Hf Hl Hm; cbn [put_values negb].
  - simpl. rewrite stored_nil, !Z.add_0_r, <- Ha, Hw. by destruct st.
  - rewrite Ha. cbn [length] in Hf. rewrite (proj2 (Z.leb_gt _ _)) by lia. rewrite (s32_id (p_fs st + 1)) by lia.
    rewrite (IH _ (<[Z.to_nat (p_fs st) := fill_fs wi li n (p_fs st) (p_prev st)]> arr));
      [|done|simpl; lia|apply s32_s32|simpl; lia|by rewrite length_insert|done].
    cbn [p_flows p_fs p_wsum p_prev]. rewrite fmap_cons, stored_cons by lia. cbn [fill_prev total_weight foldr fst snd length].
    rewrite s32_add_l, <- (s32_add_l (p_wsum st + s32 (wi * n))), s32_add_r, s32_add_l, <- Z.add_assoc.
    f_equal. f_equal; [lia|]. f_equal. unfold total_weight. lia.
Qed.

Lemma parse_loop_second flowsets ts : Forall (fun t => good_param (parse_param t)) ts -> forall st arr, p_arr st = Some arr -> 0 <= p_fs st ->
  s32 (p_wsum st) = p_wsum st -> s32 (p_flows st) = p_flows st ->
  let fss := ts ≫= fun t => param_flowsets (parse_param t) in
  p_fs st + Z.of_nat (length fss) <= flowsets -> flowsets <= Z.of_nat (length arr) -> flowsets < 2 ^ 31 ->
  parse_loop true flowsets ts st =
  (true, mk_p (s32 (p_flows st + total_flows fss)) (p_fs st + Z.of_nat (length fss)) (s32 (p_wsum st + total_weight fss))
           (fill_prev (p_fs st) (p_prev st) fss) (Some (stored (p_fs st) (p_prev st) fss arr))).
Proof.
  intros HF. induction HF as [|t ts Hg _ IH]; intros st arr Ha Hk Hw Hfl fss Hf Hl Hm; cbn [parse_loop].
  - subst fss. simpl. rewrite stored_nil, !Z.add_0_r, <- Ha, Hw, Hfl. by destruct st.
  - destruct (param_totals _ Hg) as [L1 L2]. rewrite (proj1 Hg). subst fss. rewrite bind_cons in Hf |- *. rewrite length_app in Hf |- *.
    assert (Hlen : length (param_values (parse_param t)) = length (param_flowsets (parse_param t))) by (unfold param_flowsets; by rewrite length_fmap).
    rewrite (put_values_second _ _ _ _ arr) by (done || simpl; lia). cbn [p_flows p_fs p_wsum p_prev].
    fold (param_flowsets (parse_param t)). rewrite Hlen.
    rewrite (IH _ (stored (p_fs st) (p_prev st) (param_flowsets (parse_param t)) arr));
      [|done|simpl; lia|apply s32_s32|apply s32_s32|simpl; lia|by rewrite length_stored by lia|done].
    cbn [p_flows p_fs p_wsum p_prev]. rewrite stored_app, fill_prev_app, total_flows_app, total_weight_app by lia.
    rewrite s32_mul_l, s32_add_r, !s32_add_l, L2. f_equal. f_equal; [f_equal; lia|lia|f_equal; lia].
Qed.

(** ** The links from the flows to the flowsets *)

(** The links of the flows of [l], whose flowsets are numbered from [k] on. *)
Fixpoint links (k : Z) (l : list flowset) : list (option Z) :=
  match l with [] => [] | (_, n) :: l => replicate (Z.to_nat n) (Some k) ++ links (k + 1) l end.

Lemma length_links l : Forall (fun f => 0 <= snd f) l -> forall k, Z.of_nat (length (links k l)) = total_flows l.
Proof.
  intros HF. induction HF as [|[v n] l Hn _ IH]; intros k; cbn [links total_flows foldr snd]; [done|].
  rewrite length_app, length_replicate, Nat2Z.inj_add, IH. simpl in Hn. unfold total_flows. lia.
Qed.

Lemma link_flows_in i n : forall a q, (a + n <= length q)%nat ->
  link_flows i (seqZ (Z.of_nat a) (Z.of_nat n)) q = Some (take a q ++ replicate n (Some i) ++ drop (a + n) q).
Proof.
  induction n as [|n IH]; intros a q Hq.
  - simpl. by rewrite Nat.add_0_r, take_drop.
  - rewrite seqZ_cons by lia. cbn [link_flows]. rewrite (proj2 (Z.leb_le _ _)), (proj2 (Z.ltb_lt _ _)) by lia. cbn [andb].
    replace (Z.succ (Z.of_nat a)) with (Z.of_nat (S a)) by lia. replace (Z.pred (Z.of_nat (S n))) with (Z.of_nat n) by lia.
    rewrite Nat2Z.id, IH by (rewrite length_insert; lia). f_equal.
    rewrite (take_S_r _ _ (Some i)) by (rewrite list_lookup_insert_eq; [done|lia]). rewrite take_insert_ge, drop_insert_lt by lia.
    rewrite <- (assoc_L (++)). simpl. do 3 f_equal. f_equal. lia.
Qed.

Lemma link_flows_out i n : forall a q, (a <= length q)%nat -> (length q < a + n)%nat ->
  link_flows i (seqZ (Z.of_nat a) (Z.of_nat n)) q = None.
Proof.
  induction n as [|n IH]; intros a q Ha Hq; [lia|]. rewrite seqZ_cons by lia. cbn [link_flows]. rewrite (proj2 (Z.leb_le _ _)) by lia. cbn [andb].
  destruct (decide (a = length q)) as [->|Hne]; [by rewrite Z.ltb_irrefl|]. rewrite (proj2 (Z.ltb_lt _ _)) by lia.
  replace (Z.succ (Z.of_nat a)) with (Z.of_nat (S a)) by lia. replace (Z.pred (Z.of_nat (S n))) with (Z.of_nat n) by lia.
  apply IH; rewrite length_insert; lia.
Qed.

Lemma link_all_in l : Forall (fun f => 0 <= snd f) l -> forall k prev (a : nat) q, from_option next_flow 0 prev = Z.of_nat a ->
  Z.of_nat a + total_flows l <= Z.of_nat (length q) -> Z.of_nat a + total_flows l < 2 ^ 31 ->
  link_all k (fill_all k prev l) q = Some (take a q ++ links k l ++ drop (a + length (links k l)) q).
Proof.
  intros HF. induction HF as [|[[wi li] n] l Hn HF IH]; intros k prev a q Ha Hq Hm; cbn [fill_all link_all].
  - simpl. by rewrite Nat.add_0_r, take_drop.
  - cbn [snd total_flows foldr] in Hn, Hq, Hm. fold (total_flows l) in Hq, Hm. cbn [fill_fs first_flow next_flow]. rewrite Ha.
    assert (Ht : 0 <= total_flows l) by (rewrite <- (length_links l HF k); lia). rewrite (s32_id (Z.of_nat a + n)) by lia.
    replace (Z.of_nat a + n - Z.of_nat a) with (Z.of_nat (Z.to_nat n)) by lia. rewrite link_flows_in by lia.
    set (q1 := take a q ++ _). assert (Hq1 : length q1 = length q).
    { unfold q1. rewrite !length_app, length_replicate, length_take_le, length_drop by lia. lia. }
    rewrite (IH (k + 1) _ (a + Z.to_nat n)%nat) by (cbn [from_option next_flow fill_fs]; rewrite ?Ha, ?(s32_id (Z.of_nat a + n)) by lia; lia). f_equal. cbn [links].
    unfold q1. rewrite (assoc_L (++) (take a q) (replicate _ _) (drop _ _)), length_app, length_replicate.
    assert (Hlen : length (take a q ++ replicate (Z.to_nat n) (Some k)) = (a + Z.to_nat n)%nat) by (rewrite length_app, length_take_le, length_replicate; lia).
    rewrite take_app_length' by lia. rewrite drop_app_ge by lia. rewrite drop_drop, Hlen, <- !(assoc_L (++)). do 4 f_equal. lia.
Qed.

Lemma link_all_out l : Forall (fun f => 0 <= snd f) l -> forall k prev (a : nat) q, from_option next_flow 0 prev = Z.of_nat a ->
  (a <= length q)%nat -> Z.of_nat (length q) < Z.of_nat a + total_flows l -> Z.of_nat a + total_flows l < 2 ^ 31 -> link_all k (fill_all k prev l) q = None.
Proof.
  intros HF. induction HF as [|[[wi li] n] l Hn HF IH]; intros k prev a q Ha Hle Hq Hm; cbn [fill_all link_all].
  - simpl in Hq. lia.
  - cbn [snd total_flows foldr] in Hn, Hq, Hm. fold (total_flows l) in Hq, Hm. cbn [fill_fs first_flow next_flow]. rewrite Ha.
    assert (Ht : 0 <= total_flows l) by (rewrite <- (length_links l HF k); lia). rewrite (s32_id (Z.of_nat a + n)) by lia.
    replace (Z.of_nat a + n - Z.of_nat a) with (Z.of_nat (Z.to_nat n)) by lia.
    destruct (decide (a + Z.to_nat n <= length q)%nat) as [Hin|Hout]; [|by rewrite link_flows_out by lia].
    rewrite link_flows_in by done. set (q1 := take a q ++ _). assert (Hq1 : length q1 = length q).
    { unfold q1. rewrite !length_app, length_replicate, length_take_le, length_drop by lia. lia. }
    apply (IH (k + 1) _ (a + Z.to_nat n)%nat); cbn [from_option next_flow fill_fs]; rewrite ?Ha, ?(s32_id (Z.of_nat a + n)) by lia; lia.
Qed.

(** ** The whole of [parse_flowsets] *)

Lemma good_flows s : good_config s -> Forall (fun f => 0 < snd f) (config_flowsets s).
Proof.
  intros [HF _]. unfold config_flowsets. induction HF as [|t ts Hg _ IH]; [constructor|]. rewrite bind_cons. apply Forall_app. split; [|done].
  unfold param_flowsets. apply Forall_fmap. apply list.Forall_forall. intros v _. apply Hg.
Qed.

(** The flowsets and their flows fit an [int]. *)
Lemma good_counts s : good_config s -> let l := config_flowsets s in
  s32 (total_flows l) = total_flows l /\ Z.of_nat (length l) < 2 ^ 31.
Proof.
  intros Hg l. assert (H : Z.of_nat (length l) <= total_flows l).
  { pose proof (good_flows s Hg) as HF. fold l in HF. induction HF as [|f l' Hf _ IH]; [done|]. cbn [total_flows foldr length]. unfold total_flows in IH. lia. }
  destruct Hg as [_ Hg]. fold l in Hg. split; [apply s32_id|]; lia.
Qed.

Lemma parse_first c s : good_config s -> parse_flowsets c (Some s) =
  Some (mk_cfg (total_flows (config_flowsets s)) (Z.of_nat (length (config_flowsets s))) 0 (Some s) (c_fs c) (c_q c)).
Proof.
  intros Hg. unfold parse_flowsets. rewrite bool_decide_true by (by eexists). cbn [negb c_flowsets c_flows c_wsum c_fs_config c_fs c_q].
  destruct (good_counts s Hg) as [C1 C2]. rewrite (parse_loop_first _ _ (proj1 Hg)) by done. cbn [p_flows p_fs p_wsum p_prev p_arr negb].
  fold (config_flowsets s). by rewrite !Z.add_0_l, C1, s32_id by lia.
Qed.

Lemma parse_second c s arr q : good_config s -> c_fs_config c = Some s -> c_fs c = Some arr -> c_q c = Some q ->
  c_flowsets c = Z.of_nat (length (config_flowsets s)) -> length arr = length (config_flowsets s) ->
  let l := config_flowsets s in
  parse_flowsets c None =
  if total_flows l <=? Z.of_nat (length q)
  then Some (mk_cfg (total_flows l) (Z.of_nat (length l)) (s32 (total_weight l)) (Some s) (Some (fill_all 0 None l))
               (Some (links 0 l ++ drop (length (links 0 l)) q)))
  else None.
Proof.
  intros Hg Hs Ha Hq Hf Hl l. unfold parse_flowsets. rewrite bool_decide_false by (by intros [? ?]). cbn [negb c_flowsets c_flows c_wsum c_fs_config c_fs c_q].
  destruct (good_counts s Hg) as [C1 C2]. fold l in C1, C2.
  rewrite Hs, Hf, (parse_loop_second _ _ (proj1 Hg) _ arr); cbn [p_flows p_fs p_wsum p_prev p_arr]; [|done|done|done|done|done|lia|done].
  fold (config_flowsets s). fold l. rewrite !Z.add_0_l, C1. cbn [negb c_fs c_q c_flowsets c_flows c_wsum]. rewrite Hq.
  assert (Est : stored 0 None l arr = fill_all 0 None l).
  { unfold stored. simpl. rewrite drop_ge by (unfold l; lia). apply app_nil_r. }
  rewrite Est, Nat2Z.id, take_ge by (by rewrite length_fill_all).
  assert (HF : Forall (fun f : flowset => 0 <= snd f) l) by (eapply list.Forall_impl; [by apply good_flows|]; simpl; lia).
  destruct (total_flows l <=? Z.of_nat (length q)) eqn:E; zify_bool.
  - by rewrite (link_all_in l HF 0 None 0) by (done || apply Hg || lia).
  - by rewrite (link_all_out l HF 0 None 0) by (done || apply Hg || lia).
Qed.

(** ** Values of the flowsets *)

Lemma more_num_range p dflt : dflt < 2 ^ 31 -> fst (more_num p dflt) < 2 ^ 31.
Proof.
  intros Hd. destruct p as [[|c s]|]; cbn [more_num fst]; [| |done]; unfold getint; destruct (getnum _) as [l e]; apply s32_range.
Qed.

Lemma getint_range t : fst (getint t) < 2 ^ 31.
Proof. unfold getint. destruct (getnum t) as [l e]. apply s32_range. Qed.

Lemma parse_param_range t : let p := parse_param t in
  (0 < w p /\ w_h p < 2 ^ 31 /\ w_steps p < 2 ^ 31) /\ (0 < len p /\ len_h p < 2 ^ 31 /\ l_steps p < 2 ^ 31).
Proof.
  unfold parse_param. destruct (strsep 58 (Some t)) as [t1 c1]. pose proof (getint_range t1) as G1. destruct (getint t1) as [w0 p0]. cbn [fst] in G1.
  set (w1 := if w0 <=? 0 then 1 else w0). assert (0 < w1 < 2 ^ 31) by (subst w1; case_if; zify_bool; lia).
  pose proof (more_num_range p0 w1) as M1. destruct (more_num p0 w1) as [wh p1]. cbn [fst] in M1.
  pose proof (more_num_range p1 (if wh =? w1 then 1 else 2)) as M2. destruct (more_num p1 _) as [ws p2]. cbn [fst] in M2. destruct (strsep 58 c1) as [t2 c2].
  pose proof (getint_range t2) as G2. destruct (getint t2) as [l0 p3]. cbn [fst] in G2.
  set (l1 := if l0 <=? 0 then 1000 else l0). assert (0 < l1 < 2 ^ 31) by (subst l1; case_if; zify_bool; lia).
  pose proof (more_num_range p3 l1) as M3. destruct (more_num p3 l1) as [lh p4]. cbn [fst] in M3.
  pose proof (more_num_range p4 (if lh =? l1 then 1 else 2)) as M4. destruct (more_num p4 _) as [ls p5]. cbn [fst] in M4.
  destruct (strsep 58 c2) as [t3 c3]. destruct (getint t3) as [f0 p6]. cbn [w w_h w_steps len len_h l_steps].
  split_and!; try lia; [apply M2|apply M4]; case_if; lia.
Qed.

Lemma step_value_range lo hi steps i : 0 < lo <= hi -> hi < 2 ^ 31 -> 0 <= i < steps -> steps < 2 ^ 31 -> (hi - lo) * steps < 2 ^ 31 ->
  lo <= step_value lo hi steps i <= hi.
Proof.
  intros Hh Hm Hi Hs Hp. unfold step_value. rewrite (s32_id (hi - lo)), (s32_id (steps - 1)) by lia.
  assert (Hpi : 0 <= (hi - lo) * i <= (hi - lo) * steps) by (split; [apply Z.mul_nonneg_nonneg; lia|apply Z.mul_le_mono_nonneg_l; lia]).
  rewrite (s32_id ((hi - lo) * i)) by lia.
  assert (Hq : 0 <= Z.quot ((hi - lo) * i) (if steps =? 1 then 1 else steps - 1) <= hi - lo); [|rewrite s32_id by lia; lia].
  destruct (Z.eqb_spec steps 1) as [->|Hne].
  - assert (i = 0) as -> by lia. rewrite Z.mul_0_r, Z.quot_1_r. lia.
  - rewrite Z.quot_div_nonneg by nia. split; [apply Z.div_pos; nia|]. apply Z.div_le_upper_bound; nia.
Qed.

(** Every weight and every length is between the bounds of its element. *)
Lemma param_values_range t v : let p := parse_param t in good_param p -> v ∈ param_values p ->
  w p <= fst v <= w_h p /\ len p <= snd v <= len_h p.
Proof.
  intros p (Hw & _ & _ & _ & Hb1 & Hb2) (i & Hv & Hi%elem_of_seqZ)%list_elem_of_bind. apply list_elem_of_bind in Hv as (j & Hv & Hj%elem_of_seqZ).
  apply list_elem_of_singleton in Hv. subst v. cbn [fst snd]. destruct (parse_param_range t) as [R1 R2]. fold p in R1, R2. unfold wrong in Hw. zify_bool.
  split; apply step_value_range; lia.
Qed.

Lemma config_pos s : good_config s -> Forall (fun f => 0 < fst (fst f) /\ 0 < snd (fst f)) (config_flowsets s).
Proof.
  intros [Hg _]. apply list.Forall_forall. intros f (t & Hf & Ht)%list_elem_of_bind. rewrite list.Forall_forall in Hg. specialize (Hg t Ht).
  unfold param_flowsets in Hf. apply list_elem_of_fmap in Hf as (v & -> & Hv). cbn [fst].
  destruct (param_values_range t v Hg Hv) as [R1 R2]. destruct (parse_param_range t) as [P1 P2]. cbv zeta in *. lia.
Qed.

Lemma fill_all_lookup l : forall k prev j f, l !! j = Some f ->
  exists fs, fill_all k prev l !! j = Some fs /\ par0 fs = fst (fst f) /\ par1 fs = snd (fst f).
Proof.
  induction l as [|[[wi li] n] l IH]; intros k prev j f Hj; [done|]. cbn [fill_all]. destruct j as [|j]; simpl in Hj |- *.
  - injection Hj as <-. eexists. done.
  - by apply IH.
Qed.

Lemma default_len_id l : Forall (fun f => 0 < fst (fst f) /\ 0 < snd (fst f)) l -> forall k prev, default_len <$> fill_all k prev l = fill_all k prev l.
Proof.
  intros HF. induction HF as [|[[wi li] n] l Hp _ IH]; intros k prev; [done|]. cbn [fill_all]. rewrite fmap_cons, IH. f_equal.
  unfold default_len. cbn [par1 fill_fs]. by rewrite (proj2 (Z.eqb_neq _ _)) by (simpl in Hp; lia).
Qed.

(** The parameters of each flow. *)
Definition flows_of (l : list flowset) : list (Z * Z) := l ≫= fun f => replicate (Z.to_nat (snd f)) (fst f).

Lemma links_params (fss : list dn_fs) l : forall k, 0 <= k ->
  (forall j f, l !! j = Some f -> exists fs, fss !! (Z.to_nat k + j)%nat = Some fs /\ par0 fs = fst (fst f) /\ par1 fs = snd (fst f)) ->
  (fun fs => match fss !! Z.to_nat (default 0 fs) with Some f => (par0 f, par1 f) | None => (0, 0) end) <$> links k l = flows_of l.
Proof.
  induction l as [|[v n] l IH]; intros k Hk Hf; [done|]. cbn [links]. unfold flows_of. rewrite bind_cons, fmap_app. cbn [fst snd]. f_equal.
  - destruct (Hf 0%nat (v, n) eq_refl) as (fs & Hfs & E1 & E2). rewrite Nat.add_0_r in Hfs.
    rewrite fmap_replicate. simpl default. rewrite Hfs, E1, E2. cbn [fst snd]. by destruct v.
  - apply IH; [lia|]. intros j f Hj. destruct (Hf (S j) f Hj) as (fs & Hfs & E). exists fs. split; [|done]. rewrite <- Hfs. f_equal. lia.
Qed.

(** ** The options *)

Definition flat (l : list (string * string)) : list string := l ≫= fun p => [fst p; snd p].

Lemma do_options_app l1 l2 : forall o, do_options o (flat (l1 ++ l2)) = do_options o (flat l1) ≫= fun o' => do_options o' (flat l2).
Proof.
  induction l1 as [|[a b] l1 IH]; intros o; [done|]. change (flat (((a, b) :: l1) ++ l2)) with (a :: b :: flat (l1 ++ l2)).
  change (flat ((a, b) :: l1)) with (a :: b :: flat l1). cbn [do_options]. destruct (do_option o a b) as [o'|]; [apply IH|done].
Qed.

Lemma parse_first_some c s : is_Some (parse_flowsets c (Some s)).
Proof.
  unfold parse_flowsets. rewrite bool_decide_true by (by eexists). destruct (parse_loop _ _ _ _) as [[] st]; by eexists.
Qed.

Lemma do_option_some o name v : is_Some (do_option o name v).
Proof.
  unfold do_option. repeat (case_if; [try by eexists|]); [|by eexists]. destruct (parse_first_some (o_cfg o) (codes v)) as [c ->]. by eexists.
Qed.

Lemma do_options_some l : forall o, is_Some (do_options o (flat l)).
Proof.
  induction l as [|[a b] l IH]; intros o; [by eexists|]. change (flat ((a, b) :: l)) with (a :: b :: flat l). cbn [do_options].
  destruct (do_option_some o a b) as [o' ->]. apply IH.
Qed.

(** The options that do not change the flows. *)
Definition other_option (p : string * string) : Prop := fst p <> "-flows"%string /\ fst p <> "-flowsets"%string.

Lemma do_options_other l : Forall other_option l -> forall o, exists o', do_options o (flat l) = Some o' /\ o_cfg o' = o_cfg o.
Proof.
  intros HF. induction HF as [|[a b] l [Ha Hb] _ IH]; intros o; [by exists o|]. change (flat ((a, b) :: l)) with (a :: b :: flat l). cbn [do_options].
  assert (exists o', do_option o a b = Some o' /\ o_cfg o' = o_cfg o) as (o1 & -> & E1).
  { unfold do_option. simpl in Ha, Hb. rewrite (proj2 (String.eqb_neq a "-flows") Ha), (proj2 (String.eqb_neq a "-flowsets") Hb).
    repeat case_if; eexists; split; reflexivity. }
  simpl. destruct (IH o1) as (o' & H1 & H2). exists o'. split; [done|congruence].
Qed.

Definition o_start : opts := mk_opts (mk_cfg 1 1 0 None None None) 0 None 1280 1280 (-1) (-20).

(** The options up to the list of flowsets. *)
Lemma options_flowsets pre v : good_config (codes v) -> exists o, do_options o_start (flat (pre ++ [("-flowsets"%string, v)])) = Some o /\
  c_flows (o_cfg o) = total_flows (config_flowsets (codes v)) /\ c_flowsets (o_cfg o) = Z.of_nat (length (config_flowsets (codes v))) /\
  c_fs_config (o_cfg o) = Some (codes v).
Proof.
  intros Hg. rewrite do_options_app. destruct (do_options_some pre o_start) as [o1 ->]. simpl. unfold do_option. simpl.
  rewrite parse_first by done. simpl. eexists. done.
Qed.

Lemma total_flows_pos l : Forall (fun f => 0 < snd f) l -> l <> [] -> 0 < total_flows l.
Proof.
  intros HF Hl. destruct HF as [|f l Hf HF]; [done|]. cbn [total_flows foldr]. fold (total_flows l).
  assert (0 <= total_flows l); [|lia]. clear Hf Hl. induction HF as [|g l Hg _ IH]; [done|]. cbn [total_flows foldr]. unfold total_flows in IH. lia.
Qed.

(** [init] after the options. *)
Definition init_end (o : opts) : option opts :=
  let o := fix_opts o in
  let c := o_cfg o in
  let c := mk_cfg (c_flows c) (c_flowsets c) (c_wsum c) (c_fs_config c)
             (Some (replicate (Z.to_nat (c_flowsets c)) fs_zero)) (Some (replicate (Z.to_nat (c_flows c)) None)) in
  c ← parse_flowsets c None;
  let fss := default_len <$> default [] (c_fs c) in
  let q := default [] (c_q c) in
  if Z.of_nat (length q) <? c_flows c then None
  else
    Some (set_cfg (mk_cfg (c_flows c) (c_flowsets c) (c_wsum c) (c_fs_config c) (Some fss)
                     (Some (default_fs (Z.to_nat (c_flows c)) q))) o).

Lemma init_split av o : do_options o_start av = Some o -> init av = init_end o.
Proof. intros H. unfold init. fold o_start. by rewrite H. Qed.

Lemma links_some l : forall k, (fun fs => Some (default 0 fs)) <$> links k l = links k l.
Proof. induction l as [|[v n] l IH]; intros k; [done|]. cbn [links]. by rewrite fmap_app, IH, fmap_replicate. Qed.

(** The second pass of [init], with [n] queues allocated. *)
Lemma init_end_spec o s : good_config s -> config_flowsets s <> [] -> c_fs_config (o_cfg o) = Some s ->
  c_flowsets (o_cfg o) = Z.of_nat (length (config_flowsets s)) -> 0 < c_flows (o_cfg o) ->
  let l := config_flowsets s in
  init_end o =
  if total_flows l <=? c_flows (o_cfg o) then
    Some (set_cfg (mk_cfg (total_flows l) (Z.of_nat (length l)) (s32 (total_weight l)) (Some s) (Some (fill_all 0 None l))
      (Some (default_fs (Z.to_nat (total_flows l)) (links 0 l ++ drop (length (links 0 l)) (replicate (Z.to_nat (c_flows (o_cfg o))) None))))) (fix_opts o))
  else None.
Proof.
  intros Hg Hne Hs Hf Hp l. assert (Hl1 : (1 <= length l)%nat) by (unfold l; destruct (config_flowsets s); [done|simpl; lia]).
  unfold init_end. cbn [fix_opts o_cfg c_flows c_flowsets c_wsum c_fs_config]. unfold at_least_one.
  rewrite Hs, Hf. fold l. rewrite (proj2 (Z.leb_gt (c_flows (o_cfg o)) 0)), (proj2 (Z.leb_gt (Z.of_nat (length l)) 0)) by lia.
  rewrite (parse_second _ s (replicate (Z.to_nat (Z.of_nat (length l))) fs_zero) (replicate (Z.to_nat (c_flows (o_cfg o))) None)) by
    (done || rewrite ?length_replicate; unfold l; lia).
  fold l. rewrite length_replicate, Z2Nat.id by lia. destruct (total_flows l <=? c_flows (o_cfg o)); [|done].
  assert (HF : Forall (fun f : flowset => 0 <= snd f) l) by (eapply list.Forall_impl; [by apply good_flows|]; simpl; lia).
  unfold mbind, option_bind. cbn [c_flows c_flowsets c_wsum c_fs_config c_fs c_q default]. unfold default. simpl.
  rewrite (proj2 (Z.ltb_ge _ (total_flows l))); [by rewrite default_len_id by (by apply config_pos)|].
  rewrite length_app. pose proof (length_links l HF 0). lia.
Qed.

Lemma init_links pre v post : good_config (codes v) -> config_flowsets (codes v) <> [] -> Forall other_option post ->
  let l := config_flowsets (codes v) in
  exists o, init (flat (pre ++ ("-flowsets"%string, v) :: post)) = Some o /\
  c_flows (o_cfg o) = total_flows l /\ c_flowsets (o_cfg o) = Z.of_nat (length l) /\ c_wsum (o_cfg o) = s32 (total_weight l) /\
  c_fs (o_cfg o) = Some (fill_all 0 None l) /\ c_q (o_cfg o) = Some (links 0 l) /\ flow_params o = flows_of l.
Proof.
  intros Hg Hne Hpost l. destruct (options_flowsets pre v Hg) as (o1 & H1 & E1 & E2 & E3).
  destruct (do_options_other post Hpost o1) as (o2 & H2 & E4).
  assert (Hopt : do_options o_start (flat (pre ++ ("-flowsets"%string, v) :: post)) = Some o2).
  { change (pre ++ ("-flowsets"%string, v) :: post) with (pre ++ [("-flowsets"%string, v)] ++ post). by rewrite (assoc_L (++)), do_options_app, H1. }
  pose proof (good_flows _ Hg) as Hpos. pose proof (total_flows_pos l Hpos Hne) as Htot. rewrite <- E4 in E1, E2, E3.
  rewrite (init_split _ _ Hopt), (init_end_spec o2 (codes v) Hg Hne E3 E2) by (rewrite E1; exact Htot). fold l. rewrite E1. fold l. rewrite Z.leb_refl.
  assert (HF : Forall (fun f : flowset => 0 <= snd f) l) by (eapply list.Forall_impl; [exact Hpos|]; simpl; lia).
  pose proof (length_links l HF 0) as Hlk. rewrite drop_ge, app_nil_r by (rewrite length_replicate; lia).
  unfold default_fs. rewrite take_ge, drop_ge, app_nil_r, links_some by lia.
  eexists. split; [done|]. cbn [o_cfg set_cfg c_flows c_flowsets c_wsum c_fs c_q]. split_and!; try done.
  unfold flow_params. cbn [o_cfg set_cfg c_fs c_q default]. simpl. apply (links_params (fill_all 0 None l) l 0); [lia|].
  intros j f Hj. by apply fill_all_lookup.
Qed.

(** when the list of flowsets is well formed and the number of flows is
    not given after it, [init] ends with one queue for each flow, linked to
    its flowset: the flows of the flowsets follow one another in the order of
    the list, each has the weight and the length of its flowset, the counts and
    the sum of the weights, which is an [int] and wraps, are those of the list, and no array is accessed out
    of its bounds by the second pass. *)
Theorem init_links_flows pre v post : good_config (codes v) -> config_flowsets (codes v) <> [] -> Forall other_option post ->
  let l := config_flowsets (codes v) in
  exists o, init (flat (pre ++ ("-flowsets"%string, v) :: post)) = Some o /\
  c_flows (o_cfg o) = total_flows l /\ c_flowsets (o_cfg o) = Z.of_nat (length l) /\ c_wsum (o_cfg o) = s32 (total_weight l) /\
  c_fs (o_cfg o) = Some (fill_all 0 None l) /\ c_q (o_cfg o) = Some (links 0 l) /\ flow_params o = flows_of l.
Proof. apply init_links. Qed.

(** when [-flows] follows the list of flowsets with a smaller number, the
    queues are allocated for that number and the second pass links as many as
    the list has: it writes outside of the array of queues. *)
Theorem init_flows_overflow pre v n : good_config (codes v) -> 0 < fst (getint (Some (codes n))) < total_flows (config_flowsets (codes v)) ->
  init (flat (pre ++ [("-flowsets"%string, v); ("-flows"%string, n)])) = None.
Proof.
  intros Hg Hn. destruct (options_flowsets pre v Hg) as (o1 & H1 & E1 & E2 & E3). set (l := config_flowsets (codes v)) in *.
  assert (Hne : l <> []) by (intros E; rewrite E in Hn; simpl in Hn; lia).
  assert (Hopt : exists o2, do_options o_start (flat (pre ++ [("-flowsets"%string, v); ("-flows"%string, n)])) = Some o2 /\
    c_flows (o_cfg o2) = fst (getint (Some (codes n))) /\ c_flowsets (o_cfg o2) = Z.of_nat (length l) /\ c_fs_config (o_cfg o2) = Some (codes v)).
  { change [("-flowsets"%string, v); ("-flows"%string, n)] with ([("-flowsets"%string, v)] ++ [("-flows"%string, n)]).
    rewrite (assoc_L (++)), do_options_app, H1. simpl. unfold do_option. simpl. eexists. split; [done|]. simpl. done. }
  destruct Hopt as (o2 & Hopt & F1 & F2 & F3). rewrite (init_split _ _ Hopt), (init_end_spec o2 (codes v) Hg Hne F3 F2) by (rewrite F1; lia). fold l.
  by rewrite F1, (proj2 (Z.leb_gt _ _)) by lia.
Qed.

(** ** Every flow has a queue and a flowset *)

(** The links are to flowsets before [n]. *)
Definition links_to (n : Z) (q : list (option Z)) : Prop := Forall (fun x => match x with Some k => 0 <= k < n | None => True end) q.

Lemma link_flows_ok n i js : 0 <= i < n -> forall q q', links_to n q -> link_flows i js q = Some q' -> links_to n q' /\ length q' = length q.
Proof.
  intros Hi. induction js as [|j js IH]; intros q q' Hq; cbn [link_flows]; [by intros [= <-]|]. destruct (_ && _); [|done].
  intros H. apply IH in H as [H1 H2]; [|by apply Forall_insert]. by rewrite length_insert in H2.
Qed.

Lemma link_all_ok n fss : forall k q q', 0 <= k -> k + Z.of_nat (length fss) <= n -> links_to n q -> link_all k fss q = Some q' ->
  links_to n q' /\ length q' = length q.
Proof.
  induction fss as [|fs fss IH]; intros k q q' Hk Hn Hq; cbn [link_all]; [by intros [= <-]|]. cbn [length] in Hn.
  destruct (link_flows k _ q) as [q1|] eqn:E; [|done]. apply (link_flows_ok n) in E as [E1 E2]; [|lia|done].
  intros H. apply IH in H as [H1 H2]; [|lia|lia|done]. by rewrite H2.
Qed.

Lemma put_values_length pass flowsets n vs : forall st arr, p_arr st = Some arr ->
  exists arr', p_arr (snd (put_values pass flowsets n vs st)) = Some arr' /\ length arr' = length arr.
Proof.
  induction vs as [|[wi li] vs IH]; intros st arr Ha; cbn [put_values]; [by exists arr|]. destruct (negb pass); [by apply IH|].
  rewrite Ha. case_if; [by exists arr|]. set (arr1 := <[_ := _]> arr). destruct (IH (mk_p (p_flows st) (s32 (p_fs st + 1)) (s32 (p_wsum st + s32 (wi * n)))
    (Some (fill_fs wi li n (p_fs st) (p_prev st))) (Some arr1)) arr1 eq_refl) as (arr' & H1 & H2). exists arr'. split; [done|]. rewrite H2. apply length_insert.
Qed.

Lemma parse_loop_length pass flowsets ts : forall st arr, p_arr st = Some arr ->
  exists arr', p_arr (snd (parse_loop pass flowsets ts st)) = Some arr' /\ length arr' = length arr.
Proof.
  induction ts as [|t ts IH]; intros st arr Ha; cbn [parse_loop]; [by exists arr|]. case_if; [by exists arr|].
  set (st1 := mk_p _ _ _ _ _). destruct (put_values_length pass flowsets (flows (parse_param t)) (param_values (parse_param t)) st1 arr Ha) as (arr1 & H1 & L1).
  destruct (put_values pass flowsets _ _ st1) as [[] st2]; [|by exists arr1]. simpl in H1. destruct (IH st2 arr1 H1) as (arr2 & H2 & L2). exists arr2. split; [done|lia].
Qed.

(** The second pass on arrays that have no links yet. *)
Lemma parse_second_ok c arr q c' : c_fs c = Some arr -> c_q c = Some q -> links_to (Z.of_nat (length arr)) q -> parse_flowsets c None = Some c' ->
  exists arr' q', c_fs c' = Some arr' /\ c_q c' = Some q' /\ length arr' = length arr /\ length q' = length q /\ links_to (Z.of_nat (length arr)) q'.
Proof.
  intros Ha Hq Hl. unfold parse_flowsets. rewrite bool_decide_false by (by intros [? ?]). cbn [negb c_flowsets c_flows c_wsum c_fs_config c_fs c_q].
  rewrite Ha, Hq. destruct (c_fs_config c) as [s|]; [|intros [= <-]; by exists arr, q].
  set (st0 := mk_p 0 0 0 None (Some arr)). destruct (parse_loop_length true (c_flowsets c) (tokens (S (length s)) (Some s)) st0 arr eq_refl) as (arr' & H1 & L1).
  destruct (parse_loop true _ _ st0) as [[] st]; simpl in H1; rewrite H1; cbn [negb c_fs c_q c_flowsets]; [|intros [= <-]; by exists arr', q].
  destruct (link_all 0 _ q) as [q'|] eqn:E; [|done]. intros [= <-]. apply (link_all_ok (Z.of_nat (length arr))) in E as [E1 E2];
    [by exists arr', q'|lia| |done]. rewrite length_take. lia.
Qed.

Lemma flows_exist av o : init av = Some o ->
  exists fss q, c_fs (o_cfg o) = Some fss /\ c_q (o_cfg o) = Some q /\ c_flows (o_cfg o) <= Z.of_nat (length q) /\
  forall j, 0 <= j < c_flows (o_cfg o) -> exists k, q !! Z.to_nat j = Some (Some k) /\ is_Some (fss !! Z.to_nat k).
Proof.
  unfold init. fold o_start. destruct (do_options o_start av) as [o1|]; [|done]. simpl mbind.
  set (c := mk_cfg _ _ _ _ _ _). set (n := Z.to_nat (c_flowsets (o_cfg (fix_opts o1)))) in *.
  assert (Hn : (0 < n)%nat) by (subst n; cbn [fix_opts o_cfg c_flowsets]; unfold at_least_one; case_if; zify_bool; lia).
  destruct (parse_flowsets c None) as [c'|] eqn:E; [|done]. simpl mbind.
  apply (parse_second_ok _ (replicate n fs_zero) (replicate (Z.to_nat (c_flows (o_cfg (fix_opts o1)))) None)) in E; [|done|done|by apply list.Forall_replicate].
  destruct E as (arr & q & H1 & H2 & L1 & L2 & HL). rewrite H1, H2. cbn [default]. simpl. destruct (Z.ltb_spec (Z.of_nat (length q)) (c_flows c')); [done|].
  intros [= <-]. cbn [o_cfg set_cfg c_flows c_fs c_q]. eexists _, _. split; [done|]. split; [done|]. unfold default_fs.
  assert (Hlq : length (((fun fs => Some (default 0 fs)) <$> take (Z.to_nat (c_flows c')) q) ++ drop (Z.to_nat (c_flows c')) q) = length q)
    by (rewrite length_app, length_fmap, length_take, length_drop; lia).
  split; [by rewrite Hlq|]. intros j Hj. rewrite lookup_app_l by (rewrite length_fmap, length_take; lia).
  rewrite list_lookup_fmap, lookup_take_lt by lia. destruct (lookup_lt_is_Some_2 q (Z.to_nat j)) as [x Hx]; [lia|]. rewrite Hx. simpl.
  eexists. split; [done|]. rewrite list_lookup_fmap. apply fmap_is_Some, lookup_lt_is_Some_2. rewrite L1, length_replicate in *.
  eapply list.Forall_lookup_1 in HL; [|exact Hx]. destruct x as [k|]; simpl; lia.
Qed.

(** whatever the options, when [init] returns, the number of flows it has
    counted (the limit on the marks of the packets) is at most the number of
    queues allocated, and each of these queues is linked to a flowset that
    exists. *)
Theorem init_flows_exist av o : init av = Some o ->
  exists fss q, c_fs (o_cfg o) = Some fss /\ c_q (o_cfg o) = Some q /\ c_flows (o_cfg o) <= Z.of_nat (length q) /\
  forall j, 0 <= j < c_flows (o_cfg o) -> exists k, q !! Z.to_nat j = Some (Some k) /\ is_Some (fss !! Z.to_nat k).
Proof. apply flows_exist. Qed.

(** ** Printing a list of flowsets *)

(** A number in decimal, with at most [fuel] digits. *)
Fixpoint print_num (fuel : nat) (n : Z) : list Z :=
  match fuel with
  | O => []
  | S fuel => if n <? 10 then [48 + n] else print_num fuel (n / 10) ++ [48 + n mod 10]
  end.

Definition print_dec (n : Z) : list Z := print_num 10 n.

Definition print_flowset (f : flowset) : list Z := print_dec (fst (fst f)) ++ 58 :: print_dec (snd (fst f)) ++ 58 :: print_dec (snd f).

Fixpoint print_config (f : flowset) (l : list flowset) : list Z :=
  match l with
  | [] => print_flowset f
  | g :: l => print_flowset f ++ 44 :: print_config g l
  end.

Lemma read_digit d acc rest : 0 <= d < 10 -> read_digits 10 acc ((48 + d) :: rest) = read_digits 10 (acc * 10 + d) rest.
Proof.
  intros Hd. cbn [read_digits]. unfold digit. rewrite (proj2 (Z.leb_le 48 _)), (proj2 (Z.leb_le _ 57)) by lia. cbn [andb].
  rewrite (proj2 (Z.ltb_lt _ 10)) by lia. f_equal. lia.
Qed.

Lemma read_print fuel : forall n acc rest, 0 <= n < 10 ^ Z.of_nat fuel ->
  exists k, 0 <= k /\ read_digits 10 acc (print_num fuel n ++ rest) = read_digits 10 (acc * 10 ^ k + n) rest.
Proof.
  induction fuel as [|fuel IH]; intros n acc rest Hn.
  - exists 0. split; [done|]. cbn [print_num app]. f_equal. simpl in Hn. lia.
  - cbn [print_num]. destruct (Z.ltb_spec n 10).
    + exists 1. split; [done|]. cbn [app]. by rewrite read_digit by lia.
    + rewrite Nat2Z.inj_succ, Z.pow_succ_r in Hn by lia. rewrite <- (assoc_L (++)).
      destruct (IH (n / 10) acc ([48 + n mod 10] ++ rest)) as (k & H0 & Hk); [Z.div_mod_to_equations; lia|]. rewrite Hk. cbn [app].
      rewrite read_digit by (Z.div_mod_to_equations; lia). exists (k + 1). split; [lia|]. f_equal.
      rewrite Z.pow_add_r by lia. Z.div_mod_to_equations; lia.
Qed.

Lemma print_num_chars fuel : forall n, 0 <= n -> Forall (fun c => 48 <= c <= 57) (print_num fuel n).
Proof.
  induction fuel as [|fuel IH]; intros n Hn; cbn [print_num]; [constructor|]. destruct (Z.ltb_spec n 10).
  - constructor; [lia|constructor].
  - apply Forall_app. split; [apply IH; Z.div_mod_to_equations; lia|]. constructor; [Z.div_mod_to_equations; lia|constructor].
Qed.

Lemma print_num_head fuel : forall n, 0 < n < 10 ^ Z.of_nat fuel -> exists d s, print_num fuel n = (48 + d) :: s /\ 1 <= d <= 9.
Proof.
  induction fuel as [|fuel IH]; intros n Hn; [simpl in Hn; lia|]. cbn [print_num]. destruct (Z.ltb_spec n 10).
  - exists n, []. split; [done|lia].
  - rewrite Nat2Z.inj_succ, Z.pow_succ_r in Hn by lia.
    destruct (IH (n / 10)) as (d & s & -> & Hd); [Z.div_mod_to_equations; lia|]. by exists d, (s ++ [48 + n mod 10]).
Qed.

(** What the parser makes of a positive number in decimal. *)
Lemma strtol_dec d s : 1 <= d <= 9 -> strtol ((48 + d) :: s) = (Z.min LONG_MAX (fst (read_digits 10 0 ((48 + d) :: s))), snd (read_digits 10 0 ((48 + d) :: s))).
Proof.
  intros Hd. assert (d = 1 \/ d = 2 \/ d = 3 \/ d = 4 \/ d = 5 \/ d = 6 \/ d = 7 \/ d = 8 \/ d = 9) as Hc by lia.
  destruct_or! Hc; subst d; unfold strtol; cbn [Z.add Pos.add skip_spaces is_space]; simpl;
    destruct (read_digits 10 _ s) as [v e]; reflexivity.
Qed.

Definition small (n : Z) : Prop := 0 < n < 2 ^ 31.

Lemma getint_print n : small n -> getint (Some (print_dec n)) = (n, None).
Proof.
  intros Hn. assert (Hb : 0 < n < 10 ^ Z.of_nat 10) by (unfold small in Hn; lia).
  destruct (print_num_head 10 n Hb) as (d & s & Hp & Hd).
  assert (Hr : read_digits 10 0 (print_num 10 n) = (n, [])).
  { rewrite <- (app_nil_r (print_num 10 n)). destruct (read_print 10 n 0 []) as (k & _ & ->); [lia|]. simpl. f_equal. }
  unfold getint, getnum, print_dec. rewrite Hp in *. rewrite strtol_dec, Hr by done. cbn [fst snd].
  rewrite Z.min_r by (unfold small in Hn; unfold LONG_MAX; lia). rewrite (proj2 (Z.ltb_ge n 0)) by lia.
  f_equal. apply s32_id. unfold small in Hn. lia.
Qed.

Lemma split_at_app delim t s : Forall (fun c => c <> delim) t -> split_at delim (t ++ delim :: s) = (t, Some s).
Proof.
  intros HF. induction HF as [|c t Hc _ IH]; cbn [app split_at]; [by rewrite Z.eqb_refl|].
  by rewrite (proj2 (Z.eqb_neq c delim) Hc), IH.
Qed.

Lemma split_at_all delim t : Forall (fun c => c <> delim) t -> split_at delim t = (t, None).
Proof. intros HF. induction HF as [|c t Hc _ IH]; cbn [split_at]; [done|]. by rewrite (proj2 (Z.eqb_neq c delim) Hc), IH. Qed.

Lemma print_dec_not n delim : 0 <= n -> ~ 48 <= delim <= 57 -> Forall (fun c => c <> delim) (print_dec n).
Proof. intros Hn Hd. eapply list.Forall_impl; [by apply print_num_chars|]. simpl. lia. Qed.

Definition small_flowset (f : flowset) : Prop := small (fst (fst f)) /\ small (snd (fst f)) /\ small (snd f).

Lemma parse_print_param f : small_flowset f ->
  parse_param (print_flowset f) = mk_param (fst (fst f)) (fst (fst f)) 1 (snd (fst f)) (snd (fst f)) 1 (snd f).
Proof.
  intros (Hw & Hl & Hn). unfold parse_param, print_flowset, strsep.
  rewrite split_at_app by (apply print_dec_not; unfold small in *; lia). rewrite (getint_print _ Hw).
  cbn [more_num]. rewrite split_at_app by (apply print_dec_not; unfold small in *; lia). rewrite (getint_print _ Hl).
  cbn [more_num]. rewrite split_at_all by (apply print_dec_not; unfold small in *; lia). rewrite (getint_print _ Hn).
  unfold small in *. rewrite (proj2 (Z.leb_gt (fst (fst f)) 0)), (proj2 (Z.leb_gt (snd (fst f)) 0)), (proj2 (Z.eqb_neq (snd f) 0)) by lia.
  by rewrite !Z.eqb_refl.
Qed.

Lemma print_flowset_not f : small_flowset f -> Forall (fun c => c <> 44) (print_flowset f).
Proof.
  intros (Hw & Hl & Hn). unfold print_flowset, small in *.
  repeat first [apply Forall_app; split | apply list.Forall_cons; split; [lia|] | apply print_dec_not; lia].
Qed.

(** The tokens of a printed list are its elements. *)
Lemma tokens_print l : forall f fuel, Forall small_flowset (f :: l) -> (length l + 2 <= fuel)%nat ->
  tokens fuel (Some (print_config f l)) = print_flowset <$> f :: l.
Proof.
  induction l as [|g l IH]; intros f fuel HF Hfuel; inversion_clear HF as [|? ? Hf Hl]; (destruct fuel as [|fuel]; [lia|]); cbn [print_config tokens strsep].
  - rewrite split_at_all by (by apply print_flowset_not). simpl. by destruct fuel.
  - rewrite split_at_app by (by apply print_flowset_not). rewrite IH by (done || simpl in Hfuel; lia). done.
Qed.

Lemma print_config_length l : forall f, (length l + 1 <= length (print_config f l))%nat.
Proof.
  induction l as [|g l IH]; intros f; cbn [print_config].
  - unfold print_flowset. rewrite length_app. simpl. lia.
  - rewrite length_app. cbn [length]. specialize (IH g). lia.
Qed.

Lemma param_flowsets_print f : small_flowset f -> param_flowsets (parse_param (print_flowset f)) = [f].
Proof.
  intros Hf. rewrite parse_print_param by done. destruct f as [[wi li] n]. unfold param_flowsets, param_values.
  cbn [w w_h w_steps len len_h l_steps flows fst snd]. change (seqZ 0 1) with [0]. cbn. unfold step_value. cbn [Z.eqb]. simpl.
  destruct Hf as (H1 & H2 & _). unfold small in H1, H2. cbn [fst snd] in H1, H2. rewrite !Z.mul_0_r. change (Z.quot (s32 0) 1) with 0.
  by rewrite !Z.add_0_r, !s32_id by lia.
Qed.

Lemma config_print l f : Forall small_flowset (f :: l) -> total_flows (f :: l) < 2 ^ 31 -> good_config (print_config f l) /\ config_flowsets (print_config f l) = f :: l.
Proof.
  intros HF Ht. assert (Hc : config_flowsets (print_config f l) = f :: l).
  { unfold config_flowsets. rewrite tokens_print by (done || pose proof (print_config_length l f); lia).
    clear -HF. induction HF as [|g l' Hg _ IH]; [done|]. rewrite fmap_cons, bind_cons, IH. by rewrite param_flowsets_print. }
  split; [|done]. unfold good_config. rewrite Hc. split; [|done]. rewrite tokens_print by (done || pose proof (print_config_length l f); lia).
  apply list.Forall_fmap. eapply list.Forall_impl; [exact HF|]. intros g Hg. unfold compose, good_param, wrong. rewrite parse_print_param by done.
  destruct Hg as (H1 & H2 & H3). unfold small in *. cbn [w w_h w_steps len len_h l_steps flows].
  rewrite !Z.ltb_irrefl. split_and!; lia.
Qed.

(** C38: a list of flowsets printed as weight:length:flows elements, with
    positive numbers that fit an [int] and whose flows, in total, are not more
    than an [int] counts, is read back by the two passes of [parse_flowsets]
    as exactly that list: [init] with it as its argument, before any options
    other than -flows and -flowsets, gives, in order, [n] flows with weight [w]
    and length [l] for each element w:l:n. *)
Theorem flowsets_roundtrip pre v f l post : Forall small_flowset (f :: l) -> total_flows (f :: l) < 2 ^ 31 ->
  codes v = print_config f l -> Forall other_option post ->
  exists o, init (flat (pre ++ ("-flowsets"%string, v) :: post)) = Some o /\
  c_flowsets (o_cfg o) = Z.of_nat (S (length l)) /\ c_flows (o_cfg o) = total_flows (f :: l) /\ flow_params o = flows_of (f :: l).
Proof.
  intros HF Ht Hv Hpost. destruct (config_print l f HF Ht) as [Hg Hc]. rewrite <- Hv in Hg, Hc.
  destruct (init_links pre v post Hg) as (o & Ho & E1 & E2 & _ & _ & _ & E3); [by rewrite Hc|done|].
  exists o. rewrite Hc in *. done.
Qed.

(** the flows are counted in an [int]: the first pass on a list with more
    of them leaves a count that is not theirs, here a negative one. *)
Theorem flowsets_count_wraps :
  c_flows <$> parse_flowsets cfg_zero (Some (codes "1:1:2000000000,1:1:2000000000")) = Some (4000000000 - 2 ^ 32).
Proof. vm_compute. reflexivity. Qed.

(** ** Examples *)

#[export] Instance good_param_dec p : Decision (good_param p).
Proof. unfold good_param. apply _. Defined.
#[export] Instance good_config_dec s : Decision (good_config s).
Proof. unfold good_config. apply _. Defined.

Lemma init_links_flows_witness : exists o,
  init ["-n"; "10"; "-flowsets"; "1-5-3:1000:4,10:200-300:2"; "-alg"; "qfq"]%string = Some o /\
  c_flows (o_cfg o) = 16 /\ c_flowsets (o_cfg o) = 5 /\ c_wsum (o_cfg o) = 76 /\
  flow_params o = replicate 4 (1, 1000) ++ replicate 4 (3, 1000) ++ replicate 4 (5, 1000) ++ replicate 2 (10, 200) ++ replicate 2 (10, 300).
Proof.
  destruct (init_links_flows [("-n", "10")]%string "1-5-3:1000:4,10:200-300:2" [("-alg", "qfq")]%string) as (o & Ho & E1 & E2 & E3 & _ & _ & E4).
  - apply (bool_decide_unpack _). vm_compute. exact I.
  - vm_compute. discriminate.
  - constructor; [by split|constructor].
  - exists o. split; [exact Ho|]. split; [exact E1|]. split; [exact E2|]. split; [exact E3|exact E4].
Defined.

Lemma init_flows_overflow_witness : init ["-flowsets"; "1:1000:4"; "-flows"; "2"]%string = None.
Proof.
  apply (init_flows_overflow [] "1:1000:4" "2").
  - apply (bool_decide_unpack _). vm_compute. exact I.
  - vm_compute. done.
Defined.

Lemma flowsets_roundtrip_witness : exists o, init ["-flowsets"; "7:1500:2,30:64:1"]%string = Some o /\
  c_flowsets (o_cfg o) = 2 /\ c_flows (o_cfg o) = 3 /\ flow_params o = [(7, 1500); (7, 1500); (30, 64)].
Proof.
  apply (flowsets_roundtrip [] "7:1500:2,30:64:1" (7, 1500, 2) [(30, 64, 1)] []).
  - repeat constructor; done.
  - reflexivity.
  - reflexivity.
  - constructor.
Defined.

Lemma init_flows_exist_witness : exists o fss q, init ["-flows"; "3"]%string = Some o /\
  c_fs (o_cfg o) = Some fss /\ c_q (o_cfg o) = Some q /\ (exists k, q !! 2%nat = Some (Some k) /\ is_Some (fss !! Z.to_nat k)).
Proof.
  destruct (init ["-flows"; "3"]%string) as [o|] eqn:E; [|by vm_compute in E]. destruct (init_flows_exist _ o E) as (fss & q & H1 & H2 & _ & H3).
  exists o, fss, q. split; [reflexivity|]. split; [exact H1|]. split; [exact H2|]. apply (H3 2). split; [lia|].
  vm_compute in E. injection E as <-. reflexivity.
Defined.
