(* ===== verification/Sess.v ===== *)
(** * Strings and sockets of the scheduler library

    sched16/sess.c: [split_arg], which cuts a line of a configuration file into
    fields, with the block of memory it allocates; [safe_write]; and the
    sockets of [do_socket] with their file descriptors.  [write], [socket] and
    the other system calls are parameters.  The numbers with a unit
    ([parse_gen] and its users) are in floating point and are not modelled. *)

From stdpp Require Import list.
From S2P Require Import Prelude.
Open Scope Z_scope.

Module Sess.

(** ** [split_arg] *)

(** A byte of the block: a character, or byte [k] of a pointer to an offset of
    the block ([None] for [NULL]). *)
Inductive cell := CByte (c : Z) | CPtr (p : option nat) (k : nat).

Definition mem : Type := list cell.

Definition write_byte (o : nat) (c : Z) (m : mem) : option mem :=
  if bool_decide (o < length m)%nat then Some (<[o := CByte c]> m) else None.

(** The bytes of a pointer at [o]. *)
Definition write_ptr (o : nat) (p : option nat) (m : mem) : option mem :=
  if bool_decide (o + 8 <= length m)%nat then Some (take o m ++ (CPtr p <$> seq 0 8) ++ drop (o + 8) m) else None.

Definition seps : list Z := [32; 9; 13; 10; 44].
Definition is_sep (c : Z) : bool := bool_decide (c ∈ seps).

(** [while (i < l && p(src[i])) i++], with [s] the rest of [src]. *)
Fixpoint skip (p : Z -> bool) (s : list Z) (i : nat) : list Z * nat :=
  match s with c :: s' => if p c then skip p s' (S i) else (s, i) | [] => ([], i) end.

(** A pass over the string; [av] is the block, in the second pass, with [my]
    the offset of its copy of the string.  [None] is a write outside of the
    block. *)
Fixpoint pass (fuel : nat) (my : nat) (s : list Z) (i ac : nat) (av : option mem) : option (nat * nat * option mem) :=
  match fuel with
  | O => Some (i, ac, av)
  | S fuel =>
      match s with
      | [] => Some (i, ac, av)
      | _ =>
          let '(s, i) := skip is_sep s i in
          match s with
          | [] => Some (i, ac, av)
          | _ =>
              av ← match av with None => Some None | Some m => Some <$> write_ptr (8 * ac) (Some (my + i)%nat) m end;
              let '(s, i) := skip (fun c => negb (is_sep c)) s i in
              av ← match av with None => Some None | Some m => Some <$> write_byte (my + i) 0 m end;
              pass fuel my s i (S ac) av
          end
      end
  end.

(** The block: room for the pointers, and the string with its terminator. *)
Definition arg_block (src : list Z) (ac : nat) : mem :=
  replicate (8 * (ac + 2)) (CByte 0) ++ (CByte <$> src) ++ [CByte 0].

(** [split_arg] of a string (not null), when [calloc] succeeds: [ac] and the
    block. *)
Definition split_arg (src : list Z) : option (nat * mem) :=
  let fuel := S (length src) in
  '(_, ac, _) ← pass fuel 0 src 0 0 None;
  let my := (8 * (ac + 2))%nat in
  '(i, ac, av) ← pass fuel my src 0 0 (Some (arg_block src ac));
  av ← av;
  av ← write_ptr (8 * i) None av;
  av ← write_ptr (8 * (i + 1)) (Some my) av;
  Some (ac, av).

(** ** [safe_write] *)

(** [safe_write(fd, buf, l)]: the bytes written, in order, and the result;
    [write_ i n] is what [write] returns for the [n] bytes from [i] on. *)
Fixpoint safe_write_loop (fuel : nat) (write_ : nat -> nat -> Z) (buf : list Z) (i : nat) : list Z * nat :=
  match fuel with
  | O => ([], i)
  | S fuel =>
      let l := length buf in
      if (i <? l)%nat then
        let n := write_ i (l - i)%nat in
        if n <=? 0 then ([], i)
        else
          let '(out, r) := safe_write_loop fuel write_ buf (i + Z.to_nat n) in
          (take (Z.to_nat n) (drop i buf) ++ out, r)
      else ([], i)
  end.
Definition safe_write (write_ : nat -> nat -> Z) (buf : list Z) : list Z * nat := safe_write_loop (S (length buf)) write_ buf 0.

(** ** [do_socket] *)

Definition EINPROGRESS : Z := 115.

(** The results of the calls. *)
Record sock_env := mk_sock { se_socket : Z; se_connect : Z; se_bind : Z; se_listen : Z }.

(** The result and the descriptors that stay open. *)
Definition do_socket (e : sock_env) (client : bool) : Z * list Z :=
  let fd := se_socket e in
  if fd <? 0 then (-1, [])
  else if client then
    let ret := se_connect e in
    if (ret <? 0) && negb (ret =? EINPROGRESS) then (-1, [fd]) else (fd, [fd])
  else if se_bind e <? 0 then (-1, [fd])
  else if se_listen e <? 0 then (-1, [fd])
  else (fd, [fd]).

End Sess.
Import Sess.

(** ** The fields of a string *)

(** The fields with the position of each, from [i] on. *)
Fixpoint fields (i : nat) (s : list Z) : list (nat * list Z) :=
  match s with
  | [] => []
  | c :: s' =>
      if is_sep c then fields (S i) s'
      else
        match s' with
        | d :: _ => if is_sep d then (i, [c]) :: fields (S i) s'
                    else match fields (S i) s' with (_, f) :: r => (i, c :: f) :: r | [] => [(i, [c])] end
        | [] => [(i, [c])]
        end
  end.

Lemma fields_skip s : forall i, fields i s = (let '(s', i') := skip is_sep s i in fields i' s').
Proof. induction s as [|c s IH]; intros i; [done|]. cbn [skip fields]. destruct (is_sep c) eqn:E; [apply IH|]. cbn [fields]. by rewrite E. Qed.

Lemma fields_cons i c d s : fields i (c :: d :: s) =
  if is_sep c then fields (S i) (d :: s)
  else if is_sep d then (i, [c]) :: fields (S i) (d :: s)
  else match fields (S i) (d :: s) with (_, f) :: r => (i, c :: f) :: r | [] => [(i, [c])] end.
Proof. done. Qed.

(** A field at the start of the string. *)
Lemma fields_field s : forall i c, is_sep c = false -> exists f,
  fields i (c :: s) = (i, f) :: (let '(s', i') := skip (fun c => negb (is_sep c)) (c :: s) i in fields i' s').
Proof.
  induction s as [|d s IH]; intros i c Hc; cbn [skip]; rewrite Hc; cbn [negb].
  - exists [c]. cbn [fields skip]. by rewrite Hc.
  - rewrite fields_cons, Hc. destruct (is_sep d) eqn:Ed.
    + by exists [c].
    + destruct (IH (S i) d Ed) as (f & ->). exists (c :: f). cbn [skip]. by rewrite Ed.
Qed.

Lemma skip_length p s : forall i, let '(s', i') := skip p s i in (length s' <= length s)%nat /\ (i' + length s' = i + length s)%nat.
Proof.
  induction s as [|c s IH]; intros i; cbn [skip]; [simpl; lia|]. destruct (p c); [|simpl; lia].
  specialize (IH (S i)). destruct (skip p s (S i)) as [s' i']. simpl. lia.
Qed.

Lemma skip_stops p s : forall i, let '(s', _) := skip p s i in match s' with [] => True | c :: _ => p c = false end.
Proof. induction s as [|c s IH]; intros i; cbn [skip]; [done|]. destruct (p c) eqn:E; [apply IH|done]. Qed.

(** ** The two passes *)

(** The first pass counts the fields. *)
Lemma pass_counts fuel : forall my s i ac, (length s < fuel)%nat ->
  pass fuel my s i ac None = Some ((i + length s)%nat, (ac + length (fields i s))%nat, None).
Proof.
  induction fuel as [|fuel IH]; intros my s i ac Hf; [lia|]. cbn [pass]. destruct s as [|c s]; [simpl; do 3 f_equal; lia|].
  rewrite (fields_skip (c :: s) i). pose proof (skip_length is_sep (c :: s) i) as L1. pose proof (skip_stops is_sep (c :: s) i) as S1.
  destruct (skip is_sep (c :: s) i) as [s1 i1]. destruct s1 as [|c1 s1]; [simpl in L1 |- *; do 3 f_equal; lia|].
  destruct (fields_field s1 i1 c1 S1) as (f & Hfd). pose proof (skip_length (fun c => negb (is_sep c)) s1 (S i1)) as L2.
  simpl mbind. cbn [skip] in Hfd |- *. rewrite S1 in Hfd |- *. cbn [negb] in Hfd |- *.
  destruct (skip _ s1 (S i1)) as [s2 i2]. simpl in L1, L2. rewrite IH by (simpl in Hf; lia).
  rewrite Hfd. cbn [length]. do 3 f_equal; lia.
Qed.

Lemma write_ptr_length o p m m' : write_ptr o p m = Some m' -> length m' = length m.
Proof.
  unfold write_ptr. case_bool_decide; [|done]. assert (Hb : length (CPtr p <$> seq 0 8) = 8%nat) by done. revert Hb. generalize (CPtr p <$> seq 0 8).
  intros bs Hb [= <-]. rewrite !length_app, Hb, length_take_le, length_drop by lia. lia.
Qed.
Lemma write_byte_length o c m m' : write_byte o c m = Some m' -> length m' = length m.
Proof. unfold write_byte. case_bool_decide; [|done]. intros [= <-]. apply length_insert. Qed.

(** In the second pass the writes only change the contents of the block. *)
Lemma pass_second fuel : forall my s i ac m r, (length s < fuel)%nat ->
  pass fuel my s i ac (Some m) = Some r ->
  exists m', r = ((i + length s)%nat, (ac + length (fields i s))%nat, Some m') /\ length m' = length m.
Proof.
  induction fuel as [|fuel IH]; intros my s i ac m r Hf; [lia|]. cbn [pass].
  destruct s as [|c s]; [intros [= <-]; exists m; simpl; split; [do 2 f_equal; lia|done]|].
  rewrite (fields_skip (c :: s) i). pose proof (skip_length is_sep (c :: s) i) as L1. pose proof (skip_stops is_sep (c :: s) i) as S1.
  destruct (skip is_sep (c :: s) i) as [s1 i1].
  destruct s1 as [|c1 s1]; [intros [= <-]; exists m; simpl in L1 |- *; split; [do 2 f_equal; lia|done]|].
  destruct (fields_field s1 i1 c1 S1) as (f & Hfd). pose proof (skip_length (fun c => negb (is_sep c)) s1 (S i1)) as L2.
  set (F := fields i1 (c1 :: s1)) in *. destruct (write_ptr _ _ m) as [m1|] eqn:Ew; [|done]. simpl mbind.
  cbn [skip] in Hfd |- *. rewrite S1 in Hfd |- *. cbn [negb] in Hfd |- *. destruct (skip _ s1 (S i1)) as [s2 i2].
  destruct (write_byte _ _ m1) as [m2|] eqn:Eb; [|done]. simpl mbind. intros Hr. simpl in L1, L2. apply IH in Hr as (m' & -> & Hm); [|simpl in Hf; lia].
  exists m'. rewrite Hfd. cbn [length]. split; [do 2 f_equal; lia|].
  by rewrite Hm, (write_byte_length _ _ _ _ Eb), (write_ptr_length _ _ _ _ Ew).
Qed.

(** A string has at most one field for each two characters. *)
Lemma fields_few s : forall i, (2 * length (fields i s) <= S (length s))%nat.
Proof.
  assert (H : forall n s i, (length s <= n)%nat -> (2 * length (fields i s) <= S (length s))%nat); [|intros i; by apply (H (length s))].
  clear s. induction n as [|n IH]; intros s i Hn; [destruct s; simpl in *; lia|]. destruct s as [|c [|d s]].
  - simpl. lia.
  - cbn [fields]. destruct (is_sep c); simpl; lia.
  - rewrite fields_cons. simpl in Hn. destruct (is_sep c).
    + pose proof (IH (d :: s) (S i) ltac:(simpl; lia)). simpl in *. lia.
    + destruct (is_sep d) eqn:Ed.
      * pose proof (IH s (S (S i)) ltac:(lia)) as H. assert (fields (S i) (d :: s) = fields (S (S i)) s) as -> by (cbn [fields]; by rewrite Ed). simpl. lia.
      * pose proof (IH (d :: s) (S i) ltac:(simpl; lia)) as H. destruct (fields (S i) (d :: s)) as [|[o f] r]; simpl in *; lia.
Qed.

(** [split_arg] ends the array of fields at the index of the last character
    instead of the number of fields: with any string of two characters or more
    it writes outside of the block that it has allocated. *)
Theorem split_arg_overflows src : (2 <= length src)%nat -> split_arg src = None.
Proof.
  intros Hl. unfold split_arg. rewrite pass_counts by lia. unfold mbind, option_bind. change (0 + length (fields 0 src))%nat with (length (fields 0 src)).
  set (ac := length (fields 0 src)).
  destruct (pass _ _ src 0 0 (Some (arg_block src ac))) as [r|] eqn:E; [|done]. apply pass_second in E as (m' & -> & Hm); [|lia].
  assert (Hlen : length m' = (8 * (ac + 2) + length src + 1)%nat).
  { rewrite Hm. unfold arg_block. rewrite !length_app, length_replicate, length_fmap. simpl. lia. }
  pose proof (fields_few src 0) as Hf. fold ac in Hf. destruct (write_ptr _ None m') as [m1|] eqn:E1; [|done].
  pose proof (write_ptr_length _ _ _ _ E1) as L1. unfold write_ptr. rewrite bool_decide_false by lia. done.
Qed.

(** A string of at most one character, which is not a separator, is cut
    without an error. *)
Example split_arg_short c : is_sep c = false -> exists m, split_arg [c] = Some (1%nat, m).
Proof. intros Hc. unfold split_arg. cbn. rewrite Hc. cbn. rewrite Hc. cbn. by eexists. Qed.

(** ** Writing and sockets *)

Lemma safe_write_loop_spec write_ buf fuel : (forall i n, write_ i n <= Z.of_nat n) -> forall i, (i <= length buf)%nat -> (length buf - i < fuel)%nat ->
  let '(out, r) := safe_write_loop fuel write_ buf i in
  (i <= r <= length buf)%nat /\ out = take (r - i) (drop i buf) /\ ((r < length buf)%nat -> write_ r (length buf - r)%nat <= 0).
Proof.
  intros Hw. induction fuel as [|fuel IH]; intros i Hi Hf; [lia|]. cbn [safe_write_loop]. destruct (Nat.ltb_spec i (length buf)).
  - destruct (Z.leb_spec (write_ i (length buf - i)%nat) 0) as [H0|H0].
    + rewrite Nat.sub_diag. done.
    + set (n := Z.to_nat (write_ i (length buf - i)%nat)). pose proof (Hw i (length buf - i)%nat) as Hle.
      specialize (IH (i + n)%nat ltac:(lia) ltac:(lia)). destruct (safe_write_loop fuel write_ buf (i + n)) as [out r].
      destruct IH as (H1 & -> & H2). split; [lia|]. split; [|done]. rewrite <- drop_drop.
      replace (r - i)%nat with (n + (r - (i + n)))%nat by lia. by rewrite take_take_drop.
  - rewrite Nat.sub_diag. split_and!; [lia|lia|done|lia].
Qed.

(** [safe_write] sends a prefix of the buffer, whatever the sizes of the
    partial writes, and returns its length: all of it, unless a call of [write]
    at that point has failed or accepted nothing. *)
Theorem safe_write_prefix write_ buf : (forall i n, write_ i n <= Z.of_nat n) ->
  let '(out, r) := safe_write write_ buf in
  out = take r buf /\ length out = r /\ (r = length buf \/ write_ r (length buf - r)%nat <= 0).
Proof.
  intros Hw. unfold safe_write. pose proof (safe_write_loop_spec write_ buf (S (length buf)) Hw 0 ltac:(lia) ltac:(lia)) as H.
  destruct (safe_write_loop _ write_ buf 0) as [out r]. destruct H as (H1 & -> & H2). rewrite Nat.sub_0_r, drop_0, length_take_le by lia.
  split_and!; [done|done|]. destruct (decide (r < length buf)%nat); [right; auto|left; lia].
Qed.

(** when [do_socket] fails after the socket was created the descriptor
    stays open, and a connection in progress on a non-blocking socket ([connect]
    returns -1) is a failure: the error number is compared with the result of
    the call. *)
Theorem do_socket_leaks e client : 0 <= se_socket e -> (forall x, x = se_connect e \/ x = se_bind e \/ x = se_listen e -> x = 0 \/ x = -1) ->
  let '(ret, fds) := do_socket e client in
  fds = [se_socket e] /\ (ret = -1 <-> if client then se_connect e = -1 else se_bind e = -1 \/ se_listen e = -1).
Proof.
  intros H0 Hx. unfold do_socket. rewrite (proj2 (Z.ltb_ge _ 0)) by lia.
  pose proof (Hx (se_connect e) ltac:(auto)) as C. pose proof (Hx (se_bind e) ltac:(auto)) as B. pose proof (Hx (se_listen e) ltac:(auto)) as L.
  destruct C as [C|C], B as [B|B], L as [L|L]; rewrite C, B, L; destruct client; simpl; (split; [done|lia]).
Qed.

(** ** Examples *)

(** "a b" *)
Lemma split_arg_overflows_witness : split_arg [97; 32; 98] = None.
Proof. apply (split_arg_overflows [97; 32; 98]). simpl. lia. Defined.

(** Three bytes written two at a time. *)
Lemma safe_write_prefix_witness : let w := (fun i n => Z.of_nat (Nat.min n 2)) in
  safe_write w [1; 2; 3] = ([1; 2; 3], 3%nat) /\ length (fst (safe_write w [1; 2; 3])) = 3%nat.
Proof.
  split; [vm_compute; reflexivity|]. pose proof (safe_write_prefix (fun i n => Z.of_nat (Nat.min n 2)) [1; 2; 3]) as H.
  assert (Hw : forall i n : nat, Z.of_nat (Nat.min n 2) <= Z.of_nat n) by (intros; lia). specialize (H Hw).
  vm_compute in H |- *. apply H.
Defined.

Lemma do_socket_leaks_witness : do_socket (mk_sock 5 (-1) 0 0) true = (-1, [5]).
Proof.
  pose proof (do_socket_leaks (mk_sock 5 (-1) 0 0) true ltac:(simpl; lia)) as H.
  assert (Hx : forall x, x = -1 \/ x = 0 \/ x = 0 -> x = 0 \/ x = -1) by (intros x; lia). specialize (H Hx).
  cbn in H |- *. destruct H as [_ H]. reflexivity.
Defined.
