(* ===== verification/ProxyMain.v ===== *)
(** * The main program of the backend process

    proxy/backend.c: the options of [main], read by [getopt], with the creation
    of the scheduler ([sched_all_create] of sched16/pspat.c and the
    configuration of SchedCfg); the whole of [setup_backend] with the network
    interfaces and [tap_alloc]; the loop of [main_server_select] with the table
    from socket descriptors to instances; and the handler of SIGINT.  The
    system calls are parameters; what is printed is left out. *)

From Stdlib Require Import String Ascii.
From stdpp Require Import gmap list relations.
From S2P Require Import Prelude Abi Backend Sring SringGsoTx SringGsoRx VringPacked Proxy ProxyInv ProxySys SchedCfg.
Import ProxyOps ProxyMsg ProxySys.
Open Scope Z_scope.

Module ProxyMain.

(** ** [getopt] *)

Inductive opt_kind := NoArg | WithArg | Unknown.

(** The option string "hP:vBw:Su:i:m:f:a:s:". *)
Definition opt_kind_of (c : ascii) : opt_kind :=
  match c with
  | "h" | "v" | "B" | "S" => NoArg
  | "P" | "w" | "u" | "i" | "m" | "f" | "a" | "s" => WithArg
  | _ => Unknown
  end%char.

(** The options of one argument, after its dash; the second component is an
    option whose argument is the next one. *)
Fixpoint scan_element (s : string) : list (ascii * string) * option ascii :=
  match s with
  | EmptyString => ([], None)
  | String c s =>
      match opt_kind_of c with
      | NoArg => let '(l, p) := scan_element s in ((c, ""%string) :: l, p)
      | Unknown => let '(l, p) := scan_element s in (("?"%char, ""%string) :: l, p)
      | WithArg => match s with EmptyString => ([], Some c) | _ => ([(c, s)], None) end
      end
  end.

(** All the calls of [getopt], up to the -1: the options with their arguments,
    and the arguments from [optind] on, after the permutation of the GNU
    library (the others first). *)
Fixpoint getopt (av : list string) : list (ascii * string) * list string :=
  match av with
  | [] => ([], [])
  | a :: av =>
      if String.eqb a "--" then ([], av)
      else
        match a with
        | String "-" ((String _ _) as s) =>
            let '(l, p) := scan_element s in
            match p, av with
            | None, _ => let '(l', rest) := getopt av in (l ++ l', rest)
            | Some _, [] => (l ++ [("?"%char, ""%string)], [])
            | Some c, b :: av => let '(l', rest) := getopt av in (l ++ (c, b) :: l', rest)
            end
        | _ => let '(l', rest) := getopt av in (l', a :: rest)
        end
  end.

(** [atoi] *)
Definition atoi (s : string) : Z :=
  let s := SchedCfg.skip_spaces (SchedCfg.codes s) in
  let '(neg, s) := match s with 45 :: s' => (true, s') | 43 :: s' => (false, s') | _ => (false, s) end in
  let v := fst (SchedCfg.read_digits 10 0 s) in
  s32 (if (neg : bool) then Z.max SchedCfg.LONG_MIN (- v) else Z.min SchedCfg.LONG_MAX v).

(** ** The options *)

Definition PSPAT_IF_TYPE_NETMAP : Z := 0.
Definition PSPAT_IF_TYPE_SINK : Z := 1.
Definition MARK_MODE_NO_MARK : Z := 0.
Definition MARK_MODE_HV : Z := 1.
Definition MARK_MODE_GUEST : Z := 2.

(** The fields of [bp] and the variables of [main] that the options set. *)
Record config := mk_config {
  cf_pidfile : option string;
  cf_status_file : option string;
  cf_busy_wait : Z;
  cf_collect_stats : Z;
  cf_sched_cpu : Z;
  cf_scheduler_mode : Z;
  cf_threshold : Z;
  cf_sleep_usecs : Z;
  cf_ifname : string;
  cf_iftype : Z;
  cf_mark_mode : Z;
  cf_verbose : Z;
}.

Definition config_start : config :=
  mk_config None None 0 0 (-1) 0 0 0 "vale0:x}1" PSPAT_IF_TYPE_SINK MARK_MODE_NO_MARK 0.

(** The switch: the new configuration, or the value that [main] returns. *)
Definition do_opt (c : config) (o : ascii * string) : Z + config :=
  let '(mk_config pid st busy stats cpu mode thr us ifn ift mark verb) := c in
  let '(opt, optarg) := o in
  match opt with
  | "h"%char => inl 0
  | "P"%char => inr (mk_config (Some optarg) st busy stats cpu mode thr us ifn ift mark verb)
  | "v"%char => inr (mk_config pid st busy stats cpu mode thr us ifn ift mark (verb + 1))
  | "B"%char => inr (mk_config pid st 1 stats cpu mode thr us ifn ift mark verb)
  | "w"%char => let thr := atoi optarg in
      if thr <=? 0 then inl (-1) else inr (mk_config pid st busy stats cpu 1 thr us ifn ift mark verb)
  | "S"%char => inr (mk_config pid st busy 1 cpu mode thr us ifn ift mark verb)
  | "u"%char => let us := atoi optarg in
      if (us <? 0) || (1000 <? us) then inl (-1) else inr (mk_config pid st busy stats cpu mode thr us ifn ift mark verb)
  | "i"%char => inr (mk_config pid st busy stats cpu mode thr us optarg ift mark verb)
  | "m"%char =>
      if String.eqb optarg "sink" then inr (mk_config pid st busy stats cpu mode thr us ifn PSPAT_IF_TYPE_SINK mark verb)
      else if String.eqb optarg "netmap" then inr (mk_config pid st busy stats cpu mode thr us ifn PSPAT_IF_TYPE_NETMAP mark verb)
      else inl (-1)
  | "f"%char =>
      if String.eqb optarg "none" then inr (mk_config pid st busy stats cpu mode thr us ifn ift MARK_MODE_NO_MARK verb)
      else if String.eqb optarg "hv" then inr (mk_config pid st busy stats cpu mode thr us ifn ift MARK_MODE_HV verb)
      else if String.eqb optarg "guest" then inr (mk_config pid st busy stats cpu mode thr us ifn ift MARK_MODE_GUEST verb)
      else inl (-1)
  | "a"%char => let cpu := atoi optarg in
      if cpu <? 0 then inl (-1) else inr (mk_config pid st busy stats cpu mode thr us ifn ift mark verb)
  | "s"%char => inr (mk_config pid (Some optarg) busy stats cpu mode thr us ifn ift mark verb)
  | _ => if negb (mode =? 1) then inl (-1) else inr c
  end.

Fixpoint do_opts (c : config) (l : list (ascii * string)) : Z + config :=
  match l with
  | [] => inr c
  | o :: l => match do_opt c o with inl r => inl r | inr c => do_opts c l end
  end.

(** ** The scheduler *)

(** What [sched_all_create] sets up and the rest of the program reads: the
    output, the flows and the limits. *)
Record sched_all := mk_sched {
  sa_deq_netmap : bool;
  sa_sched : SchedCfg.opts;
  sa_sched_interval : Z;
  sa_batch_limit : Z;
  sa_max_mark : Z;
}.

(** The results of the calls made by [main]: opening the netmap port of the
    scheduler, [malloc] of its configuration, opening the pid file and the two
    [sigaction]s. *)
Record main_env := mk_menv { me_nm_open : bool; me_malloc : bool; me_pidfile : bool; me_sigint : Z; me_sigterm : Z }.

(** How [main] ends before the server loop, or how it enters it; [Crash] is an
    access outside of an array. *)
Inductive outcome := Exit (code : Z) | Crash | Serve (c : config) (f : option sched_all) (hv_mark : bool).

(** [inl] is an exit of the process, [inr None] the null pointer. *)
Definition sched_all_create (e : main_env) (av : list string) (iftype : Z) : outcome + option sched_all :=
  if (iftype =? PSPAT_IF_TYPE_NETMAP) && negb (me_nm_open e) then inl (Exit 1)
  else if negb ((iftype =? PSPAT_IF_TYPE_SINK) || (iftype =? PSPAT_IF_TYPE_NETMAP)) then inr None
  else if negb (me_malloc e) then inr None
  else
    match SchedCfg.init av with
    | None => inl Crash
    | Some o => inr (Some (mk_sched (iftype =? PSPAT_IF_TYPE_NETMAP) o 500 500 (u32 (SchedCfg.c_flows (SchedCfg.o_cfg o)))))
    end.

(** From the pid file on. *)
Definition main_end (e : main_env) (c : config) (f : option sched_all) (hv_mark : bool) : outcome :=
  if bool_decide (is_Some (cf_pidfile c)) && negb (me_pidfile e) then Exit (-1)
  else if negb (me_sigint e =? 0) then Exit (me_sigint e)
  else if negb (me_sigterm e =? 0) then Exit (me_sigterm e)
  else Serve c f hv_mark.

(** [main], up to [main_server_select]; [av] are the arguments after the name
    of the program. *)
Definition main (e : main_env) (av : list string) : outcome :=
  let '(l, rest) := getopt av in
  match do_opts config_start l with
  | inl r => Exit r
  | inr c =>
      if cf_scheduler_mode c =? 1 then
        match sched_all_create e rest (cf_iftype c) with
        | inl r => r
        | inr None => Exit (-1)
        | inr (Some f) => main_end e c (Some f) (cf_mark_mode c =? MARK_MODE_HV)
        end
      else main_end e c None false
  end.

(** ** The network interface of a backend *)

Inductive dev_type := TYPE_NONE | TYPE_TAP | TYPE_SINK | TYPE_SOURCE | TYPE_NETMAP.

Inductive recv_fun := tap_recv | null_recv | source_recv | netmap_recv.
Inductive send_fun := tap_send | sink_send | netmap_send.

Definition IFF_TAP : Z := 0x0002.
Definition IFF_NO_PI : Z := 0x1000.
Definition IFF_VNET_HDR : Z := 0x4000.
Definition TUN_F_CSUM : Z := 0x01.
Definition TUN_F_TSO4 : Z := 0x02.
Definition TUN_F_TSO6 : Z := 0x04.
Definition TUN_F_UFO : Z := 0x10.

(** The results of the system calls of [setup_backend]. *)
Record be_env := mk_benv {
  se_tun_open : Z;
  se_tunsetiff : Z;
  se_eventfd : Z;
  se_nmport : option Z;
  se_hdr_set : Z;
  se_stopfd : Z;
  se_fcntl_stop : Z;
  se_fcntl_be : Z;
}.

(** What is asked of the TAP device. *)
Inductive tun_ioctl := TunSetIff (flags : Z) | TunSetVnetHdrSz (len : Z) | TunSetOffload (offloads : Z).

(** [tap_alloc]: the result, the descriptors left open and the requests. *)
Definition tap_alloc (e : be_env) (vnet_hdr_len opt_offload : Z) : Z * list Z * list tun_ioctl :=
  let fd := se_tun_open e in
  if fd <? 0 then (fd, [], [])
  else
    let flags := Z.lor IFF_TAP IFF_NO_PI in
    let flags := if z2b opt_offload then Z.lor flags IFF_VNET_HDR else flags in
    let err := se_tunsetiff e in
    if err <? 0 then (err, [], [TunSetIff flags])
    else
      let offloads :=
        if has_flag opt_offload OPT_RXCSUM then
          if has_flag opt_offload OPT_LRO then Z.lor TUN_F_CSUM (Z.lor TUN_F_TSO4 (Z.lor TUN_F_TSO6 TUN_F_UFO)) else TUN_F_CSUM
        else 0 in
      (fd, [fd], TunSetIff flags :: (if z2b opt_offload then [TunSetVnetHdrSz vnet_hdr_len] else []) ++ [TunSetOffload offloads]).

(** The interface: the functions, [befd] and [vnet_hdr_len]. *)
Record netif := mk_netif { nb_recv : option recv_fun; nb_send : option send_fun; nb_befd : Z; nb_vnet_hdr_len : Z }.

(** The choice of the backend: the result, the interface and the descriptors
    opened. *)
Definition select_backend (e : be_env) (iftype : dev_type) (opt_offload : Z) (nb : netif) : Z * netif * list Z :=
  let hdr := if z2b opt_offload then 12 else 0 in
  let nb := mk_netif (nb_recv nb) (nb_send nb) (nb_befd nb) hdr in
  match iftype with
  | TYPE_NONE => (0, mk_netif None None (-1) hdr, [])
  | TYPE_TAP =>
      let '(fd, fds, _) := tap_alloc e hdr opt_offload in
      if fd <? 0 then (-1, mk_netif (nb_recv nb) (nb_send nb) fd hdr, fds)
      else (0, mk_netif (Some tap_recv) (Some tap_send) fd hdr, fds)
  | TYPE_SINK | TYPE_SOURCE =>
      let recv := match iftype with TYPE_SINK => null_recv | _ => source_recv end in
      let nb := mk_netif (Some recv) (Some sink_send) (se_eventfd e) hdr in
      if se_eventfd e <? 0 then (-1, nb, []) else (0, nb, [se_eventfd e])
  | TYPE_NETMAP =>
      match se_nmport e with
      | None => (-1, nb, [])
      | Some fd =>
          let nb := mk_netif (Some netmap_recv) (Some netmap_send) fd hdr in
          if (0 <? hdr) && negb (se_hdr_set e =? 0) then (se_hdr_set e, nb, [fd]) else (0, nb, [fd])
      end
  end.

(** The whole of [setup_backend]: the result, the backend, its interface and
    the descriptors that were opened. *)
Definition setup_backend_all (e : be_env) (dev : device) (iftype : dev_type) (opt_offload : Z) (b : BpfhvBackend) (nb : netif) :
    Z * BpfhvBackend * netif * list Z :=
  let '(_, opt_offload', ops, avail) := select_device dev opt_offload in
  let b1 := mk_be ops avail (features_sel b) (max_rx_pkt_size b) (be_map b) (num_queue_pairs b) (num_queues b)
              (num_rx_bufs b) (num_tx_bufs b) (status b) (running b) (upgrade_fd b) (stopflag b) (be_q b) in
  let '(ret, nb, fds) := select_backend e iftype opt_offload' nb in
  if negb (ret =? 0) then (ret, b1, nb, fds)
  else
    let b2 := mk_be ops avail 0 (max_rx_pkt_size b) (be_map b) 0 0 0 0 0 0 (-1) (stopflag b)
                (repeat queue_zero (Z.to_nat BPFHV_MAX_QUEUES)) in
    if se_stopfd e <? 0 then (-1, b2, nb, fds)
    else
      let fds := fds ++ [se_stopfd e] in
      let b3 := set_stopflag 0 b2 in
      if negb (se_fcntl_stop e =? 0) then (-1, b3, nb, fds)
      else if negb (nb_befd nb =? -1) && negb (se_fcntl_be e =? 0) then (-1, b3, nb, fds)
      else (0, b3, nb, fds).

(** ** The server loop *)

Definition BPFHV_MAX_SOCKET_DESCR : Z := 512.

(** The clients, [bp.sd_backend] (an instance as its index) and the descriptors
    of the clients in [master_fd]. *)
Record server := mk_server { sv_sys : system; sv_sd : list (option nat); sv_fds : gset Z }.

Definition server_start : server := mk_server initial (replicate (Z.to_nat BPFHV_MAX_SOCKET_DESCR) None) ∅.

Definition set_backend_from_sd (sd : Z) (be : option nat) (t : list (option nat)) : option (list (option nat)) :=
  if BPFHV_MAX_SOCKET_DESCR <=? sd then Some t
  else if sd <? 0 then None
  else Some (<[Z.to_nat sd := be]> t).

Definition get_backend_from_sd (sd : Z) (t : list (option nat)) : option nat :=
  if BPFHV_MAX_SOCKET_DESCR <=? sd then None else default None (t !! Z.to_nat sd).

(** What [select] reports: a connection, accepted as descriptor [sd], or a
    message on a descriptor. *)
Inductive event := Connect (sd : Z) | Message (sd : Z) (i : incoming) (sent : Z).

(** One turn of the loop; [None] is a null pointer, or an index outside of the
    table or of the array of instances. *)
Definition serve_event (o : os) (mode : bool) (drain : process -> process) (sv : server) (ev : event) : option server :=
  let s := sv_sys sv in
  match ev with
  | Connect sd =>
      match fst (assign_backend o (s_bc s)) with
      | None => Some sv
      | Some i =>
          s ← accept_client o mode s;
          t ← set_backend_from_sd sd (Some (Z.to_nat i)) (sv_sd sv);
          Some (mk_server s t ({[sd]} ∪ sv_fds sv))
      end
  | Message sd i sent =>
      j ← get_backend_from_sd sd (sv_sd sv);
      b ← s_be s !! j;
      let '(ret, _, s) := client_message o drain j b i sent s in
      if ret <? 0 then
        t ← set_backend_from_sd sd None (sv_sd sv);
        Some (mk_server s t (sv_fds sv ∖ {[sd]}))
      else Some (mk_server s (sv_sd sv) (sv_fds sv))
  end.

Fixpoint serve_events (o : os) (mode : bool) (drain : process -> process) (sv : server) (evs : list event) : option server :=
  match evs with
  | [] => Some sv
  | ev :: evs => sv ← serve_event o mode drain sv ev; serve_events o mode drain sv evs
  end.

(** ** The handler of SIGINT *)

(** The loop on the instances from [j] on. *)
Fixpoint stop_loop (n : nat) (o : os) (drain : process -> process) (j : nat) (s : system) : system :=
  match n with
  | O => s
  | S n =>
      if Z.of_nat j <? used_instances (s_bc s) then
        let s :=
          match s_be s !! j with
          | Some b =>
              if z2b (running b) then
                let p := drain (snd (backend_stop o (mk_process b (s_bc s) (s_log s)))) in
                mk_system (<[j := p_be p]> (s_be s)) (s_conn s) (p_bc p) (p_log p)
              else s
          | None => s
          end in
        stop_loop n o drain (S j) s
      else s
  end.

Definition sigint_handler (o : os) (drain : process -> process) (s : system) : system :=
  stop_loop (Z.to_nat (used_instances (s_bc s))) o drain 0 s.

End ProxyMain.
Import ProxyMain.

(** ** The options *)

(** What the options leave in the configuration. *)
Record config_ok (c : config) : Prop := {
  co_sleep : 0 <= cf_sleep_usecs c <= 1000;
  co_cpu : -1 <= cf_sched_cpu c;
  co_iftype : cf_iftype c = PSPAT_IF_TYPE_SINK \/ cf_iftype c = PSPAT_IF_TYPE_NETMAP;
  co_mark : cf_mark_mode c = MARK_MODE_NO_MARK \/ cf_mark_mode c = MARK_MODE_HV \/ cf_mark_mode c = MARK_MODE_GUEST;
  co_mode : (cf_scheduler_mode c = 0 /\ cf_threshold c = 0) \/ (cf_scheduler_mode c = 1 /\ 0 < cf_threshold c);
}.

Lemma config_start_ok : config_ok config_start.
Proof. constructor; simpl; auto; lia. Qed.

Lemma do_opt_ok c o c' : config_ok c -> do_opt c o = inr c' -> config_ok c'.
Proof.
  intros [H1 H2 H3 H4 H5]. destruct c as [pid st busy stats cpu mode thr us ifn ift mark verb]. simpl in *. destruct o as [opt optarg]. cbn [do_opt].
  destruct opt as [[] [] [] [] [] [] [] []]; try (destruct (mode =? 1); simpl; [intros [= <-]; by constructor|done]);
    try (intros [= <-]; constructor; simpl; done || lia); try done; repeat (case_if; try done); intros [= <-]; constructor; simpl; auto; zify_bool; lia.
Qed.

Lemma do_opts_ok l : forall c c', config_ok c -> do_opts c l = inr c' -> config_ok c'.
Proof.
  induction l as [|o l IH]; intros c c' Hc; cbn [do_opts]; [by intros [= <-]|].
  destruct (do_opt c o) as [r|c1] eqn:E; [done|]. apply IH. by eapply do_opt_ok.
Qed.

(** The ways into the server loop. *)
Lemma main_serve_inv e av c f hv : main e av = Serve c f hv ->
  config_ok c /\
  ((cf_scheduler_mode c = 0 /\ f = None /\ hv = false) \/
   (cf_scheduler_mode c = 1 /\ hv = (cf_mark_mode c =? MARK_MODE_HV) /\
    exists sa, f = Some sa /\ SchedCfg.init (snd (getopt av)) = Some (sa_sched sa) /\
    sa_deq_netmap sa = (cf_iftype c =? PSPAT_IF_TYPE_NETMAP) /\ sa_max_mark sa = u32 (SchedCfg.c_flows (SchedCfg.o_cfg (sa_sched sa))))).
Proof.
  unfold main. destruct (getopt av) as [l rest]. destruct (do_opts config_start l) as [r|c1] eqn:E; [done|].
  apply do_opts_ok in E; [|apply config_start_ok]. unfold main_end.
  destruct (Z.eqb_spec (cf_scheduler_mode c1) 1) as [Hm|Hm].
  - unfold sched_all_create. destruct (_ && _); [by intros|]. destruct (negb _); [by intros|]. destruct (negb (me_malloc e)); [by intros|].
    destruct (SchedCfg.init rest) as [o|] eqn:Ei; [|by intros]. repeat (case_if; try done). intros [= <- <- <-]. split; [done|]. right.
    split; [done|]. split; [done|]. by eexists.
  - repeat (case_if; try done). intros [= <- <- <-]. split; [done|]. left. destruct (co_mode _ E) as [[? _]|[? _]]; [done|lia].
Qed.

(** C39: when [main] enters the server loop, the options are within their
    ranges and there is a scheduler exactly when the options ask for one, which
    marks the packets itself exactly in the hypervisor's mark mode.  The
    scheduler's configuration is the one that [init] of sched_main.c makes of
    the arguments that [getopt] left, it dequeues to netmap exactly with that
    kind of interface, its limit on the marks is the number of flows of that
    configuration, and every mark below the limit belongs to a queue that
    exists and is linked to a flowset, unless the list of flowsets counted a
    negative number of flows. *)
Theorem main_serves e av c f hv : main e av = Serve c f hv ->
  config_ok c /\ (f = None <-> cf_scheduler_mode c = 0) /\
  hv = ((cf_scheduler_mode c =? 1) && (cf_mark_mode c =? MARK_MODE_HV)) /\
  forall sa, f = Some sa ->
  SchedCfg.init (snd (getopt av)) = Some (sa_sched sa) /\
  sa_deq_netmap sa = (cf_iftype c =? PSPAT_IF_TYPE_NETMAP) /\ sa_max_mark sa = u32 (SchedCfg.c_flows (SchedCfg.o_cfg (sa_sched sa))) /\
  (0 <= SchedCfg.c_flows (SchedCfg.o_cfg (sa_sched sa)) ->
   exists fss q, SchedCfg.c_fs (SchedCfg.o_cfg (sa_sched sa)) = Some fss /\ SchedCfg.c_q (SchedCfg.o_cfg (sa_sched sa)) = Some q /\
   forall mark, 0 <= mark < sa_max_mark sa -> exists k, q !! Z.to_nat (u16 mark) = Some (Some k) /\ is_Some (fss !! Z.to_nat k)).
Proof.
  intros H. apply main_serve_inv in H as (Hc & Hm). split; [done|].
  split; [destruct Hm as [(-> & -> & _)|(-> & _ & sa & -> & _)]; done|].
  split; [destruct Hm as [(-> & _ & ->)|(-> & -> & _)]; done|].
  intros sa ->. destruct Hm as [(_ & ? & _)|(_ & _ & sa' & [= <-] & Hi & Hd & Hmax)]; [done|]. do 3 (split; [done|]). intros Hf.
  apply flows_exist in Hi as (fss & q & H1 & H2 & _ & H3). exists fss, q. split; [done|]. split; [done|]. intros mark Hmark. apply H3.
  rewrite Hmax in Hmark. unfold u16, u32, wrap in *.
  assert (SchedCfg.c_flows (SchedCfg.o_cfg (sa_sched sa)) mod 2 ^ 32 <= SchedCfg.c_flows (SchedCfg.o_cfg (sa_sched sa))) by (apply Z.mod_le; lia).
  assert (mark mod 2 ^ 16 <= mark) by (apply Z.mod_le; lia). pose proof (Z.mod_pos_bound mark (2 ^ 16)). lia.
Qed.

(** a list of flowsets with a negative number of flows is accepted: the
    limit on the marks becomes almost 2^32, with one queue. *)
Theorem main_negative_flows : exists c sa, main (mk_menv true true true 0 0) ["-w"; "1"; "--"; "-flowsets"; "1:1000:4n"]%string = Serve c (Some sa) false /\
  sa_max_mark sa = 2 ^ 32 - 4 /\ length (default [] (SchedCfg.c_q (SchedCfg.o_cfg (sa_sched sa)))) = 1%nat.
Proof. eexists _, _. split; [vm_compute; reflexivity|]. by vm_compute. Qed.

(** without the option -w the threshold on the clients is 0, and every
    connection is refused. *)
Theorem main_without_w e av c f hv o mode s : main e av = Serve c f hv -> cf_scheduler_mode c = 0 ->
  client_threshold_activation o = cf_threshold c -> 0 <= allocated_instances (s_bc s) -> accept_client o mode s = Some s.
Proof.
  intros H Hm Ho Ha. apply main_serve_inv in H as (Hc & _). destruct (co_mode _ Hc) as [[_ Ht]|[? _]]; [|lia].
  unfold accept_client, assign_backend. rewrite Ho, Ht, (proj2 (Z.ltb_ge _ 0)) by lia. done.
Qed.

(** ** The arguments of the scheduler *)

(** An option with its argument, as two arguments. *)
Definition opt_word (c : ascii) : string := String "-" (String c EmptyString).
Definition opt_words (l : list (ascii * string)) : list string := l ≫= fun '(c, v) => [opt_word c; v].

Lemma getopt_words l rest : Forall (fun '(c, _) => opt_kind_of c = WithArg) l ->
  getopt (opt_words l ++ "--"%string :: rest) = (l, rest).
Proof.
  intros HF. induction HF as [|[c v] l Hc _ IH]; [done|]. change (opt_words ((c, v) :: l)) with (opt_word c :: v :: opt_words l).
  cbn [app getopt]. assert (String.eqb (opt_word c) "--" = false) as ->.
  { apply String.eqb_neq. intros [= ->]. done. }
  cbn [opt_word scan_element]. rewrite Hc. cbn [app]. by rewrite IH.
Qed.

(** with "backend OPTIONS -- -flowsets LIST ..." the process starts with
    exactly the flows of the list: each with the weight and the length of its
    flowset, and marks from 0 to their number. *)
Theorem main_flowsets e l c v post : Forall (fun '(c, _) => opt_kind_of c = WithArg) l -> do_opts config_start l = inr c ->
  cf_scheduler_mode c = 1 -> cf_iftype c = PSPAT_IF_TYPE_SINK -> me_malloc e = true -> me_pidfile e = true -> me_sigint e = 0 -> me_sigterm e = 0 ->
  good_config (SchedCfg.codes v) -> config_flowsets (SchedCfg.codes v) <> [] -> Forall other_option post ->
  exists sa, main e (opt_words l ++ "--"%string :: flat (("-flowsets"%string, v) :: post)) = Serve c (Some sa) (cf_mark_mode c =? MARK_MODE_HV) /\
  sa_max_mark sa = u32 (total_flows (config_flowsets (SchedCfg.codes v))) /\
  SchedCfg.flow_params (sa_sched sa) = flows_of (config_flowsets (SchedCfg.codes v)).
Proof.
  intros HF Hl Hm Hi H1 H2 H3 H4 Hg Hne Hp. destruct (init_links [] v post Hg Hne Hp) as (o & Ho & E1 & _ & _ & _ & _ & E2). cbn [app] in Ho.
  exists (mk_sched false o 500 500 (u32 (SchedCfg.c_flows (SchedCfg.o_cfg o)))). split; [|cbn [sa_max_mark sa_sched]; by rewrite E1].
  unfold main. rewrite getopt_words by done. rewrite Hl, Hm. cbn [Z.eqb Pos.eqb]. unfold sched_all_create. rewrite Hi, H1. cbn [negb andb orb Z.eqb Pos.eqb PSPAT_IF_TYPE_SINK PSPAT_IF_TYPE_NETMAP].
  change (PSPAT_IF_TYPE_SINK =? PSPAT_IF_TYPE_NETMAP) with false. cbn [andb]. change (PSPAT_IF_TYPE_SINK =? PSPAT_IF_TYPE_SINK) with true. cbn [orb negb].
  rewrite Ho. unfold main_end. by rewrite H2, H3, H4, andb_false_r.
Qed.

(** ** The network interfaces *)

Definition calls_succeed (e : be_env) : Prop :=
  0 <= se_tun_open e /\ 0 <= se_tunsetiff e /\ 0 <= se_eventfd e /\ (exists fd, se_nmport e = Some fd /\ 0 <= fd) /\
  se_hdr_set e = 0 /\ 0 <= se_stopfd e /\ se_fcntl_stop e = 0 /\ se_fcntl_be e = 0.

(** The functions of each type of interface. *)
Definition funs_of (t : dev_type) : option recv_fun * option send_fun :=
  match t with
  | TYPE_NONE => (None, None)
  | TYPE_TAP => (Some tap_recv, Some tap_send)
  | TYPE_SINK => (Some null_recv, Some sink_send)
  | TYPE_SOURCE => (Some source_recv, Some sink_send)
  | TYPE_NETMAP => (Some netmap_recv, Some netmap_send)
  end.

Lemma select_backend_ok e t opt nb : calls_succeed e -> exists fd,
  select_backend e t opt nb = (0, mk_netif (fst (funs_of t)) (snd (funs_of t)) fd (if z2b opt then 12 else 0), match t with TYPE_NONE => [] | _ => [fd] end) /\
  match t with TYPE_NONE => fd = -1 | _ => 0 <= fd end.
Proof.
  intros (H1 & H2 & H3 & (p & H4 & Hp) & H5 & _). unfold select_backend, tap_alloc. destruct t; cbn [funs_of fst snd].
  - by exists (-1).
  - exists (se_tun_open e). rewrite !(proj2 (Z.ltb_ge _ 0)) by lia. done.
  - exists (se_eventfd e). rewrite !(proj2 (Z.ltb_ge _ 0)) by lia. done.
  - exists (se_eventfd e). rewrite !(proj2 (Z.ltb_ge _ 0)) by lia. done.
  - exists p. rewrite H4, H5. cbn [Z.eqb negb]. by rewrite andb_false_r.
Qed.

(** when the system calls succeed [setup_backend] gives a backend in its
    initial state, with the functions of its type of interface and one
    descriptor for the interface (none without one) and one to stop it. *)
Theorem setup_backend_succeeds e dev t opt b nb : calls_succeed e ->
  exists fd, setup_backend_all e dev t opt b nb =
    (0, setup_backend dev opt b, mk_netif (fst (funs_of t)) (snd (funs_of t)) fd (if z2b (snd (fst (fst (select_device dev opt)))) then 12 else 0),
     match t with TYPE_NONE => [se_stopfd e] | _ => [fd; se_stopfd e] end) /\
  match t with TYPE_NONE => fd = -1 | _ => 0 <= fd end.
Proof.
  intros He. unfold setup_backend_all, setup_backend. destruct (select_device dev opt) as [[[d opt'] ops] avail]. cbn [fst snd].
  destruct (select_backend_ok e t opt' nb He) as (fd & -> & Hfd). destruct He as (_ & _ & _ & _ & _ & H6 & H7 & H8).
  exists fd. cbn [Z.eqb negb]. rewrite (proj2 (Z.ltb_ge _ 0)), H7, H8 by lia. cbn [Z.eqb negb nb_befd]. rewrite andb_false_r. split; [|done].
  unfold set_stopflag. cbn. by destruct t.
Qed.

(** when [setup_backend] fails nothing that it opened is closed; and when
    it fails before the queues are initialized their descriptors keep the value
    they had, 0 in a new instance, which is a valid descriptor. *)
Theorem setup_backend_fails e dev t opt b nb : let '(ret, b', nb', fds) := setup_backend_all e dev t opt b nb in
  ret <> 0 ->
  (be_q b' = be_q b /\ upgrade_fd b' = upgrade_fd b /\ (fds = [] \/ fds = [nb_befd nb'])) \/
  (be_q b' = repeat queue_zero (Z.to_nat BPFHV_MAX_QUEUES) /\ upgrade_fd b' = -1 /\ (se_stopfd e < 0 \/ se_stopfd e ∈ fds)).
Proof.
  unfold setup_backend_all. destruct (select_device dev opt) as [[[d opt'] ops] avail].
  destruct (select_backend e t opt' nb) as [[ret nb'] fds] eqn:E. destruct (Z.eqb_spec ret 0) as [->|Hr]; cbn [negb].
  - destruct (Z.ltb_spec (se_stopfd e) 0); [intros _; right; by split_and!; [..|left]|].
    repeat case_if; intros Hr; try done; right; (split_and!; [done..|right; set_solver]).
  - intros _. left. split; [done|]. split; [done|]. unfold select_backend, tap_alloc in E.
    destruct t; [|..|destruct (se_nmport e)]; repeat match type of E with context [if ?x then _ else _] => destruct x end; simplify_eq/=; auto.
Qed.

(** ** The table of the descriptors *)

(** Every descriptor that is polled is in the table with an instance of its
    own, which is connected. *)
Record server_ok (sv : server) : Prop := {
  vo_len : length (sv_sd sv) = Z.to_nat BPFHV_MAX_SOCKET_DESCR;
  vo_conn : length (s_conn (sv_sys sv)) = length (s_be (sv_sys sv));
  vo_alloc : allocated_instances (s_bc (sv_sys sv)) = Z.of_nat (length (s_be (sv_sys sv)));
  vo_fds : forall sd, sd ∈ sv_fds sv -> 0 <= sd < BPFHV_MAX_SOCKET_DESCR /\
    exists j, sv_sd sv !! Z.to_nat sd = Some (Some j) /\ s_conn (sv_sys sv) !! j = Some true;
  vo_inj : forall sd sd' j, sd ∈ sv_fds sv -> sd' ∈ sv_fds sv ->
    sv_sd sv !! Z.to_nat sd = Some (Some j) -> sv_sd sv !! Z.to_nat sd' = Some (Some j) -> sd = sd';
}.

(** What [accept] and [select] promise: a new descriptor is not in use, and a
    message comes on one that is polled. *)
Definition event_ok (sv : server) (ev : event) : Prop :=
  match ev with
  | Connect sd => 0 <= sd < BPFHV_MAX_SOCKET_DESCR /\ sd ∉ sv_fds sv
  | Message sd i _ => sd ∈ sv_fds sv /\ incoming_ok i
  end.

Lemma server_start_ok : server_ok server_start.
Proof. constructor; [by vm_compute|done|done|intros sd; set_solver|intros sd sd' j; set_solver]. Qed.

Section server.
Context (o : os) (mode : bool) (drain : process -> process).
Hypothesis Hthr : client_threshold_activation o <= BPFHV_MAX_THREAD_INSTANCES.

Lemma connect_ok sv sd : server_ok sv -> event_ok sv (Connect sd) ->
  exists sv', serve_event o mode drain sv (Connect sd) = Some sv' /\ server_ok sv' /\ reaches o mode drain (sv_sys sv) (sv_sys sv').
Proof.
  intros [H1 H2 HA H3 H4] [Hsd Hf]. cbn [serve_event]. destruct (fst (assign_backend o (s_bc (sv_sys sv)))) as [n|] eqn:E;
    [|by exists sv]. destruct (accept_defined o mode (sv_sys sv) Hthr) as [s' Es]. rewrite Es. cbn [mbind option_bind].
  unfold assign_backend in E. case_if_in E; [|done]. injection E as <-. zify_bool.
  destruct (accept_inv o mode (sv_sys sv) s' HA H2 Es) as [[_ ?]|(_ & Hmax & Es')]; [lia|]. change BPFHV_MAX_THREAD_INSTANCES with 128 in Hmax.
  unfold set_backend_from_sd. rewrite (proj2 (Z.leb_gt _ sd)), (proj2 (Z.ltb_ge sd 0)) by lia. cbn [mbind option_bind].
  rewrite HA, Nat2Z.id. eexists. split; [done|]. split; [|by apply rtc_once, step_accept].
  set (t := sv_sd sv) in *. assert (Hlt : (Z.to_nat sd < length t)%nat) by (unfold BPFHV_MAX_SOCKET_DESCR in *; lia).
  assert (Hother : forall sd', sd' ∈ sv_fds sv -> <[Z.to_nat sd := Some (length (s_be (sv_sys sv)))]> t !! Z.to_nat sd' = t !! Z.to_nat sd').
  { intros sd' Hs. apply list_lookup_insert_ne. intros He. destruct (H3 sd' Hs) as [? _]. assert (sd = sd') by lia. by subst. }
  rewrite Es'.
  constructor; cbn [sv_sys sv_sd sv_fds s_conn s_be s_bc allocated_instances].
  - by rewrite length_insert.
  - rewrite !length_app. simpl. lia.
  - rewrite HA, length_app, u16_id by (unfold is_u16; lia). simpl. lia.
  - intros sd' [->%elem_of_singleton|Hs]%elem_of_union.
    + split; [done|]. eexists. split; [by apply list_lookup_insert_eq|]. rewrite <- H2. by rewrite lookup_app_r, Nat.sub_diag by lia.
    + destruct (H3 sd' Hs) as (Hr & j & Hj & Hc). split; [done|]. exists j. rewrite Hother by done. split; [done|]. by apply lookup_app_l_Some.
  - assert (Hnew : forall sd', sd' ∈ sv_fds sv -> t !! Z.to_nat sd' <> Some (Some (length (s_be (sv_sys sv))))).
    { intros sd' Hs He. destruct (H3 sd' Hs) as (_ & j & Hj & Hc). rewrite Hj in He. injection He as ->. apply lookup_lt_Some in Hc. lia. }
    intros sd1 sd2 j [->%elem_of_singleton|S1]%elem_of_union [->%elem_of_singleton|S2]%elem_of_union; rewrite ?list_lookup_insert_eq by done; try done.
    + intros [= <-] He. rewrite Hother in He by done. by destruct (Hnew sd2).
    + intros He [= <-]. rewrite Hother in He by done. by destruct (Hnew sd1).
    + rewrite !Hother by done. by apply H4.
Qed.

Lemma message_served sv sd i sent : server_ok sv -> event_ok sv (Message sd i sent) ->
  exists sv', serve_event o mode drain sv (Message sd i sent) = Some sv' /\ server_ok sv' /\ reaches o mode drain (sv_sys sv) (sv_sys sv').
Proof.
  intros [H1 H2 HA H3 H4] [Hs Hi]. destruct (H3 sd Hs) as (Hr & j & Hj & Hc). cbn [serve_event]. unfold get_backend_from_sd.
  rewrite (proj2 (Z.leb_gt _ sd)), Hj by lia. simpl mbind. destruct (lookup_lt_is_Some_2 (s_be (sv_sys sv)) j) as [b Hb].
  { rewrite <- H2. by eapply lookup_lt_Some. }
  rewrite Hb. simpl mbind. pose proof (step_message o mode drain (sv_sys sv) j b i sent Hc Hb Hi) as Hstep. unfold client_message in *.
  pose proof (message_alloc o drain i sent (mk_process b (s_bc (sv_sys sv)) (s_log (sv_sys sv)))) as Hal.
  destruct (process_guest_message _ _ _ _ _) as [[ret resp] p]. cbn [snd] in Hstep. set (s' := mk_system _ _ _ _) in *.
  assert (HA' : allocated_instances (s_bc s') = Z.of_nat (length (s_be s'))).
  { cbn [s' s_bc s_be]. rewrite length_insert, <- HA. exact Hal. }
  assert (Hlen : length (s_conn s') = length (s_be s')) by (simpl; case_if; by rewrite ?length_insert).
  destruct (ret <? 0) eqn:Er.
  - unfold set_backend_from_sd. rewrite (proj2 (Z.leb_gt _ sd)), (proj2 (Z.ltb_ge sd 0)) by lia. simpl mbind. eexists. split; [done|]. split; [|by apply rtc_once].
    assert (Hother : forall sd', sd' ∈ sv_fds sv ∖ {[sd]} -> <[Z.to_nat sd := None]> (sv_sd sv) !! Z.to_nat sd' = sv_sd sv !! Z.to_nat sd').
    { intros sd' [Hs' Hne]%elem_of_difference. apply list_lookup_insert_ne. intros He. destruct (H3 sd' Hs') as [? _]. apply Hne, elem_of_singleton. lia. }
    constructor; cbn [sv_sys sv_sd sv_fds]; [by rewrite length_insert|done|done| |].
    + intros sd' Hs'. pose proof Hs' as [Hin Hne]%elem_of_difference. destruct (H3 sd' Hin) as (Hr' & j' & Hj' & Hc'). split; [done|]. exists j'.
      rewrite Hother by done. split; [done|]. cbn [s' s_conn]. rewrite list_lookup_insert_ne; [done|]. intros <-. apply Hne, elem_of_singleton. symmetry. by eapply H4.
    + intros sd1 sd2 k S1 S2. rewrite !Hother by done. apply elem_of_difference in S1 as [S1 _], S2 as [S2 _]. by apply H4.
  - eexists. split; [done|]. split; [|by apply rtc_once]. constructor; cbn [sv_sys sv_sd sv_fds]; done.
Qed.

Lemma event_served sv ev : server_ok sv -> event_ok sv ev ->
  exists sv', serve_event o mode drain sv ev = Some sv' /\ server_ok sv' /\ reaches o mode drain (sv_sys sv) (sv_sys sv').
Proof. destruct ev; [apply connect_ok|apply message_served]. Qed.

(** The events happen as [accept] and [select] promise. *)
Fixpoint events_ok (sv : server) (evs : list event) : Prop :=
  match evs with
  | [] => True
  | ev :: evs => event_ok sv ev /\ forall sv', serve_event o mode drain sv ev = Some sv' -> events_ok sv' evs
  end.

Lemma events_served evs : forall sv, server_ok sv -> events_ok sv evs ->
  exists sv', serve_events o mode drain sv evs = Some sv' /\ server_ok sv' /\ reaches o mode drain (sv_sys sv) (sv_sys sv').
Proof.
  induction evs as [|ev evs IH]; intros sv Hsv; cbn [serve_events events_ok]; [intros _; by exists sv|]. intros [He Hn].
  destruct (event_served sv ev Hsv He) as (sv1 & E1 & H1 & R1). destruct (IH sv1 H1 (Hn _ E1)) as (sv2 & E2 & H2 & R2).
  exists sv2. rewrite E1. split; [done|]. split; [done|]. by etrans.
Qed.

End server.


(** a descriptor that is not below the size of the table is accepted and
    polled, but not stored: the first message on it uses a null pointer. *)
Theorem server_high_descriptor o mode drain sd i sent : BPFHV_MAX_SOCKET_DESCR <= sd -> 0 < client_threshold_activation o ->
  exists sv, serve_event o mode drain server_start (Connect sd) = Some sv /\ sd ∈ sv_fds sv /\
  serve_event o mode drain sv (Message sd i sent) = None.
Proof.
  intros Hs Ht. cbn [serve_event server_start sv_sys]. unfold accept_client, assign_backend. cbn [initial s_bc allocated_instances].
  rewrite (proj2 (Z.ltb_lt _ _)) by lia. cbn [fst]. change (BPFHV_MAX_THREAD_INSTANCES <=? 0) with false. cbv iota. cbn [mbind option_bind].
  unfold set_backend_from_sd. rewrite (proj2 (Z.leb_le _ sd)) by lia. cbn [mbind option_bind]. eexists. split; [done|]. split; [set_solver|].
  cbn [serve_event]. unfold get_backend_from_sd. by rewrite (proj2 (Z.leb_le _ sd)) by lia.
Qed.

(** ** Stopping the process *)

Section sigint.
Context (o : os) (drain : process -> process).
Hypothesis Hjoin : os_join o = 0.
Hypothesis Hdrain : forall p, p_bc (drain p) = p_bc p /\ running (p_be (drain p)) = running (p_be p).

(** After [j] of the [k] running instances. *)
Record stopped_to (k j : nat) (s : system) : Prop := {
  st_used : used_instances (s_bc s) = Z.of_nat k - Z.of_nat j;
  st_len : (k <= length (s_be s))%nat;
  st_be : forall i b, s_be s !! i = Some b -> (i < k)%nat -> running b = if decide (i < j)%nat then 0 else 1;
  st_th : (0 < j)%nat -> th_running (s_bc s) = 0;
}.

Lemma stop_one k j s b : Z.of_nat k < 2 ^ 16 -> (j < k)%nat -> stopped_to k j s -> s_be s !! j = Some b ->
  let p := drain (snd (backend_stop o (mk_process b (s_bc s) (s_log s)))) in
  running b = 1 /\ stopped_to k (S j) (mk_system (<[j := p_be p]> (s_be s)) (s_conn s) (p_bc p) (p_log p)).
Proof using Hjoin Hdrain.
  intros Hk Hj [U L B T] Hb p. assert (Hr : running b = 1) by (rewrite (B j b Hb Hj); by rewrite decide_False by lia). split; [done|].
  destruct (backend_stop o (mk_process b (s_bc s) (s_log s))) as [ret p0] eqn:E.
  apply stop_spec in E as (E1 & E2 & E3); cbn [p_be p_bc] in *; [|done|by right|lia]. subst p. cbn [snd]. destruct (Hdrain p0) as [D1 D2].
  constructor; cbn [s_bc s_be]; rewrite ?D1.
  - lia.
  - by rewrite length_insert.
  - intros i b' Hi Hik. apply list_lookup_insert_Some in Hi as [(<- & <- & _)|[Hne Hi]].
    + rewrite D2, E1, decide_True by lia. done.
    + rewrite (B i b' Hi Hik). repeat case_decide; lia.
  - done.
Qed.

Lemma stop_loop_half k n : forall j s, Z.of_nat k < 2 ^ 16 -> (k <= n + 2 * j)%nat -> (2 * j <= S k)%nat -> stopped_to k j s ->
  stopped_to k ((k + 1) / 2) (stop_loop n o drain j s).
Proof using Hjoin Hdrain.
  assert (Hhalf : forall j, (k <= 2 * j)%nat -> (2 * j <= S k)%nat -> ((k + 1) / 2)%nat = j).
  { intros j H1 H2. symmetry. apply (Nat.div_unique (k + 1) 2 j (k + 1 - 2 * j)); lia. }
  induction n as [|n IH]; intros j s Hk Hn Hj Hs; cbn [stop_loop]; [by rewrite (Hhalf j) by lia|].
  rewrite (st_used _ _ _ Hs). destruct (Z.ltb_spec (Z.of_nat j) (Z.of_nat k - Z.of_nat j)); [|by rewrite (Hhalf j) by lia].
  destruct (lookup_lt_is_Some_2 (s_be s) j) as [b Hb]; [pose proof (st_len _ _ _ Hs); lia|]. rewrite Hb.
  destruct (stop_one k j s b Hk ltac:(lia) Hs Hb) as [Hr Hs']. rewrite Hr. cbn [z2b]. apply IH; [done|lia|lia|exact Hs'].
Qed.

End sigint.

(** the handler of SIGINT stops the packet thread, but its loop is bounded
    by the number of instances in use, which each stop decreases: of [k]
    clients that run only the first half is stopped. *)
Theorem sigint_stops_half o drain s k : os_join o = 0 ->
  (forall p, p_bc (drain p) = p_bc p /\ running (p_be (drain p)) = running (p_be p)) ->
  Z.of_nat k < 2 ^ 16 -> used_instances (s_bc s) = Z.of_nat k -> (0 < k <= length (s_be s))%nat ->
  Forall (fun b => running b = 1) (take k (s_be s)) ->
  let s' := sigint_handler o drain s in
  th_running (s_bc s') = 0 /\
  forall j b, s_be s' !! j = Some b -> (j < k)%nat -> running b = if decide (2 * j < k)%nat then 0 else 1.
Proof.
  intros Hj Hd Hk Hu Hl HF s'. assert (Hs : stopped_to k ((k + 1) / 2) s').
  { unfold s', sigint_handler. rewrite Hu, Nat2Z.id. apply stop_loop_half; [done|done|done|lia|lia|]. constructor; [lia|lia| |lia].
    intros i b Hi Hik. rewrite decide_False by lia. apply (list.Forall_lookup_1 _ _ i b HF). by rewrite lookup_take_lt by lia. }
  pose proof (Nat.div_mod_eq (k + 1) 2) as Hdiv. pose proof (Nat.mod_upper_bound (k + 1) 2 ltac:(lia)) as Hmod.
  split; [apply (st_th _ _ _ Hs); lia|]. intros j b Hb Hjk. rewrite (st_be _ _ _ Hs j b Hb Hjk). repeat case_decide; lia.
Qed.

(** ** Examples *)

Definition ex_menv : main_env := mk_menv true true true 0 0.

Lemma main_serves_witness : exists c sa, main ex_menv ["-w"; "2"; "-f"; "hv"; "-v"; "--"; "-flows"; "4"]%string = Serve c (Some sa) true /\
  cf_threshold c = 2 /\ sa_max_mark sa = 4 /\ config_ok c /\ SchedCfg.init ["-flows"; "4"]%string = Some (sa_sched sa) /\
  exists fss q, SchedCfg.c_fs (SchedCfg.o_cfg (sa_sched sa)) = Some fss /\ SchedCfg.c_q (SchedCfg.o_cfg (sa_sched sa)) = Some q /\
  exists k, q !! 3%nat = Some (Some k) /\ is_Some (fss !! Z.to_nat k).
Proof.
  destruct (main ex_menv ["-w"; "2"; "-f"; "hv"; "-v"; "--"; "-flows"; "4"]%string) as [| |c f hv] eqn:E; [by vm_compute in E..|].
  destruct (main_serves _ _ c f hv E) as (H1 & _ & _ & H2). vm_compute in E. injection E as <- <- <-. eexists _, _.
  split; [reflexivity|]. split; [reflexivity|]. split; [reflexivity|]. split; [exact H1|]. destruct (H2 _ eq_refl) as (Hi & _ & _ & H3).
  split; [exact Hi|]. destruct H3 as (fss & q & F1 & F2 & F3); [by vm_compute|]. exists fss, q. split; [exact F1|]. split; [exact F2|].
  apply (F3 3). by vm_compute.
Defined.

Lemma main_without_w_witness : accept_client (mk_os (fun _ _ => None) 0 0 5 0 0) false initial = Some initial /\
  exists c, main ex_menv ["-P"; "pid"; "-v"]%string = Serve c None false.
Proof.
  destruct (main ex_menv ["-P"; "pid"; "-v"]%string) as [| |c f hv] eqn:E; [by vm_compute in E..|]. split.
  - apply (main_without_w ex_menv ["-P"; "pid"; "-v"]%string c f hv); [exact E|..]; vm_compute in E; injection E as <- <- <-; by vm_compute.
  - vm_compute in E. injection E as <- <- <-. by eexists.
Defined.

Lemma main_flowsets_witness : exists c sa,
  main ex_menv ["-w"; "1"; "-m"; "sink"; "--"; "-flowsets"; "1:1500:3"; "-alg"; "qfq"]%string = Serve c (Some sa) false /\
  sa_max_mark sa = 3 /\ SchedCfg.flow_params (sa_sched sa) = replicate 3 (1, 1500).
Proof.
  destruct (do_opts config_start [("w"%char, "1"%string); ("m"%char, "sink"%string)]) as [r|c] eqn:E; [by vm_compute in E|].
  destruct (main_flowsets ex_menv [("w"%char, "1"%string); ("m"%char, "sink"%string)] c "1:1500:3" [("-alg", "qfq")]%string) as (sa & H1 & H2 & H3).
  - repeat constructor.
  - exact E.
  - vm_compute in E. by injection E as <-.
  - vm_compute in E. by injection E as <-.
  - reflexivity.
  - reflexivity.
  - reflexivity.
  - reflexivity.
  - apply (bool_decide_unpack _). vm_compute. exact I.
  - by vm_compute.
  - constructor; [by split|constructor].
  - exists c, sa. vm_compute in E. injection E as <-. split; [exact H1|]. split; [exact H2|exact H3].
Defined.

Definition ex_benv (tun : Z) : be_env := mk_benv tun 0 12 (Some 14) 0 16 0 0.

Lemma setup_backend_succeeds_witness : exists b nb,
  setup_backend_all (ex_benv 11) SRING TYPE_TAP 0 instance_zero (mk_netif None None 0 0) = (0, b, nb, [11; 16]) /\ nb_send nb = Some tap_send.
Proof.
  destruct (setup_backend_succeeds (ex_benv 11) SRING TYPE_TAP 0 instance_zero (mk_netif None None 0 0)) as (fd & H & _).
  - unfold calls_succeed. cbn. split_and!; [lia|lia|lia|exists 14; split; [done|lia]|done|lia|done|done].
  - assert (fd = 11) as -> by (apply (f_equal (fun r => nb_befd (snd (fst r)))) in H; vm_compute in H; by rewrite H). eexists _, _. split; [exact H|reflexivity].
Defined.

Lemma setup_backend_fails_witness : let '(ret, b, _, fds) := setup_backend_all (ex_benv (-1)) SRING TYPE_TAP 0 instance_zero (mk_netif None None 0 0) in
  ret = -1 /\ fds = [] /\ be_q b = be_q instance_zero.
Proof.
  pose proof (setup_backend_fails (ex_benv (-1)) SRING TYPE_TAP 0 instance_zero (mk_netif None None 0 0)) as H.
  destruct (setup_backend_all _ _ _ _ _ _) as [[[ret b] nb] fds] eqn:E.
  assert (ret = -1) as -> by (apply (f_equal (fun r => fst (fst (fst r)))) in E; vm_compute in E; by rewrite E).
  assert (fds = []) as -> by (apply (f_equal snd) in E; vm_compute in E; by rewrite E).
  assert (Hu : upgrade_fd b = 0) by (apply (f_equal (fun r => upgrade_fd (snd (fst (fst r))))) in E; vm_compute in E; by rewrite E).
  split; [reflexivity|]. split; [reflexivity|]. destruct H as [[H _]|[_ [H _]]]; [done|exact H|by rewrite Hu in H].
Defined.

Definition ex_message : incoming :=
  example_msg REQ_SET_PARAMETERS 16 [] (mk_payload 0 (mk_params 1 1 256 512) 1 (repeat (mk_pregion 0x1000 0x100000 0 0) 8) 0 0x1000).


Lemma server_high_descriptor_witness : serve_events example_os true (fun p => p) server_start [Connect 512; Message 512 ex_message 20] = None.
Proof.
  destruct (server_high_descriptor example_os true (fun p => p) 512 ex_message 20) as (sv & H1 & _ & H2); [by vm_compute..|].
  cbn [serve_events]. rewrite H1. unfold mbind, option_bind. by rewrite H2.
Defined.

Definition ex_two : system :=
  mk_system [set_running 1 instance_zero; set_running 1 instance_zero] [true; true] (mk_batch 1 BPFHV_STOPFD_NOEVENT 2 2) [].

Lemma sigint_stops_half_witness : running <$> s_be (sigint_handler example_os (fun p => p) ex_two) = [0; 1] /\
  th_running (s_bc (sigint_handler example_os (fun p => p) ex_two)) = 0.
Proof.
  split; [by vm_compute|]. apply (sigint_stops_half example_os (fun p => p) ex_two 2); try done; [simpl; lia|].
  constructor; [done|]. constructor; [done|constructor].
Defined.
