(* ===== verification/Rr.v ===== *)
(** * The deficit round robin scheduler

    sched16/dn_sched_rr.c: the queues with packets are in a circular linked
    list; the queue at the head sends while its credit lasts, gets its quantum
    and makes way for the next one.

    [Rr] is the code, on a store of queues linked by address; the rest shows
    that the list is represented faithfully, that dequeuing ends and is work
    conserving, and that the service is fair. *)

From stdpp Require Import gmap.
From S2P Require Import Prelude Sched.
Import DnQueue SchedMain.
Open Scope Z_scope.

Module Rr.

(** ** State *)

Record rr_queue := mk_rrq { rq : dn_queue; status : Z; credit : Z; quantum : Z; qnext : Z }.
#[export] Instance rr_queue_inhabited : Inhabited rr_queue := populate (mk_rrq dnq_zero 0 0 0 0).

Record rr_si := mk_si { si_head : Z; si_tail : Z; q_tot : Z }.

(** The queues by address, and the scheduler instance. *)
Record rr := mk_rr { queues : gmap Z rr_queue; si : rr_si }.

Definition getq (s : rr) (q : Z) : rr_queue := queues s !!! q.
Definition setq (q : Z) (x : rr_queue) (s : rr) : rr := mk_rr (<[q := x]> (queues s)) (si s).
Definition set_si (x : rr_si) (s : rr) : rr := mk_rr (queues s) x.

Definition set_status v q := mk_rrq (rq q) v (credit q) (quantum q) (qnext q).
Definition set_credit v q := mk_rrq (rq q) (status q) v (quantum q) (qnext q).
Definition set_qnext v q := mk_rrq (rq q) (status q) (credit q) (quantum q) v.
Definition set_rq v q := mk_rrq v (status q) (credit q) (quantum q) (qnext q).

Definition put_head v s := set_si (mk_si v (si_tail (si s)) (q_tot (si s))) s.
Definition put_tail v s := set_si (mk_si (si_head (si s)) v (q_tot (si s))) s.
Definition put_qtot v s := set_si (mk_si (si_head (si s)) (si_tail (si s)) v) s.

(** ** The circular list *)

Definition rr_append (q : Z) (s : rr) : rr :=
  let s := setq q (set_status 1 (getq s q)) s in
  let s := setq q (set_credit (quantum (getq s q)) (getq s q)) s in
  let s := put_qtot (u64 (q_tot (si s) + quantum (getq s q))) s in
  let s := if si_head (si s) =? 0 then put_head q s
           else setq (si_tail (si s)) (set_qnext q (getq s (si_tail (si s)))) s in
  let s := put_tail q s in
  setq q (set_qnext (si_head (si s)) (getq s q)) s.

Definition rr_remove_head (s : rr) : rr :=
  let h := si_head (si s) in
  if h =? 0 then s
  else
    let s := setq h (set_status 0 (getq s h)) s in
    let s := put_qtot (u64 (q_tot (si s) - quantum (getq s h))) s in
    if h =? si_tail (si s) then put_tail 0 (put_head 0 s)
    else
      let s := put_head (qnext (getq s h)) s in
      setq (si_tail (si s)) (set_qnext (si_head (si s)) (getq s (si_tail (si s)))) s.

(** The loop of [remove_queue_q]; [None] when the fuel is used up. *)
Fixpoint remove_loop (fuel : nat) (q prev : Z) (s : rr) : option rr :=
  match fuel with
  | O => None
  | S fuel' =>
      if prev =? 0 then Some s
      else if negb (qnext (getq s prev) =? q) then remove_loop fuel' q (qnext (getq s prev)) s
      else
        let s := setq prev (set_qnext (qnext (getq s q)) (getq s prev)) s in
        let s := if q =? si_tail (si s) then put_tail prev s else s in
        Some (setq q (set_status 0 (getq s q)) s)
  end.

Definition remove_queue_q (q : Z) (s : rr) : option rr :=
  if negb (status (getq s q) =? 1) then Some s
  else if q =? si_head (si s) then Some (rr_remove_head s)
  else remove_loop (S (size (queues s))) q (si_head (si s)) s.

Definition next_pointer (s : rr) : rr :=
  if si_head (si s) =? 0 then s
  else
    let s := put_head (qnext (getq s (si_head (si s)))) s in
    put_tail (qnext (getq s (si_tail (si s)))) s.

(** ** The callbacks *)

(** [rr_enqueue(si, q, m)]. *)
Definition rr_enqueue (s : rr) (q : Z) (m : mbuf) : Z * rr :=
  let idle s := if status (getq s q) =? 1 then (0, s) else (0, rr_append q s) in
  if negb (is_head (rq (getq s q)) m) then
    let '(ret, dq) := dn_enqueue (rq (getq s q)) m in
    let s := setq q (set_rq dq (getq s q)) s in
    if z2b ret then (1, s)
    else if negb (is_head (rq (getq s q)) m) then (0, s)
    else idle s
  else idle s.

(** The loop of [rr_dequeue]; [None] when the fuel is used up. *)
Fixpoint rr_dequeue_loop (fuel : nat) (s : rr) : option (option mbuf * rr) :=
  match fuel with
  | O => None
  | S fuel' =>
      let h := si_head (si s) in
      if h =? 0 then Some (None, s)
      else
        match q_pkts (rq (getq s h)) with
        | [] => rr_dequeue_loop fuel' (rr_remove_head s)
        | m :: _ =>
            if credit (getq s h) <? m_len m then
              let s := setq h (set_credit (u32 (credit (getq s h) + quantum (getq s h))) (getq s h)) s in
              rr_dequeue_loop fuel' (next_pointer s)
            else
              let s := setq h (set_credit (u32 (credit (getq s h) - m_len m)) (getq s h)) s in
              let '(o, dq) := dn_dequeue (rq (getq s h)) in
              Some (o, setq h (set_rq dq (getq s h)) s)
        end
  end.

(** [struct rr_schk] and [rr_config]. *)
Record rr_schk := mk_schk { min_q : Z; max_q : Z; q_bytes : Z }.
Definition rr_config : rr_schk := mk_schk 60 2048 1500.

Definition rr_new_sched (s : rr) : rr := put_tail 0 (put_head 0 s).

(** [rr_new_fsk]: the weight and the quantum step of a flowset. *)
Definition rr_new_fsk (schk : rr_schk) (par0 par1 : Z) : Z * Z :=
  (ipdn_bound_var par0 1 1 65536, ipdn_bound_var par1 (q_bytes schk) (min_q schk) (max_q schk)).

Definition rr_new_queue (s : rr) (q par0 par1 : Z) : rr :=
  let quantum := u64 (u64 par0 * par1) in
  let quantum := if 2 ^ 32 <=? quantum then 2 ^ 32 - 1 else quantum in
  let x := getq s q in
  let s := setq q (mk_rrq (rq x) 0 quantum quantum (qnext x)) s in
  match q_pkts (rq x) with [] => s | _ => rr_append q s end.

Definition rr_free_queue (s : rr) (q : Z) : option rr :=
  if status (getq s q) =? 1 then remove_queue_q q s else Some s.

(** Turns that are enough for [rr_dequeue]: one for every queue of the list,
    and for a queue whose packet is too big one for every byte missing. *)
Definition rr_need (q : rr_queue) : Z :=
  match q_pkts (rq q) with [] => 1 | m :: _ => 1 + Z.max 0 (m_len m - credit q) end.
Definition rr_fuel (s : rr) : nat := Z.to_nat (1 + map_fold (fun _ q a => rr_need q + a) 0 (queues s)).

Definition rr_dequeue (s : rr) : option mbuf * rr :=
  match rr_dequeue_loop (rr_fuel s) s with Some r => r | None => (None, s) end.

#[export] Instance rr_desc : DnAlg rr := {|
  alg_enqueue s m := rr_enqueue s (FI2Q (m_flow m)) m;
  alg_dequeue := rr_dequeue;
|}.

End Rr.
Import Rr.

(** ** The list that the links represent *)

(** From [x] the links lead through [l] to [z]. *)
Fixpoint path (nx : Z -> Z) (x : Z) (l : list Z) (z : Z) : Prop :=
  match l with [] => x = z | a :: l' => x = a /\ path nx (nx a) l' z end.

Lemma path_app nx x l1 l2 z : path nx x (l1 ++ l2) z <-> exists y, path nx x l1 y /\ path nx y l2 z.
Proof.
  revert x. induction l1 as [|a l1 IH]; intros x; simpl; [split; [eauto|by intros (? & -> & ?)]|].
  rewrite IH. split; [intros (-> & y & ? & ?); eauto|intros (y & [-> ?] & ?); eauto].
Qed.

Lemma path_ext nx nx' x l z : (forall a, a ∈ l -> nx' a = nx a) -> path nx x l z -> path nx' x l z.
Proof.
  revert x. induction l as [|a l IH]; intros x H; simpl; [done|]. intros [-> Hp]. split; [done|].
  rewrite H by (by left). apply IH; [|done]. intros b Hb. apply H. by right.
Qed.

Definition nx (s : rr) (a : Z) : Z := qnext (getq s a).

(** The circular list of [s] is [l], from the head on. *)
Record ring (s : rr) (l : list Z) : Prop := {
  rg_nodup : NoDup l;
  rg_queue : forall a, a ∈ l -> a <> 0 /\ is_Some (queues s !! a);
  rg_status : forall a, is_Some (queues s !! a) -> status (getq s a) = if bool_decide (a ∈ l) then 1 else 0;
  rg_path : match l with [] => si_head (si s) = 0 | a :: _ => path (nx s) a l a /\ si_head (si s) = a end;
  rg_tail : match list.last l with Some t => si_tail (si s) = t | None => True end;
}.

#[local] Arguments getq : simpl never.
#[local] Arguments setq : simpl never.
#[local] Arguments set_si : simpl never.

Lemma getq_setq q x s a : getq (setq q x s) a = if decide (a = q) then x else getq s a.
Proof.
  unfold getq, setq. simpl. rewrite !lookup_total_alt. case_decide as E.
  - rewrite E, lookup_insert_eq. done.
  - by rewrite lookup_insert_ne.
Qed.

Lemma getq_set_si x s a : getq (set_si x s) a = getq s a.
Proof. done. Qed.

Lemma si_setq q x s : si (setq q x s) = si s.
Proof. done. Qed.

Lemma si_set_si x s : si (set_si x s) = x.
Proof. done. Qed.

(** Compute the queues and the instance after a sequence of assignments. *)
Ltac rr_get :=
  unfold put_head, put_tail, put_qtot in *;
  repeat (progress (rewrite ?getq_setq, ?getq_set_si, ?si_setq, ?si_set_si; simpl;
    repeat match goal with H : (?a =? ?b) = _ |- context [?a =? ?b] => rewrite H; simpl end));
  repeat first [done | case_decide; simplify_eq/=].

Lemma is_Some_setq q x s a :
  is_Some (queues s !! q) -> is_Some (queues (setq q x s) !! a) <-> is_Some (queues s !! a).
Proof.
  intros Hq. simpl. destruct (decide (a = q)) as [->|Hne].
  - rewrite lookup_insert_eq. done.
  - by rewrite lookup_insert_ne.
Qed.

(** The part of a queue that is not about the list. *)
Definition same_data (s s' : rr) (a : Z) : Prop :=
  rq (getq s' a) = rq (getq s a) /\ quantum (getq s' a) = quantum (getq s a) /\ credit (getq s' a) = credit (getq s a).

Definition same_queues (s s' : rr) : Prop := forall a, is_Some (queues s' !! a) <-> is_Some (queues s !! a).

Lemma same_queues_trans s1 s2 s3 : same_queues s1 s2 -> same_queues s2 s3 -> same_queues s1 s3.
Proof. intros H1 H2 a. rewrite (H2 a). apply H1. Qed.

Lemma queues_setq s0 s q x : same_queues s0 s -> is_Some (queues s0 !! q) -> same_queues s0 (setq q x s).
Proof.
  intros Hs Hq a. unfold setq. simpl. destruct (decide (a = q)) as [->|Hne].
  - rewrite lookup_insert_eq. done.
  - rewrite lookup_insert_ne by done. apply Hs.
Qed.

Lemma queues_set_si s0 s x : same_queues s0 s -> same_queues s0 (set_si x s).
Proof. done. Qed.

Lemma queues_refl s : same_queues s s.
Proof. done. Qed.

Ltac keep_queues :=
  unfold put_head, put_tail, put_qtot;
  repeat first [apply queues_setq; [|done] | apply queues_set_si | apply queues_refl].

Lemma ring_tail_in s l : ring s l -> l <> [] -> si_tail (si s) ∈ l.
Proof.
  intros Hr Hne. pose proof (rg_tail _ _ Hr) as Ht. destruct (list.last l) as [t|] eqn:E.
  - rewrite Ht. by apply last_Some_elem_of.
  - by apply last_None in E.
Qed.

Lemma ring_head_0 s l : ring s l -> si_head (si s) = 0 <-> l = [].
Proof.
  intros [_ Hq _ Hp _]. destruct l as [|a l]; [done|]. destruct Hp as [_ ->]. split; [|done].
  intros ->. by destruct (Hq 0) as [? _]; [left|].
Qed.

(** Changing the data of the queues keeps the list. *)
Lemma ring_data s s' l :
  ring s l -> si_head (si s') = si_head (si s) -> si_tail (si s') = si_tail (si s) -> same_queues s s' ->
  (forall a, qnext (getq s' a) = qnext (getq s a) /\ status (getq s' a) = status (getq s a)) -> ring s' l.
Proof.
  intros [H1 H2 H3 H4 H5] Hh Ht Hs Hd. constructor; [done| | | |by rewrite Ht].
  - intros a Ha. rewrite (Hs a). by apply H2.
  - intros a Ha. rewrite (proj2 (Hd a)). apply H3. by rewrite <- (Hs a).
  - rewrite Hh. destruct l as [|a l]; [done|]. destruct H4 as [H4 ->]. split; [|done].
    apply (path_ext (nx s)); [|done]. intros b _. unfold nx. apply Hd.
Qed.

(** *** Appending *)

Lemma getq_append s q a :
  si_head (si s) = 0 \/ si_tail (si s) <> q ->
  getq (rr_append q s) a =
    if decide (a = q) then
      mk_rrq (rq (getq s q)) 1 (quantum (getq s q)) (quantum (getq s q))
        (if si_head (si s) =? 0 then q else si_head (si s))
    else if negb (si_head (si s) =? 0) && bool_decide (a = si_tail (si s)) then set_qnext q (getq s a)
    else getq s a.
Proof.
  intros Ht. unfold rr_append. unfold put_head, put_tail, put_qtot. rewrite !si_setq.
  destruct (si_head (si s) =? 0) eqn:Eh; simpl.
  - rr_get.
  - apply Z.eqb_neq in Eh as Eh'. destruct Ht as [Ht|Ht]; [done|]. case_bool_decide; rr_get.
Qed.

Lemma si_append s q :
  si_head (si (rr_append q s)) = (if si_head (si s) =? 0 then q else si_head (si s)) /\ si_tail (si (rr_append q s)) = q.
Proof. unfold rr_append. destruct (si_head (si s) =? 0) eqn:Eh; rr_get; split; rr_get. Qed.

Lemma append_queues s q :
  is_Some (queues s !! q) -> is_Some (queues s !! si_tail (si s)) \/ si_head (si s) = 0 -> same_queues s (rr_append q s).
Proof.
  intros Hq Ht. unfold rr_append. cbv zeta. destruct (si_head (si s) =? 0) eqn:Eh.
  - rewrite !si_setq. unfold put_qtot. rewrite si_set_si. simpl. rewrite Eh. keep_queues.
  - rewrite !si_setq. unfold put_qtot. rewrite si_set_si. simpl. rewrite Eh.
    apply Z.eqb_neq in Eh. destruct Ht as [Ht|Ht]; [|done]. keep_queues.
Qed.

Lemma append_ring s l q :
  ring s l -> q ∉ l -> q <> 0 -> is_Some (queues s !! q) ->
  ring (rr_append q s) (l ++ [q]) /\ same_queues s (rr_append q s) /\
  (forall a, a <> q -> same_data s (rr_append q s) a) /\
  rq (getq (rr_append q s) q) = rq (getq s q) /\ quantum (getq (rr_append q s) q) = quantum (getq s q) /\
  credit (getq (rr_append q s) q) = quantum (getq s q).
Proof.
  intros Hr Hnew Hq0 Hq. pose proof (ring_head_0 s l Hr) as Hh0.
  assert (Ht : si_head (si s) = 0 \/ si_tail (si s) <> q).
  { destruct l as [|a l]; [left; by apply Hh0|right]. intros <-. by apply Hnew, (ring_tail_in s _ Hr). }
  assert (Hsq : same_queues s (rr_append q s)).
  { apply append_queues; [done|]. destruct l as [|a l]; [right; by apply Hh0|left].
    apply (rg_queue _ _ Hr), ring_tail_in; done. }
  destruct (si_append s q) as [Hhd Htl].
  split_and!; try done; try (rewrite getq_append by done; by rewrite decide_True by done).
  2:{ intros a Hne. unfold same_data. rewrite getq_append, decide_False by done. by destruct (_ && _). }
  destruct Hr as [HN Hqs Hst Hp Htail]. constructor.
  - apply list.NoDup_app. split_and!; [done| |apply NoDup_singleton]. intros x Hx ->%list_elem_of_singleton. done.
  - intros a [Ha| ->%list_elem_of_singleton]%elem_of_app; rewrite (Hsq _); [by apply Hqs|done].
  - intros a Ha. rewrite (Hsq _) in Ha. rewrite getq_append by done. case_decide as E.
    + subst a. rewrite bool_decide_true; [done|]. apply elem_of_app. right. by left.
    + transitivity (status (getq s a)); [by destruct (_ && _)|]. rewrite (Hst a Ha).
      rewrite (bool_decide_ext (a ∈ l ++ [q]) (a ∈ l)); [done|]. rewrite elem_of_app, list_elem_of_singleton. tauto.
  - destruct l as [|h l].
    + rewrite Hp in Hhd. simpl in Hhd. simpl. split; [|done]. split; [done|]. unfold nx.
      rewrite getq_append, decide_True by done. simpl. by rewrite Hp.
    + destruct Hp as [Hp Hh]. assert (h <> 0) as Hh0' by (apply Hqs; by left).
      rewrite Hh in Hhd. rewrite (proj2 (Z.eqb_neq h 0) Hh0') in Hhd. simpl app. split; [|done].
      assert (Hl : exists l0, h :: l = l0 ++ [si_tail (si s)]).
      { destruct (list.last (h :: l)) as [t|] eqn:El; [|by apply last_None in El].
        apply last_Some in El as [l0 El]. exists l0. by rewrite El, Htail. }
      destruct Hl as [l0 Hl]. set (t := si_tail (si s)) in *. change (h :: l ++ [q]) with ((h :: l) ++ [q]).
      rewrite Hl in *. rewrite <- app_assoc. apply path_app. apply path_app in Hp as (y & Hp1 & Hp2).
      simpl in Hp2. destruct Hp2 as [-> Hp2]. exists t. split.
      * apply (path_ext (nx s)); [|done]. intros a Ha. unfold nx. rewrite getq_append by done.
        assert (a <> q) by (intros ->; apply Hnew, elem_of_app; by left).
        assert (a <> t) by (intros ->; apply list.NoDup_app in HN as (_ & HN & _); apply (HN t Ha); by left).
        rewrite decide_False, (bool_decide_false (a = t)), andb_false_r by done. done.
      * simpl. split; [done|]. unfold nx. assert (t <> q) by (destruct Ht; congruence).
        rewrite getq_append, decide_False, (bool_decide_true (t = si_tail (si s))) by done.
        rewrite Hh, (proj2 (Z.eqb_neq h 0) Hh0'). simpl. split; [done|].
        rewrite getq_append, decide_True by done. simpl. by rewrite Hh, (proj2 (Z.eqb_neq h 0) Hh0').
  - rewrite last_snoc. done.
Qed.

(** *** Removing the head *)

Lemma getq_remove_head s a :
  si_head (si s) <> 0 ->
  getq (rr_remove_head s) a =
    if decide (a = si_head (si s)) then set_status 0 (getq s a)
    else if negb (si_head (si s) =? si_tail (si s)) && bool_decide (a = si_tail (si s))
      then set_qnext (nx s (si_head (si s))) (getq s a)
    else getq s a.
Proof.
  intros Hh. unfold rr_remove_head, nx. apply Z.eqb_neq in Hh as Eh. rewrite Eh.
  destruct (si_head (si s) =? si_tail (si s)) eqn:Et; rr_get.
  apply Z.eqb_neq in Et. congruence.
Qed.

Lemma si_remove_head s :
  si_head (si s) <> 0 ->
  si_head (si (rr_remove_head s)) =
    (if si_head (si s) =? si_tail (si s) then 0 else nx s (si_head (si s))) /\
  si_tail (si (rr_remove_head s)) = (if si_head (si s) =? si_tail (si s) then 0 else si_tail (si s)).
Proof.
  intros Hh. unfold rr_remove_head, nx. apply Z.eqb_neq in Hh as Eh. rewrite Eh.
  destruct (si_head (si s) =? si_tail (si s)) eqn:Et; rr_get.
Qed.

Lemma remove_head_queues s l : ring s l -> same_queues s (rr_remove_head s).
Proof.
  intros Hr. unfold rr_remove_head. destruct (Z.eqb_spec (si_head (si s)) 0) as [E|E]; [keep_queues|].
  assert (Hne : l <> []) by (by rewrite <- (ring_head_0 s l Hr)).
  assert (Hh : is_Some (queues s !! si_head (si s))).
  { apply (rg_queue _ _ Hr). pose proof (rg_path _ _ Hr). destruct l as [|a l]; [done|].
    destruct (rg_path _ _ Hr) as [_ ->]. by left. }
  pose proof (proj2 (rg_queue _ _ Hr _ (ring_tail_in _ _ Hr Hne))) as Ht.
  cbv zeta. rewrite ?si_setq. unfold put_qtot. rewrite si_set_si. simpl. case_if; keep_queues.
Qed.

Lemma remove_head_data s l a : ring s l -> same_data s (rr_remove_head s) a.
Proof.
  intros Hr. destruct (decide (si_head (si s) = 0)) as [E|E].
  - unfold rr_remove_head. by rewrite E.
  - unfold same_data. rewrite getq_remove_head by done. case_decide; [done|]. by destruct (_ && _).
Qed.

Lemma remove_head_ring s h l : ring s (h :: l) -> ring (rr_remove_head s) l.
Proof.
  intros Hr. pose proof (remove_head_queues s _ Hr) as Hsq. destruct Hr as [HN Hqs Hst [Hp Hh] Htail].
  assert (h <> 0) as Hh0 by (apply Hqs; by left). rewrite <- Hh in Hh0.
  apply list.NoDup_cons in HN as [Hhl HN]. destruct (si_remove_head s Hh0) as [Hhd Htl]. rewrite Hh in *.
  constructor; [done| | | |].
  - intros a Ha. rewrite (Hsq a). apply Hqs. by right.
  - intros a Ha. rewrite (Hsq a) in Ha. rewrite getq_remove_head, Hh by (by rewrite Hh). case_decide as E.
    + subst a. by rewrite bool_decide_false.
    + transitivity (status (getq s a)); [by destruct (_ && _)|]. rewrite (Hst a Ha).
      rewrite (bool_decide_ext (a ∈ h :: l) (a ∈ l)); [done|]. rewrite elem_of_cons. tauto.
  - destruct l as [|b l]; [simpl in Htail; by rewrite Htail, Z.eqb_refl in Hhd|].
    rewrite last_cons_cons in Htail. destruct (list.last (b :: l)) as [t|] eqn:El; [|by apply last_None in El].
    apply last_Some in El as El'. destruct El' as [l0 El'].
    assert (Htin : t ∈ b :: l) by (rewrite El'; apply elem_of_app; right; by left).
    assert (Hht : h <> t) by (intros ->; done). rewrite Htail in *. rewrite (proj2 (Z.eqb_neq h t) Hht) in *.
    simpl in Hp. destruct Hp as (_ & Hb & Hp). split; [|by rewrite Hhd].
    assert (Hp' : path (nx s) b (b :: l) h) by done. rewrite El' in Hp', HN, Hhl |- *.
    apply path_app in Hp' as (y & Hp1 & [-> Hp2]). apply path_app. exists t.
    assert (Hnx : forall a, nx (rr_remove_head s) a = if decide (a = t) then b else nx s a).
    { intros a. unfold nx at 1. rewrite getq_remove_head, Hh, Htail by (by rewrite Hh).
      rewrite (proj2 (Z.eqb_neq h t) Hht), Hb. case_decide as E1; [subst a; by rewrite decide_False|].
      case_decide as E2; [by rewrite bool_decide_true|by rewrite bool_decide_false]. }
    split; [|simpl; rewrite Hnx, decide_True by done; done].
    apply (path_ext (nx s)); [|done]. intros a Ha. rewrite Hnx, decide_False; [done|]. intros ->.
    apply list.NoDup_app in HN as (_ & HN & _). apply (HN t Ha). by left.
  - rewrite Htl. destruct l as [|b l]; [done|]. rewrite last_cons_cons in Htail.
    destruct (list.last (b :: l)) as [t|] eqn:El; [|done].
    assert (h <> si_tail (si s)) as Hht by (rewrite Htail; intros ->; apply Hhl; by apply last_Some_elem_of).
    by rewrite (proj2 (Z.eqb_neq _ _) Hht).
Qed.

(** *** Rotating *)

Lemma path_last nx x l t z : path nx x (l ++ [t]) z -> nx t = z.
Proof. intros (y & _ & -> & H)%path_app. done. Qed.

Lemma next_pointer_ring s h l : ring s (h :: l) -> ring (next_pointer s) (l ++ [h]).
Proof.
  intros [HN Hqs Hst [Hp Hh] Htail].
  assert (h <> 0) as Hh0 by (apply Hqs; by left).
  assert (Hg : forall a, getq (next_pointer s) a = getq s a) by (intros a; unfold next_pointer; by case_if).
  assert (Hq : queues (next_pointer s) = queues s) by (unfold next_pointer; by case_if).
  assert (Hsi : si_head (si (next_pointer s)) = nx s h /\ si_tail (si (next_pointer s)) = h).
  { unfold next_pointer. rewrite Hh, (proj2 (Z.eqb_neq _ _) Hh0). rr_get. split; [done|].
    destruct (list.last (h :: l)) as [t|] eqn:El; [|by apply last_None in El].
    apply last_Some in El as [l0 El]. rewrite El in Hp. rewrite Htail. by apply path_last in Hp. }
  destruct Hsi as [Hhd Htl].
  constructor.
  - rewrite <- (Permutation_cons_append l h). done.
  - intros a Ha. rewrite Hq. apply Hqs. by rewrite (Permutation_cons_append l h).
  - intros a Ha. rewrite Hq in Ha. rewrite Hg, (Hst a Ha). apply (f_equal (fun b : bool => if b then 1 else 0)).
    apply bool_decide_ext. by rewrite (Permutation_cons_append l h).
  - assert (Hp' : path (nx (next_pointer s)) (nx s h) (l ++ [h]) (nx s h)).
    { apply (path_ext (nx s)); [intros a _; unfold nx; by rewrite Hg|].
      destruct Hp as [_ Hp]. apply path_app. exists h. split; [done|]. simpl. done. }
    rewrite Hhd. destruct l as [|b l]; simpl in *; destruct Hp' as [-> Hp']; done.
  - by rewrite last_snoc.
Qed.

(** *** Removing a queue wherever it is *)

(** [q] is taken out of the list after [p]. *)
Definition unlink (q p : Z) (s : rr) : rr :=
  let s := setq p (set_qnext (qnext (getq s q)) (getq s p)) s in
  let s := if q =? si_tail (si s) then put_tail p s else s in
  setq q (set_status 0 (getq s q)) s.

Lemma remove_loop_finds s q z l2 m : forall a fuel,
  path (nx s) a (a :: m ++ q :: l2) z -> q ∉ a :: m -> (forall x, x ∈ a :: m -> x <> 0) -> (length m < fuel)%nat ->
  exists p m0, a :: m = m0 ++ [p] /\ remove_loop fuel q a s = Some (unlink q p s).
Proof.
  induction m as [|b m IH]; intros a fuel Hp Hq H0 Hf; (destruct fuel as [|fuel]; [simpl in *; lia|]);
    assert (a <> 0) as Ha by (apply H0; by left); simpl; rewrite (proj2 (Z.eqb_neq _ _) Ha).
  - destruct Hp as (_ & Hn & _). unfold nx in Hn. rewrite Hn, Z.eqb_refl. exists a, []. done.
  - destruct Hp as (_ & Hn & Hp). fold (nx s a). rewrite Hn.
    assert (b <> q) as Hbq by (intros ->; apply Hq; right; left).
    rewrite (proj2 (Z.eqb_neq _ _) Hbq). simpl. destruct (IH b fuel) as (p & m0 & -> & Hr).
    + done.
    + intros Hin. apply Hq. by right.
    + intros x Hx. apply H0. by right.
    + simpl in Hf. lia.
    + exists p, (a :: m0). done.
Qed.

Lemma ring_size s l : ring s l -> (length l <= size (queues s))%nat.
Proof.
  intros [HN Hqs _ _ _]. rewrite <- (size_dom (D := gset Z)). rewrite <- (size_list_to_set (C := gset Z) l HN).
  apply subseteq_size. intros a Ha%elem_of_list_to_set. by apply elem_of_dom, Hqs.
Qed.

Lemma getq_unlink s q p a :
  p <> q -> getq (unlink q p s) a =
    if decide (a = q) then set_status 0 (getq s q)
    else if decide (a = p) then set_qnext (nx s q) (getq s p) else getq s a.
Proof. intros Hne. unfold unlink, nx. rewrite si_setq. case_if; rr_get. Qed.

Lemma si_unlink s q p :
  si_head (si (unlink q p s)) = si_head (si s) /\
  si_tail (si (unlink q p s)) = (if q =? si_tail (si s) then p else si_tail (si s)) /\
  q_tot (si (unlink q p s)) = q_tot (si s).
Proof. unfold unlink. rewrite si_setq. destruct (q =? si_tail (si s)) eqn:E; split_and!; rr_get. Qed.

Lemma unlink_queues s q p : is_Some (queues s !! q) -> is_Some (queues s !! p) -> same_queues s (unlink q p s).
Proof. intros Hq Hp. unfold unlink. cbv zeta. case_if; keep_queues. Qed.

Lemma unlink_data s q p a : p <> q -> same_data s (unlink q p s) a.
Proof. intros Hne. unfold same_data. rewrite getq_unlink by done. repeat case_decide; simplify_eq; done. Qed.

Lemma unlink_ring s q p m0 l2 :
  ring s (m0 ++ p :: q :: l2) -> ring (unlink q p s) (m0 ++ p :: l2).
Proof.
  intros Hr. assert (Hin : q ∈ m0 ++ p :: q :: l2 /\ p ∈ m0 ++ p :: q :: l2).
  { split; apply elem_of_app; right; [right|]; by left. }
  destruct Hr as [HN Hqs Hst Hpath Htail]. pose proof (Hqs q (proj1 Hin)) as [Hq0 Hq].
  pose proof (Hqs p (proj2 Hin)) as [Hp0 Hp].
  assert (HN2 : NoDup (q :: m0 ++ p :: l2)).
  { eapply NoDup_Permutation_proper; [|exact HN]. by rewrite (Permutation_app_comm m0), (Permutation_app_comm m0), (Permutation_swap q p). }
  apply list.NoDup_cons in HN2 as [Hnq HN2].
  assert (p <> q) as Hpq by (intros ->; apply Hnq, elem_of_app; right; by left).
  pose proof (unlink_queues s q p Hq Hp) as Hsq. destruct (si_unlink s q p) as (Hhd & Htl & _).
  assert (HM : forall x, x ∈ m0 ++ p :: q :: l2 <-> x = q \/ x ∈ m0 ++ p :: l2).
  { intros x. rewrite !elem_of_app, !elem_of_cons. tauto. }
  constructor; [done| | | |].
  - intros a Ha. rewrite (Hsq a). apply Hqs, HM. by right.
  - intros a Ha. rewrite (Hsq a) in Ha. rewrite getq_unlink by done. case_decide as E1.
    + subst a. by rewrite bool_decide_false.
    + transitivity (status (getq s a)); [by case_decide; subst|]. rewrite (Hst a Ha).
      apply (f_equal (fun b : bool => if b then 1 else 0)), bool_decide_ext. rewrite HM. tauto.
  - assert (Hgo : forall h, path (nx s) h (m0 ++ p :: q :: l2) h -> path (nx (unlink q p s)) h (m0 ++ p :: l2) h).
    { intros h (y & Hp1 & -> & Hn & Hp2)%path_app. apply path_app. exists p.
      assert (Hnx : forall a, a <> q -> a <> p -> nx (unlink q p s) a = nx s a).
      { intros a H1 H2. unfold nx. by rewrite getq_unlink, !decide_False by done. }
      apply list.NoDup_app in HN2 as (HNa & HNd & [HNp HNb]%list.NoDup_cons).
      split; [apply (path_ext (nx s)); [|done]; intros a Ha; apply Hnx; intros ->|split; [done|]].
      - apply Hnq, elem_of_app. by left.
      - apply (HNd p Ha). by left.
      - replace (nx (unlink q p s) p) with (nx s q).
        2:{ unfold nx at 2. by rewrite getq_unlink, decide_False, decide_True by done. }
        apply (path_ext (nx s)); [|done]. intros a Ha. apply Hnx; intros ->; [|done].
        apply Hnq, elem_of_app. right. by right. }
    rewrite Hhd. destruct m0 as [|h m0]; simpl in *; (destruct Hpath as [Hpath ->]; split; [|done]); by apply Hgo.
  - rewrite Htl. rewrite last_app_cons in *. destruct l2 as [|b l2].
    + simpl in *. by rewrite Htail, Z.eqb_refl.
    + rewrite !last_cons_cons in *. destruct (list.last (b :: l2)) as [t|] eqn:El; [|done].
      rewrite Htail. rewrite (proj2 (Z.eqb_neq q t)); [done|]. intros ->. apply Hnq, elem_of_app. right. right.
      by apply last_Some_elem_of.
Qed.

(** Removing a queue from the circular list, wherever it is, takes it out
    of the list and leaves the other queues in their order; the search ends.
    The total of the quantums goes down only when the queue is the head. *)
Theorem remove_queue_q_removes s l1 q l2 :
  ring s (l1 ++ q :: l2) ->
  exists s', remove_queue_q q s = Some s' /\ ring s' (l1 ++ l2) /\ same_queues s s' /\
    (forall a, same_data s s' a) /\
    q_tot (si s') = match l1 with [] => u64 (q_tot (si s) - quantum (getq s q)) | _ => q_tot (si s) end.
Proof.
  intros Hr. assert (Hin : q ∈ l1 ++ q :: l2) by (apply elem_of_app; right; by left).
  pose proof (rg_queue _ _ Hr q Hin) as [Hq0 Hq]. unfold remove_queue_q.
  rewrite (rg_status _ _ Hr q Hq), bool_decide_true by done. change (negb (1 =? 1)) with false. cbv iota.
  destruct l1 as [|h l1]; simpl app in *; pose proof (rg_path _ _ Hr) as [Hp Hh]; rewrite Hh.
  - rewrite Z.eqb_refl. eexists. split; [done|]. split_and!.
    + by eapply remove_head_ring.
    + by eapply remove_head_queues.
    + intros a. by eapply remove_head_data.
    + unfold rr_remove_head. rewrite Hh, (proj2 (Z.eqb_neq _ _) Hq0). cbv zeta. case_if; rr_get.
  - pose proof (rg_nodup _ _ Hr) as HN. change (h :: l1 ++ q :: l2) with ((h :: l1) ++ q :: l2) in HN.
    apply list.NoDup_app in HN as (HN1 & HNd & HN2).
    assert (Hnq : q ∉ h :: l1) by (intros Hx; apply (HNd q Hx); by left).
    rewrite (proj2 (Z.eqb_neq q h)) by (intros ->; apply Hnq; by left).
    pose proof (ring_size _ _ Hr) as Hsz. simpl in Hsz. rewrite length_app in Hsz.
    destruct (remove_loop_finds s q h l2 l1 h (S (size (queues s)))) as (p & m0 & Hm & ->); [done|done| |lia|].
    { intros x Hx. apply (rg_queue _ _ Hr). change (h :: l1 ++ q :: l2) with ((h :: l1) ++ q :: l2).
      apply elem_of_app. by left. }
    assert (p <> q) as Hpq by (intros ->; apply Hnq; rewrite Hm; apply elem_of_app; right; by left).
    exists (unlink q p s). change (h :: l1 ++ q :: l2) with ((h :: l1) ++ q :: l2) in Hr. rewrite Hm in Hr.
    rewrite <- app_assoc in Hr. simpl in Hr. split; [done|]. split_and!.
    + change (h :: l1 ++ l2) with ((h :: l1) ++ l2). rewrite Hm, <- app_assoc. by apply unlink_ring.
    + apply unlink_queues; [done|]. apply (rg_queue _ _ Hr), elem_of_app. right. by left.
    + intros a. by apply unlink_data.
    + apply si_unlink.
Qed.

(** ** The invariant *)

Definition pkt_ok (L : Z) (a : Z) (m : mbuf) : Prop := FI2Q (m_flow m) = a /\ 0 <= m_len m <= L.

(** A queue that holds packets of at most [L] bytes. *)
Record queue_ok (L : Z) (a : Z) (x : rr_queue) : Prop := {
  qo_dnq : dnq_ok (rq x);
  qo_pkts : Forall (pkt_ok L a) (q_pkts (rq x));
  qo_quantum : 1 <= quantum x <= 2 ^ 31;
  qo_credit : 0 <= credit x <= quantum x + L;
}.

Record rr_ok (L : Z) (s : rr) (l : list Z) : Prop := {
  ro_limit : 0 <= L < 2 ^ 31;
  ro_ring : ring s l;
  ro_queue : forall a, is_Some (queues s !! a) -> a <> 0 /\ queue_ok L a (getq s a);
  ro_busy : forall a, is_Some (queues s !! a) -> q_pkts (rq (getq s a)) <> [] -> a ∈ l;
}.

Definition same_rest (x y : rr_queue) : Prop := rq y = rq x /\ quantum y = quantum x.

Lemma queue_ok_keep L a x y :
  queue_ok L a x -> same_rest x y -> 0 <= credit y <= quantum y + L -> queue_ok L a y.
Proof. intros [H1 H2 H3 H4] [E1 E2] Hc. constructor; rewrite ?E1, ?E2 in *; done. Qed.

(** *** One turn of the loop of [rr_dequeue] *)

Definition grant (s : rr) : rr :=
  let h := si_head (si s) in
  next_pointer (setq h (set_credit (u32 (credit (getq s h) + quantum (getq s h))) (getq s h)) s).

Lemma drop_ok L s h l : rr_ok L s (h :: l) -> q_pkts (rq (getq s h)) = [] -> rr_ok L (rr_remove_head s) l.
Proof.
  intros [HL Hr Hqs Hb] He. pose proof (remove_head_queues _ _ Hr) as Hsq.
  assert (Hd : forall a, same_data s (rr_remove_head s) a) by (intros; by eapply remove_head_data).
  constructor; [done|by eapply remove_head_ring| |].
  - intros a Ha. rewrite (Hsq a) in Ha. destruct (Hqs a Ha) as [Ha0 Hq]. split; [done|].
    destruct (Hd a) as (E1 & E2 & E3). apply (queue_ok_keep L a (getq s a)); [done|done|]. rewrite E2, E3. apply Hq.
  - intros a Ha. rewrite (Hsq a) in Ha. rewrite (proj1 (Hd a)). intros Hne. specialize (Hb a Ha Hne).
    apply elem_of_cons in Hb as [->|]; done.
Qed.

Lemma getq_grant L s h l a :
  rr_ok L s (h :: l) -> (forall m rest, q_pkts (rq (getq s h)) = m :: rest -> credit (getq s h) < m_len m) ->
  q_pkts (rq (getq s h)) <> [] ->
  getq (grant s) a = if decide (a = h) then set_credit (credit (getq s h) + quantum (getq s h)) (getq s h) else getq s a.
Proof.
  intros [HL Hr Hqs _] Hc Hne. pose proof (rg_path _ _ Hr) as [_ Hh].
  destruct (rg_queue _ _ Hr h ltac:(by left)) as [Hh0 Hin]. destruct (Hqs h Hin) as [_ [_ Hp Hq Hcr]].
  destruct (q_pkts (rq (getq s h))) as [|m rest]; [done|]. specialize (Hc m rest eq_refl).
  apply list.Forall_cons in Hp as [[_ Hm] _]. unfold grant, next_pointer. rewrite si_setq, Hh, (proj2 (Z.eqb_neq _ _) Hh0).
  rewrite u32_id by (unfold is_u32; lia). rr_get.
Qed.

Lemma grant_ok L s h l :
  rr_ok L s (h :: l) -> (forall m rest, q_pkts (rq (getq s h)) = m :: rest -> credit (getq s h) < m_len m) ->
  q_pkts (rq (getq s h)) <> [] -> rr_ok L (grant s) (l ++ [h]) /\ same_queues s (grant s).
Proof.
  intros Hok Hc Hne. pose proof (fun a => getq_grant L s h l a Hok Hc Hne) as Hg. destruct Hok as [HL Hr Hqs Hb].
  pose proof (rg_path _ _ Hr) as [_ Hh]. destruct (rg_queue _ _ Hr h ltac:(by left)) as [Hh0 Hin].
  set (s1 := setq h (set_credit (u32 (credit (getq s h) + quantum (getq s h))) (getq s h)) s).
  assert (Hs1 : same_queues s s1) by (by apply queues_setq; [apply queues_refl|]).
  assert (Hs2 : grant s = next_pointer s1) by (unfold grant; by rewrite Hh).
  assert (Hsq : same_queues s (grant s)).
  { rewrite Hs2. intros a. rewrite <- (Hs1 a). unfold next_pointer. by case_if. }
  assert (Hr1 : ring s1 (h :: l)).
  { eapply ring_data; [exact Hr|done..|]. intros a. unfold s1. rewrite getq_setq. by case_decide; subst. }
  split; [|done]. constructor; [done| | |].
  - rewrite Hs2. by apply next_pointer_ring.
  - intros a Ha. rewrite (Hsq a) in Ha. destruct (Hqs a Ha) as [Ha0 Hq]. split; [done|]. rewrite Hg.
    case_decide; [subst a|done]. apply (queue_ok_keep L h (getq s h)); [done|done|]. simpl.
    destruct Hq as [_ Hp Hqu Hcr]. destruct (q_pkts (rq (getq s h))) as [|m rest]; [done|].
    specialize (Hc m rest eq_refl). apply list.Forall_cons in Hp as [[_ Hm] _]. lia.
  - intros a Ha. rewrite (Hsq a) in Ha. rewrite Hg. intros Hn. rewrite <- (Permutation_cons_append l h). apply Hb; [done|].
    by case_decide; subst.
Qed.

(** *** The turns before a packet is sent

    [g] counts the quantums that each queue gets. *)
Inductive visits : rr -> list Z -> (Z -> Z) -> rr -> list Z -> Prop :=
| visits_done s l : visits s l (fun _ => 0) s l
| visits_drop s h l g s' l' :
    q_pkts (rq (getq s h)) = [] -> visits (rr_remove_head s) l g s' l' -> visits s (h :: l) g s' l'
| visits_grant s h l m rest g s' l' :
    q_pkts (rq (getq s h)) = m :: rest -> credit (getq s h) < m_len m ->
    visits (grant s) (l ++ [h]) g s' l' ->
    visits s (h :: l) (fun a => if decide (a = h) then g a + 1 else g a) s' l'.

Lemma visits_keep L s l g s' l' :
  visits s l g s' l' -> rr_ok L s l ->
  rr_ok L s' l' /\ same_queues s s' /\
  forall a, same_rest (getq s a) (getq s' a) /\ credit (getq s' a) = credit (getq s a) + quantum (getq s a) * g a.
Proof.
  induction 1 as [s l|s h l g s' l' He _ IH|s h l m rest g s' l' He Hc _ IH]; intros Hok.
  - split_and!; [done|apply queues_refl|]. intros a. split; [done|]. lia.
  - destruct (IH (drop_ok _ _ _ _ Hok He)) as (H1 & H2 & H3). destruct Hok as [_ Hr _ _].
    split_and!; [done| |].
    + eapply same_queues_trans; [by eapply remove_head_queues|done].
    + intros a. destruct (H3 a) as [[E1 E2] E3]. destruct (remove_head_data _ _ a Hr) as (F1 & F2 & F3).
      unfold same_rest. rewrite E1, E2, E3, F1, F2, F3. done.
  - assert (Hne : q_pkts (rq (getq s h)) <> []) by (by rewrite He).
    assert (Hcr : forall m rest, q_pkts (rq (getq s h)) = m :: rest -> credit (getq s h) < m_len m).
    { intros m' rest'. rewrite He. by intros [= <- <-]. }
    destruct (grant_ok _ _ _ _ Hok Hcr Hne) as [Hok' Hsq]. destruct (IH Hok') as (H1 & H2 & H3).
    split_and!; [done|by eapply same_queues_trans|]. intros a. destruct (H3 a) as [[E1 E2] E3].
    rewrite (getq_grant _ _ _ _ a Hok Hcr Hne) in E1, E2, E3. unfold same_rest. rewrite E1, E2, E3.
    case_decide; subst; simpl; [|done]. split; [done|lia].
Qed.

(** *** Dequeuing ends *)

Definition needs (s : rr) (l : list Z) : Z := foldr (fun a n => rr_need (getq s a) + n) 0 l.

Lemma rr_need_pos x : 1 <= rr_need x.
Proof. unfold rr_need. destruct (q_pkts (rq x)); lia. Qed.

Lemma needs_ext s s' l : (forall a, a ∈ l -> rr_need (getq s' a) = rr_need (getq s a)) -> needs s' l = needs s l.
Proof.
  induction l as [|a l IH]; intros H; simpl; [done|]. rewrite H by (by left).
  rewrite IH; [done|]. intros b Hb. apply H. by right.
Qed.

Lemma needs_snoc s l a : needs s (l ++ [a]) = needs s l + rr_need (getq s a).
Proof. induction l as [|b l IH]; simpl; lia. Qed.

Lemma needs_pos s l : 0 <= needs s l.
Proof. induction l as [|a l IH]; simpl; [lia|]. pose proof (rr_need_pos (getq s a)). lia. Qed.

(** The sum over a part of the queues is within the sum over all of them. *)
Lemma needs_all (qs : gmap Z rr_queue) l :
  NoDup l -> (forall a, a ∈ l -> is_Some (qs !! a)) ->
  foldr (fun a n => rr_need (qs !!! a) + n) 0 l <= map_fold (fun _ q n => rr_need q + n) 0 qs.
Proof.
  revert qs. induction l as [|a l IH]; intros qs HN Hin; simpl.
  - apply (map_fold_weak_ind (fun r _ => 0 <= r)); [lia|]. intros i x m r _ Hr. pose proof (rr_need_pos x). lia.
  - apply list.NoDup_cons in HN as [Ha HN]. destruct (Hin a ltac:(by left)) as [x Hx].
    rewrite (map_fold_delete_L _ 0 a x qs); [|intros; lia|done]. rewrite (lookup_total_correct _ _ _ Hx).
    assert (E : foldr (fun b n => rr_need (qs !!! b) + n) 0 l = foldr (fun b n => rr_need (delete a qs !!! b) + n) 0 l).
    { clear -Ha. induction l as [|b l IH]; simpl; [done|]. apply not_elem_of_cons in Ha as [Hb Ha].
      rewrite lookup_total_delete_ne by done. rewrite IH; done. }
    rewrite E. specialize (IH (delete a qs) HN). cut (foldr (fun b n => rr_need (delete a qs !!! b) + n) 0 l <= map_fold (fun _ q n => rr_need q + n) 0 (delete a qs)); [lia|].
    apply IH. intros b Hb. rewrite lookup_delete_ne by (intros ->; done). apply Hin. by right.
Qed.

Lemma rr_fuel_enough s l : ring s l -> needs s l < Z.of_nat (rr_fuel s).
Proof.
  intros [HN Hqs _ _ _]. unfold rr_fuel. pose proof (needs_all (queues s) l HN (fun a Ha => proj2 (Hqs a Ha))) as H.
  change (foldr _ 0 l) with (needs s l) in H. pose proof (needs_pos s l). lia.
Qed.

(** The packet at the head of [h] is sent. *)
Definition send (h : Z) (s : rr) : option mbuf * rr :=
  match q_pkts (rq (getq s h)) with
  | [] => (None, s)
  | m :: _ =>
      let s := setq h (set_credit (u32 (credit (getq s h) - m_len m)) (getq s h)) s in
      let '(o, dq) := dn_dequeue (rq (getq s h)) in (o, setq h (set_rq dq (getq s h)) s)
  end.

Definition sends (l : list Z) (s : rr) (r : option mbuf * rr) : Prop :=
  match l with
  | [] => r = (None, s)
  | h :: _ => exists m rest, q_pkts (rq (getq s h)) = m :: rest /\ m_len m <= credit (getq s h) /\ r = send h s
  end.

Lemma dequeue_visits L fuel : forall s l,
  rr_ok L s l -> needs s l < Z.of_nat fuel ->
  exists g s1 l1 r, visits s l g s1 l1 /\ sends l1 s1 r /\ rr_dequeue_loop fuel s = Some r.
Proof.
  induction fuel as [|fuel IH]; intros s l Hok Hf; [pose proof (needs_pos s l); lia|].
  pose proof (ro_ring _ _ _ Hok) as Hr. pose proof (rg_path _ _ Hr) as Hh. simpl. destruct l as [|h l].
  { rewrite Hh. simpl. eexists _, s, [], _. split; [constructor|]. done. }
  destruct Hh as [_ Hh]. destruct (rg_queue _ _ Hr h ltac:(by left)) as [Hh0 Hin].
  rewrite Hh, (proj2 (Z.eqb_neq _ _) Hh0). simpl in Hf. pose proof (rr_need_pos (getq s h)) as Hp1.
  destruct (q_pkts (rq (getq s h))) as [|m rest] eqn:Ep.
  - destruct (IH (rr_remove_head s) l) as (g & s1 & l1 & r & H1 & H2 & H3); [by eapply drop_ok| |].
    + rewrite (needs_ext s); [lia|]. intros a _. destruct (remove_head_data _ _ a Hr) as (E1 & E2 & E3).
      unfold rr_need. by rewrite E1, E3.
    + exists g, s1, l1, r. split; [by apply visits_drop|done].
  - destruct (Z.ltb_spec (credit (getq s h)) (m_len m)) as [Hc|Hc].
    + assert (Hne : q_pkts (rq (getq s h)) <> []) by (by rewrite Ep).
      assert (Hcr : forall m' rest', q_pkts (rq (getq s h)) = m' :: rest' -> credit (getq s h) < m_len m').
      { intros m' rest'. rewrite Ep. by intros [= <- <-]. }
      destruct (IH (grant s) (l ++ [h])) as (g & s1 & l1 & r & H1 & H2 & H3); [by eapply grant_ok| |].
      * pose proof (fun a => getq_grant _ _ _ _ a Hok Hcr Hne) as Hg. rewrite needs_snoc, (needs_ext s (grant s)).
        2:{ intros a Ha. rewrite Hg, decide_False; [done|]. intros ->.
            pose proof (rg_nodup _ _ Hr) as HN. by apply list.NoDup_cons in HN as [? _]. }
        cut (rr_need (getq (grant s) h) < rr_need (getq s h)); [lia|]. rewrite Hg, decide_True by done.
        unfold rr_need. simpl. rewrite Ep. destruct (ro_queue _ _ _ Hok h Hin) as [_ [_ _ Hq _]]. lia.
      * eexists _, s1, l1, r. split; [by eapply visits_grant|]. split; [done|]. unfold grant in H3. by rewrite Hh in H3.
    + eexists _, s, (h :: l), _. split; [constructor|]. split; [by exists m, rest|]. unfold send.
      rewrite Ep. by destruct (dn_dequeue _).
Qed.

Lemma rr_dequeue_visits L s l :
  rr_ok L s l -> exists g s1 l1, visits s l g s1 l1 /\ sends l1 s1 (rr_dequeue s).
Proof.
  intros Hok. destruct (dequeue_visits L (rr_fuel s) s l Hok (rr_fuel_enough s l (ro_ring _ _ _ Hok)))
    as (g & s1 & l1 & r & H1 & H2 & H3).
  exists g, s1, l1. split; [done|]. unfold rr_dequeue. by rewrite H3.
Qed.

(** *** Sending *)

Lemma send_spec L s h l m rest :
  rr_ok L s (h :: l) -> q_pkts (rq (getq s h)) = m :: rest -> m_len m <= credit (getq s h) ->
  exists s', send h s = (Some m, s') /\ rr_ok L s' (h :: l) /\ same_queues s s' /\ pkt_ok L h m /\
    (forall a, quantum (getq s' a) = quantum (getq s a)) /\
    (forall a, a <> h -> getq s' a = getq s a) /\
    q_pkts (rq (getq s' h)) = rest /\ credit (getq s' h) = credit (getq s h) - m_len m.
Proof.
  intros [HL Hr Hqs Hb] Ep Hc. destruct (rg_queue _ _ Hr h ltac:(by left)) as [Hh0 Hin].
  destruct (Hqs h Hin) as [_ [Hdq Hp Hq Hcr]]. pose proof (dn_dequeue_spec _ Hdq) as Hd. rewrite Ep in Hd.
  destruct Hd as (dq & Ed & Edq & Hdq'). rewrite Ep in Hp. apply list.Forall_cons in Hp as [Hm Hp]. pose proof Hm as [_ Hlen].
  unfold send. rewrite Ep, getq_setq, decide_True by done. simpl. rewrite Ed. rewrite u32_id by (unfold is_u32; lia).
  eexists. split; [done|]. set (s' := setq h _ (setq h _ s)).
  assert (Hg : forall a, getq s' a = if decide (a = h) then mk_rrq dq (status (getq s h)) (credit (getq s h) - m_len m)
     (quantum (getq s h)) (qnext (getq s h)) else getq s a) by (intros a; unfold s'; rr_get).
  assert (Hsq : same_queues s s') by (unfold s'; keep_queues).
  split_and!; try done.
  2:{ intros a. rewrite Hg. by case_decide; subst. }
  2:{ intros a Ha. by rewrite Hg, decide_False. }
  2:{ by rewrite Hg, decide_True. }
  2:{ by rewrite Hg, decide_True. }
  constructor; [done| | |].
  - eapply ring_data; [exact Hr|done..|]. intros a. rewrite Hg. by case_decide; subst.
  - intros a Ha. rewrite (Hsq a) in Ha. destruct (Hqs a Ha) as [Ha0 Hqa]. split; [done|]. rewrite Hg.
    case_decide; [subst a|done]. constructor; simpl; [done|by rewrite Edq|done|lia].
  - intros a Ha. rewrite (Hsq a) in Ha. rewrite Hg. case_decide; [subst; left; by left|]. by apply Hb.
Qed.

(** *** Enqueuing *)

Definition rr_accepts (L : Z) (s : rr) (m : mbuf) : Prop :=
  is_Some (queues s !! FI2Q (m_flow m)) /\ 0 <= m_len m <= L /\ is_head (rq (getq s (FI2Q (m_flow m)))) m = false.

(** The queue [q] gets the list of packets of [dq]. *)
Lemma set_rq_ok L s l q dq :
  rr_ok L s l -> is_Some (queues s !! q) -> dnq_ok dq -> Forall (pkt_ok L q) (q_pkts dq) ->
  (q_pkts dq <> [] -> q ∈ l) -> rr_ok L (setq q (set_rq dq (getq s q)) s) l.
Proof.
  intros [HL Hr Hqs Hb] Hq Hdq Hp Hin. assert (Hsq : same_queues s (setq q (set_rq dq (getq s q)) s)) by keep_queues.
  constructor; [done| | |].
  - eapply ring_data; [exact Hr|done..|]. intros a. rewrite getq_setq. by case_decide; subst.
  - intros a Ha. rewrite (Hsq a) in Ha. destruct (Hqs a Ha) as [Ha0 [H1 H2 H3 H4]]. split; [done|].
    rewrite getq_setq. case_decide; [subst a|]; constructor; done.
  - intros a Ha. rewrite (Hsq a) in Ha. rewrite getq_setq. case_decide; [by subst a|by apply Hb].
Qed.

(** A queue outside the list gets packets and is appended. *)
Lemma append_ok L s l q dq :
  rr_ok L s l -> is_Some (queues s !! q) -> q ∉ l -> dnq_ok dq -> Forall (pkt_ok L q) (q_pkts dq) ->
  let s' := rr_append q (setq q (set_rq dq (getq s q)) s) in
  rr_ok L s' (l ++ [q]) /\ same_queues s s' /\ (forall a, quantum (getq s' a) = quantum (getq s a)) /\
  (forall a, a <> q -> rq (getq s' a) = rq (getq s a) /\ credit (getq s' a) = credit (getq s a)) /\ rq (getq s' q) = dq.
Proof.
  intros [HL Hr Hqs Hb] Hq Hnew Hdq Hp s'. set (s1 := setq q (set_rq dq (getq s q)) s) in *.
  assert (Hsq1 : same_queues s s1) by (unfold s1; keep_queues). destruct (Hqs q Hq) as [Hq0 Hqo].
  assert (Hg1 : forall a, getq s1 a = if decide (a = q) then set_rq dq (getq s q) else getq s a) by (intros; apply getq_setq).
  assert (Hr1 : ring s1 l).
  { eapply ring_data; [exact Hr|done..|]. intros a. rewrite Hg1. by case_decide; subst. }
  destruct (append_ring s1 l q Hr1 Hnew Hq0) as (Hr' & Hsq' & Hd & Eq1 & Eq2 & Eq3); [by apply Hsq1|].
  fold s' in Hr', Hsq', Hd, Eq1, Eq2, Eq3. rewrite Hg1, decide_True in Eq1, Eq2, Eq3 by done. simpl in Eq1, Eq2, Eq3.
  assert (Hsq : same_queues s s') by (by eapply same_queues_trans).
  assert (Hd' : forall a, a <> q -> rq (getq s' a) = rq (getq s a) /\ quantum (getq s' a) = quantum (getq s a) /\
    credit (getq s' a) = credit (getq s a)).
  { intros a Ha. destruct (Hd a Ha) as (-> & -> & ->). by rewrite Hg1, decide_False. }
  split_and!; [|done| | |done].
  2:{ intros a. destruct (decide (a = q)) as [->|Ha]; [done|apply Hd'; done]. }
  2:{ intros a Ha. by destruct (Hd' a Ha) as (? & _ & ?). }
  constructor; [done|done| |].
  - intros a Ha. rewrite (Hsq a) in Ha. destruct (Hqs a Ha) as [Ha0 Hqa]. split; [done|].
    destruct (decide (a = q)) as [->|Hne].
    + destruct Hqa as [H1 H2 H3 H4]. constructor; rewrite ?Eq1, ?Eq2, ?Eq3; try done. lia.
    + destruct (Hd' a Hne) as (E1 & E2 & E3). apply (queue_ok_keep L a (getq s a)); [done|done|]. rewrite E2, E3. apply Hqa.
  - intros a Ha Hn. rewrite (Hsq a) in Ha. apply elem_of_app. destruct (decide (a = q)) as [->|Hne]; [right; by left|left].
    apply Hb; [done|]. by rewrite (proj1 (Hd' a Hne)) in Hn.
Qed.

(** What enqueuing [m] on [q] may do. *)
Record enqueued (L : Z) (s : rr) (l : list Z) (q : Z) (m : mbuf) (ret : Z) (s' : rr) (l' : list Z) : Prop := {
  en_ok : rr_ok L s' l';
  en_list : (l' = l) \/ ((q ∉ l) /\ (l' = l ++ [q]));
  en_queues : same_queues s s';
  en_quantum : forall a, quantum (getq s' a) = quantum (getq s a);
  en_credit : forall a, a ∈ l -> credit (getq s' a) = credit (getq s a);
  en_other : forall a, a <> q -> rq (getq s' a) = rq (getq s a);
  en_pkts : (ret = 0 /\ q_pkts (rq (getq s' q)) = q_pkts (rq (getq s q)) ++ [m]) \/
            (ret = 1 /\ q_pkts (rq (getq s' q)) = q_pkts (rq (getq s q)));
}.

Lemma rr_enqueue_spec L s l m :
  rr_ok L s l -> rr_accepts L s m ->
  exists ret s' l', rr_enqueue s (FI2Q (m_flow m)) m = (ret, s') /\ enqueued L s l (FI2Q (m_flow m)) m ret s' l'.
Proof.
  intros Hok (Hq & Hm & Hnh). unfold rr_enqueue. set (q := FI2Q (m_flow m)) in *. rewrite Hnh. simpl.
  destruct (ro_queue _ _ _ Hok q Hq) as [Hq0 [Hdq Hp _ _]].
  assert (Hpm : pkt_ok L q m) by (split; [done|lia]).
  destruct (dn_enqueue_spec (rq (getq s q)) m Hdq) as [(_ & E1 & E2 & E3)|(_ & E1 & E2 & E3)];
    destruct (dn_enqueue (rq (getq s q)) m) as [ret dq]; simpl in E1, E2, E3; subst ret.
  - change (z2b 0) with false. cbv iota. rewrite getq_setq, decide_True by done. simpl.
    assert (Hp' : Forall (pkt_ok L q) (q_pkts dq)) by (rewrite E2; apply list.Forall_app; split; [done|by constructor]).
    assert (Hins : q ∈ l -> enqueued L s l q m 0 (setq q (set_rq dq (getq s q)) s) l).
    { intros Hin. split.
      - by apply set_rq_ok.
      - by left.
      - keep_queues.
      - intros a. rewrite getq_setq. by case_decide; subst.
      - intros a _. rewrite getq_setq. by case_decide; subst.
      - intros a Ha. by rewrite getq_setq, decide_False.
      - left. by rewrite getq_setq, decide_True. }
    destruct (q_pkts (rq (getq s q))) as [|h t] eqn:Ep.
    + unfold is_head. rewrite E2. simpl. rewrite Z.eqb_refl. simpl. rewrite (rg_status _ _ (ro_ring _ _ _ Hok) q Hq).
      case_bool_decide as Hin; simpl.
      * eexists 0, _, l. split; [done|]. by apply Hins.
      * destruct (append_ok L s l q dq Hok Hq Hin E3 Hp') as (H1 & H2 & H3 & H4 & H5).
        eexists 0, _, (l ++ [q]). split; [done|]. split; try done.
        -- by right.
        -- intros a Ha. apply H4. by intros ->.
        -- intros a Ha. by apply H4.
        -- left. by rewrite H5, Ep.
    + unfold is_head in Hnh |- *. rewrite Ep in Hnh. rewrite E2. simpl. rewrite Hnh. simpl.
      eexists 0, _, l. split; [done|]. apply Hins. apply (ro_busy _ _ _ Hok); [done|]. by rewrite Ep.
  - change (z2b 1) with true. cbv iota. eexists 1, _, l. split; [done|]. split.
    + apply set_rq_ok; [done|done|done|by rewrite E2|]. rewrite E2. by apply (ro_busy _ _ _ Hok).
    + by left.
    + keep_queues.
    + intros a. rewrite getq_setq. by case_decide; subst.
    + intros a _. rewrite getq_setq. by case_decide; subst.
    + intros a Ha. by rewrite getq_setq, decide_False.
    + right. by rewrite getq_setq, decide_True.
Qed.

(** ** The interface of a scheduler *)

Definition rr_pkts (s : rr) : list mbuf := gather (fun x => q_pkts (rq x)) (queues s).

Lemma lookup_getq s q : is_Some (queues s !! q) -> queues s !! q = Some (getq s q).
Proof. intros [x Hx]. unfold getq. by rewrite lookup_total_alt, Hx. Qed.

Lemma same_queues_pkts s s' a :
  same_queues s s' -> q_pkts (rq (getq s' a)) = q_pkts (rq (getq s a)) ->
  (fun x => q_pkts (rq x)) <$> queues s' !! a = (fun x => q_pkts (rq x)) <$> queues s !! a.
Proof.
  intros Hsq Hp. destruct (decide (is_Some (queues s !! a))) as [H|H].
  - rewrite (lookup_getq s a), (lookup_getq s' a) by (done || by apply Hsq). simpl. by rewrite Hp.
  - assert (H' : ~ is_Some (queues s' !! a)) by (by rewrite (Hsq a)). apply eq_None_not_Some in H, H'. by rewrite H, H'.
Qed.

Lemma rr_pkts_same s s' :
  same_queues s s' -> (forall a, q_pkts (rq (getq s' a)) = q_pkts (rq (getq s a))) -> rr_pkts s' = rr_pkts s.
Proof. intros Hsq Hp. apply gather_same. intros a. by apply same_queues_pkts. Qed.

(** Only [q] changes: its packets are the difference. *)
Lemma rr_pkts_change s s' q :
  same_queues s s' -> is_Some (queues s !! q) -> (forall a, a <> q -> q_pkts (rq (getq s' a)) = q_pkts (rq (getq s a))) ->
  exists rest, rr_pkts s ≡ₚ q_pkts (rq (getq s q)) ++ rest /\ rr_pkts s' ≡ₚ q_pkts (rq (getq s' q)) ++ rest.
Proof.
  intros Hsq Hq Hp. apply (gather_change (fun x => q_pkts (rq x)) (queues s) (queues s') q (getq s q) (getq s' q)); [by apply lookup_getq|by apply lookup_getq, Hsq|].
  intros a Ha. apply same_queues_pkts; [done|]. by apply Hp.
Qed.

Lemma rr_pkts_nil s : (forall a, is_Some (queues s !! a) -> q_pkts (rq (getq s a)) = []) -> rr_pkts s = [].
Proof.
  intros H. apply gather_nil. intros a x Hx. specialize (H a ltac:(by eexists)). rewrite lookup_getq in Hx by (by eexists). by simplify_eq.
Qed.

(** The packet that is sent, and the credits: a quantum for each turn, less
    the length of the packet. *)
Lemma rr_dequeue_spec L s l :
  rr_ok L s l ->
  exists g s1 l1, visits s l g s1 l1 /\ rr_ok L (snd (rr_dequeue s)) l1 /\ same_queues s (snd (rr_dequeue s)) /\
    (forall a, quantum (getq (snd (rr_dequeue s)) a) = quantum (getq s a)) /\
    match fst (rr_dequeue s) with
    | None => rr_pkts s = [] /\ rr_pkts (snd (rr_dequeue s)) = []
    | Some m =>
        let q := FI2Q (m_flow m) in
        rr_pkts s ≡ₚ m :: rr_pkts (snd (rr_dequeue s)) /\ q ∈ l1 /\
        q_pkts (rq (getq s q)) = m :: q_pkts (rq (getq (snd (rr_dequeue s)) q)) /\
        (forall a, credit (getq (snd (rr_dequeue s)) a) =
          credit (getq s a) + quantum (getq s a) * g a - (if decide (a = q) then m_len m else 0)) /\
        forall a, a <> q -> rq (getq (snd (rr_dequeue s)) a) = rq (getq s a)
    end.
Proof.
  intros Hok. destruct (rr_dequeue_visits L s l Hok) as (g & s1 & l1 & Hv & Hs).
  destruct (visits_keep L s l g s1 l1 Hv Hok) as (Hok1 & Hsq1 & Hd). exists g, s1, l1. split; [done|].
  assert (Hp1 : rr_pkts s1 = rr_pkts s).
  { apply rr_pkts_same; [done|]. intros a. destruct (Hd a) as [[-> _] _]. done. }
  destruct l1 as [|h l1]; simpl in Hs.
  - rewrite Hs. simpl. assert (Hnil : rr_pkts s1 = []).
    { apply rr_pkts_nil. intros a Ha. destruct (q_pkts (rq (getq s1 a))) eqn:E; [done|].
      by destruct (not_elem_of_nil a); eapply ro_busy; [exact Hok1|done|rewrite E]. }
    split_and!; try done; [|congruence]. intros a. apply Hd.
  - destruct Hs as (m & rest & Ep & Hc & Hr). destruct (send_spec L s1 h l1 m rest Hok1 Ep Hc)
      as (s' & E & Hok' & Hsq' & [Hm _] & Hq' & Hne & Hp' & Hc'). rewrite Hr, E. simpl.
    destruct (rr_pkts_change s1 s' h) as (r & HP1 & HP2); [done| |by intros a Ha; rewrite Hne|].
    { apply (rg_queue _ _ (ro_ring _ _ _ Hok1)). by left. }
    split_and!; [done|by eapply same_queues_trans| | | | | |].
    + intros a. rewrite Hq'. apply Hd.
    + rewrite <- Hp1, HP1, HP2, Ep, Hp'. done.
    + rewrite Hm. by left.
    + rewrite Hm, Hp', <- Ep. destruct (Hd h) as [[-> _] _]. done.
    + intros a. rewrite Hm. destruct (Hd a) as [_ E3]. case_decide as Ea; [subst a; rewrite Hc'; lia|rewrite Hne by done; lia].
    + intros a Ha. rewrite Hm in Ha. rewrite Hne by done. by destruct (Hd a) as [[-> _] _].
Qed.

(** The bound on the size of a packet that keeps the credits within 32 bits. *)
Definition max_len : Z := 2 ^ 31 - 1.

#[export] Program Instance rr_alg_ok : DnAlgOk rr := {|
  alg_ok s := exists l, rr_ok max_len s l;
  alg_pkts := rr_pkts;
  alg_accepts := rr_accepts max_len;
  alg_ready _ := True;
|}.
Next Obligation.
  intros s m ret s' [l Hok] Hacc E. simpl in E.
  destruct (rr_enqueue_spec _ s l m Hok Hacc) as (ret' & s1 & l' & E' & He). rewrite E in E'. injection E' as <- <-.
  destruct He as [H1 _ H2 _ _ H3 H4]. split; [by exists l'|].
  destruct (rr_pkts_change s s' (FI2Q (m_flow m))) as (r & HP1 & HP2); [done|apply Hacc|by intros a Ha; rewrite H3|].
  destruct H4 as [[-> Hp]|[-> Hp]]; [left|right]; (split; [done|]); rewrite HP1, HP2, Hp; [|done].
  rewrite <- app_assoc. simpl. symmetry. apply Permutation_middle.
Qed.
Next Obligation.
  intros s o s' [l Hok] _ E. simpl in E. destruct (rr_dequeue_spec _ s l Hok) as (g & s1 & l1 & _ & Hok' & _ & _ & Hm).
  rewrite E in Hok', Hm. simpl in *. split; [by exists l1|]. destruct o; [apply Hm|done].
Qed.

(** ** Fairness *)

(** [i] comes before [j]. *)
Definition before (i j : Z) (l : list Z) : Prop := exists l1 l2, l = l1 ++ i :: l2 /\ j ∈ l2.

Lemma before_total i j l : i ∈ l -> j ∈ l -> i <> j -> before i j l \/ before j i l.
Proof.
  intros Hi Hj Hne. apply list_elem_of_split in Hi as (l1 & l2 & ->).
  apply elem_of_app in Hj as [Hj|Hj].
  - right. apply list_elem_of_split in Hj as (l3 & l4 & ->). exists l3, (l4 ++ i :: l2).
    rewrite <- app_assoc. split; [done|]. apply elem_of_app. right. by left.
  - left. exists l1, l2. split; [done|]. by apply elem_of_cons in Hj as [->|].
Qed.

Lemma before_app i j l l' : before i j l -> before i j (l ++ l').
Proof.
  intros (l1 & l2 & -> & Hj). exists l1, (l2 ++ l'). rewrite <- app_assoc. split; [done|]. apply elem_of_app. by left.
Qed.

Lemma before_tail i j h l : before i j (h :: l) -> h <> i -> before i j l.
Proof.
  intros (l1 & l2 & E & Hj) Hne. destruct l1 as [|x l1]; simplify_eq/=. by exists l1, l2.
Qed.

Lemma before_rotate i j l : before i j (i :: l) -> i ∉ l -> before j i (l ++ [i]).
Proof.
  intros (l1 & l2 & E & Hj) Hn. assert (Hjl : j ∈ l).
  { destruct l1 as [|x l1]; simplify_eq/=; [done|]. apply elem_of_app. right. by right. }
  apply list_elem_of_split in Hjl as (l3 & l4 & ->). exists l3, (l4 ++ [i]). rewrite <- app_assoc.
  split; [done|]. apply elem_of_app. right. by left.
Qed.

Section fair.
Context (L i j : Z).

(** [d] more quantums for [i] than for [j] since [i] was before [j]. *)
Definition turns (l : list Z) (d : Z) : Prop := (before i j l /\ d = 0) \/ (before j i l /\ d = 1).

Definition backlogged (s : rr) (a : Z) : Prop := q_pkts (rq (getq s a)) <> [].

Lemma turns_visits s l g s' l' :
  visits s l g s' l' -> rr_ok L s l -> backlogged s i -> backlogged s j -> i <> j ->
  forall d, turns l d -> turns l' (d + g i - g j).
Proof.
  induction 1 as [s l|s h l g s' l' He _ IH|s h l m rest g s' l' He Hc Hv IH]; intros Hok Hi Hj Hij d Ht.
  - by replace (d + 0 - 0) with d by lia.
  - assert (h <> i /\ h <> j) as [? ?] by (split; intros ->; done).
    pose proof (ro_ring _ _ _ Hok) as Hr.
    apply IH; [by eapply drop_ok| | |done|].
    + unfold backlogged. by rewrite (proj1 (remove_head_data _ _ i Hr)).
    + unfold backlogged. by rewrite (proj1 (remove_head_data _ _ j Hr)).
    + destruct Ht as [[Hb ->]|[Hb ->]]; [left|right]; (split; [|done]); by eapply before_tail.
  - assert (Hne : q_pkts (rq (getq s h)) <> []) by (by rewrite He).
    assert (Hcr : forall m rest, q_pkts (rq (getq s h)) = m :: rest -> credit (getq s h) < m_len m).
    { intros m' rest'. rewrite He. by intros [= <- <-]. }
    pose proof (fun a => getq_grant _ _ _ _ a Hok Hcr Hne) as Hg.
    assert (Hbl : forall a, backlogged s a -> backlogged (grant s) a).
    { intros a Ha. unfold backlogged. rewrite Hg. by case_decide; subst. }
    pose proof (rg_nodup _ _ (ro_ring _ _ _ Hok)) as [Hnh _]%list.NoDup_cons.
    set (d' := d + (if decide (i = h) then 1 else 0) - (if decide (j = h) then 1 else 0)).
    assert (Ht' : turns (l ++ [h]) d').
    { unfold d'. destruct (decide (i = h)) as [<-|Hih]; [rewrite decide_False by done|destruct (decide (j = h)) as [<-|Hjh]].
      - destruct Ht as [[Hb ->]|[Hb ->]].
        + right. split; [by apply before_rotate|lia].
        + exfalso. apply before_tail in Hb as (l1 & l2 & -> & Hi'); [|done]. apply Hnh, elem_of_app. right. by right.
      - destruct Ht as [[Hb ->]|[Hb ->]].
        + exfalso. apply before_tail in Hb as (l1 & l2 & -> & Hj'); [|done]. apply Hnh, elem_of_app. right. by right.
        + left. split; [by apply before_rotate|lia].
      - destruct Ht as [[Hb ->]|[Hb ->]]; [left|right]; (split; [|lia]); by apply before_app; eapply before_tail. }
    specialize (IH ltac:(by eapply grant_ok) (Hbl i Hi) (Hbl j Hj) Hij d' Ht').
    unfold d' in IH. repeat case_decide; subst; try done; by replace (d + _ - _) with (d' + g i - g j) by (unfold d'; lia).
Qed.

(** Bytes of queue [a] among the packets sent. *)
Definition sent (a : Z) (out : list mbuf) : Z :=
  foldr (fun m n => (if decide (FI2Q (m_flow m) = a) then m_len m else 0) + n) 0 out.

Lemma sent_cons a m out : sent a (m :: out) = (if decide (FI2Q (m_flow m) = a) then m_len m else 0) + sent a out.
Proof. done. Qed.

(** Enqueues and dequeues, [i] and [j] having packets at every dequeue; the
    packets sent. *)
Inductive serves : rr -> list mbuf -> rr -> Prop :=
| serves_done s : serves s [] s
| serves_enq s m ret s1 out s' :
    rr_accepts L s m -> rr_enqueue s (FI2Q (m_flow m)) m = (ret, s1) -> serves s1 out s' -> serves s out s'
| serves_deq s m s1 out s' :
    backlogged s i -> backlogged s j -> rr_dequeue s = (Some m, s1) -> serves s1 out s' -> serves s (m :: out) s'.

Lemma before_in a b l : before a b l -> a ∈ l /\ b ∈ l.
Proof. intros (l1 & l2 & -> & Hb). split; apply elem_of_app; right; [by left|by right]. Qed.

Lemma serves_turns s out s' :
  serves s out s' -> i <> j -> forall l d, rr_ok L s l -> turns l d ->
  exists l' d' gi gj, rr_ok L s' l' /\ turns l' d' /\ d' - d = gi - gj /\
    quantum (getq s' i) = quantum (getq s i) /\ quantum (getq s' j) = quantum (getq s j) /\
    sent i out + credit (getq s' i) = credit (getq s i) + quantum (getq s i) * gi /\
    sent j out + credit (getq s' j) = credit (getq s j) + quantum (getq s j) * gj.
Proof.
  induction 1 as [s|s m ret s1 out s' Ha E _ IH|s m s1 out s' Hi Hj E _ IH]; intros Hij l d Hok Ht.
  - exists l, d, 0, 0. split_and!; try done; simpl; lia.
  - destruct (rr_enqueue_spec L s l m Hok Ha) as (ret' & s2 & l1 & E' & He). rewrite E in E'. injection E' as <- <-.
    destruct He as [H1 H2 _ H3 H4 _ _].
    destruct (IH Hij l1 d H1) as (l' & d' & gi & gj & G1 & G2 & G3 & G4 & G5 & G6 & G7).
    { destruct H2 as [->|[_ ->]]; [done|]. destruct Ht as [[Hb ->]|[Hb ->]]; [left|right]; (split; [|done]); by apply before_app. }
    assert (Hin : i ∈ l /\ j ∈ l) by (destruct Ht as [[Hb _]|[Hb _]]; apply before_in in Hb; tauto).
    rewrite !H3, !H4 in * by apply Hin. exists l', d', gi, gj. done.
  - destruct (rr_dequeue_spec L s l Hok) as (g & s2 & l1 & Hv & H1 & _ & H2 & Hm). rewrite E in H1, H2, Hm. simpl in H1, H2, Hm.
    destruct Hm as (_ & _ & _ & Hc & _). pose proof (turns_visits _ _ _ _ _ Hv Hok Hi Hj Hij d Ht) as Ht1.
    destruct (IH Hij l1 _ H1 Ht1) as (l' & d' & gi & gj & G1 & G2 & G3 & G4 & G5 & G6 & G7).
    exists l', d', (g i + gi), (g j + gj). rewrite !H2, !Hc in *. rewrite !sent_cons.
    split_and!; try done; try lia.
    + clear -G6. repeat case_decide; subst; try congruence; lia.
    + clear -G7. repeat case_decide; subst; try congruence; lia.
Qed.

End fair.

(** C23: Round robin is fair: over any run in which the queues [i] and [j]
    always have packets when the scheduler is asked for one, the bytes that [i]
    got for each byte of its quantum are ahead of those of [j] by a constant,
    however long the run and whatever the other queues do.  [L] bounds the size
    of the packets. *)
Theorem rr_fair L i j s l out s' :
  rr_ok L s l -> i <> j -> i ∈ l -> j ∈ l -> serves L i j s out s' ->
  let Qi := quantum (getq s i) in
  let Qj := quantum (getq s j) in
  sent i out * Qj - sent j out * Qi <= 3 * (Qi * Qj) + L * (Qi + Qj).
Proof.
  intros Hok Hij Hi Hj Hs Qi Qj.
  assert (Hb : forall a, a ∈ l -> 1 <= quantum (getq s a) /\ 0 <= credit (getq s a) <= quantum (getq s a) + L).
  { intros a Ha. destruct (rg_queue _ _ (ro_ring _ _ _ Hok) a Ha) as [_ Hq].
    destruct (ro_queue _ _ _ Hok a Hq) as [_ [_ _ H1 H2]]. lia. }
  assert (Ht : exists d, turns i j l d).
  { destruct (before_total i j l Hi Hj Hij); [exists 0; by left|exists 1; by right]. }
  destruct Ht as [d Ht].
  destruct (serves_turns L i j s out s' Hs Hij l d Hok Ht) as (l' & d' & gi & gj & G1 & G2 & G3 & G4 & G5 & G6 & G7).
  assert (Hb' : forall a, a ∈ l' -> 0 <= credit (getq s' a) <= quantum (getq s' a) + L).
  { intros a Ha. destruct (rg_queue _ _ (ro_ring _ _ _ G1) a Ha) as [_ Hq].
    destruct (ro_queue _ _ _ G1 a Hq) as [_ [_ _ H1 H2]]. lia. }
  assert (Hin : i ∈ l' /\ j ∈ l') by (destruct G2 as [[Hx _]|[Hx _]]; apply before_in in Hx; tauto).
  destruct (Hb i Hi) as [Q1 C1]. destruct (Hb j Hj) as [Q2 C2]. pose proof (Hb' i (proj1 Hin)) as C3.
  pose proof (Hb' j (proj2 Hin)) as C4. rewrite G4 in C3. rewrite G5 in C4. fold Qi in Q1, C1, C3, G6. fold Qj in Q2, C2, C4, G7.
  assert (Hd : gi - gj <= 1) by (destruct Ht as [[_ ->]|[_ ->]], G2 as [[_ ->]|[_ ->]]; lia).
  clear -Q1 Q2 C1 C2 C3 C4 G6 G7 Hd. nia.
Qed.

(** ** Setting up *)

Lemma rr_new_sched_ok L x : 0 <= L < 2 ^ 31 -> rr_ok L (rr_new_sched (mk_rr ∅ x)) [].
Proof.
  intros HL. assert (Hno : forall a, ~ is_Some (queues (rr_new_sched (mk_rr ∅ x)) !! a)).
  { intros a. simpl. rewrite lookup_empty. by intros [? ?]. }
  constructor; [done| | |]; [constructor; [apply base.NoDup_nil_2|by intros a ?%not_elem_of_nil| |done|done]|..]; intros a Ha; by destruct (Hno a).
Qed.

Lemma getq_none s q : queues s !! q = None -> getq s q = mk_rrq dnq_zero 0 0 0 0.
Proof. intros H. unfold getq. rewrite lookup_total_alt, H. done. Qed.

Lemma new_queue_ok L s l q par0 par1 :
  rr_ok L s l -> q <> 0 -> queues s !! q = None -> 1 <= par0 < 2 ^ 32 -> 1 <= par0 * par1 <= 2 ^ 31 ->
  rr_ok L (rr_new_queue s q par0 par1) l /\ quantum (getq (rr_new_queue s q par0 par1) q) = par0 * par1.
Proof.
  intros [HL Hr Hqs Hb] Hq0 Hq Hpar Hprod. unfold rr_new_queue. rewrite (getq_none s q Hq). simpl q_pkts. cbv zeta iota.
  rewrite (u64_id par0) by (unfold is_u64; lia). rewrite (u64_id (par0 * par1)) by (unfold is_u64; lia).
  rewrite (proj2 (Z.leb_gt _ _)) by lia. simpl rq. simpl qnext. set (s' := setq q _ s).
  assert (Hg : forall a, getq s' a = if decide (a = q) then mk_rrq dnq_zero 0 (par0 * par1) (par0 * par1) 0 else getq s a)
    by (intros a; apply getq_setq).
  assert (Hs : forall a, is_Some (queues s' !! a) <-> a = q \/ is_Some (queues s !! a)).
  { intros a. unfold s', setq. simpl. rewrite lookup_insert_is_Some. destruct (decide (a = q)); [subst; tauto|intuition congruence]. }
  assert (Hql : q ∉ l). { intros Hin. destruct (rg_queue _ _ Hr q Hin) as [_ [? ?]]. congruence. }
  split; [|by rewrite Hg, decide_True]. constructor; [done| | |].
  - destruct Hr as [H1 H2 H3 H4 H5]. constructor; try done.
    + intros a Ha. split; [by apply H2|]. apply Hs. right. by apply H2.
    + intros a Ha. rewrite Hg. case_decide as E; [subst a; by rewrite bool_decide_false|].
      apply H3. apply Hs in Ha as [|]; done.
    + destruct l as [|h l]; [done|]. destruct H4 as [Hp Hh]. split; [|done]. apply (path_ext (nx s)); [|done].
      intros a Ha. unfold nx. rewrite Hg, decide_False; [done|]. by intros ->.
  - intros a Ha. rewrite Hg. case_decide as E; [subst a|apply Hqs; by apply Hs in Ha as [|]]. split; [done|].
    constructor; simpl; [split; simpl; lia|by constructor|lia|lia].
  - intros a Ha. rewrite Hg. case_decide as E; [done|]. apply Hb. by apply Hs in Ha as [|].
Qed.

(** Whatever the parameters of a flowset, the quantum of a new queue is
    the product of the weight and of the quantum step as bounded by
    [rr_new_fsk], it never needs to be truncated, and the scheduler stays well
    formed. *)
Theorem rr_new_queue_config L s l q p0 p1 :
  rr_ok L s l -> q <> 0 -> queues s !! q = None ->
  let '(par0, par1) := rr_new_fsk rr_config p0 p1 in
  let s' := rr_new_queue s q par0 par1 in
  rr_ok L s' l /\ quantum (getq s' q) = par0 * par1 /\ 60 <= quantum (getq s' q) <= 2 ^ 27 /\
  (1 <= p0 <= 65536 -> 60 <= p1 <= 2048 -> quantum (getq s' q) = p0 * p1).
Proof.
  intros Hok Hq0 Hq. unfold rr_new_fsk, rr_config. simpl min_q. simpl max_q. simpl q_bytes.
  destruct (ipdn_bound_var_spec p0 1 1 65536) as [B0 I0]; [lia|].
  destruct (ipdn_bound_var_spec p1 1500 60 2048) as [B1 I1]; [lia|].
  destruct (new_queue_ok L s l q (ipdn_bound_var p0 1 1 65536) (ipdn_bound_var p1 1500 60 2048)) as [H1 H2];
    [done|done|done|lia|nia|]. cbv zeta. rewrite H2.
  split_and!; [done|done|nia|nia|]. intros. by rewrite I0, I1.
Qed.

Lemma rr_new_queue_config_witness :
  let s0 := rr_new_sched (mk_rr ∅ (mk_si 0 0 0)) in
  rr_ok 9000 (rr_new_queue s0 1 5 1500) [].
Proof.
  apply (rr_new_queue_config 9000 (rr_new_sched (mk_rr ∅ (mk_si 0 0 0))) [] 1 5 1500); [|lia|reflexivity].
  apply rr_new_sched_ok. lia.
Defined.

(** C27: From a well-formed state the loop of [rr_dequeue] ends, within
    [rr_fuel] turns, with a packet as long as some queue has one: the first
    packet of the queue of its flow.  That queue keeps its other packets in
    their order, and every other queue keeps all of its own; no queue is added
    or removed. *)
Theorem rr_work_conserving L s l :
  rr_ok L s l ->
  exists o s', rr_dequeue_loop (rr_fuel s) s = Some (o, s') /\ (exists l', rr_ok L s' l') /\
    match o with
    | None => rr_pkts s = []
    | Some m =>
        rr_pkts s ≡ₚ m :: rr_pkts s' /\
        q_pkts (rq (getq s (FI2Q (m_flow m)))) = m :: q_pkts (rq (getq s' (FI2Q (m_flow m)))) /\
        (forall a, a <> FI2Q (m_flow m) -> rq (getq s' a) = rq (getq s a)) /\ same_queues s s'
    end.
Proof.
  intros Hok.
  destruct (dequeue_visits L (rr_fuel s) s l Hok (rr_fuel_enough s l (ro_ring _ _ _ Hok))) as (_ & _ & _ & [o s'] & _ & _ & E).
  exists o, s'. split; [done|]. destruct (rr_dequeue_spec L s l Hok) as (g & s1 & l1 & _ & H1 & H2 & _ & Hm).
  unfold rr_dequeue in *. rewrite E in *. split; [by exists l1|]. destruct o; [|apply Hm]. split_and!; [apply Hm..|done].
Qed.

(** A run with two flows, weights 1 and 3. *)
Definition demo_pkt (n flow : Z) : mbuf := mk_mbuf n 1000 flow.
Definition demo0 : rr :=
  rr_new_queue (rr_new_queue (rr_new_sched (mk_rr ∅ (mk_si 0 0 0))) 1 1 1500) 2 3 1500.
Definition demo_enq (s : rr) (m : mbuf) : rr := snd (rr_enqueue s (FI2Q (m_flow m)) m).
Definition demo_in : list mbuf := [demo_pkt 10 0; demo_pkt 11 1; demo_pkt 12 0; demo_pkt 13 1; demo_pkt 14 0].
Definition demo : rr := foldl demo_enq demo0 demo_in.

Lemma demo_step L s m : (exists l, rr_ok L s l) -> rr_accepts L s m -> exists l, rr_ok L (demo_enq s m) l.
Proof.
  intros [l Hok] Ha. destruct (rr_enqueue_spec L s l m Hok Ha) as (ret & s' & l' & E & [H _ _ _ _ _ _]).
  exists l'. unfold demo_enq. by rewrite E.
Qed.

Lemma demo_ok : exists l, rr_ok 1000 demo l.
Proof.
  unfold demo, demo_in, foldl. repeat (apply demo_step; [|split_and!; [by eexists; vm_compute|done|done|by vm_compute]]).
  exists []. apply new_queue_ok; [|lia|reflexivity|lia|lia]. apply new_queue_ok; [|lia|reflexivity|lia|lia].
  apply rr_new_sched_ok. lia.
Qed.

Lemma rr_work_conserving_witness :
  exists l, rr_ok 1000 demo l /\ fst (default (None, demo) (rr_dequeue_loop (rr_fuel demo) demo)) = Some (demo_pkt 10 0).
Proof.
  destruct demo_ok as [l Hl]. exists l. split; [exact Hl|].
  destruct (rr_work_conserving 1000 demo l Hl) as (o & s' & E & _ & _). rewrite E. simpl.
  assert (E' : fst <$> rr_dequeue_loop (rr_fuel demo) demo = Some (Some (demo_pkt 10 0))) by (vm_compute; reflexivity).
  rewrite E in E'. simpl in E'. congruence.
Defined.

Lemma remove_queue_q_removes_witness :
  exists l1 l2 s', ring demo (l1 ++ 2 :: l2) /\ remove_queue_q 2 demo = Some s' /\ ring s' (l1 ++ l2).
Proof.
  destruct demo_ok as [l Hl].
  assert (Hin : 2 ∈ l) by (apply (ro_busy _ _ _ Hl); [by eexists; vm_compute|by vm_compute]).
  apply list_elem_of_split in Hin as (l1 & l2 & E). pose proof (ro_ring _ _ _ Hl) as Hr. rewrite E in Hr.
  destruct (remove_queue_q_removes demo l1 2 l2 Hr) as (s' & H1 & H2 & _). exists l1, l2, s'. exact (conj Hr (conj H1 H2)).
Defined.

(** [n] dequeues, with [i] and [j] backlogged at each of them. *)
Fixpoint demo_serve (n : nat) (i j : Z) (s : rr) : option (list mbuf * rr) :=
  match n with
  | O => Some ([], s)
  | S n =>
      if decide (q_pkts (rq (getq s i)) <> [] /\ q_pkts (rq (getq s j)) <> []) then
        match rr_dequeue s with
        | (Some m, s) => '(out, s) ← demo_serve n i j s; Some (m :: out, s)
        | (None, _) => None
        end
      else None
  end.

Lemma demo_serves L n i j : forall s out s', demo_serve n i j s = Some (out, s') -> serves L i j s out s'.
Proof.
  induction n as [|n IH]; intros s out s' E; simpl in E; [simplify_eq; constructor|].
  case_decide as Hb; [|done]. destruct (rr_dequeue s) as [[m|] s1] eqn:Ed; [|done].
  destruct (demo_serve n i j s1) as [[out' s2]|] eqn:En; simplify_eq/=. eapply serves_deq; [apply Hb|apply Hb|done|by apply IH].
Qed.

Lemma rr_fair_witness :
  exists l out s', rr_ok 1000 demo l /\ serves 1000 2 1 demo out s' /\ sent 2 out = 2000 /\
    sent 2 out * 1500 - sent 1 out * 4500 <= 3 * (4500 * 1500) + 1000 * (4500 + 1500).
Proof.
  destruct demo_ok as [l Hl].
  assert (Hin : 2 ∈ l /\ 1 ∈ l).
  { split; apply (ro_busy _ _ _ Hl); first [by eexists; vm_compute|by vm_compute]. }
  assert (E : fst <$> demo_serve 3 2 1 demo = Some [demo_pkt 10 0; demo_pkt 11 1; demo_pkt 13 1]) by (vm_compute; reflexivity).
  destruct (demo_serve 3 2 1 demo) as [[out s']|] eqn:Es; [|discriminate E]. apply (demo_serves 1000) in Es.
  assert (Eo : out = [demo_pkt 10 0; demo_pkt 11 1; demo_pkt 13 1]) by (simpl in E; congruence).
  exists l, out, s'. split_and!; [exact Hl|exact Es|rewrite Eo; reflexivity|].
  exact (rr_fair 1000 2 1 demo l out s' Hl ltac:(discriminate) (proj1 Hin) (proj2 Hin) Es).
Defined.
