(* ===== verification/Wf2q.v ===== *)
(** * The WF2Q+ scheduler

    sched16/dn_sched_wf2q.c: every queue has a start and a finish time in
    virtual time.  A queue with packets is in [sch_heap], by finish time, when
    its start time has come, and in [ne_heap], by start time, when it has not;
    an idle queue whose times still matter is in [idle_heap].  The three heaps
    share the field of the queue that holds its position.

    [Wf2q] is the code; the rest shows that every queue is in the heap it
    should be in, and that the scheduler serves, of the queues whose start time
    has come, the one with the smallest finish time. *)

From stdpp Require Import gmap.
From S2P Require Import Prelude DnHeap Sched.
Import DnHeap DnQueue.
Open Scope Z_scope.

Module Wf2q.

(** ** State *)

Definition FRAC_BITS : Z := 28.
Definition ONE_FP : Z := Z.shiftl 1 FRAC_BITS.

Definition MAX64 (x y : Z) : Z := if 0 <? s64 (u64 (y - x)) then y else x.

Record wf2qp_si := mk_wsi {
  sch_heap : dn_heap;
  ne_heap : dn_heap;
  idle_heap : dn_heap;
  V : Z;
  inv_wsum : Z;
  wsum : Z;
}.

(** [weight] is [fs->fs.par[0]]; [heap_pos] is in the positions. *)
Record wf2qp_queue := mk_wq { wq : dn_queue; S : Z; F : Z; inv_w : Z; weight : Z }.
#[export] Instance wf2qp_queue_inhabited : Inhabited wf2qp_queue := populate (mk_wq dnq_zero 0 0 0 0).

(** The queues by address, the instance, the positions in the heaps. *)
Record wf2q := mk_w { wqueues : gmap Z wf2qp_queue; wsi : wf2qp_si; wpos : positions }.

Definition getw (s : wf2q) (q : Z) : wf2qp_queue := wqueues s !!! q.
Definition setw (q : Z) (x : wf2qp_queue) (s : wf2q) : wf2q := mk_w (<[q := x]> (wqueues s)) (wsi s) (wpos s).

Definition set_S v x := mk_wq (wq x) v (F x) (inv_w x) (weight x).
Definition set_F v x := mk_wq (wq x) (S x) v (inv_w x) (weight x).
Definition set_wq v x := mk_wq v (S x) (F x) (inv_w x) (weight x).

Definition on_si (f : wf2qp_si -> wf2qp_si) (s : wf2q) : wf2q := mk_w (wqueues s) (f (wsi s)) (wpos s).
Definition put_V v := on_si (fun i => mk_wsi (sch_heap i) (ne_heap i) (idle_heap i) v (inv_wsum i) (wsum i)).
Definition put_wsum v := on_si (fun i => mk_wsi (sch_heap i) (ne_heap i) (idle_heap i) (V i) (inv_wsum i) v).
Definition put_inv_wsum v := on_si (fun i => mk_wsi (sch_heap i) (ne_heap i) (idle_heap i) (V i) v (wsum i)).

(** The three heaps. *)
Inductive place := Sch | Ne | Idle.
#[export] Instance place_eq_dec : EqDecision place.
Proof. solve_decision. Defined.

Definition heap_of (p : place) (s : wf2q) : dn_heap :=
  match p with Sch => sch_heap (wsi s) | Ne => ne_heap (wsi s) | Idle => idle_heap (wsi s) end.

Definition put_heap (p : place) (h : dn_heap) (pos : positions) (s : wf2q) : wf2q :=
  let i := wsi s in
  let i := match p with
           | Sch => mk_wsi h (ne_heap i) (idle_heap i) (V i) (inv_wsum i) (wsum i)
           | Ne => mk_wsi (sch_heap i) h (idle_heap i) (V i) (inv_wsum i) (wsum i)
           | Idle => mk_wsi (sch_heap i) (ne_heap i) h (V i) (inv_wsum i) (wsum i)
           end in
  mk_w (wqueues s) i pos.

(** [heap_extract] on one of the heaps; [None] is [panic]. *)
Definition extract (p : place) (obj : Z) (s : wf2q) : option wf2q :=
  '(h, pos) ← heap_extract (heap_of p s) obj (wpos s); Some (put_heap p h pos s).

Section ops.
Context (malloc : Z -> bool).

(** [heap_insert] on one of the heaps; nobody looks at its result. *)
Definition insert (p : place) (k q : Z) (s : wf2q) : wf2q :=
  let '(_, h, pos) := heap_insert malloc (heap_of p s) k q (wpos s) in put_heap p h pos s.

(** ** The callbacks *)

(** The loop of [idle_check]; a turn takes a queue out of the heap.  [None]
    when the fuel is used up. *)
Fixpoint idle_loop (fuel : nat) (n : Z) (force : bool) (s : wf2q) : option wf2q :=
  match fuel with
  | O => None
  | Datatypes.S fuel' =>
      let h := idle_heap (wsi s) in
      if (0 <? n) && (0 <? elements h) && (force || DN_KEY_LT (key (HEAP_TOP h)) (V (wsi s))) then
        let q := object (HEAP_TOP h) in
        s ← extract Idle 0 s;
        let s := setw q (set_S (u64 (F (getw s q) + 1)) (getw s q)) s in
        let s := put_wsum (u32 (wsum (wsi s) - weight (getw s q))) s in
        let s := if 0 <? wsum (wsi s) then put_inv_wsum (u32 (ONE_FP / wsum (wsi s))) s else s in
        idle_loop fuel' (n - 1) force s
      else Some s
  end.

Definition idle_check (n : Z) (force : bool) (s : wf2q) : option wf2q :=
  idle_loop (Datatypes.S (Z.to_nat (elements (idle_heap (wsi s))))) n force s.

(** [wf2qp_enqueue] once the packet [m] is the only one of [q]. *)
Definition start_queue (q : Z) (m : mbuf) (s : wf2q) : option wf2q :=
  s ← (if DN_KEY_LT (F (getw s q)) (S (getw s q)) then
         let s := setw q (set_S (V (wsi s)) (getw s q)) s in
         let s := put_wsum (u32 (wsum (wsi s) + weight (getw s q))) s in
         Some (put_inv_wsum (u32 (ONE_FP / wsum (wsi s))) s)
       else
         s ← extract Idle q s;
         Some (setw q (set_S (MAX64 (F (getw s q)) (V (wsi s))) (getw s q)) s));
  let s := setw q (set_F (u64 (S (getw s q) + m_len m * inv_w (getw s q))) (getw s q)) s in
  let s := if (elements (ne_heap (wsi s)) =? 0) && (elements (sch_heap (wsi s)) =? 0)
           then put_V (MAX64 (S (getw s q)) (V (wsi s))) s else s in
  Some (if DN_KEY_LT (V (wsi s)) (S (getw s q)) then insert Ne (S (getw s q)) q s
        else insert Sch (F (getw s q)) q s).

(** [wf2qp_enqueue(si, q, m)]. *)
Definition wf2qp_enqueue (q : Z) (m : mbuf) (s : wf2q) : option (Z * wf2q) :=
  if negb (is_head (wq (getw s q)) m) then
    let '(ret, dq) := dn_enqueue (wq (getw s q)) m in
    let s := setw q (set_wq dq (getw s q)) s in
    if z2b ret then Some (1, s)
    else if negb (is_head (wq (getw s q)) m) then Some (0, s)
    else s ← start_queue q m s; Some (0, s)
  else s ← start_queue q m s; Some (0, s).

(** The queues that have become eligible move to [sch_heap]. *)
Fixpoint move_loop (fuel : nat) (s : wf2q) : option wf2q :=
  match fuel with
  | O => None
  | Datatypes.S fuel' =>
      let neh := ne_heap (wsi s) in
      if (0 <? elements neh) && DN_KEY_LEQ (key (HEAP_TOP neh)) (V (wsi s)) then
        let q := object (HEAP_TOP neh) in
        s ← extract Ne 0 s;
        move_loop fuel' (insert Sch (F (getw s q)) q s)
      else Some s
  end.

(** The first half of the loop of [wf2qp_dequeue]. *)
Definition make_eligible (s : wf2q) : option wf2q :=
  let s := if (elements (sch_heap (wsi s)) =? 0) && (0 <? elements (ne_heap (wsi s)))
           then put_V (MAX64 (V (wsi s)) (key (HEAP_TOP (ne_heap (wsi s))))) s else s in
  move_loop (Datatypes.S (Z.to_nat (elements (ne_heap (wsi s))))) s.

(** The second half; [None] is the dereference of a null packet. *)
Definition serve (s : wf2q) : option (mbuf * wf2q) :=
  let q := object (HEAP_TOP (sch_heap (wsi s))) in
  let '(o, dq) := dn_dequeue (wq (getw s q)) in
  let s := setw q (set_wq dq (getw s q)) s in
  s ← extract Sch 0 s;
  m ← o;
  let s := put_V (u64 (V (wsi s) + m_len m * inv_wsum (wsi s))) s in
  let s := setw q (set_S (F (getw s q)) (getw s q)) s in
  match q_pkts (wq (getw s q)) with
  | [] => Some (m, insert Idle (F (getw s q)) q s)
  | hd :: _ =>
      let s := setw q (set_F (u64 (F (getw s q) + m_len hd * inv_w (getw s q))) (getw s q)) s in
      if DN_KEY_LEQ (S (getw s q)) (V (wsi s)) then Some (m, insert Sch (F (getw s q)) q s)
      else Some (m, insert Ne (S (getw s q)) q s)
  end.

(** [wf2qp_dequeue]: the loop runs once to find the packet and a second time
    up to its exit. *)
Definition wf2qp_dequeue (s : wf2q) : option (option mbuf * wf2q) :=
  if (elements (sch_heap (wsi s)) =? 0) && (elements (ne_heap (wsi s)) =? 0) then
    s ← idle_check 2147483647 true s;
    Some (None, put_wsum 0 (put_V 0 s))
  else
    s ← idle_check 1 false s;
    s ← make_eligible s;
    '(m, s) ← serve s;
    s ← make_eligible s;
    Some (Some m, s).

(** [wf2qp_new_sched]: the error code and the instance. *)
Definition ENOMEM : Z := 12.
Definition wf2qp_new_sched (ofs : Z) (i : wf2qp_si) : Z * wf2qp_si :=
  let fail i := (ENOMEM, mk_wsi (heap_free (sch_heap i)) (heap_free (ne_heap i)) (heap_free (idle_heap i))
                           (V i) (inv_wsum i) (wsum i)) in
  let '(r, h) := heap_init malloc (idle_heap i) 16 ofs in
  let i := mk_wsi (sch_heap i) (ne_heap i) h (V i) (inv_wsum i) (wsum i) in
  if z2b r then fail i
  else
    let '(r, h) := heap_init malloc (sch_heap i) 16 ofs in
    let i := mk_wsi h (ne_heap i) (idle_heap i) (V i) (inv_wsum i) (wsum i) in
    if z2b r then fail i
    else
      let '(r, h) := heap_init malloc (ne_heap i) 16 ofs in
      let i := mk_wsi (sch_heap i) h (idle_heap i) (V i) (inv_wsum i) (wsum i) in
      if z2b r then fail i else (0, i).

Definition wf2qp_free_sched (i : wf2qp_si) : wf2qp_si :=
  mk_wsi (heap_free (sch_heap i)) (heap_free (ne_heap i)) (heap_free (idle_heap i)) (V i) (inv_wsum i) (wsum i).

Definition wf2qp_new_fsk (par0 : Z) : Z := ipdn_bound_var par0 1 1 100.

(** [wf2qp_new_queue]; [par0] is the weight of the flowset. *)
Definition wf2qp_new_queue (q par0 : Z) (s : wf2q) : option wf2q :=
  let x := getw s q in
  let s := setw q (mk_wq (wq x) (u64 (0 + 1)) 0 (u32 (ONE_FP / par0)) par0) s in
  match q_pkts (wq (getw s q)) with
  | [] => Some s
  | m :: _ => '(_, s) ← wf2qp_enqueue q m s; Some s
  end.

Definition wf2qp_free_queue (q : Z) (s : wf2q) : option wf2q :=
  if u64 (F (getw s q) + 1) <=? S (getw s q) then Some s
  else
    let s := put_wsum (u32 (wsum (wsi s) - weight (getw s q))) s in
    let s := if 0 <? wsum (wsi s) then put_inv_wsum (u32 (ONE_FP / wsum (wsi s))) s else s in
    match q_pkts (wq (getw s q)) with
    | [] => extract Idle q s
    | _ => if DN_KEY_LT (V (wsi s)) (S (getw s q)) then extract Ne q s else extract Sch q s
    end.

End ops.
End Wf2q.
Import Wf2q.

(** ** The queues are in their heaps *)

#[local] Arguments getw : simpl never.
#[local] Arguments setw : simpl never.

Lemma getw_setw q x s a : getw (setw q x s) a = if decide (a = q) then x else getw s a.
Proof.
  unfold getw, setw. simpl. rewrite !lookup_total_alt. case_decide as E.
  - rewrite E, lookup_insert_eq. done.
  - by rewrite lookup_insert_ne.
Qed.

Lemma getw_lookup s q x : wqueues s !! q = Some x -> getw s q = x.
Proof. apply lookup_total_correct. Qed.

Lemma lookup_getw s q : is_Some (wqueues s !! q) -> wqueues s !! q = Some (getw s q).
Proof. intros [x Hx]. by rewrite (getw_lookup _ _ _ Hx). Qed.

Lemma heap_of_put p p' h pos s : heap_of p' (put_heap p h pos s) = if decide (p' = p) then h else heap_of p' s.
Proof. destruct p, p'; done. Qed.

Definition upd (pl : Z -> option place) (q : Z) (v : option place) : Z -> option place :=
  fun a => if decide (a = q) then v else pl a.

Lemma upd_eq pl q v : upd pl q v q = v.
Proof. unfold upd. by rewrite decide_True. Qed.

Lemma upd_ne pl q v a : a <> q -> upd pl q v a = pl a.
Proof. intros. unfold upd. by rewrite decide_False. Qed.

Definition key_of (p : place) (x : wf2qp_queue) : Z := match p with Ne => S x | _ => F x end.

(** The part of the state besides the heaps. *)
Definition same_si (s s' : wf2q) : Prop :=
  V (wsi s') = V (wsi s) /\ inv_wsum (wsi s') = inv_wsum (wsi s) /\ wsum (wsi s') = wsum (wsi s).

Section heaps.
Context (base : Z).

(** [pl] gives the heap that a queue is in. *)
Record heaps_ok (s : wf2q) (pl : Z -> option place) : Prop := {
  hk_heap p : heap_ok base (heap_of p s) (wpos s) /\ 0 < h_ofs (heap_of p s);
  hk_mem p e : e ∈ entries (heap_of p s) <->
    exists x, wqueues s !! object e = Some x /\ pl (object e) = Some p /\ key e = key_of p x;
  hk_zero q : is_Some (wqueues s !! q) -> q <> 0;
  hk_size : Z.of_nat (size (wqueues s)) <= 2 ^ 20;
}.

Lemma heaps_ok_same s s' pl :
  heaps_ok s pl -> (forall p, heap_of p s' = heap_of p s) -> wpos s' = wpos s -> wqueues s' = wqueues s -> heaps_ok s' pl.
Proof. intros [H1 H2 H3 H4] E1 E2 E3. constructor; intros; rewrite ?E1, ?E2, ?E3 in *; auto. Qed.

(** The fields of a queue that is in no heap may change, and those that are
    not its key. *)
Lemma heaps_ok_setw s pl q y :
  heaps_ok s pl -> is_Some (wqueues s !! q) -> (forall p, pl q = Some p -> key_of p y = key_of p (getw s q)) ->
  heaps_ok (setw q y s) pl.
Proof.
  intros [H1 H2 H3 H4] Hq Hk. constructor; [done| | |].
  - intros p e. change (heap_of p (setw q y s)) with (heap_of p s). rewrite (H2 p e). unfold setw. simpl.
    destruct (decide (object e = q)) as [->|Hne].
    + rewrite lookup_insert_eq, (lookup_getw _ _ Hq). split; intros (x & [= <-] & Hp & ->); eexists; (split; [done|]); (split; [done|]).
      * symmetry. by apply Hk.
      * by apply Hk.
    + by rewrite lookup_insert_ne.
  - intros a Ha. unfold setw in Ha. simpl in Ha. apply lookup_insert_is_Some in Ha as [->|[_ ?]]; by apply H3.
  - unfold setw. simpl. by rewrite map_size_insert_Some.
Qed.

Lemma heaps_elements s pl p : heaps_ok s pl -> elements (heap_of p s) <= Z.of_nat (size (wqueues s)) /\ 0 <= elements (heap_of p s).
Proof.
  intros [H1 H2 _ _]. destruct (H1 p) as [Hok _]. pose proof (heap_ok_bounds _ _ _ Hok) as Hb. split; [|lia].
  pose proof (heap_ok_NoDup _ _ _ Hok) as HN.
  assert (Hl : length (map object (entries (heap_of p s))) = Z.to_nat (elements (heap_of p s))).
  { rewrite length_map. unfold entries. rewrite length_take. lia. }
  assert (Hs : (length (map object (entries (heap_of p s))) <= size (wqueues s))%nat); [|lia].
  rewrite <- (size_dom (D := gset Z)), <- (size_list_to_set (C := gset Z) _ HN).
  apply subseteq_size. intros a Ha%elem_of_list_to_set. apply elem_of_dom.
  apply list_elem_of_fmap in Ha as (e & -> & He). apply H2 in He as (x & Hx & _). by eexists.
Qed.

(** The object of a heap is in no other one. *)
Lemma heaps_disjoint s pl p p' e e' :
  heaps_ok s pl -> e ∈ entries (heap_of p s) -> e' ∈ entries (heap_of p' s) -> object e = object e' -> p = p'.
Proof.
  intros [_ H2 _ _] He He' E. apply H2 in He as (x & _ & Hp & _). apply H2 in He' as (x' & _ & Hp' & _). congruence.
Qed.

Lemma heaps_extracted s pl p e h' pos' :
  heaps_ok s pl -> heap_ok base h' pos' -> entries (heap_of p s) ≡ₚ e :: entries h' ->
  frame (entries (heap_of p s)) (wpos s) pos' -> h_ofs h' = h_ofs (heap_of p s) ->
  heaps_ok (put_heap p h' pos' s) (upd pl (object e) None) /\ pl (object e) = Some p /\
  wqueues s !! object e = Some (getw s (object e)) /\ key e = key_of p (getw s (object e)).
Proof.
  intros Hk Hok' HP Hfr Hofs. pose proof Hk as [H1 H2 H3 H4].
  assert (He : e ∈ entries (heap_of p s)) by (rewrite HP; by left).
  pose proof (proj1 (H2 p e) He) as (x & Hx & Hp & Hkey).
  split_and!; [|done|by apply lookup_getw|by rewrite (getw_lookup _ _ _ Hx)].
  pose proof (heap_ok_NoDup _ _ _ (proj1 (H1 p))) as HN. rewrite (Permutation_map object HP) in HN. simpl in HN.
  apply list.NoDup_cons in HN as [Hnin HN].
  constructor; [| |done|done].
  - intros p'. rewrite heap_of_put. case_decide as E; [subst p'; rewrite Hofs; split; [done|apply H1]|].
    split; [|apply H1]. apply (heap_ok_frame _ _ (wpos s)); [apply H1|]. intros a (e' & -> & He')%list_elem_of_fmap.
    apply Hfr. intros (e2 & E2 & He2)%list_elem_of_fmap. apply E.
    by apply (heaps_disjoint s pl p' p e' e2 Hk).
  - intros p' e'. rewrite heap_of_put. simpl. case_decide as E.
    + subst p'. split.
      * intros He'. destruct (proj1 (H2 p e')) as (x' & Hx' & Hp' & Hk'); [rewrite HP; by right|].
        exists x'. split_and!; [done| |done]. rewrite upd_ne; [done|]. intros Eo. apply Hnin. rewrite <- Eo.
        apply list_elem_of_fmap. by exists e'.
      * intros (x' & Hx' & Hp' & Hk'). destruct (decide (object e' = object e)) as [Eo|Eo].
        { rewrite Eo, upd_eq in Hp'. done. }
        rewrite upd_ne in Hp' by done. assert (He' : e' ∈ entries (heap_of p s)) by (apply H2; eauto).
        rewrite HP in He'. apply elem_of_cons in He' as [->|]; done.
    + rewrite (H2 p' e'). destruct (decide (object e' = object e)) as [Eo|Eo].
      * rewrite Eo, upd_eq. split; intros (x' & Hx' & Hp' & _); [|done]. exfalso. congruence.
      * by rewrite upd_ne.
Qed.

Lemma extract_top_spec s pl p :
  heaps_ok s pl -> 0 < elements (heap_of p s) ->
  let e := HEAP_TOP (heap_of p s) in
  exists s', extract p 0 s = Some s' /\ heaps_ok s' (upd pl (object e) None) /\ pl (object e) = Some p /\
    wqueues s !! object e = Some (getw s (object e)) /\ key e = key_of p (getw s (object e)) /\
    wqueues s' = wqueues s /\ same_si s s' /\ elements (heap_of p s') = elements (heap_of p s) - 1 /\
    (forall p', p' <> p -> heap_of p' s' = heap_of p' s).
Proof.
  intros Hk He e. destruct (heap_extract_top base _ _ (proj1 (hk_heap _ _ Hk p)) He) as (h' & pos' & E & Hok' & HP & Hfr & Ho & Hel).
  destruct (heaps_extracted s pl p e h' pos' Hk Hok' HP Hfr Ho) as (H1 & H2 & H3 & H4).
  exists (put_heap p h' pos' s). unfold extract. rewrite E. split_and!; try done; try (by destruct p).
  intros p' Hp'. by rewrite heap_of_put, decide_False.
Qed.

Lemma extract_obj_spec s pl p q :
  heaps_ok s pl -> is_Some (wqueues s !! q) -> pl q = Some p ->
  exists s', extract p q s = Some s' /\ heaps_ok s' (upd pl q None) /\ wqueues s' = wqueues s /\ same_si s s'.
Proof.
  intros Hk Hq Hp. set (e := mk_entry (key_of p (getw s q)) q).
  assert (He : e ∈ entries (heap_of p s)) by (apply (hk_mem _ _ Hk); exists (getw s q); split; [by apply lookup_getw|done]).
  destruct (hk_heap _ _ Hk p) as [Hok Hofs].
  destruct (heap_extract_obj base _ _ e Hok He (hk_zero _ _ Hk q Hq) Hofs) as (h' & pos' & E & Hok' & HP & Hfr & Ho & Hel).
  destruct (heaps_extracted s pl p e h' pos' Hk Hok' HP Hfr Ho) as (H1 & _).
  exists (put_heap p h' pos' s). unfold extract. simpl in E. rewrite E. split_and!; try done; by destruct p.
Qed.

Context (malloc : Z -> bool).
Hypothesis malloc_ok : forall n, malloc n = true.

Lemma insert_spec s pl p q :
  heaps_ok s pl -> is_Some (wqueues s !! q) -> pl q = None -> in_window base (key_of p (getw s q)) ->
  let s' := insert malloc p (key_of p (getw s q)) q s in
  heaps_ok s' (upd pl q (Some p)) /\ wqueues s' = wqueues s /\ same_si s s' /\
  elements (heap_of p s') = elements (heap_of p s) + 1 /\ (forall p', p' <> p -> heap_of p' s' = heap_of p' s).
Proof.
  intros Hk Hq Hp Hw s'. pose proof Hk as [H1 H2 H3 H4]. destruct (H1 p) as [Hok Hofs].
  assert (Hout : forall p', q ∉ map object (entries (heap_of p' s))).
  { intros p' (e & -> & He)%list_elem_of_fmap. apply H2 in He as (x & _ & Hpe & _). congruence. }
  pose proof (heaps_elements s pl p Hk) as Hel.
  unfold s', insert. destruct (heap_insert malloc _ _ _ _) as [[ret h'] pos'] eqn:E.
  apply (heap_insert_ok base) in E; [|done|done|apply Hout|lia].
  destruct E as [(-> & Hok' & HP & Hfr & Ho & Hel')|(_ & _ & _ & _ & Hf)]; [|by rewrite malloc_ok in Hf].
  split_and!; try (by destruct p).
  - constructor; [| |done|done].
    + intros p'. rewrite heap_of_put. case_decide as E; [subst p'; rewrite Ho; done|].
      split; [|apply H1]. apply (heap_ok_frame _ _ (wpos s)); [apply H1|]. intros a Ha. apply Hfr.
      simpl. intros [->|(e2 & -> & He2)%list_elem_of_fmap]%elem_of_cons; [by apply (Hout p')|].
      apply list_elem_of_fmap in Ha as (e' & E' & He'). apply E. by apply (heaps_disjoint s pl p' p e' e2 Hk).
    + intros p' e'. rewrite heap_of_put. simpl. destruct (decide (object e' = q)) as [Eo|Eo].
      * rewrite Eo, upd_eq. case_decide as E.
        -- subst p'. rewrite HP, elem_of_cons. rewrite (lookup_getw _ _ Hq). split.
           ++ intros [->|He']; [by eexists|]. exfalso. apply (Hout p), list_elem_of_fmap. by exists e'.
           ++ intros (x & [= <-] & _ & Hkey). left. destruct e'. simpl in *. by subst.
        -- split; [|intros (x & _ & [= ->] & _); done]. intros He'. exfalso. apply (Hout p'), list_elem_of_fmap. by exists e'.
      * rewrite upd_ne by done. case_decide as E; [|apply H2]. subst p'. rewrite HP, elem_of_cons, (H2 p e').
        split; [intros [->|?]; done|by right].
  - intros p' Hp'. by rewrite heap_of_put, decide_False.
Qed.

End heaps.

(** ** The sum of the weights *)

Definition msum (M : gmap Z Z) : Z := map_fold (fun _ w n => w + n) 0 M.

Lemma msum_delete M q w : M !! q = Some w -> msum M = w + msum (delete q M).
Proof. intros H. unfold msum. apply (map_fold_delete_L (fun _ w n => w + n)); [intros; lia|done]. Qed.

Lemma msum_insert M q w w' : M !! q = Some w -> msum (<[q := w']> M) = msum M - w + w'.
Proof.
  intros H. rewrite (msum_delete M q w H), (msum_delete (<[q := w']> M) q w' (lookup_insert_eq _ _ _)).
  rewrite delete_insert_eq. lia.
Qed.

Lemma msum_bounds M c :
  0 <= c -> (forall q w, M !! q = Some w -> 0 <= w <= c) -> 0 <= msum M <= c * Z.of_nat (size M).
Proof.
  intros Hc. unfold msum. apply (map_fold_weak_ind (fun r m => (forall q w, m !! q = Some w -> 0 <= w <= c) -> 0 <= r <= c * Z.of_nat (size m))).
  - intros _. rewrite map_size_empty. lia.
  - intros q w m r Hq IH H. assert (0 <= w <= c) by (apply (H q w), lookup_insert_eq).
    destruct IH as [? ?]; [|rewrite map_size_insert_None by done; lia].
    intros q' w' Hq'. apply (H q' w'). rewrite lookup_insert_ne; [done|]. intros ->. congruence.
Qed.

(** What the queues add to the sum. *)
Definition contribution (pl : Z -> option place) (q : Z) (x : wf2qp_queue) : Z :=
  match pl q with None => 0 | Some _ => weight x end.
Definition contributions (s : wf2q) (pl : Z -> option place) : gmap Z Z :=
  map_imap (fun q x => Some (contribution pl q x)) (wqueues s).
Definition weights (s : wf2q) (pl : Z -> option place) : Z := msum (contributions s pl).

Lemma contributions_lookup s pl q x : wqueues s !! q = Some x -> contributions s pl !! q = Some (contribution pl q x).
Proof. intros H. unfold contributions. by rewrite map_lookup_imap, H. Qed.

(** A queue changes its place and its fields. *)
Lemma weights_upd s s' pl q p :
  is_Some (wqueues s !! q) -> wqueues s' = <[q := getw s' q]> (wqueues s) ->
  weights s' (upd pl q p) =
    weights s pl - contribution pl q (getw s q) + (match p with None => 0 | Some _ => weight (getw s' q) end).
Proof.
  intros Hq E. unfold weights. rewrite <- (msum_insert _ q) by (apply contributions_lookup, lookup_getw; done). f_equal.
  apply map_eq. intros a. unfold contributions. rewrite map_lookup_imap, E. destruct (decide (a = q)) as [->|Hne].
  - rewrite !lookup_insert_eq. simpl. unfold contribution. by rewrite upd_eq.
  - rewrite !lookup_insert_ne, map_lookup_imap by done. destruct (wqueues s !! a); [|done]. simpl. unfold contribution. by rewrite upd_ne.
Qed.

Lemma weights_same s s' pl : wqueues s' = wqueues s -> weights s' pl = weights s pl.
Proof. intros E. unfold weights, contributions. by rewrite E. Qed.

Lemma weights_moved s pl q p p' :
  is_Some (wqueues s !! q) -> pl q = Some p -> weights s (upd pl q (Some p')) = weights s pl.
Proof.
  intros Hq Hp. rewrite (weights_upd s s pl q); [|done|by rewrite insert_id by (by apply lookup_getw)].
  unfold contribution. rewrite Hp. lia.
Qed.

(** ** Times *)

Lemma rank_nonneg base t : 0 <= rank base t < 2 ^ 64.
Proof. unfold rank, u64, wrap. apply Z.mod_pos_bound. lia. Qed.

Lemma rank_add base t d : 0 <= d -> rank base t + d < 2 ^ 64 -> rank base (u64 (t + d)) = rank base t + d.
Proof.
  intros Hd Hb. pose proof (rank_nonneg base t) as Hr. unfold rank, u64, wrap in *. rewrite Zminus_mod_idemp_l.
  replace (t + d - base) with (t - base + d) by lia. rewrite <- Zplus_mod_idemp_l. apply Z.mod_small. lia.
Qed.

Lemma MAX64_rank base x y :
  in_window base x -> in_window base y ->
  rank base (MAX64 x y) = Z.max (rank base x) (rank base y) /\ (MAX64 x y = x \/ MAX64 x y = y).
Proof.
  intros Hx Hy. unfold MAX64. rewrite (key_diff base y x Hy Hx). case_if; (split; [lia|auto]).
Qed.

(** ** The invariant *)

Lemma inv_bound w : 1 <= w -> 0 <= ONE_FP / w <= 2 ^ 28.
Proof. intros Hw. unfold ONE_FP, FRAC_BITS. change (Z.shiftl 1 28) with (2 ^ 28). split; [apply Z.div_pos; lia|apply Z.div_le_upper_bound; nia]. Qed.

Section inv.
Context (L base : Z).

(** The configuration of a queue and its packets, of at most [L] bytes. *)
Record queue_cfg (q : Z) (x : wf2qp_queue) : Prop := {
  qc_dnq : dnq_ok (wq x);
  qc_pkts : Forall (fun m => SchedMain.FI2Q (m_flow m) = q /\ 0 <= m_len m <= L) (q_pkts (wq x));
  qc_weight : 1 <= weight x <= 100;
  qc_inv : inv_w x = ONE_FP / weight x;
}.

(** The times of a queue with packets. *)
Definition backlog_times (hi : Z) (x : wf2qp_queue) : Prop :=
  exists m rest, q_pkts (wq x) = m :: rest /\ rank base (F x) = rank base (S x) + m_len m * inv_w x /\ rank base (F x) <= hi.

Definition queue_times (hi v : Z) (x : wf2qp_queue) (p : option place) : Prop :=
  match p with
  | None => q_pkts (wq x) = [] /\ S x = u64 (F x + 1)
  | Some Idle => q_pkts (wq x) = [] /\ S x = F x /\ rank base (F x) <= hi
  | Some Sch => backlog_times hi x /\ rank base (S x) <= rank base v
  | Some Ne => backlog_times hi x
  end.

(** Every time is at most [hi] past [base]. *)
Record wf_inv (hi : Z) (s : wf2q) (pl : Z -> option place) : Prop := {
  wi_heaps : heaps_ok base s pl;
  wi_hi : 0 <= hi < 2 ^ 63;
  wi_V : rank base (V (wsi s)) <= hi;
  wi_cfg : forall q, is_Some (wqueues s !! q) -> queue_cfg q (getw s q);
  wi_times : forall q, is_Some (wqueues s !! q) -> queue_times hi (V (wsi s)) (getw s q) (pl q);
  wi_wsum : wsum (wsi s) = weights s pl;
  wi_inv : 0 < wsum (wsi s) -> inv_wsum (wsi s) = ONE_FP / wsum (wsi s);
  wi_place : forall q, pl q <> None -> is_Some (wqueues s !! q);
}.

(** The queues of [ne_heap] are not eligible. *)
Definition settled (s : wf2q) (pl : Z -> option place) : Prop :=
  forall q, pl q = Some Ne -> rank base (V (wsi s)) < rank base (S (getw s q)).

Lemma cfg_inv q x : queue_cfg q x -> 0 <= inv_w x <= 2 ^ 28.
Proof. intros [_ _ Hw ->]. apply inv_bound. lia. Qed.

Lemma times_window hi v q x p :
  queue_cfg q x -> hi < 2 ^ 63 -> queue_times hi v x (Some p) -> in_window base (S x) /\ in_window base (F x) /\
  rank base (S x) <= rank base (F x) <= hi.
Proof.
  intros Hc Hhi Ht. pose proof (cfg_inv _ _ Hc) as Hi. unfold in_window.
  assert (Hb : backlog_times hi x -> rank base (S x) <= rank base (F x) <= hi).
  { intros (m & rest & E & Hf & Hh). pose proof (qc_pkts _ _ Hc) as Hp. rewrite E in Hp.
    apply list.Forall_cons in Hp as [[_ Hm] _]. nia. }
  destruct p; simpl in Ht; [destruct Ht as [Ht _]; specialize (Hb Ht); lia|specialize (Hb Ht); lia|].
  destruct Ht as (_ & -> & ?). lia.
Qed.

Lemma key_window hi s pl q p :
  wf_inv hi s pl -> pl q = Some p -> in_window base (key_of p (getw s q)).
Proof.
  intros Hi Hp. assert (Hq : is_Some (wqueues s !! q)) by (apply (wi_place _ _ _ Hi); congruence).
  pose proof (wi_times _ _ _ Hi q Hq) as Ht. rewrite Hp in Ht.
  destruct (times_window _ _ _ _ _ (wi_cfg _ _ _ Hi q Hq) (proj2 (wi_hi _ _ _ Hi)) Ht) as (? & ? & _). by destruct p.
Qed.

Lemma V_window hi s pl : wf_inv hi s pl -> in_window base (V (wsi s)).
Proof. intros Hi. pose proof (wi_V _ _ _ Hi). pose proof (wi_hi _ _ _ Hi). unfold in_window. lia. Qed.

Lemma weights_bounds hi s pl :
  wf_inv hi s pl -> 0 <= weights s pl <= 2 ^ 27 /\
  (forall q, pl q <> None -> 1 <= weight (getw s q) <= weights s pl).
Proof.
  intros Hi. pose proof (hk_size _ _ _ (wi_heaps _ _ _ Hi)) as Hs.
  assert (Hc : forall q w, contributions s pl !! q = Some w -> 0 <= w <= 100).
  { intros q w H. unfold contributions in H. rewrite map_lookup_imap in H.
    destruct (wqueues s !! q) as [x|] eqn:E; simplify_eq/=. pose proof (qc_weight _ _ (wi_cfg _ _ _ Hi q ltac:(by eexists))) as Hw.
    rewrite (getw_lookup _ _ _ E) in Hw. unfold contribution. destruct (pl q); lia. }
  pose proof (msum_bounds (contributions s pl) 100 ltac:(lia) Hc) as Hb. fold (weights s pl) in Hb.
  assert (Hsz : (size (contributions s pl) <= size (wqueues s))%nat).
  { rewrite <- !(size_dom (D := gset Z)). apply subseteq_size. intros q. rewrite !elem_of_dom. unfold contributions.
    rewrite map_lookup_imap. destruct (wqueues s !! q); [done|]. by intros [? ?]. }
  split; [lia|]. intros q Hp. assert (Hq : is_Some (wqueues s !! q)) by (by apply (wi_place _ _ _ Hi)).
  pose proof (qc_weight _ _ (wi_cfg _ _ _ Hi q Hq)) as Hw.
  pose proof (contributions_lookup s pl q _ (lookup_getw _ _ Hq)) as Hl. unfold weights. rewrite (msum_delete _ _ _ Hl).
  destruct (msum_bounds (delete q (contributions s pl)) 100) as [Hd _]; [lia| |].
  - intros a w Ha. apply (Hc a). by apply lookup_delete_Some in Ha as [_ ?].
  - unfold contribution. destruct (pl q); [lia|done].
Qed.

(** *** Draining the idle heap *)

(** [idle_check] on a queue that it has taken out of the heap. *)
Definition retire (q : Z) (s : wf2q) : wf2q :=
  let s := setw q (set_S (u64 (F (getw s q) + 1)) (getw s q)) s in
  let s := put_wsum (u32 (wsum (wsi s) - weight (getw s q))) s in
  if 0 <? wsum (wsi s) then put_inv_wsum (u32 (ONE_FP / wsum (wsi s))) s else s.

(** Only idle queues are touched, and they may be forgotten. *)
Record quiet (s : wf2q) (pl : Z -> option place) (s' : wf2q) (pl' : Z -> option place) : Prop := {
  qt_V : V (wsi s') = V (wsi s);
  qt_heap : forall p, p <> Idle -> heap_of p s' = heap_of p s;
  qt_queue : forall q, pl q <> Some Idle -> pl' q = pl q /\ getw s' q = getw s q;
  qt_idle : forall q, pl q = Some Idle -> pl' q = Some Idle \/ pl' q = None;
  qt_pkts : forall q, wq (getw s' q) = wq (getw s q);
  qt_dom : forall q, is_Some (wqueues s' !! q) <-> is_Some (wqueues s !! q);
}.

Lemma quiet_refl s pl : quiet s pl s pl.
Proof. by constructor; auto. Qed.

Lemma quiet_trans s1 p1 s2 p2 s3 p3 : quiet s1 p1 s2 p2 -> quiet s2 p2 s3 p3 -> quiet s1 p1 s3 p3.
Proof.
  intros [A1 A2 A3 A4 A5 A6] [B1 B2 B3 B4 B5 B6]. constructor.
  - congruence.
  - intros p Hp. by rewrite B2, A2.
  - intros q Hq. destruct (A3 q Hq) as [E1 E2]. destruct (B3 q) as [E3 E4]; [congruence|]. split; congruence.
  - intros q Hq. destruct (A4 q Hq) as [E|E]; [by apply B4|]. right. destruct (B3 q) as [-> _]; [by rewrite E|done].
  - intros q. by rewrite B5.
  - intros q. by rewrite B6.
Qed.

Lemma wsi_retire q s :
  wqueues (retire q s) = <[q := getw (retire q s) q]> (wqueues s) /\
  getw (retire q s) q = set_S (u64 (F (getw s q) + 1)) (getw s q) /\ (forall a, a <> q -> getw (retire q s) a = getw s a) /\
  V (wsi (retire q s)) = V (wsi s) /\ (forall p, heap_of p (retire q s) = heap_of p s) /\ wpos (retire q s) = wpos s /\
  wsum (wsi (retire q s)) = u32 (wsum (wsi s) - weight (getw s q)) /\
  (0 < wsum (wsi (retire q s)) -> inv_wsum (wsi (retire q s)) = u32 (ONE_FP / wsum (wsi (retire q s)))).
Proof.
  set (x := set_S (u64 (F (getw s q) + 1)) (getw s q)).
  assert (Hg : forall a, getw (retire q s) a = if decide (a = q) then x else getw s a).
  { intros a. unfold retire. cbv zeta. case_if; apply getw_setw. }
  rewrite Hg, decide_True by done. split_and!; try done.
  - unfold retire. cbv zeta. by case_if.
  - intros a Ha. by rewrite Hg, decide_False.
  - unfold retire. cbv zeta. by case_if.
  - intros p. unfold retire. cbv zeta. case_if; by destruct p.
  - unfold retire. cbv zeta. by case_if.
  - unfold retire. cbv zeta. simpl. rewrite getw_setw, decide_True by done. by case_if.
  - unfold retire. cbv zeta. case_if; [done|]. intros. lia.
Qed.

(** Membership of the queues after one of them was written. *)
Lemma insert_dom s s' q y :
  wqueues s' = <[q := y]> (wqueues s) -> is_Some (wqueues s !! q) -> forall a, is_Some (wqueues s' !! a) <-> is_Some (wqueues s !! a).
Proof.
  intros E Hq a. rewrite E. destruct (decide (a = q)) as [->|Hne]; [by rewrite lookup_insert_eq|by rewrite lookup_insert_ne].
Qed.

Lemma getw_same s s' q : wqueues s' = wqueues s -> getw s' q = getw s q.
Proof. intros E. unfold getw. by rewrite E. Qed.

Lemma idle_turn hi s pl :
  wf_inv hi s pl -> 0 < elements (idle_heap (wsi s)) ->
  let q := object (HEAP_TOP (idle_heap (wsi s))) in
  exists s1, extract Idle 0 s = Some s1 /\ wf_inv hi (retire q s1) (upd pl q None) /\
    quiet s pl (retire q s1) (upd pl q None) /\
    elements (idle_heap (wsi (retire q s1))) = elements (idle_heap (wsi s)) - 1.
Proof.
  intros Hi He q. destruct (extract_top_spec base s pl Idle (wi_heaps _ _ _ Hi) He)
    as (s1 & E & Hk & Hp & Hl & _ & Eq & (EV & Ei & Ew) & Hel & Hoth). simpl in Hk, Hp, Hl. fold q in Hk, Hp, Hl.
  exists s1. split; [done|]. assert (Hq : is_Some (wqueues s !! q)) by (rewrite Hl; by eexists).
  pose proof (fun a => getw_same s s1 a Eq) as Hg1.
  destruct (wsi_retire q s1) as (R1 & R2 & R3 & R4 & R5 & R6 & R7 & R8). set (s' := retire q s1) in *.
  assert (Hdom : forall a, is_Some (wqueues s' !! a) <-> is_Some (wqueues s !! a)).
  { intros a. rewrite <- Eq. apply (insert_dom s1 s' q (getw s' q) R1). by rewrite Eq. }
  pose proof (weights_bounds _ _ _ Hi) as [Hwb Hwq]. specialize (Hwq q ltac:(congruence)).
  assert (Hw : weights s' (upd pl q None) = weights s pl - weight (getw s q)).
  { rewrite (weights_upd s s' pl q); [|done|by rewrite <- Eq]. unfold contribution. rewrite Hp. lia. }
  assert (Hws : wsum (wsi s') = weights s' (upd pl q None)).
  { rewrite R7, Hw, Ew, Hg1, (wi_wsum _ _ _ Hi). apply u32_id. unfold is_u32. lia. }
  split_and!.
  - constructor.
    + assert (Hk' : heaps_ok base (setw q (getw s' q) s1) (upd pl q None)).
      { apply heaps_ok_setw; [done|by rewrite Eq|]. rewrite upd_eq. done. }
      eapply heaps_ok_same; [exact Hk'|intros p; apply R5|exact R6|exact R1].
    + apply Hi.
    + rewrite R4, EV. apply Hi.
    + intros a Ha. rewrite Hdom in Ha. pose proof (wi_cfg _ _ _ Hi a Ha) as [H1 H2 H3 H4].
      destruct (decide (a = q)) as [->|Hne]; [rewrite R2|rewrite R3 by done]; rewrite ?Hg1; constructor; done.
    + intros a Ha. rewrite Hdom in Ha. pose proof (wi_times _ _ _ Hi a Ha) as Ht. rewrite R4, EV.
      destruct (decide (a = q)) as [->|Hne]; [rewrite R2, upd_eq|rewrite R3, upd_ne by done]; rewrite ?Hg1; [|done].
      rewrite Hp in Ht. simpl in Ht |- *. by destruct Ht as (? & _).
    + done.
    + intros Hpos. rewrite R8, Hws by done. apply u32_id. unfold is_u32. pose proof (inv_bound (weights s' (upd pl q None))). lia.
    + intros a Ha. rewrite Hdom. apply (wi_place _ _ _ Hi). intros Hn. apply Ha. unfold upd. by case_decide.
  - constructor.
    + by rewrite R4.
    + intros p Hne. by rewrite R5, Hoth.
    + intros a Ha. assert (a <> q) by congruence. by rewrite upd_ne, R3, Hg1.
    + intros a Ha. unfold upd. case_decide; [by right|by left].
    + intros a. destruct (decide (a = q)) as [->|Hne]; [by rewrite R2, <- Hg1|by rewrite R3, Hg1].
    + done.
  - change (idle_heap (wsi s')) with (heap_of Idle s'). rewrite R5. exact Hel.
Qed.

Lemma idle_loop_spec force fuel : forall n hi s pl,
  wf_inv hi s pl -> elements (idle_heap (wsi s)) < Z.of_nat fuel ->
  exists s' pl', idle_loop fuel n force s = Some s' /\ wf_inv hi s' pl' /\ quiet s pl s' pl' /\
    (force = true -> elements (idle_heap (wsi s)) <= n -> elements (idle_heap (wsi s')) = 0).
Proof.
  induction fuel as [|fuel IH]; intros n hi s pl Hi Hf.
  { pose proof (heaps_elements _ _ _ Idle (wi_heaps _ _ _ Hi)) as He. simpl in He. lia. }
  pose proof (heaps_elements _ _ _ Idle (wi_heaps _ _ _ Hi)) as He. simpl in He. simpl idle_loop.
  destruct ((0 <? n) && (0 <? elements (idle_heap (wsi s))) && _) eqn:Eb.
  - apply andb_true_iff in Eb as [Eb _]. apply andb_true_iff in Eb as [Hn Hel].
    destruct (idle_turn hi s pl Hi ltac:(lia)) as (s1 & E1 & Hi1 & Hq1 & He1). rewrite E1. simpl.
    set (q := object _) in *. change (if 0 <? _ then _ else _) with (retire q s1).
    destruct (IH (n - 1) hi (retire q s1) (upd pl q None) Hi1 ltac:(lia)) as (s' & pl' & E & Hi' & Hq' & Hz).
    exists s', pl'. split_and!; [done|done|by eapply quiet_trans|]. intros Hfo Hle. apply Hz; [done|lia].
  - exists s, pl. split_and!; [done|done|apply quiet_refl|]. intros -> Hle. simpl in Eb. rewrite andb_true_r in Eb. lia.
Qed.

Lemma settled_quiet s pl s' pl' : quiet s pl s' pl' -> settled s pl -> settled s' pl'.
Proof.
  intros [A1 A2 A3 A4 A5 A6] Hs q Hq. rewrite A1. destruct (pl q) as [p|] eqn:E.
  - destruct (decide (p = Idle)) as [->|Hne]; [destruct (A4 q E); congruence|].
    destruct (A3 q) as [E1 E2]; [congruence|]. rewrite E2. apply Hs. congruence.
  - destruct (A3 q) as [E1 E2]; congruence.
Qed.

(** *** Moving the queues that have become eligible *)

Context (malloc : Z -> bool).
Hypothesis malloc_ok : forall n, malloc n = true.

Lemma heaps_ok_ext s pl pl' : heaps_ok base s pl -> (forall a, pl' a = pl a) -> heaps_ok base s pl'.
Proof. intros [H1 H2 H3 H4] E. constructor; try done. intros p e. rewrite E. apply H2. Qed.

Lemma upd_upd pl q v v' a : upd (upd pl q v) q v' a = upd pl q v' a.
Proof. unfold upd. by case_decide. Qed.

Lemma move_turn hi s pl :
  wf_inv hi s pl -> 0 < elements (ne_heap (wsi s)) ->
  rank base (key (HEAP_TOP (ne_heap (wsi s)))) <= rank base (V (wsi s)) ->
  let q := object (HEAP_TOP (ne_heap (wsi s))) in
  exists s1, extract Ne 0 s = Some s1 /\
    let s' := insert malloc Sch (F (getw s1 q)) q s1 in
    wf_inv hi s' (upd pl q (Some Sch)) /\ wqueues s' = wqueues s /\ V (wsi s') = V (wsi s) /\ pl q = Some Ne /\
    elements (ne_heap (wsi s')) = elements (ne_heap (wsi s)) - 1.
Proof.
  intros Hi He Hr q. destruct (extract_top_spec base s pl Ne (wi_heaps _ _ _ Hi) He)
    as (s1 & E & Hk & Hp & Hl & Hkey & Eq & (EV & Ei & Ew) & Hel & _). simpl in Hk, Hp, Hl, Hkey. fold q in Hk, Hp, Hl, Hkey.
  exists s1. split; [done|]. intros s'. pose proof (getw_same s s1 q Eq) as Hg1.
  assert (Hq : is_Some (wqueues s !! q)) by (rewrite Hl; by eexists).
  pose proof (wi_times _ _ _ Hi q Hq) as Ht. rewrite Hp in Ht.
  destruct (times_window _ _ _ _ _ (wi_cfg _ _ _ Hi q Hq) (proj2 (wi_hi _ _ _ Hi)) Ht) as (_ & HwF & _).
  destruct (insert_spec base malloc malloc_ok s1 (upd pl q None) Sch q Hk) as (Hk' & Eq' & (EV' & Ei' & Ew') & _ & Hoth).
  { by rewrite Eq. } { apply upd_eq. } { by rewrite Hg1. }
  simpl key_of in Hk', Eq', EV', Ei', Ew', Hoth. fold s' in Hk', Eq', EV', Ei', Ew', Hoth.
  assert (Eqs : wqueues s' = wqueues s) by congruence.
  split_and!; try congruence.
  - constructor.
    + eapply heaps_ok_ext; [exact Hk'|]. intros a. by rewrite upd_upd.
    + apply Hi.
    + rewrite EV', EV. apply Hi.
    + intros a Ha. rewrite Eqs in Ha. rewrite (getw_same s s' a Eqs). by apply (wi_cfg _ _ _ Hi).
    + intros a Ha. rewrite Eqs in Ha. rewrite (getw_same s s' a Eqs), EV', EV. pose proof (wi_times _ _ _ Hi a Ha) as Hta.
      destruct (decide (a = q)) as [->|Hne]; [rewrite upd_eq|by rewrite upd_ne]. split; [done|]. rewrite Hkey in Hr. exact Hr.
    + rewrite Ew', Ew, (wi_wsum _ _ _ Hi), (weights_same s s') by done. symmetry. by eapply weights_moved.
    + rewrite Ew', Ew, Ei', Ei. apply Hi.
    + intros a Ha. rewrite Eqs. destruct (decide (a = q)) as [->|Hne]; [done|]. rewrite upd_ne in Ha by done. by apply (wi_place _ _ _ Hi).
  - change (ne_heap (wsi s')) with (heap_of Ne s'). rewrite Hoth by done. exact Hel.
Qed.

(** Queues move from [ne_heap] to [sch_heap]. *)
Definition promoted (pl pl' : Z -> option place) : Prop :=
  forall q, pl' q = pl q \/ (pl q = Some Ne /\ pl' q = Some Sch).

Lemma top_of_place s pl p q :
  heaps_ok base s pl -> is_Some (wqueues s !! q) -> pl q = Some p ->
  0 < elements (heap_of p s) /\ rank base (key (HEAP_TOP (heap_of p s))) <= rank base (key_of p (getw s q)).
Proof.
  intros Hk Hq Hp. set (e := mk_entry (key_of p (getw s q)) q).
  assert (He : e ∈ entries (heap_of p s)).
  { apply (hk_mem _ _ _ Hk). exists (getw s q). split; [by apply lookup_getw|done]. }
  destruct (hk_heap _ _ _ Hk p) as [Hok _]. split; [|by apply (heap_top_min base _ _ e Hok)].
  unfold entries in He. destruct (Z.leb_spec (elements (heap_of p s)) 0); [|lia].
  rewrite Z2Nat.nonpos in He by done. simpl in He. by apply not_elem_of_nil in He.
Qed.

Lemma place_of_top s pl p :
  heaps_ok base s pl -> 0 < elements (heap_of p s) ->
  let e := HEAP_TOP (heap_of p s) in
  pl (object e) = Some p /\ is_Some (wqueues s !! object e) /\ key e = key_of p (getw s (object e)).
Proof.
  intros Hk He e. assert (Hin : e ∈ entries (heap_of p s)) by (apply (heap_top_elem base _ (wpos s)); [apply Hk|done]).
  apply (hk_mem _ _ _ Hk) in Hin as (x & Hx & Hp & Hkey). split_and!; [done|by eexists|by rewrite (getw_lookup _ _ _ Hx)].
Qed.

Lemma move_loop_spec fuel : forall hi s pl,
  wf_inv hi s pl -> elements (ne_heap (wsi s)) < Z.of_nat fuel ->
  exists s' pl', move_loop malloc fuel s = Some s' /\ wf_inv hi s' pl' /\ settled s' pl' /\
    wqueues s' = wqueues s /\ V (wsi s') = V (wsi s) /\ promoted pl pl'.
Proof.
  induction fuel as [|fuel IH]; intros hi s pl Hi Hf; pose proof (heaps_elements _ _ _ Ne (wi_heaps _ _ _ Hi)) as He;
    simpl in He; [lia|]. simpl move_loop.
  destruct (Z.ltb_spec 0 (elements (ne_heap (wsi s)))) as [Hel|Hel]; simpl.
  - destruct (place_of_top s pl Ne (wi_heaps _ _ _ Hi) Hel) as (Hp & Hq & Hkey). simpl in Hp, Hq, Hkey.
    pose proof (key_window _ _ _ _ _ Hi Hp) as HwS. simpl in HwS. rewrite <- Hkey in HwS.
    rewrite (key_leq_rank base _ _ HwS (V_window _ _ _ Hi)). destruct (Z.leb_spec (rank base (key (HEAP_TOP (ne_heap (wsi s))))) (rank base (V (wsi s)))) as [Hr|Hr].
    + destruct (move_turn hi s pl Hi Hel Hr) as (s1 & E1 & Hi1 & Eq1 & EV1 & _ & Hel1). rewrite E1. simpl.
      destruct (IH _ _ _ Hi1 ltac:(lia)) as (s' & pl' & E & H1 & H2 & H3 & H4 & H5). exists s', pl'.
      split_and!; [done|done|done|congruence|congruence|]. intros a. destruct (H5 a) as [Ha|[Ha Ha']]; unfold upd in Ha; case_decide; simplify_eq; auto.
    + exists s, pl. split_and!; try done; [|by left]. intros a Ha.
      destruct (top_of_place s pl Ne a (wi_heaps _ _ _ Hi)) as [_ Ht]; [by apply (wi_place _ _ _ Hi); congruence|done|]. simpl in Ht. lia.
  - exists s, pl. split_and!; try done; [|by left]. intros a Ha.
    destruct (top_of_place s pl Ne a (wi_heaps _ _ _ Hi)) as [Ht _]; [by apply (wi_place _ _ _ Hi); congruence|done|]. simpl in Ht. lia.
Qed.

(** *** The virtual time *)

Lemma queue_times_mono hi hi' v v' x p :
  hi <= hi' -> rank base v <= rank base v' -> queue_times hi v x p -> queue_times hi' v' x p.
Proof.
  intros Hh Hv. assert (Hb : backlog_times hi x -> backlog_times hi' x).
  { intros (m & rest & ? & ? & ?). exists m, rest. split_and!; (done || lia). }
  destruct p as [[]|]; simpl; [|done| |done].
  - intros [H1 H2]. split; [by apply Hb|lia].
  - intros (? & ? & ?). split_and!; (done || lia).
Qed.

Lemma wf_put_V hi s pl v :
  wf_inv hi s pl -> rank base (V (wsi s)) <= rank base v <= hi -> wf_inv hi (put_V v s) pl.
Proof.
  intros [H1 H2 H3 H4 H5 H6 H7 H8] Hv. constructor; try done.
  - eapply heaps_ok_same; [exact H1|by intros []|done..].
  - simpl. lia.
  - intros q Hq. simpl. eapply (queue_times_mono hi hi); [lia| |by apply H5]. lia.
Qed.

(** The time at which the next queue is chosen: [V], but for the start of the
    first queue when none is eligible. *)
Definition service_time (s : wf2q) (pl : Z -> option place) (v : Z) : Prop :=
  ((exists q, pl q = Some Sch) -> v = V (wsi s)) /\
  ((forall q, pl q <> Some Sch) -> (exists q, pl q = Some Ne) ->
   (exists q, pl q = Some Ne /\ rank base v = Z.max (rank base (V (wsi s))) (rank base (S (getw s q)))) /\
   (forall q, pl q = Some Ne -> rank base v <= Z.max (rank base (V (wsi s))) (rank base (S (getw s q))))).

Lemma no_place s pl p : heaps_ok base s pl -> (forall q, pl q <> None -> is_Some (wqueues s !! q)) ->
  elements (heap_of p s) = 0 -> forall q, pl q <> Some p.
Proof.
  intros Hk Hpl He q Hq. destruct (top_of_place s pl p q Hk) as [Ht _]; [by apply Hpl; congruence|done|]. lia.
Qed.

Lemma make_eligible_spec hi s pl :
  wf_inv hi s pl ->
  exists s' pl', make_eligible malloc s = Some s' /\ wf_inv hi s' pl' /\ settled s' pl' /\ wqueues s' = wqueues s /\
    promoted pl pl' /\ service_time s pl (V (wsi s')) /\ rank base (V (wsi s)) <= rank base (V (wsi s')) /\
    ((exists q, pl q = Some Sch \/ pl q = Some Ne) -> 0 < elements (sch_heap (wsi s'))).
Proof.
  intros Hi. unfold make_eligible. pose proof (heaps_elements _ _ _ Ne (wi_heaps _ _ _ Hi)) as He. simpl in He.
  pose proof (heaps_elements _ _ _ Sch (wi_heaps _ _ _ Hi)) as He'. simpl in He'.
  assert (Hgo : forall s1, wf_inv hi s1 pl -> wqueues s1 = wqueues s -> elements (ne_heap (wsi s1)) = elements (ne_heap (wsi s)) ->
    service_time s pl (V (wsi s1)) -> rank base (V (wsi s)) <= rank base (V (wsi s1)) ->
    ((forall q, pl q <> Some Sch) -> forall q, pl q = Some Ne -> exists q', pl q' = Some Ne /\ rank base (S (getw s1 q')) <= rank base (V (wsi s1))) ->
    exists s' pl', move_loop malloc (Datatypes.S (Z.to_nat (elements (ne_heap (wsi s1))))) s1 = Some s' /\ wf_inv hi s' pl' /\
      settled s' pl' /\ wqueues s' = wqueues s /\ promoted pl pl' /\ service_time s pl (V (wsi s')) /\
      rank base (V (wsi s)) <= rank base (V (wsi s')) /\
      ((exists q, pl q = Some Sch \/ pl q = Some Ne) -> 0 < elements (sch_heap (wsi s')))).
  { intros s1 Hi1 Eq1 En1 Hst HV Hne.
    destruct (move_loop_spec (Datatypes.S (Z.to_nat (elements (ne_heap (wsi s1))))) hi s1 pl Hi1 ltac:(lia))
      as (s' & pl' & E & H1 & H2 & H3 & H4 & H5).
    exists s', pl'. split_and!; try done; try congruence; try (by rewrite H4). intros (q & Hq).
    assert (Hsch : exists a, pl' a = Some Sch).
    { assert (Hs : (exists a, pl a = Some Sch) -> exists a, pl' a = Some Sch).
      { intros (a & Ha). exists a. destruct (H5 a) as [->|[? ?]]; congruence. }
      destruct (decide (0 < elements (sch_heap (wsi s)))) as [Hlt|Hge].
      - apply Hs. destruct (place_of_top s pl Sch (wi_heaps _ _ _ Hi) Hlt) as [? _]. by eexists.
      - assert (Hno : forall a, pl a <> Some Sch).
        { apply (no_place s pl Sch); [apply Hi|apply Hi|]. simpl. lia. }
        destruct Hq as [Hq|Hq]; [by destruct (Hno q)|]. destruct (Hne Hno q Hq) as (q' & Hq' & Hr). exists q'.
        destruct (H5 q') as [Hp|[_ Hp]]; [|done]. rewrite Hq' in Hp. specialize (H2 q' Hp).
        rewrite (getw_same s1 s' q' H3), H4 in H2. lia. }
    destruct Hsch as (a & Ha). by destruct (top_of_place s' pl' Sch a (wi_heaps _ _ _ H1)) as [? _]; [apply (wi_place _ _ _ H1); congruence| |]. }
  destruct ((elements (sch_heap (wsi s)) =? 0) && (0 <? elements (ne_heap (wsi s)))) eqn:Eb.
  - apply andb_true_iff in Eb as [Es En].
    assert (Hno : forall q, pl q <> Some Sch) by (apply (no_place s pl Sch); [apply Hi|apply Hi|simpl; lia]).
    destruct (place_of_top s pl Ne (wi_heaps _ _ _ Hi) ltac:(simpl; lia)) as (Hp & Hq & Hkey). simpl in Hp, Hq, Hkey.
    pose proof (key_window _ _ _ _ _ Hi Hp) as HwS. simpl in HwS. set (t := HEAP_TOP (ne_heap (wsi s))) in *.
    rewrite <- Hkey in HwS. destruct (MAX64_rank base (V (wsi s)) (key t) (V_window _ _ _ Hi) HwS) as [HM _].
    pose proof (wi_times _ _ _ Hi _ Hq) as Ht. rewrite Hp in Ht.
    destruct (times_window _ _ _ _ _ (wi_cfg _ _ _ Hi _ Hq) (proj2 (wi_hi _ _ _ Hi)) Ht) as (_ & _ & HSF).
    pose proof (wi_V _ _ _ Hi) as HVh. rewrite Hkey in HM at 2.
    apply Hgo; try done.
    + apply wf_put_V; [done|]. rewrite HM. lia.
    + split; [intros (q & Hq'); by destruct (Hno q)|]. intros _ _. simpl. split; [by exists (object t)|].
      intros q Hq'. rewrite HM, <- Hkey. destruct (top_of_place s pl Ne q (wi_heaps _ _ _ Hi)) as [_ Hle];
        [by apply (wi_place _ _ _ Hi); congruence|done|]. simpl in Hle. fold t in Hle. lia.
    + simpl. rewrite HM. lia.
    + intros _ _ _. exists (object t). split; [done|]. simpl. rewrite HM. change (getw (put_V _ s) (object t)) with (getw s (object t)). lia.
  - apply Hgo; try done; try lia.
    + split; [done|]. intros Hno (q & Hq). exfalso. apply andb_false_iff in Eb as [Es|En].
      * destruct (place_of_top s pl Sch (wi_heaps _ _ _ Hi) ltac:(simpl; lia)) as [Hp _]. by apply Hno in Hp.
      * by apply (no_place s pl Ne (wi_heaps _ _ _ Hi) (wi_place _ _ _ Hi) ltac:(simpl; lia) q).
    + intros Hno q Hq. exfalso. apply andb_false_iff in Eb as [Es|En].
      * destruct (place_of_top s pl Sch (wi_heaps _ _ _ Hi) ltac:(simpl; lia)) as [Hp _]. by apply Hno in Hp.
      * by apply (no_place s pl Ne (wi_heaps _ _ _ Hi) (wi_place _ _ _ Hi) ltac:(simpl; lia) q).
Qed.

(** *** Writing one queue *)

(** The invariant but for the heaps. *)
Record rest_ok (hi : Z) (s : wf2q) (pl : Z -> option place) : Prop := {
  rs_hi : 0 <= hi < 2 ^ 63;
  rs_V : rank base (V (wsi s)) <= hi;
  rs_cfg : forall q, is_Some (wqueues s !! q) -> queue_cfg q (getw s q);
  rs_times : forall q, is_Some (wqueues s !! q) -> queue_times hi (V (wsi s)) (getw s q) (pl q);
  rs_wsum : wsum (wsi s) = weights s pl;
  rs_inv : 0 < wsum (wsi s) -> inv_wsum (wsi s) = ONE_FP / wsum (wsi s);
  rs_place : forall q, pl q <> None -> is_Some (wqueues s !! q);
}.

Lemma wf_of hi s s' pl :
  heaps_ok base s' pl -> rest_ok hi s pl -> wqueues s' = wqueues s -> same_si s s' -> wf_inv hi s' pl.
Proof.
  intros Hk [H1 H2 H3 H4 H5 H6 H7] Eq (EV & Ei & Ew). pose proof (fun a => getw_same s s' a Eq) as Hg.
  constructor; try done; rewrite ?EV, ?Ei, ?Ew, ?(weights_same s s' pl Eq); try done; intros q; rewrite Eq, ?Hg; auto.
Qed.

Lemma rest_write hi hi' s pl s2 q p :
  wf_inv hi s pl -> is_Some (wqueues s !! q) -> wqueues s2 = <[q := getw s2 q]> (wqueues s) ->
  hi <= hi' < 2 ^ 63 -> rank base (V (wsi s)) <= rank base (V (wsi s2)) <= hi' ->
  queue_cfg q (getw s2 q) -> queue_times hi' (V (wsi s2)) (getw s2 q) (Some p) ->
  wsum (wsi s2) = weights s2 (upd pl q (Some p)) ->
  (0 < wsum (wsi s2) -> inv_wsum (wsi s2) = ONE_FP / wsum (wsi s2)) ->
  rest_ok hi' s2 (upd pl q (Some p)).
Proof.
  intros Hi Hq Eq Hh HV Hc Ht Hw Hinv. pose proof (insert_dom s s2 q _ Eq Hq) as Hdom.
  assert (Hg : forall a, a <> q -> getw s2 a = getw s a).
  { intros a Ha. unfold getw. rewrite !lookup_total_alt, Eq, lookup_insert_ne by done. done. }
  constructor; try done.
  - pose proof (wi_hi _ _ _ Hi). lia.
  - apply HV.
  - intros a Ha. rewrite Hdom in Ha. destruct (decide (a = q)) as [->|Hne]; [done|]. rewrite Hg by done. by apply (wi_cfg _ _ _ Hi).
  - intros a Ha. rewrite Hdom in Ha. destruct (decide (a = q)) as [->|Hne]; [by rewrite upd_eq|]. rewrite Hg, upd_ne by done.
    eapply queue_times_mono; [apply Hh|apply HV|]. by apply (wi_times _ _ _ Hi).
  - intros a Ha. rewrite Hdom. destruct (decide (a = q)) as [->|Hne]; [done|]. rewrite upd_ne in Ha by done. by apply (wi_place _ _ _ Hi).
Qed.

(** The queue that was written goes into the heap [p]. *)
Lemma wf_requeue hi s2 pl1 pl q p k :
  heaps_ok base s2 pl1 -> pl1 q = None -> (forall a, a <> q -> pl1 a = pl a) -> is_Some (wqueues s2 !! q) ->
  rest_ok hi s2 (upd pl q (Some p)) -> k = key_of p (getw s2 q) ->
  wf_inv hi (insert malloc p k q s2) (upd pl q (Some p)) /\ wqueues (insert malloc p k q s2) = wqueues s2 /\
  same_si s2 (insert malloc p k q s2).
Proof.
  intros Hk Hn Hpl Hq Hr ->. pose proof (rs_times _ _ _ Hr q Hq) as Ht. rewrite upd_eq in Ht.
  destruct (times_window _ _ _ _ _ (rs_cfg _ _ _ Hr q Hq) (proj2 (rs_hi _ _ _ Hr)) Ht) as (HwS & HwF & _).
  destruct (insert_spec base malloc malloc_ok s2 pl1 p q Hk Hq Hn) as (Hk' & Eq & Hsi & _); [by destruct p|].
  split_and!; [|done|apply Hsi..]. apply (wf_of hi s2); try done. eapply heaps_ok_ext; [exact Hk'|].
  intros a. unfold upd. case_decide; [done|]. symmetry. by apply Hpl.
Qed.

(** *** Serving a queue *)

Lemma weights_keep s s' pl q p p' :
  is_Some (wqueues s !! q) -> wqueues s' = <[q := getw s' q]> (wqueues s) -> weight (getw s' q) = weight (getw s q) ->
  pl q = Some p -> weights s' (upd pl q (Some p')) = weights s pl.
Proof. intros Hq Eq Ew Hp. rewrite (weights_upd s s' pl q) by done. unfold contribution. rewrite Hp, Ew. lia. Qed.

Lemma setw_setw q x y s : setw q x (setw q y s) = setw q x s.
Proof. unfold setw. simpl. by rewrite insert_insert_eq. Qed.

Lemma serve_spec hi s pl :
  wf_inv hi s pl -> 0 < elements (sch_heap (wsi s)) -> 0 <= L -> hi + L * 2 ^ 28 < 2 ^ 63 ->
  let q := object (HEAP_TOP (sch_heap (wsi s))) in
  exists m s' p, serve malloc s = Some (m, s') /\ wf_inv (hi + L * 2 ^ 28) s' (upd pl q (Some p)) /\ pl q = Some Sch /\
    q_pkts (wq (getw s q)) = m :: q_pkts (wq (getw s' q)) /\ (forall a, a <> q -> getw s' a = getw s a) /\
    (forall a, is_Some (wqueues s' !! a) <-> is_Some (wqueues s !! a)) /\
    (forall a, pl a = Some Sch -> rank base (F (getw s q)) <= rank base (F (getw s a))) /\
    S (getw s' q) = F (getw s q) /\ V (wsi s') = u64 (V (wsi s) + m_len m * inv_wsum (wsi s)).
Proof.
  intros Hi He HL Hhi q. destruct (place_of_top s pl Sch (wi_heaps _ _ _ Hi) He) as (Hp & Hq & Hkey). simpl in Hp, Hq, Hkey.
  fold q in Hp, Hq, Hkey. pose proof (wi_cfg _ _ _ Hi q Hq) as Hc. pose proof (wi_times _ _ _ Hi q Hq) as Ht. rewrite Hp in Ht.
  destruct (times_window _ _ _ _ _ Hc (proj2 (wi_hi _ _ _ Hi)) Ht) as (_ & _ & HSF).
  destruct Ht as [(m & rest & Ep & HF & HFh) HSV]. set (x := getw s q) in *. pose proof (cfg_inv _ _ Hc) as Hinv.
  destruct Hc as [Hdq Hpk Hwt Hiw]. pose proof (dn_dequeue_spec _ Hdq) as Hd. rewrite Ep in Hd, Hpk.
  destruct Hd as (dq & Ed & Edq & Hdq'). apply list.Forall_cons in Hpk as [[Hfl Hm] Hpk].
  (* the heap *)
  set (s0 := setw q (set_wq dq x) s).
  assert (Hk0 : heaps_ok base s0 pl) by (apply heaps_ok_setw; [apply Hi|done|by intros []]).
  destruct (extract_top_spec base s0 pl Sch Hk0 He) as (s1 & E1 & Hk1 & _ & _ & _ & Eq1 & (EV1 & Ei1 & Ew1) & _).
  change (HEAP_TOP (heap_of Sch s0)) with (HEAP_TOP (sch_heap (wsi s))) in Hk1. fold q in Hk1.
  (* the times *)
  pose proof (weights_bounds _ _ _ Hi) as [Hwb Hwq]. specialize (Hwq q ltac:(congruence)).
  pose proof (wi_inv _ _ _ Hi ltac:(rewrite (wi_wsum _ _ _ Hi); lia)) as Hiv. rewrite (wi_wsum _ _ _ Hi) in Hiv.
  pose proof (inv_bound (weights s pl) ltac:(lia)) as Hib. rewrite <- Hiv in Hib.
  pose proof (wi_V _ _ _ Hi) as HVh. pose proof (wi_hi _ _ _ Hi) as Hh.
  set (v := u64 (V (wsi s) + m_len m * inv_wsum (wsi s))).
  assert (HV : rank base v = rank base (V (wsi s)) + m_len m * inv_wsum (wsi s)) by (apply rank_add; nia).
  assert (HVb : rank base (V (wsi s)) <= rank base v <= hi + L * 2 ^ 28) by nia.
  set (s2 := put_V v s1).
  assert (Hk2 : heaps_ok base s2 (upd pl q None)) by (eapply heaps_ok_same; [exact Hk1|by intros []|done..]).
  assert (Hq1 : is_Some (wqueues s1 !! q)) by (rewrite Eq1; apply (insert_dom s s0 q _ eq_refl Hq q); done).
  assert (Hg1 : getw s1 q = set_wq dq x) by (rewrite (getw_same s0 s1 q Eq1); unfold s0; by rewrite getw_setw, decide_True).
  (* requeueing with the times [y] *)
  assert (Hgo : forall p y, queue_cfg q y -> queue_times (hi + L * 2 ^ 28) v y (Some p) -> weight y = weight x ->
    wq y = dq -> S y = F x ->
    let s' := insert malloc p (key_of p y) q (setw q y s2) in
    wf_inv (hi + L * 2 ^ 28) s' (upd pl q (Some p)) /\ m :: rest = m :: q_pkts (wq (getw s' q)) /\
    (forall a, a <> q -> getw s' a = getw s a) /\
    (forall a, is_Some (wqueues s' !! a) <-> is_Some (wqueues s !! a)) /\ S (getw s' q) = F x /\ V (wsi s') = v).
  { intros p y Hcy Hty Hwy Hwqy HSy s'.
    assert (Hgy : getw (setw q y s2) q = y) by (by rewrite getw_setw, decide_True).
    assert (Eqy : wqueues (setw q y s2) = <[q := getw (setw q y s2) q]> (wqueues s)).
    { rewrite Hgy. change (wqueues (setw q y s2)) with (<[q := y]> (wqueues s1)). rewrite Eq1.
      change (wqueues s0) with (<[q := set_wq dq x]> (wqueues s)). apply insert_insert_eq. }
    assert (Hw : wsum (wsi (setw q y s2)) = weights (setw q y s2) (upd pl q (Some p))).
    { rewrite (weights_keep s (setw q y s2) pl q Sch p); [|done|done|by rewrite Hgy|done].
      rewrite <- (wi_wsum _ _ _ Hi). exact Ew1. }
    destruct (wf_requeue (hi + L * 2 ^ 28) (setw q y s2) (upd pl q None) pl q p (key_of p y)) as (W1 & W2 & (W3 & _)).
    - apply heaps_ok_setw; [done|done|]. by rewrite upd_eq.
    - apply upd_eq.
    - intros a Ha. by rewrite upd_ne.
    - by apply (insert_dom s2 (setw q y s2) q y eq_refl Hq1).
    - apply (rest_write hi (hi + L * 2 ^ 28) s pl); try done; [lia| | |].
      + by rewrite Hgy.
      + by rewrite Hgy.
      + intros Hpos. change (inv_wsum (wsi (setw q y s2))) with (inv_wsum (wsi s1)).
        change (wsum (wsi (setw q y s2))) with (wsum (wsi s1)) in Hpos |- *. rewrite Ei1, Ew1 in *. by apply (wi_inv _ _ _ Hi).
    - by rewrite Hgy.
    - fold s' in W1, W2, W3. split_and!; try done.
      + by rewrite (getw_same _ _ q W2), Hgy, Hwqy, Edq.
      + intros a Ha. rewrite (getw_same _ _ a W2), getw_setw, decide_False by done. change (getw s2 a) with (getw s1 a). rewrite (getw_same s0 s1 a Eq1).
        unfold s0. by rewrite getw_setw, decide_False.
      + intros a. rewrite W2. by apply (insert_dom s (setw q y s2) q _ Eqy Hq).
      + by rewrite (getw_same _ _ q W2), Hgy. }
  assert (Hmin : forall a, pl a = Some Sch -> rank base (F x) <= rank base (F (getw s a))).
  { intros a Ha. destruct (top_of_place s pl Sch a (wi_heaps _ _ _ Hi)) as [_ Hle];
      [by apply (wi_place _ _ _ Hi); congruence|done|]. change (heap_of Sch s) with (sch_heap (wsi s)) in Hle. by rewrite Hkey in Hle. }
  unfold serve. fold q. fold x. rewrite Ed. fold s0. rewrite E1. simpl. rewrite EV1, Ei1.
  change (put_V (u64 (V (wsi s0) + m_len m * inv_wsum (wsi s0))) s1) with s2.
  replace (getw s2 q) with (set_wq dq x) by (symmetry; exact Hg1). rewrite !getw_setw, !decide_True by done. simpl. rewrite Edq.
  destruct rest as [|hd rest].
  - set (y := set_S (F x) (set_wq dq x)). destruct (Hgo Idle y) as (W1 & W2 & W3 & W4 & W5 & W6); try done.
    { constructor; simpl; try done. by rewrite Edq. } { simpl. split_and!; [done|done|lia]. }
    eexists m, _, Idle. split; [reflexivity|]. split_and!; try done; by rewrite Ep.
  - apply list.Forall_cons in Hpk as Hpk'. destruct Hpk' as [[_ Hhd] _].
    set (y := set_F (u64 (F x + m_len hd * inv_w x)) (set_S (F x) (set_wq dq x))).
    assert (HFy : rank base (F y) = rank base (F x) + m_len hd * inv_w x) by (apply rank_add; nia).
    assert (Hcy : queue_cfg q y) by (constructor; simpl; try done; by rewrite Edq).
    assert (Hby : backlog_times (hi + L * 2 ^ 28) y).
    { exists hd, rest. simpl. rewrite Edq. split_and!; [done|done|]. change (u64 (F x + m_len hd * inv_w x)) with (F y). nia. }
    rewrite setw_setw, !getw_setw, !decide_True by done. simpl.
    change (set_F (u64 (F x + m_len hd * inv_w x)) (set_S (F x) (set_wq dq x))) with y.
    fold v. rewrite (key_leq_rank base); [|unfold in_window; lia|exact (Z.le_lt_trans _ _ _ (proj2 HVb) Hhi)].
    destruct (Z.leb_spec (rank base (F x)) (rank base v)) as [Hle|Hgt].
    + destruct (Hgo Sch y) as (W1 & W2 & W3 & W4 & W5 & W6); try done. eexists m, _, Sch. split; [reflexivity|]. split_and!; try done; by rewrite Ep.
    + destruct (Hgo Ne y) as (W1 & W2 & W3 & W4 & W5 & W6); try done. eexists m, _, Ne. split; [reflexivity|]. split_and!; try done; by rewrite Ep.
Qed.

(** *** Dequeuing *)

Definition busy (s : wf2q) (q : Z) : Prop := is_Some (wqueues s !! q) /\ q_pkts (wq (getw s q)) <> [].

(** The start time of [q] has come at [v]. *)
Definition eligible (s : wf2q) (v q : Z) : Prop := busy s q /\ rank base (S (getw s q)) <= rank base v.

Lemma busy_place hi s pl q : wf_inv hi s pl -> busy s q <-> pl q = Some Sch \/ pl q = Some Ne.
Proof.
  intros Hi. split.
  - intros [Hq Hb]. pose proof (wi_times _ _ _ Hi q Hq) as Ht. destruct (pl q) as [[]|]; [by left|by right| |]; simpl in Ht; by destruct Ht.
  - intros Hp. assert (Hq : is_Some (wqueues s !! q)) by (apply (wi_place _ _ _ Hi); destruct Hp; congruence). split; [done|].
    pose proof (wi_times _ _ _ Hi q Hq) as Ht. destruct Hp as [Hp|Hp]; rewrite Hp in Ht; simpl in Ht;
      [destruct Ht as [(m & rest & E & _) _]|destruct Ht as (m & rest & E & _)]; by rewrite E.
Qed.

Lemma eligible_place hi s pl q : wf_inv hi s pl -> settled s pl -> eligible s (V (wsi s)) q <-> pl q = Some Sch.
Proof.
  intros Hi Hs. unfold eligible. rewrite (busy_place hi s pl q Hi). split.
  - intros [[Hp|Hp] Hr]; [done|]. specialize (Hs q Hp). lia.
  - intros Hp. split; [by left|]. assert (Hq : is_Some (wqueues s !! q)) by (apply (wi_place _ _ _ Hi); congruence).
    pose proof (wi_times _ _ _ Hi q Hq) as Ht. rewrite Hp in Ht. apply Ht.
Qed.

Lemma wf_dequeue_busy hi s pl :
  wf_inv hi s pl -> settled s pl -> 0 <= L -> hi + L * 2 ^ 28 < 2 ^ 63 -> (exists q, busy s q) ->
  exists m s' pl' v q, wf2qp_dequeue malloc s = Some (Some m, s') /\ wf_inv (hi + L * 2 ^ 28) s' pl' /\ settled s' pl' /\
    ((exists a, eligible s (V (wsi s)) a) -> v = V (wsi s)) /\
    ((forall a, ~ eligible s (V (wsi s)) a) -> forall a, busy s a -> rank base v <= rank base (S (getw s a))) /\
    eligible s v q /\ (forall a, eligible s v a -> rank base (F (getw s q)) <= rank base (F (getw s a))) /\
    q_pkts (wq (getw s q)) = m :: q_pkts (wq (getw s' q)) /\ (forall a, a <> q -> wq (getw s' a) = wq (getw s a)) /\
    (forall a, is_Some (wqueues s' !! a) <-> is_Some (wqueues s !! a)).
Proof.
  intros Hi Hset HL Hhi [b Hb]. pose proof (proj1 (busy_place hi s pl b Hi) Hb) as Hpb.
  (* the idle heap *)
  destruct (idle_loop_spec false (Datatypes.S (Z.to_nat (elements (idle_heap (wsi s))))) 1 hi s pl Hi ltac:(lia)) as (s1 & pl1 & E1 & Hi1 & Hq1 & _).
  assert (Hkeep : forall a p, p <> Idle -> pl1 a = Some p <-> pl a = Some p).
  { intros a p Hp. destruct (pl a) as [p0|] eqn:E.
    - destruct (decide (p0 = Idle)) as [->|Hne]; [destruct (qt_idle _ _ _ _ Hq1 a E) as [->| ->]; split; congruence|].
      by rewrite (proj1 (qt_queue _ _ _ _ Hq1 a ltac:(congruence))), E.
    - by rewrite (proj1 (qt_queue _ _ _ _ Hq1 a ltac:(congruence))), E. }
  pose proof (fun a p Hp => proj2 (Hkeep a p Hp)) as Hto. pose proof (fun a p Hp => proj1 (Hkeep a p Hp)) as Hfrom.
  assert (Hget : forall a p, p <> Idle -> pl a = Some p -> getw s1 a = getw s a).
  { intros a p Hp Ha. apply (qt_queue _ _ _ _ Hq1). congruence. }
  pose proof (qt_V _ _ _ _ Hq1) as EV1.
  (* the next queue *)
  destruct (make_eligible_spec hi s1 pl1 Hi1) as (s2 & pl2 & E2 & Hi2 & Hset2 & Eq2 & Hpr2 & Hst & HV2 & Hne2).
  assert (He2 : 0 < elements (sch_heap (wsi s2))).
  { apply Hne2. exists b. destruct Hpb as [H|H]; [left|right]; by apply Hto. }
  destruct (serve_spec hi s2 pl2 Hi2 He2 HL Hhi) as (m & s3 & p & E3 & Hi3 & Hp & Epk & Hoth & Hdom & Hmin & _ & _).
  set (q := object _) in *.
  destruct (make_eligible_spec _ s3 _ Hi3) as (s4 & pl4 & E4 & Hi4 & Hset4 & Eq4 & _).
  set (v := V (wsi s2)) in *. pose proof (fun a => getw_same s1 s2 a Eq2) as Hg2.
  assert (Hbusy2 : forall a, pl a = Some Sch \/ pl a = Some Ne -> pl2 a = Some Sch \/ (pl2 a = Some Ne)).
  { intros a Ha. assert (pl1 a = Some Sch \/ pl1 a = Some Ne) as Ha1 by (destruct Ha; [left|right]; by apply Hto).
    destruct (Hpr2 a) as [->|[_ ->]]; [done|by left]. }
  assert (Hback : forall a, pl2 a = Some Sch \/ pl2 a = Some Ne -> pl a = Some Sch \/ pl a = Some Ne).
  { intros a Ha. rewrite <- !(Hkeep a) by done. destruct (Hpr2 a) as [E|[E _]]; [by rewrite <- E|by right]. }
  assert (Hsame : forall a, pl a = Some Sch \/ pl a = Some Ne -> getw s2 a = getw s a).
  { intros a [Ha|Ha]; rewrite Hg2; [by apply (Hget a Sch)|by apply (Hget a Ne)]. }
  assert (Hqs : pl q = Some Sch \/ pl q = Some Ne) by (apply Hback; by left).
  exists m, s4, pl4, v, q. split_and!; try done.
  - unfold wf2qp_dequeue. destruct ((elements (sch_heap (wsi s)) =? 0) && _) eqn:Ee.
    { exfalso. apply andb_true_iff in Ee as [Es En].
      destruct Hpb as [H|H]; revert H; [apply (no_place s pl Sch)|apply (no_place s pl Ne)]; try apply Hi; simpl; lia. }
    unfold idle_check. rewrite E1. simpl. rewrite E2. simpl. rewrite E3. simpl. by rewrite E4.
  - intros (a & Ha%(eligible_place hi s pl a Hi Hset)). unfold v. rewrite <- EV1. apply Hst. exists a. by apply Hto.
  - intros Hno a Ha%(busy_place hi s pl a Hi).
    assert (Hno1 : forall a, pl1 a <> Some Sch).
    { intros c Hc%Hfrom; [|done]. by apply (Hno c), (eligible_place hi s pl c Hi Hset). }
    assert (Han : pl a = Some Ne). { destruct Ha as [Ha|Ha]; [|done]. by destruct (Hno1 a); apply Hto. }
    destruct (proj2 Hst Hno1) as [_ Hle]; [by exists a; apply Hkeep|]. specialize (Hle a ltac:(by apply Hto)).
    specialize (Hset a Han). fold v in Hle. rewrite EV1, (Hget a Ne) in Hle by done. lia.
  - split; [by apply (busy_place hi s pl q Hi)|]. pose proof (wi_times _ _ _ Hi2 q ltac:(apply (wi_place _ _ _ Hi2); congruence)) as Ht.
    rewrite Hp in Ht. rewrite <- (Hsame q Hqs). apply Ht.
  - intros a [Ha%(busy_place hi s pl a Hi) Hr]. rewrite <- (Hsame q Hqs), <- (Hsame a Ha) in *. apply Hmin.
    destruct (Hbusy2 a Ha) as [|Hn]; [done|]. specialize (Hset2 a Hn). unfold v in Hr. lia.
  - rewrite (getw_same s3 s4 q Eq4), <- Epk. by rewrite (Hsame q Hqs).
  - intros a Ha. rewrite (getw_same s3 s4 a Eq4), Hoth, Hg2 by done. apply Hq1.
  - intros a. rewrite Eq4, Hdom, Eq2. apply Hq1.
Qed.

(** *** Enqueuing *)

(** [wf2qp_enqueue] once the start time is set. *)
Definition start_tail (q : Z) (m : mbuf) (s : wf2q) : wf2q :=
  let s := setw q (set_F (u64 (S (getw s q) + m_len m * inv_w (getw s q))) (getw s q)) s in
  let s := if (elements (ne_heap (wsi s)) =? 0) && (elements (sch_heap (wsi s)) =? 0)
           then put_V (MAX64 (S (getw s q)) (V (wsi s))) s else s in
  if DN_KEY_LT (V (wsi s)) (S (getw s q)) then insert malloc Ne (S (getw s q)) q s
  else insert malloc Sch (F (getw s q)) q s.

(** [q] has got its first packet and its start time [t], and is in no heap. *)
Record started (hi : Z) (s : wf2q) (pl : Z -> option place) (q : Z) (m : mbuf) (s2 : wf2q) (pl1 : Z -> option place) : Prop := {
  st_inv : wf_inv hi s pl;
  st_settled : settled s pl;
  st_queue : is_Some (wqueues s !! q);
  st_heaps : heaps_ok base s2 pl1;
  st_none : pl1 q = None;
  st_others : forall a, a <> q -> pl1 a = pl a;
  st_write : wqueues s2 = <[q := getw s2 q]> (wqueues s);
  st_cfg : queue_cfg q (getw s2 q);
  st_weight : weight (getw s2 q) = weight (getw s q);
  st_pkts : q_pkts (wq (getw s2 q)) = [m];
  st_V : V (wsi s2) = V (wsi s);
  st_wsum : wsum (wsi s2) = weights s pl - contribution pl q (getw s q) + weight (getw s q);
  st_inv_wsum : inv_wsum (wsi s2) = ONE_FP / wsum (wsi s2);
  st_time : rank base (V (wsi s)) <= rank base (S (getw s2 q)) <= hi;
  st_place : pl q <> Some Ne;
}.

Lemma start_tail_spec hi s pl q m s2 pl1 :
  started hi s pl q m s2 pl1 -> 0 <= L -> hi + L * 2 ^ 28 < 2 ^ 63 ->
  let s' := start_tail q m s2 in
  exists p, wf_inv (hi + L * 2 ^ 28) s' (upd pl q (Some p)) /\ settled s' (upd pl q (Some p)) /\
    wq (getw s' q) = wq (getw s2 q) /\ (forall a, a <> q -> getw s' a = getw s a) /\
    (forall a, is_Some (wqueues s' !! a) <-> is_Some (wqueues s !! a)).
Proof.
  intros [Hi Hset Hq Hk Hn Hoth Eq Hc Ewt Epk EV Ew Eiv Ht Hnn] HL Hhi s'.
  set (x := getw s2 q) in *. pose proof (cfg_inv _ _ Hc) as Hinv. pose proof (qc_pkts _ _ Hc) as Hpk. rewrite Epk in Hpk.
  apply list.Forall_cons in Hpk as [[_ Hm] _]. pose proof (wi_hi _ _ _ Hi) as Hh.
  set (y := set_F (u64 (S x + m_len m * inv_w x)) x).
  assert (HFy : rank base (F y) = rank base (S x) + m_len m * inv_w x) by (apply rank_add; nia).
  assert (Hcy : queue_cfg q y) by (destruct Hc; by constructor).
  set (s3 := setw q y s2).
  assert (Hq2 : is_Some (wqueues s2 !! q)) by (by apply (insert_dom s s2 q _ Eq Hq)).
  assert (Hk3 : heaps_ok base s3 pl1) by (apply heaps_ok_setw; [done|done|]; by rewrite Hn).
  assert (Hg3 : getw s3 q = y) by (unfold s3; by rewrite getw_setw, decide_True).
  assert (Eq3 : wqueues s3 = <[q := getw s3 q]> (wqueues s)).
  { rewrite Hg3. change (wqueues s3) with (<[q := y]> (wqueues s2)). rewrite Eq. apply insert_insert_eq. }
  assert (Hgo : forall v p, rank base (V (wsi s)) <= rank base v <= hi -> (p = Sch -> rank base (S x) <= rank base v) -> p <> Idle ->
    let s4 := insert malloc p (key_of p y) q (put_V v s3) in
    wf_inv (hi + L * 2 ^ 28) s4 (upd pl q (Some p)) /\ V (wsi s4) = v /\ getw s4 q = y /\
    (forall a, a <> q -> getw s4 a = getw s a) /\ (forall a, is_Some (wqueues s4 !! a) <-> is_Some (wqueues s !! a))).
  { intros v p Hv Hp Hpi s4.
    destruct (wf_requeue (hi + L * 2 ^ 28) (put_V v s3) pl1 pl q p (key_of p y)) as (W1 & W2 & (W3 & _)); try done.
    - eapply heaps_ok_same; [exact Hk3|by intros []|done..].
    - by apply (insert_dom s (put_V v s3) q _ Eq3 Hq).
    - apply (rest_write hi (hi + L * 2 ^ 28) s pl); try done; change (getw (put_V v s3) q) with (getw s3 q); rewrite ?Hg3; [nia|simpl; nia|done| | ].
      + assert (Hb : backlog_times (hi + L * 2 ^ 28) y). { exists m, []. split_and!; [done|done|]. nia. }
        destruct p; [split; [done|by apply Hp]|done|done].
      + rewrite (weights_upd s (put_V v s3) pl q) by done. change (getw (put_V v s3) q) with (getw s3 q). rewrite Hg3. simpl.
        rewrite Ew. fold x in Ewt. lia.
    - change (getw (put_V v s3) q) with (getw s3 q). by rewrite Hg3.
    - fold s4 in W1, W2, W3. split_and!; try done.
      + by rewrite (getw_same _ _ q W2).
      + intros a Ha. rewrite (getw_same _ _ a W2). unfold getw. rewrite !lookup_total_alt. change (wqueues (put_V v s3)) with (wqueues s3). rewrite Eq3, lookup_insert_ne by done. done.
      + intros a. rewrite W2. by apply (insert_dom s s3 q _ Eq3 Hq). }
  assert (Hpv : forall s4 p, V (wsi s4) = V (wsi s) -> getw s4 q = y -> (forall a, a <> q -> getw s4 a = getw s a) ->
    (p = Ne -> rank base (V (wsi s)) < rank base (S x)) -> settled s4 (upd pl q (Some p))).
  { intros s4 p EV4 Hy4 Ho4 Hpn a Ha. rewrite EV4. destruct (decide (a = q)) as [->|Hne].
    - rewrite upd_eq in Ha. rewrite Hy4. apply Hpn. congruence.
    - rewrite upd_ne in Ha by done. rewrite Ho4 by done. by apply Hset. }
  assert (Eput : put_V (V (wsi s)) s3 = s3).
  { unfold put_V, on_si, s3, setw. simpl. rewrite <- EV. by destruct s2 as [? [] ?]. }
  pose proof (wi_V _ _ _ Hi) as HVh.
  unfold s', start_tail. fold x. fold y. fold s3. rewrite !Hg3. change (wsi s3) with (wsi s2). rewrite EV.
  destruct ((elements (ne_heap (wsi s2)) =? 0) && (elements (sch_heap (wsi s2)) =? 0)) eqn:Ee.
  - apply andb_true_iff in Ee as [En Es].
    assert (HwS : in_window base (S x)) by (unfold in_window; lia).
    destruct (MAX64_rank base (S y) (V (wsi s)) HwS (V_window _ _ _ Hi)) as [HM _]. change (S y) with (S x) in HM |- *.
    set (v := MAX64 (S x) (V (wsi s))) in *. change (V (wsi (put_V v s3))) with v. change (getw (put_V v s3) q) with (getw s3 q). rewrite Hg3.
    rewrite (key_lt_rank base); [|unfold in_window; lia|done]. change (S y) with (S x). rewrite (proj2 (Z.ltb_ge _ _)) by lia.
    destruct (Hgo v Sch) as (W1 & W2 & W3 & W4 & W5); [lia|lia|done|]. exists Sch. split_and!; try done.
    + intros a Ha. exfalso. destruct (decide (a = q)) as [->|Hne]; [by rewrite upd_eq in Ha|]. rewrite upd_ne, <- Hoth in Ha by done.
      revert Ha. apply (no_place s2 pl1 Ne Hk); [|simpl; lia]. intros c Hc'. destruct (decide (c = q)) as [->|]; [done|].
      apply (insert_dom s s2 q _ Eq Hq), (wi_place _ _ _ Hi). by rewrite <- Hoth.
    + exact (f_equal wq W3).
  - change (wsi s3) with (wsi s2). rewrite EV, Hg3. change (S y) with (S x). rewrite (key_lt_rank base); [|exact (V_window _ _ _ Hi)|unfold in_window; lia].
    destruct (Z.ltb_spec (rank base (V (wsi s))) (rank base (S x))) as [Hlt|Hge].
    + destruct (Hgo (V (wsi s)) Ne) as (W1 & W2 & W3 & W4 & W5); [lia|done|done|]. rewrite Eput in *. simpl key_of in *.
      exists Ne. split_and!; try done; [by apply Hpv|exact (f_equal wq W3)].
    + destruct (Hgo (V (wsi s)) Sch) as (W1 & W2 & W3 & W4 & W5); [lia|lia|done|]. rewrite Eput in *. simpl key_of in *.
      exists Sch. split_and!; try done; [by apply Hpv|exact (f_equal wq W3)].
Qed.

Lemma invalid_times f : DN_KEY_LT f (u64 (f + 1)) = true.
Proof. unfold DN_KEY_LT, s64, u64, swrap, wrap. case_if; warith. Qed.

Lemma same_times f : DN_KEY_LT f f = false.
Proof. unfold DN_KEY_LT. by rewrite Z.sub_diag. Qed.

Lemma start_queue_spec hi s pl q m dq :
  wf_inv hi s pl -> settled s pl -> 0 <= L -> hi + L * 2 ^ 28 < 2 ^ 63 -> is_Some (wqueues s !! q) ->
  q_pkts (wq (getw s q)) = [] -> dnq_ok dq -> q_pkts dq = [m] -> SchedMain.FI2Q (m_flow m) = q -> 0 <= m_len m <= L ->
  exists s' pl', start_queue malloc q m (setw q (set_wq dq (getw s q)) s) = Some s' /\
    wf_inv (hi + L * 2 ^ 28) s' pl' /\ settled s' pl' /\ wq (getw s' q) = dq /\ (forall a, a <> q -> getw s' a = getw s a) /\
    (forall a, is_Some (wqueues s' !! a) <-> is_Some (wqueues s !! a)).
Proof.
  intros Hi Hset HL Hhi Hq Epk Hdq Edq Hfl Hm. set (x := getw s q) in *. pose proof (wi_cfg _ _ _ Hi q Hq) as Hc. fold x in Hc.
  pose proof (wi_times _ _ _ Hi q Hq) as Ht. fold x in Ht. set (s0 := setw q (set_wq dq x) s).
  assert (Hg0 : getw s0 q = set_wq dq x) by (unfold s0; by rewrite getw_setw, decide_True).
  assert (Hq0 : is_Some (wqueues s0 !! q)) by (by apply (insert_dom s s0 q _ eq_refl Hq)).
  assert (Hk0 : heaps_ok base s0 pl) by (apply heaps_ok_setw; [apply Hi|done|by intros []]).
  pose proof (weights_bounds _ _ _ Hi) as [Hwb Hwq]. pose proof (qc_weight _ _ Hc) as Hwt.
  pose proof (wi_hi _ _ _ Hi) as Hh. pose proof (wi_V _ _ _ Hi) as HVh.
  assert (Hcy : forall t, queue_cfg q (set_S t (set_wq dq x))).
  { intros t. destruct Hc as [H1 H2 H3 H4]. constructor; simpl; try done. rewrite Edq. constructor; [done|by constructor]. }
  (* the start time *)
  assert (Hst : forall s1 t pl1, wqueues s1 = wqueues s0 -> heaps_ok base s1 pl1 -> pl1 q = None -> (forall a, a <> q -> pl1 a = pl a) ->
    pl q <> Some Ne -> V (wsi s1) = V (wsi s) -> wsum (wsi s1) = weights s pl - contribution pl q x + weight x ->
    inv_wsum (wsi s1) = ONE_FP / wsum (wsi s1) -> rank base (V (wsi s)) <= rank base t <= hi ->
    exists s' pl', Some (start_tail q m (setw q (set_S t (getw s1 q)) s1)) = Some s' /\
      wf_inv (hi + L * 2 ^ 28) s' pl' /\ settled s' pl' /\ wq (getw s' q) = dq /\ (forall a, a <> q -> getw s' a = getw s a) /\
      (forall a, is_Some (wqueues s' !! a) <-> is_Some (wqueues s !! a))).
  { intros s1 t pl1 Eq1 Hk1 Hn1 Ho1 Hne EV1 Ew1 Ei1 Ht1. rewrite (getw_same s0 s1 q Eq1), Hg0. set (y := set_S t (set_wq dq x)).
    assert (Hgy : getw (setw q y s1) q = y) by (by rewrite getw_setw, decide_True).
    destruct (start_tail_spec hi s pl q m (setw q y s1) pl1) as (p & W1 & W2 & W3 & W4 & W5); [|done|done|].
    - constructor; rewrite ?Hgy; try done.
      + apply heaps_ok_setw; [done|by rewrite Eq1|]. by rewrite Hn1.
      + change (wqueues (setw q y s1)) with (<[q := y]> (wqueues s1)). rewrite Eq1.
        change (wqueues s0) with (<[q := set_wq dq x]> (wqueues s)). by rewrite insert_insert_eq.
      + apply Hcy.
    - rewrite Hgy in W3. eexists _, (upd pl q (Some p)). split; [done|]. split_and!; done. }
  unfold start_queue. fold s0. rewrite Hg0. change (F (set_wq dq x)) with (F x). change (S (set_wq dq x)) with (S x).
  destruct (pl q) as [[]|] eqn:Epl; simpl in Ht.
  - destruct Ht as [(m' & r' & E & _) _]. by rewrite Epk in E.
  - destruct Ht as (m' & r' & E & _). by rewrite Epk in E.
  - destruct Ht as (_ & ES & HF). rewrite ES, same_times. specialize (Hwq q ltac:(congruence)). fold x in Hwq.
    destruct (extract_obj_spec base s0 pl Idle q Hk0 Hq0 Epl) as (s1 & E1 & Hk1 & Eq1 & (EV1 & Ei1 & Ew1)). rewrite E1. simpl.
    destruct (MAX64_rank base (F x) (V (wsi s))) as [HM _]; [unfold in_window; lia|exact (V_window _ _ _ Hi)|].
    change (V (wsi s0)) with (V (wsi s)) in EV1.
    assert (Et : MAX64 (F (getw s1 q)) (V (wsi s1)) = MAX64 (F x) (V (wsi s))) by (by rewrite EV1, (getw_same s0 s1 q Eq1), Hg0).
    rewrite Et. apply (Hst s1 _ (upd pl q None)); try done; [apply upd_eq|intros a Ha; by apply upd_ne| | |lia].
    + unfold contribution. rewrite Epl, Ew1. change (wsum (wsi s0)) with (wsum (wsi s)). rewrite (wi_wsum _ _ _ Hi). lia.
    + rewrite Ei1, Ew1. apply (wi_inv _ _ _ Hi). rewrite (wi_wsum _ _ _ Hi). lia.
  - destruct Ht as [_ ES]. rewrite ES, invalid_times. simpl mbind.
    set (w := u32 (wsum (wsi s) + weight x)).
    assert (Hw : w = weights s pl + weight x /\ 0 < w).
    { unfold w. rewrite (wi_wsum _ _ _ Hi), u32_id; [lia|]. unfold is_u32. lia. }
    set (s1 := put_inv_wsum (u32 (ONE_FP / w)) (put_wsum w s0)).
    replace (put_inv_wsum _ (put_wsum _ (setw q _ s0))) with (setw q (set_S (V (wsi s)) (getw s1 q)) s1).
    2:{ change (getw s1 q) with (getw s0 q). rewrite Hg0, getw_setw, decide_True by done. done. }
    apply (Hst s1 (V (wsi s)) pl); try done; [eapply heaps_ok_same; [exact Hk0|by intros []|done..]| |].
    + change (wsum (wsi s1)) with w. unfold contribution. rewrite Epl. lia.
    + change (wsum (wsi s1)) with w. apply u32_id. unfold is_u32. pose proof (inv_bound w). lia.
Qed.

(** What may be enqueued. *)
Definition wf_accepts (s : wf2q) (m : mbuf) : Prop :=
  is_Some (wqueues s !! SchedMain.FI2Q (m_flow m)) /\ 0 <= m_len m <= L /\
  is_head (wq (getw s (SchedMain.FI2Q (m_flow m)))) m = false.

(** The packets of a busy queue, or of one whose packet was dropped, change. *)
Lemma wf_set_wq hi s pl q dq :
  wf_inv hi s pl -> is_Some (wqueues s !! q) -> dnq_ok dq ->
  Forall (fun m => SchedMain.FI2Q (m_flow m) = q /\ 0 <= m_len m <= L) (q_pkts dq) ->
  head (q_pkts dq) = head (q_pkts (wq (getw s q))) -> wf_inv hi (setw q (set_wq dq (getw s q)) s) pl.
Proof.
  intros Hi Hq Hdq Hpk Hhd. set (x := getw s q) in *. set (s' := setw q (set_wq dq x) s).
  assert (Hg : forall a, getw s' a = if decide (a = q) then set_wq dq x else getw s a) by (intros a; apply getw_setw).
  pose proof (insert_dom s s' q _ eq_refl Hq) as Hdom. pose proof (wi_cfg _ _ _ Hi q Hq) as Hc. fold x in Hc.
  constructor; try apply Hi.
  - apply heaps_ok_setw; [apply Hi|done|by intros []].
  - intros a Ha. rewrite Hdom in Ha. rewrite Hg. case_decide; [subst a|by apply (wi_cfg _ _ _ Hi)]. destruct Hc. by constructor.
  - intros a Ha. rewrite Hdom in Ha. rewrite Hg. pose proof (wi_times _ _ _ Hi a Ha) as Ht. case_decide; [subst a|done]. fold x in Ht.
    assert (Hb : backlog_times hi x -> backlog_times hi (set_wq dq x)).
    { intros (m & rest & E & H). exists m, (tail (q_pkts dq)). split; [|done]. rewrite E in Hhd. simpl. by destruct (q_pkts dq); simplify_eq/=. }
    assert (Hz : q_pkts (wq x) = [] -> q_pkts dq = []) by (intros E; rewrite E in Hhd; by destruct (q_pkts dq)).
    destruct (pl q) as [[]|]; simpl in Ht |- *; [split; [apply Hb|]; apply Ht|by apply Hb|split_and!; [apply Hz|..]; apply Ht|split; [apply Hz|]; apply Ht].
  - change (wsum (wsi s')) with (wsum (wsi s)). rewrite (wi_wsum _ _ _ Hi). unfold weights. f_equal. apply map_eq. intros a.
    unfold contributions. rewrite !map_lookup_imap. change (wqueues s') with (<[q := set_wq dq x]> (wqueues s)).
    destruct (decide (a = q)) as [->|Hne]; [|by rewrite lookup_insert_ne]. by rewrite lookup_insert_eq, (lookup_getw _ _ Hq).
  - intros a Ha. apply Hdom. by apply (wi_place _ _ _ Hi).
Qed.

Lemma wf_inv_hi hi hi' s pl : wf_inv hi s pl -> hi <= hi' < 2 ^ 63 -> wf_inv hi' s pl.
Proof.
  intros [H1 H2 H3 H4 H5 H6 H7 H8] Hh. constructor; try done; [lia|lia|]. intros q Hq.
  eapply queue_times_mono; [|done|by apply H5]. lia.
Qed.

Lemma wf_enqueue_spec hi s pl m :
  wf_inv hi s pl -> settled s pl -> 0 <= L -> hi + L * 2 ^ 28 < 2 ^ 63 -> wf_accepts s m ->
  let q := SchedMain.FI2Q (m_flow m) in
  exists ret s' pl', wf2qp_enqueue malloc q m s = Some (ret, s') /\ wf_inv (hi + L * 2 ^ 28) s' pl' /\ settled s' pl' /\
    (forall a, is_Some (wqueues s' !! a) <-> is_Some (wqueues s !! a)) /\ (forall a, a <> q -> wq (getw s' a) = wq (getw s a)) /\
    ((ret = 0 /\ q_pkts (wq (getw s' q)) = q_pkts (wq (getw s q)) ++ [m]) \/
     (ret = 1 /\ q_pkts (wq (getw s' q)) = q_pkts (wq (getw s q)))).
Proof.
  intros Hi Hset HL Hhi (Hq & Hm & Hnh) q. fold q in Hq, Hnh. pose proof (wi_cfg _ _ _ Hi q Hq) as [Hdq Hpk _ _].
  unfold wf2qp_enqueue. rewrite Hnh. change (negb false) with true. cbv iota.
  assert (Hset' : forall dq, settled (setw q (set_wq dq (getw s q)) s) pl).
  { intros dq a Ha. rewrite getw_setw. case_decide; [subst a|]; by apply Hset. }
  assert (Hkeep : forall dq, dnq_ok dq -> head (q_pkts dq) = head (q_pkts (wq (getw s q))) ->
    Forall (fun m => SchedMain.FI2Q (m_flow m) = q /\ 0 <= m_len m <= L) (q_pkts dq) ->
    wf_inv (hi + L * 2 ^ 28) (setw q (set_wq dq (getw s q)) s) pl).
  { intros dq H1 H2 H3. apply (wf_inv_hi hi); [by apply wf_set_wq|lia]. }
  pose proof (fun dq => insert_dom s (setw q (set_wq dq (getw s q)) s) q _ eq_refl Hq) as Hdom.
  assert (Hoth : forall dq a, a <> q -> wq (getw (setw q (set_wq dq (getw s q)) s) a) = wq (getw s a)).
  { intros dq a Ha. by rewrite getw_setw, decide_False. }
  destruct (dn_enqueue_spec (wq (getw s q)) m Hdq) as [(_ & E1 & E2 & E3)|(_ & E1 & E2 & E3)];
    destruct (dn_enqueue (wq (getw s q)) m) as [ret dq]; simpl in E1, E2, E3; subst ret.
  - change (z2b 0) with false. cbv iota. rewrite getw_setw, decide_True by done. simpl wq.
    assert (Hp' : Forall (fun m => SchedMain.FI2Q (m_flow m) = q /\ 0 <= m_len m <= L) (q_pkts dq))
      by (rewrite E2; apply list.Forall_app; split; [done|by constructor]).
    destruct (q_pkts (wq (getw s q))) as [|h t] eqn:Ep.
    + replace (is_head dq m) with true by (unfold is_head; rewrite E2; simpl; by rewrite Z.eqb_refl). cbv [negb].
      destruct (start_queue_spec hi s pl q m dq) as (s' & pl' & E & W1 & W2 & W3 & W4 & W5); try done. rewrite E. simpl.
      exists 0, s', pl'. split_and!; try done; [intros a Ha; by rewrite W4|]. left. by rewrite W3.
    + replace (is_head dq m) with false by (unfold is_head in *; rewrite Ep in Hnh; by rewrite E2). cbv [negb].
      eexists 0, _, pl. split; [done|]. split_and!; try done; [apply Hkeep; [done|by rewrite E2|done]|by apply Hoth|].
      left. rewrite getw_setw, decide_True by done. done.
  - change (z2b 1) with true. cbv iota. eexists 1, _, pl. split; [done|].
    split_and!; try done; [apply Hkeep; [done|by rewrite E2|by rewrite E2]|by apply Hoth|].
    right. rewrite getw_setw, decide_True by done. done.
Qed.

End inv.

(** ** The scheduler *)

(** A heap without entries is well formed whatever the window. *)
Lemma heap_ok_empty base base' h pos : heap_ok base h pos -> elements h = 0 -> heap_ok base' h pos.
Proof.
  intros [H1 H2 H3 H4 H5] He. unfold entries in H2. rewrite He in *. constructor; try done; rewrite ?He; try done.
  - unfold entries. rewrite He. constructor.
  - intros i Hi. lia.
Qed.

(** C22: WF2Q+ serves the right queue, on two conditions: the heaps can grow when
    they have to (no allocation fails; when one fails a queue is lost,
    [wf2q_insert_failure]), and the times are in a window of less than 2^63
    units, wide enough for one more packet ([hi] bounds the times of the state,
    counted from [base], and a packet adds at most [L] * 2^28).  When some queue
    has packets the scheduler then returns one.  It chooses at the virtual time [v]: that is [V],
    unless no queue has started by then; in that case it is the earliest start
    time.  Of the queues that have started at [v] it takes one with the
    smallest finish time, and returns its first packet.  The invariant holds
    again, no heap operation panics, and all the loops end. *)
Theorem wf2q_serves malloc L base hi s pl :
  (forall n, malloc n = true) -> wf_inv L base hi s pl -> settled base s pl -> 0 <= L -> hi + L * 2 ^ 28 < 2 ^ 63 ->
  (exists q, busy s q) ->
  exists m s' pl' v q, wf2qp_dequeue malloc s = Some (Some m, s') /\
    wf_inv L base (hi + L * 2 ^ 28) s' pl' /\ settled base s' pl' /\
    ((exists a, eligible base s (V (wsi s)) a) -> v = V (wsi s)) /\
    ((forall a, ~ eligible base s (V (wsi s)) a) -> forall a, busy s a -> rank base v <= rank base (S (getw s a))) /\
    eligible base s v q /\ (forall a, eligible base s v a -> rank base (F (getw s q)) <= rank base (F (getw s a))) /\
    q_pkts (wq (getw s q)) = m :: q_pkts (wq (getw s' q)) /\ (forall a, a <> q -> wq (getw s' a) = wq (getw s a)).
Proof.
  intros Hm Hi Hs HL Hh Hb.
  destruct (wf_dequeue_busy L base malloc Hm hi s pl Hi Hs HL Hh Hb) as (m & s' & pl' & v & q & H). exists m, s', pl', v, q. tauto.
Qed.

Lemma wf_dequeue_idle malloc L base hi s pl :
  wf_inv L base hi s pl -> (forall q, ~ busy s q) ->
  exists s1 s', idle_check 2147483647 true s = Some s1 /\ wsum (wsi s1) = 0 /\
    wf2qp_dequeue malloc s = Some (None, s') /\ wf_inv L 0 0 s' (fun _ => None) /\
    (forall q, wq (getw s' q) = wq (getw s q)) /\ (forall q, is_Some (wqueues s' !! q) <-> is_Some (wqueues s !! q)).
Proof.
  intros Hi Hno. assert (Hpl : forall p q, p <> Idle -> pl q <> Some p).
  { intros p q Hp Hq. apply (Hno q), (busy_place L base hi s pl q Hi). destruct p; [by left|by right|done]. }
  assert (Hz : forall p, p <> Idle -> elements (heap_of p s) = 0).
  { intros p Hp. pose proof (heaps_elements _ _ _ p (wi_heaps _ _ _ _ _ Hi)) as He.
    destruct (decide (0 < elements (heap_of p s))) as [Hlt|]; [|lia].
    destruct (place_of_top base s pl p (wi_heaps _ _ _ _ _ Hi) Hlt) as [Hq _]. by apply Hpl in Hq. }
  pose proof (heaps_elements _ _ _ Idle (wi_heaps _ _ _ _ _ Hi)) as He. pose proof (hk_size _ _ _ (wi_heaps _ _ _ _ _ Hi)) as Hsz. simpl in He.
  destruct (idle_loop_spec L base true (Datatypes.S (Z.to_nat (elements (idle_heap (wsi s))))) 2147483647 hi s pl Hi ltac:(lia))
    as (s1 & pl1 & E1 & Hi1 & Hq1 & Hz1). specialize (Hz1 eq_refl ltac:(lia)).
  assert (Hpl1 : forall q, pl1 q = None).
  { intros q. destruct (pl q) as [p|] eqn:E.
    - destruct (decide (p = Idle)) as [->|Hne]; [|by apply Hpl in E]. destruct (qt_idle _ _ _ _ Hq1 q E) as [Ei|]; [|done].
      by apply (no_place base s1 pl1 Idle (wi_heaps _ _ _ _ _ Hi1) (wi_place _ _ _ _ _ Hi1) Hz1) in Ei.
    - destruct (qt_queue _ _ _ _ Hq1 q) as [-> _]; congruence. }
  assert (Hw : forall s2, wqueues s2 = wqueues s1 -> weights s2 (fun _ => None) = 0).
  { intros s2 _. unfold weights. destruct (msum_bounds (contributions s2 (fun _ => None)) 0) as [H1 H2]; [lia| |lia].
    intros q w H. unfold contributions in H. rewrite map_lookup_imap in H. destruct (wqueues s2 !! q); simplify_eq/=. unfold contribution. lia. }
  assert (Hws : wsum (wsi s1) = 0).
  { rewrite (wi_wsum _ _ _ _ _ Hi1), <- (Hw s1 eq_refl). unfold weights, contributions, contribution. f_equal. apply map_eq. intros q.
    rewrite !map_lookup_imap. destruct (wqueues s1 !! q); [|done]. simpl. by rewrite Hpl1. }
  exists s1, (put_wsum 0 (put_V 0 s1)). split_and!; [done|done| | |apply Hq1|apply Hq1].
  - unfold wf2qp_dequeue. pose proof (Hz Sch ltac:(done)) as Z1. pose proof (Hz Ne ltac:(done)) as Z2. simpl in Z1, Z2.
    rewrite Z1, Z2. simpl. unfold idle_check. by rewrite E1.
  - constructor.
    + pose proof (wi_heaps _ _ _ _ _ Hi1) as [K1 K2 K3 K4].
      assert (Hz' : forall p, elements (heap_of p s1) = 0).
      { intros p. destruct (decide (p = Idle)) as [->|Hne]; [done|]. by rewrite (qt_heap _ _ _ _ Hq1 p Hne), Hz. }
      constructor; [| |done|done].
      * intros p. replace (heap_of p (put_wsum 0 (put_V 0 s1))) with (heap_of p s1) by (by destruct p).
        split; [apply (heap_ok_empty base); [apply K1|apply Hz']|apply K1].
      * intros p e. replace (heap_of p (put_wsum 0 (put_V 0 s1))) with (heap_of p s1) by (by destruct p).
        unfold entries. rewrite Hz'. simpl. split; [by intros ?%not_elem_of_nil|by intros (x & _ & ? & _)].
    + lia.
    + simpl. unfold rank. rewrite u64_id; [lia|unfold is_u64; lia].
    + apply Hi1.
    + intros q Hq. pose proof (wi_times _ _ _ _ _ Hi1 q Hq) as Ht. rewrite Hpl1 in Ht. exact Ht.
    + simpl. symmetry. by apply Hw.
    + simpl. lia.
    + done.
Qed.

(** When no queue has packets, WF2Q+ returns nothing, forgets every queue
    and starts again from virtual time 0; the sum of the weights, which the
    code resets to be safe, is 0 already. *)
Theorem wf2q_restarts malloc L base hi s pl :
  wf_inv L base hi s pl -> (forall q, ~ busy s q) ->
  exists s1 s', idle_check 2147483647 true s = Some s1 /\ wsum (wsi s1) = 0 /\
    wf2qp_dequeue malloc s = Some (None, s') /\ wf_inv L 0 0 s' (fun _ => None) /\ V (wsi s') = 0.
Proof.
  intros Hi Hno. destruct (wf_dequeue_idle malloc L base hi s pl Hi Hno) as (s1 & s' & E1 & Hw & E & Hi' & _).
  exists s1, s'. split_and!; try done. unfold wf2qp_dequeue in E. destruct (_ && _).
  - rewrite E1 in E. simpl in E. by injection E as <-.
  - destruct (idle_check 1 false s); [|done]. simpl in E. destruct (make_eligible malloc w); [|done]. simpl in E.
    destruct (serve malloc w0) as [[m s2]|]; [|done]. simpl in E. by destruct (make_eligible malloc s2).
Qed.

(** Enqueuing a packet puts it at the end of the queue of its flow, or
    drops it when the queue is full; the other queues keep theirs.  A queue
    that was empty gets its times and goes to the heap where it belongs: the
    invariant holds again and no heap operation panics. *)
Theorem wf2q_enqueues malloc L base hi s pl m :
  (forall n, malloc n = true) -> wf_inv L base hi s pl -> settled base s pl -> 0 <= L -> hi + L * 2 ^ 28 < 2 ^ 63 ->
  wf_accepts L s m ->
  let q := SchedMain.FI2Q (m_flow m) in
  exists ret s' pl', wf2qp_enqueue malloc q m s = Some (ret, s') /\ wf_inv L base (hi + L * 2 ^ 28) s' pl' /\
    settled base s' pl' /\ (forall a, a <> q -> wq (getw s' a) = wq (getw s a)) /\
    ((ret = 0 /\ q_pkts (wq (getw s' q)) = q_pkts (wq (getw s q)) ++ [m]) \/
     (ret = 1 /\ q_pkts (wq (getw s' q)) = q_pkts (wq (getw s q)))).
Proof.
  intros Hm Hi Hs HL Hh Ha q.
  destruct (wf_enqueue_spec L base malloc Hm hi s pl m Hi Hs HL Hh Ha) as (ret & s' & pl' & H). exists ret, s', pl'. tauto.
Qed.

(** ** Setting up *)

Lemma wf_new_sched malloc L ofs ret i :
  0 < ofs -> wf2qp_new_sched malloc ofs (mk_wsi heap_zero heap_zero heap_zero 0 0 0) = (ret, i) ->
  (ret = 0 /\ wf_inv L 0 0 (mk_w ∅ i ∅) (fun _ => None)) \/
  (ret = ENOMEM /\ i = mk_wsi heap_zero heap_zero heap_zero 0 0 0).
Proof.
  intros Ho. unfold wf2qp_new_sched. simpl idle_heap. simpl sch_heap. simpl ne_heap.
  destruct (heap_init malloc heap_zero 16 ofs) as [r h] eqn:E.
  apply (heap_init_ok 0 malloc heap_zero 16 ofs ∅) in E as Hh; [|lia|done].
  destruct Hh as [(-> & Hok & Hent & Hofs & _)| ->]; simpl; [|intros [= <- <-]; by right].
  intros [= <- <-]. left. split; [done|].
  assert (Hno : forall q, ~ is_Some (wqueues (mk_w ∅ (mk_wsi h h h 0 0 0) ∅) !! q)).
  { intros q. simpl. rewrite lookup_empty. by intros [? ?]. }
  constructor; try done; [|by intros q ?%Hno..].
  constructor; [intros []; simpl; rewrite Hofs; done| |by intros q ?%Hno|by vm_compute].
  intros p e. replace (heap_of p _) with h by (by destruct p). rewrite Hent. simpl. rewrite lookup_empty.
  split; [by intros ?%not_elem_of_nil|by intros (x & ? & _)].
Qed.

Lemma getw_none s q : wqueues s !! q = None -> getw s q = mk_wq dnq_zero 0 0 0 0.
Proof. intros H. unfold getw. rewrite lookup_total_alt, H. done. Qed.

(** A new queue with the weight that [wf2qp_new_fsk] allows. *)
Lemma wf_new_queue malloc L base hi s pl q w :
  wf_inv L base hi s pl -> q <> 0 -> wqueues s !! q = None -> Z.of_nat (size (wqueues s)) < 2 ^ 20 ->
  exists s', wf2qp_new_queue malloc q (wf2qp_new_fsk w) s = Some s' /\ wf_inv L base hi s' pl /\
    (settled base s pl -> settled base s' pl) /\ wqueues s' = <[q := getw s' q]> (wqueues s) /\ wq (getw s' q) = dnq_zero.
Proof.
  intros Hi Hq0 Hq Hsz. unfold wf2qp_new_queue. rewrite (getw_none s q Hq). cbv zeta.
  destruct (ipdn_bound_var_spec w 1 1 100) as [Hw _]; [lia|]. fold (wf2qp_new_fsk w) in Hw. set (par0 := wf2qp_new_fsk w) in *.
  pose proof (inv_bound par0 ltac:(lia)) as Hb. rewrite (u32_id (ONE_FP / par0)) by (unfold is_u32; lia).
  set (x := mk_wq _ _ _ _ _). set (s' := setw q x s).
  assert (Hg : forall a, getw s' a = if decide (a = q) then x else getw s a) by (intros; apply getw_setw).
  rewrite Hg, decide_True by done. simpl q_pkts. cbv iota. exists s'. split; [done|].
  assert (Hpq : pl q = None).
  { destruct (pl q) eqn:E; [|done]. destruct (wi_place _ _ _ _ _ Hi q) as [? ?]; congruence. }
  assert (Hne : forall a, pl a <> None -> a <> q) by (intros a Ha ->; done).
  assert (Hs : forall a, is_Some (wqueues s' !! a) -> a = q \/ is_Some (wqueues s !! a)).
  { intros a Ha. unfold s', setw in Ha. simpl in Ha. apply lookup_insert_is_Some in Ha as [->|[_ ?]]; auto. }
  split_and!.
  - constructor; try apply Hi.
    + destruct (wi_heaps _ _ _ _ _ Hi) as [K1 K2 K3 K4]. constructor; [done| | |].
      * intros p e. change (heap_of p s') with (heap_of p s). rewrite K2. unfold s', setw. simpl.
        destruct (decide (object e = q)) as [->|Hn]; [|by rewrite lookup_insert_ne].
        rewrite Hpq. split; by intros (? & _ & ? & _).
      * intros a [->|Ha]%Hs; [done|by apply K3].
      * unfold s', setw. simpl. rewrite map_size_insert_None by done. lia.
    + intros a Ha. rewrite Hg. case_decide as E; [subst a|destruct (Hs a Ha); [done|by apply (wi_cfg _ _ _ _ _ Hi)]].
      constructor; simpl; [split; simpl; lia|constructor|lia|done].
    + intros a Ha. rewrite Hg. case_decide as E; [subst a; by rewrite Hpq|destruct (Hs a Ha); [done|by apply (wi_times _ _ _ _ _ Hi)]].
    + change (wsum (wsi s')) with (wsum (wsi s)). rewrite (wi_wsum _ _ _ _ _ Hi). unfold weights.
      replace (contributions s' pl) with (<[q := 0]> (contributions s pl)).
      * unfold msum. rewrite (map_fold_insert_L (fun _ w n => w + n)); [done|intros; lia|].
        unfold contributions. by rewrite map_lookup_imap, Hq.
      * apply map_eq. intros a. unfold contributions. rewrite map_lookup_imap. unfold s', setw. simpl.
        destruct (decide (a = q)) as [->|Hn]; [rewrite !lookup_insert_eq; simpl; unfold contribution; by rewrite Hpq|].
        by rewrite !lookup_insert_ne, map_lookup_imap by done.
    + intros a Ha. unfold s', setw. simpl. rewrite lookup_insert_ne; [by apply (wi_place _ _ _ _ _ Hi)|]. symmetry. by apply Hne.
  - intros Hset a Ha. rewrite Hg, decide_False by (apply Hne; congruence). by apply Hset.
  - by rewrite Hg, decide_True.
  - by rewrite Hg, decide_True.
Qed.

(** Removing a queue takes it out of the heap that it is in, without a
    panic, and takes its weight out of the sum; a queue whose times do not
    matter any more is left alone.  The times must not have wrapped around. *)
Theorem wf2q_free_queue L base hi s pl q :
  wf_inv L base hi s pl -> settled base s pl -> is_Some (wqueues s !! q) ->
  (pl q <> None -> S (getw s q) <= F (getw s q) < 2 ^ 64 - 1 /\ 0 <= F (getw s q)) ->
  exists s', wf2qp_free_queue q s = Some s' /\ heaps_ok base s' (upd pl q None) /\
    wqueues s' = wqueues s /\ wsum (wsi s') = weights s (upd pl q None).
Proof.
  intros Hi Hset Hq Hnw. unfold wf2qp_free_queue. set (x := getw s q) in *. pose proof (wi_times _ _ _ _ _ Hi q Hq) as Ht. fold x in Ht.
  pose proof (weights_bounds _ _ _ _ _ Hi) as [Hwb Hwq].
  assert (Hw : weights s (upd pl q None) = weights s pl - contribution pl q x).
  { rewrite (weights_upd s s pl q); [fold x; lia|done|by rewrite insert_id by (by apply lookup_getw)]. }
  destruct (pl q) as [p|] eqn:Ep.
  2:{ destruct Ht as [_ Ht]. rewrite Ht, (proj2 (Z.leb_le _ _)) by lia. exists s. split_and!; try done.
      - apply (heaps_ok_ext base s pl); [apply Hi|]. intros a. unfold upd. case_decide; congruence.
      - rewrite Hw, (wi_wsum _ _ _ _ _ Hi). unfold contribution. rewrite Ep. lia. }
  specialize (Hnw ltac:(done)). specialize (Hwq q ltac:(congruence)). fold x in Hwq.
  rewrite u64_id, (proj2 (Z.leb_gt _ _)) by (unfold is_u64; lia). set (w := u32 (wsum (wsi s) - weight x)).
  assert (Hww : w = weights s (upd pl q None)).
  { unfold w. rewrite Hw, (wi_wsum _ _ _ _ _ Hi). unfold contribution. rewrite Ep. apply u32_id. unfold is_u32. lia. }
  cbv zeta. set (s1 := if 0 <? wsum (wsi (put_wsum w s)) then _ else _).
  assert (Hs1 : heaps_ok base s1 pl /\ wqueues s1 = wqueues s /\ wsum (wsi s1) = w /\ V (wsi s1) = V (wsi s)).
  { unfold s1. destruct (0 <? wsum (wsi (put_wsum w s))); split_and!; try done;
      (eapply heaps_ok_same; [apply Hi|by intros []|done..]). }
  destruct Hs1 as (Hk1 & Eq1 & Ew1 & EV1). rewrite (getw_same s s1 q Eq1), EV1. fold x.
  assert (Hgo : exists s', extract p q s1 = Some s' /\ heaps_ok base s' (upd pl q None) /\ wqueues s' = wqueues s /\
    wsum (wsi s') = weights s (upd pl q None)).
  { destruct (extract_obj_spec base s1 pl p q Hk1) as (s' & E & K & Eq & (_ & _ & Ew)); [by rewrite Eq1|done|].
    exists s'. split_and!; try done; congruence. }
  destruct (times_window _ _ _ _ _ _ _ (wi_cfg _ _ _ _ _ Hi q Hq) (proj2 (wi_hi _ _ _ _ _ Hi)) Ht) as (HwS & _ & _).
  pose proof (V_window _ _ _ _ _ Hi) as HwV. fold x in HwS. rewrite (key_lt_rank base _ _ HwV HwS).
  destruct p; simpl in Ht.
  - destruct Ht as [(m & rest & E & _) Hr]. rewrite E, (proj2 (Z.ltb_ge _ _)) by lia. done.
  - destruct Ht as (m & rest & E & _). specialize (Hset q Ep). fold x in Hset. rewrite E, (proj2 (Z.ltb_lt _ _)) by lia. done.
  - destruct Ht as (E & _). by rewrite E.
Qed.

(** ** The interface of a scheduler *)

(** Memory is assumed to be available. *)
Definition plenty (n : Z) : bool := true.

#[export] Instance wf2qp_desc : DnAlg wf2q := {|
  alg_enqueue s m := match wf2qp_enqueue plenty (SchedMain.FI2Q (m_flow m)) m s with Some r => r | None => (1, s) end;
  alg_dequeue s := match wf2qp_dequeue plenty s with Some r => r | None => (None, s) end;
|}.

Definition wf_pkts (s : wf2q) : list mbuf := gather (fun x => q_pkts (wq x)) (wqueues s).

Lemma wf_pkts_lookup s s' a :
  (forall a, is_Some (wqueues s' !! a) <-> is_Some (wqueues s !! a)) -> q_pkts (wq (getw s' a)) = q_pkts (wq (getw s a)) ->
  (fun x => q_pkts (wq x)) <$> wqueues s' !! a = (fun x => q_pkts (wq x)) <$> wqueues s !! a.
Proof.
  intros Hd Hp. destruct (decide (is_Some (wqueues s !! a))) as [H|H].
  - rewrite (lookup_getw s a), (lookup_getw s' a) by (done || by apply Hd). simpl. by rewrite Hp.
  - assert (H' : ~ is_Some (wqueues s' !! a)) by (by rewrite (Hd a)). apply eq_None_not_Some in H, H'. by rewrite H, H'.
Qed.

Lemma wf_pkts_change s s' q :
  (forall a, is_Some (wqueues s' !! a) <-> is_Some (wqueues s !! a)) -> is_Some (wqueues s !! q) ->
  (forall a, a <> q -> wq (getw s' a) = wq (getw s a)) ->
  exists rest, wf_pkts s ≡ₚ q_pkts (wq (getw s q)) ++ rest /\ wf_pkts s' ≡ₚ q_pkts (wq (getw s' q)) ++ rest.
Proof.
  intros Hd Hq Hp.
  apply (gather_change (fun x => q_pkts (wq x)) (wqueues s) (wqueues s') q (getw s q) (getw s' q)); [by apply lookup_getw|by apply lookup_getw, Hd|].
  intros a Ha. apply wf_pkts_lookup; [done|]. by rewrite Hp.
Qed.

Definition wf_len : Z := 65535.

(** The state is well formed and there is room for the times to advance. *)
Definition wf_ready (s : wf2q) : Prop :=
  exists base hi pl, wf_inv wf_len base hi s pl /\ settled base s pl /\ hi + wf_len * 2 ^ 28 < 2 ^ 63.

#[export] Program Instance wf2q_alg_ok : DnAlgOk wf2q := {|
  alg_ok s := exists base hi pl, wf_inv wf_len base hi s pl /\ settled base s pl;
  alg_pkts := wf_pkts;
  alg_accepts s m := wf_accepts wf_len s m /\ wf_ready s;
  alg_ready := wf_ready;
|}.
Next Obligation.
  intros s m ret s' _ [Ha (base & hi & pl & Hi & Hs & Hh)] E. simpl in E.
  destruct (wf_enqueue_spec wf_len base plenty (fun _ => eq_refl) hi s pl m Hi Hs ltac:(done) Hh Ha)
    as (r & s1 & pl1 & E1 & H1 & H2 & H3 & H4 & H5). rewrite E1 in E. injection E as -> ->.
  split; [by exists base, (hi + wf_len * 2 ^ 28), pl1|].
  destruct (wf_pkts_change s s' (SchedMain.FI2Q (m_flow m)) H3 (proj1 Ha) H4) as (rest & HP1 & HP2).
  destruct H5 as [[-> Hp]|[-> Hp]]; [left|right]; (split; [done|]); rewrite HP1, HP2, Hp; [|done].
  rewrite <- app_assoc. simpl. symmetry. apply Permutation_middle.
Qed.
Next Obligation.
  intros s o s' _ (base & hi & pl & Hi & Hs & Hh) E. simpl in E.
  destruct (decide (exists q, q ∈ dom (wqueues s) /\ q_pkts (wq (getw s q)) <> [])) as [Hb|Hb].
  - assert (Hb' : exists q, busy s q) by (destruct Hb as (q & Hq%elem_of_dom & Hne); by exists q).
    destruct (wf_dequeue_busy wf_len base plenty (fun _ => eq_refl) hi s pl Hi Hs ltac:(done) Hh Hb')
      as (m & s1 & pl1 & v & q & E1 & H1 & H2 & _ & _ & [[Hq _] _] & _ & H3 & H4 & H5). rewrite E1 in E. injection E as <- <-.
    split; [by exists base, (hi + wf_len * 2 ^ 28), pl1|]. destruct (wf_pkts_change s s1 q H5 Hq H4) as (rest & HP1 & HP2).
    by rewrite HP1, HP2, H3.
  - assert (Hno : forall q, ~ busy s q) by (intros q [Hq Hne]; apply Hb; exists q; split; [by apply elem_of_dom|done]).
    destruct (wf_dequeue_idle plenty wf_len base hi s pl Hi Hno) as (s0 & s1 & _ & _ & E1 & H1 & H2 & H3). rewrite E1 in E.
    injection E as <- <-. split; [exists 0, 0, (fun _ => None); split; [done|by intros q ?]|].
    assert (Hnil : wf_pkts s = []).
    { apply gather_nil. intros a x Hx. destruct (q_pkts (wq x)) as [|m l] eqn:Ex; [done|]. destruct (Hno a). split; [by eexists|].
      by rewrite (getw_lookup _ _ _ Hx), Ex. }
    split; [done|]. rewrite <- Hnil. apply gather_same. intros a. apply wf_pkts_lookup; [done|]. by rewrite H2.
Qed.

(** ** Examples *)

Definition wdemo_pkt (n flow len : Z) : mbuf := mk_mbuf n len flow.
Definition wdemo_sched (malloc : Z -> bool) : wf2q :=
  mk_w ∅ (snd (wf2qp_new_sched malloc 120 (mk_wsi heap_zero heap_zero heap_zero 0 0 0))) ∅.
Definition wdemo_queue (malloc : Z -> bool) (s : wf2q) (qw : Z * Z) : wf2q :=
  default s (wf2qp_new_queue malloc (fst qw) (wf2qp_new_fsk (snd qw)) s).
Definition wdemo_enq (malloc : Z -> bool) (s : wf2q) (m : mbuf) : wf2q :=
  default s (snd <$> wf2qp_enqueue malloc (SchedMain.FI2Q (m_flow m)) m s).

(** Two flows of weight 1 and 3. *)
Definition wdemo : wf2q :=
  foldl (wdemo_enq plenty) (foldl (wdemo_queue plenty) (wdemo_sched plenty) [(1, 1); (2, 3)])
    [wdemo_pkt 10 0 1500; wdemo_pkt 11 1 1500; wdemo_pkt 12 0 1500; wdemo_pkt 13 1 1500].

Definition wdemo_good (hi : Z) (s : wf2q) : Prop := exists pl, wf_inv 1500 0 hi s pl /\ settled 0 s pl.

Lemma wdemo_sched_good : wdemo_good 0 (wdemo_sched plenty).
Proof.
  unfold wdemo_sched. destruct (wf2qp_new_sched _ _ _) as [ret i] eqn:E. pose proof E as E'. vm_compute in E'. injection E' as Er _.
  destruct (wf_new_sched plenty 1500 120 ret i ltac:(lia) E) as [[_ H]|[H _]]; [|by rewrite <- Er in H].
  exists (fun _ => None). split; [exact H|]. by intros q.
Qed.

Lemma wdemo_queue_good hi s q w :
  wdemo_good hi s -> q <> 0 -> wqueues s !! q = None -> Z.of_nat (size (wqueues s)) < 2 ^ 20 -> wdemo_good hi (wdemo_queue plenty s (q, w)).
Proof.
  intros (pl & Hi & Hs) Hq0 Hq Hsz. destruct (wf_new_queue plenty 1500 0 hi s pl q w Hi Hq0 Hq Hsz) as (s' & E & H1 & H2 & _).
  exists pl. unfold wdemo_queue. simpl. rewrite E. simpl. auto.
Qed.

Lemma wdemo_enq_good hi s m :
  wdemo_good hi s -> hi + 1500 * 2 ^ 28 < 2 ^ 63 -> wf_accepts 1500 s m -> wdemo_good (hi + 1500 * 2 ^ 28) (wdemo_enq plenty s m).
Proof.
  intros (pl & Hi & Hs) Hh Ha.
  destruct (wf_enqueue_spec 1500 0 plenty (fun _ => eq_refl) hi s pl m Hi Hs ltac:(lia) Hh Ha) as (ret & s' & pl' & E & H1 & H2 & _).
  exists pl'. unfold wdemo_enq. rewrite E. done.
Qed.

Lemma wdemo_ok : wdemo_good (0 + 1500 * 2 ^ 28 + 1500 * 2 ^ 28 + 1500 * 2 ^ 28 + 1500 * 2 ^ 28) wdemo.
Proof.
  unfold wdemo, foldl.
  repeat (apply wdemo_enq_good; [|lia|split_and!; [by eexists; vm_compute|done|done|by vm_compute]]).
  repeat (apply wdemo_queue_good; [|done|reflexivity|by vm_compute]). apply wdemo_sched_good.
Qed.

Definition wdemo_addr (r : option (option mbuf * wf2q)) : Z :=
  match r with Some (Some m, _) => m_addr m | _ => 0 end.

Lemma wf2q_serves_witness :
  exists m s', wf2qp_dequeue plenty wdemo = Some (Some m, s') /\ m_addr m = 11.
Proof.
  destruct wdemo_ok as (pl & Hi & Hs).
  destruct (wf2q_serves plenty 1500 0 _ wdemo pl (fun _ => eq_refl) Hi Hs ltac:(lia) ltac:(lia)) as (m & s' & _ & _ & _ & E & _).
  { exists 1. split; [by eexists; vm_compute|by vm_compute]. }
  exists m, s'. split; [exact E|].
  assert (E' : wdemo_addr (wf2qp_dequeue plenty wdemo) = 11) by (vm_compute; reflexivity).
  rewrite E in E'. exact E'.
Defined.

Lemma wf2q_enqueues_witness :
  exists ret s', wf2qp_enqueue plenty 1 (wdemo_pkt 14 0 700) wdemo = Some (ret, s').
Proof.
  destruct wdemo_ok as (pl & Hi & Hs).
  destruct (wf2q_enqueues plenty 1500 0 _ wdemo pl (wdemo_pkt 14 0 700) (fun _ => eq_refl) Hi Hs ltac:(lia) ltac:(lia)) as (ret & s' & _ & E & _).
  { split_and!; [by eexists; vm_compute|done|done|by vm_compute]. }
  exists ret, s'. exact E.
Defined.

Lemma wf2q_restarts_witness :
  exists s', wf2qp_dequeue plenty (wdemo_sched plenty) = Some (None, s') /\ V (wsi s') = 0.
Proof.
  destruct wdemo_sched_good as (pl & Hi & _).
  destruct (wf2q_restarts plenty 1500 0 0 (wdemo_sched plenty) pl Hi) as (_ & s' & _ & _ & E & _ & EV).
  { intros q [[x Hx] _]. simpl in Hx. discriminate Hx. }
  exists s'. exact (conj E EV).
Defined.

Lemma wf2q_free_queue_witness :
  exists s', wf2qp_free_queue 2 wdemo = Some s' /\ wqueues s' = wqueues wdemo.
Proof.
  destruct wdemo_ok as (pl & Hi & Hs).
  destruct (wf2q_free_queue 1500 0 _ wdemo pl 2 Hi Hs) as (s' & E & _ & Eq & _).
  - by eexists; vm_compute.
  - intros _. vm_compute. split; [split; [intros H|]|intros H]; (discriminate || reflexivity).
  - exists s'. exact (conj E Eq).
Defined.

(** Allocations of more than 31 entries fail. *)
Definition scarce (n : Z) : bool := n <=? 31.

(** 32 flows with a packet each. *)
Definition wcrowd : wf2q :=
  let flows := Z.of_nat <$> seq 0 32 in
  foldl (wdemo_enq scarce) (foldl (wdemo_queue scarce) (wdemo_sched scarce) ((fun i => (i + 1, 1)) <$> flows))
    ((fun i => wdemo_pkt (i + 100) i 1500) <$> flows).

Fixpoint wdemo_drain (n : nat) (s : wf2q) : list Z * wf2q :=
  match n with
  | O => ([], s)
  | Datatypes.S n =>
      match wf2qp_dequeue scarce s with
      | Some (Some m, s) => let '(l, s) := wdemo_drain n s in (m_addr m :: l, s)
      | _ => ([], s)
      end
  end.

(** The failure of [heap_insert] goes unnoticed: when the heap cannot
    grow, [wf2qp_enqueue] still reports success, but the queue is in no heap.
    The scheduler sends the packets of the other queues, then says that it is
    empty, and the packet stays in its queue for ever. *)
Theorem wf2q_insert_failure :
  fst <$> wf2qp_enqueue scarce 32 (wdemo_pkt 131 31 1500)
            (foldl (wdemo_enq scarce) (foldl (wdemo_queue scarce) (wdemo_sched scarce) ((fun i => (i + 1, 1)) <$> (Z.of_nat <$> seq 0 32)))
               ((fun i => wdemo_pkt (i + 100) i 1500) <$> (Z.of_nat <$> seq 0 31))) = Some 0 /\
  length (fst (wdemo_drain 40 wcrowd)) = 31%nat /\
  m_addr <$> q_pkts (wq (getw (snd (wdemo_drain 40 wcrowd)) 32)) = [131].
Proof. vm_compute. auto. Qed.
