(* ===== verification/Qfq.v ===== *)
(** * The QFQ scheduler

    sched16/dn_sched_qfq.c.  The queues ("classes") are gathered in groups by
    the ratio of their maximum packet length to their weight; a group keeps its
    backlogged classes in 32 slots by their rounded start time, with a bitmap
    of the slots that are not empty; four bitmaps say which groups are
    eligible or not, ready or blocked.  All the choices are bit operations.

    [Qfq] is the code.  What C leaves undefined (a null pointer, an index out
    of an array, a shift by the width of the type or more) is [None].  The rest
    of the file is about the bit operations and about time stamps that wrap
    around; [QfqBits] has the four bitmaps and [QfqInv] the invariant of the
    scheduler with the theorems. *)

From stdpp Require Import gmap.
From S2P Require Import Prelude Sched.
Import DnQueue SchedMain.
Open Scope Z_scope.

Module Qfq.

(** ** Bit operations *)

(** libc's [ffs], on an [int]: 1 for the least significant bit. *)
Definition ffs (x : Z) : Z := let y := u32 x in if y =? 0 then 0 else Z.log2 (Z.land y (- y)) + 1.

(** [__fls(word)], an [unsigned long]; [fls] takes an [int]. *)
Definition __fls (word : Z) : Z := u64 (fls (s32 word) - 1).

(** [1 << ix] is an [int], sign extended by the bitwise operation. *)
Definition __set_bit (ix p : Z) : option Z :=
  let ix := s32 ix in
  if (ix <? 0) || (31 <? ix) then None else Some (Z.lor p (u64 (s32 (Z.shiftl 1 ix)))).
Definition __clear_bit (ix p : Z) : option Z :=
  let ix := s32 ix in
  if (ix <? 0) || (31 <? ix) then None else Some (Z.land p (u64 (Z.lnot (s32 (Z.shiftl 1 ix))))).

(** ** Constants *)

Definition QFQ_MAX_SLOTS : Z := 32.
Definition QFQ_MAX_INDEX : Z := 19.
Definition QFQ_MAX_WSHIFT : Z := 16.
Definition QFQ_MAX_WEIGHT : Z := 2 ^ QFQ_MAX_WSHIFT.
Definition QFQ_MAX_WSUM : Z := 2 * QFQ_MAX_WEIGHT.
Definition FRAC_BITS : Z := 30.
Definition ONE_FP : Z := 2 ^ FRAC_BITS.
Definition QFQ_MTU_SHIFT : Z := 11.
Definition QFQ_MIN_SLOT_SHIFT : Z := FRAC_BITS + QFQ_MTU_SHIFT - QFQ_MAX_INDEX.

(** [enum qfq_state] *)
Definition ER : Z := 0.
Definition IR : Z := 1.
Definition EB : Z := 2.
Definition IB : Z := 3.

(** ** State *)

(** [struct qfq_class]; [cl_grp] is the index of the group, [None] for
    [NULL].  The link [next] is what makes the lists of the slots. *)
Record qfq_class := mk_cl {
  cl_q : dn_queue; cl_S : Z; cl_F : Z; cl_grp : option Z; cl_inv_w : Z; cl_lmax : Z }.
#[export] Instance qfq_class_inhabited : Inhabited qfq_class := populate (mk_cl dnq_zero 0 0 None 0 0).

(** [struct qfq_group]; a slot is the list of its classes, by address. *)
Record qfq_group := mk_grp {
  g_S : Z; g_F : Z; slot_shift : Z; g_index : Z; front : Z; full_slots : Z; slots : list (list Z) }.
Definition grp_zero : qfq_group := mk_grp 0 0 0 0 0 0 (repeat [] (Z.to_nat QFQ_MAX_SLOTS)).

(** [struct qfq_sched], with the classes of the instance by address; [i_wsum]
    is never used. *)
Record qfq_sched := mk_qfq {
  V : Z; wsum : Z; iwsum : Z; queued : Z; loops : Z;
  bitmaps : list Z; groups : list qfq_group; classes : gmap Z qfq_class }.

Definition set_V v q := mk_qfq v (wsum q) (iwsum q) (queued q) (loops q) (bitmaps q) (groups q) (classes q).
Definition set_queued v q := mk_qfq (V q) (wsum q) (iwsum q) v (loops q) (bitmaps q) (groups q) (classes q).
Definition inc_loops q :=
  mk_qfq (V q) (wsum q) (iwsum q) (queued q) (u32 (loops q + 1)) (bitmaps q) (groups q) (classes q).
Definition set_weights w iw q := mk_qfq (V q) w iw (queued q) (loops q) (bitmaps q) (groups q) (classes q).
Definition set_bitmap s v q :=
  mk_qfq (V q) (wsum q) (iwsum q) (queued q) (loops q) (<[Z.to_nat s := v]> (bitmaps q)) (groups q) (classes q).
Definition set_grp i g q :=
  mk_qfq (V q) (wsum q) (iwsum q) (queued q) (loops q) (bitmaps q) (<[Z.to_nat i := g]> (groups q)) (classes q).
Definition set_class c x q :=
  mk_qfq (V q) (wsum q) (iwsum q) (queued q) (loops q) (bitmaps q) (groups q) (<[c := x]> (classes q)).

Definition bitmap (q : qfq_sched) (s : Z) : Z := bitmaps q !!! Z.to_nat s.
(** [&q->groups[i]], dereferenced. *)
Definition grp_at (q : qfq_sched) (i : Z) : option qfq_group :=
  if i <? 0 then None else groups q !! Z.to_nat i.

Definition set_cl_q v c := mk_cl v (cl_S c) (cl_F c) (cl_grp c) (cl_inv_w c) (cl_lmax c).
Definition set_cl_S v c := mk_cl (cl_q c) v (cl_F c) (cl_grp c) (cl_inv_w c) (cl_lmax c).
Definition set_cl_F v c := mk_cl (cl_q c) (cl_S c) v (cl_grp c) (cl_inv_w c) (cl_lmax c).
Definition set_times s f g := mk_grp s f (slot_shift g) (g_index g) (front g) (full_slots g) (slots g).
Definition set_slots fr full sl g := mk_grp (g_S g) (g_F g) (slot_shift g) (g_index g) fr full sl.

(** The list of classes of the slot [i] of the array. *)
Definition slot_at (g : qfq_group) (i : Z) : list Z := default [] (slots g !! Z.to_nat i).

(** ** Support functions *)

Definition qfq_gt (a b : Z) : bool := 0 <? s64 (u64 (a - b)).
Definition qfq_round_down (ts shift : Z) : Z := Z.land ts (u64 (Z.lnot (Z.shiftl 1 shift - 1))).

(** The index of the group with the lowest index in the bitmap. *)
Definition qfq_ffs (bm : Z) : Z := ffs bm - 1.

Definition qfq_calc_index (inv_w maxlen : Z) : Z :=
  let slot_size := u64 (maxlen * inv_w) in
  let size_map := Z.shiftr slot_size QFQ_MIN_SLOT_SHIFT in
  if size_map =? 0 then 0
  else
    let index := s32 (__fls size_map + 1) in
    let index := index - b2z (slot_size =? Z.shiftl 1 (index + QFQ_MIN_SLOT_SHIFT - 1)) in
    if index <? 0 then 0 else index.

Definition mask_from (bm from : Z) : Z := Z.land bm (u64 (Z.lnot (Z.shiftl 1 from - 1))).

(** ** Groups and bitmaps *)

(** [qfq_calc_state(q, grp)], [grp] given by its index. *)
Definition qfq_calc_state (q : qfq_sched) (gi : Z) : option Z :=
  grp ← grp_at q gi;
  let state := b2z (qfq_gt (g_S grp) (V q)) in
  let mask := mask_from (bitmap q ER) (g_index grp) in
  if mask =? 0 then Some state
  else
    next ← grp_at q (qfq_ffs mask);
    Some (if qfq_gt (g_F grp) (g_F next) then Z.lor state EB else state).

Definition qfq_move_groups (q : qfq_sched) (mask src dst : Z) : qfq_sched :=
  let q := set_bitmap dst (Z.lor (bitmap q dst) (Z.land (bitmap q src) mask)) q in
  set_bitmap src (Z.land (bitmap q src) (u64 (Z.lnot mask))) q.

Definition qfq_unblock_groups (q : qfq_sched) (index old_finish : Z) : option qfq_sched :=
  let unblock :=
    let mask := Z.shiftl 1 index - 1 in
    qfq_move_groups (qfq_move_groups q mask EB ER) mask IB IR in
  let mask := mask_from (bitmap q ER) (index + 1) in
  if mask =? 0 then Some unblock
  else
    next ← grp_at q (qfq_ffs mask);
    Some (if negb (qfq_gt (g_F next) old_finish) then q else unblock).

Definition qfq_make_eligible (q : qfq_sched) (old_V : Z) : option qfq_sched :=
  let vslot := Z.shiftr (V q) QFQ_MIN_SLOT_SHIFT in
  let old_vslot := Z.shiftr old_V QFQ_MIN_SLOT_SHIFT in
  if vslot =? old_vslot then Some q
  else
    let n := __fls (Z.lxor vslot old_vslot) in
    if 63 <? n then None
    else
      let mask := u64 (u64 (Z.shiftl 2 n) - 1) in
      Some (qfq_move_groups (qfq_move_groups q mask IR ER) mask IB EB).

(** ** Slots *)

(** How the list of a slot is linked, [h] being [grp->slots[i]] and [next] the
    field of the classes: pushing a class and removing the first one.  The slots
    of [qfq_group] hold the lists (see [slot_push_refines]). *)
Definition slot_push (next : gmap Z Z) (h cl : Z) : gmap Z Z * Z := (<[cl := h]> next, cl).
Definition slot_pop (next : gmap Z Z) (h : Z) : Z := default 0 (next !! h).

Definition qfq_slot_insert (grp : qfq_group) (cl roundedS : Z) : option qfq_group :=
  let slot := Z.shiftr (u64 (roundedS - g_S grp)) (slot_shift grp) in
  let i := u64 (front grp + slot) mod QFQ_MAX_SLOTS in
  full ← __set_bit slot (full_slots grp);
  Some (set_slots (front grp) full (<[Z.to_nat i := cl :: slot_at grp i]> (slots grp)) grp).

Definition qfq_front_slot_remove (grp : qfq_group) : option qfq_group :=
  match slot_at grp (front grp) with
  | [] => None
  | _ :: rest =>
      full ← (match rest with [] => __clear_bit 0 (full_slots grp) | _ => Some (full_slots grp) end);
      Some (set_slots (front grp) full (<[Z.to_nat (front grp) := rest]> (slots grp)) grp)
  end.

(** The class returned is [None] for [NULL]. *)
Definition qfq_slot_scan (grp : qfq_group) : option Z * qfq_group :=
  if full_slots grp =? 0 then (None, grp)
  else
    let i := ffs (full_slots grp) - 1 in
    let grp := if 0 <? i then
                 set_slots ((front grp + i) mod QFQ_MAX_SLOTS) (Z.shiftr (full_slots grp) i) (slots grp) grp
               else grp in
    (hd_error (slot_at grp (front grp)), grp).

Definition qfq_slot_rotate (grp : qfq_group) (roundedS : Z) : option qfq_group :=
  let i := u32 (Z.shiftr (u64 (g_S grp - roundedS)) (slot_shift grp)) in
  if 63 <? i then None
  else Some (set_slots (u32 (front grp - i) mod QFQ_MAX_SLOTS) (u64 (Z.shiftl (full_slots grp) i)) (slots grp) grp).

Definition qfq_update_eligible (q : qfq_sched) (old_V : Z) : option qfq_sched :=
  let ineligible := Z.lor (bitmap q IR) (bitmap q IB) in
  if ineligible =? 0 then Some q
  else
    q ← (if bitmap q ER =? 0 then
           grp ← grp_at q (qfq_ffs ineligible);
           Some (if qfq_gt (g_S grp) (V q) then set_V (g_S grp) q else q)
         else Some q);
    qfq_make_eligible q old_V.

(** ** Dequeueing *)

(** [qfq_update_class(q, grp, cl)]: true when the group needs an update. *)
Definition qfq_update_class (q : qfq_sched) (gi cl : Z) : option (bool * qfq_sched) :=
  c ← classes q !! cl;
  grp ← grp_at q gi;
  let c := set_cl_S (cl_F c) c in
  match q_pkts (cl_q c) with
  | [] =>
      grp ← qfq_front_slot_remove grp;
      Some (true, set_grp gi grp (set_class cl c q))
  | m :: _ =>
      let len := u32 (m_len m) in
      let c := set_cl_F (u64 (cl_S c + len * cl_inv_w c)) c in
      let q := set_class cl c q in
      let roundedS := qfq_round_down (cl_S c) (slot_shift grp) in
      if roundedS =? g_S grp then Some (false, q)
      else
        grp ← qfq_front_slot_remove grp;
        grp ← qfq_slot_insert grp cl roundedS;
        Some (true, set_grp gi grp q)
  end.

(** The block of [qfq_dequeue] that updates the group of the class served. *)
Definition update_group (q : qfq_sched) (gi : Z) : option qfq_sched :=
  grp ← grp_at q gi;
  let old_F := g_F grp in
  let '(cl, grp) := qfq_slot_scan grp in
  let q := set_grp gi grp q in
  match cl with
  | None =>
      er ← __clear_bit (g_index grp) (bitmap q ER);
      qfq_unblock_groups (set_bitmap ER er q) (g_index grp) old_F
  | Some cl =>
      c ← classes q !! cl;
      let roundedS := qfq_round_down (cl_S c) (slot_shift grp) in
      if g_S grp =? roundedS then Some q
      else
        let grp := set_times roundedS (u64 (roundedS + Z.shiftl 2 (slot_shift grp))) grp in
        let q := set_grp gi grp q in
        er ← __clear_bit (g_index grp) (bitmap q ER);
        let q := set_bitmap ER er q in
        s ← qfq_calc_state q gi;
        b ← __set_bit (g_index grp) (bitmap q s);
        qfq_unblock_groups (set_bitmap s b q) (g_index grp) old_F
  end.

Definition qfq_dequeue (q : qfq_sched) : option (option mbuf * qfq_sched) :=
  let q := inc_loops q in
  if bitmap q ER =? 0 then Some (None, q)
  else
    let gi := qfq_ffs (bitmap q ER) in
    grp ← grp_at q gi;
    cl ← hd_error (slot_at grp (front grp));
    c ← classes q !! cl;
    let '(o, dq) := dn_dequeue (cl_q c) in
    let q := set_class cl (set_cl_q dq c) q in
    match o with
    | None => Some (None, q)
    | Some m =>
        let q := set_queued (u32 (queued q - 1)) q in
        let old_V := V q in
        let q := set_V (u64 (V q + m_len m * iwsum q)) q in
        '(upd, q) ← qfq_update_class q gi cl;
        q ← (if upd : bool then update_group q gi else Some q);
        q ← qfq_update_eligible q old_V;
        Some (Some m, q)
    end.

(** ** Enqueueing *)

(** [qfq_update_start(q, cl)]: the new start time of the class. *)
Definition qfq_update_start (q : qfq_sched) (c : qfq_class) : option Z :=
  gi ← cl_grp c;
  grp ← grp_at q gi;
  let roundedF := qfq_round_down (cl_F c) (slot_shift grp) in
  let limit := u64 (qfq_round_down (V q) (slot_shift grp) + Z.shiftl 1 (slot_shift grp)) in
  if negb (qfq_gt (cl_F c) (V q)) || qfq_gt roundedF limit then
    let mask := mask_from (bitmap q ER) (g_index grp) in
    if mask =? 0 then Some (V q)
    else
      next ← grp_at q (qfq_ffs mask);
      Some (if qfq_gt roundedF (g_F next) then
              if qfq_gt limit (g_F next) then g_F next else limit
            else V q)
  else Some (cl_F c).

(** From the label [skip_update] on. *)
Definition skip_update (q : qfq_sched) (gi cl roundedS : Z) : option qfq_sched :=
  grp ← grp_at q gi;
  grp ← qfq_slot_insert grp cl roundedS;
  Some (set_grp gi grp q).

(** The new time stamps of the group, and its new state. *)
Definition update_times (q : qfq_sched) (gi cl roundedS : Z) : option qfq_sched :=
  grp ← grp_at q gi;
  let grp := set_times roundedS (u64 (roundedS + Z.shiftl 2 (slot_shift grp))) grp in
  let q := set_grp gi grp q in
  s ← qfq_calc_state q gi;
  b ← __set_bit (g_index grp) (bitmap q s);
  skip_update (set_bitmap s b q) gi cl roundedS.

(** What [qfq_enqueue] does when the queue was idle. *)
Definition activate (q : qfq_sched) (cl : Z) (m : mbuf) : option qfq_sched :=
  c ← classes q !! cl;
  s ← qfq_update_start q c;
  let c := set_cl_S s c in
  let c := set_cl_F (u64 (cl_S c + m_len m * cl_inv_w c)) c in
  let q := set_class cl c q in
  gi ← cl_grp c;
  grp ← grp_at q gi;
  let roundedS := qfq_round_down (cl_S c) (slot_shift grp) in
  if negb (full_slots grp =? 0) then
    if negb (qfq_gt (g_S grp) (cl_S c)) then skip_update q gi cl roundedS
    else
      grp ← qfq_slot_rotate grp roundedS;
      let q := set_grp gi grp q in
      ir ← __clear_bit (g_index grp) (bitmap q IR);
      let q := set_bitmap IR ir q in
      ib ← __clear_bit (g_index grp) (bitmap q IB);
      update_times (set_bitmap IB ib q) gi cl roundedS
  else update_times (if (bitmap q ER =? 0) && qfq_gt roundedS (V q) then set_V roundedS q else q) gi cl roundedS.

Definition qfq_enqueue (q : qfq_sched) (cl : Z) (m : mbuf) : option (Z * qfq_sched) :=
  let q := inc_loops q in
  c ← classes q !! cl;
  if negb (is_head (cl_q c) m) then
    let '(ret, dq) := dn_enqueue (cl_q c) m in
    let q := set_class cl (set_cl_q dq c) q in
    if z2b ret then Some (1, q)
    else
      let q := set_queued (u32 (queued q + 1)) q in
      if negb (is_head dq m) then Some (0, q)
      else q ← activate q cl m; Some (0, q)
  else q ← activate q cl m; Some (0, q).

(** ** Configuration *)

Definition qfq_new_fsk (par0 par1 : Z) : Z * Z :=
  (ipdn_bound_var par0 1 1 QFQ_MAX_WEIGHT, ipdn_bound_var par1 1500 1 2000).

Definition EINVAL : Z := 22.

(** [qfq_new_queue(_q)], with the parameters of its flowset. *)
Definition qfq_new_queue (q : qfq_sched) (cl par0 par1 : Z) : option (Z * qfq_sched) :=
  c ← classes q !! cl;
  let w := u32 par0 in
  let lmax := u32 par1 in
  let w := if (w =? 0) || (QFQ_MAX_WEIGHT <? w) then 1 else w in
  let inv_w := u32 (ONE_FP / w) in
  let w := u32 (ONE_FP / inv_w) in
  let c := mk_cl (cl_q c) (cl_S c) (cl_F c) (cl_grp c) inv_w lmax in
  if QFQ_MAX_WSUM <? u32 (wsum q + w) then Some (EINVAL, set_class cl c q)
  else
    let i := qfq_calc_index inv_w lmax in
    let c := mk_cl (cl_q c) (cl_S c) (cl_F c) (Some i) inv_w lmax in
    let ws := u32 (wsum q + w) in
    Some (0, set_weights ws (u32 (ONE_FP / ws)) (set_class cl c q)).

Definition qfq_free_queue (q : qfq_sched) (cl : Z) : option qfq_sched :=
  c ← classes q !! cl;
  if cl_inv_w c =? 0 then Some q
  else
    let ws := u32 (wsum q - ONE_FP / cl_inv_w c) in
    let iws := if ws =? 0 then iwsum q else u32 (ONE_FP / ws) in
    Some (set_weights ws iws (set_class cl (mk_cl (cl_q c) (cl_S c) (cl_F c) (cl_grp c) 0 (cl_lmax c)) q)).

(** The memory of the instance is zeroed by the caller. *)
Definition qfq_zero (cls : gmap Z qfq_class) : qfq_sched :=
  mk_qfq 0 0 0 0 0 [0; 0; 0; 0] (repeat grp_zero (Z.to_nat (QFQ_MAX_INDEX + 1))) cls.

Definition qfq_new_sched (q : qfq_sched) : qfq_sched :=
  foldl (fun q i =>
    match grp_at q i with
    | Some g => set_grp i (mk_grp (g_S g) (g_F g) (QFQ_MTU_SHIFT + FRAC_BITS - (QFQ_MAX_INDEX - i)) i
                             (front g) (full_slots g) (slots g)) q
    | None => q
    end) q (seqZ 0 (QFQ_MAX_INDEX + 1)).

(** What [init] of sched_main.c does with a flowset, given by its parameters,
    and with the flows, given by the address of their queue and the parameters
    of their flowset: the result of [new_queue] is not looked at. *)
Definition init_fsk (par0 par1 : Z) : Z * Z := qfq_new_fsk par0 (if par1 =? 0 then 1000 else par1).
Definition init_queue (s : option qfq_sched) (flow : Z * (Z * Z)) : option qfq_sched :=
  let '(c, (par0, par1)) := flow in
  let '(w, l) := init_fsk par0 par1 in
  q ← s; snd <$> qfq_new_queue q c w l.
Definition init_queues (q : qfq_sched) (flows : list (Z * (Z * Z))) : option qfq_sched := foldl init_queue (Some q) flows.

(** [qfq_desc].  After something undefined nothing is known. *)
#[export] Instance qfq_desc : DnAlg (option qfq_sched) := {|
  alg_enqueue s m :=
    match s with
    | Some q => match qfq_enqueue q (FI2Q (m_flow m)) m with Some (ret, q) => (ret, Some q) | None => (1, None) end
    | None => (1, None)
    end;
  alg_dequeue s :=
    match s with
    | Some q => match qfq_dequeue q with Some (o, q) => (o, Some q) | None => (None, None) end
    | None => (None, None)
    end;
|}.

End Qfq.
Import Qfq.

(** ** The lists of the slots *)

Lemma slot_push_refines next h l cl :
  linked next h l -> cl <> 0 -> cl ∉ l -> let '(next', h') := slot_push next h cl in linked next' h' (cl :: l).
Proof.
  intros Hl Hc Hn. simpl. rewrite lookup_insert_eq. split_and!; try done. simpl.
  apply (linked_ext next); [|done]. intros x Hx. rewrite lookup_insert_ne; [done|]. by intros ->.
Qed.

Lemma slot_pop_refines next h cl l : linked next h (cl :: l) -> linked next (slot_pop next h) l.
Proof. by intros (-> & _ & Hl). Qed.

(** ** Bits *)

Lemma u64_testbit x n : 0 <= n -> Z.testbit (u64 x) n = (n <? 64) && Z.testbit x n.
Proof.
  intros Hn. unfold u64, wrap. destruct (Z.ltb_spec n 64); [by apply Z.mod_pow2_bits_low|].
  by apply Z.mod_pow2_bits_high; lia.
Qed.

Lemma testbit_small x w n : 0 <= x < 2 ^ w -> w <= n -> Z.testbit x n = false.
Proof.
  intros Hx Hn. destruct (decide (x = 0)) as [->|]; [apply Z.bits_0|].
  apply Z.bits_above_log2; [lia|]. assert (Z.log2 x < w) by (apply Z.log2_lt_pow2; lia). lia.
Qed.

(** A number whose bits are below [w]. *)
Lemma bits_bound x w : 0 <= w -> (forall n, 0 <= n -> Z.testbit x n = true -> n < w) -> 0 <= x < 2 ^ w.
Proof.
  intros Hw H.
  assert (E : x = x mod 2 ^ w).
  { apply Z.bits_inj'. intros n Hn. destruct (Z.lt_ge_cases n w) as [Hlt|Hge].
    - by rewrite Z.mod_pow2_bits_low by lia.
    - rewrite Z.mod_pow2_bits_high by lia. destruct (Z.testbit x n) eqn:E; [|done]. apply H in E; lia. }
  rewrite E. apply Z.mod_pos_bound. lia.
Qed.

Lemma bits_zero x : 0 <= x -> x <> 0 -> exists n, 0 <= n /\ Z.testbit x n = true.
Proof. intros Hx Hne. exists (Z.log2 x). split; [apply Z.log2_nonneg|]. apply Z.bit_log2. lia. Qed.

(** The lowest bit of [y & -y] is the lowest one of [y]. *)
Lemma land_opp y i : 0 <= i -> Z.testbit y i = true -> (forall j, 0 <= j < i -> Z.testbit y j = false) -> Z.land y (- y) = 2 ^ i.
Proof.
  intros Hi Hb Hlow. assert (Hy : exists k, y = 2 ^ i * (2 * k + 1)).
  { exists (y / 2 ^ (i + 1)). assert (E : y mod 2 ^ i = 0).
    { apply Z.bits_inj'. intros n Hn. rewrite Z.bits_0. destruct (Z.lt_ge_cases n i).
      - rewrite Z.mod_pow2_bits_low by lia. apply Hlow. lia.
      - apply Z.mod_pow2_bits_high. lia. }
    apply Z.testbit_true in Hb; [|lia]. rewrite Z.pow_add_r by lia. change (2 ^ 1) with 2.
    rewrite <- Z.div_div by lia. pose proof (Z.div_mod y (2 ^ i)). pose proof (Z.div_mod (y / 2 ^ i) 2). lia. }
  destruct Hy as [k ->]. clear Hb Hlow.
  replace (- (2 ^ i * (2 * k + 1))) with (2 ^ i * (2 * (- k - 1) + 1)) by ring.
  rewrite !(Z.mul_comm (2 ^ i)), <- !Z.shiftl_mul_pow2 by lia. rewrite <- Z.shiftl_land.
  rewrite Z.shiftl_mul_pow2 by lia.
  replace (Z.land (2 * k + 1) (2 * (- k - 1) + 1)) with 1; [lia|].
  apply Z.bits_inj'. intros n Hn. rewrite Z.land_spec. destruct (decide (n = 0)) as [->|Hne].
  - by rewrite !Z.testbit_odd_0.
  - replace n with (Z.succ (n - 1)) by lia. rewrite !Z.testbit_odd_succ by lia.
    replace (- k - 1) with (Z.lnot k) by (unfold Z.lnot; lia). rewrite Z.lnot_spec by lia.
    rewrite andb_negb_r. change 1 with (2 * 0 + 1). by rewrite Z.testbit_odd_succ, Z.bits_0 by lia.
Qed.

Lemma lowest_bit x : 0 < x ->
  exists i, 0 <= i /\ Z.testbit x i = true /\ forall j, 0 <= j < i -> Z.testbit x j = false.
Proof.
  intros Hx. assert (Hgen : forall n : nat, (exists i, 0 <= i < Z.of_nat n /\ Z.testbit x i = true /\ forall j, 0 <= j < i -> Z.testbit x j = false)
    \/ forall j, 0 <= j < Z.of_nat n -> Z.testbit x j = false).
  { induction n as [|n [(i & Hi & ?)|IH]]; [right; lia|left; exists i; split; [lia|done]|].
    destruct (Z.testbit x (Z.of_nat n)) eqn:E.
    - left. exists (Z.of_nat n). split; [lia|]. done.
    - right. intros j Hj. destruct (decide (j = Z.of_nat n)) as [->|]; [done|]. apply IH. lia. }
  destruct (Hgen (Z.to_nat (Z.log2 x + 1))) as [(i & Hi & ?)|Hn]; [exists i; split; [lia|done]|].
  pose proof (Z.log2_nonneg x). pose proof (Z.bit_log2 x Hx) as Hb. rewrite Hn in Hb; [done|lia].
Qed.

Lemma ffs_spec x : 0 < x < 2 ^ 32 ->
  0 <= ffs x - 1 < 32 /\ Z.testbit x (ffs x - 1) = true /\ forall j, 0 <= j < ffs x - 1 -> Z.testbit x j = false.
Proof.
  intros Hx. destruct (lowest_bit x) as (i & Hi & Hb & Hlow); [lia|].
  assert (ffs x - 1 = i) as ->.
  { unfold ffs. rewrite u32_id by (unfold is_u32; lia). rewrite (proj2 (Z.eqb_neq x 0)) by lia.
    rewrite (land_opp x i) by done. rewrite Z.log2_pow2 by lia. lia. }
  split_and!; try done. destruct (Z.lt_ge_cases i 32); [done|]. rewrite (testbit_small x 32) in Hb; [done|lia..].
Qed.

Lemma set_bit_spec ix p : 0 <= ix <= 30 ->
  exists p', __set_bit ix p = Some p' /\ forall n, 0 <= n -> Z.testbit p' n = (n =? ix) || Z.testbit p n.
Proof.
  intros Hix. unfold __set_bit. rewrite (s32_id ix) by lia.
  rewrite (proj2 (Z.ltb_ge ix 0)), (proj2 (Z.ltb_ge 31 ix)) by lia. simpl. eexists. split; [done|].
  intros n Hn. rewrite Z.lor_spec, orb_comm. f_equal.
  pose proof (Z.pow_lt_mono_r 2 ix 31). pose proof (Z.pow_pos_nonneg 2 ix).
  rewrite Z.shiftl_1_l, s32_id, u64_id by (unfold is_u64; lia). rewrite Z.pow2_bits_eqb by lia. apply Z.eqb_sym.
Qed.

Lemma clear_bit_spec ix p : 0 <= ix <= 30 -> 0 <= p < 2 ^ 64 ->
  exists p', __clear_bit ix p = Some p' /\ forall n, 0 <= n -> Z.testbit p' n = negb (n =? ix) && Z.testbit p n.
Proof.
  intros Hix Hp. unfold __clear_bit. rewrite (s32_id ix) by lia.
  rewrite (proj2 (Z.ltb_ge ix 0)), (proj2 (Z.ltb_ge 31 ix)) by lia. simpl. eexists. split; [done|].
  intros n Hn. rewrite Z.land_spec, andb_comm, u64_testbit, Z.lnot_spec by lia.
  pose proof (Z.pow_lt_mono_r 2 ix 31). pose proof (Z.pow_pos_nonneg 2 ix).
  rewrite Z.shiftl_1_l, s32_id, Z.pow2_bits_eqb by lia. rewrite (Z.eqb_sym ix n).
  destruct (Z.ltb_spec n 64); [done|]. rewrite (testbit_small p 64 n) by lia. rewrite ?andb_false_r. reflexivity.
Qed.

Lemma low_mask_spec i n : 0 <= i -> 0 <= n -> Z.testbit (Z.shiftl 1 i - 1) n = (n <? i).
Proof.
  intros Hi Hn. rewrite Z.shiftl_1_l, Z.sub_1_r, <- Z.ones_equiv. destruct (Z.ltb_spec n i).
  - by apply Z.ones_spec_low; lia.
  - by apply Z.ones_spec_high; lia.
Qed.

Lemma high_mask_spec i n : 0 <= i -> 0 <= n -> Z.testbit (u64 (Z.lnot (Z.shiftl 1 i - 1))) n = (n <? 64) && (i <=? n).
Proof. intros Hi Hn. rewrite u64_testbit, Z.lnot_spec, low_mask_spec by lia. by rewrite Z.leb_antisym. Qed.

Lemma mask_from_spec bm from n : 0 <= from -> 0 <= bm < 2 ^ 64 -> 0 <= n ->
  Z.testbit (mask_from bm from) n = Z.testbit bm n && (from <=? n).
Proof.
  intros Hf Hb Hn. unfold mask_from. rewrite Z.land_spec, high_mask_spec by lia.
  destruct (Z.ltb_spec n 64); [done|]. rewrite (testbit_small bm 64 n) by lia. done.
Qed.

(** ** Time stamps

    Time stamps wrap around.  [near t x] is the time closest to [t] that the
    64-bit time stamp [x] stands for; [rd] rounds a time down to a slot. *)

Definition near (t x : Z) : Z := t + s64 (x - t).
Definition rd (t sh : Z) : Z := t - t mod 2 ^ sh.

Lemma s64_mod x : s64 (x mod 2 ^ 64) = s64 x.
Proof. unfold s64, swrap, wrap. by rewrite Z.mod_mod by lia. Qed.

Lemma s64_id x : - 2 ^ 63 <= x < 2 ^ 63 -> s64 x = x.
Proof. unfold s64, swrap. intros. case_if; warith. Qed.

Lemma s64_range x : - 2 ^ 63 <= s64 x < 2 ^ 63.
Proof. unfold s64, swrap. case_if; warith. Qed.

Lemma u64_s64 x : u64 (s64 x) = u64 x.
Proof. unfold s64, swrap. case_if; warith. Qed.

Lemma u64_add_l x y : u64 (u64 x + y) = u64 (x + y).
Proof. apply Z.add_mod_idemp_l; lia. Qed.
Lemma u64_add_r x y : u64 (x + u64 y) = u64 (x + y).
Proof. apply Z.add_mod_idemp_r; lia. Qed.
Lemma u64_sub_l x y : u64 (u64 x - y) = u64 (x - y).
Proof. apply Zminus_mod_idemp_l. Qed.
Lemma u64_sub_r x y : u64 (x - u64 y) = u64 (x - y).
Proof. apply Zminus_mod_idemp_r. Qed.
Lemma u64_idemp x : u64 (u64 x) = u64 x.
Proof. apply Z.mod_mod; lia. Qed.

Lemma near_u64 t x : u64 (near t x) = u64 x.
Proof. unfold near. rewrite <- u64_add_r, u64_s64, u64_add_r. f_equal. lia. Qed.

Lemma near_range t x : - 2 ^ 63 <= near t x - t < 2 ^ 63.
Proof. unfold near. pose proof (s64_range (x - t)). lia. Qed.

Lemma near_uniq t x y : u64 x = u64 y -> - 2 ^ 63 <= y - t < 2 ^ 63 -> near t x = y.
Proof.
  intros E Hy. unfold near. enough (s64 (x - t) = y - t) by lia.
  rewrite <- (s64_id (y - t)) by done. rewrite <- (s64_mod (x - t)), <- (s64_mod (y - t)). f_equal.
  change (u64 (x - t) = u64 (y - t)). by rewrite <- (u64_sub_l x), E, u64_sub_l.
Qed.

Lemma near_self t x : is_u64 x -> x = u64 (near t x).
Proof. intros Hx. by rewrite near_u64, u64_id. Qed.

Lemma gt_spec ta tb : - 2 ^ 63 < ta - tb < 2 ^ 63 -> qfq_gt (u64 ta) (u64 tb) = (tb <? ta).
Proof.
  intros H. unfold qfq_gt. rewrite u64_sub_l, u64_sub_r. unfold u64, wrap. rewrite s64_mod, s64_id by lia.
  destruct (Z.ltb_spec 0 (ta - tb)), (Z.ltb_spec tb ta); (done || lia).
Qed.

Lemma rd_shift t sh : 0 <= sh -> rd t sh = Z.shiftl (Z.shiftr t sh) sh.
Proof.
  intros. unfold rd. rewrite Z.shiftl_mul_pow2, Z.shiftr_div_pow2 by lia. pose proof (Z.div_mod t (2 ^ sh)). lia.
Qed.

Lemma round_down_spec t sh : 0 <= sh < 64 -> qfq_round_down (u64 t) sh = u64 (rd t sh).
Proof.
  intros Hsh. unfold qfq_round_down. rewrite rd_shift by lia. apply Z.bits_inj'. intros n Hn.
  rewrite Z.land_spec, high_mask_spec, !u64_testbit, Z.shiftl_spec by lia.
  destruct (Z.ltb_spec n 64); [|done]. simpl. destruct (Z.leb_spec sh n).
  - rewrite Z.shiftr_spec by lia. rewrite andb_true_r. f_equal. lia.
  - rewrite andb_false_r. symmetry. apply Z.testbit_neg_r. lia.
Qed.

Lemma rd_range t sh : 0 <= sh -> rd t sh <= t < rd t sh + 2 ^ sh.
Proof. intros. unfold rd. pose proof (Z.mod_pos_bound t (2 ^ sh)). lia. Qed.

Lemma rd_divide t sh : 0 <= sh -> (2 ^ sh | rd t sh).
Proof. intros. exists (t / 2 ^ sh). unfold rd. pose proof (Z.div_mod t (2 ^ sh)). lia. Qed.

Lemma rd_uniq t sh a : 0 <= sh -> (2 ^ sh | a) -> a <= t < a + 2 ^ sh -> rd t sh = a.
Proof.
  intros Hsh [k ->] Ht. unfold rd. rewrite (Z.mod_eq t) by lia.
  rewrite <- (Z.div_unique_pos t (2 ^ sh) k (t - k * 2 ^ sh)); lia.
Qed.

Lemma rd_le_iff t sh a : 0 <= sh -> (2 ^ sh | a) -> a <= t <-> a <= rd t sh.
Proof.
  intros Hsh [k ->]. pose proof (rd_range t sh Hsh). split; [|lia]. intros.
  destruct (rd_divide t sh Hsh) as [j Hj]. rewrite Hj in *. assert (k <= j) by nia. nia.
Qed.

Lemma rd_mono t t' sh : 0 <= sh -> t <= t' -> rd t sh <= rd t' sh.
Proof. intros. apply rd_le_iff; [done|by apply rd_divide|]. pose proof (rd_range t sh). lia. Qed.

Lemma slot_spec ta tb sh : 0 <= sh -> 0 <= ta - tb < 2 ^ 64 ->
  Z.shiftr (u64 (u64 ta - u64 tb)) sh = (ta - tb) / 2 ^ sh.
Proof. intros. rewrite u64_sub_l, u64_sub_r, u64_id by done. by apply Z.shiftr_div_pow2. Qed.
