(* ===== verification/QfqBits.v ===== *)
(** * The groups of QFQ and their four bitmaps

    A group is idle or in one of four states; the bitmaps of [qfq_sched]
    represent a function from groups to states, and the operations that move
    sets of groups with a few bit operations change that function group by
    group. *)

From stdpp Require Import gmap functions.
From S2P Require Import Prelude Sched Qfq.
Import DnQueue SchedMain Qfq.
Open Scope Z_scope.

(** ** The states of the groups *)

Abbreviation gstates := (Z -> option Z).

Definition with_bitmaps (bs : list Z) (q : qfq_sched) : qfq_sched :=
  mk_qfq (V q) (wsum q) (iwsum q) (queued q) (loops q) bs (groups q) (classes q).

(** [bs] are the bitmaps of the states [st]. *)
Definition bits_rep (bs : list Z) (st : gstates) : Prop :=
  length bs = 4%nat /\
  (forall i s, st i = Some s -> 0 <= i <= 19 /\ 0 <= s <= 3) /\
  (forall i s, 0 <= i -> 0 <= s <= 3 -> Z.testbit (bs !!! Z.to_nat s) i = bool_decide (st i = Some s)).

Lemma rep_bits bs st s i : bits_rep bs st -> 0 <= s <= 3 -> 0 <= i -> Z.testbit (bs !!! Z.to_nat s) i = true <-> st i = Some s.
Proof. intros (_ & _ & H) Hs Hi. rewrite H by lia. apply bool_decide_eq_true. Qed.

Lemma rep_range bs st s : bits_rep bs st -> 0 <= s <= 3 -> 0 <= bs !!! Z.to_nat s < 2 ^ 20.
Proof.
  intros Hr Hs. apply bits_bound; [lia|]. intros n Hn Hb. apply (rep_bits bs st) in Hb; [|done..].
  apply Hr in Hb. lia.
Qed.

Lemma rep_ext bs st st' : bits_rep bs st -> (forall i, st' i = st i) -> bits_rep bs st'.
Proof. intros (? & H1 & H2) E. split_and!; [done|intros i s; rewrite E; apply H1|intros; rewrite E; by apply H2]. Qed.

Lemma rep_zero bs st s : bits_rep bs st -> 0 <= s <= 3 -> bs !!! Z.to_nat s = 0 <-> forall i, st i <> Some s.
Proof.
  intros Hr Hs. split.
  - intros E i Hi. assert (0 <= i) by (apply Hr in Hi; lia). apply (rep_bits bs st s i) in Hi; [|done..].
    by rewrite E, Z.bits_0 in Hi.
  - intros H. destruct (decide (bs !!! Z.to_nat s = 0)) as [|Hne]; [done|].
    apply bits_zero in Hne as (n & Hn & Hb); [|apply (rep_range bs st s) in Hr; lia].
    apply (rep_bits bs st) in Hb; [|done..]. by apply H in Hb.
Qed.

(** One bitmap changes. *)
Lemma rep_insert bs st st' s v :
  bits_rep bs st -> 0 <= s <= 3 ->
  (forall i t, st' i = Some t -> 0 <= i <= 19 /\ 0 <= t <= 3) ->
  (forall i, 0 <= i -> Z.testbit v i = bool_decide (st' i = Some s)) ->
  (forall i t, 0 <= i -> t <> s -> st' i = Some t <-> st i = Some t) ->
  bits_rep (<[Z.to_nat s := v]> bs) st'.
Proof.
  intros (Hl & H1 & H2) Hs Hw Hv Hne. split_and!; [by rewrite length_insert|done|].
  intros i t Hi Ht. destruct (decide (t = s)) as [->|Hts].
  - rewrite lookup_total_insert_eq by lia. by apply Hv.
  - rewrite lookup_total_insert_ne by lia. rewrite H2 by lia. apply bool_decide_ext. symmetry. by apply Hne.
Qed.

(** [qfq_move_groups] *)
Definition move_st (mask src dst : Z) (st : gstates) : gstates :=
  fun i => if bool_decide (st i = Some src) && Z.testbit mask i then Some dst else st i.

Lemma move_groups_rep q st mask src dst :
  bits_rep (bitmaps q) st -> 0 <= src <= 3 -> 0 <= dst <= 3 -> src <> dst ->
  exists bs, qfq_move_groups q mask src dst = with_bitmaps bs q /\ bits_rep bs (move_st mask src dst st).
Proof.
  intros Hr Hs Hd Hne. eexists. split; [reflexivity|]. simpl. pose proof Hr as (Hl & H1 & H2).
  assert (Hw : forall i t, move_st mask src dst st i = Some t -> 0 <= i <= 19 /\ 0 <= t <= 3).
  { unfold move_st. intros i t. case_match eqn:E; [|by apply H1]. intros [= <-].
    apply andb_true_iff in E as [E%bool_decide_eq_true _]. apply H1 in E. lia. }
  split_and!; [by rewrite !length_insert|done|]. intros i t Hi Ht. unfold bitmap; simpl.
  rewrite (lookup_total_insert_ne (bitmaps q)) by lia. unfold move_st.
  destruct (decide (t = src)) as [->|Hts]; [|rewrite lookup_total_insert_ne by lia; destruct (decide (t = dst)) as [->|Htd]].
  - rewrite lookup_total_insert_eq by (rewrite length_insert; lia).
    rewrite Z.land_spec, u64_testbit, Z.lnot_spec, H2 by lia.
    destruct (decide (st i = Some src)) as [E|E].
    + pose proof (H1 _ _ E). rewrite (proj2 (Z.ltb_lt i 64)) by lia. rewrite !(bool_decide_eq_true_2 _ E).
      destruct (Z.testbit mask i); simpl; case_bool_decide; congruence.
    + rewrite !(bool_decide_eq_false_2 _ E). done.
  - rewrite lookup_total_insert_eq by lia. rewrite Z.lor_spec, Z.land_spec, !H2 by lia.
    repeat case_bool_decide; destruct (Z.testbit mask i); simpl in *; try done; congruence.
  - rewrite lookup_total_insert_ne by lia. rewrite H2 by lia.
    repeat case_bool_decide; destruct (Z.testbit mask i); simpl in *; try done; congruence.
Qed.

(** Clearing the bit of a group, and setting it. *)
Lemma clear_rep bs st s i :
  bits_rep bs st -> 0 <= s <= 3 -> 0 <= i <= 19 ->
  exists v, __clear_bit i (bs !!! Z.to_nat s) = Some v /\
    bits_rep (<[Z.to_nat s := v]> bs) (fun j => if bool_decide (j = i /\ st i = Some s) then None else st j).
Proof.
  intros Hr Hs Hi. pose proof (rep_range bs st s Hr Hs).
  destruct (clear_bit_spec i (bs !!! Z.to_nat s)) as (v & E & Hv); [lia..|]. exists v. split; [done|].
  apply (rep_insert bs st); [done|done| | |].
  - intros j t. case_bool_decide; [done|]. apply Hr.
  - intros j Hj. rewrite Hv by done. destruct Hr as (_ & _ & H2). rewrite H2 by lia.
    destruct (Z.eqb_spec j i) as [->|Hne]; simpl.
    + destruct (decide (st i = Some s)) as [E'|E'].
      * by rewrite (bool_decide_eq_true_2 (i = i /\ _)).
      * rewrite (bool_decide_eq_false_2 (i = i /\ _)) by tauto. by rewrite bool_decide_eq_false_2.
    + by rewrite (bool_decide_eq_false_2 (j = i /\ _)) by tauto.
  - intros j t Hj Ht. case_bool_decide as E'; [|done]. destruct E' as [-> E']. split; congruence.
Qed.

Lemma set_rep bs st s i :
  bits_rep bs st -> 0 <= s <= 3 -> 0 <= i <= 19 -> st i = None \/ st i = Some s ->
  exists v, __set_bit i (bs !!! Z.to_nat s) = Some v /\
    bits_rep (<[Z.to_nat s := v]> bs) (fun j => if bool_decide (j = i) then Some s else st j).
Proof.
  intros Hr Hs Hi Hst. destruct (set_bit_spec i (bs !!! Z.to_nat s)) as (v & E & Hv); [lia|]. exists v. split; [done|].
  apply (rep_insert bs st); [done|done| | |].
  - intros j t. case_bool_decide; [intros [= <-]; lia|]. apply Hr.
  - intros j Hj. rewrite Hv by done. destruct Hr as (_ & _ & H2). rewrite H2 by lia.
    destruct (Z.eqb_spec j i) as [->|Hne]; simpl.
    + by rewrite (bool_decide_eq_true_2 (i = i)), bool_decide_eq_true_2.
    + by rewrite (bool_decide_eq_false_2 (j = i)).
  - intros j t Hj Ht. case_bool_decide as E'; [|done]. subst j. split; destruct Hst; congruence.
Qed.

(** ** The first ready group *)

Definition lowest_er (st : gstates) (from j : Z) : Prop :=
  from <= j /\ st j = Some ER /\ forall k, from <= k < j -> st k <> Some ER.

Lemma lowest_er_uniq st from j k : lowest_er st from j -> lowest_er st from k -> j = k.
Proof.
  intros (? & Hj & Hjl) (? & Hk & Hkl). destruct (Z.lt_trichotomy j k) as [?|[?|?]]; [|done|]; exfalso.
  - by apply (Hkl j); [lia|].
  - by apply (Hjl k); [lia|].
Qed.

Lemma mask_from_er bs st from :
  bits_rep bs st -> 0 <= from ->
  let mask := mask_from (bs !!! Z.to_nat ER) from in
  (mask = 0 /\ forall j, from <= j -> st j <> Some ER) \/ (mask <> 0 /\ lowest_er st from (qfq_ffs mask)).
Proof.
  intros Hr Hf mask. pose proof (rep_range bs st ER Hr ltac:(unfold ER; lia)) as Hb.
  assert (Hm : forall n, 0 <= n -> Z.testbit mask n = true <-> st n = Some ER /\ from <= n).
  { intros n Hn. unfold mask. rewrite mask_from_spec by lia. rewrite andb_true_iff, Z.leb_le.
    rewrite (rep_bits bs st ER n); [done|done|unfold ER; lia|done]. }
  assert (Hmr : 0 <= mask < 2 ^ 32).
  { apply bits_bound; [lia|]. intros n Hn [E _]%Hm; [|done]. apply Hr in E. lia. }
  destruct (decide (mask = 0)) as [E|Hne]; [left|right]; (split; [done|]).
  - intros j Hj Hst. assert (0 <= j) by lia. assert (Z.testbit mask j = true) as HH by (by apply Hm). by rewrite E, Z.bits_0 in HH.
  - destruct (ffs_spec mask) as (Hi & Hbit & Hlow); [lia|]. unfold qfq_ffs. set (j := ffs mask - 1) in *.
    apply Hm in Hbit as [Hst Hfj]; [|lia]. split_and!; [done|done|]. intros k Hk Hstk.
    assert (Z.testbit mask k = true) as Hmk by (apply Hm; [lia|split; [done|lia]]). rewrite Hlow in Hmk; [done|lia].
Qed.

Lemma ffs_er bs st : bits_rep bs st -> bs !!! Z.to_nat ER <> 0 -> lowest_er st 0 (qfq_ffs (bs !!! Z.to_nat ER)).
Proof.
  intros Hr Hne. pose proof (mask_from_er bs st 0 Hr ltac:(lia)) as H. pose proof (rep_range bs st ER Hr ltac:(unfold ER; lia)).
  assert (E : mask_from (bs !!! Z.to_nat ER) 0 = bs !!! Z.to_nat ER).
  { apply Z.bits_inj'. intros n Hn. rewrite mask_from_spec by lia. rewrite (proj2 (Z.leb_le 0 n)) by done. apply andb_true_r. }
  rewrite E in H. destruct H as [[? _]|[_ H]]; [done|exact H].
Qed.

(** The state that [qfq_calc_state] computes. *)
Lemma calc_state_spec q st gi g :
  bits_rep (bitmaps q) st -> grp_at q gi = Some g -> g_index g = gi -> 0 <= gi ->
  (forall j, 0 <= j <= 19 -> is_Some (grp_at q j)) ->
  exists s, qfq_calc_state q gi = Some s /\
    (((forall j, gi <= j -> st j <> Some ER) /\ s = b2z (qfq_gt (g_S g) (V q))) \/
     exists j next, lowest_er st gi j /\ grp_at q j = Some next /\
       s = b2z (qfq_gt (g_S g) (V q)) + (if qfq_gt (g_F g) (g_F next) then 2 else 0)).
Proof.
  intros Hr Hg Hi Hpos Hall. unfold qfq_calc_state. rewrite Hg. cbn [mbind option_bind]. unfold bitmap. rewrite Hi.
  destruct (mask_from_er (bitmaps q) st gi Hr Hpos) as [[E Hno]|[Hne Hlow]].
  - rewrite E, Z.eqb_refl. eexists. split; [done|]. by left.
  - rewrite (proj2 (Z.eqb_neq _ _) Hne). destruct (Hall (qfq_ffs (mask_from (bitmaps q !!! Z.to_nat ER) gi))) as [next Hn].
    { destruct Hlow as (_ & Hst & _). apply Hr in Hst. lia. }
    rewrite Hn. cbn [mbind option_bind]. eexists. split; [done|]. right. eexists _, next. split; [done|]. split; [done|].
    destruct (qfq_gt (g_S g) (V q)), (qfq_gt (g_F g) (g_F next)); done.
Qed.

(** [qfq_unblock_groups] moves the blocked groups below [index], unless a
    ready group above it still blocks them. *)
Definition unblock_st (index : Z) (st : gstates) : gstates :=
  fun k => if bool_decide (k < index) then
             if bool_decide (st k = Some EB) then Some ER else if bool_decide (st k = Some IB) then Some IR else st k
           else st k.

Lemma unblock_rep q st index f :
  bits_rep (bitmaps q) st -> 0 <= index <= 19 -> (forall j, 0 <= j <= 19 -> is_Some (grp_at q j)) ->
  exists bs st', qfq_unblock_groups q index f = Some (with_bitmaps bs q) /\ bits_rep bs st' /\
    ((st' = st /\ exists j, index < j /\ st j = Some ER) \/ (forall i, st' i = unblock_st index st i)).
Proof.
  intros Hr Hi Hall. unfold qfq_unblock_groups. cbv zeta.
  set (mask := Z.shiftl 1 index - 1).
  assert (Hunb : exists bs, qfq_move_groups (qfq_move_groups q mask EB ER) mask IB IR = with_bitmaps bs q /\
                   bits_rep bs (unblock_st index st)).
  { destruct (move_groups_rep q st mask EB ER Hr) as (bs1 & -> & Hr1); [unfold EB, ER; lia..|].
    destruct (move_groups_rep (with_bitmaps bs1 q) _ mask IB IR Hr1) as (bs2 & -> & Hr2); [unfold IB, IR; lia..|].
    exists bs2. split; [done|]. eapply rep_ext; [exact Hr2|]. intros k. unfold unblock_st, move_st.
    destruct (st k) as [s|] eqn:E; [|by repeat case_bool_decide].
    assert (0 <= k <= 19) by (apply Hr in E; lia). unfold mask. rewrite low_mask_spec by lia.
    rewrite (bool_decide_ext (k < index) (Z.ltb k index = true)) by (by rewrite Z.ltb_lt).
    unfold EB, ER, IB, IR. destruct (k <? index); simpl; repeat case_bool_decide; simplify_eq/=; try done; congruence. }
  destruct Hunb as (bs & -> & Hr'). unfold bitmap.
  destruct (mask_from_er (bitmaps q) st (index + 1) Hr) as [[E Hno]|[Hne Hlow]]; [lia| |].
  - rewrite E, Z.eqb_refl. eauto 8.
  - rewrite (proj2 (Z.eqb_neq _ _) Hne). destruct (Hall (qfq_ffs (mask_from (bitmaps q !!! Z.to_nat ER) (index + 1)))) as [next Hn].
    { destruct Hlow as (_ & Hst & _). apply Hr in Hst. lia. }
    rewrite Hn. cbn [mbind option_bind]. destruct (qfq_gt (g_F next) f); simpl; [eauto 8|].
    exists (bitmaps q), st. split; [by destruct q|]. split; [done|]. left. split; [done|].
    destruct Hlow as (? & ? & _). eexists. split; [|done]. lia.
Qed.

(** ** Groups that become eligible

    [qfq_make_eligible] finds the groups for which the virtual time has
    entered another slot from the highest bit that changed. *)

Lemma div_ne_bit a b k : 0 <= k -> a / 2 ^ k <> b / 2 ^ k -> exists n, k <= n /\ Z.testbit a n <> Z.testbit b n.
Proof.
  intros Hk Hne. destruct (decide (Z.lxor (a / 2 ^ k) (b / 2 ^ k) = 0)) as [E|E]; [by apply Z.lxor_eq in E|].
  set (d := Z.lxor (a / 2 ^ k) (b / 2 ^ k)) in *.
  assert (Hd : exists n, 0 <= n /\ Z.testbit d n = true).
  { destruct (Z.lt_ge_cases d 0).
    - exists (Z.log2 (Z.pred (- d)) + 1). pose proof (Z.log2_nonneg (Z.pred (- d))). split; [lia|]. apply Z.bits_above_log2_neg; lia.
    - by apply bits_zero. }
  destruct Hd as (n & Hn & Hb). exists (n + k). split; [lia|]. unfold d in Hb.
  rewrite Z.lxor_spec, !Z.div_pow2_bits in Hb by lia. intros E'. by rewrite E', xorb_nilpotent in Hb.
Qed.

Lemma bit_div_ne a b k n : 0 <= k <= n -> Z.testbit a n <> Z.testbit b n -> a / 2 ^ k <> b / 2 ^ k.
Proof.
  intros Hk Hb E. apply Hb. replace n with ((n - k) + k) by lia. rewrite <- !Z.div_pow2_bits by lia. by rewrite E.
Qed.

(** A small step that changes bits above 31 also changes bit 31. *)
Lemma carry_bit a b : 0 <= b - a < 2 ^ 31 -> a / 2 ^ 32 <> b / 2 ^ 32 -> Z.testbit a 31 <> Z.testbit b 31.
Proof.
  intros Hd Hne. rewrite !Z.testbit_odd, !Z.shiftr_div_pow2 by lia. change (2 ^ 32) with (2 ^ 31 * 2) in Hne.
  rewrite <- !Z.div_div in Hne by lia. assert (Hs : b / 2 ^ 31 = a / 2 ^ 31 + 1).
  { assert (a / 2 ^ 31 <> b / 2 ^ 31) by (intros E; by rewrite E in Hne).
    change (2 ^ 31) with 2147483648 in *. clear Hne. Z.div_mod_to_equations. lia. }
  rewrite Hs. intros E. rewrite Z.odd_add in E. by destruct (Z.odd (a / 2 ^ 31)).
Qed.

(** The slots that differ. *)
Definition slot_diff (v v' : Z) : Z :=
  Z.lxor (Z.shiftr (u64 v') QFQ_MIN_SLOT_SHIFT) (Z.shiftr (u64 v) QFQ_MIN_SLOT_SHIFT).

Lemma slot_diff_bits v v' n : 0 <= n ->
  Z.testbit (slot_diff v v') n = (n <? 42) && xorb (Z.testbit (v / 2 ^ 22) n) (Z.testbit (v' / 2 ^ 22) n).
Proof.
  intros Hn. unfold slot_diff. change QFQ_MIN_SLOT_SHIFT with 22.
  rewrite Z.lxor_spec, !Z.shiftr_spec, !u64_testbit, !Z.div_pow2_bits by lia.
  destruct (Z.ltb_spec (n + 22) 64), (Z.ltb_spec n 42); try lia; [apply xorb_comm|done].
Qed.

Lemma slot_diff_low v v' k :
  0 <= v' - v < 2 ^ 52 -> 0 <= k <= 31 -> v / 2 ^ (22 + k) <> v' / 2 ^ (22 + k) ->
  exists n, k <= n < 32 /\ Z.testbit (slot_diff v v') n = true.
Proof.
  intros Hd Hk. rewrite Z.pow_add_r, <- !Z.div_div by lia.
  set (a := v / 2 ^ 22). set (b := v' / 2 ^ 22). intros Hne.
  assert (Hab : 0 <= b - a < 2 ^ 31).
  { unfold a, b. change (2 ^ 22) with 4194304. change (2 ^ 31) with 2147483648. change (2 ^ 52) with 4503599627370496 in Hd.
    Z.div_mod_to_equations. lia. }
  assert (Hx : forall n, 0 <= n < 32 -> Z.testbit a n <> Z.testbit b n -> Z.testbit (slot_diff v v') n = true).
  { intros n Hn. rewrite slot_diff_bits, (proj2 (Z.ltb_lt n 42)) by lia. fold a b. by destruct (Z.testbit a n), (Z.testbit b n). }
  destruct (decide (a / 2 ^ 32 = b / 2 ^ 32)) as [E32|E32].
  - apply div_ne_bit in Hne as (n & Hn & Hb); [|lia]. exists n. destruct (Z.lt_ge_cases n 32) as [Hlt|Hge].
    + split; [lia|]. apply Hx; [lia|done].
    + by apply (bit_div_ne a b 32 n) in Hb; [|lia].
  - exists 31. split; [lia|]. apply Hx; [lia|]. by apply carry_bit.
Qed.

Lemma u32_testbit x n : 0 <= n -> Z.testbit (u32 x) n = (n <? 32) && Z.testbit x n.
Proof.
  intros Hn. unfold u32, wrap. destruct (Z.ltb_spec n 32); [by apply Z.mod_pow2_bits_low|].
  by apply Z.mod_pow2_bits_high; lia.
Qed.

(** [__fls] sees the lower 32 bits. *)
Lemma fls_low x : u32 x <> 0 -> __fls x = Z.log2 (u32 x) /\ 0 <= Z.log2 (u32 x) <= 31.
Proof.
  intros Hx. pose proof (u32_range x) as Hr. unfold is_u32 in Hr. pose proof (Z.log2_nonneg (u32 x)).
  assert (Z.log2 (u32 x) < 32) by (apply Z.log2_lt_pow2; lia). split; [|lia].
  assert (Hy : u32 (s32 x) = u32 x) by (clear; unfold s32, swrap; case_if; warith).
  unfold __fls. assert (fls (s32 x) = fls (u32 x)) as ->.
  { unfold fls. rewrite Hy, u32_idemp. rewrite (proj2 (Z.eqb_neq (u32 x) 0)) by done.
    rewrite (proj2 (Z.eqb_neq (s32 x) 0)); [done|]. intros E. rewrite E in Hy. by rewrite <- Hy in Hx. }
  rewrite fls_spec by lia. rewrite u64_id by (unfold is_u64; lia). lia.
Qed.

Lemma slot_xor v v' :
  0 <= v' - v < 2 ^ 52 -> slot_diff v v' <> 0 ->
  0 <= __fls (slot_diff v v') <= 31 /\
  forall k, 0 <= k <= 19 -> k <= __fls (slot_diff v v') <-> v / 2 ^ (22 + k) <> v' / 2 ^ (22 + k).
Proof.
  intros Hd Hx. assert (Hu : u32 (slot_diff v v') <> 0).
  { intros E. assert (Hne : v / 2 ^ (22 + 0) <> v' / 2 ^ (22 + 0)).
    { intros E'. apply Hx. apply Z.bits_inj'. intros n Hn. rewrite slot_diff_bits, Z.bits_0 by done.
      change (22 + 0) with 22 in E'. by rewrite E', xorb_nilpotent, andb_false_r. }
    apply slot_diff_low in Hne as (n & Hn & Hb); [|lia..]. pose proof (u32_testbit (slot_diff v v') n ltac:(lia)) as H'.
    by rewrite E, Z.bits_0, (proj2 (Z.ltb_lt n 32)), Hb in H' by lia. }
  destruct (fls_low _ Hu) as [-> Hr]. pose proof (u32_range (slot_diff v v')) as Hur. unfold is_u32 in Hur.
  split; [done|]. intros k Hk. split.
  - intros Hle. pose proof (Z.bit_log2 (u32 (slot_diff v v')) ltac:(lia)) as Hb. set (n := Z.log2 _) in *.
    rewrite u32_testbit, slot_diff_bits in Hb by lia.
    rewrite Z.pow_add_r, <- !Z.div_div by lia. apply (bit_div_ne _ _ k n); [lia|].
    intros E. by rewrite E, xorb_nilpotent, !andb_false_r in Hb.
  - intros (n & Hn & Hb)%slot_diff_low; [|lia..]. assert (n <= Z.log2 (u32 (slot_diff v v'))); [|lia].
    apply Z.log2_le_pow2; [lia|]. destruct (Z.lt_ge_cases (u32 (slot_diff v v')) (2 ^ n)); [|done].
    pose proof (u32_testbit (slot_diff v v') n ltac:(lia)) as H'.
    rewrite (testbit_small _ n), (proj2 (Z.ltb_lt n 32)), Hb in H' by lia. done.
Qed.

(** The groups whose slot of the virtual time changes from [v] to [v']. *)
Definition elig_st (v v' : Z) (st : gstates) : gstates :=
  fun k => if bool_decide (rd v (22 + k) = rd v' (22 + k)) then st k
           else if bool_decide (st k = Some IR) then Some ER else if bool_decide (st k = Some IB) then Some EB else st k.

Lemma rd_div v v' sh : 0 <= sh -> rd v sh = rd v' sh <-> v / 2 ^ sh = v' / 2 ^ sh.
Proof.
  intros Hsh. unfold rd. pose proof (Z.div_mod v (2 ^ sh)). pose proof (Z.div_mod v' (2 ^ sh)).
  pose proof (Z.pow_pos_nonneg 2 sh). split; [intros|intros E; rewrite E in *; lia]. nia.
Qed.

Lemma make_eligible_rep q st v v' :
  bits_rep (bitmaps q) st -> V q = u64 v' -> 0 <= v' - v < 2 ^ 52 ->
  exists bs, qfq_make_eligible q (u64 v) = Some (with_bitmaps bs q) /\ bits_rep bs (elig_st v v' st).
Proof.
  intros Hr HV Hd. unfold qfq_make_eligible. rewrite HV. fold (slot_diff v v').
  destruct (Z.eqb_spec (Z.shiftr (u64 v') QFQ_MIN_SLOT_SHIFT) (Z.shiftr (u64 v) QFQ_MIN_SLOT_SHIFT)) as [E|E].
  - exists (bitmaps q). split; [by destruct q|]. eapply rep_ext; [exact Hr|]. intros k. unfold elig_st.
    case_bool_decide as Hrd; [done|]. destruct (st k) as [s|] eqn:Es; [exfalso|by repeat case_bool_decide].
    apply Hr in Es as [Hk _]. rewrite rd_div in Hrd by lia. apply slot_diff_low in Hrd as (n & _ & Hb); [|lia..].
    unfold slot_diff in Hb. by rewrite E, Z.lxor_nilpotent, Z.bits_0 in Hb.
  - assert (Hx : slot_diff v v' <> 0) by (by intros ?%Z.lxor_eq). destruct (slot_xor v v' Hd Hx) as [Hf Hk].
    set (n := __fls (slot_diff v v')) in *. rewrite (proj2 (Z.ltb_ge 63 n)) by lia.
    assert (Hmask : u64 (u64 (Z.shiftl 2 n) - 1) = Z.shiftl 1 (n + 1) - 1).
    { rewrite Z.shiftl_mul_pow2, Z.shiftl_1_l, Z.pow_add_r, Z.mul_comm by lia. change (2 ^ 1) with 2.
      pose proof (Z.pow_le_mono_r 2 n 31). pose proof (Z.pow_pos_nonneg 2 n).
      rewrite !u64_id; [done|..]; rewrite ?u64_id; unfold is_u64; change (2 ^ 64) with (2 ^ 31 * 2 ^ 33); lia. }
    rewrite Hmask. set (mask := Z.shiftl 1 (n + 1) - 1).
    destruct (move_groups_rep q st mask IR ER Hr) as (bs1 & -> & Hr1); [unfold IR, ER; lia..|].
    destruct (move_groups_rep (with_bitmaps bs1 q) _ mask IB EB Hr1) as (bs2 & -> & Hr2); [unfold IB, EB; lia..|].
    exists bs2. split; [done|]. eapply rep_ext; [exact Hr2|]. intros k. unfold elig_st, move_st.
    destruct (st k) as [s|] eqn:Es; [|by repeat case_bool_decide].
    assert (0 <= k <= 19) by (apply Hr in Es; lia). unfold mask. rewrite low_mask_spec by lia.
    rewrite (bool_decide_ext (rd v (22 + k) = rd v' (22 + k)) (Z.ltb k (n + 1) = false)).
    { unfold EB, ER, IB, IR. destruct (k <? n + 1); simpl; repeat case_bool_decide; simplify_eq/=; try done; congruence. }
    rewrite Z.ltb_ge, rd_div by lia. pose proof (Hk k ltac:(lia)). destruct (decide (v / 2 ^ (22 + k) = v' / 2 ^ (22 + k))); intuition lia.
Qed.

(** ** What holds of the states

    [t] gives the start time of each group and [v] is the virtual time: the
    groups in an odd state are those that start in the future.  A blocked
    group has a ready one above it, and some group is ready unless all are
    idle. *)

Definition sigma (i : Z) : Z := 2 ^ (22 + i).

Definition blocked_ok (st : gstates) : Prop :=
  forall i, st i = Some EB \/ st i = Some IB -> exists j, i < j /\ st j = Some ER.

Definition ready_ok (st : gstates) : Prop := forall i s, st i = Some s -> exists j, st j = Some ER.

Record states_ok (st : gstates) (t : Z -> Z) (v : Z) : Prop := {
  st_elig : forall i s, st i = Some s -> Z.odd s = (v <? t i);
  st_blocked : blocked_ok st;
  st_ready : ready_ok st;
}.

Lemma states4 bs st i s : bits_rep bs st -> st i = Some s -> s = ER \/ s = IR \/ s = EB \/ s = IB.
Proof. intros Hr E. apply Hr in E. unfold ER, IR, EB, IB. lia. Qed.

Lemma sigma_pos i : 0 <= i -> 0 < sigma i.
Proof. intros. apply Z.pow_pos_nonneg; lia. Qed.

Lemma sigma_bound i : i <= 19 -> sigma i <= 2 ^ 41.
Proof. intros. apply Z.pow_le_mono_r; lia. Qed.

Lemma sigma_u64 i x : 0 <= i <= 19 -> (sigma i | x) -> (sigma i | u64 x).
Proof.
  intros Hi Hd. assert (Hdv : (sigma i | 2 ^ 64)) by (unfold sigma; exists (2 ^ (64 - (22 + i))); rewrite <- Z.pow_add_r by lia; f_equal; lia).
  unfold u64, wrap. rewrite Z.mod_eq by lia. apply Z.divide_sub_r; [done|by apply Z.divide_mul_l].
Qed.

Lemma sigma_near i vt x : 0 <= i <= 19 -> (sigma i | x) -> (sigma i | near vt x).
Proof.
  intros Hi Hd. assert (Hdv : (sigma i | 2 ^ 64)) by (unfold sigma; exists (2 ^ (64 - (22 + i))); rewrite <- Z.pow_add_r by lia; f_equal; lia).
  assert (Hgen : (sigma i | vt + (x - vt) mod 2 ^ 64)).
  { rewrite Z.mod_eq by lia. replace (vt + (x - vt - 2 ^ 64 * ((x - vt) / 2 ^ 64))) with (x - 2 ^ 64 * ((x - vt) / 2 ^ 64)) by lia.
    apply Z.divide_sub_r; [done|by apply Z.divide_mul_l]. }
  unfold near, s64, swrap, wrap. case_if; [done|]. rewrite Z.add_sub_assoc. by apply Z.divide_sub_r.
Qed.

(** Time enters a later slot. *)
Lemma rd_next v v' i : 0 <= i -> v <= v' -> rd v (22 + i) <> rd v' (22 + i) -> rd v (22 + i) + sigma i <= rd v' (22 + i).
Proof.
  intros Hi Hv Hne. pose proof (rd_mono v v' (22 + i) ltac:(lia) Hv). unfold sigma.
  destruct (rd_divide v (22 + i)) as [a Ha]; [lia|]. destruct (rd_divide v' (22 + i)) as [b Hb]; [lia|].
  rewrite Ha, Hb in *. pose proof (Z.pow_pos_nonneg 2 (22 + i)). assert (a < b) by nia. nia.
Qed.

Section eligible.
Context (q : qfq_sched) (st : gstates) (t w : Z -> Z) (v0 v1 : Z).
Hypothesis Hr : bits_rep (bitmaps q) st.
Hypothesis HV : V q = u64 v1.
Hypothesis Hv : 0 <= v1 - v0 < 2 ^ 43.
Hypothesis Hgrp : forall i s, st i = Some s -> exists g, grp_at q i = Some g /\ g_S g = u64 (t i).
Hypothesis Hdiv : forall i s, st i = Some s -> (sigma i | t i).
Hypothesis Hlag : forall i s, st i = Some s -> v1 - 2 ^ 62 <= t i <= rd v0 (22 + i) + sigma i.
(** The state of group [i] was computed at the time [w i]. *)
Hypothesis Hw : forall i s, st i = Some s -> v0 <= w i <= v1.
Hypothesis Helig : forall i s, st i = Some s -> Z.odd s = (w i <? t i).
Hypothesis Hblk : blocked_ok st.

Lemma elig_st_ok v2 :
  v1 <= v2 -> (forall i s, st i = Some s -> (exists j, st j = Some ER) \/ exists j, st j = Some IR /\ t j <= v2) ->
  states_ok (elig_st v0 v2 st) t v2.
Proof.
  intros Hv2 Hready. constructor.
  - intros i s. unfold elig_st. case_bool_decide as Hrd; intros Hs.
    + rewrite (Helig i s Hs). specialize (Hw i s Hs). specialize (Hdiv i s Hs). apply Hr in Hs as [Hi _].
      pose proof (rd_mono v0 (w i) (22 + i)). pose proof (rd_mono (w i) v2 (22 + i)).
      pose proof (rd_le_iff (w i) (22 + i) (t i) ltac:(lia) Hdiv). pose proof (rd_le_iff v2 (22 + i) (t i) ltac:(lia) Hdiv).
      destruct (Z.ltb_spec (w i) (t i)), (Z.ltb_spec v2 (t i)); (done || lia).
    + assert (exists s0, st i = Some s0 /\ Z.odd s = false) as (s0 & Hs0 & Hodd).
      { destruct (st i) as [s0|] eqn:Es; [|by repeat case_bool_decide]. exists s0. split; [done|].
        apply (states4 (bitmaps q) st i s0 Hr) in Es. unfold ER, IR, EB, IB in *.
        repeat case_bool_decide; simplify_eq/=; try done. destruct Es as [-> | [-> | [-> | ->] ] ]; done. }
      rewrite Hodd. specialize (Hlag i s0 Hs0). apply Hr in Hs0 as [Hi _]. pose proof (rd_next v0 v2 i). pose proof (rd_range v2 (22 + i)).
      symmetry. apply Z.ltb_ge. lia.
  - intros i Hi. assert (Hb : st i = Some EB \/ st i = Some IB).
    { unfold elig_st in Hi. destruct (st i) as [s|] eqn:Es; [|by repeat case_bool_decide; destruct Hi].
      apply (states4 (bitmaps q) st i s Hr) in Es. unfold ER, IR, EB, IB in *.
      repeat case_bool_decide; simplify_eq/=; destruct Hi; simplify_eq/=; auto. }
    destruct (Hblk i Hb) as (j & Hj & Ej). exists j. split; [done|]. unfold elig_st. rewrite Ej. by repeat case_bool_decide.
  - intros i s Hs. assert (exists s0, st i = Some s0) as [s0 Hs0].
    { unfold elig_st in Hs. destruct (st i) as [s0|]; [by exists s0|]. by repeat case_bool_decide. }
    destruct (Hready i s0 Hs0) as [[j Ej]|(j & Ej & Hj)]; exists j; unfold elig_st; rewrite Ej; [by repeat case_bool_decide|].
    rewrite (bool_decide_eq_false_2 (rd v0 _ = _)); [done|].
    pose proof (Helig j IR Ej) as Ho. specialize (Hdiv j IR Ej). specialize (Hw j IR Ej). apply Hr in Ej as [Hj0 _].
    symmetry in Ho. apply Z.ltb_lt in Ho. pose proof (rd_le_iff v0 (22 + j) (t j) ltac:(lia) Hdiv).
    pose proof (rd_le_iff v2 (22 + j) (t j) ltac:(lia) Hdiv). lia.
Qed.

Lemma elig_active v v' i : elig_st v v' st i = None <-> st i = None.
Proof. unfold elig_st. repeat case_bool_decide; split; congruence. Qed.

Lemma update_eligible_spec :
  exists v2 bs, qfq_update_eligible q (u64 v0) = Some (with_bitmaps bs (set_V (u64 v2) q)) /\
    v1 <= v2 <= v1 + 2 ^ 43 /\ bits_rep bs (elig_st v0 v2 st) /\ states_ok (elig_st v0 v2 st) t v2.
Proof.
  unfold qfq_update_eligible, bitmap. set (inel := Z.lor _ _).
  assert (Hin : forall n, 0 <= n -> Z.testbit inel n = true <-> st n = Some IR \/ st n = Some IB).
  { intros n Hn. unfold inel. rewrite Z.lor_spec, orb_true_iff.
    by rewrite (rep_bits _ st IR n Hr), (rep_bits _ st IB n Hr) by (unfold IR, IB; lia). }
  assert (Hpos : forall n s, st n = Some s -> 0 <= n <= 19) by (intros n s E; apply Hr in E; lia).
  assert (Hrange : 0 <= inel < 2 ^ 32).
  { apply bits_bound; [lia|]. intros n Hn [E|E]%Hin; [apply Hpos in E; lia|apply Hpos in E; lia|done]. }
  destruct (Z.eqb_spec inel 0) as [E0|E0].
  { assert (Hno : forall n, st n <> Some IR /\ st n <> Some IB).
    { intros n. split; intros E; pose proof (Hpos _ _ E); assert (Z.testbit inel n = true) as H' by (apply Hin; auto; lia);
        by rewrite E0, Z.bits_0 in H'. }
    assert (Hst : forall i, elig_st v0 v1 st i = st i).
    { intros i. destruct (Hno i). unfold elig_st. by repeat case_bool_decide. }
    exists v1, (bitmaps q). rewrite <- HV. split; [by destruct q|]. split; [lia|]. split; [by eapply rep_ext|].
    apply elig_st_ok; [lia|]. intros i s Es. left. destruct (Hno i).
    apply (states4 _ _ _ _ Hr) in Es as H4. destruct H4 as [-> | [-> | [-> | ->] ] ]; try done; [by exists i|].
    destruct (Hblk i (or_introl Es)) as (j & _ & Ej). by exists j. }
  assert (Hmk : forall v2, v1 <= v2 <= v1 + 2 ^ 43 ->
    (forall i s, st i = Some s -> (exists j, st j = Some ER) \/ exists j, st j = Some IR /\ t j <= v2) ->
    exists v3 bs, qfq_make_eligible (set_V (u64 v2) q) (u64 v0) = Some (with_bitmaps bs (set_V (u64 v3) q)) /\
      v1 <= v3 <= v1 + 2 ^ 43 /\ bits_rep bs (elig_st v0 v3 st) /\ states_ok (elig_st v0 v3 st) t v3).
  { intros v2 Hv2 Hrdy. destruct (make_eligible_rep (set_V (u64 v2) q) st v0 v2 Hr eq_refl) as (bs & E & Hr'); [lia|].
    exists v2, bs. split_and!; try (done || lia). apply elig_st_ok; [lia|done]. }
  destruct (Z.eqb_spec (bitmaps q !!! Z.to_nat ER) 0) as [Eer|Eer].
  - pose proof (proj1 (rep_zero (bitmaps q) st ER Hr ltac:(unfold ER; lia)) Eer) as Hner.
    assert (Hnb : forall n, st n <> Some EB /\ st n <> Some IB).
    { intros n. split; intros E; destruct (Hblk n) as (j & _ & Ej); auto; by apply Hner in Ej. }
    destruct (ffs_spec inel) as (Hl & Hbit & _); [lia|]. unfold qfq_ffs. set (l := ffs inel - 1) in *.
    apply Hin in Hbit as [Hbit|Hbit]; [|by destruct (Hnb l)|lia]. destruct (Hgrp l IR Hbit) as (g & Eg & HS). rewrite Eg.
    cbn [mbind option_bind]. rewrite HS, HV. pose proof (Hlag l IR Hbit). pose proof (Hpos l IR Hbit).
    pose proof (sigma_bound l). pose proof (rd_range v0 (22 + l)). rewrite gt_spec by lia. destruct (Z.ltb_spec v1 (t l)).
    + apply Hmk; [lia|]. intros. right. exists l. split; [done|lia].
    + assert (q = set_V (u64 v1) q) as Eq by (rewrite <- HV; by destruct q).
      replace (qfq_make_eligible q (u64 v0)) with (qfq_make_eligible (set_V (u64 v1) q) (u64 v0)) by (by rewrite <- Eq).
      apply Hmk; [lia|]. intros. right. exists l. split; [done|lia].
  - cbn [mbind option_bind]. assert (q = set_V (u64 v1) q) as Eq by (rewrite <- HV; by destruct q). 
    replace (qfq_make_eligible q (u64 v0)) with (qfq_make_eligible (set_V (u64 v1) q) (u64 v0)) by (by rewrite <- Eq).
    apply Hmk; [lia|]. intros i s Es. left. destruct (ffs_er (bitmaps q) st Hr Eer) as (_ & ? & _). by eexists.
Qed.

End eligible.
