(* ===== verification/QfqInv.v ===== *)
(** * The invariant of QFQ, and its theorems

    The slots of a group hold exactly its backlogged classes, by rounded start
    time; the bitmap of the slots and the four bitmaps of the groups are what
    they should be; the virtual time is related to the start times.  It
    follows that QFQ keeps the contract of a scheduling algorithm: no packet is
    lost, and a scheduler with packets always finds one.

    The code does not enforce two things that this rests on: that packets are
    not longer than the flow declares, and that no group falls too far behind
    the virtual time; they are hypotheses, and the last section shows what
    happens without the first. *)

From stdpp Require Import gmap functions.
From S2P Require Import Prelude Sched Qfq QfqBits.
Import DnQueue SchedMain Qfq.
Open Scope Z_scope.

(** ** The slots of a group *)

(** The slot [k] after the front one. *)
Definition sl (g : qfq_group) (k : Z) : list Z := slot_at g ((front g + k) mod 32).

Definition member (cls : gmap Z qfq_class) (i : Z) (g : qfq_group) (k c : Z) : Prop :=
  exists cl, cls !! c = Some cl /\ cl_grp cl = Some i /\ q_pkts (cl_q cl) <> [] /\
    qfq_round_down (cl_S cl) (22 + i) = u64 (g_S g + k * sigma i).

Record slots_pre (cls : gmap Z qfq_class) (i : Z) (g : qfq_group) : Prop := {
  sp_index : g_index g = i;
  sp_shift : slot_shift g = 22 + i;
  sp_i : 0 <= i <= 19;
  sp_front : 0 <= front g < 32;
  sp_len : length (slots g) = 32%nat;
  sp_S : is_u64 (g_S g);
  sp_aligned : (sigma i | g_S g);
  sp_range : 0 <= full_slots g < 2 ^ 31;
  sp_bits : forall k, 0 <= k < 32 -> Z.testbit (full_slots g) k = true <-> sl g k <> [];
  sp_member : forall k c, 0 <= k < 32 -> c ∈ sl g k -> member cls i g k c;
  sp_nodup : forall k, 0 <= k < 32 -> NoDup (sl g k);
}.

Record slots_ok (cls : gmap Z qfq_class) (i : Z) (g : qfq_group) : Prop := {
  so_pre : slots_pre cls i g;
  so_first : full_slots g <> 0 -> sl g 0 <> [];
  so_F : full_slots g <> 0 -> g_F g = u64 (g_S g + 2 * sigma i);
}.

(** All the slots of [g] but the slot [k] are those of [g0]. *)
Lemma slot_mod_inj f k k' : 0 <= k < 32 -> 0 <= k' < 32 -> (f + k) mod 32 = (f + k') mod 32 -> k = k'.
Proof. intros. Z.div_mod_to_equations. lia. Qed.

Lemma slot_at_insert fr full l i j g :
  length (slots g) = 32%nat -> 0 <= i < 32 -> 0 <= j < 32 ->
  slot_at (set_slots fr full (<[Z.to_nat i := l]> (slots g)) g) j = if bool_decide (j = i) then l else slot_at g j.
Proof.
  intros Hl Hi Hj. unfold slot_at. simpl. case_bool_decide as E.
  - subst j. rewrite list_lookup_insert_eq by lia. done.
  - rewrite list_lookup_insert_ne by lia. done.
Qed.

Lemma sl_insert full l k k' g :
  length (slots g) = 32%nat -> 0 <= k < 32 -> 0 <= k' < 32 ->
  sl (set_slots (front g) full (<[Z.to_nat ((front g + k) mod 32) := l]> (slots g)) g) k' =
  if bool_decide (k' = k) then l else sl g k'.
Proof.
  intros Hl Hk Hk'. unfold sl at 1. rewrite slot_at_insert by (done || (apply Z.mod_pos_bound; lia)). simpl.
  rewrite (bool_decide_ext _ (k' = k)); [done|]. split; [by apply slot_mod_inj|by intros ->].
Qed.

Lemma full_zero cls i g : slots_pre cls i g -> full_slots g = 0 <-> forall k, 0 <= k < 32 -> sl g k = [].
Proof.
  intros Hp. pose proof (sp_range _ _ _ Hp). split.
  - intros E k Hk. destruct (decide (sl g k = [])) as [|Hne]; [done|].
    apply (sp_bits _ _ _ Hp) in Hne; [|done]. by rewrite E, Z.bits_0 in Hne.
  - intros H'. destruct (decide (full_slots g = 0)) as [|Hne]; [done|].
    apply bits_zero in Hne as (n & Hn & Hb); [|lia]. destruct (Z.lt_ge_cases n 31).
    + apply (sp_bits _ _ _ Hp) in Hb; [|lia]. by destruct Hb; apply H'; lia.
    + rewrite (testbit_small _ 31) in Hb; [done|lia..].
Qed.

(** A class is in one slot at most. *)
Lemma sigma_mul k i : 0 <= i <= 19 -> 0 <= k < 64 -> 0 <= k * sigma i < 2 ^ 47.
Proof. intros Hi Hk. pose proof (sigma_pos i). pose proof (sigma_bound i). change (2 ^ 47) with (64 * 2 ^ 41). nia. Qed.

Lemma u64_offset_inj s k k' i :
  0 <= i <= 19 -> 0 <= k < 32 -> 0 <= k' < 32 -> u64 (s + k * sigma i) = u64 (s + k' * sigma i) -> k = k'.
Proof.
  intros Hi Hk Hk' E. pose proof (sigma_mul k i). pose proof (sigma_mul k' i). pose proof (sigma_pos i).
  assert (k * sigma i = k' * sigma i); [|nia]. set (a := k * sigma i) in *. set (b := k' * sigma i) in *.
  clearbody a b. change (2 ^ 47) with 140737488355328 in *. unfold u64, wrap in E. change (2 ^ 64) with 18446744073709551616 in E.
  Z.div_mod_to_equations. lia.
Qed.

Lemma member_slot cls i g k k' c :
  slots_pre cls i g -> 0 <= k < 32 -> 0 <= k' < 32 -> c ∈ sl g k -> c ∈ sl g k' -> k = k'.
Proof.
  intros Hp Hk Hk' (cl & Ec & _ & _ & E)%(sp_member _ _ _ Hp) (cl' & Ec' & _ & _ & E')%(sp_member _ _ _ Hp); [|done..].
  assert (cl' = cl) as -> by congruence. rewrite E in E'. eapply u64_offset_inj; [apply Hp|done..].
Qed.

(** Changes of the classes that the group does not see. *)
Lemma slots_pre_classes cls cls' i g :
  slots_pre cls i g ->
  (forall k c cl, 0 <= k < 32 -> c ∈ sl g k -> cls !! c = Some cl ->
     exists cl', cls' !! c = Some cl' /\ cl_grp cl' = cl_grp cl /\ cl_S cl' = cl_S cl /\ q_pkts (cl_q cl') <> []) ->
  slots_pre cls' i g.
Proof.
  intros Hp H'. destruct Hp. constructor; try done. intros k c Hk Hc.
  destruct (sp_member0 k c Hk Hc) as (cl & E & Hg & _ & HS). destruct (H' k c cl Hk Hc E) as (cl' & E' & Hg' & HS' & Hq').
  exists cl'. split_and!; [done|congruence|done|congruence].
Qed.

Lemma slots_ok_classes cls cls' i g :
  slots_ok cls i g ->
  (forall k c cl, 0 <= k < 32 -> c ∈ sl g k -> cls !! c = Some cl ->
     exists cl', cls' !! c = Some cl' /\ cl_grp cl' = cl_grp cl /\ cl_S cl' = cl_S cl /\ q_pkts (cl_q cl') <> []) ->
  slots_ok cls' i g.
Proof. intros [Hp H1 H2] H'. constructor; [by eapply slots_pre_classes|done..]. Qed.

(** A class that is not in the group may change. *)
Lemma slots_ok_other cls c x i g :
  slots_ok cls i g -> (forall k, 0 <= k < 32 -> c ∉ sl g k) -> slots_ok (<[c := x]> cls) i g.
Proof.
  intros Hp Hc. eapply slots_ok_classes; [done|]. intros k c' cl Hk Hin E. exists cl.
  assert (c' <> c) by (intros ->; by apply (Hc k)). rewrite lookup_insert_ne by done. split_and!; try done.
  apply (sp_member _ _ _ (so_pre _ _ _ Hp)) in Hin as (cl' & E' & _ & ? & _); [|done]. congruence.
Qed.

(** ** Operations on the slots *)

(** Inserting a class. *)
Lemma slot_insert_spec cls i g c cl k :
  slots_pre cls i g -> 0 <= k <= 30 -> (forall k, 0 <= k < 32 -> c ∉ sl g k) ->
  cls !! c = Some cl -> cl_grp cl = Some i -> q_pkts (cl_q cl) <> [] ->
  qfq_round_down (cl_S cl) (22 + i) = u64 (g_S g + k * sigma i) ->
  exists g', qfq_slot_insert g c (u64 (g_S g + k * sigma i)) = Some g' /\ slots_pre cls i g' /\
    (forall k', 0 <= k' < 32 -> sl g' k' = if bool_decide (k' = k) then c :: sl g k' else sl g k') /\
    g_S g' = g_S g /\ g_F g' = g_F g /\ full_slots g' <> 0.
Proof.
  intros Hp Hk Hnew Ec Hg Hq HS. pose proof (sp_i _ _ _ Hp) as Hi. pose proof (sp_S _ _ _ Hp) as HSr.
  pose proof (sigma_mul k i). pose proof (sigma_pos i).
  unfold qfq_slot_insert. rewrite (sp_shift _ _ _ Hp).
  assert (Hslot : Z.shiftr (u64 (u64 (g_S g + k * sigma i) - g_S g)) (22 + i) = k).
  { rewrite <- (u64_id (g_S g) HSr) at 2. rewrite slot_spec by lia.
    replace (g_S g + k * sigma i - g_S g) with (k * sigma i) by lia. apply Z.div_mul. unfold sigma. lia. }
  rewrite Hslot. destruct (set_bit_spec k (full_slots g)) as (full & -> & Hfull); [lia|]. cbn [mbind option_bind].
  pose proof (sp_front _ _ _ Hp). rewrite (u64_id (front g + k)) by (unfold is_u64; lia).
  change QFQ_MAX_SLOTS with 32. fold (sl g k). set (g' := set_slots _ _ _ _).
  assert (Hsl : forall k', 0 <= k' < 32 -> sl g' k' = if bool_decide (k' = k) then c :: sl g k' else sl g k').
  { intros k' Hk'. unfold g'. rewrite sl_insert by (apply Hp || lia). case_bool_decide; by subst. }
  assert (Hf31 : 0 <= full < 2 ^ 31).
  { apply bits_bound; [lia|]. intros n Hn. rewrite Hfull by done. rewrite orb_true_iff, Z.eqb_eq. intros [->|Hb]; [lia|].
    destruct (Z.lt_ge_cases n 31); [done|]. rewrite (testbit_small _ 31) in Hb; [done|apply Hp|done]. }
  exists g'. split; [done|]. split_and!; try done.
  - constructor; simpl; try (apply Hp || done).
    + by rewrite length_insert, (sp_len _ _ _ Hp).
    + intros k' Hk'. rewrite Hsl, Hfull by lia. rewrite orb_true_iff, Z.eqb_eq, (sp_bits _ _ _ Hp) by done.
      case_bool_decide; [subst k'; split; [done|by left]|split; [by intros [?|?]|by right] ].
    + intros k' c' Hk'. rewrite Hsl by done. unfold member; simpl. case_bool_decide; [subst k'|by apply (sp_member _ _ _ Hp)].
      intros [->|Hc]%elem_of_cons; [by exists cl|by apply (sp_member _ _ _ Hp)].
    + intros k' Hk'. rewrite Hsl by done. case_bool_decide; [|by apply (sp_nodup _ _ _ Hp)].
      apply list.NoDup_cons. split; [by apply Hnew|by apply (sp_nodup _ _ _ Hp)].
  - simpl. intros E. specialize (Hfull k ltac:(lia)). rewrite E, Z.bits_0, Z.eqb_refl in Hfull. done.
Qed.

(** Removing the first class of the front slot. *)
Lemma front_remove_spec cls i g c rest x :
  slots_pre cls i g -> sl g 0 = c :: rest ->
  exists g', qfq_front_slot_remove g = Some g' /\ slots_pre (<[c := x]> cls) i g' /\
    (forall k, 0 <= k < 32 -> sl g' k = if bool_decide (k = 0) then rest else sl g k) /\
    (forall k, 0 <= k < 32 -> c ∉ sl g' k) /\ g_S g' = g_S g /\ g_F g' = g_F g.
Proof.
  intros Hp E0. pose proof (sp_front _ _ _ Hp) as Hfr. pose proof (sp_i _ _ _ Hp) as Hi.
  assert (Hf : (front g + 0) mod 32 = front g) by (rewrite Z.add_0_r, Z.mod_small; lia).
  assert (E0' : slot_at g (front g) = c :: rest) by (rewrite <- Hf; exact E0).
  unfold qfq_front_slot_remove. rewrite E0'.
  assert (Hfull : exists full, (match rest with [] => __clear_bit 0 (full_slots g) | _ => Some (full_slots g) end) = Some full /\
    forall n, 0 <= n -> Z.testbit full n = true <-> Z.testbit (full_slots g) n = true /\ (n = 0 -> rest <> [])).
  { destruct rest as [|y rest].
    - destruct (clear_bit_spec 0 (full_slots g)) as (full & -> & Hb); [lia|pose proof (sp_range _ _ _ Hp); lia|].
      exists full. split; [done|]. intros n Hn. rewrite Hb by done. rewrite andb_true_iff, negb_true_iff, Z.eqb_neq.
      split; [by intros [? ?]|intros [? Hz]; split; [by intros ->; apply Hz|done] ].
    - exists (full_slots g). split; [done|]. intros n _. split; [done|by intros [? _] ]. }
  destruct Hfull as (full & -> & Hfull). cbn [mbind option_bind]. set (g' := set_slots _ _ _ _). exists g'.
  assert (Hsl : forall k, 0 <= k < 32 -> sl g' k = if bool_decide (k = 0) then rest else sl g k).
  { intros k Hk. unfold g'. rewrite <- Hf at 2. apply sl_insert; [apply Hp|lia..]. }
  assert (Hin0 : c ∈ sl g 0) by (rewrite E0; left).
  assert (HN : NoDup (c :: rest)) by (rewrite <- E0; apply (sp_nodup _ _ _ Hp); lia). apply list.NoDup_cons in HN as [Hcr HN].
  assert (Hnew : forall k, 0 <= k < 32 -> c ∉ sl g' k).
  { intros k Hk. rewrite Hsl by done. case_bool_decide; [done|]. intros Hin.
    by assert (k = 0) by (eapply (member_slot cls i g k 0 c); (done || lia)). }
  split; [done|]. split_and!; try done. constructor; simpl; try (apply Hp || done).
  - by rewrite length_insert, (sp_len _ _ _ Hp).
  - apply bits_bound; [lia|]. intros n Hn [Hb _]%Hfull; [|done].
    destruct (Z.lt_ge_cases n 31); [done|]. rewrite (testbit_small _ 31) in Hb; [done|apply Hp|done].
  - intros k Hk. rewrite Hsl, Hfull, (sp_bits _ _ _ Hp) by lia. case_bool_decide.
    + subst k. rewrite E0. split; [intros [_ Hz]; by apply Hz|by split].
    + split; [by intros [? _]|by split].
  - intros k c' Hk Hin. assert (c' <> c) by (intros ->; by apply (Hnew k)). rewrite Hsl in Hin by done.
    assert (Hin' : c' ∈ sl g k) by (case_bool_decide; [subst k; rewrite E0; by right|done]).
    apply (sp_member _ _ _ Hp) in Hin' as (cl & ? & ?); [|done]. exists cl. by rewrite lookup_insert_ne.
  - intros k Hk. rewrite Hsl by done. case_bool_decide; [done|by apply (sp_nodup _ _ _ Hp)].
Qed.

(** Renumbering the slots: the slot [k + d] becomes the slot [k]. *)
Lemma shift_slots cls i g d fr full S F :
  slots_pre cls i g -> -32 < d < 32 ->
  fr = (front g + d) mod 32 -> S = u64 (g_S g + d * sigma i) -> 0 <= full < 2 ^ 31 ->
  (forall k, 0 <= k < 32 -> Z.testbit full k = Z.testbit (full_slots g) (k + d)) ->
  (forall k, 0 <= k < 32 -> sl g k <> [] -> 0 <= k - d <= 30) ->
  let g' := set_times S F (set_slots fr full (slots g) g) in
  slots_pre cls i g' /\
  forall k, 0 <= k < 32 -> sl g' k = if bool_decide (0 <= k + d < 32) then sl g (k + d) else [].
Proof.
  intros Hp Hd -> -> Hfr Hbits Hfit g'. pose proof (sp_front _ _ _ Hp). pose proof (sp_i _ _ _ Hp) as Hi.
  assert (Hpos : 0 <= (front g + d) mod 32 < 32) by (apply Z.mod_pos_bound; lia).
  assert (Hsl : forall k, 0 <= k < 32 -> sl g' k = if bool_decide (0 <= k + d < 32) then sl g (k + d) else []).
  { intros k Hk. assert (Hmod : forall e, ((front g + d) mod 32 + k) mod 32 = (front g + (k + d + 32 * e)) mod 32).
    { intros e. rewrite Z.add_mod_idemp_l by lia. replace (front g + (k + d + 32 * e)) with (front g + d + k + e * 32) by lia.
      by rewrite Z_mod_plus_full. }
    assert (Hs : forall e, 0 <= k + d + 32 * e < 32 -> sl g' k = sl g (k + d + 32 * e)).
    { intros e He. unfold g', sl. simpl. by rewrite (Hmod e). }
    case_bool_decide as Hb.
    - rewrite (Hs 0) by lia. f_equal. lia.
    - destruct (decide (0 <= k + d)).
      + rewrite (Hs (-1)) by lia. destruct (decide (sl g (k + d + 32 * -1) = [])) as [|Hne]; [done|]. apply Hfit in Hne; lia.
      + rewrite (Hs 1) by lia. destruct (decide (sl g (k + d + 32 * 1) = [])) as [|Hne]; [done|]. apply Hfit in Hne; lia. }
  split; [|done]. constructor; simpl; try (apply Hp || done).
  - apply u64_range.
  - apply sigma_u64; [done|]. apply Z.divide_add_r; [apply Hp|by apply Z.divide_factor_r].
  - intros k Hk. rewrite Hsl, Hbits by done. case_bool_decide as Hb; [by apply (sp_bits _ _ _ Hp)|]. split; [|done].
    intros Hb'. destruct (Z.lt_ge_cases (k + d) 0); [by rewrite Z.testbit_neg_r in Hb'|].
    rewrite (testbit_small _ 31) in Hb'; [done|apply Hp|lia].
  - intros k c Hk. rewrite Hsl by done. case_bool_decide as Hb; [|by intros ?%elem_of_nil].
    intros (cl & ? & ? & ? & E)%(sp_member _ _ _ Hp); [|done]. exists cl. split_and!; try done.
    simpl. rewrite E, u64_add_l. f_equal. lia.
  - intros k Hk. rewrite Hsl by done. case_bool_decide; [by apply (sp_nodup _ _ _ Hp)|]. constructor.
Qed.

Lemma scan_spec cls i g :
  slots_pre cls i g ->
  (full_slots g = 0 /\ qfq_slot_scan g = (None, g)) \/
  exists k0 c rest g', 0 <= k0 <= 30 /\ qfq_slot_scan g = (Some c, g') /\ sl g k0 = c :: rest /\
    (forall j, 0 <= j < k0 -> sl g j = []) /\ (k0 = 0 -> g' = g) /\
    g_S g' = g_S g /\ g_F g' = g_F g /\ slot_shift g' = slot_shift g /\ g_index g' = g_index g /\ full_slots g' <> 0 /\
    forall F, let g'' := set_times (u64 (g_S g + k0 * sigma i)) F g' in
      slots_pre cls i g'' /\ forall k, 0 <= k < 32 -> sl g'' k = if bool_decide (0 <= k + k0 < 32) then sl g (k + k0) else [].
Proof.
  intros Hp. unfold qfq_slot_scan. destruct (Z.eqb_spec (full_slots g) 0) as [E|E]; [by left|right].
  pose proof (sp_range _ _ _ Hp) as Hr. pose proof (sp_front _ _ _ Hp) as Hfr.
  destruct (ffs_spec (full_slots g)) as (Hi & Hb & Hlow); [lia|]. set (k0 := ffs (full_slots g) - 1) in *.
  assert (Hk30 : k0 <= 30).
  { destruct (Z.lt_ge_cases k0 31); [lia|]. rewrite (testbit_small _ 31) in Hb; [done|lia..]. }
  pose proof (proj1 (sp_bits _ _ _ Hp k0 Hi) Hb) as Hne. destruct (sl g k0) as [|c rest] eqn:Ek; [done|].
  assert (Hlow' : forall j, 0 <= j < k0 -> sl g j = []).
  { intros j Hj. destruct (decide (sl g j = [])) as [|Hj']; [done|]. apply (sp_bits _ _ _ Hp) in Hj'; [|lia]. by rewrite Hlow in Hj'. }
  set (g' := if 0 <? k0 then _ else g). exists k0, c, rest, g'.
  assert (Hg' : g' = set_slots ((front g + k0) mod 32) (Z.shiftr (full_slots g) k0) (slots g) g).
  { unfold g'. destruct (Z.ltb_spec 0 k0); [done|]. assert (k0 = 0) as -> by lia.
    rewrite Z.add_0_r, Z.mod_small, Z.shiftr_0_r by lia. by destruct g. }
  assert (Hfull0 : Z.testbit (Z.shiftr (full_slots g) k0) 0 = true) by (rewrite Z.shiftr_spec by lia; exact Hb).
  split; [lia|]. split.
  { f_equal. unfold sl in Ek. rewrite Hg'. unfold slot_at in *; simpl. by rewrite Ek. }
  split_and!; try (done || (rewrite Hg'; done)).
  - unfold g'. intros ->. done.
  - rewrite Hg'. simpl. intros E'. by rewrite E', Z.bits_0 in Hfull0.
  - intros F. rewrite Hg'. apply (shift_slots cls i g k0); [done|lia|done|done| | |].
    + rewrite Z.shiftr_div_pow2 by lia. pose proof (Z.pow_pos_nonneg 2 k0). split; [apply Z.div_pos; lia|].
      apply Z.div_lt_upper_bound; [lia|]. nia.
    + intros k Hk. apply Z.shiftr_spec. lia.
    + intros k Hk Hk'. destruct (Z.lt_ge_cases k k0); [by rewrite Hlow' in Hk' by lia|].
      apply (sp_bits _ _ _ Hp) in Hk'; [|done]. destruct (Z.lt_ge_cases k 31); [lia|].
      rewrite (testbit_small _ 31) in Hk'; [done|lia..].
Qed.

Lemma rotate_spec cls i g r F :
  slots_pre cls i g -> 0 <= r <= 30 -> (forall k, 0 <= k < 32 -> sl g k <> [] -> k + r <= 30) ->
  exists g', qfq_slot_rotate g (u64 (g_S g - r * sigma i)) = Some g' /\
    slot_shift g' = slot_shift g /\ g_index g' = g_index g /\
    let g'' := set_times (u64 (g_S g - r * sigma i)) F g' in
    slots_pre cls i g'' /\ forall k, 0 <= k < 32 -> sl g'' k = if bool_decide (0 <= k - r < 32) then sl g (k - r) else [].
Proof.
  intros Hp Hr Hfit. pose proof (sp_i _ _ _ Hp) as Hi. pose proof (sigma_mul r i). pose proof (sigma_pos i).
  pose proof (sp_range _ _ _ Hp) as Hfr. pose proof (sp_front _ _ _ Hp).
  unfold qfq_slot_rotate. rewrite (sp_shift _ _ _ Hp).
  assert (Hslot : Z.shiftr (u64 (g_S g - u64 (g_S g - r * sigma i))) (22 + i) = r).
  { rewrite u64_sub_r. replace (g_S g - (g_S g - r * sigma i)) with (r * sigma i) by lia.
    rewrite u64_id by (unfold is_u64; lia). rewrite Z.shiftr_div_pow2 by lia. apply Z.div_mul. unfold sigma. lia. }
  rewrite Hslot, (u32_id r) by (unfold is_u32; lia). rewrite (proj2 (Z.ltb_ge 63 r)) by lia. eexists. split; [done|].
  split; [apply Hp|]. split; [done|]. simpl.
  assert (Hsh : forall k, 0 <= k -> Z.testbit (u64 (Z.shiftl (full_slots g) r)) k = Z.testbit (full_slots g) (k + - r)).
  { intros k Hk. rewrite u64_testbit, Z.shiftl_spec by done. replace (k + - r) with (k - r) by lia.
    destruct (Z.ltb_spec k 64); [done|]. rewrite (testbit_small (full_slots g) 31) by lia. done. }
  destruct (shift_slots cls i g (- r) (u32 (front g - r) mod 32) (u64 (Z.shiftl (full_slots g) r)) (u64 (g_S g - r * sigma i)) F) as [Hpre Hview];
    try (done || lia).
  - unfold u32, wrap. change (2 ^ 32) with (32 * 134217728). rewrite Z.mod_mod_divide by (by exists 134217728). f_equal; lia.
  - f_equal. lia.
  - apply bits_bound; [lia|]. intros n Hn Hb. rewrite Hsh in Hb by done. destruct (Z.lt_ge_cases n 31); [done|].
    destruct (Z.lt_ge_cases (n + - r) 31); [|rewrite (testbit_small _ 31) in Hb; (done || lia)].
    apply (sp_bits _ _ _ Hp) in Hb; [|lia]. apply Hfit in Hb; lia.
  - intros k Hk. apply Hsh. lia.
  - intros k Hk Hk'. apply Hfit in Hk'; lia.
Qed.

(** ** The invariant *)

Record class_ok (cl : qfq_class) : Prop := {
  co_q : dnq_ok (cl_q cl);
  co_S : is_u64 (cl_S cl);
  co_F : is_u64 (cl_F cl);
  co_w : 0 <= cl_inv_w cl <= 2 ^ 30;
  co_lmax : 0 <= cl_lmax cl <= 2000;
  co_grp : forall i, cl_grp cl = Some i -> 0 <= i <= 19 /\ cl_lmax cl * cl_inv_w cl <= sigma i;
  co_pkts : Forall (fun m => 0 <= m_len m <= cl_lmax cl) (q_pkts (cl_q cl));
  co_head : forall m rest, q_pkts (cl_q cl) = m :: rest -> cl_F cl = u64 (cl_S cl + m_len m * cl_inv_w cl);
}.

(** A backlogged class is in a slot of its group. *)
Definition queued_ok (q : qfq_sched) : Prop :=
  forall c cl, classes q !! c = Some cl -> class_ok cl /\
    (q_pkts (cl_q cl) <> [] -> exists i g k, cl_grp cl = Some i /\ grp_at q i = Some g /\ 0 <= k < 32 /\ c ∈ sl g k).

(** The start time of a group, near the virtual time [vt]. *)
Definition start (q : qfq_sched) (vt i : Z) : Z := match grp_at q i with Some g => near vt (g_S g) | None => 0 end.

(** No class starts later than in the slot after that of [vt]. *)
Definition on_time (vt i : Z) (g : qfq_group) : Prop :=
  forall k, 0 <= k < 32 -> sl g k <> [] -> near vt (g_S g) + k * sigma i <= rd vt (22 + i) + sigma i.

Record qfq_inv (q : qfq_sched) (vt : Z) (st : gstates) : Prop := {
  inv_V : V q = u64 vt;
  inv_iwsum : 0 <= iwsum q <= 2 ^ 30;
  inv_len : length (groups q) = 20%nat;
  inv_bits : bits_rep (bitmaps q) st;
  inv_grp : forall i, 0 <= i <= 19 -> exists g, grp_at q i = Some g /\ slots_ok (classes q) i g /\
    (st i = None <-> full_slots g = 0) /\ on_time vt i g;
  inv_states : states_ok st (start q vt) vt;
  inv_cls : queued_ok q;
}.

(** No group is far behind the virtual time. *)
Definition lag_ok (q : qfq_sched) : Prop :=
  Forall (fun g => full_slots g <> 0 -> - 2 ^ 61 <= s64 (g_S g - V q)) (groups q).

Lemma grp_at_elem q i g : grp_at q i = Some g -> g ∈ groups q.
Proof. unfold grp_at. case_if; [done|]. apply list_elem_of_lookup_2. Qed.

Lemma near_V vt x : s64 (x - u64 vt) = near vt x - vt.
Proof.
  unfold near. rewrite <- (s64_mod (x - u64 vt)). change ((x - u64 vt) mod 2 ^ 64) with (u64 (x - u64 vt)).
  rewrite u64_sub_r. unfold u64, wrap. rewrite s64_mod. lia.
Qed.

Lemma lag_spec q vt st i g :
  qfq_inv q vt st -> lag_ok q -> grp_at q i = Some g -> full_slots g <> 0 -> vt - 2 ^ 61 <= near vt (g_S g).
Proof.
  intros Hv Hlag Hg Hf. unfold lag_ok in Hlag. rewrite list.Forall_forall in Hlag.
  specialize (Hlag g (grp_at_elem _ _ _ Hg) Hf). rewrite (inv_V _ _ _ Hv), near_V in Hlag. lia.
Qed.

Lemma grp_at_set_eq q i g : 0 <= i <= 19 -> length (groups q) = 20%nat -> grp_at (set_grp i g q) i = Some g.
Proof. intros Hi Hl. unfold grp_at. rewrite (proj2 (Z.ltb_ge i 0)) by lia. simpl. apply list_lookup_insert_eq. lia. Qed.

Lemma grp_at_set_ne q i j g : 0 <= i -> i <> j -> grp_at (set_grp i g q) j = grp_at q j.
Proof. intros Hi Hj. unfold grp_at. case_if; [done|]. simpl. apply list_lookup_insert_ne. lia. Qed.

Lemma set_grp_id q i g : grp_at q i = Some g -> set_grp i g q = q.
Proof.
  unfold grp_at. case_if; [done|]. intros E. unfold set_grp. rewrite list_insert_id by done. by destruct q.
Qed.

(** ** Serving a class *)

(** A class of the front slot, served a packet of at most the size of a slot,
    stays in the slot or goes to the next one. *)
Lemma next_slot i s x L :
  0 <= i <= 19 -> is_u64 s -> is_u64 x -> (sigma i | s) -> qfq_round_down x (22 + i) = s -> 0 <= L <= sigma i ->
  exists k, 0 <= k <= 1 /\ qfq_round_down (u64 (x + L)) (22 + i) = u64 (s + k * sigma i).
Proof.
  intros Hi Hs Hx [a Ha] Hrd HL. rewrite <- (u64_id x Hx), round_down_spec in Hrd by lia.
  assert (Hx' : rd x (22 + i) = s).
  { rewrite u64_id in Hrd; [done|]. pose proof (rd_range x (22 + i)). unfold is_u64 in *.
    pose proof (proj1 (rd_le_iff x (22 + i) 0 ltac:(lia) (Z.divide_0_r _))). lia. }
  pose proof (rd_range x (22 + i) ltac:(lia)) as Hr. rewrite Hx' in Hr. fold (sigma i) in Hr.
  rewrite round_down_spec by lia.
  assert (Hdv : forall k, (2 ^ (22 + i) | s + k * sigma i)) by (intros k; exists (a + k); unfold sigma in *; lia).
  destruct (Z.lt_ge_cases (x + L) (s + sigma i)) as [Hlt|Hge].
  - exists 0. split; [lia|]. f_equal. apply rd_uniq; [lia|apply Hdv|]. unfold sigma in *. lia.
  - exists 1. split; [lia|]. f_equal. apply rd_uniq; [lia|apply Hdv|]. unfold sigma in *. lia.
Qed.

Lemma update_class_spec q cls gi g c rest cl L :
  slots_ok cls gi g -> sl g 0 = c :: rest -> classes q = <[c := cl]> cls -> grp_at q gi = Some g ->
  length (groups q) = 20%nat ->
  cl_grp cl = Some gi -> is_u64 (cl_S cl) -> qfq_round_down (cl_S cl) (22 + gi) = g_S g ->
  cl_F cl = u64 (cl_S cl + L) -> 0 <= L <= sigma gi -> Forall (fun m => 0 <= m_len m < 2 ^ 32) (q_pkts (cl_q cl)) ->
  exists upd g2 F, let cl2 := set_cl_F F (set_cl_S (cl_F cl) cl) in
    qfq_update_class q gi c = Some (upd, set_grp gi g2 (set_class c cl2 q)) /\
    is_u64 F /\ (forall m l, q_pkts (cl_q cl) = m :: l -> F = u64 (cl_F cl + m_len m * cl_inv_w cl)) /\
    slots_pre (<[c := cl2]> cls) gi g2 /\ g_S g2 = g_S g /\ g_F g2 = g_F g /\
    (forall k, 0 <= k < 32 -> sl g2 k <> [] -> sl g k <> [] \/ k = 1) /\
    (forall k c', 0 <= k < 32 -> c' <> c -> c' ∈ sl g k -> c' ∈ sl g2 k) /\
    (q_pkts (cl_q cl) <> [] -> exists k, 0 <= k < 32 /\ c ∈ sl g2 k) /\ (upd = false -> g2 = g).
Proof.
  intros [Hp Hfirst HgF] E0 Ecls Hg Hlen Hgrp HS Hrd HF HL Hpk. pose proof (sp_i _ _ _ Hp) as Hi.
  assert (HFr : is_u64 (cl_F cl)) by (rewrite HF; apply u64_range).
  destruct (next_slot gi (g_S g) (cl_S cl) L) as (k & Hk & Hk'); try done; [apply Hp..|]. rewrite <- HF in Hk'.
  unfold qfq_update_class. rewrite Ecls, lookup_insert_eq. cbn [mbind option_bind]. rewrite Hg. cbn [mbind option_bind].
  change (q_pkts (cl_q (set_cl_S (cl_F cl) cl))) with (q_pkts (cl_q cl)).
  assert (Hkeep : forall g2 : qfq_group, (forall k, 0 <= k < 32 -> sl g2 k = if bool_decide (k = 0) then rest else sl g k) ->
    forall k c', 0 <= k < 32 -> c' <> c -> c' ∈ sl g k -> c' ∈ sl g2 k).
  { intros g2 Hsl j c' Hj Hne Hin. rewrite Hsl by done. case_bool_decide; [|done]. subst j. rewrite E0 in Hin.
    by apply elem_of_cons in Hin as [?|?]. }
  destruct (q_pkts (cl_q cl)) as [|m l] eqn:Eq.
  - set (cl2 := set_cl_S (cl_F cl) cl). destruct (front_remove_spec cls gi g c rest cl2 Hp E0) as (g2 & -> & Hp2 & Hsl & _ & HS2 & HF2).
    cbn [mbind option_bind]. exists true, g2, (cl_F cl). split; [done|]. split; [done|]. split; [done|]. split; [exact Hp2|].
    split_and!; try done; [|by apply Hkeep]. intros j Hj. rewrite Hsl by done. case_bool_decide; [subst j|by left]. rewrite E0. by left.
  - apply list.Forall_cons in Hpk as [Hm _]. rewrite (u32_id (m_len m)) by (unfold is_u32; lia). cbv zeta.
    cbn [cl_S set_cl_F set_cl_S]. set (cl2 := set_cl_F _ _). rewrite (sp_shift _ _ _ Hp), Hk'.
    assert (Hcl2 : q_pkts (cl_q cl2) = m :: l) by (exact Eq).
    destruct (Z.eqb_spec (u64 (g_S g + k * sigma gi)) (g_S g)) as [Ek|Ek].
    + exists false, g, (cl_F cl2). simpl.
      split; [rewrite set_grp_id by exact Hg; done|]. split; [apply u64_range|]. split; [by intros ?? [= <- <-]|].
      split; [|split_and!; try done; [by left|intros _; exists 0; split; [lia|rewrite E0; by left]]].
      assert (k = 0) as ->.
      { apply (u64_offset_inj (g_S g) k 0 gi); [done|lia..|]. rewrite Ek, Z.mul_0_l, Z.add_0_r, u64_id; [done|apply Hp]. }
      destruct Hp. constructor; try done. intros j c' Hj Hin.
      destruct (decide (c' = c)) as [->|Hne].
      * assert (j = 0) as ->.
        { eapply (member_slot cls gi g j 0 c); [by constructor|done|lia|done|]. rewrite E0. by left. }
        exists cl2. rewrite lookup_insert_eq. split; [done|]. split; [done|]. split; [by rewrite Hcl2|]. simpl. exact Hk'.
      * destruct (sp_member0 j c' Hj Hin) as (cl' & ? & ?). exists cl'. by rewrite lookup_insert_ne by done.
    + destruct (front_remove_spec cls gi g c rest cl2 Hp E0) as (g2 & -> & Hp2 & Hsl & Hnew & HS2 & HF2). cbn [mbind option_bind].
      rewrite <- HS2. destruct (slot_insert_spec (<[c := cl2]> cls) gi g2 c cl2 k Hp2) as (g3 & -> & Hp3 & Hsl3 & HS3 & HF3 & _); try done.
      { lia. } { by rewrite lookup_insert_eq. } { by rewrite Hcl2. } { simpl. by rewrite HS2. }
      cbn [mbind option_bind]. exists true, g3, (cl_F cl2). split; [done|]. split; [apply u64_range|]. split; [by intros ?? [= <- <-]|].
      split; [exact Hp3|]. split_and!; try congruence.
      * intros j Hj. rewrite Hsl3 by done. assert (k = 1) as ->.
        { destruct (decide (k = 1)); [done|]. assert (k = 0) as -> by lia. rewrite Z.mul_0_l, Z.add_0_r, u64_id in Ek; [done|apply Hp]. }
        case_bool_decide; [by right|]. rewrite Hsl by done. case_bool_decide; [subst j; rewrite E0|]; by left.
      * intros j c' Hj Hne Hin. rewrite Hsl3 by done. pose proof (Hkeep g2 Hsl j c' Hj Hne Hin). case_bool_decide; [by right|done].
      * intros _. exists k. split; [lia|]. rewrite Hsl3 by lia. rewrite bool_decide_eq_true_2 by done. by left.
Qed.

(** When a group leaves the ready ones, those that it blocked are unblocked,
    unless another one blocks them. *)
Lemma unblock_blocked st st1 st' gi :
  blocked_ok st -> (forall j, j <> gi -> st1 j = st j) ->
  (st1 gi = Some EB \/ st1 gi = Some IB -> exists j, gi < j /\ st1 j = Some ER) ->
  (st' = st1 /\ (exists j, gi < j /\ st1 j = Some ER)) \/ (forall i, st' i = unblock_st gi st1 i) ->
  blocked_ok st'.
Proof.
  intros Hb Hne Hgi [[-> (j0 & Hj0 & E0)]|Hst'] i Hi.
  - destruct (decide (i = gi)) as [->|Hig]; [by apply Hgi|]. rewrite Hne in Hi by done.
    destruct (Hb i Hi) as (j & Hj & Ej). destruct (decide (j = gi)) as [->|Hjg]; [exists j0; split; [lia|done]|].
    exists j. split; [done|]. by rewrite Hne.
  - assert (Hge : gi <= i /\ (st1 i = Some EB \/ st1 i = Some IB)).
    { rewrite Hst' in Hi. unfold unblock_st, EB, IB, ER, IR in *. repeat case_bool_decide; destruct Hi; simplify_eq; auto with lia. }
    destruct Hge as [Hge Hi1]. assert (exists j, i < j /\ st1 j = Some ER) as (j & Hj & Ej).
    { destruct (decide (i = gi)) as [->|Hig]; [by apply Hgi|]. rewrite Hne in Hi1 by done.
      destruct (Hb i Hi1) as (j & Hj & Ej). exists j. split; [done|]. rewrite Hne; [done|lia]. }
    exists j. split; [done|]. rewrite Hst'. unfold unblock_st. rewrite bool_decide_eq_false_2; [done|lia].
Qed.

(** [st'] differs from [st] by unblocking, and at [gi]. *)
Definition same_elig (gi : Z) (st st' : gstates) : Prop :=
  forall j, j <> gi -> (st' j = None <-> st j = None) /\ (forall s, st' j = Some s -> exists s0, st j = Some s0 /\ Z.odd s = Z.odd s0).

Lemma unblock_same_elig gi st st1 st' :
  (forall j, j <> gi -> st1 j = st j) ->
  (st' = st1 /\ (exists j, gi < j /\ st1 j = Some ER)) \/ (forall i, st' i = unblock_st gi st1 i) ->
  same_elig gi st st' /\ st' gi = st1 gi.
Proof.
  intros Hne [[-> _]|Hst'].
  - split; [|done]. intros j Hj. rewrite Hne by done. split; [done|]. intros s E. by exists s.
  - split.
    + intros j Hj. rewrite Hst'. unfold unblock_st. rewrite Hne by done. unfold EB, IB, ER, IR.
      repeat case_bool_decide; (split; [split; congruence|]); intros s Es; simplify_eq; eauto.
    + rewrite Hst'. unfold unblock_st. by rewrite bool_decide_eq_false_2 by lia.
Qed.

Definition groups_ok (q : qfq_sched) : Prop :=
  length (groups q) = 20%nat /\ forall j, 0 <= j <= 19 -> is_Some (grp_at q j).

Lemma groups_ok_set q i g : groups_ok q -> 0 <= i <= 19 -> groups_ok (set_grp i g q).
Proof.
  intros [Hl Ha] Hi. split; [simpl; by rewrite length_insert|]. intros j Hj. destruct (decide (i = j)) as [->|Hne].
  - rewrite grp_at_set_eq by done. by eexists.
  - rewrite grp_at_set_ne by lia. by apply Ha.
Qed.

Lemma set_grp_twice i g g' q : set_grp i g' (set_grp i g q) = set_grp i g' q.
Proof. unfold set_grp. simpl. by rewrite list_insert_insert_eq. Qed.

(** A group not in the bitmaps gets the state that is computed for it. *)
Lemma place_group q st gi g :
  bits_rep (bitmaps q) st -> groups_ok q -> grp_at q gi = Some g -> g_index g = gi -> 0 <= gi <= 19 -> st gi = None ->
  exists s b, qfq_calc_state q gi = Some s /\ __set_bit gi (bitmap q s) = Some b /\
    let st1 := fun j => if bool_decide (j = gi) then Some s else st j in
    bits_rep (<[Z.to_nat s := b]> (bitmaps q)) st1 /\ Z.odd s = qfq_gt (g_S g) (V q) /\
    (st1 gi = Some EB \/ st1 gi = Some IB -> exists j, gi < j /\ st1 j = Some ER) /\
    ((forall j, gi <= j -> st j <> Some ER) -> s = b2z (qfq_gt (g_S g) (V q))).
Proof.
  intros Hr [Hl Ha] Hg Hidx Hi Hnone. destruct (calc_state_spec q st gi g Hr Hg Hidx ltac:(lia) Ha) as (s & Es & Hs).
  assert (Hcase : 0 <= s <= 3 /\ Z.odd s = qfq_gt (g_S g) (V q) /\ (2 <= s -> exists j, gi < j /\ st j = Some ER) /\
    ((forall j, gi <= j -> st j <> Some ER) -> s = b2z (qfq_gt (g_S g) (V q)))).
  { destruct Hs as [[Hno ->]|(j & next & (Hj & Ej & Hjl) & Hn & ->)].
    - destruct (qfq_gt (g_S g) (V q)); simpl; (split; [lia|]); (split; [done|]); (split; [lia|done]).
    - assert (gi < j) by (destruct (decide (j = gi)) as [->|]; [congruence|lia]).
      destruct (qfq_gt (g_S g) (V q)), (qfq_gt (g_F g) (g_F next)); simpl;
        (split; [lia|]); (split; [done|]); (split; [by exists j|]); intros Hno; by apply Hno in Ej. }
  destruct Hcase as (Hs3 & Hodd & Hblk & Hno). unfold bitmap.
  destruct (set_rep (bitmaps q) st s gi Hr Hs3 Hi) as (b & Eb & Hr'); [by left|].
  exists s, b. split; [done|]. split; [done|]. split; [exact Hr'|]. split; [done|]. split; [|done].
  cbv beta. rewrite bool_decide_eq_true_2 by done. intros Hbl. destruct Hblk as (j & Hj & Ej).
  { unfold EB, IB in Hbl. destruct Hbl; simplify_eq; lia. }
  exists j. split; [done|]. rewrite bool_decide_eq_false_2; [done|lia].
Qed.

(** The group [gi] leaves the bitmaps, or gets another state. *)
Lemma clear_er bs st gi :
  bits_rep bs st -> st gi = Some ER ->
  exists er st1, __clear_bit gi (bs !!! Z.to_nat ER) = Some er /\ bits_rep (<[Z.to_nat ER := er]> bs) st1 /\
    st1 gi = None /\ forall j, j <> gi -> st1 j = st j.
Proof.
  intros Hr Hst. pose proof Hst as [Hi _]%(proj1 (proj2 Hr)).
  destruct (clear_rep bs st ER gi Hr) as (er & Eer & Hr1); [unfold ER; lia|done|].
  eexists er, _. split; [done|]. split; [exact Hr1|]. cbv beta. split; [by rewrite bool_decide_eq_true_2|].
  intros j Hj. by rewrite bool_decide_eq_false_2 by tauto.
Qed.

Lemma drop_group_spec q st gi old_F :
  bits_rep (bitmaps q) st -> st gi = Some ER -> groups_ok q -> blocked_ok st ->
  exists bs st', (er ← __clear_bit gi (bitmap q ER); qfq_unblock_groups (set_bitmap ER er q) gi old_F) = Some (with_bitmaps bs q) /\
    bits_rep bs st' /\ blocked_ok st' /\ same_elig gi st st' /\ st' gi = None.
Proof.
  intros Hr Hst Hgs Hb. pose proof Hst as [Hi _]%(proj1 (proj2 Hr)).
  destruct (clear_er _ _ _ Hr Hst) as (er & st1 & Eer & Hr1 & Hgi & Hne). unfold bitmap. rewrite Eer. cbn [mbind option_bind].
  destruct (unblock_rep (set_bitmap ER er q) st1 gi old_F Hr1 Hi (proj2 Hgs)) as (bs & st' & -> & Hr2 & Hcase).
  pose proof (unblock_same_elig gi st st1 st' Hne Hcase) as [Hsame Hsgi].
  exists bs, st'. split; [done|]. split; [done|]. split; [|by rewrite Hsgi].
  eapply unblock_blocked; [done..| |exact Hcase]. rewrite Hgi. by intros [?|?].
Qed.

Lemma move_group_spec q st gi g old_F :
  bits_rep (bitmaps q) st -> st gi = Some ER -> groups_ok q -> grp_at q gi = Some g -> g_index g = gi -> blocked_ok st ->
  exists bs st' s,
    (er ← __clear_bit gi (bitmap q ER);
     let q := set_bitmap ER er q in
     s ← qfq_calc_state q gi;
     b ← __set_bit gi (bitmap q s);
     qfq_unblock_groups (set_bitmap s b q) gi old_F) = Some (with_bitmaps bs q) /\
    bits_rep bs st' /\ blocked_ok st' /\ same_elig gi st st' /\ st' gi = Some s /\ Z.odd s = qfq_gt (g_S g) (V q).
Proof.
  intros Hr Hst Hgs Hg Hidx Hb. pose proof Hst as [Hi _]%(proj1 (proj2 Hr)).
  destruct (clear_er _ _ _ Hr Hst) as (er & st1 & Eer & Hr1 & Hgi & Hne). change (bitmap q ER) with (bitmaps q !!! Z.to_nat ER). rewrite Eer. cbn [mbind option_bind].
  set (q1 := set_bitmap ER er q). destruct (place_group q1 st1 gi g Hr1 Hgs Hg) as (s & b & -> & Eb & Hr2 & Hodd & Hbl & _); try done.
  cbv zeta. cbn [mbind option_bind]. rewrite Eb. cbn [mbind option_bind]. set (st2 := fun j => _) in Hr2, Hbl.
  assert (Hne2 : forall j, j <> gi -> st2 j = st j) by (intros j Hj; unfold st2; rewrite bool_decide_eq_false_2 by done; by apply Hne).
  destruct (unblock_rep (set_bitmap s b q1) st2 gi old_F Hr2 Hi (proj2 Hgs)) as (bs & st' & -> & Hr3 & Hcase).
  pose proof (unblock_same_elig gi st st2 st' Hne2 Hcase) as [Hsame Hsgi].
  exists bs, st', s. split; [done|]. split; [done|]. split; [eapply unblock_blocked; [exact Hb|exact Hne2|exact Hbl|exact Hcase]|].
  split; [done|]. rewrite Hsgi. unfold st2. by rewrite bool_decide_eq_true_2.
Qed.

Lemma update_group_spec q st gi g :
  bits_rep (bitmaps q) st -> st gi = Some ER -> groups_ok q -> grp_at q gi = Some g -> slots_pre (classes q) gi g ->
  blocked_ok st -> (full_slots g <> 0 -> g_F g = u64 (g_S g + 2 * sigma gi)) ->
  exists g' bs st', update_group q gi = Some (with_bitmaps bs (set_grp gi g' q)) /\ bits_rep bs st' /\
    slots_ok (classes q) gi g' /\ blocked_ok st' /\ same_elig gi st st' /\ (st' gi = None <-> full_slots g' = 0) /\
    (full_slots g' = 0 -> full_slots g = 0) /\
    (full_slots g' <> 0 -> exists k0, 0 <= k0 <= 30 /\ sl g k0 <> [] /\ g_S g' = u64 (g_S g + k0 * sigma gi) /\
       (forall k, 0 <= k < 32 -> sl g' k = if bool_decide (0 <= k + k0 < 32) then sl g (k + k0) else []) /\
       (forall j, 0 <= j < k0 -> sl g j = []) /\
       exists s, st' gi = Some s /\ (k0 = 0 /\ s = ER \/ Z.odd s = qfq_gt (g_S g') (V q))).
Proof.
  intros Hr Hst Hgs Hg Hp Hb HF. pose proof (sp_i _ _ _ Hp) as Hi. unfold update_group. rewrite Hg. cbn [mbind option_bind].
  destruct (scan_spec _ _ _ Hp) as [[Hfull ->]|(k0 & c & rest & g1 & Hk0 & -> & Ek0 & Hlow & Hg1 & HS1 & HF1 & Hsh1 & Hidx1 & Hfull1 & Hview)].
  - cbv beta iota zeta. rewrite set_grp_id by exact Hg. rewrite (sp_index _ _ _ Hp).
    destruct (drop_group_spec q st gi (g_F g) Hr Hst Hgs Hb) as (bs & st' & -> & Hr' & Hb' & Hsame & Hgi).
    exists g, bs, st'. rewrite set_grp_id by exact Hg. split; [done|]. split; [done|].
    split; [constructor; [done|by rewrite Hfull..]|]. split; [done|]. split; [done|]. rewrite Hgi. split_and!; done.
  - cbv beta iota zeta. assert (Hin : c ∈ sl g k0) by (rewrite Ek0; by left).
    apply (sp_member _ _ _ Hp) in Hin as (cl & Ec & Hgrp & Hq & HSc); [|lia].
    change (classes (set_grp gi g1 q)) with (classes q). rewrite Ec. cbn [mbind option_bind].
    rewrite Hsh1, (sp_shift _ _ _ Hp), HSc, HS1.
    assert (Hfullg : full_slots g <> 0).
    { intros E. apply (full_zero _ _ _ Hp) with (k := k0) in E; [|lia]. by rewrite E in Ek0. }
    destruct (Z.eqb_spec (g_S g) (u64 (g_S g + k0 * sigma gi))) as [E0|E0].
    + assert (k0 = 0) as ->.
      { apply (u64_offset_inj (g_S g) k0 0 gi); [done|lia..|]. rewrite <- E0, Z.mul_0_l, Z.add_0_r, u64_id; [done|apply Hp]. }
      rewrite (Hg1 eq_refl), set_grp_id by exact Hg. exists g, (bitmaps q), st. rewrite set_grp_id by exact Hg.
      split; [by destruct q|]. split; [done|]. split; [constructor; [done|by rewrite Ek0|done]|].
      split; [done|]. split; [intros j Hj; split; [done|]; intros s Es; by exists s|]. split; [by rewrite Hst|].
      split; [done|]. intros _. exists 0. split; [lia|]. split; [by rewrite Ek0|]. split; [by rewrite Z.mul_0_l, Z.add_0_r, u64_id by apply Hp|].
      split; [|split; [lia|exists ER; split; [done|by left] ] ].
      intros k Hk. rewrite bool_decide_eq_true_2 by lia. by rewrite Z.add_0_r.
    + assert (Hfold : u64 (u64 (g_S g + k0 * sigma gi) + Z.shiftl 2 (22 + gi)) = u64 (u64 (g_S g + k0 * sigma gi) + 2 * sigma gi)).
      { unfold sigma. rewrite Z.shiftl_mul_pow2 by lia. done. }
      rewrite Hfold. destruct (Hview (u64 (u64 (g_S g + k0 * sigma gi) + 2 * sigma gi))) as [Hp3 Hsl3]. set (g3 := set_times _ _ g1) in *.
      rewrite set_grp_twice. change (g_index g3) with (g_index g1). rewrite Hidx1, (sp_index _ _ _ Hp).
      destruct (move_group_spec (set_grp gi g3 q) st gi g3 (g_F g) Hr Hst (groups_ok_set q gi g3 Hgs Hi)) as (bs & st' & s & E & Hr' & Hb' & Hsame & Hs & Hodd);
        [by apply grp_at_set_eq; [|apply Hgs]|apply Hp3|done|].
      exists g3, bs, st'. split; [exact E|]. split; [done|].
      split. { constructor; [done| |done]. intros _. rewrite Hsl3 by lia. rewrite bool_decide_eq_true_2 by lia. by rewrite Z.add_0_l, Ek0. }
      split; [done|]. split; [done|]. rewrite Hs. split; [by split|]. split; [by simpl|].
      intros _. exists k0. split; [done|]. split; [by rewrite Ek0|]. split; [done|]. split; [done|]. split; [done|].
      exists s. split; [done|]. by right.
Qed.

(** ** The virtual time advances *)

Lemma states_ok_ext st t t' v : states_ok st t v -> (forall i s, st i = Some s -> t' i = t i) -> states_ok st t' v.
Proof. intros [H1 H2 H3] E. constructor; [|done..]. intros i s Hs. rewrite (E i s Hs). by apply H1. Qed.

(** A later virtual time does not change what a time stamp stands for. *)
Lemma near_later vt v2 t x :
  u64 x = u64 t -> vt - 2 ^ 61 <= t -> t <= vt + 2 ^ 42 -> vt <= v2 <= vt + 2 ^ 44 -> near v2 x = t.
Proof. intros E H1 H2 H3. apply near_uniq; [done|lia]. Qed.

Lemma on_time_later vt v2 i g t :
  0 <= i -> near v2 (g_S g) = t -> vt <= v2 ->
  (forall k, 0 <= k < 32 -> sl g k <> [] -> t + k * sigma i <= rd vt (22 + i) + sigma i) -> on_time v2 i g.
Proof. intros Hi E Hv H k Hk Hne. specialize (H k Hk Hne). rewrite E. pose proof (rd_mono vt v2 (22 + i)). lia. Qed.

Lemma start_bound q vt st i s :
  qfq_inv q vt st -> lag_ok q -> st i = Some s ->
  exists g, grp_at q i = Some g /\ start q vt i = near vt (g_S g) /\ full_slots g <> 0 /\ slots_ok (classes q) i g /\
    vt - 2 ^ 61 <= start q vt i <= rd vt (22 + i) + sigma i /\ g_S g = u64 (start q vt i) /\ (sigma i | start q vt i).
Proof.
  intros Hv Hlag Hs. pose proof Hs as [Hi _]%(proj1 (proj2 (inv_bits _ _ _ Hv))).
  destruct (inv_grp _ _ _ Hv i Hi) as (g & Hg & Hok & Hst & Htime). exists g. unfold start. rewrite Hg.
  assert (Hf : full_slots g <> 0) by (rewrite <- Hst; congruence).
  split; [done|]. split; [done|]. split; [done|]. split; [done|]. split; [|split].
  - split; [by eapply lag_spec|]. specialize (Htime 0 ltac:(lia) (so_first _ _ _ Hok Hf)). lia.
  - apply near_self, Hok.
  - apply sigma_near; [done|]. apply Hok.
Qed.

Section requalify.
Context (q0 q3 : qfq_sched) (vt v1 w t' : Z) (st st3 : gstates) (gi c : Z) (cl0 cl2 : qfq_class) (g' : qfq_group).
Hypothesis Hinv : qfq_inv q0 vt st.
Hypothesis Hlag : lag_ok q0.
Hypothesis HV : V q3 = u64 v1.
Hypothesis Hv1 : 0 <= v1 - vt < 2 ^ 43.
Hypothesis Hiw : iwsum q3 = iwsum q0.
Hypothesis Hlen : length (groups q3) = 20%nat.
Hypothesis Hr : bits_rep (bitmaps q3) st3.
Hypothesis Hblk : blocked_ok st3.
Hypothesis Hc : classes q0 !! c = Some cl0.
Hypothesis Hcg : cl_grp cl0 = Some gi.
Hypothesis Hcls : classes q3 = <[c := cl2]> (classes q0).
Hypothesis Hgi : 0 <= gi <= 19.
Hypothesis Hother : forall j, j <> gi -> grp_at q3 j = grp_at q0 j.
Hypothesis Hg' : grp_at q3 gi = Some g'.
Hypothesis Hok' : slots_ok (classes q3) gi g'.
Hypothesis Hsame : same_elig gi st st3.
Hypothesis Hact : st3 gi = None <-> full_slots g' = 0.
Hypothesis HS' : g_S g' = u64 t'.
Hypothesis Ht'div : full_slots g' <> 0 -> (sigma gi | t').
Hypothesis Ht' : full_slots g' <> 0 -> vt - 2 ^ 61 <= t' /\
  forall k, 0 <= k < 32 -> sl g' k <> [] -> t' + k * sigma gi <= rd vt (22 + gi) + sigma gi.
Hypothesis Hw : vt <= w <= v1.
Hypothesis Helig : forall s, st3 gi = Some s -> Z.odd s = (w <? t').
Hypothesis Hq3 : queued_ok q3.

Let tt (i : Z) : Z := if bool_decide (i = gi) then t' else start q0 vt i.

Lemma tt_gi : tt gi = t'.
Proof. unfold tt. by rewrite bool_decide_eq_true_2. Qed.
Lemma tt_ne i : i <> gi -> tt i = start q0 vt i.
Proof. intros. unfold tt. by rewrite bool_decide_eq_false_2. Qed.

Lemma other_active i s : i <> gi -> st3 i = Some s -> exists s0, st i = Some s0 /\ Z.odd s = Z.odd s0.
Proof. intros Hi Hs. by apply (Hsame i Hi). Qed.

Lemma gi_bound s : st3 gi = Some s -> vt - 2 ^ 61 <= t' <= rd vt (22 + gi) + sigma gi.
Proof.
  intros Hs. destruct Ht' as [H1 H2]; [rewrite <- Hact; congruence|]. split; [done|].
  specialize (H2 0 ltac:(lia)). rewrite Z.mul_0_l, Z.add_0_r in H2. apply H2. apply (so_first _ _ _ Hok'). rewrite <- Hact. congruence.
Qed.

Lemma tt_grp i s : st3 i = Some s -> exists g, grp_at q3 i = Some g /\ g_S g = u64 (tt i).
Proof.
  intros Hs. destruct (decide (i = gi)) as [->|Hi]; [exists g'; by rewrite tt_gi|].
  destruct (other_active i s Hi Hs) as (s0 & Hs0 & _).
  destruct (start_bound q0 vt st i s0 Hinv Hlag Hs0) as (g & Hg & _ & _ & _ & _ & HS & _). exists g. by rewrite Hother, tt_ne.
Qed.

Lemma tt_bound i s : st3 i = Some s -> vt - 2 ^ 61 <= tt i <= rd vt (22 + i) + sigma i.
Proof.
  intros Hs. destruct (decide (i = gi)) as [->|Hi]; [rewrite tt_gi; by apply (gi_bound s)|].
  destruct (other_active i s Hi Hs) as (s0 & Hs0 & _).
  destruct (start_bound q0 vt st i s0 Hinv Hlag Hs0) as (g & _ & _ & _ & _ & Hb & _). by rewrite tt_ne.
Qed.

Lemma tt_div i s : st3 i = Some s -> (sigma i | tt i).
Proof.
  intros Hs. destruct (decide (i = gi)) as [->|Hi]; [rewrite tt_gi; apply Ht'div; rewrite <- Hact; congruence|].
  destruct (other_active i s Hi Hs) as (s0 & Hs0 & _).
  destruct (start_bound q0 vt st i s0 Hinv Hlag Hs0) as (g & _ & _ & _ & _ & _ & _ & Hd). by rewrite tt_ne.
Qed.

(** The groups after the update, at a later virtual time. *)
Lemma requalified_grp v2 i : 0 <= i <= 19 -> vt <= v2 <= vt + 2 ^ 44 ->
  exists g, grp_at q3 i = Some g /\ slots_ok (classes q3) i g /\ (st3 i = None <-> full_slots g = 0) /\
    (st3 i <> None -> near v2 (g_S g) = tt i) /\ on_time v2 i g.
Proof.
  intros Hi Hv2. pose proof (sigma_bound i ltac:(lia)).
  assert (Hnear : forall g, grp_at q3 i = Some g -> forall s, st3 i = Some s -> near v2 (g_S g) = tt i).
  { intros g Hg s Hs. destruct (tt_grp i s Hs) as (g0 & Hg0 & HS). assert (g0 = g) as -> by congruence.
    pose proof (tt_bound i s Hs). pose proof (rd_range vt (22 + i)). apply (near_later vt); [by rewrite HS, u64_idemp|lia..]. }
  destruct (decide (i = gi)) as [->|Hne].
  - exists g'. split; [done|]. split; [done|]. split; [done|]. destruct (st3 gi) as [s|] eqn:Es.
    + assert (Hn : near v2 (g_S g') = t') by (rewrite <- tt_gi; by eapply Hnear). split; [by rewrite tt_gi|].
      apply (on_time_later vt v2 gi g' t'); [lia|done|lia|]. destruct Ht' as [_ HH]; [intros Ef; by apply Hact in Ef|exact HH].
    + split; [done|]. intros k Hk Hk'. assert (full_slots g' = 0) as E by (by apply Hact).
      by apply (full_zero _ _ _ (so_pre _ _ _ Hok')) with (k := k) in E.
  - destruct (inv_grp _ _ _ Hinv i Hi) as (g & Hg & Hok & Hst & Htime). exists g. rewrite Hother by done. split; [done|].
    split. { rewrite Hcls. apply slots_ok_other; [done|]. intros k Hk Hin.
      apply (sp_member _ _ _ (so_pre _ _ _ Hok)) in Hin as (cl & Ec & Hgr & _); [|done]. congruence. }
    destruct (Hsame i Hne) as [Hnone _]. split; [by rewrite Hnone|].
    destruct (st3 i) as [s|] eqn:Es.
    + split; [intros _; eapply Hnear; [by rewrite Hother|done]|].
      apply (on_time_later vt v2 i g (start q0 vt i)); [lia| |lia|].
      * rewrite <- tt_ne by done. eapply Hnear; [by rewrite Hother|done].
      * unfold start. rewrite Hg. exact Htime.
    + split; [done|]. intros k Hk Hk'. assert (full_slots g = 0) as E by (by apply Hst, Hnone).
      by apply (full_zero _ _ _ (so_pre _ _ _ Hok)) with (k := k) in E.
Qed.

Lemma requalify :
  exists q4 v2 st4, qfq_update_eligible q3 (u64 vt) = Some q4 /\ qfq_inv q4 v2 st4 /\ classes q4 = classes q3 /\ v1 <= v2.
Proof.
  set (ww := fun i => if bool_decide (i = gi) then w else vt).
  destruct (update_eligible_spec q3 st3 tt ww vt v1 Hr HV Hv1 tt_grp tt_div) as (v2 & bs & E & Hv2 & Hr' & Hst').
  { intros i s Hs. pose proof (tt_bound i s Hs). lia. }
  { intros i s Hs. unfold ww. case_bool_decide; lia. }
  { intros i s Hs. unfold ww. case_bool_decide as Hi; [subst i; rewrite tt_gi; by apply Helig|]. rewrite tt_ne by done.
    destruct (other_active i s Hi Hs) as (s0 & Hs0 & ->). by apply (st_elig _ _ _ (inv_states _ _ _ Hinv)). }
  { done. }
  eexists _, v2, (elig_st vt v2 st3). split; [exact E|]. split; [|split; [done|lia] ].
  assert (Hgr : forall i, 0 <= i <= 19 -> exists g, grp_at q3 i = Some g /\ slots_ok (classes q3) i g /\ (st3 i = None <-> full_slots g = 0) /\
    (st3 i <> None -> near v2 (g_S g) = tt i) /\ on_time v2 i g) by (intros i Hi; apply requalified_grp; [done|lia]).
  constructor; simpl; try done.
  - rewrite Hiw. apply (inv_iwsum _ _ _ Hinv).
  - intros i Hi. destruct (Hgr i Hi) as (g & Hg & Hok & Hst & _ & Ht). exists g. split; [exact Hg|]. split; [done|].
    split; [|done]. by rewrite elig_active.
  - eapply states_ok_ext; [exact Hst'|]. intros i s Hs. assert (Ha : st3 i <> None) by (rewrite <- (elig_active st3 vt v2); congruence).
    assert (Hi : 0 <= i <= 19) by (apply Hr' in Hs; lia). destruct (Hgr i Hi) as (g & Hg & _ & _ & Hn & _). unfold start.
    change (grp_at (with_bitmaps bs (set_V (u64 v2) q3)) i) with (grp_at q3 i). rewrite Hg. by apply Hn.
Qed.

End requalify.

(** ** Dequeueing *)

Lemma idle_all q vt st :
  qfq_inv q vt st -> (forall i, st i <> Some ER) -> forall c cl, classes q !! c = Some cl -> q_pkts (cl_q cl) = [].
Proof.
  intros Hv Hno c cl Ec. destruct (decide (q_pkts (cl_q cl) = [])) as [|Hne]; [done|exfalso].
  destruct (inv_cls _ _ _ Hv c cl Ec) as [Hok Hin]. destruct (Hin Hne) as (i & g & k & Hg & Hgr & Hk & Hc).
  destruct (co_grp _ Hok i Hg) as [Hi _]. destruct (inv_grp _ _ _ Hv i Hi) as (g0 & Hg0 & Hs & Hst & _).
  assert (g0 = g) as -> by congruence. destruct (st i) as [s|] eqn:Es.
  - destruct (st_ready _ _ _ (inv_states _ _ _ Hv) i s Es) as [j Hj]. by apply Hno in Hj.
  - assert (full_slots g = 0) as E by (by apply Hst). apply (full_zero _ _ _ (so_pre _ _ _ Hs)) with (k := k) in E; [|done].
    rewrite E in Hc. by apply elem_of_nil in Hc.
Qed.

(** The classes after one of them has changed, with its group. *)
Lemma queued_ok_update q q' gi c cl0 cl2 g g' :
  queued_ok q -> classes q !! c = Some cl0 -> cl_grp cl0 = Some gi -> cl_grp cl2 = Some gi ->
  classes q' = <[c := cl2]> (classes q) -> grp_at q gi = Some g -> grp_at q' gi = Some g' ->
  (forall j, j <> gi -> grp_at q' j = grp_at q j) -> class_ok cl2 ->
  (q_pkts (cl_q cl2) <> [] -> exists k, 0 <= k < 32 /\ c ∈ sl g' k) ->
  (forall k c', 0 <= k < 32 -> c' <> c -> c' ∈ sl g k -> exists k', 0 <= k' < 32 /\ c' ∈ sl g' k') ->
  queued_ok q'.
Proof.
  intros Hq Ec Hg0 Hg2 Ecls Hg Hg' Hne Hok2 Hin2 Hkeep c' cl. rewrite Ecls. destruct (decide (c' = c)) as [->|Hcc].
  - rewrite lookup_insert_eq. intros [= <-]. split; [done|]. intros Hp. destruct (Hin2 Hp) as (k & Hk & Hin).
    exists gi, g', k. done.
  - rewrite lookup_insert_ne by done. intros Ec'. destruct (Hq c' cl Ec') as [Hok Hin]. split; [done|]. intros Hp.
    destruct (Hin Hp) as (i & gg & k & Hgr & Hgg & Hk & Hin'). destruct (decide (i = gi)) as [->|Hi].
    + assert (gg = g) as -> by congruence. destruct (Hkeep k c' Hk Hcc Hin') as (k' & Hk' & Hin''). by exists gi, g', k'.
    + exists i, gg, k. rewrite Hne by done. done.
Qed.


(** The class after a packet has left its queue. *)
Lemma served_class_ok cl dq F m l :
  class_ok cl -> q_pkts (cl_q cl) = m :: l -> q_pkts dq = l -> dnq_ok dq -> is_u64 F ->
  (forall m' l', l = m' :: l' -> F = u64 (cl_F cl + m_len m' * cl_inv_w cl)) ->
  class_ok (set_cl_F F (set_cl_S (cl_F cl) (set_cl_q dq cl))).
Proof.
  intros [H1 H2 H3 H4 H5 H6 H7 H8] Eq Edq Hdq HF Hh. constructor; simpl; try done.
  - rewrite Eq in H7. rewrite Edq. by apply list.Forall_cons in H7 as [_ ?].
  - intros m' l' E. rewrite Edq in E. by apply Hh in E.
Qed.

(** The ready group with the lowest index serves the first class of its front
    slot. *)
Section serve.
Context (q : qfq_sched) (vt : Z) (st : gstates) (gi : Z) (g : qfq_group) (c : Z) (rest : list Z).
Context (cl : qfq_class) (m : mbuf) (l : list mbuf) (dq : dn_queue) (n : Z).
Hypothesis Hv : qfq_inv q vt st.
Hypothesis Hlag : lag_ok q.
Hypothesis Hst : st gi = Some ER.
Hypothesis Hg : grp_at q gi = Some g.
Hypothesis E0 : sl g 0 = c :: rest.
Hypothesis Ec : classes q !! c = Some cl.
Hypothesis Eq : q_pkts (cl_q cl) = m :: l.
Hypothesis Edq : q_pkts dq = l.
Hypothesis Hdqok : dnq_ok dq.

Let v1 : Z := vt + m_len m * iwsum q.
Let q1 : qfq_sched := set_V (u64 (V q + m_len m * iwsum q)) (set_queued n (set_class c (set_cl_q dq cl) q)).

Lemma sv_i : 0 <= gi <= 19.
Proof. by apply (inv_bits _ _ _ Hv) in Hst as [Hi _]. Qed.

Lemma sv_ok : slots_ok (classes q) gi g /\ full_slots g <> 0 /\ on_time vt gi g.
Proof.
  destruct (inv_grp _ _ _ Hv gi sv_i) as (g0 & Hg0 & Hok & Hnone & Hot). assert (g0 = g) as -> by congruence.
  split; [done|]. split; [|done]. rewrite <- Hnone. congruence.
Qed.

Lemma sv_start : vt - 2 ^ 61 <= near vt (g_S g) <= rd vt (22 + gi) /\ g_S g = u64 (near vt (g_S g)) /\ (sigma gi | near vt (g_S g)).
Proof.
  destruct (start_bound q vt st gi ER Hv Hlag Hst) as (g0 & Hg0 & Hs & _ & _ & Hb & HS & Hd). assert (g0 = g) as -> by congruence.
  rewrite Hs in *. split; [|done]. split; [lia|]. apply rd_le_iff; [pose proof sv_i; lia|done|].
  pose proof (st_elig _ _ _ (inv_states _ _ _ Hv) gi ER Hst) as He. rewrite Hs in He. symmetry in He. by apply Z.ltb_ge in He.
Qed.

Lemma sv_class : class_ok cl /\ cl_grp cl = Some gi /\ qfq_round_down (cl_S cl) (22 + gi) = g_S g.
Proof.
  destruct sv_ok as [Hok _]. destruct (sp_member _ _ _ (so_pre _ _ _ Hok) 0 c) as (cl' & Ec' & Hcg & _ & Hrd); [lia|rewrite E0; by left|].
  assert (cl' = cl) as -> by congruence. rewrite Z.mul_0_l, Z.add_0_r, u64_id in Hrd by apply Hok.
  split; [|done]. by apply (inv_cls _ _ _ Hv c).
Qed.

Lemma sv_len : 0 <= m_len m <= cl_lmax cl /\ 0 <= m_len m <= 2000 /\ Forall (fun m => 0 <= m_len m < 2 ^ 32) l.
Proof.
  destruct sv_class as [Hcl _]. pose proof (co_pkts _ Hcl) as Hp. rewrite Eq in Hp. apply list.Forall_cons in Hp as [Hm Hl].
  pose proof (co_lmax _ Hcl). split; [done|]. split; [lia|]. eapply list.Forall_impl; [exact Hl|]. simpl. lia.
Qed.

Lemma sv_time : V q1 = u64 v1 /\ 0 <= v1 - vt < 2 ^ 43.
Proof.
  split; [simpl; by rewrite (inv_V _ _ _ Hv), u64_add_l|]. unfold v1. pose proof (inv_iwsum _ _ _ Hv). destruct sv_len as (_ & ? & _).
  change (2 ^ 43) with (8192 * 2 ^ 30). assert (0 <= m_len m * iwsum q <= 2000 * 2 ^ 30) by nia. lia.
Qed.

(** After [qfq_update_class]. *)
Lemma sv_update_class :
  exists upd g2 cl2, let q2 := set_grp gi g2 (set_class c cl2 q1) in
    qfq_update_class q1 gi c = Some (upd, q2) /\ classes q2 = <[c := cl2]> (classes q) /\
    class_ok cl2 /\ q_pkts (cl_q cl2) = l /\ cl_grp cl2 = Some gi /\
    slots_pre (classes q2) gi g2 /\ g_S g2 = g_S g /\ g_F g2 = g_F g /\
    (forall k, 0 <= k < 32 -> sl g2 k <> [] -> near vt (g_S g) + k * sigma gi <= rd vt (22 + gi) + sigma gi) /\
    (forall k c', 0 <= k < 32 -> c' <> c -> c' ∈ sl g k -> c' ∈ sl g2 k) /\
    (l <> [] -> exists k, 0 <= k < 32 /\ c ∈ sl g2 k) /\ (upd = false -> g2 = g).
Proof.
  destruct sv_ok as (Hok & Hfull & Hot), sv_class as (Hcl & Hcg & Hrd), sv_len as (Hm & _ & Hl), sv_start as (Hs & _ & _).
  pose proof (co_w _ Hcl). destruct (co_grp _ Hcl gi Hcg) as [_ Hlw].
  destruct (update_class_spec q1 (classes q) gi g c rest (set_cl_q dq cl) (m_len m * cl_inv_w cl)) as
    (upd & g2 & F & Euc & HF & Hhead & Hp2 & HS2 & HF2 & Hne2 & Hkeep & Hin2 & Hnoupd); try done.
  { apply (inv_len _ _ _ Hv). } { apply Hcl. } { by apply (co_head _ Hcl m l). } { nia. } { simpl. by rewrite Edq. }
  exists upd, g2, (set_cl_F F (set_cl_S (cl_F (set_cl_q dq cl)) (set_cl_q dq cl))). simpl in *. rewrite insert_insert_eq, Edq in *.
  split; [done|]. split; [done|]. split; [by eapply served_class_ok|]. split_and!; try done.
  intros k Hk [Hne| ->]%Hne2; [by apply Hot|lia|done].
Qed.

(** The classes are still in their slots, whatever the numbers of the slots. *)
Lemma sv_queued q3 cl2 g2 g' :
  classes q3 = <[c := cl2]> (classes q) -> class_ok cl2 -> cl_grp cl2 = Some gi -> q_pkts (cl_q cl2) = l ->
  grp_at q3 gi = Some g' -> (forall j, j <> gi -> grp_at q3 j = grp_at q j) ->
  (forall k c', 0 <= k < 32 -> c' <> c -> c' ∈ sl g k -> c' ∈ sl g2 k) -> (l <> [] -> exists k, 0 <= k < 32 /\ c ∈ sl g2 k) ->
  (forall k c', 0 <= k < 32 -> c' ∈ sl g2 k -> exists k', 0 <= k' < 32 /\ c' ∈ sl g' k') -> queued_ok q3.
Proof.
  intros Hcls Hcl2 Hcg2 Hl Hg' Hother Hkeep Hin2 Hsl. destruct sv_class as (_ & Hcg & _).
  eapply (queued_ok_update q q3 gi c cl cl2 g g'); try done; [apply Hv|..].
  - rewrite Hl. intros Hp. destruct (Hin2 Hp) as (k & Hk & Hin). by apply (Hsl k).
  - intros k c' Hk Hc' Hin. apply (Hsl k); [done|by apply Hkeep].
Qed.

(** The start time of the group after [update_group]. *)
Lemma sv_moved g2 g' st' :
  is_u64 (g_S g') -> g_S g2 = g_S g ->
  (forall k, 0 <= k < 32 -> sl g2 k <> [] -> near vt (g_S g) + k * sigma gi <= rd vt (22 + gi) + sigma gi) ->
  (st' gi = None <-> full_slots g' = 0) ->
  (full_slots g' <> 0 -> exists k0, 0 <= k0 <= 30 /\ sl g2 k0 <> [] /\ g_S g' = u64 (g_S g2 + k0 * sigma gi) /\
     (forall k, 0 <= k < 32 -> sl g' k = if bool_decide (0 <= k + k0 < 32) then sl g2 (k + k0) else []) /\
     (forall j, 0 <= j < k0 -> sl g2 j = []) /\
     exists s, st' gi = Some s /\ (k0 = 0 /\ s = ER \/ Z.odd s = qfq_gt (g_S g') (u64 v1))) ->
  exists t' w, g_S g' = u64 t' /\ vt <= w <= v1 /\
    (full_slots g' <> 0 -> (sigma gi | t') /\ vt - 2 ^ 61 <= t' /\
       forall k, 0 <= k < 32 -> sl g' k <> [] -> t' + k * sigma gi <= rd vt (22 + gi) + sigma gi) /\
    forall s, st' gi = Some s -> Z.odd s = (w <? t').
Proof.
  intros HSr HS2 Htime Hact Hmoved. destruct sv_time as [_ Hv1], sv_start as (Hs & HS & Hd). pose proof sv_i as Hi.
  destruct (decide (full_slots g' = 0)) as [E|E].
  - exists (g_S g'), vt. split; [symmetry; by apply u64_id|]. split; [lia|]. split; [done|].
    intros s Es. apply Hact in E. congruence.
  - destruct (Hmoved E) as (k0 & Hk0 & Hne & HSg & Hsl & _ & s & Es & Hodd). pose proof (sigma_mul k0 gi). pose proof (sigma_bound gi).
    assert (HSt : g_S g' = u64 (near vt (g_S g) + k0 * sigma gi)) by (by rewrite HSg, HS2, HS at 1; rewrite u64_add_l).
    exists (near vt (g_S g) + k0 * sigma gi), (if bool_decide (k0 = 0) then vt else v1). split; [done|].
    split; [case_bool_decide; lia|]. split.
    + intros _. split; [apply Z.divide_add_r; [done|by apply Z.divide_factor_r]|]. split; [lia|].
      intros k Hk Hk'. rewrite Hsl in Hk' by done. case_bool_decide; [|done]. specialize (Htime (k + k0) ltac:(lia) Hk'). lia.
    + intros s' Es'. assert (s' = s) as -> by congruence. pose proof (rd_range vt (22 + gi)). specialize (Htime k0 ltac:(lia) Hne).
      destruct Hodd as [[-> ->]|Hodd]; [rewrite bool_decide_eq_true_2 by done; symmetry; apply Z.ltb_ge; lia|].
      rewrite HSt, gt_spec in Hodd by lia. rewrite Hodd. case_bool_decide; [subst k0|done].
      rewrite !(proj2 (Z.ltb_ge _ _)) by lia. done.
Qed.

Lemma qfq_serve_spec :
  exists q4 v2 st4 cl2 upd q2 q3, qfq_update_class q1 gi c = Some (upd, q2) /\
    (if upd : bool then update_group q2 gi else Some q2) = Some q3 /\
    qfq_update_eligible q3 (V q) = Some q4 /\ qfq_inv q4 v2 st4 /\
    classes q4 = <[c := cl2]> (classes q) /\ q_pkts (cl_q cl2) = l /\ vt + m_len m * iwsum q <= v2.
Proof.
  destruct sv_update_class as (upd & g2 & cl2 & Euc & Hcls2 & Hcl2 & Hl2 & Hcg2 & Hp2 & HS2 & HF2 & Htime & Hkeep & Hin2 & Hnoupd).
  set (q2 := set_grp gi g2 (set_class c cl2 q1)) in *. pose proof sv_i as Hi. destruct sv_time as [HV1 Hv1].
  destruct sv_ok as (Hok & Hfull & Hot), sv_class as (Hcl & Hcg & Hrd), sv_start as (Hs & HS & Hd).
  pose proof (inv_len _ _ _ Hv) as Hlen. pose proof (inv_bits _ _ _ Hv) as Hr. pose proof (st_blocked _ _ _ (inv_states _ _ _ Hv)) as Hblk.
  assert (Hg2 : grp_at q2 gi = Some g2) by (by apply grp_at_set_eq).
  assert (Hother2 : forall j, j <> gi -> grp_at q2 j = grp_at q j) by (intros j Hj; unfold q2; rewrite grp_at_set_ne by lia; done).
  rewrite (inv_V _ _ _ Hv). destruct upd.
  - destruct (update_group_spec q2 st gi g2) as (g' & bs & st' & Eug & Hr' & Hok' & Hblk' & Hsame & Hact & Hgone & Hmoved); try done.
    { apply groups_ok_set; [|done]. split; [done|]. intros j Hj. destruct (inv_grp _ _ _ Hv j Hj) as (gj & Hgj & _). by exists gj. }
    { intros _. rewrite HF2, HS2. by apply Hok. }
    set (q3 := with_bitmaps bs (set_grp gi g' q2)) in *.
    assert (Hg' : grp_at q3 gi = Some g') by (apply (grp_at_set_eq q2 gi g'); [done|simpl; by rewrite length_insert]).
    assert (Hother3 : forall j, j <> gi -> grp_at q3 j = grp_at q j).
    { intros j Hj. change (grp_at (set_grp gi g' q2) j = grp_at q j). rewrite grp_at_set_ne by lia. by apply Hother2. }
    assert (Hq3 : queued_ok q3).
    { eapply (sv_queued q3 cl2 g2 g'); try done. intros k c' Hk Hin. destruct (decide (full_slots g' = 0)) as [E|E].
      - apply Hgone, (full_zero _ _ _ Hp2) with (k := k) in E; [|done]. rewrite E in Hin. by apply elem_of_nil in Hin.
      - destruct (Hmoved E) as (k0 & Hk0 & _ & _ & Hsl & Hlow & _). destruct (Z.lt_ge_cases k k0).
        + rewrite Hlow in Hin by lia. by apply elem_of_nil in Hin.
        + exists (k - k0). split; [lia|]. rewrite Hsl, bool_decide_eq_true_2 by lia. by replace (k - k0 + k0) with k by lia. }
    assert (Hx : exists t' w, g_S g' = u64 t' /\ vt <= w <= v1 /\
      (full_slots g' <> 0 -> (sigma gi | t') /\ vt - 2 ^ 61 <= t' /\
         forall k, 0 <= k < 32 -> sl g' k <> [] -> t' + k * sigma gi <= rd vt (22 + gi) + sigma gi) /\
      forall s, st' gi = Some s -> Z.odd s = (w <? t')).
    { eapply sv_moved; [apply Hok'|done|done|done|]. by rewrite <- HV1. }
    destruct Hx as (t' & w & HS' & Hw & Ht' & Hel).
    destruct (requalify q q3 vt v1 w t' st st' gi c cl cl2 g') as (q4 & v2 & st4 & Eel & Hinv4 & Hcls4 & Hlater); try done.
    { simpl. by rewrite !length_insert. } { intros Hf. by apply Ht'. } { intros Hf. by apply Ht'. }
    exists q4, v2, st4, cl2, true, q2, q3. split_and!; try done. by rewrite Hcls4.
  - assert (g2 = g) as -> by (by apply Hnoupd).
    destruct (requalify q q2 vt v1 vt (near vt (g_S g)) st st gi c cl cl2 g) as (q4 & v2 & st4 & Eel & Hinv4 & Hcls4 & Hlater); try done.
    { simpl. by rewrite length_insert. } { constructor; [done|by apply Hok..]. }
    { intros j Hj. split; [done|]. intros s Es. by exists s. } { split; [congruence|done]. } { intros _. split; [lia|exact Htime]. } { lia. }
    { intros s Es. rewrite Hst in Es. injection Es as <-. symmetry. apply Z.ltb_ge. pose proof (rd_range vt (22 + gi)). lia. }
    { by eapply (sv_queued q2 cl2 g g); [..|intros k c' Hk Hin; exists k]. }
    exists q4, v2, st4, cl2, false, q2, q2. split_and!; try done. by rewrite Hcls4.
Qed.

End serve.

Lemma inv_inc_loops q vt st : qfq_inv q vt st -> qfq_inv (inc_loops q) vt st.
Proof. intros []. by constructor. Qed.

Lemma qfq_dequeue_spec q vt st :
  qfq_inv q vt st -> lag_ok q ->
  (exists q', qfq_dequeue q = Some (None, q') /\ qfq_inv q' vt st /\ classes q' = classes q /\
     forall c cl, classes q !! c = Some cl -> q_pkts (cl_q cl) = []) \/
  (exists m q' vt' st' gi g c rest cl cl', qfq_dequeue q = Some (Some m, q') /\ qfq_inv q' vt' st' /\
     lowest_er st 0 gi /\ grp_at q gi = Some g /\ sl g 0 = c :: rest /\ classes q !! c = Some cl /\
     q_pkts (cl_q cl) = m :: q_pkts (cl_q cl') /\ classes q' = <[c := cl']> (classes q) /\ vt + m_len m * iwsum q <= vt').
Proof.
  intros Hv Hlag. pose proof (inv_inc_loops q vt st Hv) as Hv0. set (q0 := inc_loops q) in *.
  pose proof (inv_bits _ _ _ Hv0) as Hr. unfold qfq_dequeue. fold q0. unfold bitmap.
  destruct (Z.eqb_spec (bitmaps q0 !!! Z.to_nat ER) 0) as [E|E].
  - left. exists q0. split; [done|]. split; [done|]. split; [done|].
    eapply (idle_all q0); [exact Hv0|]. by apply (rep_zero (bitmaps q0) st ER Hr ltac:(unfold ER; lia)).
  - right. pose proof (ffs_er (bitmaps q0) st Hr E) as Hlow. set (gi := qfq_ffs _) in *. pose proof Hlow as (_ & Hst & _).
    pose proof Hst as [Hi _]%(proj1 (proj2 Hr)). destruct (inv_grp _ _ _ Hv0 gi Hi) as (g & Hg & Hok & Hnone & _).
    rewrite Hg. cbn [mbind option_bind]. assert (Hne : sl g 0 <> []) by (apply (so_first _ _ _ Hok); rewrite <- Hnone; congruence).
    destruct (sl g 0) as [|c rest] eqn:E0; [done|].
    assert (slot_at g (front g) = c :: rest) as ->.
    { rewrite <- E0. unfold sl. rewrite Z.add_0_r, Z.mod_small; [done|apply Hok]. }
    destruct (sp_member _ _ _ (so_pre _ _ _ Hok) 0 c) as (cl & Ec & _ & Hpk & _); [lia|rewrite E0; by left|].
    cbn [hd_error mbind option_bind]. rewrite Ec. cbn [mbind option_bind]. destruct (inv_cls _ _ _ Hv0 c cl Ec) as [Hcl _].
    destruct (q_pkts (cl_q cl)) as [|m l] eqn:Eq; [done|].
    pose proof (dn_dequeue_spec (cl_q cl) (co_q _ Hcl)) as Hdq. rewrite Eq in Hdq. destruct Hdq as (dq & -> & Edq & Hdqok).
    destruct (qfq_serve_spec q0 vt st gi g c rest cl m l dq (u32 (queued (set_class c (set_cl_q dq cl) q0) - 1)))
      as (q4 & v2 & st4 & cl2 & upd & q2 & q3 & E1 & E2 & E3 & Hinv & Hcls & Hl & Hlater); try done.
    exists m, q4, v2, st4, gi, g, c, rest, cl, cl2. split; [|by rewrite Hl, Eq].
    cbv zeta. change (V (set_queued _ _)) with (V q0). change (iwsum (set_queued _ _)) with (iwsum q0).
    rewrite E1. cbn [mbind option_bind]. rewrite E2. cbn [mbind option_bind]. rewrite E3. done.
Qed.
