(* ===== verification/QfqEnq.v ===== *)
(** * QFQ: enqueueing, and the contract of a scheduler

    The invariant of [QfqInv] is kept when a packet is enqueued, so that QFQ
    keeps the contract [DnAlgOk]; what it serves, and the configuration of the
    flows; what happens to a flow with a packet longer than it declared, and to
    a flow whose weight was refused. *)

From stdpp Require Import gmap functions.
From S2P Require Import Prelude Sched Qfq QfqBits QfqInv.
Import DnQueue SchedMain Qfq.
Open Scope Z_scope.

(** ** The start time of a class that becomes backlogged *)

Lemma gt_near vt x : qfq_gt x (u64 vt) = (vt <? near vt x).
Proof.
  unfold qfq_gt. unfold u64 at 1, wrap. rewrite s64_mod, near_V.
  destruct (Z.ltb_spec 0 (near vt x - vt)), (Z.ltb_spec vt (near vt x)); (done || lia).
Qed.

Lemma rd_add_mul t sh k : 0 <= sh -> rd (t + k * 2 ^ sh) sh = rd t sh + k * 2 ^ sh.
Proof. intros. unfold rd. rewrite Z_mod_plus_full. lia. Qed.

(** It is at most one slot after the virtual time, and before the virtual time
    only when a ready group would block the class: then it is the finish time
    of the first such group. *)
Lemma update_start_spec q vt st c gi g :
  qfq_inv q vt st -> lag_ok q -> cl_grp c = Some gi -> grp_at q gi = Some g -> 0 <= gi <= 19 -> is_u64 (cl_F c) ->
  exists x, qfq_update_start q c = Some (u64 x) /\ x < vt + 2 ^ 43 /\ rd x (22 + gi) <= rd vt (22 + gi) + sigma gi /\
    (vt <= x \/ exists j next, lowest_er st gi j /\ grp_at q j = Some next /\ g_F next = u64 x /\
       vt - 2 ^ 61 <= x /\ x = start q vt j + 2 * sigma j).
Proof.
  intros Hv Hlag Hgrp Hg Hi HF. destruct (inv_grp _ _ _ Hv gi Hi) as (g0 & Hg0 & Hok & _). assert (g0 = g) as -> by congruence.
  unfold qfq_update_start. rewrite Hgrp. cbn [mbind option_bind]. rewrite Hg. cbn [mbind option_bind].
  rewrite (sp_shift _ _ _ (so_pre _ _ _ Hok)), (sp_index _ _ _ (so_pre _ _ _ Hok)), (inv_V _ _ _ Hv), gt_near.
  set (f := near vt (cl_F c)). rewrite (near_self vt (cl_F c) HF). fold f. rewrite !round_down_spec by lia.
  rewrite Z.shiftl_1_l, u64_add_l. fold (sigma gi). set (limit := rd vt (22 + gi) + sigma gi).
  pose proof (sigma_pos gi ltac:(lia)) as Hsp. pose proof (sigma_bound gi ltac:(lia)) as Hsb.
  pose proof (rd_range vt (22 + gi) ltac:(lia)) as Hrv. fold (sigma gi) in Hrv.
  pose proof (near_range vt (cl_F c)) as Hfr. fold f in Hfr. pose proof (rd_range f (22 + gi) ltac:(lia)) as Hrf. fold (sigma gi) in Hrf.
  assert (Hvt : exists x, Some (u64 vt) = Some (u64 x) /\ x < vt + 2 ^ 43 /\ rd x (22 + gi) <= limit /\
    (vt <= x \/ exists j next, lowest_er st gi j /\ grp_at q j = Some next /\ g_F next = u64 x /\
       vt - 2 ^ 61 <= x /\ x = start q vt j + 2 * sigma j)).
  { exists vt. split; [done|]. unfold limit. split; [lia|]. split; [lia|]. left. lia. }
  destruct (negb (vt <? f) || qfq_gt (u64 (rd f (22 + gi))) (u64 limit)) eqn:Estale.
  - unfold bitmap. destruct (mask_from_er (bitmaps q) st gi (inv_bits _ _ _ Hv)) as [[E Hno]|[Hne Hlow]]; [lia|by rewrite E, Z.eqb_refl|].
    rewrite (proj2 (Z.eqb_neq _ _) Hne). set (j := qfq_ffs _) in *. pose proof Hlow as (_ & Hst & _).
    destruct (start_bound q vt st j ER Hv Hlag Hst) as (next & Hn & Hs & Hf & Hokn & Hb & HS & _).
    rewrite Hn. cbn [mbind option_bind]. destruct (qfq_gt (u64 (rd f (22 + gi))) (g_F next)); [|exact Hvt].
    pose proof (so_F _ _ _ Hokn Hf) as HFn. rewrite HS, u64_add_l in HFn. rewrite HFn.
    pose proof (sp_i _ _ _ (so_pre _ _ _ Hokn)) as Hj. pose proof (sigma_bound j ltac:(lia)). pose proof (sigma_pos j ltac:(lia)).
    pose proof (rd_range vt (22 + j)). unfold limit. rewrite gt_spec by lia. destruct (Z.ltb_spec (start q vt j + 2 * sigma j) (rd vt (22 + gi) + sigma gi)) as [Hlt|Hge].
    + eexists. split; [done|]. split; [lia|]. split.
      * pose proof (rd_range (start q vt j + 2 * sigma j) (22 + gi)). lia.
      * right. exists j, next. split_and!; try done. lia.
    + eexists. split; [done|]. split; [lia|]. split; [|left; lia].
      unfold sigma at 1. replace (rd vt (22 + gi) + 2 ^ (22 + gi)) with (rd vt (22 + gi) + 1 * 2 ^ (22 + gi)) by lia.
      rewrite rd_add_mul by lia. pose proof (rd_range (rd vt (22 + gi)) (22 + gi)). unfold sigma. lia.
  - apply orb_false_iff in Estale as [Hgt Hlim]. apply negb_false_iff, Z.ltb_lt in Hgt. unfold limit in Hlim.
    rewrite gt_spec in Hlim by lia. apply Z.ltb_ge in Hlim. exists f. split; [done|]. unfold limit. split; [lia|]. split; [lia|]. left. lia.
Qed.

(** ** The invariant after a class has become backlogged *)

Lemma enqueue_inv q q4 vt vt' st st4 gi c c0 c2 g4 t4 s :
  qfq_inv q vt st -> classes q !! c = Some c0 -> cl_grp c0 = Some gi -> 0 <= gi <= 19 ->
  V q4 = u64 vt' -> iwsum q4 = iwsum q -> length (groups q4) = 20%nat ->
  bits_rep (bitmaps q4) st4 -> classes q4 = <[c := c2]> (classes q) ->
  (forall j, j <> gi -> grp_at q4 j = grp_at q j) -> grp_at q4 gi = Some g4 -> slots_ok (classes q4) gi g4 -> full_slots g4 <> 0 ->
  near vt' (g_S g4) = t4 -> (forall k, 0 <= k < 32 -> sl g4 k <> [] -> t4 + k * sigma gi <= rd vt' (22 + gi) + sigma gi) ->
  vt' = vt \/ (forall i, st i = None) -> (forall j, j <> gi -> st4 j = st j) -> st4 gi = Some s -> Z.odd s = (vt' <? t4) ->
  blocked_ok st4 -> ready_ok st4 -> queued_ok q4 -> qfq_inv q4 vt' st4.
Proof.
  intros Hv Ec Hcg Hi HV Hiw Hlen Hr Hcls Hother Hg4 Hok4 Hfull Ht4 Htime Hvt Hne Hs Hodd Hblk Hrdy Hq.
  assert (Hgi : start q4 vt' gi = t4) by (unfold start; by rewrite Hg4).
  constructor; try done.
  - rewrite Hiw. apply (inv_iwsum _ _ _ Hv).
  - intros i Hi'. destruct (decide (i = gi)) as [->|Hig].
    + exists g4. split; [done|]. split; [done|]. split; [rewrite Hs; by split|]. intros k Hk Hk'. rewrite Ht4. by apply Htime.
    + destruct (inv_grp _ _ _ Hv i Hi') as (g & Hg & Hok & Hst & Hot). exists g. rewrite Hother, Hne by done. split; [done|].
      split. { rewrite Hcls. apply slots_ok_other; [done|]. intros k Hk Hin.
        apply (sp_member _ _ _ (so_pre _ _ _ Hok)) in Hin as (cl & Ec' & Hgr & _); [|done]. congruence. }
      split; [done|]. destruct Hvt as [->|Hidle]; [done|]. intros k Hk Hk'. assert (full_slots g = 0) as E by (by apply Hst).
      by apply (full_zero _ _ _ (so_pre _ _ _ Hok)) with (k := k) in E.
  - constructor; [|done..]. intros i s' Hs'. destruct (decide (i = gi)) as [->|Hig]; [rewrite Hgi; congruence|].
    rewrite Hne in Hs' by done. destruct Hvt as [->|Hidle]; [|by rewrite Hidle in Hs'].
    unfold start. rewrite Hother by done. by apply (st_elig _ _ _ (inv_states _ _ _ Hv)).
Qed.

(** ** The group gets new time stamps *)

Lemma set_grp_bitmap gi g g' s b q : set_grp gi g' (set_bitmap s b (set_grp gi g q)) = set_grp gi g' (set_bitmap s b q).
Proof. unfold set_grp, set_bitmap. simpl. by rewrite list_insert_insert_eq. Qed.

Lemma update_times_spec q gi g c c2 r s b :
  grp_at q gi = Some g -> slot_shift g = 22 + gi -> g_index g = gi -> 0 <= gi <= 19 -> length (groups q) = 20%nat ->
  let g' := set_times (u64 r) (u64 (u64 r + 2 * sigma gi)) g in
  slots_pre (classes q) gi g' -> (forall k, 0 <= k < 32 -> c ∉ sl g' k) ->
  classes q !! c = Some c2 -> cl_grp c2 = Some gi -> q_pkts (cl_q c2) <> [] -> qfq_round_down (cl_S c2) (22 + gi) = u64 r ->
  qfq_calc_state (set_grp gi g' q) gi = Some s -> __set_bit gi (bitmap q s) = Some b ->
  exists g4, update_times q gi c (u64 r) = Some (set_grp gi g4 (set_bitmap s b q)) /\ slots_ok (classes q) gi g4 /\
    g_S g4 = u64 r /\ full_slots g4 <> 0 /\
    forall k, 0 <= k < 32 -> sl g4 k = if bool_decide (k = 0) then c :: sl g' k else sl g' k.
Proof.
  intros Hg Hsh Hidx Hi Hlen g' Hp Hnew Ec Hcg Hpk Hrd Hs Hb. unfold update_times. rewrite Hg. cbn [mbind option_bind].
  assert (Hfold : Z.shiftl 2 (slot_shift g) = 2 * sigma gi) by (rewrite Hsh; unfold sigma; apply Z.shiftl_mul_pow2; lia).
  rewrite Hfold. fold g'. rewrite Hs. cbn [mbind option_bind]. change (g_index g') with (g_index g). rewrite Hidx.
  change (bitmap (set_grp gi g' q) s) with (bitmap q s). rewrite Hb. cbn [mbind option_bind]. unfold skip_update.
  change (grp_at (set_bitmap s b (set_grp gi g' q)) gi) with (grp_at (set_grp gi g' q) gi). rewrite grp_at_set_eq by done.
  cbn [mbind option_bind]. destruct (slot_insert_spec (classes q) gi g' c c2 0 Hp) as (g4 & E & Hp4 & Hsl & HS & HF & Hf); try done.
  { simpl. rewrite Z.add_0_r, u64_idemp. done. }
  simpl in E. rewrite Z.add_0_r, u64_idemp in E. rewrite E. cbn [mbind option_bind]. exists g4.
  split; [by rewrite set_grp_bitmap|]. split; [|done]. constructor; [done|..].
  - intros _. rewrite Hsl, bool_decide_eq_true_2 by lia. done.
  - intros _. rewrite HF, HS. done.
Qed.

(** The slots of an idle group, with any time stamps. *)
Lemma slots_pre_idle cls cls' i g r F :
  slots_pre cls i g -> full_slots g = 0 -> (sigma i | r) -> slots_pre cls' i (set_times (u64 r) F g).
Proof.
  intros Hp Hf Hd. pose proof (proj1 (full_zero _ _ _ Hp) Hf) as Hempty.
  assert (Hsl : forall k, 0 <= k < 32 -> sl (set_times (u64 r) F g) k = []) by exact Hempty.
  destruct Hp. constructor; simpl; try done.
  - apply u64_range.
  - by apply sigma_u64.
  - intros k c Hk. rewrite Hsl by done. by intros ?%elem_of_nil.
Qed.

(** ** A class becomes backlogged *)

Section activate.
Context (q : qfq_sched) (vt : Z) (st : gstates) (c : Z) (c0 : qfq_class) (dq : dn_queue) (m : mbuf) (n gi x : Z) (g : qfq_group).
Hypothesis Hv : qfq_inv q vt st.
Hypothesis Hlag : lag_ok q.
Hypothesis Ec : classes q !! c = Some c0.
Hypothesis Hidle : q_pkts (cl_q c0) = [].
Hypothesis Edq : q_pkts dq = [m].
Hypothesis Hdqok : dnq_ok dq.
Hypothesis Hcg : cl_grp c0 = Some gi.
Hypothesis Hg : grp_at q gi = Some g.
Hypothesis Hm : 0 <= m_len m <= cl_lmax c0.
Hypothesis Hstart : qfq_update_start q c0 = Some (u64 x).
Hypothesis Hx : x < vt + 2 ^ 43.
Hypothesis Hrx : rd x (22 + gi) <= rd vt (22 + gi) + sigma gi.
Hypothesis Hblock : vt <= x \/ exists j next, lowest_er st gi j /\ grp_at q j = Some next /\ g_F next = u64 x /\
  vt - 2 ^ 61 <= x /\ x = start q vt j + 2 * sigma j.
(** Neither the class nor its group is late. *)
Hypothesis Hlate : vt - 28 * sigma gi <= x.
Hypothesis Hlateg : full_slots g <> 0 -> vt - 28 * sigma gi <= near vt (g_S g).

Let c2 : qfq_class := set_cl_F (u64 (u64 x + m_len m * cl_inv_w c0)) (set_cl_S (u64 x) (set_cl_q dq c0)).
Let q2 : qfq_sched := set_class c c2 (set_queued n (set_class c (set_cl_q dq c0) q)).
Let r : Z := rd x (22 + gi).

Lemma ac_i : 0 <= gi <= 19.
Proof. destruct (inv_cls _ _ _ Hv c c0 Ec) as [Hok _]. by apply (co_grp _ Hok gi). Qed.

Lemma ac_ok : slots_ok (classes q) gi g /\ (st gi = None <-> full_slots g = 0) /\ on_time vt gi g.
Proof. destruct (inv_grp _ _ _ Hv gi ac_i) as (g0 & Hg0 & H'). by assert (g0 = g) as <- by congruence. Qed.

Lemma ac_new k : 0 <= k < 32 -> c ∉ sl g k.
Proof.
  intros Hk Hin. destruct ac_ok as [Hok _]. apply (sp_member _ _ _ (so_pre _ _ _ Hok)) in Hin as (cl & Ec' & _ & Hp & _); [|done].
  congruence.
Qed.

Lemma ac_class : class_ok c2.
Proof.
  destruct (inv_cls _ _ _ Hv c c0 Ec) as [[H1 H2 H3 H4 H5 H6 H7 H8] _]. constructor; simpl; try done; try apply u64_range.
  - rewrite Edq. by apply Forall_singleton.
  - rewrite Edq. by intros m' l' [= <- <-].
Qed.

Lemma ac_cls : classes q2 = <[c := c2]> (classes q).
Proof. simpl. by rewrite insert_insert_eq. Qed.

Lemma ac_r : rd vt (22 + gi) - 28 * sigma gi <= r <= rd vt (22 + gi) + sigma gi /\ r <= x < r + sigma gi /\ (sigma gi | r).
Proof.
  pose proof ac_i. split; [split; [|done]|split; [by apply rd_range; lia|by apply rd_divide; lia]].
  unfold r, sigma in *. replace (rd vt (22 + gi) - 28 * 2 ^ (22 + gi)) with (rd (vt + -28 * 2 ^ (22 + gi)) (22 + gi)) by (rewrite rd_add_mul; lia).
  apply rd_mono; lia.
Qed.

Lemma ac_round : qfq_round_down (cl_S c2) (22 + gi) = u64 r.
Proof. pose proof ac_i. simpl. by rewrite round_down_spec by lia. Qed.

(** What [activate] computes before it looks at the group. *)
Lemma ac_activate q4 :
  (if negb (full_slots g =? 0) then
     if negb (qfq_gt (g_S g) (u64 x)) then skip_update q2 gi c (u64 r)
     else
       grp ← qfq_slot_rotate g (u64 r);
       let q := set_grp gi grp q2 in
       ir ← __clear_bit (g_index grp) (bitmap q IR);
       let q := set_bitmap IR ir q in
       ib ← __clear_bit (g_index grp) (bitmap q IB);
       update_times (set_bitmap IB ib q) gi c (u64 r)
   else update_times (if (bitmap q2 ER =? 0) && qfq_gt (u64 r) (V q2) then set_V (u64 r) q2 else q2) gi c (u64 r)) = q4 ->
  activate (set_queued n (set_class c (set_cl_q dq c0) q)) c m = q4.
Proof.
  intros <-. destruct ac_ok as [Hok _]. unfold activate. change (classes (set_queued n (set_class c (set_cl_q dq c0) q))) with (<[c := set_cl_q dq c0]> (classes q)).
  rewrite lookup_insert_eq. cbn [mbind option_bind].
  change (qfq_update_start (set_queued n (set_class c (set_cl_q dq c0) q)) (set_cl_q dq c0)) with (qfq_update_start q c0).
  rewrite Hstart. cbn [mbind option_bind]. cbv zeta.
  match goal with |- context [cl_grp ?e] => change (cl_grp e) with (cl_grp c0) end. rewrite Hcg. cbn [mbind option_bind].
  match goal with |- context [grp_at ?e gi] => change (grp_at e gi) with (grp_at q gi) end. rewrite Hg. cbn [mbind option_bind].
  rewrite (sp_shift _ _ _ (so_pre _ _ _ Hok)). match goal with |- context [qfq_round_down ?e _] => change e with (cl_S c2) end.
  rewrite ac_round. done.
Qed.

Lemma ac_groups : groups_ok q2.
Proof. split; [apply (inv_len _ _ _ Hv)|]. intros j Hj. destruct (inv_grp _ _ _ Hv j Hj) as (gj & Hgj & _). by exists gj. Qed.

(** The classes after [c] was added to a slot. *)
Lemma ac_queued q4 g4 k0 :
  classes q4 = <[c := c2]> (classes q) -> grp_at q4 gi = Some g4 -> (forall j, j <> gi -> grp_at q4 j = grp_at q j) ->
  0 <= k0 < 32 -> c ∈ sl g4 k0 -> (forall k c', 0 <= k < 32 -> c' ∈ sl g k -> exists k', 0 <= k' < 32 /\ c' ∈ sl g4 k') -> queued_ok q4.
Proof.
  intros Hcls Hg4 Hother Hk0 Hin Hkeep. eapply (queued_ok_update q q4 gi c c0 c2 g g4); try done; [apply Hv|apply ac_class| |].
  - intros _. by exists k0.
  - intros k c' Hk _ Hin'. by apply (Hkeep k).
Qed.

(** The states of the groups when only that of [gi] changes. *)
Lemma blocked_update st4 :
  st gi <> Some ER -> (forall j, j <> gi -> st4 j = st j) ->
  (st4 gi = Some EB \/ st4 gi = Some IB -> exists j, gi < j /\ st4 j = Some ER) -> blocked_ok st4.
Proof.
  intros Hner Hne Hgi i Hi. destruct (decide (i = gi)) as [->|Hig]; [by apply Hgi|]. rewrite Hne in Hi by done.
  destruct (st_blocked _ _ _ (inv_states _ _ _ Hv) i Hi) as (j & Hj & Ej). exists j. split; [done|].
  rewrite Hne; [done|congruence].
Qed.

Lemma ac_idle :
  full_slots g = 0 ->
  exists q4 vt' st4,
    update_times (if (bitmap q2 ER =? 0) && qfq_gt (u64 r) (V q2) then set_V (u64 r) q2 else q2) gi c (u64 r) = Some q4 /\
    qfq_inv q4 vt' st4 /\ classes q4 = <[c := c2]> (classes q).
Proof.
  intros Hfull. pose proof ac_i as Hi. destruct ac_ok as (Hok & Hnone & _), ac_r as (Hr & Hrx' & Hrd). apply Hnone in Hfull as Hsg.
  pose proof (sigma_pos gi ltac:(lia)). pose proof (sigma_bound gi ltac:(lia)). pose proof (rd_range vt (22 + gi) ltac:(lia)) as Hrv.
  fold (sigma gi) in Hrv. pose proof (inv_bits _ _ _ Hv) as Hbits.
  set (vt' := if (bitmap q ER =? 0) && (vt <? r) then r else vt).
  assert (Hvt' : vt <= vt' <= vt + 2 ^ 43) by (unfold vt'; destruct (bitmap q ER =? 0), (Z.ltb_spec vt r); simpl; lia).
  set (qa := if (bitmap q2 ER =? 0) && qfq_gt (u64 r) (V q2) then set_V (u64 r) q2 else q2).
  assert (Hqa : qa = set_V (u64 vt') q2).
  { unfold qa. change (bitmap q2 ER) with (bitmap q ER). change (V q2) with (V q). rewrite (inv_V _ _ _ Hv), gt_spec by lia.
    unfold vt'. destruct (_ && _); [done|]. rewrite <- (inv_V _ _ _ Hv). done. }
  clearbody qa. subst qa. set (qa := set_V (u64 vt') q2). set (g' := set_times (u64 r) (u64 (u64 r + 2 * sigma gi)) g).
  assert (Hp' : slots_pre (classes qa) gi g') by (eapply slots_pre_idle; [apply Hok|done..]).
  assert (Hsl' : forall k, 0 <= k < 32 -> sl g' k = []) by (apply (full_zero _ _ _ (so_pre _ _ _ Hok)); done).
  destruct (place_group (set_grp gi g' qa) st gi g') as (s & b & Es & Eb & Hr4 & Hodd & Hbl & Hno); try done.
  { by apply groups_ok_set; [apply ac_groups|]. } { apply grp_at_set_eq; [done|apply ac_groups]. } { apply Hok. }
  set (st4 := fun j => _) in Hr4, Hbl.
  assert (Hst4 : st4 gi = Some s) by (unfold st4; by rewrite bool_decide_eq_true_2).
  assert (Hne4 : forall j, j <> gi -> st4 j = st j) by (intros j Hj; unfold st4; by rewrite bool_decide_eq_false_2).
  destruct (update_times_spec qa gi g c c2 r s b) as (g4 & E & Hok4 & HS4 & Hf4 & Hsl4); try done.
  { apply Hok. } { apply Hok. } { apply ac_groups. }
  { intros k Hk. rewrite Hsl' by done. by intros ?%elem_of_nil. } { simpl. by rewrite lookup_insert_eq. } { simpl. by rewrite Edq. } { apply ac_round. }
  change (g_S g') with (u64 r) in Hodd, Hno. change (V (set_grp gi g' qa)) with (u64 vt') in Hodd, Hno. rewrite gt_spec in Hodd, Hno by lia.
  set (q4 := set_grp gi g4 (set_bitmap s b qa)) in *.
  assert (Hg4 : grp_at q4 gi = Some g4) by (apply grp_at_set_eq; [done|apply ac_groups]).
  assert (Hother : forall j, j <> gi -> grp_at q4 j = grp_at q j) by (intros j Hj; unfold q4; by rewrite grp_at_set_ne by lia).
  exists q4, vt', st4. split; [exact E|]. split; [|apply ac_cls].
  eapply (enqueue_inv q q4 vt vt' st st4 gi c c0 c2 g4 r s); try done.
  - simpl. rewrite length_insert. apply ac_groups.
  - apply ac_cls.
  - rewrite HS4. apply near_uniq; [by rewrite u64_idemp|lia].
  - intros k Hk. rewrite Hsl4 by done. fold g'. destruct (decide (k = 0)) as [->|Hk0]; [|by rewrite bool_decide_eq_false_2, Hsl' by done].
    intros _. pose proof (rd_mono vt vt' (22 + gi)). lia.
  - destruct (Z.eqb_spec (bitmap q ER) 0) as [E0|E0]; [right|by left].
    intros i. destruct (st i) as [s'|] eqn:Ei; [|done]. destruct (st_ready _ _ _ (inv_states _ _ _ Hv) i s' Ei) as [j Hj].
    by apply (proj1 (rep_zero (bitmaps q) st ER Hbits ltac:(unfold ER; lia)) E0) in Hj.
  - apply blocked_update; [congruence|done|done].
  - intros i s' _. destruct (Z.eqb_spec (bitmap q ER) 0) as [E0|E0].
    + exists gi. rewrite Hst4, Hno.
      * rewrite (proj2 (Z.ltb_ge vt' r)); [done|]. unfold vt'. simpl. destruct (Z.ltb_spec vt r); lia.
      * intros j _. by apply (rep_zero (bitmaps q) st ER Hbits ltac:(unfold ER; lia)).
    + destruct (ffs_er (bitmaps q) st Hbits E0) as (_ & Hj & _). eexists. rewrite Hne4; [exact Hj|congruence].
  - eapply (ac_queued q4 g4 0); [apply ac_cls|done|done|lia|rewrite Hsl4 by lia; by left|].
    intros k c' Hk Hin. change (sl g k) with (sl g' k) in Hin. rewrite Hsl' in Hin by done. by apply elem_of_nil in Hin.
Qed.

(** The start time of the group when it has classes. *)
Lemma ac_busy :
  full_slots g <> 0 -> let t := near vt (g_S g) in
  start q vt gi = t /\ (sigma gi | t) /\ g_S g = u64 t /\ rd vt (22 + gi) - 28 * sigma gi <= t <= rd vt (22 + gi) + sigma gi /\
  exists s, st gi = Some s /\ Z.odd s = (vt <? t).
Proof.
  intros Hfull t. pose proof ac_i as Hi. destruct ac_ok as (Hok & Hnone & Hot). pose proof (sigma_near gi vt (g_S g) Hi (sp_aligned _ _ _ (so_pre _ _ _ Hok))) as Hd.
  assert (Hs : start q vt gi = t) by (unfold start; by rewrite Hg). split; [done|]. split; [done|].
  split; [apply near_self, Hok|]. specialize (Hot 0 ltac:(lia) (so_first _ _ _ Hok Hfull)). specialize (Hlateg Hfull).
  split; [pose proof (rd_range vt (22 + gi)); fold t in Hot, Hlateg; lia|].
  destruct (st gi) as [s|] eqn:Es; [|by exfalso; apply Hfull, Hnone]. exists s. split; [done|].
  rewrite (st_elig _ _ _ (inv_states _ _ _ Hv) gi s Es). by rewrite Hs.
Qed.

(** [c] goes to a slot of the group. *)
Lemma ac_insert :
  full_slots g <> 0 -> near vt (g_S g) <= x ->
  exists q4, skip_update q2 gi c (u64 r) = Some q4 /\ qfq_inv q4 vt st /\ classes q4 = <[c := c2]> (classes q).
Proof.
  intros Hfull Hle. pose proof ac_i as Hi. destruct ac_ok as (Hok & Hnone & Hot), ac_r as (Hr & Hrx' & [b Hb]).
  destruct (ac_busy Hfull) as (Hs & [a Ha] & HS & Ht & s & Hst & Hodd). set (t := near vt (g_S g)) in *.
  pose proof (sigma_pos gi ltac:(lia)) as Hsp. assert (Htr : t <= r) by (apply rd_le_iff; [lia|by exists a|done]).
  set (k := b - a). assert (Hk : r = t + k * sigma gi) by (unfold k; lia). assert (Hk29 : 0 <= k <= 29) by nia.
  assert (Hrk : u64 r = u64 (g_S g + k * sigma gi)) by (by rewrite HS, u64_add_l, Hk).
  unfold skip_update. change (grp_at q2 gi) with (grp_at q gi). rewrite Hg. cbn [mbind option_bind]. rewrite Hrk.
  destruct (slots_ok_other (classes q) c c2 gi g Hok ac_new) as [Hp _ _].
  destruct (slot_insert_spec (<[c := c2]> (classes q)) gi g c c2 k Hp) as (g4 & -> & Hp4 & Hsl & HS4 & HF4 & Hf4); try done.
  { lia. } { apply ac_new. } { by rewrite lookup_insert_eq. } { simpl. by rewrite Edq. } { by rewrite ac_round. }
  cbn [mbind option_bind]. set (q4 := set_grp gi g4 q2).
  assert (Hg4 : grp_at q4 gi = Some g4) by (apply grp_at_set_eq; [done|apply ac_groups]).
  assert (Hother : forall j, j <> gi -> grp_at q4 j = grp_at q j) by (intros j Hj; unfold q4; by rewrite grp_at_set_ne by lia).
  exists q4. split; [done|]. split; [|apply ac_cls]. eapply (enqueue_inv q q4 vt vt st st gi c c0 c2 g4 t s); try done.
  - apply (inv_V _ _ _ Hv).
  - simpl. rewrite length_insert. apply ac_groups.
  - apply (inv_bits _ _ _ Hv).
  - apply ac_cls.
  - change (classes q4) with (classes q2). rewrite ac_cls. constructor; [done|..].
    + intros _. rewrite Hsl by lia. case_bool_decide; [done|by apply (so_first _ _ _ Hok)].
    + intros _. rewrite HF4, HS4. by apply Hok.
  - by rewrite HS4.
  - intros j Hj. rewrite Hsl by done. destruct (decide (j = k)) as [->|Hjk]; [intros _; lia|].
    rewrite bool_decide_eq_false_2 by done. by apply Hot.
  - by left.
  - apply (inv_states _ _ _ Hv).
  - apply (inv_states _ _ _ Hv).
  - eapply (ac_queued q4 g4 k); [apply ac_cls|done|done|lia|rewrite Hsl, bool_decide_eq_true_2 by lia; by left|].
    intros j c' Hj Hin. exists j. split; [done|]. rewrite Hsl by done. case_bool_decide; [by right|done].
Qed.

(** The group starts earlier: it is not ready, and if it is eligible it stays
    blocked. *)
Lemma ac_not_er : full_slots g <> 0 -> x < near vt (g_S g) -> st gi <> Some ER.
Proof.
  intros Hfull Hlt Hst. destruct (ac_busy Hfull) as (Hs & _ & _ & _ & s & Hst' & Hodd). rewrite Hst in Hst'. injection Hst' as <-.
  symmetry in Hodd. apply Z.ltb_ge in Hodd. destruct Hblock as [?|(j & next & Hlow & _ & _ & _ & Ex)]; [lia|].
  assert (j = gi) as -> by (eapply lowest_er_uniq; [exact Hlow|split_and!; [done|done|lia] ]).
  pose proof ac_i. pose proof (sigma_pos gi). rewrite Hs in Ex. lia.
Qed.

(** The bits of the group are cleared in the bitmaps of the ineligible ones. *)
Lemma ac_clear bs :
  bits_rep bs st -> st gi <> Some ER ->
  exists ir ib st1, __clear_bit gi (bs !!! Z.to_nat IR) = Some ir /\
    __clear_bit gi (<[Z.to_nat IR := ir]> bs !!! Z.to_nat IB) = Some ib /\
    bits_rep (<[Z.to_nat IB := ib]> (<[Z.to_nat IR := ir]> bs)) st1 /\ (forall j, j <> gi -> st1 j = st j) /\
    (st1 gi = None \/ (st gi = Some EB /\ st1 gi = Some EB)).
Proof.
  intros Hr Hner. pose proof ac_i as Hi.
  destruct (clear_rep bs st IR gi Hr) as (ir & Eir & Hr1); [unfold IR; lia|done|].
  destruct (clear_rep _ _ IB gi Hr1) as (ib & Eib & Hr2); [unfold IB; lia|done|]. set (st1 := fun j => _) in Hr2.
  exists ir, ib, st1. split; [done|]. split; [done|]. split; [done|]. split.
  - intros j Hj. unfold st1. by rewrite !bool_decide_eq_false_2 by tauto.
  - unfold st1. destruct (st gi) as [s|] eqn:Es; [|left; by repeat case_bool_decide].
    apply (states4 bs st gi s Hr) in Es as H4. unfold ER, IR, EB, IB in *.
    destruct H4 as [-> | [-> | [-> | ->] ] ]; repeat case_bool_decide; simplify_eq/=; intuition congruence.
Qed.

Lemma ac_place q3 g' st1 :
  bits_rep (bitmaps q3) st1 -> groups_ok q3 -> grp_at q3 gi = Some g' -> (forall j, j <> gi -> grp_at q3 j = grp_at q j) ->
  V q3 = u64 vt -> g_index g' = gi -> g_S g' = u64 r -> g_F g' = u64 (u64 r + 2 * sigma gi) ->
  full_slots g <> 0 -> x < near vt (g_S g) -> (forall j, j <> gi -> st1 j = st j) -> st1 gi = None \/ (st gi = Some EB /\ st1 gi = Some EB) ->
  exists s b st4, qfq_calc_state q3 gi = Some s /\ __set_bit gi (bitmap q3 s) = Some b /\
    bits_rep (<[Z.to_nat s := b]> (bitmaps q3)) st4 /\ Z.odd s = (vt <? r) /\ st4 gi = Some s /\ (forall j, j <> gi -> st4 j = st j) /\
    (st4 gi = Some EB \/ st4 gi = Some IB -> exists j, gi < j /\ st4 j = Some ER).
Proof.
  intros Hr Hgs Hg' Hother HV Hidx HS HF Hfull Hlt Hne Hst1. pose proof ac_i as Hi. destruct ac_r as (Hrr & Hrx' & _).
  pose proof (sigma_pos gi ltac:(lia)). pose proof (sigma_bound gi ltac:(lia)). pose proof (rd_range vt (22 + gi) ltac:(lia)) as Hrv.
  fold (sigma gi) in Hrv. assert (Hgt : qfq_gt (g_S g') (V q3) = (vt <? r)) by (rewrite HS, HV; apply gt_spec; lia).
  destruct Hst1 as [Hnone|[Heb Heb1]].
  - destruct (place_group q3 st1 gi g' Hr Hgs Hg' Hidx Hi Hnone) as (s & b & Es & Eb & Hr4 & Hodd & Hbl & _).
    eexists s, b, _. split; [done|]. split; [done|]. split; [exact Hr4|]. split; [by rewrite Hodd|]. cbv beta.
    split; [by rewrite bool_decide_eq_true_2|]. split; [|exact Hbl]. intros j Hj. rewrite bool_decide_eq_false_2 by done. by apply Hne.
  - destruct (ac_busy Hfull) as (_ & _ & _ & _ & s & Hst' & Hodd). rewrite Heb in Hst'. injection Hst' as <-.
    symmetry in Hodd. apply Z.ltb_ge in Hodd. destruct Hblock as [?|(j & next & Hlow & Hn & HFn & _)]; [lia|].
    pose proof Hlow as (Hj & Ej & Hjl). assert (Hjne : j <> gi) by (intros ->; by rewrite Heb in Ej).
    assert (Hlow1 : lowest_er st1 gi j).
    { split; [done|]. split; [by rewrite Hne|]. intros k Hk. destruct (decide (k = gi)) as [->|]; [by rewrite Heb1|]. rewrite Hne by done. by apply Hjl. }
    destruct (calc_state_spec q3 st1 gi g' Hr Hg' Hidx ltac:(lia) (proj2 Hgs)) as (s & Es & [[Hno _]|(j' & next' & Hlow' & Hn' & Hs)]).
    { exfalso. apply (Hno j); [lia|]. by rewrite Hne. }
    assert (j' = j) as -> by (by eapply lowest_er_uniq). rewrite Hother in Hn' by done. assert (next' = next) as -> by congruence.
    rewrite Hgt, HF, HFn, u64_add_l, gt_spec in Hs by lia. rewrite (proj2 (Z.ltb_ge vt r)), (proj2 (Z.ltb_lt x _)) in Hs by lia.
    simpl in Hs. subst s. destruct (set_rep (bitmaps q3) st1 EB gi Hr) as (b & Eb & Hr4); [unfold EB; lia|done|by right|].
    eexists EB, b, _. split; [done|]. split; [exact Eb|]. split; [exact Hr4|]. split; [symmetry; apply Z.ltb_ge; lia|]. cbv beta.
    split; [by rewrite bool_decide_eq_true_2|]. split.
    + intros k Hk. rewrite bool_decide_eq_false_2 by done. by apply Hne.
    + intros _. exists j. split; [lia|]. rewrite bool_decide_eq_false_2 by done. by rewrite Hne.
Qed.

Lemma ac_rotate :
  full_slots g <> 0 -> x < near vt (g_S g) ->
  exists q4 st4,
    (grp ← qfq_slot_rotate g (u64 r);
     let q := set_grp gi grp q2 in
     ir ← __clear_bit (g_index grp) (bitmap q IR);
     let q := set_bitmap IR ir q in
     ib ← __clear_bit (g_index grp) (bitmap q IB);
     update_times (set_bitmap IB ib q) gi c (u64 r)) = Some q4 /\
    qfq_inv q4 vt st4 /\ classes q4 = <[c := c2]> (classes q).
Proof.
  intros Hfull Hlt. pose proof ac_i as Hi. destruct ac_ok as (Hok & Hnone & Hot), ac_r as (Hr & Hrx' & [b Hb]).
  pose proof (ac_not_er Hfull Hlt) as Hner. destruct (ac_busy Hfull) as (Hs & [a Ha] & HS & Ht & s0 & Hst & Hodd0). set (t := near vt (g_S g)) in *.
  pose proof (sigma_pos gi ltac:(lia)) as Hsp. pose proof (sigma_bound gi ltac:(lia)). pose proof (rd_range vt (22 + gi) ltac:(lia)) as Hrv. fold (sigma gi) in Hrv.
  set (d := a - b). assert (Hd : r = t - d * sigma gi) by (unfold d; lia). assert (Hd29 : 1 <= d <= 29) by nia.
  assert (Hrd : u64 r = u64 (g_S g - d * sigma gi)) by (by rewrite HS, u64_sub_l, Hd).
  destruct (slots_ok_other (classes q) c c2 gi g Hok ac_new) as [Hp _ _].
  destruct (rotate_spec (<[c := c2]> (classes q)) gi g d (u64 (u64 r + 2 * sigma gi)) Hp) as (g1 & Erot & Hsh1 & Hidx1 & Hp1 & Hsl1).
  { lia. } { intros k Hk Hk'. specialize (Hot k Hk Hk'). fold t in Hot. nia. }
  rewrite <- Hrd in Erot, Hp1, Hsl1. rewrite Erot. cbn [mbind option_bind]. cbv zeta. set (g' := set_times (u64 r) _ g1) in *.
  rewrite Hidx1, (sp_index _ _ _ (so_pre _ _ _ Hok)).
  destruct (ac_clear (bitmaps q2) (inv_bits _ _ _ Hv) Hner) as (ir & ib & st1 & Eir & Eib & Hr1 & Hne1 & Hst1).
  change (bitmap (set_grp gi g1 q2) IR) with (bitmaps q2 !!! Z.to_nat IR). rewrite Eir. cbn [mbind option_bind].
  change (bitmap (set_bitmap IR ir (set_grp gi g1 q2)) IB) with (<[Z.to_nat IR := ir]> (bitmaps q2) !!! Z.to_nat IB). rewrite Eib.
  cbn [mbind option_bind]. set (qa := set_bitmap IB ib (set_bitmap IR ir (set_grp gi g1 q2))).
  assert (Hgs : groups_ok qa) by (destruct (groups_ok_set q2 gi g1 ac_groups Hi); by split).
  assert (Hga : grp_at qa gi = Some g1) by (apply (grp_at_set_eq q2 gi g1); [done|apply ac_groups]).
  assert (Hothera : forall j, j <> gi -> grp_at qa j = grp_at q j).
  { intros j Hj. change (grp_at (set_grp gi g1 q2) j = grp_at q j). by rewrite grp_at_set_ne by lia. }
  assert (Hpre : g_index g1 = gi /\ slot_shift g1 = 22 + gi) by (rewrite Hidx1, Hsh1; split; apply Hok).
  destruct (ac_place (set_grp gi g' qa) g' st1) as (s & bb & st4 & Es & Eb & Hr4 & Hodd & Hst4 & Hne4 & Hbl); try done.
  { by apply groups_ok_set. } { apply grp_at_set_eq; [done|apply Hgs]. } { intros j Hj. rewrite grp_at_set_ne by lia. by apply Hothera. }
  { apply (inv_V _ _ _ Hv). } { apply Hpre. }
  destruct (update_times_spec qa gi g1 c c2 r s bb) as (g4 & E & Hok4 & HS4 & Hf4 & Hsl4); try done; try apply Hpre.
  { apply Hgs. } { change (classes qa) with (classes q2). rewrite ac_cls. exact Hp1. }
  { intros k Hk. fold g'. rewrite Hsl1 by done. case_bool_decide; [apply ac_new; lia|by intros ?%elem_of_nil]. }
  { simpl. by rewrite lookup_insert_eq. } { simpl. by rewrite Edq. } { apply ac_round. }
  fold g' in Hsl4. set (q4 := set_grp gi g4 (set_bitmap s bb qa)) in *.
  assert (Hg4 : grp_at q4 gi = Some g4) by (apply grp_at_set_eq; [done|apply Hgs]).
  assert (Hother : forall j, j <> gi -> grp_at q4 j = grp_at q j) by (intros j Hj; unfold q4; rewrite grp_at_set_ne by lia; by apply Hothera).
  exists q4, st4. split; [exact E|]. split; [|apply ac_cls].
  eapply (enqueue_inv q q4 vt vt st st4 gi c c0 c2 g4 r s); try done.
  - apply (inv_V _ _ _ Hv).
  - simpl. rewrite length_insert. apply Hgs.
  - apply ac_cls.
  - rewrite HS4. apply near_uniq; [by rewrite u64_idemp|lia].
  - intros k Hk. rewrite Hsl4 by done. destruct (decide (k = 0)) as [->|Hk0]; [intros _; lia|].
    rewrite bool_decide_eq_false_2, Hsl1 by done. case_bool_decide; [|done]. intros Hk'. specialize (Hot (k - d) ltac:(lia) Hk'). fold t in Hot. lia.
  - by left.
  - by apply blocked_update.
  - intros i s' _. destruct (st_ready _ _ _ (inv_states _ _ _ Hv) gi s0 Hst) as [j Hj]. exists j. rewrite Hne4; [done|congruence].
  - eapply (ac_queued q4 g4 0); [apply ac_cls|done|done|lia|rewrite Hsl4 by lia; by left|].
    intros k c' Hk Hin. assert (Hkd : k + d <= 30).
    { destruct (sl g k) as [|y ys] eqn:Ek; [by apply elem_of_nil in Hin|]. specialize (Hot k Hk ltac:(by rewrite Ek)). fold t in Hot. nia. }
    exists (k + d). split; [lia|]. rewrite Hsl4, bool_decide_eq_false_2, Hsl1, bool_decide_eq_true_2 by lia. by replace (k + d - d) with k by lia.
Qed.

Lemma qfq_activate_spec :
  exists q4 vt' st4, activate (set_queued n (set_class c (set_cl_q dq c0) q)) c m = Some q4 /\ qfq_inv q4 vt' st4 /\
    classes q4 = <[c := c2]> (classes q).
Proof.
  pose proof ac_i as Hi. destruct (Z.eqb_spec (full_slots g) 0) as [E|E].
  - destruct (ac_idle E) as (q4 & vt' & st4 & E4 & Hinv & Hcls). exists q4, vt', st4. split; [|done].
    apply ac_activate. by rewrite E.
  - destruct ac_ok as [Hok _]. destruct (ac_busy E) as (_ & _ & HS & Ht & _). pose proof (sigma_bound gi ltac:(lia)).
    pose proof (sigma_pos gi ltac:(lia)). pose proof (rd_range vt (22 + gi) ltac:(lia)) as Hrv. fold (sigma gi) in Hrv.
    assert (Hgt : qfq_gt (g_S g) (u64 x) = (x <? near vt (g_S g))) by (rewrite HS at 1; apply gt_spec; lia).
    destruct (Z.lt_ge_cases x (near vt (g_S g))) as [Hlt|Hge].
    + destruct (ac_rotate E Hlt) as (q4 & st4 & E4 & Hinv & Hcls). exists q4, vt, st4. split; [|done].
      apply ac_activate. by rewrite (proj2 (Z.eqb_neq _ _) E), Hgt, (proj2 (Z.ltb_lt _ _) Hlt).
    + destruct (ac_insert E Hge) as (q4 & E4 & Hinv & Hcls). exists q4, vt, st. split; [|done].
      apply ac_activate. by rewrite (proj2 (Z.eqb_neq _ _) E), Hgt, (proj2 (Z.ltb_ge _ _) Hge).
Qed.

End activate.

(** ** Enqueueing *)

(** Neither the start time that the class would get nor its group is more than
    28 slots behind the virtual time. *)
Definition late_ok (q : qfq_sched) (cl : qfq_class) : Prop :=
  match cl_grp cl with
  | Some gi =>
      match grp_at q gi, qfq_update_start q cl with
      | Some g, Some s => - 28 * sigma gi <= s64 (s - V q) /\ (full_slots g <> 0 -> - 28 * sigma gi <= s64 (g_S g - V q))
      | _, _ => False
      end
  | None => False
  end.

(** The packets that may be enqueued. *)
Definition qfq_accepts (q : qfq_sched) (m : mbuf) : Prop :=
  lag_ok q /\ exists cl, classes q !! FI2Q (m_flow m) = Some cl /\ is_Some (cl_grp cl) /\ 0 <= m_len m <= cl_lmax cl /\
    Forall (fun m' => m_addr m' <> m_addr m) (q_pkts (cl_q cl)) /\ (q_pkts (cl_q cl) = [] -> late_ok q cl).

(** Only the queue of a class changes, and not its first packet. *)
Lemma inv_requeue q vt st c cl dq l n :
  qfq_inv q vt st -> classes q !! c = Some cl -> dnq_ok dq -> q_pkts dq = q_pkts (cl_q cl) ++ l ->
  (q_pkts (cl_q cl) = [] -> l = []) -> Forall (fun m => 0 <= m_len m <= cl_lmax cl) l ->
  qfq_inv (set_queued n (set_class c (set_cl_q dq cl) q)) vt st.
Proof.
  intros Hv Ec Hdq Epk Hl Hlen. set (q' := set_queued n (set_class c (set_cl_q dq cl) q)).
  assert (Hcls : forall a x, classes q' !! a = Some x ->
    exists x0, classes q !! a = Some x0 /\ cl_grp x = cl_grp x0 /\ cl_S x = cl_S x0 /\ (q_pkts (cl_q x) = [] <-> q_pkts (cl_q x0) = [])).
  { intros a x. change (classes q') with (<[c := set_cl_q dq cl]> (classes q)). destruct (decide (a = c)) as [->|Hne].
    - rewrite lookup_insert_eq. intros [= <-]. exists cl. split; [done|]. split; [done|]. split; [done|]. simpl. rewrite Epk.
      destruct (q_pkts (cl_q cl)) eqn:E; [by rewrite Hl|done].
    - rewrite lookup_insert_ne by done. intros Ea. by exists x. }
  destruct Hv as [HV Hiw Hlen' Hb Hg Hs Hc]. constructor; try done.
  - intros i Hi. destruct (Hg i Hi) as (g & Hgi & Hok & Hrest). exists g. split; [done|]. split; [|done].
    eapply slots_ok_classes; [exact Hok|]. intros k a x0 Hk Hin Ea.
    destruct (sp_member _ _ _ (so_pre _ _ _ Hok) k a Hk Hin) as (x1 & Ea1 & _ & Hne & _). assert (x1 = x0) as -> by congruence.
    destruct (decide (a = c)) as [->|Hne'].
    + exists (set_cl_q dq cl). assert (x0 = cl) as -> by congruence. simpl. rewrite lookup_insert_eq. split_and!; try done.
      rewrite Epk. by destruct (q_pkts (cl_q cl)).
    + exists x0. simpl. by rewrite lookup_insert_ne.
  - intros a x Ea. destruct (Hcls a x Ea) as (x0 & Ea0 & Hgr & HS & Hpk). destruct (Hc a x0 Ea0) as [Hok Hin]. split.
    + simpl in Ea. destruct (decide (a = c)) as [->|Hne]; [rewrite lookup_insert_eq in Ea|by rewrite lookup_insert_ne in Ea; [congruence|done] ].
      injection Ea as <-. assert (x0 = cl) as -> by congruence. destruct Hok as [H1 H2 H3 H4 H5 H6 H7 H8]. constructor; simpl; try done.
      * rewrite Epk. by apply list.Forall_app.
      * intros m r E. rewrite Epk in E. destruct (q_pkts (cl_q cl)) as [|m0 r0] eqn:E0; [rewrite Hl in E by done; done|].
        injection E as <- _. by eapply H8.
    + intros Hp. rewrite Hpk in Hp. rewrite Hgr. by apply Hin.
Qed.

Lemma is_head_new q m : Forall (fun m' => m_addr m' <> m_addr m) (q_pkts q) -> is_head q m = false.
Proof.
  unfold is_head. destruct (q_pkts q) as [|h l]; [done|]. intros [Hh _]%list.Forall_cons. by apply Z.eqb_neq.
Qed.

Lemma qfq_enqueue_spec q vt st m :
  qfq_inv q vt st -> qfq_accepts q m ->
  exists ret q' vt' st' cl cl', qfq_enqueue q (FI2Q (m_flow m)) m = Some (ret, q') /\ qfq_inv q' vt' st' /\
    classes q !! FI2Q (m_flow m) = Some cl /\ classes q' = <[FI2Q (m_flow m) := cl']> (classes q) /\
    ((ret = 0 /\ Z.of_nat (length (q_pkts (cl_q cl))) < 20000 /\ q_pkts (cl_q cl') = q_pkts (cl_q cl) ++ [m]) \/
     (ret = 1 /\ Z.of_nat (length (q_pkts (cl_q cl))) = 20000 /\ q_pkts (cl_q cl') = q_pkts (cl_q cl))).
Proof.
  intros Hv (Hlag & cl & Ec & [gi Hcg] & Hm & Hnew & Hlate). set (c := FI2Q (m_flow m)) in *.
  pose proof (inv_inc_loops q vt st Hv) as Hv0. unfold qfq_enqueue. set (q0 := inc_loops q) in *.
  change (classes q) with (classes q0) in *. rewrite Ec. cbn [mbind option_bind]. destruct (inv_cls _ _ _ Hv0 c cl Ec) as [Hcl _].
  rewrite is_head_new by done. simpl negb. cbv iota. destruct (dn_enqueue (cl_q cl) m) as [ret dq] eqn:Edq.
  destruct (dn_enqueue_spec (cl_q cl) m (co_q _ Hcl)) as [(Hfull & Hret & Hpk & Hdq)|(Hfull & Hret & Hpk & Hdq)]; rewrite Edq in *; simpl in Hret, Hpk, Hdq; subst ret;
    rewrite (proj1 (co_q _ Hcl)) in Hfull.
  - simpl z2b. cbv iota. destruct (decide (q_pkts (cl_q cl) = [])) as [E0|E0].
    + assert (is_head dq m = true) as -> by (unfold is_head; rewrite Hpk, E0; simpl; apply Z.eqb_refl). simpl negb. cbv iota.
      destruct (co_grp _ Hcl gi Hcg) as [Hi _]. destruct (inv_grp _ _ _ Hv0 gi Hi) as (g & Hg & _).
      destruct (update_start_spec q0 vt st cl gi g Hv0 Hlag Hcg Hg Hi (co_F _ Hcl)) as (x & Hst & Hx & Hrx & Hblock).
      specialize (Hlate E0). unfold late_ok in Hlate. rewrite Hcg in Hlate. change (grp_at q gi) with (grp_at q0 gi) in Hlate.
      change (qfq_update_start q cl) with (qfq_update_start q0 cl) in Hlate. change (V q) with (V q0) in Hlate.
      rewrite Hg, Hst, (inv_V _ _ _ Hv0), !near_V in Hlate. destruct Hlate as [Hl1 Hl2].
      assert (Hxr : vt - 2 ^ 61 <= x) by (destruct Hblock as [?|(j & nx & _ & _ & _ & ? & _)]; lia).
      rewrite (near_uniq vt (u64 x) x) in Hl1 by (apply u64_idemp || lia).
      destruct (qfq_activate_spec q0 vt st c cl dq m (u32 (queued q0 + 1)) gi x g) as (q4 & vt' & st4 & E4 & Hinv & Hcls); try done.
      { by rewrite Hpk, E0. } { lia. } { intros Hf. specialize (Hl2 Hf). lia. }
      eexists 0, q4, vt', st4, cl, _. change (queued (set_class c (set_cl_q dq cl) q0)) with (queued q0). rewrite E4. cbn [mbind option_bind].
      split; [done|]. split; [exact Hinv|]. split; [done|]. split; [exact Hcls|]. left. split; [done|]. split; [done|]. simpl. exact Hpk.
    + assert (is_head dq m = false) as ->.
      { unfold is_head. rewrite Hpk. destruct (q_pkts (cl_q cl)) as [|h l]; [done|]. apply list.Forall_cons in Hnew as [Hh _]. by apply Z.eqb_neq. }
      eexists 0, _, vt, st, cl, _. split; [done|]. split; [|split; [done|split; [done|left; split; [done|split; [done|exact Hpk] ] ] ] ].
      eapply (inv_requeue q0 vt st c cl dq [m]); try done. by apply Forall_singleton.
  - eexists 1, _, vt, st, cl, _. split; [done|]. split; [|split; [done|split; [done|right; split; [done|split; [done|exact Hpk] ] ] ] ].
    pose proof (inv_requeue q0 vt st c cl dq [] (queued q0) Hv0 Ec Hdq) as H'. rewrite app_nil_r in H'. apply H'; (done || by constructor).
Qed.

(** ** QFQ keeps the contract of a scheduler *)

Definition qfq_pkts (q : qfq_sched) : list mbuf := gather (fun cl => q_pkts (cl_q cl)) (classes q).

Lemma qfq_pkts_change q q' c cl cl' :
  classes q !! c = Some cl -> classes q' = <[c := cl']> (classes q) ->
  exists rest, qfq_pkts q ≡ₚ q_pkts (cl_q cl) ++ rest /\ qfq_pkts q' ≡ₚ q_pkts (cl_q cl') ++ rest.
Proof.
  intros Ec E. unfold qfq_pkts. apply (gather_change (fun cl => q_pkts (cl_q cl)) (classes q) (classes q') c cl cl'); [done|by rewrite E, lookup_insert_eq|].
  intros a Ha. by rewrite E, lookup_insert_ne.
Qed.

#[export] Program Instance qfq_alg_ok : DnAlgOk (option qfq_sched) := {|
  alg_ok s := exists q vt st, s = Some q /\ qfq_inv q vt st;
  alg_pkts s := match s with Some q => qfq_pkts q | None => [] end;
  alg_accepts s m := match s with Some q => qfq_accepts q m | None => False end;
  alg_ready s := match s with Some q => lag_ok q | None => False end;
|}.
Next Obligation.
  intros s m ret s' (q & vt & st & -> & Hv) Hacc E. simpl in E.
  destruct (qfq_enqueue_spec q vt st m Hv Hacc) as (ret0 & q' & vt' & st' & cl & cl' & E' & Hv' & Ec & Hcls & Hpk).
  rewrite E' in E. injection E as <- <-. split; [by exists q', vt', st'|].
  destruct (qfq_pkts_change q q' _ cl cl' Ec Hcls) as (rest & H1 & H2). rewrite H1, H2.
  destruct Hpk as [(-> & _ & ->)|(-> & _ & ->)]; [left|right]; (split; [done|]); [|done].
  rewrite <- app_assoc. simpl. by rewrite <- Permutation_middle.
Qed.
Next Obligation.
  intros s o s' (q & vt & st & -> & Hv) Hlag E. simpl in E.
  destruct (qfq_dequeue_spec q vt st Hv Hlag) as [(q' & E' & Hv' & Hcls & Hnil)|
    (m & q' & vt' & st' & gi & g & c & rest & cl & cl' & E' & Hv' & _ & _ & _ & Ec & Hpk & Hcls & _)];
    rewrite E' in E; injection E as <- <-.
  - split; [by exists q', vt, st|]. unfold qfq_pkts. rewrite Hcls. by rewrite (gather_nil _ _ Hnil).
  - split; [by exists q', vt', st'|]. destruct (qfq_pkts_change q q' c cl cl' Ec Hcls) as (l & H1 & H2). by rewrite H1, H2, Hpk.
Qed.

(** ** Configuration *)

Lemma calc_index_spec inv_w maxlen :
  0 <= inv_w <= 2 ^ 30 -> 0 <= maxlen <= 2000 ->
  let i := qfq_calc_index inv_w maxlen in
  0 <= i <= 19 /\ maxlen * inv_w <= sigma i /\ forall j, 0 <= j < i -> sigma j < maxlen * inv_w.
Proof.
  intros Hw Hl. unfold qfq_calc_index. change QFQ_MIN_SLOT_SHIFT with 22. set (L := maxlen * inv_w).
  assert (HL : 0 <= L < 2 ^ 41) by (unfold L; change (2 ^ 41) with (2048 * 2 ^ 30); nia).
  rewrite (u64_id L) by (unfold is_u64; lia). rewrite Z.shiftr_div_pow2 by lia. cbv zeta.
  set (x := L / 2 ^ 22). assert (Hx : 2 ^ 22 * x <= L < 2 ^ 22 * x + 2 ^ 22).
  { unfold x. pose proof (Z.div_mod L (2 ^ 22)). pose proof (Z.mod_pos_bound L (2 ^ 22)). lia. }
  destruct (Z.eqb_spec x 0) as [E|E]; [split; [lia|split; [unfold sigma; simpl; lia|lia] ]|].
  assert (Hx19 : 0 < x < 2 ^ 19) by lia. destruct (fls_low x) as [-> Hlog]; [rewrite u32_id; [done|unfold is_u32; lia]|].
  rewrite u32_id in * by (unfold is_u32; lia). set (l := Z.log2 x) in *.
  pose proof (Z.log2_spec x ltac:(lia)) as Hspec. fold l in Hspec. assert (l <= 18) by (apply Z.lt_succ_r, Z.log2_lt_pow2; lia).
  rewrite s32_id by lia. rewrite Z.shiftl_1_l. replace (l + 1 + 22 - 1) with (22 + l) by lia.
  assert (Hlo : 2 ^ (22 + l) <= L) by (rewrite Z.pow_add_r by lia; nia).
  assert (Hhi : L < 2 ^ (22 + (l + 1))).
  { rewrite Z.pow_add_r by lia. replace (l + 1) with (Z.succ l) by lia. nia. }
  assert (Hmono : forall j, 0 <= j < l -> sigma j < L).
  { intros j Hj. unfold sigma. pose proof (Z.pow_lt_mono_r 2 (22 + j) (22 + l)). lia. }
  destruct (Z.eqb_spec L (2 ^ (22 + l))) as [EL|EL]; simpl b2z.
  - rewrite (proj2 (Z.ltb_ge _ 0)) by lia. replace (l + 1 - 1) with l by lia. split; [lia|]. split; [unfold sigma; lia|done].
  - rewrite (proj2 (Z.ltb_ge _ 0)) by lia. rewrite Z.sub_0_r. split; [lia|]. split; [unfold sigma; lia|].
    intros j Hj. destruct (decide (j = l)) as [->|]; [unfold sigma; lia|]. apply Hmono. lia.
Qed.

(** A new instance. *)
Definition new_groups : list qfq_group := (fun i => mk_grp 0 0 (22 + i) i 0 0 (repeat [] 32)) <$> seqZ 0 20.

Lemma new_sched_eq cls : qfq_new_sched (qfq_zero cls) = mk_qfq 0 0 0 0 0 [0; 0; 0; 0] new_groups cls.
Proof. reflexivity. Qed.

Lemma new_groups_at cls i :
  0 <= i <= 19 -> grp_at (mk_qfq 0 0 0 0 0 [0; 0; 0; 0] new_groups cls) i = Some (mk_grp 0 0 (22 + i) i 0 0 (repeat [] 32)).
Proof.
  intros Hi. unfold grp_at. rewrite (proj2 (Z.ltb_ge i 0)) by lia. cbn [groups]. unfold new_groups. rewrite list_lookup_fmap.
  rewrite (lookup_seqZ_lt 0 20 (Z.to_nat i)) by lia. simpl. do 2 f_equal; lia.
Qed.

(** A class of an instance that has not been configured yet. *)
Definition class_zero : qfq_class := mk_cl dnq_zero 0 0 None 0 0.

Lemma class_zero_ok : class_ok class_zero.
Proof. constructor; simpl; try done; try (unfold is_u64; lia). Qed.

Lemma new_sched_inv cls :
  (forall c cl, cls !! c = Some cl -> cl = class_zero) -> qfq_inv (qfq_new_sched (qfq_zero cls)) 0 (fun _ => None).
Proof.
  intros Hcls. rewrite new_sched_eq. constructor; cbn [V iwsum groups bitmaps]; [done|lia|done|..].
  - split; [done|]. split; [done|]. intros i s Hi Hs. assert (s = 0 \/ s = 1 \/ s = 2 \/ s = 3) as H4 by lia.
    destruct H4 as [-> | [-> | [-> | ->] ] ]; apply Z.bits_0.
  - intros i Hi. rewrite new_groups_at by done. eexists. split; [reflexivity|].
    assert (Hsl : forall k, sl (mk_grp 0 0 (22 + i) i 0 0 (repeat [] 32)) k = []).
    { intros k. unfold sl, slot_at. cbn [slots]. destruct (repeat [] 32 !! _) as [l|] eqn:E; [|done].
      apply list_elem_of_lookup_2, list_elem_of_In in E. by apply repeat_spec in E. }
    split; [|split; [done|intros k _; by rewrite Hsl] ]. constructor; [|done..]. constructor; cbn [g_index slot_shift front g_S full_slots slots]; try done; try lia.
    + apply Z.divide_0_r.
    + intros k _. rewrite Z.bits_0, Hsl. done.
    + intros k c _. rewrite Hsl. by intros ?%elem_of_nil.
    + intros k _. rewrite Hsl. constructor.
  - constructor; [done| |done]. intros i [?|?]; done.
  - intros c cl Ec. apply Hcls in Ec as ->. split; [apply class_zero_ok|done].
Qed.

(** An idle class and the weights may change. *)
Lemma inv_reconfigure q vt st c cl cl' ws iw :
  qfq_inv q vt st -> classes q !! c = Some cl -> q_pkts (cl_q cl) = [] -> q_pkts (cl_q cl') = [] -> class_ok cl' -> 0 <= iw <= 2 ^ 30 ->
  qfq_inv (set_weights ws iw (set_class c cl' q)) vt st.
Proof.
  intros [HV Hiw Hlen Hb Hg Hs Hc] Ec Hq Hq' Hok Hiw'. constructor; try done.
  - intros i Hi. destruct (Hg i Hi) as (g & Hgi & Hsl & Hrest). exists g. split; [done|]. split; [|done]. apply slots_ok_other; [done|].
    intros k Hk Hin. apply (sp_member _ _ _ (so_pre _ _ _ Hsl)) in Hin as (x & Ex & _ & Hp & _); [|done]. congruence.
  - intros a x. simpl. destruct (decide (a = c)) as [->|Hne].
    + rewrite lookup_insert_eq. intros [= <-]. by rewrite Hq'.
    + rewrite lookup_insert_ne by done. apply Hc.
Qed.

(** The weight that a flow gets for the weight [w] that it asks for. *)
Definition granted (w : Z) : Z := ONE_FP / (ONE_FP / w).

Lemma granted_range w : 1 <= w <= QFQ_MAX_WEIGHT -> 1 <= ONE_FP / w <= 2 ^ 30 /\ w <= granted w < 2 * w.
Proof.
  intros Hw. unfold granted. change ONE_FP with (2 ^ 30). change QFQ_MAX_WEIGHT with 65536 in Hw.
  assert (Hq : 1 <= 2 ^ 30 / w <= 2 ^ 30).
  { split; [apply Z.div_le_lower_bound; lia|]. apply Z.div_le_upper_bound; [lia|]. nia. }
  split; [done|]. pose proof (Z.div_mod (2 ^ 30) w) as H1. pose proof (Z.mod_pos_bound (2 ^ 30) w) as H2. set (a := 2 ^ 30 / w) in *.
  split; [apply Z.div_le_lower_bound; nia|]. apply Z.div_lt_upper_bound; [lia|].
  nia.
Qed.

Lemma new_queue_spec q vt st c par0 par1 w l :
  qfq_inv q vt st -> 0 <= wsum q <= QFQ_MAX_WSUM -> classes q !! c = Some class_zero -> qfq_new_fsk par0 par1 = (w, l) ->
  exists ret q' cl, qfq_new_queue q c w l = Some (ret, q') /\ qfq_inv q' vt st /\ 0 <= wsum q' <= QFQ_MAX_WSUM /\
    classes q' = <[c := cl]> (classes q) /\ q_pkts (cl_q cl) = [] /\ groups q' = groups q /\ (cl_inv_w cl = ONE_FP / w /\ cl_lmax cl = l) /\
    ((ret = 0 /\ wsum q' = wsum q + granted w /\ cl_grp cl = Some (qfq_calc_index (ONE_FP / w) l) /\ wsum q + granted w <= QFQ_MAX_WSUM) \/
     (ret = EINVAL /\ QFQ_MAX_WSUM < wsum q + granted w /\ wsum q' = wsum q /\ cl_grp cl = None)).
Proof.
  intros Hv Hws Ec Hf. unfold qfq_new_fsk in Hf. injection Hf as Hw Hl.
  assert (Hw' : 1 <= w <= QFQ_MAX_WEIGHT) by (rewrite <- Hw; apply (ipdn_bound_var_spec par0 1 1 QFQ_MAX_WEIGHT); unfold QFQ_MAX_WEIGHT, QFQ_MAX_WSHIFT; lia).
  assert (Hl' : 1 <= l <= 2000) by (rewrite <- Hl; apply (ipdn_bound_var_spec par1 1500 1 2000); lia).
  clear Hw Hl. destruct (granted_range w Hw') as [Hinv Hgr]. change QFQ_MAX_WEIGHT with 65536 in *. change QFQ_MAX_WSUM with 131072 in *.
  unfold qfq_new_queue. rewrite Ec. cbn [mbind option_bind]. rewrite (u32_id w), (u32_id l) by (unfold is_u32; lia).
  change QFQ_MAX_WEIGHT with 65536. rewrite (proj2 (Z.eqb_neq w 0)), (proj2 (Z.ltb_ge 65536 w)) by lia. simpl orb. cbv iota zeta.
  rewrite (u32_id (ONE_FP / w)) by (unfold is_u32; lia). fold (granted w). rewrite (u32_id (granted w)), (u32_id (wsum q + granted w)) by (unfold is_u32; lia).
  change QFQ_MAX_WSUM with 131072.
  assert (Hz : forall g, (g = None \/ g = Some (qfq_calc_index (ONE_FP / w) l)) -> class_ok (mk_cl dnq_zero 0 0 g (ONE_FP / w) l)).
  { intros g Hg. destruct class_zero_ok. constructor; simpl in *; try (done || lia). intros i ->. destruct Hg as [?|[= ->] ]; [done|].
    destruct (calc_index_spec (ONE_FP / w) l) as (? & ? & _); [lia..|]. done. }
  destruct (Z.ltb_spec 131072 (wsum q + granted w)) as [Hbig|Hfit].
  - eexists EINVAL, _, _. split; [done|]. split; [|split; [done|split; [done|split; [done|split; [done|split; [done|right; done] ] ] ] ] ].
    change (set_class c ?x q) with (set_weights (wsum q) (iwsum q) (set_class c x q)).
    eapply inv_reconfigure; try done; [apply Hz; by left|apply (inv_iwsum _ _ _ Hv)].
  - assert (Hiw : 0 <= ONE_FP / (wsum q + granted w) <= 2 ^ 30).
    { split; [apply Z.div_pos; [done|lia]|]. apply Z.div_le_upper_bound; [lia|]. change ONE_FP with (2 ^ 30). nia. }
    rewrite (u32_id (ONE_FP / (wsum q + granted w))) by (unfold is_u32; lia).
    eexists 0, _, _. split; [done|]. split; [eapply inv_reconfigure; try done; apply Hz; by right|].
    split; [simpl; lia|]. split; [done|]. split; [done|]. split; [done|]. split; [done|]. left. split_and!; done.
Qed.

(** ** Theorems *)

(** The weight that a flow has in the scheduler: none if it was refused. *)
Definition held_weight (q : qfq_sched) (f : Z * (Z * Z)) : Z :=
  match classes q !! f.1 with
  | Some cl => match cl_grp cl with Some _ => granted (init_fsk f.2.1 f.2.2).1 | None => 0 end
  | None => 0
  end.
Definition held_weights (q : qfq_sched) (fs : list (Z * (Z * Z))) : Z := foldr Z.add 0 (held_weight q <$> fs).

(** The class of the flow with the parameters [p0] and [p1], the flows before it
    having the weight [ws] together: it has the parameters of the flow, bounded,
    and it is in a group exactly if its weight fits; that group is the one with
    the smallest index whose slots are as long as the longest packet over the
    weight. *)
Record flow_ok (ws p0 p1 : Z) (cl : qfq_class) : Prop := {
  fl_empty : q_pkts (cl_q cl) = [];
  fl_lmax : cl_lmax cl = (init_fsk p0 p1).2 /\ (1 <= p1 <= 2000 -> cl_lmax cl = p1);
  fl_inv_w : cl_inv_w cl = ONE_FP / (init_fsk p0 p1).1 /\ (1 <= p0 <= QFQ_MAX_WEIGHT -> cl_inv_w cl = ONE_FP / p0);
  fl_accepted : is_Some (cl_grp cl) <-> ws + granted (init_fsk p0 p1).1 <= QFQ_MAX_WSUM;
  fl_group : forall i, cl_grp cl = Some i ->
    cl_lmax cl * cl_inv_w cl <= sigma i /\ forall j, 0 <= j < i -> sigma j < cl_lmax cl * cl_inv_w cl;
}.

Lemma init_fsk_spec p0 p1 :
  let '(w, l) := init_fsk p0 p1 in
  1 <= w <= QFQ_MAX_WEIGHT /\ 1 <= l <= 2000 /\ (1 <= p0 <= QFQ_MAX_WEIGHT -> w = p0) /\ (1 <= p1 <= 2000 -> l = p1).
Proof.
  unfold init_fsk, qfq_new_fsk. set (p1' := if p1 =? 0 then 1000 else p1).
  pose proof (ipdn_bound_var_spec p0 1 1 QFQ_MAX_WEIGHT) as [Hp0 Hp0']; [unfold QFQ_MAX_WEIGHT, QFQ_MAX_WSHIFT; lia|].
  pose proof (ipdn_bound_var_spec p1' 1500 1 2000) as [Hp1 Hp1']; [lia|]. split; [exact Hp0|]. split; [exact Hp1|]. split; [exact Hp0'|].
  intros Hr. unfold p1' in *. rewrite (proj2 (Z.eqb_neq p1 0)) in * by lia. tauto.
Qed.

Lemma new_queue_flow q vt st c p0 p1 :
  qfq_inv q vt st -> 0 <= wsum q <= QFQ_MAX_WSUM -> classes q !! c = Some class_zero ->
  exists q' cl, init_queue (Some q) (c, (p0, p1)) = Some q' /\ qfq_inv q' vt st /\ 0 <= wsum q' <= QFQ_MAX_WSUM /\
    classes q' = <[c := cl]> (classes q) /\ flow_ok (wsum q) p0 p1 cl /\
    wsum q' = wsum q + match cl_grp cl with Some _ => granted (init_fsk p0 p1).1 | None => 0 end.
Proof.
  intros Hv Hw Hc. pose proof (init_fsk_spec p0 p1) as Hf. unfold init_queue. destruct (init_fsk p0 p1) as [w l] eqn:Ef.
  destruct Hf as (Hw' & Hl' & Hp0 & Hp1). pose proof Ef as Ef'. unfold init_fsk in Ef'.
  destruct (new_queue_spec q vt st c p0 (if p1 =? 0 then 1000 else p1) w l Hv Hw Hc Ef') as (ret & q1 & cl & E & Hv1 & Hw1 & Hcls & Hemp & _ & Hpar & Hcase).
  exists q1, cl. cbn [mbind option_bind]. rewrite E. split; [done|]. split; [done|]. split; [done|]. split; [done|].
  destruct (granted_range w Hw') as [Hinv _]. destruct Hpar as [Hiw Hlm].
  destruct Hcase as [(_ & Hs & Hg & Hfit)|(_ & Hbig & Hs & Hg)]; rewrite Hg; (split; [|rewrite Hs; simpl; lia]).
  - constructor; rewrite ?Ef; simpl; [done|split; [done|intros H; rewrite Hlm; tauto]|split; [done|intros H; rewrite Hiw, <- Hp0; tauto]| |].
    + rewrite Hg. split; [intros _; lia|by eexists].
    + intros i Hi. rewrite Hg in Hi. injection Hi as <-. rewrite Hiw, Hlm. destruct (calc_index_spec (ONE_FP / w) l) as (_ & ? & ?); [lia..|]. done.
  - constructor; rewrite ?Ef; simpl; [done|split; [done|intros H; rewrite Hlm; tauto]|split; [done|intros H; rewrite Hiw, <- Hp0; tauto]| |].
    + rewrite Hg. split; [by intros [? ?]|lia].
    + intros i Hi. congruence.
Qed.

Lemma init_queues_spec flows : forall q,
  NoDup flows.*1 -> qfq_inv q 0 (fun _ => None) -> 0 <= wsum q <= QFQ_MAX_WSUM -> Forall (fun c => classes q !! c = Some class_zero) flows.*1 ->
  exists q', init_queues q flows = Some q' /\ qfq_inv q' 0 (fun _ => None) /\ 0 <= wsum q' <= QFQ_MAX_WSUM /\
    wsum q' = wsum q + held_weights q' flows /\ (forall c, c ∉ flows.*1 -> classes q' !! c = classes q !! c) /\
    forall k c p0 p1, flows !! k = Some (c, (p0, p1)) ->
      exists cl, classes q' !! c = Some cl /\ flow_ok (wsum q + held_weights q' (take k flows)) p0 p1 cl.
Proof.
  induction flows as [|[c [p0 p1] ] flows IH]; intros q HN Hv Hw Hc; [exists q; split_and!; try done; unfold held_weights; simpl; lia|].
  apply list.NoDup_cons in HN as [Hnew HN]. apply list.Forall_cons in Hc as [Hc0 Hc].
  destruct (new_queue_flow q 0 (fun _ => None) c p0 p1 Hv Hw Hc0) as (q1 & cl & E & Hv1 & Hw1 & Hcls & Hfl & Hs).
  destruct (IH q1 HN Hv1 Hw1) as (q' & E' & Hv' & Hw' & Hs' & Hoth & Hall).
  { apply list.Forall_forall. intros a Ha. rewrite Hcls, lookup_insert_ne by (intros ->; done). by apply (proj1 (list.Forall_forall _ _) Hc). }
  assert (Ec : classes q' !! c = Some cl) by (rewrite Hoth, Hcls by done; apply lookup_insert_eq).
  assert (Hh : held_weight q' (c, (p0, p1)) = match cl_grp cl with Some _ => granted (init_fsk p0 p1).1 | None => 0 end).
  { unfold held_weight. cbn [fst snd]. by rewrite Ec. }
  exists q'. split_and!; try done; try lia.
  - change (init_queues q ((c, (p0, p1)) :: flows)) with (foldl init_queue (init_queue (Some q) (c, (p0, p1))) flows). by rewrite E.
  - unfold held_weights in *. cbn [fmap list_fmap foldr]. rewrite Hh. lia.
  - intros a [Ha Ha']%not_elem_of_cons. rewrite Hoth, Hcls by done. by apply lookup_insert_ne.
  - intros [|k] a x0 x1 Hk; simpl in Hk.
    + injection Hk as <- <- <-. exists cl. split; [done|]. unfold held_weights. simpl. by rewrite Z.add_0_r.
    + destruct (Hall k a x0 x1 Hk) as (cl1 & E1 & H1). exists cl1. split; [done|]. unfold held_weights in *. cbn [take fmap list_fmap foldr].
      rewrite Hh. rewrite Hs in H1. by rewrite Z.add_assoc.
Qed.

Lemma init_spec cls flows :
  (forall c cl, cls !! c = Some cl -> cl = class_zero) -> NoDup flows.*1 -> Forall (fun c => is_Some (cls !! c)) flows.*1 ->
  exists q, init_queues (qfq_new_sched (qfq_zero cls)) flows = Some q /\ qfq_inv q 0 (fun _ => None) /\
    wsum q = held_weights q flows /\ 0 <= wsum q <= QFQ_MAX_WSUM /\
    forall k c p0 p1, flows !! k = Some (c, (p0, p1)) ->
      exists cl, classes q !! c = Some cl /\ flow_ok (held_weights q (take k flows)) p0 p1 cl.
Proof.
  intros Hz HN Hall. pose proof (new_sched_inv cls Hz) as Hv0. rewrite new_sched_eq in *. set (q0 := mk_qfq _ _ _ _ _ _ _ _) in *.
  destruct (init_queues_spec flows q0) as (q & E & Hv & Hw & Hs & _ & Hf); try done.
  - eapply list.Forall_impl; [exact Hall|]. intros c [cl E]. cbn [classes q0]. simpl. rewrite E. f_equal. by apply (Hz c).
  - exists q. split; [done|]. split; [done|]. split; [exact Hs|]. split; [exact Hw|exact Hf].
Qed.

(** C26: The flows of a scheduler are configured (init of sched_main.c,
    qfq_new_fsk, qfq_new_queue): for any list of distinct flows with any
    parameters the invariant of QFQ holds.  Each flow gets the longest packet
    and the inverse weight of its parameters, these being taken as they are
    when they are in range (1 to QFQ_MAX_WEIGHT, 1 to 2000) and bounded
    otherwise.  A flow is accepted exactly if its weight, rounded as the code
    rounds it, and those of the flows accepted before it are at most
    QFQ_MAX_WSUM together, and then it is in the group with the smallest index
    whose slots are as long as its longest packet over its weight; otherwise it
    has no group.  The sum of the weights that the scheduler keeps is that of the
    accepted flows. *)
Theorem qfq_init_ok cls flows :
  (forall c cl, cls !! c = Some cl -> cl = class_zero) -> NoDup flows.*1 -> Forall (fun c => is_Some (cls !! c)) flows.*1 ->
  exists q, init_queues (qfq_new_sched (qfq_zero cls)) flows = Some q /\ qfq_inv q 0 (fun _ => None) /\
    wsum q = held_weights q flows /\ 0 <= wsum q <= QFQ_MAX_WSUM /\
    forall k c p0 p1, flows !! k = Some (c, (p0, p1)) ->
      exists cl, classes q !! c = Some cl /\ flow_ok (held_weights q (take k flows)) p0 p1 cl.
Proof. apply init_spec. Qed.

(** C24: Dequeueing from QFQ (qfq_dequeue) is always defined and keeps the invariant, and the virtual time does not go
    back.  Without packets nothing is returned.  With packets one is: the first packet of the first class in the front
    slot of the ready group with the lowest index, a group whose start time has come.  The hypothesis lag_ok bounds how
    far a group is behind the virtual time. *)
Theorem qfq_serves q vt st :
  qfq_inv q vt st -> lag_ok q ->
  exists o q' vt' st', qfq_dequeue q = Some (o, q') /\ qfq_inv q' vt' st' /\ vt <= vt' /\
    match o with
    | None => forall c cl, classes q !! c = Some cl -> q_pkts (cl_q cl) = []
    | Some m => exists gi g c rest cl cl', lowest_er st 0 gi /\ grp_at q gi = Some g /\ start q vt gi <= vt /\ sl g 0 = c :: rest /\
        classes q !! c = Some cl /\ q_pkts (cl_q cl) = m :: q_pkts (cl_q cl') /\ classes q' = <[c := cl']> (classes q)
    end.
Proof.
  intros Hv Hlag. destruct (qfq_dequeue_spec q vt st Hv Hlag) as [(q' & E & Hv' & Hcls & Hnil)|
    (m & q' & vt' & st' & gi & g & c & rest & cl & cl' & E & Hv' & Hlow & Hg & E0 & Ec & Hpk & Hcls & Hlater)].
  - exists None, q', vt, st. split_and!; try done.
  - exists (Some m), q', vt', st'. split; [done|]. split; [done|].
    assert (Hm : 0 <= m_len m).
    { destruct (inv_cls _ _ _ Hv c cl Ec) as [Hcl _]. pose proof (co_pkts _ Hcl) as Hp. rewrite Hpk in Hp. apply list.Forall_cons in Hp. lia. }
    pose proof (inv_iwsum _ _ _ Hv). split; [nia|]. exists gi, g, c, rest, cl, cl'. split_and!; try done.
    destruct Hlow as (_ & Hst & _). pose proof (st_elig _ _ _ (inv_states _ _ _ Hv) gi ER Hst) as He. symmetry in He. by apply Z.ltb_ge in He.
Qed.

(** C25: Enqueueing to QFQ (qfq_enqueue) is defined and keeps the invariant, for
    a packet that satisfies [qfq_accepts]: its flow was accepted by
    qfq_new_queue (the first packet of a refused flow dereferences a null
    pointer, [qfq_refused_flow]), it is not longer than the flow declared and
    not in the queue already, no group is more than 2^61 behind the virtual time
    ([lag_ok]), and, if the queue of the flow is empty, neither the start time
    that it gets nor its group is more than 28 slots behind the virtual time
    ([late_ok]).  The packet is appended to the queue of its flow when this has
    fewer than 20000 packets, and is dropped only when it has 20000; no other
    queue changes. *)
Theorem qfq_enqueues q vt st m :
  qfq_inv q vt st -> qfq_accepts q m ->
  exists ret q' vt' st' cl cl', qfq_enqueue q (FI2Q (m_flow m)) m = Some (ret, q') /\ qfq_inv q' vt' st' /\
    classes q !! FI2Q (m_flow m) = Some cl /\ classes q' = <[FI2Q (m_flow m) := cl']> (classes q) /\
    ((ret = 0 /\ Z.of_nat (length (q_pkts (cl_q cl))) < 20000 /\ q_pkts (cl_q cl') = q_pkts (cl_q cl) ++ [m]) \/
     (ret = 1 /\ Z.of_nat (length (q_pkts (cl_q cl))) = 20000 /\ q_pkts (cl_q cl') = q_pkts (cl_q cl))).
Proof. apply qfq_enqueue_spec. Qed.

(** A flow that qfq_new_queue refuses, because the sum of the weights would exceed QFQ_MAX_WSUM, has no group; init
    of sched_main.c does not look at the result, and the first packet of the flow dereferences a null pointer. *)
Theorem qfq_refused_flow q c w l q' m :
  classes q !! c = Some class_zero -> qfq_new_queue q c w l = Some (EINVAL, q') -> qfq_enqueue q' c m = None.
Proof.
  intros Ec. unfold qfq_new_queue. rewrite Ec. cbn [mbind option_bind]. cbv zeta.
  match goal with |- context [QFQ_MAX_WSUM <? ?e] => destruct (QFQ_MAX_WSUM <? e) end; [intros [= <-]|by intros [= ?] ].
  unfold qfq_enqueue. simpl classes. rewrite lookup_insert_eq. cbn [mbind option_bind]. simpl.
  unfold is_head. cbn [q_pkts]. rewrite Z.eqb_refl. simpl negb. cbv iota. unfold activate. simpl classes. rewrite lookup_insert_eq. done.
Qed.

(** A bitmap with bit 31 set by [__set_bit] has all the bits from 31 to 63. *)
Lemma set_bit_31 p : exists p', __set_bit 31 p = Some p' /\ forall n, 31 <= n < 64 -> Z.testbit p' n = true.
Proof.
  exists (Z.lor p (Z.shiftl (Z.ones 33) 31)). split; [reflexivity|]. intros n Hn. rewrite Z.lor_spec, orb_true_iff. right.
  rewrite Z.shiftl_spec by lia. apply Z.ones_spec_low. lia.
Qed.

(** ** A packet that is longer than its flow declared *)

(** A flow with a maximum length of 1000 bytes sends a packet of 32000 bytes
    and one of 1000; both are dequeued. *)
Definition after_long : option qfq_sched :=
  q ← init_queues (qfq_new_sched (qfq_zero {[1 := class_zero]})) [(1, (1, 1000))];
  '(_, q) ← qfq_enqueue q 1 (mk_mbuf 100 32000 0);
  '(_, q) ← qfq_enqueue q 1 (mk_mbuf 101 1000 0);
  '(_, q) ← qfq_dequeue q;
  '(_, q) ← qfq_dequeue q;
  Some q.

Definition enqueue_all (q : qfq_sched) (ms : list mbuf) : option qfq_sched :=
  foldl (fun s m => q ← s; snd <$> qfq_enqueue q (FI2Q (m_flow m)) m) (Some q) ms.

(** The state that is left: the group is in no bitmap, but its bitmap of slots
    is not empty. *)
Definition stuck_grp : qfq_group := mk_grp 34084860461056 36283883716608 40 18 0 4294967295 (repeat [] 32).
Definition stuck_cl : qfq_class := mk_cl (mk_dnq [] 0 4294934296 33000 2 0) 35433480192000 35433480192000 (Some 18) 1073741824 1000.
Definition stuck_q : qfq_sched :=
  mk_qfq 35433480192000 1 1073741824 0 4 [0; 0; 0; 0] (<[18%nat := stuck_grp]> new_groups) {[1 := stuck_cl]}.

Lemma after_long_stuck : after_long = Some stuck_q.
Proof. vm_compute. reflexivity. Qed.

(** Nothing is ready and a packet waits. *)
Definition waiting (m : mbuf) (q : qfq_sched) : Prop :=
  bitmaps q = [0; 0; 0; 0] /\ exists cl l, classes q !! 1 = Some cl /\ q_pkts (cl_q cl) = m :: l.

Lemma stuck_first m : m_flow m = 0 -> exists q, qfq_enqueue stuck_q 1 m = Some (0, q) /\ waiting m q.
Proof.
  intros Hm. unfold qfq_enqueue. change (classes (inc_loops stuck_q) !! 1) with (Some stuck_cl). cbn [mbind option_bind].
  change (is_head (cl_q stuck_cl) m) with false. simpl negb. cbv iota.
  set (dq := mk_dnq [m] 1 4294934296 (u64 (33000 + m_len m)) 3 0). change (dn_enqueue (cl_q stuck_cl) m) with (0, dq). simpl z2b. cbv iota beta.
  assert (is_head dq m = true) as -> by (simpl; apply Z.eqb_refl). simpl negb. cbv iota. unfold activate. set (q1 := set_queued _ _).
  assert (E1 : classes q1 !! 1 = Some (set_cl_q dq stuck_cl)) by (unfold q1; simpl classes; apply lookup_insert_eq).
  rewrite E1. cbn [mbind option_bind].
  change (qfq_update_start q1 (set_cl_q dq stuck_cl)) with (qfq_update_start stuck_q stuck_cl).
  assert (qfq_update_start stuck_q stuck_cl = Some 35433480192000) as -> by (vm_compute; reflexivity). cbn [mbind option_bind]. cbv zeta.
  set (c2 := set_cl_F _ _). change (cl_grp c2) with (Some 18). cbn [mbind option_bind].
  change (grp_at (set_class 1 c2 q1) 18) with (Some stuck_grp). cbn [mbind option_bind].
  change (full_slots stuck_grp =? 0) with false. change (cl_S c2) with 35433480192000.
  assert (qfq_gt (g_S stuck_grp) 35433480192000 = false) as -> by (vm_compute; reflexivity). simpl negb. cbv iota.
  unfold skip_update. change (grp_at (set_class 1 c2 q1) 18) with (Some stuck_grp). cbn [mbind option_bind].
  destruct (qfq_slot_insert stuck_grp 1 (qfq_round_down 35433480192000 (slot_shift stuck_grp))) as [g|] eqn:Eg; [|vm_compute in Eg; discriminate].
  cbn [mbind option_bind]. eexists. split; [done|]. split; [done|]. exists c2, []. split; [|done].
  simpl classes. apply lookup_insert_eq.
Qed.

Lemma waiting_enqueue m m' q :
  waiting m q -> m_flow m' = 0 -> m_addr m' <> m_addr m -> exists ret q', qfq_enqueue q 1 m' = Some (ret, q') /\ waiting m q'.
Proof.
  intros (Hb & cl & l & Ec & Hpk) Hf Ha. unfold qfq_enqueue. change (classes (inc_loops q)) with (classes q). rewrite Ec. cbn [mbind option_bind].
  assert (Hh : forall dq r, q_pkts dq = m :: r -> is_head dq m' = false) by (intros dq r E; unfold is_head; rewrite E; apply Z.eqb_neq; congruence).
  rewrite (Hh (cl_q cl) l) by done. simpl negb. cbv iota. unfold dn_enqueue. destruct (20000 <=? ni_length (cl_q cl)); cbv iota beta; simpl z2b; cbv iota.
  - eexists 1, _. split; [done|]. split; [done|]. eexists _, l. simpl classes. rewrite lookup_insert_eq. split; [done|]. by simpl.
  - set (dq := mk_dnq _ _ _ _ _ _). rewrite (Hh dq (l ++ [m'])) by (simpl; by rewrite Hpk). simpl negb. cbv iota.
    eexists 0, _. split; [done|]. split; [done|]. eexists _, (l ++ [m']). simpl classes. rewrite lookup_insert_eq. split; [done|]. simpl. by rewrite Hpk.
Qed.

(** A flow that sends one packet longer than the maximum it declared (31 times the slot of its group or more) is
    not served any more, in spite of the packets that it sends afterwards: bit 31 of full_slots is set through an int
    and brings bits 32 to 63 along (set_bit_31), so that the group looks backlogged when it is empty and is not put
    among the ready groups again. *)
Theorem qfq_long_packet_stalls m ms :
  m_flow m = 0 -> Forall (fun m' => m_flow m' = 0 /\ m_addr m' <> m_addr m) ms ->
  exists q0 q, after_long = Some q0 /\ enqueue_all q0 (m :: ms) = Some q /\
    (exists cl l, classes q !! 1 = Some cl /\ q_pkts (cl_q cl) = m :: l) /\ qfq_dequeue q = Some (None, inc_loops q).
Proof.
  intros Hm Hms. exists stuck_q. destruct (stuck_first m Hm) as (q1 & E1 & Hw).
  assert (Hgen : forall q, waiting m q -> exists q', enqueue_all q ms = Some q' /\ waiting m q').
  { clear E1 Hw. induction ms as [|m' ms' IH]; intros q Hw; [by exists q|]. apply list.Forall_cons in Hms as [[Hf Ha] Hms].
    destruct (waiting_enqueue m m' q Hw Hf Ha) as (ret & q' & E & Hw'). destruct (IH Hms q' Hw') as (q2 & E2 & Hw2).
    exists q2. split; [|done]. unfold enqueue_all. simpl foldl. rewrite Hf. change (FI2Q 0) with 1. by rewrite E. }
  destruct (Hgen q1 Hw) as (q' & E' & Hb & Hpk). exists q'. split; [apply after_long_stuck|]. split; [|split; [done|]].
  - unfold enqueue_all. simpl foldl. rewrite Hm. change (FI2Q 0) with 1. by rewrite E1.
  - unfold qfq_dequeue, bitmap. simpl bitmaps. rewrite Hb. done.
Qed.

Lemma qfq_long_packet_stalls_witness :
  exists q0 q, after_long = Some q0 /\ enqueue_all q0 [mk_mbuf 102 1000 0; mk_mbuf 103 60 0] = Some q /\
    (exists cl l, classes q !! 1 = Some cl /\ q_pkts (cl_q cl) = mk_mbuf 102 1000 0 :: l) /\ qfq_dequeue q = Some (None, inc_loops q).
Proof.
  apply (qfq_long_packet_stalls (mk_mbuf 102 1000 0) [mk_mbuf 103 60 0]); [reflexivity|].
  constructor; [split; [reflexivity|discriminate]|constructor].
Defined.

(** ** Witnesses *)

(** Two flows and three packets. *)
Definition wit_flows : list (Z * (Z * Z)) := [(1, (1, 1000)); (2, (10, 1500))].
Definition wit_cls : gmap Z qfq_class := {[1 := class_zero; 2 := class_zero]}.
Definition wit_q : option qfq_sched :=
  q ← init_queues (qfq_new_sched (qfq_zero wit_cls)) wit_flows;
  '(_, q) ← qfq_enqueue q 1 (mk_mbuf 100 1000 0);
  '(_, q) ← qfq_enqueue q 2 (mk_mbuf 101 1500 1);
  Some q.

Lemma wit_cls_zero c cl : wit_cls !! c = Some cl -> cl = class_zero.
Proof.
  unfold wit_cls. intros [[_ E]|[_ E] ]%lookup_insert_Some; [congruence|]. apply lookup_singleton_Some in E as [_ <-]. done.
Qed.

Lemma qfq_init_ok_witness :
  exists q, init_queues (qfq_new_sched (qfq_zero wit_cls)) wit_flows = Some q /\ wsum q = held_weights q wit_flows /\
    forall k c p0 p1, wit_flows !! k = Some (c, (p0, p1)) ->
      exists cl, classes q !! c = Some cl /\ flow_ok (held_weights q (take k wit_flows)) p0 p1 cl.
Proof.
  destruct (qfq_init_ok wit_cls wit_flows) as (q & E & _ & Hs & _ & Hf).
  - exact wit_cls_zero.
  - apply (bool_decide_eq_true_1 _). vm_compute. reflexivity.
  - constructor; [eexists; reflexivity|constructor; [eexists; reflexivity|constructor] ].
  - exists q. exact (conj E (conj Hs Hf)).
Defined.

(** The conditions are decidable. *)
#[export] Instance late_ok_dec q cl : Decision (late_ok q cl).
Proof. unfold late_ok. repeat case_match; apply _. Defined.

Definition acceptsb (q : qfq_sched) (m : mbuf) : bool :=
  bool_decide (lag_ok q) &&
  match classes q !! FI2Q (m_flow m) with
  | Some cl =>
      bool_decide (is_Some (cl_grp cl)) && bool_decide (0 <= m_len m <= cl_lmax cl) &&
      bool_decide (Forall (fun m' => m_addr m' <> m_addr m) (q_pkts (cl_q cl))) && bool_decide (late_ok q cl)
  | None => false
  end.

Lemma acceptsb_ok q m : acceptsb q m = true -> qfq_accepts q m.
Proof.
  unfold acceptsb. destruct (classes q !! FI2Q (m_flow m)) as [cl|] eqn:E; [|by rewrite andb_false_r].
  rewrite !andb_true_iff, !bool_decide_eq_true. intros (Hlag & ((Hg & Hm) & Hp) & Hl). split; [done|]. by exists cl.
Qed.

Lemma wit_inv : exists q0 q1 q2 vt1 st1 vt2 st2,
  qfq_inv q0 0 (fun _ => None) /\ qfq_accepts q0 (mk_mbuf 100 1000 0) /\
  qfq_enqueue q0 1 (mk_mbuf 100 1000 0) = Some (0, q1) /\ qfq_inv q1 vt1 st1 /\ qfq_accepts q1 (mk_mbuf 101 1500 1) /\
  qfq_enqueue q1 2 (mk_mbuf 101 1500 1) = Some (0, q2) /\ qfq_inv q2 vt2 st2 /\ lag_ok q2.
Proof.
  destruct (init_spec wit_cls wit_flows) as (q0 & E0 & Hv0 & _).
  { exact wit_cls_zero. } { apply (bool_decide_eq_true_1 _). vm_compute. reflexivity. }
  { constructor; [eexists; reflexivity|constructor; [eexists; reflexivity|constructor] ]. }
  assert (Hrun : exists b0 r1 b1 r2 b2, (q0 ← init_queues (qfq_new_sched (qfq_zero wit_cls)) wit_flows;
      '(r1, q1) ← qfq_enqueue q0 1 (mk_mbuf 100 1000 0); '(r2, q2) ← qfq_enqueue q1 2 (mk_mbuf 101 1500 1);
      Some (acceptsb q0 (mk_mbuf 100 1000 0), r1, acceptsb q1 (mk_mbuf 101 1500 1), r2, bool_decide (lag_ok q2))) = Some (b0, r1, b1, r2, b2) /\
      (b0, r1, b1, r2, b2) = (true, 0, true, 0, true)).
  { eexists _, _, _, _, _. split; [vm_compute; reflexivity|reflexivity]. }
  destruct Hrun as (b0 & r1 & b1 & r2 & b2 & Hrun & Hvals). rewrite E0 in Hrun. cbn [mbind option_bind] in Hrun. rewrite Hvals in Hrun. clear Hvals.
  destruct (qfq_enqueue q0 1 (mk_mbuf 100 1000 0)) as [[ret1 q1]|] eqn:E1; [cbn [mbind option_bind] in Hrun|done].
  destruct (qfq_enqueue q1 2 (mk_mbuf 101 1500 1)) as [[ret2 q2]|] eqn:E2; [cbn [mbind option_bind] in Hrun|done].
  injection Hrun as Ha0 -> Ha1 -> Hlag. apply acceptsb_ok in Ha0, Ha1. apply bool_decide_eq_true in Hlag.
  destruct (qfq_enqueue_spec q0 0 _ _ Hv0 Ha0) as (ret & q1' & vt1 & st1 & cl & cl' & E1' & Hv1 & _). change (FI2Q (m_flow (mk_mbuf 100 1000 0))) with 1 in E1'.
  rewrite E1 in E1'. injection E1' as <- <-.
  destruct (qfq_enqueue_spec q1 vt1 st1 _ Hv1 Ha1) as (ret & q2' & vt2 & st2 & cl1 & cl1' & E2' & Hv2 & _). change (FI2Q (m_flow (mk_mbuf 101 1500 1))) with 2 in E2'.
  rewrite E2 in E2'. injection E2' as <- <-.
  exists q0, q1, q2, vt1, st1, vt2, st2. split_and!; assumption.
Qed.

Lemma qfq_enqueues_witness :
  exists q vt st, qfq_inv q vt st /\ qfq_accepts q (mk_mbuf 101 1500 1) /\
    exists ret q' vt' st' cl cl', qfq_enqueue q 2 (mk_mbuf 101 1500 1) = Some (ret, q') /\ qfq_inv q' vt' st' /\
      classes q !! 2 = Some cl /\ classes q' = <[2 := cl']> (classes q) /\
      ((ret = 0 /\ Z.of_nat (length (q_pkts (cl_q cl))) < 20000 /\ q_pkts (cl_q cl') = q_pkts (cl_q cl) ++ [mk_mbuf 101 1500 1]) \/
       (ret = 1 /\ Z.of_nat (length (q_pkts (cl_q cl))) = 20000 /\ q_pkts (cl_q cl') = q_pkts (cl_q cl))).
Proof.
  destruct wit_inv as (q0 & q1 & q2 & vt1 & st1 & vt2 & st2 & _ & _ & _ & Hv1 & Ha1 & _).
  exists q1, vt1, st1. split; [exact Hv1|]. split; [exact Ha1|]. exact (qfq_enqueues q1 vt1 st1 (mk_mbuf 101 1500 1) Hv1 Ha1).
Defined.

Lemma qfq_serves_witness :
  exists q vt st, qfq_inv q vt st /\ lag_ok q /\ exists o q' vt' st', qfq_dequeue q = Some (o, q') /\ qfq_inv q' vt' st' /\ vt <= vt' /\
    match o with
    | None => forall c cl, classes q !! c = Some cl -> q_pkts (cl_q cl) = []
    | Some m => exists gi g c rest cl cl', lowest_er st 0 gi /\ grp_at q gi = Some g /\ start q vt gi <= vt /\ sl g 0 = c :: rest /\
        classes q !! c = Some cl /\ q_pkts (cl_q cl) = m :: q_pkts (cl_q cl') /\ classes q' = <[c := cl']> (classes q)
    end.
Proof.
  destruct wit_inv as (q0 & q1 & q2 & vt1 & st1 & vt2 & st2 & _ & _ & _ & _ & _ & _ & Hv2 & Hlag).
  exists q2, vt2, st2. split; [exact Hv2|]. split; [exact Hlag|]. exact (qfq_serves q2 vt2 st2 Hv2 Hlag).
Defined.

(** Two flows with the largest weight are accepted, and a third one not. *)
Lemma wit_refused : exists q q', classes q !! 3 = Some class_zero /\ qfq_new_queue q 3 65536 1000 = Some (EINVAL, q').
Proof.
  assert (Hrun : (q ← init_queues (qfq_new_sched (qfq_zero {[1 := class_zero; 2 := class_zero; 3 := class_zero]})) [(1, (65536, 1000)); (2, (65536, 1000))];
      '(ret, _) ← qfq_new_queue q 3 65536 1000; Some (classes q !! 3, ret)) = Some (Some class_zero, EINVAL)) by (vm_compute; reflexivity).
  destruct (init_queues _ _) as [q|]; [cbn [mbind option_bind] in Hrun|done].
  destruct (qfq_new_queue q 3 65536 1000) as [[ret q']|] eqn:E; [cbn [mbind option_bind] in Hrun|done].
  injection Hrun as Hc ->. exists q, q'. split; assumption.
Qed.

Lemma qfq_refused_flow_witness :
  exists q q', qfq_new_queue q 3 65536 1000 = Some (EINVAL, q') /\ qfq_enqueue q' 3 (mk_mbuf 100 1000 2) = None.
Proof.
  destruct wit_refused as (q & q' & Hc & E). exists q, q'. split; [exact E|].
  exact (qfq_refused_flow q 3 65536 1000 q' (mk_mbuf 100 1000 2) Hc E).
Defined.
