(* ===== verification/Pspat.v ===== *)
(** * The scheduler thread

    sched16/pspat.c: the packets that the devices hand over go through a cache
    of packet descriptors ([mbuf_cache]) into the scheduler and come out of it
    at the rate of the link; a packet that comes out is released to the guest
    it belongs to.

    [Pspat] is the code, for any scheduling algorithm ([DnAlg]).  The theorems
    are proved against the contract of the algorithm ([DnAlgOk]): descriptors
    are neither duplicated nor confused, every packet that was accepted is
    released once, and the link is never used above its rate. *)

From stdpp Require Import gmap.
From S2P Require Import Prelude Sched Rr.
Import DnQueue SchedMain.
Open Scope Z_scope.

Module Pspat.

(** ** State *)

(** The fields of a packet descriptor that the schedulers do not look at. *)
Record mdata := mk_mdata { d_base : Z; d_be : Z; d_txq : Z; d_idx : Z }.
#[export] Instance mdata_inhabited : Inhabited mdata := populate (mk_mdata 0 0 0 0).

(** [struct mbuf_cache] with the [m_freelist] fields of the descriptors. *)
Record mbuf_cache := mk_mbc { first_free : Z; m_freelist : gmap Z Z }.

Record sched_all (S : Type) := mk_all {
  sched : cfg_s S;
  mbc : mbuf_cache;
  mdatas : gmap Z mdata;
  next_link_idle : Z;
  sched_batch_limit : Z;
  sched_interval_tsc : Z;
  max_mark : Z;
  n_sch_fetch : Z;
  n_sch_released : Z;
  n_sch_released_bytes : Z;
  stat_check_idle : Z;
  stat_sched_idle : Z;
  stat_batch_full : Z;
  stat_early : Z;
}.
Arguments mk_all {S}.
Arguments sched {S}.
Arguments mbc {S}.
Arguments mdatas {S}.
Arguments next_link_idle {S}.
Arguments sched_batch_limit {S}.
Arguments sched_interval_tsc {S}.
Arguments max_mark {S}.
Arguments n_sch_fetch {S}.
Arguments n_sch_released {S}.
Arguments n_sch_released_bytes {S}.
Arguments stat_check_idle {S}.
Arguments stat_sched_idle {S}.
Arguments stat_batch_full {S}.
Arguments stat_early {S}.

(** ** The cache of descriptors *)

(** The loop of [mbuf_cache_init] over an array at address [cache]. *)
Fixpoint link_cache (cache : Z) (size : nat) (fl : gmap Z Z) : gmap Z Z :=
  match size with
  | O => fl
  | S size' => link_cache cache size' (<[cache + Z.of_nat size' := cache + Z.of_nat size]> fl)
  end.

(** [mbuf_cache_init]; the [m_freelist] of the last descriptor is zero.  [None]
    is the failure of the assertion. *)
Definition mbuf_cache_init (cache : Z) (size : nat) : option mbuf_cache :=
  match size with
  | O => None
  | S size' => Some (mk_mbc cache (link_cache cache size' ∅))
  end.

(** [None] is the dereference of a null pointer. *)
Definition mbuf_cache_get (c : mbuf_cache) : option (Z * mbuf_cache) :=
  let m := first_free c in
  if m =? 0 then None else Some (m, mk_mbc (default 0 (m_freelist c !! m)) (m_freelist c)).

Definition mbuf_cache_put (c : mbuf_cache) (m : Z) : mbuf_cache :=
  mk_mbc m (<[m := first_free c]> (m_freelist c)).

Section alg.
Context {S : Type} `{DnAlg S}.

Definition on_sched (c : cfg_s S) (f : sched_all S) : sched_all S :=
  mk_all c (mbc f) (mdatas f) (next_link_idle f) (sched_batch_limit f) (sched_interval_tsc f) (max_mark f)
    (n_sch_fetch f) (n_sch_released f) (n_sch_released_bytes f) (stat_check_idle f) (stat_sched_idle f)
    (stat_batch_full f) (stat_early f).
Definition on_mbc (c : mbuf_cache) (f : sched_all S) : sched_all S :=
  mk_all (sched f) c (mdatas f) (next_link_idle f) (sched_batch_limit f) (sched_interval_tsc f) (max_mark f)
    (n_sch_fetch f) (n_sch_released f) (n_sch_released_bytes f) (stat_check_idle f) (stat_sched_idle f)
    (stat_batch_full f) (stat_early f).
Definition on_mdatas (d : gmap Z mdata) (f : sched_all S) : sched_all S :=
  mk_all (sched f) (mbc f) d (next_link_idle f) (sched_batch_limit f) (sched_interval_tsc f) (max_mark f)
    (n_sch_fetch f) (n_sch_released f) (n_sch_released_bytes f) (stat_check_idle f) (stat_sched_idle f)
    (stat_batch_full f) (stat_early f).
Definition on_link (t : Z) (f : sched_all S) : sched_all S :=
  mk_all (sched f) (mbc f) (mdatas f) t (sched_batch_limit f) (sched_interval_tsc f) (max_mark f)
    (n_sch_fetch f) (n_sch_released f) (n_sch_released_bytes f) (stat_check_idle f) (stat_sched_idle f)
    (stat_batch_full f) (stat_early f).
Definition on_counts (fetch rel bytes : Z) (f : sched_all S) : sched_all S :=
  mk_all (sched f) (mbc f) (mdatas f) (next_link_idle f) (sched_batch_limit f) (sched_interval_tsc f) (max_mark f)
    fetch rel bytes (stat_check_idle f) (stat_sched_idle f) (stat_batch_full f) (stat_early f).
Definition on_stats (check idle full early : Z) (f : sched_all S) : sched_all S :=
  mk_all (sched f) (mbc f) (mdatas f) (next_link_idle f) (sched_batch_limit f) (sched_interval_tsc f) (max_mark f)
    (n_sch_fetch f) (n_sch_released f) (n_sch_released_bytes f) check idle full early.

(** ** Handing packets over *)

Definition fun_sched_enqueue (f : sched_all S) (be txq base len opaque_idx mark : Z) : option (Z * sched_all S) :=
  if max_mark f <=? mark then Some (1, f)
  else
    '(m, c) ← mbuf_cache_get (mbc f);
    let f := on_mdatas (<[m := mk_mdata base be txq opaque_idx]> (mdatas f)) (on_mbc c f) in
    let f := on_counts (u64 (n_sch_fetch f + 1)) (n_sch_released f) (n_sch_released_bytes f) f in
    let '(ret, c) := sched_enq (sched f) (mk_mbuf m len (u16 mark)) in
    Some (ret, on_sched c f).

(** ** Taking packets out *)

(** A packet is released: the call of [txq_release], and the descriptor goes
    back to the cache. *)
Definition release (f : sched_all S) (m : mbuf) : mdata * sched_all S :=
  (mdatas f !!! m_addr m, on_mbc (mbuf_cache_put (mbc f) (m_addr m)) f).

(** [sched_dequeue_release_all]; the number of packets and the calls of
    [txq_release].  [None] is the failed assertion of [sched_deq], or the end
    of the fuel. *)
Fixpoint release_all_loop (fuel : nat) (ndeq : Z) (f : sched_all S) : option (Z * list mdata * sched_all S) :=
  match fuel with
  | O => None
  | Datatypes.S fuel' =>
      '(o, c) ← sched_deq (sched f);
      let f := on_sched c f in
      match o with
      | None => Some (ndeq, [], f)
      | Some m =>
          let '(d, f) := release f m in
          '(ndeq, log, f) ← release_all_loop fuel' (u32 (ndeq + 1)) f;
          Some (ndeq, d :: log, f)
      end
  end.

Definition sched_dequeue_release_all (f : sched_all S) : option (Z * list mdata * sched_all S) :=
  release_all_loop (Datatypes.S (Z.to_nat (c_pending (sched f)))) 0 f.

(** [pkt_tsc(f, len)], a product in floating point: the time a packet takes on
    the link. *)
Context (pkt_tsc : Z -> Z).

(** The loop of [sched_dequeue_sink]. *)
Fixpoint sink_loop (fuel : nat) (now ndeq : Z) (f : sched_all S) : option (Z * list (mbuf * mdata) * sched_all S) :=
  match fuel with
  | O => None
  | Datatypes.S fuel' =>
      if (next_link_idle f <=? now) && (ndeq <? sched_batch_limit f) then
        '(o, c) ← sched_deq (sched f);
        let f := on_sched c f in
        match o with
        | None => Some (ndeq, [], f)
        | Some m =>
            let f := on_link (u64 (next_link_idle f + pkt_tsc (u16 (m_len m)))) f in
            let f := on_counts (n_sch_fetch f) (n_sch_released f) (u64 (n_sch_released_bytes f + m_len m)) f in
            let '(d, f) := release f m in
            '(ndeq, log, f) ← sink_loop fuel' now (u32 (ndeq + 1)) f;
            Some (ndeq, (m, d) :: log, f)
        end
      else Some (ndeq, [], f)
  end.

Definition sched_dequeue_sink (f : sched_all S) (now : Z) : option (Z * list (mbuf * mdata) * sched_all S) :=
  '(ndeq, log, f) ← sink_loop (Datatypes.S (Z.to_nat (sched_batch_limit f))) now 0 f;
  Some (ndeq, log, on_counts (n_sch_fetch f) (u64 (n_sch_released f + ndeq)) (n_sch_released_bytes f) f).

(** [sched_dequeue_netmap].  [space] is the free space of the ring,
    [nm_ring_next] the successor of a slot; the result has the slots that are
    written, with the packet that is copied to each. *)
Context (nm_ring_next : Z -> Z).

Fixpoint netmap_loop (space : nat) (now ndeq head : Z) (f : sched_all S)
    : option (Z * list (Z * mbuf * mdata) * Z * sched_all S) :=
  match space with
  | O => Some (ndeq, [], head, f)
  | Datatypes.S space' =>
      if negb ((next_link_idle f <=? now) && (ndeq <? sched_batch_limit f)) then Some (ndeq, [], head, f)
      else
        '(o, c) ← sched_deq (sched f);
        let f := on_sched c f in
        match o with
        | None => Some (ndeq, [], head, f)
        | Some m =>
            let f := on_link (u64 (next_link_idle f + pkt_tsc (u16 (m_len m)))) f in
            let f := on_counts (n_sch_fetch f) (n_sch_released f) (u64 (n_sch_released_bytes f + m_len m)) f in
            let slot := head in
            let head := nm_ring_next head in
            let '(d, f) := release f m in
            '(ndeq, log, head, f) ← netmap_loop space' now (u32 (ndeq + 1)) head f;
            Some (ndeq, (slot, m, d) :: log, head, f)
        end
  end.

(** The ring head, updated when there were packets, and the rest. *)
Definition sched_dequeue_netmap (f : sched_all S) (now space head : Z)
    : option (Z * list (Z * mbuf * mdata) * Z * sched_all S) :=
  '(ndeq, log, head', f) ← netmap_loop (Z.to_nat space) now 0 head f;
  if 0 <? ndeq then
    Some (ndeq, log, head', on_counts (n_sch_fetch f) (u64 (n_sch_released f + ndeq)) (n_sch_released_bytes f) f)
  else Some (ndeq, log, head, f).

(** [sched_idle_sleep]: the time until which the thread sleeps. *)
Definition sched_idle_sleep (f : sched_all S) (now ndeq : Z) : sched_all S * option Z :=
  let f := if ndeq =? 0 then on_stats (u64 (stat_check_idle f + 1)) (stat_sched_idle f) (stat_batch_full f) (stat_early f) f else f in
  if next_link_idle f <=? now then
    let '(f, sleep) :=
      if ndeq <? sched_batch_limit f then
        let f := on_link now f in
        let f := on_stats (stat_check_idle f) (u64 (stat_sched_idle f + 1)) (stat_batch_full f) (stat_early f) f in
        (f, Some (u64 (now + sched_interval_tsc f)))
      else (f, None) in
    (on_stats (stat_check_idle f) (stat_sched_idle f) (u64 (stat_batch_full f + 1)) (stat_early f) f, sleep)
  else
    let f := on_stats (stat_check_idle f) (stat_sched_idle f) (stat_batch_full f) (u64 (stat_early f + 1)) f in
    (f, Some (next_link_idle f)).

(** [sched_all_start]: the cache gets an array at [cache]; [now] is the clock. *)
Definition sched_all_start (f : sched_all S) (num_mbuf : nat) (cache now : Z) : option (sched_all S) :=
  c ← mbuf_cache_init cache num_mbuf; Some (on_link now (on_mbc c f)).

(** [sched_all_finish] up to the release of its memory. *)
Definition sched_all_finish (f : sched_all S) : option (Z * list mdata * sched_all S) :=
  let idle := if stat_sched_idle f =? 0 then stat_sched_idle f else stat_sched_idle f - 1 in
  sched_dequeue_release_all (on_stats (stat_check_idle f) idle (stat_batch_full f) (stat_early f) f).

End alg.
End Pspat.
Import Pspat.

(** ** The cache is a list of free descriptors *)

Definition cache_of (c : mbuf_cache) (l : list Z) : Prop := linked (m_freelist c) (first_free c) l.

Lemma cache_get_cons c a l :
  cache_of c (a :: l) -> exists c', mbuf_cache_get c = Some (a, c') /\ cache_of c' l.
Proof.
  intros (Ha & Hne & Hl). unfold mbuf_cache_get. rewrite Ha, (proj2 (Z.eqb_neq _ _) Hne). by eexists.
Qed.

Lemma cache_get_nil c : cache_of c [] -> mbuf_cache_get c = None.
Proof. intros Hc. unfold mbuf_cache_get. by rewrite (Hc : first_free c = 0). Qed.

Lemma cache_put_cons c a l : cache_of c l -> a <> 0 -> a ∉ l -> cache_of (mbuf_cache_put c a) (a :: l).
Proof.
  intros Hl Ha Hn. split; [done|]. split; [done|]. simpl. rewrite lookup_insert_eq. simpl.
  apply (linked_ext (m_freelist c)); [|done]. intros x Hx. apply lookup_insert_ne. by intros ->.
Qed.

(** After the loop the descriptors from [cache] on are linked in order. *)
Lemma link_cache_lookup cache n : forall fl x,
  link_cache cache n fl !! x = if decide (cache <= x < cache + Z.of_nat n) then Some (x + 1) else fl !! x.
Proof.
  induction n as [|n IH]; intros fl x; simpl link_cache.
  - rewrite decide_False by lia. done.
  - rewrite IH. destruct (decide (x = cache + Z.of_nat n)) as [->|Hne].
    + rewrite decide_False, decide_True, lookup_insert_eq by lia. f_equal. lia.
    + rewrite lookup_insert_ne by done. destruct (decide (cache <= x < cache + Z.of_nat n)).
      * by rewrite decide_True by lia.
      * by rewrite decide_False by lia.
Qed.

Lemma mbuf_cache_init_linked cache n c :
  0 < cache -> mbuf_cache_init cache n = Some c -> cache_of c (seqZ cache (Z.of_nat n)).
Proof.
  intros Hc. unfold mbuf_cache_init, cache_of. destruct n as [|n]; [done|]. intros [= <-]. simpl first_free. simpl m_freelist.
  assert (Hgen : forall k a, 0 < a -> a + Z.of_nat k = cache + Z.of_nat (S n) -> cache <= a -> (0 < k)%nat ->
    linked (link_cache cache n ∅) a (seqZ a (Z.of_nat k))).
  { induction k as [|k IH]; intros a Ha Hk Hca Hpos; [lia|]. rewrite seqZ_cons by lia. split; [done|]. split; [lia|].
    replace (Z.pred (Z.of_nat (S k))) with (Z.of_nat k) by lia. rewrite link_cache_lookup. destruct (decide (k = 0)%nat) as [->|Hk0].
    - rewrite decide_False by lia. rewrite lookup_empty. done.
    - rewrite decide_True by lia. simpl. apply IH; lia. }
  apply Hgen; lia.
Qed.

Section pspat.
Context {S : Type} `{DnAlgOk S}.

(** The descriptors of the packets in the scheduler. *)
Definition in_sched (f : sched_all S) : list Z := m_addr <$> alg_pkts (c_si (sched f)).

(** [l] is the free list and [lost] the descriptors that are in neither. *)
Record pspat_ok (f : sched_all S) (l lost : list Z) : Prop := {
  ps_sched : cfg_ok (sched f);
  ps_cache : cache_of (mbc f) l;
  ps_nodup : NoDup (l ++ in_sched f ++ lost);
  ps_zero : 0 ∉ l ++ in_sched f ++ lost;
}.

(** The fields that only the caches and the scheduler change. *)
Lemma pspat_ok_same f f' l lost :
  pspat_ok f l lost -> sched f' = sched f -> mbc f' = mbc f -> pspat_ok f' l lost.
Proof. intros [H1 H2 H3 H4] Es Em. unfold in_sched in *. constructor; unfold in_sched; rewrite ?Es, ?Em; done. Qed.

(** The state after a descriptor has been filled in and handed over. *)
Definition fetched (f : sched_all S) (a : Z) (d : mdata) (mc : mbuf_cache) (c : cfg_s S) : sched_all S :=
  on_sched c (on_counts (u64 (n_sch_fetch f + 1)) (n_sch_released f) (n_sch_released_bytes f)
    (on_mdatas (<[a := d]> (mdatas f)) (on_mbc mc f))).

Lemma enqueue_spec f a l lost be txq base len idx mark ret c :
  pspat_ok f (a :: l) lost -> c_pending (sched f) < 2 ^ 31 - 2 -> alg_accepts (c_si (sched f)) (mk_mbuf a len (u16 mark)) ->
  mark < max_mark f -> sched_enq (sched f) (mk_mbuf a len (u16 mark)) = (ret, c) ->
  exists mc, let f' := fetched f a (mk_mdata base be txq idx) mc c in
    fun_sched_enqueue f be txq base len idx mark = Some (ret, f') /\
    ((ret = 0 /\ pspat_ok f' l lost /\ alg_pkts (c_si c) ≡ₚ mk_mbuf a len (u16 mark) :: alg_pkts (c_si (sched f))) \/
     (ret <> 0 /\ pspat_ok f' l (a :: lost) /\ alg_pkts (c_si c) ≡ₚ alg_pkts (c_si (sched f)))).
Proof.
  intros [Hs Hc HN HZ] Hp Hacc Hm E. unfold fun_sched_enqueue. rewrite (proj2 (Z.leb_gt _ _) Hm).
  destruct (cache_get_cons _ _ _ Hc) as (mc & -> & Hc'). exists mc. simpl. rewrite E.
  destruct (sched_enq_ok _ _ _ _ Hs Hacc Hp E) as [Hs' Hpk]. split; [done|].
  destruct Hpk as [[-> Hpk]|[Hr Hpk]]; [left|right]; (split; [done|]); (split; [|done]);
    constructor; simpl; try done; unfold in_sched in *; simpl; rewrite Hpk; simpl.
  all: by rewrite <- !Permutation_middle.
Qed.

(** Handing a packet over takes one descriptor from the cache.  If the
    scheduler accepts the packet the descriptor goes with it; if the scheduler
    drops the packet the descriptor is lost: it is neither in the scheduler nor
    in the cache.  A packet whose class is out of range is refused without a
    descriptor. *)
Theorem fun_sched_enqueue_accounts f a l lost be txq base len idx mark :
  pspat_ok f (a :: l) lost -> c_pending (sched f) < 2 ^ 31 - 2 -> alg_accepts (c_si (sched f)) (mk_mbuf a len (u16 mark)) ->
  let m := mk_mbuf a len (u16 mark) in
  exists ret f', fun_sched_enqueue f be txq base len idx mark = Some (ret, f') /\
    ((max_mark f <= mark /\ ret = 1 /\ f' = f) \/
     (mark < max_mark f /\ mdatas f' !! a = Some (mk_mdata base be txq idx) /\ (forall b, b <> a -> mdatas f' !! b = mdatas f !! b) /\
      ((ret = 0 /\ pspat_ok f' l lost /\ alg_pkts (c_si (sched f')) ≡ₚ m :: alg_pkts (c_si (sched f))) \/
       (ret <> 0 /\ pspat_ok f' l (a :: lost) /\ alg_pkts (c_si (sched f')) ≡ₚ alg_pkts (c_si (sched f)))))).
Proof.
  intros Hok Hp Hacc m. destruct (Z.le_gt_cases (max_mark f) mark) as [Hm|Hm].
  { exists 1, f. unfold fun_sched_enqueue. rewrite (proj2 (Z.leb_le _ _) Hm). split; [done|by left]. }
  destruct (sched_enq (sched f) m) as [ret c] eqn:E.
  destruct (enqueue_spec f a l lost be txq base len idx mark ret c Hok Hp Hacc Hm E) as (mc & Hf & Hcases).
  eexists _, _. split; [exact Hf|]. right. split; [done|]. split; [apply lookup_insert_eq|].
  split; [intros b Hb; by apply lookup_insert_ne|done].
Qed.

(** When the cache is empty, handing over a packet of a valid class
    dereferences a null pointer. *)
Theorem fun_sched_enqueue_exhausted f lost be txq base len idx mark :
  pspat_ok f [] lost -> mark < max_mark f -> fun_sched_enqueue f be txq base len idx mark = None.
Proof.
  intros [Hs Hc _ _] Hm. unfold fun_sched_enqueue. rewrite (proj2 (Z.leb_gt _ _) Hm), (cache_get_nil _ Hc). done.
Qed.

(** ** Releasing *)

Hypothesis always_ready : forall s : S, alg_ok s -> alg_ready s.

(** One packet is taken out and released. *)
Lemma deq_spec f l lost :
  pspat_ok f l lost ->
  exists o c, sched_deq (sched f) = Some (o, c) /\
    match o with
    | None => alg_pkts (c_si (sched f)) = [] /\ on_sched c f = f
    | Some m =>
        alg_pkts (c_si (sched f)) ≡ₚ m :: alg_pkts (c_si c) /\
        pspat_ok (snd (release (on_sched c f) m)) (m_addr m :: l) lost /\
        c_pending (sched f) = c_pending c + 1 /\ 0 <= c_pending c
    end.
Proof.
  intros [Hs Hc HN HZ]. destruct (sched_deq_ok (sched f) Hs) as (o & c & E & Hc' & Ho); [apply always_ready, Hs|].
  exists o, c. split; [done|]. destruct o as [m|]; [|destruct Ho as [? ->]; split; [done|by destruct f]].
  destruct Hs as (_ & Hp & _). pose proof Hc' as (_ & Hp' & _).
  unfold in_sched in HN, HZ. rewrite Ho in HN, HZ, Hp. simpl in HN, HZ, Hp. rewrite <- !Permutation_middle in HN, HZ.
  split; [done|]. split; [|lia]. constructor; [done| |done|done]. simpl. apply cache_put_cons; [done| |].
  - intros E0. apply HZ. rewrite E0. by left.
  - apply list.NoDup_cons in HN as [HN _]. intros Hin. apply HN, elem_of_app. by left.
Qed.

(** Everything in the scheduler is released, in the order in which the
    algorithm hands it out. *)
Lemma release_all_spec fuel : forall f l lost ndeq,
  pspat_ok f l lost -> c_pending (sched f) < Z.of_nat fuel -> 0 <= ndeq -> ndeq + c_pending (sched f) < 2 ^ 32 ->
  exists log f' l' , release_all_loop fuel ndeq f = Some (ndeq + Z.of_nat (length log), log, f') /\
    pspat_ok f' l' lost /\ alg_pkts (c_si (sched f')) = [] /\
    exists ms, alg_pkts (c_si (sched f)) ≡ₚ ms /\ log = (fun m => mdatas f !!! m_addr m) <$> ms /\ l' = reverse (m_addr <$> ms) ++ l.
Proof.
  induction fuel as [|fuel IH]; intros f l lost ndeq Hok Hf Hn Hb.
  { destruct (ps_sched _ _ _ Hok) as (_ & Hp & _). lia. }
  simpl. destruct (deq_spec f l lost Hok) as (o & c & E & Ho). rewrite E. simpl. destruct o as [m|].
  - destruct Ho as (HP & Hok' & Hp & Hp0). set (f1 := snd (release (on_sched c f) m)) in *.
    destruct (IH f1 (m_addr m :: l) lost (ndeq + 1) Hok') as (log & f' & l' & E' & H1 & H2 & ms & H3 & H4 & H5).
    { simpl. lia. } { lia. } { simpl. lia. }
    rewrite u32_id by (unfold is_u32; lia). change (on_mbc _ (on_sched c f)) with f1. rewrite E'. simpl.
    eexists _, f', l'. split; [f_equal; f_equal; f_equal; simpl; lia|]. split_and!; try done. exists (m :: ms). split_and!.
    + rewrite HP. f_equiv. exact H3.
    + rewrite H4. done.
    + rewrite H5. simpl. rewrite reverse_cons, <- app_assoc. done.
  - destruct Ho as [Hn0 Ef]. rewrite Ef. exists [], f, l. split; [f_equal; f_equal; f_equal; simpl; lia|].
    split_and!; try done. exists []. by rewrite Hn0.
Qed.

Lemma finish_releases f l lost :
  pspat_ok f l lost ->
  exists n log f' l' ms, sched_all_finish f = Some (n, log, f') /\ pspat_ok f' l' lost /\ alg_pkts (c_si (sched f')) = [] /\
    alg_pkts (c_si (sched f)) ≡ₚ ms /\ log = (fun m => mdatas f !!! m_addr m) <$> ms /\ l' = reverse (m_addr <$> ms) ++ l /\
    n = Z.of_nat (length ms).
Proof.
  intros Hok. unfold sched_all_finish, sched_dequeue_release_all. set (f1 := on_stats _ _ _ _ f).
  assert (Hok1 : pspat_ok f1 l lost) by (by eapply pspat_ok_same). destruct (ps_sched _ _ _ Hok1) as (_ & Hp & Hlim).
  destruct (release_all_spec (Datatypes.S (Z.to_nat (c_pending (sched f1)))) f1 l lost 0 Hok1) as (log & f' & l' & E & H1 & H2 & ms & H3 & H4 & H5);
    [lia|lia|lia|]. rewrite E. eexists _, log, f', l', ms. split_and!; try done. rewrite H4, length_fmap. lia.
Qed.

(** Stopping the scheduler releases every packet that it holds, each once
    and to the queue it came from, and gives all the descriptors back to the
    cache but for those that were lost. *)
Theorem sched_all_finish_releases f l lost :
  pspat_ok f l lost ->
  exists n log f' l' ms, sched_all_finish f = Some (n, log, f') /\ pspat_ok f' l' lost /\ alg_pkts (c_si (sched f')) = [] /\
    alg_pkts (c_si (sched f)) ≡ₚ ms /\ log = (fun m => mdatas f !!! m_addr m) <$> ms /\ l' = reverse (m_addr <$> ms) ++ l /\
    n = Z.of_nat (length ms).
Proof. apply finish_releases. Qed.

(** ** The link *)

Section link.
Context (pkt_tsc : Z -> Z) (P : Z).
Hypothesis tsc_range : forall len, 0 <= pkt_tsc len <= P.

(** The time that packets take on the link. *)
Definition link_time (ms : list mbuf) : Z := foldr (fun m t => pkt_tsc (u16 (m_len m)) + t) 0 ms.

Lemma link_time_cons m ms : link_time (m :: ms) = pkt_tsc (u16 (m_len m)) + link_time ms.
Proof. done. Qed.

Lemma link_time_nonneg ms : 0 <= link_time ms.
Proof. induction ms as [|m ms IH]; simpl; [lia|]. pose proof (tsc_range (u16 (m_len m))). lia. Qed.

(** What one run of the loop of a dequeue function does: the packets [ms] come
    out. *)
Record dequeued (f : sched_all S) (l lost : list Z) (now ndeq : Z) (ms : list mbuf) (f' : sched_all S) : Prop := {
  dq_ok : pspat_ok f' (reverse (m_addr <$> ms) ++ l) lost;
  dq_pkts : alg_pkts (c_si (sched f)) ≡ₚ ms ++ alg_pkts (c_si (sched f'));
  dq_data : mdatas f' = mdatas f;
  dq_link : next_link_idle f' = next_link_idle f + link_time ms;
  dq_late : next_link_idle f' <= Z.max (next_link_idle f) (now + P);
  dq_limit : ndeq + Z.of_nat (length ms) <= sched_batch_limit f;
  dq_conf : sched_batch_limit f' = sched_batch_limit f /\ max_mark f' = max_mark f /\ sched_interval_tsc f' = sched_interval_tsc f;
}.

Lemma dequeued_nil f l lost now ndeq :
  pspat_ok f l lost -> ndeq <= sched_batch_limit f -> dequeued f l lost now ndeq [] f.
Proof. intros Hok Hn. constructor; simpl; try done; lia. Qed.

(** A packet comes out and is released. *)
Definition after_deq (c : cfg_s S) (m : mbuf) (f : sched_all S) : sched_all S :=
  let f := on_sched c f in
  let f := on_link (u64 (next_link_idle f + pkt_tsc (u16 (m_len m)))) f in
  let f := on_counts (n_sch_fetch f) (n_sch_released f) (u64 (n_sch_released_bytes f + m_len m)) f in
  snd (release f m).

Lemma dequeued_cons f l lost now ndeq m c ms f' :
  pspat_ok f l lost -> next_link_idle f <= now -> 0 <= next_link_idle f -> now + P < 2 ^ 64 ->
  alg_pkts (c_si (sched f)) ≡ₚ m :: alg_pkts (c_si c) ->
  dequeued (after_deq c m f) (m_addr m :: l) lost now (ndeq + 1) ms f' ->
  dequeued f l lost now ndeq (m :: ms) f'.
Proof.
  intros Hok Hn Hn0 Hw HP [H1 H2 H3 H4 H5 H6 H7]. pose proof (tsc_range (u16 (m_len m))) as Ht.
  simpl in H2, H3, H4, H5, H6, H7. rewrite u64_id in H4, H5 by (unfold is_u64; lia). constructor; simpl; try done; try lia.
  - by rewrite reverse_cons, <- app_assoc.
  - rewrite HP. f_equiv. exact H2.
Qed.

Lemma sink_loop_spec fuel : forall f l lost now ndeq,
  pspat_ok f l lost -> 0 <= next_link_idle f -> now + P < 2 ^ 64 -> 0 <= ndeq <= sched_batch_limit f -> sched_batch_limit f < 2 ^ 16 ->
  sched_batch_limit f - ndeq < Z.of_nat fuel ->
  exists ms f', sink_loop pkt_tsc fuel now ndeq f = Some (ndeq + Z.of_nat (length ms), (fun m => (m, mdatas f !!! m_addr m)) <$> ms, f') /\
    dequeued f l lost now ndeq ms f' /\
    (now < next_link_idle f' \/ ndeq + Z.of_nat (length ms) = sched_batch_limit f \/ alg_pkts (c_si (sched f')) = []).
Proof.
  induction fuel as [|fuel IH]; intros f l lost now ndeq Hok Hn0 Hw Hnd Hlim Hf; [lia|]. simpl.
  destruct (Z.leb_spec (next_link_idle f) now) as [Hn|Hn]; simpl; [destruct (Z.ltb_spec ndeq (sched_batch_limit f)) as [Hl|Hl]|].
  - destruct (deq_spec f l lost Hok) as (o & c & E & Ho). rewrite E. simpl. destruct o as [m|].
    + destruct Ho as (HP & Hok' & _). pose proof (tsc_range (u16 (m_len m))) as Ht.
      assert (Hok1 : pspat_ok (after_deq c m f) (m_addr m :: l) lost) by (by eapply pspat_ok_same).
      rewrite (u32_id (ndeq + 1)) by (unfold is_u32; lia). change (on_mbc _ (on_counts _ _ _ _)) with (after_deq c m f).
      destruct (IH (after_deq c m f) (m_addr m :: l) lost now (ndeq + 1) Hok1) as (ms & f' & E' & H1 & H2).
      { simpl. rewrite u64_id by (unfold is_u64; lia). lia. } { done. } { simpl. lia. } { done. } { simpl. lia. }
      rewrite E'. simpl. exists (m :: ms), f'. split; [f_equal; f_equal; f_equal; simpl; lia|]. split; [by eapply dequeued_cons|].
      replace (ndeq + Z.of_nat (length (m :: ms))) with (ndeq + 1 + Z.of_nat (length ms)) by (simpl; lia). exact H2.
    + destruct Ho as [Hz Ef]. rewrite Ef. exists [], f. split; [f_equal; f_equal; f_equal; simpl; lia|]. split; [apply dequeued_nil; [done|lia]|by auto].
  - exists [], f. split; [f_equal; f_equal; f_equal; simpl; lia|]. split; [apply dequeued_nil; [done|lia]|]. simpl. right. left. lia.
  - exists [], f. split; [f_equal; f_equal; f_equal; simpl; lia|]. split; [apply dequeued_nil; [done|lia]|by auto].
Qed.

(** What the idle step leaves alone. *)
Lemma idle_sleep_same (f f' : sched_all S) now n sl :
  sched_idle_sleep f now n = (f', sl) ->
  sched f' = sched f /\ mbc f' = mbc f /\ mdatas f' = mdatas f /\ max_mark f' = max_mark f /\
  sched_batch_limit f' = sched_batch_limit f /\ (next_link_idle f' = next_link_idle f \/ next_link_idle f' = now).
Proof. unfold sched_idle_sleep. repeat case_if; intros [= <- _]; simpl; auto 10. Qed.

(** A turn of the thread takes packets out of the scheduler while the link
    is free and the batch is not full, and releases each of them to the queue
    it came from; the others stay.  The thread then sleeps only if the link is
    busy, until it is free, or if the scheduler is empty; after a full batch it
    goes on at once. *)
Theorem sched_turn_correct f l lost now :
  pspat_ok f l lost -> 0 <= next_link_idle f -> 0 <= now -> now + P < 2 ^ 64 -> 0 <= sched_batch_limit f < 2 ^ 16 ->
  exists n ms f1 f2 sl, sched_dequeue_sink pkt_tsc f now = Some (n, (fun m => (m, mdatas f !!! m_addr m)) <$> ms, f1) /\
    sched_idle_sleep f1 now n = (f2, sl) /\ n = Z.of_nat (length ms) /\ n <= sched_batch_limit f /\
    alg_pkts (c_si (sched f)) ≡ₚ ms ++ alg_pkts (c_si (sched f2)) /\ pspat_ok f2 (reverse (m_addr <$> ms) ++ l) lost /\
    match sl with
    | None => n = sched_batch_limit f
    | Some t => (now < t /\ t = next_link_idle f2) \/
                (alg_pkts (c_si (sched f2)) = [] /\ next_link_idle f2 = now /\ t = u64 (now + sched_interval_tsc f))
    end.
Proof.
  intros Hok Hn0 Hnow Hw Hlim. unfold sched_dequeue_sink.
  destruct (sink_loop_spec (Datatypes.S (Z.to_nat (sched_batch_limit f))) f l lost now 0 Hok Hn0 Hw) as (ms & f' & E & [D1 D2 D3 D4 D5 D6 D7] & Hwhy);
    [lia|lia|lia|]. rewrite E. cbn [mbind option_bind].
  set (f1 := on_counts _ _ _ f'). eexists (0 + Z.of_nat (length ms)), ms, f1. 
  destruct (sched_idle_sleep f1 now (0 + Z.of_nat (length ms))) as [f2 sl] eqn:Es. exists f2, sl. split; [done|]. split; [done|].
  destruct D7 as (L1 & L2 & L3).
  destruct (idle_sleep_same _ _ _ _ _ Es) as (Es1 & Es2 & _). rewrite Es1. split_and!; [lia|lia|done|by eapply pspat_ok_same|].
  unfold sched_idle_sleep in Es. set (n := 0 + Z.of_nat (length ms)) in *.
  set (g := if n =? 0 then _ else f1) in Es.
  assert (Hg : next_link_idle g = next_link_idle f' /\ sched_batch_limit g = sched_batch_limit f /\ sched_interval_tsc g = sched_interval_tsc f).
  { unfold g. case_if; simpl; done. }
  destruct Hg as (G1 & G2 & G3). rewrite G1, G2 in Es.
  destruct (Z.leb_spec (next_link_idle f') now) as [Hle|Hgt].
  - destruct (Z.ltb_spec n (sched_batch_limit f)) as [Hl|Hl]; injection Es as <- <-.
    + right. simpl. rewrite G3. split_and!; try done. destruct Hwhy as [?|[?|?]]; [lia|lia|done].
    + lia.
  - injection Es as <- <-. left. simpl. lia.
Qed.

(** *** The netmap port *)

(** [n] slots from [h] on. *)
Fixpoint slots (nx : Z -> Z) (n : nat) (h : Z) : list Z :=
  match n with O => [] | Datatypes.S n => h :: slots nx n (nx h) end.

Lemma netmap_loop_spec nx space : forall f l lost now ndeq head,
  pspat_ok f l lost -> 0 <= next_link_idle f -> now + P < 2 ^ 64 -> 0 <= ndeq <= sched_batch_limit f -> sched_batch_limit f < 2 ^ 16 ->
  exists ms f', netmap_loop pkt_tsc nx space now ndeq head f =
      Some (ndeq + Z.of_nat (length ms), (fun '(h, m) => (h, m, mdatas f !!! m_addr m)) <$> zip (slots nx (length ms) head) ms,
            Nat.iter (length ms) nx head, f') /\
    dequeued f l lost now ndeq ms f' /\ (length ms <= space)%nat.
Proof.
  induction space as [|space IH]; intros f l lost now ndeq head Hok Hn0 Hw Hnd Hlim.
  { exists [], f. split; [simpl; repeat f_equal; lia|]. split; [apply dequeued_nil; [done|lia]|done]. }
  simpl netmap_loop. assert (Hstop : exists ms f', Some (ndeq, [], head, f) =
      Some (ndeq + Z.of_nat (length ms), (fun '(h, m) => (h, m, mdatas f !!! m_addr m)) <$> zip (slots nx (length ms) head) ms,
            Nat.iter (length ms) nx head, f') /\ dequeued f l lost now ndeq ms f' /\ (length ms <= Datatypes.S space)%nat).
  { exists [], f. split; [simpl; repeat f_equal; lia|]. split; [apply dequeued_nil; [done|lia]|simpl; lia]. }
  destruct (Z.leb_spec (next_link_idle f) now) as [Hn|Hn]; simpl; [destruct (Z.ltb_spec ndeq (sched_batch_limit f)) as [Hl|Hl]|]; try done.
  simpl. destruct (deq_spec f l lost Hok) as (o & c & E & Ho). rewrite E. cbn [mbind option_bind]. destruct o as [m|].
  2:{ destruct Ho as [_ ->]. done. }
  destruct Ho as (HP & Hok' & _). pose proof (tsc_range (u16 (m_len m))) as Ht.
  assert (Hok1 : pspat_ok (after_deq c m f) (m_addr m :: l) lost) by (by eapply pspat_ok_same).
  rewrite (u32_id (ndeq + 1)) by (unfold is_u32; lia). unfold release. change (on_mbc _ (on_counts _ _ _ _)) with (after_deq c m f).
  destruct (IH (after_deq c m f) (m_addr m :: l) lost now (ndeq + 1) (nx head) Hok1) as (ms & f' & E' & H1 & H2).
  { simpl. rewrite u64_id by (unfold is_u64; lia). lia. } { done. } { simpl. lia. } { done. }
  rewrite E'. simpl. exists (m :: ms), f'. split; [|split; [by eapply dequeued_cons|simpl; lia]].
  replace (ndeq + 1 + Z.of_nat (length ms)) with (ndeq + Z.of_nat (length (m :: ms))) by (simpl; lia).
  simpl length. rewrite Nat.iter_succ_r. done.
Qed.

(** On a netmap port the packets that come out of the scheduler are copied
    to consecutive slots of the ring, from its head on and never past its free
    space, in the order in which they come out; the head moves past them, and
    each packet is released to the queue it came from. *)
Theorem sched_dequeue_netmap_correct nx f l lost now space head :
  pspat_ok f l lost -> 0 <= next_link_idle f -> now + P < 2 ^ 64 -> 0 <= sched_batch_limit f < 2 ^ 16 -> 0 <= space ->
  exists ms f', sched_dequeue_netmap pkt_tsc nx f now space head =
      Some (Z.of_nat (length ms), (fun '(h, m) => (h, m, mdatas f !!! m_addr m)) <$> zip (slots nx (length ms) head) ms,
            Nat.iter (length ms) nx head, f') /\
    Z.of_nat (length ms) <= space /\ Z.of_nat (length ms) <= sched_batch_limit f /\
    alg_pkts (c_si (sched f)) ≡ₚ ms ++ alg_pkts (c_si (sched f')) /\ pspat_ok f' (reverse (m_addr <$> ms) ++ l) lost.
Proof.
  intros Hok Hn0 Hw Hlim Hsp. unfold sched_dequeue_netmap.
  destruct (netmap_loop_spec nx (Z.to_nat space) f l lost now 0 head Hok Hn0 Hw) as (ms & f' & E & [D1 D2 D3 D4 D5 D6 D7] & Hle); [lia|lia|].
  rewrite E. cbn [mbind option_bind]. rewrite Z.add_0_l in *. destruct (Z.ltb_spec 0 (Z.of_nat (length ms))) as [Hpos|Hz].
  - exists ms. eexists. split; [done|]. split_and!; [lia|lia|done|by eapply pspat_ok_same].
  - assert (ms = []) as -> by (destruct ms; [done|simpl in Hz; lia]). exists [], f'. split; [done|]. split_and!; [simpl; lia|simpl; lia|done|done].
Qed.

(** *** The rate of the link *)

Lemma sink_loop_link fuel : forall f now ndeq n log f',
  sink_loop pkt_tsc fuel now ndeq f = Some (n, log, f') -> 0 <= next_link_idle f -> now + P < 2 ^ 64 ->
  next_link_idle f' = next_link_idle f + link_time (fst <$> log) /\ next_link_idle f' <= Z.max (next_link_idle f) (now + P).
Proof.
  induction fuel as [|fuel IH]; intros f now ndeq n log f'; [done|]. simpl.
  destruct (Z.leb_spec (next_link_idle f) now) as [Hn|Hn]; simpl; [destruct (ndeq <? sched_batch_limit f)|].
  - destruct (sched_deq (sched f)) as [[o c]|]; [|done]. simpl. destruct o as [m|].
    + change (on_mbc _ (on_counts _ _ _ _)) with (after_deq c m f).
      destruct (sink_loop pkt_tsc fuel now (u32 (ndeq + 1)) (after_deq c m f)) as [[[n1 log1] f1]|] eqn:E; [|done].
      simpl. intros [= <- <- <-] Hn0 Hw. pose proof (tsc_range (u16 (m_len m))) as Ht.
      assert (Hnx : next_link_idle (after_deq c m f) = next_link_idle f + pkt_tsc (u16 (m_len m))).
      { simpl. apply u64_id. unfold is_u64. lia. }
      destruct (IH _ _ _ _ _ _ E) as [H1 H2]; [lia|done|]. rewrite fmap_cons, link_time_cons, Hnx in *. simpl fst. lia.
    + intros [= <- <- <-]. simpl. lia.
  - intros [= <- <- <-]. simpl. lia.
  - intros [= <- <- <-]. simpl. lia.
Qed.

(** Packets are handed over and the thread makes turns; [out] are the packets
    that come out, [t] the time of the last turn. *)
Inductive link_run : Z -> sched_all S -> list mbuf -> Z -> sched_all S -> Prop :=
| run_done t f : link_run t f [] t f
| run_enq t f be txq base len idx mark ret f1 out t' f' :
    fun_sched_enqueue f be txq base len idx mark = Some (ret, f1) -> link_run t f1 out t' f' -> link_run t f out t' f'
| run_turn t f now n log f1 f2 sl out t' f' :
    t <= now -> sched_dequeue_sink pkt_tsc f now = Some (n, log, f1) -> sched_idle_sleep f1 now n = (f2, sl) ->
    link_run now f2 out t' f' -> link_run t f ((fst <$> log) ++ out) t' f'.

Lemma enqueue_link f be txq base len idx mark ret f1 :
  fun_sched_enqueue f be txq base len idx mark = Some (ret, f1) -> next_link_idle f1 = next_link_idle f.
Proof.
  unfold fun_sched_enqueue. case_if; [by intros [= <- <-]|]. destruct (mbuf_cache_get (mbc f)) as [[m c]|]; [|done]. simpl.
  destruct (sched_enq _ _) as [r c']. by intros [= <- <-].
Qed.

Lemma link_time_app l1 l2 : link_time (l1 ++ l2) = link_time l1 + link_time l2.
Proof. induction l1 as [|m ms IH]; [done|]. simpl app. rewrite !link_time_cons. lia. Qed.

Lemma link_run_le t f out t' f' : link_run t f out t' f' -> t <= t'.
Proof. induction 1; lia. Qed.

(** What a turn does to the time at which the link is free: it is not moved
    back, and not before the turn if the batch was not filled. *)
Lemma turn_link f now n log f1 f2 sl :
  sched_dequeue_sink pkt_tsc f now = Some (n, log, f1) -> sched_idle_sleep f1 now n = (f2, sl) ->
  0 <= next_link_idle f <= now + P -> 0 <= now -> now + P < 2 ^ 64 ->
  next_link_idle f + link_time (fst <$> log) <= next_link_idle f2 /\ 0 <= next_link_idle f2 <= now + P /\
  (n < sched_batch_limit f1 -> now <= next_link_idle f2).
Proof.
  intros E1 E2 Hn Ht Hw. unfold sched_dequeue_sink in E1. pose proof (tsc_range 0) as HP.
  destruct (sink_loop pkt_tsc _ now 0 f) as [[[n1 log1] g]|] eqn:Es; [|done]. simpl in E1. injection E1 as <- <- <-.
  destruct (sink_loop_link _ _ _ _ _ _ _ Es) as [H1 H2]; [lia|lia|]. pose proof (link_time_nonneg (fst <$> log1)) as Hpos.
  assert (H3 : next_link_idle g <= next_link_idle f2 <= Z.max (next_link_idle g) now /\ (n1 < sched_batch_limit g -> now <= next_link_idle f2)).
  { revert E2. unfold sched_idle_sleep. simpl. repeat case_if; intros [= <- _]; simpl in *; lia. }
  destruct H3 as [H3 H4]. split; [lia|]. split; [lia|exact H4].
Qed.

Lemma link_run_time t f out t' f' :
  link_run t f out t' f' -> 0 <= next_link_idle f <= t + P -> 0 <= t -> t' + P < 2 ^ 64 -> 0 <= P ->
  t <= t' /\ next_link_idle f + link_time out <= next_link_idle f' <= t' + P.
Proof.
  induction 1 as [t f|t f be txq base len idx mark ret f1 out t' f' E _ IH|t f now n log f1 f2 sl out t' f' Ht E1 E2 Hr IH]; intros Hn Ht0 Hw HP.
  - simpl. lia.
  - rewrite <- (enqueue_link _ _ _ _ _ _ _ _ _ E) in *. auto.
  - pose proof (link_run_le _ _ _ _ _ Hr) as Hle. destruct (turn_link f now n log f1 f2 sl E1 E2) as (T1 & T2 & _); [lia..|].
    destruct IH as [I1 I2]; [lia..|]. rewrite link_time_app. lia.
Qed.

End link.

End pspat.


(** ** Starting *)

(** With an empty scheduler, all the descriptors are free at the start. *)
Lemma sched_all_start_ok {S} `{DnAlgOk S} (f f' : sched_all S) n cache now :
  0 < cache -> cfg_ok (sched f) -> alg_pkts (c_si (sched f)) = [] -> sched_all_start f n cache now = Some f' ->
  pspat_ok f' (seqZ cache (Z.of_nat n)) [] /\ next_link_idle f' = now.
Proof.
  intros Hc Hs Hz. unfold sched_all_start. destruct (mbuf_cache_init cache n) as [c|] eqn:E; [|done]. simpl. intros [= <-].
  split; [|done]. constructor; [done|by apply mbuf_cache_init_linked| |]; unfold in_sched; simpl; rewrite Hz; simpl; rewrite app_nil_r.
  - apply NoDup_seqZ.
  - rewrite elem_of_seqZ. lia.
Qed.

(** ** Examples: round robin *)

Import Rr.

Lemma rr_ok_mono L L' s l : rr_ok L s l -> L <= L' < 2 ^ 31 -> rr_ok L' s l.
Proof.
  intros [H1 H2 H3 H4] HL. constructor; [lia|done| |done]. intros a Ha. destruct (H3 a Ha) as [Ha0 [Q1 Q2 Q3 Q4]].
  split; [done|]. constructor; [done| |done|lia]. eapply list.Forall_impl; [exact Q2|]. intros m [E Hm]. split; [done|lia].
Qed.

Lemma rr_always_ready (s : rr) : alg_ok s -> alg_ready s.
Proof. done. Qed.

Definition pdemo (free : mbuf_cache) : sched_all rr :=
  mk_all (mk_cfg 0 0 5 0 demo) free
    (list_to_map ((fun i => (i, mk_mdata (4096 * i) 1 0 i)) <$> [10; 11; 12; 13; 14])) 0 3 1000 2 0 0 0 0 0 0 0.
Definition pdemo_cache : mbuf_cache := mk_mbc 1 {[1 := 2; 2 := 0]}.

Lemma pdemo_addrs : Permutation (m_addr <$> rr_pkts demo) [11; 13; 10; 12; 14].
Proof.
  assert (E : m_addr <$> rr_pkts demo = [11; 13; 10; 12; 14]) by (vm_compute; reflexivity). by rewrite E.
Qed.

Lemma pdemo_ok free l : cache_of free l -> NoDup (l ++ [11; 13; 10; 12; 14]) -> 0 ∉ l -> pspat_ok (pdemo free) l [].
Proof.
  intros Hc HN HZ. constructor.
  - destruct demo_ok as [r Hr]. split; [exists r; apply (rr_ok_mono 1000); [exact Hr|by vm_compute]|].
    split; [|by vm_compute]. change (c_pending (sched (pdemo free))) with 5. change (c_si (sched (pdemo free))) with demo.
    pose proof (Permutation_length pdemo_addrs) as Hl. rewrite length_fmap in Hl. change (alg_pkts demo) with (rr_pkts demo). rewrite Hl. done.
  - exact Hc.
  - unfold in_sched. change (alg_pkts (c_si (sched (pdemo free)))) with (rr_pkts demo). rewrite app_nil_r, pdemo_addrs. exact HN.
  - unfold in_sched. change (alg_pkts (c_si (sched (pdemo free)))) with (rr_pkts demo). rewrite app_nil_r, elem_of_app, pdemo_addrs.
    intros [?|Hin]; [done|]. revert Hin. apply (bool_decide_eq_false_1 _). vm_compute. reflexivity.
Qed.

Lemma pdemo_two : pspat_ok (pdemo pdemo_cache) [1; 2] [].
Proof.
  apply pdemo_ok.
  - vm_compute. repeat split; discriminate.
  - apply (bool_decide_eq_true_1 _). vm_compute. reflexivity.
  - apply (bool_decide_eq_true_1 _). vm_compute. reflexivity.
Qed.

Lemma fun_sched_enqueue_accounts_witness :
  exists ret f', fun_sched_enqueue (pdemo pdemo_cache) 1 0 8192 700 5 1 = Some (ret, f').
Proof.
  destruct (fun_sched_enqueue_accounts (pdemo pdemo_cache) 1 [2] [] 1 0 8192 700 5 1 pdemo_two) as (ret & f' & E & _).
  - reflexivity.
  - split_and!; [by eexists; vm_compute|done|done|by vm_compute].
  - exists ret, f'. exact E.
Defined.

Lemma fun_sched_enqueue_exhausted_witness :
  fun_sched_enqueue (pdemo (mk_mbc 0 ∅)) 1 0 8192 700 5 1 = None.
Proof.
  apply (fun_sched_enqueue_exhausted (pdemo (mk_mbc 0 ∅)) []); [|reflexivity]. apply pdemo_ok; [done| |].
  - apply (bool_decide_eq_true_1 _). vm_compute. reflexivity.
  - apply not_elem_of_nil.
Defined.

Lemma sched_all_finish_releases_witness :
  exists n log f', sched_all_finish (pdemo pdemo_cache) = Some (n, log, f').
Proof.
  destruct (sched_all_finish_releases rr_always_ready (pdemo pdemo_cache) [1; 2] [] pdemo_two) as (n & log & f' & _ & _ & E & _).
  exists n, log, f'. exact E.
Defined.

(** A packet takes its length in ticks. *)
Definition demo_tsc (len : Z) : Z := Z.min (Z.max len 0) 65535.
Lemma demo_tsc_range len : 0 <= demo_tsc len <= 65535.
Proof. unfold demo_tsc. lia. Qed.

Lemma sched_turn_correct_witness :
  exists n log f1, sched_dequeue_sink demo_tsc (pdemo pdemo_cache) 5000 = Some (n, log, f1) /\ n <= 3.
Proof.
  destruct (sched_turn_correct rr_always_ready demo_tsc 65535 demo_tsc_range (pdemo pdemo_cache) [1; 2] [] 5000 pdemo_two)
    as (n & ms & f1 & _ & _ & E & _ & _ & Hn & _); [easy|easy|easy|easy|]. eexists n, _, f1. exact (conj E Hn).
Defined.

Lemma sched_dequeue_netmap_correct_witness :
  exists n log h f', sched_dequeue_netmap demo_tsc (fun i => (i + 1) mod 1024) (pdemo pdemo_cache) 5000 2 1023 = Some (n, log, h, f').
Proof.
  destruct (sched_dequeue_netmap_correct rr_always_ready demo_tsc 65535 demo_tsc_range (fun i => (i + 1) mod 1024) (pdemo pdemo_cache) [1; 2] [] 5000 2 1023 pdemo_two)
    as (ms & f' & E & _); [easy|easy|easy|easy|]. eexists _, _, _, f'. exact E.
Defined.

