(* ===== verification/Thread.v ===== *)
(** * The packet thread with the scheduler

    [process_packets] in scheduler mode and [process_packets_spin_many] of
    proxy/backend.c: one thread takes the packets of every client's transmit
    queue (vring_packed, the only device with [txq_acquire]), hands them to the
    scheduler of sched16/pspat.c, and gives the buffers back when the packets
    come out. *)

From stdpp Require Import gmap.
From S2P Require Import Prelude Abi Backend VringPacked VringInv VringGuest VringHost VringOoo.
From S2P Require Import Sched Pspat.
Import DnQueue SchedMain Fifo Pspat.
Open Scope Z_scope.

Module Thread.

(** What a turn uses of a [BpfhvBackend]: its transmit queue, with what the
    guest will do to it concurrently, and its memory map. *)
Record client := mk_client { cl_view : view; cl_txq : queue_io; cl_map : mem_map; cl_num_tx_bufs : Z }.

Section alg.
Context {A : Type} `{DnAlg A}.

(** The marking mode, and [mark_packet_fun] on the memory of the process. *)
Context (mode : Z) (hv_mark : Z -> Z -> Z).

(** [sched_enqueue] of the process for the transmit queue of client [j], which
    is queue 1 of the device.  The state [None] is that of a process that has
    dereferenced a null pointer. *)
Definition sched_for (j : Z) : Scheduler (option (sched_all A)) := {|
  mark_mode := mode;
  hv_mark_pkt_fun _ base len := hv_mark base len;
  sched_enqueue o v opaque_idx mark :=
    match o with
    | None => (0, None)
    | Some f =>
        match fun_sched_enqueue f j 1 (iov_base v) (iov_len v) opaque_idx mark with
        | Some (ret, f) => (ret, Some f)
        | None => (0, None)
        end
    end |}.

Definition acquire_fuel : nat := S (Z.to_nat BPFHV_BE_TX_BUDGET).

(** The loop over the clients that takes their packets; [dr0 j] is the value of
    the uninitialized variable [dr] for client [j]. *)
Context (dr0 : Z -> Z).

Fixpoint acquire_clients (j : Z) (cs : list client) (dropped : Z) (f : sched_all A)
    : option (Z * list client * sched_all A) :=
  match cs with
  | [] => Some (dropped, [], f)
  | c :: cs =>
      res ← vring_packed_txq_acquire (Scheduler0 := sched_for j) acquire_fuel (cl_map c) (cl_txq c) (v_vq (cl_view c))
              None (dr0 j) (Some f) (v_env (cl_view c));
      f ← ar_sched res;
      '(dropped, cs, f) ← acquire_clients (j + 1) cs (u64 (dropped + ar_dropped res)) f;
      Some (dropped, mk_client (ar_view res) (ar_txq res) (ar_map res) (cl_num_tx_bufs c) :: cs, f)
  end.

(** The calls of [txq_release] made while packets come out of the scheduler. *)
Fixpoint release_clients (log : list mdata) (cs : list client) : option (list client) :=
  match log with
  | [] => Some cs
  | d :: log =>
      c ← cs !! Z.to_nat (d_be d);
      let v := sync (cl_view c) in
      vq ← vring_packed_txq_release (v_vq v) (d_idx d);
      release_clients log (<[Z.to_nat (d_be d) := mk_client (mk_view vq (v_env v)) (cl_txq c) (cl_map c) (cl_num_tx_bufs c)]> cs)
  end.

(** The loop over the clients that notifies them; the result says which were
    interrupted. *)
Definition notify_client (c : client) : client * bool :=
  let v := sync (cl_view c) in
  let '(num_notified, txq, vq) := vring_packed_txq_notify (cl_txq c) (v_vq v) in
  let irq := z2b (q_notify txq) in
  let txq := if irq then upd_stats stats_irq txq else txq in
  (mk_client (mk_view vq (v_env v)) txq (cl_map c) (cl_num_tx_bufs c), irq).

Context (pkt_tsc : Z -> Z).

(** One turn of the loop of [process_packets_spin_many]. *)
Record turn := mk_turn {
  t_clients : list client;
  t_f : sched_all A;
  t_out : list (mbuf * mdata);
  t_irqs : list bool;
  t_sleep : option Z;
}.

Definition spin_turn (now : Z) (cs : list client) (f : sched_all A) : option turn :=
  '(dropped, cs, f) ← acquire_clients 0 cs 0 f;
  '(ndeq, log, f) ← sched_dequeue_sink pkt_tsc f now;
  cs ← release_clients (snd <$> log) cs;
  let '(cs, irqs) :=
    if (0 <? ndeq) || z2b dropped then ((fst ∘ notify_client) <$> cs, (snd ∘ notify_client) <$> cs)
    else (cs, []) in
  let '(f, sleep) := sched_idle_sleep f now ndeq in
  Some (mk_turn cs f log irqs sleep).

(** The loop; [nows] are the times of the turns made before the stop flag is
    seen. *)
Fixpoint spin_loop (nows : list Z) (cs : list client) (f : sched_all A) : option (list client * sched_all A) :=
  match nows with
  | [] => Some (cs, f)
  | now :: nows => t ← spin_turn now cs f; spin_loop nows (t_clients t) (t_f t)
  end.

Definition disable_kicks (c : client) : client :=
  mk_client (mk_view (vring_packed_notification (v_vq (cl_view c)) 0) (v_env (cl_view c))) (cl_txq c) (cl_map c) (cl_num_tx_bufs c).

Definition process_packets_spin_many (nows : list Z) (cs : list client) (f : sched_all A)
    : option (list client * sched_all A) :=
  spin_loop nows (disable_kicks <$> cs) f.

Definition num_mbufs (cs : list client) : Z := foldl (fun n c => u32 (n + cl_num_tx_bufs c)) 0 cs.

(** [process_packets]: the array of descriptors is at [cache], the clock shows
    [start]. *)
Definition process_packets (cache start : Z) (nows : list Z) (cs : list client) (f : sched_all A)
    : option (list client * sched_all A) :=
  f ← sched_all_start f (Z.to_nat (num_mbufs cs)) cache start;
  '(cs, f) ← process_packets_spin_many nows cs f;
  '(n, log, f) ← sched_all_finish f;
  cs ← release_clients log cs;
  Some (cs, f).

End alg.
End Thread.
Import Thread.

(** ** One client *)

(** The ids of the packets of client [j]. *)
Definition owned (ds : list mdata) (j : Z) : list Z := d_idx <$> filter (fun d => d_be d = j) ds.

Lemma owned_app ds ds' j : owned (ds ++ ds') j = owned ds j ++ owned ds' j.
Proof. unfold owned. by rewrite list.filter_app, fmap_app. Qed.

Lemma owned_cons d ds j : owned (d :: ds) j = (if decide (d_be d = j) then [d_idx d] else []) ++ owned ds j.
Proof. unfold owned. rewrite filter_cons. by case_decide. Qed.

#[export] Instance owned_proper : Proper (Permutation ==> eq ==> Permutation) owned.
Proof. intros ds ds' H j ? <-. unfold owned. by rewrite H. Qed.

Lemma owned_other ds j : Forall (fun d => d_be d <> j) ds -> owned ds j = [].
Proof.
  intros HF. induction HF as [|d ds Hd _ IH]; [done|]. by rewrite owned_cons, IH, decide_False.
Qed.

Lemma owned_all ds j : Forall (fun d => d_be d = j) ds -> owned ds j = d_idx <$> ds.
Proof.
  intros HF. induction HF as [|d ds Hd _ IH]; [done|]. by rewrite owned_cons, IH, decide_True.
Qed.

(** The taken buffers of the queue are those with the given ids, whose packets
    are in the scheduler, and those that were passed over because they do not
    lie in the memory of the guest. *)
Record client_ok (c : client) (gh : ghost) (bad ids : list Z) : Prop := {
  cl_acq : acq_bad bad (v_vq (cl_view c)) gh;
  cl_env : Forall (rely false) (v_env (cl_view c));
  cl_ids : ids_between (v_vq (cl_view c)) (uh gh) (ah gh) ≡ₚ ids ++ bad;
  cl_mem : mem_ok (cl_map c);
  cl_bad : forall p, uh gh <= p < ah gh -> id (slot (v_vq (cl_view c)) p) ∈ bad -> outside (cl_map c) (slot (v_vq (cl_view c)) p);
}.

#[export] Instance client_ok_proper : Proper (eq ==> eq ==> eq ==> Permutation ==> iff) client_ok.
Proof.
  intros c ? <- gh ? <- bad ? <- ids ids' HP. split; intros [H1 H2 H3 H4 H5]; constructor; try done.
  - by rewrite <- HP.
  - by rewrite HP.
Qed.

(** What happens to a queue while the buffers [ids] are given back in order:
    the guest finds them there unless it has already collected them. *)
Record returned (gh : ghost) (c' : client) (gh' : ghost) (ids : list Z) : Prop := {
  rt_uh : uh gh' = uh gh + Z.of_nat (length ids);
  rt_slot : forall k i, ids !! k = Some i -> ug gh' <= uh gh + Z.of_nat k ->
            id (slot (v_vq (cl_view c')) (uh gh + Z.of_nat k)) = i;
}.

Definition room_of (c : client) (gh : ghost) : Z := num_desc (v_vq (cl_view c)) - (ah gh - uh gh).

Lemma room_of_nonneg c gh bad ids : client_ok c gh bad ids -> 0 <= room_of c gh.
Proof.
  intros [[Hinv _ _ _ _] _ _ _ _]. unfold room_of. pose proof (gi_order _ _ (vi_guest _ _ Hinv)).
  destruct (hi_order _ _ (vi_host _ _ Hinv)). lia.
Qed.

Lemma ids_between_NoDup vq gh lo hi : vq_inv vq gh -> ug gh <= lo -> hi <= ag gh -> NoDup (ids_between vq lo hi).
Proof.
  intros Hinv Hlo Hhi. unfold ids_between. apply NoDup_fmap_2_strong; [|apply NoDup_seqZ].
  intros p q Hp%elem_of_range Hq%elem_of_range E. apply (id_inj _ _ _ _ (vi_guest _ _ Hinv)) in E; [done|lia..].
Qed.

(** A step of the guest, or a step of the host that moves no buffer. *)
Record calm vq (gh : ghost) vq' (gh' : ghost) : Prop := {
  ca_inv : vq_inv vq' gh';
  ca_uh : uh gh' = uh gh;
  ca_ah : ah gh' = ah gh;
  ca_rw : rw gh' = rw gh;
  ca_ug : ug gh <= ug gh';
  ca_same : num_desc vq' = num_desc vq /\ hv_map vq' = hv_map vq /\
            g_pending_inuse_counter (g vq') = g_pending_inuse_counter (g vq);
  ca_slot : forall p, ug gh' <= p < ag gh -> slot vq' p = slot vq p;
}.

Lemma evolved_calm vq gh vq' gh' : evolved vq gh vq' gh' -> calm vq gh vq' gh'.
Proof. intros [H1 H2 H3 H4 H5 _ (H6 & H7 & _ & H8 & _) H9 _]. by constructor. Qed.

Lemma notify_calm txq vq gh : vq_inv vq gh -> calm vq gh (snd (vring_packed_txq_notify txq vq)) gh.
Proof.
  intros Hinv. unfold vring_packed_txq_notify. destruct (0 <? _); simpl; constructor; try done.
  destruct Hinv as [Hg Hh Hf]. constructor; [by apply (guest_inv_update vq gh)|by destruct Hh|by destruct Hf].
Qed.

Lemma client_calm c gh bad ids v' gh' txq :
  client_ok c gh bad ids -> Forall (rely false) (v_env v') -> calm (v_vq (cl_view c)) gh (v_vq v') gh' ->
  let c' := mk_client v' txq (cl_map c) (cl_num_tx_bufs c) in
  client_ok c' gh' bad ids /\ room_of c' gh' = room_of c gh /\
  forall gh0 l, returned gh0 c gh l -> returned gh0 c' gh' l.
Proof.
  intros [[Hinv Hrw Hlen Hc Hm] _ HP Hmem Hout] HF He c'.
  pose proof He as [Hinv' Euh Eah Erw Hug (En & Em & Ec) Hs].
  destruct (hi_order _ _ (vi_host _ _ Hinv)), (hi_order _ _ (vi_host _ _ Hinv')).
  assert (Hids : ids_between (v_vq v') (uh gh) (ah gh) = ids_between (v_vq (cl_view c)) (uh gh) (ah gh)).
  { apply map_range_ext. intros p Hp. by rewrite Hs by lia. }
  split_and!.
  - constructor; simpl; [|done|by rewrite Euh, Eah, Hids|done|intros p Hp; rewrite Hs by lia; apply Hout; lia].
    constructor; [done|congruence|congruence|congruence|]. intros p Hp Hbad. unfold mapped, get_map in *. rewrite Hs in * by lia. rewrite Em, En. apply Hm; [lia|done].
  - unfold room_of. simpl. by rewrite En, Euh, Eah.
  - intros gh0 l [R1 R2]. constructor; [lia|]. intros k i Hk Hge. rewrite <- (R2 k i Hk) by lia.
    apply lookup_lt_Some in Hk. simpl. rewrite Hs by lia. done.
Qed.

Lemma client_sync c gh bad ids :
  client_ok c gh bad ids -> exists gh', let c' := mk_client (sync (cl_view c)) (cl_txq c) (cl_map c) (cl_num_tx_bufs c) in
    client_ok c' gh' bad ids /\ room_of c' gh' = room_of c gh /\ (forall gh0 l, returned gh0 c gh l -> returned gh0 c' gh' l).
Proof.
  intros Hok. destruct (sync_spec false (cl_view c) gh) as (gh' & [_ HF] & [He _] & _).
  { split; [apply (cl_acq _ _ _ _ Hok)|apply (cl_env _ _ _ _ Hok)]. }
  exists gh'. by apply client_calm; [..|apply evolved_calm].
Qed.

(** One buffer is given back. *)
Lemma client_release c gh bad i ids :
  client_ok c gh bad (i :: ids) ->
  exists vq', vring_packed_txq_release (v_vq (cl_view c)) i = Some vq' /\
    let c' := mk_client (mk_view vq' (v_env (cl_view c))) (cl_txq c) (cl_map c) (cl_num_tx_bufs c) in
    client_ok c' (gh_release gh) bad ids /\ room_of c' (gh_release gh) = room_of c gh + 1 /\
    forall gh0 l, returned gh0 c gh l -> returned gh0 c' (gh_release gh) (l ++ [i]).
Proof.
  intros [Hacq HF HP Hmem Hout]. pose proof Hacq as [Hinv _ _ _ Hm]. pose proof (gi_order _ _ (vi_guest _ _ Hinv)).
  destruct (hi_order _ _ (vi_host _ _ Hinv)).
  pose proof (ids_between_NoDup _ _ (uh gh) (ah gh) Hinv ltac:(lia) ltac:(lia)) as HN. rewrite HP in HN.
  assert (Hin : i ∈ ids_between (v_vq (cl_view c)) (uh gh) (ah gh)) by (rewrite HP; left).
  apply list_elem_of_fmap in Hin as (p & -> & Hp%elem_of_range).
  assert (Hbad : id (slot (v_vq (cl_view c)) p) ∉ bad).
  { apply list.NoDup_cons in HN as [HN _]. intros Hb. apply HN, elem_of_app. by right. }
  destruct (release_spec bad _ gh p Hacq ltac:(lia) ltac:(lia) (Hm p Hp Hbad)) as (vq' & Hr & Hacq' & _ & En & _ & _ & Hb & Hids).
  exists vq'. split; [done|]. assert (Hfirst : id (slot vq' (uh gh)) = id (slot (v_vq (cl_view c)) p))
    by (rewrite Hids by lia; unfold swap; by rewrite Z.eqb_refl).
  split_and!.
  - constructor; [done|done| |done|].
    2:{ simpl. intros q Hq. specialize (Hb q ltac:(lia)). injection Hb as _ Ea El. unfold outside. simpl in Ea, El. rewrite Hids, Ea, El by lia.
        apply Hout. apply swap_range; lia. }
    simpl. apply (Permutation_cons_inv (a := id (slot (v_vq (cl_view c)) p))).
    change (?x :: ids ++ bad) with ((x :: ids) ++ bad). rewrite <- HP, <- Hfirst. unfold ids_between.
    rewrite <- (map_cons (fun p => id (slot vq' p)) (uh gh)), <- range_cons by lia.
    apply (map_range_swap (fun p => id (slot (v_vq (cl_view c)) p)) _ (uh gh) p); [lia..|]. intros q Hq. apply Hids. lia.
  - unfold room_of. simpl. rewrite En. lia.
  - intros gh0 l [R1 R2]. constructor; [rewrite length_app; simpl; lia|]. simpl.
    intros k i [Hk|[Hk [Hk0 <-]%list_lookup_singleton_Some]]%lookup_app_Some Hge.
    + rewrite Hids by (apply lookup_lt_Some in Hk; lia). rewrite <- (R2 k i Hk) by lia. apply lookup_lt_Some in Hk.
      unfold swap. by rewrite !(proj2 (Z.eqb_neq _ _)) by lia.
    + rewrite <- Hfirst. do 2 f_equal. lia.
Qed.

(** ** All the clients *)

(** The clients from number [j0] on, each with its ghost state and the ids of
    the buffers that were passed over. *)
Inductive clients_at (ds : list mdata) : Z -> list client -> list (ghost * list Z) -> Prop :=
| clients_nil j0 : clients_at ds j0 [] []
| clients_cons j0 c cs gh bad gs :
    client_ok c gh bad (owned ds j0) -> clients_at ds (j0 + 1) cs gs -> clients_at ds j0 (c :: cs) ((gh, bad) :: gs).

Lemma clients_at_inv ds j0 cs gs :
  clients_at ds j0 cs gs ->
  match cs with
  | [] => gs = []
  | c :: cs => exists gh bad gs', gs = (gh, bad) :: gs' /\ client_ok c gh bad (owned ds j0) /\ clients_at ds (j0 + 1) cs gs'
  end.
Proof. destruct 1; [done|eauto 6]. Qed.

Lemma clients_at_owned ds ds' j0 cs gs :
  (forall j, j0 <= j -> owned ds' j ≡ₚ owned ds j) -> clients_at ds j0 cs gs -> clients_at ds' j0 cs gs.
Proof.
  intros Hd H. induction H as [|j0 c cs gh bad gs Hc _ IH]; constructor; [by rewrite Hd by lia|]. apply IH. intros. apply Hd. lia.
Qed.

(** Buffers that the guests may still publish. *)
Fixpoint room (cs : list client) (gs : list (ghost * list Z)) : Z :=
  match cs, gs with
  | c :: cs, (gh, _) :: gs => room_of c gh + room cs gs
  | _, _ => 0
  end.

Lemma room_nonneg ds j0 cs gs : clients_at ds j0 cs gs -> 0 <= room cs gs.
Proof. induction 1 as [|j0 c cs gh bad gs Hc _ IH]; simpl; [lia|]. pose proof (room_of_nonneg _ _ _ _ Hc). lia. Qed.

(** The buffers of the packets of a list, from client [j0] on, have been given
    back. *)
Inductive all_returned (out : list mdata) : Z -> list (ghost * list Z) -> list client -> list (ghost * list Z) -> Prop :=
| returned_nil j0 : all_returned out j0 [] [] []
| returned_cons j0 gh0 bad0 gs0 c gh bad gs cs :
    returned gh0 c gh (owned out j0) -> all_returned out (j0 + 1) gs0 cs gs ->
    all_returned out j0 ((gh0, bad0) :: gs0) (c :: cs) ((gh, bad) :: gs).

Lemma all_returned_owned out out' j0 gs0 cs gs :
  (forall j, j0 <= j -> owned out' j = owned out j) -> all_returned out j0 gs0 cs gs -> all_returned out' j0 gs0 cs gs.
Proof.
  intros Hd H. induction H as [|j0 gh0 bad0 gs0 c gh bad gs cs Hr _ IH]; constructor; [by rewrite Hd by lia|].
  apply IH. intros. apply Hd. lia.
Qed.

(** Every client makes a step. *)
Lemma clients_step (F : client -> client) ds j0 cs gs out gs0 :
  (forall c gh bad ids, client_ok c gh bad ids -> exists gh', client_ok (F c) gh' bad ids /\ room_of (F c) gh' = room_of c gh /\
     forall gh0 l, returned gh0 c gh l -> returned gh0 (F c) gh' l) ->
  clients_at ds j0 cs gs -> all_returned out j0 gs0 cs gs ->
  exists gs', clients_at ds j0 (F <$> cs) gs' /\ room (F <$> cs) gs' = room cs gs /\ all_returned out j0 gs0 (F <$> cs) gs'.
Proof.
  intros HF H. revert gs0. induction H as [|j0 c cs gh bad gs Hc _ IH]; intros gs0 Hr;
    inversion Hr as [|? gh0 bad0 gs1 ? ? ? ? ? Hr1 Hr2]; subst.
  { exists []. split_and!; constructor. }
  destruct (HF _ _ _ _ Hc) as (gh' & H1 & H2 & H3). destruct (IH _ Hr2) as (gs' & H4 & H5 & H6).
  exists ((gh', bad) :: gs'). split_and!; [by constructor| |by constructor; auto].
  change (room_of (F c) gh' + room (F <$> cs) gs' = room_of c gh + room cs gs). lia.
Qed.

(** The client of the first packet of the list gives its buffer back. *)
Lemma clients_release d ds j0 cs gs out gs0 :
  clients_at (d :: ds) j0 cs gs -> all_returned out j0 gs0 cs gs -> j0 <= d_be d < j0 + Z.of_nat (length cs) ->
  exists c vq gs', let k := Z.to_nat (d_be d - j0) in cs !! k = Some c /\
    vring_packed_txq_release (v_vq (sync (cl_view c))) (d_idx d) = Some vq /\
    let cs' := <[k := mk_client (mk_view vq (v_env (sync (cl_view c)))) (cl_txq c) (cl_map c) (cl_num_tx_bufs c)]> cs in
    clients_at ds j0 cs' gs' /\ room cs' gs' = room cs gs + 1 /\ all_returned (out ++ [d]) j0 gs0 cs' gs'.
Proof.
  intros H. revert gs0. induction H as [|j0 c cs gh bad gs Hc Hcs IH]; intros gs0 Hr Hj; [simpl in Hj; lia|].
  inversion Hr as [|? gh0 bad0 gs1 ? ? ? ? ? Hr1 Hr2]; subst. destruct (decide (d_be d = j0)) as [E|Hne].
  - exists c. rewrite owned_cons, decide_True in Hc by done. destruct (client_sync c gh bad _ Hc) as (gh1 & Hc1 & Hrm1 & Hret1).
    destruct (client_release _ gh1 bad _ _ Hc1) as (vq & Hrel & Hc2 & Hrm2 & Hret2). exists vq, ((gh_release gh1, bad) :: gs).
    cbv zeta. rewrite E, Z.sub_diag. simpl. split_and!; [done|done|..].
    + constructor; [done|]. apply (clients_at_owned (d :: ds)); [|done]. intros j Hj0. rewrite owned_cons, decide_False by lia. done.
    + simpl in Hrm2. lia.
    + constructor.
      * rewrite owned_app, owned_cons, decide_True by done. apply Hret2. by apply Hret1.
      * apply (all_returned_owned out); [|done]. intros j Hj0. by rewrite owned_app, owned_cons, decide_False, app_nil_r by lia.
  - destruct (IH _ Hr2) as (c' & vq & gs' & H1 & H2 & H3 & H4 & H5); [simpl in Hj; lia|].
    exists c', vq, ((gh, bad) :: gs'). cbv zeta. replace (Z.to_nat (d_be d - j0)) with (S (Z.to_nat (d_be d - (j0 + 1)))) by lia.
    simpl. split_and!; [done|done|..].
    + constructor; [|done]. by rewrite owned_cons, decide_False in Hc.
    + lia.
    + constructor; [|done]. by rewrite owned_app, owned_cons, decide_False, app_nil_r.
Qed.

Lemma all_returned_refl ds j0 cs gs : clients_at ds j0 cs gs -> all_returned [] j0 gs cs gs.
Proof. induction 1 as [|j0 c cs gh bad gs Hc _ IH]; constructor; [|done]. constructor; [simpl; lia|done]. Qed.

(** All the buffers of the packets that come out are given back. *)
Lemma release_clients_spec log : forall ds cs gs out gs0,
  clients_at (log ++ ds) 0 cs gs -> all_returned out 0 gs0 cs gs -> Forall (fun d => 0 <= d_be d < Z.of_nat (length cs)) log ->
  exists cs' gs', release_clients log cs = Some cs' /\ length cs' = length cs /\ clients_at ds 0 cs' gs' /\
    room cs' gs' = room cs gs + Z.of_nat (length log) /\ all_returned (out ++ log) 0 gs0 cs' gs'.
Proof.
  induction log as [|d log IH]; intros ds cs gs out gs0 Hc Hr HF.
  { exists cs, gs. rewrite app_nil_r. split_and!; try done. simpl. lia. }
  apply list.Forall_cons in HF as [Hd HF].
  destruct (clients_release d (log ++ ds) 0 cs gs out gs0 Hc Hr ltac:(lia)) as (c & vq & gs1 & H1 & H2 & H3 & H4 & H5).
  rewrite Z.sub_0_r in *. simpl. rewrite H1. simpl. rewrite H2. simpl.
  destruct (IH ds _ gs1 (out ++ [d]) gs0 H3 H5) as (cs' & gs' & H6 & H7 & H8 & H9 & H10); [by rewrite length_insert|].
  exists cs', gs'. rewrite length_insert in H7. rewrite <- app_assoc in H10. split_and!; try done. lia.
Qed.

(** ** The scheduler has room *)

(** An algorithm that is always ready, and that takes packets of [flows]
    classes as long as it holds fewer than [cap]. *)
Class DnAlgRoom (A : Type) `{DnAlgOk A} (flows cap : Z) := {
  room_cap : cap < 2 ^ 31 - 2;
  room_ready : forall s : A, alg_ok s -> alg_ready s;
  room_accepts : forall (s : A) m, alg_ok s -> 0 <= m_flow m < flows -> m_addr m ∉ (m_addr <$> alg_pkts s) -> alg_accepts s m;
  room_enqueue : forall (s : A) m, alg_ok s -> 0 <= m_flow m < flows -> Z.of_nat (length (alg_pkts s)) < cap -> fst (alg_enqueue s m) = 0;
}.

Section thread.
Context {A : Type} `{DnAlgRoom A flows cap} (mode : Z) (hv_mark : Z -> Z -> Z) (dr0 : Z -> Z).

(** No packet is given a class that the scheduler does not have. *)
Hypothesis flows_ok : 0 < flows <= 2 ^ 16.
Hypothesis marks_ok : mode = MARK_MODE_NO_MARK \/ (mode = MARK_MODE_HV /\ forall base len, u32 (hv_mark base len) < flows).

(** Where the packets in the scheduler come from. *)
Definition held (f : sched_all A) : list mdata := (fun m => mdatas f !!! m_addr m) <$> alg_pkts (c_si (sched f)).
Definition npkts (f : sched_all A) : Z := Z.of_nat (length (alg_pkts (c_si (sched f)))).

Lemma held_length f : Z.of_nat (length (held f)) = npkts f.
Proof. unfold held, npkts. by rewrite length_fmap. Qed.

(** A packet is handed over. *)
Lemma enqueue_room f a l j base len i mark :
  pspat_ok f (a :: l) [] -> npkts f < cap -> max_mark f = flows -> 0 <= mark < flows ->
  exists f', fun_sched_enqueue f j 1 base len i mark = Some (0, f') /\ pspat_ok f' l [] /\
    held f' ≡ₚ mk_mdata base j 1 i :: held f /\ max_mark f' = max_mark f /\ next_link_idle f' = next_link_idle f /\
    sched_batch_limit f' = sched_batch_limit f.
Proof.
  intros Hok Hn Em Hm. pose proof Hok as [[Hs [Hp _]] _ HN _]. pose proof room_cap as Hcap. fold (npkts f) in Hp.
  assert (Hu : u16 mark = mark) by (apply u16_id; unfold is_u16; lia).
  assert (Hfresh : a ∉ (m_addr <$> alg_pkts (c_si (sched f)))).
  { apply list.NoDup_cons in HN as [HN _]. intros Hin. apply HN, elem_of_app. right. apply elem_of_app. by left. }
  destruct (sched_enq (sched f) (mk_mbuf a len (u16 mark))) as [ret c] eqn:E.
  destruct (enqueue_spec f a l [] j 1 base len i mark ret c Hok) as (mc & Hf & Hcases); [lia| |lia|done|].
  { apply room_accepts; simpl; [done|rewrite Hu; lia|done]. }
  assert (ret = 0) as ->.
  { unfold sched_enq in E. pose proof (room_enqueue (c_si (sched f)) (mk_mbuf a len (u16 mark)) Hs ltac:(simpl; rewrite Hu; lia) Hn) as Hret.
    destruct (alg_enqueue _ _) as [r si]. simpl in Hret. subst r. simpl in E. by injection E as <- _. }
  destruct Hcases as [(_ & Hok' & Hpk)|[? _]]; [|done]. eexists. split; [exact Hf|]. split_and!; try done.
  unfold held. change (mdatas (fetched _ _ _ _ _)) with (<[a := mk_mdata base j 1 i]> (mdatas f)).
  change (c_si (sched (fetched _ _ _ _ _))) with (c_si c). rewrite Hpk, fmap_cons. cbn [m_addr]. rewrite fin_maps.lookup_total_insert_eq.
  assert (Hsame : (fun m => <[a := mk_mdata base j 1 i]> (mdatas f) !!! m_addr m) <$> alg_pkts (c_si (sched f)) =
    (fun m => mdatas f !!! m_addr m) <$> alg_pkts (c_si (sched f))); [|by rewrite Hsame].
  apply list_fmap_ext. intros k m Hk. apply fin_maps.lookup_total_insert_ne. intros ->. apply Hfresh, list_elem_of_fmap.
  exists m. split; [done|]. by eapply list_elem_of_lookup_2.
Qed.

Lemma mark_range j s d base m :
  mark_of (Scheduler0 := sched_for (A := A) mode hv_mark j) s d base = Some m -> 0 <= m < flows.
Proof.
  unfold mark_of. simpl. destruct marks_ok as [->|[-> Hm]]; simpl.
  - intros [= <-]. lia.
  - intros [= <-]. split; [apply u32_range|apply Hm].
Qed.

(** What the scheduler has after the packets of the descriptors [enq] of
    client [j] were handed to it. *)
Definition handed_over (f0 : sched_all A) (l0 : list Z) (j : Z) (enq : list vring_packed_desc) (o : option (sched_all A)) : Prop :=
  exists f l ds, o = Some f /\ pspat_ok f l [] /\ Z.of_nat (length l) + npkts f = Z.of_nat (length l0) + npkts f0 /\
    (length l + length enq = length l0)%nat /\ held f ≡ₚ ds ++ held f0 /\ Forall (fun d => d_be d = j) ds /\
    d_idx <$> ds ≡ₚ map id enq /\ max_mark f = max_mark f0 /\ next_link_idle f = next_link_idle f0 /\
    sched_batch_limit f = sched_batch_limit f0.

Lemma handed_over_room f0 l0 j n :
  n <= Z.of_nat (length l0) -> Z.of_nat (length l0) + npkts f0 <= cap -> max_mark f0 = flows ->
  has_room (Scheduler0 := sched_for (A := A) mode hv_mark j) (handed_over f0 l0 j) n.
Proof.
  intros Hn Hcap Hmax enq o d base m (f & l & ds & -> & Hok & Hsum & Hlen & HP & HF & Hids & Em & El & Eb) Henq Hm.
  apply mark_range in Hm. destruct l as [|a l]; [simpl in *; lia|].
  destruct (enqueue_room f a l j base (len d) (id d) m Hok) as (f' & E & Hok' & HP' & Em' & El' & Eb'); [simpl in *; lia|congruence|done|].
  simpl. rewrite E. split; [vm_compute; congruence|]. exists f', l, (mk_mdata base j 1 (id d) :: ds).
  split_and!; try done; try congruence.
  - rewrite <- !held_length, HP'. rewrite <- !held_length in Hsum. simpl in *. lia.
  - rewrite length_app. simpl in *. lia.
  - by rewrite HP', HP.
  - by constructor.
  - rewrite map_app. simpl. rewrite Hids. by rewrite Permutation_app_comm.
Qed.

Lemma outside_same m m' d : mem_ok m -> same_regions m m' -> outside m d -> outside m' d.
Proof.
  intros Hm Hs (m1 & Hs1 & Ht). exists m1. split; [|done]. intros _. destruct (Hs Hm) as [_ E]. destruct (Hs1 Hm) as [Hm1 E1].
  split; [done|]. by rewrite E1, E.
Qed.

(** An id stands for one descriptor of the queue. *)
Lemma outside_taken m vq gh ds (bad : list Z) :
  vq_inv vq gh -> descs vq (uh gh) (ah gh) = ds -> (forall i, i ∈ bad -> exists d, d ∈ ds /\ id d = i /\ outside m d) ->
  forall p, uh gh <= p < ah gh -> id (slot vq p) ∈ bad -> outside m (slot vq p).
Proof.
  intros Hinv <- Hb p Hp (d & Hd & E & Hout)%Hb. apply list_elem_of_fmap in Hd as (q & -> & Hq%elem_of_range).
  destruct (hi_order _ _ (vi_host _ _ Hinv)). apply (id_inj _ _ _ _ (vi_guest _ _ Hinv)) in E; [by subst q|lia..].
Qed.

(** The packets of one client are taken. *)
Lemma client_acquire j c gh bad f l R :
  client_ok c gh bad (owned (held f) j) -> pspat_ok f l [] -> room_of c gh + R <= Z.of_nat (length l) -> 0 <= R ->
  Z.of_nat (length l) + npkts f <= cap -> max_mark f = flows ->
  exists res f' l' gh' bad' ds,
    vring_packed_txq_acquire (Scheduler0 := sched_for (A := A) mode hv_mark j) acquire_fuel (cl_map c) (cl_txq c)
      (v_vq (cl_view c)) None (dr0 j) (Some f) (v_env (cl_view c)) = Some res /\ ar_sched res = Some f' /\
    let c' := mk_client (ar_view res) (ar_txq res) (ar_map res) (cl_num_tx_bufs c) in
    client_ok c' gh' bad' (owned (held f') j) /\ uh gh' = uh gh /\ pspat_ok f' l' [] /\
    room_of c' gh' + R <= Z.of_nat (length l') /\ Z.of_nat (length l') + npkts f' = Z.of_nat (length l) + npkts f /\
    held f' ≡ₚ ds ++ held f /\ Forall (fun d => d_be d = j) ds /\
    max_mark f' = max_mark f /\ next_link_idle f' = next_link_idle f /\ sched_batch_limit f' = sched_batch_limit f.
Proof.
  intros [Hacq HF HP Hmem Hout] Hok Hroom HR Hcap Hmax. set (V := v_vq (cl_view c)) in *.
  destruct (acquire_room (Scheduler0 := sched_for (A := A) mode hv_mark j) (handed_over f l j) acquire_fuel (cl_map c) (cl_txq c)
    V gh None (dr0 j) (Some f) (v_env (cl_view c)) bad Hacq HF) as (res & gh' & new & hist & HA).
  { unfold mark_mode_ok. simpl. destruct marks_ok as [->|[-> _]]; auto. }
  { apply handed_over_room; [unfold room_of in Hroom; fold V in Hroom; lia|done|done]. }
  { exists f, l, []. split_and!; try done. }
  { vm_compute. done. }
  cbv zeta in HA. destruct HA as (HA & _ & _ & _ & _ & Hacq' & Euh & Eah & HF' & En & (enq & nb & HI & Ebad & Hhist & Hsm & Hnb) & Hcnt & Hdesc).
  destruct HI as (f' & l' & ds & Es & Hok' & Hsum & Hlen & Hheld & Hbe & Hids & Em & El & Eb).
  set (bad' := k_bad _) in *. exists res, f', l', gh', bad', ds. cbv zeta. simpl in Ebad.
  assert (Hlh : (length enq <= length hist)%nat) by (rewrite Hhist, length_app; lia).
  split_and!; try done.
  - constructor; [done|done| |by apply Hsm|].
    2:{ intros p Hp Hin. apply (outside_same (cl_map c)); [done|done|]. revert p Hp Hin. simpl. rewrite Ebad.
        apply (outside_taken (cl_map c) _ gh' (descs V (uh gh) (ah gh) ++ hist) _ (ai_inv _ _ _ Hacq') Hdesc).
        intros i [Hi|Hi]%elem_of_app.
        - assert (Hi2 : i ∈ ids_between V (uh gh) (ah gh)) by (rewrite HP; apply elem_of_app; by right).
          apply list_elem_of_fmap in Hi2 as (q & -> & Hq). exists (slot V q). split_and!; [|done|apply Hout; [by apply elem_of_range|done]].
          apply elem_of_app. left. apply list_elem_of_fmap. eauto.
        - apply list_elem_of_fmap in Hi as (d & -> & Hd). exists d. split_and!; [|done|by eapply list.Forall_forall].
          apply elem_of_app. right. rewrite Hhist. apply elem_of_app. by right. }
    simpl. unfold ids_between. rewrite <- (map_map (slot (v_vq (ar_view res))) id).
    fold (descs (v_vq (ar_view res)) (uh gh') (ah gh')). rewrite Hdesc, map_app, Hhist, map_app. unfold descs. rewrite map_map.
    fold (ids_between V (uh gh) (ah gh)). rewrite HP, Ebad, Hheld, owned_app, (owned_all ds j Hbe), Hids.
    rewrite <- !app_assoc, (Permutation_app_swap_app bad (map id enq)). apply Permutation_app_swap_app.
  - unfold room_of in *. simpl. fold V in Hroom. rewrite En, Euh, Eah. lia.
Qed.

Lemma acquire_clients_spec cs : forall j gs f l R dropped,
  clients_at (held f) j cs gs -> pspat_ok f l [] -> room cs gs + R <= Z.of_nat (length l) -> 0 <= R ->
  Z.of_nat (length l) + npkts f <= cap -> max_mark f = flows ->
  exists dropped' cs' gs' f' l' ds, acquire_clients mode hv_mark dr0 j cs dropped f = Some (dropped', cs', f') /\
    length cs' = length cs /\ clients_at (held f') j cs' gs' /\ all_returned [] j gs cs' gs' /\ pspat_ok f' l' [] /\
    room cs' gs' + R <= Z.of_nat (length l') /\ Z.of_nat (length l') + npkts f' = Z.of_nat (length l) + npkts f /\
    held f' ≡ₚ ds ++ held f /\ Forall (fun d => j <= d_be d < j + Z.of_nat (length cs)) ds /\
    max_mark f' = max_mark f /\ next_link_idle f' = next_link_idle f /\ sched_batch_limit f' = sched_batch_limit f.
Proof.
  induction cs as [|c cs IH]; intros j gs f l R dropped Hcs Hok Hroom HR Hcap Hmax; pose proof (clients_at_inv _ _ _ _ Hcs) as Hinv; simpl in Hinv.
  { subst gs. exists dropped, [], [], f, l, []. split_and!; try done. constructor. }
  destruct Hinv as (gh & bad & gs1 & -> & Hc & Hcs1).
  simpl in Hroom. pose proof (room_nonneg _ _ _ _ Hcs1) as Hr0. pose proof (room_of_nonneg _ _ _ _ Hc) as Hr1.
  destruct (client_acquire j c gh bad f l (room cs gs1 + R) Hc Hok) as (res & f1 & l1 & gh1 & bad1 & ds1 & E1 & Es & Hc1 & Eu & Hok1 & Hroom1 & Hsum1 & HP1 & Hbe1 & Em1 & El1 & Eb1);
    [lia|lia|lia|done|]. set (c1 := mk_client _ _ _ _) in *. pose proof (room_of_nonneg _ _ _ _ Hc1) as Hr2.
  assert (Hcs2 : clients_at (held f1) (j + 1) cs gs1).
  { apply (clients_at_owned (held f)); [|done]. intros k Hk. rewrite HP1, owned_app, owned_other; [done|].
    eapply list.Forall_impl; [exact Hbe1|]. intros d ->. lia. }
  destruct (IH (j + 1) gs1 f1 l1 (room_of c1 gh1 + R) (u64 (dropped + ar_dropped res)) Hcs2 Hok1)
    as (dr' & cs' & gs' & f' & l' & ds & E & Hlen & Hcs' & Hret & Hok' & Hroom' & Hsum & HP & Hbe & Em & El & Eb); [lia|lia|lia|congruence|].
  exists dr', (c1 :: cs'), ((gh1, bad1) :: gs'), f', l', (ds ++ ds1). simpl. rewrite E1. simpl. rewrite Es. simpl. rewrite E. simpl.
  split_and!; try done; try lia; try congruence.
  - constructor; [|done]. rewrite HP, owned_app, (owned_other ds j); [done|]. eapply list.Forall_impl; [exact Hbe|]. simpl. intros d Hd. lia.
  - constructor; [|done]. constructor; [simpl; lia|done].
  - rewrite HP, HP1. by rewrite app_assoc.
  - apply list.Forall_app. split; (eapply list.Forall_impl; [eassumption|]); simpl; intros d Hd; lia.
Qed.

(** ** The turns of the thread *)

Context (pkt_tsc : Z -> Z) (P : Z).
Hypothesis tsc_range : forall len, 0 <= pkt_tsc len <= P.

(** Between two turns: the taken buffers of every queue are those of its
    packets in the scheduler, and there is a descriptor for each buffer that
    the guests can still publish. *)
Record thread_ok (cs : list client) (gs : list (ghost * list Z)) (f : sched_all A) : Prop := {
  th_clients : clients_at (held f) 0 cs gs;
  th_range : Forall (fun d => 0 <= d_be d < Z.of_nat (length cs)) (held f);
  th_pspat : exists l, pspat_ok f l [] /\ room cs gs <= Z.of_nat (length l) /\ Z.of_nat (length l) + npkts f <= cap;
  th_conf : max_mark f = flows /\ 0 <= sched_batch_limit f < 2 ^ 16 /\ 0 <= next_link_idle f;
}.

Lemma client_notify c gh bad ids :
  client_ok c gh bad ids -> exists gh', let c' := fst (notify_client c) in
    client_ok c' gh' bad ids /\ room_of c' gh' = room_of c gh /\ (forall gh0 l, returned gh0 c gh l -> returned gh0 c' gh' l).
Proof.
  intros Hok. destruct (client_sync c gh bad ids Hok) as (gh1 & Hok1 & Hr1 & Hret1). exists gh1. unfold notify_client.
  set (v := sync (cl_view c)) in *. set (c1 := mk_client v _ _ _) in *.
  pose proof (notify_calm (cl_txq c) (v_vq v) gh1 (ai_inv _ _ _ (cl_acq _ _ _ _ Hok1))) as Hcalm.
  destruct (vring_packed_txq_notify (cl_txq c) (v_vq v)) as [[n txq] vq]. simpl in *.
  destruct (client_calm c1 gh1 bad ids (mk_view vq (v_env v)) gh1 (if z2b (q_notify txq) then upd_stats stats_irq txq else txq) Hok1)
    as (N1 & N2 & N3); [apply (cl_env _ _ _ _ Hok1)|done|]. split_and!; [done|simpl in *; lia|auto].
Qed.

Lemma turn_dequeue (f : sched_all A) l now :
  pspat_ok f l [] -> 0 <= next_link_idle f -> 0 <= now -> now + P < 2 ^ 64 -> 0 <= sched_batch_limit f < 2 ^ 16 ->
  exists n log f1 f2 sl l', sched_dequeue_sink pkt_tsc f now = Some (n, log, f1) /\ sched_idle_sleep f1 now n = (f2, sl) /\
    pspat_ok f2 l' [] /\ Z.of_nat (length l') = Z.of_nat (length l) + Z.of_nat (length log) /\
    held f ≡ₚ (snd <$> log) ++ held f2 /\
    max_mark f2 = max_mark f /\ sched_batch_limit f2 = sched_batch_limit f /\ 0 <= next_link_idle f2.
Proof.
  intros Hok Hn0 Hnow Hw Hlim. unfold sched_dequeue_sink.
  destruct (sink_loop_spec room_ready pkt_tsc P tsc_range (S (Z.to_nat (sched_batch_limit f))) f l [] now 0 Hok Hn0 Hw)
    as (ms & f' & E & [D1 D2 D3 D4 D5 D6 (D7 & D8 & _)] & _); [lia|lia|lia|]. rewrite E. cbn [mbind option_bind].
  set (f1 := on_counts _ _ _ f'). destruct (sched_idle_sleep f1 now (0 + Z.of_nat (length ms))) as [f2 sl] eqn:Es.
  destruct (idle_sleep_same _ _ _ _ _ Es) as (S1 & S2 & S3 & S4 & S5 & S6).
  eexists _, _, f1, f2, sl, _. split; [done|]. split; [done|]. split; [by eapply pspat_ok_same|]. split_and!.
  - rewrite length_app, length_reverse, !length_fmap. lia.
  - unfold held. rewrite S1, S3. simpl. rewrite D3, <- list_fmap_compose, D2, fmap_app. done.
  - rewrite S4. done.
  - rewrite S5. done.
  - pose proof (link_time_nonneg pkt_tsc P tsc_range ms). destruct S6 as [-> | ->]; simpl; lia.
Qed.

Lemma spin_turn_spec cs gs f now :
  thread_ok cs gs f -> 0 <= now -> now + P < 2 ^ 64 ->
  exists t gs', spin_turn mode hv_mark dr0 pkt_tsc now cs f = Some t /\ thread_ok (t_clients t) gs' (t_f t) /\
    length (t_clients t) = length cs /\ all_returned (snd <$> t_out t) 0 gs (t_clients t) gs'.
Proof.
  intros [Hcs Hrange (l & Hok & Hroom & Hcap) (Hmax & Hlim & Hlink)] Hnow Hw. unfold spin_turn.
  destruct (acquire_clients_spec cs 0 gs f l 0 0 Hcs Hok) as (dr & cs1 & gs1 & f1 & l1 & ds & E1 & Hlen1 & Hcs1 & Hret1 & Hok1 & Hroom1 & Hsum1 & HP1 & Hbe & Em1 & El1 & Eb1);
    [lia|lia|lia|done|]. rewrite E1. cbn [mbind option_bind].
  destruct (turn_dequeue f1 l1 now Hok1) as (n & log & f2 & f3 & sl & l3 & E2 & E3 & Hok3 & Hl3 & HP3 & Em3 & Eb3 & El3); [lia|lia|lia|lia|].
  rewrite E2. cbn [mbind option_bind].
  assert (Hrange1 : Forall (fun d => 0 <= d_be d < Z.of_nat (length cs1)) ((snd <$> log) ++ held f3)).
  { rewrite <- HP3, HP1, Hlen1. apply list.Forall_app. by split. }
  apply list.Forall_app in Hrange1 as [Hr1 Hr2].
  destruct (release_clients_spec (snd <$> log) (held f3) cs1 gs1 [] gs) as (cs2 & gs2 & E4 & Hlen2 & Hcs2 & Hroom2 & Hret2); [|done|done|].
  { apply (clients_at_owned (held f1)); [|done]. intros j _. by rewrite HP3. }
  rewrite E4. cbn [mbind option_bind]. rewrite E3.
  assert (Hnot : exists gs3, let cs3 := (fst ∘ notify_client) <$> cs2 in
    clients_at (held f3) 0 cs3 gs3 /\ room cs3 gs3 = room cs2 gs2 /\ all_returned (snd <$> log) 0 gs cs3 gs3).
  { apply (clients_step (fst ∘ notify_client) _ 0 cs2 gs2 _ gs); [exact client_notify|done|done]. }
  assert (Hsum3 : Z.of_nat (length l3) + npkts f3 = Z.of_nat (length l1) + npkts f1).
  { rewrite <- !held_length, HP3, length_app, length_fmap. lia. }
  rewrite length_fmap in Hroom2.
  destruct ((0 <? n) || z2b dr) eqn:En; eexists.
  - destruct Hnot as (gs3 & H3 & H4 & H5). exists gs3. split; [done|]. simpl.
    split_and!; [constructor| |done]; rewrite ?length_fmap, ?Hlen2, <- ?Hlen1; try done.
    + exists l3. split_and!; [done|lia|lia].
    + split_and!; congruence || lia.
  - exists gs2. split; [done|]. simpl. split_and!; [constructor|congruence|done]; rewrite ?Hlen2; try done.
    + exists l3. split_and!; [done|lia|lia].
    + split_and!; congruence || lia.
Qed.

(** C4: A turn of the packet thread, on four conditions: the marks are not
    those of the guests (mode 0, or marks of the hypervisor below the number of
    classes of the scheduler, at most 2^16), the scheduling algorithm accepts a packet of such
    a class whenever it holds fewer than [cap] of them ([DnAlgRoom]; FIFO with
    its limit of 20000 is an instance), and the free descriptors cover the room
    left in the transmit queues, with no more than [cap] packets in all, and the
    clock with the time of a packet added stays below 2^64.  (Of a
    packet that the scheduler drops the descriptor is lost, and without free
    descriptors the code dereferences a null pointer, theorem
    [fun_sched_enqueue_exhausted].)  The turn takes the packets of all the
    clients, lets the scheduler choose those to send, gives their buffers back
    and notifies.  No null pointer is dereferenced, no assertion fails, and the
    free descriptors still cover the room.  Each client gets back exactly the
    buffers of its own packets that came out, in the order in which they came
    out; its other taken buffers are those of its packets still in the scheduler
    and those that do not lie in its memory.  The guests may publish and collect
    buffers meanwhile in any way their ring allows. *)
Theorem spin_turn_correct cs gs f now :
  thread_ok cs gs f -> 0 <= now -> now + P < 2 ^ 64 ->
  exists t gs', spin_turn mode hv_mark dr0 pkt_tsc now cs f = Some t /\ thread_ok (t_clients t) gs' (t_f t) /\
    length (t_clients t) = length cs /\ all_returned (snd <$> t_out t) 0 gs (t_clients t) gs'.
Proof. apply spin_turn_spec. Qed.

Lemma spin_loop_spec nows : forall cs gs f,
  thread_ok cs gs f -> Forall (fun now => 0 <= now /\ now + P < 2 ^ 64) nows ->
  exists cs' f' gs', spin_loop mode hv_mark dr0 pkt_tsc nows cs f = Some (cs', f') /\ thread_ok cs' gs' f' /\ length cs' = length cs.
Proof.
  induction nows as [|now nows IH]; intros cs gs f Hok HF; [by exists cs, f, gs|].
  apply list.Forall_cons in HF as [[Hn Hw] HF]. destruct (spin_turn_spec cs gs f now Hok Hn Hw) as (t & gs1 & E & Hok1 & Hlen & _).
  simpl. rewrite E. simpl. destruct (IH _ gs1 _ Hok1 HF) as (cs' & f' & gs' & E' & Hok' & Hlen'). exists cs', f', gs'.
  split_and!; try done. congruence.
Qed.

Lemma kicks_spec c gh bad ids :
  client_ok c gh bad ids -> exists gh', client_ok (disable_kicks c) gh' bad ids /\ room_of (disable_kicks c) gh' = room_of c gh /\
    (forall gh0 l, returned gh0 c gh l -> returned gh0 (disable_kicks c) gh' l).
Proof.
  intros Hok. exists gh. apply client_calm; [done|apply (cl_env _ _ _ _ Hok)|]. simpl.
  apply evolved_calm, notification_evolved, (cl_acq _ _ _ _ Hok).
Qed.

(** The transmit ring of a client was initialised with as many descriptors as
    the client has transmit buffers. *)
Definition ring_sized (c : client) : Prop := cl_num_tx_bufs c = num_desc (v_vq (cl_view c)).

Lemma num_mbufs_room ds cs : forall j gs n,
  clients_at ds j cs gs -> Forall ring_sized cs -> Forall (fun g => uh g.1 = ah g.1) gs -> 0 <= n -> n + room cs gs < 2 ^ 32 ->
  foldl (fun n c => u32 (n + cl_num_tx_bufs c)) n cs = n + room cs gs.
Proof.
  induction cs as [|c cs IH]; intros j gs n Hcs Hsz HF Hn Hb; pose proof (clients_at_inv _ _ _ _ Hcs) as Hinv; simpl in Hinv; [simpl; lia|].
  destruct Hinv as (gh & bad & gs1 & -> & Hc & Hcs1). apply list.Forall_cons in HF as [Hu HF], Hsz as [Hs Hsz]. simpl in *. unfold ring_sized in Hs.
  pose proof (room_of_nonneg _ _ _ _ Hc). pose proof (room_nonneg _ _ _ _ Hcs1). unfold room_of in *.
  rewrite u32_id by (unfold is_u32; lia). rewrite (IH _ gs1) by (done || lia). lia.
Qed.


End thread.

(** ** The FIFO scheduler has room for 20000 packets *)

#[export] Program Instance fifo_room flows : DnAlgRoom dn_queue flows 20000.
Next Obligation. done. Qed.
Next Obligation. done. Qed.
Next Obligation. done. Qed.
Next Obligation.
  intros flows q m [Hl Hb] _ Hlt. simpl in *. unfold fifo_enqueue, dn_enqueue. rewrite Hl. by rewrite (proj2 (Z.leb_gt _ _) Hlt).
Qed.

(** Two clients, each with a published buffer, over FIFO. *)
Definition tdemo_client : client := mk_client (mk_view (example_vq 0) []) (mk_qio 0 stats_zero) example_map 2.
Definition tdemo_clients : list client := [tdemo_client; tdemo_client].
Definition tdemo_ghosts : list (ghost * list Z) := [(example_avail_gh 0, []); (example_avail_gh 0, [])].
Definition tdemo_sched : sched_all dn_queue :=
  mk_all (mk_cfg 0 0 0 0 dnq_zero) (mk_mbc 0 ∅) ∅ 0 500 5 1 0 0 0 0 0 0 0.
Definition tdemo_started : sched_all dn_queue :=
  mk_all (mk_cfg 0 0 0 0 dnq_zero) (mk_mbc 1 {[1 := 2; 2 := 3; 3 := 4; 4 := 0]}) ∅ 0 500 5 1 0 0 0 0 0 0 0.
Definition tdemo_tsc (len : Z) : Z := Z.min (Z.max len 0) 65535.

Lemma tdemo_client_ok ids : ids = [] -> client_ok tdemo_client (example_avail_gh 0) [] ids.
Proof.
  intros ->. constructor; [exact example_acq|constructor|reflexivity|exact example_map_ok|].
  intros p Hp. change (0 <= p < 0) in Hp. lia.
Defined.

Lemma tdemo_at : clients_at [] 0 tdemo_clients tdemo_ghosts.
Proof. repeat (constructor; [by apply tdemo_client_ok|]). constructor. Defined.

Lemma tdemo_room : room tdemo_clients tdemo_ghosts = 4.
Proof. vm_compute. reflexivity. Defined.

Lemma tdemo_cfg_ok : cfg_ok (sched tdemo_sched).
Proof. split; [split; [reflexivity|simpl; lia]|]. split; [reflexivity|simpl; lia]. Defined.


Lemma tdemo_thread_ok : thread_ok (flows := 1) (cap := 20000) tdemo_clients tdemo_ghosts tdemo_started.
Proof.
  constructor; [exact tdemo_at|constructor| |simpl; lia].
  exists [1; 2; 3; 4]. split; [constructor|].
  - exact tdemo_cfg_ok.
  - repeat split; discriminate.
  - apply (bool_decide_eq_true_1 _). vm_compute. reflexivity.
  - apply (bool_decide_eq_true_1 _). vm_compute. reflexivity.
  - rewrite tdemo_room. unfold npkts. simpl. lia.
Defined.

Lemma spin_turn_correct_witness :
  exists t gs', spin_turn MARK_MODE_NO_MARK (fun _ _ => 0) (fun _ => 0) tdemo_tsc 1000 tdemo_clients tdemo_started = Some t /\
    all_returned (snd <$> t_out t) 0 tdemo_ghosts (t_clients t) gs'.
Proof.
  destruct (spin_turn_correct (flows := 1) (cap := 20000) MARK_MODE_NO_MARK (fun _ _ => 0) (fun _ => 0)
    ltac:(lia) (or_introl eq_refl) tdemo_tsc 65535 ltac:(intros len; unfold tdemo_tsc; lia)
    tdemo_clients tdemo_ghosts tdemo_started 1000 tdemo_thread_ok ltac:(lia) ltac:(lia)) as (t & gs' & E & _ & _ & Hr).
  exists t, gs'. exact (conj E Hr).
Defined.

(** In the first turn both packets come out, and each queue gives its buffer
    back. *)
Example tdemo_turn :
  match spin_turn MARK_MODE_NO_MARK (fun _ _ => 0) (fun _ => 0) tdemo_tsc 1000 tdemo_clients tdemo_started with
  | Some t => (fun '(_, d) => (d_be d, d_idx d)) <$> t_out t = [(0, 0); (1, 0)] /\ t_sleep t = Some 1005
  | None => False
  end.
Proof. vm_compute. split; reflexivity. Qed.
