(* ===== verification/Netmap.v ===== *)
(** * The netmap backend

    [netmap_recv] and [netmap_send] of proxy/backend.c: the copy of a packet
    between the buffers of a queue (an iovec) and the slots of a netmap ring.
    A packet may take several slots, all but the last marked [NS_MOREFRAG], and
    the two sides of a copy are cut in different places. *)

From stdpp Require Import gmap.
From S2P Require Import Prelude Abi Backend.
Open Scope Z_scope.

(** ** Memory

    The bytes of the process by address; pointer arithmetic does not wrap. *)

Abbreviation mem := (gmap Z Z).

(** The bytes at a list of addresses, and a store of a list of bytes. *)
Definition byte_at (m : mem) (a : Z) : Z := default 0 (m !! a).
Definition rd (m : mem) (l : list Z) : list Z := byte_at m <$> l.
Definition blit (m : mem) (l vs : list Z) : mem := list_to_map (zip l vs) ∪ m.

(** [memcpy(dst, src, n)], for areas that do not overlap. *)
Definition memcpy (m : mem) (dst src n : Z) : mem := blit m (seqZ dst n) (rd m (seqZ src n)).

Module Netmap.

(** What the code uses of a [struct netmap_slot] and a [struct netmap_ring]. *)
Record netmap_slot := mk_slot { buf_idx : Z; slot_len : Z; slot_flags : Z }.
#[export] Instance netmap_slot_inhabited : Inhabited netmap_slot := populate (mk_slot 0 0 0).

Record netmap_ring := mk_nring {
  slots : list netmap_slot;
  nr_buf_size : Z;
  head : Z;
  cur : Z;
  tail : Z;
}.

(** The constant and the inline functions of the netmap headers, for one
    ring. *)
Record netmap_api := mk_api {
  NS_MOREFRAG : Z;
  nm_ring_next : Z -> Z;
  NETMAP_BUF : Z -> Z;
}.

Definition slot_at (sl : list netmap_slot) (i : Z) : netmap_slot := sl !!! Z.to_nat i.

Section netmap.
Context (nm : netmap_api) (ring : netmap_ring).

Definition buf_at (sl : list netmap_slot) (i : Z) : Z := NETMAP_BUF nm (buf_idx (slot_at sl i)).
Definition more_frag (s : netmap_slot) : bool := z2b (Z.land (slot_flags s) (NS_MOREFRAG nm)).

(** *** [netmap_recv] *)

(** The variables of the loop; [r_iov] is the iovec being filled and those
    after it, and [r_truncated] says that the loop ends in the branch that
    skips the rest of the packet. *)
Record recv_state := mk_recv {
  r_mem : mem;
  r_head : Z;
  r_slot : Z;
  r_iov : list iovec;
  r_iov_left : Z;
  r_iov_ofs : Z;
  r_nm_left : Z;
  r_nm_ofs : Z;
  r_totlen : Z;
  r_truncated : bool;
}.

(** The second half of the loop body: the next iovec. *)
Definition recv_next_iov (s : recv_state) : step recv_state :=
  if r_iov_left s =? 0 then
    match drop 1 (r_iov s) with
    | [] => Break (mk_recv (r_mem s) (r_head s) (r_slot s) [] (r_iov_left s) (r_iov_ofs s)
                     (r_nm_left s) (r_nm_ofs s) (r_totlen s) true)
    | (v :: _) as iov => Continue (mk_recv (r_mem s) (r_head s) (r_slot s) iov (iov_len v) 0
                                   (r_nm_left s) (r_nm_ofs s) (r_totlen s) false)
    end
  else Continue s.

Definition recv_iter (s : recv_state) : step recv_state :=
  let iov := r_iov s !!! 0%nat in
  let src := buf_at (slots ring) (r_slot s) in
  let copy := if r_nm_left s <? r_iov_left s then r_nm_left s else r_iov_left s in
  let m := memcpy (r_mem s) (iov_base iov + r_iov_ofs s) (src + r_nm_ofs s) copy in
  let iov_frag_ofs := r_iov_ofs s + copy in
  let iov_frag_left := u64 (r_iov_left s - copy) in
  let nm_frag_ofs := r_nm_ofs s + copy in
  let nm_frag_left := u64 (r_nm_left s - copy) in
  let totlen := s64 (r_totlen s + copy) in
  if nm_frag_left =? 0 then
    let head := nm_ring_next nm (r_head s) in
    if negb (more_frag (slot_at (slots ring) (r_slot s))) || (head =? tail ring) then
      Break (mk_recv m head (r_slot s) (r_iov s) iov_frag_left iov_frag_ofs nm_frag_left nm_frag_ofs totlen false)
    else
      recv_next_iov (mk_recv m head head (r_iov s) iov_frag_left iov_frag_ofs
                       (slot_len (slot_at (slots ring) head)) 0 totlen false)
  else
    recv_next_iov (mk_recv m (r_head s) (r_slot s) (r_iov s) iov_frag_left iov_frag_ofs
                     nm_frag_left nm_frag_ofs totlen false).

(** The loop that skips the rest of a packet: [slot] and [head]. *)
Definition skip_iter (s : Z * Z) : step (Z * Z) :=
  let '(slot, head) := s in
  if more_frag (slot_at (slots ring) slot) && negb (head =? tail ring) then
    let head := nm_ring_next nm head in Continue (head, head)
  else Break (slot, head).

(** Enough for one iteration per iovec and per slot. *)
Definition copy_fuel (iov : list iovec) : nat := S (length iov + length (slots ring)).

(** [netmap_recv], for a non-empty iovec: the result, the memory and the ring. *)
Definition netmap_recv (m : mem) (iov : list iovec) : option (Z * mem * netmap_ring) :=
  if head ring =? tail ring then Some (0, m, ring)
  else
    v ← iov !! 0%nat;
    s ← run recv_iter (copy_fuel iov)
          (mk_recv m (head ring) (head ring) iov (iov_len v) 0
             (slot_len (slot_at (slots ring) (head ring))) 0 0 false);
    h ← (if r_truncated s
         then snd <$> run skip_iter (copy_fuel iov) (r_slot s, r_head s)
         else Some (r_head s));
    Some (r_totlen s, r_mem s, mk_nring (slots ring) (nr_buf_size ring) h h (tail ring)).

(** *** [netmap_send] *)

(** The variables of the loop; [slot] is always the slot at [head].  [t_full]
    says that the loop ends with no descriptor left. *)
Record send_state := mk_send {
  t_mem : mem;
  t_slots : list netmap_slot;
  t_head : Z;
  t_iov : list iovec;
  t_iov_left : Z;
  t_iov_ofs : Z;
  t_nm_left : Z;
  t_nm_ofs : Z;
  t_totlen : Z;
  t_full : bool;
}.

Definition set_slot (sl : list netmap_slot) (i len flags : Z) : list netmap_slot :=
  <[Z.to_nat i := mk_slot (buf_idx (slot_at sl i)) (u16 len) (u16 flags)]> sl.

(** The second half of the loop body: the next slot. *)
Definition send_next_slot (s : send_state) : step send_state :=
  if t_nm_left s =? 0 then
    Continue (mk_send (t_mem s) (set_slot (t_slots s) (t_head s) (t_nm_ofs s) (NS_MOREFRAG nm))
                (nm_ring_next nm (t_head s)) (t_iov s) (t_iov_left s) (t_iov_ofs s)
                (nr_buf_size ring) 0 (t_totlen s) false)
  else Continue s.

Definition send_iter (s : send_state) : step send_state :=
  if t_head s =? tail ring then
    Break (mk_send (t_mem s) (t_slots s) (t_head s) (t_iov s) (t_iov_left s) (t_iov_ofs s)
             (t_nm_left s) (t_nm_ofs s) (t_totlen s) true)
  else
    let iov := t_iov s !!! 0%nat in
    let dst := buf_at (t_slots s) (t_head s) in
    let copy := if t_nm_left s <? t_iov_left s then t_nm_left s else t_iov_left s in
    let m := memcpy (t_mem s) (dst + t_nm_ofs s) (iov_base iov + t_iov_ofs s) copy in
    let iov_frag_ofs := t_iov_ofs s + copy in
    let iov_frag_left := u64 (t_iov_left s - copy) in
    let nm_frag_ofs := t_nm_ofs s + copy in
    let nm_frag_left := u64 (t_nm_left s - copy) in
    let totlen := s64 (t_totlen s + copy) in
    if iov_frag_left =? 0 then
      match drop 1 (t_iov s) with
      | [] => Break (mk_send m (t_slots s) (t_head s) [] iov_frag_left iov_frag_ofs nm_frag_left nm_frag_ofs totlen false)
      | (v :: _) as iov =>
          send_next_slot (mk_send m (t_slots s) (t_head s) iov (iov_len v) 0 nm_frag_left nm_frag_ofs totlen false)
      end
    else
      send_next_slot (mk_send m (t_slots s) (t_head s) (t_iov s) iov_frag_left iov_frag_ofs
                        nm_frag_left nm_frag_ofs totlen false).

(** [netmap_send], for a non-empty iovec. *)
Definition netmap_send (m : mem) (iov : list iovec) : option (Z * mem * netmap_ring) :=
  v ← iov !! 0%nat;
  s ← run send_iter (copy_fuel iov)
        (mk_send m (slots ring) (head ring) iov (iov_len v) 0 (nr_buf_size ring) 0 0 false);
  if t_full s then
    Some (0, t_mem s, mk_nring (t_slots s) (nr_buf_size ring) (head ring) (tail ring) (tail ring))
  else
    let sl := set_slot (t_slots s) (t_head s) (t_nm_ofs s) 0 in
    let h := nm_ring_next nm (t_head s) in
    Some (t_totlen s, t_mem s, mk_nring sl (nr_buf_size ring) h h (tail ring)).

End netmap.
End Netmap.
Import Netmap.

(** ** Copies as streams of addresses *)

Lemma rd_app m l l' : rd m (l ++ l') = rd m l ++ rd m l'.
Proof. apply fmap_app. Qed.

Lemma length_rd m l : length (rd m l) = length l.
Proof. apply length_fmap. Qed.

Lemma blit_nil m vs : blit m [] vs = m.
Proof. unfold blit. simpl. apply (left_id_L ∅ (∪)). Qed.

Lemma blit_out m l vs a : a ∉ l -> byte_at (blit m l vs) a = byte_at m a.
Proof.
  intros Ha. unfold blit, byte_at. f_equal. apply lookup_union_r.
  apply not_elem_of_list_to_map_1. contradict Ha.
  apply list_elem_of_fmap in Ha as ([x y] & -> & Hx). by apply elem_of_zip_l in Hx.
Qed.

Lemma rd_blit_out m l vs l' : l ## l' -> rd (blit m l vs) l' = rd m l'.
Proof.
  intros Hd. apply list_fmap_ext. intros i a Hi. apply blit_out.
  apply list_elem_of_lookup_2 in Hi. set_solver.
Qed.

Lemma rd_blit_in m l vs : NoDup l -> length l = length vs -> rd (blit m l vs) l = vs.
Proof.
  intros Hnd Hl. apply list_eq. intros i. unfold rd. rewrite list_lookup_fmap.
  destruct (l !! i) as [a|] eqn:Ea; simpl; last first.
  { symmetry. apply lookup_ge_None. apply lookup_ge_None in Ea. lia. }
  destruct (lookup_lt_is_Some_2 vs i) as [v Ev]; [apply lookup_lt_Some in Ea; lia|].
  rewrite Ev. f_equal. unfold byte_at, blit.
  rewrite (lookup_union_Some_l _ _ _ v); [done|].
  apply elem_of_list_to_map_1; [rewrite fst_zip; [done|lia]|].
  apply list_elem_of_lookup. exists i. apply lookup_zip_with_Some; eauto.
Qed.

Lemma blit_app m l1 l2 vs1 vs2 : NoDup (l1 ++ l2) -> length l1 = length vs1 -> length l2 = length vs2 ->
  blit (blit m l1 vs1) l2 vs2 = blit m (l1 ++ l2) (vs1 ++ vs2).
Proof.
  intros (_ & Hd & _)%list.NoDup_app Hl1 Hl2. unfold blit.
  rewrite (assoc_L (∪)), zip_with_app, list_to_map_app by done. f_equal. apply map_union_comm.
  apply map_disjoint_list_to_map_zip_l; [done|]. apply list.Forall_forall. intros a Ha.
  apply not_elem_of_list_to_map_1. rewrite fst_zip by lia. intros Ha'. by apply (Hd a).
Qed.

(** One more piece of a copy. *)
Lemma memcpy_step m ds ss d s n :
  NoDup (ds ++ seqZ d n) -> ds ## seqZ s n -> length ds = length ss ->
  memcpy (blit m ds (rd m ss)) d s n = blit m (ds ++ seqZ d n) (rd m (ss ++ seqZ s n)).
Proof.
  intros Hnd Hdis Hl. unfold memcpy. rewrite rd_blit_out by done.
  rewrite blit_app, <- rd_app; rewrite ?length_rd, ?length_seqZ; done.
Qed.

Lemma seqZ_split d n k : 0 <= k <= n -> seqZ d n = seqZ d k ++ seqZ (d + k) (n - k).
Proof. intros. rewrite <- seqZ_app by lia. f_equal. lia. Qed.

Lemma s64_small x : 0 <= x < 2 ^ 63 -> s64 x = x.
Proof.
  intros. unfold s64, swrap, wrap. rewrite Z.mod_small by lia. change (2 ^ (64 - 1)) with (2 ^ 63).
  case_if; zify_bool; lia.
Qed.

(** The addresses of the buffers of an iovec. *)
Definition iov_addrs (iov : list iovec) : list Z := iov ≫= fun v => seqZ (iov_base v) (iov_len v).

Lemma length_seqZ_Z d n : 0 <= n -> Z.of_nat (length (seqZ d n)) = n.
Proof. intros. rewrite length_seqZ. lia. Qed.

Lemma length_iov_addrs iov : Forall (fun v => 0 <= iov_len v) iov ->
  Z.of_nat (length (iov_addrs iov)) = iov_total iov.
Proof.
  intros HF. induction HF as [|v iov Hv _ IH]; [done|].
  change (iov_addrs (v :: iov)) with (seqZ (iov_base v) (iov_len v) ++ iov_addrs iov).
  rewrite length_app, Nat2Z.inj_add, length_seqZ_Z, IH by done. done.
Qed.

(** Loops whose invariant has a ghost parameter that the measure uses. *)
Lemma run_ghost {A G} (iter : A -> step A) (I : G -> A -> Prop) (Q : A -> Prop) (mu : G -> A -> Z) :
  (forall g a, I g a -> 0 <= mu g a /\
     match iter a with Continue a' => exists g', I g' a' /\ mu g' a' < mu g a | Break a' => Q a' end) ->
  forall fuel g a, I g a -> mu g a < Z.of_nat fuel -> exists a', run iter fuel a = Some a' /\ Q a'.
Proof.
  intros Hstep fuel. induction fuel as [|fuel IH]; intros g a HI Hmu.
  { destruct (Hstep g a HI). lia. }
  simpl. destruct (Hstep g a HI) as [? Hs]. destruct (iter a) as [a'|a']; [|eauto].
  destruct Hs as (g' & ? & ?). apply (IH g'); [done|lia].
Qed.

(** A copy in progress: [ds] and [ss] are the addresses still to write and to
    read, and what was copied is the beginning of both lists. *)
Definition copying (m0 : mem) (D S : list Z) (m : mem) (tot : Z) (ds ss : list Z) : Prop :=
  exists Dd Sd, D = Dd ++ ds /\ S = Sd ++ ss /\ Z.of_nat (length Dd) = tot /\ length Dd = length Sd /\
    m = blit m0 Dd (rd m0 Sd).

Section copying.
Context (m0 : mem) (D S : list Z).
Hypotheses (HD : NoDup D) (HDS : D ## S).

Lemma copying_start : copying m0 D S m0 0 D S.
Proof. exists [], []. by rewrite blit_nil. Qed.

Lemma copying_step m tot d s n ds ss k :
  copying m0 D S m tot (seqZ d n ++ ds) (seqZ s k ++ ss) ->
  let c := if k <? n then k else n in
  0 <= n -> 0 <= k ->
  copying m0 D S (memcpy m d s c) (tot + c) (seqZ (d + c) (n - c) ++ ds) (seqZ (s + c) (k - c) ++ ss) /\
  0 <= c /\ c <= n /\ c <= k /\ (c = n \/ c = k).
Proof.
  intros (Dd & Sd & ED & ES & Ht & Hl & ->) c Hn Hk.
  assert (Hc : 0 <= c /\ c <= n /\ c <= k /\ (c = n \/ c = k)) by (unfold c; case_if; zify_bool; lia).
  split; [|done]. clearbody c. exists (Dd ++ seqZ d c), (Sd ++ seqZ s c).
  rewrite (seqZ_split d n c), <- !(assoc_L (++)) in ED by lia.
  rewrite (seqZ_split s k c), <- !(assoc_L (++)) in ES by lia.
  rewrite !length_app, !length_seqZ, <- !(assoc_L (++)). split_and!; [done|done|lia|lia|].
  rewrite memcpy_step; [done| | |done].
  - subst D. rewrite (assoc_L (++)) in HD. by apply list.NoDup_app in HD as (? & _).
  - subst D S. intros a H1 H2. apply (HDS a); rewrite !elem_of_app; tauto.
Qed.

Lemma copying_bounds m tot ds ss : copying m0 D S m tot ds ss ->
  Z.of_nat (length D) = tot + Z.of_nat (length ds) /\ Z.of_nat (length S) = tot + Z.of_nat (length ss).
Proof. clear HD HDS. intros (Dd & Sd & -> & -> & Ht & Hl & _). rewrite !length_app. lia. Qed.

(** What a copy that stopped has done. *)
Lemma copying_end m tot ds ss : copying m0 D S m tot ds ss ->
  let n := Z.to_nat tot in
  0 <= tot /\ rd m (take n D) = rd m0 (take n S) /\ (forall a, a ∉ take n D -> byte_at m a = byte_at m0 a).
Proof.
  clear HDS. intros (Dd & Sd & ED & ES & Ht & Hl & ->) n.
  assert (take n D = Dd) as -> by (subst D; rewrite take_app_length'; [done|lia]).
  assert (take n S = Sd) as -> by (subst S; rewrite take_app_length'; [done|lia]).
  split_and!; [lia| |intros; by apply blit_out].
  apply rd_blit_in; [|by rewrite length_rd]. subst D. by apply list.NoDup_app in HD as (? & _).
Qed.

End copying.

(** ** Reception *)

(** The slots [l] lead from [h] to [t]. *)
Fixpoint path (nx : Z -> Z) (h : Z) (l : list Z) (t : Z) : Prop :=
  match l with
  | [] => h = t
  | i :: l => h = i /\ h <> t /\ path nx (nx h) l t
  end.

(** The bytes of the packet in the slots [ids]. *)
Definition slot_addrs (nm : netmap_api) (sl : list netmap_slot) (ids : list Z) : list Z :=
  ids ≫= fun i => seqZ (buf_at nm sl i) (slot_len (slot_at sl i)).

(** The slots [ids] hold a packet. *)
Fixpoint frags_ok (nm : netmap_api) (sl : list netmap_slot) (ids : list Z) : Prop :=
  match ids with
  | [] => False
  | i :: ids =>
      0 < slot_len (slot_at sl i) /\
      match ids with
      | [] => more_frag nm (slot_at sl i) = false
      | _ => more_frag nm (slot_at sl i) = true /\ frags_ok nm sl ids
      end
  end.

Lemma last_app_cons {A} (l : list A) x l' d : List.last (l ++ x :: l') d = List.last (x :: l') d.
Proof. induction l as [|y l IH]; [done|]. simpl app. rewrite <- IH. by destruct l. Qed.

Section recv.
Context (nm : netmap_api) (ring : netmap_ring) (m0 : mem) (iov : list iovec) (ids after : list Z).

Definition pkt : list Z := slot_addrs nm (slots ring) ids.
Definition rooms : list Z := iov_addrs iov.

Hypotheses (Hlens : Forall (fun v => 0 <= iov_len v) iov) (Hnd : NoDup rooms) (Hdis : rooms ## pkt)
  (HroomZ : Z.of_nat (length rooms) < 2 ^ 63) (HpktZ : Z.of_nat (length pkt) < 2 ^ 63).

(** The loop is copying the slot at [head], the slots [rest] of the packet
    follow. *)
Record recv_inv (rest : list Z) (s : recv_state) : Prop := {
  ri_slot : r_slot s = r_head s;
  ri_path : path (nm_ring_next nm) (r_head s) (r_head s :: rest ++ after) (tail ring);
  ri_frags : frags_ok nm (slots ring) (r_head s :: rest);
  ri_ids : exists pre, ids = pre ++ r_head s :: rest;
  ri_lens : Forall (fun v => 0 <= iov_len v) (r_iov s);
  ri_left : 0 <= r_iov_left s /\ 0 < r_nm_left s;
  ri_copy : exists v tl, r_iov s = v :: tl /\
    copying m0 rooms pkt (r_mem s) (r_totlen s)
      (seqZ (iov_base v + r_iov_ofs s) (r_iov_left s) ++ iov_addrs tl)
      (seqZ (buf_at nm (slots ring) (r_slot s) + r_nm_ofs s) (r_nm_left s) ++ slot_addrs nm (slots ring) rest);
}.

Definition recv_done (s : recv_state) : Prop :=
  if r_truncated s then
    exists rest, Z.of_nat (length rooms) < Z.of_nat (length pkt) /\ r_slot s = r_head s /\
      path (nm_ring_next nm) (r_head s) (r_head s :: rest ++ after) (tail ring) /\
      frags_ok nm (slots ring) (r_head s :: rest) /\ (exists pre, ids = pre ++ r_head s :: rest) /\
      exists ss, copying m0 rooms pkt (r_mem s) (r_totlen s) [] ss
  else Z.of_nat (length pkt) <= Z.of_nat (length rooms) /\ path (nm_ring_next nm) (r_head s) after (tail ring) /\
    exists ds, copying m0 rooms pkt (r_mem s) (r_totlen s) ds [].

(** The second half of the loop body. *)
Lemma recv_next_iov_spec rest s :
  recv_inv rest s -> r_truncated s = false ->
  match recv_next_iov s with
  | Continue s' => recv_inv rest s' /\
      Z.of_nat (length (r_iov s')) = Z.of_nat (length (r_iov s)) - b2z (r_iov_left s =? 0)
  | Break s' => recv_done s'
  end.
Proof.
  intros [H1 H2 H3 H4 H5 H6 (v & tl & Ei & Hcp)] Ht. unfold recv_next_iov.
  destruct (r_iov_left s =? 0) eqn:E; zify_bool; [|by split; [split; eauto|simpl; lia]].
  rewrite Ei. simpl drop. rewrite Ei in H5. inversion H5 as [|? ? _ H5']; subst.
  rewrite E, seqZ_nil, app_nil_l in Hcp by lia. destruct tl as [|v' tl].
  - exists rest. destruct (copying_bounds _ _ _ _ _ _ _ Hcp) as [Hb1 Hb2]. simpl.
    rewrite length_app, Nat2Z.inj_add, length_seqZ_Z in Hb2 by lia. simpl in Hb1.
    split; [lia|]. do 4 (split; [assumption|]). by eexists.
  - inversion H5' as [|? ? Hv ?]; subst; simpl in Hv. split; [|simpl length; unfold b2z; lia].
    split; simpl; [done..|lia|]. exists v', tl. split; [done|]. by rewrite Z.add_0_r.
Qed.

Lemma recv_iter_spec rest s :
  recv_inv rest s ->
  0 <= Z.of_nat (length (r_iov s)) + Z.of_nat (length rest) /\
  match recv_iter nm ring s with
  | Continue s' => exists rest', recv_inv rest' s' /\
      Z.of_nat (length (r_iov s')) + Z.of_nat (length rest') < Z.of_nat (length (r_iov s)) + Z.of_nat (length rest)
  | Break s' => recv_done s'
  end.
Proof.
  intros [H1 H2 H3 H4 H5 H6 (v & tl & Ei & Hcp)]. split; [lia|]. unfold recv_iter. cbv zeta.
  destruct (copying_bounds _ _ _ _ _ _ _ Hcp) as [Hb1 Hb2].
  rewrite length_app, Nat2Z.inj_add, length_seqZ_Z in Hb1, Hb2 by lia.
  assert (0 <= r_totlen s) by (destruct Hcp as (? & ? & _ & _ & ? & _); lia).
  apply (copying_step _ _ _ Hnd Hdis) in Hcp as (Hcp & Hc0 & Hcn & Hck & Hcc); [|lia..].
  assert (r_iov s !!! 0%nat = v) as -> by by rewrite Ei.
  set (c := if r_nm_left s <? r_iov_left s then _ else _) in *. clearbody c.
  destruct (copying_bounds _ _ _ _ _ _ _ Hcp) as [Hb3 _].
  assert (Z.of_nat (length rooms) < 2 ^ 63 /\ Z.of_nat (length pkt) < 2 ^ 63) as [? ?] by done.
  rewrite (u64_id (r_iov_left s - c)), (u64_id (r_nm_left s - c)), (s64_small (r_totlen s + c)) by (unfold is_u64; lia).
  destruct (r_nm_left s - c =? 0) eqn:En; zify_bool.
  - destruct H2 as (_ & Hht & Hp). rewrite En, (seqZ_nil _ 0), app_nil_l in Hcp by lia. rewrite H1 in *.
    destruct rest as [|i rest].
    + destruct H3 as [_ ->]. simpl. unfold recv_done; simpl. simpl in Hb2. split_and!; [lia|done|by eexists].
    + destruct H3 as (_ & -> & H3). destruct Hp as (Hi & Hit & Hp). rewrite Hi in *. rewrite (proj2 (Z.eqb_neq _ _) Hit). simpl.
      set (s' := mk_recv _ _ _ _ _ _ _ _ _ _).
      assert (Hinv : recv_inv rest s').
      { split; subst s'; simpl; [done..| |done|destruct rest; simpl in H3; lia|].
        - destruct H4 as [pre ->]. exists (pre ++ [r_head s]). by rewrite <- (assoc_L (++)).
        - exists v, tl. split; [done|]. rewrite Z.add_0_r, Z.add_assoc. exact Hcp. }
      pose proof (recv_next_iov_spec rest s' Hinv eq_refl) as Hn.
      destruct (recv_next_iov s') as [s2|s2]; [|done]. destruct Hn as [Hn1 Hn2]. exists rest. split; [done|].
      subst s'. simpl in *. unfold b2z in Hn2. destruct (_ =? 0) in Hn2; lia.
  - set (s' := mk_recv _ _ _ _ _ _ _ _ _ _).
    assert (Hinv : recv_inv rest s').
    { split; subst s'; simpl; [done..|lia|]. exists v, tl. split; [done|]. by rewrite !Z.add_assoc. }
    pose proof (recv_next_iov_spec rest s' Hinv eq_refl) as Hn.
    destruct (recv_next_iov s') as [s2|s2]; [|done]. destruct Hn as [Hn1 Hn2]. exists rest. split; [done|].
    subst s'. simpl in *. unfold b2z in Hn2. rewrite (proj2 (Z.eqb_eq _ _)) in Hn2; lia.
Qed.

(** Skipping the rest of the packet stops on its last slot. *)
Definition skip_inv (e : Z) (rest : list Z) (a : Z * Z) : Prop :=
  a.1 = a.2 /\ path (nm_ring_next nm) a.2 (a.2 :: rest ++ after) (tail ring) /\
  frags_ok nm (slots ring) (a.2 :: rest) /\ List.last (a.2 :: rest) 0 = e.

Lemma skip_iter_spec e rest a : skip_inv e rest a ->
  0 <= Z.of_nat (length rest) /\
  match skip_iter nm ring a with
  | Continue a' => exists rest', skip_inv e rest' a' /\ Z.of_nat (length rest') < Z.of_nat (length rest)
  | Break a' => a'.2 = e
  end.
Proof.
  destruct a as [slot h]. unfold skip_inv. simpl fst. simpl snd. intros (-> & (_ & Hne & Hp) & Hf & He).
  split; [lia|]. unfold skip_iter. destruct rest as [|i rest].
  - destruct Hf as [_ ->]. done.
  - destruct Hf as (_ & -> & Hf). rewrite (proj2 (Z.eqb_neq _ _) Hne). simpl andb.
    destruct Hp as (Hi & Ht & Hp). rewrite Hi in *. cbv iota. exists rest.
    split; [|simpl; lia]. split; [done|]. split; [by repeat split|]. by split.
Qed.

(** [netmap_recv] on a packet, whether or not the iovec has room for it. *)
Lemma netmap_recv_spec :
  (length ids <= length (slots ring))%nat ->
  path (nm_ring_next nm) (head ring) (ids ++ after) (tail ring) -> frags_ok nm (slots ring) ids -> iov <> [] ->
  let n := Z.min (Z.of_nat (length pkt)) (Z.of_nat (length rooms)) in
  exists m' h', netmap_recv nm ring m0 iov = Some (n, m', mk_nring (slots ring) (nr_buf_size ring) h' h' (tail ring)) /\
    rd m' (take (Z.to_nat n) rooms) = rd m0 (take (Z.to_nat n) pkt) /\
    (forall a, a ∉ take (Z.to_nat n) rooms -> byte_at m' a = byte_at m0 a) /\
    (if bool_decide (Z.of_nat (length pkt) <= Z.of_nat (length rooms))
     then path (nm_ring_next nm) h' after (tail ring) else h' = List.last ids 0).
Proof.
  intros Hids Hp Hf Hne n. unfold netmap_recv.
  assert (exists v tl, iov = v :: tl) as (v & tl & Ev) by (destruct iov; [done|eauto]).
  assert (exists h rest, ids = h :: rest) as (h & rest & Ei) by (destruct ids; [done|eauto]).
  rewrite Ei in Hp, Hf, Hids. destruct Hp as (Hh & Hht & Hp). rewrite <- Hh in *.
  rewrite (proj2 (Z.eqb_neq _ _) Hht). assert (iov !! 0%nat = Some v) as -> by by rewrite Ev.
  cbv [mbind option_bind]. set (s0 := mk_recv _ _ _ _ _ _ _ _ _ _).
  assert (Hinv : recv_inv rest s0).
  { split; subst s0; simpl r_slot; simpl r_head; simpl r_iov; simpl r_iov_left; simpl r_nm_left;
      [done|by repeat split|done|by exists []|done| |].
    - rewrite Ev in Hlens. inversion Hlens; subst. destruct Hf. done.
    - exists v, tl. split; [done|]. rewrite !Z.add_0_r. simpl r_mem. simpl r_totlen.
      assert (Er : rooms = seqZ (iov_base v) (iov_len v) ++ iov_addrs tl) by (unfold rooms; by rewrite Ev).
      assert (Ek : pkt = seqZ (buf_at nm (slots ring) (head ring)) (slot_len (slot_at (slots ring) (head ring)))
                ++ slot_addrs nm (slots ring) rest) by (unfold pkt; by rewrite Ei).
      rewrite <- Er, <- Ek. apply copying_start. }
  destruct (run_ghost (recv_iter nm ring) recv_inv recv_done _ recv_iter_spec (copy_fuel ring iov) rest s0 Hinv)
    as (s & -> & Hdone).
  { unfold copy_fuel. subst s0. simpl in *. lia. }
  unfold recv_done in Hdone. destruct (r_truncated s).
  - destruct Hdone as (rest' & Hlt & Hsl & Hp' & Hf' & (pre & Epre) & ss & Hcp).
    assert (skip_inv (List.last ids 0) rest' (r_slot s, r_head s)) as Hskip.
    { split; [done|]. split; [done|]. split; [done|]. rewrite Epre. symmetry. apply last_app_cons. }
    destruct (run_ghost (skip_iter nm ring) (skip_inv (List.last ids 0)) _ (fun rest _ => Z.of_nat (length rest))
                (skip_iter_spec _) (copy_fuel ring iov) rest' _ Hskip) as ([? h'] & -> & Hh').
    { unfold copy_fuel. rewrite Epre in Ei. pose proof (f_equal length Ei) as Hl.
      rewrite length_app in Hl. simpl in *. lia. }
    simpl in Hh'. subst h'. destruct (copying_bounds _ _ _ _ _ _ _ Hcp) as [Hb _]. simpl in Hb.
    assert (n = r_totlen s) as -> by lia. destruct (copying_end _ _ _ Hnd _ _ _ _ Hcp) as (_ & H1 & H2).
    do 2 eexists. split; [reflexivity|]. split; [exact H1|]. split; [exact H2|].
    rewrite bool_decide_eq_false_2 by lia. done.
  - destruct Hdone as (Hle & Hp' & ds & Hcp). destruct (copying_bounds _ _ _ _ _ _ _ Hcp) as [_ Hb]. simpl in Hb.
    assert (n = r_totlen s) as -> by lia. destruct (copying_end _ _ _ Hnd _ _ _ _ Hcp) as (_ & H1 & H2).
    do 2 eexists. split; [reflexivity|]. split; [exact H1|]. split; [exact H2|].
    rewrite bool_decide_eq_true_2 by lia. done.
Qed.

End recv.

(** ** Transmission *)

Section send.
Context (nm : netmap_api) (ring : netmap_ring) (m0 : mem) (iov : list iovec) (span : list Z).

Definition size : Z := nr_buf_size ring.
Definition full_addrs (l : list Z) : list Z := l ≫= fun i => seqZ (buf_at nm (slots ring) i) size.
Definition dsts : list Z := full_addrs span.
Definition srcs : list Z := iov_addrs iov.

Hypotheses (Hlens : Forall (fun v => 0 < iov_len v) iov) (Hnd : NoDup dsts) (Hdis : dsts ## srcs)
  (HdstsZ : Z.of_nat (length dsts) < 2 ^ 63) (HsrcsZ : Z.of_nat (length srcs) < 2 ^ 63)
  (Hspan : NoDup span) (Hrange : Forall (fun i => 0 <= i < Z.of_nat (length (slots ring))) span)
  (Hsize : 0 < size < 2 ^ 16) (Hmore : 0 <= NS_MOREFRAG nm < 2 ^ 16).

(** The slots [full] have been filled. *)
Record marked (full : list Z) (sl : list netmap_slot) : Prop := {
  mk_length : length sl = length (slots ring);
  mk_buf : forall i, buf_idx (slot_at sl i) = buf_idx (slot_at (slots ring) i);
  mk_full : forall i, i ∈ full -> slot_at sl i = mk_slot (buf_idx (slot_at (slots ring) i)) size (NS_MOREFRAG nm);
  mk_other : forall i, 0 <= i -> i ∉ full -> slot_at sl i = slot_at (slots ring) i;
}.

Lemma slot_at_set sl i len flags j :
  0 <= i < Z.of_nat (length sl) -> 0 <= j ->
  slot_at (set_slot sl i len flags) j =
  if decide (j = i) then mk_slot (buf_idx (slot_at sl i)) (u16 len) (u16 flags) else slot_at sl j.
Proof.
  intros Hi Hj. unfold slot_at, set_slot. case_decide as E.
  - subst j. by rewrite lookup_total_insert_eq by lia.
  - rewrite lookup_total_insert_ne by lia. done.
Qed.

Lemma buf_idx_set sl i len flags j : buf_idx (slot_at (set_slot sl i len flags) j) = buf_idx (slot_at sl j).
Proof.
  unfold slot_at, set_slot. destruct (decide (Z.to_nat i = Z.to_nat j)) as [E|E].
  - rewrite <- E. destruct (decide (Z.to_nat i < length sl)%nat).
    + by rewrite lookup_total_insert_eq.
    + by rewrite list_insert_ge by lia.
  - by rewrite lookup_total_insert_ne.
Qed.

Lemma marked_more full sl h rest :
  marked full sl -> span = full ++ h :: rest -> marked (full ++ [h]) (set_slot sl h size (NS_MOREFRAG nm)).
Proof.
  intros [H1 H2 H3 H4] E. pose proof Hspan as Hs. rewrite E in Hs. apply list.NoDup_app in Hs as (_ & Hsep & _).
  pose proof Hrange as Hr. rewrite E in Hr. apply Forall_app in Hr as [Hr Hh].
  assert (Hh' : 0 <= h < Z.of_nat (length (slots ring))) by (by inversion Hh).
  assert (Hset : forall j, 0 <= j -> slot_at (set_slot sl h size (NS_MOREFRAG nm)) j =
     if decide (j = h) then mk_slot (buf_idx (slot_at sl h)) size (NS_MOREFRAG nm) else slot_at sl j).
  { intros. rewrite slot_at_set by lia. rewrite !u16_id by (unfold is_u16; lia). done. }
  split.
  - unfold set_slot. by rewrite length_insert.
  - intros i. by rewrite buf_idx_set.
  - intros i [Hi| ->%list_elem_of_singleton]%elem_of_app.
    + rewrite Hset; [|rewrite list.Forall_forall in Hr; apply Hr in Hi; lia].
      rewrite decide_False; [by apply H3|]. intros ->. apply (Hsep h Hi). by apply elem_of_cons; left.
    + rewrite Hset, decide_True, H2 by lia. done.
  - intros i Hi [Hn Hn']%not_elem_of_app. rewrite list_elem_of_singleton in Hn'.
    rewrite Hset, decide_False by (lia || done). by apply H4.
Qed.

Record send_inv (full l : list Z) (s : send_state) : Prop := {
  si_span : span = full ++ l;
  si_path : path (nm_ring_next nm) (t_head s) l (tail ring);
  si_slots : marked full (t_slots s);
  si_lens : Forall (fun v => 0 < iov_len v) (t_iov s);
  si_left : 0 < t_iov_left s /\ 0 < t_nm_left s /\ 0 <= t_nm_ofs s /\ t_nm_ofs s + t_nm_left s = size;
  si_ofs : l = [] -> t_nm_ofs s = 0;
  si_tot : t_totlen s = size * Z.of_nat (length full) + t_nm_ofs s;
  si_copy : exists v tl, t_iov s = v :: tl /\
    copying m0 dsts srcs (t_mem s) (t_totlen s)
      match l with
      | [] => []
      | h :: l => seqZ (buf_at nm (slots ring) h + t_nm_ofs s) (t_nm_left s) ++ full_addrs l
      end
      (seqZ (iov_base v + t_iov_ofs s) (t_iov_left s) ++ iov_addrs tl);
}.

Definition send_done (s : send_state) : Prop :=
  if t_full s then
    marked span (t_slots s) /\ Z.of_nat (length dsts) < Z.of_nat (length srcs) /\
    exists ss, copying m0 dsts srcs (t_mem s) (t_totlen s) [] ss
  else exists full l,
    span = full ++ t_head s :: l /\ path (nm_ring_next nm) (t_head s) (t_head s :: l) (tail ring) /\
    marked full (t_slots s) /\ 0 < t_nm_ofs s <= size /\ t_totlen s = size * Z.of_nat (length full) + t_nm_ofs s /\
    exists ds, copying m0 dsts srcs (t_mem s) (t_totlen s) ds [].

Lemma full_addrs_cons i l : full_addrs (i :: l) = seqZ (buf_at nm (slots ring) i) size ++ full_addrs l.
Proof. done. Qed.

Lemma length_full_addrs l : Z.of_nat (length (full_addrs l)) = size * Z.of_nat (length l).
Proof using Hsize.
  clear -Hsize. induction l as [|i l IH]; [simpl; lia|].
  rewrite full_addrs_cons, length_app, Nat2Z.inj_add, length_seqZ_Z, IH by lia. simpl length. lia.
Qed.

(** The second half of the loop body: [nm_left] may be used up. *)
Lemma send_next_slot_spec full h l s :
  span = full ++ h :: l -> t_head s = h -> path (nm_ring_next nm) h (h :: l) (tail ring) ->
  marked full (t_slots s) -> Forall (fun v => 0 < iov_len v) (t_iov s) ->
  0 < t_iov_left s -> 0 <= t_nm_left s -> 0 <= t_nm_ofs s -> t_nm_ofs s + t_nm_left s = size ->
  t_totlen s = size * Z.of_nat (length full) + t_nm_ofs s ->
  (exists v tl, t_iov s = v :: tl /\
    copying m0 dsts srcs (t_mem s) (t_totlen s)
      (seqZ (buf_at nm (slots ring) h + t_nm_ofs s) (t_nm_left s) ++ full_addrs l)
      (seqZ (iov_base v + t_iov_ofs s) (t_iov_left s) ++ iov_addrs tl)) ->
  exists s' full' l', send_next_slot nm ring s = Continue s' /\ send_inv full' l' s' /\
    Z.of_nat (length l') = Z.of_nat (length (h :: l)) - b2z (t_nm_left s =? 0) /\ t_iov s' = t_iov s.
Proof.
  intros Es Eh Hp Hm Hl Hi Hn Ho Hon Ht (v & tl & Ei & Hcp). unfold send_next_slot.
  destruct (t_nm_left s =? 0) eqn:E; zify_bool.
  - assert (Eo : t_nm_ofs s = size) by lia. eexists _, (full ++ [h]), l. split; [reflexivity|]. simpl.
    split; [|split; [lia|done]]. destruct Hp as (_ & _ & Hp).
    rewrite E, seqZ_nil, app_nil_l in Hcp by lia. split; simpl.
    + by rewrite <- (assoc_L (++)).
    + by rewrite Eh.
    + rewrite Eh, Eo. by apply marked_more with l.
    + done.
    + change (nr_buf_size ring) with size. lia.
    + done.
    + rewrite Ht, length_app. simpl. lia.
    + exists v, tl. split; [done|]. destruct l as [|i l]; [done|]. by rewrite Z.add_0_r.
  - eexists s, full, (h :: l). split; [reflexivity|]. split; [|split; [simpl; lia|done]].
    split; [done|by rewrite Eh|done|done|lia|done|done|]. by exists v, tl.
Qed.

Lemma send_iter_spec g s :
  send_inv g.1 g.2 s ->
  0 <= Z.of_nat (length (t_iov s)) + Z.of_nat (length g.2) /\
  match send_iter nm ring s with
  | Continue s' => exists g', send_inv g'.1 g'.2 s' /\
      Z.of_nat (length (t_iov s')) + Z.of_nat (length g'.2) < Z.of_nat (length (t_iov s)) + Z.of_nat (length g.2)
  | Break s' => send_done s'
  end.
Proof.
  destruct g as [full l]. simpl fst. simpl snd. intros [H1 H2 H3 H4 H5 H6 H7 (v & tl & Ei & Hcp)].
  split; [lia|]. unfold send_iter. cbv zeta.
  destruct (copying_bounds _ _ _ _ _ _ _ Hcp) as [Hb1 Hb2].
  rewrite length_app, Nat2Z.inj_add, (length_seqZ_Z _ (t_iov_left s)) in Hb2 by lia.
  destruct l as [|h l].
  { simpl in H2. rewrite (proj2 (Z.eqb_eq _ _) H2). unfold send_done; simpl. rewrite app_nil_r in H1. subst full.
    simpl in Hb1. split_and!; [done|lia|by eexists]. }
  destruct H2 as (Eh & Hht & Hp). rewrite (proj2 (Z.eqb_neq _ _) Hht).
  assert (0 <= t_totlen s) by (destruct Hcp as (? & ? & _ & _ & ? & _); lia).
  rewrite length_app, Nat2Z.inj_add, (length_seqZ_Z _ (t_nm_left s)) in Hb1 by lia.
  apply (copying_step _ _ _ Hnd Hdis) in Hcp as (Hcp & Hc0 & Hcn & Hck & Hcc); [|lia..].
  assert (t_iov s !!! 0%nat = v) as -> by by rewrite Ei.
  assert (buf_at nm (t_slots s) (t_head s) = buf_at nm (slots ring) h) as ->
    by (unfold buf_at; by rewrite (mk_buf _ _ H3), Eh).
  assert ((if t_iov_left s <? t_nm_left s then t_iov_left s else t_nm_left s) =
          (if t_nm_left s <? t_iov_left s then t_nm_left s else t_iov_left s)) as Ec
    by (do 2 case_if; zify_bool; lia).
  rewrite Ec in *. clear Ec. set (c := if t_nm_left s <? t_iov_left s then _ else _) in *. clearbody c.
  assert (Z.of_nat (length dsts) < 2 ^ 63 /\ Z.of_nat (length srcs) < 2 ^ 63) as [? ?] by done.
  rewrite (u64_id (t_iov_left s - c)), (u64_id (t_nm_left s - c)), (s64_small (t_totlen s + c)) by (unfold is_u64; lia).
  destruct (t_iov_left s - c =? 0) eqn:En; zify_bool.
  - rewrite En, (seqZ_nil _ 0), app_nil_l in Hcp by lia. rewrite Ei in H4. rewrite Ei. change (drop 1 (v :: tl)) with tl.
    inversion H4 as [|? ? _ H4']; subst. destruct tl as [|v' tl].
    + unfold send_done; simpl. exists full, l. split_and!; [done..|lia|lia|lia|by eexists].
    + inversion H4' as [|? ? Hv _]; subst; simpl in Hv. cbv iota.
      set (s1 := mk_send _ _ _ _ _ _ _ _ _ _).
      destruct (send_next_slot_spec full (t_head s) l s1) as (s' & full' & l' & -> & Hinv & Hll & Hii);
        [..|exists (full', l'); split; [exact Hinv|]]; subst s1; simpl; try done; try lia.
      * exists v', tl. split; [done|]. by rewrite Z.add_0_r, Z.add_assoc.
      * rewrite Hii. simpl in *. unfold b2z in Hll. destruct (_ =? 0) in Hll; lia.
  - set (s1 := mk_send _ _ _ _ _ _ _ _ _ _).
    destruct (send_next_slot_spec full h l s1) as (s' & full' & l' & -> & Hinv & Hll & Hii);
      [..|exists (full', l'); split; [exact Hinv|]]; subst s1; simpl; try done; try lia.
    + rewrite Eh in *. done.
    + exists v, tl. split; [done|]. by rewrite !Z.add_assoc.
    + rewrite Hii. simpl in *. unfold b2z in Hll. rewrite (proj2 (Z.eqb_eq _ _)) in Hll; lia.
Qed.

(** The slots of a packet that fills [full] and puts [len] bytes in [h]. *)
Lemma sent_frags full h sl len :
  marked full sl -> NoDup (full ++ [h]) -> Forall (fun i => 0 <= i < Z.of_nat (length (slots ring))) (full ++ [h]) ->
  NS_MOREFRAG nm <> 0 -> 0 < len <= size ->
  let sl' := set_slot sl h len 0 in
  frags_ok nm sl' (full ++ [h]) /\
  slot_addrs nm sl' (full ++ [h]) = full_addrs full ++ seqZ (buf_at nm (slots ring) h) len /\
  (forall i, 0 <= i -> i ∉ full ++ [h] -> slot_at sl' i = slot_at (slots ring) i) /\ length sl' = length (slots ring).
Proof.
  intros [H1 H2 H3 H4] Hn Hr Hm Hlen sl'. apply list.NoDup_app in Hn as (_ & Hsep & _).
  apply Forall_app in Hr as [Hr Hh]. assert (Hh' : 0 <= h < Z.of_nat (length (slots ring))) by (by inversion Hh).
  assert (Hset : forall j, 0 <= j -> slot_at sl' j =
     if decide (j = h) then mk_slot (buf_idx (slot_at (slots ring) h)) len 0 else slot_at sl j).
  { intros. unfold sl'. rewrite slot_at_set, H2 by lia. rewrite !u16_id by (unfold is_u16; lia). done. }
  assert (Hfull : forall i, i ∈ full -> slot_at sl' i = mk_slot (buf_idx (slot_at (slots ring) i)) size (NS_MOREFRAG nm)).
  { intros i Hi. rewrite Hset, decide_False; [by apply H3| |].
    - intros ->. apply (Hsep h Hi). by apply elem_of_cons; left.
    - rewrite list.Forall_forall in Hr. apply Hr in Hi. lia. }
  assert (Eh : slot_at sl' h = mk_slot (buf_idx (slot_at (slots ring) h)) len 0) by (rewrite Hset, decide_True by lia; done).
  split_and!.
  - clear Hsep Hr H3 H4. induction full as [|i full IH]; simpl app.
    + simpl. rewrite Eh. simpl. split; [lia|]. unfold more_frag. simpl. done.
    + assert (Ef : forall x, x = full ++ [h] -> frags_ok nm sl' x ->
         0 < slot_len (slot_at sl' i) /\
         match x with [] => more_frag nm (slot_at sl' i) = false | _ => more_frag nm (slot_at sl' i) = true /\ frags_ok nm sl' x end).
      { intros x Ex Hx. rewrite (Hfull i) by (by apply elem_of_cons; left). simpl. split; [lia|].
        destruct x; [by destruct full|]. split; [|done]. unfold more_frag, z2b. simpl. rewrite Z.land_diag.
        by rewrite (proj2 (Z.eqb_neq _ _) Hm). }
      apply (Ef _ eq_refl). apply IH. intros j Hj. apply Hfull. by apply elem_of_cons; right.
  - unfold slot_addrs. rewrite bind_app. f_equal.
    + clear Hsep Hr H3 H4. induction full as [|i full IH]; [done|].
      rewrite full_addrs_cons. cbn [mbind list_bind]. f_equal.
      * unfold buf_at. rewrite (Hfull i) by (by apply elem_of_cons; left). done.
      * apply IH. intros j Hj. apply Hfull. by apply elem_of_cons; right.
    + cbn [mbind list_bind]. rewrite app_nil_r. unfold buf_at. by rewrite Eh.
  - intros i Hi [Hn Hn']%not_elem_of_app. rewrite list_elem_of_singleton in Hn'.
    rewrite Hset, decide_False by (lia || done). by apply H4.
  - unfold sl', set_slot. by rewrite length_insert.
Qed.

(** [netmap_send], when the free slots can hold the packet and when they
    cannot. *)
Lemma netmap_send_spec :
  (length span <= length (slots ring))%nat ->
  path (nm_ring_next nm) (head ring) span (tail ring) -> iov <> [] -> NS_MOREFRAG nm <> 0 ->
  if bool_decide (Z.of_nat (length srcs) <= Z.of_nat (length dsts)) then
    exists m' sl' ids l h', span = ids ++ l /\
      netmap_send nm ring m0 iov = Some (Z.of_nat (length srcs), m', mk_nring sl' size h' h' (tail ring)) /\
      path (nm_ring_next nm) h' l (tail ring) /\ frags_ok nm sl' ids /\ length sl' = length (slots ring) /\
      slot_addrs nm sl' ids = take (length srcs) dsts /\ rd m' (slot_addrs nm sl' ids) = rd m0 srcs /\
      (forall a, a ∉ slot_addrs nm sl' ids -> byte_at m' a = byte_at m0 a) /\
      (forall i, 0 <= i -> i ∉ ids -> slot_at sl' i = slot_at (slots ring) i) /\
      size * (Z.of_nat (length ids) - 1) < Z.of_nat (length srcs) <= size * Z.of_nat (length ids)
  else
    exists m' sl', netmap_send nm ring m0 iov = Some (0, m', mk_nring sl' size (head ring) (tail ring) (tail ring)) /\
      (forall a, a ∉ dsts -> byte_at m' a = byte_at m0 a) /\
      (forall i, 0 <= i -> i ∉ span -> slot_at sl' i = slot_at (slots ring) i).
Proof.
  intros Hlen Hp Hne Hm. unfold netmap_send.
  assert (exists v tl, iov = v :: tl) as (v & tl & Ev) by (destruct iov; [done|eauto]).
  assert (iov !! 0%nat = Some v) as -> by by rewrite Ev.
  cbv [mbind option_bind]. set (s0 := mk_send _ _ _ _ _ _ _ _ _ _).
  assert (Hinv : send_inv [] span s0).
  { split; subst s0; simpl; [done|done| |done| |done|lia|].
    - split; [done|done|intros i Hi; by apply elem_of_nil in Hi|done].
    - rewrite Ev in Hlens. inversion Hlens; subst. change (nr_buf_size ring) with size. lia.
    - exists v, tl. split; [done|].
      assert (Er : srcs = seqZ (iov_base v) (iov_len v) ++ iov_addrs tl) by (unfold srcs; by rewrite Ev).
      assert (Ed : dsts = match span with [] => [] | h :: l => seqZ (buf_at nm (slots ring) h + 0) (nr_buf_size ring) ++ full_addrs l end).
      { unfold dsts. destruct span; [done|]. by rewrite Z.add_0_r. }
      rewrite Z.add_0_r, <- Er, <- Ed. apply copying_start. }
  destruct (run_ghost (send_iter nm ring) (fun g => send_inv g.1 g.2) send_done _ send_iter_spec (copy_fuel ring iov) ([], span) s0 Hinv)
    as (s & -> & Hdone).
  { unfold copy_fuel. subst s0. simpl in *. lia. }
  unfold send_done in Hdone. destruct (t_full s).
  - destruct Hdone as (Hmk & Hlt & ss & Hcp). rewrite bool_decide_eq_false_2 by lia.
    destruct (copying_bounds _ _ _ _ _ _ _ Hcp) as [Hb _]. simpl in Hb.
    destruct (copying_end _ _ _ Hnd _ _ _ _ Hcp) as (_ & _ & H2). rewrite take_ge in H2 by lia.
    do 2 eexists. split; [reflexivity|]. split; [exact H2|apply Hmk].
  - destruct Hdone as (full & l & Es & (_ & Hht & Hp') & Hmk & Ho & Ht & ds & Hcp).
    destruct (copying_bounds _ _ _ _ _ _ _ Hcp) as [Hb1 Hb2]. simpl in Hb2.
    rewrite bool_decide_eq_true_2 by lia.
    destruct (copying_end _ _ _ Hnd _ _ _ _ Hcp) as (_ & H1 & H2).
    replace (Z.to_nat (t_totlen s)) with (length srcs) in H1, H2 by lia. rewrite (take_ge srcs) in H1 by lia.
    assert (Es' : span = (full ++ [t_head s]) ++ l) by (by rewrite <- (assoc_L (++))).
    destruct (sent_frags full (t_head s) (t_slots s) (t_nm_ofs s) Hmk) as (F1 & F2 & F3 & F4); [| |done|lia|].
    { pose proof Hspan as Hs. rewrite Es' in Hs. by apply list.NoDup_app in Hs as (? & _). }
    { pose proof Hrange as Hr. rewrite Es' in Hr. by apply Forall_app in Hr as [? _]. }
    assert (Ed : slot_addrs nm (set_slot (t_slots s) (t_head s) (t_nm_ofs s) 0) (full ++ [t_head s]) = take (length srcs) dsts).
    { rewrite F2. unfold dsts, full_addrs. rewrite Es, bind_app. cbn [mbind list_bind].
      rewrite (seqZ_split _ size (t_nm_ofs s)), <- (assoc_L (++)), (assoc_L (++)) by lia.
      rewrite take_app_length'; [done|]. change (full ≫= _) with (full_addrs full).
      rewrite length_app, length_seqZ. pose proof (length_full_addrs full). lia. }
    eexists _, _, (full ++ [t_head s]), l, _. split; [exact Es'|]. split; [rewrite Hb2, Z.add_0_r; reflexivity|].
    rewrite Ed, length_app. split; [exact Hp'|]. split; [exact F1|]. split; [exact F4|]. split; [done|].
    split; [exact H1|]. split; [exact H2|]. split; [exact F3|]. simpl. lia.
Qed.

End send.

(** ** Rings *)

(** What the netmap headers document: the successor of a slot in the ring,
    and a flag of a 16-bit word. *)
Record netmap_ok (nm : netmap_api) (n : Z) : Prop := {
  nk_next : forall i, 0 <= i < n -> nm_ring_next nm i = (i + 1) mod n;
  nk_more : 0 < NS_MOREFRAG nm < 2 ^ 16;
}.

Definition num_slots (ring : netmap_ring) : Z := Z.of_nat (length (slots ring)).

(** The slots from [head] to [tail], which belong to the process. *)
Definition ring_span (ring : netmap_ring) : list Z :=
  (fun k => (head ring + k) mod num_slots ring) <$> seqZ 0 ((tail ring - head ring) mod num_slots ring).

Record netmap_ring_ok (nm : netmap_api) (ring : netmap_ring) : Prop := {
  no_api : netmap_ok nm (num_slots ring);
  no_slots : num_slots ring < 2 ^ 32;
  no_head : 0 <= head ring < num_slots ring;
  no_tail : 0 <= tail ring < num_slots ring;
  no_size : 0 < nr_buf_size ring < 2 ^ 16;
}.

Lemma mod_add_inj n h j k : 0 <= j < n -> 0 <= k < n -> (h + j) mod n = (h + k) mod n -> j = k.
Proof.
  intros Hj Hk E. pose proof (Z.div_mod (h + j) n) as E1. pose proof (Z.div_mod (h + k) n) as E2.
  rewrite E in E1. assert ((h + j) / n = (h + k) / n) by nia. nia.
Qed.

Lemma span_path nm n k : netmap_ok nm n -> forall h, 0 <= h < n -> Z.of_nat k < n ->
  path (nm_ring_next nm) h ((fun j => (h + j) mod n) <$> seqZ 0 (Z.of_nat k)) ((h + Z.of_nat k) mod n).
Proof.
  intros Hok. induction k as [|k IH]; intros h Hh Hk.
  { simpl. rewrite Z.add_0_r, Z.mod_small; lia. }
  rewrite seqZ_cons by lia. cbn [fmap list_fmap path]. rewrite Z.add_0_r, (Z.mod_small h) by lia.
  split; [done|]. split.
  - intros E. rewrite <- (Z.mod_small h n), <- (Z.add_0_r h) in E at 1 by lia.
    apply mod_add_inj in E; lia.
  - rewrite (nk_next _ _ Hok) by lia. specialize (IH ((h + 1) mod n) ltac:(apply Z.mod_pos_bound; lia) ltac:(lia)).
    rewrite Zplus_mod_idemp_l in IH.
    replace (h + 1 + Z.of_nat k) with (h + Z.of_nat (S k)) in IH by lia.
    replace (Z.pred (Z.of_nat (S k))) with (Z.of_nat k) by lia.
    replace ((fun j => (h + j) mod n) <$> seqZ (Z.succ 0) (Z.of_nat k))
      with ((fun j => ((h + 1) mod n + j) mod n) <$> seqZ 0 (Z.of_nat k)); [done|].
    change (Z.succ 0) with (1 + 0). rewrite <- fmap_add_seqZ, <- list_fmap_compose.
    apply list_fmap_ext. intros i x _. simpl. rewrite Zplus_mod_idemp_l. f_equal. lia.
Qed.

Section span.
Context (nm : netmap_api) (ring : netmap_ring) (Hok : netmap_ring_ok nm ring).

Lemma length_ring_span : Z.of_nat (length (ring_span ring)) = (tail ring - head ring) mod num_slots ring.
Proof.
  destruct Hok. unfold ring_span. rewrite length_fmap, length_seqZ.
  pose proof (Z.mod_pos_bound (tail ring - head ring) (num_slots ring)). lia.
Qed.

Lemma ring_span_short : (length (ring_span ring) <= length (slots ring))%nat.
Proof.
  pose proof length_ring_span as Hl. destruct Hok. unfold num_slots in *.
  pose proof (Z.mod_pos_bound (tail ring - head ring) (Z.of_nat (length (slots ring)))). lia.
Qed.

Lemma ring_span_path : path (nm_ring_next nm) (head ring) (ring_span ring) (tail ring).
Proof.
  destruct Hok. set (n := num_slots ring) in *.
  pose proof (Z.mod_pos_bound (tail ring - head ring) n ltac:(lia)) as Hb.
  pose proof (span_path nm n (Z.to_nat ((tail ring - head ring) mod n)) no_api0 (head ring) no_head0 ltac:(lia)) as Hp.
  rewrite Z2Nat.id, Zplus_mod_idemp_r in Hp by lia.
  replace (head ring + (tail ring - head ring)) with (tail ring) in Hp by lia.
  by rewrite (Z.mod_small (tail ring)) in Hp by lia.
Qed.

Lemma ring_span_range : Forall (fun i => 0 <= i < num_slots ring) (ring_span ring).
Proof.
  destruct Hok. apply Forall_fmap, list.Forall_forall. intros k _. apply Z.mod_pos_bound. lia.
Qed.

Lemma ring_span_nodup : NoDup (ring_span ring).
Proof.
  destruct Hok. unfold ring_span. set (n := num_slots ring) in *.
  pose proof (Z.mod_pos_bound (tail ring - head ring) n ltac:(lia)) as Hb.
  apply NoDup_fmap_2_strong; [|apply NoDup_seqZ].
  intros x y Hx%elem_of_seqZ Hy%elem_of_seqZ E. apply mod_add_inj in E; lia.
Qed.

(** The slot where a part of the span begins. *)
Lemma ring_span_at ids l h : ring_span ring = ids ++ l -> path (nm_ring_next nm) h l (tail ring) ->
  h = (head ring + Z.of_nat (length ids)) mod num_slots ring.
Proof.
  intros E Hp. pose proof length_ring_span as Hl. rewrite E, length_app in Hl. destruct l as [|i l]; simpl in *.
  - subst h. rewrite Nat2Z.inj_add, Z.add_0_r in Hl. rewrite Hl, Zplus_mod_idemp_r.
    replace (head ring + (tail ring - head ring)) with (tail ring) by lia. destruct Hok. by rewrite Z.mod_small.
  - destruct Hp as (-> & _). assert (Hi : ring_span ring !! length ids = Some i).
    { rewrite E, lookup_app_r, Nat.sub_diag by lia. done. }
    unfold ring_span in Hi. rewrite list_lookup_fmap, lookup_seqZ_lt in Hi by lia. injection Hi as <-.
    by rewrite Z.add_0_l.
Qed.

(** Only the slots [ids], seen as a ring of their own. *)
Lemma path_prefix ids l h h' : NoDup (ids ++ l) -> path (nm_ring_next nm) h (ids ++ l) (tail ring) ->
  path (nm_ring_next nm) h' l (tail ring) -> path (nm_ring_next nm) h ids h'.
Proof.
  revert h. induction ids as [|i ids IH]; intros h Hnd Hp Hp'; simpl in *.
  - destruct l; simpl in *; [congruence|]. destruct Hp as [-> _], Hp' as [-> _]. done.
  - destruct Hp as (-> & Hne & Hp). apply list.NoDup_cons in Hnd as [Hni Hnd]. split; [done|].
    split; [|by apply IH]. intros ->. destruct l as [|j l]; [done|]. destruct Hp' as [-> _].
    apply Hni, elem_of_app. right. by apply elem_of_cons; left.
Qed.

End span.

(** *** The theorems *)

Lemma length_dsts nm ring span : netmap_ring_ok nm ring ->
  Z.of_nat (length (dsts nm ring span)) = nr_buf_size ring * Z.of_nat (length span).
Proof. intros Hok. apply length_full_addrs, (no_size _ _ Hok). Qed.

Lemma dsts_small nm ring : netmap_ring_ok nm ring -> Z.of_nat (length (dsts nm ring (ring_span ring))) < 2 ^ 63.
Proof.
  intros Hok. rewrite length_dsts by done. pose proof (length_ring_span nm ring Hok) as Hl. destruct Hok.
  pose proof (Z.mod_pos_bound (tail ring - head ring) (num_slots ring) ltac:(lia)).
  assert (Z.of_nat (length (ring_span ring)) < 2 ^ 32) by lia.
  assert (nr_buf_size ring * Z.of_nat (length (ring_span ring)) <= 2 ^ 16 * 2 ^ 32) by nia. lia.
Qed.

(** [netmap_send_spec] for the free slots of a ring. *)
Lemma netmap_send_ring nm ring m iov :
  let free := dsts nm ring (ring_span ring) in
  let data := iov_addrs iov in
  netmap_ring_ok nm ring -> NoDup free -> free ## data ->
  iov <> [] -> Forall (fun v => 0 < iov_len v) iov -> iov_total iov < 2 ^ 63 ->
  if bool_decide (iov_total iov <= nr_buf_size ring * ((tail ring - head ring) mod num_slots ring)) then
    exists m' sl' ids l h', ring_span ring = ids ++ l /\
      netmap_send nm ring m iov = Some (iov_total iov, m', mk_nring sl' (nr_buf_size ring) h' h' (tail ring)) /\
      path (nm_ring_next nm) h' l (tail ring) /\ frags_ok nm sl' ids /\ length sl' = length (slots ring) /\
      slot_addrs nm sl' ids = take (length data) free /\ rd m' (slot_addrs nm sl' ids) = rd m data /\
      (forall a, a ∉ slot_addrs nm sl' ids -> byte_at m' a = byte_at m a) /\
      (forall i, 0 <= i -> i ∉ ids -> slot_at sl' i = slot_at (slots ring) i) /\
      nr_buf_size ring * (Z.of_nat (length ids) - 1) < iov_total iov <= nr_buf_size ring * Z.of_nat (length ids)
  else
    exists m' sl', netmap_send nm ring m iov =
        Some (0, m', mk_nring sl' (nr_buf_size ring) (head ring) (tail ring) (tail ring)) /\
      (forall a, a ∉ free -> byte_at m' a = byte_at m a) /\
      (forall i, 0 <= i -> i ∉ ring_span ring -> slot_at sl' i = slot_at (slots ring) i).
Proof.
  intros free data Hok Hnd Hdis Hne Hpos Htot.
  assert (Hlen : Z.of_nat (length data) = iov_total iov).
  { apply length_iov_addrs. eapply list.Forall_impl; [exact Hpos|]. simpl. lia. }
  assert (HdZ : Z.of_nat (length (srcs iov)) < 2 ^ 63) by (change (srcs iov) with data; lia).
  pose proof (netmap_send_spec nm ring m iov (ring_span ring) Hpos Hnd Hdis (dsts_small _ _ Hok) HdZ
    (ring_span_nodup _ _ Hok) (ring_span_range _ _ Hok) (no_size _ _ Hok)) as Hs.
  pose proof (nk_more _ _ (no_api _ _ Hok)).
  specialize (Hs ltac:(lia) (ring_span_short _ _ Hok) (ring_span_path _ _ Hok) Hne ltac:(lia)).
  unfold srcs in Hs. fold data in Hs. rewrite length_dsts, (length_ring_span _ _ Hok), Hlen in Hs by done. exact Hs.
Qed.

(** [netmap_send] puts a packet in the free slots of the ring exactly when
    they can hold it.  Then it uses as few slots as it can, each full but the
    last, all but the last marked [NS_MOREFRAG], the bytes in them are those of
    the buffers of the packet in order, nothing else is written, [head] and
    [cur] move past them, and the result is the length of the packet.
    Otherwise it returns 0 with [head] where it was. *)
Theorem netmap_send_correct nm ring m iov :
  let free := dsts nm ring (ring_span ring) in
  let data := iov_addrs iov in
  netmap_ring_ok nm ring -> NoDup free -> free ## data ->
  iov <> [] -> Forall (fun v => 0 < iov_len v) iov -> iov_total iov < 2 ^ 63 ->
  if bool_decide (iov_total iov <= nr_buf_size ring * ((tail ring - head ring) mod num_slots ring)) then
    exists m' r' ids l, netmap_send nm ring m iov = Some (iov_total iov, m', r') /\
      ring_span ring = ids ++ l /\ frags_ok nm (slots r') ids /\ rd m' (slot_addrs nm (slots r') ids) = rd m data /\
      nr_buf_size ring * (Z.of_nat (length ids) - 1) < iov_total iov <= nr_buf_size ring * Z.of_nat (length ids) /\
      head r' = (head ring + Z.of_nat (length ids)) mod num_slots ring /\ cur r' = head r' /\ tail r' = tail ring /\
      (forall a, a ∉ slot_addrs nm (slots r') ids -> byte_at m' a = byte_at m a) /\
      (forall i, 0 <= i -> i ∉ ids -> slot_at (slots r') i = slot_at (slots ring) i)
  else
    exists m' r', netmap_send nm ring m iov = Some (0, m', r') /\
      head r' = head ring /\ cur r' = tail ring /\ tail r' = tail ring /\
      (forall a, a ∉ free -> byte_at m' a = byte_at m a) /\
      (forall i, 0 <= i -> i ∉ ring_span ring -> slot_at (slots r') i = slot_at (slots ring) i).
Proof.
  intros free data Hok Hnd Hdis Hne Hpos Htot.
  pose proof (netmap_send_ring nm ring m iov Hok Hnd Hdis Hne Hpos Htot) as Hs. case_bool_decide.
  - destruct Hs as (m' & sl' & ids & l & h' & E & Hs & Hp & Hf & _ & _ & Hrd & Hm & Ho & Hb).
    do 2 eexists. exists ids, l. split; [exact Hs|]. split_and!; try done; [apply Hb..|].
    by apply (ring_span_at nm ring Hok ids l).
  - destruct Hs as (m' & sl' & Hs & Hm & Ho). do 2 eexists. split; [exact Hs|]. by split_and!.
Qed.

(** [netmap_recv] delivers a packet whole when the buffers have room for
    it: a packet in the first slots of the ring, in as many fragments as it
    has, is copied to the beginning of the buffers whatever the way they are
    cut, nothing else is written, [head] and [cur] move to the slot after the
    packet, and the result is its length. *)
Theorem netmap_recv_correct nm ring m iov ids after :
  let bytes := slot_addrs nm (slots ring) ids in
  let len := Z.of_nat (length bytes) in
  let room := iov_addrs iov in
  netmap_ring_ok nm ring -> ring_span ring = ids ++ after -> frags_ok nm (slots ring) ids -> len < 2 ^ 63 ->
  iov <> [] -> Forall (fun v => 0 <= iov_len v) iov -> iov_total iov < 2 ^ 63 -> NoDup room -> room ## bytes ->
  len <= iov_total iov ->
  exists m', let h := (head ring + Z.of_nat (length ids)) mod num_slots ring in
    netmap_recv nm ring m iov = Some (len, m', mk_nring (slots ring) (nr_buf_size ring) h h (tail ring)) /\
    rd m' (take (length bytes) room) = rd m bytes /\
    (forall a, a ∉ take (length bytes) room -> byte_at m' a = byte_at m a).
Proof.
  intros bytes len room Hok Hsp Hf Hlen Hne Hl Ht Hnd Hdis Hfit.
  pose proof (length_iov_addrs _ Hl) as Hroom. fold room in Hroom.
  assert (HZ : Z.of_nat (length (rooms iov)) < 2 ^ 63) by (change (rooms iov) with room; lia).
  pose proof (ring_span_short _ _ Hok) as Hsh. rewrite Hsp, length_app in Hsh.
  pose proof (ring_span_path _ _ Hok) as Hp. rewrite Hsp in Hp.
  destruct (netmap_recv_spec nm ring m iov ids after Hl Hnd Hdis HZ Hlen ltac:(lia) Hp Hf Hne) as (m' & h' & E & H1 & H2 & H3).
  change (pkt nm ring ids) with bytes in *. change (rooms iov) with room in *. fold len in E, H1, H2, H3.
  rewrite Z.min_l in E, H1, H2 by lia. unfold len in H1, H2. rewrite Nat2Z.id in H1, H2.
  rewrite (take_ge bytes) in H1 by done. rewrite bool_decide_eq_true_2 in H3 by lia.
  exists m'. rewrite <- (ring_span_at _ _ Hok ids after h' Hsp H3). done.
Qed.

Lemma path_unique nx h l l' t : path nx h l t -> path nx h l' t -> l = l'.
Proof.
  revert h l'. induction l as [|i l IH]; intros h [|j l'] Hp Hp'; simpl in *.
  - done.
  - destruct Hp' as (_ & ? & _). done.
  - destruct Hp as (_ & ? & _). done.
  - destruct Hp as (<- & _ & Hp), Hp' as (<- & _ & Hp'). f_equal. by apply (IH (nx h)).
Qed.

Lemma nm_path_last nx ids after h t : ids <> [] -> path nx h (ids ++ after) t ->
  path nx (List.last ids 0) (List.last ids 0 :: after) t.
Proof.
  revert h. induction ids as [|i ids IH]; intros h Hne Hp; [done|]. destruct Hp as (-> & Hne' & Hp).
  destruct ids as [|j ids]; [done|]. by apply (IH (nx i)).
Qed.

Lemma frags_last nm sl ids : frags_ok nm sl ids -> frags_ok nm sl [List.last ids 0].
Proof.
  induction ids as [|i ids IH]; [done|]. intros [Hi Hf]. destruct ids as [|j ids]; [done|]. by apply IH, Hf.
Qed.

Lemma length_slot_addrs1 nm sl i : 0 <= slot_len (slot_at sl i) ->
  Z.of_nat (length (slot_addrs nm sl [i])) = slot_len (slot_at sl i).
Proof. intros. unfold slot_addrs. cbn [mbind list_bind]. rewrite app_nil_r. by apply length_seqZ_Z. Qed.

(** When the buffers are too small for a packet, [netmap_recv] fills them
    and leaves [head] on the last slot of the packet instead of after it: that
    slot is still the first of the ring, and the next call receives its bytes
    again, as a packet of its own.  A packet in one slot is received again and
    again. *)
Theorem netmap_recv_again nm ring m iov ids after iov2 :
  let bytes := slot_addrs nm (slots ring) ids in
  let e := List.last ids 0 in
  netmap_ring_ok nm ring -> ring_span ring = ids ++ after -> frags_ok nm (slots ring) ids ->
  Z.of_nat (length bytes) < 2 ^ 63 -> slot_len (slot_at (slots ring) e) < 2 ^ 16 ->
  iov <> [] -> Forall (fun v => 0 <= iov_len v) iov -> NoDup (iov_addrs iov) -> iov_addrs iov ## bytes ->
  iov_total iov < Z.of_nat (length bytes) ->
  iov2 <> [] -> Forall (fun v => 0 <= iov_len v) iov2 -> NoDup (iov_addrs iov2) ->
  iov_addrs iov2 ## slot_addrs nm (slots ring) [e] -> iov_total iov2 < 2 ^ 63 ->
  exists m' r', netmap_recv nm ring m iov = Some (iov_total iov, m', r') /\
    head r' = e /\ slots r' = slots ring /\ ring_span r' = e :: after /\
    exists m2 r2, netmap_recv nm r' m' iov2 = Some (Z.min (slot_len (slot_at (slots ring) e)) (iov_total iov2), m2, r2).
Proof.
  intros bytes e Hok Hsp Hf Hlen Hle Hne Hl Hnd Hdis Hfit Hne2 Hl2 Hnd2 Hdis2 Ht2.
  pose proof (length_iov_addrs _ Hl) as Hroom. pose proof (length_iov_addrs _ Hl2) as Hroom2.
  assert (HZ : Z.of_nat (length (rooms iov)) < 2 ^ 63) by (unfold rooms; lia).
  pose proof (ring_span_short _ _ Hok) as Hsh. rewrite Hsp, length_app in Hsh.
  pose proof (ring_span_path _ _ Hok) as Hp. rewrite Hsp in Hp.
  destruct (netmap_recv_spec nm ring m iov ids after Hl Hnd Hdis HZ Hlen ltac:(lia) Hp Hf Hne) as (m' & h' & E & _ & _ & H3).
  change (pkt nm ring ids) with bytes in *. unfold rooms in E, H3. rewrite Hroom in E, H3.
  rewrite Z.min_r in E by lia. rewrite bool_decide_eq_false_2 in H3 by lia. fold e in H3. subst h'.
  assert (ids <> []) as Hnil by (by destruct ids).
  set (r' := mk_nring (slots ring) (nr_buf_size ring) e e (tail ring)) in *.
  assert (Hin : e ∈ ring_span ring).
  { rewrite Hsp. apply elem_of_app. left. rewrite (app_removelast_last 0 Hnil). apply elem_of_app. right. by apply elem_of_cons; left. }
  assert (Hok' : netmap_ring_ok nm r').
  { pose proof (ring_span_range _ _ Hok) as Hr. rewrite list.Forall_forall in Hr. specialize (Hr _ Hin). by destruct Hok. }
  pose proof (nm_path_last _ _ _ _ _ Hnil Hp) as Hp'. fold e in Hp'.
  pose proof (path_unique _ _ _ _ _ (ring_span_path _ _ Hok') Hp') as Hsp'.
  pose proof (frags_last _ _ _ Hf) as Hf'. fold e in Hf'.
  assert (He : 0 < slot_len (slot_at (slots ring) e)) by apply Hf'.
  pose proof (length_slot_addrs1 nm (slots ring) e ltac:(lia)) as Hl1.
  exists m', r'. split; [exact E|]. split; [done|]. split; [done|]. split; [exact Hsp'|].
  pose proof (ring_span_short _ _ Hok') as Hsh'. rewrite Hsp' in Hsh'.
  destruct (netmap_recv_spec nm r' m' iov2 [e] after Hl2 Hnd2 Hdis2) as (m2 & h2 & E2 & _); try done.
  - unfold rooms. lia.
  - unfold pkt. simpl slots. lia.
  - simpl in *. lia.
  - unfold pkt, rooms in E2. simpl slots in E2. rewrite Hl1, Hroom2 in E2. by do 2 eexists.
Qed.

(** C37: What [netmap_send] puts in a ring [netmap_recv] takes out: a receiver
    that finds in its ring the slots that a send filled, with buffers cut in
    any way that have room for the packet, gets the bytes that were sent. *)
Theorem netmap_roundtrip nm ring m iov m' r' iov2 :
  let free := dsts nm ring (ring_span ring) in
  let data := iov_addrs iov in
  netmap_ring_ok nm ring -> NoDup free -> free ## data ->
  iov <> [] -> Forall (fun v => 0 < iov_len v) iov -> iov_total iov < 2 ^ 63 ->
  netmap_send nm ring m iov = Some (iov_total iov, m', r') -> 0 < iov_total iov ->
  iov2 <> [] -> Forall (fun v => 0 <= iov_len v) iov2 -> iov_total iov2 < 2 ^ 63 ->
  NoDup (iov_addrs iov2) -> iov_addrs iov2 ## free -> iov_total iov <= iov_total iov2 ->
  exists m2, netmap_recv nm (mk_nring (slots r') (nr_buf_size r') (head ring) (head ring) (head r')) m' iov2 =
      Some (iov_total iov, m2, mk_nring (slots r') (nr_buf_size r') (head r') (head r') (head r')) /\
    rd m2 (take (length data) (iov_addrs iov2)) = rd m data.
Proof.
  intros free data Hok Hnd Hdis Hne Hpos Htot Hsend Hpos0 Hne2 Hl2 Ht2 Hnd2 Hdis2 Hfit.
  pose proof (netmap_send_ring nm ring m iov Hok Hnd Hdis Hne Hpos Htot) as Hs. rewrite Hsend in Hs. case_bool_decide; last first.
  { destruct Hs as (? & ? & [= Hs _] & _). lia. }
  destruct Hs as (m1 & sl' & ids & l & h' & Hsp & [= <- ->] & Hp & Hf & Hsl & Had & Hrd & _). simpl slots. simpl nr_buf_size. simpl head.
  fold data in Had, Hrd. fold free in Had.
  assert (Hlen : Z.of_nat (length data) = iov_total iov).
  { apply length_iov_addrs. eapply list.Forall_impl; [exact Hpos|]. simpl. lia. }
  pose proof (dsts_small _ _ Hok) as Hsm. fold free in Hsm. pose proof (length_dsts nm ring (ring_span ring) Hok) as Hld.
  fold free in Hld. rewrite (length_ring_span _ _ Hok) in Hld.
  pose proof (ring_span_short _ _ Hok) as Hsh. rewrite Hsp, length_app in Hsh.
  pose proof (ring_span_path _ _ Hok) as Hpr. pose proof (ring_span_nodup _ _ Hok) as Hns. rewrite Hsp in Hpr, Hns.
  set (r2 := mk_nring sl' (nr_buf_size ring) (head ring) (head ring) h').
  pose proof (length_iov_addrs _ Hl2) as Hroom2.
  assert (Hpl : length (pkt nm r2 ids) = length data).
  { unfold pkt. simpl slots. rewrite Had, length_take. lia. }
  destruct (netmap_recv_spec nm r2 m' iov2 ids [] Hl2 Hnd2) as (m2 & h2 & E2 & R2 & _ & P2); try done.
  - unfold pkt. simpl slots. rewrite Had. intros a Ha Ha'. apply (Hdis2 a Ha). apply elem_of_take in Ha' as (i & Hi & _). by eapply list_elem_of_lookup_2.
  - unfold rooms. lia.
  - lia.
  - simpl. lia.
  - rewrite app_nil_r. by apply (path_prefix nm ring ids l).
  - unfold rooms in *. rewrite Hpl, Hlen, Hroom2 in *. rewrite bool_decide_eq_true_2 in P2 by lia. simpl in P2. subst h2.
    rewrite Z.min_l in E2, R2 by lia. exists m2. split; [exact E2|].
    replace (Z.to_nat (iov_total iov)) with (length data) in R2 by lia. rewrite R2, <- Hrd.
    rewrite take_ge by lia. done.
Qed.

(** *** Examples *)

Lemma disjoint_check (l l' : list Z) : forallb (fun a => negb (bool_decide (a ∈ l'))) l = true -> l ## l'.
Proof.
  intros H a Ha Ha'. rewrite forallb_forall in H. specialize (H a (proj1 (list_elem_of_In _ _) Ha)).
  by rewrite bool_decide_eq_true_2 in H.
Qed.

(** A ring of four slots of four bytes; three slots are free, from the last
    one on. *)
Definition example_nm : netmap_api := mk_api 0x20 (fun i => (i + 1) mod 4) (fun i => 1000 + 16 * i).
Definition example_nring : netmap_ring :=
  mk_nring [mk_slot 5 0 0; mk_slot 6 0 0; mk_slot 7 0 0; mk_slot 8 0 0] 4 3 3 2.
Definition example_iov : list iovec := [mk_iov 100 3; mk_iov 200 3].
Definition example_iov2 : list iovec := [mk_iov 300 5; mk_iov 400 0; mk_iov 500 5].
Definition example_mem : mem := list_to_map [(100, 11); (101, 12); (102, 13); (200, 14); (201, 15); (202, 16)].

Lemma example_nring_ok : netmap_ring_ok example_nm example_nring.
Proof. split; [split; [done|vm_compute; done]|vm_compute..]; done. Qed.

Lemma netmap_send_correct_witness :
  exists m' r' ids l, netmap_send example_nm example_nring example_mem example_iov = Some (6, m', r') /\
    ring_span example_nring = ids ++ l /\ frags_ok example_nm (slots r') ids /\
    rd m' (slot_addrs example_nm (slots r') ids) = [11; 12; 13; 14; 15; 16].
Proof.
  pose proof (netmap_send_correct example_nm example_nring example_mem example_iov example_nring_ok) as H.
  rewrite bool_decide_eq_true_2 in H by (vm_compute; done).
  destruct H as (m' & r' & ids & l & E & H1 & H2 & H3 & _).
  - apply (bool_decide_unpack _). vm_compute. exact I.
  - apply disjoint_check. vm_compute. reflexivity.
  - done.
  - repeat constructor.
  - vm_compute. done.
  - by exists m', r', ids, l.
Defined.

(** The ring after that send, as a receiver sees it, and the memory. *)
Definition example_filled : netmap_ring :=
  mk_nring [mk_slot 5 2 0; mk_slot 6 0 0; mk_slot 7 0 0; mk_slot 8 4 0x20] 4 3 3 1.
Definition example_mem2 : mem :=
  list_to_map [(1128, 11); (1129, 12); (1130, 13); (1131, 14); (1080, 15); (1081, 16)].

Lemma example_filled_ok : netmap_ring_ok example_nm example_filled.
Proof. split; [split; [done|vm_compute; done]|vm_compute..]; done. Qed.

Lemma example_frags : frags_ok example_nm (slots example_filled) [3; 0].
Proof. repeat split; vm_compute; done. Qed.

Lemma example_iov2_lens : Forall (fun v => 0 <= iov_len v) example_iov2.
Proof. repeat constructor; vm_compute; congruence. Qed.

Lemma example_iov2_nodup : NoDup (iov_addrs example_iov2).
Proof. apply (bool_decide_unpack _). vm_compute. exact I. Qed.

Lemma netmap_recv_correct_witness :
  exists m', netmap_recv example_nm example_filled example_mem2 example_iov2 =
      Some (6, m', mk_nring (slots example_filled) 4 1 1 1) /\
    rd m' [300; 301; 302; 303; 304; 500] = [11; 12; 13; 14; 15; 16].
Proof.
  destruct (netmap_recv_correct example_nm example_filled example_mem2 example_iov2 [3; 0] [] example_filled_ok) as (m' & E & R & _).
  - reflexivity.
  - exact example_frags.
  - reflexivity.
  - discriminate.
  - exact example_iov2_lens.
  - reflexivity.
  - exact example_iov2_nodup.
  - apply disjoint_check. vm_compute. reflexivity.
  - vm_compute. congruence.
  - exists m'. split; [exact E|]. exact R.
Defined.

Lemma netmap_recv_again_witness :
  exists m' r', netmap_recv example_nm example_filled example_mem2 [mk_iov 300 5] = Some (5, m', r') /\
    head r' = 0 /\ slots r' = slots example_filled /\ ring_span r' = [0] /\
    exists m2 r2, netmap_recv example_nm r' m' example_iov2 = Some (2, m2, r2).
Proof.
  apply (netmap_recv_again example_nm example_filled example_mem2 [mk_iov 300 5] [3; 0] [] example_iov2 example_filled_ok).
  - reflexivity.
  - exact example_frags.
  - reflexivity.
  - reflexivity.
  - discriminate.
  - constructor; [|constructor]. vm_compute. congruence.
  - apply (bool_decide_unpack _). vm_compute. exact I.
  - apply disjoint_check. vm_compute. reflexivity.
  - reflexivity.
  - discriminate.
  - exact example_iov2_lens.
  - exact example_iov2_nodup.
  - apply disjoint_check. vm_compute. reflexivity.
  - reflexivity.
Defined.

Lemma netmap_roundtrip_witness :
  exists m' r' m2, netmap_send example_nm example_nring example_mem example_iov = Some (6, m', r') /\
    netmap_recv example_nm (mk_nring (slots r') 4 3 3 1) m' example_iov2 = Some (6, m2, mk_nring (slots r') 4 1 1 1) /\
    rd m2 [300; 301; 302; 303; 304; 500] = [11; 12; 13; 14; 15; 16].
Proof.
  destruct (netmap_send example_nm example_nring example_mem example_iov) as [[[n m'] r']|] eqn:E; [|by vm_compute in E].
  assert (n = 6 /\ head r' = 1 /\ nr_buf_size r' = 4) as (-> & Hh & Hs) by (vm_compute in E; by injection E as <- _ <-).
  destruct (netmap_roundtrip example_nm example_nring example_mem example_iov m' r' example_iov2 example_nring_ok) as (m2 & H1 & H2).
  - apply (bool_decide_unpack _). vm_compute. exact I.
  - apply disjoint_check. vm_compute. reflexivity.
  - discriminate.
  - repeat constructor.
  - reflexivity.
  - exact E.
  - reflexivity.
  - discriminate.
  - exact example_iov2_lens.
  - reflexivity.
  - exact example_iov2_nodup.
  - apply disjoint_check. vm_compute. reflexivity.
  - vm_compute. congruence.
  - exists m', r', m2. rewrite Hh, Hs in H1. split; [done|]. split; [exact H1|exact H2].
Defined.
