(* ===== verification/Poll.v ===== *)
(** * The packet thread of one client

    [process_packets_poll] and [process_packets_spin] of proxy/backend.c: the
    thread that moves the packets of a queue pair, sleeping in poll(2) when
    there is nothing to do or spinning.  The operations of the device are an
    interface, [BeOps]; [PollDevice] is what the thread relies on, and the sring
    and vring_packed devices provide it. *)

From stdpp Require Import gmap.
From S2P Require Import Prelude Abi Backend Ring Sring SringRx.
From S2P Require Import VringPacked VringInv VringGuest VringHost Netmap.
Open Scope Z_scope.

Module Poll.

Definition POLLIN : Z := 1.
Definition POLLOUT : Z := 4.
Definition BPFHV_STOPFD_NOEVENT : Z := 0.

(** What [rxq_push] and [txq_drain] leave: the result, the shared area of the
    queue, [notify] and the statistics, [*can_receive] or [*can_send], the
    memory map and the outside world. *)
Record op_result (X W : Type) := mk_op {
  o_count : Z;
  o_ring : X;
  o_queue : queue_io;
  o_flag : option Z;
  o_map : mem_map;
  o_w : W;
}.
Arguments mk_op {X W}.
Arguments o_count {X W}.
Arguments o_ring {X W}.
Arguments o_queue {X W}.
Arguments o_flag {X W}.
Arguments o_map {X W}.
Arguments o_w {X W}.

(** The operations of [BeOps] that the thread uses; the last argument of
    [rxq_push] and [txq_drain] is what the guest does meanwhile. *)
Class BeOps (R T W : Type) := {
  rxq_kicks : R -> Z -> R;
  txq_kicks : T -> Z -> T;
  rxq_push : mem_map -> queue_io -> R -> option Z -> W -> list (R -> R) -> option (op_result R W);
  txq_drain : mem_map -> queue_io -> T -> option Z -> W -> list (T -> T) -> option (op_result T W);
}.

Section thread.
Context {R T W : Type} `{BeOps R T W}.

(** The part of a [BpfhvBackend] with one queue pair that the thread uses, and
    the queues whose [irqfd] it has signalled. *)
Record backend := mk_be {
  b_rx : R;
  b_tx : T;
  b_rxq : queue_io;
  b_txq : queue_io;
  b_map : mem_map;
  b_w : W;
  b_signals : list Z;
}.

(** Queue [i] is signalled when [notify] is set. *)
Definition irq (i : Z) (q : queue_io) (signals : list Z) : queue_io * list Z :=
  if z2b (q_notify q) then (upd_stats stats_irq q, signals ++ [i]) else (q, signals).

(** The receive step and the transmit step of a turn. *)
Definition rx_step (can_receive : option Z) (env : list (R -> R)) (be : backend) : option (Z * option Z * backend) :=
  res ← rxq_push (b_map be) (b_rxq be) (b_rx be) can_receive (b_w be) env;
  let '(rxq, signals) := irq 0 (o_queue res) (b_signals be) in
  Some (o_count res, o_flag res, mk_be (o_ring res) (b_tx be) rxq (b_txq be) (o_map res) (o_w res) signals).

Definition tx_step (can_send : option Z) (env : list (T -> T)) (be : backend) : option (Z * option Z * backend) :=
  res ← txq_drain (b_map be) (b_txq be) (b_tx be) can_send (b_w be) env;
  let '(txq, signals) := irq 1 (o_queue res) (b_signals be) in
  Some (o_count res, o_flag res, mk_be (b_rx be) (o_ring res) (b_rxq be) txq (o_map res) (o_w res) signals).

Definition set_kicks (enable : Z) (be : backend) : backend :=
  mk_be (rxq_kicks (b_rx be) enable) (txq_kicks (b_tx be) enable) (b_rxq be) (b_txq be) (b_map be) (b_w be) (b_signals be).

(** *** [process_packets_poll] *)

(** What poll(2) returns: an error, or the descriptors that are ready, the two
    [kickfd] and [stopfd]. *)
Inductive poll_ret := poll_error | poll_ready (rx_kick tx_kick stop : bool).

(** What happens from one call of poll(2) to the next: what the guest and the
    outside world do while the thread waits, how the wait ends, and what the
    guest does while the thread works. *)
Record turn := mk_turn {
  tn_rx : R -> R;
  tn_tx : T -> T;
  tn_w : W -> W;
  tn_poll : poll_ret;
  tn_rx_env : list (R -> R);
  tn_tx_env : list (T -> T);
}.

(** The variables of the loop when it calls poll(2); [p_sent] is the last value
    of [count] of the transmit step. *)
Record poll_state := mk_poll {
  p_be : backend;
  p_can_receive : Z;
  p_can_send : Z;
  p_timeout : Z;
  p_sent : Z;
}.

(** [pfd_if->events] *)
Definition if_events (s : poll_state) : Z :=
  Z.lor (if z2b (p_can_receive s) then POLLIN else 0) (if z2b (p_can_send s) then 0 else POLLOUT).

(** The thread waits in poll(2), it was stopped, or poll(2) failed. *)
Inductive outcome := Waiting | Stopped | Failed.

Definition kick_stats (kick : bool) (q : queue_io) : queue_io := if kick then upd_stats stats_kick q else q.

Definition poll_turn (tn : turn) (s : poll_state) : option (outcome * poll_state) :=
  let be := p_be s in
  let be := mk_be (tn_rx tn (b_rx be)) (tn_tx tn (b_tx be)) (b_rxq be) (b_txq be) (b_map be) (tn_w tn (b_w be)) (b_signals be) in
  match tn_poll tn with
  | poll_error => Some (Failed, mk_poll be (p_can_receive s) (p_can_send s) (p_timeout s) (p_sent s))
  | poll_ready rx_kick tx_kick stop =>
      let be := mk_be (b_rx be) (b_tx be) (kick_stats rx_kick (b_rxq be)) (kick_stats tx_kick (b_txq be))
                  (b_map be) (b_w be) (b_signals be) in
      '(count, can_receive, be) ← rx_step (Some 1) (tn_rx_env tn) be;
      let poll_timeout := if BPFHV_BE_RX_BUDGET <=? count then 0 else -1 in
      '(count, can_send, be) ← tx_step (Some 1) (tn_tx_env tn) be;
      let poll_timeout := if BPFHV_BE_TX_BUDGET <=? count then 0 else poll_timeout in
      Some (if stop then Stopped else Waiting,
            mk_poll be (default 0 can_receive) (default 0 can_send) poll_timeout count)
  end.

(** The turns made until the thread waits again with [tns] used up, or ends. *)
Fixpoint poll_loop (tns : list turn) (s : poll_state) : option (outcome * poll_state) :=
  match tns with
  | [] => Some (Waiting, s)
  | tn :: tns =>
      '(o, s) ← poll_turn tn s;
      match o with Waiting => poll_loop tns s | _ => Some (o, s) end
  end.

Definition process_packets_poll (tns : list turn) (be : backend) : option (outcome * poll_state) :=
  poll_loop tns (mk_poll (set_kicks 1 be) 1 1 (-1) 0).

(** *** [process_packets_spin] *)

(** A turn: [sp_stop] is the value of [stopflag] that is read, [sp_w] what
    [be->sync], if there is one, and the rest of the world do. *)
Record spin := mk_spin {
  sp_stop : Z;
  sp_w : W -> W;
  sp_rx_env : list (R -> R);
  sp_tx_env : list (T -> T);
}.

Fixpoint spin_loop (sps : list spin) (be : backend) : option (outcome * backend) :=
  match sps with
  | [] => Some (Waiting, be)
  | sp :: sps =>
      if negb (sp_stop sp =? BPFHV_STOPFD_NOEVENT) then Some (Stopped, be)
      else
        let be := mk_be (b_rx be) (b_tx be) (b_rxq be) (b_txq be) (b_map be) (sp_w sp (b_w be)) (b_signals be) in
        '(_, _, be) ← rx_step None (sp_rx_env sp) be;
        '(_, _, be) ← tx_step None (sp_tx_env sp) be;
        spin_loop sps be
  end.

Definition process_packets_spin (sps : list spin) (be : backend) : option (outcome * backend) :=
  spin_loop sps (set_kicks 0 be).

End thread.
Arguments backend : clear implicits.
Arguments turn : clear implicits.
Arguments spin : clear implicits.
Arguments poll_state : clear implicits.
End Poll.
Import Poll.

(** ** What the thread relies on *)

(** A backend that takes every packet or says that it would block. *)
Class SendBlocks (W : Type) `{NetBackend W} : Prop := {
  send_blocks : forall hdr w iov, let res := fst (be_send hdr w iov) in
    0 < s32 (io_ret res) \/ (s32 (io_ret res) < 0 /\ io_errno res = EAGAIN);
}.

(** The invariants of the shared areas, what the guest may do to them, the
    states in which the guest asks for a kick as soon as it publishes a buffer,
    and those in which every published buffer has been served. *)
Class PollDevice (R T W : Type) `{BeOps R T W} := {
  rx_inv : R -> Prop;
  tx_inv : T -> Prop;
  rx_rely : (R -> R) -> Prop;
  tx_rely : (T -> T) -> Prop;
  rx_wakes : R -> Prop;
  tx_wakes : T -> Prop;
  tx_idle : T -> Prop;
}.

Class PollDeviceOk (R T W : Type) `{PollDevice R T W} : Prop := {
  rx_guest_ok : forall f r, rx_rely f -> rx_inv r -> rx_inv (f r);
  tx_guest_ok : forall f t, tx_rely f -> tx_inv t -> tx_inv (f t);
  rx_kicks_ok : forall e r, rx_inv r -> rx_inv (rxq_kicks r e);
  tx_kicks_ok : forall e t, tx_inv t -> tx_inv (txq_kicks t e) /\ tx_wakes (txq_kicks t 1);
  rx_push_ok : forall m q r v w env, rx_inv r -> Forall rx_rely env ->
    exists res, rxq_push m q r v w env = Some res /\ rx_inv (o_ring res) /\
      (v = Some 1 -> o_flag res = Some 1 \/ (o_flag res = Some 0 /\ rx_wakes (o_ring res)));
  tx_drain_ok : forall m q t v w env, tx_inv t -> Forall tx_rely env ->
    exists res, txq_drain m q t v w env = Some res /\ tx_inv (o_ring res) /\
      (v = Some 1 -> BPFHV_BE_TX_BUDGET <= o_count res \/ o_flag res = Some 0 \/
         (o_flag res = Some 1 /\ tx_wakes (o_ring res) /\ (0 < o_count res -> tx_idle (o_ring res))));
}.

Section poll.
Context {R T W : Type} `{PollDeviceOk R T W}.

Definition be_inv (be : backend R T W) : Prop := rx_inv (b_rx be) /\ tx_inv (b_tx be).

Definition turn_ok (tn : turn R T W) : Prop :=
  rx_rely (tn_rx tn) /\ tx_rely (tn_tx tn) /\ Forall rx_rely (tn_rx_env tn) /\ Forall tx_rely (tn_tx_env tn).

(** The thread may sleep: whatever may need its attention wakes it up. *)
Definition may_sleep (s : poll_state R T W) : Prop :=
  (Z.land (if_events s) POLLIN <> 0 \/ rx_wakes (b_rx (p_be s))) /\
  (Z.land (if_events s) POLLOUT <> 0 \/
   (tx_wakes (b_tx (p_be s)) /\ (0 < p_sent s -> tx_idle (b_tx (p_be s))))).

Definition poll_ok (s : poll_state R T W) : Prop :=
  be_inv (p_be s) /\ (p_timeout s <> 0 -> p_timeout s = -1 /\ may_sleep s).

Lemma if_events_in (s : poll_state R T W) : p_can_receive s = 1 -> Z.land (if_events s) POLLIN <> 0.
Proof. intros E. unfold if_events. rewrite E. destruct (z2b (p_can_send s)); vm_compute; done. Qed.

Lemma if_events_out (s : poll_state R T W) : p_can_send s = 0 -> Z.land (if_events s) POLLOUT <> 0.
Proof. intros E. unfold if_events. rewrite E. destruct (z2b (p_can_receive s)); vm_compute; done. Qed.

Lemma rx_step_ok v env be : be_inv be -> Forall rx_rely env ->
  exists count flag be', rx_step v env be = Some (count, flag, be') /\ be_inv be' /\ b_tx be' = b_tx be /\
    (v = Some 1 -> flag = Some 1 \/ (flag = Some 0 /\ rx_wakes (b_rx be'))).
Proof.
  intros [Hr Ht] HF. destruct (rx_push_ok (b_map be) (b_rxq be) (b_rx be) v (b_w be) env Hr HF) as (res & E & Hi & Hf).
  unfold rx_step. rewrite E. simpl. unfold irq. destruct (z2b _); do 3 eexists; (split; [reflexivity|]); done.
Qed.

Lemma tx_step_ok v env be : be_inv be -> Forall tx_rely env ->
  exists count flag be', tx_step v env be = Some (count, flag, be') /\ be_inv be' /\ b_rx be' = b_rx be /\
    (v = Some 1 -> BPFHV_BE_TX_BUDGET <= count \/ flag = Some 0 \/
       (flag = Some 1 /\ tx_wakes (b_tx be') /\ (0 < count -> tx_idle (b_tx be')))).
Proof.
  intros [Hr Ht] HF. destruct (tx_drain_ok (b_map be) (b_txq be) (b_tx be) v (b_w be) env Ht HF) as (res & E & Hi & Hf).
  unfold tx_step. rewrite E. simpl. unfold irq. destruct (z2b _); do 3 eexists; (split; [reflexivity|]); done.
Qed.

Lemma poll_turn_ok tn s : poll_ok s -> turn_ok tn ->
  exists o s', poll_turn tn s = Some (o, s') /\ be_inv (p_be s') /\ (o = Waiting -> poll_ok s') /\
    match tn_poll tn with poll_error => o = Failed | poll_ready _ _ stop => o = if stop then Stopped else Waiting end.
Proof.
  intros [[Hr Ht] _] (G1 & G2 & G3 & G4). unfold poll_turn.
  assert (rx_inv (tn_rx tn (b_rx (p_be s))) /\ tx_inv (tn_tx tn (b_tx (p_be s)))) as [Hr1 Ht1]
    by (split; [by apply rx_guest_ok|by apply tx_guest_ok]).
  destruct (tn_poll tn) as [|rk tk stop].
  { do 2 eexists. split; [reflexivity|]. by split. }
  set (be1 := mk_be _ _ _ _ _ _ _). assert (Hbe1 : be_inv be1) by done.
  destruct (rx_step_ok (Some 1) _ be1 Hbe1 G3) as (c1 & f1 & be2 & -> & Hbe2 & E2 & F2).
  cbn [mbind option_bind].
  destruct (tx_step_ok (Some 1) _ be2 Hbe2 G4) as (c2 & f2 & be3 & -> & Hbe3 & E3 & F3).
  cbn [mbind option_bind]. specialize (F2 eq_refl). specialize (F3 eq_refl).
  do 2 eexists. split; [reflexivity|]. split; [done|]. split; [|done]. intros _. split; [done|]. simpl.
  destruct (BPFHV_BE_TX_BUDGET <=? c2) eqn:Eb; zify_bool; [done|].
  intros Hto. split; [case_if; done|]. split; simpl.
  - destruct F2 as [-> | [-> Hw] ]; [left; by apply if_events_in|right]. by rewrite E3.
  - destruct F3 as [? | [-> | (-> & Hw) ] ]; [lia|left; by apply if_events_out|by right].
Qed.

Lemma poll_loop_ok tns s : poll_ok s -> Forall turn_ok tns ->
  exists o s', poll_loop tns s = Some (o, s') /\ be_inv (p_be s') /\ (o = Waiting -> poll_ok s').
Proof.
  intros Hs HF. revert s Hs. induction HF as [|tn tns Htn _ IH]; intros s Hs.
  { do 2 eexists. split; [reflexivity|]. split; [apply Hs|done]. }
  simpl. destruct (poll_turn_ok tn s Hs Htn) as (o & s' & -> & Hbe & Hw & _). cbn [mbind option_bind].
  destruct o; [by apply IH, Hw|by do 2 eexists..].
Qed.

(** C5: The packet thread does not sleep over work, for a device that keeps the
    contract [PollDeviceOk]: a receive routine that stops either leaves the
    interface to be polled or has asked the guest for a kick, and a drain that
    stops has spent its budget, found the interface blocked, or asked for a
    kick.  The split rings and the packed rings keep it ([sring_poll_ok],
    [vring_packed_poll_ok]) when the network backend takes each packet or fails
    with EAGAIN ([SendBlocks]); a backend that refuses a packet otherwise, as netmap
    does on a full ring, makes the thread sleep over packets
    ([netmap_full_ring_stalls]).  On these conditions, whenever
    [process_packets_poll] waits in poll(2) without a timeout, the interface is
    polled for packets, or the guest asks for a kick with the next receive
    buffer it publishes; and the interface is polled for room, or the guest
    asks for a kick with the next packet it publishes and, if the last drain
    sent anything, no published packet is left; and every turn ends, with the
    invariants of both rings, for guests that change the rings only as their
    protocol allows ([turn_ok]). *)
Theorem poll_never_sleeps_on_work tns be :
  be_inv be -> Forall turn_ok tns ->
  exists o s, process_packets_poll tns be = Some (o, s) /\ be_inv (p_be s) /\
    (o = Waiting -> p_timeout s <> 0 -> p_timeout s = -1 /\ may_sleep s).
Proof.
  intros [Hr Ht] HF. unfold process_packets_poll.
  destruct (poll_loop_ok tns (mk_poll (set_kicks 1 be) 1 1 (-1) 0)) as (o & s & -> & Hbe & Hw); [|done|].
  - split.
    + split; simpl; [by apply rx_kicks_ok|by apply tx_kicks_ok].
    + intros _. split; [done|]. split; [left; by apply if_events_in|right]. simpl.
      split; [by apply (tx_kicks_ok 1)|lia].
  - exists o, s. split; [done|]. split; [done|]. intros Ho. apply (Hw Ho).
Qed.

(** [process_packets_spin] makes the turns up to the one that finds the stop
    flag set, and keeps the invariants of both rings. *)
Theorem spin_keeps_rings sps be :
  be_inv be -> Forall (fun sp => Forall rx_rely (sp_rx_env sp) /\ Forall tx_rely (sp_tx_env sp)) sps ->
  exists o be', process_packets_spin sps be = Some (o, be') /\ be_inv be' /\
    o = if forallb (fun sp => sp_stop sp =? BPFHV_STOPFD_NOEVENT) sps then Waiting else Stopped.
Proof.
  intros [Hr Ht] HF. unfold process_packets_spin.
  assert (Hbe : be_inv (set_kicks 0 be)) by (split; simpl; [by apply rx_kicks_ok|by apply tx_kicks_ok]).
  revert Hbe. generalize (set_kicks 0 be). clear Hr Ht be.
  induction HF as [|sp sps [G1 G2] _ IH]; intros be Hbe; simpl; [by do 2 eexists|].
  destruct (sp_stop sp =? BPFHV_STOPFD_NOEVENT); simpl; [|by do 2 eexists].
  set (be1 := mk_be _ _ _ _ _ _ _).
  destruct (rx_step_ok None _ be1 Hbe G1) as (c1 & f1 & be2 & -> & Hbe2 & _).
  cbn [mbind option_bind].
  destruct (tx_step_ok None _ be2 Hbe2 G2) as (c2 & f2 & be3 & -> & Hbe3 & _).
  cbn [mbind option_bind]. by apply IH.
Qed.

End poll.

(** ** The sring device *)

Section sring.
Context {W : Type} `{!NetBackend W}.

#[local] Existing Instance SringTx.sring_tx_desc_inhabited.

Definition enough {D} (r : ring D) (env : list (ring D -> ring D)) : nat := S (Z.to_nat (poll_fuel r env)).

#[export] Instance sring_ops : BeOps SringRx.sring_rx_context SringTx.sring_tx_context W := {|
  rxq_kicks := SringRx.sring_rxq_notification;
  txq_kicks := SringTx.sring_txq_notification;
  rxq_push m q r v w env :=
    res ← SringRx.sring_rxq_push (enough r env) m q r v w env;
    Some (mk_op (SringRx.r_count res) (SringRx.r_priv res) (SringRx.r_rxq res) (SringRx.r_can_receive res)
            (SringRx.r_map res) (SringRx.r_w res));
  txq_drain m q t v w env :=
    res ← SringTx.sring_txq_drain (enough t env) m q t v w env;
    Some (mk_op (SringTx.r_count res) (SringTx.r_priv res) (SringTx.r_txq res) (SringTx.r_can_send res)
            (SringTx.r_map res) (SringTx.r_w res));
|}.

(** The guest programs ask for a kick when [kick_enabled] is set. *)
#[export] Instance sring_poll : PollDevice SringRx.sring_rx_context SringTx.sring_tx_context W := {|
  rx_inv := ring_ok;
  tx_inv := ring_ok;
  rx_rely := guest_rely;
  tx_rely := guest_rely;
  rx_wakes r := forall ctx, opaque ctx = r -> length (bufs ctx) = Z.to_nat BPFHV_MAX_RX_BUFS ->
    0 <= num_bufs ctx <= BPFHV_MAX_RX_BUFS -> in_flight r + num_bufs ctx <= qmask r + 1 ->
    oflags (snd (SringRx.sring_rxp ctx)) = BPFHV_OFLAGS_KICK_NEEDED;
  tx_wakes r := forall h ctx, opaque ctx = r -> num_bufs ctx = 1 -> in_flight r < qmask r + 1 ->
    oflags (snd (SringTx.sring_txp h ctx)) = BPFHV_OFLAGS_KICK_NEEDED;
  tx_idle r := pending r = [];
|}.

Lemma poll_fuel_enough {D} (r : ring D) env : ring_ok r -> poll_fuel r env < Z.of_nat (enough r env).
Proof. intros Hok. unfold enough. pose proof (qmask_bound _ Hok). unfold poll_fuel in *. nia. Qed.

Lemma sring_tx_armed (r : SringTx.sring_tx_context) : ring_ok r -> kick_enabled r = 1 -> tx_wakes r.
Proof.
  intros Hok Hk h ctx Eo Hn Hroom. subst r. pose proof (SringTx.sring_txp_refines h ctx Hok Hroom) as Ht.
  destruct (SringTx.sring_txp h ctx) as [ret ctx']. rewrite (proj2 (Z.eqb_eq _ _) Hn) in Ht.
  destruct Ht as (_ & _ & _ & Hk' & _). apply Hk'. by rewrite Hk.
Qed.

Lemma sring_rx_armed (r : SringRx.sring_rx_context) : ring_ok r -> kick_enabled r = 1 -> rx_wakes r.
Proof.
  intros Hok Hk ctx Eo Hl Hn Hroom. subst r. pose proof (SringRx.sring_rxp_refines ctx Hok Hl ltac:(lia) Hroom) as Ht.
  destruct (SringRx.sring_rxp ctx) as [ret ctx']. rewrite (proj2 (Z.leb_le _ _)) in Ht by lia.
  destruct Ht as (_ & _ & _ & _ & Hk' & _). apply Hk'. by rewrite Hk.
Qed.

(** Why a drain stops: the budget is spent or the backend is blocked. *)
Definition stop_reason (stop : bool) (count : Z) (can_send : option Z) : Prop :=
  if stop then BPFHV_BE_TX_BUDGET <= count \/ can_send = Some 0 else can_send = Some 1.

Lemma after_send_blocked `{!SendBlocks W} hdr w iov :
  let res := fst (be_send hdr w iov) in
  s32 (io_ret res) <= 0 -> after_send (s32 (io_ret res)) (io_errno res) (Some 1) = Some 0.
Proof.
  intros res Hle. destruct (send_blocks hdr w iov) as [Hp|[Hn He] ]; fold res in Hp || fold res in Hn, He; [lia|].
  unfold after_send. rewrite He, Z.eqb_refl, (proj2 (Z.ltb_lt _ _)) by lia. done.
Qed.

Lemma sring_stop_reason `{!SendBlocks W} ds a :
  stop_reason (SringTx.a_stop a) (SringTx.a_count a) (SringTx.a_can_send a) ->
  let a' := SringTx.tx_process ds a in
  stop_reason (SringTx.a_stop a') (SringTx.a_count a') (SringTx.a_can_send a').
Proof.
  revert a. induction ds as [|d ds IH]; intros a Ha; [done|]. simpl. apply IH. unfold SringTx.tx_one.
  destruct (SringTx.a_stop a) eqn:Es; [by rewrite Es|]. simpl in Ha.
  destruct (BPFHV_BE_TX_BUDGET <=? SringTx.a_count a) eqn:Eb; zify_bool; [simpl; by left|].
  destruct (translate_addr _ _ _) as [base map]. destruct (base =? NULL); [done|].
  pose proof (after_send_blocked None (SringTx.a_w a) [mk_iov base (SringTx.len d)]) as Hs.
  destruct (be_send _ _ _) as [res w]. simpl in Hs. destruct (s32 (io_ret res) <=? 0) eqn:Er; zify_bool; [|done].
  simpl. right. rewrite Ha. by apply Hs.
Qed.

#[export] Instance sring_poll_ok `{!SendBlocks W} : PollDeviceOk SringRx.sring_rx_context SringTx.sring_tx_context W.
Proof.
  split; simpl.
  - intros f r Hf Hr. apply (Hf r Hr).
  - intros f r Hf Hr. apply (Hf r Hr).
  - intros e r Hr. exact Hr.
  - intros e r Hr. split; [exact Hr|]. by refine (sring_tx_armed _ _ _).
  - intros m q r v w env Hr HF.
    destruct (SringRx.push_loop_result (enough r env) m r v w env Hr HF (poll_fuel_enough r env Hr)) as (s & Hrun & Hpost).
    unfold SringRx.sring_rxq_push. rewrite Hrun. simpl. eexists. split; [reflexivity|].
    destruct Hpost as (stop & (_ & Hu & Hd & _) & (Hok & Ec & _) & Hstop). rewrite <- Ec in Hd.
    destruct (consume_take _ _ Hok Hu Hd) as (Hok2 & _).
    assert (Hfin : ring_ok (SringRx.r_priv (SringRx.push_finish (set_notify 0 q) s)) /\
      kick_enabled (SringRx.r_priv (SringRx.push_finish (set_notify 0 q) s)) = kick_enabled (SringRx.p_priv s) /\
      SringRx.r_can_receive (SringRx.push_finish (set_notify 0 q) s) = SringRx.p_can_receive s)
      by (unfold SringRx.push_finish; destruct (0 <? _); done).
    destruct Hfin as (F1 & F2 & F3). split; [exact F1|]. intros ->. simpl. rewrite F3.
    destruct stop; [by left|]. destruct Hstop as (_ & -> & Hk). right. split; [done|].
    refine (sring_rx_armed _ F1 _). rewrite F2. by apply Hk.
  - intros m q t v w env Ht HF.
    destruct (SringTx.drain_loop_result (enough t env) m t v w env Ht HF (poll_fuel_enough t env Ht)) as (s & Hrun & Hpost).
    unfold SringTx.sring_txq_drain. rewrite Hrun. simpl. eexists. split; [reflexivity|].
    destruct Hpost as (stop & (_ & (Hok & Ec & _) & Hu & Hd & _ & _ & Hacc) & Hstop). rewrite <- Ec in Hd.
    destruct (consume_take _ _ Hok Hu Hd) as (Hok2 & _).
    set (res := SringTx.drain_finish (set_notify 0 q) s).
    assert (Hfin : ring_ok (SringTx.r_priv res) /\ kick_enabled (SringTx.r_priv res) = kick_enabled (SringTx.d_priv s) /\
      SringTx.r_can_send res = SringTx.d_can_send s /\ SringTx.r_count res = SringTx.d_count s /\
      (0 < SringTx.d_count s -> SringTx.r_priv res = set_cons (SringTx.d_cons s) (SringTx.d_priv s)))
      by (unfold res, SringTx.drain_finish; destruct (0 <? _) eqn:E0; zify_bool; split_and!; try done; simpl; lia).
    destruct Hfin as (F1 & F2 & F3 & F4 & F5). split; [exact F1|]. intros ->. simpl. rewrite F3, F4.
    pose proof (sring_stop_reason (pending (SringTx.d_priv s)) (SringTx.acc0 (Some 1) m w) eq_refl) as Hr.
    simpl in Hr. rewrite Hacc in Hr. simpl in Hr. destruct stop; simpl in Hr; [destruct Hr as [?| ->]; auto|].
    right; right. rewrite Hr. destruct (Hstop eq_refl) as [E Hk]. split; [done|]. split.
    + refine (sring_tx_armed _ F1 _). rewrite F2. apply Hk. by rewrite Hr.
    + intros Hc. rewrite (F5 Hc). unfold pending; simpl. rewrite E. apply between_self.
Qed.

End sring.

(** ** The vring_packed device *)

(** The host asks to be notified of the first buffer it has not seen, and a
    guest that has added none since asks for a kick with the next one. *)
Definition vq_asks (vq : vring_packed_virtq) (gh : ghost) : Prop :=
  device_event vq = event_at (num_desc vq) (ah gh) /\
  (avail_entries vq gh = [] -> forall hp ctx, opaque ctx = vq -> num_bufs ctx = 1 -> ag gh < ug gh + num_desc vq ->
     oflags (snd (vring_packed_txp hp (fun vq => vq) ctx)) = BPFHV_OFLAGS_KICK_NEEDED).

Section vring.
Context {W : Type} `{!NetBackend W}.

Definition budget_fuel : nat := S (Z.to_nat BPFHV_BE_TX_BUDGET).

#[export] Instance vring_packed_ops : BeOps vring_packed_virtq vring_packed_virtq W := {|
  rxq_kicks := vring_packed_notification;
  txq_kicks := vring_packed_notification;
  rxq_push m q vq v w env :=
    res ← vring_packed_rxq_push budget_fuel m q vq v w env;
    Some (mk_op (pr_count res) (v_vq (pr_view res)) (pr_rxq res) v (pr_map res) (pr_w res));
  txq_drain m q vq v w env :=
    res ← vring_packed_txq_drain budget_fuel m q vq v w env;
    Some (mk_op (VringPacked.r_count res) (v_vq (r_view res)) (VringPacked.r_txq res) (VringPacked.r_can_send res)
            (VringPacked.r_map res) (VringPacked.r_w res));
|}.

(** Every buffer before the one the host asks to be notified of has been
    served, so that [tx_wakes] says what [tx_idle] would. *)
#[export] Instance vring_packed_poll : PollDevice vring_packed_virtq vring_packed_virtq W := {|
  rx_inv vq := exists gh, vq_inv vq gh /\ uh gh = ah gh;
  tx_inv vq := exists gh, vq_inv vq gh /\ uh gh = ah gh /\ rw gh = 0;
  rx_rely := rely false;
  tx_rely := rely false;
  rx_wakes vq := exists gh, vq_inv vq gh /\ uh gh = ah gh /\ device_event vq = event_at (num_desc vq) (ah gh);
  tx_wakes vq := exists gh, vq_inv vq gh /\ uh gh = ah gh /\ vq_asks vq gh;
  tx_idle _ := True;
|}.

Lemma vq_asks_intro vq gh :
  vq_inv vq gh -> rw gh = 0 -> device_event vq = event_at (num_desc vq) (ah gh) -> vq_asks vq gh.
Proof.
  intros Hinv Hrw He. split; [done|]. intros Hn hp ctx Eo Hnb Hroom. subst vq.
  apply (txp_kick hp ctx gh Hinv Hrw Hroom Hnb). rewrite He. f_equal.
  destruct (hi_order _ _ (vi_host _ _ Hinv)) as [_ Hord].
  assert (Hl : Z.of_nat (length (avail_entries (opaque ctx) gh)) = ag gh - ah gh)
    by (unfold avail_entries, entries; by rewrite length_map, length_range).
  rewrite Hn in Hl. simpl in Hl. lia.
Qed.

Lemma vring_stop_reason `{!SendBlocks W} es a :
  stop_reason (VringHost.a_stop a) (VringHost.a_count a) (VringHost.a_can_send a) ->
  let a' := VringHost.tx_process es a in
  stop_reason (VringHost.a_stop a') (VringHost.a_count a') (VringHost.a_can_send a').
Proof.
  revert a. induction es as [|e es IH]; intros a Ha; [done|]. simpl. apply IH. unfold VringHost.tx_one.
  destruct (VringHost.a_stop a) eqn:Es; [by rewrite Es|]. simpl in Ha.
  destruct (BPFHV_BE_TX_BUDGET <=? VringHost.a_count a) eqn:Eb; zify_bool; [simpl; by left|].
  destruct (translate_addr _ _ _) as [base map]. destruct (base =? NULL); [done|].
  pose proof (after_send_blocked None (VringHost.a_w a) [mk_iov base (e_len e)]) as Hs.
  destruct (be_send _ _ _) as [res w]. simpl in Hs. destruct (s32 (io_ret res) <=? 0) eqn:Er; zify_bool; [|done].
  simpl. right. rewrite Ha. by apply Hs.
Qed.

Lemma vring_guest_ok f vq gh : rely false f -> vq_inv vq gh -> uh gh = ah gh ->
  exists gh', vq_inv (f vq) gh' /\ uh gh' = ah gh' /\ rw gh' = rw gh.
Proof.
  intros Hf Hinv He. destruct (Hf vq gh Hinv) as (gh' & [Hev _] & _). exists gh'.
  split_and!; [apply (ev_inv _ _ _ _ Hev)|rewrite (ev_uh _ _ _ _ Hev), (ev_ah _ _ _ _ Hev); done|apply (ev_rw _ _ _ _ Hev)].
Qed.

#[export] Instance vring_packed_poll_ok `{!SendBlocks W} : PollDeviceOk vring_packed_virtq vring_packed_virtq W.
Proof.
  split; simpl.
  - intros f vq Hf (gh & Hi & He). destruct (vring_guest_ok f vq gh Hf Hi He) as (gh' & ? & ? & _). by exists gh'.
  - intros f vq Hf (gh & Hi & He & Hr). destruct (vring_guest_ok f vq gh Hf Hi He) as (gh' & ? & ? & ?). exists gh'.
    split_and!; [done..|congruence].
  - intros e vq (gh & Hi & He). exists gh. split; [apply (ev_inv _ _ _ _ (notification_evolved vq gh e Hi))|done].
  - intros e vq (gh & Hi & He & Hr). split.
    { exists gh. split; [apply (ev_inv _ _ _ _ (notification_evolved vq gh e Hi))|done]. }
    pose proof (ev_inv _ _ _ _ (notification_evolved vq gh 1 Hi)) as Hi'.
    exists gh. split; [done|]. split; [done|]. apply vq_asks_intro; [done..|]. by rewrite (notification_event vq gh Hi).
  - intros m q vq v w env (gh & Hi & He) HF.
    destruct (vq_push_loop_result false budget_fuel m vq gh (is_null v) w env Hi He HF ltac:(by vm_compute))
      as (s & Hrun & hist & out & gh1 & stop & (Hla & _) & _).
    unfold vring_packed_rxq_push. rewrite Hrun. cbn [mbind option_bind].
    pose proof (finish_spec false (set_notify 0 q) (p_count s) (p_bufs s) _ _ (la_view _ _ _ _ _ _ _ Hla)) as Hfin.
    destruct (finish_batch _ _ _ _) as [q' v']. destruct Hfin as (gh' & Hv' & [Hev _] & Hq & _).
    pose proof (loop_evolved _ _ _ _ _ _ _ _ _ Hla Hv' Hev Hq) as Hla'.
    eexists. split; [reflexivity|]. simpl. split; [|by left]. exists gh'. split; [apply Hv'|apply Hla'].
  - intros m q vq v w env (gh & Hi & He & Hr) HF.
    destruct (vq_drain_loop_result false budget_fuel m vq gh v w env Hi He HF ltac:(by vm_compute))
      as (s & Hrun & hist & gh1 & stop & Hla & _ & _ & _ & Ht & Hstop).
    unfold vring_packed_txq_drain. rewrite Hrun. cbn [mbind option_bind].
    pose proof (finish_spec false (set_notify 0 q) (d_count s) (d_bufs s) _ _ (la_view _ _ _ _ _ _ _ Hla)) as Hfin.
    destruct (finish_batch _ _ _ _) as [q' v']. destruct Hfin as (gh' & Hv' & [Hev Hsame] & Hq & _).
    pose proof (loop_evolved _ _ _ _ _ _ _ _ _ Hla Hv' Hev Hq) as Hla'.
    assert (Hrw : rw gh' = 0) by (by rewrite (la_rw _ _ _ _ _ _ _ Hla')).
    eexists. split; [reflexivity|]. simpl. split.
    { exists gh'. split_and!; [apply Hv'|apply Hla'|done]. }
    intros ->. pose proof (vring_stop_reason (hist ++ avail_entries (v_vq (d_view s)) gh1) (tx_acc0 (Some 1) m w) eq_refl) as Hre.
    simpl in Hre. rewrite Ht in Hre. simpl in Hre. destruct stop; simpl in Hre; [destruct Hre as [?| ->]; auto|].
    right; right. destruct (Hstop eq_refl) as [_ Hk]. rewrite Hre in *. specialize (Hk eq_refl). split; [done|]. split; [|done].
    exists gh'. split_and!; [apply Hv'|apply Hla'|]. apply vq_asks_intro; [apply Hv'|done|].
    destruct Hsame as (_ & _ & -> & _). by rewrite Hk, (la_num _ _ _ _ _ _ _ Hla'), (ev_ah _ _ _ _ Hev).
Qed.

End vring.

(** ** The netmap backend under the thread *)

Import Netmap.Netmap.

(** The memory of the process and the two netmap rings. *)
Record nm_world := mk_nmw { nw_mem : mem; nw_rxr : netmap_ring; nw_txr : netmap_ring }.

Definition le16 (x : Z) : list Z := [x mod 2 ^ 8; (x / 2 ^ 8) mod 2 ^ 8].

(** The bytes of a virtio-net header on a little-endian machine, and back. *)
Definition vhdr_bytes (h : virtio_net_hdr_v1) : list Z :=
  [vh_flags h; vh_gso_type h] ++ le16 (vh_hdr_len h) ++ le16 (vh_gso_size h) ++ le16 (vh_csum_start h) ++
  le16 (vh_csum_offset h) ++ le16 (vh_num_buffers h).

Definition of_le16 (l : list Z) (i : nat) : Z := l !!! i + 2 ^ 8 * l !!! S i.

Definition vhdr_of_bytes (l : list Z) : virtio_net_hdr_v1 :=
  mk_vhdr (l !!! 0%nat) (l !!! 1%nat) (of_le16 l 2) (of_le16 l 4) (of_le16 l 6) (of_le16 l 8) (of_le16 l 10).

Section netmap_backend.
Context (nrx ntx : netmap_api) (hdr_addr : Z).

(** The iovec of the header, which is a variable of the caller at [hdr_addr]. *)
Definition hdr_iov : iovec := mk_iov hdr_addr sizeof_virtio_net_hdr_v1.
Definition hdr_store (h : virtio_net_hdr_v1) (m : mem) : mem :=
  blit m (seqZ hdr_addr sizeof_virtio_net_hdr_v1) (vhdr_bytes h).

(** [be->send] and [be->recv] of a netmap port; they do not set [errno].  The
    devices never pass an empty iovec, for which the default stands. *)
Definition netmap_backend : NetBackend nm_world := {|
  be_send hdr w iov :=
    let '(m, iov) := match hdr with Some h => (hdr_store h (nw_mem w), hdr_iov :: iov) | None => (nw_mem w, iov) end in
    match netmap_send ntx (nw_txr w) m iov with
    | Some (ret, m, r) => (mk_io ret 0 vhdr_zero, mk_nmw m (nw_rxr w) r)
    | None => (mk_io 0 0 vhdr_zero, w)
    end;
  be_recv vh w iov :=
    let iov := if z2b vh then hdr_iov :: iov else iov in
    match netmap_recv nrx (nw_rxr w) (nw_mem w) iov with
    | Some (ret, m, r) =>
        (mk_io ret 0 (if z2b vh then vhdr_of_bytes (rd m (seqZ hdr_addr sizeof_virtio_net_hdr_v1)) else vhdr_zero),
         mk_nmw m r (nw_txr w))
    | None => (mk_io 0 0 vhdr_zero, w)
    end;
|}.

#[local] Existing Instance netmap_backend.
#[local] Existing Instance SringTx.sring_tx_desc_inhabited.

Lemma netmap_send_full_ring m iov r : head r = tail r -> iov <> [] ->
  netmap_send ntx r m iov = Some (0, m, mk_nring (slots r) (nr_buf_size r) (head r) (tail r) (tail r)).
Proof.
  intros E Hne. unfold netmap_send, copy_fuel. destruct iov as [|v iov]; [done|]. cbn [lookup list_lookup mbind option_bind run].
  unfold send_iter at 1. cbn [t_head]. rewrite (proj2 (Z.eqb_eq _ _) E). done.
Qed.

(** A push with no receive buffer. *)
Lemma sring_push_empty m q (r : SringRx.sring_rx_context) w :
  cons r = prod r ->
  exists res, SringRx.sring_rxq_push (W:=nm_world) (enough r []) m q r (Some 1) w [] = Some res /\
    SringRx.r_count res = 0 /\ SringRx.r_map res = m /\ SringRx.r_w res = w.
Proof.
  intros E. unfold SringRx.sring_rxq_push, enough. cbn [run]. unfold SringRx.push_iter at 1, rx_poll.
  unfold SringRx.push_start. simpl. rewrite E, Z.eqb_refl. simpl.
  destruct (z2b (kick_enabled r)); simpl; rewrite ?E, Z.eqb_refl; simpl; by eexists.
Qed.

(** A drain whose first packet the full ring does not take. *)
Lemma sring_drain_refused m q (t : SringTx.sring_tx_context) w :
  cons t <> prod t -> head (nw_txr w) = tail (nw_txr w) ->
  fst (translate_addr m (SringTx.paddr (Ring.get_desc (cons t) t)) (SringTx.len (Ring.get_desc (cons t) t))) <> NULL ->
  exists res, SringTx.sring_txq_drain (W:=nm_world) (enough t []) m q t (Some 1) w [] = Some res /\
    SringTx.r_count res = 0 /\ SringTx.r_can_send res = Some 1 /\ SringTx.r_priv res = set_kick_enabled 0 t.
Proof.
  intros Hne Hfull Htr. unfold SringTx.sring_txq_drain, enough. cbn [run]. unfold SringTx.drain_iter at 1, tx_poll.
  unfold SringTx.drain_start. simpl. rewrite (proj2 (Z.eqb_neq _ _) Hne). simpl.
  change (SringTx.d_priv _) with (set_kick_enabled 0 t).
  change (Ring.get_desc (cons t) (set_kick_enabled 0 t)) with (Ring.get_desc (cons t) t).
  destruct (translate_addr m _ _) as [base m'] eqn:Et. simpl in Htr.
  rewrite (proj2 (Z.eqb_neq _ _) Htr). unfold be_send, netmap_backend. rewrite netmap_send_full_ring by done.
  by eexists.
Qed.

(** A full netmap ring can stall the queue.  [netmap_send] returns 0 and
    not EAGAIN when the ring is full, so that the drain stops with kicks
    disabled and [can_send] set: with no receive buffer and no more to do the
    thread waits in poll(2) without a timeout, not for room in the ring, and
    the packets that the guest transmits from then on do not wake it up. *)
Theorem netmap_full_ring_stalls (s : poll_state SringRx.sring_rx_context SringTx.sring_tx_context nm_world) rx_kick tx_kick :
  let be := p_be s in
  let d := Ring.get_desc (cons (b_tx be)) (b_tx be) in
  cons (b_rx be) = prod (b_rx be) -> cons (b_tx be) <> prod (b_tx be) ->
  fst (translate_addr (b_map be) (SringTx.paddr d) (SringTx.len d)) <> NULL ->
  head (nw_txr (b_w be)) = tail (nw_txr (b_w be)) ->
  exists s', poll_turn (mk_turn (fun r => r) (fun t => t) (fun w => w) (poll_ready rx_kick tx_kick false) [] []) s
      = Some (Waiting, s') /\
    p_timeout s' = -1 /\ Z.land (if_events s') POLLOUT = 0 /\
    cons (b_tx (p_be s')) = cons (b_tx be) /\ prod (b_tx (p_be s')) = prod (b_tx be) /\
    (forall h ctx, opaque ctx = b_tx (p_be s') -> num_bufs ctx = 1 -> oflags (snd (SringTx.sring_txp h ctx)) = 0).
Proof.
  intros be d Hrx Htx Htr Hfull. unfold poll_turn, rx_step, tx_step. cbn [tn_rx tn_tx tn_w tn_poll tn_rx_env tn_tx_env].
  cbn [rxq_push txq_drain sring_ops p_be b_map b_rxq b_txq b_rx b_tx b_w b_signals].
  destruct (sring_push_empty (b_map be) (kick_stats rx_kick (b_rxq be)) (b_rx be) (b_w be) Hrx) as (r1 & E1 & C1 & M1 & W1).
  fold be. rewrite E1. cbn [mbind option_bind o_count o_ring o_queue o_flag o_map o_w].
  destruct (irq 0 _ _) as [rxq signals]. cbn [mbind option_bind b_map b_rxq b_txq b_rx b_tx b_w b_signals]. rewrite M1, W1, C1.
  destruct (sring_drain_refused (b_map be) (kick_stats tx_kick (b_txq be)) (b_tx be) (b_w be) Htx Hfull Htr) as (r2 & E2 & C2 & S2 & P2).
  rewrite E2. cbn [mbind option_bind o_count o_ring o_queue o_flag o_map o_w].
  destruct (irq 1 _ _) as [txq signals']. cbn [mbind option_bind]. rewrite C2, S2, P2. eexists. split; [reflexivity|]. simpl. split; [done|].
  split; [unfold if_events; simpl; destruct (z2b _); done|]. split; [done|]. split; [done|].
  intros h ctx Eo Hn. unfold SringTx.sring_txp. by rewrite Hn, Eo.
Qed.

End netmap_backend.

(** ** Witnesses *)

(** A backend with room for [w] packets, and nothing to receive. *)
#[export] Instance credit_backend : NetBackend Z := {|
  be_send (hdr : option virtio_net_hdr_v1) (w : Z) (iov : list iovec) :=
    if 0 <? w then (mk_io 64 0 vhdr_zero, w - 1) else (mk_io (-1) EAGAIN vhdr_zero, w);
  be_recv (vh : Z) (w : Z) (iov : list iovec) := (mk_io (-1) EAGAIN vhdr_zero, w);
|}.

#[export] Instance credit_blocks : SendBlocks Z.
Proof. split. intros hdr w iov. simpl. destruct (0 <? w); [by left|by right]. Qed.

Lemma guest_rely_id {D} `{!Inhabited D} : guest_rely (D:=D) (fun r => r).
Proof. intros r Hr. unfold guest_step. split_and!; try done; exists []; [by rewrite app_nil_r|done]. Qed.

Definition example_be : backend SringRx.sring_rx_context SringTx.sring_tx_context Z :=
  mk_be (SringRx.example_rx 16) SringTx.example_ring (mk_qio 0 stats_zero) (mk_qio 0 stats_zero) example_map 1 [].

(** The guest transmits while the thread waits, and again while it drains the
    queue. *)
Definition example_turn : turn SringRx.sring_rx_context SringTx.sring_tx_context Z :=
  mk_turn (fun r => r) SringTx.publish_more (fun w => w) (poll_ready false true false) [] [SringTx.publish_more].

Lemma poll_never_sleeps_on_work_witness :
  exists o s, process_packets_poll [example_turn] example_be = Some (o, s) /\ be_inv (p_be s) /\
    (o = Waiting -> p_timeout s <> 0 -> p_timeout s = -1 /\ may_sleep s).
Proof.
  apply (poll_never_sleeps_on_work [example_turn] example_be).
  - split; [exact SringRx.example_rx_ok|exact SringTx.example_ring_ok].
  - constructor; [|constructor]. split; [exact guest_rely_id|]. split; [apply SringTx.publish_more_rely|].
    split; [constructor|]. constructor; [apply SringTx.publish_more_rely|constructor].
Defined.

(** There the backend takes one packet and blocks: the thread waits for room. *)
Example example_turn_blocks :
  match process_packets_poll [example_turn] example_be with
  | Some (Waiting, s) => p_timeout s = -1 /\ p_can_send s = 0 /\ if_events s = 5 /\ p_sent s = 1
  | _ => False
  end.
Proof. vm_compute. done. Qed.

Definition example_stalled : poll_state SringRx.sring_rx_context SringTx.sring_tx_context nm_world :=
  mk_poll (mk_be (mk_ring 1 0 1 1 15 0 (repeat (SringRx.mk_desc 7 0x2000 128) 16)) SringTx.example_ring
             (mk_qio 0 stats_zero) (mk_qio 0 stats_zero) example_map
             (mk_nmw ∅ example_nring (mk_nring (slots example_nring) 4 2 2 2)) []) 1 1 (-1) 0.

Lemma netmap_full_ring_stalls_witness :
  exists s', poll_turn (H:=sring_ops (NetBackend0:=netmap_backend example_nm example_nm 0x900000))
      (mk_turn (fun r => r) (fun t => t) (fun w => w) (poll_ready false true false) [] []) example_stalled
      = Some (Waiting, s') /\
    p_timeout s' = -1 /\ Z.land (if_events s') POLLOUT = 0 /\ cons (b_tx (p_be s')) = 0 /\ prod (b_tx (p_be s')) = 1 /\
    (forall h ctx, opaque ctx = b_tx (p_be s') -> num_bufs ctx = 1 -> oflags (snd (SringTx.sring_txp h ctx)) = 0).
Proof.
  apply (netmap_full_ring_stalls example_nm example_nm 0x900000 example_stalled false true).
  - reflexivity.
  - discriminate.
  - vm_compute. discriminate.
  - reflexivity.
Defined.
