(* ===== verification/VringView.v ===== *)
(** * vring_packed as the guest driver sees it

    The queue between runs of the programs of proxy/vring_packed_progs.c: the
    hypervisor runs concurrently, it acts before each program and inside those
    that read its fields again.  The buffers with the device are seen through
    a projection of the entries of the ring, which keeps what the driver needs
    to recognise them. *)

From S2P Require Import Prelude Abi VringPacked VringInv VringGuest.
Open Scope Z_scope.

(** The queue, with what the hypervisor will do to it. *)
Record gview := mk_gview { gv_vq : vring_packed_virtq; gv_env : list (vring_packed_virtq -> vring_packed_virtq) }.

Definition hv_act (v : gview) : vring_packed_virtq -> vring_packed_virtq :=
  match gv_env v with [] => fun vq => vq | f :: _ => f end.
Definition hv_sync (v : gview) : gview := mk_gview (hv_act v (gv_vq v)) (tail (gv_env v)).

Definition map_ctx {P Q} (f : P -> Q) (c : bpfhv_context P) : bpfhv_context Q :=
  mk_ctx (guest_priv c) (packet c) (num_bufs c) (iflags c) (oflags c) (min_completed_bufs c) (min_intr_nsecs c) (bufs c) (f (opaque c)).

(** Running a program; [inside] says whether the hypervisor acts inside it. *)
Definition run_prog (prog : (vring_packed_virtq -> vring_packed_virtq) -> vq_ctx -> Z * vq_ctx) (inside : bool)
    (c : bpfhv_context gview) : Z * bpfhv_context gview :=
  let v := hv_sync (opaque c) in
  let '(ret, c') := prog (hv_act v) (map_ctx (fun _ => gv_vq v) c) in
  (ret, map_ctx (fun vq => mk_gview vq (if inside then tail (gv_env v) else gv_env v)) c').

(** How far a position of the ring is from another, each with its wrap
    counter. *)
Definition ring_dist (n i wi j wj : Z) : Z := if wi =? wj then j - i else n + j - i.

Definition in_flight vq : Z :=
  ring_dist (num_desc vq) (g_next_used_idx (g vq)) (g_used_wrap_counter (g vq)) (g_next_avail_idx (g vq)) (g_avail_wrap_counter (g vq)).
Definition completed vq : Z :=
  ring_dist (num_desc vq) (g_next_used_idx (g vq)) (g_used_wrap_counter (g vq)) (h_next_used_idx (h vq)) (h_used_wrap_counter (h vq)).

Lemma ring_dist_spec n p q :
  1 <= n -> p <= q <= p + n -> ring_dist n (idx n p) (b2z (lap_bit n p)) (idx n q) (b2z (lap_bit n q)) = q - p.
Proof.
  intros Hn Hq. unfold ring_dist, idx, lap_bit. pose proof (Z.div_mod p n ltac:(lia)). pose proof (Z.div_mod q n ltac:(lia)).
  pose proof (Z.mod_pos_bound p n ltac:(lia)). pose proof (Z.mod_pos_bound q n ltac:(lia)).
  assert (Hd : q / n = p / n \/ q / n = p / n + 1) by nia. destruct Hd as [Hd|Hd].
  - rewrite Hd in *. rewrite Z.eqb_refl. lia.
  - assert (n * (q / n) = n * (p / n) + n) by (rewrite Hd; ring). rewrite Hd.
    rewrite Z.even_add. simpl. destruct (Z.even (p / n)); simpl; nia.
Qed.

Lemma in_flight_spec vq gh : vq_inv vq gh -> in_flight vq = ag gh - ug gh.
Proof.
  intros [Hg _ _]. unfold in_flight. destruct (gi_used _ _ Hg) as [-> ->], (gi_avail _ _ Hg) as (-> & -> & _). unfold lap.
  apply ring_dist_spec; [apply (gi_n _ _ Hg)|apply (gi_order _ _ Hg)].
Qed.

Lemma completed_spec vq gh : vq_inv vq gh -> completed vq = uh gh - ug gh.
Proof.
  intros [Hg Hh _]. unfold completed. destruct (gi_used _ _ Hg) as [-> ->], (hi_used _ _ Hh) as (-> & -> & _). unfold lap.
  pose proof (gi_order _ _ Hg). destruct (hi_order _ _ Hh). apply ring_dist_spec; [apply (gi_n _ _ Hg)|lia].
Qed.

Section view.
Context {K : Type} (proj : entry -> K) (rwv : Z).

Definition key_at vq (p : Z) : K := proj (entry_at vq p).
Definition keys_between vq (lo hi : Z) : list K := map (key_at vq) (range lo hi).

(** The buffers with the device. *)
Definition pend_keys vq : list K := keys_between vq (g_next_used_idx (g vq)) (g_next_used_idx (g vq) + in_flight vq).

Lemma key_at_idx vq p q : idx (num_desc vq) p = idx (num_desc vq) q -> key_at vq p = key_at vq q.
Proof. intros E. unfold key_at, entry_at, slot. by rewrite E. Qed.

Lemma keys_shift vq a b k :
  (forall i, 0 <= i < k -> idx (num_desc vq) (a + i) = idx (num_desc vq) (b + i)) ->
  keys_between vq a (a + k) = keys_between vq b (b + k).
Proof.
  intros Hi. unfold keys_between, range. replace (a + k - a) with k by lia. replace (b + k - b) with k by lia.
  rewrite <- (Z.add_0_r a), <- (Z.add_0_r b), <- !fmap_add_seqZ, !map_map. apply map_ext_in. intros i Hin%list_elem_of_In%elem_of_seqZ.
  apply key_at_idx, Hi. lia.
Qed.

Lemma pend_keys_spec vq gh : vq_inv vq gh -> pend_keys vq = keys_between vq (ug gh) (ag gh).
Proof.
  intros Hinv. unfold pend_keys. rewrite (in_flight_spec vq gh Hinv). destruct (gi_used _ _ (vi_guest _ _ Hinv)) as [-> _].
  replace (ag gh) with (ug gh + (ag gh - ug gh)) at 2 by lia. apply keys_shift. intros i _.
  pose proof (gi_n _ _ (vi_guest _ _ Hinv)). unfold idx. by rewrite Zplus_mod_idemp_l.
Qed.

Lemma length_pend_keys vq gh : vq_inv vq gh -> Z.of_nat (length (pend_keys vq)) = ag gh - ug gh.
Proof.
  intros Hinv. rewrite (pend_keys_spec vq gh Hinv). unfold keys_between. rewrite length_map.
  apply length_range, (gi_order _ _ (vi_guest _ _ Hinv)).
Qed.

Lemma keys_between_ext vq vq' lo hi : (forall p, lo <= p < hi -> entry_at vq' p = entry_at vq p) -> keys_between vq' lo hi = keys_between vq lo hi.
Proof. intros He. apply map_range_ext. intros p Hp. unfold key_at. by rewrite He. Qed.

(** ** What the hypervisor may do *)

(** It takes buffers and gives them back, changing nothing that the projection
    keeps. *)
Definition hv_keys_rely (f : vring_packed_virtq -> vring_packed_virtq) : Prop :=
  hv_rely f /\ forall vq gh, vq_inv vq gh -> keys_between (f vq) (ug gh) (ag gh) ≡ₚ keys_between vq (ug gh) (ag gh).

Lemma hv_keys_rely_id : hv_keys_rely (fun vq => vq).
Proof. split; [apply hv_rely_id|done]. Qed.

Record gview_ok (n : Z) (v : gview) (gh : ghost) : Prop := {
  vo_inv : vq_inv (gv_vq v) gh;
  vo_rw : rw gh = rwv;
  vo_num : num_desc (gv_vq v) = n;
  vo_env : Forall hv_keys_rely (gv_env v);
}.

Lemma hv_act_rely n v gh : gview_ok n v gh -> hv_keys_rely (hv_act v) /\ Forall hv_keys_rely (tail (gv_env v)).
Proof.
  intros [_ _ _ HF]. unfold hv_act. destruct (gv_env v); [split; [apply hv_keys_rely_id|done]|]. by apply list.Forall_cons in HF.
Qed.

(** An action of the hypervisor keeps the buffers and completes some of them. *)
Lemma hv_step f vq gh :
  hv_keys_rely f -> vq_inv vq gh ->
  exists gh', vq_inv (f vq) gh' /\ rw gh' = rw gh /\ num_desc (f vq) = num_desc vq /\ pend_keys (f vq) ≡ₚ pend_keys vq /\
    completed vq <= completed (f vq) /\ driver_event (f vq) = driver_event vq /\ ug gh' = ug gh.
Proof.
  intros [Hf Hk] Hinv. destruct (Hf _ _ Hinv) as (gh' & [Hinv' Eug Eag Huh _ Erw En Ed _ _]). exists gh'.
  rewrite (pend_keys_spec _ _ Hinv'), (pend_keys_spec _ _ Hinv), (completed_spec _ _ Hinv), (completed_spec _ _ Hinv').
  rewrite Eug, Eag. split_and!; try done; [by apply Hk|lia].
Qed.

Lemma view_sync n v gh :
  gview_ok n v gh -> exists gh', gview_ok n (hv_sync v) gh' /\ pend_keys (gv_vq (hv_sync v)) ≡ₚ pend_keys (gv_vq v) /\
    completed (gv_vq v) <= completed (gv_vq (hv_sync v)).
Proof.
  intros Hv. destruct (hv_act_rely n v gh Hv) as [Hf HF]. destruct Hv as [H1 H2 H3 H4].
  destruct (hv_step _ _ _ Hf H1) as (gh' & A1 & A2 & A3 & A4 & A5 & _). exists gh'. split_and!; try done.
  constructor; simpl; congruence || done.
Qed.

(** With nothing left to do for the hypervisor, nothing changes. *)
Lemma hv_sync_quiet v : gv_env v = [] -> hv_sync v = v.
Proof. unfold hv_sync, hv_act. destruct v as [vq env]. simpl. by intros ->. Qed.

(** ** The guest's operations *)

(** The guest adds the entries [es] to the ring. *)
Lemma added_keys vq gh vq' gh' es :
  vq_inv vq gh -> evolved vq gh vq' gh' -> ug gh' = ug gh -> avail_entries vq' gh' = avail_entries vq gh ++ es ->
  pend_keys vq' = pend_keys vq ++ (proj <$> es) /\ completed vq' = completed vq.
Proof.
  intros Hinv He Eug Hav. pose proof (ev_inv _ _ _ _ He) as Hinv'. pose proof (ev_ah _ _ _ _ He) as Eah. pose proof (ev_ag _ _ _ _ He) as Hag.
  rewrite (pend_keys_spec _ _ Hinv'), (pend_keys_spec _ _ Hinv), (completed_spec _ _ Hinv), (completed_spec _ _ Hinv'), Eug, (ev_uh _ _ _ _ He).
  split; [|done]. destruct (hi_order _ _ (vi_host _ _ Hinv)). pose proof (gi_order _ _ (vi_guest _ _ Hinv)).
  unfold keys_between. rewrite (range_app (ug gh) (ag gh) (ag gh')), map_app by lia. f_equal.
  - apply keys_between_ext. intros p Hp. apply (ev_entry _ _ _ _ He). lia.
  - unfold avail_entries, entries in Hav. rewrite Eah, (range_app (ah gh) (ag gh) (ag gh')), map_app in Hav by lia.
    assert (Hpre : map (entry_at vq') (range (ah gh) (ag gh)) = map (entry_at vq) (range (ah gh) (ag gh))).
    { apply map_range_ext. intros p Hp. apply (ev_entry _ _ _ _ He). lia. }
    rewrite Hpre in Hav. apply app_inv_head in Hav. rewrite <- Hav. unfold key_at. apply (eq_sym (map_map _ _ _)).
Qed.

(** The guest takes the oldest buffer, if it is completed. *)
Lemma got_key vq gh b0 :
  vq_inv vq gh ->
  (vring_packed_more_used vq = false /\ completed vq = 0) \/
  (vring_packed_more_used vq = true /\ exists vq' gh',
     let e := entry_at vq (ug gh) in
     vring_packed_get vq b0 = (1, vq', buf_of e b0) /\ evolved vq gh vq' gh' /\
     pend_keys vq = proj e :: pend_keys vq' /\ completed vq' = completed vq - 1).
Proof.
  intros Hinv. destruct (hi_order _ _ (vi_host _ _ Hinv)). destruct (used_entries_cases _ _ Hinv) as [[Hm Hu]|[Hm Hlt]]; [left|right]; (split; [done|]).
  - rewrite (completed_spec _ _ Hinv). apply (f_equal length) in Hu. unfold used_entries, entries in Hu. rewrite length_map in Hu.
    pose proof (length_range (ug gh) (uh gh) ltac:(lia)). simpl in Hu. lia.
  - destruct (get_evolved _ _ b0 Hinv Hlt) as (vq' & gh' & Hget & [He _] & Eug & Eag & _). exists vq', gh'. cbv zeta.
    pose proof (ev_inv _ _ _ _ He) as Hinv'. pose proof (gi_order _ _ (vi_guest _ _ Hinv')). split_and!; try done.
    + rewrite (pend_keys_spec _ _ Hinv), (pend_keys_spec _ _ Hinv'), Eug, Eag. unfold keys_between. rewrite (range_cons (ug gh)) by lia. simpl.
      f_equal. symmetry. apply keys_between_ext. intros p Hp. apply (ev_entry _ _ _ _ He). lia.
    + rewrite (completed_spec _ _ Hinv), (completed_spec _ _ Hinv'), Eug, (ev_uh _ _ _ _ He). lia.
Qed.

(** An interrupt has been asked for when [m] buffers are completed, which is
    not yet the case. *)
Definition vring_armed (n : Z) (v : gview) (m : Z) : Prop :=
  exists gh, gview_ok n v gh /\ driver_event (gv_vq v) = event_at n (ug gh + m - 1) /\ completed (gv_vq v) < m.

(** The program that asks for interrupts. *)
Lemma intr_law n v gh m :
  gview_ok n v gh -> 0 <= m <= n -> n <= 2 ^ 15 ->
  let '(ret, vq) := vring_packed_intr (hv_act v) (gv_vq v) (u16 m) in
  let v' := mk_gview vq (tail (gv_env v)) in
  (exists gh', gview_ok n v' gh') /\ pend_keys vq ≡ₚ pend_keys (gv_vq v) /\ completed (gv_vq v) <= completed vq /\
  (0 < m -> (ret = 1 /\ m <= completed vq) \/ (ret = 0 /\ vring_armed n v' m)).
Proof.
  intros Hv Hm Hn. destruct (hv_act_rely _ _ _ Hv) as [Hf HF]. pose proof Hv as [H1 H2 H3 _]. rewrite u16_id by (unfold is_u16; lia).
  destruct (decide (m = 0)) as [->|Hm0].
  - unfold vring_packed_intr. simpl.
    match goal with |- context [set_driver_event ?e (gv_vq v)] => pose proof (driver_event_evolved _ _ e H1) as [He _]; set (vq1 := set_driver_event e (gv_vq v)) in * end.
    split_and!; [|done|done|lia]. exists gh. constructor; simpl; try done. apply He.
  - destruct (vring_packed_intr_spec (hv_act v) (gv_vq v) gh m H1 (proj1 Hf) ltac:(lia)) as (vq1 & gh2 & Evq1 & Hh & ->). cbv zeta.
    pose proof (driver_event_evolved _ _ (event_at (num_desc (gv_vq v)) (ug gh + m - 1)) H1) as [He _]. rewrite <- Evq1 in He.
    destruct (hv_step _ vq1 gh Hf (ev_inv _ _ _ _ He)) as (gh3 & A1 & A2 & A3 & A4 & A5 & A6 & A7).
    assert (Hsame : pend_keys vq1 = pend_keys (gv_vq v) /\ completed vq1 = completed (gv_vq v) /\ num_desc vq1 = n) by (rewrite Evq1; by split_and!).
    destruct Hsame as (S1 & S2 & S3). rewrite A4, S1. pose proof Hh as [Hi2 Eug2 _ _ _ _ _ _ _ _].
    assert (Hok3 : gview_ok n (mk_gview (hv_act v vq1) (tail (gv_env v))) gh3) by (constructor; simpl; try done; congruence).
    split_and!; [by exists gh3|done|lia|]. intros _. rewrite (completed_spec _ _ Hi2), Eug2.
    destruct (Z.leb_spec m (uh gh2 - ug gh)) as [Hle|Hgt]; [by left|right]. split; [done|]. exists gh3. split; [done|]. simpl.
    rewrite A6, A7, (completed_spec _ _ Hi2), Eug2, Evq1. simpl. rewrite H3. split; [done|lia].
Qed.

(** The buffers [ks] are being taken back from a device that has stopped. *)
Definition vring_rec (v : gview) (ks : list K) : Prop :=
  gv_env v = [] /\ exists vq0 gh0 u, reclaiming vq0 gh0 u (gv_vq v) /\ ks = keys_between vq0 u (ag gh0).

Lemma vring_rec_start n v gh : gview_ok n v gh -> gv_env v = [] -> completed (gv_vq v) = 0 -> vring_rec v (pend_keys (gv_vq v)).
Proof.
  intros [Hinv _ _ _] He Hc. rewrite (completed_spec _ _ Hinv) in Hc. split; [done|]. exists (gv_vq v), gh, (ug gh).
  split; [apply reclaiming_start; [done|lia]|by apply pend_keys_spec].
Qed.

End view.
