(* ===== verification/DriverTx.v ===== *)
(** * The transmit path of the guest driver

    driver/bpfhv.c: [bpfhv_start_xmit], [bpfhv_tx_clean], [bpfhv_tx_ctx_clean],
    [bpfhv_tx_poll], [bpfhv_tx_intr] and the transmit half of
    [bpfhv_resources_dealloc].  The driver knows the queue only through the
    programs that the hypervisor gave it, so that it is verified against an
    interface, [TxProgsOk], which says what the programs must do;
    vring_packed is an instance. *)

From S2P Require Import Prelude Abi.
Open Scope Z_scope.

(** The transmit programs, run on a context; [tx_preproc] is optional. *)
Class TxProgs (T : Type) := {
  tx_preproc : option (bpfhv_context T -> Z * bpfhv_context T);
  tx_publish : bpfhv_context T -> Z * bpfhv_context T;
  tx_complete : bpfhv_context T -> Z * bpfhv_context T;
  tx_reclaim : bpfhv_context T -> Z * bpfhv_context T;
  tx_intrs : bpfhv_context T -> Z * bpfhv_context T;
}.

Module DriverTx.

(** What the driver does to the rest of the kernel and to the device.  A DMA
    mapping is made and removed for a page or for a part of the linear area. *)
Inductive event :=
| DmaMap (page : bool) (paddr len : Z)
| DmaUnmap (page : bool) (paddr len : Z)
| FreeSkb (skb : Z)
| Doorbell.

(** A piece of a packet to send: its address and length, and what
    [dma_map_single] or [dma_map_page] returns for it. *)
Record frag := mk_frag { fr_vaddr : Z; fr_len : Z; fr_dma : option Z }.
Record sk_buff := mk_skb { skb_ptr : Z; skb_linear : frag; skb_frags : list frag; xmit_more : bool }.

Definition NETDEV_TX_OK : Z := 0.
Definition NETDEV_TX_BUSY : Z := 0x10.
Definition F_MAPPED_AS_PAGE : Z := 1.

Section driver.
Context {T : Type} `{!TxProgs T}.

(** [struct bpfhv_txq] with the state of the transmit queue of the kernel and
    the events so far, the last one first. *)
Record bpfhv_txq := mk_txq {
  ctx : bpfhv_context T;
  tx_free_bufs : Z;
  kick_pending : bool;
  stopped : bool;
  events : list event;
}.

Definition set_ctx (c : bpfhv_context T) (q : bpfhv_txq) : bpfhv_txq :=
  mk_txq c (tx_free_bufs q) (kick_pending q) (stopped q) (events q).
Definition set_free (n : Z) (q : bpfhv_txq) : bpfhv_txq :=
  mk_txq (ctx q) n (kick_pending q) (stopped q) (events q).
Definition set_kick (b : bool) (q : bpfhv_txq) : bpfhv_txq :=
  mk_txq (ctx q) (tx_free_bufs q) b (stopped q) (events q).
Definition set_stopped (b : bool) (q : bpfhv_txq) : bpfhv_txq :=
  mk_txq (ctx q) (tx_free_bufs q) (kick_pending q) b (events q).
Definition emit (e : event) (q : bpfhv_txq) : bpfhv_txq :=
  mk_txq (ctx q) (tx_free_bufs q) (kick_pending q) (stopped q) (e :: events q).

Definition set_min_completed (x : Z) (c : bpfhv_context T) : bpfhv_context T :=
  mk_ctx (guest_priv c) (packet c) (num_bufs c) (iflags c) (oflags c) x (min_intr_nsecs c) (bufs c) (opaque c).

Definition mapped_as_page (b : bpfhv_buf) : bool := has_flag (buf_cookie b) F_MAPPED_AS_PAGE.
Definition unmap_buf (b : bpfhv_buf) : event := DmaUnmap (mapped_as_page b) (buf_paddr b) (buf_len b).

(** [bpfhv_tx_ctx_clean]; [None] is [BUG_ON(!skb)]. *)
Definition bpfhv_tx_ctx_clean (q : bpfhv_txq) : option bpfhv_txq :=
  let bs := take (Z.to_nat (num_bufs (ctx q))) (bufs (ctx q)) in
  let skb := match bs with b :: _ => Z.land (buf_cookie b) (Z.lnot F_MAPPED_AS_PAGE) | [] => 0 end in
  let q := foldl (fun q b => emit (unmap_buf b) q) q bs in
  let q := set_free (u64 (tx_free_bufs q + num_bufs (ctx q))) q in
  if skb =? 0 then None else Some (emit (FreeSkb skb) q).

(** [bpfhv_tx_clean]; the count and the queue.  [None] is the end of the fuel,
    or a [BUG_ON]. *)
Fixpoint bpfhv_tx_clean (fuel : nat) (count : Z) (q : bpfhv_txq) : option (Z * bpfhv_txq) :=
  match fuel with
  | O => None
  | S fuel' =>
      let '(ret, c) := tx_complete (ctx q) in
      let q := set_ctx c q in
      if s32 ret =? 0 then Some (count, q)
      else if s32 ret <? 0 then Some (count, q)
      else q ← bpfhv_tx_ctx_clean q; bpfhv_tx_clean fuel' (count + 1) q
  end.

Context (tx_bufs MAX_SKB_FRAGS : Z) (tx_napi : bool).

Definition HALF_PENDING_BUFS (q : bpfhv_txq) : Z := u64 (1 + u64 (tx_bufs - tx_free_bufs q) / 2).

(** One more than the number of packets that can be in flight. *)
Definition clean_fuel : nat := S (Z.to_nat tx_bufs).

(** The loop that removes the mappings of the buffers [i], [i - 1], ... when a
    fragment cannot be mapped.  [i] is an [unsigned int] and the condition is
    [i >= 0].  [None] is an access past the array [bufs], or the end of the
    fuel. *)
Fixpoint unmap_frags (fuel : nat) (i : Z) (q : bpfhv_txq) : option bpfhv_txq :=
  match fuel with
  | O => None
  | S fuel' =>
      if 0 <=? i then
        txb ← bufs (ctx q) !! Z.to_nat i;
        unmap_frags fuel' (u32 (i - 1)) (emit (unmap_buf txb) q)
      else Some q
  end.

(** The loop that maps the fragments, from buffer [i] on; the first result
    says whether all of them are mapped. *)
Fixpoint map_frags (fs : list frag) (i : Z) (q : bpfhv_txq) : option (bool * bpfhv_txq) :=
  match fs with
  | [] => Some (true, q)
  | f :: fs =>
      match fr_dma f with
      | None => q ← unmap_frags (S (Z.to_nat BPFHV_MAX_TX_BUFS)) (u32 (i - 1)) q; Some (false, q)
      | Some dma =>
          let q := emit (DmaMap true dma (fr_len f)) q in
          map_frags fs (i + 1) (set_ctx (put_buf i (mk_buf F_MAPPED_AS_PAGE dma (fr_vaddr f) (u32 (fr_len f))) (ctx q)) q)
      end
  end.

(** The end of [bpfhv_start_xmit], from the call of the publish program on. *)
Definition xmit_publish (skb : sk_buff) (q : bpfhv_txq) : bpfhv_txq :=
  let '(ret, c) := tx_publish (ctx q) in
  let q := set_ctx c q in
  let q := if has_flag (oflags (ctx q)) BPFHV_OFLAGS_KICK_NEEDED then set_kick true q else q in
  let q := if tx_napi then set_ctx (snd (tx_intrs (set_min_completed (u32 (HALF_PENDING_BUFS q)) (ctx q)))) q else q in
  let q :=
    if tx_free_bufs q <? 2 + MAX_SKB_FRAGS then
      if tx_napi then set_stopped true q
      else
        let '(enough, c) := tx_intrs (set_min_completed (u32 (HALF_PENDING_BUFS q)) (ctx q)) in
        let q := set_ctx c q in
        if negb (z2b enough) then set_stopped true q else q
    else q in
  if negb (xmit_more skb) && kick_pending q then emit Doorbell (set_kick false q) else q.

Definition bpfhv_start_xmit (skb : sk_buff) (q : bpfhv_txq) : option (Z * bpfhv_txq) :=
  '(_, q) ← bpfhv_tx_clean clean_fuel 0 q;
  let nr_frags := Z.of_nat (length (skb_frags skb)) in
  if BPFHV_MAX_TX_BUFS <? nr_frags + 1 then Some (NETDEV_TX_OK, emit (FreeSkb (skb_ptr skb)) q)
  else if tx_free_bufs q <? nr_frags + 1 then Some (NETDEV_TX_BUSY, q)
  else
    let q := set_ctx (set_packet (skb_ptr skb) (ctx q)) q in
    let '(ret, q) := match tx_preproc with
                     | Some prog => let '(ret, c) := prog (ctx q) in (ret, set_ctx c q)
                     | None => (0, q)
                     end in
    if z2b (s32 ret) then Some (NETDEV_TX_OK, emit (FreeSkb (skb_ptr skb)) q)
    else
      match fr_dma (skb_linear skb) with
      | None => Some (NETDEV_TX_OK, emit (FreeSkb (skb_ptr skb)) q)
      | Some dma =>
          let q := emit (DmaMap false dma (fr_len (skb_linear skb))) q in
          let b := mk_buf (skb_ptr skb) dma (fr_vaddr (skb_linear skb)) (u32 (fr_len (skb_linear skb))) in
          '(mapped, q) ← map_frags (skb_frags skb) 1 (set_ctx (put_buf 0 b (ctx q)) q);
          if negb mapped then Some (NETDEV_TX_OK, emit (FreeSkb (skb_ptr skb)) q) else
          let q := set_ctx (set_num_bufs (nr_frags + 1) (ctx q)) q in
          let q := set_free (u64 (tx_free_bufs q - (nr_frags + 1))) q in
          Some (NETDEV_TX_OK, xmit_publish skb q)
      end.

(** [bpfhv_tx_poll]; the first result says whether NAPI is scheduled again. *)
Definition bpfhv_tx_poll (q : bpfhv_txq) : option (bool * bpfhv_txq) :=
  let q := set_ctx (snd (tx_intrs (set_min_completed 0 (ctx q)))) q in
  '(_, q) ← bpfhv_tx_clean clean_fuel 0 q;
  let wakeup := 2 + MAX_SKB_FRAGS <=? tx_free_bufs q in
  let '(more, c) := tx_intrs (set_min_completed (u32 (HALF_PENDING_BUFS q)) (ctx q)) in
  let q := set_ctx c q in
  Some (z2b more, if wakeup then set_stopped false q else q).

(** [bpfhv_tx_intr]; the first result says whether NAPI is scheduled. *)
Definition bpfhv_tx_intr (q : bpfhv_txq) : bool * bpfhv_txq :=
  if tx_napi then (true, q) else (false, set_stopped false q).

(** The loop over a transmit queue in [bpfhv_resources_dealloc]. *)
Fixpoint tx_dealloc (fuel : nat) (q : bpfhv_txq) : option bpfhv_txq :=
  match fuel with
  | O => None
  | S fuel' =>
      let '(ret, c) := tx_reclaim (ctx q) in
      let q := set_ctx c q in
      if s32 ret =? 0 then Some q
      else if s32 ret <? 0 then Some q
      else q ← bpfhv_tx_ctx_clean q; tx_dealloc fuel' q
  end.

(** What [bpfhv_close_carrier] does to a transmit queue once the device is
    disabled: the last completions, the stop, and the buffers left. *)
Definition tx_close (q : bpfhv_txq) : option bpfhv_txq :=
  '(_, q) ← bpfhv_tx_clean clean_fuel 0 q;
  tx_dealloc clean_fuel (set_stopped true q).

End driver.
Arguments bpfhv_txq : clear implicits.
Arguments unmap_frags : simpl never.
End DriverTx.
Import DriverTx.

(** ** The interface of the transmit programs *)

(** What the driver gave of a buffer, and gets back. *)
Definition key : Type := Z * Z * Z.
Definition key_of (b : bpfhv_buf) : key := (buf_cookie b, buf_paddr b, buf_len b).

(** The packet in the context of a program. *)
Definition ctx_packet {T} (c : bpfhv_context T) : list key := key_of <$> take (Z.to_nat (num_bufs c)) (bufs c).

Definition total (ps : list (list key)) : Z := Z.of_nat (length (concat ps)).

#[export] Instance total_proper : Proper (Permutation ==> eq) total.
Proof. intros ps ps' HP. unfold total. by rewrite HP. Qed.

Lemma total_cons p ps : total (p :: ps) = Z.of_nat (length p) + total ps.
Proof. unfold total. simpl. rewrite length_app. lia. Qed.

Lemma total_nonneg ps : 0 <= total ps.
Proof. unfold total. lia. Qed.

Definition same_size {T} (c : bpfhv_context T) : Prop := length (bufs c) = Z.to_nat BPFHV_MAX_TX_BUFS.

(** The contract, for a queue of [n] buffers and packets of at most [maxb]
    buffers.  [tx_pend] are the packets published and not yet returned, in
    some order; [tx_done] of their buffers are already completed;
    [tx_armed t m] says that an interrupt comes when [m] buffers are completed.
    The hypervisor may complete buffers during any program; [tx_quiet] says
    that it has stopped, after which [tx_rec t ps] holds while the packets [ps]
    are being reclaimed. *)
Class TxProgsOk (T : Type) `{TxProgs T} (n maxb : Z) := {
  tx_ok : T -> Prop;
  tx_pend : T -> list (list key);
  tx_done : T -> Z;
  tx_armed : T -> Z -> Prop;
  tx_quiet : T -> Prop;
  tx_rec : T -> list (list key) -> Prop;
  sizes_law : 0 < n < 2 ^ 16 /\ 1 <= maxb <= BPFHV_MAX_TX_BUFS;
  pend_law : forall t, tx_ok t -> Forall (fun p => p <> []) (tx_pend t) /\ 0 <= tx_done t <= total (tx_pend t);
  preproc_law : forall prog c, tx_preproc = Some prog -> same_size c -> tx_ok (opaque c) ->
    same_size (snd (prog c)) /\ tx_ok (opaque (snd (prog c))) /\ tx_pend (opaque (snd (prog c))) ≡ₚ tx_pend (opaque c);
  publish_law : forall c, same_size c -> tx_ok (opaque c) -> 1 <= num_bufs c <= maxb ->
    num_bufs c + total (tx_pend (opaque c)) <= n ->
    let '(ret, c') := tx_publish c in
    ret = 0 /\ same_size c' /\ tx_ok (opaque c') /\ tx_pend (opaque c') ≡ₚ ctx_packet c :: tx_pend (opaque c);
  complete_law : forall c, same_size c -> tx_ok (opaque c) ->
    let '(ret, c') := tx_complete c in
    same_size c' /\ tx_ok (opaque c') /\
    ((ret = 0 /\ tx_pend (opaque c') ≡ₚ tx_pend (opaque c) /\ tx_done (opaque c) = 0) \/
     (ret = 1 /\ 0 <= num_bufs c' <= BPFHV_MAX_TX_BUFS /\ tx_pend (opaque c) ≡ₚ ctx_packet c' :: tx_pend (opaque c') /\
      tx_done (opaque c) - num_bufs c' <= tx_done (opaque c')));
  intrs_law : forall c, same_size c -> tx_ok (opaque c) -> 0 <= min_completed_bufs c <= n ->
    let '(ret, c') := tx_intrs c in
    same_size c' /\ tx_ok (opaque c') /\ tx_pend (opaque c') ≡ₚ tx_pend (opaque c) /\ tx_done (opaque c) <= tx_done (opaque c') /\
    (0 < min_completed_bufs c ->
       (ret = 1 /\ min_completed_bufs c <= tx_done (opaque c')) \/ (ret = 0 /\ tx_armed (opaque c') (min_completed_bufs c)));
  rec_start : forall t, tx_ok t -> tx_quiet t -> tx_done t = 0 -> tx_rec t (tx_pend t);
  quiet_law : forall c, same_size c -> tx_ok (opaque c) -> tx_quiet (opaque c) ->
    tx_quiet (opaque (snd (tx_complete c))) /\ (fst (tx_complete c) = 0 -> tx_done (opaque (snd (tx_complete c))) = 0);
  reclaim_law : forall c ps, same_size c -> tx_rec (opaque c) ps ->
    let '(ret, c') := tx_reclaim c in
    (ps = [] /\ ret = 0) \/
    (ret = 1 /\ same_size c' /\ 0 <= num_bufs c' <= BPFHV_MAX_TX_BUFS /\
     exists ps', ps ≡ₚ ctx_packet c' :: ps' /\ tx_rec (opaque c') ps');
}.

(** ** Accounting *)

(** The DMA mappings made and removed, and the packets freed. *)
Definition maps (es : list event) : list (bool * Z * Z) :=
  omap (fun e => match e with DmaMap p a l => Some (p, a, l) | _ => None end) es.
Definition unmaps (es : list event) : list (bool * Z * Z) :=
  omap (fun e => match e with DmaUnmap p a l => Some (p, a, l) | _ => None end) es.
Definition frees (es : list event) : list Z :=
  omap (fun e => match e with FreeSkb s => Some s | _ => None end) es.

Definition key_map (k : key) : bool * Z * Z := let '(c, a, l) := k in (has_flag c F_MAPPED_AS_PAGE, a, l).

(** A packet of the driver: the buffer of the linear area carries the address
    of the [sk_buff], the others the flag. *)
Definition is_packet (skb : Z) (p : list key) : Prop :=
  match p with
  | (c, _, _) :: rest => c = skb /\ skb <> 0 /\ has_flag skb F_MAPPED_AS_PAGE = false /\ Forall (fun k : key => k.1.1 = F_MAPPED_AS_PAGE) rest
  | [] => False
  end.

Lemma land_clear_flag c : has_flag c F_MAPPED_AS_PAGE = false -> Z.land c (Z.lnot F_MAPPED_AS_PAGE) = c.
Proof.
  unfold has_flag, z2b, F_MAPPED_AS_PAGE. intros Hf%negb_false_iff%Z.eqb_eq. apply Z.bits_inj'. intros k Hk.
  rewrite Z.land_spec, Z.lnot_spec by done. destruct (decide (k = 0)) as [->|Hne].
  - apply (f_equal (fun z => Z.testbit z 0)) in Hf. rewrite Z.land_spec in Hf. simpl in *. rewrite andb_true_r in Hf. by rewrite Hf.
  - change 1 with (2 ^ 0). rewrite Z.pow2_bits_false by done. by rewrite andb_true_r.
Qed.

Section tx.
Context {T : Type} `{TxProgsOk T n maxb}.

Abbreviation pend q := (tx_pend (opaque (ctx q))).

(** The packets [ps] are in flight, with the [sk_buff]s [skbs]; every other
    mapping has been removed, every other buffer is free, and [sent] are the
    packets accepted so far: they are in flight or freed. *)
Record accounted (q : bpfhv_txq T) (ps : list (list key)) (sent : list Z) : Prop := {
  ac_free : 0 <= tx_free_bufs q /\ tx_free_bufs q + total ps = n;
  ac_dma : maps (events q) ≡ₚ unmaps (events q) ++ (key_map <$> concat ps);
  ac_skbs : exists skbs, Forall2 is_packet skbs ps /\ sent ≡ₚ frees (events q) ++ skbs;
}.

Record txq_ok (q : bpfhv_txq T) (sent : list Z) : Prop := {
  tq_size : same_size (ctx q);
  tq_ok : tx_ok (opaque (ctx q));
  tq_acc : accounted q (pend q) sent;
}.

Lemma Forall2_perm_r {A B} (R : A -> B -> Prop) l k k' :
  Forall2 R l k -> k ≡ₚ k' -> exists l', l ≡ₚ l' /\ Forall2 R l' k'.
Proof.
  intros HF HP. revert l HF. induction HP as [|x k k' HP IH|x y k|k1 k2 k3 _ IH1 _ IH2]; intros l HF.
  - exists l. split; [done|]. done.
  - inversion HF as [|a ? l0 ? Ha HF0]; subst. destruct (IH _ HF0) as (l' & HP' & HF'). exists (a :: l'). split; [by f_equiv|by constructor].
  - inversion HF as [|a ? l0 ? Ha HF0]; subst. inversion HF0 as [|b ? l1 ? Hb HF1]; subst.
    exists (b :: a :: l1). split; [constructor|]. by repeat constructor.
  - destruct (IH1 _ HF) as (l1 & HP1 & HF1). destruct (IH2 _ HF1) as (l2 & HP2 & HF2). exists l2. split; [by etrans|done].
Qed.

Lemma accounted_perm q ps ps' sent : ps ≡ₚ ps' -> accounted q ps sent -> accounted q ps' sent.
Proof.
  intros HP [H1 H2 (skbs & H3 & H4)]. constructor.
  - by rewrite <- HP.
  - by rewrite H2, HP.
  - destruct (Forall2_perm_r _ _ _ _ H3 HP) as (skbs' & HP' & H5). exists skbs'. split; [done|]. by rewrite H4, HP'.
Qed.

(** Only the context, the kick or the stop state change. *)
Lemma accounted_same q q' ps sent :
  tx_free_bufs q' = tx_free_bufs q -> events q' = events q -> accounted q ps sent -> accounted q' ps sent.
Proof. intros Ef Ee [H1 H2 H3]. constructor; by rewrite ?Ef, ?Ee. Qed.

Lemma unmap_events (q : bpfhv_txq T) bs :
  let q' := foldl (fun q b => emit (unmap_buf b) q) q bs in
  ctx q' = ctx q /\ tx_free_bufs q' = tx_free_bufs q /\ kick_pending q' = kick_pending q /\ stopped q' = stopped q /\
  maps (events q') = maps (events q) /\ frees (events q') = frees (events q) /\
  unmaps (events q') ≡ₚ unmaps (events q) ++ (key_map <$> (key_of <$> bs)).
Proof.
  revert q. induction bs as [|b bs IH]; intros q; simpl; [by rewrite app_nil_r|].
  destruct (IH (emit (unmap_buf b) q)) as (H1 & H2 & H3 & H4 & H5 & H6 & H7). split_and!; try done.
  rewrite H7. simpl. rewrite Permutation_middle. done.
Qed.

(** A packet that a program returned is cleaned up. *)
Lemma ctx_clean_spec q ps sent :
  accounted q (ctx_packet (ctx q) :: ps) sent -> 0 <= num_bufs (ctx q) <= BPFHV_MAX_TX_BUFS -> same_size (ctx q) ->
  exists q', bpfhv_tx_ctx_clean q = Some q' /\ accounted q' ps sent /\ ctx q' = ctx q /\
    tx_free_bufs q' = tx_free_bufs q + num_bufs (ctx q) /\ stopped q' = stopped q /\ kick_pending q' = kick_pending q.
Proof.
  intros [H1 H2 (skbs & H3 & H4)] Hn Hs. unfold bpfhv_tx_ctx_clean.
  set (bs := take (Z.to_nat (num_bufs (ctx q))) (bufs (ctx q))) in *. change (ctx_packet (ctx q)) with (key_of <$> bs) in *.
  assert (Hlen : Z.of_nat (length bs) = num_bufs (ctx q)).
  { unfold bs. rewrite length_take, Hs. lia. }
  inversion H3 as [|skb ? skbs' ? Hpkt Hrest]; subst.
  destruct bs as [|b bs'] eqn:Ebs; [done|]. simpl in Hpkt. destruct Hpkt as (Ec & Hnz & Hev & _).
  assert (Hland : Z.land (buf_cookie b) (Z.lnot F_MAPPED_AS_PAGE) = skb).
  { rewrite Ec. by apply land_clear_flag. }
  rewrite Hland, (proj2 (Z.eqb_neq _ _) Hnz). eexists. split; [done|].
  destruct (unmap_events q (b :: bs')) as (E1 & E2 & E3 & E4 & E5 & E6 & E7).
  set (q1 := foldl _ q _) in *. rewrite total_cons, length_fmap, Hlen in H1. pose proof (total_nonneg ps).
  destruct sizes_law as [Hn16 _]. simpl. rewrite E1, E2, u64_id by (unfold is_u64; lia). split_and!; try done.
  constructor; simpl.
  - lia.
  - rewrite E5, H2, E7. simpl. rewrite fmap_app, <- app_assoc. done.
  - exists skbs'. split; [done|]. rewrite E6, H4. simpl. by rewrite Permutation_middle.
Qed.

Lemma packets_le_total ps : Forall (fun p : list key => p <> []) ps -> Z.of_nat (length ps) <= total ps.
Proof.
  induction 1 as [|p ps Hp _ IH]; [done|]. rewrite total_cons. destruct p; [done|]. simpl. lia.
Qed.

(** The packets that are completed are collected, at least those that were
    completed at the start. *)
Lemma tx_clean_spec fuel : forall q sent count,
  txq_ok q sent -> (length (pend q) < fuel)%nat ->
  exists k q', bpfhv_tx_clean fuel count q = Some (k, q') /\ txq_ok q' sent /\ stopped q' = stopped q /\
    kick_pending q' = kick_pending q /\ tx_free_bufs q + tx_done (opaque (ctx q)) <= tx_free_bufs q' /\
    (length (pend q') <= length (pend q))%nat /\
    (tx_quiet (opaque (ctx q)) -> tx_quiet (opaque (ctx q')) /\ tx_done (opaque (ctx q')) = 0).
Proof.
  induction fuel as [|fuel IH]; intros q sent count [Hs Hok Hacc] Hf; [lia|]. simpl.
  pose proof (complete_law (ctx q) Hs Hok) as Hlaw. pose proof (quiet_law (ctx q) Hs Hok) as Hquiet.
  destruct (tx_complete (ctx q)) as [ret c]. simpl in Hquiet. destruct Hlaw as (Hs' & Hok' & [(-> & HP & Hd)|(-> & Hn & HP & Hd)]); simpl.
  - eexists _, _. split; [done|]. split_and!; try done; [|simpl; lia|simpl; rewrite HP; lia|simpl; intros Hqt; destruct (Hquiet Hqt); auto].
    constructor; [done|done|]. simpl. apply (accounted_perm _ (pend q)); [done|]. by apply (accounted_same q).
  - destruct (ctx_clean_spec (set_ctx c q) (tx_pend (opaque c)) sent) as (q1 & E & Hacc1 & Ec & Ef & Es & Ek); [|done|done|].
    { simpl. apply (accounted_perm _ (pend q)); [done|]. by apply (accounted_same q). }
    rewrite E. simpl. simpl in Ec, Ef. destruct (IH q1 sent (count + 1)) as (k & q' & E' & H1 & H2 & H3 & H4 & H5 & H6).
    { constructor; rewrite ?Ec; done. }
    { rewrite Ec. apply Permutation_length in HP. simpl in HP. lia. }
    exists k, q'. simpl in Es, Ek. rewrite Ec in *. split_and!; try done; try congruence; [lia| |intros Hqt; by apply H6, Hquiet].
    apply Permutation_length in HP. simpl in HP. lia.
Qed.

Context (MAX_SKB_FRAGS : Z) (tx_napi : bool).

Lemma clean_fuel_ok q sent : txq_ok q sent -> (length (pend q) < clean_fuel n)%nat.
Proof.
  intros [Hs Hok [[Hp Hf] _ _]]. destruct (pend_law _ Hok) as [HF _]. pose proof (packets_le_total _ HF). unfold clean_fuel. lia.
Qed.

(** The packets that the stack may hand over, given the features of the
    device. *)
Record skb_ok (skb : sk_buff) : Prop := {
  sk_ptr : skb_ptr skb <> 0 /\ has_flag (skb_ptr skb) F_MAPPED_AS_PAGE = false;
  sk_frags : Z.of_nat (length (skb_frags skb)) + 1 <= maxb;
  sk_lens : is_u32 (fr_len (skb_linear skb)) /\ Forall (fun f => is_u32 (fr_len f)) (skb_frags skb);
}.

(** The keys of the fragments that are mapped. *)
Definition frag_key (f : frag) : key := (F_MAPPED_AS_PAGE, default 0 (fr_dma f), fr_len f).

Lemma map_frags_spec fs : forall i (q : bpfhv_txq T),
  0 <= i -> i + Z.of_nat (length fs) <= BPFHV_MAX_TX_BUFS -> same_size (ctx q) -> Forall (fun f => is_u32 (fr_len f)) fs ->
  Forall (fun f => is_Some (fr_dma f)) fs ->
  exists q', map_frags fs i q = Some (true, q') /\ same_size (ctx q') /\ opaque (ctx q') = opaque (ctx q) /\
    key_of <$> take (Z.to_nat i + length fs) (bufs (ctx q')) = (key_of <$> take (Z.to_nat i) (bufs (ctx q))) ++ (frag_key <$> fs) /\
    tx_free_bufs q' = tx_free_bufs q /\ kick_pending q' = kick_pending q /\ stopped q' = stopped q /\
    maps (events q') ≡ₚ maps (events q) ++ (key_map <$> (frag_key <$> fs)) /\
    unmaps (events q') = unmaps (events q) /\ frees (events q') = frees (events q).
Proof.
  induction fs as [|f fs IH]; intros i q Hi Hb Hs Hl Hm.
  { exists q. simpl. rewrite !app_nil_r, Nat.add_0_r. by split_and!. }
  apply list.Forall_cons in Hl as [Hl Hls], Hm as [[dma Hd] Hms]. simpl in *. rewrite Hd. simpl.
  set (b := mk_buf _ dma _ _). set (q1 := set_ctx _ (emit _ q)).
  destruct (IH (i + 1) q1) as (q' & E & H1 & H2 & H3 & H4 & H5 & H6 & H7 & H8 & H9); try done; try lia.
  { unfold same_size. simpl. rewrite length_insert. exact Hs. }
  assert (Hlen : (Z.to_nat i < length (bufs (ctx q)))%nat) by (rewrite Hs; lia).
  assert (Hfk : frag_key f = (F_MAPPED_AS_PAGE, dma, fr_len f)) by (unfold frag_key; by rewrite Hd).
  exists q'. split_and!; try done.
  - replace (Z.to_nat i + S (length fs))%nat with (Z.to_nat (i + 1) + length fs)%nat by lia. rewrite H3. simpl.
    replace (Z.to_nat (i + 1)) with (S (Z.to_nat i)) by lia.
    rewrite (take_S_r _ _ b) by (by apply list_lookup_insert_eq). rewrite take_insert_ge by lia.
    rewrite fmap_app, <- app_assoc. simpl. rewrite Hfk. unfold b, key_of at 2. simpl. by rewrite u32_id.
  - rewrite H7. simpl. by rewrite <- Permutation_middle.
Qed.

Lemma txq_ok_same q q' sent :
  ctx q' = ctx q -> tx_free_bufs q' = tx_free_bufs q -> maps (events q') = maps (events q) -> unmaps (events q') = unmaps (events q) ->
  frees (events q') = frees (events q) -> txq_ok q sent -> txq_ok q' sent.
Proof.
  intros Ec Ef Em Eu Es [H1 H2 [H3 H4 H5]]. constructor; rewrite ?Ec; [done|done|]. constructor; rewrite ?Ef, ?Em, ?Eu, ?Es; done.
Qed.

(** A packet that is not queued is freed. *)
Lemma txq_ok_free q sent skb : txq_ok q sent -> txq_ok (emit (FreeSkb skb) q) (skb :: sent).
Proof.
  intros [H1 H2 [H3 H4 (skbs & H5 & H6)]]. constructor; [done|done|]. constructor; [done|done|]. exists skbs. split; [done|]. simpl. by f_equiv.
Qed.

Lemma intrs_spec q sent m :
  txq_ok q sent -> 0 <= m <= n ->
  let '(ret, c) := tx_intrs (set_min_completed m (ctx q)) in
  txq_ok (set_ctx c q) sent /\ pend q ≡ₚ tx_pend (opaque c) /\ tx_done (opaque (ctx q)) <= tx_done (opaque c) /\
  (0 < m -> (ret = 1 /\ m <= tx_done (opaque c)) \/ (ret = 0 /\ tx_armed (opaque c) m)).
Proof.
  intros [H1 H2 H3] Hm. pose proof (intrs_law (set_min_completed m (ctx q)) H1 H2 Hm) as Hlaw.
  destruct (tx_intrs _) as [ret c]. destruct Hlaw as (L1 & L2 & L3 & L4 & L5). split_and!; try done.
  constructor; [done|done|]. apply (accounted_perm _ (pend q)); [done|]. by apply (accounted_same q).
Qed.

Lemma half_range a x b : 1 <= a + x <= b -> 0 <= a + x <= b.
Proof. lia. Qed.

Lemma half_pending q sent :
  txq_ok q sent -> u32 (HALF_PENDING_BUFS n q) = 1 + total (pend q) / 2 /\ 1 <= 1 + total (pend q) / 2 <= n /\
  (0 < total (pend q) -> 1 + total (pend q) / 2 <= total (pend q)).
Proof.
  intros [_ _ [[Hp Hf] _ _]]. destruct sizes_law as [Hn _]. pose proof (total_nonneg (pend q)).
  unfold HALF_PENDING_BUFS. replace (n - tx_free_bufs q) with (total (pend q)) by lia.
  rewrite (u64_id (total _)) by (unfold is_u64; lia). assert (0 <= total (pend q) / 2 <= n) by (Z.div_mod_to_equations; lia).
  rewrite u64_id, u32_id by (unfold is_u32, is_u64; lia). split; [done|]. split; [Z.div_mod_to_equations; lia|]. Z.div_mod_to_equations; lia.
Qed.

(** An interrupt comes when some of the packets in flight are completed. *)
Definition will_interrupt (q : bpfhv_txq T) : Prop := exists m, 1 <= m <= total (pend q) /\ tx_armed (opaque (ctx q)) m.

Lemma xmit_publish_spec skb q sent p :
  same_size (ctx q) -> tx_ok (opaque (ctx q)) -> 1 <= num_bufs (ctx q) <= maxb -> ctx_packet (ctx q) = p ->
  Z.of_nat (length p) = num_bufs (ctx q) -> accounted q (p :: pend q) sent ->
  let q' := xmit_publish n MAX_SKB_FRAGS tx_napi skb q in
  txq_ok q' sent /\ (xmit_more skb = false -> kick_pending q' = false) /\
  (tx_napi = false -> stopped q' = true -> stopped q = true \/ will_interrupt q').
Proof.
  intros Hs Hok Hn Hp Hl Hacc. pose proof Hacc as [[Hp0 Hf] _ _]. rewrite total_cons in Hf.
  pose proof (publish_law (ctx q) Hs Hok Hn ltac:(lia)) as Hlaw. unfold xmit_publish.
  destruct (tx_publish (ctx q)) as [ret c]. destruct Hlaw as (-> & Hs1 & Hok1 & HP1). rewrite Hp in HP1.
  set (q1 := if has_flag _ _ then _ else _).
  assert (Hq1 : txq_ok q1 sent /\ stopped q1 = stopped q /\ 0 < total (pend q1)).
  { assert (E1 : ctx q1 = c /\ tx_free_bufs q1 = tx_free_bufs q /\ events q1 = events q /\ stopped q1 = stopped q)
      by (unfold q1; case_if; done). destruct E1 as (E1 & E2 & E3 & E4). split_and!; [constructor|done|]; rewrite ?E1; try done.
    - apply (accounted_perm _ (p :: pend q)); [done|]. by apply (accounted_same q).
    - rewrite HP1, total_cons. pose proof (total_nonneg (pend q)). lia. }
  clearbody q1. destruct Hq1 as (Hq1 & Es1 & Ht1). set (q2 := if tx_napi then _ else _).
  assert (Hq2 : txq_ok q2 sent /\ stopped q2 = stopped q /\ 0 < total (pend q2)).
  { unfold q2. clear q2. destruct tx_napi; [|done]. destruct (half_pending q1 sent Hq1) as (Eh & Hh & _). rewrite Eh.
    pose proof (intrs_spec q1 sent _ Hq1 (half_range _ _ _ Hh)) as Hi. revert Hi. destruct (tx_intrs _) as [r c2]. intros (I1 & I2 & _).
    split_and!; [done|done|]. simpl. by rewrite <- I2. }
  clearbody q2. destruct Hq2 as (Hq2 & Es2 & Ht2). set (q3 := if tx_free_bufs q2 <? _ then _ else _).
  assert (Hq3 : txq_ok q3 sent /\ (tx_napi = false -> stopped q3 = true -> stopped q = true \/ will_interrupt q3)).
  { unfold q3. clear q3. case_if; [|split; [done|intros _ E; left; congruence]]. destruct tx_napi; [split; [|done]; by apply (txq_ok_same q2)|].
    destruct (half_pending q2 sent Hq2) as (Eh & Hh & Hh2). rewrite Eh.
    pose proof (intrs_spec q2 sent _ Hq2 (half_range _ _ _ Hh)) as Hi. revert Hi. destruct (tx_intrs _) as [r c3]. intros (I1 & I2 & _ & I3).
    destruct I3 as [[-> _]|[-> Harm]]; [lia| |]; simpl.
    - split; [done|]. intros _ E. left. simpl in E. congruence.
    - split; [by apply (txq_ok_same (set_ctx c3 q2))|]. intros _ _. right. eexists. split; [|exact Harm]. simpl. rewrite <- I2. lia. }
  clearbody q3. destruct Hq3 as [Hq3 Hst]. cbv zeta. destruct (xmit_more skb) eqn:Em; simpl; [by split_and!|].
  destruct (kick_pending q3) eqn:Ek; [|by split_and!]. split_and!; [by apply (txq_ok_same q3)|done|done].
Qed.

(** How often the doorbell was rung. *)
Definition is_doorbell (e : event) : bool := match e with Doorbell => true | _ => false end.
Definition doorbells (q : bpfhv_txq T) : nat := length (List.filter is_doorbell (events q)).

(** No notification is made, and one that waits keeps waiting. *)
Definition no_kick (q q' : bpfhv_txq T) : Prop := doorbells q' = doorbells q /\ kick_pending q' = kick_pending q.

(** The publish program, run on [c], may ask for a kick; it is made at once,
    with any that waits, unless more packets follow. *)
Definition kicks (more : bool) (c : bpfhv_context T) (q q' : bpfhv_txq T) : Prop :=
  let asked := kick_pending q || has_flag (oflags (snd (tx_publish c))) BPFHV_OFLAGS_KICK_NEEDED in
  kick_pending q' = more && asked /\ doorbells q' = (doorbells q + (if negb more && asked then 1 else 0))%nat.

Lemma unmap_doorbells bs : forall q : bpfhv_txq T, doorbells (foldl (fun q b => emit (unmap_buf b) q) q bs) = doorbells q.
Proof. induction bs as [|b bs IH]; intros q; [done|]. simpl. by rewrite IH. Qed.

Lemma clean_doorbells fuel : forall cnt (q : bpfhv_txq T) k q', bpfhv_tx_clean fuel cnt q = Some (k, q') -> doorbells q' = doorbells q.
Proof.
  induction fuel as [|fuel IH]; intros cnt q k q' E; [done|]. cbn [bpfhv_tx_clean] in E. destruct (tx_complete (ctx q)) as [ret c].
  do 2 (case_if_in E; [by injection E as _ <-|]). destruct (bpfhv_tx_ctx_clean (set_ctx c q)) as [q1|] eqn:E1; [|done]. cbn [mbind option_bind] in E.
  rewrite (IH _ _ _ _ E). unfold bpfhv_tx_ctx_clean in E1. case_if_in E1; [done|]. injection E1 as <-.
  exact (unmap_doorbells _ (set_ctx c q)).
Qed.

Lemma unmap_frags_doorbells fuel : forall i (q q' : bpfhv_txq T), unmap_frags fuel i q = Some q' -> doorbells q' = doorbells q.
Proof.
  induction fuel as [|fuel IH]; intros i q q' E; [done|]. unfold unmap_frags in E; fold (@unmap_frags T) in E. destruct (0 <=? i); [|by injection E as <-].
  destruct (bufs (ctx q) !! Z.to_nat i) as [b|]; [|done]. exact (IH _ _ _ E).
Qed.

Lemma map_frags_doorbells fs : forall i (q : bpfhv_txq T) r q', map_frags fs i q = Some (r, q') -> doorbells q' = doorbells q.
Proof.
  induction fs as [|f fs IH]; intros i q r q' E; cbn [map_frags] in E; [by injection E as _ <-|].
  destruct (fr_dma f) as [dma|]; [exact (IH _ _ _ _ E)|].
  destruct (unmap_frags _ _ q) as [q1|] eqn:E1; [|done]. injection E as _ <-. exact (unmap_frags_doorbells _ _ _ _ E1).
Qed.

Lemma xmit_publish_kicks skb q :
  kicks (xmit_more skb) (ctx q) q (xmit_publish n MAX_SKB_FRAGS tx_napi skb q).
Proof.
  unfold kicks, xmit_publish. destruct (tx_publish (ctx q)) as [ret c]. cbn [snd].
  set (q1 := if has_flag _ _ then _ else _).
  assert (E1 : kick_pending q1 = kick_pending q || has_flag (oflags c) BPFHV_OFLAGS_KICK_NEEDED /\ events q1 = events q).
  { unfold q1. simpl. case_if; simpl; split; try done; by rewrite ?orb_true_r, ?orb_false_r. }
  clearbody q1. destruct E1 as [Ek1 Ee1]. set (q2 := if tx_napi then _ else _).
  assert (E2 : kick_pending q2 = kick_pending q1 /\ events q2 = events q1) by (unfold q2; by destruct tx_napi).
  clearbody q2. destruct E2 as [Ek2 Ee2]. set (q3 := if tx_free_bufs q2 <? _ then _ else _).
  assert (E3 : kick_pending q3 = kick_pending q2 /\ events q3 = events q2).
  { unfold q3. case_if; [|done]. destruct tx_napi; [done|]. destruct (tx_intrs _) as [r c3]. by case_if. }
  clearbody q3. destruct E3 as [Ek3 Ee3]. rewrite <- Ek1, <- Ek2, <- Ek3. unfold doorbells.
  rewrite <- Ee1, <- Ee2, <- Ee3. destruct (xmit_more skb), (kick_pending q3) eqn:Ek; simpl; lia || (split; [congruence|lia]).
Qed.

Lemma preproc_events q :
  events (snd (match tx_preproc with
               | Some prog => let '(ret, c) := prog (ctx q) in (ret, set_ctx c q)
               | None => (0, q)
               end)) = events q.
Proof. destruct tx_preproc as [prog|]; [|done]. by destruct (prog (ctx q)). Qed.

Lemma preproc_spec q sent :
  txq_ok q sent ->
  let '(ret, q') := match tx_preproc with
                    | Some prog => let '(ret, c) := prog (ctx q) in (ret, set_ctx c q)
                    | None => (0, q)
                    end in
  txq_ok q' sent /\ tx_free_bufs q' = tx_free_bufs q /\ stopped q' = stopped q /\ kick_pending q' = kick_pending q.
Proof.
  intros Hq. destruct tx_preproc as [prog|] eqn:E; [|done]. destruct Hq as [H1 H2 H3].
  destruct (preproc_law prog (ctx q) E H1 H2) as (L1 & L2 & L3). destruct (prog (ctx q)) as [ret c]. split_and!; try done.
  constructor; [done|done|]. apply (accounted_perm _ (pend q)); [done|]. by apply (accounted_same q).
Qed.

(** The buffers of a packet are mapped and entered in the context. *)
Lemma mapped_spec skb q sent dma :
  txq_ok q sent -> skb_ok skb -> fr_dma (skb_linear skb) = Some dma -> Forall (fun f => is_Some (fr_dma f)) (skb_frags skb) ->
  let n1 := Z.of_nat (length (skb_frags skb)) + 1 in n1 <= tx_free_bufs q ->
  let q1 := emit (DmaMap false dma (fr_len (skb_linear skb))) q in
  let b := mk_buf (skb_ptr skb) dma (fr_vaddr (skb_linear skb)) (u32 (fr_len (skb_linear skb))) in
  exists q2 p, map_frags (skb_frags skb) 1 (set_ctx (put_buf 0 b (ctx q1)) q1) = Some (true, q2) /\
    p = (skb_ptr skb, dma, fr_len (skb_linear skb)) :: (frag_key <$> skb_frags skb) /\
    let q3 := set_free (u64 (tx_free_bufs q2 - n1)) (set_ctx (set_num_bufs n1 (ctx q2)) q2) in
    same_size (ctx q3) /\ tx_ok (opaque (ctx q3)) /\ num_bufs (ctx q3) = n1 /\ ctx_packet (ctx q3) = p /\
    Z.of_nat (length p) = n1 /\ accounted q3 (p :: pend q3) (skb_ptr skb :: sent) /\ stopped q3 = stopped q /\ kick_pending q3 = kick_pending q.
Proof.
  intros [Hs Hok [[Hp Hf] Hd (skbs & HF2 & Hsk)]] [[Hnz Hev] Hmax [Hl Hls]] Edma Hmap n1 Hn1 q1 b. destruct sizes_law as [Hn Hmaxb].
  set (q0 := set_ctx _ q1). assert (Hs0 : same_size (ctx q0)) by (unfold same_size; simpl; rewrite length_insert; exact Hs).
  destruct (map_frags_spec (skb_frags skb) 1 q0 ltac:(lia) ltac:(lia) Hs0 Hls Hmap) as (q2 & E & M1 & M2 & M3 & M4 & M5 & M6 & M7 & M8 & M9).
  exists q2, (key_of b :: (frag_key <$> skb_frags skb)). split; [done|]. simpl in M2, M4, M5, M6, M7, M8, M9.
  assert (Hpk : key_of <$> take (Z.to_nat n1) (bufs (ctx q2)) = key_of b :: (frag_key <$> skb_frags skb)).
  { replace (Z.to_nat n1) with (Z.to_nat 1 + length (skb_frags skb))%nat by lia. rewrite M3. change (Z.to_nat 1) with 1%nat.
    unfold q0. simpl. unfold same_size in Hs. destruct (bufs (ctx q)); [done|]. done. }
  assert (Hkb : key_of b = (skb_ptr skb, dma, fr_len (skb_linear skb))) by (unfold key_of; simpl; by rewrite u32_id).
  split; [by rewrite Hkb|]. split_and!; try done; [simpl; rewrite M2; done|simpl; rewrite length_fmap; lia|].
  rewrite Hkb. constructor; simpl; rewrite ?M2, ?M4.
  - rewrite u64_id by (unfold is_u64; pose proof (total_nonneg (pend q)); lia). rewrite total_cons. simpl. rewrite length_fmap. lia.
  - rewrite M7, M8, Hd, fmap_app, Hev. rewrite <- !Permutation_middle, <- app_assoc. f_equiv. f_equiv. apply Permutation_app_comm.
  - exists (skb_ptr skb :: skbs). split; [|by rewrite M9, Hsk, Permutation_middle]. constructor; [|done]. split_and!; try done.
    apply list.Forall_fmap. by apply list.Forall_true.
Qed.


Lemma driver_poll_spec q sent :
  txq_ok q sent ->
  exists more q', bpfhv_tx_poll n MAX_SKB_FRAGS q = Some (more, q') /\ txq_ok q' sent /\
    tx_free_bufs q + tx_done (opaque (ctx q)) <= tx_free_bufs q' /\
    (2 + MAX_SKB_FRAGS <= tx_free_bufs q' -> stopped q' = false) /\
    (tx_free_bufs q' < 2 + MAX_SKB_FRAGS -> stopped q' = stopped q) /\
    (2 + MAX_SKB_FRAGS <= n -> more = true \/ stopped q' = false \/ will_interrupt q').
Proof.
  intros Hq. unfold bpfhv_tx_poll. destruct sizes_law as [Hn _].
  pose proof (intrs_spec q sent 0 Hq ltac:(lia)) as Hi. destruct (tx_intrs (set_min_completed 0 (ctx q))) as [r0 c0].
  destruct Hi as (Hq0 & HP0 & Hd0 & _). simpl snd. set (q0 := set_ctx c0 q) in *.
  destruct (tx_clean_spec (clean_fuel n) q0 sent 0 Hq0 (clean_fuel_ok q0 sent Hq0)) as (k & q1 & E1 & Hq1 & Es1 & _ & Hf1 & _).
  rewrite E1. cbn [mbind option_bind]. destruct (half_pending q1 sent Hq1) as (Eh & Hh & Hh2). rewrite Eh.
  pose proof (intrs_spec q1 sent _ Hq1 (half_range _ _ _ Hh)) as Hi. destruct (tx_intrs _) as [r c2]. destruct Hi as (Hq2 & HP2 & _ & Harm).
  eexists _, _. split; [done|].
  assert (Hok2 : txq_ok (if 2 + MAX_SKB_FRAGS <=? tx_free_bufs q1 then set_stopped false (set_ctx c2 q1) else set_ctx c2 q1) sent)
    by (case_if; [by apply (txq_ok_same (set_ctx c2 q1))|done]).
  destruct (Z.leb_spec (2 + MAX_SKB_FRAGS) (tx_free_bufs q1)) as [Hw|Hw]; simpl in *;
    (split; [done|split; [lia|split; [done || lia|split; [done || lia|]]]]); [by auto|].
  intros Hbig. destruct Harm as [[-> _]|[-> Ha]]; [lia|by left|]. right. right. eexists. split; [|exact Ha]. simpl. rewrite <- HP2.
  destruct (ac_free _ _ _ (tq_acc _ _ Hq1)) as [_ Hf]. lia.
Qed.

(** C8: No wake-up is lost in [bpfhv_tx_poll], in a queue with room for the
    largest packet: after it either NAPI is scheduled again, or the queue is
    awake, or an interrupt comes when packets in flight complete.  All the
    packets that were completed when it started have been collected. *)
Theorem tx_poll_correct q sent :
  txq_ok q sent ->
  exists more q', bpfhv_tx_poll n MAX_SKB_FRAGS q = Some (more, q') /\ txq_ok q' sent /\
    tx_free_bufs q + tx_done (opaque (ctx q)) <= tx_free_bufs q' /\
    (2 + MAX_SKB_FRAGS <= tx_free_bufs q' -> stopped q' = false) /\
    (2 + MAX_SKB_FRAGS <= n -> more = true \/ stopped q' = false \/ will_interrupt q').
Proof.
  intros Hq. destruct (driver_poll_spec q sent Hq) as (more & q' & H1 & H2 & H3 & H4 & _ & H5). exists more, q'. by split_and!.
Qed.

(** In a queue with fewer buffers than the largest packet and one (the
    device accepts 16 buffers, the driver wants 19) and with [tx_napi], the
    first packet stops the queue for good: [bpfhv_start_xmit] stops it after
    any packet that it queues, and no interrupt and no [bpfhv_tx_poll] wakes
    it, although all the packets may have been completed and collected. *)
Theorem small_queue_stalls q sent :
  txq_ok q sent -> n < 2 + MAX_SKB_FRAGS ->
  (forall skb, tx_free_bufs q < 2 + MAX_SKB_FRAGS -> stopped (xmit_publish n MAX_SKB_FRAGS true skb q) = true) /\
  (stopped q = true -> bpfhv_tx_intr true q = (true, q) /\
     exists more q', bpfhv_tx_poll n MAX_SKB_FRAGS q = Some (more, q') /\ txq_ok q' sent /\ stopped q' = true).
Proof.
  intros Hq Hsmall. split.
  - intros skb Hlt. unfold xmit_publish. destruct (tx_publish (ctx q)) as [r c]. set (q1 := if has_flag _ _ then _ else _).
    assert (tx_free_bufs q1 = tx_free_bufs q) as Ef by (unfold q1; by case_if). simpl. rewrite Ef, (proj2 (Z.ltb_lt _ _) Hlt). by case_if.
  - intros Hst. split; [done|]. destruct (driver_poll_spec q sent Hq) as (more & q' & E & Hq' & _ & _ & Hs & _).
    exists more, q'. split_and!; try done. destruct (ac_free _ _ _ (tq_acc _ _ Hq')) as [_ Hf]. pose proof (total_nonneg (pend q')).
    rewrite Hs by lia. done.
Qed.

Lemma tx_dealloc_spec fuel : forall q ps sent,
  same_size (ctx q) -> tx_rec (opaque (ctx q)) ps -> accounted q ps sent -> (length ps < fuel)%nat ->
  exists q', tx_dealloc fuel q = Some q' /\ accounted q' [] sent /\ stopped q' = stopped q.
Proof.
  induction fuel as [|fuel IH]; intros q ps sent Hs Hrec Hacc Hf; [lia|]. simpl.
  pose proof (reclaim_law (ctx q) ps Hs Hrec) as Hlaw. destruct (tx_reclaim (ctx q)) as [ret c].
  destruct Hlaw as [[-> ->]|(-> & Hs' & Hn & ps' & HP & Hrec')]; simpl.
  - eexists. split; [done|]. split; [|done]. by apply (accounted_same q).
  - destruct (ctx_clean_spec (set_ctx c q) ps' sent) as (q1 & E & Hacc1 & Ec & _ & Es & _); [|done|done|].
    { apply (accounted_perm _ ps); [done|]. by apply (accounted_same q). }
    rewrite E. simpl. simpl in Ec, Es. destruct (IH q1 ps' sent) as (q' & E' & H1 & H2); rewrite ?Ec; try done.
    { apply Permutation_length in HP. simpl in HP. lia. }
    exists q'. split_and!; try done. congruence.
Qed.

(** C7: When the device has been disabled, closing the interface returns every
    transmit buffer: all are free again, no DMA mapping is left, and every
    packet accepted since the device was opened has been freed exactly once. *)
Theorem tx_close_releases q sent :
  txq_ok q sent -> tx_quiet (opaque (ctx q)) ->
  exists q', tx_close n q = Some q' /\ tx_free_bufs q' = n /\ maps (events q') ≡ₚ unmaps (events q') /\
    sent ≡ₚ frees (events q') /\ stopped q' = true.
Proof.
  intros Hq Hqt. unfold tx_close.
  destruct (tx_clean_spec (clean_fuel n) q sent 0 Hq (clean_fuel_ok q sent Hq)) as (k & q1 & E1 & Hq1 & _ & _ & _ & _ & Hq1t).
  destruct (Hq1t Hqt) as [Hqt1 Hd1]. rewrite E1. cbn [mbind option_bind]. pose proof (clean_fuel_ok q1 sent Hq1) as Hfuel.
  destruct Hq1 as [Hs1 Hok1 Hacc1].
  destruct (tx_dealloc_spec (clean_fuel n) (set_stopped true q1) (pend q1) sent) as (q' & E & [A1 A2 (skbs & A3 & A4)] & Est); try done.
  { by apply rec_start. }
  { by apply (accounted_same q1). }
  exists q'. inversion A3; subst. rewrite app_nil_r in A2, A4. unfold total in A1. simpl in A1. split_and!; try done. lia.
Qed.

(** The loop that removes the mappings never returns. *)
Lemma unmap_frags_never fuel : forall i (q : bpfhv_txq T), 0 <= i -> unmap_frags fuel i q = None.
Proof.
  induction fuel as [|fuel IH]; intros i q Hi; [done|]. unfold unmap_frags; fold (@unmap_frags T). rewrite (proj2 (Z.leb_le 0 i)) by done.
  destruct (bufs (ctx q) !! Z.to_nat i) as [b|]; [|done]. simpl. apply IH, Z.mod_pos_bound. lia.
Qed.

Lemma map_frags_fails fs : forall i (q : bpfhv_txq T), Exists (fun f => fr_dma f = None) fs -> map_frags fs i q = None.
Proof.
  induction fs as [|f fs IH]; intros i q HE; inversion HE as [? ? E|? ? HE']; subst.
  - cbn [map_frags]. rewrite E, unmap_frags_never; [done|]. apply Z.mod_pos_bound. lia.
  - cbn [map_frags]. destruct (fr_dma f) as [dma|]; [by apply IH|]. rewrite unmap_frags_never; [done|]. apply Z.mod_pos_bound. lia.
Qed.

(** The common part of the error paths: the state when the packet is to be
    mapped. *)
Lemma start_xmit_prefix skb q sent :
  txq_ok q sent -> skb_ok skb -> tx_preproc = None -> Z.of_nat (length (skb_frags skb)) + 1 <= tx_free_bufs q ->
  exists q1, txq_ok q1 sent /\ kick_pending q1 = kick_pending q /\ stopped q1 = stopped q /\
    bpfhv_start_xmit n MAX_SKB_FRAGS tx_napi skb q =
      match fr_dma (skb_linear skb) with
      | None => Some (NETDEV_TX_OK, emit (FreeSkb (skb_ptr skb)) q1)
      | Some dma =>
          let q2 := emit (DmaMap false dma (fr_len (skb_linear skb))) q1 in
          let b := mk_buf (skb_ptr skb) dma (fr_vaddr (skb_linear skb)) (u32 (fr_len (skb_linear skb))) in
          let n1 := Z.of_nat (length (skb_frags skb)) + 1 in
          '(mapped, q3) ← map_frags (skb_frags skb) 1 (set_ctx (put_buf 0 b (ctx q2)) q2);
          if negb mapped then Some (NETDEV_TX_OK, emit (FreeSkb (skb_ptr skb)) q3) else
          Some (NETDEV_TX_OK, xmit_publish n MAX_SKB_FRAGS tx_napi skb
                  (set_free (u64 (tx_free_bufs q3 - n1)) (set_ctx (set_num_bufs n1 (ctx q3)) q3)))
      end.
Proof.
  intros Hq Hskb Hpre Hroom. unfold bpfhv_start_xmit.
  destruct (tx_clean_spec (clean_fuel n) q sent 0 Hq (clean_fuel_ok q sent Hq)) as (k & q1 & E1 & Hq1 & Es1 & Ek1 & Hf1 & _).
  rewrite E1. cbn [mbind option_bind]. pose proof (sk_frags _ Hskb) as Hfr. destruct sizes_law as [_ Hmaxb].
  destruct (pend_law _ (tq_ok _ _ Hq)) as [_ Hd].
  rewrite (proj2 (Z.ltb_ge BPFHV_MAX_TX_BUFS _)), (proj2 (Z.ltb_ge (tx_free_bufs q1) _)), Hpre by lia.
  exists (set_ctx (set_packet (skb_ptr skb) (ctx q1)) q1). split_and!; try done.
  destruct Hq1 as [A1 A2 A3]. constructor; [done|done|]. by apply (accounted_same q1).
Qed.

(** When a fragment of a packet cannot be mapped, [bpfhv_start_xmit] does
    not recover: the loop that removes the mappings of the other fragments
    counts down an unsigned variable until it is negative, and runs off the
    array of buffers, whatever the device and its programs are. *)
Theorem start_xmit_overrun skb (q : bpfhv_txq T) k q1 :
  bpfhv_tx_clean (clean_fuel n) 0 q = Some (k, q1) -> tx_preproc = None ->
  Z.of_nat (length (skb_frags skb)) + 1 <= Z.min BPFHV_MAX_TX_BUFS (tx_free_bufs q1) ->
  is_Some (fr_dma (skb_linear skb)) -> Exists (fun f => fr_dma f = None) (skb_frags skb) ->
  bpfhv_start_xmit n MAX_SKB_FRAGS tx_napi skb q = None.
Proof.
  intros E Hpre Hroom [dma Hd] HE. unfold bpfhv_start_xmit. rewrite E. cbn [mbind option_bind].
  rewrite (proj2 (Z.ltb_ge BPFHV_MAX_TX_BUFS _)), (proj2 (Z.ltb_ge (tx_free_bufs q1) _)), Hpre by lia. simpl. rewrite Hd.
  by rewrite map_frags_fails.
Qed.

(** A packet that cannot be mapped is freed, but a kick that was put off for
    it is put off again: the packets queued before it with [xmit_more] are not
    announced to the hypervisor, although the stack has no more packets. *)
Theorem dropped_packet_keeps_kick skb q sent :
  txq_ok q sent -> skb_ok skb -> tx_preproc = None -> Z.of_nat (length (skb_frags skb)) + 1 <= tx_free_bufs q ->
  fr_dma (skb_linear skb) = None ->
  exists q', bpfhv_start_xmit n MAX_SKB_FRAGS tx_napi skb q = Some (NETDEV_TX_OK, q') /\ txq_ok q' (skb_ptr skb :: sent) /\
    kick_pending q' = kick_pending q.
Proof.
  intros Hq Hskb Hpre Hroom Hd. destruct (start_xmit_prefix skb q sent Hq Hskb Hpre Hroom) as (q1 & Hq1 & Ek & _ & ->).
  rewrite Hd. eexists. split; [done|]. split; [by apply txq_ok_free|done].
Qed.

End tx.
