(* ===== verification/DriverVring.v ===== *)
(** * The transmit path of the guest driver on vring_packed

    The transmit programs of proxy/vring_packed_progs.c keep the interface of
    the driver, [TxProgsOk] of [DriverTx]. *)

From S2P Require Import Prelude Abi VringPacked VringInv VringGuest VringView DriverTx.
Import DriverTx.
Open Scope Z_scope.

#[export] Instance vring_progs (hp : bpf_helpers vring_packed_virtq) : TxProgs gview := {|
  tx_preproc := None;
  tx_publish := run_prog (vring_packed_txp hp) true;
  tx_complete := run_prog (fun _ => vring_packed_txc) false;
  tx_reclaim := run_prog (fun _ => vring_packed_txr) false;
  tx_intrs := run_prog vring_packed_txi true;
|}.

(** The driver recognises a packet by its cookie, its address and its length;
    each packet has one buffer. *)
Definition tx_proj (e : entry) : key := (e_cookie e, e_addr e, e_len e).
Definition singles (ks : list key) : list (list key) := (fun k => [k]) <$> ks.
Abbreviation tx_keys := (pend_keys tx_proj).
Abbreviation tx_view := (gview_ok tx_proj 0).

Lemma total_single ks : total (singles ks) = Z.of_nat (length ks).
Proof. induction ks as [|k ks IH]; [done|]. unfold singles in *. rewrite fmap_cons, total_cons, IH. simpl. lia. Qed.

#[export] Instance singles_proper : Proper (Permutation ==> Permutation) singles.
Proof. intros l l' HP. unfold singles. by rewrite HP. Qed.

(** ** The programs *)

Lemma ctx_packet_one {T} (c : bpfhv_context T) : same_size c -> num_bufs c = 1 -> ctx_packet c = [key_of (get_buf 0 c)].
Proof. intros Hs Hn. unfold ctx_packet, get_buf. rewrite Hn. unfold same_size in Hs. destruct (bufs c); done. Qed.

Lemma txp_law hp n c gh :
  tx_view n (opaque c) gh -> same_size c -> num_bufs c = 1 -> 1 + Z.of_nat (length (tx_keys (gv_vq (opaque c)))) <= n ->
  let '(ret, c') := run_prog (vring_packed_txp hp) true c in
  ret = 0 /\ same_size c' /\ (exists gh', tx_view n (opaque c') gh') /\
  singles (tx_keys (gv_vq (opaque c'))) ≡ₚ ctx_packet c :: singles (tx_keys (gv_vq (opaque c))).
Proof.
  intros Hv Hs Hnb Hroom. destruct (view_sync _ _ _ _ _ Hv) as (gh1 & Hv1 & HP1 & _). rewrite <- HP1 in Hroom.
  rewrite ctx_packet_one by done. unfold run_prog. set (v := hv_sync (opaque c)) in *. destruct (hv_act_rely _ _ _ _ _ Hv1) as [Hf HF].
  destruct Hv1 as [H1 H2 H3 _]. rewrite (length_pend_keys _ _ _ H1) in Hroom.
  unfold vring_packed_txp. simpl. rewrite Hnb. simpl. set (mk := if z2b _ then _ else _). set (b := get_buf 0 _).
  destruct (add_evolved _ _ b mk H1 ltac:(lia)) as ([He _] & Hav & _). rewrite H2 in He, Hav.
  set (vq1 := vring_packed_add (gv_vq v) b 0 mk) in *.
  destruct (hv_step tx_proj _ vq1 (gh_add gh1) Hf (ev_inv _ _ _ _ He)) as (gh2 & A1 & A2 & A3 & A4 & _).
  destruct (added_keys tx_proj _ _ _ _ _ H1 He eq_refl Hav) as [Hk _].
  pose proof (ev_same _ _ _ _ He) as (En & _). split_and!; try done.
  { exists gh2. constructor; [exact A1|simpl in A2; congruence|exact (eq_trans A3 (eq_trans En H3))|exact HF]. }
  change (singles (tx_keys (hv_act v vq1)) ≡ₚ singles (key_of b :: tx_keys (gv_vq (opaque c)))).
  rewrite A4, Hk, HP1. by rewrite (Permutation_app_comm _ (tx_proj <$> _)).
Qed.

Lemma txc_law n c gh :
  tx_view n (opaque c) gh -> same_size c ->
  let '(ret, c') := run_prog (fun _ => vring_packed_txc) false c in
  same_size c' /\ (exists gh', tx_view n (opaque c') gh') /\
  ((ret = 0 /\ tx_keys (gv_vq (opaque c')) ≡ₚ tx_keys (gv_vq (opaque c)) /\ completed (gv_vq (opaque c)) = 0 /\
    completed (gv_vq (opaque c')) = 0) \/
   (ret = 1 /\ num_bufs c' = 1 /\ singles (tx_keys (gv_vq (opaque c))) ≡ₚ ctx_packet c' :: singles (tx_keys (gv_vq (opaque c'))) /\
    completed (gv_vq (opaque c)) - num_bufs c' <= completed (gv_vq (opaque c')))).
Proof.
  intros Hv Hs. destruct (view_sync _ _ _ _ _ Hv) as (gh1 & Hv1 & HP1 & Hc1). pose proof (completed_spec _ _ (vo_inv _ _ _ _ _ Hv)) as Hc0.
  destruct (hi_order _ _ (vi_host _ _ (vo_inv _ _ _ _ _ Hv))).
  unfold run_prog. set (v := hv_sync (opaque c)) in *. clearbody v. pose proof Hv1 as [H1 H2 H3 H4].
  unfold vring_packed_txc. simpl. destruct (got_key tx_proj _ _ (get_buf 0 c) H1) as [[-> Hz]|(-> & vq' & gh' & Hget & He & Hk & Hcm)]; simpl.
  - split_and!; [done|by exists gh1|]. left. split_and!; try done. lia.
  - change (get_buf 0 (map_ctx (fun _ => gv_vq v) c)) with (get_buf 0 c). rewrite Hget. simpl.
    pose proof (ev_inv _ _ _ _ He) as Hinv'. pose proof (ev_same _ _ _ _ He) as (En & _).
    split_and!; [unfold same_size; simpl; rewrite length_insert; exact Hs| |].
    { exists gh'. constructor; simpl; try done; [rewrite (ev_rw _ _ _ _ He); done|congruence]. }
    right. split_and!; try done; [|lia].
    rewrite ctx_packet_one by (unfold same_size in *; simpl; rewrite ?length_insert; done). rewrite <- HP1, Hk. unfold get_buf. simpl.
    unfold same_size in Hs. destruct (bufs c); done.
Qed.

Lemma txi_law n c gh :
  tx_view n (opaque c) gh -> same_size c -> 0 <= min_completed_bufs c <= n -> n <= 2 ^ 15 ->
  let '(ret, c') := run_prog vring_packed_txi true c in
  same_size c' /\ (exists gh', tx_view n (opaque c') gh') /\
  tx_keys (gv_vq (opaque c')) ≡ₚ tx_keys (gv_vq (opaque c)) /\ completed (gv_vq (opaque c)) <= completed (gv_vq (opaque c')) /\
  (0 < min_completed_bufs c ->
     (ret = 1 /\ min_completed_bufs c <= completed (gv_vq (opaque c'))) \/ (ret = 0 /\ vring_armed tx_proj 0 n (opaque c') (min_completed_bufs c))).
Proof.
  intros Hv Hs Hm Hn. destruct (view_sync _ _ _ _ _ Hv) as (gh1 & Hv1 & HP1 & Hc1). unfold run_prog, vring_packed_txi.
  set (v := hv_sync (opaque c)) in *. clearbody v. pose proof (intr_law _ _ n v gh1 _ Hv1 Hm Hn) as Hi. simpl.
  destruct (vring_packed_intr _ _ _) as [ret vq]. destruct Hi as (I1 & I2 & I3 & I4). simpl. split_and!; try done; [by rewrite I2, HP1|lia].
Qed.

Lemma txr_law c ks :
  same_size c -> vring_rec tx_proj (opaque c) ks ->
  let '(ret, c') := run_prog (fun _ => vring_packed_txr) false c in
  (ks = [] /\ ret = 0) \/
  (ret = 1 /\ same_size c' /\ num_bufs c' = 1 /\ exists ks', singles ks = ctx_packet c' :: singles ks' /\ vring_rec tx_proj (opaque c') ks').
Proof.
  intros Hs (Henv & vq0 & gh0 & u & Hrc & ->). unfold run_prog. rewrite (hv_sync_quiet _ Henv).
  unfold vring_packed_txr. simpl. rewrite (reclaiming_pending _ _ _ _ Hrc). pose proof (rc_range _ _ _ _ Hrc).
  destruct (Z.ltb_spec u (ag gh0)) as [Hlt|Hge]; simpl.
  - change (get_buf 0 (map_ctx _ c)) with (get_buf 0 c).
    destruct (reclaiming_get _ _ _ _ (get_buf 0 c) Hrc Hlt) as (vq' & -> & Hrc'). simpl. right.
    split_and!; try done; [unfold same_size; simpl; rewrite length_insert; exact Hs|].
    exists (keys_between tx_proj vq0 (u + 1) (ag gh0)). split; [|by split; [|exists vq0, gh0, (u + 1)]].
    rewrite ctx_packet_one by (unfold same_size in *; simpl; rewrite ?length_insert; done).
    unfold keys_between. rewrite range_cons by lia. simpl. unfold get_buf. simpl. unfold same_size in Hs. destruct (bufs c); done.
  - left. split; [|done]. unfold keys_between. replace u with (ag gh0) by lia. by rewrite range_nil.
Qed.

(** The programs of vring_packed keep the interface of the driver, for packets
    in one buffer. *)
#[export] Program Instance vring_progs_ok (hp : bpf_helpers vring_packed_virtq) (n : Z) (Hn : 1 <= n <= 2 ^ 15) :
    TxProgsOk (H := vring_progs hp) gview n 1 := {|
  tx_ok v := exists gh, tx_view n v gh;
  tx_pend v := singles (tx_keys (gv_vq v));
  tx_done v := completed (gv_vq v);
  tx_armed := vring_armed tx_proj 0 n;
  tx_quiet v := gv_env v = [];
  tx_rec v ps := exists ks, ps ≡ₚ singles ks /\ vring_rec tx_proj v ks;
|}.
Next Obligation. intros hp n Hn. unfold BPFHV_MAX_TX_BUFS. lia. Qed.
Next Obligation.
  intros hp n Hn v [gh [Hinv _ _ _]]. rewrite total_single, (length_pend_keys _ _ _ Hinv), (completed_spec _ _ Hinv). split.
  - unfold singles. apply list.Forall_fmap. by apply list.Forall_true.
  - destruct (hi_order _ _ (vi_host _ _ Hinv)). lia.
Qed.
Next Obligation. done. Qed.
Next Obligation.
  intros hp n Hn c Hs [gh Hv] Hnb Hroom. assert (num_bufs c = 1) as E by lia. rewrite E, total_single in Hroom.
  pose proof (txp_law hp n c gh Hv Hs E Hroom) as H. destruct (run_prog _ _ _) as [ret c'] eqn:Er. simpl. rewrite Er. exact H.
Qed.
Next Obligation.
  intros hp n Hn c Hs [gh Hv]. pose proof (txc_law n c gh Hv Hs) as H. simpl. destruct (run_prog _ _ _) as [ret c'].
  destruct H as (H1 & H2 & [(H3 & H4 & H5 & _)|(H3 & H4 & H5 & H6)]); split_and!; try done; [left; split_and!; try done; by rewrite H4|right].
  rewrite H4 in *. unfold BPFHV_MAX_TX_BUFS. split_and!; try done; lia.
Qed.
Next Obligation.
  intros hp n Hn c Hs [gh Hv] Hm. pose proof (txi_law n c gh Hv Hs Hm ltac:(lia)) as H. simpl. destruct (run_prog _ _ _) as [ret c'].
  destruct H as (H1 & H2 & H3 & H4 & H5). split_and!; try done. by rewrite H3.
Qed.
Next Obligation.
  intros hp n Hn v [gh Hv] Hq Hd. exists (tx_keys (gv_vq v)). split; [done|]. by apply (vring_rec_start _ 0 n v gh).
Qed.
Next Obligation.
  intros hp n Hn c Hs [gh Hv] Hq. simpl. pose proof (txc_law n c gh Hv Hs) as H.
  assert (He : gv_env (opaque (snd (run_prog (fun _ => vring_packed_txc) false c))) = []).
  { unfold run_prog. destruct (vring_packed_txc _) as [r c1]. simpl. by rewrite Hq. }
  destruct (run_prog _ _ _) as [ret c']. simpl in *. split; [done|]. intros ->. by destruct H as (_ & _ & [(_ & _ & _ & H)|[? _]]).
Qed.
Next Obligation.
  intros hp n Hn c ps Hs (ks & HP & Hr). pose proof (txr_law c ks Hs Hr) as H. simpl. destruct (run_prog _ _ _) as [ret c'].
  destruct H as [[-> H]|(H1 & H2 & H3 & ks' & H4 & H5)]; [left; split; [by apply Permutation_nil; symmetry|done]|right]. rewrite H3.
  unfold BPFHV_MAX_TX_BUFS. split_and!; try done; try lia. exists (singles ks'). split; [by rewrite HP, H4|by exists ks'].
Qed.

(** ** Examples *)

Definition ddemo_helpers : bpf_helpers vring_packed_virtq := mk_helpers (fun c => (0, set_packet 1 c)) (fun _ => []).
Definition ddemo_progs : TxProgs gview := vring_progs ddemo_helpers.
Definition ddemo_ctx (n : Z) : bpfhv_context gview :=
  mk_ctx 0 0 0 0 0 1 0 (repeat (mk_buf 0 0 0 0) 64) (mk_gview (vring_packed_init n) []).
Definition ddemo_txq (n : Z) (kick : bool) : bpfhv_txq gview := mk_txq (ddemo_ctx n) n kick true [].
Definition ddemo_skb : sk_buff := mk_skb 0x1000 (mk_frag 0x1000 64 (Some 0x5000)) [] false.
Definition ddemo_bad_skb : sk_buff := mk_skb 0x1000 (mk_frag 0x1000 64 None) [] false.

Lemma ddemo_range n : bool_decide (1 <= n <= 2 ^ 15) = true -> 1 <= n <= 2 ^ 15.
Proof. apply bool_decide_eq_true_1. Defined.

Abbreviation ddemo_ok n := (vring_progs_ok ddemo_helpers n (ddemo_range n eq_refl)).

Lemma ddemo_txq_ok n kick (Hn : bool_decide (1 <= n <= 2 ^ 15) = true) :
  n = 16 \/ n = 32 -> txq_ok (H0 := vring_progs_ok ddemo_helpers n (ddemo_range n Hn)) (ddemo_txq n kick) [].
Proof.
  intros Hs. assert (Hinv : vq_inv (vring_packed_init n) (mk_gh 0 0 0 0 (range 0 n) 0)) by (apply init_inv; lia || by left).
  assert (Hp : singles (tx_keys (vring_packed_init n)) = []) by (destruct Hs as [->| ->]; reflexivity).
  constructor; [reflexivity| |].
  - exists (mk_gh 0 0 0 0 (range 0 n) 0). constructor; [exact Hinv|reflexivity|by destruct Hs as [->| ->]|constructor].
  - change (accounted (n := n) (ddemo_txq n kick) (singles (tx_keys (vring_packed_init n))) []). rewrite Hp.
    constructor; [unfold total; simpl; lia|reflexivity|]. exists []. split; [constructor|reflexivity].
Qed.

Lemma ddemo_skb_ok : skb_ok (maxb := 1) ddemo_skb.
Proof. constructor; (split; [done|by constructor]) || done. Qed.

Lemma ddemo_bad_skb_ok : skb_ok (maxb := 1) ddemo_bad_skb.
Proof. constructor; (split; [done|by constructor]) || done. Qed.


Lemma tx_poll_correct_witness :
  exists more q', bpfhv_tx_poll (TxProgs0 := ddemo_progs) 32 17 (ddemo_txq 32 false) = Some (more, q') /\
    txq_ok (H0 := ddemo_ok 32) q' [].
Proof.
  destruct (tx_poll_correct (H0 := ddemo_ok 32) 17 (ddemo_txq 32 false) [] (ddemo_txq_ok 32 false eq_refl (or_intror eq_refl)))
    as (more & q' & E & Hok & _).
  exists more, q'. exact (conj E Hok).
Defined.

(** A queue of 16 buffers, stopped, with nothing in flight: the poll leaves it
    stopped. *)
Lemma small_queue_stalls_witness :
  exists more q', bpfhv_tx_poll (TxProgs0 := ddemo_progs) 16 17 (ddemo_txq 16 false) = Some (more, q') /\ stopped q' = true.
Proof.
  destruct (small_queue_stalls (H0 := ddemo_ok 16) 17 (ddemo_txq 16 false) [] (ddemo_txq_ok 16 false eq_refl (or_introl eq_refl)) eq_refl)
    as [_ Hst].
  destruct (Hst eq_refl) as (_ & more & q' & E & _ & Hs). exists more, q'. exact (conj E Hs).
Defined.

Lemma tx_close_releases_witness : exists q', tx_close (TxProgs0 := ddemo_progs) 32 (ddemo_txq 32 false) = Some q' /\ tx_free_bufs q' = 32.
Proof.
  destruct (tx_close_releases (H0 := ddemo_ok 32) (ddemo_txq 32 false) [] (ddemo_txq_ok 32 false eq_refl (or_intror eq_refl)) eq_refl)
    as (q' & E & Hf & _).
  exists q'. exact (conj E Hf).
Defined.

Lemma dropped_packet_keeps_kick_witness :
  exists q', bpfhv_start_xmit (TxProgs0 := ddemo_progs) 32 17 false ddemo_bad_skb (ddemo_txq 32 true) = Some (NETDEV_TX_OK, q') /\
    kick_pending q' = true.
Proof.
  destruct (dropped_packet_keeps_kick (H0 := ddemo_ok 32) 17 false ddemo_bad_skb (ddemo_txq 32 true) []
    (ddemo_txq_ok 32 true eq_refl (or_intror eq_refl)) ddemo_bad_skb_ok eq_refl ltac:(vm_compute; congruence) eq_refl) as (q' & E & _ & Hk).
  exists q'. exact (conj E Hk).
Defined.

Definition ddemo_frag_skb : sk_buff := mk_skb 0x1000 (mk_frag 0x1000 64 (Some 0x5000)) [mk_frag 0x7000 512 None] false.

(** The second buffer of this packet cannot be mapped. *)
Lemma start_xmit_overrun_witness : bpfhv_start_xmit (TxProgs0 := ddemo_progs) 32 17 false ddemo_frag_skb (ddemo_txq 32 false) = None.
Proof.
  apply (start_xmit_overrun (H := ddemo_progs) (n := 32) 17 false ddemo_frag_skb (ddemo_txq 32 false) 0 (ddemo_txq 32 false)).
  - reflexivity.
  - reflexivity.
  - vm_compute. discriminate.
  - eexists. reflexivity.
  - constructor. reflexivity.
Defined.
