(* ===== verification/DriverRx.v ===== *)
(** * The receive path of the guest driver

    driver/bpfhv.c: [bpfhv_rx_refill], [bpfhv_rx_clean], [bpfhv_rx_poll], the
    helper [bpf_hv_rx_pkt_alloc] that the receive program calls to build a
    packet, and the receive half of [bpfhv_resources_dealloc].

    As in [DriverTx], the programs of the device are an interface,
    [RxProgsOk]; what the allocators of the kernel return is a parameter. *)

From S2P Require Import Prelude Abi.
Open Scope Z_scope.

(** The receive programs.  The completion program calls the helper, which acts
    on the rest of the driver: it is run with the state [W] of the driver. *)
Class RxProgs (T : Type) := {
  rx_postproc : option (bpfhv_context T -> Z * bpfhv_context T);
  rx_publish : bpfhv_context T -> Z * bpfhv_context T;
  rx_complete : forall W : Type, (W -> bpfhv_context T -> Z * bpfhv_context T * W) -> W -> bpfhv_context T -> Z * bpfhv_context T * W;
  rx_reclaim : bpfhv_context T -> Z * bpfhv_context T;
  rx_intrs : bpfhv_context T -> Z * bpfhv_context T;
}.

Module DriverRx.

(** What the driver does to the rest of the kernel and to the device: the
    references to the pages of the buffers, the mappings, the pages that become
    part of a packet, the packets handed to the stack. *)
Inductive event :=
| GetPage (kbuf : Z)
| PutPage (kbuf : Z)
| Attach (kbuf len : Z)
| DmaMap (paddr len : Z)
| DmaUnmap (paddr len : Z)
| Receive (skb : Z)
| PutFrag (page : Z)
| Doorbell.

(** The outcome of an allocation: the buffer of [skb_page_frag_refill], if any,
    its DMA address, if it can be mapped, and the page that the call leaves in
    the page fragment of the queue (0 for none). *)
Record page_alloc := mk_alloc { al_kbuf : option Z; al_dma : option Z; al_page : Z }.

(** The part of the driver that the helper changes: the events, the last one
    first, and the numbers of buffers and packets allocated so far. *)
Record world := mk_world { events : list event; n_pages : nat; n_skbs : nat }.
Definition emit (e : event) (w : world) : world := mk_world (e :: events w) (n_pages w) (n_skbs w).

Definition EINVAL : Z := 22.
Definition ENOMEM : Z := 12.
Definition PAGE_SIZE : Z := 4096.
Definition BPFHV_RX_PKT_SZ : Z := 14 + 4 + 1500.

Section driver.
Context {T : Type} `{!RxProgs T}.

(** The results of the allocators: of pages, and of packets ([build_skb] and
    [napi_alloc_skb]; 0 is a failure).  [tailroom] is the room in a packet of
    [GOOD_COPY_LEN] bytes. *)
Context (pages : nat -> page_alloc) (skbs : nat -> Z) (lro : bool) (tailroom MAX_SKB_FRAGS : Z).

(** ** The helper *)

(** The buffers after the first one become fragments. *)
Fixpoint add_frags (bs : list bpfhv_buf) (nr_frags : Z) (w : world) : world :=
  match bs with
  | [] => w
  | b :: bs =>
      let w := emit (DmaUnmap (buf_paddr b) (buf_len b)) w in
      if MAX_SKB_FRAGS <=? nr_frags then add_frags bs nr_frags (emit (PutPage (buf_cookie b)) w)
      else add_frags bs (nr_frags + 1) (emit (Attach (buf_cookie b) (buf_len b)) w)
  end.

(** The label [err]: the remaining buffers are given up. *)
Definition drop_bufs (bs : list bpfhv_buf) (w : world) : world :=
  foldl (fun w b => emit (PutPage (buf_cookie b)) (emit (DmaUnmap (buf_paddr b) (buf_len b)) w)) w bs.

Definition bpf_hv_rx_pkt_alloc (w : world) (c : bpfhv_context T) : Z * bpfhv_context T * world :=
  match take (Z.to_nat (num_bufs c)) (bufs c) with
  | [] => (- EINVAL, c, w)
  | b :: bs =>
      let kbuf := buf_cookie b in
      let w := emit (DmaUnmap (buf_paddr b) (buf_len b)) w in
      let skb := skbs (n_skbs w) in
      let w := mk_world (events w) (n_pages w) (S (n_skbs w)) in
      if skb =? 0 then (- ENOMEM, c, drop_bufs bs (emit (PutPage kbuf) w))
      else if lro then
        let copy := if tailroom <? buf_len b then tailroom else buf_len b in
        let left := buf_len b - copy in
        let w := if z2b left then add_frags bs 1 (emit (Attach kbuf left) w) else add_frags bs 0 (emit (PutPage kbuf) w) in
        (0, set_packet skb c, w)
      else (0, set_packet skb c, add_frags bs 0 (emit (Attach kbuf (buf_len b)) w))
  end.

(** ** The queue *)

(** [alloc_frag] is the page of the page fragment of that name, 0 for none. *)
Record bpfhv_rxq := mk_rxq { ctx : bpfhv_context T; rx_free_bufs : Z; alloc_frag : Z; rest : world }.

Definition set_ctx (c : bpfhv_context T) (q : bpfhv_rxq) : bpfhv_rxq := mk_rxq c (rx_free_bufs q) (alloc_frag q) (rest q).
Definition set_free (n : Z) (q : bpfhv_rxq) : bpfhv_rxq := mk_rxq (ctx q) n (alloc_frag q) (rest q).
Definition log (e : event) (q : bpfhv_rxq) : bpfhv_rxq := mk_rxq (ctx q) (rx_free_bufs q) (alloc_frag q) (emit e (rest q)).
Definition set_min_completed (x : Z) (c : bpfhv_context T) : bpfhv_context T :=
  mk_ctx (guest_priv c) (packet c) (num_bufs c) (iflags c) (oflags c) x (min_intr_nsecs c) (bufs c) (opaque c).

Definition bufsize : Z := if lro then PAGE_SIZE else BPFHV_RX_PKT_SZ.

(** The loop of [bpfhv_rx_refill] that prepares the context, from entry [i] on,
    with [n] entries left; the number of entries prepared, and whether the
    memory is exhausted. *)
Fixpoint prepare (n : nat) (i : Z) (q : bpfhv_rxq) : Z * bool * bpfhv_rxq :=
  match n with
  | O => (i, false, q)
  | S n' =>
      let a := pages (n_pages (rest q)) in
      let q := mk_rxq (ctx q) (rx_free_bufs q) (al_page a) (mk_world (events (rest q)) (S (n_pages (rest q))) (n_skbs (rest q))) in
      match al_kbuf a with
      | None => (i, true, q)
      | Some kbuf =>
          let q := log (GetPage kbuf) q in
          match al_dma a with
          | None => (i, false, log (PutPage kbuf) q)
          | Some dma =>
              let q := log (DmaMap dma bufsize) q in
              prepare n' (i + 1) (set_ctx (put_buf i (mk_buf kbuf dma kbuf bufsize) (ctx q)) q)
          end
      end
  end.

(** [bpfhv_rx_refill]; [None] is the end of the fuel. *)
Fixpoint bpfhv_rx_refill (fuel : nat) (q : bpfhv_rxq) : option bpfhv_rxq :=
  match fuel with
  | O => None
  | S fuel' =>
      if 0 <? rx_free_bufs q then
        let n := if BPFHV_MAX_RX_BUFS <? rx_free_bufs q then BPFHV_MAX_RX_BUFS else rx_free_bufs q in
        let '(i, oom, q) := prepare (Z.to_nat n) 0 q in
        let q := set_free (u64 (rx_free_bufs q - i)) (set_ctx (set_num_bufs i (ctx q)) q) in
        let '(_, c) := rx_publish (ctx q) in
        let q := set_ctx c q in
        let q := if has_flag (oflags (ctx q)) BPFHV_OFLAGS_KICK_NEEDED then log Doorbell q else q in
        if oom then Some q else bpfhv_rx_refill fuel' q
      else Some q
  end.

Context (rx_bufs : Z).

(** More than the number of times round the loop of the refill. *)
Definition refill_fuel : nat := S (Z.to_nat rx_bufs).

(** The loop of [bpfhv_rx_clean], [n] times at most. *)
Fixpoint clean_loop (n : nat) (count : Z) (q : bpfhv_rxq) : option (Z * bpfhv_rxq) :=
  match n with
  | O => Some (count, q)
  | S n' =>
      let '(ret, c, w) := rx_complete world bpf_hv_rx_pkt_alloc (rest q) (ctx q) in
      let q := mk_rxq c (rx_free_bufs q) (alloc_frag q) w in
      if s32 ret =? 0 then Some (count, q)
      else if s32 ret <? 0 then Some (count, q)
      else
        let q := set_free (u64 (rx_free_bufs q + num_bufs (ctx q))) q in
        let skb := packet (ctx q) in
        if skb =? 0 then Some (count, q)
        else
          let q := match rx_postproc with Some prog => set_ctx (snd (prog (ctx q))) q | None => q end in
          let q := log (Receive skb) q in
          q ← (if 16 <=? rx_free_bufs q then bpfhv_rx_refill refill_fuel q else Some q);
          clean_loop n' (count + 1) q
  end.

Definition bpfhv_rx_clean (budget : Z) (q : bpfhv_rxq) : option (Z * bpfhv_rxq) := clean_loop (Z.to_nat budget) 0 q.

(** [bpfhv_rx_poll]: the number of packets, and whether NAPI is scheduled
    again after it has been completed. *)
Definition bpfhv_rx_poll (budget : Z) (q : bpfhv_rxq) : option (Z * bool * bpfhv_rxq) :=
  let q := set_ctx (snd (rx_intrs (set_min_completed 0 (ctx q)))) q in
  '(count, q) ← bpfhv_rx_clean budget q;
  if count <? budget then
    let '(more, c) := rx_intrs (set_min_completed 1 (ctx q)) in
    Some (count, z2b more, set_ctx c q)
  else Some (count, false, q).

(** The loop over a receive queue in [bpfhv_resources_dealloc]; [None] is the
    [BUG_ON], or the end of the fuel. *)
Fixpoint rx_dealloc (fuel : nat) (q : bpfhv_rxq) : option bpfhv_rxq :=
  match fuel with
  | O => None
  | S fuel' =>
      let '(ret, c) := rx_reclaim (ctx q) in
      let q := set_ctx c q in
      if s32 ret =? 0 then Some q
      else if s32 ret <? 0 then Some q
      else
        let bs := take (Z.to_nat (num_bufs (ctx q))) (bufs (ctx q)) in
        if forallb (fun b => z2b (buf_cookie b)) bs then
          let q := mk_rxq (ctx q) (rx_free_bufs q) (alloc_frag q) (drop_bufs bs (rest q)) in
          rx_dealloc fuel' (set_free (u64 (rx_free_bufs q + num_bufs (ctx q))) q)
        else None
  end.

(** The end of [bpfhv_resources_dealloc] for a receive queue: the reference that
    the page fragment holds is given up. *)
Definition put_alloc_frag (q : bpfhv_rxq) : bpfhv_rxq :=
  if z2b (alloc_frag q) then
    let q := log (PutFrag (alloc_frag q)) q in mk_rxq (ctx q) (rx_free_bufs q) 0 (rest q)
  else q.

(** What [bpfhv_close_carrier] does to a receive queue once the device is
    disabled. *)
Definition rx_close (q : bpfhv_rxq) : option bpfhv_rxq :=
  '(_, q) ← bpfhv_rx_clean rx_bufs q; q ← rx_dealloc refill_fuel q; Some (put_alloc_frag q).

End driver.
Arguments bpfhv_rxq : clear implicits.
End DriverRx.
Import DriverRx.

(** ** The interface of the receive programs *)

(** What the driver gave of a buffer and gets back: its address and its DMA
    address; the length comes back as that of the data. *)
Abbreviation rx_key := (Z * Z)%type.
Definition rx_key_of (b : bpfhv_buf) : rx_key := (buf_cookie b, buf_paddr b).
Definition ctx_bufs {T} (c : bpfhv_context T) : list bpfhv_buf := take (Z.to_nat (num_bufs c)) (bufs c).
Definition ctx_keys {T} (c : bpfhv_context T) : list rx_key := rx_key_of <$> ctx_bufs c.
Definition full_size {T} (c : bpfhv_context T) : Prop := length (bufs c) = Z.to_nat BPFHV_MAX_RX_BUFS.

(** The helper changes nothing of the context but the packet. *)
Definition alloc_frame {T W} (alloc : W -> bpfhv_context T -> Z * bpfhv_context T * W) : Prop :=
  forall w c, exists p, (alloc w c).1.2 = set_packet p c.

(** The contract, for a queue of [n] buffers.  [rx_pend] are the buffers
    published and not yet returned, [rx_done] of them completed; [rx_armed],
    [rx_quiet] and [rx_rec] are as for transmission. *)
Class RxProgsOk (T : Type) `{RxProgs T} (n : Z) := {
  rx_ok : T -> Prop;
  rx_pend : T -> list rx_key;
  rx_done : T -> Z;
  rx_armed : T -> Z -> Prop;
  rx_quiet : T -> Prop;
  rx_rec : T -> list rx_key -> Prop;
  rx_size_law : 0 < n < 2 ^ 16;
  rx_pend_law : forall t, rx_ok t -> 0 <= rx_done t <= Z.of_nat (length (rx_pend t));
  rx_postproc_law : forall prog c, rx_postproc = Some prog -> full_size c -> rx_ok (opaque c) ->
    let c' := snd (prog c) in
    full_size c' /\ rx_ok (opaque c') /\ rx_pend (opaque c') ≡ₚ rx_pend (opaque c) /\ rx_done (opaque c) <= rx_done (opaque c') /\
    (rx_quiet (opaque c) -> rx_quiet (opaque c') /\ rx_done (opaque c') = rx_done (opaque c));
  rx_publish_law : forall c, full_size c -> rx_ok (opaque c) -> 0 <= num_bufs c <= BPFHV_MAX_RX_BUFS ->
    num_bufs c + Z.of_nat (length (rx_pend (opaque c))) <= n ->
    let '(ret, c') := rx_publish c in
    ret = 0 /\ full_size c' /\ rx_ok (opaque c') /\ rx_pend (opaque c') ≡ₚ ctx_keys c ++ rx_pend (opaque c) /\
    rx_done (opaque c) <= rx_done (opaque c') /\
    (rx_quiet (opaque c) -> rx_quiet (opaque c') /\ rx_done (opaque c') = rx_done (opaque c));
  rx_complete_law : forall W alloc (w : W) c, alloc_frame alloc -> full_size c -> rx_ok (opaque c) ->
    let '(ret, c', w') := rx_complete W alloc w c in
    full_size c' /\ rx_ok (opaque c') /\
    (rx_quiet (opaque c) -> rx_quiet (opaque c')) /\
    ((ret = 0 /\ w' = w /\ rx_pend (opaque c') ≡ₚ rx_pend (opaque c) /\ rx_done (opaque c) = 0 /\
      (rx_quiet (opaque c) -> rx_done (opaque c') = 0)) \/
     (exists c1, full_size c1 /\ 1 <= num_bufs c1 <= BPFHV_MAX_RX_BUFS /\
        rx_pend (opaque c) ≡ₚ ctx_keys c1 ++ rx_pend (opaque c') /\ rx_done (opaque c) - num_bufs c1 <= rx_done (opaque c') /\
        (rx_quiet (opaque c) -> rx_done (opaque c') = rx_done (opaque c) - num_bufs c1) /\
        (alloc w c1).1.2 = c' /\ (alloc w c1).2 = w' /\
        ret = if (alloc w c1).1.1 <? 0 then (alloc w c1).1.1 else 1));
  rx_intrs_law : forall c, full_size c -> rx_ok (opaque c) -> 0 <= min_completed_bufs c <= n ->
    let '(ret, c') := rx_intrs c in
    full_size c' /\ rx_ok (opaque c') /\ rx_pend (opaque c') ≡ₚ rx_pend (opaque c) /\ rx_done (opaque c) <= rx_done (opaque c') /\
    (0 < min_completed_bufs c ->
       (ret = 1 /\ min_completed_bufs c <= rx_done (opaque c')) \/ (ret = 0 /\ rx_armed (opaque c') (min_completed_bufs c)));
  rx_rec_start : forall t, rx_ok t -> rx_quiet t -> rx_done t = 0 -> rx_rec t (rx_pend t);
  rx_reclaim_law : forall c ps, full_size c -> rx_rec (opaque c) ps ->
    let '(ret, c') := rx_reclaim c in
    (ps = [] /\ ret = 0) \/
    (ret = 1 /\ full_size c' /\ 1 <= num_bufs c' <= BPFHV_MAX_RX_BUFS /\
     exists ps', ps ≡ₚ ctx_keys c' ++ ps' /\ rx_rec (opaque c') ps');
}.

(** ** Accounting *)

Definition gets (es : list event) : list Z := omap (fun e => match e with GetPage k => Some k | _ => None end) es.
(** The references given up, to the allocator or to a packet. *)
Definition gone (es : list event) : list Z :=
  omap (fun e => match e with PutPage k | Attach k _ => Some k | _ => None end) es.
Definition rmaps (es : list event) : list Z := omap (fun e => match e with DmaMap a _ => Some a | _ => None end) es.
Definition runmaps (es : list event) : list Z := omap (fun e => match e with DmaUnmap a _ => Some a | _ => None end) es.
(** The pages that page fragments gave up. *)
Definition put_frags (es : list event) : list Z := omap (fun e => match e with PutFrag k => Some k | _ => None end) es.
Definition received (es : list event) : list Z := omap (fun e => match e with Receive s => Some s | _ => None end) es.

(** What an action of the driver adds to the events. *)
Record adds (w w' : world) (g go m u : list Z) : Prop := {
  ad_gets : gets (events w') ≡ₚ gets (events w) ++ g;
  ad_gone : gone (events w') ≡ₚ gone (events w) ++ go;
  ad_maps : rmaps (events w') ≡ₚ rmaps (events w) ++ m;
  ad_unmaps : runmaps (events w') ≡ₚ runmaps (events w) ++ u;
  ad_received : received (events w') = received (events w);
}.

Lemma adds_nil w w' : events w' = events w -> adds w w' [] [] [] [].
Proof. intros E. constructor; rewrite E, ?app_nil_r; done. Qed.

Lemma adds_trans w1 w2 w3 g1 go1 m1 u1 g2 go2 m2 u2 :
  adds w1 w2 g1 go1 m1 u1 -> adds w2 w3 g2 go2 m2 u2 -> adds w1 w3 (g1 ++ g2) (go1 ++ go2) (m1 ++ m2) (u1 ++ u2).
Proof. intros [A1 A2 A3 A4 A5] [B1 B2 B3 B4 B5]. constructor; [rewrite B1, A1|rewrite B2, A2|rewrite B3, A3|rewrite B4, A4|by rewrite B5]; by rewrite app_assoc. Qed.

(** The event that is added by one call. *)
Definition event_adds (e : event) (w : world) : Prop :=
  match e with
  | GetPage k => adds w (emit e w) [k] [] [] []
  | PutPage k | Attach k _ => adds w (emit e w) [] [k] [] []
  | DmaMap a _ => adds w (emit e w) [] [] [a] []
  | DmaUnmap a _ => adds w (emit e w) [] [] [] [a]
  | PutFrag _ | Doorbell => adds w (emit e w) [] [] [] []
  | Receive _ => True
  end.

Lemma emit_adds e w : event_adds e w.
Proof. destruct e; simpl; try done; constructor; simpl; rewrite ?app_nil_r; try done; apply Permutation_cons_append. Qed.

Section rx.
Context {T : Type} `{RxProgsOk T n} (pages : nat -> page_alloc) (skbs : nat -> Z) (lro : bool) (tailroom MAX_SKB_FRAGS : Z).

Abbreviation alloc := (bpf_hv_rx_pkt_alloc (T := T) skbs lro tailroom MAX_SKB_FRAGS).
Abbreviation pend q := (rx_pend (opaque (ctx q))).

(** ** The helper *)

Lemma add_frags_adds bs : forall nr w,
  let w' := add_frags MAX_SKB_FRAGS bs nr w in
  adds w w' [] (buf_cookie <$> bs) [] (buf_paddr <$> bs) /\ n_pages w' = n_pages w /\ n_skbs w' = n_skbs w.
Proof.
  induction bs as [|b bs IH]; intros nr w; cbv zeta; simpl; [split_and!; try done; by apply adds_nil|].
  pose proof (emit_adds (DmaUnmap (buf_paddr b) (buf_len b)) w) as A1. simpl in A1. set (w1 := emit _ w) in *.
  case_if.
  - pose proof (emit_adds (PutPage (buf_cookie b)) w1) as A2. simpl in A2. set (w2 := emit _ w1) in *.
    destruct (IH nr w2) as (A3 & E1 & E2). split_and!; [|by rewrite E1|by rewrite E2].
    exact (adds_trans _ _ _ _ _ _ _ _ _ _ _ (adds_trans _ _ _ _ _ _ _ _ _ _ _ A1 A2) A3).
  - pose proof (emit_adds (Attach (buf_cookie b) (buf_len b)) w1) as A2. simpl in A2. set (w2 := emit _ w1) in *.
    destruct (IH (nr + 1) w2) as (A3 & E1 & E2). split_and!; [|by rewrite E1|by rewrite E2].
    exact (adds_trans _ _ _ _ _ _ _ _ _ _ _ (adds_trans _ _ _ _ _ _ _ _ _ _ _ A1 A2) A3).
Qed.

Lemma drop_bufs_adds bs : forall w,
  let w' := drop_bufs bs w in
  adds w w' [] (buf_cookie <$> bs) [] (buf_paddr <$> bs) /\ n_pages w' = n_pages w /\ n_skbs w' = n_skbs w.
Proof.
  induction bs as [|b bs IH]; intros w; cbv zeta; simpl; [split_and!; try done; by apply adds_nil|].
  pose proof (emit_adds (DmaUnmap (buf_paddr b) (buf_len b)) w) as A1. simpl in A1. set (w1 := emit _ w) in *.
  pose proof (emit_adds (PutPage (buf_cookie b)) w1) as A2. simpl in A2. set (w2 := emit _ w1) in *.
  destruct (IH w2) as (A3 & E1 & E2). split_and!; [|by rewrite E1|by rewrite E2].
  exact (adds_trans _ _ _ _ _ _ _ _ _ _ _ (adds_trans _ _ _ _ _ _ _ _ _ _ _ A1 A2) A3).
Qed.

(** The helper removes the mapping of every buffer and gives up its page once,
    to the packet or to the allocator, also when it fails. *)
Lemma alloc_spec w (c : bpfhv_context T) :
  full_size c -> 1 <= num_bufs c <= BPFHV_MAX_RX_BUFS ->
  let skb := skbs (n_skbs w) in
  let '(r, c', w') := alloc w c in
  adds w w' [] (ctx_keys c).*1 [] (ctx_keys c).*2 /\ n_pages w' = n_pages w /\ n_skbs w' = S (n_skbs w) /\
  if skb =? 0 then r = - ENOMEM /\ c' = c else r = 0 /\ c' = set_packet skb c.
Proof.
  intros Hs Hn skb. unfold bpf_hv_rx_pkt_alloc, ctx_keys, ctx_bufs. destruct (take _ (bufs c)) as [|b bs] eqn:E.
  { apply (f_equal length) in E. rewrite length_take, Hs in E. simpl in E. lia. }
  pose proof (emit_adds (DmaUnmap (buf_paddr b) (buf_len b)) w) as A1. simpl in A1. set (w1 := emit _ w) in *.
  change (n_skbs w1) with (n_skbs w). fold skb. set (w2 := mk_world _ _ (S (n_skbs w))).
  pose proof (adds_trans _ _ _ _ _ _ _ _ _ _ _ A1 (adds_nil w1 w2 eq_refl)) as A12.
  rewrite !fmap_cons, <- !list_fmap_compose.
  assert (Hend : forall k w3 w4, adds w2 w3 [] [k] [] [] -> adds w3 w4 [] (buf_cookie <$> bs) [] (buf_paddr <$> bs) ->
    k = buf_cookie b -> adds w w4 [] (buf_cookie b :: (buf_cookie <$> bs)) [] (buf_paddr b :: (buf_paddr <$> bs))).
  { intros k w3 w4 B1 B2 ->. exact (adds_trans _ _ _ _ _ _ _ _ _ _ _ A12 (adds_trans _ _ _ _ _ _ _ _ _ _ _ B1 B2)). }
  destruct (skb =? 0).
  { destruct (drop_bufs_adds bs (emit (PutPage (buf_cookie b)) w2)) as (B & E1 & E2). split_and!; try done.
    apply (Hend _ _ _ (emit_adds (PutPage (buf_cookie b)) w2) B eq_refl). }
  destruct lro.
  - destruct (z2b _); [set (l := _ - _); destruct (add_frags_adds bs 1 (emit (Attach (buf_cookie b) l) w2)) as (B & E1 & E2)
                      |destruct (add_frags_adds bs 0 (emit (PutPage (buf_cookie b)) w2)) as (B & E1 & E2)]; split_and!; try done.
    + apply (Hend _ _ _ (emit_adds (Attach (buf_cookie b) l) w2) B eq_refl).
    + apply (Hend _ _ _ (emit_adds (PutPage (buf_cookie b)) w2) B eq_refl).
  - destruct (add_frags_adds bs 0 (emit (Attach (buf_cookie b) (buf_len b)) w2)) as (B & E1 & E2). split_and!; try done.
    apply (Hend _ _ _ (emit_adds (Attach (buf_cookie b) (buf_len b)) w2) B eq_refl).
Qed.

Lemma alloc_is_frame : alloc_frame alloc.
Proof.
  intros w c. unfold bpf_hv_rx_pkt_alloc. destruct (take _ _) as [|b bs]; [exists (packet c); by destruct c|].
  case_if; [exists (packet c); by destruct c|]. destruct lro; by eexists.
Qed.

(** ** The invariant *)

(** The buffers [ps] are with the device and [leaked] of the [n] buffers are
    neither there nor free; the pages and mappings of all other buffers have
    been given up. *)
Record raccounted (q : bpfhv_rxq T) (ps : list rx_key) (leaked : Z) : Prop := {
  ra_free : 0 <= rx_free_bufs q /\ 0 <= leaked /\ rx_free_bufs q + Z.of_nat (length ps) + leaked = n;
  ra_pages : gets (events (rest q)) ≡ₚ gone (events (rest q)) ++ ps.*1;
  ra_dma : rmaps (events (rest q)) ≡ₚ runmaps (events (rest q)) ++ ps.*2;
  ra_nz : Forall (fun k : rx_key => k.1 <> 0) ps;
}.

(** Every packet that was allocated has been handed to the stack, in order. *)
Definition delivered (w : world) : Prop :=
  received (events w) = reverse (filter (fun s => s <> 0) (skbs <$> seq 0 (n_skbs w))).

Record rxq_ok (q : bpfhv_rxq T) (leaked : Z) : Prop := {
  rq_size : full_size (ctx q);
  rq_ok : rx_ok (opaque (ctx q));
  rq_acc : raccounted q (pend q) leaked;
  rq_recv : delivered (rest q);
}.

Lemma raccounted_perm q ps ps' l : ps ≡ₚ ps' -> raccounted q ps l -> raccounted q ps' l.
Proof.
  intros HP [H1 H2 H3 H4]. constructor; [by rewrite <- HP|by rewrite H2, HP|by rewrite H3, HP|by rewrite <- HP].
Qed.

Lemma raccounted_same q q' ps l : rx_free_bufs q' = rx_free_bufs q -> events (rest q') = events (rest q) -> raccounted q ps l -> raccounted q' ps l.
Proof. intros Ef Ee [H1 H2 H3 H4]. constructor; rewrite ?Ef, ?Ee; done. Qed.

(** An action that adds and removes buffers. *)
Lemma raccounted_adds q q' ps l ks ex rem ps' l' :
  raccounted q ps l -> adds (rest q) (rest q') (ks.*1 ++ ex) (rem.*1 ++ ex) ks.*2 rem.*2 ->
  ps ++ ks ≡ₚ rem ++ ps' -> Forall (fun k : rx_key => k.1 <> 0) ks ->
  0 <= rx_free_bufs q' -> 0 <= l' -> rx_free_bufs q' + Z.of_nat (length ps') + l' = n -> raccounted q' ps' l'.
Proof.
  intros [H1 H2 H3 H4] [A1 A2 A3 A4 _] HP Hk Hf Hl Hn. constructor; [done| | |].
  - rewrite A1, A2, H2. transitivity (gone (events (rest q)) ++ (ps ++ ks).*1 ++ ex).
    + by rewrite fmap_app, <- !app_assoc.
    + rewrite HP, fmap_app, <- !app_assoc. f_equiv. f_equiv. apply Permutation_app_comm.
  - rewrite A3, A4, H3. transitivity (runmaps (events (rest q)) ++ (ps ++ ks).*2).
    + by rewrite fmap_app, <- !app_assoc.
    + by rewrite HP, fmap_app, <- !app_assoc.
  - assert (HF : Forall (fun k : rx_key => k.1 <> 0) (ps ++ ks)) by (by apply list.Forall_app).
    rewrite HP in HF. by apply list.Forall_app in HF as [_ HF].
Qed.

(** ** Filling the queue *)

Hypothesis pages_nz : forall i k, al_kbuf (pages i) = Some k -> k <> 0.

Lemma ctx_keys_put (c : bpfhv_context T) i b :
  full_size c -> 0 <= i < BPFHV_MAX_RX_BUFS ->
  rx_key_of <$> take (Z.to_nat (i + 1)) (bufs (put_buf i b c)) = (rx_key_of <$> take (Z.to_nat i) (bufs c)) ++ [rx_key_of b].
Proof.
  intros Hs Hi. simpl. replace (Z.to_nat (i + 1)) with (S (Z.to_nat i)) by lia.
  rewrite (take_S_r _ _ b) by (apply list_lookup_insert_eq; rewrite Hs; lia). rewrite take_insert_ge by lia. by rewrite fmap_app.
Qed.

Lemma prepare_spec m : forall i (q : bpfhv_rxq T),
  full_size (ctx q) -> 0 <= i -> i + Z.of_nat m <= BPFHV_MAX_RX_BUFS ->
  let '(i', oom, q') := prepare pages lro m i q in
  exists ks ex, i' = i + Z.of_nat (length ks) /\ (length ks <= m)%nat /\ full_size (ctx q') /\ opaque (ctx q') = opaque (ctx q) /\
    rx_free_bufs q' = rx_free_bufs q /\ n_skbs (rest q') = n_skbs (rest q) /\
    (rx_key_of <$> take (Z.to_nat i') (bufs (ctx q'))) = (rx_key_of <$> take (Z.to_nat i) (bufs (ctx q))) ++ ks /\
    adds (rest q) (rest q') (ks.*1 ++ ex) ex ks.*2 [] /\ Forall (fun k : rx_key => k.1 <> 0) ks /\
    ((forall j, is_Some (al_kbuf (pages j)) -> is_Some (al_dma (pages j))) -> oom = false -> length ks = m) /\
    ((forall j, is_Some (al_kbuf (pages j))) -> oom = false).
Proof.
  induction m as [|m IH]; intros i q Hs Hi Hm; simpl.
  { exists [], []. split_and!; try done; [simpl; lia|by rewrite app_nil_r|by apply adds_nil]. }
  set (a := pages (n_pages (rest q))). set (q0 := mk_rxq (ctx q) (rx_free_bufs q) _ _).
  pose proof (adds_nil (rest q) (rest q0) eq_refl) as A0. destruct (al_kbuf a) as [k|] eqn:Ek.
  2: { exists [], []. split_and!; try done; [simpl; lia|simpl; lia|by rewrite app_nil_r|]. intros Hall. specialize (Hall (n_pages (rest q))). fold a in Hall.
       rewrite Ek in Hall. by destruct Hall. }
  pose proof (emit_adds (GetPage k) (rest q0)) as A1. simpl in A1. destruct (al_dma a) as [dma|] eqn:Ed.
  2: { exists [], [k]. pose proof (emit_adds (PutPage k) (emit (GetPage k) (rest q0))) as A2. simpl in A2.
       split_and!; try done; [simpl; lia|simpl; lia|by rewrite app_nil_r| |].
       - exact (adds_trans _ _ _ _ _ _ _ _ _ _ _ A0 (adds_trans _ _ _ _ _ _ _ _ _ _ _ A1 A2)).
       - intros Hd. specialize (Hd (n_pages (rest q))). fold a in Hd. rewrite Ek, Ed in Hd. destruct (Hd ltac:(by eexists)) as [? ?]. done. }
  set (b := mk_buf k dma k _). pose proof (emit_adds (DmaMap dma (bufsize lro)) (emit (GetPage k) (rest q0))) as A2. simpl in A2.
  set (q1 := set_ctx _ (log _ (log _ q0))).
  assert (Hs1 : full_size (ctx q1)) by (unfold full_size; simpl; rewrite length_insert; exact Hs).
  specialize (IH (i + 1) q1 Hs1 ltac:(lia) ltac:(lia)). destruct (prepare pages lro m (i + 1) q1) as [[i' oom] q'].
  destruct IH as (ks & ex & -> & Hl & H1 & H2 & H3 & H4 & H5 & H6 & H7 & H8 & H9). exists ((k, dma) :: ks), ex. simpl. split_and!; try done; try lia.
  - rewrite H5. unfold q1. cbn [ctx set_ctx log]. rewrite ctx_keys_put by (done || lia). by rewrite <- app_assoc.
  - exact (adds_trans _ _ _ _ _ _ _ _ _ _ _ A0 (adds_trans _ _ _ _ _ _ _ _ _ _ _ (adds_trans _ _ _ _ _ _ _ _ _ _ _ A1 A2) H6)).
  - constructor; [|done]. by apply (pages_nz (n_pages (rest q))).
  - intros Hd Ho. f_equal. by apply H8.
Qed.

(** Preparing some buffers and publishing them. *)
Definition refill_once (q : bpfhv_rxq T) (i : Z) : bpfhv_rxq T :=
  let q := set_free (u64 (rx_free_bufs q - i)) (set_ctx (set_num_bufs i (ctx q)) q) in
  let q := set_ctx (snd (rx_publish (ctx q))) q in
  if has_flag (oflags (ctx q)) BPFHV_OFLAGS_KICK_NEEDED then log Doorbell q else q.

(** Nothing but the queue of the device and the free buffers changes. *)
Record refilled (q q' : bpfhv_rxq T) (leaked : Z) : Prop := {
  rf_ok : rxq_ok q' leaked;
  rf_skbs : n_skbs (rest q') = n_skbs (rest q);
  rf_done : rx_done (opaque (ctx q)) <= rx_done (opaque (ctx q'));
  rf_quiet : rx_quiet (opaque (ctx q)) -> rx_quiet (opaque (ctx q')) /\ rx_done (opaque (ctx q')) = rx_done (opaque (ctx q));
}.

Lemma refill_once_spec q leaked m :
  rxq_ok q leaked -> 0 < Z.of_nat m <= rx_free_bufs q -> Z.of_nat m <= BPFHV_MAX_RX_BUFS ->
  let '(i, oom, q1) := prepare pages lro m 0 q in
  let q' := refill_once q1 i in
  refilled q q' leaked /\ 0 <= i <= Z.of_nat m /\ rx_free_bufs q' = rx_free_bufs q - i /\
  ((forall j, is_Some (al_kbuf (pages j)) -> is_Some (al_dma (pages j))) -> oom = false -> i = Z.of_nat m) /\
  ((forall j, is_Some (al_kbuf (pages j))) -> oom = false).
Proof.
  intros [Hs Hok Hacc Hd] Hm Hmax. pose proof (prepare_spec m 0 q Hs ltac:(lia) ltac:(lia)) as Hp.
  destruct (prepare pages lro m 0 q) as [[i oom] q1]. destruct Hp as (ks & ex & Ei & Hl & Hs1 & Eo & Ef & En & Ek & Ha & Hnz & Ho1 & Ho2).
  pose proof (ra_free _ _ _ Hacc) as (F1 & F2 & F3). pose proof rx_size_law as Hn16. unfold refill_once.
  set (q2 := set_free _ _). rewrite Z.add_0_l in Ei.
  pose proof (rx_publish_law (ctx q2) Hs1 ltac:(simpl; by rewrite Eo) ltac:(simpl; lia) ltac:(simpl; rewrite Eo; lia)) as Hpub.
  destruct (rx_publish (ctx q2)) as [r c]. destruct Hpub as (_ & Hs2 & Hok2 & HP2 & Hd2 & Hq2). cbn [snd]. set (q3 := set_ctx c q2).
  assert (Hkeys : ctx_keys (ctx q2) = ks) by exact Ek. rewrite Hkeys in HP2. simpl in HP2, Hd2, Hq2. rewrite Eo in HP2, Hd2, Hq2.
  assert (Hfree : u64 (rx_free_bufs q1 - i) = rx_free_bufs q - i) by (rewrite Ef; apply u64_id; unfold is_u64; lia).
  assert (Hq3 : refilled q q3 leaked).
  { constructor; [constructor|exact En|done|done]; try done.
    - apply (raccounted_perm _ (ks ++ pend q)); [by symmetry|].
      apply (raccounted_adds q q3 (pend q) leaked ks ex [] (ks ++ pend q) leaked Hacc Ha); try done.
      + rewrite app_nil_l. apply Permutation_app_comm.
      + simpl. rewrite Hfree. lia.
      + simpl. rewrite Hfree, length_app. lia.
    - unfold delivered. change (rest q3) with (rest q1). rewrite En, (ad_received _ _ _ _ _ _ Ha). exact Hd. }
  destruct Hq3 as [Hok3 R2 R3 R4].
  split_and!; [|lia|lia| |intros Hdm Ho; specialize (Ho1 Hdm Ho); lia|done].
  - case_if; [|by constructor]. constructor; try done. destruct Hok3 as [B1 B2 [C1 C2 C3 C4] B4]. constructor; try done.
  - case_if; simpl; done.
Qed.

Lemma refill_unfold fuel (q : bpfhv_rxq T) :
  bpfhv_rx_refill pages lro (S fuel) q =
  if 0 <? rx_free_bufs q then
    let m := Z.to_nat (Z.min BPFHV_MAX_RX_BUFS (rx_free_bufs q)) in
    let '(i, oom, q1) := prepare pages lro m 0 q in
    if oom : bool then Some (refill_once q1 i) else bpfhv_rx_refill pages lro fuel (refill_once q1 i)
  else Some q.
Proof.
  simpl. case_if; [|done]. assert (Hm : (if BPFHV_MAX_RX_BUFS <? rx_free_bufs q then BPFHV_MAX_RX_BUFS else rx_free_bufs q) =
    Z.min BPFHV_MAX_RX_BUFS (rx_free_bufs q)) by (case_if; lia). rewrite Hm.
  destruct (prepare pages lro _ 0 q) as [[i oom] q1]. unfold refill_once. by destruct (rx_publish _) as [r c].
Qed.

Hypothesis dma_ok : forall j, is_Some (al_kbuf (pages j)) -> is_Some (al_dma (pages j)).

Lemma refill_spec fuel : forall q leaked,
  rxq_ok q leaked -> rx_free_bufs q < Z.of_nat fuel ->
  exists q', bpfhv_rx_refill pages lro fuel q = Some q' /\ refilled q q' leaked /\
    ((forall j, is_Some (al_kbuf (pages j))) -> rx_free_bufs q' = 0).
Proof.
  induction fuel as [|fuel IH]; intros q leaked Hok Hf; [pose proof (ra_free _ _ _ (rq_acc _ _ Hok)); lia|].
  rewrite refill_unfold. pose proof (ra_free _ _ _ (rq_acc _ _ Hok)) as (F1 & _). case_if.
  2: { exists q. split_and!; [done|by constructor|]. intros _. lia. }
  set (m := Z.to_nat _). cbv zeta. pose proof (refill_once_spec q leaked m Hok ltac:(unfold m, BPFHV_MAX_RX_BUFS; lia) ltac:(unfold m, BPFHV_MAX_RX_BUFS; lia)) as Hr.
  destruct (prepare pages lro m 0 q) as [[i oom] q1]. destruct Hr as (Hr & Hi & Ef & Ho1 & Ho2). destruct oom.
  - exists (refill_once q1 i). split_and!; try done. intros Hall. by specialize (Ho2 Hall).
  - specialize (Ho1 dma_ok eq_refl). destruct (IH (refill_once q1 i) leaked (rf_ok _ _ _ Hr)) as (q' & E & Hr' & Hz); [unfold m, BPFHV_MAX_RX_BUFS in *; lia|].
    exists q'. split_and!; try done. destruct Hr as [R1 R2 R3 R4], Hr' as [S1 S2 S3 S4]. constructor; [done|congruence|lia|].
    intros Hqt. destruct (R4 Hqt) as [Hqt1 E1]. destruct (S4 Hqt1) as [Hqt2 E2]. split; [done|congruence].
Qed.

(** ** Receiving packets *)

Lemma delivered_next w w' :
  delivered w -> n_skbs w' = S (n_skbs w) ->
  received (events w') = (if skbs (n_skbs w) =? 0 then received (events w) else skbs (n_skbs w) :: received (events w)) -> delivered w'.
Proof.
  unfold delivered. intros Hd En Er. rewrite Er, En, seq_S, fmap_app, list.filter_app, reverse_app, <- Hd. simpl.
  destruct (Z.eqb_spec (skbs (n_skbs w)) 0) as [E|E].
  - rewrite list.filter_cons_False by (by intros ?). done.
  - rewrite list.filter_cons_True by done. done.
Qed.

Lemma postproc_spec q leaked :
  rxq_ok q leaked ->
  let q' := match rx_postproc with Some prog => set_ctx (snd (prog (ctx q))) q | None => q end in refilled q q' leaked /\ rx_free_bufs q' = rx_free_bufs q /\ rest q' = rest q.
Proof.
  intros Hok. destruct rx_postproc as [prog|] eqn:E; [|split_and!; try done; by constructor]. cbv zeta. split_and!; try done.
  destruct Hok as [H1 H2 H3 H4]. destruct (rx_postproc_law prog (ctx q) E H1 H2) as (L1 & L2 & L3 & L4 & L5). constructor; try done.
  constructor; try done. apply (raccounted_perm _ (pend q)); [by symmetry|]. by apply (raccounted_same q).
Qed.

(** The packet has been built, or not. *)
Lemma complete_spec q leaked :
  rxq_ok q leaked ->
  let '(ret, c, w) := rx_complete world alloc (rest q) (ctx q) in
  let q' := mk_rxq c (rx_free_bufs q) (alloc_frag q) w in
  (rx_quiet (opaque (ctx q)) -> rx_quiet (opaque c)) /\
  ((ret = 0 /\ rxq_ok q' leaked /\ w = rest q /\ (rx_quiet (opaque (ctx q)) -> rx_done (opaque c) = 0)) \/
   (ret = - ENOMEM /\ (exists j, skbs j = 0) /\ 1 <= num_bufs c /\ rxq_ok q' (leaked + num_bufs c) /\
    received (events w) = received (events (rest q))) \/
   (let skb := packet c in
    ret = 1 /\ skb <> 0 /\ 1 <= num_bufs c <= BPFHV_MAX_RX_BUFS /\
    rxq_ok (log (Receive skb) (set_free (u64 (rx_free_bufs q + num_bufs c)) q')) leaked /\
    received (events w) = received (events (rest q)) /\
    (rx_quiet (opaque (ctx q)) -> rx_done (opaque c) = rx_done (opaque (ctx q)) - num_bufs c))).
Proof.
  intros [Hs Hok Hacc Hd]. pose proof (rx_complete_law world alloc (rest q) (ctx q) alloc_is_frame Hs Hok) as Hlaw.
  destruct (rx_complete world alloc (rest q) (ctx q)) as [[ret c] w]. destruct Hlaw as (Hs' & Hok' & Hq & Hcases). cbv zeta. split; [done|].
  pose proof (ra_free _ _ _ Hacc) as (F1 & F2 & F3). pose proof rx_size_law as Hn.
  destruct Hcases as [(-> & -> & HP & Hdn & Hq0)|(c1 & Hs1 & Hn1 & HP & Hdn & Hq0 & Ec & Ew & Er)].
  { left. split_and!; try done. constructor; try done. apply (raccounted_perm _ (pend q)); [by symmetry|]. by apply (raccounted_same q). }
  pose proof (alloc_spec (rest q) c1 Hs1 Hn1) as Ha. destruct (alloc (rest q) c1) as [[r c2] w2]. simpl in Ec, Ew, Er. subst c2 w2.
  destruct Ha as (Ha & _ & En & Hr). set (skb := skbs (n_skbs (rest q))) in *.
  assert (Hlen : Z.of_nat (length (pend q)) = num_bufs c1 + Z.of_nat (length (rx_pend (opaque c)))).
  { rewrite HP, length_app. unfold ctx_keys, ctx_bufs. rewrite length_fmap, length_take, Hs1. lia. }
  right. destruct (Z.eqb_spec skb 0) as [E0|E0]; [left|right]; destruct Hr as [-> Ec].
  - assert (ret = - ENOMEM) as -> by done. subst c. split_and!; try done; [by exists (n_skbs (rest q))|lia| |apply Ha].
    constructor; try done.
    + apply (raccounted_adds q _ (pend q) leaked [] [] (ctx_keys c1) _ _ Hacc); simpl; rewrite ?app_nil_r; try done; lia.
    + apply (delivered_next (rest q)); [done|done|]. fold skb. rewrite E0. simpl. apply Ha.
  - assert (ret = 1) as -> by done. subst c. simpl. split_and!; try done; [lia|lia| |apply Ha].
    constructor; try done.
    + assert (Hf : u64 (rx_free_bufs q + num_bufs c1) = rx_free_bufs q + num_bufs c1) by (apply u64_id; unfold is_u64; lia).
      assert (Hb : raccounted (set_free (rx_free_bufs q + num_bufs c1) (mk_rxq (set_packet skb c1) 0 (alloc_frag q) w)) (rx_pend (opaque c1)) leaked).
      { apply (raccounted_adds q _ (pend q) leaked [] [] (ctx_keys c1) _ _ Hacc); simpl; rewrite ?app_nil_r; try done; simpl in Hlen; lia. }
      destruct Hb as [B1 B2 B3 B4]. constructor; simpl in *; rewrite ?Hf; done.
    + apply (delivered_next (rest q)); [done|done|]. fold skb. rewrite (proj2 (Z.eqb_neq _ _) E0). simpl. f_equal. apply Ha.
Qed.

Abbreviation n_received q := (Z.of_nat (length (received (events (rest q))))).

Lemma clean_spec m : forall count q leaked,
  rxq_ok q leaked ->
  exists k q' leaked', clean_loop pages skbs lro tailroom MAX_SKB_FRAGS n m count q = Some (count + k, q') /\ 0 <= k <= Z.of_nat m /\
    rxq_ok q' leaked' /\ leaked <= leaked' /\ ((forall j, skbs j <> 0) -> leaked' = leaked) /\
    n_received q' = n_received q + k /\
    (rx_quiet (opaque (ctx q)) -> rx_quiet (opaque (ctx q')) /\
       ((forall j, skbs j <> 0) -> rx_done (opaque (ctx q)) <= Z.of_nat m -> rx_done (opaque (ctx q')) = 0)).
Proof.
  induction m as [|m IH]; intros count q leaked Hok.
  { exists 0, q, leaked. simpl. split_and!; try done; [f_equal; f_equal; lia|lia|]. intros Hq. split; [done|]. intros _ Hd.
    pose proof (rx_pend_law _ (rq_ok _ _ Hok)). lia. }
  cbn [clean_loop]. pose proof (complete_spec q leaked Hok) as Hc. destruct (rx_complete world alloc (rest q) (ctx q)) as [[ret c] w].
  destruct Hc as (Hqt & [(-> & Hok1 & -> & Hd)|[(-> & [j Hj] & Hnb & Hok1 & Hr)|(-> & Hnz & Hnb & Hok1 & Hr & Hd)]]).
  - exists 0. eexists _, leaked. simpl. split_and!; try done; [do 2 f_equal; lia|simpl; lia|]. intros Hq. split; [by apply Hqt|]. intros _ _. by apply Hd.
  - change (s32 (- ENOMEM) =? 0) with false. change (s32 (- ENOMEM) <? 0) with true. cbv iota.
    exists 0. eexists _, (leaked + num_bufs c). split_and!; [do 2 f_equal; lia|lia|lia|done|lia|intros Hall; by destruct (Hall j)|simpl; rewrite Hr; lia|].
    intros Hq. split; [by apply Hqt|]. intros Hall. by destruct (Hall j).
  - change (s32 1 =? 0) with false. change (s32 1 <? 0) with false. cbv iota. cbn [ctx rx_free_bufs set_free]. rewrite (proj2 (Z.eqb_neq _ _) Hnz).
    set (q1 := set_free _ _). set (q2 := match rx_postproc with Some _ => _ | None => q1 end).
    assert (Hq2 : refilled q1 (log (Receive (packet c)) q2) leaked /\ received (events (rest (log (Receive (packet c)) q2))) = packet c :: received (events (rest q))).
    { destruct (postproc_spec (log (Receive (packet c)) q1) leaked Hok1) as (R & Ef & Er).
      assert (E : log (Receive (packet c)) q2 = match rx_postproc with Some prog => set_ctx (snd (prog (ctx (log (Receive (packet c)) q1)))) (log (Receive (packet c)) q1)
        | None => log (Receive (packet c)) q1 end) by (unfold q2; by destruct rx_postproc).
      rewrite E. split; [|rewrite Er; simpl; by rewrite Hr]. destruct R as [R1 R2 R3 R4]. by constructor. }
    clearbody q2. destruct Hq2 as [[Hok2 Es2 Hd2 Hq2] Er2]. set (q3 := log _ q2) in *.
    assert (Href : exists q4, (if 16 <=? rx_free_bufs q3 then bpfhv_rx_refill pages lro (refill_fuel n) q3 else Some q3) = Some q4 /\ refilled q3 q4 leaked /\
      received (events (rest q4)) = received (events (rest q3))).
    { case_if; [|exists q3; split_and!; try done; by constructor]. pose proof (ra_free _ _ _ (rq_acc _ _ Hok2)) as (F1 & F2 & F3).
      destruct (refill_spec (refill_fuel n) q3 leaked Hok2) as (q4 & E & R & _); [unfold refill_fuel; lia|]. exists q4. split_and!; try done.
      rewrite (rq_recv _ _ (rf_ok _ _ _ R)), (rq_recv _ _ Hok2). by rewrite (rf_skbs _ _ _ R). }
    destruct Href as (q4 & -> & [Hok4 Es4 Hd4 Hq4] & Er4). cbn [mbind option_bind].
    destruct (IH (count + 1) q4 leaked Hok4) as (k & q' & l' & E & Hk & Hok' & Hl & Hl' & Hn & Hq').
    exists (k + 1), q', l'. split_and!; try done; try lia.
    + rewrite E. do 2 f_equal. lia.
    + rewrite Hn, Er4, Er2. simpl length. lia.
    + intros Hq. apply Hqt in Hq as Hq1. destruct (Hq2 Hq1) as [Hq3 E3]. destruct (Hq4 Hq3) as [Hq5 E5]. destruct (Hq' Hq5) as [Hq6 E6].
      split; [done|]. intros Hall Hle. apply E6; [done|]. rewrite E5, E3. change (ctx q1) with c. rewrite (Hd Hq). lia.
Qed.

(** C9: [bpfhv_rx_clean], for programs that keep the interface [RxProgsOk] (as
    those of vring_packed do, DriverVringRx), when no DMA mapping of a receive buffer fails (when one
    fails again and again, the refill never ends, [rx_refill_diverges]) and a
    page is never at address 0: it ends, and each packet that it counts has been built from
    completed buffers and handed to the stack exactly once, in order, and all
    packets that were ever allocated have been handed over; each page is given
    up and each DMA mapping removed exactly once; the buffers that are not with
    the device are counted as free, but for those of packets for which no
    [sk_buff] could be allocated: these are lost for good, and none is lost when
    no such allocation fails. *)
Theorem rx_clean_correct budget q leaked :
  rxq_ok q leaked -> 0 <= budget ->
  exists k q' leaked', bpfhv_rx_clean pages skbs lro tailroom MAX_SKB_FRAGS n budget q = Some (k, q') /\ 0 <= k <= budget /\
    rxq_ok q' leaked' /\ n_received q' = n_received q + k /\ leaked <= leaked' /\ ((forall j, skbs j <> 0) -> leaked' = leaked).
Proof.
  intros Hok Hb. unfold bpfhv_rx_clean. destruct (clean_spec (Z.to_nat budget) 0 q leaked Hok) as (k & q' & l' & E & Hk & H1 & H2 & H3 & H4 & _).
  exists k, q', l'. rewrite Z.add_0_l in E. split_and!; try done; lia.
Qed.

(** The interrupt program keeps the accounts. *)
Lemma rx_intrs_spec q leaked m :
  rxq_ok q leaked -> 0 <= m <= n ->
  let '(ret, c) := rx_intrs (set_min_completed m (ctx q)) in
  rxq_ok (set_ctx c q) leaked /\ (0 < m -> (ret = 1 /\ m <= rx_done (opaque c)) \/ (ret = 0 /\ rx_armed (opaque c) m)).
Proof.
  intros [H1 H2 H3 H4] Hm. pose proof (rx_intrs_law (set_min_completed m (ctx q)) H1 H2 Hm) as Hlaw.
  destruct (rx_intrs _) as [ret c]. destruct Hlaw as (L1 & L2 & L3 & _ & L5). split; [|done]. constructor; try done.
  apply (raccounted_perm _ (pend q)); [by symmetry|]. by apply (raccounted_same q).
Qed.

(** C10: No wake-up is lost in [bpfhv_rx_poll], for programs that keep the
    interface [RxProgsOk], when no DMA mapping of a receive
    buffer fails (otherwise the refill may never end, [rx_refill_diverges]) and
    a page is never at address 0: the poll ends, and when it has used less than its
    budget, NAPI is scheduled again because a buffer is completed, or an
    interrupt comes when the next one is. *)
Theorem rx_poll_correct budget q leaked :
  rxq_ok q leaked -> 0 <= budget ->
  exists k more q' leaked', bpfhv_rx_poll pages skbs lro tailroom MAX_SKB_FRAGS n budget q = Some (k, more, q') /\ rxq_ok q' leaked' /\
    n_received q' = n_received q + k /\ 0 <= k <= budget /\
    (k < budget -> (more = true /\ 1 <= rx_done (opaque (ctx q'))) \/ (more = false /\ rx_armed (opaque (ctx q')) 1)).
Proof.
  intros Hok Hb. unfold bpfhv_rx_poll, bpfhv_rx_clean. pose proof rx_size_law as Hn. pose proof (rx_intrs_spec q leaked 0 Hok ltac:(lia)) as Hi.
  destruct (rx_intrs (set_min_completed 0 (ctx q))) as [r0 c0]. destruct Hi as [Hok0 _]. cbn [snd]. set (q0 := set_ctx c0 q) in *.
  destruct (clean_spec (Z.to_nat budget) 0 q0 leaked Hok0) as (k & q1 & l1 & E & Hk & Hok1 & _ & _ & Hr & _). rewrite Z.add_0_l in E.
  rewrite E. cbn [mbind option_bind]. case_if.
  - pose proof (rx_intrs_spec q1 l1 1 Hok1 ltac:(lia)) as Hi. destruct (rx_intrs (set_min_completed 1 (ctx q1))) as [r c]. destruct Hi as [Hok2 Hi].
    eexists k, _, _, l1. split_and!; try done; try lia. intros _. destruct (Hi ltac:(lia)) as [[-> ?]|[-> ?]]; [by left|by right].
  - eexists k, false, q1, l1. split_and!; try done; try lia.
Qed.

(** ** Closing *)

Lemma rx_dealloc_spec fuel : forall q ps leaked,
  full_size (ctx q) -> rx_rec (opaque (ctx q)) ps -> raccounted q ps leaked -> Z.of_nat (length ps) < Z.of_nat fuel ->
  exists q', rx_dealloc fuel q = Some q' /\ raccounted q' [] leaked /\ received (events (rest q')) = received (events (rest q)) /\
    n_skbs (rest q') = n_skbs (rest q).
Proof.
  induction fuel as [|fuel IH]; intros q ps leaked Hs Hr Hacc Hf; [lia|]. cbn [rx_dealloc].
  pose proof (rx_reclaim_law (ctx q) ps Hs Hr) as Hlaw. destruct (rx_reclaim (ctx q)) as [ret c].
  destruct Hlaw as [[-> ->]|(-> & Hs' & Hn & ps' & HP & Hr')].
  { change (s32 0 =? 0) with true. cbv iota. exists (set_ctx c q). split_and!; try done. by apply (raccounted_same q). }
  change (s32 1 =? 0) with false. change (s32 1 <? 0) with false. cbv iota. cbn [ctx set_ctx]. fold (ctx_bufs c).
  pose proof (ra_free _ _ _ Hacc) as (F1 & F2 & F3). pose proof rx_size_law as Hsz.
  assert (Hlen : Z.of_nat (length ps) = num_bufs c + Z.of_nat (length ps')).
  { rewrite HP, length_app. unfold ctx_keys, ctx_bufs. rewrite length_fmap, length_take, Hs'. lia. }
  assert (Hnz : forallb (fun b => z2b (buf_cookie b)) (ctx_bufs c) = true).
  { apply forallb_forall. intros b Hb. pose proof (ra_nz _ _ _ Hacc) as HF. rewrite HP in HF. apply list.Forall_app in HF as [HF _].
    unfold ctx_keys in HF. rewrite list.Forall_fmap, list.Forall_forall in HF. specialize (HF b (proj2 (list_elem_of_In _ _) Hb)). simpl in HF.
    unfold z2b. by rewrite (proj2 (Z.eqb_neq _ _) HF). }
  rewrite Hnz. destruct (drop_bufs_adds (ctx_bufs c) (rest q)) as (Ha & _ & En). set (w := drop_bufs (ctx_bufs c) (rest q)) in *.
  cbn [ctx rest rx_free_bufs set_ctx]. rewrite u64_id by (unfold is_u64; lia). set (q1 := set_free _ _).
  assert (Hacc1 : raccounted q1 ps' leaked).
  { apply (raccounted_adds q q1 ps leaked [] [] (ctx_keys c) ps' leaked Hacc); simpl; rewrite ?app_nil_r; try done; try lia.
    unfold ctx_keys. rewrite <- !list_fmap_compose. exact Ha. }
  destruct (IH q1 ps' leaked Hs' Hr' Hacc1 ltac:(lia)) as (q' & E & H1 & H2 & H3). exists q'. split_and!; try done.
  - rewrite H2. apply Ha.
  - by rewrite H3.
Qed.

(** Reclaiming leaves the page fragment alone. *)
Lemma drop_bufs_frags bs : forall w, put_frags (events (drop_bufs bs w)) = put_frags (events w).
Proof. induction bs as [|b bs IH]; intros w; [done|]. unfold drop_bufs. simpl. exact (IH _). Qed.

Lemma rx_dealloc_frag fuel : forall (q q' : bpfhv_rxq T),
  rx_dealloc fuel q = Some q' -> alloc_frag q' = alloc_frag q /\ put_frags (events (rest q')) = put_frags (events (rest q)).
Proof.
  induction fuel as [|fuel IH]; intros q q' E; [done|]. cbn [rx_dealloc] in E. destruct (rx_reclaim (ctx q)) as [ret c].
  do 2 (case_if_in E; [by injection E as <-|]). case_if_in E; [|done]. destruct (IH _ _ E) as [-> ->]. split; [done|]. simpl. apply drop_bufs_frags.
Qed.

Lemma put_alloc_frag_spec (q : bpfhv_rxq T) :
  let q' := put_alloc_frag q in
  alloc_frag q' = 0 /\ put_frags (events (rest q')) = (if alloc_frag q =? 0 then [] else [alloc_frag q]) ++ put_frags (events (rest q)) /\
  ctx q' = ctx q /\ rx_free_bufs q' = rx_free_bufs q /\ adds (rest q) (rest q') [] [] [] [] /\ n_skbs (rest q') = n_skbs (rest q).
Proof.
  unfold put_alloc_frag, z2b. destruct (Z.eqb_spec (alloc_frag q) 0) as [E|E]; simpl; split_and!; try done; [by apply adds_nil|].
  exact (emit_adds (PutFrag (alloc_frag q)) (rest q)).
Qed.

(** C11: For programs that keep the interface [RxProgsOk], when the device has
    been disabled, no DMA mapping fails, a page is never at address 0 and no
    allocation of an [sk_buff] ever fails, closing the
    interface takes back every receive buffer: all are free again but for those
    lost before, no page is held and no DMA mapping is left, every packet that
    was allocated has been handed to the stack, and the page from which the
    buffers are cut, if there is one, is given up once. *)
Theorem rx_close_releases q leaked :
  rxq_ok q leaked -> rx_quiet (opaque (ctx q)) -> (forall j, skbs j <> 0) ->
  exists k q1 q', bpfhv_rx_clean pages skbs lro tailroom MAX_SKB_FRAGS n n q = Some (k, q1) /\
    rx_close pages skbs lro tailroom MAX_SKB_FRAGS n q = Some q' /\ rx_free_bufs q' = n - leaked /\
    gets (events (rest q')) ≡ₚ gone (events (rest q')) /\ rmaps (events (rest q')) ≡ₚ runmaps (events (rest q')) /\ delivered (rest q') /\
    alloc_frag q' = 0 /\ put_frags (events (rest q')) = (if alloc_frag q1 =? 0 then [] else [alloc_frag q1]) ++ put_frags (events (rest q1)).
Proof.
  intros Hok Hq Hskb. unfold rx_close, bpfhv_rx_clean. destruct (clean_spec (Z.to_nat n) 0 q leaked Hok) as (k & q1 & l1 & E & _ & Hok1 & _ & El & _ & Hq1).
  rewrite (El Hskb) in Hok1. destruct (Hq1 Hq) as [Hqt Hd]. pose proof (rx_pend_law _ (rq_ok _ _ Hok)) as Hpl.
  pose proof (ra_free _ _ _ (rq_acc _ _ Hok)) as (F1 & F2 & F3). pose proof (ra_free _ _ _ (rq_acc _ _ Hok1)) as (G1 & G2 & G3).
  specialize (Hd Hskb ltac:(lia)). rewrite E. cbn [mbind option_bind]. destruct Hok1 as [Hs1 Hr1 Hacc1 Hdel1].
  destruct (rx_dealloc_spec (refill_fuel n) q1 (pend q1) leaked Hs1 (rx_rec_start _ Hr1 Hqt Hd) Hacc1) as (q2 & E' & [A1 A2 A3 _] & B1 & B2).
  { unfold refill_fuel. lia. }
  destruct (rx_dealloc_frag _ _ _ E') as [C1 C2]. destruct (put_alloc_frag_spec q2) as (D1 & D2 & _ & D4 & [P1 P2 P3 P4 P5] & D6).
  rewrite E'. cbn [mbind option_bind]. exists (0 + k), q1, (put_alloc_frag q2). rewrite !app_nil_r in *. simpl in A1.
  split_and!; try done; [lia|by rewrite P1, P2|by rewrite P3, P4| |by rewrite D2, C1, C2].
  unfold delivered. by rewrite P5, D6, B1, B2.
Qed.

(** ** When the allocators fail *)

(** A receive queue that has run out of buffers stays empty: when a refill
    has failed for lack of memory and the device has used up what it had, no
    later poll allocates a buffer, however much memory there is by then, since
    the refill is only called after a packet has been received. *)
Theorem rx_starves budget q leaked :
  rxq_ok q leaked -> pend q = [] -> 0 <= budget ->
  exists more q', bpfhv_rx_poll pages skbs lro tailroom MAX_SKB_FRAGS n budget q = Some (0, more, q') /\
    pend q' = [] /\ rxq_ok q' leaked /\ rx_free_bufs q' = rx_free_bufs q /\ n_pages (rest q') = n_pages (rest q).
Proof.
  intros Hok Hp Hb. unfold bpfhv_rx_poll, bpfhv_rx_clean. pose proof rx_size_law as Hn.
  assert (Hi : forall q0 m, rxq_ok q0 leaked -> pend q0 = [] -> 0 <= m <= n ->
    let '(r, c) := rx_intrs (set_min_completed m (ctx q0)) in rxq_ok (set_ctx c q0) leaked /\ rx_pend (opaque c) = []).
  { intros q0 m [H1 H2 H3 H4] Hp0 Hm. pose proof (rx_intrs_spec q0 leaked m (Build_rxq_ok _ _ H1 H2 H3 H4) Hm) as Hs.
    pose proof (rx_intrs_law (set_min_completed m (ctx q0)) H1 H2 Hm) as Hl. destruct (rx_intrs _) as [r c]. destruct Hl as (_ & _ & Hl & _), Hs as [Hs _].
    split; [done|]. apply Permutation_nil. simpl in Hl. rewrite Hp0 in Hl. by symmetry. }
  pose proof (Hi q 0 Hok Hp ltac:(lia)) as H1. destruct (rx_intrs (set_min_completed 0 (ctx q))) as [r0 c0]. destruct H1 as [Hok0 Hp0]. cbn [snd].
  set (q0 := set_ctx c0 q) in *.
  assert (Hc : exists q1, clean_loop pages skbs lro tailroom MAX_SKB_FRAGS n (Z.to_nat budget) 0 q0 = Some (0, q1) /\ rxq_ok q1 leaked /\ pend q1 = [] /\
    rx_free_bufs q1 = rx_free_bufs q0 /\ n_pages (rest q1) = n_pages (rest q0)).
  { destruct (Z.to_nat budget) as [|m]; [by exists q0|]. cbn [clean_loop].
    pose proof (rx_complete_law world alloc (rest q0) (ctx q0) alloc_is_frame (rq_size _ _ Hok0) (rq_ok _ _ Hok0)) as Hlaw.
    pose proof (complete_spec q0 leaked Hok0) as Hcs.
    destruct (rx_complete world alloc (rest q0) (ctx q0)) as [[ret c] w]. destruct Hlaw as (_ & _ & _ & [(-> & -> & HP & _)|(c1 & Hs1 & Hn1 & HP & _)]).
    - destruct Hcs as (_ & [(_ & Hok1 & _)|[(Hx & _)|(Hx & _)]]); [|done|done]. change (s32 0 =? 0) with true. cbv iota. eexists. split; [done|]. split_and!; try done.
      apply Permutation_nil. simpl. change (ctx q0) with c0 in HP. rewrite Hp0 in HP. by symmetry.
    - exfalso. change (ctx q0) with c0 in HP. rewrite Hp0 in HP. apply Permutation_length in HP. rewrite length_app in HP.
      unfold ctx_keys, ctx_bufs in HP. rewrite length_fmap, length_take, Hs1 in HP. simpl in HP. lia. }
  destruct Hc as (q1 & -> & Hok1 & Hp1 & Ef & En). cbn [mbind option_bind]. case_if.
  - pose proof (Hi q1 1 Hok1 Hp1 ltac:(lia)) as H2. destruct (rx_intrs (set_min_completed 1 (ctx q1))) as [r c]. destruct H2 as [Hok2 Hp2].
    eexists _, _. split; [done|]. by split_and!.
  - eexists false, q1. split; [done|]. by split_and!.
Qed.

(** When the buffers cannot be mapped for DMA, [bpfhv_rx_refill] never
    returns: the loop ends on a failed allocation but not on a failed
    mapping. *)
Theorem rx_refill_diverges q leaked :
  rxq_ok q leaked -> 0 < rx_free_bufs q ->
  (forall j, (n_pages (rest q) <= j)%nat -> is_Some (al_kbuf (pages j)) /\ al_dma (pages j) = None) ->
  forall fuel, bpfhv_rx_refill pages lro fuel q = None.
Proof.
  intros Hok Hf Hfail fuel. revert q Hok Hf Hfail. induction fuel as [|fuel IH]; intros q Hok Hf Hfail; [done|]. rewrite refill_unfold.
  rewrite (proj2 (Z.ltb_lt _ _)) by done. set (m := Z.to_nat _). cbv zeta.
  pose proof (refill_once_spec q leaked m Hok ltac:(unfold m, BPFHV_MAX_RX_BUFS; lia) ltac:(unfold m, BPFHV_MAX_RX_BUFS; lia)) as Hr.
  assert (Hp : exists q1, prepare pages lro m 0 q = (0, false, q1) /\ n_pages (rest q1) = S (n_pages (rest q))).
  { destruct m as [|m'] eqn:Em; [unfold m, BPFHV_MAX_RX_BUFS in Em; lia|]. simpl. destruct (Hfail (n_pages (rest q)) ltac:(lia)) as [[k ->] ->].
    eexists. split; [done|]. done. }
  destruct Hp as (q1 & Ep & En). rewrite Ep in *. destruct Hr as (Hr & _ & Ef & _). apply IH.
  - apply Hr.
  - lia.
  - intros j Hj. apply Hfail. assert (n_pages (rest (refill_once q1 0)) = n_pages (rest q1)) by (unfold refill_once; case_if; done). lia.
Qed.

(** When no [sk_buff] can be allocated for a completed packet, its buffers
    are lost: they are with the device no longer and are not counted as free,
    so that the queue is shorter for good. *)
Theorem rx_alloc_failure_leaks budget q leaked :
  rxq_ok q leaked -> 0 < rx_done (opaque (ctx q)) -> skbs (n_skbs (rest q)) = 0 -> 0 < budget ->
  exists q' lost, bpfhv_rx_clean pages skbs lro tailroom MAX_SKB_FRAGS n budget q = Some (0, q') /\ 0 < lost /\ rxq_ok q' (leaked + lost) /\
    rx_free_bufs q' = rx_free_bufs q /\ Z.of_nat (length (pend q')) + lost = Z.of_nat (length (pend q)).
Proof.
  intros Hok Hd Hskb Hb. unfold bpfhv_rx_clean. destruct (Z.to_nat budget) as [|m] eqn:Em; [lia|]. cbn [clean_loop].
  pose proof (rx_complete_law world alloc (rest q) (ctx q) alloc_is_frame (rq_size _ _ Hok) (rq_ok _ _ Hok)) as Hlaw.
  pose proof (complete_spec q leaked Hok) as Hcs. destruct (rx_complete world alloc (rest q) (ctx q)) as [[ret c] w].
  destruct Hlaw as (_ & _ & _ & [(-> & _ & _ & Hd0 & _)|(c1 & Hs1 & Hn1 & HP & _ & _ & Ec & Ew & Er)]); [lia|].
  pose proof (alloc_spec (rest q) c1 Hs1 Hn1) as Ha. destruct (alloc (rest q) c1) as [[r c2] w2]. simpl in Ec, Ew, Er. subst c2 w2.
  rewrite Hskb in Ha. destruct Ha as (_ & _ & _ & [-> ->]). assert (ret = - ENOMEM) as -> by done.
  destruct Hcs as (_ & [(Hx & _)|[(_ & _ & Hnb & Hok1 & _)|(Hx & _)]]); [done| |done].
  change (s32 (- ENOMEM) =? 0) with false. change (s32 (- ENOMEM) <? 0) with true. cbv iota. eexists _, (num_bufs c1). split; [done|]. split_and!; try done; [lia|].
  simpl. rewrite HP, length_app. unfold ctx_keys, ctx_bufs. rewrite length_fmap, length_take, Hs1. lia.
Qed.

End rx.
