(* ===== verification/DriverVringRx.v ===== *)
(** * The receive path of the guest driver on vring_packed

    The receive programs of proxy/vring_packed_progs.c keep the interface of
    the driver, [RxProgsOk] of [DriverRx]. *)

From S2P Require Import Prelude Abi VringPacked VringInv VringGuest VringView DriverRx.
Import DriverRx.
Open Scope Z_scope.

(** ** The completion program with the state of the driver *)

Definition rxc_with {W} (alloc : W -> vq_ctx -> Z * vq_ctx * W) (w : W) (ctx : vq_ctx) : Z * vq_ctx * W :=
  let vq := opaque ctx in
  if negb (vring_packed_more_used vq) then (0, ctx, w)
  else
    let '(ret, vq, rxb) := vring_packed_get vq (get_buf 0 ctx) in
    let ctx := set_opaque vq (put_buf 0 rxb ctx) in
    if negb (ret =? 1) then (ret, ctx, w)
    else
      let ctx := set_oflags 0 (set_num_bufs 1 ctx) in
      let '(ret, ctx, w) := alloc w ctx in
      if ret <? 0 then (ret, ctx, w) else (1, ctx, w).

(** It is the program of the device, for a helper with a state. *)
Lemma rxc_with_is_rxc {W} (hp : bpf_helpers vring_packed_virtq) (w : W) ctx :
  rxc_with (fun w c => (rx_pkt_alloc hp c, w)) w ctx = (vring_packed_rxc hp ctx, w).
Proof.
  unfold rxc_with, vring_packed_rxc. destruct (negb _); [done|]. destruct (vring_packed_get _ _) as [[ret vq] rxb].
  destruct (negb _); [done|]. destruct (rx_pkt_alloc hp _) as [r c]. by destruct (r <? 0).
Qed.

Definition lift_env (env : list (vring_packed_virtq -> vring_packed_virtq)) (c : vq_ctx) : bpfhv_context gview := map_ctx (fun vq => mk_gview vq env) c.

Definition run_complete (W : Type) (alloc : W -> bpfhv_context gview -> Z * bpfhv_context gview * W) (w : W) (c : bpfhv_context gview)
    : Z * bpfhv_context gview * W :=
  let v := hv_sync (opaque c) in
  let helper w c := let '(r, c, w) := alloc w (lift_env (gv_env v) c) in (r, map_ctx gv_vq c, w) in
  let '(ret, c', w) := rxc_with helper w (map_ctx (fun _ => gv_vq v) c) in
  (ret, lift_env (gv_env v) c', w).

#[export] Instance vring_rx_progs : RxProgs gview := {|
  rx_postproc := None;
  rx_publish := run_prog vring_packed_rxp true;
  rx_complete := run_complete;
  rx_reclaim := run_prog (fun _ => vring_packed_rxr) false;
  rx_intrs := run_prog vring_packed_rxi true;
|}.

Definition rx_proj (e : entry) : rx_key := (e_cookie e, e_addr e).
Abbreviation rx_keys := (pend_keys rx_proj).
Abbreviation rx_view := (gview_ok rx_proj VRING_DESC_F_WRITE).

(** ** The programs *)

Lemma bufs_keys {T} (c : bpfhv_context T) k :
  0 <= k <= Z.of_nat (length (bufs c)) -> map (fun j => rx_proj (rx_entry (get_buf j c))) (seqZ 0 k) = rx_key_of <$> take (Z.to_nat k) (bufs c).
Proof.
  intros Hk. apply list_eq. intros i. change (map ?f ?l) with (f <$> l). rewrite !list_lookup_fmap.
  destruct (decide (Z.of_nat i < k)) as [Hi|Hi].
  - rewrite (proj2 (lookup_seqZ 0 k i (Z.of_nat i))) by lia. rewrite lookup_take_lt by lia. simpl. unfold get_buf. rewrite Nat2Z.id.
    rewrite list_lookup_lookup_total_lt by lia. done.
  - rewrite (lookup_seqZ_ge 0 k i) by lia. by rewrite lookup_take_ge by lia.
Qed.

Lemma rxp_law n c gh :
  rx_view n (opaque c) gh -> full_size c -> 0 <= num_bufs c <= BPFHV_MAX_RX_BUFS ->
  num_bufs c + Z.of_nat (length (rx_keys (gv_vq (opaque c)))) <= n ->
  let '(ret, c') := run_prog vring_packed_rxp true c in
  ret = 0 /\ full_size c' /\ (exists gh', rx_view n (opaque c') gh') /\
  rx_keys (gv_vq (opaque c')) ≡ₚ ctx_keys c ++ rx_keys (gv_vq (opaque c)) /\
  completed (gv_vq (opaque c)) <= completed (gv_vq (opaque c')) /\
  (gv_env (opaque c) = [] -> gv_env (opaque c') = [] /\ completed (gv_vq (opaque c')) = completed (gv_vq (opaque c))).
Proof.
  intros Hv Hs Hnb Hroom. destruct (view_sync _ _ _ _ _ Hv) as (gh1 & Hv1 & HP1 & Hc1). rewrite <- HP1 in Hroom.
  unfold run_prog. assert (Hsync : gv_env (opaque c) = [] -> hv_sync (opaque c) = opaque c) by apply hv_sync_quiet.
  set (v := hv_sync (opaque c)) in *. destruct (hv_act_rely _ _ _ _ _ Hv1) as [Hf HF].
  assert (Hact : gv_env (opaque c) = [] -> forall vq, hv_act v vq = vq) by (intros Hq vq; rewrite (Hsync Hq); unfold hv_act; by rewrite Hq).
  pose proof Hv1 as [H1 H2 H3 _]. rewrite (length_pend_keys _ _ _ H1) in Hroom. unfold vring_packed_rxp. cbn [map_ctx num_bufs].
  rewrite (proj2 (Z.ltb_ge BPFHV_MAX_RX_BUFS (num_bufs c)) ltac:(lia)).
  assert (Hr : ag gh1 + Z.of_nat (Z.to_nat (num_bufs c)) <= ug gh1 + num_desc (gv_vq v)) by lia.
  destruct (rxp_loop_spec (Z.to_nat (num_bufs c)) 0 (map_ctx (fun _ => gv_vq v) c) gh1 H1 H2 Hr) as (vq1 & gh2 & E & [He _] & Eag & Hus & Hav).
  change (rxp_loop _ 0 _) with (rxp_loop (Z.to_nat (num_bufs c)) 0 (map_ctx (fun _ => gv_vq v) c)). rewrite E. pose proof (ev_inv _ _ _ _ He) as Hinv1.
  assert (Eug : ug gh2 = ug gh1).
  { apply (f_equal length) in Hus. unfold used_entries, entries in Hus. rewrite !length_map in Hus. destruct (hi_order _ _ (vi_host _ _ H1)), (hi_order _ _ (vi_host _ _ Hinv1)).
    pose proof (length_range (ug gh1) (uh gh1) ltac:(lia)). pose proof (length_range (ug gh2) (uh gh2) ltac:(lia)). pose proof (ev_uh _ _ _ _ He). lia. }
  destruct (added_keys rx_proj _ _ _ _ _ H1 He Eug Hav) as [Hk Hcm]. destruct (hv_step rx_proj _ vq1 gh2 Hf Hinv1) as (gh3 & A1 & A2 & A3 & A4 & A5 & _).
  pose proof (ev_same _ _ _ _ He) as (En & _). pose proof (ev_rw _ _ _ _ He) as Erw.
  change (opaque (map_ctx (fun _ => gv_vq v) c)) with (gv_vq v) in Hcm, En.
  assert (Hkeys : rx_proj <$> map (fun j => rx_entry (get_buf j (map_ctx (fun _ => gv_vq v) c))) (seqZ 0 (Z.of_nat (Z.to_nat (num_bufs c)))) = ctx_keys c).
  { rewrite Z2Nat.id by lia. unfold ctx_keys, ctx_bufs. rewrite <- bufs_keys by (rewrite Hs; lia). apply map_map. }
  split_and!; try done.
  - exists gh3. constructor; [exact A1|congruence|exact (eq_trans A3 (eq_trans En H3))|exact HF].
  - cbn [map_ctx opaque gv_vq set_opaque set_oflags]. rewrite A4, Hk, Hkeys, Permutation_app_comm. f_equiv. exact HP1.
  - cbn [map_ctx opaque gv_vq set_opaque set_oflags]. lia.
  - intros Hq. cbn [map_ctx opaque gv_vq gv_env set_opaque set_oflags]. rewrite (Hact Hq), Hcm, (Hsync Hq), Hq. done.
Qed.

Lemma rxc_law W alloc (w : W) n c gh :
  alloc_frame alloc -> rx_view n (opaque c) gh -> full_size c ->
  let '(ret, c', w') := run_complete W alloc w c in
  full_size c' /\ (exists gh', rx_view n (opaque c') gh') /\ (gv_env (opaque c) = [] -> gv_env (opaque c') = []) /\
  ((ret = 0 /\ w' = w /\ rx_keys (gv_vq (opaque c')) ≡ₚ rx_keys (gv_vq (opaque c)) /\ completed (gv_vq (opaque c)) = 0 /\ completed (gv_vq (opaque c')) = 0) \/
   (exists c1, full_size c1 /\ num_bufs c1 = 1 /\ rx_keys (gv_vq (opaque c)) ≡ₚ ctx_keys c1 ++ rx_keys (gv_vq (opaque c')) /\
      completed (gv_vq (opaque c)) - 1 <= completed (gv_vq (opaque c')) /\
      (gv_env (opaque c) = [] -> completed (gv_vq (opaque c')) = completed (gv_vq (opaque c)) - 1) /\
      (alloc w c1).1.2 = c' /\ (alloc w c1).2 = w' /\ ret = if (alloc w c1).1.1 <? 0 then (alloc w c1).1.1 else 1)).
Proof.
  intros Hal Hv Hs. destruct (view_sync _ _ _ _ _ Hv) as (gh1 & Hv1 & HP1 & Hc1). pose proof (completed_spec _ _ (vo_inv _ _ _ _ _ Hv)) as Hc0.
  destruct (hi_order _ _ (vi_host _ _ (vo_inv _ _ _ _ _ Hv))). unfold run_complete.
  assert (Hsync : gv_env (opaque c) = [] -> hv_sync (opaque c) = opaque c) by apply hv_sync_quiet.
  set (v := hv_sync (opaque c)) in *. assert (Henv : gv_env (opaque c) = [] -> gv_env v = []) by (intros Hq; by rewrite (Hsync Hq)).
  assert (Hcv : gv_env (opaque c) = [] -> completed (gv_vq v) = completed (gv_vq (opaque c))) by (intros Hq; by rewrite (Hsync Hq)).
  clearbody v. clear Hsync. pose proof Hv1 as [H1 H2 H3 H4]. unfold rxc_with.
  change (opaque (map_ctx (fun _ => gv_vq v) c)) with (gv_vq v). change (get_buf 0 (map_ctx (fun _ => gv_vq v) c)) with (get_buf 0 c).
  destruct (got_key rx_proj _ _ (get_buf 0 c) H1) as [[-> Hz]|(-> & vq' & gh' & Hget & He & Hk & Hcm)]; cbn [negb].
  - split_and!; [done|by exists gh1|done|]. left. split_and!; try done. lia.
  - rewrite Hget. cbn [Z.eqb Pos.eqb negb]. set (ctx1 := set_oflags 0 _). set (c1 := lift_env (gv_env v) ctx1).
    pose proof (ev_inv _ _ _ _ He) as Hinv'. pose proof (ev_same _ _ _ _ He) as (En & _).
    destruct (Hal w c1) as [p Hp]. destruct (alloc w c1) as [[r c2] w2] eqn:Ea. simpl in Hp. subst c2.
    assert (Hs1 : full_size c1) by (unfold full_size; simpl; rewrite length_insert; exact Hs).
    assert (Hres : lift_env (gv_env v) (map_ctx gv_vq (set_packet p c1)) = set_packet p c1) by done.
    assert (Hkey : ctx_keys c1 = [rx_proj (entry_at (gv_vq v) (ug gh1))]).
    { unfold ctx_keys, ctx_bufs. simpl. unfold full_size in Hs. destruct (bufs c); done. }
    destruct (r <? 0) eqn:Er; rewrite Hres; (split_and!; [done| |done|]);
      try (exists gh'; constructor; simpl; try done; [rewrite (ev_rw _ _ _ _ He); done|congruence]).
    all: right; exists c1; rewrite Ea; simpl; rewrite Er; split_and!; try done; try lia;
      [rewrite Hkey, <- HP1, Hk; done|intros Hq; rewrite Hcm, (Hcv Hq); done].
Qed.

Lemma rxi_law n c gh :
  rx_view n (opaque c) gh -> full_size c -> 0 <= min_completed_bufs c <= n -> n <= 2 ^ 15 ->
  let '(ret, c') := run_prog vring_packed_rxi true c in
  full_size c' /\ (exists gh', rx_view n (opaque c') gh') /\
  rx_keys (gv_vq (opaque c')) ≡ₚ rx_keys (gv_vq (opaque c)) /\ completed (gv_vq (opaque c)) <= completed (gv_vq (opaque c')) /\
  (0 < min_completed_bufs c ->
     (ret = 1 /\ min_completed_bufs c <= completed (gv_vq (opaque c'))) \/
     (ret = 0 /\ vring_armed rx_proj VRING_DESC_F_WRITE n (opaque c') (min_completed_bufs c))).
Proof.
  intros Hv Hs Hm Hn. destruct (view_sync _ _ _ _ _ Hv) as (gh1 & Hv1 & HP1 & Hc1). unfold run_prog, vring_packed_rxi.
  set (v := hv_sync (opaque c)) in *. clearbody v. pose proof (intr_law _ _ n v gh1 _ Hv1 Hm Hn) as Hi. simpl.
  destruct (vring_packed_intr _ _ _) as [ret vq]. destruct Hi as (I1 & I2 & I3 & I4). simpl. split_and!; try done; [by rewrite I2, HP1|lia].
Qed.

Lemma rxr_loop_bufs k : forall i (ctx : vq_ctx), length (bufs (rxr_loop k i ctx).2) = length (bufs ctx).
Proof.
  induction k as [|k IH]; intros i ctx; [done|]. simpl. destruct (vring_packed_more_pending _); [|done].
  destruct (vring_packed_get _ _) as [[ret vq] rxb]. case_if; simpl; [|rewrite IH; simpl]; apply length_insert.
Qed.

Lemma rxr_law c ks :
  full_size c -> vring_rec rx_proj (opaque c) ks ->
  let '(ret, c') := run_prog (fun _ => vring_packed_rxr) false c in
  (ks = [] /\ ret = 0) \/
  (ret = 1 /\ full_size c' /\ 1 <= num_bufs c' <= BPFHV_MAX_RX_BUFS /\
   exists ks', ks = ctx_keys c' ++ ks' /\ vring_rec rx_proj (opaque c') ks').
Proof.
  intros Hs (Henv & vq0 & gh0 & u & Hrc & ->). unfold run_prog. rewrite (hv_sync_quiet _ Henv).
  unfold vring_packed_rxr. simpl opaque. rewrite (reclaiming_pending _ _ _ _ Hrc). pose proof (rc_range _ _ _ _ Hrc).
  destruct (Z.ltb_spec u (ag gh0)) as [Hlt|Hge]; simpl negb; cbv iota.
  2: { left. split; [|done]. unfold keys_between. replace u with (ag gh0) by lia. by rewrite range_nil. }
  set (vctx := map_ctx (fun _ => gv_vq (opaque c)) c).
  pose proof (rxr_loop_bufs (Z.to_nat BPFHV_MAX_RX_BUFS) 0 vctx) as Hlen.
  destruct (vq_rxr_loop_spec (Z.to_nat BPFHV_MAX_RX_BUFS) 0 vctx vq0 gh0 u Hrc ltac:(lia)) as (ctx' & E & Hrc' & Hbufs).
  { simpl. rewrite Hs. lia. }
  rewrite E in *. set (m := Z.min _ _) in *. rewrite !Z.add_0_l. cbn [snd] in Hlen. assert (Hm : 1 <= m <= BPFHV_MAX_RX_BUFS) by (unfold m, BPFHV_MAX_RX_BUFS; lia).
  right. split_and!; try done; try (simpl; lia); [unfold full_size; simpl; rewrite Hlen; exact Hs|].
  exists (keys_between rx_proj vq0 (u + m) (ag gh0)). split; [|by split; [|exists vq0, gh0, (u + m)]].
  unfold keys_between. rewrite (range_app u (u + m) (ag gh0)), map_app by lia. f_equal.
  unfold ctx_keys, ctx_bufs. simpl. rewrite <- bufs_keys by (rewrite Hlen; simpl; rewrite Hs; lia).
  unfold range. replace (u + m - u) with m by lia. rewrite <- (Z.add_0_r u) at 1. rewrite <- fmap_add_seqZ, map_map. apply map_ext_in.
  intros j Hj%list_elem_of_In%elem_of_seqZ. rewrite Hbufs by lia. rewrite decide_True by lia. unfold key_at. by rewrite Z.sub_0_r.
Qed.

(** The receive programs of vring_packed keep the interface of the driver. *)
#[export] Program Instance vring_rx_progs_ok (n : Z) (Hn : 1 <= n <= 2 ^ 15) : RxProgsOk gview n := {|
  rx_ok v := exists gh, rx_view n v gh;
  rx_pend v := rx_keys (gv_vq v);
  rx_done v := completed (gv_vq v);
  rx_armed := vring_armed rx_proj VRING_DESC_F_WRITE n;
  rx_quiet v := gv_env v = [];
  rx_rec v ps := exists ks, ps ≡ₚ ks /\ vring_rec rx_proj v ks;
|}.
Next Obligation. intros n Hn. lia. Qed.
Next Obligation.
  intros n Hn v [gh [Hinv _ _ _]]. rewrite (length_pend_keys _ _ _ Hinv), (completed_spec _ _ Hinv).
  destruct (hi_order _ _ (vi_host _ _ Hinv)). lia.
Qed.
Next Obligation. done. Qed.
Next Obligation.
  intros n Hn c Hs [gh Hv] Hnb Hroom. pose proof (rxp_law n c gh Hv Hs Hnb Hroom) as H. destruct (run_prog _ _ _) as [ret c'] eqn:Er. simpl. rewrite Er. exact H.
Qed.
Next Obligation.
  intros n Hn W alloc w c Hal Hs [gh Hv]. pose proof (rxc_law W alloc w n c gh Hal Hv Hs) as H. simpl. destruct (run_complete W alloc w c) as [[ret c'] w'].
  destruct H as (H1 & H2 & H3 & [(H4 & H5 & H6 & H7 & H8)|(c1 & H4 & H5 & H6)]); split_and!; try done; [left; by split_and!|right].
  exists c1. rewrite H5. unfold BPFHV_MAX_RX_BUFS. destruct H6 as (H6 & H7 & H8 & H9 & H10 & H11). split_and!; try done; lia.
Qed.
Next Obligation.
  intros n Hn c Hs [gh Hv] Hm. pose proof (rxi_law n c gh Hv Hs Hm ltac:(lia)) as H. simpl. destruct (run_prog _ _ _) as [ret c']. exact H.
Qed.
Next Obligation.
  intros n Hn v [gh Hv] Hq Hd. exists (rx_keys (gv_vq v)). split; [done|]. by apply (vring_rec_start _ VRING_DESC_F_WRITE n v gh).
Qed.
Next Obligation.
  intros n Hn c ps Hs (ks & HP & Hr). pose proof (rxr_law c ks Hs Hr) as H. simpl. destruct (run_prog _ _ _) as [ret c'].
  destruct H as [[-> H]|(H1 & H2 & H3 & ks' & H4 & H5)]; [left; split; [by apply Permutation_nil; symmetry|done]|right].
  split_and!; try done; try lia. exists ks'. split; [by rewrite HP, H4|by exists ks'].
Qed.

(** ** Examples *)

Definition rdemo_pages (j : nat) : page_alloc := mk_alloc (Some (0x1000 * Z.of_nat (S j))) (Some (0x100000 * Z.of_nat (S j))) (0x1000 * Z.of_nat (S j)).
Definition rdemo_skbs (j : nat) : Z := 0x7000 + Z.of_nat j.
Definition rdemo_rxq : bpfhv_rxq gview :=
  mk_rxq (mk_ctx 0 0 0 0 0 1 0 (repeat (mk_buf 0 0 0 0) 64) (mk_gview (vring_packed_init 32) [])) 32 0x9000 (mk_world [] 0 0).

Lemma rdemo_range : 1 <= 32 <= 2 ^ 15.
Proof. lia. Qed.

Abbreviation rdemo_ok := (vring_rx_progs_ok 32 rdemo_range).

Lemma rdemo_rxq_ok skbs : rxq_ok (H0 := rdemo_ok) skbs rdemo_rxq 0.
Proof.
  assert (Hinv : vq_inv (vring_packed_init 32) (mk_gh 0 0 0 0 (range 0 32) VRING_DESC_F_WRITE)) by (apply init_inv; [lia|by right]).
  assert (Hp : rx_keys (vring_packed_init 32) = []) by reflexivity.
  constructor; [reflexivity| | |done].
  - exists (mk_gh 0 0 0 0 (range 0 32) VRING_DESC_F_WRITE). constructor; [exact Hinv|reflexivity|reflexivity|constructor].
  - change (raccounted (n := 32) rdemo_rxq (rx_keys (vring_packed_init 32)) 0). rewrite Hp. by constructor.
Qed.

Lemma rdemo_pages_nz i k : al_kbuf (rdemo_pages i) = Some k -> k <> 0.
Proof. unfold rdemo_pages. simpl. intros [= <-]. lia. Qed.

Lemma rdemo_skbs_nz j : rdemo_skbs j <> 0.
Proof. unfold rdemo_skbs. lia. Qed.

Lemma rx_clean_correct_witness :
  exists k q', bpfhv_rx_clean (RxProgs0 := vring_rx_progs) rdemo_pages rdemo_skbs false 128 17 32 64 rdemo_rxq = Some (k, q') /\ 0 <= k <= 64.
Proof.
  destruct (rx_clean_correct (H0 := rdemo_ok) rdemo_pages rdemo_skbs false 128 17 rdemo_pages_nz (fun j _ => mk_is_Some _ _ eq_refl)
    64 rdemo_rxq 0 (rdemo_rxq_ok rdemo_skbs) ltac:(vm_compute; discriminate)) as (k & q' & l & E & Hk & _).
  exists k, q'. exact (conj E Hk).
Defined.

Lemma rx_poll_correct_witness :
  exists k more q', bpfhv_rx_poll (RxProgs0 := vring_rx_progs) rdemo_pages rdemo_skbs false 128 17 32 64 rdemo_rxq = Some (k, more, q') /\ 0 <= k <= 64.
Proof.
  destruct (rx_poll_correct (H0 := rdemo_ok) rdemo_pages rdemo_skbs false 128 17 rdemo_pages_nz (fun j _ => mk_is_Some _ _ eq_refl)
    64 rdemo_rxq 0 (rdemo_rxq_ok rdemo_skbs) ltac:(vm_compute; discriminate)) as (k & more & q' & l & E & _ & _ & Hk & _).
  exists k, more, q'. exact (conj E Hk).
Defined.

Lemma rx_close_releases_witness :
  exists q', rx_close (RxProgs0 := vring_rx_progs) rdemo_pages rdemo_skbs false 128 17 32 rdemo_rxq = Some q' /\ rx_free_bufs q' = 32 /\ alloc_frag q' = 0.
Proof.
  destruct (rx_close_releases (H0 := rdemo_ok) rdemo_pages rdemo_skbs false 128 17 rdemo_pages_nz (fun j _ => mk_is_Some _ _ eq_refl)
    rdemo_rxq 0 (rdemo_rxq_ok rdemo_skbs) eq_refl rdemo_skbs_nz) as (_ & _ & q' & _ & E & Hf & _ & _ & _ & Ha & _).
  exists q'. exact (conj E (conj Hf Ha)).
Defined.

(** All the buffers are free and the memory is available again. *)
Lemma rx_starves_witness :
  exists more q', bpfhv_rx_poll (RxProgs0 := vring_rx_progs) rdemo_pages rdemo_skbs false 128 17 32 64 rdemo_rxq = Some (0, more, q') /\
    rx_free_bufs q' = 32.
Proof.
  destruct (rx_starves (H0 := rdemo_ok) rdemo_pages rdemo_skbs false 128 17 64 rdemo_rxq 0 (rdemo_rxq_ok rdemo_skbs) eq_refl
    ltac:(vm_compute; discriminate)) as (more & q' & E & _ & _ & Hf & _).
  exists more, q'. exact (conj E Hf).
Defined.

Lemma rx_refill_diverges_witness :
  forall fuel, bpfhv_rx_refill (RxProgs0 := vring_rx_progs) (fun j => mk_alloc (Some 0x1000) None 0x1000) false fuel rdemo_rxq = None.
Proof.
  apply (rx_refill_diverges (H0 := rdemo_ok) (fun j => mk_alloc (Some 0x1000) None 0x1000) rdemo_skbs false
    (fun i k H => eq_ind 0x1000 (fun k => k <> 0) ltac:(discriminate) k (f_equal (default 0) H)) rdemo_rxq 0 (rdemo_rxq_ok rdemo_skbs) eq_refl).
  intros j _. exact (conj (mk_is_Some _ _ eq_refl) eq_refl).
Defined.
