(* ===== verification/DriverProgs.v ===== *)
(** * The programs of the guest driver

    driver/bpfhv.c: the part that reads the eBPF programs from the device,
    resolves the calls to helper functions, allocates the programs and the
    contexts of the queues, and releases them: [bpfhv_programs_setup],
    [bpfhv_helper_calls_fixup], [bpfhv_prog_alloc], [bpfhv_programs_teardown],
    and [bpfhv_queues_dump].  What the device registers hold and what the
    allocators return are parameters. *)

From stdpp Require Import gmap.
From S2P Require Import Prelude Abi.
Open Scope Z_scope.

Module DriverProgs.

Definition EIO : Z := 5.
Definition ENOMEM : Z := 12.
Definition EINVAL : Z := 22.
Definition PAGE_SIZE : Z := 4096.

(** The program indices of include/bpfhv.h. *)
Definition BPFHV_PROG_NONE : Z := 0.
Definition BPFHV_PROG_RX_PUBLISH : Z := 1.
Definition BPFHV_PROG_RX_COMPLETE : Z := 2.
Definition BPFHV_PROG_RX_INTRS : Z := 3.
Definition BPFHV_PROG_RX_RECLAIM : Z := 4.
Definition BPFHV_PROG_RX_POSTPROC : Z := 5.
Definition BPFHV_PROG_TX_PUBLISH : Z := 6.
Definition BPFHV_PROG_TX_COMPLETE : Z := 7.
Definition BPFHV_PROG_TX_INTRS : Z := 8.
Definition BPFHV_PROG_TX_RECLAIM : Z := 9.
Definition BPFHV_PROG_TX_PREPROC : Z := 10.
Definition BPFHV_PROG_MAX : Z := 11.
Definition BPFHV_PROG_SIZE_MAX : Z := 16384.

Definition BPFHV_REG_PROG_SELECT : Z := 56.
Definition BPFHV_REG_QUEUE_SELECT : Z := 44.
Definition BPFHV_REG_CTX_PADDR_LO : Z := 48.
Definition BPFHV_REG_CTX_PADDR_HI : Z := 52.

(** ** Instructions *)

Record bpf_insn := mk_insn { code : Z; dst_reg : Z; src_reg : Z; off : Z; imm : Z }.

Definition s16 (x : Z) : Z := swrap 16 x.

(** An instruction is read as two words of 32 bits. *)
Definition insn_of_words (lo hi : Z) : bpf_insn :=
  mk_insn (Z.land lo 0xff) (Z.land (Z.shiftr lo 8) 0xf) (Z.land (Z.shiftr lo 12) 0xf)
    (s16 (Z.shiftr lo 16)) (s32 hi).

(** [BPF_JMP | BPF_CALL] *)
Definition BPF_JMP_CALL : Z := Z.lor 0x05 0x80.

Definition is_helper_call (i : bpf_insn) : bool :=
  (code i =? BPF_JMP_CALL) && (dst_reg i =? 0) && (src_reg i =? 0) && (off i =? 0).

Definition BPFHV_HELPER_MAGIC : Z := 0x4b8f0000.

(** The helper functions, in the order of [enum bpfhv_helper_id]. *)
Inductive helper :=
| rx_pkt_alloc | pkt_l4_csum_md_get | pkt_l4_csum_md_set | pkt_virtio_net_md_get | pkt_virtio_net_md_set
| rx_buf_dma_map | rx_buf_dma_unmap | tx_buf_dma_map | tx_buf_dma_unmap | smp_mb_full | print_num
| pkt_data | pkt_size.
#[export] Instance helper_eq_dec : EqDecision helper.
Proof. solve_decision. Defined.

Definition helpers : list helper :=
  [rx_pkt_alloc; pkt_l4_csum_md_get; pkt_l4_csum_md_set; pkt_virtio_net_md_get; pkt_virtio_net_md_set;
   rx_buf_dma_map; rx_buf_dma_unmap; tx_buf_dma_map; tx_buf_dma_unmap; smp_mb_full; print_num; pkt_data; pkt_size].

(** The [switch] on the immediate field. *)
Definition helper_of (imm : Z) : option helper :=
  if (BPFHV_HELPER_MAGIC <=? imm) && (imm <? BPFHV_HELPER_MAGIC + Z.of_nat (length helpers))
  then helpers !! Z.to_nat (imm - BPFHV_HELPER_MAGIC) else None.

Section driver.
(** [func - __bpf_call_base] for each helper function of the kernel module. *)
Context (func_offset : helper -> Z).

(** [bpfhv_helper_calls_fixup]: the result, and the instructions, which have
    been rewritten up to the one with an unknown helper. *)
Fixpoint bpfhv_helper_calls_fixup (insns : list bpf_insn) : Z * list bpf_insn :=
  match insns with
  | [] => (0, [])
  | i :: insns' =>
      if negb (is_helper_call i) then
        let '(ret, l) := bpfhv_helper_calls_fixup insns' in (ret, i :: l)
      else
        match helper_of (imm i) with
        | None => (- EINVAL, insns)
        | Some f =>
            let i := mk_insn (code i) (dst_reg i) (src_reg i) (off i) (s32 (func_offset f)) in
            let '(ret, l) := bpfhv_helper_calls_fixup insns' in (ret, i :: l)
        end
  end.

(** ** Programs and contexts *)

(** What the driver does to the device and to the allocators, in order. *)
Inductive event :=
| Writel (reg val : Z)
| ProgAlloc (i : Z)
| ProgFree (i : Z)
| CtxAlloc (q addr size : Z)
| CtxFree (q addr size : Z).

(** The context of a queue as the driver initializes it. *)
Record qctx := mk_qctx { qc_addr : Z; qc_guest_priv : Z; qc_min_completed : Z }.

(** The part of [struct bpfhv_rxq] and [struct bpfhv_txq] that is set up here. *)
Record queue := mk_queue { q_ctx : option qctx; q_free_bufs : Z }.

(** The part of [struct bpfhv_info] that is set up here, and the events. *)
Record bpfhv_info := mk_bi {
  progs : list (option (list bpf_insn));
  rxqs : list queue;
  txqs : list queue;
  rx_bufs : Z;
  tx_bufs : Z;
  rx_ctx_size : Z;
  tx_ctx_size : Z;
  log : list event;
}.

Definition set_progs l bi := mk_bi l (rxqs bi) (txqs bi) (rx_bufs bi) (tx_bufs bi) (rx_ctx_size bi) (tx_ctx_size bi) (log bi).
Definition set_rxqs l bi := mk_bi (progs bi) l (txqs bi) (rx_bufs bi) (tx_bufs bi) (rx_ctx_size bi) (tx_ctx_size bi) (log bi).
Definition set_txqs l bi := mk_bi (progs bi) (rxqs bi) l (rx_bufs bi) (tx_bufs bi) (rx_ctx_size bi) (tx_ctx_size bi) (log bi).
Definition emit es bi := mk_bi (progs bi) (rxqs bi) (txqs bi) (rx_bufs bi) (tx_bufs bi) (rx_ctx_size bi) (tx_ctx_size bi) (log bi ++ es).

Definition get_prog (i : Z) (bi : bpfhv_info) : option (list bpf_insn) := mjoin (progs bi !! Z.to_nat i).
Definition set_prog (i : Z) p (bi : bpfhv_info) : bpfhv_info := set_progs (<[Z.to_nat i := p]> (progs bi)) bi.

Definition ctx_paddr_write (qidx paddr : Z) : list event :=
  [Writel BPFHV_REG_QUEUE_SELECT qidx; Writel BPFHV_REG_CTX_PADDR_LO (Z.land paddr 0xffffffff);
   Writel BPFHV_REG_CTX_PADDR_HI (Z.land (Z.shiftr paddr 32) 0xffffffff)].

Definition prog_indices : list Z := seqZ (BPFHV_PROG_NONE + 1) (BPFHV_PROG_MAX - (BPFHV_PROG_NONE + 1)).

(** One turn of each loop of [bpfhv_programs_teardown]. *)
Definition free_prog (bi : bpfhv_info) (i : Z) : bpfhv_info :=
  match get_prog i bi with
  | Some _ => set_prog i None (emit [ProgFree i] bi)
  | None => bi
  end.

Definition free_ctx (size qidx : Z) (q : queue) : list event * queue :=
  match q_ctx q with
  | Some c => (CtxFree qidx (qc_addr c) size :: ctx_paddr_write qidx 0, mk_queue None (q_free_bufs q))
  | None => (ctx_paddr_write qidx 0, q)
  end.

(** A loop over the queues, from index [qidx] on. *)
Fixpoint free_ctxs (size qidx : Z) (qs : list queue) : list event * list queue :=
  match qs with
  | [] => ([], [])
  | q :: qs =>
      let '(es, q) := free_ctx size qidx q in
      let '(es', qs) := free_ctxs size (qidx + 1) qs in
      (es ++ es', q :: qs)
  end.

Definition num_rx_queues (bi : bpfhv_info) : Z := Z.of_nat (length (rxqs bi)).

Definition bpfhv_programs_teardown (bi : bpfhv_info) : bpfhv_info :=
  let bi := foldl free_prog bi prog_indices in
  let '(es, qs) := free_ctxs (rx_ctx_size bi) 0 (rxqs bi) in
  let bi := emit es (set_rxqs qs bi) in
  let '(es, qs) := free_ctxs (tx_ctx_size bi) (num_rx_queues bi) (txqs bi) in
  emit es (set_txqs qs bi).

(** What the device shows and what the allocators return during a set-up: the
    registers, the words of the program selected, and for each program whether
    [bpf_prog_alloc] and [bpf_prog_select_runtime] succeed; [se_dma q] is the
    result of [dma_alloc_coherent] for queue [q], [se_priv q] the address of
    the queue structure. *)
Record setup_env := mk_env {
  se_kmalloc : bool;
  se_rx_bufs : Z;
  se_tx_bufs : Z;
  se_rx_ctx_size : Z;
  se_tx_ctx_size : Z;
  se_prog_size : Z -> Z;
  se_prog_word : Z -> Z -> Z;
  se_prog_alloc : Z -> bool;
  se_prog_runtime : Z -> bool;
  se_dma : Z -> option Z;
  se_priv : Z -> Z;
}.

Definition prog_is_optional (i : Z) : bool := (i =? BPFHV_PROG_RX_POSTPROC) || (i =? BPFHV_PROG_TX_PREPROC).

Section setup.
Context (e : setup_env).

(** The loop that reads the words of program [i]. *)
Definition read_prog (i len : Z) : list bpf_insn :=
  (fun j => insn_of_words (se_prog_word e i (2 * j)) (se_prog_word e i (2 * j + 1))) <$> seqZ 0 len.

Definition bpfhv_prog_alloc (i : Z) (insns : list bpf_insn) (bi : bpfhv_info) : option (list bpf_insn) * bpfhv_info :=
  if se_prog_alloc e i then
    let bi := emit [ProgAlloc i] bi in
    if se_prog_runtime e i then (Some insns, bi) else (None, emit [ProgFree i] bi)
  else (None, bi).

(** The loop over the programs: whether it ends without [goto out], and [ret]. *)
Fixpoint load_progs (todo : list Z) (ret : Z) (bi : bpfhv_info) : bool * Z * bpfhv_info :=
  match todo with
  | [] => (true, ret, bi)
  | i :: todo =>
      let bi := emit [Writel BPFHV_REG_PROG_SELECT i] bi in
      let prog_len := se_prog_size e i in
      if (prog_len =? 0) && prog_is_optional i then load_progs todo ret (set_prog i None bi)
      else if (prog_len =? 0) || (BPFHV_PROG_SIZE_MAX <? prog_len) then (false, ret, bi)
      else
        let '(ret, insns) := bpfhv_helper_calls_fixup (read_prog i prog_len) in
        if negb (ret =? 0) then (false, ret, bi)
        else
          let '(p, bi) := bpfhv_prog_alloc i insns bi in
          let bi := set_prog i p bi in
          match p with
          | None => (false, ret, bi)
          | Some _ => load_progs todo ret bi
          end
  end.

(** A loop that allocates the contexts, from queue [qidx] on: whether it ends
    without [goto out], the events and the queues. *)
Fixpoint alloc_ctxs (size nbufs qidx : Z) (qs : list queue) : bool * list event * list queue :=
  match qs with
  | [] => (true, [], [])
  | q :: qs' =>
      match se_dma e qidx with
      | None => (false, [], mk_queue None (q_free_bufs q) :: qs')
      | Some addr =>
          let q := mk_queue (Some (mk_qctx addr (se_priv e qidx) 1)) nbufs in
          let '(ok, es, qs') := alloc_ctxs size nbufs (qidx + 1) qs' in
          (ok, CtxAlloc qidx addr size :: ctx_paddr_write qidx addr ++ es, q :: qs')
      end
  end.

(** [goto out] *)
Definition setup_out (ret : Z) (bi : bpfhv_info) : Z * bpfhv_info :=
  (ret, if negb (ret =? 0) then bpfhv_programs_teardown bi else bi).

(** The two loops that allocate the contexts: whether they end without [goto out]. *)
Definition alloc_contexts (bi : bpfhv_info) : bool * bpfhv_info :=
  let '(ok, es, qs) := alloc_ctxs (rx_ctx_size bi) (rx_bufs bi) 0 (rxqs bi) in
  let bi := emit es (set_rxqs qs bi) in
  if negb ok then (false, bi)
  else
    let '(ok, es, qs) := alloc_ctxs (tx_ctx_size bi) (tx_bufs bi) (num_rx_queues bi) (txqs bi) in
    (ok, emit es (set_txqs qs bi)).

Definition bpfhv_programs_setup (bi : bpfhv_info) : Z * bpfhv_info :=
  if negb (se_kmalloc e) then (- ENOMEM, bi)
  else
    let bi := bpfhv_programs_teardown bi in
    let bi := mk_bi (progs bi) (rxqs bi) (txqs bi) (se_rx_bufs e) (se_tx_bufs e) (se_rx_ctx_size e) (se_tx_ctx_size e) (log bi) in
    let '(ok, ret, bi) := load_progs prog_indices (- EIO) bi in
    if negb ok then setup_out ret bi
    else
      let '(ok, bi) := alloc_contexts bi in
      if negb ok then setup_out ret bi else setup_out 0 bi.

End setup.
End driver.

(** ** The dump of the queues *)

(** The loop of [bpfhv_queues_dump] from offset [i] on, for [n] turns: the
    words stored and the offsets in the buffer they are stored at; [input i] is
    what [BPFHV_REG_DUMP_INPUT] shows for offset [i]. *)
Fixpoint dump_words (input : Z -> Z) (n : nat) (i bytes : Z) : list (Z * Z) :=
  match n with
  | O => []
  | S n => if i <? bytes then (i, input i) :: dump_words input n (i + 4) bytes else []
  end.

(** The bytes of a word, stored at [ofs]. *)
Definition put_word (m : gmap Z Z) (w : Z * Z) : gmap Z Z :=
  foldl (fun m k => <[fst w + k := Z.land (Z.shiftr (snd w) (8 * k)) 0xff]> m) m [0; 1; 2; 3].

(** [bpfhv_queues_dump] with [BPFHV_REG_DUMP_LEN] read as [len]: the result, and
    the size of the buffer with the bytes that were stored in and after it. *)
Definition bpfhv_queues_dump (len : Z) (input : Z -> Z) (kmalloc : bool) : Z * option (Z * gmap Z Z) :=
  let bytes := s32 len in
  if (PAGE_SIZE <? bytes) || (bytes <=? 0) then (- EIO, None)
  else if negb kmalloc then (- ENOMEM, None)
  else (0, Some (bytes + 1, foldl put_word {[bytes := 0]} (dump_words input (Z.to_nat bytes) 0 bytes))).

End DriverProgs.
Import DriverProgs.

(** ** The calls to helper functions *)

Definition known_call (i : bpf_insn) : Prop := is_helper_call i = true -> is_Some (helper_of (imm i)).
#[export] Instance known_call_dec i : Decision (known_call i).
Proof. unfold known_call. apply _. Defined.

Section fixup.
Context (func_offset : helper -> Z).

Definition fix_insn (i : bpf_insn) : bpf_insn :=
  if is_helper_call i then
    match helper_of (imm i) with
    | Some f => mk_insn (code i) (dst_reg i) (src_reg i) (off i) (s32 (func_offset f))
    | None => i
    end
  else i.

Lemma fixup_spec insns :
  let '(ret, l) := bpfhv_helper_calls_fixup func_offset insns in
  (ret = 0 /\ Forall known_call insns /\ l = fix_insn <$> insns) \/
  (ret = - EINVAL /\ ~ Forall known_call insns /\ length l = length insns).
Proof.
  induction insns as [|i insns IH]; simpl; [left; done|].
  assert (Hcons : forall l i', i' = fix_insn i -> known_call i -> forall ret,
    (ret = 0 /\ Forall known_call insns /\ l = fix_insn <$> insns) \/
    (ret = - EINVAL /\ ~ Forall known_call insns /\ length l = length insns) ->
    (ret = 0 /\ Forall known_call (i :: insns) /\ i' :: l = fix_insn i :: (fix_insn <$> insns)) \/
    (ret = - EINVAL /\ ~ Forall known_call (i :: insns) /\ length (i' :: l) = S (length insns))).
  { intros l i' -> Hk ret [(-> & HF & ->)|(-> & HF & Hl)]; [left|right]; (split; [done|]).
    - split; [by constructor|done].
    - split; [|simpl; lia]. intros HF'. inversion HF'. done. }
  destruct (is_helper_call i) eqn:Ei; simpl.
  - destruct (helper_of (imm i)) as [f|] eqn:Ef.
    + destruct (bpfhv_helper_calls_fixup func_offset insns) as [ret l]. apply Hcons; [|by intros _; rewrite Ef|done].
      unfold fix_insn. by rewrite Ei, Ef.
    + right. split; [done|]. split; [|done]. intros HF. inversion HF as [|? ? Hk _]; subst.
      destruct (Hk Ei) as [f Hf]. congruence.
  - destruct (bpfhv_helper_calls_fixup func_offset insns) as [ret l]. apply Hcons; [|by intros ?; congruence|done].
    unfold fix_insn. by rewrite Ei.
Qed.

End fixup.

(** ** Accounting *)

Definition pallocs (es : list event) : list Z := omap (fun e => match e with ProgAlloc i => Some i | _ => None end) es.
Definition pfrees (es : list event) : list Z := omap (fun e => match e with ProgFree i => Some i | _ => None end) es.
Definition callocs (es : list event) : list (Z * Z * Z) :=
  omap (fun e => match e with CtxAlloc q a s => Some (q, a, s) | _ => None end) es.
Definition cfrees (es : list event) : list (Z * Z * Z) :=
  omap (fun e => match e with CtxFree q a s => Some (q, a, s) | _ => None end) es.

Definition held_progs (bi : bpfhv_info) : list Z := filter (fun i => is_Some (get_prog i bi)) prog_indices.

Fixpoint held_ctxs (size qidx : Z) (qs : list queue) : list (Z * Z * Z) :=
  match qs with
  | [] => []
  | q :: qs =>
      match q_ctx q with Some c => [(qidx, qc_addr c, size)] | None => [] end ++ held_ctxs size (qidx + 1) qs
  end.

Definition bi_ctxs (bi : bpfhv_info) : list (Z * Z * Z) :=
  held_ctxs (rx_ctx_size bi) 0 (rxqs bi) ++ held_ctxs (tx_ctx_size bi) (num_rx_queues bi) (txqs bi).

(** Each program and each context that was allocated has been released, once,
    or is one of those in use. *)
Record accounted (bi : bpfhv_info) : Prop := {
  ac_size : Z.of_nat (length (progs bi)) = BPFHV_PROG_MAX;
  ac_progs : pallocs (log bi) ≡ₚ pfrees (log bi) ++ held_progs bi;
  ac_ctxs : callocs (log bi) ≡ₚ cfrees (log bi) ++ bi_ctxs bi;
}.

(** Nothing is allocated. *)
Record cleared (bi : bpfhv_info) : Prop := {
  cl_progs : forall i, i ∈ prog_indices -> get_prog i bi = None;
  cl_rx : Forall (fun q => q_ctx q = None) (rxqs bi);
  cl_tx : Forall (fun q => q_ctx q = None) (txqs bi);
}.

Lemma filter_toggle {A} `{!EqDecision A} (P P' : A -> Prop) `{!forall x, Decision (P x), !forall x, Decision (P' x)} (l : list A) x :
  NoDup l -> x ∈ l -> P' x -> ~ P x -> (forall y, y ∈ l -> y <> x -> P y <-> P' y) ->
  filter P' l ≡ₚ x :: filter P l.
Proof.
  induction l as [|y l IH]; intros Hnd Hx HP' HP Hsame; [by apply elem_of_nil in Hx|].
  apply list.NoDup_cons in Hnd as [Hy Hnd]. rewrite !filter_cons.
  destruct (decide (y = x)) as [->|Hne].
  - rewrite decide_True, decide_False by done. constructor.
    assert (Heq : forall l' : list A, (forall z, z ∈ l' -> z ∈ l) -> filter P' l' = filter P l').
    { induction l' as [|z l' IH']; intros Hin; [done|]. rewrite !filter_cons, IH' by (intros; apply Hin; by right).
      assert (z ∈ l) by (apply Hin; by left). assert (z <> x) by (by intros ->).
      pose proof (Hsame z ltac:(by right) ltac:(done)). by case_decide; case_decide; tauto || done. }
    by rewrite Heq.
  - apply elem_of_cons in Hx as [?|Hx]; [congruence|].
    pose proof (Hsame y ltac:(by left) Hne) as Hyy.
    assert (IH' : filter P' l ≡ₚ x :: filter P l) by (apply IH; [done..|intros; apply Hsame; [by right|done]]).
    destruct (decide (P' y)), (decide (P y)); try tauto. rewrite IH'. apply perm_swap.
Qed.

Lemma prog_indices_nodup : NoDup prog_indices.
Proof. apply NoDup_seqZ. Qed.

Lemma prog_index_range i : i ∈ prog_indices -> 1 <= i < BPFHV_PROG_MAX.
Proof. intros Hi%elem_of_seqZ. unfold BPFHV_PROG_NONE, BPFHV_PROG_MAX in *. lia. Qed.

Lemma get_set_prog i j p bi : Z.of_nat (length (progs bi)) = BPFHV_PROG_MAX -> i ∈ prog_indices -> j ∈ prog_indices ->
  get_prog j (set_prog i p bi) = if decide (j = i) then p else get_prog j bi.
Proof.
  intros Hl Hi Hj. apply prog_index_range in Hi, Hj. unfold get_prog, set_prog; simpl. case_decide as E.
  - subst j. rewrite list_lookup_insert_eq by lia. done.
  - by rewrite list_lookup_insert_ne by lia.
Qed.

Lemma held_set_some i p bi : Z.of_nat (length (progs bi)) = BPFHV_PROG_MAX -> i ∈ prog_indices -> get_prog i bi = None ->
  held_progs (set_prog i (Some p) bi) ≡ₚ i :: held_progs bi.
Proof.
  intros Hl Hi Hn. apply filter_toggle; [apply prog_indices_nodup|done| | |].
  - rewrite get_set_prog, decide_True by done. done.
  - rewrite Hn. by intros [? ?].
  - intros j Hj Hne. by rewrite get_set_prog, decide_False by done.
Qed.

Lemma held_set_none i bi : Z.of_nat (length (progs bi)) = BPFHV_PROG_MAX -> i ∈ prog_indices -> is_Some (get_prog i bi) ->
  held_progs bi ≡ₚ i :: held_progs (set_prog i None bi).
Proof.
  intros Hl Hi Hs. apply filter_toggle; [apply prog_indices_nodup|done|done| |].
  - rewrite get_set_prog, decide_True by done. by intros [? ?].
  - intros j Hj Hne. by rewrite get_set_prog, decide_False by done.
Qed.

(** Addresses written to the registers are neither allocations nor releases. *)
Lemma ctx_write_quiet q a : pallocs (ctx_paddr_write q a) = [] /\ pfrees (ctx_paddr_write q a) = [] /\
  callocs (ctx_paddr_write q a) = [] /\ cfrees (ctx_paddr_write q a) = [].
Proof. done. Qed.

Ltac log_app := unfold pallocs, pfrees, callocs, cfrees in *; rewrite ?omap_app, ?app_nil_r; simpl omap; rewrite ?app_nil_r.

(** *** Teardown *)

Lemma free_prog_spec bi i : accounted bi -> i ∈ prog_indices ->
  let bi' := free_prog bi i in
  accounted bi' /\ get_prog i bi' = None /\ (forall j, j ∈ prog_indices -> get_prog j bi = None -> get_prog j bi' = None) /\
  rxqs bi' = rxqs bi /\ txqs bi' = txqs bi /\ rx_ctx_size bi' = rx_ctx_size bi /\ tx_ctx_size bi' = tx_ctx_size bi.
Proof.
  intros [Hl Hp Hc] Hi. unfold free_prog. destruct (get_prog i bi) as [p|] eqn:E; last by split_and!.
  assert (Hl' : Z.of_nat (length (progs (emit [ProgFree i] bi))) = BPFHV_PROG_MAX) by done.
  split_and!; try done.
  - split.
    + simpl. by rewrite length_insert.
    + simpl. log_app. rewrite Hp, <- (assoc_L (++)). f_equiv.
      change (held_progs bi) with (held_progs (emit [ProgFree i] bi)). apply held_set_none; [done..|].
      unfold get_prog in *; simpl. by rewrite E.
    + simpl. log_app. exact Hc.
  - rewrite get_set_prog, decide_True by done. done.
  - intros j Hj Hn. rewrite get_set_prog by done. by case_decide.
Qed.

Lemma free_progs_spec l : forall bi, accounted bi -> (forall i, i ∈ l -> i ∈ prog_indices) ->
  let bi' := foldl free_prog bi l in
  accounted bi' /\ (forall i, i ∈ prog_indices -> i ∈ l \/ get_prog i bi = None -> get_prog i bi' = None) /\
  rxqs bi' = rxqs bi /\ txqs bi' = txqs bi /\ rx_ctx_size bi' = rx_ctx_size bi /\ tx_ctx_size bi' = tx_ctx_size bi.
Proof.
  induction l as [|i l IH]; intros bi Hac Hin; simpl.
  { split_and!; try done. intros i _ [Hi|Hi]; [by apply elem_of_nil in Hi|done]. }
  destruct (free_prog_spec bi i Hac (Hin i ltac:(by left))) as (H1 & H2 & H3 & E1 & E2 & E3 & E4).
  destruct (IH (free_prog bi i) H1 ltac:(intros; apply Hin; by right)) as (G1 & G2 & F1 & F2 & F3 & F4).
  split_and!; try done; try congruence. intros j Hj Hd. apply G2; [done|].
  destruct Hd as [[->|Hd]%elem_of_cons|Hd]; [by right|by left|right; by apply H3].
Qed.

Lemma free_ctxs_spec size qs : forall q0,
  let '(es, qs') := free_ctxs size q0 qs in
  pallocs es = [] /\ pfrees es = [] /\ callocs es = [] /\ cfrees es = held_ctxs size q0 qs /\
  Forall (fun q => q_ctx q = None) qs' /\ length qs' = length qs.
Proof.
  induction qs as [|q qs IH]; intros q0; simpl; [done|].
  unfold free_ctx. specialize (IH (q0 + 1)). destruct (free_ctxs size (q0 + 1) qs) as [es qs'].
  destruct IH as (I1 & I2 & I3 & I4 & I5 & I6).
  destruct (q_ctx q) as [c|] eqn:Eq; unfold pallocs, pfrees, callocs, cfrees in *; rewrite ?omap_app; simpl;
    rewrite ?I1, ?I2, ?I3, ?I4; (split_and!; [done..| |by rewrite I6]); by constructor.
Qed.

Lemma held_ctxs_none size qs : Forall (fun q => q_ctx q = None) qs -> forall q0, held_ctxs size q0 qs = [].
Proof. intros HF. induction HF as [|q qs Hq _ IH]; intros q0; simpl; [done|]. by rewrite Hq, IH. Qed.

Lemma filter_none {A} (P : A -> Prop) `{!forall x, Decision (P x)} (l : list A) :
  (forall x, x ∈ l -> ~ P x) -> filter P l = [].
Proof.
  induction l as [|x l IH]; intros Hl; [done|]. rewrite filter_cons, decide_False by (apply Hl; by left).
  apply IH. intros y Hy. apply Hl. by right.
Qed.

Lemma cleared_holds bi : cleared bi -> held_progs bi = [] /\ bi_ctxs bi = [].
Proof.
  intros [H1 H2 H3]. unfold held_progs, bi_ctxs. rewrite !held_ctxs_none by done. split; [|done].
  apply filter_none. intros i Hi. rewrite H1 by done. by intros [? ?].
Qed.

Lemma teardown_spec bi : accounted bi ->
  let bi' := bpfhv_programs_teardown bi in
  accounted bi' /\ cleared bi' /\ length (rxqs bi') = length (rxqs bi) /\ length (txqs bi') = length (txqs bi).
Proof.
  intros Hac. unfold bpfhv_programs_teardown.
  destruct (free_progs_spec prog_indices bi Hac ltac:(done)) as ([Hl Hp Hc] & Hn & E1 & E2 & E3 & E4).
  generalize dependent (foldl free_prog bi prog_indices). intros bi1 Hl Hp Hc Hn E1 E2 E3 E4. cbv zeta. rewrite E1, E3.
  pose proof (free_ctxs_spec (rx_ctx_size bi) (rxqs bi) 0) as F1.
  destruct (free_ctxs (rx_ctx_size bi) 0 (rxqs bi)) as [es qs]. destruct F1 as (A1 & A2 & A3 & A4 & A5 & A6).
  simpl. rewrite E2, E4. unfold num_rx_queues; simpl. rewrite A6.
  pose proof (free_ctxs_spec (tx_ctx_size bi) (txqs bi) (num_rx_queues bi)) as F2. unfold num_rx_queues in F2.
  destruct (free_ctxs (tx_ctx_size bi) _ (txqs bi)) as [es' qs']. destruct F2 as (B1 & B2 & B3 & B4 & B5 & B6).
  set (bi2 := emit es' _). assert (Hcl : cleared bi2).
  { split; [|done|done]. intros i Hi. apply (Hn i Hi). by left. }
  split; [|by split]. destruct (cleared_holds _ Hcl) as [Hh1 Hh2]. split; [done| |]; rewrite ?Hh1, ?Hh2, app_nil_r.
  - unfold pallocs, pfrees in *; subst bi2; simpl; rewrite !omap_app, A1, A2, B1, B2, !app_nil_r.
    rewrite Hp. assert (held_progs bi1 = []) as ->; [|by rewrite app_nil_r].
    apply filter_none. intros i Hi. rewrite (Hn i Hi) by (by left). by intros [? ?].
  - unfold callocs, cfrees in *; subst bi2; simpl; rewrite !omap_app, A3, A4, B3, B4, !app_nil_r.
    rewrite Hc, <- (assoc_L (++)). unfold bi_ctxs, num_rx_queues. by rewrite E1, E2, E3, E4.
Qed.

(** *** The registers of the device *)

(** The register that [BPFHV_REG_QUEUE_SELECT] selects, and the two halves of
    the address of each queue's context. *)
Record device := mk_dev { dv_select : Z; dv_lo : gmap Z Z; dv_hi : gmap Z Z }.

Definition dev_step (d : device) (ev : event) : device :=
  match ev with
  | Writel reg val =>
      if reg =? BPFHV_REG_QUEUE_SELECT then mk_dev val (dv_lo d) (dv_hi d)
      else if reg =? BPFHV_REG_CTX_PADDR_LO then mk_dev (dv_select d) (<[dv_select d := val]> (dv_lo d)) (dv_hi d)
      else if reg =? BPFHV_REG_CTX_PADDR_HI then mk_dev (dv_select d) (dv_lo d) (<[dv_select d := val]> (dv_hi d))
      else d
  | _ => d
  end.

Definition dev_run (es : list event) (d : device) : device := foldl dev_step d es.
Definition dev_paddr (d : device) (q : Z) : Z := default 0 (dv_lo d !! q) + 2 ^ 32 * default 0 (dv_hi d !! q).

Definition addr_ok (a : Z) : Prop := 0 <= a < 2 ^ 64.

Lemma dev_run_app es es' d : dev_run (es ++ es') d = dev_run es' (dev_run es d).
Proof. apply foldl_app. Qed.

Lemma dev_run_write q a d : addr_ok a ->
  forall q', dev_paddr (dev_run (ctx_paddr_write q a) d) q' = if decide (q' = q) then a else dev_paddr d q'.
Proof.
  intros Ha q'. unfold dev_paddr, dev_run; simpl. case_decide as E.
  - subst q'. rewrite !lookup_insert_eq. simpl. change 0xffffffff with (Z.ones 32).
    rewrite !Z.land_ones, Z.shiftr_div_pow2 by lia. unfold addr_ok in Ha.
    rewrite (Z.mod_small (a / 2 ^ 32)) by (split; [apply Z.div_pos|apply Z.div_lt_upper_bound]; lia).
    pose proof (Z.div_mod a (2 ^ 32)). lia.
  - by rewrite !lookup_insert_ne.
Qed.

Definition ctx_addr (q : queue) : Z := from_option qc_addr 0 (q_ctx q).

(** The device holds the addresses of the contexts of the queues from [q0] on. *)
Definition registers (d : device) (q0 : Z) (qs : list queue) : Prop :=
  forall k q, qs !! k = Some q -> dev_paddr d (q0 + Z.of_nat k) = ctx_addr q.

Definition registered (bi : bpfhv_info) (d : device) : Prop :=
  registers d 0 (rxqs bi) /\ registers d (num_rx_queues bi) (txqs bi).

Lemma registers_nil d q0 : registers d q0 [].
Proof. intros k q Hk. by rewrite lookup_nil in Hk. Qed.

Lemma registers_cons d q0 q qs : dev_paddr d q0 = ctx_addr q -> registers d (q0 + 1) qs -> registers d q0 (q :: qs).
Proof.
  intros Hq Hqs [|k] q' Hk; simpl in Hk.
  - simplify_eq. by rewrite Z.add_0_r.
  - rewrite <- (Hqs k q' Hk). f_equal. lia.
Qed.

(** What a loop over the queues from [q0] on leaves of the other queues. *)
Lemma registers_frame d d' q0 qs : (forall q, q0 <= q < q0 + Z.of_nat (length qs) -> dev_paddr d' q = dev_paddr d q) ->
  registers d q0 qs -> registers d' q0 qs.
Proof. intros Hf Hr k q Hk. rewrite Hf; [by apply Hr|]. apply lookup_lt_Some in Hk. lia. Qed.

Lemma free_ctxs_dev size qs : forall q0 d, let '(es, qs') := free_ctxs size q0 qs in
  registers (dev_run es d) q0 qs' /\ (forall q, ~ q0 <= q < q0 + Z.of_nat (length qs) -> dev_paddr (dev_run es d) q = dev_paddr d q).
Proof.
  induction qs as [|q qs IH]; intros q0 d; cbn [free_ctxs]; [by split; [apply registers_nil|]|].
  assert (Hf : exists es, (free_ctx size q0 q) = (es ++ ctx_paddr_write q0 0, mk_queue None (q_free_bufs q)) /\
    dev_run es d = d).
  { unfold free_ctx. destruct q as [[c|] fb]; simpl; [by exists [CtxFree q0 (qc_addr c) size]|by exists []]. }
  destruct Hf as (es0 & -> & Hes0). set (es1 := es0 ++ _).
  specialize (IH (q0 + 1) (dev_run es1 d)). destruct (free_ctxs size (q0 + 1) qs) as [es' qs']. destruct IH as [I1 I2].
  rewrite dev_run_app. assert (Hw := dev_run_write q0 0 d ltac:(done)).
  assert (E1 : dev_run es1 d = dev_run (ctx_paddr_write q0 0) d) by (unfold es1; by rewrite dev_run_app, Hes0).
  split.
  - apply registers_cons; [|done]. rewrite I2 by lia. by rewrite E1, Hw, decide_True.
  - intros j Hj. cbn [length] in Hj. rewrite I2, E1, Hw, decide_False by lia. done.
Qed.

Lemma teardown_registers bi d : registered (bpfhv_programs_teardown bi) (dev_run (log (bpfhv_programs_teardown bi)) d).
Proof.
  unfold bpfhv_programs_teardown. generalize (foldl free_prog bi prog_indices). intros bi1. cbv zeta.
  pose proof (free_ctxs_dev (rx_ctx_size bi1) (rxqs bi1) 0 (dev_run (log bi1) d)) as F1.
  pose proof (free_ctxs_spec (rx_ctx_size bi1) (rxqs bi1) 0) as G1.
  destruct (free_ctxs (rx_ctx_size bi1) 0 (rxqs bi1)) as [es qs]. destruct F1 as [A1 A2]. destruct G1 as (_ & _ & _ & _ & _ & El).
  set (bi2 := emit es (set_rxqs qs bi1)). assert (E2 : dev_run (log bi2) d = dev_run es (dev_run (log bi1) d)) by apply dev_run_app.
  pose proof (free_ctxs_dev (tx_ctx_size bi2) (txqs bi2) (num_rx_queues bi2) (dev_run (log bi2) d)) as F2.
  destruct (free_ctxs (tx_ctx_size bi2) (num_rx_queues bi2) (txqs bi2)) as [es' qs']. destruct F2 as [B1 B2].
  unfold registered. cbn [emit set_txqs log rxqs txqs num_rx_queues]. rewrite dev_run_app. split; [|done].
  apply (registers_frame (dev_run (log bi2) d)); [|by rewrite E2].
  intros q Hq. apply B2. unfold num_rx_queues. lia.
Qed.

(** *** Loading *)

Section setup.
Context (func_offset : helper -> Z) (e : setup_env).

(** What program [i] is when its part of the set-up succeeds. *)
Definition loads (i : Z) : Prop :=
  (se_prog_size e i = 0 /\ prog_is_optional i = true) \/
  (0 < se_prog_size e i <= BPFHV_PROG_SIZE_MAX /\ Forall known_call (read_prog e i (se_prog_size e i)) /\
   se_prog_alloc e i = true /\ se_prog_runtime e i = true).

Definition loaded_prog (i : Z) : option (list bpf_insn) :=
  if (se_prog_size e i =? 0) && prog_is_optional i then None
  else Some (fix_insn func_offset <$> read_prog e i (se_prog_size e i)).

(** The queues are not touched by the loop over the programs. *)
Record same_queues (bi bi' : bpfhv_info) : Prop := {
  sq_rx : rxqs bi' = rxqs bi;
  sq_tx : txqs bi' = txqs bi;
  sq_rxb : rx_bufs bi' = rx_bufs bi;
  sq_txb : tx_bufs bi' = tx_bufs bi;
  sq_rxs : rx_ctx_size bi' = rx_ctx_size bi;
  sq_txs : tx_ctx_size bi' = tx_ctx_size bi;
}.

Lemma bi_queues_trans bi bi' bi'' : same_queues bi bi' -> same_queues bi' bi'' -> same_queues bi bi''.
Proof. intros [] []. split; congruence. Qed.

Hypothesis Hsize : forall i, 0 <= se_prog_size e i.

(** One program that loads. *)
Lemma accounted_load bi i p : accounted bi -> i ∈ prog_indices -> get_prog i bi = None ->
  accounted (set_prog i (Some p) (emit [ProgAlloc i] bi)).
Proof.
  intros [Hl Hp Hc] Hi Hn. split.
  - simpl. by rewrite length_insert.
  - simpl. log_app. rewrite Hp, (held_set_some i p (emit [ProgAlloc i] bi)) by done.
    rewrite <- (assoc_L (++)). f_equiv. by rewrite Permutation_app_comm.
  - simpl. log_app. exact Hc.
Qed.

Lemma set_none_id bi i : accounted bi -> i ∈ prog_indices -> get_prog i bi = None -> set_prog i None bi = bi.
Proof.
  intros Hac Hi Hn. apply prog_index_range in Hi. unfold set_prog. rewrite list_insert_id; [by destruct bi|].
  unfold get_prog in Hn. pose proof (ac_size _ Hac).
  destruct (lookup_lt_is_Some_2 (progs bi) (Z.to_nat i)) as [x Hx]; [lia|]. rewrite Hx in Hn |- *. simpl in Hn. by subst x.
Qed.

(** Writes to registers. *)
Lemma accounted_quiet bi es : pallocs es = [] -> pfrees es = [] -> callocs es = [] -> cfrees es = [] ->
  accounted bi -> accounted (emit es bi).
Proof.
  unfold pallocs, pfrees, callocs, cfrees. intros E1 E2 E3 E4 [Hl Hp Hc].
  split; simpl; [done| |]; log_app; rewrite ?E1, ?E2, ?E3, ?E4, ?app_nil_r; done.
Qed.

(** A program that is allocated and released at once. *)
Lemma accounted_fail bi i : accounted bi -> accounted (emit [ProgFree i] (emit [ProgAlloc i] bi)).
Proof.
  intros [Hl Hp Hc]. split; simpl; [done| |]; log_app; [|done]. rewrite Hp.
  change (held_progs (emit _ _)) with (held_progs bi). by rewrite <- !(assoc_L (++)), (Permutation_app_comm [i]).
Qed.

Lemma load_progs_spec todo : forall ret bi, accounted bi -> NoDup todo ->
  (forall i, i ∈ todo -> i ∈ prog_indices /\ get_prog i bi = None) ->
  let '(ok, ret', bi') := load_progs func_offset e todo ret bi in
  accounted bi' /\ same_queues bi bi' /\
  (forall j, j ∈ prog_indices -> j ∉ todo -> get_prog j bi' = get_prog j bi) /\
  (if ok then Forall loads todo /\ (forall i, i ∈ todo -> get_prog i bi' = loaded_prog i)
   else ~ Forall loads todo).
Proof.
  induction todo as [|i todo IH]; intros ret bi Hac Hnd Hin; cbn [load_progs].
  { split_and!; try done. intros i Hi; by apply elem_of_nil in Hi. }
  apply list.NoDup_cons in Hnd as [Hni Hnd]. destruct (Hin i ltac:(by left)) as [Hi Hn].
  assert (Htail : forall j, j ∈ todo -> j ∈ prog_indices /\ get_prog j bi = None) by (intros; apply Hin; by right).
  set (bi0 := emit [Writel BPFHV_REG_PROG_SELECT i] bi).
  assert (Hac0 : accounted bi0) by (by apply accounted_quiet).
  (* the rest of the loop, from a state with program [i] set *)
  assert (Hrest : forall ret1 bi1, accounted bi1 -> same_queues bi bi1 -> loads i ->
    (forall j, j ∈ prog_indices -> get_prog j bi1 = if decide (j = i) then loaded_prog i else get_prog j bi) ->
    let '(ok, ret', bi') := load_progs func_offset e todo ret1 bi1 in
    accounted bi' /\ same_queues bi bi' /\ (forall j, j ∈ prog_indices -> j ∉ i :: todo -> get_prog j bi' = get_prog j bi) /\
    (if ok then Forall loads (i :: todo) /\ (forall j, j ∈ i :: todo -> get_prog j bi' = loaded_prog j)
     else ~ Forall loads (i :: todo))).
  { intros ret1 bi1 Hac1 Hsq Hlo Hg. specialize (IH ret1 bi1 Hac1 Hnd).
    destruct (load_progs func_offset e todo ret1 bi1) as [[ok ret'] bi']. destruct IH as (I1 & I2 & I3 & I4).
    { intros j Hj. destruct (Htail j Hj). split; [done|]. rewrite Hg, decide_False by (done || by intros ->). done. }
    split_and!; [done|by eapply bi_queues_trans| |].
    { intros j Hj [Hne Hnt]%not_elem_of_cons. rewrite I3, Hg, decide_False by done. done. }
    destruct ok; [|intros HF; apply I4; by inversion HF]. destruct I4 as (J1 & J2). split; [by constructor|].
    intros j [->|Hj]%elem_of_cons; [|by apply J2]. by rewrite I3, Hg, decide_True. }
  assert (Hstop : forall ret1 bi1, accounted bi1 -> same_queues bi bi1 -> progs bi1 = progs bi -> ~ loads i ->
    accounted bi1 /\ same_queues bi bi1 /\ (forall j, j ∈ prog_indices -> j ∉ i :: todo -> get_prog j bi1 = get_prog j bi) /\
    (if false then ret1 = 0 else ~ Forall loads (i :: todo))).
  { intros _ bi1 H1 H2 H3 Hlo. split_and!; [done..| |]; [intros j _ _; unfold get_prog; by rewrite H3|].
    intros HF. by inversion HF. }
  clear IH Htail Hni Hnd.
  destruct ((se_prog_size e i =? 0) && prog_is_optional i) eqn:Eopt.
  { apply Hrest.
    - by rewrite set_none_id.
    - done.
    - left. by zify_bool.
    - intros j Hj. rewrite get_set_prog by (done || apply Hac). unfold loaded_prog. by rewrite Eopt. }
  destruct ((se_prog_size e i =? 0) || (BPFHV_PROG_SIZE_MAX <? se_prog_size e i)) eqn:Elen.
  { apply (Hstop ret); [done..|]. intros [[E1 E2]|(E1 & _)]; [by rewrite E1, E2 in Eopt|].
    apply orb_true_iff in Elen as [?|?]; zify_bool; lia. }
  pose proof (Hsize i) as Hpos. pose proof (fixup_spec func_offset (read_prog e i (se_prog_size e i))) as Hfix.
  destruct (bpfhv_helper_calls_fixup func_offset (read_prog e i (se_prog_size e i))) as [r insns].
  assert (Hno : (Forall known_call (read_prog e i (se_prog_size e i)) -> se_prog_alloc e i = true ->
    se_prog_runtime e i = true -> False) -> ~ loads i).
  { intros HP [[E1 E2]|(_ & E2 & E3 & E4)]; [by rewrite E1, E2 in Eopt|by apply HP]. }
  destruct Hfix as [(-> & Hk & ->)|(-> & Hk & _)]; [|by apply (Hstop ret); try done; apply Hno].
  cbn [Z.eqb negb]. unfold bpfhv_prog_alloc.
  destruct (se_prog_alloc e i) eqn:Eal; [destruct (se_prog_runtime e i) eqn:Ert|]; cbv beta iota.
  - apply Hrest; [by apply accounted_load|done| |].
    + right. zify_bool. split_and!; done || lia.
    + intros j Hj. rewrite get_set_prog by (done || apply Hac). unfold loaded_prog. by rewrite Eopt.
  - rewrite set_none_id by (done || by apply accounted_fail).
    apply (Hstop 0); [by apply accounted_fail|done..|]. apply Hno. congruence.
  - rewrite set_none_id by done. apply (Hstop 0); [done..|]. apply Hno. congruence.
Qed.

(** The loop over the programs leaves the addresses of the contexts alone. *)
Lemma load_progs_dev todo : forall ret bi d, let '(_, _, bi') := load_progs func_offset e todo ret bi in
  forall q, dev_paddr (dev_run (log bi') d) q = dev_paddr (dev_run (log bi) d) q.
Proof using.
  induction todo as [|i todo IH]; intros ret bi d; cbn [load_progs]; [done|].
  assert (Hrest : forall ret1 bi1, (forall q, dev_paddr (dev_run (log bi1) d) q = dev_paddr (dev_run (log bi) d) q) ->
    let '(_, _, bi') := load_progs func_offset e todo ret1 bi1 in
    forall q, dev_paddr (dev_run (log bi') d) q = dev_paddr (dev_run (log bi) d) q).
  { intros ret1 bi1 H1. specialize (IH ret1 bi1 d). destruct (load_progs func_offset e todo ret1 bi1) as [[? ?] bi'].
    intros q. by rewrite IH. }
  case_if; [apply Hrest; intros q; cbn [log set_prog set_progs emit]; by rewrite dev_run_app|].
  case_if; [intros q; cbn [log emit]; by rewrite dev_run_app|].
  destruct (bpfhv_helper_calls_fixup _ _) as [r1 ins]. case_if; [intros q; cbn [log emit]; by rewrite dev_run_app|].
  unfold bpfhv_prog_alloc. repeat case_if; cbv beta iota; try apply Hrest; intros q; cbn [log set_prog set_progs emit];
    by rewrite ?dev_run_app.
Qed.

(** *** Contexts *)

Hypothesis Hdma : forall q a, se_dma e q = Some a -> addr_ok a.

Lemma alloc_ctxs_spec size nbufs qs : forall q0, Forall (fun q => q_ctx q = None) qs ->
  let '(ok, es, qs') := alloc_ctxs e size nbufs q0 qs in
  pallocs es = [] /\ pfrees es = [] /\ cfrees es = [] /\ callocs es = held_ctxs size q0 qs' /\ length qs' = length qs /\
  (if ok then forall k, (k < length qs)%nat -> exists a, se_dma e (q0 + Z.of_nat k) = Some a /\
                qs' !! k = Some (mk_queue (Some (mk_qctx a (se_priv e (q0 + Z.of_nat k)) 1)) nbufs)
   else exists k q, (k < length qs)%nat /\ se_dma e (q0 + Z.of_nat k) = None /\ qs' !! k = Some q /\ q_ctx q = None).
Proof using.
  induction qs as [|q qs IH]; intros q0 HF; cbn [alloc_ctxs].
  { split_and!; try done. intros k Hk. simpl in Hk. lia. }
  inversion HF as [|? ? Hq HF']; subst. destruct (se_dma e q0) as [a|] eqn:Ea.
  - specialize (IH (q0 + 1) HF'). destruct (alloc_ctxs e size nbufs (q0 + 1) qs) as [[ok es] qs'].
    destruct IH as (I1 & I2 & I3 & I4 & I5 & I6). unfold pallocs, pfrees, callocs, cfrees in *.
    change (CtxAlloc q0 a size :: ctx_paddr_write q0 a ++ es) with ((CtxAlloc q0 a size :: ctx_paddr_write q0 a) ++ es).
    rewrite !omap_app, I1, I2, I3, I4. split_and!; [done..|by simpl; rewrite I5|]. destruct ok.
    + intros [|k] Hk; [rewrite Z.add_0_r; by exists a|]. destruct (I6 k ltac:(simpl in Hk; lia)) as (b & E1 & E2).
      replace (q0 + Z.of_nat (S k)) with (q0 + 1 + Z.of_nat k) by lia. by exists b.
    + destruct I6 as (k & q' & Hk & E1 & E2 & E3). exists (S k), q'. split_and!; [simpl; lia| |done..].
      rewrite <- E1. f_equal. lia.
  - split_and!; try done; simpl; [by rewrite held_ctxs_none|].
    exists 0%nat, (mk_queue None (q_free_bufs q)). rewrite Z.add_0_r. split_and!; done || simpl; lia.
Qed.

Lemma alloc_ctxs_dev size nbufs qs : forall q0 d, Forall (fun q => q_ctx q = None) qs -> registers d q0 qs ->
  let '(ok, es, qs') := alloc_ctxs e size nbufs q0 qs in
  registers (dev_run es d) q0 qs' /\ (forall q, ~ q0 <= q < q0 + Z.of_nat (length qs) -> dev_paddr (dev_run es d) q = dev_paddr d q).
Proof using Hdma.
  induction qs as [|q qs IH]; intros q0 d HF Hr; cbn [alloc_ctxs]; [by split; [apply registers_nil|]|].
  inversion HF as [|? ? Hq HF']; subst. assert (Hr0 := Hr 0%nat q eq_refl). rewrite Z.add_0_r in Hr0.
  assert (Hr1 : registers d (q0 + 1) qs).
  { intros k q' Hk. rewrite <- (Hr (S k) q' Hk). f_equal. lia. }
  destruct (se_dma e q0) as [a|] eqn:Ea.
  - pose proof (dev_run_write q0 a d (Hdma _ _ Ea)) as Hw. set (d1 := dev_run (ctx_paddr_write q0 a) d) in *.
    specialize (IH (q0 + 1) d1 HF'). destruct (alloc_ctxs e size nbufs (q0 + 1) qs) as [[ok es] qs'].
    destruct IH as [I1 I2]; [apply (registers_frame d); [|done]; intros j Hj; rewrite Hw, decide_False by lia; done|].
    change (CtxAlloc q0 a size :: ctx_paddr_write q0 a ++ es) with ([CtxAlloc q0 a size] ++ ctx_paddr_write q0 a ++ es).
    rewrite !dev_run_app. change (dev_run [CtxAlloc q0 a size] d) with d. fold d1. split.
    + apply registers_cons; [|done]. rewrite I2 by lia. by rewrite Hw, decide_True.
    + intros j Hj. cbn [length] in Hj. rewrite I2, Hw, decide_False by lia. done.
  - change (dev_run [] d) with d. split; [|done]. apply registers_cons; [|done]. rewrite Hr0. unfold ctx_addr. by rewrite Hq.
Qed.

Definition no_ctx (q : queue) : Prop := q_ctx q = None.

Definition num_queues (bi : bpfhv_info) : nat := (length (rxqs bi) + length (txqs bi))%nat.
Definition queues (bi : bpfhv_info) : list queue := rxqs bi ++ txqs bi.

(** The numbers of queues are the same. *)
Definition same_num (bi bi' : bpfhv_info) : Prop := length (rxqs bi') = length (rxqs bi) /\ length (txqs bi') = length (txqs bi).

Lemma same_num_total bi bi' : same_num bi bi' -> num_queues bi' = num_queues bi.
Proof using. intros [H1 H2]. unfold num_queues. lia. Qed.

Lemma same_num_trans bi bi' bi'' : same_num bi bi' -> same_num bi' bi'' -> same_num bi bi''.
Proof using. intros [] []. split; congruence. Qed.

(** The context of queue [k], with [nbufs] free buffers, as the device has it. *)
Definition fresh_queue (nbufs k : Z) (q : queue) : Prop :=
  exists a, se_dma e k = Some a /\ q = mk_queue (Some (mk_qctx a (se_priv e k) 1)) nbufs.

Definition fresh_queues (nrx nbufs ntx tbufs : Z) (bi : bpfhv_info) : Prop :=
  Z.of_nat (length (rxqs bi)) = nrx /\ Z.of_nat (length (txqs bi)) = ntx /\
  (forall k q, rxqs bi !! k = Some q -> fresh_queue nbufs (Z.of_nat k) q) /\
  (forall k q, txqs bi !! k = Some q -> fresh_queue tbufs (nrx + Z.of_nat k) q).

(** Contexts are allocated where there were none. *)
Lemma accounted_ctxs bi bi' es : accounted bi -> bi_ctxs bi = [] -> progs bi' = progs bi -> log bi' = log bi ++ es ->
  pallocs es = [] -> pfrees es = [] -> cfrees es = [] -> callocs es = bi_ctxs bi' -> accounted bi'.
Proof using.
  intros [Hl Hp Hc] Hn Eq El E1 E2 E3 E4. unfold pallocs, pfrees, callocs, cfrees in *. split.
  - by rewrite Eq.
  - unfold pallocs, pfrees. rewrite El, !omap_app, E1, E2, !app_nil_r. unfold held_progs, get_prog in *. by rewrite Eq.
  - unfold callocs, cfrees. rewrite El, !omap_app, E3, E4, app_nil_r. f_equiv. by rewrite Hc, Hn, app_nil_r.
Qed.

Lemma alloc_contexts_spec bi d : accounted bi -> Forall no_ctx (rxqs bi) -> Forall no_ctx (txqs bi) ->
  registered bi (dev_run (log bi) d) ->
  let '(ok, bi') := alloc_contexts e bi in
  accounted bi' /\ registered bi' (dev_run (log bi') d) /\ progs bi' = progs bi /\ same_num bi bi' /\
  (if ok then fresh_queues (num_rx_queues bi) (rx_bufs bi) (Z.of_nat (length (txqs bi))) (tx_bufs bi) bi'
   else Exists no_ctx (queues bi') /\ exists q, 0 <= q < Z.of_nat (num_queues bi) /\ se_dma e q = None).
Proof using Hdma.
  intros Hac Hrx Htx [Rr Rt]. unfold alloc_contexts.
  assert (Hno : bi_ctxs bi = []) by (unfold bi_ctxs; by rewrite !held_ctxs_none).
  pose proof (alloc_ctxs_spec (rx_ctx_size bi) (rx_bufs bi) (rxqs bi) 0 Hrx) as A.
  pose proof (alloc_ctxs_dev (rx_ctx_size bi) (rx_bufs bi) (rxqs bi) 0 (dev_run (log bi) d) Hrx Rr) as B.
  destruct (alloc_ctxs e _ _ 0 (rxqs bi)) as [[ok es] qs]. destruct A as (A1 & A2 & A3 & A4 & A5 & A6). destruct B as [B1 B2].
  set (bi1 := emit es (set_rxqs qs bi)). cbv beta iota.
  assert (En : num_rx_queues bi1 = num_rx_queues bi) by (unfold num_rx_queues; simpl; by rewrite A5).
  assert (Rt1 : registers (dev_run (log bi1) d) (num_rx_queues bi1) (txqs bi1)).
  { simpl. rewrite dev_run_app. apply (registers_frame (dev_run (log bi) d)); [|by rewrite En].
    intros q Hq. apply B2. rewrite En in Hq. unfold num_rx_queues in Hq. lia. }
  assert (Rr1 : registers (dev_run (log bi1) d) 0 (rxqs bi1)) by (simpl; by rewrite dev_run_app).
  destruct ok; cbn [negb].
  - pose proof (alloc_ctxs_spec (tx_ctx_size bi1) (tx_bufs bi1) (txqs bi1) (num_rx_queues bi1) Htx) as C.
    pose proof (alloc_ctxs_dev (tx_ctx_size bi1) (tx_bufs bi1) (txqs bi1) (num_rx_queues bi1) (dev_run (log bi1) d) Htx Rt1) as D.
    destruct (alloc_ctxs e (tx_ctx_size bi1) _ _ _) as [[ok es'] qs']. destruct C as (C1 & C2 & C3 & C4 & C5 & C6).
    destruct D as [D1 D2]. set (bi2 := emit es' (set_txqs qs' bi1)).
    assert (Hl : length qs' = length (txqs bi)) by done.
    split_and!.
    + apply (accounted_ctxs bi bi2 (es ++ es')); [done..|by simpl; rewrite (assoc_L (++))| | | |];
        unfold pallocs, pfrees, callocs, cfrees in *; rewrite omap_app, ?A1, ?A2, ?A3, ?A4, ?C1, ?C2, ?C3, ?C4; try done.
    + cbn [bi2 log emit set_txqs]. rewrite dev_run_app. split; [|done].
      apply (registers_frame (dev_run (log bi1) d)); [|done]. intros q Hq. apply D2. unfold num_rx_queues. simpl in Hq |- *. lia.
    + done.
    + by split; simpl; rewrite ?A5, ?Hl.
    + destruct ok; [split_and!|].
      * simpl. by rewrite A5.
      * simpl. by rewrite Hl.
      * intros k q Hk. change (rxqs bi2) with qs in Hk.
        destruct (A6 k) as (a & E1 & E2); [apply lookup_lt_Some in Hk; lia|].
        exists a. rewrite E2 in Hk. by simplify_eq.
      * intros k q Hk. change (txqs bi2) with qs' in Hk.
        destruct (C6 k) as (a & E1 & E2); [apply lookup_lt_Some in Hk; lia|].
        exists a. rewrite <- En. rewrite E2 in Hk. by simplify_eq.
      * destruct C6 as (k & q & Hk & E1 & E2 & E3). split.
        -- apply list.Exists_exists. exists q. split; [|done]. apply elem_of_app. right. simpl. by eapply list_elem_of_lookup_2.
        -- exists (num_rx_queues bi1 + Z.of_nat k). rewrite En in E1 |- *. split; [|done].
           unfold num_rx_queues, num_queues. change (txqs bi1) with (txqs bi) in Hk. lia.
  - split; [|split; [by split|split; [done|split]]].
    + apply (accounted_ctxs bi bi1 es); try done. unfold bi_ctxs. simpl. by rewrite (held_ctxs_none _ (txqs bi)), app_nil_r, A4.
    + by split; simpl; rewrite ?A5.
    + destruct A6 as (k & q & Hk & E1 & E2 & E3). split.
      * apply list.Exists_exists. exists q. split; [|done]. apply elem_of_app. left. simpl. by eapply list_elem_of_lookup_2.
      * exists (Z.of_nat k). split; [unfold num_queues; lia|done].
Qed.

(** *** Set-up *)

(** Every program can be loaded and every context allocated. *)
Definition can_setup (bi : bpfhv_info) : Prop :=
  Forall loads prog_indices /\ forall q, 0 <= q < Z.of_nat (num_queues bi) -> is_Some (se_dma e q).

Lemma setup_out_spec ret bi d : accounted bi -> registered bi (dev_run (log bi) d) ->
  let '(ret', bi') := setup_out ret bi in
  ret' = ret /\ accounted bi' /\ registered bi' (dev_run (log bi') d) /\ same_num bi bi' /\
  (ret = 0 -> bi' = bi) /\ (ret <> 0 -> cleared bi').
Proof using.
  intros Hac Hr. unfold setup_out. destruct (teardown_spec bi Hac) as (H1 & H2 & H3 & H4).
  destruct (negb (ret =? 0)) eqn:E; zify_bool.
  - split; [done|]. split; [done|]. by split; [apply teardown_registers|].
  - done.
Qed.

Lemma fresh_queues_dma nrx nb ntx tb bi n : fresh_queues nrx nb ntx tb bi -> n = num_queues bi ->
  forall q, 0 <= q < Z.of_nat n -> is_Some (se_dma e q).
Proof using.
  intros (H1 & H2 & H3 & H4) -> q Hq. unfold num_queues in Hq. destruct (decide (q < nrx)).
  - destruct (lookup_lt_is_Some_2 (rxqs bi) (Z.to_nat q)) as [x Hx]; [lia|]. destruct (H3 _ _ Hx) as (a & Ha & _).
    rewrite Z2Nat.id in Ha by lia. by exists a.
  - destruct (lookup_lt_is_Some_2 (txqs bi) (Z.to_nat (q - nrx))) as [x Hx]; [lia|]. destruct (H4 _ _ Hx) as (a & Ha & _).
    replace (nrx + Z.of_nat (Z.to_nat (q - nrx))) with q in Ha by lia. by exists a.
Qed.

Lemma no_ctx_exists bi : (0 < num_queues bi)%nat -> Forall no_ctx (rxqs bi) -> Forall no_ctx (txqs bi) ->
  Exists no_ctx (queues bi).
Proof using.
  intros Hn Hr Ht. unfold num_queues, queues in *. destruct (rxqs bi) as [|q l].
  - destruct (txqs bi) as [|q l]; [simpl in Hn; lia|]. left. by inversion Ht.
  - left. by inversion Hr.
Qed.

(** The geometry that the device announces. *)
Definition set_geometry (bi : bpfhv_info) : bpfhv_info :=
  mk_bi (progs bi) (rxqs bi) (txqs bi) (se_rx_bufs e) (se_tx_bufs e) (se_rx_ctx_size e) (se_tx_ctx_size e) (log bi).

Lemma set_geometry_accounted bi : accounted bi -> cleared bi -> accounted (set_geometry bi).
Proof using.
  intros [H1 H2 H3] Hcl. assert (Hcl' : cleared (set_geometry bi)) by (by destruct Hcl).
  split; [exact H1|exact H2|]. rewrite (proj2 (cleared_holds bi Hcl)) in H3. by rewrite (proj2 (cleared_holds _ Hcl')).
Qed.

(** Up to the end of the loop over the programs. *)
Lemma setup_load_spec bi d : accounted bi -> cleared bi -> registered bi (dev_run (log bi) d) ->
  let '(ok, ret, bi') := load_progs func_offset e prog_indices (- EIO) (set_geometry bi) in
  accounted bi' /\ registered bi' (dev_run (log bi') d) /\ Forall no_ctx (rxqs bi') /\ Forall no_ctx (txqs bi') /\
  length (rxqs bi') = length (rxqs bi) /\ length (txqs bi') = length (txqs bi) /\
  rx_bufs bi' = se_rx_bufs e /\ tx_bufs bi' = se_tx_bufs e /\
  (if ok then Forall loads prog_indices /\ (forall i, i ∈ prog_indices -> get_prog i bi' = loaded_prog i)
   else ~ Forall loads prog_indices).
Proof.
  intros Hac Hcl [R1 R2]. pose proof (set_geometry_accounted bi Hac Hcl) as Hac2. destruct Hcl as [Hp Hc1 Hc2].
  pose proof (load_progs_spec prog_indices (- EIO) (set_geometry bi) Hac2 prog_indices_nodup ltac:(split; [done|by apply Hp])) as HL.
  pose proof (load_progs_dev prog_indices (- EIO) (set_geometry bi) d) as HD.
  destruct (load_progs func_offset e prog_indices (- EIO) (set_geometry bi)) as [[ok ret] bi3].
  destruct HL as (Hac3 & [E1 E2 E3 E4 _ _] & _ & Hok). unfold registered, num_rx_queues in *. rewrite E1, E2, E3, E4.
  split; [done|]. split; [|done].
  split; (apply (registers_frame (dev_run (log bi) d)); [intros q _; apply HD|done]).
Qed.

Lemma setup_spec bi d : accounted bi -> se_kmalloc e = true ->
  let '(ret, bi') := bpfhv_programs_setup func_offset e bi in
  accounted bi' /\ registered bi' (dev_run (log bi') d) /\ same_num bi bi' /\ (ret <> 0 -> cleared bi') /\
  (can_setup bi -> ret = 0 /\ (forall i, i ∈ prog_indices -> get_prog i bi' = loaded_prog i) /\
     fresh_queues (num_rx_queues bi) (se_rx_bufs e) (Z.of_nat (length (txqs bi))) (se_tx_bufs e) bi') /\
  (~ can_setup bi -> (0 < num_queues bi)%nat -> Exists no_ctx (queues bi')).
Proof.
  intros Hac Hk. unfold bpfhv_programs_setup. rewrite Hk. cbn [negb]. cbv zeta.
  destruct (teardown_spec bi Hac) as (Hac1 & Hcl1 & Er & Et). pose proof (teardown_registers bi d) as Hr1.
  generalize dependent (bpfhv_programs_teardown bi). intros bi1 Hac1 Hcl1 Er Et Hr1. fold (set_geometry bi1).
  pose proof (setup_load_spec bi1 d Hac1 Hcl1 Hr1) as HL.
  destruct (load_progs func_offset e prog_indices (- EIO) (set_geometry bi1)) as [[ok ret] bi3].
  destruct HL as (Hac3 & Hr3 & Hc1 & Hc2 & El1 & El2 & Eb1 & Eb2 & Hok). rewrite Er in El1. rewrite Et in El2.
  assert (Hn3 : same_num bi bi3) by done.
  assert (Hnone : forall b, cleared b \/ b = bi3 -> same_num bi b -> (0 < num_queues bi)%nat -> Exists no_ctx (queues b)).
  { intros b [Hb| ->] En%same_num_total Hpos; (apply no_ctx_exists; [lia|..]); apply Hb || done. }
  destruct ok; cbn [negb].
  - destruct Hok as [HF Hp]. pose proof (alloc_contexts_spec bi3 d Hac3 Hc1 Hc2 Hr3) as HA.
    destruct (alloc_contexts e bi3) as [ok bi4]. destruct HA as (Hac4 & Hr4 & Ep & Hn4 & Hq).
    destruct ok; cbn [negb].
    + unfold setup_out; simpl. split; [done|]. split; [done|]. split; [by eapply same_num_trans|]. split; [done|]. split.
      * intros _. split; [done|]. split; [intros i Hi; unfold get_prog; rewrite Ep; by apply Hp|].
        unfold num_rx_queues in *. by rewrite El1, El2, Eb1, Eb2 in Hq.
      * intros Hbad. exfalso. apply Hbad. split; [done|]. apply (fresh_queues_dma _ _ _ _ bi4 _ Hq).
        symmetry. by apply same_num_total, (same_num_trans bi bi3).
    + destruct Hq as [HE (q & Hq & Hqn)]. pose proof (setup_out_spec ret bi4 d Hac4 Hr4) as HO.
      destruct (setup_out ret bi4) as [ret' bi5]. destruct HO as (-> & O1 & O2 & O3 & O4 & O5).
      assert (Hn5 : same_num bi bi5) by (eapply same_num_trans, same_num_trans; done).
      split; [done|]. split; [done|]. split; [done|]. split; [done|]. split.
      * intros [_ Hd]. destruct (Hd q) as [a Ha]; [rewrite (same_num_total _ _ Hn3) in Hq; lia|congruence].
      * intros _ Hpos. destruct (decide (ret = 0)) as [E|E]; [by rewrite O4|]. apply Hnone; [left; by apply O5|done..].
  - pose proof (setup_out_spec ret bi3 d Hac3 Hr3) as HO.
    destruct (setup_out ret bi3) as [ret' bi5]. destruct HO as (-> & O1 & O2 & O3 & O4 & O5).
    split; [done|]. split; [done|]. split; [by eapply same_num_trans|]. split; [done|]. split; [by intros [? _]|].
    intros _ Hpos. destruct (decide (ret = 0)) as [E|E]; apply Hnone; auto; by eapply same_num_trans.
Qed.

(** [ret] stays 0 once a program has been loaded, unless the calls of another
    one cannot be resolved. *)
Definition calls_known (i : Z) : Prop :=
  BPFHV_PROG_SIZE_MAX < se_prog_size e i \/ Forall known_call (read_prog e i (se_prog_size e i)).

Lemma load_progs_silent l : Forall calls_known l -> forall bi, snd (fst (load_progs func_offset e l 0 bi)) = 0.
Proof using.
  intros HF. induction HF as [|i l Hi _ IH]; intros bi; cbn [load_progs]; [done|].
  case_if; [apply IH|]. destruct ((se_prog_size e i =? 0) || (BPFHV_PROG_SIZE_MAX <? se_prog_size e i)) eqn:E; [done|].
  pose proof (fixup_spec func_offset (read_prog e i (se_prog_size e i))) as Hfix.
  destruct (bpfhv_helper_calls_fixup _ _) as [r ins]. destruct Hfix as [(-> & _)|(_ & Hk & _)].
  - simpl. destruct (bpfhv_prog_alloc _ _ _ _) as [[p|] b1]; [apply IH|done].
  - exfalso. destruct Hi; zify_bool; [lia|done].
Qed.

Lemma setup_silent_ret bi : se_kmalloc e = true -> loads BPFHV_PROG_RX_PUBLISH -> Forall calls_known prog_indices ->
  fst (bpfhv_programs_setup func_offset e bi) = 0.
Proof using.
  intros Hk [[_ ?]|(Hl & Hc & Ha & Hrt)] HF; [done|]. unfold bpfhv_programs_setup. rewrite Hk. cbn [negb].
  cbv zeta. fold (set_geometry (bpfhv_programs_teardown bi)). generalize (set_geometry (bpfhv_programs_teardown bi)). intros b.
  assert (Hret : snd (fst (load_progs func_offset e prog_indices (- EIO) b)) = 0).
  { change prog_indices with (BPFHV_PROG_RX_PUBLISH :: tl prog_indices) in *.
    set (l := tl prog_indices) in *. clearbody l. inversion HF as [|? ? _ HF']; subst. cbn [load_progs]. change (prog_is_optional BPFHV_PROG_RX_PUBLISH) with false.
    rewrite andb_false_r. rewrite (proj2 (Z.eqb_neq _ 0)), (proj2 (Z.ltb_ge _ _)) by lia. simpl orb. cbv iota.
    pose proof (fixup_spec func_offset (read_prog e BPFHV_PROG_RX_PUBLISH (se_prog_size e BPFHV_PROG_RX_PUBLISH))) as Hfix.
    destruct (bpfhv_helper_calls_fixup _ _) as [r ins]. destruct Hfix as [(-> & _)|(_ & ? & _)]; [|done].
    unfold bpfhv_prog_alloc. rewrite Ha, Hrt. simpl. by apply load_progs_silent. }
  destruct (load_progs func_offset e prog_indices (- EIO) b) as [[ok ret] b']. simpl in Hret. subst ret.
  destruct ok; [|done]. cbn [negb]. destruct (alloc_contexts e b') as [[] ?]; done.
Qed.

End setup.

(** The environment is one of a device: sizes and addresses are unsigned. *)
Record env_ok (e : setup_env) : Prop := {
  eo_size : forall i, 0 <= se_prog_size e i;
  eo_dma : forall q a, se_dma e q = Some a -> addr_ok a;
}.

Lemma setup_accounted func_offset e bi : env_ok e -> accounted bi -> accounted (snd (bpfhv_programs_setup func_offset e bi)).
Proof.
  intros [H1 H2] Hac. destruct (se_kmalloc e) eqn:Ek.
  - pose proof (setup_spec func_offset e H1 H2 bi (mk_dev 0 ∅ ∅) Hac Ek) as HS.
    destruct (bpfhv_programs_setup func_offset e bi) as [ret bi']. apply HS.
  - unfold bpfhv_programs_setup. by rewrite Ek.
Qed.

Lemma setup_ready func_offset e bi : env_ok e -> accounted bi -> se_kmalloc e = true -> can_setup e bi ->
  let '(ret, bi') := bpfhv_programs_setup func_offset e bi in
  ret = 0 /\ (forall i, i ∈ prog_indices -> get_prog i bi' = loaded_prog func_offset e i) /\
  fresh_queues e (num_rx_queues bi) (se_rx_bufs e) (Z.of_nat (length (txqs bi))) (se_tx_bufs e) bi'.
Proof.
  intros [H1 H2] Hac Hk Hcan. pose proof (setup_spec func_offset e H1 H2 bi (mk_dev 0 ∅ ∅) Hac Hk) as HS.
  destruct (bpfhv_programs_setup func_offset e bi) as [ret bi']. destruct HS as (_ & _ & _ & _ & HS & _). by apply HS.
Qed.

(** What a caller of the set-up relies on. *)
Lemma programs_setup_outcome func_offset e bi : env_ok e -> accounted bi ->
  let '(ret, bi') := bpfhv_programs_setup func_offset e bi in
  accounted bi' /\ same_num bi bi' /\ (ret = - ENOMEM /\ bi' = bi \/ (ret <> 0 -> cleared bi')).
Proof.
  intros He Hac. pose proof (setup_accounted func_offset e bi He Hac) as Hac'. destruct He as [H1 H2].
  destruct (se_kmalloc e) eqn:Ek.
  - pose proof (setup_spec func_offset e H1 H2 bi (mk_dev 0 ∅ ∅) Hac Ek) as HS.
    destruct (bpfhv_programs_setup func_offset e bi) as [ret bi']. destruct HS as (? & _ & ? & ? & _). auto.
  - unfold bpfhv_programs_setup in *. rewrite Ek in *. simpl. split; [done|]. split; [done|]. by left.
Qed.

(** each set-up of the programs keeps the accounts of what has been
    allocated: an error either leaves the driver as it was (no memory for the
    instructions) or leaves nothing allocated, and on every path but the first
    the device holds the address of the context of each queue that has one and
    0 for the others. *)
Theorem programs_setup_accounts func_offset e bi d : env_ok e -> accounted bi ->
  let '(ret, bi') := bpfhv_programs_setup func_offset e bi in
  accounted bi' /\
  (ret = - ENOMEM /\ bi' = bi \/
   registered bi' (dev_run (log bi') d) /\ same_num bi bi' /\ (ret <> 0 -> cleared bi')).
Proof.
  intros He Hac. pose proof (setup_accounted func_offset e bi He Hac) as Hac'. destruct He as [H1 H2].
  destruct (se_kmalloc e) eqn:Ek.
  - pose proof (setup_spec func_offset e H1 H2 bi d Hac Ek) as HS.
    destruct (bpfhv_programs_setup func_offset e bi) as [ret bi']. destruct HS as (? & ? & ? & ? & _). auto.
  - unfold bpfhv_programs_setup in *. rewrite Ek in *. simpl. auto.
Qed.

(** C15: when every program can be loaded and every context allocated the
    set-up succeeds: each program is the one of the device with its helper
    calls resolved (or absent, if optional), and each queue has a context with
    its private pointer, one completed buffer as the threshold, and all of the
    buffers free. *)
Theorem programs_setup_ready func_offset e bi : env_ok e -> accounted bi -> se_kmalloc e = true -> can_setup e bi ->
  let '(ret, bi') := bpfhv_programs_setup func_offset e bi in
  ret = 0 /\ (forall i, i ∈ prog_indices -> get_prog i bi' = loaded_prog func_offset e i) /\
  fresh_queues e (num_rx_queues bi) (se_rx_bufs e) (Z.of_nat (length (txqs bi))) (se_tx_bufs e) bi'.
Proof. apply setup_ready. Qed.

(** C40: once the first program has been loaded, an error that is not an unknown
    helper (a program with an invalid length, one that cannot be allocated, a
    context that cannot be allocated) is reported as success, with a queue
    that has no context. *)
Theorem programs_setup_silent func_offset e bi : env_ok e -> accounted bi -> se_kmalloc e = true ->
  loads e BPFHV_PROG_RX_PUBLISH -> Forall (calls_known e) prog_indices -> ~ can_setup e bi -> (0 < num_queues bi)%nat ->
  let '(ret, bi') := bpfhv_programs_setup func_offset e bi in ret = 0 /\ Exists no_ctx (queues bi').
Proof.
  intros [H1 H2] Hac Hk Hl Hc Hcan Hn. pose proof (setup_silent_ret func_offset e bi Hk Hl Hc) as Hr.
  pose proof (setup_spec func_offset e H1 H2 bi (mk_dev 0 ∅ ∅) Hac Hk) as HS.
  destruct (bpfhv_programs_setup func_offset e bi) as [ret bi']. destruct HS as (_ & _ & _ & _ & _ & HS).
  split; [done|by apply HS].
Qed.

(** C14: whatever set-ups ran and however they ended, after the teardown each
    program and each context that was allocated has been released exactly
    once, with the address and the size it was allocated with, and nothing
    else has been released. *)
Theorem programs_no_leak func_offset envs bi : Forall env_ok envs -> accounted bi ->
  let bi' := bpfhv_programs_teardown (foldl (fun bi e => snd (bpfhv_programs_setup func_offset e bi)) bi envs) in
  pallocs (log bi') ≡ₚ pfrees (log bi') /\ callocs (log bi') ≡ₚ cfrees (log bi').
Proof.
  intros HF Hac. assert (H : accounted (foldl (fun bi e => snd (bpfhv_programs_setup func_offset e bi)) bi envs)).
  { revert bi Hac. induction HF as [|e envs He _ IH]; intros bi Hac; simpl; [done|]. by apply IH, setup_accounted. }
  destruct (teardown_spec _ H) as ([_ H1 H2] & Hcl & _). destruct (cleared_holds _ Hcl) as [E1 E2].
  rewrite E1, app_nil_r in H1. by rewrite E2, app_nil_r in H2.
Qed.

(** ** The dump *)

Lemma put_word_lookup m o w j :
  put_word m (o, w) !! j = if decide (o <= j < o + 4) then Some (Z.land (Z.shiftr w (8 * (j - o))) 0xff) else m !! j.
Proof.
  unfold put_word. cbn [foldl fst snd]. case_decide as E.
  - assert (j = o + 0 \/ j = o + 1 \/ j = o + 2 \/ j = o + 3) as [->|[->|[->| ->]]] by lia;
      rewrite !Z.add_simpl_l; rewrite ?lookup_insert_ne by lia; by rewrite lookup_insert_eq.
  - by rewrite !lookup_insert_ne by lia.
Qed.

(** The byte of the dump at offset [j], as the device shows it. *)
Definition dump_byte (input : Z -> Z) (j : Z) : Z := Z.land (Z.shiftr (input (4 * (j / 4))) (8 * (j mod 4))) 0xff.

#[local] Ltac dlia := Z.div_mod_to_equations; lia.

Lemma dump_words_lookup input bytes n : forall a m j, bytes <= 4 * a + 4 * Z.of_nat n ->
  foldl put_word m (dump_words input n (4 * a) bytes) !! j =
  if decide (4 * a <= j < 4 * ((bytes + 3) / 4)) then Some (dump_byte input j) else m !! j.
Proof.
  induction n as [|n IH]; intros a m j Hb; cbn [dump_words].
  { rewrite decide_False by dlia. done. }
  destruct (4 * a <? bytes) eqn:E; zify_bool; [|rewrite decide_False by dlia; done].
  cbn [foldl]. replace (4 * a + 4) with (4 * (a + 1)) by dlia. rewrite IH, put_word_lookup by dlia.
  unfold dump_byte. repeat case_decide; try dlia; try done.
  do 2 f_equal. replace (j / 4) with a by dlia. f_equal. dlia.
Qed.

(** the dump of the queues is stored by words of 4 bytes in a buffer of one
    byte more than the length the device reports: when that length is 1 or 2
    more than a multiple of 4 the last word is stored past the end of the
    buffer, and unless it is a multiple of 4 the terminator of the string is
    replaced by a byte of the device. *)
Theorem queues_dump_overflow len input : 0 < len <= PAGE_SIZE ->
  exists m, bpfhv_queues_dump len input true = (0, Some (len + 1, m)) /\
  (forall j, 0 <= j < len -> m !! j = Some (dump_byte input j)) /\
  m !! len = Some (if len mod 4 =? 0 then 0 else dump_byte input len) /\
  (is_Some (m !! (len + 1)) <-> len mod 4 = 1 \/ len mod 4 = 2).
Proof.
  intros Hl. unfold PAGE_SIZE in Hl.
  assert (Es : s32 len = len) by (apply s32_id; lia).
  unfold bpfhv_queues_dump. rewrite Es. rewrite (proj2 (Z.ltb_ge _ _)), (proj2 (Z.leb_gt _ _)) by (unfold PAGE_SIZE; lia).
  simpl orb. cbn [negb]. cbv iota. change 0 with (4 * 0) at 3. eexists. split; [done|].
  split; [|split].
  - intros j Hj. rewrite dump_words_lookup, decide_True by dlia. done.
  - rewrite dump_words_lookup by dlia. destruct (len mod 4 =? 0) eqn:E; zify_bool.
    + rewrite decide_False by dlia. apply lookup_insert_eq.
    + by rewrite decide_True by dlia.
  - rewrite dump_words_lookup by dlia. case_decide; [split; [dlia|by eexists]|].
    rewrite lookup_singleton_ne by dlia. split; [by intros [? ?]|dlia].
Qed.

(** ** Concrete devices *)

#[export] Instance loads_dec e i : Decision (loads e i).
Proof. unfold loads. apply _. Defined.
#[export] Instance calls_known_dec e i : Decision (calls_known e i).
Proof. unfold calls_known. apply _. Defined.

(** A device with one queue for each direction, whose mandatory programs call a
    helper and exit; program [bad] is missing. *)
Definition ex_env (bad : Z) : setup_env :=
  mk_env true 256 256 8192 8192
    (fun i => if (i =? bad) || prog_is_optional i then 0 else 2)
    (fun i k => if k =? 0 then BPF_JMP_CALL else if k =? 1 then BPFHV_HELPER_MAGIC + 9 else if k =? 2 then 0x95 else 0)
    (fun _ => true) (fun _ => true) (fun q => if (0 <=? q) && (q <? 2) then Some (2 ^ 40 + 16384 * q) else None) (fun q => 64 * (q + 1)).

Definition ex_offset (h : helper) : Z := if bool_decide (h = smp_mb_full) then -1234 else 0.

Definition ex_bi : bpfhv_info := mk_bi (replicate 11 None) [mk_queue None 0] [mk_queue None 0] 0 0 0 0 [].

Lemma ex_env_ok bad : env_ok (ex_env bad).
Proof.
  split; simpl.
  - intros i. repeat case_if; lia.
  - intros q a. destruct ((0 <=? q) && (q <? 2)) eqn:E; intros [= <-]. zify_bool. unfold addr_ok. lia.
Qed.

Lemma ex_accounted : accounted ex_bi.
Proof. by split. Qed.

Lemma ex_dma bad q : 0 <= q < Z.of_nat (num_queues ex_bi) -> is_Some (se_dma (ex_env bad) q).
Proof. intros Hq. unfold num_queues in Hq; simpl in *. destruct ((0 <=? q) && (q <? 2)) eqn:E; [by eexists|].
  apply andb_false_iff in E as [?|?]; zify_bool; lia.
Qed.

Lemma programs_setup_accounts_witness : exists bi', accounted bi' /\
  bpfhv_programs_setup ex_offset (ex_env BPFHV_PROG_RX_PUBLISH) ex_bi = (- EIO, bi') /\ cleared bi'.
Proof.
  pose proof (programs_setup_accounts ex_offset (ex_env BPFHV_PROG_RX_PUBLISH) ex_bi (mk_dev 0 ∅ ∅) (ex_env_ok _) ex_accounted) as H.
  eexists. destruct H as (H1 & [[H2 _]|(_ & _ & H4)]); [by exfalso|]. split; [exact H1|]. split; [reflexivity|]. by apply H4.
Defined.

Lemma programs_setup_ready_witness : exists bi', bpfhv_programs_setup ex_offset (ex_env 0) ex_bi = (0, bi') /\
  get_prog BPFHV_PROG_TX_PUBLISH bi' = Some [mk_insn 133 0 0 0 (-1234); mk_insn 0x95 0 0 0 0] /\
  fresh_queues (ex_env 0) 1 256 1 256 bi'.
Proof.
  pose proof (programs_setup_ready ex_offset (ex_env 0) ex_bi (ex_env_ok _) ex_accounted eq_refl) as H.
  assert (Hc : can_setup (ex_env 0) ex_bi) by (split; [by apply (bool_decide_unpack _); vm_compute|apply ex_dma]).
  specialize (H Hc). destruct (bpfhv_programs_setup ex_offset (ex_env 0) ex_bi) as [ret bi']. destruct H as (-> & H2 & H3).
  exists bi'. split; [reflexivity|]. split; [|exact H3].
  rewrite H2 by (by apply (bool_decide_unpack _); vm_compute). vm_compute. reflexivity.
Defined.

Lemma programs_setup_silent_witness : exists bi', bpfhv_programs_setup ex_offset (ex_env BPFHV_PROG_TX_PUBLISH) ex_bi = (0, bi') /\
  Exists no_ctx (queues bi').
Proof.
  pose proof (programs_setup_silent ex_offset (ex_env BPFHV_PROG_TX_PUBLISH) ex_bi (ex_env_ok _) ex_accounted eq_refl) as H.
  destruct (bpfhv_programs_setup ex_offset (ex_env BPFHV_PROG_TX_PUBLISH) ex_bi) as [ret bi'].
  destruct H as [-> H]; [by apply (bool_decide_unpack _); vm_compute..| |unfold num_queues; simpl; lia|by exists bi'].
  intros [HF _]. revert HF. apply (bool_decide_unpack (~ Forall _ _)). by vm_compute.
Defined.

Lemma programs_no_leak_witness :
  let bi' := bpfhv_programs_teardown (foldl (fun bi e => snd (bpfhv_programs_setup ex_offset e bi)) ex_bi
               [ex_env BPFHV_PROG_TX_PUBLISH; ex_env 0]) in
  pallocs (log bi') ≡ₚ pfrees (log bi') /\ length (pallocs (log bi')) = 12%nat /\ length (cfrees (log bi')) = 2%nat.
Proof.
  intros bi'. split; [|split; vm_compute; reflexivity].
  apply (programs_no_leak ex_offset [ex_env BPFHV_PROG_TX_PUBLISH; ex_env 0] ex_bi); [|apply ex_accounted].
  apply list.Forall_forall. intros e [->|[->|?%elem_of_nil]%elem_of_cons]%elem_of_cons; apply ex_env_ok || done.
Defined.

Lemma queues_dump_overflow_witness : exists m, bpfhv_queues_dump 5 (fun _ => 0x41414141) true = (0, Some (6, m)) /\
  m !! 5 = Some 0x41 /\ is_Some (m !! 6).
Proof.
  destruct (queues_dump_overflow 5 (fun _ => 0x41414141)) as (m & H1 & _ & H2 & H3); [unfold PAGE_SIZE; lia|].
  exists m. split; [exact H1|]. split; [exact H2|]. apply H3. left. reflexivity.
Defined.
