(* ===== verification/DriverCtl.v ===== *)
(** * The control path of the guest driver

    driver/bpfhv.c: the probe of the PCI device with its unwinding, the
    interrupts, the removal, the negotiation of the features, and the life
    cycle of the interface (open, close, upgrade of the programs).  The calls
    to the kernel are parameters: what they return is an environment, what
    they acquire and release is a log. *)

From stdpp Require Import gmap.
From S2P Require Import Prelude Abi DriverProgs.
Import DriverProgs.
Open Scope Z_scope.

Module DriverCtl.

Definition BPFHV_VERSION : Z := 1.
Definition BPFHV_REG_PCI_BAR : Z := 0.
Definition BPFHV_DOORBELL_PCI_BAR : Z := 1.
Definition BPFHV_PROG_PCI_BAR : Z := 3.

Definition BPFHV_F_RX_OUT_OF_ORDER : Z := Z.shiftl 1 9.
Definition BPFHV_F_TX_OUT_OF_ORDER : Z := Z.shiftl 1 10.

(** ** Resources *)

(** The [dev_id] of an interrupt. *)
Inductive irq_data := RxQueue (i : Z) | TxQueue (i : Z) | Upgrade.

(** What the driver acquires from the kernel. *)
Inductive resource :=
| PciDevice
| Regions (bars : Z)
| IoMap (addr : Z)
| NetDevice
| Registered
| IrqVectors
| Irq (vector : Z) (q : irq_data).
#[export] Instance resource_eq_dec : EqDecision resource.
Proof. unfold EqDecision, Decision. repeat decide equality. Defined.

Inductive action := Acquire (r : resource) | Release (r : resource).

(** ** Interrupts *)

(** [pci_alloc_irq_vectors], [pci_irq_vector] and [request_irq] on the [i]-th vector. *)
Record irq_env := mk_irq { ie_alloc : Z -> Z; ie_vector : Z -> Z; ie_request : Z -> Z }.

Section irqs.
Context (ie : irq_env) (num_rx_queues num_tx_queues : Z).

Definition irq_of (i : Z) : resource :=
  Irq (ie_vector ie i) (if i <? num_rx_queues then RxQueue i else TxQueue (i - num_rx_queues)).

(** The loop over the queues: [ret], the index at which it stops, and the log. *)
Fixpoint request_irqs (n : nat) (i : Z) : Z * Z * list action :=
  match n with
  | O => (0, i, [])
  | S n =>
      let ret := ie_request ie i in
      if negb (ret =? 0) then (ret, i, [])
      else let '(ret, i', log) := request_irqs n (i + 1) in (ret, i', Acquire (irq_of i) :: log)
  end.

(** [for (i--; i >= 0; i--)], with [k] the value of [i] at [err_irqs]. *)
Fixpoint release_irqs (k : nat) : list action :=
  match k with O => [] | S k => Release (irq_of (Z.of_nat k)) :: release_irqs k end.

Definition irqs_error (ret i : Z) (log : list action) : Z * list action :=
  (ret, log ++ release_irqs (Z.to_nat i) ++ [Release IrqVectors]).

Definition bpfhv_irqs_setup : Z * list action :=
  let num_queues := num_rx_queues + num_tx_queues in
  let num_intrs := num_queues + 1 in
  let ret := ie_alloc ie num_intrs in
  if negb (ret =? num_intrs) then (ret, [])
  else
    let '(ret, i, log) := request_irqs (Z.to_nat num_queues) 0 in
    let log := Acquire IrqVectors :: log in
    if negb (ret =? 0) then irqs_error ret i log
    else
      let ret := ie_request ie (num_intrs - 1) in
      if negb (ret =? 0) then irqs_error ret i log
      else (0, log ++ [Acquire (Irq (ie_vector ie (num_intrs - 1)) Upgrade)]).

Definition bpfhv_irqs_teardown : list action :=
  let num_queues := num_rx_queues + num_tx_queues in
  Release (Irq (ie_vector ie num_queues) Upgrade) ::
  ((fun i => Release (irq_of i)) <$> seqZ 0 num_queues) ++ [Release IrqVectors].

End irqs.

(** ** Features *)

(** The features of a network interface that the driver knows. *)
Inductive netif_feature := F_HIGHDMA | F_SG | F_HW_CSUM | F_TSO | F_TSO6 | F_GSO_ROBUST | F_RXCSUM | F_LRO.
#[export] Instance netif_feature_eq_dec : EqDecision netif_feature.
Proof. solve_decision. Defined.

(** The number of the bit of each feature and the mask [NETIF_F_ALL_TSO], which
    the kernel chooses, and the parameters of the module. *)
Record features_env := mk_fenv { fe_bit : netif_feature -> Z; NETIF_F_ALL_TSO : Z; csum : bool; gso : bool }.

Section features.
Context (fe : features_env).

Definition NETIF_F (f : netif_feature) : Z := Z.shiftl 1 (fe_bit fe f).

Definition driver_features : Z :=
  let d := Z.lor BPFHV_F_SG (Z.lor BPFHV_F_RX_OUT_OF_ORDER BPFHV_F_TX_OUT_OF_ORDER) in
  if csum fe then
    let d := Z.lor d (Z.lor BPFHV_F_TX_CSUM BPFHV_F_RX_CSUM) in
    if gso fe then Z.lor d (Z.lor BPFHV_F_TSOv4 (Z.lor BPFHV_F_TCPv4_LRO (Z.lor BPFHV_F_TSOv6 BPFHV_F_TCPv6_LRO))) else d
  else d.

(** [reg] is what [BPFHV_REG_FEATURES] shows. *)
Definition bpfhv_hv_features (reg : Z) : Z := Z.land reg driver_features.

Definition flag (features bit : Z) : bool := negb (Z.land features bit =? 0).

(** [bpfhv_features_init]: the value written to [BPFHV_REG_FEATURES],
    [netdev->features] (copied to [vlan_features]), [hw_features] and [bi->lro]. *)
Definition bpfhv_features_init (reg : Z) : Z * Z * Z * bool :=
  let features := bpfhv_hv_features reg in
  let nf := NETIF_F F_HIGHDMA in
  let nf := if flag features BPFHV_F_SG then Z.lor nf (NETIF_F F_SG) else nf in
  let nf :=
    if flag features BPFHV_F_TX_CSUM then
      let nf := Z.lor nf (NETIF_F F_HW_CSUM) in
      let nf := if flag features BPFHV_F_TSOv4 then Z.lor nf (NETIF_F F_TSO) else nf in
      let nf := if flag features BPFHV_F_TSOv6 then Z.lor nf (NETIF_F F_TSO6) else nf in
      Z.lor nf (NETIF_F F_GSO_ROBUST)
    else nf in
  let nf := if flag features BPFHV_F_RX_CSUM then Z.lor nf (NETIF_F F_RXCSUM) else nf in
  let lro := flag features (Z.lor BPFHV_F_TCPv4_LRO BPFHV_F_TCPv6_LRO) in
  let nf := if lro then Z.lor nf (NETIF_F F_LRO) else nf in
  let hw := Z.lor (NETIF_F F_SG) (Z.lor (NETIF_F F_HW_CSUM) (Z.lor (NETIF_F F_TSO) (Z.lor (NETIF_F F_TSO6) (NETIF_F F_LRO)))) in
  (features, nf, hw, lro).

(** [bpfhv_fix_features]: the features and [bi->lro]. *)
Definition bpfhv_fix_features (reg features : Z) : Z * bool :=
  let hv := bpfhv_hv_features reg in
  let features := if negb (flag hv BPFHV_F_SG) then Z.land features (Z.lnot (NETIF_F F_SG)) else features in
  let features :=
    if negb (flag hv BPFHV_F_TX_CSUM)
    then Z.land features (Z.lnot (Z.lor (NETIF_F F_HW_CSUM) (Z.lor (NETIF_F_ALL_TSO fe) (NETIF_F F_GSO_ROBUST))))
    else features in
  let features := if negb (flag hv BPFHV_F_TSOv4) then Z.land features (Z.lnot (NETIF_F F_TSO)) else features in
  let features := if negb (flag hv BPFHV_F_TSOv6) then Z.land features (Z.lnot (NETIF_F F_TSO6)) else features in
  let features := if negb (flag hv BPFHV_F_RX_CSUM) then Z.land features (Z.lnot (NETIF_F F_RXCSUM)) else features in
  let features :=
    if negb (flag hv (Z.lor BPFHV_F_TCPv4_LRO BPFHV_F_TCPv6_LRO)) then Z.land features (Z.lnot (NETIF_F F_LRO)) else features in
  (features, flag features (NETIF_F F_LRO)).

(** [bpfhv_set_features]: the value written to [BPFHV_REG_FEATURES]. *)
Definition bpfhv_set_features (reg features : Z) : Z := bpfhv_hv_features reg.

End features.

(** ** Probe *)

(** What the calls of [bpfhv_probe] return and what the registers show. *)
Record probe_env := mk_penv {
  pe_bars : Z;
  pe_enable : Z;
  pe_regions : Z;
  pe_save : Z;
  pe_iomap : Z -> option Z;
  pe_version : Z;
  pe_doorbell_size : Z;
  pe_num_rx_queues : Z;
  pe_num_tx_queues : Z;
  pe_netdev : bool;
  pe_mac_hi : Z;
  pe_mac_lo : Z;
  pe_reg_features : Z;
  pe_setup : setup_env;
  pe_register : Z;
  pe_irq : irq_env;
}.

(** The structure of the driver: what is not in [bpfhv_info] of DriverProgs,
    with the halves of the address written to the registers of the doorbell. *)
Record bpfhv_dev := mk_bdev {
  bd_info : bpfhv_info;
  bd_bars : Z;
  bd_regaddr : Z;
  bd_dbmmio_addr : Z;
  bd_progmmio_addr : Z;
  bd_doorbell_gva : Z * Z;
  bd_mac : list Z;
  bd_features : Z * Z * Z * bool;
  bd_real_queues : Z;
  bd_rx_doorbells : list Z;
  bd_tx_doorbells : list Z;
  bd_broken : bool;
}.

(** The MAC address, from the two registers. *)
Definition mac_address (hi lo : Z) : list Z :=
  [Z.land (Z.shiftr hi 8) 0xff; Z.land hi 0xff; Z.land (Z.shiftr lo 24) 0xff; Z.land (Z.shiftr lo 16) 0xff;
   Z.land (Z.shiftr lo 8) 0xff; Z.land lo 0xff].

(** The memory of a fresh network device is zero. *)
Definition fresh_info (num_rx_queues num_tx_queues : Z) : bpfhv_info :=
  mk_bi (replicate (Z.to_nat BPFHV_PROG_MAX) None) (replicate (Z.to_nat num_rx_queues) (mk_queue None 0))
    (replicate (Z.to_nat num_tx_queues) (mk_queue None 0)) 0 0 0 0 [].

(** The addresses of the doorbells of [n] queues from queue [q0] on. *)
Definition doorbells (dbmmio_addr doorbell_size q0 n : Z) : list Z :=
  (fun i => dbmmio_addr + doorbell_size * (q0 + i)) <$> seqZ 0 n.

(** The result: [ret], what was acquired and released, and the structure of
    the driver, if it was allocated (the pointer to it is not reset). *)
Definition probe_result : Type := Z * list action * option bpfhv_dev.

Section probe.
Context (func_offset : helper -> Z) (fe : features_env) (pe : probe_env).

(** The labels at the end of the function. *)
Definition err_pci_req_reg (ret : Z) (log : list action) (bd : option bpfhv_dev) : probe_result :=
  (ret, log ++ [Release PciDevice], bd).
Definition err_iomap ret log bd := err_pci_req_reg ret (log ++ [Release (Regions (pe_bars pe))]) bd.
Definition err_dbmmio_map regaddr ret log bd := err_iomap ret (log ++ [Release (IoMap regaddr)]) bd.
Definition err_progmmio_map dbmmio regaddr ret log bd := err_dbmmio_map regaddr ret (log ++ [Release (IoMap dbmmio)]) bd.
Definition err_alloc_eth progmmio dbmmio regaddr ret log bd :=
  err_progmmio_map dbmmio regaddr ret (log ++ [Release (IoMap progmmio)]) bd.
Definition err_prog (ret : Z) (log : list action) (bd : bpfhv_dev) : probe_result :=
  err_alloc_eth (bd_progmmio_addr bd) (bd_dbmmio_addr bd) (bd_regaddr bd) ret (log ++ [Release NetDevice]) (Some bd).

Definition set_info (bi : bpfhv_info) (bd : bpfhv_dev) : bpfhv_dev :=
  mk_bdev bi (bd_bars bd) (bd_regaddr bd) (bd_dbmmio_addr bd) (bd_progmmio_addr bd) (bd_doorbell_gva bd) (bd_mac bd)
    (bd_features bd) (bd_real_queues bd) (bd_rx_doorbells bd) (bd_tx_doorbells bd) (bd_broken bd).

Definition err_reg (ret : Z) (log : list action) (bd : bpfhv_dev) : probe_result :=
  err_prog ret log (set_info (bpfhv_programs_teardown (bd_info bd)) bd).
Definition err_irqs (ret : Z) (log : list action) (bd : bpfhv_dev) : probe_result :=
  err_reg ret (log ++ [Release Registered]) bd.

(** From the registration of the interface on. *)
Definition probe_register (log : list action) (bd : bpfhv_dev) : probe_result :=
  let ret := pe_register pe in
  if negb (ret =? 0) then err_reg ret log bd
  else
    let log := log ++ [Acquire Registered] in
    let '(ret, log') := bpfhv_irqs_setup (pe_irq pe) (pe_num_rx_queues pe) (pe_num_tx_queues pe) in
    let log := log ++ log' in
    if negb (ret =? 0) then err_irqs ret log bd else (0, log, Some bd).

(** From the allocation of the network device on. *)
Definition probe_netdev (regaddr dbmmio progmmio : Z) (log : list action) : probe_result :=
  let gva := (Z.land dbmmio 0xffffffff, Z.land (Z.shiftr dbmmio 32) 0xffffffff) in
  let doorbell_size := pe_doorbell_size pe in
  let num_rx_queues := pe_num_rx_queues pe in
  let num_tx_queues := pe_num_tx_queues pe in
  let queue_pairs := Z.min num_tx_queues num_rx_queues in
  if negb (pe_netdev pe) then err_alloc_eth progmmio dbmmio regaddr (- ENOMEM) log None
  else
    let log := log ++ [Acquire NetDevice] in
    let bd := mk_bdev (fresh_info num_rx_queues num_tx_queues) (pe_bars pe) regaddr dbmmio progmmio gva
                (mac_address (pe_mac_hi pe) (pe_mac_lo pe)) (bpfhv_features_init fe (pe_reg_features pe)) queue_pairs [] [] false in
    let '(ret, bi) := bpfhv_programs_setup func_offset (pe_setup pe) (bd_info bd) in
    let bd := set_info bi bd in
    if negb (ret =? 0) then err_prog ret log bd
    else
      let bd := mk_bdev bi (bd_bars bd) regaddr dbmmio progmmio gva (bd_mac bd) (bd_features bd) queue_pairs
                  (doorbells dbmmio doorbell_size 0 num_rx_queues)
                  (doorbells dbmmio doorbell_size num_rx_queues num_tx_queues) false in
      probe_register log bd.

(** From the mapping of the registers on. *)
Definition probe_map (log : list action) : probe_result :=
  match pe_iomap pe BPFHV_REG_PCI_BAR with
  | None => err_iomap (- EIO) log None
  | Some regaddr =>
      let log := log ++ [Acquire (IoMap regaddr)] in
      if negb (pe_version pe =? BPFHV_VERSION) then err_dbmmio_map regaddr (pe_save pe) log None
      else
        match pe_iomap pe BPFHV_DOORBELL_PCI_BAR with
        | None => err_dbmmio_map regaddr (- EIO) log None
        | Some dbmmio =>
            let log := log ++ [Acquire (IoMap dbmmio)] in
            match pe_iomap pe BPFHV_PROG_PCI_BAR with
            | None => err_progmmio_map dbmmio regaddr (- EIO) log None
            | Some progmmio => probe_netdev regaddr dbmmio progmmio (log ++ [Acquire (IoMap progmmio)])
            end
        end
  end.

Definition bpfhv_probe : probe_result :=
  let ret := pe_enable pe in
  if negb (ret =? 0) then (ret, [], None)
  else
    let log := [Acquire PciDevice] in
    let ret := pe_regions pe in
    if negb (ret =? 0) then err_pci_req_reg ret log None
    else
      let log := log ++ [Acquire (Regions (pe_bars pe))] in
      let ret := pe_save pe in
      if negb (ret =? 0) then err_iomap ret log None else probe_map log.

End probe.

(** [bpfhv_remove] on the structure of the driver, with the interface down
    (otherwise [unregister_netdev] stops it first): what it releases, and the
    structure before it is freed. *)
Definition bpfhv_remove (ie : irq_env) (bd : bpfhv_dev) : list action * bpfhv_dev :=
  let bi := bd_info bd in
  let nrx := Z.of_nat (length (rxqs bi)) in
  let ntx := Z.of_nat (length (txqs bi)) in
  let log := bpfhv_irqs_teardown ie nrx ntx ++ [Release Registered] in
  let bd := set_info (bpfhv_programs_teardown bi) bd in
  (log ++ [Release (IoMap (bd_progmmio_addr bd)); Release (IoMap (bd_dbmmio_addr bd)); Release (IoMap (bd_regaddr bd));
           Release (Regions (bd_bars bd)); Release NetDevice; Release PciDevice], bd).

End DriverCtl.
Import DriverCtl.

(** ** Negotiation of the features *)

Section features.
Context (fe : features_env).

Definition has (features : Z) (f : netif_feature) : bool := Z.testbit features (fe_bit fe f).

(** The kernel numbers the features with distinct bits; the TSO features are
    in [NETIF_F_ALL_TSO], the features that are not about transmission of
    large packets are not. *)
Record features_ok : Prop := {
  fo_pos : forall f, 0 <= fe_bit fe f;
  fo_inj : forall f g, fe_bit fe f = fe_bit fe g -> f = g;
  fo_tso : has (NETIF_F_ALL_TSO fe) F_TSO = true /\ has (NETIF_F_ALL_TSO fe) F_TSO6 = true;
  fo_other : forall f, f ∈ [F_HIGHDMA; F_SG; F_RXCSUM; F_LRO] -> has (NETIF_F_ALL_TSO fe) f = false;
}.

(** Whether the hypervisor features [hv] support a feature of the interface. *)
Definition supported (hv : Z) (f : netif_feature) : bool :=
  match f with
  | F_HIGHDMA => true
  | F_SG => flag hv BPFHV_F_SG
  | F_HW_CSUM | F_GSO_ROBUST => flag hv BPFHV_F_TX_CSUM
  | F_TSO => flag hv BPFHV_F_TX_CSUM && flag hv BPFHV_F_TSOv4
  | F_TSO6 => flag hv BPFHV_F_TX_CSUM && flag hv BPFHV_F_TSOv6
  | F_RXCSUM => flag hv BPFHV_F_RX_CSUM
  | F_LRO => flag hv (Z.lor BPFHV_F_TCPv4_LRO BPFHV_F_TCPv6_LRO)
  end.

Hypothesis Hok : features_ok.

Lemma has_netif f g : has (NETIF_F fe f) g = bool_decide (f = g).
Proof.
  unfold has, NETIF_F. rewrite Z.shiftl_1_l, Z.pow2_bits_eqb by apply Hok. case_bool_decide as E.
  - subst g. apply Z.eqb_refl.
  - apply Z.eqb_neq. intros Hb. apply E. by apply (fo_inj Hok).
Qed.

Lemma has_lor a b f : has (Z.lor a b) f = has a f || has b f.
Proof. apply Z.lor_spec. Qed.
Lemma has_clear a b f : has (Z.land a (Z.lnot b)) f = has a f && negb (has b f).
Proof. unfold has. rewrite Z.land_spec, Z.lnot_spec by apply Hok. done. Qed.
Lemma has_if (c : bool) a b f : has (if c then a else b) f = if c then has a f else has b f.
Proof. by destruct c. Qed.

Lemma flag_netif features f : flag features (NETIF_F fe f) = has features f.
Proof.
  unfold flag, has, NETIF_F. rewrite Z.shiftl_1_l. pose proof (fo_pos Hok f) as Hp.
  destruct (Z.testbit features (fe_bit fe f)) eqn:E.
  - apply negb_true_iff, Z.eqb_neq. intros H0. assert (Ht := Z.land_spec features (2 ^ fe_bit fe f) (fe_bit fe f)).
    rewrite H0, Z.bits_0, E, Z.pow2_bits_true in Ht by done. done.
  - apply negb_false_iff, Z.eqb_eq. apply Z.bits_inj_0. intros n. rewrite Z.land_spec.
    destruct (decide (n = fe_bit fe f)) as [->|Hn]; [by rewrite E|]. rewrite Z.pow2_bits_false by done. apply andb_false_r.
Qed.

#[local] Ltac feats := repeat (rewrite has_netif || rewrite has_lor || rewrite has_clear || rewrite has_if).

(** [bpfhv_features_init] enables the features that are supported. *)
Lemma init_has reg f : has (snd (fst (fst (bpfhv_features_init fe reg)))) f = supported (bpfhv_hv_features fe reg) f.
Proof.
  unfold bpfhv_features_init, supported. cbn [fst snd]. generalize (bpfhv_hv_features fe reg). intros hv. feats.
  destruct (flag hv BPFHV_F_SG), (flag hv BPFHV_F_TX_CSUM), (flag hv BPFHV_F_TSOv4), (flag hv BPFHV_F_TSOv6),
    (flag hv BPFHV_F_RX_CSUM), (flag hv (Z.lor _ _)); by destruct f.
Qed.

(** [bpfhv_fix_features] keeps the features that are supported. *)
Lemma fix_has reg features f :
  has (fst (bpfhv_fix_features fe reg features)) f = has features f && supported (bpfhv_hv_features fe reg) f.
Proof.
  unfold bpfhv_fix_features, supported. cbn [fst]. generalize (bpfhv_hv_features fe reg). intros hv. feats.
  destruct (fo_tso Hok) as [Ht Ht6]. assert (Ho := fo_other Hok f).
  assert (Hf : has (NETIF_F_ALL_TSO fe) f = match f with F_TSO | F_TSO6 => true | F_HW_CSUM | F_GSO_ROBUST => has (NETIF_F_ALL_TSO fe) f | _ => false end).
  { destruct f; try done; apply Ho; rewrite !elem_of_cons; tauto. }
  rewrite Hf. generalize (has features f). intros x. clear Ht Ht6 Ho Hf.
  destruct (flag hv BPFHV_F_SG), (flag hv BPFHV_F_TX_CSUM), (flag hv BPFHV_F_TSOv4), (flag hv BPFHV_F_TSOv6),
    (flag hv BPFHV_F_RX_CSUM), (flag hv (Z.lor _ _)), x; destruct f; simpl; by rewrite ?orb_true_r.
Qed.
End features.

(** ** Acquisition and release *)

(** The log run on the stack of the resources held: each release must be of
    the resource acquired last. *)
Fixpoint run_log (st : list resource) (log : list action) : option (list resource) :=
  match log with
  | [] => Some st
  | Acquire r :: log => run_log (r :: st) log
  | Release r :: log =>
      match st with
      | r' :: st => if decide (r' = r) then run_log st log else None
      | [] => None
      end
  end.

Definition acquired (log : list action) : list resource := omap (fun a => match a with Acquire r => Some r | _ => None end) log.
Definition released (log : list action) : list resource := omap (fun a => match a with Release r => Some r | _ => None end) log.

Lemma run_log_app log1 log2 : forall st, run_log st (log1 ++ log2) = run_log st log1 ≫= fun st => run_log st log2.
Proof.
  induction log1 as [|[r|r] log1 IH]; intros st; simpl; [done|apply IH|].
  destruct st as [|r' st]; [done|]. case_decide; [apply IH|done].
Qed.

Lemma run_log_snoc st st' log log' : run_log st log = Some st' -> run_log st (log ++ log') = run_log st' log'.
Proof. intros H. by rewrite run_log_app, H. Qed.

Lemma run_log_perm log : forall st st', run_log st log = Some st' -> acquired log ++ st ≡ₚ released log ++ st'.
Proof.
  induction log as [|[r|r] log IH]; intros st st' H; simpl in H |- *; [by simplify_eq| |].
  - rewrite <- (IH _ _ H). apply Permutation_middle.
  - destruct st as [|r' st]; [done|]. case_decide; [|done]. subst r'. rewrite <- (IH _ _ H). symmetry. apply Permutation_middle.
Qed.

Section irqs.
Context (ie : irq_env) (nrx ntx : Z).

(** The kernel allocates the vectors it is asked for or reports an error. *)
Definition irq_ok : Prop := forall n, ie_alloc ie n = n \/ ie_alloc ie n < 0.

Fixpoint irq_stack (k : nat) : list resource :=
  match k with O => [] | S k => irq_of ie nrx (Z.of_nat k) :: irq_stack k end.

Definition irqs_held : list resource :=
  Irq (ie_vector ie (nrx + ntx)) Upgrade :: irq_stack (Z.to_nat (nrx + ntx)) ++ [IrqVectors].

Lemma request_irqs_run n : forall (i : nat) st,
  let '(ret, i', log) := request_irqs ie nrx n (Z.of_nat i) in
  exists k, i' = Z.of_nat k /\ run_log (irq_stack i ++ st) log = Some (irq_stack k ++ st) /\ (ret = 0 -> k = (i + n)%nat).
Proof.
  induction n as [|n IH]; intros i st; cbn [request_irqs]; [by exists i; split_and!; [..|intros; lia]|].
  destruct (negb (ie_request ie (Z.of_nat i) =? 0)) eqn:E; zify_bool; [exists i; split_and!; [done..|lia]|].
  specialize (IH (S i) st). replace (Z.of_nat i + 1) with (Z.of_nat (S i)) by lia.
  destruct (request_irqs ie nrx n (Z.of_nat (S i))) as [[ret i'] log]. destruct IH as (k & -> & Hr & Hk).
  exists k. split_and!; [done..|]. intros H0. rewrite Hk by done. lia.
Qed.

Lemma release_irqs_run k st : run_log (irq_stack k ++ st) (release_irqs ie nrx k) = Some st.
Proof. induction k as [|k IH]; [done|]. simpl. by rewrite decide_True. Qed.

Lemma irqs_error_run ret k log st : run_log st log = Some (irq_stack k ++ IrqVectors :: st) ->
  run_log st (snd (irqs_error ie nrx ret (Z.of_nat k) log)) = Some st.
Proof.
  intros H. simpl. rewrite (run_log_snoc _ _ _ _ H), Nat2Z.id. rewrite (run_log_snoc _ (IrqVectors :: st)); [|apply release_irqs_run].
  done.
Qed.

Lemma irqs_setup_run st : irq_ok -> 0 <= nrx -> 0 <= ntx ->
  let '(ret, log) := bpfhv_irqs_setup ie nrx ntx in
  run_log st log = Some (if ret =? 0 then irqs_held ++ st else st).
Proof.
  intros Hok Hr Ht. unfold bpfhv_irqs_setup. destruct (negb _) eqn:E; zify_bool.
  { destruct (Hok (nrx + ntx + 1)); [lia|]. by rewrite (proj2 (Z.eqb_neq _ 0)) by lia. }
  pose proof (request_irqs_run (Z.to_nat (nrx + ntx)) 0 (IrqVectors :: st)) as H. change (Z.of_nat 0) with 0 in H.
  destruct (request_irqs ie nrx (Z.to_nat (nrx + ntx)) 0) as [[ret i] log]. destruct H as (k & -> & H & Hk).
  assert (H' : run_log st (Acquire IrqVectors :: log) = Some (irq_stack k ++ IrqVectors :: st)) by done.
  destruct (negb (ret =? 0)) eqn:Er; zify_bool.
  { pose proof (irqs_error_run ret k _ st H') as Hx. unfold irqs_error in *. rewrite (proj2 (Z.eqb_neq ret 0)) by lia. exact Hx. }
  replace (nrx + ntx + 1 - 1) with (nrx + ntx) by lia.
  destruct (negb (ie_request ie (nrx + ntx) =? 0)) eqn:Eu; zify_bool.
  { pose proof (irqs_error_run (ie_request ie (nrx + ntx)) k _ st H') as Hx. unfold irqs_error in *.
    rewrite (proj2 (Z.eqb_neq _ 0)) by lia. exact Hx. }
  rewrite (run_log_snoc _ _ _ _ H'). simpl. unfold irqs_held. rewrite Hk by done. by rewrite <- (assoc_L (++)).
Qed.

Lemma irq_stack_perm k : irq_stack k ≡ₚ irq_of ie nrx <$> seqZ 0 (Z.of_nat k).
Proof.
  induction k as [|k IH]; [done|]. simpl irq_stack. rewrite seqZ_S, fmap_app, IH. simpl.
  by rewrite Permutation_app_comm.
Qed.

Lemma irqs_teardown_released : 0 <= nrx -> 0 <= ntx -> released (bpfhv_irqs_teardown ie nrx ntx) ≡ₚ irqs_held.
Proof.
  intros Hr Ht. unfold bpfhv_irqs_teardown, irqs_held, released. simpl. constructor. rewrite omap_app. simpl. f_equiv.
  rewrite irq_stack_perm, Z2Nat.id by lia. generalize (seqZ 0 (nrx + ntx)). intros l. by induction l as [|i l IH]; simpl; [|rewrite IH].
Qed.

End irqs.

(** ** Probe and removal *)

(** The environment of a probe: the kernel answers as documented. *)
Record probe_ok (pe : probe_env) : Prop := {
  po_setup : env_ok (pe_setup pe);
  po_irq : irq_ok (pe_irq pe);
  po_rx : 0 <= pe_num_rx_queues pe;
  po_tx : 0 <= pe_num_tx_queues pe;
}.

Lemma fresh_info_accounted nrx ntx : accounted (fresh_info nrx ntx) /\ cleared (fresh_info nrx ntx).
Proof.
  assert (Hn : forall n, Forall (fun q => q_ctx q = None) (replicate n (mk_queue None 0))) by (intros n; by apply Forall_replicate).
  assert (Hp : forall i, i ∈ prog_indices -> get_prog i (fresh_info nrx ntx) = None).
  { intros i Hi%prog_index_range. unfold get_prog. cbn [progs fresh_info]. by rewrite lookup_replicate_2 by lia. }
  assert (Hcl : cleared (fresh_info nrx ntx)) by (split; [done|apply Hn..]).
  split; [|done]. destruct (cleared_holds _ Hcl) as [E1 E2]. split; [|by rewrite E1|by rewrite E2].
  done.
Qed.

Section probe.
Context (func_offset : helper -> Z) (fe : features_env) (pe : probe_env).

(** What a device that is bound holds, the last acquired first. *)
Definition device_held (bd : bpfhv_dev) : list resource :=
  irqs_held (pe_irq pe) (pe_num_rx_queues pe) (pe_num_tx_queues pe) ++
  [Registered; NetDevice; IoMap (bd_progmmio_addr bd); IoMap (bd_dbmmio_addr bd); IoMap (bd_regaddr bd);
   Regions (pe_bars pe); PciDevice].

(** The programs and the contexts are all released. *)
Definition unloaded (bd : option bpfhv_dev) : Prop :=
  match bd with Some bd => accounted (bd_info bd) /\ cleared (bd_info bd) | None => True end.

(** The device as a successful probe leaves it. *)
Record bound (bd : bpfhv_dev) : Prop := {
  bo_info : bpfhv_programs_setup func_offset (pe_setup pe) (fresh_info (pe_num_rx_queues pe) (pe_num_tx_queues pe)) = (0, bd_info bd);
  bo_bars : bd_bars bd = pe_bars pe;
  bo_gva : bd_doorbell_gva bd = (Z.land (bd_dbmmio_addr bd) 0xffffffff, Z.land (Z.shiftr (bd_dbmmio_addr bd) 32) 0xffffffff);
  bo_mac : bd_mac bd = mac_address (pe_mac_hi pe) (pe_mac_lo pe);
  bo_features : bd_features bd = bpfhv_features_init fe (pe_reg_features pe);
  bo_rx : bd_rx_doorbells bd = doorbells (bd_dbmmio_addr bd) (pe_doorbell_size pe) 0 (pe_num_rx_queues pe);
  bo_tx : bd_tx_doorbells bd = doorbells (bd_dbmmio_addr bd) (pe_doorbell_size pe) (pe_num_rx_queues pe) (pe_num_tx_queues pe);
  bo_broken : bd_broken bd = false;
}.

(** Either everything has been released, in the reverse order, or [ret] is 0
    and the device is bound and holds all of its resources. *)
Definition probe_outcome (r : probe_result) : Prop :=
  let '(ret, log, bd) := r in
  (run_log [] log = Some [] /\ unloaded bd /\ (ret = 0 -> pe_version pe <> BPFHV_VERSION)) \/
  (ret = 0 /\ exists d, bd = Some d /\ bound d /\ run_log [] log = Some (device_held d)).

Hypothesis Hok : probe_ok pe.

(** What has been acquired before the network device. *)
Definition maps (regaddr dbmmio progmmio : Z) : list resource :=
  [IoMap progmmio; IoMap dbmmio; IoMap regaddr; Regions (pe_bars pe); PciDevice].

Lemma err_alloc_eth_run prog db reg ret log bd : run_log [] log = Some (maps reg db prog) ->
  run_log [] (snd (fst (err_alloc_eth pe prog db reg ret log bd))) = Some [].
Proof.
  intros H. cbn [err_alloc_eth err_progmmio_map err_dbmmio_map err_iomap err_pci_req_reg fst snd].
  rewrite <- !(assoc_L (++)), (run_log_snoc _ _ _ _ H). simpl. by rewrite !decide_True.
Qed.

Lemma err_prog_outcome ret log bd : ret <> 0 -> accounted (bd_info bd) -> cleared (bd_info bd) ->
  run_log [] log = Some (NetDevice :: maps (bd_regaddr bd) (bd_dbmmio_addr bd) (bd_progmmio_addr bd)) ->
  probe_outcome (err_prog pe ret log bd).
Proof.
  intros Hret Ha Hc H. unfold err_prog. left. split; [|split; [done|by intros ?]].
  apply (err_alloc_eth_run _ _ _ ret _ (Some bd)). by rewrite (run_log_snoc _ _ _ _ H).
Qed.

Lemma probe_register_outcome log bd : bound bd -> 
  run_log [] log = Some (NetDevice :: maps (bd_regaddr bd) (bd_dbmmio_addr bd) (bd_progmmio_addr bd)) ->
  probe_outcome (probe_register pe log bd).
Proof.
  intros Hb H. assert (Hac : accounted (bd_info bd)).
  { pose proof (setup_accounted func_offset (pe_setup pe) _ (po_setup _ Hok)
      (proj1 (fresh_info_accounted (pe_num_rx_queues pe) (pe_num_tx_queues pe)))) as Hs. by rewrite (bo_info _ Hb) in Hs. }
  destruct (teardown_spec _ Hac) as (Ht1 & Ht2 & _).
  unfold probe_register. destruct (negb (pe_register pe =? 0)) eqn:Er; zify_bool.
  { apply err_prog_outcome; [lia|exact Ht1|exact Ht2|exact H]. }
  assert (H1 : run_log [] (log ++ [Acquire Registered]) = Some (Registered :: NetDevice :: maps (bd_regaddr bd) (bd_dbmmio_addr bd) (bd_progmmio_addr bd)))
    by (by rewrite (run_log_snoc _ _ _ _ H)).
  pose proof (irqs_setup_run (pe_irq pe) (pe_num_rx_queues pe) (pe_num_tx_queues pe)
    (Registered :: NetDevice :: maps (bd_regaddr bd) (bd_dbmmio_addr bd) (bd_progmmio_addr bd)) (po_irq _ Hok) (po_rx _ Hok) (po_tx _ Hok)) as HI.
  destruct (bpfhv_irqs_setup _ _ _) as [ret log']. rewrite <- (run_log_snoc _ _ _ log' H1) in HI.
  destruct (negb (ret =? 0)) eqn:E; zify_bool.
  - rewrite (proj2 (Z.eqb_neq ret 0)) in HI by lia. unfold err_irqs, err_reg.
    apply err_prog_outcome; [lia|exact Ht1|exact Ht2|]. by rewrite (run_log_snoc _ _ _ _ HI).
  - right. split; [done|]. exists bd. split; [done|]. split; [done|]. by rewrite HI, (proj2 (Z.eqb_eq ret 0)).
Qed.

Lemma probe_netdev_outcome reg db prog log : run_log [] log = Some (maps reg db prog) ->
  probe_outcome (probe_netdev func_offset fe pe reg db prog log).
Proof.
  intros H. unfold probe_netdev. destruct (negb (pe_netdev pe)) eqn:En.
  { left. split; [|done]. by apply (err_alloc_eth_run _ _ _ (- ENOMEM) _ None). }
  assert (H1 : run_log [] (log ++ [Acquire NetDevice]) = Some (NetDevice :: maps reg db prog)) by (by rewrite (run_log_snoc _ _ _ _ H)).
  destruct (fresh_info_accounted (pe_num_rx_queues pe) (pe_num_tx_queues pe)) as [Ha Hc]. cbn [bd_info].
  pose proof (programs_setup_outcome func_offset (pe_setup pe) _ (po_setup _ Hok) Ha) as Hs.
  destruct (bpfhv_programs_setup func_offset (pe_setup pe) _) as [ret bi] eqn:Es. destruct Hs as (Ha' & _ & Hs).
  destruct (negb (ret =? 0)) eqn:E; zify_bool.
  - apply err_prog_outcome; [lia|exact Ha'| |exact H1]. destruct Hs as [[_ ->]|Hs]; [exact Hc|apply Hs; lia].
  - subst ret. by apply probe_register_outcome.
Qed.

#[local] Ltac unwind H := rewrite <- ?(assoc_L (++)), (run_log_snoc _ _ _ _ H); simpl; by rewrite ?decide_True.

Lemma probe_map_outcome log : run_log [] log = Some [Regions (pe_bars pe); PciDevice] ->
  probe_outcome (probe_map func_offset fe pe log).
Proof.
  intros H. unfold probe_map.
  destruct (pe_iomap pe BPFHV_REG_PCI_BAR) as [reg|]; [|by left; split; [unwind H|]].
  destruct (negb (pe_version pe =? BPFHV_VERSION)) eqn:Ev; zify_bool; [by left; split; [unwind H|]|].
  destruct (pe_iomap pe BPFHV_DOORBELL_PCI_BAR) as [db|]; [|by left; split; [unwind H|]].
  destruct (pe_iomap pe BPFHV_PROG_PCI_BAR) as [prog|]; [|by left; split; [unwind H|]].
  apply probe_netdev_outcome. unwind H.
Qed.

Lemma probe_outcome_all : probe_outcome (bpfhv_probe func_offset fe pe).
Proof.
  unfold bpfhv_probe. destruct (negb (pe_enable pe =? 0)) eqn:E1; zify_bool; [left; split; [done|split; [done|lia]]|].
  destruct (negb (pe_regions pe =? 0)) eqn:E2; zify_bool; [left; split; [done|split; [done|lia]]|].
  destruct (negb (pe_save pe =? 0)) eqn:E3; zify_bool; [|by apply probe_map_outcome].
  left. cbn [err_iomap err_pci_req_reg]. split; [|split; [done|lia]]. simpl. by rewrite !decide_True.
Qed.

Lemma remove_releases_held bd : bound bd ->
  released (fst (bpfhv_remove (pe_irq pe) bd)) ≡ₚ device_held bd /\ unloaded (Some (snd (bpfhv_remove (pe_irq pe) bd))).
Proof.
  intros Hb. destruct (fresh_info_accounted (pe_num_rx_queues pe) (pe_num_tx_queues pe)) as [Ha _].
  assert (Hlen : Z.of_nat (length (rxqs (bd_info bd))) = pe_num_rx_queues pe /\ Z.of_nat (length (txqs (bd_info bd))) = pe_num_tx_queues pe).
  { pose proof (programs_setup_outcome func_offset (pe_setup pe) _ (po_setup _ Hok) Ha) as L. rewrite (bo_info _ Hb) in L.
    destruct L as (_ & [L1 L2] & _). cbn [rxqs txqs fresh_info] in L1, L2.
    rewrite length_replicate in L1, L2. pose proof (po_rx _ Hok). pose proof (po_tx _ Hok). lia. }
  pose proof (setup_accounted func_offset (pe_setup pe) _ (po_setup _ Hok) Ha) as Hs. rewrite (bo_info _ Hb) in Hs.
  destruct (teardown_spec _ Hs) as (Ht1 & Ht2 & _). split; [|done].
  unfold bpfhv_remove, device_held. rewrite (proj1 Hlen), (proj2 Hlen). cbn [fst].
  pose proof (irqs_teardown_released (pe_irq pe) _ _ (po_rx _ Hok) (po_tx _ Hok)) as Hi.
  unfold released in *. rewrite !omap_app, Hi, <- (assoc_L (++)). f_equiv. simpl. rewrite (bo_bars _ Hb).
  constructor. symmetry.
  apply (Permutation_middle [IoMap (bd_progmmio_addr bd); IoMap (bd_dbmmio_addr bd); IoMap (bd_regaddr bd); Regions (pe_bars pe)] [PciDevice]).
Qed.

End probe.

(** C16: the probe of the device either binds it (0, with the programs set up,
    the features negotiated, the MAC address and the doorbells read from the
    registers and every resource held), or releases everything it acquired,
    each resource in the reverse order of the acquisitions, with no program or
    context left; it returns 0 in the second case only when the version of the
    device does not match. *)
Theorem probe_unwinds func_offset fe pe : probe_ok pe ->
  let '(ret, log, bd) := bpfhv_probe func_offset fe pe in
  (run_log [] log = Some [] /\ unloaded bd /\ (ret = 0 -> pe_version pe <> BPFHV_VERSION)) \/
  (ret = 0 /\ exists d, bd = Some d /\ bound func_offset fe pe d /\ run_log [] log = Some (device_held pe d)).
Proof. apply probe_outcome_all. Qed.

(** a device with another version is refused with 0, the value of
    success: nothing is held and the structure of the driver does not exist. *)
Theorem probe_version_mismatch func_offset fe pe regaddr :
  pe_enable pe = 0 -> pe_regions pe = 0 -> pe_save pe = 0 -> pe_iomap pe BPFHV_REG_PCI_BAR = Some regaddr ->
  pe_version pe <> BPFHV_VERSION ->
  exists log, bpfhv_probe func_offset fe pe = (0, log, None) /\ run_log [] log = Some [].
Proof.
  intros H1 H2 H3 H4 H5. unfold bpfhv_probe, probe_map. rewrite H1, H2, H3, H4. simpl.
  rewrite (proj2 (Z.eqb_neq _ _) H5). simpl. eexists. split; [done|]. simpl. by rewrite !decide_True.
Qed.

(** the removal of a device that was bound releases each resource that the
    probe acquired exactly once, and every program and context. *)
Theorem remove_releases func_offset fe pe : probe_ok pe ->
  let '(ret, log, bd) := bpfhv_probe func_offset fe pe in
  forall d, ret = 0 -> pe_version pe = BPFHV_VERSION -> bd = Some d ->
  let '(log', d') := bpfhv_remove (pe_irq pe) d in
  acquired (log ++ log') ≡ₚ released (log ++ log') /\ unloaded (Some d').
Proof.
  intros Hok. pose proof (probe_outcome_all func_offset fe pe Hok) as Ho.
  destruct (bpfhv_probe func_offset fe pe) as [[ret log] bd]. intros d Hr Hv ->.
  destruct Ho as [(_ & _ & Hn)|(_ & d' & [= <-] & Hb & Hrun)]; [by destruct (Hn Hr)|].
  destruct (remove_releases_held func_offset fe pe Hok d Hb) as [H1 H2]. pose proof (run_log_perm _ _ _ Hrun) as Hp.
  assert (Ha : acquired (fst (bpfhv_remove (pe_irq pe) d)) = []).
  { unfold bpfhv_remove, bpfhv_irqs_teardown, acquired. cbn [fst]. rewrite !omap_app. simpl. rewrite omap_app. simpl.
    rewrite !app_nil_r. generalize (seqZ 0 (Z.of_nat (length (rxqs (bd_info d))) + Z.of_nat (length (txqs (bd_info d))))).
    intros l. by induction l. }
  destruct (bpfhv_remove (pe_irq pe) d) as [log' d']. split; [|done]. simpl in H1, Ha. unfold acquired, released in *.
  rewrite !omap_app, Ha, H1, app_nil_r. by rewrite app_nil_r in Hp.
Qed.

(** the features of the interface after the negotiation are exactly those
    that the device and the driver support together; [bpfhv_fix_features]
    keeps, of the features the user asks for, those that are supported (so
    that it changes nothing when it runs on the negotiated ones), [bi->lro] is
    set exactly when large receive is active, and what is acknowledged to the
    device was offered by it. *)
Theorem features_negotiated fe reg features : features_ok fe ->
  let '(written, nf, _, lro) := bpfhv_features_init fe reg in
  let '(fixed, lro') := bpfhv_fix_features fe reg features in
  (forall f, has fe nf f = supported (bpfhv_hv_features fe reg) f) /\
  (forall f, has fe fixed f = has fe features f && supported (bpfhv_hv_features fe reg) f) /\
  (forall f, has fe (fst (bpfhv_fix_features fe reg nf)) f = has fe nf f) /\
  lro = has fe nf F_LRO /\ lro' = has fe fixed F_LRO /\ Z.land written reg = written.
Proof.
  intros Hok. pose proof (init_has fe Hok reg) as Hi. pose proof (fix_has fe Hok reg) as Hf.
  assert (Hw : fst (fst (fst (bpfhv_features_init fe reg))) = bpfhv_hv_features fe reg) by done.
  assert (Hl : snd (bpfhv_features_init fe reg) = flag (bpfhv_hv_features fe reg) (Z.lor BPFHV_F_TCPv4_LRO BPFHV_F_TCPv6_LRO)) by done.
  assert (Hl' : snd (bpfhv_fix_features fe reg features) = has fe (fst (bpfhv_fix_features fe reg features)) F_LRO)
    by (by rewrite <- (flag_netif fe Hok)).
  destruct (bpfhv_features_init fe reg) as [[[w nf] hw] lro]. cbn [fst snd] in Hi, Hw, Hl.
  assert (Hff := Hf features). destruct (bpfhv_fix_features fe reg features) as [fixed lro']. cbn [fst snd] in Hff, Hl'.
  split_and!; [done|done| |by rewrite Hl, Hi|done|].
  - intros f. rewrite Hf, Hi. apply andb_diag.
  - rewrite Hw. unfold bpfhv_hv_features. rewrite (Z.land_comm (Z.land _ _)), Z.land_assoc, Z.land_diag. done.
Qed.

(** ** Concrete devices *)

Definition ex_features : features_env :=
  mk_fenv (fun f => match f with F_HIGHDMA => 5 | F_SG => 0 | F_HW_CSUM => 3 | F_TSO => 16 | F_TSO6 => 19 | F_GSO_ROBUST => 17
                    | F_RXCSUM => 40 | F_LRO => 15 end) (Z.lor (2 ^ 16) (Z.lor (2 ^ 18) (2 ^ 19))) true true.

Lemma ex_features_ok : features_ok ex_features.
Proof.
  split; [by intros []|by intros [] []|done|]. intros f Hf. repeat (apply elem_of_cons in Hf as [->|Hf]; [reflexivity|]).
  by apply elem_of_nil in Hf.
Qed.

(** A device and a kernel where the request of interrupt [bad] fails. *)
Definition ex_probe (bad version : Z) : probe_env :=
  mk_penv 11 0 0 0 (fun bar => Some (2 ^ 40 + 65536 * bar)) version 8 1 1 true 0x5254 0x00123456 0x7f (ex_env 0) 0
    (mk_irq (fun n => n) (fun i => 40 + i) (fun i => if i =? bad then -16 else 0)).

Lemma ex_probe_ok bad version : probe_ok (ex_probe bad version).
Proof. split; simpl; [apply ex_env_ok|intros n; by left|lia|lia]. Qed.

Lemma features_negotiated_witness :
  (forall f, has ex_features (fst (bpfhv_fix_features ex_features 0x2f 0xffff)) f = has ex_features 0xffff f && supported 0x2f f) /\
  supported 0x2f F_LRO = false.
Proof.
  pose proof (features_negotiated ex_features 0x2f 0xffff ex_features_ok) as H. split; [|reflexivity].
  destruct (bpfhv_features_init ex_features 0x2f) as [[[w nf] hw] lro].
  destruct (bpfhv_fix_features ex_features 0x2f 0xffff) as [fixed lro']. apply H.
Defined.

Lemma probe_unwinds_witness : exists log bd, bpfhv_probe ex_offset ex_features (ex_probe 1 1) = (-16, log, bd) /\
  run_log [] log = Some [] /\ unloaded bd.
Proof.
  pose proof (probe_unwinds ex_offset ex_features (ex_probe 1 1) (ex_probe_ok _ _)) as H.
  assert (Hr : fst (fst (bpfhv_probe ex_offset ex_features (ex_probe 1 1))) = -16) by (vm_compute; reflexivity).
  destruct (bpfhv_probe ex_offset ex_features (ex_probe 1 1)) as [[ret log] bd]. cbn [fst] in Hr. subst ret.
  exists log, bd. split; [reflexivity|]. destruct H as [(H1 & H2 & _)|(H1 & _)]; [by split|discriminate].
Defined.

Lemma probe_version_mismatch_witness : exists log, bpfhv_probe ex_offset ex_features (ex_probe 9 2) = (0, log, None) /\
  run_log [] log = Some [].
Proof. apply (probe_version_mismatch ex_offset ex_features (ex_probe 9 2) (2 ^ 40)); reflexivity || discriminate. Defined.

Lemma remove_releases_witness : exists log d, bpfhv_probe ex_offset ex_features (ex_probe 9 1) = (0, log, Some d) /\
  acquired (log ++ fst (bpfhv_remove (pe_irq (ex_probe 9 1)) d)) ≡ₚ released (log ++ fst (bpfhv_remove (pe_irq (ex_probe 9 1)) d)).
Proof.
  pose proof (remove_releases ex_offset ex_features (ex_probe 9 1) (ex_probe_ok _ _)) as H.
  assert (Hr : fst (fst (bpfhv_probe ex_offset ex_features (ex_probe 9 1))) = 0) by (vm_compute; reflexivity).
  assert (Hb : bool_decide (is_Some (snd (bpfhv_probe ex_offset ex_features (ex_probe 9 1)))) = true) by (vm_compute; reflexivity).
  destruct (bpfhv_probe ex_offset ex_features (ex_probe 9 1)) as [[ret log] [d|]]; [|discriminate]. cbn [fst] in Hr. subst ret.
  exists log, d. split; [reflexivity|]. specialize (H d eq_refl eq_refl eq_refl).
  destruct (bpfhv_remove (pe_irq (ex_probe 9 1)) d) as [log' d']. apply H.
Defined.
