(* ===== verification/DriverLife.v ===== *)
(** * The life cycle of the interface in the guest driver

    driver/bpfhv.c: [bpfhv_open], [bpfhv_close], [bpfhv_resources_alloc],
    [bpfhv_resources_dealloc] and [bpfhv_upgrade], as the network stack calls
    them.  What they do to the buffers of a queue is in DriverTx and DriverRx
    and is a parameter here; this file follows the programs, the contexts,
    NAPI and the state of the interface through any sequence of commands. *)

From stdpp Require Import gmap.
From S2P Require Import Prelude Abi DriverProgs.
Import DriverProgs.
Open Scope Z_scope.

Module DriverLife.

Definition BPFHV_CTRL_RX_ENABLE : Z := Z.shiftl 1 0.
Definition BPFHV_CTRL_TX_ENABLE : Z := Z.shiftl 1 1.
Definition BPFHV_CTRL_RX_DISABLE : Z := Z.shiftl 1 2.
Definition BPFHV_CTRL_TX_DISABLE : Z := Z.shiftl 1 3.
Definition BPFHV_CTRL_UPGRADE_READY : Z := Z.shiftl 1 4.

(** The interface: the programs and the contexts, whether NAPI is enabled for
    each queue, [netif_running], the carrier, whether the transmit queues are
    started, what was written to [BPFHV_REG_CTRL], and the features that were
    negotiated ([netdev->features]). *)
Record ifstate := mk_if {
  if_bi : bpfhv_info;
  if_broken : bool;
  if_rx_napi : list bool;
  if_tx_napi : list bool;
  if_running : bool;
  if_carrier : bool;
  if_tx_started : bool;
  if_ctrl : list Z;
  if_features : Z;
}.

Definition set_bi b s := mk_if b (if_broken s) (if_rx_napi s) (if_tx_napi s) (if_running s) (if_carrier s) (if_tx_started s) (if_ctrl s) (if_features s).
Definition set_broken b s := mk_if (if_bi s) b (if_rx_napi s) (if_tx_napi s) (if_running s) (if_carrier s) (if_tx_started s) (if_ctrl s) (if_features s).
Definition set_rx_napi l s := mk_if (if_bi s) (if_broken s) l (if_tx_napi s) (if_running s) (if_carrier s) (if_tx_started s) (if_ctrl s) (if_features s).
Definition set_tx_napi l s := mk_if (if_bi s) (if_broken s) (if_rx_napi s) l (if_running s) (if_carrier s) (if_tx_started s) (if_ctrl s) (if_features s).
Definition set_running b s := mk_if (if_bi s) (if_broken s) (if_rx_napi s) (if_tx_napi s) b (if_carrier s) (if_tx_started s) (if_ctrl s) (if_features s).
Definition set_carrier b s := mk_if (if_bi s) (if_broken s) (if_rx_napi s) (if_tx_napi s) (if_running s) b (if_tx_started s) (if_ctrl s) (if_features s).
Definition set_tx_started b s := mk_if (if_bi s) (if_broken s) (if_rx_napi s) (if_tx_napi s) (if_running s) (if_carrier s) b (if_ctrl s) (if_features s).
Definition add_ctrl v s := mk_if (if_bi s) (if_broken s) (if_rx_napi s) (if_tx_napi s) (if_running s) (if_carrier s) (if_tx_started s) (if_ctrl s ++ [v]) (if_features s).

Definition set_features f s := mk_if (if_bi s) (if_broken s) (if_rx_napi s) (if_tx_napi s) (if_running s) (if_carrier s) (if_tx_started s) (if_ctrl s) f.

(** What stops the kernel: a program or a context that is a null pointer,
    [napi_enable] of an instance that is enabled ([BUG_ON]), [napi_disable] of
    one that is disabled, which waits forever. *)
Inductive fault := NullProgram | NullContext | NapiBug | NapiHang.

Definition M (A : Type) : Type := ifstate -> fault + (A * ifstate).
#[export] Instance M_ret : MRet M := fun A a s => inr (a, s).
#[export] Instance M_bind : MBind M := fun A B k m s => match m s with inl f => inl f | inr (a, s) => k a s end.
Definition get : M ifstate := fun s => inr (s, s).
Definition modify (f : ifstate -> ifstate) : M unit := fun s => inr (tt, f s).
Definition fail {A} (f : fault) : M A := fun _ => inl f.

(** [for (i = k; i < k + n; i++)] *)
Fixpoint for_from (k n : nat) (f : nat -> M unit) : M unit :=
  match n with O => mret tt | S n => f k ;; for_from (S k) n f end.

Definition napi_enable_at (i : nat) (l : list bool) : fault + list bool :=
  match l !! i with Some false => inr (<[i := true]> l) | _ => inl NapiBug end.
Definition napi_disable_at (i : nat) (l : list bool) : fault + list bool :=
  match l !! i with Some true => inr (<[i := false]> l) | _ => inl NapiHang end.

(** The receive or the transmit queues. *)
Inductive dir := Rx | Tx.
#[export] Instance dir_eq_dec : EqDecision dir.
Proof. solve_decision. Defined.
Definition napi_of (d : dir) (s : ifstate) : list bool := match d with Rx => if_rx_napi s | Tx => if_tx_napi s end.
Definition set_napi (d : dir) : list bool -> ifstate -> ifstate := match d with Rx => set_rx_napi | Tx => set_tx_napi end.
Definition queues_of (d : dir) (bi : bpfhv_info) : list queue := match d with Rx => rxqs bi | Tx => txqs bi end.
Definition set_queues (d : dir) : list queue -> bpfhv_info -> bpfhv_info := match d with Rx => set_rxqs | Tx => set_txqs end.

(** [napi_enable] or [napi_disable] on the [i]-th queue. *)
Definition napi (op : nat -> list bool -> fault + list bool) (d : dir) (i : nat) : M unit := fun s =>
  match op i (napi_of d s) with inl f => inl f | inr l => inr (tt, set_napi d l s) end.

(** What the data path does to a queue: [bpfhv_rx_refill] (which returns 0),
    [bpfhv_rx_clean], [bpfhv_tx_clean] and the loops that reclaim the buffers.
    [netdev_update_features] is the kernel's, and calls [bpfhv_fix_features] and
    [bpfhv_set_features], which are in DriverCtl. *)
Record datapath := mk_dp {
  dp_rx_refill : queue -> queue;
  dp_rx_clean : queue -> queue;
  dp_rx_reclaim : queue -> queue;
  dp_tx_clean : queue -> queue;
  dp_tx_reclaim : queue -> queue;
  dp_update_features : Z -> Z;
}.

Section life.
Context (func_offset : helper -> Z) (dp : datapath).

(** The programs [ps] run on the context of a queue, which becomes [f q]. *)
Definition run_queue (ps : list Z) (f : queue -> queue) (q : queue) (bi : bpfhv_info) : fault + queue :=
  if negb (forallb (fun i => bool_decide (is_Some (get_prog i bi))) ps) then inl NullProgram
  else match q_ctx q with None => inl NullContext | Some _ => inr (f q) end.

Definition on_queue (d : dir) (ps : list Z) (f : queue -> queue) (i : nat) : M unit := fun s =>
  match queues_of d (if_bi s) !! i with
  | None => inr (tt, s)
  | Some q =>
      match run_queue ps f q (if_bi s) with
      | inl e => inl e
      | inr q => inr (tt, set_bi (set_queues d (<[i := q]> (queues_of d (if_bi s))) (if_bi s)) s)
      end
  end.

Definition num (d : dir) (s : ifstate) : nat := length (queues_of d (if_bi s)).

(** [bpfhv_rx_refill] on the [i]-th queue: its loop runs when there are free
    buffers. *)
Definition rx_refill (i : nat) : M unit :=
  s ← get;
  match rxqs (if_bi s) !! i with
  | Some q => if 0 <? q_free_bufs q then on_queue Rx [BPFHV_PROG_RX_PUBLISH] (dp_rx_refill dp) i else mret tt
  | None => mret tt
  end.

(** [bpfhv_rx_clean] may publish buffers as well. *)
Definition rx_clean (i : nat) : M unit := on_queue Rx [BPFHV_PROG_RX_COMPLETE; BPFHV_PROG_RX_PUBLISH] (dp_rx_clean dp) i.
Definition tx_clean (i : nat) : M unit := on_queue Tx [BPFHV_PROG_TX_COMPLETE] (dp_tx_clean dp) i.

Definition bpfhv_resources_alloc : M Z :=
  s ← get;
  for_from 0 (num Rx s) rx_refill ;;
  mret 0.

Definition bpfhv_resources_dealloc : M unit :=
  s ← get;
  for_from 0 (num Tx s) (on_queue Tx [BPFHV_PROG_TX_RECLAIM] (dp_tx_reclaim dp)) ;;
  for_from 0 (num Rx s) (on_queue Rx [BPFHV_PROG_RX_RECLAIM] (dp_rx_reclaim dp)).

Definition bpfhv_close_carrier (carrier_off : bool) : M Z :=
  s ← get;
  if if_broken s then mret 0
  else
    modify (add_ctrl (Z.lor BPFHV_CTRL_RX_DISABLE BPFHV_CTRL_TX_DISABLE)) ;;
    for_from 0 (num Tx s) (fun i => napi napi_disable_at Tx i ;; tx_clean i) ;;
    (if carrier_off then modify (set_carrier false) else mret tt) ;;
    modify (set_tx_started false) ;;
    for_from 0 (num Rx s) (fun i => napi napi_disable_at Rx i ;; rx_clean i) ;;
    bpfhv_resources_dealloc ;;
    mret 0.

Definition bpfhv_close : M Z := bpfhv_close_carrier true.

(** [status] is what [BPFHV_REG_STATUS] shows. *)
Definition bpfhv_open (status : Z) : M Z :=
  s ← get;
  if if_broken s then mret (- EIO)
  else
    ret ← bpfhv_resources_alloc;
    if negb (ret =? 0) then bpfhv_resources_dealloc ;; mret ret
    else
      for_from 0 (num Rx s) (napi napi_enable_at Rx) ;;
      for_from 0 (num Tx s) (napi napi_enable_at Tx) ;;
      modify (add_ctrl (Z.lor BPFHV_CTRL_RX_ENABLE BPFHV_CTRL_TX_ENABLE)) ;;
      let both := Z.lor BPFHV_STATUS_RX_ENABLED BPFHV_STATUS_TX_ENABLED in
      if negb (Z.land status both =? both) then bpfhv_close ;; mret (- EIO)
      else
        modify (set_carrier true) ;;
        modify (set_tx_started true) ;;
        mret 0.

(** [status] and [status'] are what [BPFHV_REG_STATUS] shows at the start and
    when the interface is opened again. *)
Definition bpfhv_upgrade (status : Z) (e : setup_env) (status' : Z) : M unit :=
  if Z.land status BPFHV_STATUS_UPGRADE =? 0 then mret tt
  else
    s ← get;
    (if if_running s then bpfhv_close_carrier true else mret 0) ;;
    modify (add_ctrl BPFHV_CTRL_UPGRADE_READY) ;;
    s ← get;
    let '(ret, bi) := bpfhv_programs_setup func_offset e (if_bi s) in
    modify (set_bi bi) ;;
    if negb (ret =? 0) then modify (set_broken true)
    else
      s ← get;
      modify (set_features (dp_update_features dp (if_features s))) ;;
      modify (set_broken false) ;;
      s ← get;
      if if_running s then bpfhv_open status' ;; mret tt else mret tt.

(** What the network stack and the device ask of the driver.  The stack calls
    [ndo_open] and [ndo_stop] on an interface that is down and up respectively;
    the interface is marked as running before [ndo_open] (and not if it fails)
    and is not before [ndo_stop]. *)
Inductive command :=
| CmdOpen (status : Z)
| CmdStop
| CmdUpgrade (status : Z) (e : setup_env) (status' : Z).

Definition do_command (c : command) : M unit :=
  s ← get;
  match c with
  | CmdOpen status =>
      if if_running s then mret tt
      else
        modify (set_running true) ;;
        ret ← bpfhv_open status;
        if negb (ret =? 0) then modify (set_running false) else mret tt
  | CmdStop =>
      if if_running s then modify (set_running false) ;; bpfhv_close ;; mret tt else mret tt
  | CmdUpgrade status e status' => bpfhv_upgrade status e status'
  end.

Fixpoint do_commands (cs : list command) : M unit :=
  match cs with [] => mret tt | c :: cs => do_command c ;; do_commands cs end.

End life.
End DriverLife.
Import DriverLife.

(** ** Safety of a computation *)

(** It meets no fault and ends in a state that satisfies [Q]. *)
Definition safe {A} (m : M A) (Q : A -> ifstate -> Prop) (s : ifstate) : Prop :=
  match m s with inl _ => False | inr (a, s') => Q a s' end.

Lemma m_safe_ret {A} (a : A) Q s : Q a s -> safe (mret a) Q s.
Proof. done. Qed.
Lemma m_safe_bind {A B} (m : M A) (k : A -> M B) Q s : safe m (fun a s' => safe (k a) Q s') s -> safe (m ≫= k) Q s.
Proof. unfold safe, mbind, M_bind. by destruct (m s) as [f|[a s']]. Qed.
Lemma safe_get Q s : Q s s -> safe get Q s.
Proof. done. Qed.
Lemma safe_modify f Q s : Q tt (f s) -> safe (modify f) Q s.
Proof. done. Qed.
Lemma safe_mono {A} (m : M A) (P Q : A -> ifstate -> Prop) s : safe m P s -> (forall a s', P a s' -> Q a s') -> safe m Q s.
Proof. unfold safe. destruct (m s) as [f|[a s']]; auto. Qed.

Lemma safe_for (I : nat -> ifstate -> Prop) n f : forall k s,
  (forall j s', (k <= j < k + n)%nat -> I j s' -> safe (f j) (fun _ s'' => I (S j) s'') s') ->
  I k s -> safe (for_from k n f) (fun _ s' => I (k + n)%nat s') s.
Proof.
  induction n as [|n IH]; intros k s Hf Hk; cbn [for_from].
  - apply m_safe_ret. by rewrite Nat.add_0_r.
  - apply m_safe_bind. eapply safe_mono; [apply Hf; [lia|exact Hk]|]. intros a s' Hs'. rewrite <- Nat.add_succ_comm.
    apply IH; [|done]. intros j s'' Hj. apply Hf. lia.
Qed.

(** ** What the data path keeps *)

(** The operations of the data path do not change the context of a queue. *)
Record datapath_ok (dp : datapath) : Prop := {
  dk_rx_refill : forall q, q_ctx (dp_rx_refill dp q) = q_ctx q;
  dk_rx_clean : forall q, q_ctx (dp_rx_clean dp q) = q_ctx q;
  dk_rx_reclaim : forall q, q_ctx (dp_rx_reclaim dp q) = q_ctx q;
  dk_tx_clean : forall q, q_ctx (dp_tx_clean dp q) = q_ctx q;
  dk_tx_reclaim : forall q, q_ctx (dp_tx_reclaim dp q) = q_ctx q;
}.

Record kept (s s' : ifstate) : Prop := {
  kp_progs : progs (if_bi s') = progs (if_bi s);
  kp_ctx : forall d, q_ctx <$> queues_of d (if_bi s') = q_ctx <$> queues_of d (if_bi s);
  kp_rxs : rx_ctx_size (if_bi s') = rx_ctx_size (if_bi s);
  kp_txs : tx_ctx_size (if_bi s') = tx_ctx_size (if_bi s);
  kp_log : log (if_bi s') = log (if_bi s);
  kp_broken : if_broken s' = if_broken s;
  kp_running : if_running s' = if_running s;
}.

#[export] Instance kept_refl : Reflexive kept.
Proof. intros s. by split. Qed.
#[export] Instance kept_trans : Transitive kept.
Proof.
  intros s1 s2 s3 [A1 A2 A3 A4 A5 A6 A7] [B1 B2 B3 B4 B5 B6 B7]. split; [congruence| |congruence..]. intros d. by rewrite B2, A2.
Qed.

Lemma kept_num s s' d : kept s s' -> num d s' = num d s.
Proof. intros Hk. pose proof (f_equal length (kp_ctx _ _ Hk d)) as H. by rewrite !length_fmap in H. Qed.

(** Every mandatory program is loaded and every queue has its context. *)
Record ready (bi : bpfhv_info) : Prop := {
  rd_progs : forall i, i ∈ prog_indices -> prog_is_optional i = false -> is_Some (get_prog i bi);
  rd_ctx : forall d, Forall (fun c => is_Some c) (q_ctx <$> queues_of d bi);
}.

Lemma kept_ready s s' : kept s s' -> ready (if_bi s) -> ready (if_bi s').
Proof.
  intros Hk [R1 R2]. split; [|intros d; by rewrite (kp_ctx _ _ Hk)].
  intros i Hi Ho. unfold get_prog. rewrite (kp_progs _ _ Hk). by apply R1.
Qed.

Lemma held_ctxs_ext size qs : forall qs' q0, q_ctx <$> qs' = q_ctx <$> qs -> held_ctxs size q0 qs' = held_ctxs size q0 qs.
Proof.
  induction qs as [|q qs IH]; intros [|q' qs'] q0 H; try done. simpl in H. injection H as H1 H2. simpl. by rewrite H1, (IH _ _ H2).
Qed.

Lemma kept_accounted s s' : kept s s' -> accounted (if_bi s) -> accounted (if_bi s').
Proof.
  intros Hk [A1 A2 A3]. pose proof (kept_num _ _ Rx Hk) as N1. destruct Hk as [E1 E2 E4 E5 E6 _ _].
  unfold num in N1; simpl in N1. split.
  - by rewrite E1.
  - unfold held_progs, get_prog in *. by rewrite E1, E6.
  - unfold bi_ctxs, num_rx_queues in *. by rewrite E4, E5, E6, N1, (held_ctxs_ext _ _ _ _ (E2 Rx)), (held_ctxs_ext _ _ _ _ (E2 Tx)).
Qed.

(** The programs that the life cycle runs are mandatory. *)
Definition mandatory (ps : list Z) : Prop := Forall (fun i => i ∈ prog_indices /\ prog_is_optional i = false) ps.

Lemma run_queue_ready ps f q bi : mandatory ps -> ready bi -> is_Some (q_ctx q) -> run_queue ps f q bi = inr (f q).
Proof.
  intros Hm Hr [c Hc]. unfold run_queue.
  assert (forallb (fun i => bool_decide (is_Some (get_prog i bi))) ps = true) as ->.
  { apply forallb_forall. intros i Hi. apply bool_decide_eq_true. apply list_elem_of_In in Hi.
    apply list.Forall_forall with (x := i) in Hm as [H1 H2]; [|done]. by apply (rd_progs _ Hr). }
  simpl. by rewrite Hc.
Qed.

Lemma insert_ctx (qs : list queue) i q q' : qs !! i = Some q -> q_ctx q' = q_ctx q -> q_ctx <$> <[i := q']> qs = q_ctx <$> qs.
Proof.
  intros Hq E. rewrite list_fmap_insert, E. apply list_insert_id. by rewrite list_lookup_fmap, Hq.
Qed.

(** Only the queues change. *)
Definition quiet (s s' : ifstate) : Prop := kept s s' /\ forall d, napi_of d s' = napi_of d s.

Lemma if_quiet_refl s : quiet s s.
Proof. by split. Qed.
Lemma if_quiet_trans s1 s2 s3 : quiet s1 s2 -> quiet s2 s3 -> quiet s1 s3.
Proof. intros (K & E) (K' & E'). split; [by etrans|]. intros d. by rewrite E'. Qed.

Lemma on_queue_safe d ps f i s : mandatory ps -> (forall q, q_ctx (f q) = q_ctx q) -> ready (if_bi s) ->
  safe (on_queue d ps f i) (fun _ s' => quiet s s') s.
Proof.
  intros Hm Hf Hr. unfold safe, on_queue. destruct (queues_of d (if_bi s) !! i) as [q|] eqn:Eq; [|apply if_quiet_refl].
  rewrite (run_queue_ready ps f q) by (done || (eapply list.Forall_lookup_1; [apply (rd_ctx _ Hr d)|by rewrite list_lookup_fmap, Eq])).
  split; [|by intros []]. split; simpl; try (by destruct d).
  intros d'. pose proof (insert_ctx _ _ q (f q) Eq (Hf q)) as Hi. by destruct d, d'.
Qed.

Lemma quiet_for n f s : ready (if_bi s) -> (forall j s', ready (if_bi s') -> safe (f j) (fun _ s'' => quiet s' s'') s') ->
  safe (for_from 0 n f) (fun _ s' => quiet s s') s.
Proof.
  intros Hr Hf. apply (safe_for (fun _ s' => quiet s s')); [|apply if_quiet_refl].
  intros j s' _ Hq. eapply safe_mono; [apply Hf; eapply kept_ready; [apply Hq|done]|]. intros a s'' Hq'. by eapply if_quiet_trans.
Qed.

(** ** NAPI *)

Lemma replicate_next {A} (a b : A) k n : (k < n)%nat ->
  (replicate k a ++ replicate (n - k) b) !! k = Some b /\
  <[k := a]> (replicate k a ++ replicate (n - k) b) = replicate (S k) a ++ replicate (n - S k) b.
Proof.
  intros Hk. replace (n - k)%nat with (S (n - S k)) by lia. cbn [replicate].
  rewrite list_lookup_middle by (by rewrite length_replicate). split; [done|].
  rewrite insert_app_r_alt by (by rewrite length_replicate). rewrite length_replicate, Nat.sub_diag. simpl.
  by rewrite cons_middle, (assoc_L (++)), <- replicate_S_end.
Qed.

(** The queues of direction [d] have NAPI enabled ([b]), those of the other
    direction are as they were. *)
Definition napi_set (d : dir) (l : list bool) (s s' : ifstate) : Prop :=
  kept s s' /\ forall d', napi_of d' s' = if bool_decide (d' = d) then l else napi_of d' s.

(** A loop over the queues of direction [d] that enables each of them, or
    disables and cleans it. *)
Lemma napi_loop_safe (d : dir) (b : bool) op (clean : nat -> M unit) s n :
  (forall i l, l !! i = Some (negb b) -> op i l = inr (<[i := b]> l)) ->
  (forall j s', ready (if_bi s') -> safe (clean j) (fun _ s'' => quiet s' s'') s') ->
  ready (if_bi s) -> napi_of d s = replicate n (negb b) ->
  safe (for_from 0 n (fun i => napi op d i ;; clean i)) (fun _ s' => napi_set d (replicate n b) s s') s.
Proof.
  intros Hop Hc Hrd H0. eapply safe_mono.
  - apply (safe_for (fun k s' => napi_set d (replicate k b ++ replicate (n - k) (negb b)) s s')).
    + intros j s' Hj (Hk & Hn). apply m_safe_bind. unfold safe at 1, napi.
      destruct (replicate_next b (negb b) j n ltac:(lia)) as [L1 L2]. rewrite (Hn d), bool_decide_true, (Hop _ _ L1), L2 by done.
      set (s1 := set_napi d _ s'). assert (Hk1 : kept s s1) by (etrans; [exact Hk|]; by destruct d; split).
      eapply safe_mono; [apply Hc; by eapply kept_ready|]. intros _ s'' (Hk' & E). split; [by etrans|].
      intros d'. rewrite E. specialize (Hn d'). case_bool_decide as Ed; [subst d'; by destruct d|].
      rewrite <- Hn. by destruct d, d'.
    + rewrite Nat.sub_0_r. split; [done|]. intros d'. case_bool_decide; [by subst|done].
  - simpl. intros _ s' (Hk & Hn). by rewrite Nat.sub_diag, app_nil_r in Hn.
Qed.

Lemma enable_safe d s n : ready (if_bi s) -> napi_of d s = replicate n false ->
  safe (for_from 0 n (napi napi_enable_at d)) (fun _ s' => napi_set d (replicate n true) s s') s.
Proof.
  intros Hr H0. pose proof (napi_loop_safe d true napi_enable_at (fun _ => mret tt) s n) as H.
  assert (Heq : forall m k st, for_from k m (fun i => napi napi_enable_at d i ;; mret tt) st = for_from k m (napi napi_enable_at d) st).
  { induction m as [|m IH]; intros k st; [done|]. cbn [for_from]. unfold mbind, M_bind.
    destruct (napi napi_enable_at d k st) as [f|[[] s']]; [done|]. unfold mret, M_ret. apply IH. }
  unfold safe in *. rewrite Heq in H. apply H; [| |done|done].
  - intros i l Hl. unfold napi_enable_at. by rewrite Hl.
  - intros _ s' _. apply if_quiet_refl.
Qed.

Lemma disable_safe d clean s n : (forall j s', ready (if_bi s') -> safe (clean j) (fun _ s'' => quiet s' s'') s') ->
  ready (if_bi s) -> napi_of d s = replicate n true ->
  safe (for_from 0 n (fun i => napi napi_disable_at d i ;; clean i)) (fun _ s' => napi_set d (replicate n false) s s') s.
Proof. intros Hc Hr H0. apply (napi_loop_safe d false); [|done..]. intros i l Hl. unfold napi_disable_at. by rewrite Hl. Qed.

(** ** The operations of the interface *)

Section life.
Context (func_offset : helper -> Z) (dp : datapath).
Hypothesis Hdp : datapath_ok dp.

#[local] Ltac mand := repeat constructor; apply (bool_decide_unpack _); by vm_compute.

Lemma rx_refill_safe j s : ready (if_bi s) -> safe (rx_refill dp j) (fun _ s' => quiet s s') s.
Proof.
  intros Hr. unfold rx_refill. apply m_safe_bind, safe_get. destruct (rxqs (if_bi s) !! j) as [q|]; [|apply if_quiet_refl].
  case_if; [|apply if_quiet_refl]. apply on_queue_safe; [mand|apply Hdp|done].
Qed.

Lemma dealloc_safe s : ready (if_bi s) -> safe (bpfhv_resources_dealloc dp) (fun _ s' => quiet s s') s.
Proof.
  intros Hr. unfold bpfhv_resources_dealloc. apply m_safe_bind, safe_get, m_safe_bind.
  eapply safe_mono; [apply quiet_for; [done|]; intros j s' Hr'; apply on_queue_safe; [mand|apply Hdp|done]|].
  intros ? s1 Hq1. eapply safe_mono; [apply quiet_for; [by eapply kept_ready; [apply Hq1|]|]; intros j s' Hr'; apply on_queue_safe; [mand|apply Hdp|done]|].
  intros ? s2 Hq2. exact (if_quiet_trans _ _ _ Hq1 Hq2).
Qed.

(** Every queue has NAPI enabled, or every queue has it disabled. *)
Definition napi_all (b : bool) (s : ifstate) : Prop := forall d, napi_of d s = replicate (num d s) b.

Lemma napi_set_both b s s1 s2 d d' : d <> d' -> napi_set d (replicate (num d s) b) s s1 ->
  napi_set d' (replicate (num d' s) b) s1 s2 -> kept s s2 /\ napi_all b s2.
Proof using.
  intros Hd [K1 N1] [K2 N2]. assert (K : kept s s2) by (by etrans). split; [done|].
  intros x. rewrite (kept_num _ _ x K), N2, N1. destruct d, d', x; done.
Qed.

Lemma close_safe c s : if_broken s = false -> ready (if_bi s) -> napi_all true s ->
  safe (bpfhv_close_carrier dp c) (fun ret s' => ret = 0 /\ kept s s' /\ napi_all false s') s.
Proof.
  intros Hb Hr Hn. unfold bpfhv_close_carrier. apply m_safe_bind, safe_get. rewrite Hb. apply m_safe_bind, safe_modify, m_safe_bind.
  set (s0 := add_ctrl _ s). assert (K0 : kept s s0) by (by split).
  eapply safe_mono; [apply (disable_safe Tx _ s0); [|exact Hr|exact (Hn Tx)]|].
  { intros j s' Hr'. apply on_queue_safe; [mand|apply Hdp|done]. }
  intros ? s1 H1. apply m_safe_bind. eapply (safe_mono _ (fun _ s' => quiet s1 s')); [destruct c; (split; [by split|done])|].
  intros ? s2 [K2 N2]. apply m_safe_bind, safe_modify, m_safe_bind. set (s3 := set_tx_started _ s2).
  assert (K3 : kept s s3). { etrans; [exact K0|]. etrans; [apply H1|]. etrans; [exact K2|]. by split. }
  eapply safe_mono; [apply (disable_safe Rx _ s3); [|by eapply kept_ready|]|].
  { intros j s' Hr'. apply on_queue_safe; [mand|apply Hdp|done]. }
  { change (napi_of Rx s3) with (napi_of Rx s2). rewrite N2. destruct H1 as [_ ->]. exact (Hn Rx). }
  intros ? s4 H4. destruct (napi_set_both false s0 s3 s4 Tx Rx) as [K4 N4]; [done| |exact H4|].
  { split; [etrans; [apply H1|]; etrans; [exact K2|]; by split|]. intros d'. change (napi_of d' s3) with (napi_of d' s2).
    rewrite N2. apply H1. }
  assert (K4' : kept s s4) by exact (kept_trans _ _ _ K0 K4). apply m_safe_bind.
  eapply safe_mono; [apply dealloc_safe; by eapply kept_ready|]. intros ? s5 [K5 N5]. apply m_safe_ret.
  split; [done|]. split; [exact (kept_trans _ _ _ K4' K5)|]. intros d. by rewrite N5, (kept_num _ _ _ K5), N4.
Qed.

(** The status that [bpfhv_open] expects. *)
Definition enabled (status : Z) : bool :=
  let both := Z.lor BPFHV_STATUS_RX_ENABLED BPFHV_STATUS_TX_ENABLED in Z.land status both =? both.

Lemma open_safe status s : if_broken s = false -> ready (if_bi s) -> napi_all false s ->
  safe (bpfhv_open dp status) (fun ret s' => ret = (if enabled status then 0 else - EIO) /\ kept s s' /\ napi_all (enabled status) s') s.
Proof.
  intros Hb Hr Hn. unfold bpfhv_open. apply m_safe_bind, safe_get. rewrite Hb. apply m_safe_bind.
  eapply (safe_mono _ (fun ret s' => ret = 0 /\ quiet s s')).
  { unfold bpfhv_resources_alloc. apply m_safe_bind, safe_get, m_safe_bind.
    eapply safe_mono; [apply quiet_for; [done|intros j s' Hr'; by apply rx_refill_safe]|]. done. }
  intros ? s1 [-> [K1 N1]]. simpl negb. cbv iota. apply m_safe_bind.
  eapply safe_mono; [apply (enable_safe Rx s1); [by eapply kept_ready|rewrite N1; apply Hn]|].
  intros ? s2 H2. apply m_safe_bind. eapply safe_mono; [apply (enable_safe Tx s2); [eapply kept_ready; [apply H2|by eapply kept_ready]|]|].
  { destruct H2 as [_ ->]. rewrite bool_decide_false, (N1 Tx) by done. apply Hn. }
  intros ? s3 H3. destruct (napi_set_both true s1 s2 s3 Rx Tx) as [K3 N3]; [done| | |].
  { by rewrite (kept_num _ _ _ K1). } { by rewrite (kept_num _ _ _ K1). }
  assert (K3' : kept s s3) by exact (kept_trans _ _ _ K1 K3). apply m_safe_bind, safe_modify. set (s4 := add_ctrl _ s3).
  assert (K4 : kept s s4) by (etrans; [exact K3'|]; by split). fold (enabled status). destruct (enabled status); cbn [negb].
  - apply m_safe_bind, safe_modify, m_safe_bind, safe_modify, m_safe_ret. split; [done|]. split; [|exact N3]. etrans; [exact K4|]. by split.
  - apply m_safe_bind. eapply safe_mono; [apply close_safe; [by rewrite (kp_broken _ _ K4)|by eapply kept_ready|exact N3]|].
    intros ? s5 (-> & K5 & N5). apply m_safe_ret. split; [done|]. split; [exact (kept_trans _ _ _ K4 K5)|done].
Qed.

(** The invariant of the interface: the accounts of the programs and contexts
    balance; unless it is broken everything that it needs is loaded; NAPI is
    enabled exactly when it is running and not broken. *)
Record if_ok (s : ifstate) : Prop := {
  io_acc : accounted (if_bi s);
  io_ready : if_broken s = false -> ready (if_bi s);
  io_napi : napi_all (if_running s && negb (if_broken s)) s;
}.

(** The set-up of an upgrade does not hide a failure, and the device enables
    the queues when the interface is opened again. *)
Definition command_ok (n : nat) (c : command) : Prop :=
  match c with
  | CmdUpgrade _ e status' =>
      env_ok e /\ enabled status' = true /\
      (forall bi, num_queues bi = n -> fst (bpfhv_programs_setup func_offset e bi) = 0 -> se_kmalloc e = true /\ can_setup e bi)
  | _ => True
  end.

Lemma fresh_ready e bi bi' : same_num bi bi' ->
  (forall i, i ∈ prog_indices -> get_prog i bi' = loaded_prog func_offset e i) ->
  fresh_queues e (num_rx_queues bi) (se_rx_bufs e) (Z.of_nat (length (txqs bi))) (se_tx_bufs e) bi' -> ready bi'.
Proof using.
  intros Hn Hp (_ & _ & F1 & F2). split.
  - intros i Hi Ho. rewrite Hp by done. unfold loaded_prog. by rewrite Ho, andb_false_r.
  - intros d. apply list.Forall_lookup. intros k c Hk. rewrite list_lookup_fmap in Hk.
    destruct (queues_of d bi' !! k) as [q|] eqn:Eq; [|done]. simpl in Hk. injection Hk as <-.
    destruct d; [destruct (F1 _ _ Eq) as (a & _ & ->)|destruct (F2 _ _ Eq) as (a & _ & ->)]; by eexists.
Qed.

Definition same_total (s s' : ifstate) : Prop := num_queues (if_bi s') = num_queues (if_bi s).

Lemma kept_total s s' : kept s s' -> same_total s s'.
Proof using. intros Hk. pose proof (kept_num _ _ Rx Hk). pose proof (kept_num _ _ Tx Hk). unfold same_total, num_queues, num in *. simpl in *. lia. Qed.

(** The upgrade, when the status register asks for one. *)
Record upgraded (e : setup_env) (status' : Z) (s s' : ifstate) : Prop := {
  ug_acc : accounted (if_bi s');
  ug_ready : if_broken s' = false -> ready (if_bi s');
  ug_running : if_running s' = if_running s;
  ug_napi : napi_all (if_running s && negb (if_broken s') && enabled status') s';
  ug_num : forall d, num d s' = num d s;
  ug_broken : se_kmalloc e = true -> can_setup e (if_bi s) -> if_broken s' = false;
}.

Lemma close_running_safe s : if_ok s ->
  safe (if if_running s then bpfhv_close_carrier dp true else mret 0) (fun _ s' => kept s s' /\ napi_all false s') s.
Proof.
  intros Hs. pose proof (io_napi _ Hs) as Hn. destruct (if_running s) eqn:Er; [|by apply m_safe_ret].
  destruct (if_broken s) eqn:Eb.
  - unfold bpfhv_close_carrier. apply m_safe_bind, safe_get. rewrite Eb. by apply m_safe_ret.
  - eapply safe_mono; [apply close_safe; [done|by apply (io_ready _ Hs)|exact Hn]|]. intros ? s' (_ & ? & ?). done.
Qed.

Lemma upgrade_spec status e status' s : if_ok s -> env_ok e -> Z.land status BPFHV_STATUS_UPGRADE <> 0 ->
  (forall bi, num_queues bi = num_queues (if_bi s) -> fst (bpfhv_programs_setup func_offset e bi) = 0 -> se_kmalloc e = true /\ can_setup e bi) ->
  safe (bpfhv_upgrade func_offset dp status e status') (fun _ s' => upgraded e status' s s') s.
Proof.
  intros Hs He Hst Hset. unfold bpfhv_upgrade. rewrite (proj2 (Z.eqb_neq _ _) Hst). apply m_safe_bind, safe_get, m_safe_bind.
  eapply safe_mono; [by apply close_running_safe|].
  intros ? s1 [K1 N1]. apply m_safe_bind, safe_modify, m_safe_bind, safe_get. set (s2 := add_ctrl _ s1).
  change (if_bi s2) with (if_bi s1). pose proof (kept_accounted _ _ K1 (io_acc _ Hs)) as Ha1.
  pose proof (programs_setup_outcome func_offset e (if_bi s1) He Ha1) as Ho. specialize (Hset (if_bi s1) (kept_total _ _ K1)).
  pose proof (setup_ready func_offset e (if_bi s1) He Ha1) as Hrd.
  assert (Hcan1 : can_setup e (if_bi s) -> can_setup e (if_bi s1)).
  { intros [HF Hd]. split; [done|]. intros q Hq. rewrite (kept_total _ _ K1) in Hq. by apply Hd. }
  destruct (bpfhv_programs_setup func_offset e (if_bi s1)) as [ret bi]. destruct Ho as (Ha2 & Hsn & _).
  assert (Hd1 : forall d, num d (set_bi bi s2) = num d s1) by (unfold num; destruct Hsn as [E1 E2]; by intros []).
  assert (Ht : forall d, num d (set_bi bi s2) = num d s) by (intros d; by rewrite Hd1, (kept_num _ _ d K1)).
  assert (N2 : forall b, napi_all false (set_broken b (set_bi bi s2))).
  { intros b d. change (napi_of d _) with (napi_of d s1). change (num d _) with (num d (set_bi bi s2)). by rewrite N1, Hd1. }
  assert (Er2 : if_running (set_bi bi s2) = if_running s) by (by rewrite <- (kp_running _ _ K1)).
  apply m_safe_bind, safe_modify. destruct (negb (ret =? 0)) eqn:Eret; zify_bool.
  { apply safe_modify. split; [done|done|done| |done|].
    - cbn [if_broken set_broken]. rewrite andb_false_r. apply N2.
    - intros Hk Hc. destruct (Hrd Hk (Hcan1 Hc)) as [? _]. lia. }
  destruct (Hset Eret) as [Hkm Hcan]. destruct (Hrd Hkm Hcan) as (_ & Hp & Hf). pose proof (fresh_ready e _ _ Hsn Hp Hf) as Hready.
  apply m_safe_bind, safe_get, m_safe_bind, safe_modify, m_safe_bind, safe_modify, m_safe_bind, safe_get.
  set (s3 := set_broken false (set_features _ (set_bi bi s2))).
  change (if_running s3) with (if_running (set_bi bi s2)). rewrite Er2. destruct (if_running s) eqn:Er.
  - apply m_safe_bind. eapply safe_mono; [apply open_safe; [done|exact Hready|apply N2]|]. intros ? s4 (_ & K4 & N4).
    apply m_safe_ret. split.
    + by eapply kept_accounted.
    + intros _. by eapply kept_ready.
    + rewrite (kp_running _ _ K4). by rewrite Er.
    + rewrite (kp_broken _ _ K4), Er. exact N4.
    + intros d. rewrite (kept_num _ _ d K4). apply Ht.
    + intros _ _. by rewrite (kp_broken _ _ K4).
  - apply m_safe_ret. split; [done|done|by rewrite Er|rewrite Er; apply N2|done|done].
Qed.

Lemma upgrade_ok status e status' s : if_ok s -> command_ok (num_queues (if_bi s)) (CmdUpgrade status e status') ->
  safe (bpfhv_upgrade func_offset dp status e status') (fun _ s' => if_ok s' /\ same_total s s') s.
Proof.
  intros Hs (He & Hen & Hset). destruct (decide (Z.land status BPFHV_STATUS_UPGRADE = 0)) as [E|E].
  { unfold bpfhv_upgrade. by rewrite E. }
  eapply safe_mono; [by apply upgrade_spec|]. intros _ s' [U1 U2 U3 U4 U5 _].
  split; [|pose proof (U5 Rx); pose proof (U5 Tx); unfold same_total, num_queues, num in *; simpl in *; lia].
  split; [done|done|]. by rewrite Hen, andb_true_r, <- U3 in U4.
Qed.

Lemma command_keeps c s : if_ok s -> command_ok (num_queues (if_bi s)) c ->
  safe (do_command func_offset dp c) (fun _ s' => if_ok s' /\ same_total s s') s.
Proof.
  intros Hs Hc. unfold do_command. apply m_safe_bind, safe_get. destruct c as [status| |status e status']; [| |by apply upgrade_ok].
  - destruct (if_running s) eqn:Er; [by apply m_safe_ret|]. apply m_safe_bind, safe_modify, m_safe_bind. set (s1 := set_running true s).
    pose proof (io_napi _ Hs) as Hn. rewrite Er in Hn. destruct (if_broken s) eqn:Eb.
    + unfold bpfhv_open. apply m_safe_bind, safe_get. change (if_broken s1) with (if_broken s). rewrite Eb. apply m_safe_ret.
      cbn [Z.eqb negb EIO Z.opp]. apply safe_modify. split; [|done]. split; [apply Hs|apply (io_ready _ Hs)|exact Hn].
    + eapply safe_mono; [apply (open_safe status s1); [done|by apply (io_ready _ Hs)|exact Hn]|].
      intros ? s2 (-> & K & N). destruct (enabled status); cbn [Z.eqb negb EIO Z.opp].
      * apply m_safe_ret. split; [|by apply (kept_total s1 s2)]. split; [exact (kept_accounted s1 s2 K (io_acc _ Hs))| |].
        -- intros _. exact (kept_ready s1 s2 K (io_ready _ Hs Eb)).
        -- rewrite (kp_running _ _ K), (kp_broken _ _ K). cbn [s1 if_running if_broken set_running]. by rewrite Eb.
      * apply safe_modify. split; [|by apply (kept_total s1 s2)]. split; [exact (kept_accounted s1 s2 K (io_acc _ Hs))| |exact N].
        intros _. exact (kept_ready s1 s2 K (io_ready _ Hs Eb)).
  - destruct (if_running s) eqn:Er; [|by apply m_safe_ret]. apply m_safe_bind, safe_modify, m_safe_bind. set (s1 := set_running false s).
    pose proof (io_napi _ Hs) as Hn. rewrite Er in Hn. unfold bpfhv_close. destruct (if_broken s) eqn:Eb.
    + unfold bpfhv_close_carrier. apply m_safe_bind, safe_get. change (if_broken s1) with (if_broken s). rewrite Eb. apply m_safe_ret.
      apply m_safe_ret. split; [|done]. split; [apply Hs|apply (io_ready _ Hs)|].
      change (napi_all (false && negb (if_broken s1)) s1). exact Hn.
    + eapply safe_mono; [apply (close_safe true s1); [done|by apply (io_ready _ Hs)|exact Hn]|].
      intros ? s2 (_ & K & N). apply m_safe_ret. split; [|by apply (kept_total s1 s2)]. split; [exact (kept_accounted s1 s2 K (io_acc _ Hs))| |].
      * intros _. exact (kept_ready s1 s2 K (io_ready _ Hs Eb)).
      * rewrite (kp_running _ _ K). exact N.
Qed.

Lemma commands_keep cs : forall s, if_ok s -> Forall (command_ok (num_queues (if_bi s))) cs ->
  safe (do_commands func_offset dp cs) (fun _ s' => if_ok s') s.
Proof.
  induction cs as [|c cs IH]; intros s Hs HF; cbn [do_commands]; [by apply m_safe_ret|].
  inversion HF as [|? ? Hc HF']; subst. apply m_safe_bind. eapply safe_mono; [by apply command_keeps|].
  intros ? s' [Hs' Ht]. apply IH; [done|]. unfold same_total in Ht. by rewrite Ht.
Qed.

(** [napi_disable] of a queue that is disabled waits forever. *)
Lemma close_hangs c s : if_broken s = false -> napi_all false s -> (0 < num Tx s)%nat ->
  bpfhv_close_carrier dp c s = inl NapiHang.
Proof using.
  intros Hb Hn Hp. unfold bpfhv_close_carrier. unfold mbind at 1, M_bind at 1. cbn [get]. rewrite Hb.
  destruct (num Tx s) as [|n] eqn:En; [lia|]. assert (HT := Hn Tx). rewrite En in HT.
  unfold mbind, M_bind, modify. cbn [for_from]. unfold mbind, M_bind, napi, napi_disable_at.
  change (napi_of Tx (add_ctrl _ s)) with (napi_of Tx s). by rewrite HT.
Qed.

End life.

Lemma commands_end func_offset dp cs s : datapath_ok dp -> if_ok s -> Forall (command_ok func_offset (num_queues (if_bi s))) cs ->
  exists s', do_commands func_offset dp cs s = inr (tt, s') /\ if_ok s'.
Proof.
  intros Hdp Hs HF. pose proof (commands_keep func_offset dp Hdp cs s Hs HF) as H. unfold safe in H.
  destruct (do_commands func_offset dp cs s) as [f|[[] s']]; [done|by exists s'].
Qed.

(** C12: whatever sequence of commands the driver receives (the interface is
    opened and stopped, the programs are upgraded), as long as no set-up hides
    a failure and the device enables its queues after an upgrade, the driver
    meets no null program or context and no wrong call to NAPI, and at the end
    the accounts of the programs balance, everything needed is loaded unless
    the device is broken, and NAPI is enabled on every queue exactly when the
    interface is running and not broken. *)
Theorem lifecycle_safe func_offset dp cs s : datapath_ok dp -> if_ok s ->
  Forall (command_ok func_offset (num_queues (if_bi s))) cs ->
  exists s', do_commands func_offset dp cs s = inr (tt, s') /\ if_ok s'.
Proof. apply commands_end. Qed.

(** when the device does not enable its queues after an upgrade of a
    running interface, the error of [bpfhv_open] is not noticed: the interface
    stays marked as running with NAPI disabled, and the next stop waits forever
    in [napi_disable]. *)
Theorem upgrade_reopen_hangs func_offset dp status e status' s : datapath_ok dp -> if_ok s ->
  if_running s = true -> (0 < num Tx s)%nat -> env_ok e -> se_kmalloc e = true -> can_setup e (if_bi s) ->
  Z.land status BPFHV_STATUS_UPGRADE <> 0 -> enabled status' = false ->
  exists s', do_command func_offset dp (CmdUpgrade status e status') s = inr (tt, s') /\
  if_running s' = true /\ if_broken s' = false /\ do_command func_offset dp CmdStop s' = inl NapiHang.
Proof.
  intros Hdp Hs Hr Hn He Hk Hc Hst Hen.
  assert (Hset : forall bi, num_queues bi = num_queues (if_bi s) -> fst (bpfhv_programs_setup func_offset e bi) = 0 -> se_kmalloc e = true /\ can_setup e bi).
  { intros bi Hnum _. split; [done|]. destruct Hc as [HF Hd]. split; [done|]. intros q Hq. apply Hd. by rewrite <- Hnum. }
  pose proof (upgrade_spec func_offset dp Hdp status e status' s Hs He Hst Hset) as HU. unfold safe in HU.
  change (do_command func_offset dp (CmdUpgrade status e status') s) with (bpfhv_upgrade func_offset dp status e status' s).
  destruct (bpfhv_upgrade func_offset dp status e status' s) as [f|[[] s']]; [done|]. destruct HU as [_ _ U3 U4 U5 U6].
  exists s'. split; [done|]. rewrite U3, (U6 Hk Hc). split; [done|]. split; [done|].
  unfold do_command. unfold mbind at 1, M_bind at 1. cbn [get]. rewrite U3, Hr.
  unfold mbind, M_bind, modify, bpfhv_close. rewrite close_hangs; [done|by apply U6| |].
  - rewrite Hen, andb_false_r in U4. exact U4.
  - change (num Tx _) with (num Tx s'). by rewrite U5.
Qed.

(** ** A concrete interface *)

Definition ex_dp : datapath :=
  let publish q := mk_queue (q_ctx q) 0 in
  let reclaim q := mk_queue (q_ctx q) 256 in
  mk_dp publish publish reclaim (fun q => q) reclaim (fun f => f).

Lemma ex_dp_ok : datapath_ok ex_dp.
Proof. by split. Qed.

(** The device of [ex_env], after a set-up. *)
Definition ex_if (running : bool) : ifstate :=
  mk_if (snd (bpfhv_programs_setup ex_offset (ex_env 0) ex_bi)) false [running] [running] running running running [] 0.

Lemma ex_can_setup bi : num_queues bi = num_queues ex_bi -> can_setup (ex_env 0) bi.
Proof.
  intros Hn. split; [by apply (bool_decide_unpack _); vm_compute|]. intros q Hq. rewrite Hn in Hq. by apply ex_dma.
Qed.

Lemma ex_setup : fst (bpfhv_programs_setup ex_offset (ex_env 0) ex_bi) = 0 /\
  forall b, accounted (if_bi (ex_if b)) /\ ready (if_bi (ex_if b)) /\ same_num ex_bi (if_bi (ex_if b)).
Proof.
  pose proof (programs_setup_outcome ex_offset (ex_env 0) ex_bi (ex_env_ok _) ex_accounted) as Ho.
  pose proof (setup_ready ex_offset (ex_env 0) ex_bi (ex_env_ok _) ex_accounted eq_refl (ex_can_setup _ eq_refl)) as Hr.
  unfold ex_if. cbn [if_bi]. destruct (bpfhv_programs_setup ex_offset (ex_env 0) ex_bi) as [ret bi]. simpl.
  destruct Ho as (Ha & Hn & _). destruct Hr as (-> & Hp & Hf). split; [done|]. intros _. split; [done|]. split; [|done].
  by eapply (fresh_ready ex_offset).
Qed.

Lemma ex_if_ok b : if_ok (ex_if b).
Proof.
  destruct (proj2 ex_setup b) as (Ha & Hr & [N1 N2]). split; [done|done|].
  intros []; cbn [napi_of ex_if if_rx_napi if_tx_napi if_running if_broken negb]; rewrite andb_true_r; unfold num; cbn [queues_of]; [by rewrite N1|by rewrite N2].
Qed.

Lemma ex_total b : num_queues (if_bi (ex_if b)) = num_queues ex_bi.
Proof. apply same_num_total, (proj2 ex_setup b). Qed.

Lemma ex_upgrade_ok b : command_ok ex_offset (num_queues (if_bi (ex_if b))) (CmdUpgrade 2 (ex_env 0) 12).
Proof.
  split; [apply ex_env_ok|]. split; [reflexivity|]. intros bi Hb _. split; [reflexivity|].
  apply ex_can_setup. by rewrite Hb, ex_total.
Qed.

(** ** The device, the carrier and the transmit queues *)

(** What the writes to [BPFHV_REG_CTRL] leave the queues of the device in. *)
Definition ctrl_step (on : bool) (v : Z) : bool :=
  if v =? Z.lor BPFHV_CTRL_RX_ENABLE BPFHV_CTRL_TX_ENABLE then true
  else if v =? Z.lor BPFHV_CTRL_RX_DISABLE BPFHV_CTRL_TX_DISABLE then false else on.
Definition device_on (ctrl : list Z) : bool := foldl ctrl_step false ctrl.

(** The three are in the state [b]. *)
Definition link_is (b : bool) (s : ifstate) : Prop := device_on (if_ctrl s) = b /\ if_carrier s = b /\ if_tx_started s = b.

(** [m], if it meets no fault, ends in a state that satisfies [Q]. *)
Definition ends {A} (m : M A) (Q : A -> ifstate -> Prop) (s : ifstate) : Prop :=
  match m s with inl _ => True | inr (a, s') => Q a s' end.

Lemma ends_bind {A B} (m : M A) (k : A -> M B) Q s : ends m (fun a s' => ends (k a) Q s') s -> ends (m ≫= k) Q s.
Proof. unfold ends, mbind, M_bind. by destruct (m s) as [f|[a s']]. Qed.
Lemma ends_mono {A} (m : M A) (P Q : A -> ifstate -> Prop) s : ends m P s -> (forall a s', P a s' -> Q a s') -> ends m Q s.
Proof. unfold ends. destruct (m s) as [f|[a s']]; auto. Qed.

Lemma ends_get Q s : Q s s -> ends get Q s.
Proof. done. Qed.
Lemma ends_modify f Q s : Q tt (f s) -> ends (modify f) Q s.
Proof. done. Qed.
Lemma ends_ret {A} (a : A) Q s : Q a s -> ends (mret a) Q s.
Proof. done. Qed.

(** The state of the link and of the interface does not change. *)
Definition calm (s s' : ifstate) : Prop :=
  if_ctrl s' = if_ctrl s /\ if_carrier s' = if_carrier s /\ if_tx_started s' = if_tx_started s /\
  if_running s' = if_running s /\ if_broken s' = if_broken s.

#[export] Instance calm_trans : Transitive calm.
Proof. intros s1 s2 s3 (A1 & A2 & A3 & A4 & A5) (B1 & B2 & B3 & B4 & B5). unfold calm. split_and!; congruence. Qed.

Lemma calm_refl s : calm s s.
Proof. done. Qed.

Lemma for_calm f : (forall j s, ends (f j) (fun _ s' => calm s s') s) -> forall n k s, ends (for_from k n f) (fun _ s' => calm s s') s.
Proof.
  intros Hf. induction n as [|n IH]; intros k s; cbn [for_from]; [apply calm_refl|]. apply ends_bind.
  eapply ends_mono; [apply Hf|]. intros ? s1 H1. eapply ends_mono; [apply IH|]. intros ? s2 H2. exact (calm_trans _ _ _ H1 H2).
Qed.

Lemma on_queue_calm d ps f i s : ends (on_queue d ps f i) (fun _ s' => calm s s') s.
Proof.
  unfold ends, on_queue. destruct (queues_of d (if_bi s) !! i) as [q|]; [|apply calm_refl].
  destruct (run_queue ps f q (if_bi s)) as [?|q']; [done|]. by destruct d.
Qed.

Lemma napi_calm op d i s : ends (napi op d i) (fun _ s' => calm s s') s.
Proof. unfold ends, napi. destruct (op i (napi_of d s)); [done|]. by destruct d. Qed.

Section link.
Context (func_offset : helper -> Z) (dp : datapath).

Lemma rx_refill_calm j s : ends (rx_refill dp j) (fun _ s' => calm s s') s.
Proof.
  unfold rx_refill. apply ends_bind, ends_get.
  destruct (rxqs (if_bi s) !! j); [|apply calm_refl]. case_if; [apply on_queue_calm|apply calm_refl].
Qed.

Lemma dealloc_calm s : ends (bpfhv_resources_dealloc dp) (fun _ s' => calm s s') s.
Proof.
  unfold bpfhv_resources_dealloc. apply ends_bind, ends_get. apply ends_bind.
  eapply ends_mono; [apply for_calm; intros; apply on_queue_calm|]. intros ? s1 H1.
  eapply ends_mono; [apply for_calm; intros; apply on_queue_calm|]. intros ? s2 H2. exact (calm_trans _ _ _ H1 H2).
Qed.

Lemma disable_calm d clean n s : (forall j s, ends (clean j) (fun _ s' => calm s s') s) ->
  ends (for_from 0 n (fun i => napi napi_disable_at d i ;; clean i)) (fun _ s' => calm s s') s.
Proof.
  intros Hc. apply for_calm. intros j s1. apply ends_bind. eapply ends_mono; [apply napi_calm|]. intros ? s2 H2.
  eapply ends_mono; [apply Hc|]. intros ? s3 H3. exact (calm_trans _ _ _ H2 H3).
Qed.

Lemma device_on_snoc l v : device_on (l ++ [v]) = ctrl_step (device_on l) v.
Proof. unfold device_on. by rewrite foldl_app. Qed.

(** Closing turns everything off, unless the interface is broken. *)
Lemma close_link s : if_broken s = false ->
  ends (bpfhv_close_carrier dp true) (fun _ s' => link_is false s' /\ if_running s' = if_running s /\ if_broken s' = false) s.
Proof.
  intros Hb. unfold bpfhv_close_carrier. apply ends_bind, ends_get. rewrite Hb.
  apply ends_bind, ends_modify. set (s0 := add_ctrl _ s). apply ends_bind.
  eapply ends_mono; [apply disable_calm; intros; apply on_queue_calm|]. intros ? s1 (C1 & _ & _ & R1 & B1).
  apply ends_bind, ends_modify. apply ends_bind, ends_modify. set (s2 := set_tx_started false _). apply ends_bind.
  eapply ends_mono; [apply disable_calm; intros; apply on_queue_calm|]. intros ? s3 H3. apply ends_bind.
  eapply ends_mono; [apply dealloc_calm|]. intros ? s4 H4. pose proof (calm_trans _ _ _ H3 H4) as (C & K & T & R & B).
  apply ends_ret. unfold link_is. rewrite C, K, T, R, B.
  change (if_ctrl s2) with (if_ctrl s1). rewrite C1. change (if_ctrl s0) with (if_ctrl s ++ [Z.lor BPFHV_CTRL_RX_DISABLE BPFHV_CTRL_TX_DISABLE]).
  rewrite device_on_snoc. split; [done|]. by rewrite <- Hb.
Qed.

(** Opening turns everything on, or off again when the device refuses. *)
Lemma open_link status s : if_broken s = false ->
  ends (bpfhv_open dp status) (fun ret s' => ret = (if enabled status then 0 else - EIO) /\ link_is (enabled status) s' /\
    if_running s' = if_running s /\ if_broken s' = false) s.
Proof.
  intros Hb. unfold bpfhv_open. apply ends_bind, ends_get. rewrite Hb. apply ends_bind.
  eapply (ends_mono _ (fun ret s' => ret = 0 /\ calm s s')).
  { unfold bpfhv_resources_alloc. apply ends_bind, ends_get. apply ends_bind.
    eapply ends_mono; [apply for_calm; intros; apply rx_refill_calm|]. done. }
  intros ? s1 [-> H1]. simpl negb. cbv iota. apply ends_bind. eapply ends_mono; [apply for_calm; intros; apply napi_calm|]. intros ? s2 H2.
  apply ends_bind. eapply ends_mono; [apply for_calm; intros; apply napi_calm|]. intros ? s3 H3.
  pose proof (calm_trans _ _ _ (calm_trans _ _ _ H1 H2) H3) as (C & K & T & R & B). apply ends_bind, ends_modify. set (s4 := add_ctrl _ s3). fold (enabled status). destruct (enabled status); cbn [negb].
  - apply ends_bind, ends_modify. apply ends_bind, ends_modify. apply ends_ret. split; [done|].
    split; [|split; [exact R|by rewrite <- Hb]]. split; [|done]. cbn [set_tx_started set_carrier s4 add_ctrl if_ctrl]. by rewrite device_on_snoc.
  - apply ends_bind. eapply ends_mono; [apply close_link; by rewrite <- Hb, <- B|]. intros ? s5 (L & R5 & B5).
    apply ends_ret. split; [done|]. split; [done|]. rewrite R5. done.
Qed.

(** The link is up exactly when the interface runs and is not broken. *)
Definition link_ok (s : ifstate) : Prop := link_is (if_running s && negb (if_broken s)) s.

Lemma upgrade_link status e status' s : enabled status' = true -> link_ok s ->
  ends (bpfhv_upgrade func_offset dp status e status') (fun _ s' => link_ok s') s.
Proof.
  intros Hen Hs. unfold bpfhv_upgrade. case_if; [exact Hs|]. apply ends_bind, ends_get. apply ends_bind.
  eapply (ends_mono _ (fun _ s' => link_is false s' /\ if_running s' = if_running s)).
  { unfold link_ok in Hs. destruct (if_running s) eqn:Er; [|done]. destruct (if_broken s) eqn:Eb.
    - unfold bpfhv_close_carrier. apply ends_bind, ends_get. rewrite Eb. done.
    - eapply ends_mono; [by apply close_link|]. intros ? s' (H1 & H2 & _). by rewrite H2. }
  intros ? s1 [(D1 & K1 & T1) R1]. apply ends_bind, ends_modify. apply ends_bind, ends_get. set (s2 := add_ctrl _ s1). destruct (bpfhv_programs_setup func_offset e (if_bi s2)) as [ret bi].
  assert (D2 : device_on (if_ctrl s2) = false) by (cbn [s2 add_ctrl if_ctrl]; by rewrite device_on_snoc, D1).
  apply ends_bind, ends_modify. destruct (negb (ret =? 0)).
  { apply ends_modify. unfold link_ok. cbn [set_broken if_broken]. rewrite andb_false_r. done. }
  apply ends_bind, ends_get. apply ends_bind, ends_modify. apply ends_bind, ends_modify. apply ends_bind, ends_get.
  set (s3 := set_broken false _). change (if_running s3) with (if_running s1). destruct (if_running s1) eqn:E1.
  - apply ends_bind. eapply ends_mono; [apply (open_link status' s3); done|]. intros ? s4 (_ & L & R & B). rewrite Hen in L.
    apply ends_ret. unfold link_ok. rewrite R, B. change (if_running s3) with (if_running s1). by rewrite E1.
  - apply ends_ret. unfold link_ok. change (if_running s3) with (if_running s1). rewrite E1. done.
Qed.

Lemma command_link c s : match c with CmdUpgrade _ _ status' => enabled status' = true | _ => True end -> link_ok s ->
  ends (do_command func_offset dp c) (fun _ s' => link_ok s') s.
Proof.
  intros Hc Hs. unfold do_command. apply ends_bind, ends_get. destruct c as [status| |status e status']; [| |by apply upgrade_link].
  - unfold link_ok in Hs. destruct (if_running s) eqn:Er; [by apply ends_ret; unfold link_ok; rewrite Er|]. apply ends_bind, ends_modify. set (s1 := set_running true s). apply ends_bind. destruct (if_broken s) eqn:Eb.
    + unfold bpfhv_open. apply ends_bind, ends_get. change (if_broken s1) with (if_broken s). rewrite Eb. done.
    + eapply ends_mono; [apply (open_link status s1); done|]. intros ? s2 (-> & L & R & B). destruct (enabled status); cbn [Z.eqb negb EIO Z.opp].
      * apply ends_ret. unfold link_ok. by rewrite R, B.
      * apply ends_modify. exact L.
  - unfold link_ok in Hs. destruct (if_running s) eqn:Er; [|by apply ends_ret; unfold link_ok; rewrite Er]. apply ends_bind, ends_modify. set (s1 := set_running false s). apply ends_bind. destruct (if_broken s) eqn:Eb.
    + unfold bpfhv_close, bpfhv_close_carrier. apply ends_bind, ends_get. change (if_broken s1) with (if_broken s). rewrite Eb. done.
    + eapply ends_mono; [apply (close_link s1); done|]. intros ? s2 (L & R & B). apply ends_ret.
      unfold link_ok. rewrite R. done.
Qed.

Lemma commands_link cs : Forall (fun c => match c with CmdUpgrade _ _ status' => enabled status' = true | _ => True end) cs ->
  forall s, link_ok s -> ends (do_commands func_offset dp cs) (fun _ s' => link_ok s') s.
Proof.
  intros HF. induction HF as [|c cs Hc _ IH]; intros s Hs; cbn [do_commands]; [done|]. apply ends_bind.
  eapply ends_mono; [by apply command_link|]. intros ? s' Hs'. by apply IH.
Qed.

End link.

(** C13: through any sequence of commands that ends (with the device enabling its
    queues after each upgrade), whatever the set-ups do, the queues of the device
    are enabled, the carrier is on and the transmit queues are started all three
    together: exactly when the interface is running and not broken. *)
Theorem lifecycle_link func_offset dp cs s s' :
  Forall (fun c => match c with CmdUpgrade _ _ status' => enabled status' = true | _ => True end) cs ->
  link_ok s -> do_commands func_offset dp cs s = inr (tt, s') -> link_ok s'.
Proof. intros HF Hs E. pose proof (commands_link func_offset dp cs HF s Hs) as H. unfold ends in H. by rewrite E in H. Qed.

Lemma lifecycle_safe_witness : exists s',
  do_commands ex_offset ex_dp [CmdOpen 12; CmdUpgrade 2 (ex_env 0) 12; CmdStop; CmdOpen 0; CmdOpen 12] (ex_if false) = inr (tt, s') /\ if_ok s'.
Proof.
  apply (lifecycle_safe ex_offset ex_dp); [apply ex_dp_ok|apply ex_if_ok|].
  apply list.Forall_forall. intros c Hc. repeat (apply elem_of_cons in Hc as [->|Hc]; [first [exact I|apply ex_upgrade_ok]|]).
  by apply elem_of_nil in Hc.
Defined.

Lemma upgrade_reopen_hangs_witness : exists s',
  do_command ex_offset ex_dp (CmdUpgrade 2 (ex_env 0) 0) (ex_if true) = inr (tt, s') /\ if_running s' = true /\
  if_broken s' = false /\ do_command ex_offset ex_dp CmdStop s' = inl NapiHang.
Proof.
  apply (upgrade_reopen_hangs ex_offset ex_dp 2 (ex_env 0) 0 (ex_if true)); try reflexivity; try discriminate.
  - apply ex_dp_ok.
  - apply ex_if_ok.
  - destruct (proj2 ex_setup true) as (_ & _ & [_ N2]). unfold num. cbn [queues_of]. rewrite N2. simpl. lia.
  - apply ex_env_ok.
  - apply ex_can_setup, ex_total.
Defined.

Definition ex_commands : list command := [CmdOpen 12; CmdUpgrade 2 (ex_env 0) 12; CmdStop; CmdOpen 12].

Lemma ex_commands_end : exists s', do_commands ex_offset ex_dp ex_commands (ex_if false) = inr (tt, s').
Proof.
  assert (HF : Forall (command_ok ex_offset (num_queues (if_bi (ex_if false)))) ex_commands).
  { apply list.Forall_cons; split; [exact I|]. apply list.Forall_cons; split; [apply ex_upgrade_ok|].
    apply list.Forall_cons; split; [exact I|]. apply list.Forall_cons; split; [exact I|]. by apply list.Forall_nil. }
  destruct (commands_end ex_offset ex_dp ex_commands (ex_if false) ex_dp_ok (ex_if_ok false) HF) as (s' & E & _). exists s'. exact E.
Qed.

Lemma lifecycle_link_witness : exists s', do_commands ex_offset ex_dp ex_commands (ex_if false) = inr (tt, s') /\ link_ok s'.
Proof.
  destruct ex_commands_end as [s' E]. exists s'. split; [exact E|]. apply (lifecycle_link ex_offset ex_dp ex_commands (ex_if false)); [|split; [reflexivity|by split]|exact E].
  apply list.Forall_cons; split; [exact I|]. apply list.Forall_cons; split; [reflexivity|].
  apply list.Forall_cons; split; [exact I|]. apply list.Forall_cons; split; [exact I|]. by apply list.Forall_nil.
Defined.
