(* ===== verification/Cqueue.v ===== *)
(** * The circular queues between the clients and the scheduler

    sched16/cqueue.h and sched16/cqueue.c.  A client and the scheduler share an
    array of packets and one index: the client publishes a packet by writing a
    non-zero length in the next slot, the scheduler copies whole cache lines
    into a private cache, takes packets from there, and publishes how far it
    has finished with them, after which the client clears the slots.

    [Cqueue] is the code.  [cq_step] lets the two sides interleave store by
    store and read by read: the pointer and the length of an entry are stored,
    cleared and copied separately.  Its reachable states satisfy [cq_ok], from
    which the queue is first-in first-out and nothing is lost or taken twice,
    for a copy that reads the length of an entry before its pointer and the
    lengths in order; [cqueue_torn_read] and [cqueue_backward_copy] are what
    goes wrong in other orders. *)

From S2P Require Import Prelude.
Open Scope Z_scope.

Module Cqueue.

(** ** Data *)

Record my_pkt := mk_pkt { bufptr : Z; len : Z }.
#[export] Instance my_pkt_inhabited : Inhabited my_pkt := populate (mk_pkt 0 0).
#[export] Instance my_pkt_eq_dec : EqDecision my_pkt.
Proof. solve_decision. Defined.

(** [struct my_pkt] with its padding. *)
Definition sizeof_my_pkt : Z := struct_size [f64; f16; farray f16 3].
Definition QCACHE_SIZE : Z := 64.
Definition QCACHE_NUM : Z := QCACHE_SIZE / sizeof_my_pkt.

(** [struct cqueue].  [p_s_head] is the variable that the pointer of this name
    points to, [None] for a null pointer. *)
Record cqueue := mk_cqueue {
  user_size : Z;
  real_size : Z;
  p_s_head : option Z;
  queue : list my_pkt;
}.

(** [struct cqueue_client], with the time stamps [st]; the fields for the
    notification of the scheduler are used only by main.c. *)
Record cqueue_client := mk_cli {
  n_pending : Z;
  c_tail : Z;
  c_head : Z;
  c_shead : Z;
  n_cli_put : Z;
  n_cli_put_bytes : Z;
  n_cli_get : Z;
  n_cli_lag : Z;
  n_cli_drp : Z;
  n_cli_slow_read : Z;
  st : list Z;
}.

(** [struct cqueue_sched]. *)
Record cqueue_sched := mk_sch {
  s_nhead : Z;
  s_tail : Z;
  s_next : Z;
  s_cache_valid : bool;
  n_sch_put : Z;
  n_sch_pub : Z;
  n_sch_fetch : Z;
  sch_extract_next : Z;
  qcache : list my_pkt;
}.

(** ** Operations *)

Definition cqueue_create (user_size : Z) : cqueue :=
  let real_size := u32 (Z.land (user_size + QCACHE_NUM - 1) (Z.lnot (QCACHE_NUM - 1))) in
  mk_cqueue user_size real_size None (repeat (mk_pkt 0 0) (Z.to_nat real_size)).

Definition cqueue_init_p_s_head (s_head : Z) (q : cqueue) : cqueue :=
  mk_cqueue (user_size q) (real_size q) (Some s_head) (queue q).

Definition cqueue_cli_init (q : cqueue) : cqueue_client :=
  mk_cli 0 0 0 0 0 0 0 0 0 0 (repeat 0 (Z.to_nat (real_size q))).

Definition cqueue_sched_init : cqueue_sched := mk_sch 0 0 0 false 0 0 0 0 (repeat (mk_pkt 0 0) (Z.to_nat QCACHE_NUM)).

Definition cqueue_next (q : cqueue) (i : Z) : Z := let i := u32 (i + 1) in if i =? real_size q then 0 else i.

Definition put_slot (i : Z) (p : my_pkt) (q : cqueue) : cqueue :=
  mk_cqueue (user_size q) (real_size q) (p_s_head q) (<[Z.to_nat i := p]> (queue q)).
Definition get_slot (i : Z) (q : cqueue) : my_pkt := queue q !!! Z.to_nat i.

(** The two stores to an entry. *)
Definition store_bufptr (i b : Z) (q : cqueue) : cqueue := put_slot i (mk_pkt b (len (get_slot i q))) q.
Definition store_len (i l : Z) (q : cqueue) : cqueue := put_slot i (mk_pkt (bufptr (get_slot i q)) l) q.

(** [cqueue_cli_put]: the test, what a drop and what a put do to the private
    state of the client, and the two stores to the shared entry, the pointer
    first; [tsc] is the reading of the clock. *)
Definition put_full (c : cqueue_client) (q : cqueue) : bool := user_size q <=? u32 (n_pending c + 1).

Definition put_drop (c : cqueue_client) : cqueue_client :=
  mk_cli (u32 (u32 (n_pending c + 1) - 1)) (c_tail c) (c_head c) (c_shead c) (n_cli_put c) (n_cli_put_bytes c) (n_cli_get c)
    (n_cli_lag c) (u64 (n_cli_drp c + 1)) (n_cli_slow_read c) (st c).

Definition put_done (tsc l : Z) (c : cqueue_client) (q : cqueue) : cqueue_client :=
  mk_cli (u32 (n_pending c + 1)) (cqueue_next q (c_tail c)) (c_head c) (c_shead c) (u64 (n_cli_put c + 1)) (u64 (n_cli_put_bytes c + l))
    (n_cli_get c) (n_cli_lag c) (n_cli_drp c) (n_cli_slow_read c) (<[Z.to_nat (c_tail c) := tsc]> (st c)).

Definition cqueue_cli_put (tsc buf l : Z) (c : cqueue_client) (q : cqueue) : cqueue_client * cqueue :=
  if put_full c q then (put_drop c, q)
  else (put_done tsc l c q, store_len (c_tail c) l (store_bufptr (c_tail c) buf q)).

(** One turn of the loop of [cqueue_cli_get]: the private state, and the two
    stores that clear the entry. *)
Definition get_done (tsc : Z) (c : cqueue_client) (q : cqueue) : cqueue_client :=
  mk_cli (u32 (n_pending c - 1)) (c_tail c) (cqueue_next q (c_head c)) (c_shead c) (n_cli_put c) (n_cli_put_bytes c)
    (u64 (n_cli_get c + 1)) (u64 (n_cli_lag c + (tsc - st c !!! Z.to_nat (c_head c)))) (n_cli_drp c) (n_cli_slow_read c) (st c).

Definition get_one (tsc : Z) (c : cqueue_client) (q : cqueue) : cqueue_client * cqueue :=
  (get_done tsc c q, store_len (c_head c) 0 (store_bufptr (c_head c) 0 q)).

(** [tsc] are the readings of the clock; [None] is the end of the fuel. *)
Fixpoint get_loop (fuel : nat) (tsc : nat -> Z) (max rv : Z) (c : cqueue_client) (q : cqueue) : option (Z * (cqueue_client * cqueue)) :=
  match fuel with
  | O => None
  | S fuel' =>
      if negb (c_head c =? c_shead c) && (rv <? max) then
        let '(c, q) := get_one (tsc fuel') c q in
        get_loop fuel' tsc max (u16 (rv + 1)) c q
      else Some (rv, (c, q))
  end.

(** The refresh of the cached copy of the index of the scheduler. *)
Definition refresh (s_head : Z) (c : cqueue_client) : cqueue_client :=
  if c_shead c =? c_head c then
    mk_cli (n_pending c) (c_tail c) (c_head c) s_head (n_cli_put c) (n_cli_put_bytes c) (n_cli_get c) (n_cli_lag c) (n_cli_drp c)
      (n_cli_slow_read c) (st c)
  else c.

Definition count_read (rv : Z) (c : cqueue_client) : cqueue_client :=
  if z2b rv then
    mk_cli (n_pending c) (c_tail c) (c_head c) (c_shead c) (n_cli_put c) (n_cli_put_bytes c) (n_cli_get c) (n_cli_lag c) (n_cli_drp c)
      (u64 (n_cli_slow_read c + 1)) (st c)
  else c.

(** [cqueue_cli_get]; [None] is also a null [p_s_head]. *)
Definition cqueue_cli_get (tsc : nat -> Z) (max : Z) (c : cqueue_client) (q : cqueue) : option (Z * (cqueue_client * cqueue)) :=
  s_head ← p_s_head q;
  '(rv, (c, q)) ← get_loop (S (Z.to_nat (real_size q))) tsc max 0 (refresh s_head c) q;
  Some (rv, (count_read rv c, q)).

Definition cqueue_cli_done (c : cqueue_client) (q : cqueue) : option bool :=
  s_head ← p_s_head q; Some (s_head =? c_head c).

Definition cqueue_pending_mark (s : cqueue_sched) : bool := negb (s_nhead s =? u32 (s_tail s + s_next s)).

Definition cqueue_mark (npkts : Z) (s : cqueue_sched) (q : cqueue) : cqueue_sched :=
  let h := u32 (s_nhead s + npkts) in
  let h := if real_size q <=? h then u32 (h - real_size q) else h in
  mk_sch h (s_tail s) (s_next s) (s_cache_valid s) (u64 (n_sch_put s + npkts)) (n_sch_pub s) (n_sch_fetch s) (sch_extract_next s) (qcache s).

(** The [memcpy] of [cqueue_sched_fetch], by the reads of the lengths and of
    the pointers of the entries. *)
Definition set_qcache (i : nat) (p : my_pkt) (s : cqueue_sched) : cqueue_sched :=
  mk_sch (s_nhead s) (s_tail s) (s_next s) (s_cache_valid s) (n_sch_put s) (n_sch_pub s) (n_sch_fetch s) (sch_extract_next s)
    (<[i := p]> (qcache s)).
Definition read_len (q : cqueue) (s : cqueue_sched) (i : nat) : cqueue_sched :=
  set_qcache i (mk_pkt (bufptr (qcache s !!! i)) (len (get_slot (s_tail s + Z.of_nat i) q))) s.
Definition read_bufptr (q : cqueue) (s : cqueue_sched) (i : nat) : cqueue_sched :=
  set_qcache i (mk_pkt (bufptr (get_slot (s_tail s + Z.of_nat i) q)) (len (qcache s !!! i))) s.
Definition copy_entry (q : cqueue) (s : cqueue_sched) (i : nat) : cqueue_sched := read_bufptr q (read_len q s i) i.
Definition fetched (s : cqueue_sched) : cqueue_sched :=
  mk_sch (s_nhead s) (s_tail s) (s_next s) true (n_sch_put s) (n_sch_pub s) (u64 (n_sch_fetch s + 1)) (sch_extract_next s) (qcache s).

Definition cqueue_sched_fetch (s : cqueue_sched) (q : cqueue) : cqueue_sched :=
  fetched (foldl (copy_entry q) s (seq 0 (Z.to_nat QCACHE_NUM))).

Definition cqueue_sched_peek (s : cqueue_sched) : Z :=
  if negb (s_cache_valid s) then 0 else len (qcache s !!! Z.to_nat (s_next s)).

Definition cqueue_sched_get (s : cqueue_sched) (q : cqueue) : Z * cqueue_sched :=
  let buf := if negb (s_cache_valid s) then 0 else bufptr (qcache s !!! Z.to_nat (s_next s)) in
  let next := u32 (s_next s + 1) in
  (buf,
   if next =? QCACHE_NUM then
     let t := u32 (s_tail s + QCACHE_NUM) in
     let t := if real_size q <=? t then u32 (t - real_size q) else t in
     mk_sch (s_nhead s) t 0 false (n_sch_put s) (n_sch_pub s) (n_sch_fetch s) (sch_extract_next s) (qcache s)
   else mk_sch (s_nhead s) (s_tail s) next (s_cache_valid s) (n_sch_put s) (n_sch_pub s) (n_sch_fetch s) (sch_extract_next s) (qcache s)).

(** [cqueue_sched_publish]; [None] is a null [p_s_head]. *)
Definition cqueue_sched_publish (s : cqueue_sched) (q : cqueue) : option (cqueue_sched * cqueue) :=
  s_head ← p_s_head q;
  Some (if negb (s_head =? s_nhead s) then
          (mk_sch (s_nhead s) (s_tail s) (s_next s) (s_cache_valid s) (n_sch_put s) (u64 (n_sch_pub s + 1)) (n_sch_fetch s)
             (sch_extract_next s) (qcache s), cqueue_init_p_s_head (s_nhead s) q)
        else (s, q)).

End Cqueue.
Import Cqueue.

(** ** The two sides together *)

(** What has happened so far: the packets accepted by the queue and those taken
    by the scheduler, how many it has marked and published, how many of these
    the client has seen and how many slots it has cleared. *)
Record history := mk_hist {
  accepted : list my_pkt;
  taken : list my_pkt;
  marked : Z;
  published : Z;
  seen : Z;
  cleared : Z;
}.

(** Where the client is between two stores to an entry: nowhere, in
    [cqueue_cli_put] after the store of the pointer, or in [cqueue_cli_get]
    after the pointer of the entry at the head is cleared. *)
Inductive client_pc := Idle | Putting (tsc buf l : Z) | Clearing.

(** [copying] is where the scheduler is in the copy of a line: how many lengths
    it has read, and the entries whose length it has read and whose pointer it
    has not. *)
Record cq_sys := mk_sys {
  cq : cqueue;
  cli : cqueue_client;
  pc : client_pc;
  sch : cqueue_sched;
  copying : option (nat * list nat);
  hist : history;
}.

Definition n_accepted (h : history) : Z := Z.of_nat (length (accepted h)).
Definition n_taken (h : history) : Z := Z.of_nat (length (taken h)).

Definition accept (p : my_pkt) (h : history) : history :=
  mk_hist (accepted h ++ [p]) (taken h) (marked h) (published h) (seen h) (cleared h).
Definition clear_one (h : history) : history :=
  mk_hist (accepted h) (taken h) (marked h) (published h) (seen h) (cleared h + 1).
Definition with_seen (x : Z) (h : history) : history :=
  mk_hist (accepted h) (taken h) (marked h) (published h) x (cleared h).
Definition refreshed (h : history) : history := with_seen (if seen h =? cleared h then published h else seen h) h.
Definition take_pkt (p : my_pkt) (h : history) : history :=
  mk_hist (accepted h) (taken h ++ [p]) (marked h) (published h) (seen h) (cleared h).
Definition mark (n : Z) (h : history) : history :=
  mk_hist (accepted h) (taken h) (marked h + n) (published h) (seen h) (cleared h).
Definition publish (h : history) : history :=
  mk_hist (accepted h) (taken h) (marked h) (marked h) (seen h) (cleared h).

(** A step of the client or of the scheduler.  A step has at most one access to
    the memory that they share, so that the steps of one call interleave with
    those of the other side in any way; a packet is accepted by the store of
    its length and its slot is cleared by the store of the 0.  [cqueue_cli_get]
    is the steps from [step_refresh] to [step_count], see [cli_get_steps]; it
    may stop anywhere, which is what its limit does.  The stores of the client
    reach the scheduler in their order.  The scheduler reads the lengths of a
    line in increasing order and the pointer of an entry at any time after its
    length; it takes a packet only after a look at its length, as [do_sched]
    does, and marks only packets that it has taken. *)
Inductive cq_step : cq_sys -> cq_sys -> Prop :=
| step_drop q c s k h :
    put_full c q = true ->
    cq_step (mk_sys q c Idle s k h) (mk_sys q (put_drop c) Idle s k h)
| step_put_bufptr tsc buf l q c s k h :
    0 < l < 2 ^ 16 -> put_full c q = false ->
    cq_step (mk_sys q c Idle s k h) (mk_sys (store_bufptr (c_tail c) buf q) c (Putting tsc buf l) s k h)
| step_put_len tsc buf l q c s k h :
    cq_step (mk_sys q c (Putting tsc buf l) s k h)
      (mk_sys (store_len (c_tail c) l q) (put_done tsc l c q) Idle s k (accept (mk_pkt buf l) h))
| step_refresh sh q c s k h :
    p_s_head q = Some sh ->
    cq_step (mk_sys q c Idle s k h) (mk_sys q (refresh sh c) Idle s k (refreshed h))
| step_clear_bufptr q c s k h :
    c_head c <> c_shead c ->
    cq_step (mk_sys q c Idle s k h) (mk_sys (store_bufptr (c_head c) 0 q) c Clearing s k h)
| step_clear_len tsc q c s k h :
    cq_step (mk_sys q c Clearing s k h) (mk_sys (store_len (c_head c) 0 q) (get_done tsc c q) Idle s k (clear_one h))
| step_count rv q c s k h :
    cq_step (mk_sys q c Idle s k h) (mk_sys q (count_read rv c) Idle s k h)
| step_start q c p s h :
    cq_step (mk_sys q c p s None h) (mk_sys q c p s (Some (O, [])) h)
| step_read_len q c p s i l h :
    (i < Z.to_nat QCACHE_NUM)%nat ->
    cq_step (mk_sys q c p s (Some (i, l)) h) (mk_sys q c p (read_len q s i) (Some (S i, i :: l)) h)
| step_read_bufptr q c p s n i l1 l2 h :
    cq_step (mk_sys q c p s (Some (n, l1 ++ i :: l2)) h) (mk_sys q c p (read_bufptr q s i) (Some (n, l1 ++ l2)) h)
| step_fetched q c p s h :
    cq_step (mk_sys q c p s (Some (Z.to_nat QCACHE_NUM, [])) h) (mk_sys q c p (fetched s) None h)
| step_take q c p s h buf s' :
    cqueue_sched_peek s <> 0 -> cqueue_sched_get s q = (buf, s') ->
    cq_step (mk_sys q c p s None h) (mk_sys q c p s' None (take_pkt (mk_pkt buf (cqueue_sched_peek s)) h))
| step_mark n q c p s h :
    0 <= n < 2 ^ 16 -> marked h + n <= n_taken h ->
    cq_step (mk_sys q c p s None h) (mk_sys q c p (cqueue_mark n s q) None (mark n h))
| step_publish q c p s h s' q' :
    cqueue_sched_publish s q = Some (s', q') ->
    cq_step (mk_sys q c p s None h) (mk_sys q' c p s' None (publish h)).

Inductive cq_steps : cq_sys -> cq_sys -> Prop :=
| steps_refl s : cq_steps s s
| steps_snoc s1 s2 s3 : cq_steps s1 s2 -> cq_step s2 s3 -> cq_steps s1 s3.

(** The state when client and scheduler have started. *)
Definition cq_start (user_size : Z) : cq_sys :=
  let q := cqueue_create user_size in
  mk_sys (cqueue_init_p_s_head 0 q) (cqueue_cli_init q) Idle cqueue_sched_init None (mk_hist [] [] 0 0 0 0).

(** ** The invariant *)

(** The cache when [n] lengths are read and the pointers of [l] are not: from
    the next entry to take on it holds packets that the client has put in the
    queue, until an entry of length 0. *)
Definition cache_ok (s : cqueue_sched) (h : history) (n : nat) (l : list nat) : Prop :=
  let lo := Z.to_nat (s_next s) in
  exists m : nat, (lo <= m)%nat /\ ((m < n)%nat -> len (qcache s !!! m) = 0) /\ (m <= Nat.max lo n)%nat /\
    forall j, (lo <= j < m)%nat -> exists p, accepted h !! (length (taken h) + (j - lo))%nat = Some p /\
      len (qcache s !!! j) = len p /\ (j ∉ l -> bufptr (qcache s !!! j) = bufptr p).

Record sizes_ok (q : cqueue) (s : cqueue_sched) : Prop := {
  so_user : 1 <= user_size q <= real_size q;
  so_real : real_size q <= 2 ^ 31 /\ real_size q mod QCACHE_NUM = 0;
  so_len : length (queue q) = Z.to_nat (real_size q) /\ length (qcache s) = Z.to_nat QCACHE_NUM;
}.

Record order_ok (q : cqueue) (h : history) : Prop := {
  oo_cli : 0 <= cleared h <= seen h;
  oo_pub : seen h <= published h <= marked h;
  oo_sch : marked h <= n_taken h <= n_accepted h;
  oo_room : n_accepted h - cleared h < user_size q;
}.

(** The indices are the counters modulo the size. *)
Record cli_ok (q : cqueue) (c : cqueue_client) (h : history) : Prop := {
  ci_pending : n_pending c = n_accepted h - cleared h;
  ci_tail : c_tail c = n_accepted h mod real_size q;
  ci_head : c_head c = cleared h mod real_size q;
  ci_shead : c_shead c = seen h mod real_size q;
}.

Record sch_ok (q : cqueue) (s : cqueue_sched) (h : history) : Prop := {
  si_shead : p_s_head q = Some (published h mod real_size q);
  si_nhead : s_nhead s = marked h mod real_size q;
  si_next : s_next s = n_taken h mod QCACHE_NUM;
  si_tail : s_tail s + s_next s = n_taken h mod real_size q;
}.

(** The first packet whose slot is intact. *)
Definition intact_from (p : client_pc) (h : history) : Z :=
  match p with Clearing => cleared h + 1 | _ => cleared h end.

Record slots_ok (q : cqueue) (p : client_pc) (h : history) : Prop := {
  sl_taken : taken h = take (length (taken h)) (accepted h);
  sl_lens : Forall (fun p => 0 < len p < 2 ^ 16) (accepted h);
  sl_full : forall r, intact_from p h <= r < n_accepted h -> accepted h !! Z.to_nat r = Some (get_slot (r mod real_size q) q);
  sl_free : forall r, n_accepted h <= r < cleared h + real_size q -> len (get_slot (r mod real_size q) q) = 0;
}.

(** What the client knows between its two stores. *)
Definition pc_ok (q : cqueue) (p : client_pc) (h : history) : Prop :=
  match p with
  | Idle => True
  | Putting _ buf l => 0 < l < 2 ^ 16 /\ n_accepted h - cleared h + 1 < user_size q /\
                       bufptr (get_slot (n_accepted h mod real_size q) q) = buf
  | Clearing => cleared h < seen h
  end.

Record cq_ok (s : cq_sys) : Prop := {
  co_sizes : sizes_ok (cq s) (sch s);
  co_order : order_ok (cq s) (hist s);
  co_cli : cli_ok (cq s) (cli s) (hist s);
  co_pc : pc_ok (cq s) (pc s) (hist s);
  co_sch : sch_ok (cq s) (sch s) (hist s);
  co_slots : slots_ok (cq s) (pc s) (hist s);
  co_cache : match copying s with
             | None => s_cache_valid (sch s) = true -> cache_ok (sch s) (hist s) (Z.to_nat QCACHE_NUM) []
             | Some (n, l) => (n <= Z.to_nat QCACHE_NUM)%nat /\ Forall (fun i => (i < n)%nat) l /\ cache_ok (sch s) (hist s) n l
             end;
}.

(** ** Indices *)

Lemma QCACHE_NUM_4 : QCACHE_NUM = 4.
Proof. reflexivity. Qed.

Lemma mod_inj N p q : 0 < N -> Z.abs (p - q) < N -> p mod N = q mod N -> p = q.
Proof.
  intros HN Hd He. pose proof (Z.div_mod p N ltac:(lia)). pose proof (Z.div_mod q N ltac:(lia)).
  assert (p / N = q / N) by nia. nia.
Qed.

(** Moving an index by [n], with the wrap-around of the code. *)
Lemma advance_mod N p n :
  0 < N <= 2 ^ 31 -> 0 <= n <= N ->
  (let h := u32 (p mod N + n) in if N <=? h then u32 (h - N) else h) = (p + n) mod N.
Proof.
  intros HN Hn. pose proof (Z.mod_pos_bound p N ltac:(lia)). cbv zeta.
  rewrite (u32_id (p mod N + n)) by (unfold is_u32; lia).
  rewrite <- Z.add_mod_idemp_l by lia. case_if.
  - rewrite u32_id by (unfold is_u32; lia). apply (Z.mod_unique_pos _ _ 1); lia.
  - symmetry. apply Z.mod_small. lia.
Qed.

Lemma cqueue_next_mod q p : 0 < real_size q <= 2 ^ 31 -> cqueue_next q (p mod real_size q) = (p + 1) mod real_size q.
Proof.
  intros HN. pose proof (Z.mod_pos_bound p (real_size q) ltac:(lia)). rewrite <- advance_mod by lia. unfold cqueue_next. cbv zeta.
  rewrite (u32_id (_ + 1)) by (unfold is_u32; lia). do 2 case_if; try lia. rewrite u32_id by (unfold is_u32; lia). lia.
Qed.

Lemma slot_put_eq q i p : 0 <= i < Z.of_nat (length (queue q)) -> get_slot i (put_slot i p q) = p.
Proof. intros Hi. unfold get_slot. simpl. apply lookup_total_insert_eq. lia. Qed.

Lemma slot_put_ne q i j p : 0 <= i -> 0 <= j -> i <> j -> get_slot j (put_slot i p q) = get_slot j q.
Proof. intros Hi Hj Hne. unfold get_slot. simpl. apply lookup_total_insert_ne. lia. Qed.

(** A slot other than that of position [p], within a lap. *)
Lemma slot_put_mod N q p r v :
  0 < N -> Z.abs (p - r) < N -> p <> r -> get_slot (r mod N) (put_slot (p mod N) v q) = get_slot (r mod N) q.
Proof.
  intros HN Hd Hne. pose proof (Z.mod_pos_bound p N HN). pose proof (Z.mod_pos_bound r N HN). apply slot_put_ne; try lia.
  intros E. apply Hne. by apply (mod_inj N).
Qed.

(** ** The client *)

Lemma n_accepted_accept p h : n_accepted (accept p h) = n_accepted h + 1.
Proof. unfold n_accepted, accept. simpl. rewrite length_app. simpl. lia. Qed.

Lemma cache_ok_accept s h n l p : cache_ok s h n l -> cache_ok s (accept p h) n l.
Proof.
  intros (m & H1 & H2 & H3 & H4). exists m. split_and!; try done. intros j Hj. destruct (H4 j Hj) as (v & Hv & Hv').
  exists v. split; [|done]. simpl. by apply lookup_app_l_Some.
Qed.

(** The cache does not depend on what the client does to its counters, and an
    accepted packet does not change what is in it. *)
Definition cache_part (k : option (nat * list nat)) (s : cqueue_sched) (h : history) : Prop :=
  match k with
  | None => s_cache_valid s = true -> cache_ok s h (Z.to_nat QCACHE_NUM) []
  | Some (n, l) => (n <= Z.to_nat QCACHE_NUM)%nat /\ Forall (fun i => (i < n)%nat) l /\ cache_ok s h n l
  end.

Lemma cache_part_accept k s h p : cache_part k s h -> cache_part k s (accept p h).
Proof.
  destruct k as [[n l]|]; simpl; [intros (H1 & H2 & H3); split_and!; try done|intros H Hv]; apply cache_ok_accept; [done|by apply H].
Qed.

Lemma slots_accept q h p :
  slots_ok q Idle h -> 0 < real_size q -> length (queue q) = Z.to_nat (real_size q) -> 0 < len p < 2 ^ 16 -> 0 <= cleared h ->
  cleared h <= n_accepted h < cleared h + real_size q - 1 -> (length (taken h) <= length (accepted h))%nat ->
  slots_ok (put_slot (n_accepted h mod real_size q) p q) Idle (accept p h).
Proof.
  intros [H1 H2 H3 H4] HN Hl Hp Hc Hr Ht. pose proof (Z.mod_pos_bound (n_accepted h) (real_size q) HN). constructor; simpl.
  - rewrite take_app_le by done. done.
  - apply list.Forall_app. by split; [|constructor].
  - intros r Hr1. rewrite n_accepted_accept in Hr1. destruct (decide (r = n_accepted h)) as [->|Hne].
    + rewrite slot_put_eq by lia. unfold n_accepted. rewrite Nat2Z.id. by apply list_lookup_middle.
    + rewrite slot_put_mod by lia. apply lookup_app_l_Some, H3. simpl. lia.
  - intros r Hr1. rewrite n_accepted_accept in Hr1. rewrite slot_put_mod by lia. apply H4. lia.
Qed.

(** A store to the next slot that leaves its length at 0 changes nothing that
    the scheduler may look at. *)
Lemma slots_store_free q pc' h v :
  slots_ok q Idle h -> 0 < real_size q -> length (queue q) = Z.to_nat (real_size q) -> len v = 0 ->
  intact_from pc' h = cleared h -> cleared h <= n_accepted h < cleared h + real_size q ->
  slots_ok (put_slot (n_accepted h mod real_size q) v q) pc' h.
Proof.
  intros [H1 H2 H3 H4] HN Hl Hv Hi Hr. pose proof (Z.mod_pos_bound (n_accepted h) (real_size q) HN). constructor; try done; simpl.
  - intros r Hr1. rewrite slot_put_mod by lia. apply H3. simpl. lia.
  - intros r Hr1. destruct (decide (r = n_accepted h)) as [->|Hne]; [by rewrite slot_put_eq by lia|]. rewrite slot_put_mod by lia. apply H4. lia.
Qed.

Lemma put_full_spec q c pc' s k h :
  cq_ok (mk_sys q c pc' s k h) -> put_full c q = negb (n_accepted h - cleared h + 1 <? user_size q).
Proof.
  intros [[Hu [Hr Hm] _] [O1 O2 O3 O4] [C1 _ _ _] _ _ _ _]. simpl in *. unfold put_full.
  rewrite C1, (u32_id (_ + 1)) by (unfold is_u32; lia). apply Z.leb_antisym.
Qed.

Lemma put_drop_ok q c pc' s k h : cq_ok (mk_sys q c pc' s k h) -> cq_ok (mk_sys q (put_drop c) pc' s k h).
Proof.
  intros [[Hu [Hr Hm] Hl] [O1 O2 O3 O4] [C1 C2 C3 C4] Hpc Hsc Hsl Hca]. simpl in *. constructor; try done. constructor; simpl; try done.
  rewrite C1, (u32_id (_ + 1)), u32_id by (unfold is_u32; lia). lia.
Qed.

Lemma put_bufptr_ok tsc buf l q c s k h :
  cq_ok (mk_sys q c Idle s k h) -> 0 < l < 2 ^ 16 -> put_full c q = false ->
  cq_ok (mk_sys (store_bufptr (c_tail c) buf q) c (Putting tsc buf l) s k h).
Proof.
  intros Hok Hl Hf. rewrite (put_full_spec _ _ _ _ _ _ Hok) in Hf.
  destruct Hok as [[Hu [Hr Hm] [Hl1 Hl2]] [O1 O2 O3 O4] [C1 C2 C3 C4] _ [S1 S2 S3 S4] Hsl Hca]. simpl in *. zify_bool.
  pose proof (Z.mod_pos_bound (n_accepted h) (real_size q) ltac:(lia)). unfold store_bufptr. rewrite C2.
  constructor; simpl; [constructor; simpl|constructor|constructor| |constructor| |]; simpl; try done; try lia.
  - rewrite length_insert. done.
  - split_and!; [lia..|]. by rewrite slot_put_eq by lia.
  - apply slots_store_free; try done; try lia. simpl. apply (sl_free _ _ _ Hsl). lia.
Qed.

Lemma put_len_ok tsc buf l q c s k h :
  cq_ok (mk_sys q c (Putting tsc buf l) s k h) ->
  cq_ok (mk_sys (store_len (c_tail c) l q) (put_done tsc l c q) Idle s k (accept (mk_pkt buf l) h)).
Proof.
  intros [[Hu [Hr Hm] [Hl1 Hl2]] [O1 O2 O3 O4] [C1 C2 C3 C4] (P1 & P2 & P3) [S1 S2 S3 S4] Hsl Hca]. simpl in *.
  unfold store_len. rewrite C2, P3.
  constructor; simpl; [constructor; simpl|constructor|constructor| |constructor| |]; rewrite ?n_accepted_accept; simpl; try done; try lia.
  - rewrite length_insert. done.
  - unfold n_taken, n_accepted in *. simpl. lia.
  - rewrite C1, u32_id by (unfold is_u32; lia). lia.
  - rewrite C2, cqueue_next_mod by lia. done.
  - apply slots_accept; try done; try (unfold n_taken, n_accepted in *; lia). by destruct Hsl.
  - by apply cache_part_accept.
Qed.

Lemma head_at_end q c pc' s k h : cq_ok (mk_sys q c pc' s k h) -> (c_head c =? c_shead c) = (cleared h =? seen h).
Proof.
  intros [[Hu _ _] [O1 O2 O3 O4] [_ _ C3 C4] _ _ _ _]. simpl in *. rewrite C3, C4.
  destruct (Z.eqb_spec (cleared h) (seen h)) as [->|Hne]; [by apply Z.eqb_eq|]. apply Z.eqb_neq. intros E. apply Hne.
  apply (mod_inj (real_size q)); lia.
Qed.

(** A store to the slot at the head leaves the slots of the other packets. *)
Lemma slots_store_head q h v :
  slots_ok q Idle h -> 0 < real_size q -> cleared h < n_accepted h < cleared h + real_size q ->
  slots_ok (put_slot (cleared h mod real_size q) v q) Clearing h.
Proof.
  intros [H1 H2 H3 H4] HN Hr. constructor; try done; simpl.
  - intros r Hr1. rewrite slot_put_mod by lia. apply H3. simpl. lia.
  - intros r Hr1. rewrite slot_put_mod by lia. apply H4. lia.
Qed.

Lemma clear_bufptr_ok q c s k h :
  cq_ok (mk_sys q c Idle s k h) -> c_head c <> c_shead c -> cq_ok (mk_sys (store_bufptr (c_head c) 0 q) c Clearing s k h).
Proof.
  intros Hok Hne. apply Z.eqb_neq in Hne. rewrite (head_at_end _ _ _ _ _ _ Hok) in Hne. apply Z.eqb_neq in Hne.
  destruct Hok as [[Hu [Hr Hm] [Hl1 Hl2]] [O1 O2 O3 O4] [C1 C2 C3 C4] _ [S1 S2 S3 S4] Hsl Hca]. simpl in *.
  unfold store_bufptr. rewrite C3.
  constructor; simpl; [constructor; simpl|constructor|constructor| |constructor| |]; simpl; try done; try lia.
  - rewrite length_insert. done.
  - apply slots_store_head; [done|lia..].
Qed.

Lemma clear_len_ok tsc q c s k h :
  cq_ok (mk_sys q c Clearing s k h) -> cq_ok (mk_sys (store_len (c_head c) 0 q) (get_done tsc c q) Idle s k (clear_one h)).
Proof.
  intros [[Hu [Hr Hm] [Hl1 Hl2]] [O1 O2 O3 O4] [C1 C2 C3 C4] Hlt [S1 S2 S3 S4] [L1 L2 L3 L4] Hca]. simpl in *.
  pose proof (Z.mod_pos_bound (cleared h) (real_size q) ltac:(lia)). unfold store_len, get_done. rewrite C3, cqueue_next_mod by lia.
  constructor; simpl; [constructor; simpl|constructor|constructor| |constructor|constructor|]; simpl; try done; try lia.
  - rewrite length_insert. done.
  - change (n_accepted (clear_one h)) with (n_accepted h). lia.
  - change (n_accepted (clear_one h)) with (n_accepted h). rewrite C1, u32_id by (unfold is_u32; lia). lia.
  - intros p Hp. change (n_accepted (clear_one h)) with (n_accepted h) in Hp. rewrite slot_put_mod by lia. apply L3. lia.
  - intros p Hp. change (n_accepted (clear_one h)) with (n_accepted h) in Hp. destruct (decide (p = cleared h + real_size q)) as [->|Hne].
    + rewrite Zplus_mod, Z.mod_same, Z.add_0_r, Z.mod_mod, slot_put_eq by lia. done.
    + rewrite slot_put_mod by lia. apply L4. lia.
Qed.

Lemma get_one_ok tsc q c s k h :
  cq_ok (mk_sys q c Idle s k h) -> cleared h < seen h ->
  let '(c', q') := get_one tsc c q in cq_ok (mk_sys q' c' Idle s k (clear_one h)).
Proof.
  intros Hok Hlt. unfold get_one. change (get_done tsc c q) with (get_done tsc c (store_bufptr (c_head c) 0 q)).
  apply clear_len_ok, clear_bufptr_ok; [done|]. apply Z.eqb_neq. rewrite (head_at_end _ _ _ _ _ _ Hok). apply Z.eqb_neq. lia.
Qed.

Definition with_cleared (x : Z) (h : history) : history :=
  mk_hist (accepted h) (taken h) (marked h) (published h) (seen h) x.

(** How far [cqueue_cli_get] gets: the 16-bit count of packets never reaches a
    limit of 2^16 or more. *)
Definition clear_target (max rv : Z) (h : history) : Z :=
  if max <? 2 ^ 16 then Z.min (seen h) (cleared h + (max - rv)) else seen h.

Lemma get_loop_ok fuel tsc max s k : forall rv q c h,
  cq_ok (mk_sys q c Idle s k h) -> 0 <= rv < 2 ^ 16 -> rv <= max -> seen h - cleared h < Z.of_nat fuel ->
  exists c' q', get_loop fuel tsc max rv c q = Some (u16 (rv + (clear_target max rv h - cleared h)), (c', q')) /\
    cq_ok (mk_sys q' c' Idle s k (with_cleared (clear_target max rv h) h)).
Proof.
  induction fuel as [|fuel IH]; intros rv q c h Hok Hrv Hmax Hf.
  { destruct (co_order _ Hok) as [O1 _ _ _]. simpl in O1. lia. }
  destruct (co_order _ Hok) as [O1 _ _ _]. simpl in O1. cbn [get_loop]. rewrite (head_at_end _ _ _ _ _ _ Hok).
  destruct (negb (cleared h =? seen h) && (rv <? max)) eqn:E.
  - zify_bool. pose proof (get_one_ok (tsc fuel) q c s k h Hok ltac:(lia)) as Hg. destruct (get_one _ c q) as [c1 q1].
    rename Hg into Hok1. pose proof (u16_range (rv + 1)) as Hw. destruct (decide (max < 2 ^ 16)) as [Hs|Hb].
    + rewrite u16_id in * by (unfold is_u16; lia). destruct (IH (rv + 1) q1 c1 (clear_one h)) as (c' & q' & E' & Hok'); try done; try (simpl; lia).
      exists c', q'. assert (Et : clear_target max (rv + 1) (clear_one h) = clear_target max rv h).
      { unfold clear_target. rewrite !(proj2 (Z.ltb_lt _ _)) by lia. simpl. lia. }
      rewrite Et in E', Hok'. split; [|exact Hok']. rewrite E'. simpl. do 3 f_equal. lia.
    + destruct (IH (u16 (rv + 1)) q1 c1 (clear_one h)) as (c' & q' & E' & Hok'); try done; try (unfold is_u16 in Hw; simpl; lia).
      exists c', q'. unfold clear_target in *. rewrite (proj2 (Z.ltb_ge _ _)) in * by lia. split; [|exact Hok']. rewrite E'. simpl.
      do 2 f_equal. unfold u16, wrap. rewrite Z.add_mod_idemp_l by lia. f_equal. lia.
  - exists c, q. assert (Et : clear_target max rv h = cleared h).
    { apply andb_false_iff in E as [E|E]; zify_bool; unfold clear_target; case_if; lia. }
    rewrite Et, Z.sub_diag, Z.add_0_r, u16_id by done. split; [done|]. by destruct h.
Qed.

Lemma refresh_ok q c s k h sh :
  cq_ok (mk_sys q c Idle s k h) -> p_s_head q = Some sh -> cq_ok (mk_sys q (refresh sh c) Idle s k (refreshed h)).
Proof.
  intros Hok Esh. unfold refresh, refreshed. rewrite Z.eqb_sym, (head_at_end _ _ _ _ _ _ Hok), Z.eqb_sym. case_if; [|by destruct h].
  destruct Hok as [Hs [O1 O2 O3 O4] [C1 C2 C3 C4] Hpc [S1 S2 S3 S4] [L1 L2 L3 L4] Hca]. simpl in *.
  rewrite S1 in Esh. injection Esh as <-. constructor; simpl; try done; constructor; simpl; try done; lia.
Qed.

Lemma get_ok tsc max q c s k h :
  cq_ok (mk_sys q c Idle s k h) -> 0 <= max < 2 ^ 32 ->
  exists c' q', cqueue_cli_get tsc max c q = Some (u16 (clear_target max 0 (refreshed h) - cleared h), (c', q')) /\
    cq_ok (mk_sys q' c' Idle s k (with_cleared (clear_target max 0 (refreshed h)) (refreshed h))).
Proof.
  intros Hok Hmax. pose proof (si_shead _ _ _ (co_sch _ Hok)) as Esh. simpl in Esh. unfold cqueue_cli_get. rewrite Esh. cbn [mbind option_bind].
  pose proof (refresh_ok _ _ _ _ _ _ Hok Esh) as Hok1. change (cleared h) with (cleared (refreshed h)).
  destruct (co_order _ Hok1) as [O1 O2 O3 O4], (co_sizes _ Hok1) as [Hu _ _]. cbn [cq hist sch] in *.
  destruct (get_loop_ok (S (Z.to_nat (real_size q))) tsc max s k 0 q _ _ Hok1) as (c' & q' & E & Hok'); try lia.
  rewrite E. cbn [mbind option_bind]. rewrite Z.add_0_l. eexists _, q'. split; [done|].
  unfold count_read. case_if; [|done]. destruct Hok' as [H1 H2 [C1 C2 C3 C4] H4 H5 H6 H7]. constructor; try done.
Qed.

(** ** The scheduler *)

Lemma n_taken_take p h : n_taken (take_pkt p h) = n_taken h + 1.
Proof. unfold n_taken, take_pkt. simpl. rewrite length_app. simpl. lia. Qed.

(** The entry that is looked at is the next packet. *)
Lemma peek_next q c pc0 s h :
  cq_ok (mk_sys q c pc0 s None h) -> cqueue_sched_peek s <> 0 ->
  s_cache_valid s = true /\ accepted h !! length (taken h) = Some (qcache s !!! Z.to_nat (s_next s)) /\
  exists m, (Z.to_nat (s_next s) < m)%nat /\ ((m < Z.to_nat QCACHE_NUM)%nat -> len (qcache s !!! m) = 0) /\ (m <= Z.to_nat QCACHE_NUM)%nat /\
    forall j, (Z.to_nat (s_next s) <= j < m)%nat -> accepted h !! (length (taken h) + (j - Z.to_nat (s_next s)))%nat = Some (qcache s !!! j).
Proof.
  intros Hok Hp. unfold cqueue_sched_peek in Hp. pose proof (co_cache _ Hok) as Hca. pose proof (si_next _ _ _ (co_sch _ Hok)) as Hn. simpl in Hca, Hn.
  destruct (s_cache_valid s); [|done]. simpl in Hp. destruct (Hca eq_refl) as (m & H1 & H2 & H3 & H4). split; [done|].
  rewrite QCACHE_NUM_4 in *. pose proof (Z.mod_pos_bound (n_taken h) 4 ltac:(lia)).
  assert (Hm : m <> Z.to_nat (s_next s)) by (intros ->; apply Hp, H2; lia).
  assert (H5 : forall j, (Z.to_nat (s_next s) <= j < m)%nat -> accepted h !! (length (taken h) + (j - Z.to_nat (s_next s)))%nat = Some (qcache s !!! j)).
  { intros j Hj. destruct (H4 j Hj) as (p & Ep & El & Eb). rewrite Ep. f_equal. destruct p, (qcache s !!! j). simpl in *.
    rewrite El, Eb by apply not_elem_of_nil. done. }
  split; [specialize (H5 (Z.to_nat (s_next s)) ltac:(lia)); by rewrite Nat.sub_diag, Nat.add_0_r in H5|]. exists m. split_and!; try done; lia.
Qed.

(** Where the scheduler is in the line and in the queue. *)
Lemma line_position N t : 0 < N -> N mod 4 = 0 -> t mod N mod 4 = t mod 4.
Proof.
  intros HN Hd. apply Z.mod_divide in Hd as [k Hk]; [|lia]. subst N. symmetry. rewrite (Z.div_mod t (k * 4)) at 1 by lia.
  rewrite <- (Z.mul_comm (t / (k * 4))), Z.mul_assoc, Z.add_comm, Z.mod_add by lia. done.
Qed.

Lemma sch_get_ok q s h p s' buf :
  sizes_ok q s -> sch_ok q s h -> cqueue_sched_get s q = (buf, s') ->
  sizes_ok q s' /\ sch_ok q s' (take_pkt p h) /\ qcache s' = qcache s /\
  (s_cache_valid s' = true -> s_cache_valid s = true /\ s_next s' = s_next s + 1).
Proof.
  intros [Hu [Hr Hm] Hl] [S1 S2 S3 S4] Hg. unfold cqueue_sched_get in Hg. injection Hg as _ <-. rewrite QCACHE_NUM_4 in *.
  pose proof (Z.mod_pos_bound (n_taken h) 4 ltac:(lia)). pose proof (Z.mod_pos_bound (n_taken h) (real_size q) ltac:(lia)).
  pose proof (line_position (real_size q) (n_taken h) ltac:(lia) Hm) as Hlp.
  assert (Hst : s_tail s mod 4 = 0) by (replace (s_tail s) with (n_taken h mod real_size q - n_taken h mod 4) by lia;
    rewrite Zminus_mod, Z.mod_mod, Hlp, Z.sub_diag by lia; done).
  assert (0 <= s_tail s < real_size q) by (pose proof (Z.mod_le (n_taken h mod real_size q) 4 ltac:(lia) ltac:(lia)); lia).
  assert (s_tail s + 4 <= real_size q) by (Z.div_mod_to_equations; lia).
  rewrite (u32_id (s_next s + 1)) by (unfold is_u32; lia). case_if; simpl.
  - split_and!; try done. constructor; simpl; rewrite ?n_taken_take; try done.
    + rewrite QCACHE_NUM_4. rewrite <- Z.add_mod_idemp_l by lia. rewrite <- S3, Heqb. done.
    + rewrite <- (advance_mod (real_size q) (n_taken h) 1) by lia. rewrite <- S4. cbv zeta. replace (s_tail s + s_next s + 1) with (s_tail s + 4) by lia.
      rewrite (u32_id (s_tail s + 4)) by (unfold is_u32; lia). rewrite Z.add_0_r. done.
  - split_and!; try done. constructor; simpl; rewrite ?n_taken_take; try done.
    + rewrite QCACHE_NUM_4. rewrite <- Z.add_mod_idemp_l by lia. rewrite <- S3. symmetry. apply Z.mod_small. lia.
    + rewrite <- Z.add_mod_idemp_l by lia. rewrite <- S4. symmetry. rewrite Z.mod_small; lia.
Qed.

Lemma take_ok q c pc0 s h buf s' :
  cq_ok (mk_sys q c pc0 s None h) -> cqueue_sched_peek s <> 0 -> cqueue_sched_get s q = (buf, s') ->
  let p := mk_pkt buf (cqueue_sched_peek s) in
  accepted h !! length (taken h) = Some p /\ cq_ok (mk_sys q c pc0 s' None (take_pkt p h)).
Proof.
  intros Hok Hp Hg p. destruct (peek_next _ _ _ _ _ Hok Hp) as (Hv & Hn & m & M1 & M2 & M3 & M4).
  assert (Ep : accepted h !! length (taken h) = Some p).
  { rewrite Hn. unfold p, cqueue_sched_peek. unfold cqueue_sched_get in Hg. rewrite Hv in *. injection Hg as <- _. simpl.
    by destruct (qcache s !!! Z.to_nat (s_next s)). }
  split; [done|]. destruct Hok as [Hs [O1 O2 O3 O4] Hc Hpc Hsc [L1 L2 L3 L4] _]. simpl in *.
  destruct (sch_get_ok q s h p s' buf Hs Hsc Hg) as (Hs' & Hsc' & Eq & Hv'). apply lookup_lt_Some in Ep as Hlt.
  constructor; simpl; try done.
  - constructor; simpl; rewrite ?n_taken_take; try done. unfold n_accepted, n_taken in *. simpl. lia.
  - destruct Hc. constructor; try done.
  - constructor; simpl; try done. rewrite length_app. simpl. rewrite Nat.add_1_r. rewrite (take_S_r _ _ p) by done. by rewrite <- L1.
  - intros Hv1. destruct (Hv' Hv1) as [_ En]. pose proof (si_next _ _ _ Hsc) as Hsn. rewrite QCACHE_NUM_4 in *.
    pose proof (Z.mod_pos_bound (n_taken h) 4 ltac:(lia)).
    exists m. rewrite Eq, En. split_and!; try done; try lia. intros j Hj. simpl. rewrite length_app. simpl.
    eexists. split; [|by split]. rewrite <- M4 by lia. f_equal. lia.
Qed.

Lemma mark_ok n q c pc0 s h :
  cq_ok (mk_sys q c pc0 s None h) -> 0 <= n -> marked h + n <= n_taken h ->
  cq_ok (mk_sys q c pc0 (cqueue_mark n s q) None (mark n h)).
Proof.
  intros [[Hu [Hr Hm] Hl] [O1 O2 O3 O4] [C1 C2 C3 C4] Hpc [S1 S2 S3 S4] [L1 L2 L3 L4] Hca] Hn Hle. simpl in *.
  constructor; simpl; try done; constructor; simpl; try done; try (unfold n_taken, n_accepted in *; simpl; lia).
  rewrite S2. apply advance_mod; lia.
Qed.

Lemma publish_ok q c pc0 s h :
  cq_ok (mk_sys q c pc0 s None h) ->
  exists s' q', cqueue_sched_publish s q = Some (s', q') /\ cq_ok (mk_sys q' c pc0 s' None (publish h)).
Proof.
  intros [[Hu [Hr Hm] Hl] [O1 O2 O3 O4] [C1 C2 C3 C4] Hpc [S1 S2 S3 S4] [L1 L2 L3 L4] Hca]. simpl in *.
  unfold cqueue_sched_publish. rewrite S1. simpl. case_if; eexists _, _; (split; [done|]);
    constructor; simpl; try done; constructor; simpl; try done; try (unfold n_taken, n_accepted in *; simpl; lia); congruence.
Qed.

Lemma copy_slot q s h i :
  sizes_ok q s -> sch_ok q s h -> (i < Z.to_nat QCACHE_NUM)%nat ->
  s_tail s + Z.of_nat i = (n_taken h - s_next s + Z.of_nat i) mod real_size q.
Proof.
  intros [Hu [Hr Hm] Hl] [S1 S2 S3 S4] Hi. rewrite QCACHE_NUM_4 in *.
  pose proof (Z.mod_pos_bound (n_taken h) 4 ltac:(lia)). pose proof (Z.mod_pos_bound (n_taken h) (real_size q) ltac:(lia)).
  pose proof (line_position (real_size q) (n_taken h) ltac:(lia) Hm) as Hlp.
  pose proof (Z.div_mod (n_taken h) (real_size q) ltac:(lia)) as Hd. apply (Z.mod_unique_pos _ _ (n_taken h / real_size q)); [|lia].
  pose proof (Z.div_mod (n_taken h mod real_size q) 4 ltac:(lia)). pose proof (Z.div_mod (real_size q) 4 ltac:(lia)). lia.
Qed.

(** A packet that the scheduler has not taken is intact. *)
Lemma untaken_intact q c pc0 s k h r :
  cq_ok (mk_sys q c pc0 s k h) -> n_taken h <= r < n_accepted h -> accepted h !! Z.to_nat r = Some (get_slot (r mod real_size q) q).
Proof.
  intros [_ [O1 O2 O3 O4] _ Hpc _ [_ _ L3 _] _] Hr. simpl in *. apply L3. destruct pc0; simpl in *; lia.
Qed.

Lemma set_qcache_eq s i p : (i < length (qcache s))%nat -> qcache (set_qcache i p s) !!! i = p.
Proof. intros Hi. simpl. by apply lookup_total_insert_eq. Qed.

Lemma set_qcache_ne s i j p : j <> i -> qcache (set_qcache i p s) !!! j = qcache s !!! j.
Proof. intros Hi. simpl. by apply lookup_total_insert_ne. Qed.

(** The entries read so far stay what they are while others are read. *)
Lemma entry_kept s h i j v lo (l l' : list nat) :
  j <> i -> (j ∉ l' -> j ∉ l) ->
  (exists p, accepted h !! lo = Some p /\ len (qcache s !!! j) = len p /\ (j ∉ l -> bufptr (qcache s !!! j) = bufptr p)) ->
  exists p, accepted h !! lo = Some p /\ len (qcache (set_qcache i v s) !!! j) = len p /\
    (j ∉ l' -> bufptr (qcache (set_qcache i v s) !!! j) = bufptr p).
Proof. intros Hj Hl (p & H1 & H2 & H3). exists p. rewrite set_qcache_ne by done. split_and!; auto. Qed.

Lemma read_len_cache q c pc0 s i l h :
  cq_ok (mk_sys q c pc0 s (Some (i, l)) h) -> (i < Z.to_nat QCACHE_NUM)%nat -> cache_ok (read_len q s i) h (S i) (i :: l).
Proof.
  intros Hok Hi. pose proof (fun r => untaken_intact _ _ _ _ _ _ r Hok) as Hint.
  destruct Hok as [Hsz [O1 O2 O3 O4] _ _ Hsc [L1 L2 L3 L4] [_ [_ (m & M1 & M2 & M3 & M4)]]]. simpl in *.
  pose proof (copy_slot q s h i Hsz Hsc Hi) as Hslot. destruct Hsz as [Hu [Hr Hm] [Hl1 Hl2]]. pose proof (si_next _ _ _ Hsc) as Hn.
  rewrite QCACHE_NUM_4 in *. pose proof (Z.mod_pos_bound (n_taken h) 4 ltac:(lia)).
  set (r := n_taken h - s_next s + Z.of_nat i) in *. unfold cache_ok, read_len. rewrite Hslot. set (v := mk_pkt _ _).
  change (s_next (set_qcache i v s)) with (s_next s). cbv zeta. set (lo := Z.to_nat (s_next s)) in *.
  assert (Hold : forall j, (lo <= j < m)%nat -> j <> i -> exists p, accepted h !! (length (taken h) + (j - lo))%nat = Some p /\
      len (qcache (set_qcache i v s) !!! j) = len p /\ (j ∉ i :: l -> bufptr (qcache (set_qcache i v s) !!! j) = bufptr p)).
  { intros j Hj Hne. apply (entry_kept _ _ _ _ _ _ l); [done|by intros [_ ?]%not_elem_of_cons|by apply M4]. }
  destruct (decide (m = i)) as [->|Hne].
  2: { exists m. split_and!; [done| |lia|intros j Hj; apply Hold; lia]. intros Hlt. rewrite set_qcache_ne by lia. apply M2. lia. }
  assert (Hp : Z.to_nat r = (length (taken h) + (i - lo))%nat) by (unfold r, lo, n_taken in *; lia).
  destruct (decide (r < n_accepted h)) as [Hlt|Hge].
  - exists (S i). split_and!; [lia..|]. intros j Hj. destruct (decide (j = i)) as [->|Hj']; [|apply Hold; lia].
    eexists. rewrite <- Hp. split; [apply Hint; unfold r; lia|]. rewrite set_qcache_eq by lia. split; [done|]. by intros [? _]%not_elem_of_cons.
  - exists i. split_and!; [lia| |lia|intros j Hj; apply Hold; lia]. intros _. rewrite set_qcache_eq by lia. apply L4.
    assert (r <= n_accepted h); [|lia]. destruct (decide (i = lo)) as [Ei|Ei]; [unfold r; lia|].
    destruct (M4 (i - 1)%nat ltac:(lia)) as (p & Ep & _). apply lookup_lt_Some in Ep. unfold r, n_taken, n_accepted in *. lia.
Qed.

Lemma read_bufptr_cache q c pc0 s n i l1 l2 h :
  cq_ok (mk_sys q c pc0 s (Some (n, l1 ++ i :: l2)) h) -> cache_ok (read_bufptr q s i) h n (l1 ++ l2).
Proof.
  intros Hok. pose proof (fun r => untaken_intact _ _ _ _ _ _ r Hok) as Hint.
  destruct Hok as [Hsz [O1 O2 O3 O4] _ _ Hsc _ [Hn [Hl (m & M1 & M2 & M3 & M4)]]]. simpl in *.
  apply list.Forall_app in Hl as [_ Hl]. inversion Hl as [|? ? Hi _]. subst.
  pose proof (copy_slot q s h i Hsz Hsc ltac:(lia)) as Hslot. destruct Hsz as [Hu [Hr Hm] [Hl1 Hl2]]. pose proof (si_next _ _ _ Hsc) as Hnx.
  rewrite QCACHE_NUM_4 in *. pose proof (Z.mod_pos_bound (n_taken h) 4 ltac:(lia)). exists m. unfold read_bufptr. rewrite Hslot.
  set (v := mk_pkt _ _). change (s_next (set_qcache i v s)) with (s_next s). set (lo := Z.to_nat (s_next s)) in *.
  split_and!; [done| |done|].
  - intros Hlt. destruct (decide (m = i)) as [->|Hne]; [rewrite set_qcache_eq by lia; by apply M2|]. rewrite set_qcache_ne by done. by apply M2.
  - intros j Hj. destruct (decide (j = i)) as [->|Hne]; [|apply (entry_kept _ _ _ _ _ _ (l1 ++ i :: l2)); [done|rewrite !not_elem_of_app, not_elem_of_cons; tauto|by apply M4]].
    destruct (M4 i Hj) as (p & Ep & El & _). exists p. split; [done|]. rewrite set_qcache_eq by lia. split; [done|]. intros _. simpl.
    apply lookup_lt_Some in Ep as Hlt. specialize (Hint (n_taken h - s_next s + Z.of_nat i) ltac:(unfold lo, n_taken, n_accepted in *; lia)).
    replace (Z.to_nat (n_taken h - s_next s + Z.of_nat i)) with (length (taken h) + (i - lo))%nat in Hint by (unfold lo, n_taken in *; lia).
    rewrite Ep in Hint. by injection Hint as ->.
Qed.

(** The reads of a line change nothing but the cache. *)
Lemma set_qcache_ok q c pc0 s k k' i p h :
  cq_ok (mk_sys q c pc0 s k h) -> cache_part k' (set_qcache i p s) h -> cq_ok (mk_sys q c pc0 (set_qcache i p s) k' h).
Proof.
  intros [[Hu Hr [Hl1 Hl2]] O C P [S1 S2 S3 S4] L _] Hc. constructor; simpl; try done. constructor; simpl; try done. by rewrite length_insert.
Qed.

Lemma read_len_ok q c pc0 s i l h :
  cq_ok (mk_sys q c pc0 s (Some (i, l)) h) -> (i < Z.to_nat QCACHE_NUM)%nat ->
  cq_ok (mk_sys q c pc0 (read_len q s i) (Some (S i, i :: l)) h).
Proof.
  intros Hok Hi. pose proof (read_len_cache _ _ _ _ _ _ _ Hok Hi). destruct (co_cache _ Hok) as (_ & Hl & _).
  apply (set_qcache_ok _ _ _ _ _ _ _ _ _ Hok). split_and!; [lia| |done]. constructor; [lia|]. eapply list.Forall_impl; [exact Hl|]. simpl. lia.
Qed.

Lemma read_bufptr_ok q c pc0 s n i l1 l2 h :
  cq_ok (mk_sys q c pc0 s (Some (n, l1 ++ i :: l2)) h) -> cq_ok (mk_sys q c pc0 (read_bufptr q s i) (Some (n, l1 ++ l2)) h).
Proof.
  intros Hok. pose proof (read_bufptr_cache _ _ _ _ _ _ _ _ _ Hok). destruct (co_cache _ Hok) as (Hn & Hl & _).
  apply (set_qcache_ok _ _ _ _ _ _ _ _ _ Hok). split_and!; try done. rewrite list.Forall_app, list.Forall_cons in Hl.
  apply list.Forall_app. by destruct Hl as (? & _ & ?).
Qed.

(** ** All the steps *)

Lemma cq_start_ok user_size : 1 <= user_size <= 2 ^ 31 - 3 -> cq_ok (cq_start user_size).
Proof.
  intros Hu. set (r := Z.land (user_size + 4 - 1) (Z.lnot (4 - 1))).
  assert (Hr : r = (user_size + 3) / 4 * 4).
  { unfold r. rewrite <- Z.ldiff_land. change (4 - 1) with (Z.ones 2). rewrite Z.ldiff_ones_r by lia.
    rewrite Z.shiftr_div_pow2, Z.shiftl_mul_pow2 by lia. f_equal. f_equal. lia. }
  assert (Hb : user_size <= r <= 2 ^ 31) by (rewrite Hr; Z.div_mod_to_equations; lia).
  assert (Er : u32 r = r) by (apply u32_id; unfold is_u32; lia).
  unfold cq_start, cqueue_create. change QCACHE_NUM with 4. fold r. rewrite Er.
  constructor; simpl; try done; constructor; simpl; try done; rewrite ?QCACHE_NUM_4; try lia; rewrite ?Z.mod_0_l by lia; try done.
  - split; [lia|]. rewrite Hr. apply Z.mod_mul. lia.
  - split; [apply repeat_length|done].
  - unfold n_accepted. simpl. lia.
  - intros p Hp. unfold n_accepted in Hp. simpl in Hp. lia.
  - intros p Hp. unfold n_accepted in Hp. simpl in Hp. unfold get_slot. simpl. pose proof (Z.mod_pos_bound p r ltac:(lia)). by rewrite lookup_total_repeat by lia.
Qed.

Lemma cq_step_ok s s' : cq_step s s' -> cq_ok s -> cq_ok s'.
Proof.
  intros Hstep Hok. destruct Hstep as [| | | | | |rv q c s k h|q c p s h| | |q c p s h| | |q c p s h s' q' E].
  - by apply put_drop_ok.
  - by apply put_bufptr_ok.
  - by apply put_len_ok.
  - by apply refresh_ok.
  - by apply clear_bufptr_ok.
  - by apply clear_len_ok.
  - destruct Hok as [H1 H2 [C1 C2 C3 C4] H4 H5 H6 H7]. unfold count_read. case_if; constructor; done.
  - destruct Hok as [H1 H2 H3 H4 H5 H6 _]. constructor; try done. split; [simpl; lia|]. split; [constructor|].
    exists (Z.to_nat (s_next s)). simpl. split_and!; lia.
  - by apply read_len_ok.
  - by apply read_bufptr_ok.
  - destruct Hok as [H1 H2 H3 H4 H5 H6 (_ & _ & H7)]. destruct H1, H5. constructor; try done. by intros _.
  - by eapply take_ok.
  - by apply mark_ok; [|lia|].
  - destruct (publish_ok q c p s h Hok) as (s1 & q1 & E1 & H). rewrite E in E1. by injection E1 as <- <-.
Qed.

Lemma cq_steps_ok s s' : cq_steps s s' -> cq_ok s -> cq_ok s'.
Proof. induction 1 as [s|s1 s2 s3 _ IH Hs]; [done|]. intros Hok. apply (cq_step_ok s2); [done|]. by apply IH. Qed.

Lemma cq_steps_trans s1 s2 s3 : cq_steps s1 s2 -> cq_steps s2 s3 -> cq_steps s1 s3.
Proof. intros H1. induction 1 as [|s2 s4 s3 _ IH Hs]; [done|]. eapply steps_snoc; [by apply IH|done]. Qed.

Lemma cq_steps_one s s' : cq_step s s' -> cq_steps s s'.
Proof. intros Hs. eapply steps_snoc; [apply steps_refl|done]. Qed.

(** ** The operations as steps *)

Lemma copy_entry_steps q c p s i h :
  (i < Z.to_nat QCACHE_NUM)%nat -> cq_steps (mk_sys q c p s (Some (i, [])) h) (mk_sys q c p (copy_entry q s i) (Some (S i, [])) h).
Proof.
  intros Hi. eapply steps_snoc; [apply cq_steps_one, step_read_len; done|]. apply (step_read_bufptr q c p (read_len q s i) (S i) i [] []).
Qed.

(** A line is fetched in one go when the client does nothing meanwhile. *)
Lemma fetch_steps q c p s h :
  cq_steps (mk_sys q c p s None h) (mk_sys q c p (cqueue_sched_fetch s q) None h).
Proof.
  unfold cqueue_sched_fetch. change (Z.to_nat QCACHE_NUM) with 4%nat. cbn [seq foldl].
  eapply cq_steps_trans; [apply cq_steps_one, step_start|].
  do 4 (eapply cq_steps_trans; [apply copy_entry_steps; change (Z.to_nat QCACHE_NUM) with 4%nat; lia|]).
  apply cq_steps_one, step_fetched.
Qed.

(** A put is a drop, or its two stores. *)
Lemma cli_put_steps tsc buf l q c s k h c' q' :
  0 < l < 2 ^ 16 -> cqueue_cli_put tsc buf l c q = (c', q') ->
  cq_steps (mk_sys q c Idle s k h) (mk_sys q' c' Idle s k (if put_full c q then h else accept (mk_pkt buf l) h)).
Proof.
  intros Hl. unfold cqueue_cli_put. destruct (put_full c q) eqn:Ef; intros [= <- <-]; [by apply cq_steps_one, step_drop|].
  eapply steps_snoc; [apply cq_steps_one, (step_put_bufptr tsc buf l); done|].
  change (put_done tsc l c q) with (put_done tsc l c (store_bufptr (c_tail c) buf q)). apply step_put_len.
Qed.

Lemma get_loop_steps fuel tsc max s k : forall rv q c h rv' c' q',
  get_loop fuel tsc max rv c q = Some (rv', (c', q')) -> exists h', cq_steps (mk_sys q c Idle s k h) (mk_sys q' c' Idle s k h').
Proof.
  induction fuel as [|fuel IH]; intros rv q c h rv' c' q' E; [done|]. cbn [get_loop] in E.
  destruct (negb (c_head c =? c_shead c) && (rv <? max)) eqn:Eb; [|injection E as <- <- <-; eexists; apply steps_refl]. zify_bool.
  unfold get_one in E. apply (IH _ _ _ (clear_one h)) in E as (h' & Hs). exists h'. eapply cq_steps_trans; [|exact Hs].
  eapply steps_snoc; [apply cq_steps_one, step_clear_bufptr; lia|].
  change (get_done (tsc fuel) c q) with (get_done (tsc fuel) c (store_bufptr (c_head c) 0 q)). apply step_clear_len.
Qed.

(** A call of [cqueue_cli_get] is a run of its steps. *)
Lemma cli_get_steps tsc max q c s k h rv c' q' :
  cqueue_cli_get tsc max c q = Some (rv, (c', q')) -> exists h', cq_steps (mk_sys q c Idle s k h) (mk_sys q' c' Idle s k h').
Proof.
  unfold cqueue_cli_get. destruct (p_s_head q) as [sh|] eqn:Es; [|done]. cbn [mbind option_bind].
  destruct (get_loop _ _ _ _ _ _) as [[rv1 [c1 q1]]|] eqn:E; [|done]. cbn [mbind option_bind]. intros [= <- <- <-].
  destruct (get_loop_steps _ _ _ s k _ _ _ (refreshed h) _ _ _ E) as [h' Hs]. exists h'.
  eapply cq_steps_trans; [apply cq_steps_one, step_refresh, Es|]. eapply steps_snoc; [exact Hs|apply step_count].
Qed.

Lemma fetch_entry s q i :
  length (qcache s) = Z.to_nat QCACHE_NUM -> 0 <= i < QCACHE_NUM -> qcache (cqueue_sched_fetch s q) !!! Z.to_nat i = get_slot (s_tail s + i) q.
Proof.
  intros Hl Hi. unfold cqueue_sched_fetch. change (Z.to_nat QCACHE_NUM) with 4%nat in *. rewrite QCACHE_NUM_4 in Hi. cbn [seq foldl]. simpl.
  destruct (qcache s) as [|e0 [|e1 [|e2 [|e3 [|]]]]]; try done. assert (i = 0 \/ i = 1 \/ i = 2 \/ i = 3) as [->|[->|[->| ->]]] by lia; simpl;
    match goal with |- context [bufptr ?x] => change (mk_pkt (bufptr x) (len x) = x); by destruct x end.
Qed.

(** C17: The circular queue is first-in first-out under any interleaving of the
    single stores of the client (pointer and length of an entry, when it puts a
    packet and when it clears a slot) with the single reads of the scheduler,
    on two conditions that the source leaves to the machine and to memcpy: the
    stores of the client are seen in their order, and the copy of a cache line
    reads the length of an entry before its pointer, and the lengths in
    increasing order ([cqueue_torn_read] and [cqueue_backward_copy] show other
    orders).  The packets that the scheduler takes are then the packets that
    the client put, pointer and length, in order, none twice and none left out;
    the packets that are not yet cleared are intact in their slots, so that the
    client never overwrites one; the slots that it clears are those of packets
    that the scheduler has marked; there are always fewer of them than the size
    asked for. *)
Theorem cqueue_fifo size s :
  1 <= size <= 2 ^ 31 - 3 -> cq_steps (cq_start size) s ->
  let h := hist s in
  taken h `prefix_of` accepted h /\
  (forall p, intact_from (pc s) h <= p < n_accepted h -> accepted h !! Z.to_nat p = Some (get_slot (p mod real_size (cq s)) (cq s))) /\
  0 <= cleared h <= marked h /\ marked h <= n_taken h /\
  n_pending (cli s) = n_accepted h - cleared h /\ n_accepted h - cleared h < user_size (cq s).
Proof.
  intros Hsz Hs h. pose proof (cq_steps_ok _ _ Hs (cq_start_ok _ Hsz)) as [_ [O1 O2 O3 O4] [C1 _ _ _] _ _ [L1 _ L3 _] _]. fold h in O1, O2, O3, O4, C1, L1, L3.
  split_and!; try done; try lia. rewrite L1. apply prefix_take.
Qed.

(** No packet is overlooked: after the scheduler has fetched the current
    line, the length it peeks at is that of the oldest packet that it has not
    taken, and 0 exactly when it has taken all of them. *)
Theorem cqueue_fetch_finds size s :
  1 <= size <= 2 ^ 31 - 3 -> cq_steps (cq_start size) s -> copying s = None ->
  let f := cqueue_sched_fetch (sch s) (cq s) in
  match accepted (hist s) !! length (taken (hist s)) with
  | Some p => cqueue_sched_peek f = len p /\ 0 < len p /\ (cqueue_sched_get f (cq s)).1 = bufptr p
  | None => cqueue_sched_peek f = 0 /\ taken (hist s) = accepted (hist s)
  end.
Proof.
  intros Hsz Hs Hc f. destruct s as [q c p0 sc k h]. simpl in *. subst k. pose proof (cq_steps_ok _ _ Hs (cq_start_ok _ Hsz)) as Hok.
  pose proof (cq_steps_ok _ _ (fetch_steps q c p0 sc h) Hok) as Hok'. fold f in Hok'. destruct (co_slots _ Hok) as [L1 L2 _ _]. simpl in L1, L2.
  destruct (accepted h !! length (taken h)) as [p|] eqn:Ep.
  - pose proof (proj1 (list.Forall_forall _ _) L2 p (list_elem_of_lookup_2 _ _ _ Ep)) as Hp. apply lookup_lt_Some in Ep as Hlt.
    destruct (co_sizes _ Hok) as [_ _ [_ Hl]], (co_sch _ Hok) as [_ _ S3 S4], (co_order _ Hok) as [O1 O2 O3 _]. simpl in *.
    pose proof (Z.mod_pos_bound (n_taken h) QCACHE_NUM ltac:(done)).
    assert (Ef : qcache f !!! Z.to_nat (s_next f) = p).
    { change (s_next f) with (s_next sc). unfold f. rewrite fetch_entry, S4 by lia. pose proof (untaken_intact _ _ _ _ _ _ (n_taken h) Hok) as Hf.
      unfold n_taken at 4 in Hf. rewrite Nat2Z.id, Ep in Hf. apply (inj Some). symmetry. apply Hf. unfold n_taken, n_accepted in *. lia. }
    unfold cqueue_sched_peek, cqueue_sched_get. change (s_cache_valid f) with true. cbv zeta. cbn [negb fst]. split_and!; [by rewrite Ef|lia|exact (f_equal bufptr Ef)].
  - split; [|rewrite L1; apply take_ge, lookup_ge_None; exact Ep].
    destruct (decide (cqueue_sched_peek f = 0)) as [|Hpk]; [done|]. destruct (peek_next _ _ _ _ _ Hok' Hpk) as (_ & Hn & _). congruence.
Qed.

(** What [cqueue_cli_done] tests: the packets that the scheduler has finished
    with are cleared; there may be others in the queue. *)
Lemma cli_done_spec s : cq_ok s -> cqueue_cli_done (cli s) (cq s) = Some (published (hist s) =? cleared (hist s)).
Proof.
  intros [[Hu _ _] [O1 O2 O3 O4] [_ _ C3 _] _ [S1 _ _ _] _ _]. unfold cqueue_cli_done. rewrite S1, C3. simpl. f_equal.
  destruct (Z.eqb_spec (published (hist s)) (cleared (hist s))) as [->|Hne]; [by apply Z.eqb_eq|]. apply Z.eqb_neq. intros E. apply Hne.
  apply (mod_inj (real_size (cq s))); lia.
Qed.

(** The client gets all its slots back: when the scheduler has marked and
    published every packet, two calls of [cqueue_cli_get] (the first may work
    on an old copy of the index) clear the queue, and [cqueue_cli_done] says so. *)
Theorem cqueue_cli_drains size s tsc :
  1 <= size <= 2 ^ 31 - 3 -> cq_steps (cq_start size) s -> pc s = Idle -> published (hist s) = n_accepted (hist s) ->
  exists rv1 c1 q1 rv2 c2 q2,
    cqueue_cli_get tsc (2 ^ 32 - 1) (cli s) (cq s) = Some (rv1, (c1, q1)) /\
    cqueue_cli_get tsc (2 ^ 32 - 1) c1 q1 = Some (rv2, (c2, q2)) /\
    n_pending c2 = 0 /\ cqueue_cli_done c2 q2 = Some true.
Proof.
  intros Hsz Hs Hi Hp. destruct s as [q c p0 sc k h]. pose proof (cq_steps_ok _ _ Hs (cq_start_ok _ Hsz)) as Hok. simpl in *. subst p0.
  destruct (get_ok tsc (2 ^ 32 - 1) q c sc k h Hok ltac:(lia)) as (c1 & q1 & E1 & Hok1).
  set (h1 := with_cleared _ _) in Hok1.
  destruct (get_ok tsc (2 ^ 32 - 1) q1 c1 sc k h1 Hok1 ltac:(lia)) as (c2 & q2 & E2 & Hok2). set (h2 := with_cleared _ _) in Hok2.
  assert (Hd : cleared h2 = published h /\ published h2 = published h /\ n_accepted h2 = n_accepted h).
  { unfold h2, h1, clear_target, refreshed. simpl. destruct (Z.eqb_spec (seen h) (cleared h)); simpl; by rewrite Z.eqb_refl. }
  destruct Hd as (D1 & D2 & D3). eexists _, c1, q1, _, c2, q2. split; [exact E1|]. split; [exact E2|]. split.
  - pose proof (ci_pending _ _ _ (co_cli _ Hok2)) as Hn. cbn [cli hist] in Hn. lia.
  - pose proof (cli_done_spec _ Hok2) as Hdone. cbn [cli cq hist] in Hdone. rewrite Hdone, D1, D2, Z.eqb_refl. done.
Qed.

(** ** Examples *)

(** Two packets go through a queue of five; the line is copied in one go. *)
Definition cq_demo_puts : cq_sys :=
  let s := cq_start 5 in
  let '(c, q) := cqueue_cli_put 10 0x1000 60 (cli s) (cq s) in
  let '(c, q) := cqueue_cli_put 11 0x2000 1500 c q in
  mk_sys q c Idle (sch s) None (mk_hist [mk_pkt 0x1000 60; mk_pkt 0x2000 1500] [] 0 0 0 0).

Lemma cq_demo_reached : cq_steps (cq_start 5) cq_demo_puts.
Proof.
  eapply cq_steps_trans; [apply (cli_put_steps 10 0x1000 60); [lia|vm_compute; reflexivity]|].
  apply (cli_put_steps 11 0x2000 1500); [lia|vm_compute; reflexivity].
Qed.

Lemma cqueue_fifo_witness : n_pending (cli cq_demo_puts) = 2 /\ user_size (cq cq_demo_puts) = 5.
Proof.
  destruct (cqueue_fifo 5 cq_demo_puts ltac:(vm_compute; split; discriminate) cq_demo_reached) as (_ & _ & _ & _ & Hn & _).
  split; [exact Hn|reflexivity].
Defined.

Lemma cqueue_fetch_finds_witness :
  cqueue_sched_peek (cqueue_sched_fetch (sch cq_demo_puts) (cq cq_demo_puts)) = 60.
Proof.
  exact (proj1 (cqueue_fetch_finds 5 cq_demo_puts ltac:(vm_compute; split; discriminate) cq_demo_reached eq_refl)).
Defined.

(** The scheduler fetches a line, takes a packet, marks it and publishes. *)
Definition cq_serve (s : cq_sys) : cq_sys :=
  let f := cqueue_sched_fetch (sch s) (cq s) in
  let p := mk_pkt (cqueue_sched_get f (cq s)).1 (cqueue_sched_peek f) in
  let f := cqueue_mark 1 (cqueue_sched_get f (cq s)).2 (cq s) in
  match cqueue_sched_publish f (cq s) with
  | Some (f, q) => mk_sys q (cli s) (pc s) f None (publish (mark 1 (take_pkt p (hist s))))
  | None => s
  end.

Lemma cq_serve_reached s0 s :
  cq_steps s0 s -> copying s = None -> cqueue_sched_peek (cqueue_sched_fetch (sch s) (cq s)) <> 0 -> marked (hist s) <= n_taken (hist s) ->
  cq_steps s0 (cq_serve s).
Proof.
  intros Hs Hc Hp Hm. destruct s as [q c p0 sc k h]. cbn [copying sch cq hist] in *. subst k. unfold cq_serve. cbn [copying sch cq cli pc hist].
  pose proof (fetch_steps q c p0 sc h) as Hf. set (f := cqueue_sched_fetch sc q) in *. clearbody f.
  destruct (cqueue_sched_publish _ _) as [[f' q']|] eqn:E; [|done].
  eapply steps_snoc; [eapply steps_snoc; [eapply steps_snoc; [exact (cq_steps_trans _ _ _ Hs Hf)|]|]|].
  - apply step_take; [done|]. apply surjective_pairing.
  - apply (step_mark 1); [lia|]. simpl. change (marked h + 1 <= n_taken (take_pkt (mk_pkt (cqueue_sched_get f q).1 (cqueue_sched_peek f)) h)).
    rewrite n_taken_take. lia.
  - apply step_publish. exact E.
Qed.

Definition cq_demo_sched : cq_sys := cq_serve (cq_serve cq_demo_puts).

Lemma cq_demo_sched_reached : cq_steps (cq_start 5) cq_demo_sched.
Proof.
  apply cq_serve_reached; [apply cq_serve_reached; [apply cq_demo_reached| | |]| | |]; vm_compute; congruence.
Qed.

Lemma cqueue_cli_drains_witness :
  published (hist cq_demo_sched) = 2 /\
  exists rv1 c1 q1 rv2 c2 q2,
    cqueue_cli_get (fun _ => 20) (2 ^ 32 - 1) (cli cq_demo_sched) (cq cq_demo_sched) = Some (rv1, (c1, q1)) /\
    cqueue_cli_get (fun _ => 20) (2 ^ 32 - 1) c1 q1 = Some (rv2, (c2, q2)) /\ n_pending c2 = 0 /\ cqueue_cli_done c2 q2 = Some true.
Proof.
  split; [reflexivity|].
  exact (cqueue_cli_drains 5 cq_demo_sched (fun _ => 20) ltac:(vm_compute; split; discriminate) cq_demo_sched_reached eq_refl eq_refl).
Defined.

(** ** The order of the accesses matters *)

(** The two sides of a queue, the client's side being complete calls. *)
Definition put (tsc buf l : Z) (s : cqueue_client * cqueue) : cqueue_client * cqueue := cqueue_cli_put tsc buf l s.1 s.2.

(** Nothing makes [memcpy] read the length of an entry before its pointer.  In
    the order of the addresses a put that comes between the two reads gives the
    scheduler the length of a packet without its buffer. *)
Theorem cqueue_torn_read size tsc buf l :
  2 <= size <= 2 ^ 31 - 3 -> 0 < l < 2 ^ 16 ->
  let s := cq_start size in
  let torn := read_bufptr (cq s) (sch s) 0 in
  let '(c, q) := cqueue_cli_put tsc buf l (cli s) (cq s) in
  let f := fetched (read_len q torn 0) in
  cqueue_sched_peek f = l /\ (cqueue_sched_get f q).1 = 0 /\ n_cli_drp c = 0.
Proof.
  intros Hs Hl s torn. pose proof (cq_start_ok size ltac:(lia)) as Hok. pose proof (put_full_spec _ _ _ _ _ _ Hok) as Hf.
  change (put_full (cli s) (cq s) = negb (1 <? size)) in Hf.
  unfold cqueue_cli_put. rewrite Hf. destruct (Z.ltb_spec 1 size) as [_|?]; [|lia]. cbn [negb]. cbv zeta.
  pose proof (so_len _ _ (co_sizes _ Hok)) as [Hlen _]. pose proof (so_user _ _ (co_sizes _ Hok)) as Hu. fold s in Hlen, Hu.
  change (user_size (cq s)) with size in Hu.
  split_and!; [|change (bufptr (get_slot 0 (cq s)) = 0); exact (f_equal bufptr (lookup_total_repeat (mk_pkt 0 0) (Z.to_nat (real_size (cq s))) 0 ltac:(lia)))|done].
  unfold cqueue_sched_peek, read_len, store_len, store_bufptr. change (c_tail (cli s)) with 0. change (s_tail torn + Z.of_nat 0) with 0.
  rewrite slot_put_eq; [done|]. unfold put_slot. cbn [queue]. rewrite length_insert, Hlen. lia.
Qed.

Lemma cqueue_torn_read_witness :
  let s := cq_start 5 in
  let '(c, q) := cqueue_cli_put 10 0x1000 60 (cli s) (cq s) in
  let f := fetched (read_len q (read_bufptr (cq s) (sch s) 0) 0) in
  cqueue_sched_peek f = 60 /\ (cqueue_sched_get f q).1 = 0 /\ n_cli_drp c = 0.
Proof. exact (cqueue_torn_read 5 10 0x1000 60 ltac:(lia) ltac:(lia)). Defined.

(** Copied from its last entry on, a line may bring back a packet: with packets
    2 to 4 of a queue of four in the last three slots, these are copied, the
    client gets them back and puts packet 5 in the first slot, and the
    scheduler, which has taken four packets, takes packet 5 and then packet 2. *)
Lemma cqueue_backward_copy :
  let s := cq_start 4 in
  let '(c, q) := put 3 0x3000 300 (put 2 0x2000 200 (put 1 0x1000 100 (cli s, cq s))) in
  let q := cqueue_init_p_s_head 1 q in
  match cqueue_cli_get (fun _ => 9) 4 c q with
  | Some (1, s1) =>
      let '(c, q) := put 4 0x4000 400 s1 in
      let f := copy_entry q (copy_entry q (copy_entry q (sch s) 3) 2) 1 in
      match cqueue_cli_get (fun _ => 9) 4 c (cqueue_init_p_s_head 0 q) with
      | Some (3, s2) =>
          let '(c, q) := put 5 0x5000 500 s2 in
          let f := fetched (copy_entry q f 0) in
          n_cli_drp c = 0 /\
          (cqueue_sched_get f q).1 = 0x5000 /\
          (cqueue_sched_get (cqueue_sched_get f q).2 q).1 = 0x2000 /\ cqueue_sched_peek (cqueue_sched_get f q).2 = 200
      | _ => False
      end
  | _ => False
  end.
Proof. vm_compute. done. Qed.
